(* ===== verification/_CoqProject ===== *)
-Q . S2P
Prelude.v
Text.v
F64.v
Time.v
Types.v
Messages.v
SecurityMessages.v
Frame.v
Actions.v
Schema.v
ResponseRules.v
Config.v
ConfigRegistry.v
LocalAuthList.v
Authorization.v
Connector.v
Reservation.v
Offline.v
Timers.v
Metering.v
SmartCharging.v
ChargingProfiles.v
Maintenance.v
Security.v
Certificates.v
Interface.v
Store.v
Actor.v
Calls.v
Transactions.v
Secure.v
Sampling.v
Link.v
Handlers.v
Commands.v
Restore.v
Station.v
Samples.v
StatusRuns.v
Dispatch.v
Walk.v
Books.v
Ledger.v
Histories.v
HistoryOps.v
Lifecycle.v
Utf8.v
Strings.v
CsmsState.v
CsmsConfig.v
CsmsServer.v
CsmsSession.v
CsmsAccept.v
WsTask.v
WsCalls.v
WsAnswers.v
WsHandshake.v
FileNames.v
StateFile.v
Crashes.v
Scenario.v
Fleet.v
ScenarioRunner.v
ScenarioRuns.v
Junit.v
Script.v
ScriptRuns.v
TuiText.v
LinePump.v
Pem.v
CsmsTyped.v
CsmsCommand.v
CsmsForm.v
FormSessions.v
Meeting.v
LogView.v
CsmsApp.v
CsmsLoop.v
CsmsUi.v
CsmsConsole.v
