(* ===== verification/Prelude.v ===== *)
(** * Kirby: an OCPP 1.6J charge point and its test central system

    A Rocq model of the Rust workspace [kirby-ocpp] and the theorems that make it correct. The
    workspace has two cores: [crates/kirby-ocpp-core], a simulated charge point (a station), and
    [crates/kirby-csms-core], a central system (CSMS) to test stations against. Paths below are
    relative to [crates/kirby-ocpp-core/src/] unless they name another crate.

    ** How the program is put together

    A station is one actor, [station/actor.rs]: a task that owns all state and reacts to
    commands of the user, events of the connection, answers to its CALLs and its timers. The
    rules it applies live in modules of pure functions and small data structures (configuration,
    authorization, reservations, charging profiles, ...). What it sends goes to the connection
    task ([ws/task.rs]), which numbers CALLs, matches answers and validates payloads. A fleet
    ([fleet.rs]) is many stations with expanded ids; a scenario ([scenario/]) is a scripted run
    against a station. The CSMS is a registry of stations behind a mutex
    ([kirby-csms-core/src/server.rs]) and one session task per connection; it decides the answer
    to a CALL by scripted faults, schema validation, responders or canned defaults, and keeps a
    read model of the protocol state of each station ([state.rs]).

    ** The files

    Libraries: [Prelude] (results, record update, machine integers, iterator idioms, tactics and
    the hint database [station]), [Text] (strings as scalar values, parsing and printing of
    integers, the order of [BTreeMap<String, _>]), [Utf8], [Strings] ([str::split] and its kin,
    lossy decoding; padded decimals in [Numerals]), [F64] (binary64 and [str::parse::<f64>]),
    [Time] (the interface of [chrono]).

    Vocabulary: [Types] ([ids.rs], [ocpp/types.rs]), [Messages] and [SecurityMessages]
    ([ocpp/messages/]), [Frame] ([ocpp/frame.rs]), [Actions] (the names of
    [ocpp/messages/registry.rs]), [Schema] ([ocpp/schema.rs]), [Interface] ([error.rs],
    [station/command.rs], [station/event.rs]), [Store] (the records of [store.rs]).

    Pure components of the station, one file of [station/] each: [ResponseRules], [Config]
    ([config.rs]), [ConfigRegistry], [LocalAuthList], [Authorization], [Connector]
    ([connector.rs], [transaction.rs], [snapshot.rs]), [Reservation], [Offline], [Status],
    [Timers], [Metering], [SmartCharging], [ChargingProfiles], [Maintenance], [Security],
    [Certificates].

    The actor: [Actor] (its state, [power.rs], [persistence.rs]), [Calls] ([calls.rs] and what
    starts no further work), [Transactions] ([transactions.rs]), [Secure] ([secure.rs]),
    [Sampling] ([sampling.rs]; [reservations.rs] in [ReservationTimers]), [Link] ([link.rs]),
    [Handlers] ([handlers/]), [Commands] ([commands.rs], [local_edit.rs]), [Restore] (start from
    the state file) and [Station] (the loop, as a transition system). An operation of the actor
    is a function from the state to the next state; what it hands to other tasks is appended to
    the [outbox]. A closure of the source is data ([Continuation], [Done]) that [Link] runs.

    Around the actor: [WsTask] ([ws/task.rs], the connection task) with its theorems [WsCalls] and
    [WsAnswers], [WsHandshake] ([ws/handshake.rs] and the URLs of [ws/mod.rs]; [ws/tls.rs] and the
    attempt to connect in [ClientTls]), [FileNames] and
    [StateFile] ([store.rs] on a disk that may fail) with its theorems [Crashes], [Scenario] and
    [ScenarioRunner] ([scenario/]) with its theorems [ScenarioRuns], [Junit]
    ([scenario/junit.rs]), [Fleet] ([fleet.rs]).

    Theorems about whole runs of the actor: [Samples] (a concrete environment, for witnesses),
    [Dispatch], [Walk] (the tactic that steps through an operation), [Books] and [Ledger]
    (who is owed an answer), [Histories], [HistoryOps] and [Lifecycle] (transactions, registers,
    delivery of the offline queue).

    The CSMS: [CsmsState] ([state.rs]), [CsmsConfig] ([policy.rs], [config.rs], [fault.rs],
    [defaults.rs], [auth.rs]), [CsmsServer] (the registry of [server.rs], [event.rs],
    [error.rs]), [CsmsSession] (its [Session]), [CsmsAccept] (its handshake; [tls.rs] and
    [serve_tcp] in [ServerTls]), [CsmsTyped] ([typed.rs]) and [Script] ([kirby-csms/src/script.rs]) with its theorems [ScriptRuns].
    [Meeting] puts the handshakes of both ends together.

    The terminals: of [kirby-ocpp-tui/src/], [TuiText] ([text.rs]), [LinePump]
    ([stdout_pump.rs], the queue and the thread behind every line of output) and [LogView]
    ([logview.rs]) with its theorems in [LogRuns]; of [kirby-csms-tui/src/]: [CsmsCommand], [CsmsForm] and [Pem]
    ([command.rs] and [form.rs]) with the theorems of [FormSessions], [CsmsApp] ([app.rs], the
    state and what happens to it; [actions.rs] in [CsmsActions]) and [CsmsLoop] ([keys.rs],
    [update] of [app.rs], [execute] and [drive] of [lib.rs]: the terminal next to the registry,
    as a transition system) with the theorems of [CsmsUi] (its Module [CsmsMirror] for whole
    runs). Without a terminal the CSMS writes lines and reads commands: [CsmsConsole]
    ([headless.rs] and [stdin_cmd.rs] of [kirby-csms/src/], in the Modules [Headless] and
    [Stdin]).

    ** What the theorems show

    - Whole runs of the station: every command and every CALL of the CSMS is answered exactly
      once ([exactly_once]); transactions go through their stages only, registers never run
      backwards, ids are typed and drawn once, deliveries make progress ([Lifecycle]).
    - The connection task is an abstract queue of callers, each settled once ([ws_calls]), and
      never answers a CALL of the CSMS twice ([ws_answers_bounded]).
    - The sessions of the CSMS: one outstanding CALL, answers by id, callers in order
      ([session_calls]); the events determine who is connected ([registry_follows_events]);
      nobody gets in unchecked ([serve_checks], [handshake_check]); its memory is bounded
      ([registry_bounded], [csms_state_bounded]); its transactions are a forgetful log
      ([transactions_refine_log]); the order of its decisions ([decide_spec]).
    - Both together: what the station reads as an upgrade ([upgrade_spec]) and when a station of
      the core is accepted by the CSMS of this repository ([station_meets_csms]).
    - TLS: a station sends nothing to a server it does not trust, and trusts what its settings say
      ([connect_trusts]); with a client CA the CSMS knows a station by a certificate of that CA
      ([mutual_tls_admits]).
    - The state file: a crash during a save leaves the old or the new content
      ([save_survives_crash]), loading loses nothing ([load_keeps_data]).
    - Verdicts: a scenario and a script that lose and forget part of what they see still decide
      as an observer of everything would ([scenario_verdict], [script_verdict]).
    - Round trips: frames, configuration snapshots, PEM blocks, response rules.
    - Equivalence with references: the composite schedule is the pointwise evaluation of the
      profiles; the energy of a connector is summed over pieces of constant limit; the names of
      files agree exactly where their ids do.
    - Refinement: the timer wheel with its concurrent tasks is a map from keys to due times.
    - Exact answers: [violation_spec] (which error code a schema violation gets), [change_spec],
      [reserve_now_spec], [apply_spec], [set_spec], [authorize_spec], [dispatch_answers],
      [fleet_ids], and the rest of the table.
    - Forms: the errors shown are those of the content ([forms_live]); what can be sent is sent as
      typed ([submit_answers]).
    - The terminal of the CSMS: its list follows the registry over lost and late events
      ([ui_follows_registry]); nothing leaves it that was not asked for ([nothing_unasked]); its
      log is the newest part of everything written that fits ([log_window]), in which answers and
      CALLs find each other ([log_pairs]).
    - The console: every line of output is written or counted as lost ([output_accounted]) and
      what is queued is written before the program ends ([finish_flushes]); commands are read as
      the lines of the input, however it is cut into pieces ([read_lines_spec]), and each is
      answered under its id ([command_answers]).
    - Bounds: the authorization cache, the offline queue, the plans of uploads, back-off delays.

    ** Conventions, bounds and hypotheses

    Machine integers are [Z] with their width written out where it matters; [f64] is the
    Standard Library's binary64 specification and computes. A [HashMap] whose order the source
    leaves open is a [gmap]; a [BTreeMap] is a [gmap] read in key order ([btree_iter]).
    Code outside the repository is a class of operations with the documented behaviour used:
    [SerdeJson], [JsonText] and [NumberEq] (JSON values), [Chrono], [UrlParser] and [UrlParts],
    [Encoding] (base64, percent encoding, the accept key), [HeaderText], [Pki], [Rustls],
    [RustlsClient] and [RustlsServer] (PEM, trust anchors, the TLS handshake), the derived
    decoders and encoders [Wire], [InWire], [CsmsWire], [TypedWire], [CommandWire], [FormWire],
    [StoreWire], [TomlWire] and [ScriptWire], [CsmsFormat], [Handshake], [JsonSchema], [Unicode],
    [LogText], [UiText] and [ConsoleText] (lower case, pretty JSON, fuzzy matching, formats of
    times and addresses).
    Laws, where a theorem needs them, are classes of propositions of their own ([SerdeJsonLaws],
    [ChronoLaws], [PkiLaws], [RustlsLaws], [RustlsServerLaws], [UnicodeLaws], [Agreed]). What the outside does at a moment is an
    oracle: [Faults] (does this operation on the disk fail), [Env] (the questions of the
    connection task), the [World] of a scenario or a script. Every theorem with a hypothesis has
    a witness that applies it to a concrete instance.

    An iteration of the actor is taken to run in an instant, and the channels between the actor
    and its tasks to be unbounded; between two iterations time passes, timer tasks send and the
    environment does anything. The [select!] of the source is a choice: the model lets any ready
    branch win. Recursion that is not structural in the source is bounded by a measure that is
    proved enough: [SLEEP_FUEL] (73,000 sleeps of a day cover every [Duration]), the eviction
    loops by the size of the collection, [run_sync] by its list of keys, [arm] by depth one.
    The theorems on CSMS sessions assume that fewer than [2^64] message or session numbers are
    drawn.

    ** Not modelled

    TCP, the TLS protocol and the certificate checks of rustls and webpki, the accept loop; the serde
    derivations behind the JSON and TOML form of data and the JSON Schema files; log texts and
    most texts of errors; channels to the actor, the copies of its state for display and the
    system clock (the station handle); the command line programs, the drawing of the terminal
    programs, the panes, forms and keys of the station terminal, and the test kit. They are I/O,
    generated code, or glue around the operations above. *)

From stdpp Require Export base decidable option list countable gmap sorting.
From Stdlib Require Export ZArith Lia Bool.

#[global] Open Scope Z_scope.
#[global] Set Default Goal Selector "!".

(** ** Results of fallible code *)

Inductive result (A E : Type) : Type :=
| Ok (a : A)
| Err (e : E).
Arguments Ok {A E} a.
Arguments Err {A E} e.

#[export] Instance result_eq_dec {A E} `{EqDecision A, EqDecision E} : EqDecision (result A E).
Proof. solve_decision. Defined.

Declare Scope rust_scope.
Delimit Scope rust_scope with rust.

(** [let? x := e in k]: the [?] operator on [Option]; [let! x := e in k] the one on [Result]. *)
Notation "'let?' x ':=' e 'in' k" :=
  (match e with Some x => k | None => None end)
    (at level 10, x pattern, e at level 200, k at level 200) : rust_scope.
Notation "'let!' x ':=' e 'in' k" :=
  (match e with Ok x => k | Err err => Err err end)
    (at level 10, x pattern, e at level 200, k at level 200) : rust_scope.
#[global] Open Scope rust_scope.

(** What [tokio::sync::broadcast::Receiver::recv] yields: a value, the number of values that were
    dropped because the receiver was too slow, or the end of the channel. *)
Module Received.
Inductive t (E : Type) : Type :=
| Got (event : E)
| Lagged (missed : Z)
| Closed.
Arguments Got {E} event.
Arguments Lagged {E} missed.
Arguments Closed {E}.
End Received.

(** [for x in l { f(x)?; }] *)
Fixpoint try_each {A E} (f : A -> result unit E) (l : list A) : result unit E :=
  match l with
  | [] => Ok tt
  | x :: l => match f x with Ok _ => try_each f l | Err e => Err e end
  end.

Lemma try_each_Ok {A E} (f : A -> result unit E) l :
  try_each f l = Ok tt <-> forall x, In x l -> f x = Ok tt.
Proof.
  induction l as [|x l IH]; simpl; [naive_solver|].
  destruct (f x) as [[]|] eqn:Hx; naive_solver congruence.
Qed.

(** [r.ok()], [r.map_err(f)] and [collect::<Result<Vec<_>, _>>()] *)
Definition result_ok {A E} (r : result A E) : option A := match r with Ok a => Some a | Err _ => None end.
Definition result_map_err {A E F} (f : E -> F) (r : result A E) : result A F :=
  match r with Ok a => Ok a | Err e => Err (f e) end.
Fixpoint collect_results {A E} (l : list (result A E)) : result (list A) E :=
  match l with
  | [] => Ok []
  | Err e :: _ => Err e
  | Ok a :: l => match collect_results l with Ok l => Ok (a :: l) | Err e => Err e end
  end.

Lemma collect_results_Ok {A E} (l : list (result A E)) found :
  collect_results l = Ok found <-> l = map Ok found.
Proof.
  revert found. induction l as [|[a|e] l IH]; intros [|b found]; simpl; try done.
  - by destruct (collect_results l).
  - destruct (collect_results l) as [r|e].
    + split; [intros [= -> <-]; f_equal; by apply IH|]. intros [= -> Hl]. by apply IH in Hl as [= ->].
    + split; [done|]. intros [= -> Hl]. by apply IH in Hl.
Qed.

(** ** Record update

    A record type registers the expansion of its constructor over its own fields once
    ([Eta]); the setter of every field is then computed by instance search. *)

Class Eta (R : Type) := eta : R -> R.

Class Setter {R F : Type} (getter : R -> F) := over : (F -> F) -> R -> R.
Arguments over {R F} getter {_} f r /.

Ltac derive_setter :=
  lazymatch goal with
  | |- @Setter ?R ?F ?g =>
      let inst := constr:(_ : Eta R) in
      let body := eval hnf in inst in
      lazymatch eval pattern g in body with
      | ?upd _ =>
          let s := eval cbv beta in (fun (f : F -> F) => upd (fun r => f (g r))) in
          exact s
      end
  end.
#[export] Hint Extern 1 (Setter _) => derive_setter : typeclass_instances.

Declare Scope update_scope.
Notation "r <| f := v |>" := (over f (fun _ => v) r)
  (at level 1, f at level 1, left associativity) : update_scope.
Notation "r <| f ::= u |>" := (over f u r)
  (at level 1, f at level 1, left associativity) : update_scope.
#[global] Open Scope update_scope.

(** ** Machine integers *)

Definition u8_max : Z := 255.
Definition u32_max : Z := 4294967295.
Definition u64_max : Z := 18446744073709551615.
Definition usize_max : Z := u64_max.
Definition i32_min : Z := -2147483648.
Definition i32_max : Z := 2147483647.
Definition i64_min : Z := -9223372036854775808.
Definition i64_max : Z := 9223372036854775807.

Definition is_u8 (n : Z) : Prop := 0 <= n <= u8_max.
Definition is_u32 (n : Z) : Prop := 0 <= n <= u32_max.
Definition is_u64 (n : Z) : Prop := 0 <= n <= u64_max.
Definition is_i32 (n : Z) : Prop := i32_min <= n <= i32_max.
Definition is_i64 (n : Z) : Prop := i64_min <= n <= i64_max.

(** [u64::saturating_add], [u64::wrapping_add], [i64::saturating_mul]. *)
Definition u64_saturating_add (a b : Z) : Z := Z.min (a + b) u64_max.
Definition u64_wrapping_add (a b : Z) : Z := (a + b) mod (u64_max + 1).
Definition i64_saturating_mul (a b : Z) : Z := Z.max i64_min (Z.min (a * b) i64_max).

(** [u64::saturating_mul], [u32::saturating_sub]. *)
Definition u64_saturating_mul (a b : Z) : Z := Z.min (a * b) u64_max.
Definition saturating_sub (a b : Z) : Z := Z.max (a - b) 0.

(** [T::try_from(n)]: the value, if it fits. *)
Definition try_into (lo hi n : Z) : option Z :=
  if (lo <=? n) && (n <=? hi) then Some n else None.

(** The length of a vector as an integer of the program. *)
Definition len {A} (l : list A) : Z := Z.of_nat (length l).

(** ** Iterator idioms

    [iter().find], [Vec::retain] and [iter().filter] are the Standard Library's [List.find]
    and [List.filter], which take boolean predicates like the closures of the source. *)

Abbreviation find_first := List.find.
Abbreviation retain := List.filter.

Section iterators.
Context {A : Type}.
Implicit Types (p : A -> bool) (l : list A).

(** [iter().position(p)] *)
Fixpoint position p l : option nat :=
  match l with
  | [] => None
  | x :: l' => if p x then Some 0%nat else S <$> position p l'
  end.

(** [Vec::remove(index)] *)
Fixpoint remove_at (n : nat) l : list A :=
  match l, n with
  | [], _ => []
  | _ :: l', O => l'
  | x :: l', S n' => x :: remove_at n' l'
  end.

(** [if let Some(x) = iter_mut().find(p) { *x = f(x) }] *)
Fixpoint update_first p (f : A -> A) l : list A :=
  match l with
  | [] => []
  | x :: l' => if p x then f x :: l' else x :: update_first p f l'
  end.

(** [iter().any(p)], [iter().all(p)] *)
Definition any p l : bool := existsb p l.
Definition all p l : bool := forallb p l.

(** [min_by_key]: the first of the smallest elements *)
Fixpoint min_by (lt : A -> A -> bool) l : option A :=
  match l with
  | [] => None
  | x :: l' =>
      match min_by lt l' with
      | Some y => Some (if lt y x then y else x)
      | None => Some x
      end
  end.

(** [max_by_key]: the last of the largest elements *)
Definition max_by (lt : A -> A -> bool) l : option A :=
  fold_left (fun best x =>
    match best with
    | Some b => if lt x b then Some b else Some x
    | None => Some x
    end) l None.

(** [windows(2)] *)
Fixpoint windows2 l : list (A * A) :=
  match l with
  | [] => []
  | x :: l' =>
      match l' with
      | [] => []
      | y :: _ => (x, y) :: windows2 l'
      end
  end.
End iterators.

(** [first..=last] *)
Definition range_inclusive (first last : Z) : list Z :=
  map (fun i => first + Z.of_nat i) (seq 0 (Z.to_nat (last - first + 1))).

(** [sort_unstable] of a vector of integers, and [dedup] *)
Definition sort_unstable (l : list Z) : list Z := merge_sort Z.le l.
Fixpoint dedup (l : list Z) : list Z :=
  match l with
  | [] => []
  | x :: l' =>
      match l' with
      | y :: _ => if x =? y then dedup l' else x :: dedup l'
      | [] => [x]
      end
  end.

(** [Option::is_none_or], [Option::is_some_and], [Option::or] *)
Definition is_none_or {A} (p : A -> bool) (o : option A) : bool :=
  match o with Some x => p x | None => true end.
Definition is_some_and {A} (p : A -> bool) (o : option A) : bool :=
  match o with Some x => p x | None => false end.
Definition is_someb {A} (o : option A) : bool :=
  match o with Some _ => true | None => false end.
Definition option_or {A} (a b : option A) : option A :=
  match a with Some _ => a | None => b end.

(** Boolean equality of a type with decidable equality ([PartialEq::eq]). *)
Definition eqb {A} `{EqDecision A} (x y : A) : bool := bool_decide (x = y).
Infix "==" := eqb (at level 70, no associativity) : rust_scope.
Notation "x != y" := (negb (eqb x y)) (at level 70, no associativity) : rust_scope.


(** ** Shared automation *)

Create HintDb station.
Create Rewrite HintDb station.

Lemma eqb_refl {A} `{EqDecision A} (x : A) : (x == x) = true.
Proof. by apply bool_decide_eq_true. Qed.

Lemma eqb_true {A} `{EqDecision A} (x y : A) : (x == y) = true <-> x = y.
Proof. apply bool_decide_eq_true. Qed.

Lemma eqb_false {A} `{EqDecision A} (x y : A) : (x == y) = false <-> x <> y.
Proof. apply bool_decide_eq_false. Qed.

Lemma eqb_ne {A} `{EqDecision A} (x y : A) : x <> y -> (x == y) = false.
Proof. apply eqb_false. Qed.

(** Splits every conjunction of booleans in the context. *)
Ltac bool_facts :=
  repeat match goal with
  | H : (_ && _) = true |- _ => apply andb_true_iff in H; destruct H
  | H : (_ || _) = false |- _ => apply orb_false_iff in H; destruct H
  | H : negb _ = true |- _ => apply negb_true_iff in H
  | H : negb _ = false |- _ => apply negb_false_iff in H
  | H : eqb _ _ = true |- _ => rewrite eqb_true in H
  | H : eqb _ _ = false |- _ => rewrite eqb_false in H
  | H : (_ <=? _)%Z = true |- _ => apply Z.leb_le in H
  | H : (_ <=? _)%Z = false |- _ => apply Z.leb_gt in H
  | H : (_ <? _)%Z = true |- _ => apply Z.ltb_lt in H
  | H : (_ <? _)%Z = false |- _ => apply Z.ltb_ge in H
  | H : (_ =? _)%Z = true |- _ => apply Z.eqb_eq in H
  | H : (_ =? _)%Z = false |- _ => apply Z.eqb_neq in H
  end.

(** Case analysis on the scrutinee of some [match] or [if] of the goal or the context. *)
Ltac case_goal :=
  match goal with
  | |- context [match ?x with _ => _ end] => destruct x eqn:?
  end.
Ltac case_hyp H :=
  match type of H with
  | context [match ?x with _ => _ end] => destruct x eqn:?
  end.
Ltac cases := repeat (case_goal; simplify_eq/=; try done).
Ltac cases_in H := repeat (case_hyp H; simplify_eq/=; try done).

(** ** Lemmas on the iterator idioms *)

#[export] Hint Rewrite @eqb_refl : station.
#[export] Hint Resolve eqb_ne : station.

Section iterator_lemmas.
Context {A : Type}.
Implicit Types (p : A -> bool) (l : list A).

(** The result of [min_by] is an element that no other is smaller than. *)
Lemma min_by_spec (lt : A -> A -> bool) l x :
  (forall a b c, lt a b = true -> lt b c = true -> lt a c = true) ->
  (forall a b, lt a b = true -> lt b a = false) ->
  (forall a b c, lt a b = false -> lt b c = false -> lt a c = false) ->
  min_by lt l = Some x -> In x l /\ forall y, In y l -> lt y x = false.
Proof.
  intros Ht Ha Hn. revert x. induction l as [|z l IH]; intros x; simpl; [done|].
  assert (Hirr : forall a, lt a a = false) by (intros a; destruct (lt a a) eqn:E; [specialize (Ha _ _ E); congruence|done]).
  destruct (min_by lt l) as [y|] eqn:E.
  - destruct (IH y eq_refl) as [Hy Hmin]. destruct (lt y z) eqn:El; intros [= <-].
    + split; [by right|]. intros w [<-|Hw]; auto.
    + split; [by left|]. intros w [<-|Hw]; eauto.
  - intros [= <-]. split; [by left|]. destruct l as [|w l]; [intros y [<-|[]]; auto|].
    simpl in E. by destruct (min_by lt l).
Qed.

Lemma min_by_None (lt : A -> A -> bool) l : min_by lt l = None -> l = [].
Proof. destruct l as [|x l]; [done|]. simpl. by destruct (min_by lt l). Qed.

Lemma find_first_In p l x : find_first p l = Some x -> In x l /\ p x = true.
Proof. apply find_some. Qed.

Lemma find_first_none p l : find_first p l = None <-> forall x, In x l -> p x = false.
Proof.
  split; [apply find_none|].
  induction l as [|x l IH]; simpl; [done|]. intros H.
  rewrite (H x) by auto. apply IH. auto.
Qed.

Lemma find_first_some_iff p l : is_Some (find_first p l) <-> exists x, In x l /\ p x = true.
Proof.
  split.
  - intros [x Hx]. exists x. by apply find_first_In.
  - intros (x & Hin & Hp). destruct (find_first p l) eqn:E; [by eexists|].
    rewrite find_first_none in E. by rewrite (E x Hin) in Hp.
Qed.

Lemma position_Some p l n :
  position p l = Some n ->
  exists x, l !! n = Some x /\ p x = true /\
    forall m y, (m < n)%nat -> l !! m = Some y -> p y = false.
Proof.
  revert n; induction l as [|x l IH]; intros n; simpl; [done|].
  destruct (p x) eqn:Hp.
  - intros [= <-]. exists x. repeat split; auto. lia.
  - destruct (position p l) as [k|] eqn:E; simpl; [|done]. intros [= <-].
    destruct (IH k eq_refl) as (y & Hy & Hpy & Hmin). exists y. repeat split; auto.
    intros [|m] z Hm; simpl; [by intros [= <-]|]. apply Hmin. lia.
Qed.

Lemma position_None p l : position p l = None <-> forall x, In x l -> p x = false.
Proof.
  induction l as [|x l IH]; simpl; [naive_solver|].
  destruct (p x) eqn:Hp.
  - split; [done|]. intros H. specialize (H x). rewrite Hp in H. naive_solver.
  - destruct (position p l); simpl; naive_solver.
Qed.

Lemma position_middle p l1 x l2 :
  (forall y, In y l1 -> p y = false) -> p x = true ->
  position p (l1 ++ x :: l2) = Some (length l1).
Proof.
  intros H Hx. induction l1 as [|y l1 IH]; simpl; [by rewrite Hx|].
  rewrite (H y) by by left. rewrite IH; [done|]. intros z Hz. apply H. by right.
Qed.

Lemma position_lt p l n : position p l = Some n -> (n < length l)%nat.
Proof. intros (x & Hx & _)%position_Some. by eapply lookup_lt_Some. Qed.

Lemma find_first_position p l n x :
  position p l = Some n -> l !! n = Some x -> find_first p l = Some x.
Proof.
  revert n; induction l as [|y l IH]; intros n; simpl; [done|].
  destruct (p y); [by intros [= <-] [= <-]|].
  destruct (position p l); simpl; [|done]. intros [= <-]. by apply IH.
Qed.

Lemma remove_at_length n l : (n < length l)%nat -> length (remove_at n l) = pred (length l).
Proof.
  revert n; induction l as [|x l IH]; intros [|n]; simpl; try lia. intros H.
  rewrite IH by lia. lia.
Qed.

Lemma remove_at_delete n l : remove_at n l = delete n l.
Proof. revert n; induction l as [|x l IH]; intros [|n]; simpl; [done..|]. by rewrite IH. Qed.

Lemma remove_at_middle l1 x l2 : remove_at (length l1) (l1 ++ x :: l2) = l1 ++ l2.
Proof. induction l1 as [|y l1 IH]; simpl; [done|]. by rewrite IH. Qed.

Lemma update_first_middle p f l1 x l2 :
  (forall y, In y l1 -> p y = false) -> p x = true ->
  update_first p f (l1 ++ x :: l2) = l1 ++ f x :: l2.
Proof.
  intros H Hx. induction l1 as [|y l1 IH]; simpl; [by rewrite Hx|].
  rewrite (H y) by by left. rewrite IH; [done|]. intros z Hz. apply H. by right.
Qed.

Lemma update_first_none p f l : (forall y, In y l -> p y = false) -> update_first p f l = l.
Proof.
  induction l as [|x l IH]; simpl; [done|]. intros H.
  rewrite (H x) by auto. rewrite IH; auto.
Qed.

Lemma remove_at_In n l x : In x (remove_at n l) -> In x l.
Proof.
  revert n; induction l as [|y l IH]; intros [|n]; simpl; try done; [by right|].
  intros [->|H]; [by left|right; eauto].
Qed.

Lemma remove_at_sublist n l : sublist (remove_at n l) l.
Proof. rewrite remove_at_delete. apply sublist_delete. Qed.

Lemma update_first_length p f l : length (update_first p f l) = length l.
Proof. induction l as [|x l IH]; simpl; [done|]. destruct (p x); simpl; auto. Qed.

Lemma retain_In p l x : In x (retain p l) <-> In x l /\ p x = true.
Proof. apply filter_In. Qed.

Lemma retain_length p l : (length (retain p l) <= length l)%nat.
Proof. induction l as [|x l IH]; simpl; [lia|]. destruct (p x); simpl; lia. Qed.

Lemma retain_all p l : (forall x, In x l -> p x = true) -> retain p l = l.
Proof.
  induction l as [|x l IH]; simpl; [done|]. intros H.
  rewrite (H x) by auto. rewrite IH; auto.
Qed.

Lemma retain_none p l : (forall x, In x l -> p x = false) -> retain p l = [].
Proof.
  induction l as [|x l IH]; simpl; [done|]. intros H.
  rewrite (H x) by auto. rewrite IH; auto.
Qed.

Lemma retain_sublist p l : sublist (retain p l) l.
Proof.
  induction l as [|x l IH]; simpl; [constructor|].
  destruct (p x); by constructor.
Qed.
End iterator_lemmas.

Lemma max_by_fold {A} (lt : A -> A -> bool) l b :
  exists x, fold_left (fun best x =>
    match best with
    | Some b => if lt x b then Some b else Some x
    | None => Some x
    end) l (Some b) = Some x /\ (x = b \/ In x l).
Proof.
  revert b. induction l as [|y l IH]; intros b; simpl; [by eauto|].
  destruct (lt y b); [destruct (IH b) as (x & -> & Hx)|destruct (IH y) as (x & -> & Hx)];
    exists x; naive_solver.
Qed.

Lemma max_by_In {A} (lt : A -> A -> bool) l x : max_by lt l = Some x -> In x l.
Proof.
  destruct l as [|y l]; [done|]. unfold max_by. simpl.
  destruct (max_by_fold lt l y) as (z & -> & Hz). intros [= <-]. naive_solver.
Qed.

Lemma max_by_None {A} (lt : A -> A -> bool) l : max_by lt l = None <-> l = [].
Proof.
  split; [|by intros ->]. destruct l as [|y l]; [done|]. unfold max_by. simpl.
  by destruct (max_by_fold lt l y) as (z & -> & _).
Qed.

Lemma range_inclusive_In first last n : In n (range_inclusive first last) <-> first <= n <= last.
Proof.
  unfold range_inclusive. rewrite in_map_iff. split.
  - intros (i & <- & Hi). apply in_seq in Hi. lia.
  - intros H. exists (Z.to_nat (n - first)). split; [lia|]. apply in_seq. lia.
Qed.

Lemma sort_unstable_In l x : In x (sort_unstable l) <-> In x l.
Proof. unfold sort_unstable. rewrite <- !list_elem_of_In. by rewrite merge_sort_Permutation. Qed.

Lemma dedup_In l x : In x (dedup l) <-> In x l.
Proof.
  induction l as [|y l IH]; [done|]. destruct l as [|z l]; [done|].
  change (In x (if y =? z then dedup (z :: l) else y :: dedup (z :: l)) <-> In x (y :: z :: l)).
  destruct (y =? z) eqn:E; bool_facts; subst; [rewrite IH; simpl; tauto|].
  simpl in *. tauto.
Qed.

(** Sorting and deduplicating gives the strictly increasing list of the elements. *)
Lemma sort_dedup_sorted l : StronglySorted Z.lt (dedup (sort_unstable l)).
Proof.
  assert (StronglySorted Z.le (sort_unstable l)) as H.
  { apply Sorted_StronglySorted; [intros a b c; lia|]. apply Sorted_merge_sort. intros a b. lia. }
  induction (sort_unstable l) as [|x m IH]; [constructor|].
  inversion H as [|? ? Hs Hf]; subst. specialize (IH Hs). destruct m as [|y m]; [repeat constructor|].
  change (StronglySorted Z.lt (if x =? y then dedup (y :: m) else x :: dedup (y :: m))).
  destruct (x =? y) eqn:E; bool_facts; [done|]. constructor; [done|].
  inversion Hs as [|? ? _ Hy]; subst.
  apply List.Forall_forall. intros z Hz. rewrite dedup_In in Hz.
  rewrite List.Forall_forall in Hf, Hy. specialize (Hf y (or_introl eq_refl)).
  destruct Hz as [<-|Hz]; [lia|]. specialize (Hy z Hz). lia.
Qed.

(** The largest element of a list that is at most a bound. *)
Lemma largest_below (l : list Z) s :
  (exists x, In x l /\ x <= s) ->
  exists o, In o l /\ o <= s /\ forall x, In x l -> x <= s -> x <= o.
Proof.
  induction l as [|y l IH]; intros (x & Hin & Hx); [done|].
  assert ((exists z, In z l /\ z <= s) \/ ~ (exists z, In z l /\ z <= s)) as [Hl|Hl].
  - clear. induction l as [|z l IH]; [right; intros (? & [] & _)|].
    destruct (Z_le_dec z s); [left; exists z; split; [by left|done]|].
    destruct IH as [(w & Hw & ?)|Hn]; [left; exists w; split; [by right|done]|right].
    intros (w & [<-|Hw] & ?); [done|]. apply Hn. eauto.
  - destruct (IH Hl) as (o & Ho & Hos & Hmax).
    destruct (Z_le_dec y s), (Z_le_dec o y).
    + exists y. split; [by left|]. split; [done|]. intros z [<-|Hz] Hzs; [lia|].
      specialize (Hmax z Hz Hzs). lia.
    + exists o. split; [by right|]. split; [done|]. intros z [<-|Hz] Hzs; [lia|auto].
    + exists o. split; [by right|]. split; [done|]. intros z [<-|Hz] Hzs; [lia|auto].
    + exists o. split; [by right|]. split; [done|]. intros z [<-|Hz] Hzs; [lia|auto].
  - destruct Hin as [<-|Hin]; [|exfalso; eauto].
    exists y. split; [by left|]. split; [done|]. intros z [<-|Hz] Hzs; [lia|exfalso; eauto].
Qed.

Lemma windows2_app {A} (l : list A) x y :
  windows2 (l ++ [x; y]) = windows2 (l ++ [x]) ++ [(x, y)].
Proof.
  induction l as [|z l IH]; [done|].
  change ((z :: l) ++ [x; y]) with (z :: (l ++ [x; y])).
  change ((z :: l) ++ [x]) with (z :: (l ++ [x])).
  destruct l as [|w l]; [done|]. simpl in *. by rewrite IH.
Qed.

Lemma if_same {A} (b : bool) (x : A) : (if b then x else x) = x.
Proof. by destruct b. Qed.

Lemma retain_shorter {A} (p : A -> bool) (l : list A) :
  (length (retain p l) < length l)%nat <-> exists x, In x l /\ p x = false.
Proof.
  induction l as [|x l IH]; simpl; [split; [lia|by intros (? & [] & _)]|].
  pose proof (retain_length p l) as Hl. destruct (p x) eqn:E; simpl.
  - rewrite <- Nat.succ_lt_mono, IH. naive_solver congruence.
  - split; [eauto|lia].
Qed.

(** Pairwise relations survive [retain] and pushing a related element. *)
Lemma StronglySorted_retain {A} (R : A -> A -> Prop) p (l : list A) :
  StronglySorted R l -> StronglySorted R (retain p l).
Proof.
  induction 1 as [|x l Hs IH Hf]; simpl; [constructor|]. destruct (p x); [|done].
  constructor; [done|]. rewrite List.Forall_forall in *. intros y [Hy _]%retain_In. auto.
Qed.

Lemma StronglySorted_snoc {A} (R : A -> A -> Prop) (l : list A) x :
  StronglySorted R l -> (forall y, In y l -> R y x) -> StronglySorted R (l ++ [x]).
Proof.
  intros Hs Hx. apply StronglySorted_app_2; [|done|repeat constructor].
  intros y z Hy Hz. apply list_elem_of_singleton in Hz as ->. apply Hx. by apply list_elem_of_In.
Qed.

Lemma StronglySorted_map_iff {A} (R : A -> A -> Prop) (f : A -> A) (l : list A) :
  (forall x y, R x y -> R (f x) (f y)) -> StronglySorted R l -> StronglySorted R (map f l).
Proof.
  intros Hf. induction 1 as [|x l Hs IH Hx]; simpl; [constructor|]. constructor; [done|].
  rewrite List.Forall_forall in *. intros y (z & <- & Hz)%in_map_iff. auto.
Qed.

(** A sorted list begins with its least and ends with its greatest element, and has nothing
    between two neighbours. *)
Lemma sorted_head (l : list Z) x :
  StronglySorted Z.lt l -> In x l -> (forall y, In y l -> x <= y) -> head l = Some x.
Proof.
  intros Hs Hin Hmin. destruct l as [|y l]; [done|]. simpl. f_equal.
  destruct Hin as [->|Hin]; [done|]. inversion Hs as [|? ? _ Hf]; subst.
  rewrite List.Forall_forall in Hf. specialize (Hf x Hin). specialize (Hmin y (or_introl eq_refl)). lia.
Qed.

Lemma sorted_last (l : list Z) x :
  StronglySorted Z.lt l -> In x l -> (forall y, In y l -> y <= x) -> last l = Some x.
Proof.
  induction l as [|y l IH]; [done|]. intros Hs Hin Hmax. inversion Hs as [|? ? Hs' Hf]; subst.
  rewrite List.Forall_forall in Hf. destruct l as [|z l].
  - destruct Hin as [->|[]]. done.
  - change (last (y :: z :: l)) with (last (z :: l)). apply IH; [done| |].
    + destruct Hin as [->|Hin]; [|done]. specialize (Hf z (or_introl eq_refl)).
      specialize (Hmax z (or_intror (or_introl eq_refl))). lia.
    + intros w Hw. apply Hmax. by right.
Qed.

Lemma windows2_gap (l : list Z) a b :
  StronglySorted Z.lt l -> In (a, b) (windows2 l) ->
  In a l /\ In b l /\ forall x, In x l -> ~ a < x < b.
Proof.
  induction l as [|y l IH]; [done|]. intros Hs Hin. inversion Hs as [|? ? Hs' Hf]; subst.
  rewrite List.Forall_forall in Hf. destruct l as [|z l]; [done|].
  change (In (a, b) ((y, z) :: windows2 (z :: l))) in Hin. destruct Hin as [[= -> ->]|Hin].
  - split; [by left|]. split; [by right; left|]. inversion Hs' as [|? ? _ Hf']; subst.
    rewrite List.Forall_forall in Hf'.
    intros x [<-|[<-|Hx]]; [lia|lia|]. specialize (Hf' x Hx). lia.
  - destruct (IH Hs' Hin) as (Ha & Hb & Hg). split; [by right|]. split; [by right|].
    intros x [<-|Hx]; [|by apply Hg]. specialize (Hf a Ha). lia.
Qed.

Lemma windows2_prefix {A} (l rest : list A) x y :
  In (x, y) (windows2 l) -> In (x, y) (windows2 (l ++ rest)).
Proof.
  induction l as [|z l IH]; [done|]. destruct l as [|w l]; [done|].
  intros [<-|Hin]; [by left|]. right. by apply IH.
Qed.

(** A list is strictly increasing in a key when every adjacent pair is. *)
Lemma windows2_sorted {A} (f : A -> Z) (l : list A) :
  forallb (fun '(a, b) => f a <? f b) (windows2 l) = true <->
  StronglySorted (fun a b => f a < f b) l.
Proof.
  split.
  - intros H. apply Sorted_StronglySorted; [intros a b c; lia|].
    induction l as [|x l IH]; [constructor|].
    destruct l as [|y l]; [repeat constructor|].
    simpl in H. apply andb_true_iff in H as [Hxy H]. constructor; [by apply IH|].
    constructor. lia.
  - intros H. induction l as [|x l IH]; [done|].
    inversion H as [|? ? Hs Hf]; subst. destruct l as [|y l]; [done|].
    change (((f x <? f y) && forallb (fun '(a, b) => f a <? f b) (windows2 (y :: l)))%bool = true).
    apply andb_true_iff. split; [|by apply IH].
    apply Z.ltb_lt. by inversion Hf.
Qed.
