(* ===== verification/Text.v ===== *)
(** * Text: the string operations of the source

    A [str] is the sequence of its Unicode scalar values ([str::chars]); its UTF-8 bytes are
    derived from it where the source counts bytes. The ordering of [String] (byte order) is
    the lexicographic order of the scalar values, which UTF-8 preserves. Literals of the
    source are written [lit "..."]. *)

From stdpp Require Import strings.
From S2P Require Import Prelude.

Abbreviation char := Z.
Abbreviation str := (list Z).

(** A literal of the source (ASCII). *)
Definition lit (s : string) : str :=
  map (fun a => Z.of_N (Ascii.N_of_ascii a)) (String.list_ascii_of_string s).
Arguments lit s%_string.

Definition code (a : Ascii.ascii) : char := Z.of_N (Ascii.N_of_ascii a).

(** [haystack.starts_with(needle)], [haystack.contains(needle)] *)
Fixpoint starts_with (needle haystack : str) : bool :=
  match needle, haystack with
  | [], _ => true
  | c :: needle, d :: haystack => (c =? d) && starts_with needle haystack
  | _, [] => false
  end.
Fixpoint contains_str (needle haystack : str) : bool :=
  starts_with needle haystack
  || match haystack with [] => false | _ :: rest => contains_str needle rest end.

(** ** Characters *)

Definition is_ascii_digit (c : char) : bool := (48 <=? c) && (c <=? 57).
Definition is_ascii_graphic (c : char) : bool := (33 <=? c) && (c <=? 126).
Definition is_ascii_upper (c : char) : bool := (65 <=? c) && (c <=? 90).
Definition to_ascii_lower_char (c : char) : char := if is_ascii_upper c then c + 32 else c.

(** [char::is_whitespace]: the Unicode property [White_Space]. *)
Definition is_whitespace (c : char) : bool :=
  ((9 <=? c) && (c <=? 13)) || (c =? 32) || (c =? 133) || (c =? 160) || (c =? 5760)
  || ((8192 <=? c) && (c <=? 8202)) || (c =? 8232) || (c =? 8233) || (c =? 8239)
  || (c =? 8287) || (c =? 12288).

(** Number of UTF-8 bytes of a scalar value ([char::len_utf8]). *)
Definition len_utf8 (c : char) : Z :=
  if c <? 128 then 1 else if c <? 2048 then 2 else if c <? 65536 then 3 else 4.

(** ** Strings *)

(** [str::len]: length in bytes. *)
Definition byte_len (s : str) : Z := fold_right (fun c n => len_utf8 c + n) 0 s.

(** [s.chars().count()] *)
Definition chars_count (s : str) : Z := len s.

Definition to_ascii_lowercase (s : str) : str := map to_ascii_lower_char s.

Definition eq_ignore_ascii_case (a b : str) : bool :=
  to_ascii_lowercase a == to_ascii_lowercase b.

Fixpoint trim_start (s : str) : str :=
  match s with
  | [] => []
  | c :: r => if is_whitespace c then trim_start r else s
  end.
Definition trim_end (s : str) : str := rev (trim_start (rev s)).
Definition trim (s : str) : str := trim_end (trim_start s).

(** [s.split(sep)]: the pieces between separators; never an empty list. *)
Fixpoint split_on (sep : char) (s : str) : list str :=
  match s with
  | [] => [[]]
  | c :: r =>
      if c =? sep then [] :: split_on sep r
      else match split_on sep r with
           | [] => [[c]]
           | w :: ws => (c :: w) :: ws
           end
  end.

(** [s.split_once(sep)]: around the first separator. *)
Fixpoint split_once (sep : char) (s : str) : option (str * str) :=
  match s with
  | [] => None
  | c :: r =>
      if c =? sep then Some ([], r)
      else (fun '(a, b) => (c :: a, b)) <$> split_once sep r
  end.

(** [s.rsplit_once(sep)]: around the last separator. *)
Definition rsplit_once (sep : char) (s : str) : option (str * str) :=
  (fun '(a, b) => (rev b, rev a)) <$> split_once sep (rev s).

(** [items.join(sep)] for a one-character separator. *)
Fixpoint join (sep : char) (items : list str) : str :=
  match items with
  | [] => []
  | w :: ws =>
      match ws with
      | [] => w
      | _ => w ++ sep :: join sep ws
      end
  end.

(** [items.join(sep)] *)
Fixpoint join_with (sep : str) (items : list str) : str :=
  match items with
  | [] => []
  | [w] => w
  | w :: ws => w ++ sep ++ join_with sep ws
  end.

(** [str::strip_prefix] *)
Fixpoint strip_prefix (prefix s : str) : option str :=
  match prefix, s with
  | [], _ => Some s
  | c :: prefix, d :: s => if c =? d then strip_prefix prefix s else None
  | _ :: _, [] => None
  end.
Lemma strip_prefix_Some prefix s rest : strip_prefix prefix s = Some rest <-> s = prefix ++ rest.
Proof.
  revert s. induction prefix as [|c prefix IH]; intros s; simpl; [split; congruence|].
  destruct s as [|d s]; [split; discriminate|]. destruct (Z.eqb_spec c d) as [->|Hcd].
  - rewrite IH. split; congruence.
  - split; [discriminate|]. intros [= -> ->]. done.
Qed.

(** ** Decimal numbers *)

(** Value of a sequence of decimal digits read after [acc]. *)
Fixpoint digits_acc (acc : Z) (s : str) : option Z :=
  match s with
  | [] => Some acc
  | c :: r => if is_ascii_digit c then digits_acc (acc * 10 + (c - 48)) r else None
  end.

Definition digits_value (s : str) : option Z :=
  match s with [] => None | _ => digits_acc 0 s end.

(** The text after an optional sign; a lone sign is not a number. *)
Definition unsigned_part (s : str) : str :=
  match s with
  | c :: (_ :: _) as r => if c =? 43 then tail r else s
  | _ => s
  end.

(** [s.parse::<T>()] for an unsigned [T] with maximum [hi]. *)
Definition parse_unsigned (hi : Z) (s : str) : option Z :=
  match digits_value (unsigned_part s) with
  | Some n => if n <=? hi then Some n else None
  | None => None
  end.
Definition parse_u32 : str -> option Z := parse_unsigned u32_max.
Definition parse_u64 : str -> option Z := parse_unsigned u64_max.

(** [s.parse::<i32>()] *)
Definition parse_i32 (s : str) : option Z :=
  let value :=
    match s with
    | c :: (_ :: _) as r =>
        if c =? 45 then Z.opp <$> digits_value (tail r) else digits_value (unsigned_part s)
    | _ => digits_value s
    end in
  match value with
  | Some n => try_into i32_min i32_max n
  | None => None
  end.

Fixpoint decimal (fuel : nat) (n : Z) : str :=
  match fuel with
  | O => []
  | S k => if n <? 10 then [48 + n] else decimal k (n / 10) ++ [48 + n mod 10]
  end.

(** [n.to_string()]. The number of binary digits bounds the number of decimal ones. *)
Definition to_string (n : Z) : str :=
  if n <? 0 then 45 :: decimal (S (Z.to_nat (Z.log2 (- n)))) (- n)
  else decimal (S (Z.to_nat (Z.log2 n))) n.

(** ** Ordered maps

    [BTreeMap<String, V>] is a finite map whose iteration order is the order of its keys. *)

Fixpoint str_leb (a b : str) : bool :=
  match a, b with
  | [], _ => true
  | _ :: _, [] => false
  | x :: a', y :: b' => (x <? y) || ((x =? y) && str_leb a' b')
  end.

Definition key_le {V} (x y : str * V) : Prop := str_leb x.1 y.1 = true.
#[export] Instance key_le_dec {V} : RelDecision (@key_le V).
Proof. intros x y. unfold key_le. apply _. Defined.

(** [map.iter()] *)
Definition btree_iter {V} (m : gmap str V) : list (str * V) :=
  merge_sort key_le (map_to_list m).

(** ** Lemmas: decimal numbers *)

Lemma digits_acc_app acc s t :
  digits_acc acc (s ++ t) = (v ← digits_acc acc s; digits_acc v t).
Proof.
  revert acc; induction s as [|c s IH]; intros acc; simpl; [done|].
  destruct (is_ascii_digit c); [apply IH|done].
Qed.

Lemma digit_char d : 0 <= d < 10 -> is_ascii_digit (48 + d) = true.
Proof. unfold is_ascii_digit. intros H. apply andb_true_iff; split; lia. Qed.

Lemma decimal_value fuel n :
  0 <= n < 2 ^ Z.of_nat fuel -> digits_acc 0 (decimal fuel n) = Some n.
Proof.
  revert n; induction fuel as [|k IH]; intros n Hn.
  { replace n with 0 by (change (2 ^ Z.of_nat 0) with 1 in Hn; lia). done. }
  simpl decimal. destruct (n <? 10) eqn:E.
  - apply Z.ltb_lt in E. simpl. rewrite digit_char by lia. simpl. f_equal; lia.
  - apply Z.ltb_ge in E. rewrite digits_acc_app, IH.
    + simpl. rewrite digit_char by (apply Z.mod_pos_bound; lia). simpl.
      pose proof (Z.div_mod n 10). f_equal. lia.
    + split; [apply Z.div_pos; lia|].
      rewrite Nat2Z.inj_succ, Z.pow_succ_r in Hn by lia.
      apply Z.div_lt_upper_bound; lia.
Qed.

Lemma decimal_enough n :
  0 <= n -> 0 <= n < 2 ^ Z.of_nat (S (Z.to_nat (Z.log2 n))).
Proof.
  intros Hn. split; [done|].
  rewrite Nat2Z.inj_succ, Z2Nat.id by apply Z.log2_nonneg.
  destruct (Z.eq_dec n 0) as [->|Hz]; [done|].
  apply Z.log2_spec. lia.
Qed.

Lemma decimal_digits fuel n : 0 <= n -> Forall (fun c => is_ascii_digit c = true) (decimal fuel n).
Proof.
  revert n; induction fuel as [|k IH]; intros n Hn; simpl; [constructor|].
  destruct (n <? 10) eqn:E.
  - apply Z.ltb_lt in E. repeat constructor. apply digit_char. lia.
  - apply Forall_app; split; [apply IH, Z.div_pos; lia|].
    repeat constructor. apply digit_char, Z.mod_pos_bound. lia.
Qed.

Lemma decimal_nonempty k n : decimal (S k) n <> [].
Proof. simpl. destruct (n <? 10); [done|]. by destruct (decimal k (n / 10)). Qed.

Lemma unsigned_part_digits s :
  Forall (fun c => is_ascii_digit c = true) s -> unsigned_part s = s.
Proof.
  intros H. destruct s as [|c [|d r]]; [done..|]. simpl.
  inversion H as [|? ? Hc _]; subst. destruct (Z.eqb_spec c 43) as [->|]; done.
Qed.

Lemma digits_value_to_string n : 0 <= n -> digits_value (to_string n) = Some n.
Proof.
  intros Hn. unfold to_string. destruct (n <? 0) eqn:E; [apply Z.ltb_lt in E; lia|].
  unfold digits_value.
  destruct (decimal _ n) eqn:D; [by apply decimal_nonempty in D|].
  rewrite <- D. apply decimal_value, decimal_enough, Hn.
Qed.

Lemma to_string_digits n : 0 <= n -> Forall (fun c => is_ascii_digit c = true) (to_string n).
Proof.
  intros Hn. unfold to_string. destruct (n <? 0) eqn:E; [apply Z.ltb_lt in E; lia|].
  by apply decimal_digits.
Qed.

Lemma parse_unsigned_to_string hi n :
  0 <= n <= hi -> parse_unsigned hi (to_string n) = Some n.
Proof.
  intros [Hn Hhi]. unfold parse_unsigned.
  rewrite unsigned_part_digits by by apply to_string_digits.
  rewrite digits_value_to_string by done. rewrite (proj2 (Z.leb_le n hi)) by done. done.
Qed.

Lemma parse_u32_to_string n : is_u32 n -> parse_u32 (to_string n) = Some n.
Proof. apply parse_unsigned_to_string. Qed.

Lemma to_string_nonempty n : to_string n <> [].
Proof. unfold to_string. destruct (n <? 0); [done|]. apply decimal_nonempty. Qed.

Lemma parse_i32_to_string n : 0 <= n <= i32_max -> parse_i32 (to_string n) = Some n.
Proof.
  intros Hn. pose proof (to_string_digits n ltac:(lia)) as Hd.
  assert (try_into i32_min i32_max n = Some n) as Ht.
  { unfold try_into, i32_min in *. rewrite (proj2 (Z.leb_le _ n)), (proj2 (Z.leb_le n _)) by lia. done. }
  unfold parse_i32. destruct (to_string n) as [|c [|d s]] eqn:E.
  - by apply to_string_nonempty in E.
  - by rewrite <- E, digits_value_to_string by lia.
  - assert ((c =? 45) = false) as ->.
    { inversion Hd as [|?? Hc]; subst. apply Z.eqb_neq. unfold is_ascii_digit in Hc.
      bool_facts. lia. }
    by rewrite unsigned_part_digits, <- E, digits_value_to_string by (done || lia).
Qed.

#[export] Hint Resolve parse_u32_to_string to_string_digits : station.

Lemma digits_acc_nonneg s acc n : 0 <= acc -> digits_acc acc s = Some n -> 0 <= n.
Proof.
  revert acc; induction s as [|c s IH]; intros acc Ha; simpl; [intros [= <-]; done|].
  unfold is_ascii_digit. destruct ((48 <=? c) && (c <=? 57)) eqn:E; [|done].
  bool_facts. apply IH. lia.
Qed.

Lemma parse_unsigned_bounds hi s n : parse_unsigned hi s = Some n -> 0 <= n <= hi.
Proof.
  unfold parse_unsigned, digits_value. destruct (unsigned_part s) as [|c r] eqn:E; [done|].
  destruct (digits_acc 0 _) as [m|] eqn:D; [|done].
  destruct (m <=? hi) eqn:L; [|done]. intros [= <-]. apply Z.leb_le in L.
  split; [by eapply digits_acc_nonneg; [|exact D]; lia|lia].
Qed.

(** ** Lemmas: case folding and the key order *)

Lemma to_ascii_lower_idem s : to_ascii_lowercase (to_ascii_lowercase s) = to_ascii_lowercase s.
Proof.
  unfold to_ascii_lowercase. rewrite map_map. apply map_ext. intros c.
  unfold to_ascii_lower_char, is_ascii_upper.
  destruct ((65 <=? c) && (c <=? 90)) eqn:E; [|by rewrite E].
  bool_facts. destruct ((65 <=? c + 32) && (c + 32 <=? 90)) eqn:E'; [bool_facts; lia|done].
Qed.

Lemma eq_ignore_ascii_case_refl s : eq_ignore_ascii_case s s = true.
Proof. apply eqb_refl. Qed.

Lemma eq_ignore_ascii_case_true a b :
  eq_ignore_ascii_case a b = true <-> to_ascii_lowercase a = to_ascii_lowercase b.
Proof. apply eqb_true. Qed.

Lemma str_leb_refl a : str_leb a a = true.
Proof.
  induction a as [|x a IH]; [done|]. simpl. rewrite IH, Z.eqb_refl. by rewrite orb_true_r.
Qed.

Lemma str_leb_total a b : str_leb a b = true \/ str_leb b a = true.
Proof.
  revert b; induction a as [|x a IH]; intros [|y b]; simpl; auto.
  destruct (Z.lt_trichotomy x y) as [H|[->|H]].
  - left. apply orb_true_iff. left. by apply Z.ltb_lt.
  - rewrite Z.eqb_refl, Z.ltb_irrefl. apply IH.
  - right. apply orb_true_iff. left. by apply Z.ltb_lt.
Qed.

Lemma str_leb_antisym a b : str_leb a b = true -> str_leb b a = true -> a = b.
Proof.
  revert b; induction a as [|x a IH]; intros [|y b]; simpl; try done.
  intros H1 H2. apply orb_true_iff in H1, H2.
  destruct H1 as [H1|H1], H2 as [H2|H2]; bool_facts; subst; try lia.
  f_equal. by apply IH.
Qed.

Lemma str_leb_trans a b c : str_leb a b = true -> str_leb b c = true -> str_leb a c = true.
Proof.
  revert b c; induction a as [|x a IH]; intros [|y b] [|z c]; simpl; try done.
  intros H1 H2. apply orb_true_iff in H1, H2. apply orb_true_iff.
  destruct H1 as [H1|H1], H2 as [H2|H2]; bool_facts; subst.
  - left. apply Z.ltb_lt. lia.
  - left. by apply Z.ltb_lt.
  - left. by apply Z.ltb_lt.
  - right. rewrite Z.eqb_refl. simpl. by eapply IH.
Qed.

Lemma btree_iter_perm {V} (m : gmap str V) : btree_iter m ≡ₚ map_to_list m.
Proof. apply merge_sort_Permutation. Qed.

Lemma btree_iter_elem {V} (m : gmap str V) k v : (k, v) ∈ btree_iter m <-> m !! k = Some v.
Proof. rewrite btree_iter_perm. apply elem_of_map_to_list. Qed.

Lemma btree_iter_length {V} (m : gmap str V) : length (btree_iter m) = size m.
Proof. by rewrite btree_iter_perm, length_map_to_list. Qed.

Lemma btree_iter_sorted {V} (m : gmap str V) : StronglySorted key_le (btree_iter m).
Proof.
  apply StronglySorted_merge_sort.
  - intros x y z. apply str_leb_trans.
  - intros x y. unfold key_le. apply str_leb_total.
Qed.

Lemma btree_iter_keys_NoDup {V} (m : gmap str V) : NoDup (btree_iter m).*1.
Proof. rewrite btree_iter_perm. apply NoDup_fst_map_to_list. Qed.

(** ** Lemmas: splitting and trimming *)

Lemma split_on_plain sep s : (sep ∉ s) -> split_on sep s = [s].
Proof.
  induction s as [|c s IH]; [done|]. rewrite not_elem_of_cons. intros [Hc Hs]. simpl.
  rewrite (proj2 (Z.eqb_neq c sep)) by done. by rewrite IH.
Qed.

Lemma split_on_app sep a b : (sep ∉ a) -> split_on sep (a ++ sep :: b) = a :: split_on sep b.
Proof.
  induction a as [|c a IH]; simpl; [by rewrite Z.eqb_refl|].
  rewrite not_elem_of_cons. intros [Hc Ha].
  rewrite (proj2 (Z.eqb_neq c sep)) by done. by rewrite IH.
Qed.

Lemma split_on_no_sep sep s w : In w (split_on sep s) -> sep ∉ w.
Proof.
  revert w. induction s as [|c s IH]; intros w; simpl.
  - intros [<-|[]]. apply not_elem_of_nil.
  - destruct (c =? sep) eqn:E; bool_facts.
    + intros [<-|H]; [apply not_elem_of_nil|by apply IH].
    + destruct (split_on sep s) as [|w' ws] eqn:Es; simpl.
      * intros [<-|[]]. rewrite list_elem_of_singleton. congruence.
      * intros [<-|H]; [|apply IH; by right]. rewrite not_elem_of_cons.
        split; [congruence|]. apply IH. by left.
Qed.
Lemma split_on_nonempty sep s : split_on sep s <> [].
Proof. destruct s as [|c s]; [done|]. cbn. destruct (c =? sep); [done|]. by destruct (split_on sep s). Qed.
Lemma split_on_concat sep a b : split_on sep (a ++ sep :: b) = split_on sep a ++ split_on sep b.
Proof.
  induction a as [|c a IH]; cbn [app split_on]; [by rewrite Z.eqb_refl|].
  destruct (c =? sep); [by rewrite IH|]. rewrite IH.
  destruct (split_on sep a) as [|w ws] eqn:Ea; [by destruct (split_on_nonempty sep a)|done].
Qed.

Lemma split_once_Some sep s a b :
  split_once sep s = Some (a, b) <-> s = a ++ sep :: b /\ sep ∉ a.
Proof.
  revert a; induction s as [|c s IH]; intros a; simpl.
  { split; [done|]. intros [H _]. by destruct a. }
  destruct (c =? sep) eqn:E; bool_facts.
  - subst c. split.
    + intros [= <- <-]. split; [done|]. apply not_elem_of_nil.
    + intros [H Hn]. destruct a as [|d a]; simplify_list_eq; [done|].
      by destruct Hn; left.
  - split.
    + destruct (split_once sep s) as [[a' b']|]; simpl; [|done].
      intros [= <- <-]. destruct (proj1 (IH a') eq_refl) as [-> Hn].
      split; [done|]. rewrite not_elem_of_cons. auto.
    + intros [H Hn]. destruct a as [|d a]; simplify_list_eq.
      rewrite not_elem_of_cons in Hn.
      assert (split_once sep (a ++ sep :: b) = Some (a, b)) as -> by (apply IH; naive_solver).
      done.
Qed.

Lemma split_once_None sep s : split_once sep s = None <-> sep ∉ s.
Proof.
  induction s as [|c s IH]; simpl; [split; [intros _; apply not_elem_of_nil|done]|].
  rewrite not_elem_of_cons. destruct (c =? sep) eqn:E; bool_facts.
  - naive_solver.
  - destruct (split_once sep s) as [[??]|]; simpl; naive_solver.
Qed.

Lemma rsplit_once_Some sep s a b :
  rsplit_once sep s = Some (a, b) <-> s = a ++ sep :: b /\ sep ∉ b.
Proof.
  unfold rsplit_once. destruct (split_once sep (rev s)) as [[u v]|] eqn:E; simpl.
  - apply split_once_Some in E as [E Hn]. split.
    + intros [= <- <-]. split.
      * rewrite <- (rev_involutive s), E, rev_app_distr. simpl. by rewrite <- app_assoc.
      * intros Hin. apply Hn. by rewrite list_elem_of_In, in_rev, <- list_elem_of_In.
    + intros [-> Hb]. rewrite rev_app_distr in E. simpl in E. rewrite <- app_assoc in E.
      assert (split_once sep (rev b ++ sep :: rev a) = Some (rev b, rev a)) as E1.
      { apply split_once_Some. split; [done|].
        by rewrite list_elem_of_In, <- in_rev, <- list_elem_of_In. }
      assert (split_once sep (u ++ sep :: v) = Some (u, v)) as E2 by by apply split_once_Some.
      simpl in E. rewrite E in E1. rewrite E2 in E1. injection E1 as -> ->.
      by rewrite !rev_involutive.
  - split; [done|]. intros [-> _]. apply split_once_None in E. destruct E.
    rewrite rev_app_distr, elem_of_app. left. simpl. apply elem_of_app. right. by left.
Qed.

(** No white space at the start (at the end). *)
Definition starts_trimmed (s : str) : Prop := trim_start s = s.
Definition ends_trimmed (s : str) : Prop := trim_end s = s.

Lemma starts_trimmed_cons c s : starts_trimmed (c :: s) <-> is_whitespace c = false.
Proof.
  unfold starts_trimmed. simpl. destruct (is_whitespace c) eqn:E; [|done].
  split; [|done]. intros H. exfalso.
  assert (length (trim_start s) <= length s)%nat as Hl.
  { clear. induction s as [|d s IH]; simpl; [lia|]. destruct (is_whitespace d); simpl; lia. }
  rewrite H in Hl. simpl in Hl. lia.
Qed.

Lemma ends_trimmed_snoc c s : ends_trimmed (s ++ [c]) <-> is_whitespace c = false.
Proof.
  unfold ends_trimmed, trim_end. rewrite rev_app_distr. simpl.
  rewrite <- (starts_trimmed_cons c (rev s)). unfold starts_trimmed. split.
  - intros H. apply (f_equal (@rev char)) in H. rewrite rev_involutive, rev_app_distr in H. exact H.
  - intros H. cbn [trim_start] in H. rewrite H. simpl. by rewrite rev_involutive.
Qed.

Lemma trim_start_trimmed s : starts_trimmed (trim_start s).
Proof.
  induction s as [|c s IH]; [done|]. simpl. destruct (is_whitespace c) eqn:E; [done|].
  by apply starts_trimmed_cons.
Qed.

Lemma trim_end_trimmed s : ends_trimmed (trim_end s).
Proof. unfold ends_trimmed, trim_end. rewrite rev_involutive. by rewrite trim_start_trimmed. Qed.

Lemma trim_start_suffix s : exists p, s = p ++ trim_start s.
Proof.
  induction s as [|c s [p IH]]; [by exists []|]. simpl.
  destruct (is_whitespace c); [exists (c :: p); by rewrite IH at 1|by exists []].
Qed.

Lemma trim_end_prefix s : exists p, s = trim_end s ++ p.
Proof.
  destruct (trim_start_suffix (rev s)) as [p Hp]. exists (rev p). unfold trim_end.
  by rewrite <- rev_app_distr, <- Hp, rev_involutive.
Qed.

Lemma ends_trimmed_app s t : t <> [] -> ends_trimmed (s ++ t) <-> ends_trimmed t.
Proof.
  intros Ht. destruct (exists_last Ht) as (u & c & ->).
  by rewrite app_assoc, !ends_trimmed_snoc.
Qed.

Lemma starts_trimmed_app s t : s <> [] -> starts_trimmed (s ++ t) <-> starts_trimmed s.
Proof. destruct s as [|c s]; [done|]. intros _. simpl. by rewrite !starts_trimmed_cons. Qed.

Lemma trim_id s : starts_trimmed s -> ends_trimmed s -> trim s = s.
Proof. unfold starts_trimmed, ends_trimmed, trim. by intros -> ->. Qed.

Lemma trim_trimmed s : starts_trimmed (trim s) /\ ends_trimmed (trim s).
Proof.
  split; [|apply trim_end_trimmed]. unfold trim.
  destruct (trim_end_prefix (trim_start s)) as [p Hp].
  destruct (trim_end (trim_start s)) as [|c r] eqn:E; [done|].
  apply starts_trimmed_cons. apply (starts_trimmed_cons c (r ++ p)).
  change (c :: r ++ p) with ((c :: r) ++ p). rewrite <- Hp. apply trim_start_trimmed.
Qed.

(** Trimming a piece that already ends trimmed keeps it a suffix. *)
Lemma trim_suffix s : ends_trimmed s -> exists p, s = p ++ trim s.
Proof.
  intros He. unfold trim. destruct (trim_start_suffix s) as [p Hp]. exists p.
  destruct (decide (trim_start s = [])) as [E|Hn]; [rewrite E in *; exact Hp|].
  replace (trim_end (trim_start s)) with (trim_start s); [done|].
  symmetry. apply (ends_trimmed_app p); [done|]. by rewrite <- Hp.
Qed.

Lemma digit_not_whitespace c : is_ascii_digit c = true -> is_whitespace c = false.
Proof.
  unfold is_ascii_digit, is_whitespace. intros H. bool_facts.
  repeat (apply orb_false_iff; split); lia || (apply andb_false_iff; lia).
Qed.
