(* ===== verification/F64.v ===== *)
(** * F64: IEEE 754 binary64 numbers

    The [f64] operations the source uses, on the Standard Library's specification of binary
    floating-point arithmetic (53 bits of precision, exponents below 1024, round to nearest
    even). Everything computes; nothing is assumed. NaN payloads are not distinguished. *)

From Corelib Require Export SpecFloat.
From stdpp Require Import strings.
From S2P Require Import Prelude Text.
Local Open Scope Z_scope.

Abbreviation f64 := spec_float.
Definition prec : Z := 53.
Definition emax : Z := 1024.

#[export] Instance f64_eq_dec : EqDecision f64.
Proof. solve_decision. Defined.

Definition f_zero : f64 := S754_zero false.
(** [n as f64], [f64::from(n)] *)
Definition f_of_Z (n : Z) : f64 := binary_normalize prec emax n 0 false.
Definition f_add : f64 -> f64 -> f64 := SFadd prec emax.
Definition f_sub : f64 -> f64 -> f64 := SFsub prec emax.
Definition f_mul : f64 -> f64 -> f64 := SFmul prec emax.
Definition f_div : f64 -> f64 -> f64 := SFdiv prec emax.
(** [a.partial_cmp(&b)] *)
Definition f_partial_cmp : f64 -> f64 -> option comparison := SFcompare.
Definition f_ltb : f64 -> f64 -> bool := SFltb.
Definition f_leb : f64 -> f64 -> bool := SFleb.
Definition f_geb (a b : f64) : bool := f_leb b a.
Definition f_gtb (a b : f64) : bool := f_ltb b a.

Definition is_finite (x : f64) : bool :=
  match x with S754_zero _ | S754_finite _ _ _ => true | _ => false end.
Definition is_nan (x : f64) : bool := match x with S754_nan => true | _ => false end.

(** [x.to_bits() == y.to_bits()]: the same datum, [-0.0] and [0.0] being different. *)
Definition same_bits (x y : f64) : bool := x == y.

(** [x.clamp(lo, hi)] for [lo <= hi] *)
Definition f_clamp (x lo hi : f64) : f64 :=
  if f_ltb x lo then lo else if f_gtb x hi then hi else x.
(** [a.max(b)]: a NaN operand is ignored. *)
Definition f_max (a b : f64) : f64 :=
  if is_nan a then b else if is_nan b then a else if f_ltb a b then b else a.

Definition signed (s : bool) (n : Z) : Z := if s then - n else n.

(** [x.floor()] *)
Definition f_floor (x : f64) : f64 :=
  match x with
  | S754_finite s m e =>
      if 0 <=? e then x
      else binary_normalize prec emax (signed s (Zpos m) / 2 ^ (- e)) 0 s
  | _ => x
  end.

(** [x.round()]: to the nearest integer, ties away from zero *)
Definition f_round (x : f64) : f64 :=
  match x with
  | S754_finite s m e =>
      if 0 <=? e then x
      else binary_normalize prec emax
             (signed s ((2 * Zpos m + 2 ^ (- e)) / (2 * 2 ^ (- e)))) 0 s
  | _ => x
  end.

(** [x as i64], [x as u64] for an integral [x]: truncated and saturated, [0] for NaN *)
Definition f_trunc (x : f64) : Z :=
  match x with
  | S754_finite s m e =>
      signed s (if 0 <=? e then Zpos m * 2 ^ e else Zpos m / 2 ^ (- e))
  | _ => 0
  end.
Definition f_to_int (lo hi : Z) (x : f64) : Z :=
  match x with
  | S754_infinity s => if s then lo else hi
  | _ => Z.max lo (Z.min hi (f_trunc x))
  end.

(** ** The order of the finite numbers

    On finite numbers the comparison is that of an integer key: the sign, then the exponent
    and the mantissa; it is a total preorder that identifies the two zeros. *)

Lemma f_compare_refl x : is_nan x = false -> SFcompare x x = Some Eq.
Proof.
  destruct x as [[]|[]| |s m e]; simpl; try done. intros _.
  destruct s; rewrite Z.compare_refl; f_equal; [|apply Pos.compare_refl].
  by rewrite Pos.compare_cont_refl.
Qed.

Lemma f_compare_total x y :
  is_nan x = false -> is_nan y = false -> exists c, SFcompare x y = Some c.
Proof. destruct x, y; simpl; try done; eauto; repeat case_goal; eauto. Qed.

Lemma f_compare_swap x y : SFcompare y x = option_map CompOpp (SFcompare x y).
Proof.
  destruct x as [[]|[]| |s m e], y as [[]|[]| |s' m' e']; try done;
    try (by destruct s); try (by destruct s'); simpl.
  rewrite (Z.compare_antisym e e').
  pose proof (Pos.compare_antisym m m') as Hm. unfold Pos.compare in Hm.
  destruct s, s'; simpl; try done; destruct (e ?= e')%Z; simpl; try done;
    rewrite Hm; by destruct (Pos.compare_cont Eq m m').
Qed.

Lemma f_leb_refl x : is_nan x = false -> f_leb x x = true.
Proof. intros H. unfold f_leb, SFleb. by rewrite f_compare_refl. Qed.

(** Of two numbers one is not above the other. *)
Lemma f_leb_of_not_ltb x y :
  is_nan x = false -> is_nan y = false -> f_ltb x y = false -> f_leb y x = true.
Proof.
  intros Hx Hy. unfold f_ltb, f_leb, SFltb, SFleb.
  destruct (f_compare_total x y Hx Hy) as [c Hc].
  rewrite (f_compare_swap x y), Hc. by destruct c.
Qed.

Lemma f_leb_not_nan x y : f_leb x y = true -> is_nan x = false /\ is_nan y = false.
Proof.
  unfold f_leb, SFleb. destruct x, y; simpl; try done.
Qed.

(** A clamped number is inside its bounds. *)
Lemma f_clamp_bounds x lo hi :
  is_nan x = false -> f_leb lo hi = true ->
  f_leb lo (f_clamp x lo hi) = true /\ f_leb (f_clamp x lo hi) hi = true.
Proof.
  intros Hx Hle. destruct (f_leb_not_nan _ _ Hle) as [Hlo Hhi]. unfold f_clamp, f_gtb.
  destruct (f_ltb x lo) eqn:E1; [by split; [apply f_leb_refl|]|].
  destruct (f_ltb hi x) eqn:E2; [by split; [|apply f_leb_refl]|].
  split; by apply f_leb_of_not_ltb.
Qed.

(** * Decimal: [str::parse::<f64>]

    The standard library's grammar of decimal numbers (an optional sign, [inf], [infinity] or
    [nan] in any case, else digits with an optional fraction and an optional exponent) and its
    value, rounded once to the nearest double. *)

(** The digits at the front: their value after [acc], their number and the rest. *)
Fixpoint take_digits (acc count : Z) (s : str) : Z * Z * str :=
  match s with
  | c :: r =>
      if is_ascii_digit c then take_digits (acc * 10 + (c - 48)) (count + 1) r else (acc, count, s)
  | [] => (acc, count, s)
  end.

(** The exponent part: nothing, or [e] with an optional sign and digits up to the end. *)
Definition exponent (s : str) : option Z :=
  match s with
  | [] => Some 0
  | c :: r =>
      if (c =? 101) || (c =? 69) then
        let '(negative, r) :=
          match r with
          | c :: r' => if c =? 45 then (true, r') else if c =? 43 then (false, r') else (false, r)
          | [] => (false, r)
          end in
        let '(n, count, rest) := take_digits 0 0 r in
        match rest with
        | [] => if count =? 0 then None else Some (if negative then - n else n)
        | _ => None
        end
      else None
  end.

(** [(-1)^negative * m * 10^e], rounded to nearest even *)
Definition round_decimal (negative : bool) (m e : Z) : f64 :=
  match m with
  | Zpos p =>
      if 0 <=? e then binary_normalize prec emax (signed negative (m * 10 ^ e)) 0 negative
      else match 10 ^ (- e) with
           | Zpos q => f_div (S754_finite negative p 0) (S754_finite false q 0)
           | _ => S754_nan
           end
  | _ => S754_zero negative
  end.

Definition parse_number (negative : bool) (s : str) : option f64 :=
  let '(m, whole, rest) := take_digits 0 0 s in
  let '(m, fraction, rest) :=
    match rest with
    | c :: r => if c =? 46 then take_digits m 0 r else (m, 0, rest)
    | [] => (m, 0, rest)
    end in
  if whole + fraction =? 0 then None
  else (fun e => round_decimal negative m (e - fraction)) <$> exponent rest.

(** [s.parse::<f64>()] *)
Definition parse_f64 (s : str) : option f64 :=
  let '(negative, s) :=
    match s with
    | c :: r => if c =? 45 then (true, r) else if c =? 43 then (false, r) else (false, s)
    | [] => (false, s)
    end in
  let word := to_ascii_lowercase s in
  if (word == lit "inf") || (word == lit "infinity") then Some (S754_infinity negative)
  else if word == lit "nan" then Some S754_nan
  else parse_number negative s.

(** The decimal expansion of an integer is that integer. *)
Lemma take_digits_all acc count s :
  forall n, digits_acc acc s = Some n -> take_digits acc count s = (n, count + len s, []).
Proof.
  revert acc count. induction s as [|c s IH]; intros acc count n; simpl.
  - intros [= <-]. unfold len. simpl. do 2 f_equal. lia.
  - destruct (is_ascii_digit c); [|done]. intros Hn. rewrite (IH _ (count + 1) n Hn).
    unfold len. simpl. do 2 f_equal. lia.
Qed.

(** The text of an integer is read back as that integer, rounded once. *)
Lemma parse_f64_to_string n : 0 <= n -> parse_f64 (to_string n) = Some (f_of_Z n).
Proof.
  intros Hn. pose proof (to_string_digits n Hn) as Hd. pose proof (digits_value_to_string n Hn) as Hv.
  unfold parse_f64, digits_value in *. destruct (to_string n) as [|c r]; [done|].
  assert (Hc : 48 <= c <= 57).
  { inversion Hd as [|? ? Hc _]; subst. unfold is_ascii_digit in Hc. bool_facts. lia. }
  rewrite (proj2 (Z.eqb_neq c 45)), (proj2 (Z.eqb_neq c 43)) by lia. cbv beta zeta iota.
  assert (Hl : exists l, to_ascii_lowercase (c :: r) = c :: l).
  { exists (to_ascii_lowercase r). unfold to_ascii_lowercase. simpl. f_equal.
    unfold to_ascii_lower_char, is_ascii_upper. by rewrite (proj2 (Z.leb_gt 65 c)) by lia. }
  destruct Hl as [l ->].
  assert (Hw : forall w, head w <> Some c -> (c :: l == w) = false)
    by (intros w Hw; apply eqb_ne; intros <-; by apply Hw).
  rewrite !Hw by (vm_compute; injection; lia). unfold parse_number. rewrite (take_digits_all _ _ _ _ Hv). cbv beta zeta iota.
  rewrite (proj2 (Z.eqb_neq _ 0)) by (unfold len; simpl; lia). simpl. f_equal.
  unfold round_decimal, f_of_Z. destruct n as [|p|p]; [reflexivity| |lia].
  rewrite Z.sub_diag. simpl. by rewrite Pos.mul_1_r.
Qed.

Example parse_tenth : parse_f64 (lit "0.1") = Some (f_div (f_of_Z 1) (f_of_Z 10)).
Proof. vm_compute. reflexivity. Qed.
Example parse_exponent : parse_f64 (lit "+12.5E-1") = Some (f_div (f_of_Z 5) (f_of_Z 4)).
Proof. vm_compute. reflexivity. Qed.
Example parse_refused : map parse_f64 [lit "."; lit "1e"; lit ""; lit "1 "; lit "+-1"] = [None; None; None; None; None].
Proof. vm_compute. reflexivity. Qed.
Example parse_words : map parse_f64 [lit "-INF"; lit "NaN"; lit "-0."] = [Some (S754_infinity true); Some S754_nan; Some (S754_zero true)].
Proof. vm_compute. reflexivity. Qed.
