(* ===== verification/Time.v ===== *)
(** * Time: the interface to the [chrono] crate

    Instants ([DateTime<Utc>]) and time deltas are counted in nanoseconds, the resolution of
    the crate; an instant counts from the Unix epoch, so that the order of the crate is the
    order of the integers. The arithmetic of the crate is code outside the repository: it is
    a class of operations ([Chrono]) with the documented behaviour the source relies on as
    its laws ([ChronoLaws]). [ns_chrono] is a concrete implementation of the interface.

    [Duration] is the standard library's and is an integer number of nanoseconds, never
    negative. *)

From S2P Require Import Prelude F64.
Local Open Scope Z_scope.

Abbreviation DateTime := Z.
Abbreviation TimeDelta := Z.
Abbreviation Duration := Z.

Definition NS_PER_MS : Z := 1000000.
Definition NS_PER_SEC : Z := 1000000000.

Class Chrono : Type := {
  (** [DateTime::<Utc>::MIN_UTC] and [MAX_UTC] *)
  dt_min : DateTime;
  dt_max : DateTime;
  (** [TimeDelta::try_milliseconds], [TimeDelta::seconds] *)
  try_milliseconds : Z -> option TimeDelta;
  td_seconds : Z -> TimeDelta;
  (** [TimeDelta::milliseconds], which panics out of range *)
  td_milliseconds : Z -> TimeDelta;
  (** [d / 2], [d.as_seconds_f64()] *)
  td_half : TimeDelta -> TimeDelta;
  as_seconds_f64 : TimeDelta -> f64;
  (** [TimeDelta::num_milliseconds] *)
  num_milliseconds : TimeDelta -> Z;
  (** [a - b] of two instants *)
  dt_sub : DateTime -> DateTime -> TimeDelta;
  (** [t + d] and [t - d]; they panic out of range, where nothing is assumed of them *)
  dt_add : DateTime -> TimeDelta -> DateTime;
  dt_sub_delta : DateTime -> TimeDelta -> DateTime;
  (** [t.checked_add_signed(d)] *)
  checked_add_signed : DateTime -> TimeDelta -> option DateTime;
  (** [TimeDelta::from_std(d).ok()] *)
  td_from_std : Duration -> option TimeDelta;
  (** [t.timestamp()], [t.timestamp_millis()], [t.timestamp_subsec_millis()] *)
  timestamp : DateTime -> Z;
  timestamp_millis : DateTime -> Z;
  timestamp_subsec_millis : DateTime -> Z;
  (** [t.format("%Y%m%dT%H%M%SZ")] *)
  format_stamp : DateTime -> list Z;
}.

Definition in_range {C : Chrono} (t : DateTime) : Prop := dt_min <= t <= dt_max.

Class ChronoLaws (C : Chrono) : Prop := {
  range_ms : dt_max - dt_min <= i64_max * NS_PER_MS;
  try_milliseconds_ok ms :
    - i64_max <= ms <= i64_max -> try_milliseconds ms = Some (ms * NS_PER_MS);
  try_milliseconds_sound ms d : try_milliseconds ms = Some d -> d = ms * NS_PER_MS;
  td_seconds_ok s : is_i32 s -> td_seconds s = s * NS_PER_SEC;
  td_milliseconds_ok ms : - i64_max <= ms <= i64_max -> td_milliseconds ms = ms * NS_PER_MS;
  td_half_ok d : 0 <= d -> td_half d = d / 2;
  num_milliseconds_ok d : num_milliseconds d = Z.quot d NS_PER_MS;
  dt_sub_ok a b : in_range a -> in_range b -> dt_sub a b = a - b;
  dt_add_ok t d : in_range (t + d) -> dt_add t d = t + d;
  dt_sub_delta_ok t d : in_range (t - d) -> dt_sub_delta t d = t - d;
  checked_add_ok t d : in_range (t + d) -> checked_add_signed t d = Some (t + d);
  checked_add_sound t d u : checked_add_signed t d = Some u -> u = t + d /\ in_range u;
  td_from_std_sound d delta : td_from_std d = Some delta -> delta = d;
  timestamp_ok t : timestamp t = t / NS_PER_SEC;
  timestamp_millis_ok t : timestamp_millis t = t / NS_PER_MS;
  subsec_millis_ok t : timestamp_subsec_millis t = (t / NS_PER_MS) mod 1000;
}.

(** The interface on exact nanosecond counts, with the crate's range of about 262000 years
    around the epoch. *)
Definition ns_chrono : Chrono := {|
  dt_min := -8334601228800 * NS_PER_SEC;
  dt_max := 8210266876799 * NS_PER_SEC + 999999999;
  try_milliseconds ms :=
    if (- i64_max <=? ms) && (ms <=? i64_max) then Some (ms * NS_PER_MS) else None;
  td_seconds s := s * NS_PER_SEC;
  td_milliseconds ms := ms * NS_PER_MS;
  td_half d := Z.quot d 2;
  as_seconds_f64 d := f_div (f_of_Z d) (f_of_Z NS_PER_SEC);
  num_milliseconds d := Z.quot d NS_PER_MS;
  dt_sub a b := a - b;
  dt_add t d := t + d;
  dt_sub_delta t d := t - d;
  checked_add_signed t d :=
    if (-8334601228800 * NS_PER_SEC <=? t + d)
       && (t + d <=? 8210266876799 * NS_PER_SEC + 999999999)
    then Some (t + d) else None;
  td_from_std d := if d <=? i64_max * NS_PER_MS then Some d else None;
  timestamp t := t / NS_PER_SEC;
  timestamp_millis t := t / NS_PER_MS;
  timestamp_subsec_millis t := (t / NS_PER_MS) mod 1000;
  format_stamp _ := [];
|}.

Lemma ns_chrono_laws : ChronoLaws ns_chrono.
Proof.
  split; unfold in_range; simpl; try done.
  - intros ms H. destruct (_ && _) eqn:E; [done|].
    apply andb_false_iff in E as [E|E]; bool_facts; lia.
  - intros ms d. destruct (_ && _); [by intros [= <-]|done].
  - intros d H. apply Z.quot_div_nonneg; lia.
  - intros t d H. destruct (_ && _) eqn:E; [done|].
    apply andb_false_iff in E as [E|E]; bool_facts; lia.
  - intros t d u. destruct (_ && _) eqn:E; [intros [= <-]; bool_facts; lia|done].
  - intros d delta. destruct (_ <=? _); [by intros [= <-]|done].
Qed.

(** ** Milliseconds of a difference of instants *)

Section laws.
Context {C : Chrono} {CL : ChronoLaws C}.

(** A later instant is at least [k] milliseconds after an earlier one exactly when the
    truncated difference says so. *)
Lemma elapsed_ms_ge a b k :
  in_range a -> in_range b -> b <= a ->
  k <= num_milliseconds (dt_sub a b) <-> b + k * NS_PER_MS <= a.
Proof.
  intros Ha Hb Hle. rewrite num_milliseconds_ok, dt_sub_ok by done. unfold NS_PER_MS.
  rewrite Z.quot_div_nonneg by lia.
  pose proof (Z.div_mod (a - b) 1000000). pose proof (Z.mod_pos_bound (a - b) 1000000). lia.
Qed.

(** The milliseconds between two instants grow with the later one, also below zero. *)
Lemma elapsed_ms_mono a b c :
  in_range a -> in_range b -> in_range c -> b <= a ->
  num_milliseconds (dt_sub b c) <= num_milliseconds (dt_sub a c).
Proof.
  intros Ha Hb Hc Hle. rewrite !num_milliseconds_ok, !dt_sub_ok by done. unfold NS_PER_MS.
  apply Z.quot_le_mono; lia.
Qed.

Lemma elapsed_ms_nonneg a b :
  in_range a -> in_range b -> b <= a -> 0 <= num_milliseconds (dt_sub a b).
Proof. intros. apply elapsed_ms_ge; lia || done. Qed.

Lemma elapsed_ms_lt a b k :
  in_range a -> in_range b -> b <= a ->
  num_milliseconds (dt_sub a b) < k <-> a < b + k * NS_PER_MS.
Proof. intros Ha Hb Hle. pose proof (elapsed_ms_ge a b k Ha Hb Hle). lia. Qed.
End laws.
