(* ===== verification/Types.v ===== *)
(** * Types: identifiers and the shared OCPP vocabulary

    [ids.rs]: connector, reservation and transaction identifiers, the idTag.
    [ocpp/types.rs]: the enumerations of the protocol. The macro [wire_enum!] of the source
    generates for each of them the list of its variants, its wire strings and its parser;
    here the macro is the class [WireEnum] and the parser [parse_enum] is defined once over
    it. Each enumeration is a Module of the enumeration's name, so that its variants read as
    in the source ([ConnectorStatus.Charging]). *)

From stdpp Require Import strings.
From S2P Require Import Prelude Text Time.
Local Open Scope Z_scope.

(** ** Enumerations with wire strings *)

(** What the macro [wire_enum!] generates for an enumeration. *)
Class WireEnum (T : Type) : Type := {
  ALL : list T;
  wire_str : T -> str;
  type_name : str;
}.

(** A string that is not a value of the named enumeration. *)
Record ParseEnumError : Type := { err_type_name : str; err_value : str }.

(** [FromStr::from_str]: the arms of the generated match, tried in order. *)
Definition parse_enum {T} `{WireEnum T} (s : str) : result T ParseEnumError :=
  match find_first (fun v => wire_str v == s) ALL with
  | Some v => Ok v
  | None => Err {| err_type_name := type_name; err_value := s |}
  end.

(** What a well-formed use of the macro guarantees. *)
Class WireEnumOk (T : Type) `{WireEnum T} : Prop := {
  all_complete (x : T) : In x ALL;
  wire_str_inj (x y : T) : wire_str x = wire_str y -> x = y;
}.

Ltac solve_wire_enum :=
  split;
  [ let x := fresh in intros x; destruct x; simpl; tauto
  | let x := fresh in let y := fresh in
    intros x y; destruct x, y; simpl; first [done | intros E; vm_compute in E; discriminate E] ].

Section wire_enum.
Context {T} `{W : WireEnum T} {OK : WireEnumOk T}.

Lemma parse_enum_wire (x : T) : parse_enum (wire_str x) = Ok x.
Proof.
  unfold parse_enum. destruct (find_first _ _) as [y|] eqn:E.
  - apply find_first_In in E as [_ E]. rewrite eqb_true in E.
    by rewrite (wire_str_inj y x E).
  - pose proof (proj1 (find_first_none _ _) E x (all_complete x)) as H.
    cbn beta in H. by rewrite eqb_refl in H.
Qed.

Lemma parse_enum_sound (s : str) (x : T) : parse_enum s = Ok x -> s = wire_str x.
Proof.
  unfold parse_enum. destruct (find_first _ _) as [y|] eqn:E; [|done].
  intros [= <-]. apply find_first_In in E as [_ E]. by rewrite eqb_true in E.
Qed.
End wire_enum.

(** `ChargePointStatus` (called `ConnectorStatus` here, as in the TS code). *)
Module ConnectorStatus.
Inductive t : Type :=
  | Available | Preparing | Charging | SuspendedEVSE | SuspendedEV | Finishing
  | Reserved | Unavailable | Faulted.

#[export] Instance eq_dec : EqDecision t.
Proof. solve_decision. Defined.

Definition as_str (x : t) : str :=
  match x with
  | Available => lit "Available"
  | Preparing => lit "Preparing"
  | Charging => lit "Charging"
  | SuspendedEVSE => lit "SuspendedEVSE"
  | SuspendedEV => lit "SuspendedEV"
  | Finishing => lit "Finishing"
  | Reserved => lit "Reserved"
  | Unavailable => lit "Unavailable"
  | Faulted => lit "Faulted"
  end.

#[export] Instance wire : WireEnum t := {|
  ALL := [Available; Preparing; Charging; SuspendedEVSE; SuspendedEV; Finishing;
          Reserved; Unavailable; Faulted];
  wire_str := as_str;
  type_name := lit "ConnectorStatus" |}.
#[export] Instance wire_ok : WireEnumOk t.
Proof. solve_wire_enum. Qed.
End ConnectorStatus.
Export (hints) ConnectorStatus.

(** `ChargePointErrorCode`. *)
Module ChargePointErrorCode.
Inductive t : Type :=
  | ConnectorLockFailure | EVCommunicationError | GroundFailure | HighTemperature
  | InternalError | LocalListConflict | NoError | OtherError | OverCurrentFailure
  | PowerMeterFailure | PowerSwitchFailure | ReaderFailure | ResetFailure | UnderVoltage
  | OverVoltage | WeakSignal.

#[export] Instance eq_dec : EqDecision t.
Proof. solve_decision. Defined.

Definition as_str (x : t) : str :=
  match x with
  | ConnectorLockFailure => lit "ConnectorLockFailure"
  | EVCommunicationError => lit "EVCommunicationError"
  | GroundFailure => lit "GroundFailure"
  | HighTemperature => lit "HighTemperature"
  | InternalError => lit "InternalError"
  | LocalListConflict => lit "LocalListConflict"
  | NoError => lit "NoError"
  | OtherError => lit "OtherError"
  | OverCurrentFailure => lit "OverCurrentFailure"
  | PowerMeterFailure => lit "PowerMeterFailure"
  | PowerSwitchFailure => lit "PowerSwitchFailure"
  | ReaderFailure => lit "ReaderFailure"
  | ResetFailure => lit "ResetFailure"
  | UnderVoltage => lit "UnderVoltage"
  | OverVoltage => lit "OverVoltage"
  | WeakSignal => lit "WeakSignal"
  end.

#[export] Instance wire : WireEnum t := {|
  ALL := [ConnectorLockFailure; EVCommunicationError; GroundFailure; HighTemperature;
          InternalError; LocalListConflict; NoError; OtherError; OverCurrentFailure;
          PowerMeterFailure; PowerSwitchFailure; ReaderFailure; ResetFailure;
          UnderVoltage; OverVoltage; WeakSignal];
  wire_str := as_str;
  type_name := lit "ChargePointErrorCode" |}.
#[export] Instance wire_ok : WireEnumOk t.
Proof. solve_wire_enum. Qed.
End ChargePointErrorCode.
Export (hints) ChargePointErrorCode.

(** `AvailabilityType`. *)
Module AvailabilityType.
Inductive t : Type :=
  | Operative | Inoperative.

#[export] Instance eq_dec : EqDecision t.
Proof. solve_decision. Defined.

Definition as_str (x : t) : str :=
  match x with
  | Operative => lit "Operative"
  | Inoperative => lit "Inoperative"
  end.

#[export] Instance wire : WireEnum t := {|
  ALL := [Operative; Inoperative];
  wire_str := as_str;
  type_name := lit "AvailabilityType" |}.
#[export] Instance wire_ok : WireEnumOk t.
Proof. solve_wire_enum. Qed.
End AvailabilityType.
Export (hints) AvailabilityType.

(** `RegistrationStatus` of `BootNotification.conf`. *)
Module RegistrationStatus.
Inductive t : Type :=
  | Accepted | Pending | Rejected.

#[export] Instance eq_dec : EqDecision t.
Proof. solve_decision. Defined.

Definition as_str (x : t) : str :=
  match x with
  | Accepted => lit "Accepted"
  | Pending => lit "Pending"
  | Rejected => lit "Rejected"
  end.

#[export] Instance wire : WireEnum t := {|
  ALL := [Accepted; Pending; Rejected];
  wire_str := as_str;
  type_name := lit "RegistrationStatus" |}.
#[export] Instance wire_ok : WireEnumOk t.
Proof. solve_wire_enum. Qed.
End RegistrationStatus.
Export (hints) RegistrationStatus.

(** `AuthorizationStatus` (the `status` of an `IdTagInfo`). *)
Module AuthorizationStatus.
Inductive t : Type :=
  | Accepted | Blocked | Expired | Invalid | ConcurrentTx.

#[export] Instance eq_dec : EqDecision t.
Proof. solve_decision. Defined.

Definition as_str (x : t) : str :=
  match x with
  | Accepted => lit "Accepted"
  | Blocked => lit "Blocked"
  | Expired => lit "Expired"
  | Invalid => lit "Invalid"
  | ConcurrentTx => lit "ConcurrentTx"
  end.

#[export] Instance wire : WireEnum t := {|
  ALL := [Accepted; Blocked; Expired; Invalid; ConcurrentTx];
  wire_str := as_str;
  type_name := lit "AuthorizationStatus" |}.
#[export] Instance wire_ok : WireEnumOk t.
Proof. solve_wire_enum. Qed.
End AuthorizationStatus.
Export (hints) AuthorizationStatus.

(** `DiagnosticsStatus`. *)
Module DiagnosticsStatus.
Inductive t : Type :=
  | Idle | Uploaded | UploadFailed | Uploading.

#[export] Instance eq_dec : EqDecision t.
Proof. solve_decision. Defined.

Definition as_str (x : t) : str :=
  match x with
  | Idle => lit "Idle"
  | Uploaded => lit "Uploaded"
  | UploadFailed => lit "UploadFailed"
  | Uploading => lit "Uploading"
  end.

#[export] Instance wire : WireEnum t := {|
  ALL := [Idle; Uploaded; UploadFailed; Uploading];
  wire_str := as_str;
  type_name := lit "DiagnosticsStatus" |}.
#[export] Instance wire_ok : WireEnumOk t.
Proof. solve_wire_enum. Qed.
End DiagnosticsStatus.
Export (hints) DiagnosticsStatus.

(** `FirmwareStatus`. *)
Module FirmwareStatus.
Inductive t : Type :=
  | Downloaded | DownloadFailed | Downloading | Idle | InstallationFailed | Installing
  | Installed.

#[export] Instance eq_dec : EqDecision t.
Proof. solve_decision. Defined.

Definition as_str (x : t) : str :=
  match x with
  | Downloaded => lit "Downloaded"
  | DownloadFailed => lit "DownloadFailed"
  | Downloading => lit "Downloading"
  | Idle => lit "Idle"
  | InstallationFailed => lit "InstallationFailed"
  | Installing => lit "Installing"
  | Installed => lit "Installed"
  end.

#[export] Instance wire : WireEnum t := {|
  ALL := [Downloaded; DownloadFailed; Downloading; Idle; InstallationFailed;
          Installing; Installed];
  wire_str := as_str;
  type_name := lit "FirmwareStatus" |}.
#[export] Instance wire_ok : WireEnumOk t.
Proof. solve_wire_enum. Qed.
End FirmwareStatus.
Export (hints) FirmwareStatus.

(** `Reason` of `StopTransaction.req`. *)
Module StopReason.
Inductive t : Type :=
  | EmergencyStop | EVDisconnected | HardReset | Local | Other | PowerLoss | Reboot
  | Remote | SoftReset | UnlockCommand | DeAuthorized.

#[export] Instance eq_dec : EqDecision t.
Proof. solve_decision. Defined.

Definition as_str (x : t) : str :=
  match x with
  | EmergencyStop => lit "EmergencyStop"
  | EVDisconnected => lit "EVDisconnected"
  | HardReset => lit "HardReset"
  | Local => lit "Local"
  | Other => lit "Other"
  | PowerLoss => lit "PowerLoss"
  | Reboot => lit "Reboot"
  | Remote => lit "Remote"
  | SoftReset => lit "SoftReset"
  | UnlockCommand => lit "UnlockCommand"
  | DeAuthorized => lit "DeAuthorized"
  end.

#[export] Instance wire : WireEnum t := {|
  ALL := [EmergencyStop; EVDisconnected; HardReset; Local; Other; PowerLoss; Reboot;
          Remote; SoftReset; UnlockCommand; DeAuthorized];
  wire_str := as_str;
  type_name := lit "StopReason" |}.
#[export] Instance wire_ok : WireEnumOk t.
Proof. solve_wire_enum. Qed.
End StopReason.
Export (hints) StopReason.

(** `Measurand` of a sampled value. *)
Module Measurand.
Inductive t : Type :=
  | CurrentExport | CurrentImport | CurrentOffered | EnergyActiveExportRegister
  | EnergyActiveImportRegister | EnergyReactiveExportRegister
  | EnergyReactiveImportRegister | EnergyActiveExportInterval
  | EnergyActiveImportInterval | EnergyReactiveExportInterval
  | EnergyReactiveImportInterval | Frequency | PowerActiveExport | PowerActiveImport
  | PowerFactor | PowerOffered | PowerReactiveExport | PowerReactiveImport | Rpm | SoC
  | Temperature | Voltage.

#[export] Instance eq_dec : EqDecision t.
Proof. solve_decision. Defined.

Definition as_str (x : t) : str :=
  match x with
  | CurrentExport => lit "Current.Export"
  | CurrentImport => lit "Current.Import"
  | CurrentOffered => lit "Current.Offered"
  | EnergyActiveExportRegister => lit "Energy.Active.Export.Register"
  | EnergyActiveImportRegister => lit "Energy.Active.Import.Register"
  | EnergyReactiveExportRegister => lit "Energy.Reactive.Export.Register"
  | EnergyReactiveImportRegister => lit "Energy.Reactive.Import.Register"
  | EnergyActiveExportInterval => lit "Energy.Active.Export.Interval"
  | EnergyActiveImportInterval => lit "Energy.Active.Import.Interval"
  | EnergyReactiveExportInterval => lit "Energy.Reactive.Export.Interval"
  | EnergyReactiveImportInterval => lit "Energy.Reactive.Import.Interval"
  | Frequency => lit "Frequency"
  | PowerActiveExport => lit "Power.Active.Export"
  | PowerActiveImport => lit "Power.Active.Import"
  | PowerFactor => lit "Power.Factor"
  | PowerOffered => lit "Power.Offered"
  | PowerReactiveExport => lit "Power.Reactive.Export"
  | PowerReactiveImport => lit "Power.Reactive.Import"
  | Rpm => lit "RPM"
  | SoC => lit "SoC"
  | Temperature => lit "Temperature"
  | Voltage => lit "Voltage"
  end.

#[export] Instance wire : WireEnum t := {|
  ALL := [CurrentExport; CurrentImport; CurrentOffered; EnergyActiveExportRegister;
          EnergyActiveImportRegister; EnergyReactiveExportRegister;
          EnergyReactiveImportRegister; EnergyActiveExportInterval;
          EnergyActiveImportInterval; EnergyReactiveExportInterval;
          EnergyReactiveImportInterval; Frequency; PowerActiveExport;
          PowerActiveImport; PowerFactor; PowerOffered; PowerReactiveExport;
          PowerReactiveImport; Rpm; SoC; Temperature; Voltage];
  wire_str := as_str;
  type_name := lit "Measurand" |}.
#[export] Instance wire_ok : WireEnumOk t.
Proof. solve_wire_enum. Qed.
End Measurand.
Export (hints) Measurand.

(** `Phase` of a sampled value. *)
Module Phase.
Inductive t : Type :=
  | L1 | L2 | L3 | N | L1N | L2N | L3N | L1L2 | L2L3 | L3L1.

#[export] Instance eq_dec : EqDecision t.
Proof. solve_decision. Defined.

Definition as_str (x : t) : str :=
  match x with
  | L1 => lit "L1"
  | L2 => lit "L2"
  | L3 => lit "L3"
  | N => lit "N"
  | L1N => lit "L1-N"
  | L2N => lit "L2-N"
  | L3N => lit "L3-N"
  | L1L2 => lit "L1-L2"
  | L2L3 => lit "L2-L3"
  | L3L1 => lit "L3-L1"
  end.

#[export] Instance wire : WireEnum t := {|
  ALL := [L1; L2; L3; N; L1N; L2N; L3N; L1L2; L2L3; L3L1];
  wire_str := as_str;
  type_name := lit "Phase" |}.
#[export] Instance wire_ok : WireEnumOk t.
Proof. solve_wire_enum. Qed.
End Phase.
Export (hints) Phase.

(** `Location` of a measurement. *)
Module Location.
Inductive t : Type :=
  | Cable | EV | Inlet | Outlet | Body.

#[export] Instance eq_dec : EqDecision t.
Proof. solve_decision. Defined.

Definition as_str (x : t) : str :=
  match x with
  | Cable => lit "Cable"
  | EV => lit "EV"
  | Inlet => lit "Inlet"
  | Outlet => lit "Outlet"
  | Body => lit "Body"
  end.

#[export] Instance wire : WireEnum t := {|
  ALL := [Cable; EV; Inlet; Outlet; Body];
  wire_str := as_str;
  type_name := lit "Location" |}.
#[export] Instance wire_ok : WireEnumOk t.
Proof. solve_wire_enum. Qed.
End Location.
Export (hints) Location.

(** `UnitOfMeasure` of a sampled value. Both spellings `Celcius` (sic, as in the 1.6 schema) and `Celsius` are valid on the wire. *)
Module UnitOfMeasure.
Inductive t : Type :=
  | Wh | KWh | Varh | Kvarh | W | KW | VA | KVA | Var | Kvar | A | V | K | Celcius
  | Celsius | Fahrenheit | Percent.

#[export] Instance eq_dec : EqDecision t.
Proof. solve_decision. Defined.

Definition as_str (x : t) : str :=
  match x with
  | Wh => lit "Wh"
  | KWh => lit "kWh"
  | Varh => lit "varh"
  | Kvarh => lit "kvarh"
  | W => lit "W"
  | KW => lit "kW"
  | VA => lit "VA"
  | KVA => lit "kVA"
  | Var => lit "var"
  | Kvar => lit "kvar"
  | A => lit "A"
  | V => lit "V"
  | K => lit "K"
  | Celcius => lit "Celcius"
  | Celsius => lit "Celsius"
  | Fahrenheit => lit "Fahrenheit"
  | Percent => lit "Percent"
  end.

#[export] Instance wire : WireEnum t := {|
  ALL := [Wh; KWh; Varh; Kvarh; W; KW; VA; KVA; Var; Kvar; A; V; K; Celcius; Celsius;
          Fahrenheit; Percent];
  wire_str := as_str;
  type_name := lit "UnitOfMeasure" |}.
#[export] Instance wire_ok : WireEnumOk t.
Proof. solve_wire_enum. Qed.
End UnitOfMeasure.
Export (hints) UnitOfMeasure.

(** `ReadingContext` of a sampled value. *)
Module ReadingContext.
Inductive t : Type :=
  | InterruptionBegin | InterruptionEnd | SampleClock | SamplePeriodic
  | TransactionBegin | TransactionEnd | Trigger | Other.

#[export] Instance eq_dec : EqDecision t.
Proof. solve_decision. Defined.

Definition as_str (x : t) : str :=
  match x with
  | InterruptionBegin => lit "Interruption.Begin"
  | InterruptionEnd => lit "Interruption.End"
  | SampleClock => lit "Sample.Clock"
  | SamplePeriodic => lit "Sample.Periodic"
  | TransactionBegin => lit "Transaction.Begin"
  | TransactionEnd => lit "Transaction.End"
  | Trigger => lit "Trigger"
  | Other => lit "Other"
  end.

#[export] Instance wire : WireEnum t := {|
  ALL := [InterruptionBegin; InterruptionEnd; SampleClock; SamplePeriodic;
          TransactionBegin; TransactionEnd; Trigger; Other];
  wire_str := as_str;
  type_name := lit "ReadingContext" |}.
#[export] Instance wire_ok : WireEnumOk t.
Proof. solve_wire_enum. Qed.
End ReadingContext.
Export (hints) ReadingContext.

(** `ValueFormat` of a sampled value. *)
Module ValueFormat.
Inductive t : Type :=
  | Raw | SignedData.

#[export] Instance eq_dec : EqDecision t.
Proof. solve_decision. Defined.

Definition as_str (x : t) : str :=
  match x with
  | Raw => lit "Raw"
  | SignedData => lit "SignedData"
  end.

#[export] Instance wire : WireEnum t := {|
  ALL := [Raw; SignedData];
  wire_str := as_str;
  type_name := lit "ValueFormat" |}.
#[export] Instance wire_ok : WireEnumOk t.
Proof. solve_wire_enum. Qed.
End ValueFormat.
Export (hints) ValueFormat.

(** `ResetType` of `Reset.req`. *)
Module ResetType.
Inductive t : Type :=
  | Hard | Soft.

#[export] Instance eq_dec : EqDecision t.
Proof. solve_decision. Defined.

Definition as_str (x : t) : str :=
  match x with
  | Hard => lit "Hard"
  | Soft => lit "Soft"
  end.

#[export] Instance wire : WireEnum t := {|
  ALL := [Hard; Soft];
  wire_str := as_str;
  type_name := lit "ResetType" |}.
#[export] Instance wire_ok : WireEnumOk t.
Proof. solve_wire_enum. Qed.
End ResetType.
Export (hints) ResetType.

(** `ConfigurationStatus` of `ChangeConfiguration.conf`. *)
Module ConfigurationStatus.
Inductive t : Type :=
  | Accepted | Rejected | RebootRequired | NotSupported.

#[export] Instance eq_dec : EqDecision t.
Proof. solve_decision. Defined.

Definition as_str (x : t) : str :=
  match x with
  | Accepted => lit "Accepted"
  | Rejected => lit "Rejected"
  | RebootRequired => lit "RebootRequired"
  | NotSupported => lit "NotSupported"
  end.

#[export] Instance wire : WireEnum t := {|
  ALL := [Accepted; Rejected; RebootRequired; NotSupported];
  wire_str := as_str;
  type_name := lit "ConfigurationStatus" |}.
#[export] Instance wire_ok : WireEnumOk t.
Proof. solve_wire_enum. Qed.
End ConfigurationStatus.
Export (hints) ConfigurationStatus.

(** `ChargingProfilePurposeType`. *)
Module ChargingProfilePurposeType.
Inductive t : Type :=
  | ChargePointMaxProfile | TxDefaultProfile | TxProfile.

#[export] Instance eq_dec : EqDecision t.
Proof. solve_decision. Defined.

Definition as_str (x : t) : str :=
  match x with
  | ChargePointMaxProfile => lit "ChargePointMaxProfile"
  | TxDefaultProfile => lit "TxDefaultProfile"
  | TxProfile => lit "TxProfile"
  end.

#[export] Instance wire : WireEnum t := {|
  ALL := [ChargePointMaxProfile; TxDefaultProfile; TxProfile];
  wire_str := as_str;
  type_name := lit "ChargingProfilePurposeType" |}.
#[export] Instance wire_ok : WireEnumOk t.
Proof. solve_wire_enum. Qed.
End ChargingProfilePurposeType.
Export (hints) ChargingProfilePurposeType.

(** `ChargingProfileKindType`. *)
Module ChargingProfileKindType.
Inductive t : Type :=
  | Absolute | Recurring | Relative.

#[export] Instance eq_dec : EqDecision t.
Proof. solve_decision. Defined.

Definition as_str (x : t) : str :=
  match x with
  | Absolute => lit "Absolute"
  | Recurring => lit "Recurring"
  | Relative => lit "Relative"
  end.

#[export] Instance wire : WireEnum t := {|
  ALL := [Absolute; Recurring; Relative];
  wire_str := as_str;
  type_name := lit "ChargingProfileKindType" |}.
#[export] Instance wire_ok : WireEnumOk t.
Proof. solve_wire_enum. Qed.
End ChargingProfileKindType.
Export (hints) ChargingProfileKindType.

(** `RecurrencyKindType`. *)
Module RecurrencyKindType.
Inductive t : Type :=
  | Daily | Weekly.

#[export] Instance eq_dec : EqDecision t.
Proof. solve_decision. Defined.

Definition as_str (x : t) : str :=
  match x with
  | Daily => lit "Daily"
  | Weekly => lit "Weekly"
  end.

#[export] Instance wire : WireEnum t := {|
  ALL := [Daily; Weekly];
  wire_str := as_str;
  type_name := lit "RecurrencyKindType" |}.
#[export] Instance wire_ok : WireEnumOk t.
Proof. solve_wire_enum. Qed.
End RecurrencyKindType.
Export (hints) RecurrencyKindType.

(** `ChargingRateUnitType`. *)
Module ChargingRateUnitType.
Inductive t : Type :=
  | A | W.

#[export] Instance eq_dec : EqDecision t.
Proof. solve_decision. Defined.

Definition as_str (x : t) : str :=
  match x with
  | A => lit "A"
  | W => lit "W"
  end.

#[export] Instance wire : WireEnum t := {|
  ALL := [A; W];
  wire_str := as_str;
  type_name := lit "ChargingRateUnitType" |}.
#[export] Instance wire_ok : WireEnumOk t.
Proof. solve_wire_enum. Qed.
End ChargingRateUnitType.
Export (hints) ChargingRateUnitType.

(** `MessageTrigger`: the `requestedMessage` of `TriggerMessage.req`. *)
Module MessageTrigger.
Inductive t : Type :=
  | BootNotification | DiagnosticsStatusNotification | FirmwareStatusNotification
  | Heartbeat | MeterValues | StatusNotification.

#[export] Instance eq_dec : EqDecision t.
Proof. solve_decision. Defined.

Definition as_str (x : t) : str :=
  match x with
  | BootNotification => lit "BootNotification"
  | DiagnosticsStatusNotification => lit "DiagnosticsStatusNotification"
  | FirmwareStatusNotification => lit "FirmwareStatusNotification"
  | Heartbeat => lit "Heartbeat"
  | MeterValues => lit "MeterValues"
  | StatusNotification => lit "StatusNotification"
  end.

#[export] Instance wire : WireEnum t := {|
  ALL := [BootNotification; DiagnosticsStatusNotification; FirmwareStatusNotification;
          Heartbeat; MeterValues; StatusNotification];
  wire_str := as_str;
  type_name := lit "MessageTrigger" |}.
#[export] Instance wire_ok : WireEnumOk t.
Proof. solve_wire_enum. Qed.
End MessageTrigger.
Export (hints) MessageTrigger.

(** `UpdateType` of `SendLocalList.req`. *)
Module UpdateType.
Inductive t : Type :=
  | Differential | Full.

#[export] Instance eq_dec : EqDecision t.
Proof. solve_decision. Defined.

Definition as_str (x : t) : str :=
  match x with
  | Differential => lit "Differential"
  | Full => lit "Full"
  end.

#[export] Instance wire : WireEnum t := {|
  ALL := [Differential; Full];
  wire_str := as_str;
  type_name := lit "UpdateType" |}.
#[export] Instance wire_ok : WireEnumOk t.
Proof. solve_wire_enum. Qed.
End UpdateType.
Export (hints) UpdateType.


(** ** Identifiers *)

(** Connector number (a [u32]): [0] is the charge point, [1..] the physical connectors. *)
Abbreviation ConnectorId := Z.
Definition STATION : ConnectorId := 0.
Definition is_station (id : ConnectorId) : bool := id =? 0.

(** Reservation id assigned by the CSMS (an [i32], [0] is valid). *)
Abbreviation ReservationId := Z.

(** Transaction id: assigned by the CSMS, or local to the station until it is. *)
Module TxId.
Inductive t : Type :=
| Csms (id : Z)
| Local (id : Z).

#[export] Instance eq_dec : EqDecision t.
Proof. solve_decision. Defined.

(** The wire value, if the id was assigned by the CSMS. *)
Definition wire (x : t) : option Z :=
  match x with Csms id => Some id | Local _ => None end.

(** Wire value or a typed error. *)
Definition require_wire (x : t) : result Z t :=
  match wire x with Some id => Ok id | None => Err x end.

Definition is_local (x : t) : bool :=
  match x with Local _ => true | Csms _ => false end.
End TxId.
Export (hints) TxId.

(** An idTag; [IdTag_new] is the only constructor of the source. *)
Abbreviation IdTag := str.
Definition ID_TAG_MAX_LEN : Z := 20.

(** [IdTag::new]: at most 20 characters; the error carries the length. *)
Definition IdTag_new (value : str) : result IdTag Z :=
  let n := chars_count value in
  if ID_TAG_MAX_LEN <? n then Err n else Ok value.

