(* ===== verification/Messages.v ===== *)
(** * Messages: the OCPP messages the station exchanges

    [ocpp/messages/]: the enumerations of each profile and the request and response
    structures, one Module per structure with the source's field names. The JSON form of a
    message (serde) is not modelled: a handler receives the decoded request. *)

From stdpp Require Import strings.
From S2P Require Import Prelude Text Time F64 Types.
Local Open Scope Z_scope.

(** ** [messages/common.rs] *)

(** `IdTagInfo`: the CSMS' verdict on an `idTag`. *)
Module IdTagInfo.
Record t : Type := mk {
  status : AuthorizationStatus.t;
  expiry_date : option DateTime;
  parent_id_tag : option IdTag;
}.
#[export] Instance eta : Eta t := fun r => mk (status r) (expiry_date r) (parent_id_tag r).
#[export] Instance eq_dec : EqDecision t.
Proof. solve_decision. Defined.
End IdTagInfo.
Export (hints) IdTagInfo.

(** `SampledValue` of a `MeterValue`. *)
Module SampledValue.
Record t : Type := mk {
  value : str;
  context : option ReadingContext.t;
  format : option ValueFormat.t;
  measurand : option Measurand.t;
  phase : option Phase.t;
  location : option Location.t;
  unit : option UnitOfMeasure.t;
}.
#[export] Instance eta : Eta t := fun r => mk (value r) (context r) (format r) (measurand r) (phase r) (location r) (unit r).
#[export] Instance eq_dec : EqDecision t.
Proof. solve_decision. Defined.
End SampledValue.
Export (hints) SampledValue.

(** `MeterValue`: samples taken at one instant. *)
Module MeterValue.
Record t : Type := mk {
  timestamp : DateTime;
  sampled_value : list SampledValue.t;
}.
#[export] Instance eta : Eta t := fun r => mk (timestamp r) (sampled_value r).
#[export] Instance eq_dec : EqDecision t.
Proof. solve_decision. Defined.
End MeterValue.
Export (hints) MeterValue.

(** One entry of `ChargingSchedule.chargingSchedulePeriod`. *)
Module ChargingSchedulePeriod.
Record t : Type := mk {
  start_period : Z;
  limit : f64;
  number_phases : option Z;
}.
#[export] Instance eta : Eta t := fun r => mk (start_period r) (limit r) (number_phases r).
#[export] Instance eq_dec : EqDecision t.
Proof. solve_decision. Defined.
End ChargingSchedulePeriod.
Export (hints) ChargingSchedulePeriod.

(** `ChargingSchedule`. *)
Module ChargingSchedule.
Record t : Type := mk {
  duration : option Z;
  start_schedule : option DateTime;
  charging_rate_unit : ChargingRateUnitType.t;
  charging_schedule_period : list ChargingSchedulePeriod.t;
  min_charging_rate : option f64;
}.
#[export] Instance eta : Eta t := fun r => mk (duration r) (start_schedule r) (charging_rate_unit r) (charging_schedule_period r) (min_charging_rate r).
#[export] Instance eq_dec : EqDecision t.
Proof. solve_decision. Defined.
End ChargingSchedule.
Export (hints) ChargingSchedule.

(** `ChargingProfile` (`csChargingProfiles` of `SetChargingProfile`, `chargingProfile` of `RemoteStartTransaction`). *)
Module ChargingProfile.
Record t : Type := mk {
  charging_profile_id : Z;
  transaction_id : option Z;
  stack_level : Z;
  charging_profile_purpose : ChargingProfilePurposeType.t;
  charging_profile_kind : ChargingProfileKindType.t;
  recurrency_kind : option RecurrencyKindType.t;
  valid_from : option DateTime;
  valid_to : option DateTime;
  charging_schedule : ChargingSchedule.t;
}.
#[export] Instance eta : Eta t := fun r => mk (charging_profile_id r) (transaction_id r) (stack_level r) (charging_profile_purpose r) (charging_profile_kind r) (recurrency_kind r) (valid_from r) (valid_to r) (charging_schedule r).
#[export] Instance eq_dec : EqDecision t.
Proof. solve_decision. Defined.
End ChargingProfile.
Export (hints) ChargingProfile.

(** `AuthorizationData`: one entry of a `SendLocalList` list.  Without `idTagInfo` a differential update deletes the entry. *)
Module AuthorizationData.
Record t : Type := mk {
  id_tag : IdTag;
  id_tag_info : option IdTagInfo.t;
}.
#[export] Instance eta : Eta t := fun r => mk (id_tag r) (id_tag_info r).
#[export] Instance eq_dec : EqDecision t.
Proof. solve_decision. Defined.
End AuthorizationData.
Export (hints) AuthorizationData.

(** ** [messages/core_profile.rs] *)

(** `Authorize.req`. *)
Module AuthorizeRequest.
Record t : Type := mk {
  id_tag : IdTag;
}.
#[export] Instance eta : Eta t := fun r => mk (id_tag r).
#[export] Instance eq_dec : EqDecision t.
Proof. solve_decision. Defined.
End AuthorizeRequest.
Export (hints) AuthorizeRequest.

(** `Authorize.conf`. *)
Module AuthorizeResponse.
Record t : Type := mk {
  id_tag_info : IdTagInfo.t;
}.
#[export] Instance eta : Eta t := fun r => mk (id_tag_info r).
#[export] Instance eq_dec : EqDecision t.
Proof. solve_decision. Defined.
End AuthorizeResponse.
Export (hints) AuthorizeResponse.

(** `BootNotification.req`. *)
Module BootNotificationRequest.
Record t : Type := mk {
  charge_point_vendor : str;
  charge_point_model : str;
  charge_point_serial_number : option str;
  charge_box_serial_number : option str;
  firmware_version : option str;
  iccid : option str;
  imsi : option str;
  meter_type : option str;
  meter_serial_number : option str;
}.
#[export] Instance eta : Eta t := fun r => mk (charge_point_vendor r) (charge_point_model r) (charge_point_serial_number r) (charge_box_serial_number r) (firmware_version r) (iccid r) (imsi r) (meter_type r) (meter_serial_number r).
#[export] Instance eq_dec : EqDecision t.
Proof. solve_decision. Defined.
End BootNotificationRequest.
Export (hints) BootNotificationRequest.

(** `BootNotification.conf`. *)
Module BootNotificationResponse.
Record t : Type := mk {
  status : RegistrationStatus.t;
  current_time : DateTime;
  interval : Z;
}.
#[export] Instance eta : Eta t := fun r => mk (status r) (current_time r) (interval r).
#[export] Instance eq_dec : EqDecision t.
Proof. solve_decision. Defined.
End BootNotificationResponse.
Export (hints) BootNotificationResponse.

(** `AvailabilityStatus` of `ChangeAvailability.conf`. *)
Module AvailabilityStatus.
Inductive t : Type :=
  | Accepted | Rejected | Scheduled.

#[export] Instance eq_dec : EqDecision t.
Proof. solve_decision. Defined.

Definition as_str (x : t) : str :=
  match x with
  | Accepted => lit "Accepted"
  | Rejected => lit "Rejected"
  | Scheduled => lit "Scheduled"
  end.

#[export] Instance wire : WireEnum t := {|
  ALL := [Accepted; Rejected; Scheduled];
  wire_str := as_str;
  type_name := lit "AvailabilityStatus" |}.
#[export] Instance wire_ok : WireEnumOk t.
Proof. solve_wire_enum. Qed.
End AvailabilityStatus.
Export (hints) AvailabilityStatus.

(** `ChangeAvailability.req`. *)
Module ChangeAvailabilityRequest.
Record t : Type := mk {
  connector_id : ConnectorId;
  kind : AvailabilityType.t;
}.
#[export] Instance eta : Eta t := fun r => mk (connector_id r) (kind r).
#[export] Instance eq_dec : EqDecision t.
Proof. solve_decision. Defined.
End ChangeAvailabilityRequest.
Export (hints) ChangeAvailabilityRequest.

(** `ChangeAvailability.conf`. *)
Module ChangeAvailabilityResponse.
Record t : Type := mk {
  status : AvailabilityStatus.t;
}.
#[export] Instance eta : Eta t := fun r => mk (status r).
#[export] Instance eq_dec : EqDecision t.
Proof. solve_decision. Defined.
End ChangeAvailabilityResponse.
Export (hints) ChangeAvailabilityResponse.

(** `ChangeConfiguration.req`. *)
Module ChangeConfigurationRequest.
Record t : Type := mk {
  key : str;
  value : str;
}.
#[export] Instance eta : Eta t := fun r => mk (key r) (value r).
#[export] Instance eq_dec : EqDecision t.
Proof. solve_decision. Defined.
End ChangeConfigurationRequest.
Export (hints) ChangeConfigurationRequest.

(** `ChangeConfiguration.conf`. *)
Module ChangeConfigurationResponse.
Record t : Type := mk {
  status : ConfigurationStatus.t;
}.
#[export] Instance eta : Eta t := fun r => mk (status r).
#[export] Instance eq_dec : EqDecision t.
Proof. solve_decision. Defined.
End ChangeConfigurationResponse.
Export (hints) ChangeConfigurationResponse.

(** `ClearCacheStatus`. *)
Module ClearCacheStatus.
Inductive t : Type :=
  | Accepted | Rejected.

#[export] Instance eq_dec : EqDecision t.
Proof. solve_decision. Defined.

Definition as_str (x : t) : str :=
  match x with
  | Accepted => lit "Accepted"
  | Rejected => lit "Rejected"
  end.

#[export] Instance wire : WireEnum t := {|
  ALL := [Accepted; Rejected];
  wire_str := as_str;
  type_name := lit "ClearCacheStatus" |}.
#[export] Instance wire_ok : WireEnumOk t.
Proof. solve_wire_enum. Qed.
End ClearCacheStatus.
Export (hints) ClearCacheStatus.

(** `ClearCache.conf`. *)
Module ClearCacheResponse.
Record t : Type := mk {
  status : ClearCacheStatus.t;
}.
#[export] Instance eta : Eta t := fun r => mk (status r).
#[export] Instance eq_dec : EqDecision t.
Proof. solve_decision. Defined.
End ClearCacheResponse.
Export (hints) ClearCacheResponse.

(** `DataTransferStatus`. *)
Module DataTransferStatus.
Inductive t : Type :=
  | Accepted | Rejected | UnknownMessageId | UnknownVendorId.

#[export] Instance eq_dec : EqDecision t.
Proof. solve_decision. Defined.

Definition as_str (x : t) : str :=
  match x with
  | Accepted => lit "Accepted"
  | Rejected => lit "Rejected"
  | UnknownMessageId => lit "UnknownMessageId"
  | UnknownVendorId => lit "UnknownVendorId"
  end.

#[export] Instance wire : WireEnum t := {|
  ALL := [Accepted; Rejected; UnknownMessageId; UnknownVendorId];
  wire_str := as_str;
  type_name := lit "DataTransferStatus" |}.
#[export] Instance wire_ok : WireEnumOk t.
Proof. solve_wire_enum. Qed.
End DataTransferStatus.
Export (hints) DataTransferStatus.

(** `DataTransfer.req` (both directions). *)
Module DataTransferRequest.
Record t : Type := mk {
  vendor_id : str;
  message_id : option str;
  data : option str;
}.
#[export] Instance eta : Eta t := fun r => mk (vendor_id r) (message_id r) (data r).
#[export] Instance eq_dec : EqDecision t.
Proof. solve_decision. Defined.
End DataTransferRequest.
Export (hints) DataTransferRequest.

(** `DataTransfer.conf` (both directions). *)
Module DataTransferResponse.
Record t : Type := mk {
  status : DataTransferStatus.t;
  data : option str;
}.
#[export] Instance eta : Eta t := fun r => mk (status r) (data r).
#[export] Instance eq_dec : EqDecision t.
Proof. solve_decision. Defined.
End DataTransferResponse.
Export (hints) DataTransferResponse.

(** `GetConfiguration.req`. Without `key` the whole configuration is requested. *)
Module GetConfigurationRequest.
Record t : Type := mk {
  key : option (list str);
}.
#[export] Instance eta : Eta t := fun r => mk (key r).
#[export] Instance eq_dec : EqDecision t.
Proof. solve_decision. Defined.
End GetConfigurationRequest.
Export (hints) GetConfigurationRequest.

(** One entry of `GetConfiguration.conf.configurationKey`. *)
Module ConfigurationKey.
Record t : Type := mk {
  key : str;
  readonly : bool;
  value : option str;
}.
#[export] Instance eta : Eta t := fun r => mk (key r) (readonly r) (value r).
#[export] Instance eq_dec : EqDecision t.
Proof. solve_decision. Defined.
End ConfigurationKey.
Export (hints) ConfigurationKey.

(** `GetConfiguration.conf`. *)
Module GetConfigurationResponse.
Record t : Type := mk {
  configuration_key : option (list ConfigurationKey.t);
  unknown_key : option (list str);
}.
#[export] Instance eta : Eta t := fun r => mk (configuration_key r) (unknown_key r).
#[export] Instance eq_dec : EqDecision t.
Proof. solve_decision. Defined.
End GetConfigurationResponse.
Export (hints) GetConfigurationResponse.

(** `MeterValues.req`. *)
Module MeterValuesRequest.
Record t : Type := mk {
  connector_id : ConnectorId;
  transaction_id : option Z;
  meter_value : list MeterValue.t;
}.
#[export] Instance eta : Eta t := fun r => mk (connector_id r) (transaction_id r) (meter_value r).
#[export] Instance eq_dec : EqDecision t.
Proof. solve_decision. Defined.
End MeterValuesRequest.
Export (hints) MeterValuesRequest.

(** `RemoteStartStopStatus` of `RemoteStartTransaction.conf` and `RemoteStopTransaction.conf`. *)
Module RemoteStartStopStatus.
Inductive t : Type :=
  | Accepted | Rejected.

#[export] Instance eq_dec : EqDecision t.
Proof. solve_decision. Defined.

Definition as_str (x : t) : str :=
  match x with
  | Accepted => lit "Accepted"
  | Rejected => lit "Rejected"
  end.

#[export] Instance wire : WireEnum t := {|
  ALL := [Accepted; Rejected];
  wire_str := as_str;
  type_name := lit "RemoteStartStopStatus" |}.
#[export] Instance wire_ok : WireEnumOk t.
Proof. solve_wire_enum. Qed.
End RemoteStartStopStatus.
Export (hints) RemoteStartStopStatus.

(** `RemoteStartTransaction.req`. *)
Module RemoteStartTransactionRequest.
Record t : Type := mk {
  connector_id : option ConnectorId;
  id_tag : IdTag;
  charging_profile : option ChargingProfile.t;
}.
#[export] Instance eta : Eta t := fun r => mk (connector_id r) (id_tag r) (charging_profile r).
#[export] Instance eq_dec : EqDecision t.
Proof. solve_decision. Defined.
End RemoteStartTransactionRequest.
Export (hints) RemoteStartTransactionRequest.

(** `RemoteStartTransaction.conf`. *)
Module RemoteStartTransactionResponse.
Record t : Type := mk {
  status : RemoteStartStopStatus.t;
}.
#[export] Instance eta : Eta t := fun r => mk (status r).
#[export] Instance eq_dec : EqDecision t.
Proof. solve_decision. Defined.
End RemoteStartTransactionResponse.
Export (hints) RemoteStartTransactionResponse.

(** `RemoteStopTransaction.req`. *)
Module RemoteStopTransactionRequest.
Record t : Type := mk {
  transaction_id : Z;
}.
#[export] Instance eta : Eta t := fun r => mk (transaction_id r).
#[export] Instance eq_dec : EqDecision t.
Proof. solve_decision. Defined.
End RemoteStopTransactionRequest.
Export (hints) RemoteStopTransactionRequest.

(** `RemoteStopTransaction.conf`. *)
Module RemoteStopTransactionResponse.
Record t : Type := mk {
  status : RemoteStartStopStatus.t;
}.
#[export] Instance eta : Eta t := fun r => mk (status r).
#[export] Instance eq_dec : EqDecision t.
Proof. solve_decision. Defined.
End RemoteStopTransactionResponse.
Export (hints) RemoteStopTransactionResponse.

(** `ResetStatus`. *)
Module ResetStatus.
Inductive t : Type :=
  | Accepted | Rejected.

#[export] Instance eq_dec : EqDecision t.
Proof. solve_decision. Defined.

Definition as_str (x : t) : str :=
  match x with
  | Accepted => lit "Accepted"
  | Rejected => lit "Rejected"
  end.

#[export] Instance wire : WireEnum t := {|
  ALL := [Accepted; Rejected];
  wire_str := as_str;
  type_name := lit "ResetStatus" |}.
#[export] Instance wire_ok : WireEnumOk t.
Proof. solve_wire_enum. Qed.
End ResetStatus.
Export (hints) ResetStatus.

(** `Reset.req`. *)
Module ResetRequest.
Record t : Type := mk {
  kind : ResetType.t;
}.
#[export] Instance eta : Eta t := fun r => mk (kind r).
#[export] Instance eq_dec : EqDecision t.
Proof. solve_decision. Defined.
End ResetRequest.
Export (hints) ResetRequest.

(** `Reset.conf`. *)
Module ResetResponse.
Record t : Type := mk {
  status : ResetStatus.t;
}.
#[export] Instance eta : Eta t := fun r => mk (status r).
#[export] Instance eq_dec : EqDecision t.
Proof. solve_decision. Defined.
End ResetResponse.
Export (hints) ResetResponse.

(** `StartTransaction.req`. *)
Module StartTransactionRequest.
Record t : Type := mk {
  connector_id : ConnectorId;
  id_tag : IdTag;
  meter_start : Z;
  reservation_id : option ReservationId;
  timestamp : DateTime;
}.
#[export] Instance eta : Eta t := fun r => mk (connector_id r) (id_tag r) (meter_start r) (reservation_id r) (timestamp r).
#[export] Instance eq_dec : EqDecision t.
Proof. solve_decision. Defined.
End StartTransactionRequest.
Export (hints) StartTransactionRequest.

(** `StartTransaction.conf`. *)
Module StartTransactionResponse.
Record t : Type := mk {
  id_tag_info : IdTagInfo.t;
  transaction_id : Z;
}.
#[export] Instance eta : Eta t := fun r => mk (id_tag_info r) (transaction_id r).
#[export] Instance eq_dec : EqDecision t.
Proof. solve_decision. Defined.
End StartTransactionResponse.
Export (hints) StartTransactionResponse.

(** `StatusNotification.req`. *)
Module StatusNotificationRequest.
Record t : Type := mk {
  connector_id : ConnectorId;
  error_code : ChargePointErrorCode.t;
  info : option str;
  status : ConnectorStatus.t;
  timestamp : option DateTime;
  vendor_id : option str;
  vendor_error_code : option str;
}.
#[export] Instance eta : Eta t := fun r => mk (connector_id r) (error_code r) (info r) (status r) (timestamp r) (vendor_id r) (vendor_error_code r).
#[export] Instance eq_dec : EqDecision t.
Proof. solve_decision. Defined.
End StatusNotificationRequest.
Export (hints) StatusNotificationRequest.

(** `StopTransaction.req`. *)
Module StopTransactionRequest.
Record t : Type := mk {
  id_tag : option IdTag;
  meter_stop : Z;
  timestamp : DateTime;
  transaction_id : Z;
  reason : option StopReason.t;
  transaction_data : option (list MeterValue.t);
}.
#[export] Instance eta : Eta t := fun r => mk (id_tag r) (meter_stop r) (timestamp r) (transaction_id r) (reason r) (transaction_data r).
#[export] Instance eq_dec : EqDecision t.
Proof. solve_decision. Defined.
End StopTransactionRequest.
Export (hints) StopTransactionRequest.

(** `StopTransaction.conf`. *)
Module StopTransactionResponse.
Record t : Type := mk {
  id_tag_info : option IdTagInfo.t;
}.
#[export] Instance eta : Eta t := fun r => mk (id_tag_info r).
#[export] Instance eq_dec : EqDecision t.
Proof. solve_decision. Defined.
End StopTransactionResponse.
Export (hints) StopTransactionResponse.

(** `UnlockStatus`. *)
Module UnlockStatus.
Inductive t : Type :=
  | Unlocked | UnlockFailed | NotSupported.

#[export] Instance eq_dec : EqDecision t.
Proof. solve_decision. Defined.

Definition as_str (x : t) : str :=
  match x with
  | Unlocked => lit "Unlocked"
  | UnlockFailed => lit "UnlockFailed"
  | NotSupported => lit "NotSupported"
  end.

#[export] Instance wire : WireEnum t := {|
  ALL := [Unlocked; UnlockFailed; NotSupported];
  wire_str := as_str;
  type_name := lit "UnlockStatus" |}.
#[export] Instance wire_ok : WireEnumOk t.
Proof. solve_wire_enum. Qed.
End UnlockStatus.
Export (hints) UnlockStatus.

(** `UnlockConnector.req`. *)
Module UnlockConnectorRequest.
Record t : Type := mk {
  connector_id : ConnectorId;
}.
#[export] Instance eta : Eta t := fun r => mk (connector_id r).
#[export] Instance eq_dec : EqDecision t.
Proof. solve_decision. Defined.
End UnlockConnectorRequest.
Export (hints) UnlockConnectorRequest.

(** `UnlockConnector.conf`. *)
Module UnlockConnectorResponse.
Record t : Type := mk {
  status : UnlockStatus.t;
}.
#[export] Instance eta : Eta t := fun r => mk (status r).
#[export] Instance eq_dec : EqDecision t.
Proof. solve_decision. Defined.
End UnlockConnectorResponse.
Export (hints) UnlockConnectorResponse.

(** ** [messages/local_auth_list.rs] *)

(** `GetLocalListVersion.conf`. *)
Module GetLocalListVersionResponse.
Record t : Type := mk {
  list_version : Z;
}.
#[export] Instance eta : Eta t := fun r => mk (list_version r).
#[export] Instance eq_dec : EqDecision t.
Proof. solve_decision. Defined.
End GetLocalListVersionResponse.
Export (hints) GetLocalListVersionResponse.

(** `UpdateStatus` of `SendLocalList.conf`. *)
Module UpdateStatus.
Inductive t : Type :=
  | Accepted | Failed | NotSupported | VersionMismatch.

#[export] Instance eq_dec : EqDecision t.
Proof. solve_decision. Defined.

Definition as_str (x : t) : str :=
  match x with
  | Accepted => lit "Accepted"
  | Failed => lit "Failed"
  | NotSupported => lit "NotSupported"
  | VersionMismatch => lit "VersionMismatch"
  end.

#[export] Instance wire : WireEnum t := {|
  ALL := [Accepted; Failed; NotSupported; VersionMismatch];
  wire_str := as_str;
  type_name := lit "UpdateStatus" |}.
#[export] Instance wire_ok : WireEnumOk t.
Proof. solve_wire_enum. Qed.
End UpdateStatus.
Export (hints) UpdateStatus.

(** `SendLocalList.req`. *)
Module SendLocalListRequest.
Record t : Type := mk {
  list_version : Z;
  local_authorization_list : option (list AuthorizationData.t);
  update_type : UpdateType.t;
}.
#[export] Instance eta : Eta t := fun r => mk (list_version r) (local_authorization_list r) (update_type r).
#[export] Instance eq_dec : EqDecision t.
Proof. solve_decision. Defined.
End SendLocalListRequest.
Export (hints) SendLocalListRequest.

(** `SendLocalList.conf`. *)
Module SendLocalListResponse.
Record t : Type := mk {
  status : UpdateStatus.t;
}.
#[export] Instance eta : Eta t := fun r => mk (status r).
#[export] Instance eq_dec : EqDecision t.
Proof. solve_decision. Defined.
End SendLocalListResponse.
Export (hints) SendLocalListResponse.

(** ** [messages/reservation.rs] *)

(** `ReservationStatus` of `ReserveNow.conf`. *)
Module ReservationStatus.
Inductive t : Type :=
  | Accepted | Faulted | Occupied | Rejected | Unavailable.

#[export] Instance eq_dec : EqDecision t.
Proof. solve_decision. Defined.

Definition as_str (x : t) : str :=
  match x with
  | Accepted => lit "Accepted"
  | Faulted => lit "Faulted"
  | Occupied => lit "Occupied"
  | Rejected => lit "Rejected"
  | Unavailable => lit "Unavailable"
  end.

#[export] Instance wire : WireEnum t := {|
  ALL := [Accepted; Faulted; Occupied; Rejected; Unavailable];
  wire_str := as_str;
  type_name := lit "ReservationStatus" |}.
#[export] Instance wire_ok : WireEnumOk t.
Proof. solve_wire_enum. Qed.
End ReservationStatus.
Export (hints) ReservationStatus.

(** `ReserveNow.req`. *)
Module ReserveNowRequest.
Record t : Type := mk {
  connector_id : ConnectorId;
  expiry_date : DateTime;
  id_tag : IdTag;
  parent_id_tag : option IdTag;
  reservation_id : ReservationId;
}.
#[export] Instance eta : Eta t := fun r => mk (connector_id r) (expiry_date r) (id_tag r) (parent_id_tag r) (reservation_id r).
#[export] Instance eq_dec : EqDecision t.
Proof. solve_decision. Defined.
End ReserveNowRequest.
Export (hints) ReserveNowRequest.

(** `ReserveNow.conf`. *)
Module ReserveNowResponse.
Record t : Type := mk {
  status : ReservationStatus.t;
}.
#[export] Instance eta : Eta t := fun r => mk (status r).
#[export] Instance eq_dec : EqDecision t.
Proof. solve_decision. Defined.
End ReserveNowResponse.
Export (hints) ReserveNowResponse.

(** `CancelReservationStatus`. *)
Module CancelReservationStatus.
Inductive t : Type :=
  | Accepted | Rejected.

#[export] Instance eq_dec : EqDecision t.
Proof. solve_decision. Defined.

Definition as_str (x : t) : str :=
  match x with
  | Accepted => lit "Accepted"
  | Rejected => lit "Rejected"
  end.

#[export] Instance wire : WireEnum t := {|
  ALL := [Accepted; Rejected];
  wire_str := as_str;
  type_name := lit "CancelReservationStatus" |}.
#[export] Instance wire_ok : WireEnumOk t.
Proof. solve_wire_enum. Qed.
End CancelReservationStatus.
Export (hints) CancelReservationStatus.

(** `CancelReservation.req`. *)
Module CancelReservationRequest.
Record t : Type := mk {
  reservation_id : ReservationId;
}.
#[export] Instance eta : Eta t := fun r => mk (reservation_id r).
#[export] Instance eq_dec : EqDecision t.
Proof. solve_decision. Defined.
End CancelReservationRequest.
Export (hints) CancelReservationRequest.

(** `CancelReservation.conf`. *)
Module CancelReservationResponse.
Record t : Type := mk {
  status : CancelReservationStatus.t;
}.
#[export] Instance eta : Eta t := fun r => mk (status r).
#[export] Instance eq_dec : EqDecision t.
Proof. solve_decision. Defined.
End CancelReservationResponse.
Export (hints) CancelReservationResponse.

(** ** [messages/smart_charging.rs] *)

(** `ChargingProfileStatus` of `SetChargingProfile.conf`. *)
Module ChargingProfileStatus.
Inductive t : Type :=
  | Accepted | Rejected | NotSupported.

#[export] Instance eq_dec : EqDecision t.
Proof. solve_decision. Defined.

Definition as_str (x : t) : str :=
  match x with
  | Accepted => lit "Accepted"
  | Rejected => lit "Rejected"
  | NotSupported => lit "NotSupported"
  end.

#[export] Instance wire : WireEnum t := {|
  ALL := [Accepted; Rejected; NotSupported];
  wire_str := as_str;
  type_name := lit "ChargingProfileStatus" |}.
#[export] Instance wire_ok : WireEnumOk t.
Proof. solve_wire_enum. Qed.
End ChargingProfileStatus.
Export (hints) ChargingProfileStatus.

(** `SetChargingProfile.req`. *)
Module SetChargingProfileRequest.
Record t : Type := mk {
  connector_id : ConnectorId;
  cs_charging_profiles : ChargingProfile.t;
}.
#[export] Instance eta : Eta t := fun r => mk (connector_id r) (cs_charging_profiles r).
#[export] Instance eq_dec : EqDecision t.
Proof. solve_decision. Defined.
End SetChargingProfileRequest.
Export (hints) SetChargingProfileRequest.

(** `SetChargingProfile.conf`. *)
Module SetChargingProfileResponse.
Record t : Type := mk {
  status : ChargingProfileStatus.t;
}.
#[export] Instance eta : Eta t := fun r => mk (status r).
#[export] Instance eq_dec : EqDecision t.
Proof. solve_decision. Defined.
End SetChargingProfileResponse.
Export (hints) SetChargingProfileResponse.

(** `ClearChargingProfileStatus`. *)
Module ClearChargingProfileStatus.
Inductive t : Type :=
  | Accepted | Unknown.

#[export] Instance eq_dec : EqDecision t.
Proof. solve_decision. Defined.

Definition as_str (x : t) : str :=
  match x with
  | Accepted => lit "Accepted"
  | Unknown => lit "Unknown"
  end.

#[export] Instance wire : WireEnum t := {|
  ALL := [Accepted; Unknown];
  wire_str := as_str;
  type_name := lit "ClearChargingProfileStatus" |}.
#[export] Instance wire_ok : WireEnumOk t.
Proof. solve_wire_enum. Qed.
End ClearChargingProfileStatus.
Export (hints) ClearChargingProfileStatus.

(** `ClearChargingProfile.req`. All fields optional; they act as a conjunctive filter. *)
Module ClearChargingProfileRequest.
Record t : Type := mk {
  id : option Z;
  connector_id : option ConnectorId;
  charging_profile_purpose : option ChargingProfilePurposeType.t;
  stack_level : option Z;
}.
#[export] Instance eta : Eta t := fun r => mk (id r) (connector_id r) (charging_profile_purpose r) (stack_level r).
#[export] Instance eq_dec : EqDecision t.
Proof. solve_decision. Defined.
End ClearChargingProfileRequest.
Export (hints) ClearChargingProfileRequest.

(** `ClearChargingProfile.conf`. *)
Module ClearChargingProfileResponse.
Record t : Type := mk {
  status : ClearChargingProfileStatus.t;
}.
#[export] Instance eta : Eta t := fun r => mk (status r).
#[export] Instance eq_dec : EqDecision t.
Proof. solve_decision. Defined.
End ClearChargingProfileResponse.
Export (hints) ClearChargingProfileResponse.

(** `GetCompositeScheduleStatus`. *)
Module GetCompositeScheduleStatus.
Inductive t : Type :=
  | Accepted | Rejected.

#[export] Instance eq_dec : EqDecision t.
Proof. solve_decision. Defined.

Definition as_str (x : t) : str :=
  match x with
  | Accepted => lit "Accepted"
  | Rejected => lit "Rejected"
  end.

#[export] Instance wire : WireEnum t := {|
  ALL := [Accepted; Rejected];
  wire_str := as_str;
  type_name := lit "GetCompositeScheduleStatus" |}.
#[export] Instance wire_ok : WireEnumOk t.
Proof. solve_wire_enum. Qed.
End GetCompositeScheduleStatus.
Export (hints) GetCompositeScheduleStatus.

(** `GetCompositeSchedule.req`. *)
Module GetCompositeScheduleRequest.
Record t : Type := mk {
  connector_id : ConnectorId;
  duration : Z;
  charging_rate_unit : option ChargingRateUnitType.t;
}.
#[export] Instance eta : Eta t := fun r => mk (connector_id r) (duration r) (charging_rate_unit r).
#[export] Instance eq_dec : EqDecision t.
Proof. solve_decision. Defined.
End GetCompositeScheduleRequest.
Export (hints) GetCompositeScheduleRequest.

(** `GetCompositeSchedule.conf`. *)
Module GetCompositeScheduleResponse.
Record t : Type := mk {
  status : GetCompositeScheduleStatus.t;
  connector_id : option ConnectorId;
  schedule_start : option DateTime;
  charging_schedule : option ChargingSchedule.t;
}.
#[export] Instance eta : Eta t := fun r => mk (status r) (connector_id r) (schedule_start r) (charging_schedule r).
#[export] Instance eq_dec : EqDecision t.
Proof. solve_decision. Defined.
End GetCompositeScheduleResponse.
Export (hints) GetCompositeScheduleResponse.

(** ** [messages/remote_trigger.rs] *)

(** `TriggerMessageStatus`. *)
Module TriggerMessageStatus.
Inductive t : Type :=
  | Accepted | Rejected | NotImplemented.

#[export] Instance eq_dec : EqDecision t.
Proof. solve_decision. Defined.

Definition as_str (x : t) : str :=
  match x with
  | Accepted => lit "Accepted"
  | Rejected => lit "Rejected"
  | NotImplemented => lit "NotImplemented"
  end.

#[export] Instance wire : WireEnum t := {|
  ALL := [Accepted; Rejected; NotImplemented];
  wire_str := as_str;
  type_name := lit "TriggerMessageStatus" |}.
#[export] Instance wire_ok : WireEnumOk t.
Proof. solve_wire_enum. Qed.
End TriggerMessageStatus.
Export (hints) TriggerMessageStatus.

(** `TriggerMessage.req`. *)
Module TriggerMessageRequest.
Record t : Type := mk {
  requested_message : MessageTrigger.t;
  connector_id : option ConnectorId;
}.
#[export] Instance eta : Eta t := fun r => mk (requested_message r) (connector_id r).
#[export] Instance eq_dec : EqDecision t.
Proof. solve_decision. Defined.
End TriggerMessageRequest.
Export (hints) TriggerMessageRequest.

(** `TriggerMessage.conf`. *)
Module TriggerMessageResponse.
Record t : Type := mk {
  status : TriggerMessageStatus.t;
}.
#[export] Instance eta : Eta t := fun r => mk (status r).
#[export] Instance eq_dec : EqDecision t.
Proof. solve_decision. Defined.
End TriggerMessageResponse.
Export (hints) TriggerMessageResponse.

(** ** [messages/firmware.rs] *)

(** `GetDiagnostics.req`. *)
Module GetDiagnosticsRequest.
Record t : Type := mk {
  location : str;
  retries : option Z;
  retry_interval : option Z;
  start_time : option DateTime;
  stop_time : option DateTime;
}.
#[export] Instance eta : Eta t := fun r => mk (location r) (retries r) (retry_interval r) (start_time r) (stop_time r).
#[export] Instance eq_dec : EqDecision t.
Proof. solve_decision. Defined.
End GetDiagnosticsRequest.
Export (hints) GetDiagnosticsRequest.

(** `GetDiagnostics.conf`. *)
Module GetDiagnosticsResponse.
Record t : Type := mk {
  file_name : option str;
}.
#[export] Instance eta : Eta t := fun r => mk (file_name r).
#[export] Instance eq_dec : EqDecision t.
Proof. solve_decision. Defined.
End GetDiagnosticsResponse.
Export (hints) GetDiagnosticsResponse.

(** `DiagnosticsStatusNotification.req`. *)
Module DiagnosticsStatusNotificationRequest.
Record t : Type := mk {
  status : DiagnosticsStatus.t;
}.
#[export] Instance eta : Eta t := fun r => mk (status r).
#[export] Instance eq_dec : EqDecision t.
Proof. solve_decision. Defined.
End DiagnosticsStatusNotificationRequest.
Export (hints) DiagnosticsStatusNotificationRequest.

(** `FirmwareStatusNotification.req`. *)
Module FirmwareStatusNotificationRequest.
Record t : Type := mk {
  status : FirmwareStatus.t;
}.
#[export] Instance eta : Eta t := fun r => mk (status r).
#[export] Instance eq_dec : EqDecision t.
Proof. solve_decision. Defined.
End FirmwareStatusNotificationRequest.
Export (hints) FirmwareStatusNotificationRequest.

(** `UpdateFirmware.req`. *)
Module UpdateFirmwareRequest.
Record t : Type := mk {
  location : str;
  retries : option Z;
  retrieve_date : DateTime;
  retry_interval : option Z;
}.
#[export] Instance eta : Eta t := fun r => mk (location r) (retries r) (retrieve_date r) (retry_interval r).
#[export] Instance eq_dec : EqDecision t.
Proof. solve_decision. Defined.
End UpdateFirmwareRequest.
Export (hints) UpdateFirmwareRequest.

(** [IdTagInfo::with_status] *)
Definition with_status (status : AuthorizationStatus.t) : IdTagInfo.t :=
  IdTagInfo.mk status None None.
