(* ===== verification/SecurityMessages.v ===== *)
(** * SecurityMessages: the messages of the Security Whitepaper, and [Heartbeat.conf]

    [ocpp/messages/security.rs] and [ocpp/messages/heartbeat.rs]: the enumerations and the
    request and response structures, in the form of [Messages.v]. *)

From stdpp Require Import strings.
From S2P Require Import Prelude Text Time F64 Types Messages.
Local Open Scope Z_scope.

(** ** [messages/security.rs] *)

(** `CertificateUseEnumType`. *)
Module CertificateUse.
Inductive t : Type :=
  | CentralSystemRootCertificate | ManufacturerRootCertificate.

#[export] Instance eq_dec : EqDecision t.
Proof. solve_decision. Defined.

Definition as_str (x : t) : str :=
  match x with
  | CentralSystemRootCertificate => lit "CentralSystemRootCertificate"
  | ManufacturerRootCertificate => lit "ManufacturerRootCertificate"
  end.

#[export] Instance wire : WireEnum t := {|
  ALL := [CentralSystemRootCertificate; ManufacturerRootCertificate];
  wire_str := as_str;
  type_name := lit "CertificateUse" |}.
#[export] Instance wire_ok : WireEnumOk t.
Proof. solve_wire_enum. Qed.
End CertificateUse.
Export (hints) CertificateUse.

(** `HashAlgorithmEnumType`. *)
Module HashAlgorithm.
Inductive t : Type :=
  | Sha256 | Sha384 | Sha512.

#[export] Instance eq_dec : EqDecision t.
Proof. solve_decision. Defined.

Definition as_str (x : t) : str :=
  match x with
  | Sha256 => lit "SHA256"
  | Sha384 => lit "SHA384"
  | Sha512 => lit "SHA512"
  end.

#[export] Instance wire : WireEnum t := {|
  ALL := [Sha256; Sha384; Sha512];
  wire_str := as_str;
  type_name := lit "HashAlgorithm" |}.
#[export] Instance wire_ok : WireEnumOk t.
Proof. solve_wire_enum. Qed.
End HashAlgorithm.
Export (hints) HashAlgorithm.

(** `MessageTriggerEnumType` of `ExtendedTriggerMessage.req` (not the 1.6 [`MessageTrigger`](crate::ocpp::types::MessageTrigger)). *)
Module ExtendedMessageTrigger.
Inductive t : Type :=
  | BootNotification | LogStatusNotification | FirmwareStatusNotification | Heartbeat
  | MeterValues | SignChargePointCertificate | StatusNotification.

#[export] Instance eq_dec : EqDecision t.
Proof. solve_decision. Defined.

Definition as_str (x : t) : str :=
  match x with
  | BootNotification => lit "BootNotification"
  | LogStatusNotification => lit "LogStatusNotification"
  | FirmwareStatusNotification => lit "FirmwareStatusNotification"
  | Heartbeat => lit "Heartbeat"
  | MeterValues => lit "MeterValues"
  | SignChargePointCertificate => lit "SignChargePointCertificate"
  | StatusNotification => lit "StatusNotification"
  end.

#[export] Instance wire : WireEnum t := {|
  ALL := [BootNotification; LogStatusNotification; FirmwareStatusNotification;
          Heartbeat; MeterValues; SignChargePointCertificate; StatusNotification];
  wire_str := as_str;
  type_name := lit "ExtendedMessageTrigger" |}.
#[export] Instance wire_ok : WireEnumOk t.
Proof. solve_wire_enum. Qed.
End ExtendedMessageTrigger.
Export (hints) ExtendedMessageTrigger.

(** `LogEnumType`. *)
Module LogType.
Inductive t : Type :=
  | DiagnosticsLog | SecurityLog.

#[export] Instance eq_dec : EqDecision t.
Proof. solve_decision. Defined.

Definition as_str (x : t) : str :=
  match x with
  | DiagnosticsLog => lit "DiagnosticsLog"
  | SecurityLog => lit "SecurityLog"
  end.

#[export] Instance wire : WireEnum t := {|
  ALL := [DiagnosticsLog; SecurityLog];
  wire_str := as_str;
  type_name := lit "LogType" |}.
#[export] Instance wire_ok : WireEnumOk t.
Proof. solve_wire_enum. Qed.
End LogType.
Export (hints) LogType.

(** `UploadLogStatusEnumType`. *)
Module UploadLogStatus.
Inductive t : Type :=
  | BadMessage | Idle | NotSupportedOperation | PermissionDenied | Uploaded
  | UploadFailure | Uploading.

#[export] Instance eq_dec : EqDecision t.
Proof. solve_decision. Defined.

Definition as_str (x : t) : str :=
  match x with
  | BadMessage => lit "BadMessage"
  | Idle => lit "Idle"
  | NotSupportedOperation => lit "NotSupportedOperation"
  | PermissionDenied => lit "PermissionDenied"
  | Uploaded => lit "Uploaded"
  | UploadFailure => lit "UploadFailure"
  | Uploading => lit "Uploading"
  end.

#[export] Instance wire : WireEnum t := {|
  ALL := [BadMessage; Idle; NotSupportedOperation; PermissionDenied; Uploaded;
          UploadFailure; Uploading];
  wire_str := as_str;
  type_name := lit "UploadLogStatus" |}.
#[export] Instance wire_ok : WireEnumOk t.
Proof. solve_wire_enum. Qed.
End UploadLogStatus.
Export (hints) UploadLogStatus.

(** `GenericStatusEnumType` (`SignCertificate.conf`). *)
Module GenericStatus.
Inductive t : Type :=
  | Accepted | Rejected.

#[export] Instance eq_dec : EqDecision t.
Proof. solve_decision. Defined.

Definition as_str (x : t) : str :=
  match x with
  | Accepted => lit "Accepted"
  | Rejected => lit "Rejected"
  end.

#[export] Instance wire : WireEnum t := {|
  ALL := [Accepted; Rejected];
  wire_str := as_str;
  type_name := lit "GenericStatus" |}.
#[export] Instance wire_ok : WireEnumOk t.
Proof. solve_wire_enum. Qed.
End GenericStatus.
Export (hints) GenericStatus.

(** `CertificateSignedStatusEnumType` (`CertificateSigned.conf`; the whitepaper text calls it `CertificateStatusEnumType`). *)
Module CertificateSignedStatus.
Inductive t : Type :=
  | Accepted | Rejected.

#[export] Instance eq_dec : EqDecision t.
Proof. solve_decision. Defined.

Definition as_str (x : t) : str :=
  match x with
  | Accepted => lit "Accepted"
  | Rejected => lit "Rejected"
  end.

#[export] Instance wire : WireEnum t := {|
  ALL := [Accepted; Rejected];
  wire_str := as_str;
  type_name := lit "CertificateSignedStatus" |}.
#[export] Instance wire_ok : WireEnumOk t.
Proof. solve_wire_enum. Qed.
End CertificateSignedStatus.
Export (hints) CertificateSignedStatus.

(** `DeleteCertificateStatusEnumType`. *)
Module DeleteCertificateStatus.
Inductive t : Type :=
  | Accepted | Failed | NotFound.

#[export] Instance eq_dec : EqDecision t.
Proof. solve_decision. Defined.

Definition as_str (x : t) : str :=
  match x with
  | Accepted => lit "Accepted"
  | Failed => lit "Failed"
  | NotFound => lit "NotFound"
  end.

#[export] Instance wire : WireEnum t := {|
  ALL := [Accepted; Failed; NotFound];
  wire_str := as_str;
  type_name := lit "DeleteCertificateStatus" |}.
#[export] Instance wire_ok : WireEnumOk t.
Proof. solve_wire_enum. Qed.
End DeleteCertificateStatus.
Export (hints) DeleteCertificateStatus.

(** `GetInstalledCertificateStatusEnumType`. *)
Module GetInstalledCertificateStatus.
Inductive t : Type :=
  | Accepted | NotFound.

#[export] Instance eq_dec : EqDecision t.
Proof. solve_decision. Defined.

Definition as_str (x : t) : str :=
  match x with
  | Accepted => lit "Accepted"
  | NotFound => lit "NotFound"
  end.

#[export] Instance wire : WireEnum t := {|
  ALL := [Accepted; NotFound];
  wire_str := as_str;
  type_name := lit "GetInstalledCertificateStatus" |}.
#[export] Instance wire_ok : WireEnumOk t.
Proof. solve_wire_enum. Qed.
End GetInstalledCertificateStatus.
Export (hints) GetInstalledCertificateStatus.

(** `InstallCertificateStatusEnumType`. *)
Module InstallCertificateStatus.
Inductive t : Type :=
  | Accepted | Failed | Rejected.

#[export] Instance eq_dec : EqDecision t.
Proof. solve_decision. Defined.

Definition as_str (x : t) : str :=
  match x with
  | Accepted => lit "Accepted"
  | Failed => lit "Failed"
  | Rejected => lit "Rejected"
  end.

#[export] Instance wire : WireEnum t := {|
  ALL := [Accepted; Failed; Rejected];
  wire_str := as_str;
  type_name := lit "InstallCertificateStatus" |}.
#[export] Instance wire_ok : WireEnumOk t.
Proof. solve_wire_enum. Qed.
End InstallCertificateStatus.
Export (hints) InstallCertificateStatus.

(** `LogStatusEnumType` (`GetLog.conf`). *)
Module LogStatus.
Inductive t : Type :=
  | Accepted | Rejected | AcceptedCanceled.

#[export] Instance eq_dec : EqDecision t.
Proof. solve_decision. Defined.

Definition as_str (x : t) : str :=
  match x with
  | Accepted => lit "Accepted"
  | Rejected => lit "Rejected"
  | AcceptedCanceled => lit "AcceptedCanceled"
  end.

#[export] Instance wire : WireEnum t := {|
  ALL := [Accepted; Rejected; AcceptedCanceled];
  wire_str := as_str;
  type_name := lit "LogStatus" |}.
#[export] Instance wire_ok : WireEnumOk t.
Proof. solve_wire_enum. Qed.
End LogStatus.
Export (hints) LogStatus.

(** `FirmwareStatusEnumType` of `SignedFirmwareStatusNotification.req`. *)
Module SignedFirmwareStatus.
Inductive t : Type :=
  | Downloaded | DownloadFailed | Downloading | DownloadScheduled | DownloadPaused
  | Idle | InstallationFailed | Installing | Installed | InstallRebooting
  | InstallScheduled | InstallVerificationFailed | InvalidSignature | SignatureVerified.

#[export] Instance eq_dec : EqDecision t.
Proof. solve_decision. Defined.

Definition as_str (x : t) : str :=
  match x with
  | Downloaded => lit "Downloaded"
  | DownloadFailed => lit "DownloadFailed"
  | Downloading => lit "Downloading"
  | DownloadScheduled => lit "DownloadScheduled"
  | DownloadPaused => lit "DownloadPaused"
  | Idle => lit "Idle"
  | InstallationFailed => lit "InstallationFailed"
  | Installing => lit "Installing"
  | Installed => lit "Installed"
  | InstallRebooting => lit "InstallRebooting"
  | InstallScheduled => lit "InstallScheduled"
  | InstallVerificationFailed => lit "InstallVerificationFailed"
  | InvalidSignature => lit "InvalidSignature"
  | SignatureVerified => lit "SignatureVerified"
  end.

#[export] Instance wire : WireEnum t := {|
  ALL := [Downloaded; DownloadFailed; Downloading; DownloadScheduled; DownloadPaused;
          Idle; InstallationFailed; Installing; Installed; InstallRebooting;
          InstallScheduled; InstallVerificationFailed; InvalidSignature;
          SignatureVerified];
  wire_str := as_str;
  type_name := lit "SignedFirmwareStatus" |}.
#[export] Instance wire_ok : WireEnumOk t.
Proof. solve_wire_enum. Qed.
End SignedFirmwareStatus.
Export (hints) SignedFirmwareStatus.

(** `UpdateFirmwareStatusEnumType` (`SignedUpdateFirmware.conf`). *)
Module UpdateFirmwareStatus.
Inductive t : Type :=
  | Accepted | Rejected | AcceptedCanceled | InvalidCertificate | RevokedCertificate.

#[export] Instance eq_dec : EqDecision t.
Proof. solve_decision. Defined.

Definition as_str (x : t) : str :=
  match x with
  | Accepted => lit "Accepted"
  | Rejected => lit "Rejected"
  | AcceptedCanceled => lit "AcceptedCanceled"
  | InvalidCertificate => lit "InvalidCertificate"
  | RevokedCertificate => lit "RevokedCertificate"
  end.

#[export] Instance wire : WireEnum t := {|
  ALL := [Accepted; Rejected; AcceptedCanceled; InvalidCertificate; RevokedCertificate];
  wire_str := as_str;
  type_name := lit "UpdateFirmwareStatus" |}.
#[export] Instance wire_ok : WireEnumOk t.
Proof. solve_wire_enum. Qed.
End UpdateFirmwareStatus.
Export (hints) UpdateFirmwareStatus.

(** `CertificateHashDataType`: identifies an installed certificate. *)
Module CertificateHashData.
Record t : Type := mk {
  hash_algorithm : HashAlgorithm.t;
  issuer_name_hash : str;
  issuer_key_hash : str;
  serial_number : str;
}.
#[export] Instance eta : Eta t := fun r => mk (hash_algorithm r) (issuer_name_hash r) (issuer_key_hash r) (serial_number r).
#[export] Instance eq_dec : EqDecision t.
Proof. solve_decision. Defined.
End CertificateHashData.
Export (hints) CertificateHashData.

(** `LogParametersType`. *)
Module LogParameters.
Record t : Type := mk {
  remote_location : str;
  oldest_timestamp : option DateTime;
  latest_timestamp : option DateTime;
}.
#[export] Instance eta : Eta t := fun r => mk (remote_location r) (oldest_timestamp r) (latest_timestamp r).
#[export] Instance eq_dec : EqDecision t.
Proof. solve_decision. Defined.
End LogParameters.
Export (hints) LogParameters.

(** `FirmwareType`: the signed firmware image description. *)
Module SignedFirmware.
Record t : Type := mk {
  location : str;
  retrieve_date_time : DateTime;
  install_date_time : option DateTime;
  signing_certificate : str;
  signature : str;
}.
#[export] Instance eta : Eta t := fun r => mk (location r) (retrieve_date_time r) (install_date_time r) (signing_certificate r) (signature r).
#[export] Instance eq_dec : EqDecision t.
Proof. solve_decision. Defined.
End SignedFirmware.
Export (hints) SignedFirmware.

(** `SignCertificate.req`. *)
Module SignCertificateRequest.
Record t : Type := mk {
  csr : str;
}.
#[export] Instance eta : Eta t := fun r => mk (csr r).
#[export] Instance eq_dec : EqDecision t.
Proof. solve_decision. Defined.
End SignCertificateRequest.
Export (hints) SignCertificateRequest.

(** `SignCertificate.conf`. *)
Module SignCertificateResponse.
Record t : Type := mk {
  status : GenericStatus.t;
}.
#[export] Instance eta : Eta t := fun r => mk (status r).
#[export] Instance eq_dec : EqDecision t.
Proof. solve_decision. Defined.
End SignCertificateResponse.
Export (hints) SignCertificateResponse.

(** `CertificateSigned.req`. *)
Module CertificateSignedRequest.
Record t : Type := mk {
  certificate_chain : str;
}.
#[export] Instance eta : Eta t := fun r => mk (certificate_chain r).
#[export] Instance eq_dec : EqDecision t.
Proof. solve_decision. Defined.
End CertificateSignedRequest.
Export (hints) CertificateSignedRequest.

(** `CertificateSigned.conf`. *)
Module CertificateSignedResponse.
Record t : Type := mk {
  status : CertificateSignedStatus.t;
}.
#[export] Instance eta : Eta t := fun r => mk (status r).
#[export] Instance eq_dec : EqDecision t.
Proof. solve_decision. Defined.
End CertificateSignedResponse.
Export (hints) CertificateSignedResponse.

(** `InstallCertificate.req`. *)
Module InstallCertificateRequest.
Record t : Type := mk {
  certificate_type : CertificateUse.t;
  certificate : str;
}.
#[export] Instance eta : Eta t := fun r => mk (certificate_type r) (certificate r).
#[export] Instance eq_dec : EqDecision t.
Proof. solve_decision. Defined.
End InstallCertificateRequest.
Export (hints) InstallCertificateRequest.

(** `InstallCertificate.conf`. *)
Module InstallCertificateResponse.
Record t : Type := mk {
  status : InstallCertificateStatus.t;
}.
#[export] Instance eta : Eta t := fun r => mk (status r).
#[export] Instance eq_dec : EqDecision t.
Proof. solve_decision. Defined.
End InstallCertificateResponse.
Export (hints) InstallCertificateResponse.

(** `DeleteCertificate.req`. *)
Module DeleteCertificateRequest.
Record t : Type := mk {
  certificate_hash_data : CertificateHashData.t;
}.
#[export] Instance eta : Eta t := fun r => mk (certificate_hash_data r).
#[export] Instance eq_dec : EqDecision t.
Proof. solve_decision. Defined.
End DeleteCertificateRequest.
Export (hints) DeleteCertificateRequest.

(** `DeleteCertificate.conf`. *)
Module DeleteCertificateResponse.
Record t : Type := mk {
  status : DeleteCertificateStatus.t;
}.
#[export] Instance eta : Eta t := fun r => mk (status r).
#[export] Instance eq_dec : EqDecision t.
Proof. solve_decision. Defined.
End DeleteCertificateResponse.
Export (hints) DeleteCertificateResponse.

(** `GetInstalledCertificateIds.req`. *)
Module GetInstalledCertificateIdsRequest.
Record t : Type := mk {
  certificate_type : CertificateUse.t;
}.
#[export] Instance eta : Eta t := fun r => mk (certificate_type r).
#[export] Instance eq_dec : EqDecision t.
Proof. solve_decision. Defined.
End GetInstalledCertificateIdsRequest.
Export (hints) GetInstalledCertificateIdsRequest.

(** `GetInstalledCertificateIds.conf`. *)
Module GetInstalledCertificateIdsResponse.
Record t : Type := mk {
  status : GetInstalledCertificateStatus.t;
  certificate_hash_data : option (list CertificateHashData.t);
}.
#[export] Instance eta : Eta t := fun r => mk (status r) (certificate_hash_data r).
#[export] Instance eq_dec : EqDecision t.
Proof. solve_decision. Defined.
End GetInstalledCertificateIdsResponse.
Export (hints) GetInstalledCertificateIdsResponse.

(** `GetLog.req`. *)
Module GetLogRequest.
Record t : Type := mk {
  log_type : LogType.t;
  request_id : Z;
  retries : option Z;
  retry_interval : option Z;
  log : LogParameters.t;
}.
#[export] Instance eta : Eta t := fun r => mk (log_type r) (request_id r) (retries r) (retry_interval r) (log r).
#[export] Instance eq_dec : EqDecision t.
Proof. solve_decision. Defined.
End GetLogRequest.
Export (hints) GetLogRequest.

(** `GetLog.conf`. *)
Module GetLogResponse.
Record t : Type := mk {
  status : LogStatus.t;
  filename : option str;
}.
#[export] Instance eta : Eta t := fun r => mk (status r) (filename r).
#[export] Instance eq_dec : EqDecision t.
Proof. solve_decision. Defined.
End GetLogResponse.
Export (hints) GetLogResponse.

(** `LogStatusNotification.req`. *)
Module LogStatusNotificationRequest.
Record t : Type := mk {
  status : UploadLogStatus.t;
  request_id : option Z;
}.
#[export] Instance eta : Eta t := fun r => mk (status r) (request_id r).
#[export] Instance eq_dec : EqDecision t.
Proof. solve_decision. Defined.
End LogStatusNotificationRequest.
Export (hints) LogStatusNotificationRequest.

(** `SecurityEventNotification.req`. *)
Module SecurityEventNotificationRequest.
Record t : Type := mk {
  event_type : str;
  timestamp : DateTime;
  tech_info : option str;
}.
#[export] Instance eta : Eta t := fun r => mk (event_type r) (timestamp r) (tech_info r).
#[export] Instance eq_dec : EqDecision t.
Proof. solve_decision. Defined.
End SecurityEventNotificationRequest.
Export (hints) SecurityEventNotificationRequest.

(** `ExtendedTriggerMessage.req`. *)
Module ExtendedTriggerMessageRequest.
Record t : Type := mk {
  requested_message : ExtendedMessageTrigger.t;
  connector_id : option ConnectorId;
}.
#[export] Instance eta : Eta t := fun r => mk (requested_message r) (connector_id r).
#[export] Instance eq_dec : EqDecision t.
Proof. solve_decision. Defined.
End ExtendedTriggerMessageRequest.
Export (hints) ExtendedTriggerMessageRequest.

(** `ExtendedTriggerMessage.conf`. *)
Module ExtendedTriggerMessageResponse.
Record t : Type := mk {
  status : TriggerMessageStatus.t;
}.
#[export] Instance eta : Eta t := fun r => mk (status r).
#[export] Instance eq_dec : EqDecision t.
Proof. solve_decision. Defined.
End ExtendedTriggerMessageResponse.
Export (hints) ExtendedTriggerMessageResponse.

(** `SignedUpdateFirmware.req`. *)
Module SignedUpdateFirmwareRequest.
Record t : Type := mk {
  retries : option Z;
  retry_interval : option Z;
  request_id : Z;
  firmware : SignedFirmware.t;
}.
#[export] Instance eta : Eta t := fun r => mk (retries r) (retry_interval r) (request_id r) (firmware r).
#[export] Instance eq_dec : EqDecision t.
Proof. solve_decision. Defined.
End SignedUpdateFirmwareRequest.
Export (hints) SignedUpdateFirmwareRequest.

(** `SignedUpdateFirmware.conf`. *)
Module SignedUpdateFirmwareResponse.
Record t : Type := mk {
  status : UpdateFirmwareStatus.t;
}.
#[export] Instance eta : Eta t := fun r => mk (status r).
#[export] Instance eq_dec : EqDecision t.
Proof. solve_decision. Defined.
End SignedUpdateFirmwareResponse.
Export (hints) SignedUpdateFirmwareResponse.

(** `SignedFirmwareStatusNotification.req`. *)
Module SignedFirmwareStatusNotificationRequest.
Record t : Type := mk {
  status : SignedFirmwareStatus.t;
  request_id : option Z;
}.
#[export] Instance eta : Eta t := fun r => mk (status r) (request_id r).
#[export] Instance eq_dec : EqDecision t.
Proof. solve_decision. Defined.
End SignedFirmwareStatusNotificationRequest.
Export (hints) SignedFirmwareStatusNotificationRequest.

(** ** [messages/heartbeat.rs] *)

(** `Heartbeat.conf`. *)
Module HeartbeatResponse.
Record t : Type := mk {
  current_time : DateTime;
}.
#[export] Instance eta : Eta t := fun r => mk (current_time r).
#[export] Instance eq_dec : EqDecision t.
Proof. solve_decision. Defined.
End HeartbeatResponse.
Export (hints) HeartbeatResponse.

(** ** Lengths the schemas allow *)

Definition MAX_CERTIFICATE_LEN : Z := 5500.
Definition MAX_CERTIFICATE_CHAIN_LEN : Z := 10000.
Definition MAX_SECURITY_EVENT_TYPE_LEN : Z := 50.
Definition MAX_SECURITY_EVENT_TECH_INFO_LEN : Z := 255.
Definition MAX_LOCATION_LEN : Z := 512.
Definition MAX_FIRMWARE_SIGNATURE_LEN : Z := 800.
