(* ===== verification/Frame.v ===== *)
(** * Frame: the OCPP-J wire frames

    [ocpp/frame.rs]. A frame is a JSON array: a CALL, a CALLRESULT or a CALLERROR. The JSON
    library is code outside the repository. Its value type is the public enumeration of the
    library; the numbers, the parser and the printer are the operations of the class
    [SerdeJson], and the two conversions the frames need are its laws ([SerdeJsonLaws]).
    [u64_json] is a concrete instance whose numbers are the integers. *)

From stdpp Require Import strings.
From S2P Require Import Prelude Text Time Types.
Local Open Scope Z_scope.

(** ** JSON values ([serde_json]) *)

Class SerdeJson : Type := {
  Number : Type;
  (** [Value::as_u64] on a number, [Value::from(u8)] *)
  number_as_u64 : Number -> option Z;
  number_from_u8 : Z -> Number;
  (** [serde_json::Error] and its text *)
  json_error : Type;
  json_error_text : json_error -> str;
}.

Class SerdeJsonLaws (J : SerdeJson) : Prop := {
  as_u64_from_u8 n : 0 <= n <= u8_max -> number_as_u64 (number_from_u8 n) = Some n;
}.

Section json.
Context {J : SerdeJson}.

(** [serde_json::Value]; an object is the sequence of its entries in iteration order,
    without duplicate keys. *)
Inductive json : Type :=
| Null
| Bool (b : bool)
| Num (n : Number)
| String (s : str)
| Array (items : list json)
| Object (fields : list (str * json)).

(** [Value::as_u64], [Value::as_str], [Map::get] *)
Definition as_u64 (v : json) : option Z := match v with Num n => number_as_u64 n | _ => None end.
Definition as_str (v : json) : option str := match v with String s => Some s | _ => None end.
Definition is_object (v : json) : bool := match v with Object _ => true | _ => false end.
Definition field (key : str) (fields : list (str * json)) : option json :=
  snd <$> find_first (fun '(k, _) => k == key) fields.
(** [if let Some(value) = map.get_mut(key) { *value = v }] *)
Definition set_field (key : str) (v : json) (fields : list (str * json)) : list (str * json) :=
  update_first (fun '(k, _) => k == key) (fun '(k, _) => (k, v)) fields.
End json.

(** The text form of JSON values: [serde_json::from_str] and [Value::to_string]. *)
Class JsonText {J : SerdeJson} : Type := {
  json_from_str : str -> result json json_error;
  json_to_string : json -> str;
}.
Definition u64_json : SerdeJson := {|
  Number := Z;
  number_as_u64 n := try_into 0 u64_max n;
  number_from_u8 n := n;
  json_error := unit;
  json_error_text _ := lit "syntax error";
|}.

Lemma u64_json_laws : SerdeJsonLaws u64_json.
Proof.
  constructor. intros n Hn. simpl. unfold try_into.
  rewrite (proj2 (Z.leb_le 0 n)), (proj2 (Z.leb_le n u64_max)); [done|..];
    unfold u8_max, u64_max in *; lia.
Qed.

(** ** Error codes *)

Module ErrorCode.
Inductive t : Type :=
| NotImplemented | NotSupported | InternalError | ProtocolError | SecurityError
| FormationViolation | PropertyConstraintViolation | OccurenceConstraintViolation
| TypeConstraintViolation | GenericError
| Other (code : str).

#[export] Instance eq_dec : EqDecision t.
Proof. solve_decision. Defined.

Definition STANDARD : list t :=
  [NotImplemented; NotSupported; InternalError; ProtocolError; SecurityError;
   FormationViolation; PropertyConstraintViolation; OccurenceConstraintViolation;
   TypeConstraintViolation; GenericError].

Definition as_str (c : t) : str :=
  match c with
  | NotImplemented => lit "NotImplemented"
  | NotSupported => lit "NotSupported"
  | InternalError => lit "InternalError"
  | ProtocolError => lit "ProtocolError"
  | SecurityError => lit "SecurityError"
  | FormationViolation => lit "FormationViolation"
  | PropertyConstraintViolation => lit "PropertyConstraintViolation"
  | OccurenceConstraintViolation => lit "OccurenceConstraintViolation"
  | TypeConstraintViolation => lit "TypeConstraintViolation"
  | GenericError => lit "GenericError"
  | Other code => code
  end.

Definition from_wire (code : str) : t :=
  default (Other code) (find_first (fun known => as_str known == code) STANDARD).

Definition is_standard (c : t) : bool :=
  match c with Other _ => false | _ => true end.
End ErrorCode.
Export (hints) ErrorCode.

(** ** Frames *)

Definition MESSAGE_TYPE_CALL : Z := 2.
Definition MESSAGE_TYPE_CALL_RESULT : Z := 3.
Definition MESSAGE_TYPE_CALL_ERROR : Z := 4.

Module Frame.
Section frame.
Context {J : SerdeJson}.

Inductive t : Type :=
| Call (id : str) (action : str) (payload : json)
| CallResult (id : str) (payload : json)
| CallError (id : str) (code : ErrorCode.t) (description : str) (details : json).

Definition call_error (id : str) (code : ErrorCode.t) (description : str) : t :=
  CallError id code description (Object []).

Definition id (f : t) : str :=
  match f with Call id _ _ | CallResult id _ | CallError id _ _ _ => id end.

Definition message_type (f : t) : Z :=
  match f with
  | Call _ _ _ => MESSAGE_TYPE_CALL
  | CallResult _ _ => MESSAGE_TYPE_CALL_RESULT
  | CallError _ _ _ _ => MESSAGE_TYPE_CALL_ERROR
  end.

Definition action (f : t) : option str :=
  match f with Call _ action _ => Some action | _ => None end.

Definition to_value (f : t) : json :=
  match f with
  | Call id action payload =>
      Array [Num (number_from_u8 MESSAGE_TYPE_CALL); String id; String action; payload]
  | CallResult id payload =>
      Array [Num (number_from_u8 MESSAGE_TYPE_CALL_RESULT); String id; payload]
  | CallError id code description details =>
      Array [Num (number_from_u8 MESSAGE_TYPE_CALL_ERROR); String id;
             String (ErrorCode.as_str code); String description; details]
  end.

Definition to_json_string {T : JsonText} (f : t) : str := json_to_string (to_value f).

Inductive error_kind : Type :=
| InvalidJson (e : json_error)
| NotAnArray
| EmptyArray
| UnknownMessageType (v : json)
| WrongLength (expected actual : Z)
| InvalidField (field expected : str).

Record error : Type := mk_error {
  kind : error_kind;
  err_message_type : option Z;
  message_id : option str;
}.

Definition new_error (k : error_kind) : error := mk_error k None None.

(** The closures [take_string] and [take_object]. *)
Definition take_string (fail : error_kind -> error) (items : list json) (index : nat) (field : str)
  : result str error :=
  match items !! index with
  | Some (String s) => Ok s
  | _ => Err (fail (InvalidField field (lit "a string")))
  end.
Definition take_object (fail : error_kind -> error) (items : list json) (index : nat) (field : str)
  : result json error :=
  match items !! index with
  | Some (Object fields) => Ok (Object fields)
  | _ => Err (fail (InvalidField field (lit "a JSON object")))
  end.

(** The message type read from the first element. *)
Definition read_type (first : json) : option Z :=
  match as_u64 first with
  | Some 2 => Some MESSAGE_TYPE_CALL
  | Some 3 => Some MESSAGE_TYPE_CALL_RESULT
  | Some 4 => Some MESSAGE_TYPE_CALL_ERROR
  | _ => None
  end.

(** [impl TryFrom<Value> for Frame] *)
Definition try_from (value : json) : result t error :=
  match value with
  | Array items =>
      match items with
      | [] => Err (new_error EmptyArray)
      | first :: _ =>
          let message_id := items !! 1%nat ≫= as_str in
          match read_type first with
          | None => Err (mk_error (UnknownMessageType first) None message_id)
          | Some message_type =>
              let fail k := mk_error k (Some message_type) message_id in
              let expected :=
                if message_type =? MESSAGE_TYPE_CALL then 4
                else if message_type =? MESSAGE_TYPE_CALL_RESULT then 3 else 5 in
              if negb (len items =? expected)
              then Err (fail (WrongLength expected (len items)))
              else
                let! id := take_string fail items 1 (lit "messageId") in
                if message_type =? MESSAGE_TYPE_CALL then
                  let! action := take_string fail items 2 (lit "action") in
                  let! payload := take_object fail items 3 (lit "payload") in
                  Ok (Call id action payload)
                else if message_type =? MESSAGE_TYPE_CALL_RESULT then
                  let! payload := take_object fail items 2 (lit "payload") in
                  Ok (CallResult id payload)
                else
                  let! code := take_string fail items 2 (lit "errorCode") in
                  let! description := take_string fail items 3 (lit "errorDescription") in
                  let! details := take_object fail items 4 (lit "errorDetails") in
                  Ok (CallError id (ErrorCode.from_wire code) description details)
          end
      end
  | _ => Err (new_error NotAnArray)
  end.

Definition parse {T : JsonText} (text : str) : result t error :=
  match json_from_str text with
  | Err e => Err (mk_error (InvalidJson e) None None)
  | Ok value => try_from value
  end.

(** [FrameErrorKind::to_string] *)
Definition kind_text {T : JsonText} (k : error_kind) : str :=
  match k with
  | InvalidJson e => lit "not valid JSON: " ++ json_error_text e
  | NotAnArray => lit "expected a JSON array"
  | EmptyArray => lit "empty array"
  | UnknownMessageType v => lit "unsupported message type " ++ json_to_string v
  | WrongLength expected actual =>
      lit "wrong number of elements: expected " ++ to_string expected
        ++ lit ", got " ++ to_string actual
  | InvalidField field expected => field ++ lit " must be " ++ expected
  end.

(** [FrameError::to_string] *)
Definition error_text {T : JsonText} (e : error) : str :=
  lit "invalid OCPP-J frame: " ++ kind_text (kind e).

(** [FrameError::reply] *)
Definition reply {T : JsonText} (e : error) : option t :=
  match err_message_type e, message_id e with
  | Some ty, Some id =>
      if ty =? MESSAGE_TYPE_CALL
      then Some (call_error id ErrorCode.FormationViolation (kind_text (kind e)))
      else None
  | _, _ => None
  end.

(** ** Redaction of the recorded copy *)

Definition REDACTED : str := lit "***".

Definition is_authorization_key (v : json) : bool :=
  match as_str v with
  | Some key => eq_ignore_ascii_case key (lit "AuthorizationKey")
  | None => false
  end.

Definition redact_secrets (f : t) : t :=
  match f with
  | Call id action payload =>
      if action == lit "ChangeConfiguration" then
        match payload with
        | Object fields =>
            if is_some_and is_authorization_key (field (lit "key") fields)
            then Call id action (Object (set_field (lit "value") (String REDACTED) fields))
            else f
        | _ => f
        end
      else f
  | _ => f
  end.
End frame.
End Frame.

(** ** Records of frames *)

(** Direction of a frame relative to this charge point. *)
Module Direction.
Inductive t : Type := In | Out.
#[export] Instance eq_dec : EqDecision t.
Proof. solve_decision. Defined.
End Direction.
Export (hints) Direction.

(** A frame as it crossed the wire. *)
Module FrameRecord.
Record t {J : SerdeJson} : Type := mk {
  ts : DateTime;
  direction : Direction.t;
  msg_id : option str;
  action : option str;
  frame : json;
}.
Arguments mk {J}.
End FrameRecord.

(** ** Error codes: the wire string survives *)

Lemma error_code_from_wire_as_str (s : str) : ErrorCode.as_str (ErrorCode.from_wire s) = s.
Proof.
  unfold ErrorCode.from_wire. destruct (find_first _ _) as [c|] eqn:E; [|done].
  apply find_first_In in E as [_ E]. by rewrite eqb_true in E.
Qed.

(** A code as the parser builds it: [Other] only holds strings that are not standard. *)
Definition code_canonical (c : ErrorCode.t) : Prop :=
  match c with
  | ErrorCode.Other s => forall k, In k ErrorCode.STANDARD -> ErrorCode.as_str k <> s
  | _ => True
  end.

Lemma error_code_as_str_from_wire (c : ErrorCode.t) :
  code_canonical c -> ErrorCode.from_wire (ErrorCode.as_str c) = c.
Proof.
  destruct c as [| | | | | | | | | |s]; try (intros _; vm_compute; reflexivity).
  intros Hs. unfold ErrorCode.from_wire.
  destruct (find_first _ _) as [k|] eqn:E; [|done].
  apply find_first_In in E as [Hin E]. rewrite eqb_true in E. by destruct (Hs k Hin).
Qed.

Lemma from_wire_canonical (s : str) : code_canonical (ErrorCode.from_wire s).
Proof.
  unfold ErrorCode.from_wire. destruct (find_first _ _) as [c|] eqn:E; simpl.
  - apply find_first_In in E as [Hin _]. simpl in Hin.
    repeat (destruct Hin as [<-|Hin]; [exact I|]). done.
  - intros k Hk Heq. rewrite find_first_none in E.
    specialize (E k Hk). cbn beta in E. by rewrite Heq, eqb_refl in E.
Qed.

Section frame_lemmas.
Context {J : SerdeJson} {JL : SerdeJsonLaws J}.

(** A frame the station may hold: its payload is an object, its code canonical. *)
Definition frame_ok (f : Frame.t) : Prop :=
  match f with
  | Frame.Call _ _ payload | Frame.CallResult _ payload => is_object payload = true
  | Frame.CallError _ code _ details => is_object details = true /\ code_canonical code
  end.

Lemma read_type_from_u8 n : n = 2 \/ n = 3 \/ n = 4 ->
  Frame.read_type (Num (number_from_u8 n)) = Some n.
Proof.
  intros H. unfold Frame.read_type, as_u64. rewrite as_u64_from_u8; [|unfold u8_max; lia].
  by destruct H as [->|[->| ->]].
Qed.

Lemma read_type_Some v n :
  Frame.read_type v = Some n <-> as_u64 v = Some n /\ (n = 2 \/ n = 3 \/ n = 4).
Proof.
  unfold Frame.read_type.
  unfold MESSAGE_TYPE_CALL, MESSAGE_TYPE_CALL_RESULT, MESSAGE_TYPE_CALL_ERROR.
  destruct (as_u64 v) as [k|]; [|by split; [|intros [? _]]].
  split.
  - intros H. cases_in H; auto.
  - intros [[= <-] [->|[->| ->]]]; done.
Qed.

Lemma take_string_Ok fail items i name s :
  Frame.take_string fail items i name = Ok s <-> items !! i = Some (String s).
Proof. unfold Frame.take_string. split; [intros H; by cases_in H|by intros ->]. Qed.

Lemma take_object_Ok fail items i name v :
  Frame.take_object fail items i name = Ok v <-> items !! i = Some v /\ is_object v = true.
Proof.
  unfold Frame.take_object. split; [intros H; by cases_in H|].
  intros [-> H]. by destruct v.
Qed.

Lemma take_Err fail items i name e :
  (Frame.take_string fail items i name = Err e \/ Frame.take_object fail items i name = Err e) ->
  exists k, e = fail k.
Proof.
  unfold Frame.take_string, Frame.take_object.
  intros [H|H]; cases_in H; by eexists.
Qed.

(** Claim C36: decoding a frame that the station encoded gives the frame back, and decoding
    is strict: an array that decodes to [f] is the encoding of [f], the form of the number
    of its first element aside, its payload is an object and an unknown error code is kept
    verbatim. *)
Theorem frame_codec (f : Frame.t) :
  (frame_ok f -> Frame.try_from (Frame.to_value f) = Ok f) /\
  (forall v, Frame.try_from v = Ok f ->
     frame_ok f /\
     exists first rest,
       v = Array (first :: rest) /\ as_u64 first = Some (Frame.message_type f) /\
       Frame.to_value f = Array (Num (number_from_u8 (Frame.message_type f)) :: rest)).
Proof.
  split.
  - destruct f as [id action payload|id payload|id code descr details]; simpl.
    all: rewrite read_type_from_u8 by auto.
    + by destruct payload.
    + by destruct payload.
    + intros [Ho Hc]. destruct details; try done. simpl.
      by rewrite error_code_as_str_from_wire.
  - intros v H. destruct v as [| | | |items|]; try done. destruct items as [|first items]; [done|].
    unfold Frame.try_from in H. destruct (Frame.read_type first) as [ty|] eqn:Ht; [|done].
    cbv zeta in H. destruct (negb _) eqn:El; [done|]. bool_facts. unfold len in El.
    apply read_type_Some in Ht as [Hu [->|[->| ->]]]; cbn [length Z.eqb Pos.eqb] in El; simpl in H.
    all: destruct (Frame.take_string _ _ 1 _) as [id|] eqn:E1; [|done]; simpl in H.
    2: { destruct (Frame.take_object _ _ 2 _) as [pl|] eqn:E2; [|done]. injection H as <-.
         apply take_string_Ok in E1. apply take_object_Ok in E2 as [E2 Eo].
         destruct items as [|a [|b [|]]]; simpl in *; try lia. simplify_eq.
         split; [done|]. by eexists _, _. }
    all: destruct (Frame.take_string _ _ 2 _) as [a2|] eqn:E2; [|done]; simpl in H.
    2: destruct (Frame.take_string _ _ 3 _) as [a3|] eqn:E3; [|done]; simpl in H.
    all: destruct (Frame.take_object _ _ _ _) as [pl|] eqn:E4; [|done]; injection H as <-.
    all: rewrite ?take_string_Ok in E1, E2; rewrite ?take_object_Ok in E4; destruct E4 as [E4 Eo].
    2: rewrite take_string_Ok in E3.
    + destruct items as [|a [|b [|c [|]]]]; simpl in *; try lia. simplify_eq.
      split; [done|]. by eexists _, _.
    + destruct items as [|a [|b [|c [|d [|]]]]]; simpl in *; try lia. simplify_eq.
      split; [split; [done|apply from_wire_canonical]|].
      eexists _, _. split_and!; [done..|]. by rewrite error_code_from_wire_as_str.
Qed.

(** The context an error keeps. *)
Lemma try_from_Err_context v e :
  Frame.try_from v = Err e ->
  (Frame.err_message_type e = None /\ forall first rest, v = Array (first :: rest) -> Frame.read_type first = None) \/
  (exists first rest ty, v = Array (first :: rest) /\ Frame.read_type first = Some ty /\
     Frame.err_message_type e = Some ty /\ Frame.message_id e = rest !! 0%nat ≫= as_str).
Proof.
  intros H. destruct v as [| | | |items|]; try (injection H as <-; left; split; [done|by intros]).
  destruct items as [|first rest]; [injection H as <-; left; split; [done|by intros]|].
  unfold Frame.try_from in H. destruct (Frame.read_type first) as [ty|] eqn:Ht.
  - right. exists first, rest, ty. do 2 (split; [done|]).
    cbv zeta in H. cases_in H.
    all: try done.
    all: match goal with E : _ = Err _ |- _ =>
           destruct (take_Err _ _ _ _ _ (or_introl E)) as [k ->] ||
           destruct (take_Err _ _ _ _ _ (or_intror E)) as [k ->] end; done.
  - left. injection H as <-. split; [done|]. by intros ? ? [= <- <-].
Qed.

(** When decoding fails, the station answers exactly the broken CALLs whose
    message id could be read, and answers them with a [FormationViolation] CALLERROR under
    that id; broken results, errors and arrays without a readable id get no answer. *)
Theorem frame_error_reply {T : JsonText} (v : json) (e : Frame.error) (r : Frame.t) :
  Frame.try_from v = Err e ->
  Frame.reply e = Some r <->
  exists first id rest,
    v = Array (first :: String id :: rest) /\ as_u64 first = Some MESSAGE_TYPE_CALL /\
    r = Frame.CallError id ErrorCode.FormationViolation (Frame.kind_text (Frame.kind e)) (Object []).
Proof.
  intros H. apply try_from_Err_context in H as [[Hn Hr]|(first & rest & ty & -> & Ht & Hty & Hid)].
  - unfold Frame.reply. rewrite Hn. split; [done|]. intros (first & id & rest & -> & Hu & _).
    assert (Frame.read_type first = Some 2) by (apply read_type_Some; auto).
    specialize (Hr first _ eq_refl). congruence.
  - unfold Frame.reply. rewrite Hty, Hid. apply read_type_Some in Ht as [Hu Hty'].
    destruct rest as [|i rest]; simpl.
    { split; [done|]. intros (?&?&?&?&_). simplify_eq. }
    destruct (as_str i) as [id|] eqn:Ei.
    2: { split; [done|]. intros (?&?&?&?&_). simplify_eq. }
    destruct i; simplify_eq/=. split.
    + intros Hc. case_match eqn:E; [|done]. bool_facts. subst. injection Hc as <-.
      by eexists _, _, _.
    + intros (?&?&?&?&Hu'&->). simplify_eq. by rewrite Z.eqb_refl.
Qed.

Lemma field_set_field key v fields k :
  field k (set_field key v fields) =
  if k == key then (fun _ => v) <$> field k fields else field k fields.
Proof.
  unfold field, set_field. induction fields as [|[k' w] fields IH]; simpl.
  { by destruct (k == key). }
  destruct (k' == key) eqn:E1; simpl; rewrite ?eqb_true in E1; subst;
    destruct (k' == k) eqn:E2 || destruct (key == k) eqn:E2;
    rewrite ?eqb_true in E2; subst; rewrite ?eqb_refl, ?E1, ?E2; simpl; try done.
  rewrite (eqb_ne k key); [done|]. rewrite eqb_false in E2. congruence.
Qed.

Lemma set_field_keys key v fields : (set_field key v fields).*1 = fields.*1.
Proof.
  unfold set_field. induction fields as [|[k' w] fields IH]; simpl; [done|].
  destruct (k' == key); simpl; [done|]. f_equal. exact IH.
Qed.

(** The recorded copy of a frame never shows an authorization key: in a
    ChangeConfiguration CALL whose [key] is AuthorizationKey in any letter case the [value]
    is replaced, and nothing else of any frame changes. *)
Theorem redact_secrets_spec (f : Frame.t) :
  Frame.id (Frame.redact_secrets f) = Frame.id f /\
  Frame.action (Frame.redact_secrets f) = Frame.action f /\
  Frame.message_type (Frame.redact_secrets f) = Frame.message_type f /\
  (Frame.redact_secrets f = f \/
   exists id fields key,
     f = Frame.Call id (lit "ChangeConfiguration") (Object fields) /\
     field (lit "key") fields = Some (String key) /\
     eq_ignore_ascii_case key (lit "AuthorizationKey") = true) /\
  (forall id fields key,
     f = Frame.Call id (lit "ChangeConfiguration") (Object fields) ->
     field (lit "key") fields = Some (String key) ->
     eq_ignore_ascii_case key (lit "AuthorizationKey") = true ->
     exists fields',
       Frame.redact_secrets f = Frame.Call id (lit "ChangeConfiguration") (Object fields') /\
       fields'.*1 = fields.*1 /\
       (forall k, k <> lit "value" -> field k fields' = field k fields) /\
       field (lit "value") fields' = (fun _ => String Frame.REDACTED) <$> field (lit "value") fields).
Proof.
  destruct f as [id action payload|id payload|id code descr details]; [|by naive_solver..].
  unfold Frame.redact_secrets.
  destruct (action == lit "ChangeConfiguration") eqn:Ea.
  2: { rewrite eqb_false in Ea. by naive_solver. }
  rewrite eqb_true in Ea. subst action.
  destruct payload as [| | | | |fields]; try by naive_solver.
  destruct (is_some_and _ _) eqn:Ek; simpl.
  - destruct (field (lit "key") fields) as [v|] eqn:Ef; [|done]. simpl in Ek.
    unfold Frame.is_authorization_key in Ek. destruct (as_str v) as [key|] eqn:Ev; [|done].
    destruct v; simplify_eq/=. split_and!; [done..|right; by eauto 10|].
    intros id' fields' key' [= <- <-] Hk' He. eexists. split_and!; [done| | |].
    + apply set_field_keys.
    + intros k Hk. by rewrite field_set_field, (eqb_ne _ _ Hk).
    + by rewrite field_set_field, eqb_refl.
  - split_and!; [done..|by left|]. intros id' fields' key [= <- <-] Hk He.
    rewrite Hk in Ek. unfold is_some_and, Frame.is_authorization_key, as_str in Ek. congruence.
Qed.
End frame_lemmas.

(** ** Witnesses *)

Lemma frame_codec_witness :
  Frame.try_from (J:=u64_json)
    (Frame.to_value (Frame.CallError (lit "7") (ErrorCode.Other (lit "X")) (lit "d") (Object [])))
  = Ok (Frame.CallError (lit "7") (ErrorCode.Other (lit "X")) (lit "d") (Object [])).
Proof.
  apply (@frame_codec u64_json u64_json_laws
           (Frame.CallError (lit "7") (ErrorCode.Other (lit "X")) (lit "d") (Object []))).
  split; [reflexivity|]. intros k Hk E. simpl in Hk.
  repeat (destruct Hk as [<-|Hk]; [vm_compute in E; discriminate E|]). exact Hk.
Defined.

Definition unit_text : JsonText (J:=u64_json) := {|
  json_from_str _ := Err (tt : @json_error u64_json);
  json_to_string _ := lit "json";
|}.

Definition short_call : json (J:=u64_json) := Array [Num (2 : @Number u64_json); String (lit "7")].
Definition short_call_error : Frame.error (J:=u64_json) :=
  Frame.mk_error (Frame.WrongLength 4 2) (Some 2) (Some (lit "7")).

Lemma frame_error_reply_witness :
  Frame.try_from short_call = Err short_call_error /\
  Frame.reply (T:=unit_text) short_call_error =
    Some (Frame.CallError (lit "7") ErrorCode.FormationViolation
            (lit "wrong number of elements: expected 4, got 2") (Object [])).
Proof.
  split; [reflexivity|].
  apply (@frame_error_reply u64_json unit_text short_call); [reflexivity|].
  exists (Num (2 : @Number u64_json)), (lit "7"), []. split; [reflexivity|].
  split; reflexivity.
Defined.
