(* ===== verification/Actions.v ===== *)
(** * Actions: the names of the OCPP actions

    The macro [action!] of [ocpp/messages/] gives each action a marker type whose [NAME] is
    its wire name; [Actions.X] is [X::NAME]. [ACTIONS] is the registry of who may send them. *)

From stdpp Require Import strings.
From S2P Require Import Prelude Text.

Module Actions.
Definition Authorize : str := lit "Authorize".
Definition BootNotification : str := lit "BootNotification".
Definition ChangeAvailability : str := lit "ChangeAvailability".
Definition ChangeConfiguration : str := lit "ChangeConfiguration".
Definition ClearCache : str := lit "ClearCache".
Definition DataTransfer : str := lit "DataTransfer".
Definition GetConfiguration : str := lit "GetConfiguration".
Definition MeterValues : str := lit "MeterValues".
Definition RemoteStartTransaction : str := lit "RemoteStartTransaction".
Definition RemoteStopTransaction : str := lit "RemoteStopTransaction".
Definition Reset : str := lit "Reset".
Definition StartTransaction : str := lit "StartTransaction".
Definition StatusNotification : str := lit "StatusNotification".
Definition StopTransaction : str := lit "StopTransaction".
Definition UnlockConnector : str := lit "UnlockConnector".
Definition GetDiagnostics : str := lit "GetDiagnostics".
Definition DiagnosticsStatusNotification : str := lit "DiagnosticsStatusNotification".
Definition FirmwareStatusNotification : str := lit "FirmwareStatusNotification".
Definition UpdateFirmware : str := lit "UpdateFirmware".
Definition GetLocalListVersion : str := lit "GetLocalListVersion".
Definition SendLocalList : str := lit "SendLocalList".
Definition TriggerMessage : str := lit "TriggerMessage".
Definition ReserveNow : str := lit "ReserveNow".
Definition CancelReservation : str := lit "CancelReservation".
Definition SignCertificate : str := lit "SignCertificate".
Definition CertificateSigned : str := lit "CertificateSigned".
Definition InstallCertificate : str := lit "InstallCertificate".
Definition DeleteCertificate : str := lit "DeleteCertificate".
Definition GetInstalledCertificateIds : str := lit "GetInstalledCertificateIds".
Definition GetLog : str := lit "GetLog".
Definition LogStatusNotification : str := lit "LogStatusNotification".
Definition SecurityEventNotification : str := lit "SecurityEventNotification".
Definition ExtendedTriggerMessage : str := lit "ExtendedTriggerMessage".
Definition SignedUpdateFirmware : str := lit "SignedUpdateFirmware".
Definition SignedFirmwareStatusNotification : str := lit "SignedFirmwareStatusNotification".
Definition SetChargingProfile : str := lit "SetChargingProfile".
Definition ClearChargingProfile : str := lit "ClearChargingProfile".
Definition GetCompositeSchedule : str := lit "GetCompositeSchedule".
Definition Heartbeat : str := lit "Heartbeat".

(** ** The registry ([ocpp/messages/registry.rs]) *)

(** Who may initiate an action. *)
Inductive ActionDirection : Type :=
| ChargePointToCentralSystem
| CentralSystemToChargePoint
| Both.

Definition charge_point_may_send (d : ActionDirection) : bool :=
  match d with ChargePointToCentralSystem | Both => true | _ => false end.
Definition central_system_may_send (d : ActionDirection) : bool :=
  match d with CentralSystemToChargePoint | Both => true | _ => false end.

Record ActionInfo : Type := info { name : str; direction : ActionDirection }.

Definition CP : ActionDirection := ChargePointToCentralSystem.
Definition CS : ActionDirection := CentralSystemToChargePoint.

Definition ACTIONS : list ActionInfo :=
  [info Authorize CP;
   info BootNotification CP;
   info CancelReservation CS;
   info CertificateSigned CS;
   info ChangeAvailability CS;
   info ChangeConfiguration CS;
   info ClearCache CS;
   info ClearChargingProfile CS;
   info DataTransfer Both;
   info DeleteCertificate CS;
   info DiagnosticsStatusNotification CP;
   info ExtendedTriggerMessage CS;
   info FirmwareStatusNotification CP;
   info GetCompositeSchedule CS;
   info GetConfiguration CS;
   info GetDiagnostics CS;
   info GetInstalledCertificateIds CS;
   info GetLocalListVersion CS;
   info GetLog CS;
   info Heartbeat CP;
   info InstallCertificate CS;
   info LogStatusNotification CP;
   info MeterValues CP;
   info RemoteStartTransaction CS;
   info RemoteStopTransaction CS;
   info ReserveNow CS;
   info Reset CS;
   info SecurityEventNotification CP;
   info SendLocalList CS;
   info SetChargingProfile CS;
   info SignCertificate CP;
   info SignedFirmwareStatusNotification CP;
   info SignedUpdateFirmware CS;
   info StartTransaction CP;
   info StatusNotification CP;
   info StopTransaction CP;
   info TriggerMessage CS;
   info UnlockConnector CS;
   info UpdateFirmware CS].

(** Looks an action up by name. *)
Definition find (n : str) : option ActionInfo := find_first (fun a => name a == n) ACTIONS.
End Actions.
