(* ===== verification/Schema.v ===== *)
(** * Schema: validation of payloads against the OCPP schemas

    [ocpp/schema.rs]. The schema files and the validator are foreign: [JsonSchema] says which
    errors the validator reports for a payload. The repository decides what a violation is
    answered with, in which order its errors are shown, and that they never show a secret. *)

From stdpp Require Import strings.
From S2P Require Import Prelude Text Time Types Frame Actions.
Local Open Scope Z_scope.

Module Schema.

(** Which payload of an action a schema describes. *)
Module PayloadKind.
Inductive t : Type := Request | Response.
#[export] Instance eq_dec : EqDecision t.
Proof. solve_decision. Defined.
(** [Display] *)
Definition show (k : t) : str := match k with Request => lit "request" | Response => lit "response" end.
End PayloadKind.
Export (hints) PayloadKind.

(** The JSON-schema keyword that a validation error originated from. *)
Module SchemaKeyword.
Inductive t : Type :=
| Required
| Type_
| AdditionalProperties
| Enum
| MaxLength
| MinLength
| Minimum
| Maximum
| MultipleOf
| Format
| Other (name : str).
#[export] Instance eq_dec : EqDecision t.
Proof. solve_decision. Defined.

Definition keyword_name (k : t) : str :=
  match k with
  | Required => lit "required"
  | Type_ => lit "type"
  | AdditionalProperties => lit "additionalProperties"
  | Enum => lit "enum"
  | MaxLength => lit "maxLength"
  | MinLength => lit "minLength"
  | Minimum => lit "minimum"
  | Maximum => lit "maximum"
  | MultipleOf => lit "multipleOf"
  | Format => lit "format"
  | Other name => name
  end.

Definition from_name (name : str) : t :=
  if name == lit "required" then Required
  else if name == lit "type" then Type_
  else if name == lit "additionalProperties" then AdditionalProperties
  else if name == lit "enum" then Enum
  else if name == lit "maxLength" then MaxLength
  else if name == lit "minLength" then MinLength
  else if name == lit "minimum" then Minimum
  else if name == lit "maximum" then Maximum
  else if name == lit "multipleOf" then MultipleOf
  else if name == lit "format" then Format
  else Other name.
End SchemaKeyword.
Export (hints) SchemaKeyword.
Export SchemaKeyword (keyword_name).

(** Why a payload was rejected. *)
Inductive ViolationCause : Type :=
| UnknownAction
| Keywords (keywords : list SchemaKeyword.t).

(** One schema error: where in the payload, which keyword, what the validator said. *)
Record SchemaIssue : Type := mk_issue {
  instance_path : str;
  keyword : SchemaKeyword.t;
  message : str;
}.

(** [Display] *)
Definition show_issue (i : SchemaIssue) : str :=
  (match instance_path i with [] => lit "/" | path => path end) ++ lit ": " ++ message i.

(** A payload that does not conform to the schema of its action. *)
Record SchemaViolation : Type := mk_violation {
  action : str;
  kind : PayloadKind.t;
  cause : ViolationCause;
  errors : list str;
  issues : list SchemaIssue;
}.

Definition unknown_action (action : str) (kind : PayloadKind.t) : SchemaViolation :=
  mk_violation action kind UnknownAction [lit "`" ++ action ++ lit "` is not an OCPP 1.6J action"] [].

(** The order of the issues: by instance path, then keyword, then message. *)
Definition text_cmp (a b : str) (next : bool) : bool := if a == b then next else str_leb a b.
Definition issue_leb (a b : SchemaIssue) : bool :=
  text_cmp (instance_path a) (instance_path b)
    (text_cmp (keyword_name (keyword a)) (keyword_name (keyword b))
       (str_leb (message a) (message b))).
Definition issue_le (a b : SchemaIssue) : Prop := issue_leb a b = true.
#[export] Instance issue_le_dec : RelDecision issue_le.
Proof. intros a b. unfold issue_le. apply _. Defined.

Definition from_issues (action : str) (kind : PayloadKind.t) (issues : list SchemaIssue)
  : SchemaViolation :=
  let issues := merge_sort issue_le issues in
  mk_violation action kind (Keywords (map keyword issues)) (map show_issue issues) issues.

Definition is_property (k : SchemaKeyword.t) : bool :=
  match k with
  | SchemaKeyword.AdditionalProperties | SchemaKeyword.Enum | SchemaKeyword.MaxLength
  | SchemaKeyword.MinLength | SchemaKeyword.Minimum | SchemaKeyword.Maximum
  | SchemaKeyword.MultipleOf | SchemaKeyword.Format => true
  | _ => false
  end.

(** The CALLERROR code to answer with. *)
Definition error_code (v : SchemaViolation) : ErrorCode.t :=
  match cause v with
  | UnknownAction => ErrorCode.NotImplemented
  | Keywords keywords =>
      if any (fun k => k == SchemaKeyword.Required) keywords then ErrorCode.OccurenceConstraintViolation
      else if any (fun k => k == SchemaKeyword.Type_) keywords then ErrorCode.TypeConstraintViolation
      else if any is_property keywords then ErrorCode.PropertyConstraintViolation
      else ErrorCode.FormationViolation
  end.

(** [errors.join("; ")] *)
Definition error_text (v : SchemaViolation) : str := join_with (lit "; ") (errors v).

(** [Display] *)
Definition show_violation (v : SchemaViolation) : str :=
  action v ++ lit " " ++ PayloadKind.show (kind v) ++ lit " violates OCPP 1.6J schema ("
  ++ ErrorCode.as_str (error_code v) ++ lit "): " ++ error_text v.

(** The actions with embedded schemas. *)
Definition EMBEDDED : list str :=
  [Actions.Authorize; Actions.BootNotification; Actions.CancelReservation;
   Actions.ChangeAvailability; Actions.ChangeConfiguration; Actions.ClearCache;
   Actions.ClearChargingProfile; Actions.DataTransfer; Actions.DiagnosticsStatusNotification;
   Actions.FirmwareStatusNotification; Actions.GetCompositeSchedule; Actions.GetConfiguration;
   Actions.GetDiagnostics; Actions.GetLocalListVersion; Actions.Heartbeat; Actions.MeterValues;
   Actions.RemoteStartTransaction; Actions.RemoteStopTransaction; Actions.ReserveNow;
   Actions.Reset; Actions.SendLocalList; Actions.SetChargingProfile; Actions.StartTransaction;
   Actions.StatusNotification; Actions.StopTransaction; Actions.TriggerMessage;
   Actions.UnlockConnector; Actions.UpdateFirmware;
   Actions.CertificateSigned; Actions.DeleteCertificate; Actions.ExtendedTriggerMessage;
   Actions.GetInstalledCertificateIds; Actions.GetLog; Actions.InstallCertificate;
   Actions.LogStatusNotification; Actions.SecurityEventNotification; Actions.SignCertificate;
   Actions.SignedFirmwareStatusNotification; Actions.SignedUpdateFirmware].

Definition knows_action (action : str) : bool := any (fun name => name == action) EMBEDDED.

(** The errors the validator of the embedded schema of an action reports for a payload: the
    path of the offending value, the name of the keyword and the text of the error. *)
Record ValidationError : Type := mk_error { path : str; keyword_of : str; text : str }.
Class JsonSchema {J : SerdeJson} : Type := {
  iter_errors : str -> PayloadKind.t -> json -> list ValidationError;
}.

Section validate.
Context {J : SerdeJson}.

(** A [ChangeConfiguration] payload that sets [AuthorizationKey]. *)
Definition carries_authorization_key (action : str) (payload : json) : bool :=
  (action == Actions.ChangeConfiguration)
  && match payload with
     | Object fields =>
         is_some_and (fun key => eq_ignore_ascii_case key (lit "AuthorizationKey"))
           (field (lit "key") fields ≫= as_str)
     | _ => false
     end.

Context {V : JsonSchema}.

Definition issue_of (secret : bool) (e : ValidationError) : SchemaIssue :=
  mk_issue (path e) (SchemaKeyword.from_name (keyword_of e))
    (if secret
     then lit "violates `" ++ keyword_of e ++ lit "` (details hidden: the value is a secret)"
     else text e).

Definition validate (action : str) (kind : PayloadKind.t) (payload : json)
  : result unit SchemaViolation :=
  if negb (knows_action action) then Err (unknown_action action kind)
  else
    let secret := (kind == PayloadKind.Request) && carries_authorization_key action payload in
    match map (issue_of secret) (iter_errors action kind payload) with
    | [] => Ok tt
    | issues => Err (from_issues action kind issues)
    end.

Definition validate_request (action : str) (payload : json) : result unit SchemaViolation :=
  validate action PayloadKind.Request payload.
Definition validate_response (action : str) (payload : json) : result unit SchemaViolation :=
  validate action PayloadKind.Response payload.
End validate.

(** ** The order of the issues *)

Lemma text_cmp_refl a next : text_cmp a a next = next.
Proof. unfold text_cmp. by rewrite eqb_refl. Qed.
Lemma text_cmp_total a b m n :
  m = true \/ n = true -> text_cmp a b m = true \/ text_cmp b a n = true.
Proof.
  intros Hmn. unfold text_cmp. destruct (a == b) eqn:E.
  - apply (proj1 (eqb_true _ _)) in E. subst b. by rewrite eqb_refl.
  - apply (proj1 (eqb_false _ _)) in E. rewrite (eqb_ne b a) by congruence. apply str_leb_total.
Qed.
Lemma text_cmp_antisym a b m n :
  text_cmp a b m = true -> text_cmp b a n = true -> a = b /\ m = true /\ n = true.
Proof.
  unfold text_cmp. destruct (a == b) eqn:E.
  - apply (proj1 (eqb_true _ _)) in E. subst b. by rewrite eqb_refl.
  - apply (proj1 (eqb_false _ _)) in E. rewrite (eqb_ne b a) by congruence.
    intros Hab Hba. by pose proof (str_leb_antisym a b Hab Hba).
Qed.
Lemma text_cmp_trans a b c m n o :
  (m = true -> n = true -> o = true) ->
  text_cmp a b m = true -> text_cmp b c n = true -> text_cmp a c o = true.
Proof.
  intros Ho. unfold text_cmp. destruct (a == b) eqn:Eab.
  - apply (proj1 (eqb_true _ _)) in Eab. subst b. destruct (a == c); auto.
  - apply (proj1 (eqb_false _ _)) in Eab. destruct (b == c) eqn:Ebc.
    + apply (proj1 (eqb_true _ _)) in Ebc. subst c. by rewrite (eqb_ne a b).
    + apply (proj1 (eqb_false _ _)) in Ebc. intros Hab Hbc. destruct (a == c) eqn:Eac.
      * apply (proj1 (eqb_true _ _)) in Eac. subst c. by pose proof (str_leb_antisym a b Hab Hbc).
      * by apply (str_leb_trans a b c).
Qed.

#[export] Instance issue_le_total : Total issue_le.
Proof. intros a b. do 2 (apply text_cmp_total). apply str_leb_total. Qed.
#[export] Instance issue_le_trans : Transitive issue_le.
Proof.
  intros a b c. apply text_cmp_trans. apply text_cmp_trans. apply str_leb_trans.
Qed.

Lemma keyword_name_from_name name : keyword_name (SchemaKeyword.from_name name) = name.
Proof.
  unfold SchemaKeyword.from_name.
  repeat (case_match; [by match goal with H : (_ == _) = true |- _ => apply (proj1 (eqb_true _ _)) in H end|]).
  done.
Qed.
Lemma issue_of_antisym secret e1 e2 :
  issue_le (issue_of secret e1) (issue_of secret e2) -> issue_le (issue_of secret e2) (issue_of secret e1) ->
  issue_of secret e1 = issue_of secret e2.
Proof.
  unfold issue_le, issue_leb. intros H1 H2.
  destruct (text_cmp_antisym _ _ _ _ H1 H2) as (Hp & H3 & H4).
  destruct (text_cmp_antisym _ _ _ _ H3 H4) as (Hk & H5 & H6).
  pose proof (str_leb_antisym _ _ H5 H6) as Hm. cbn [issue_of instance_path keyword message] in *.
  rewrite !keyword_name_from_name in Hk. unfold issue_of. by rewrite Hp, Hm, Hk.
Qed.

Lemma sorted_issues secret l l' :
  l ≡ₚ l' ->
  merge_sort issue_le (map (issue_of secret) l) = merge_sort issue_le (map (issue_of secret) l').
Proof.
  intros Hp. apply (StronglySorted_unique_strong issue_le).
  - intros i j Hi Hj.
    rewrite merge_sort_Permutation in Hi, Hj.
    apply list_elem_of_In, in_map_iff in Hi as (e & <- & _), Hj as (f & <- & _).
    apply issue_of_antisym.
  - apply StronglySorted_merge_sort; apply _.
  - apply StronglySorted_merge_sort; apply _.
  - rewrite !merge_sort_Permutation. by apply Permutation_map.
Qed.

Lemma any_perm {A} (p : A -> bool) l l' : l ≡ₚ l' -> any p l = any p l'.
Proof.
  intros Hp. apply eq_true_iff_eq. unfold any. rewrite !existsb_exists.
  split; intros (x & Hx & Hpx); exists x; (split; [|done]); [by rewrite <- Hp|by rewrite Hp].
Qed.

(** The first of the classes of keywords that fails names the code. *)
Definition code_of (names : list str) : ErrorCode.t :=
  let fails name := any (fun n => n == name) names in
  if fails (lit "required") then ErrorCode.OccurenceConstraintViolation
  else if fails (lit "type") then ErrorCode.TypeConstraintViolation
  else if fails (lit "additionalProperties") || fails (lit "enum") || fails (lit "maxLength")
       || fails (lit "minLength") || fails (lit "minimum") || fails (lit "maximum")
       || fails (lit "multipleOf") || fails (lit "format")
  then ErrorCode.PropertyConstraintViolation
  else ErrorCode.FormationViolation.

Lemma any_map {A B} (p : B -> bool) (f : A -> B) l : any p (map f l) = any (fun x => p (f x)) l.
Proof. unfold any. induction l as [|x l IH]; simpl; [done|]. by rewrite IH. Qed.
Lemma any_ext {A} (p q : A -> bool) l : (forall x, p x = q x) -> any p l = any q l.
Proof. intros H. unfold any. induction l as [|x l IH]; simpl; [done|]. by rewrite H, IH. Qed.
Lemma any_orb {A} (p q : A -> bool) l : any (fun x => p x || q x) l = any p l || any q l.
Proof. unfold any. induction l as [|x l IH]; simpl; [done|]. rewrite IH. by destruct (p x), (q x), (existsb p l). Qed.

Lemma from_name_class name :
  (SchemaKeyword.from_name name == SchemaKeyword.Required) = (name == lit "required") /\
  (SchemaKeyword.from_name name == SchemaKeyword.Type_) = (name == lit "type") /\
  is_property (SchemaKeyword.from_name name)
  = (name == lit "additionalProperties") || (name == lit "enum") || (name == lit "maxLength")
    || (name == lit "minLength") || (name == lit "minimum") || (name == lit "maximum")
    || (name == lit "multipleOf") || (name == lit "format").
Proof.
  unfold SchemaKeyword.from_name.
  repeat (case_match;
    [match goal with H : (_ == _) = true |- _ => apply (proj1 (eqb_true _ _)) in H; subst name end;
     vm_compute; done|]).
  vm_compute. done.
Qed.

Lemma error_code_names action kind secret l :
  error_code (from_issues action kind (map (issue_of secret) l)) = code_of (map keyword_of l).
Proof.
  assert (Hp : map keyword (merge_sort issue_le (map (issue_of secret) l))
               ≡ₚ map (fun e => SchemaKeyword.from_name (keyword_of e)) l).
  { rewrite merge_sort_Permutation, map_map. done. }
  unfold error_code, from_issues, code_of. cbn [cause].
  rewrite !(any_perm _ _ _ Hp), !any_map.
  rewrite (any_ext (fun e => _ == SchemaKeyword.Required) _ l
             (fun e => proj1 (from_name_class (keyword_of e)))).
  rewrite (any_ext (fun e => _ == SchemaKeyword.Type_) _ l
             (fun e => proj1 (proj2 (from_name_class (keyword_of e))))).
  rewrite (any_ext (fun e => is_property _) _ l (fun e => proj2 (proj2 (from_name_class (keyword_of e))))).
  by rewrite !any_orb.
Qed.

(** ** What a violation says *)

Section theorems.
Context {J : SerdeJson}.
Implicit Types (V : JsonSchema).

Lemma validate_known V action kind payload :
  knows_action action = true ->
  validate action kind payload
  = match iter_errors action kind payload with
    | [] => Ok tt
    | es => Err (from_issues action kind
              (map (issue_of ((kind == PayloadKind.Request) && carries_authorization_key action payload)) es))
    end.
Proof. intros Hk. unfold validate. rewrite Hk. simpl. by destruct (iter_errors action kind payload). Qed.

(** Claim C8: a payload is refused exactly when the validator reports errors, or the action is
    unknown; what the refusal says (its code, its texts and their order) does not depend on the
    order in which the validator finds the errors; the code is [NotImplemented] for an unknown
    action and otherwise that of the most serious class of keywords that fails; and for a
    [ChangeConfiguration] of the authorization key it is the same for every two payloads that
    fail at the same places and keywords, so that no text of it shows the secret. *)
Theorem violation_spec V V' action kind payload payload' :
  (validate (V:=V) action kind payload = Ok tt <->
     knows_action action = true /\ iter_errors (JsonSchema:=V) action kind payload = []) /\
  (forall v, validate (V:=V) action kind payload = Err v ->
     error_code v = if knows_action action
                    then code_of (map keyword_of (iter_errors (JsonSchema:=V) action kind payload))
                    else ErrorCode.NotImplemented) /\
  (iter_errors (JsonSchema:=V) action kind payload ≡ₚ iter_errors (JsonSchema:=V') action kind payload ->
     validate (V:=V) action kind payload = validate (V:=V') action kind payload) /\
  (carries_authorization_key action payload = true ->
     carries_authorization_key action payload' = true ->
     map (fun e => (path e, keyword_of e)) (iter_errors (JsonSchema:=V) action PayloadKind.Request payload)
     = map (fun e => (path e, keyword_of e)) (iter_errors (JsonSchema:=V') action PayloadKind.Request payload') ->
     validate (V:=V) action PayloadKind.Request payload = validate (V:=V') action PayloadKind.Request payload').
Proof.
  destruct (knows_action action) eqn:Hk.
  2: { unfold validate. rewrite Hk. split_and!; [split; [|intros []]; discriminate| |done|done].
       by intros v [= <-]. }
  rewrite !validate_known by done. split_and!.
  - destruct (iter_errors _ _ _); split; [done|done|discriminate|by intros []].
  - destruct (iter_errors _ _ _) as [|e es] eqn:He; [discriminate|]. intros v [= <-]. exact (error_code_names _ _ _ (e :: es)).
  - intros Hp. set (secret := _ && _).
    destruct (iter_errors _ _ _) as [|e es]; [by apply Permutation_nil_l in Hp as <-|].
    destruct (iter_errors (JsonSchema:=V') _ _ _) as [|e' es']; [by apply Permutation_nil_r in Hp|].
    unfold from_issues. by rewrite (sorted_issues secret _ _ Hp).
  - intros Hs Hs' He. rewrite Hs, Hs', eqb_refl. simpl.
    assert (Hm : map (issue_of true) (iter_errors (JsonSchema:=V) action PayloadKind.Request payload)
                 = map (issue_of true) (iter_errors (JsonSchema:=V') action PayloadKind.Request payload')).
    { apply (f_equal (map (fun '(p, k) => issue_of true (mk_error p k [])))) in He.
      by rewrite !map_map in He. }
    destruct (iter_errors _ _ payload), (iter_errors (JsonSchema:=V') _ _ payload'); try done.
    simpl in *. by rewrite Hm.
Qed.
End theorems.

(** A validator that quotes the value. *)
#[local] Existing Instance u64_json.
Definition quoting (quote : str) : JsonSchema :=
  {| iter_errors _ _ _ := [mk_error (lit "/value") (lit "maxLength") quote;
                           mk_error [] (lit "required") quote] |}.
Definition set_key (value : str) : json :=
  Object [(lit "key", String (lit "authorizationkey")); (lit "value", String value)].

Lemma violation_spec_witness :
  let text quote value :=
    match validate (V:=quoting quote) Actions.ChangeConfiguration PayloadKind.Request (set_key value) with
    | Ok _ => []
    | Err v => show_violation v
    end in
  text (lit "secret 1") (lit "1") = text (lit "secret 2") (lit "2") /\
  text (lit "secret 1") (lit "1") =
    lit "ChangeConfiguration request violates OCPP 1.6J schema (OccurenceConstraintViolation): "
    ++ lit "/: violates `required` (details hidden: the value is a secret); "
    ++ lit "/value: violates `maxLength` (details hidden: the value is a secret)".
Proof.
  cbv zeta. split; [|vm_compute; reflexivity].
  destruct (violation_spec (quoting (lit "secret 1")) (quoting (lit "secret 2"))
    Actions.ChangeConfiguration PayloadKind.Request (set_key (lit "1")) (set_key (lit "2")))
    as (_ & _ & _ & H).
  rewrite H; [reflexivity|vm_compute; reflexivity..].
Defined.
End Schema.
