(* ===== verification/ResponseRules.v ===== *)
(** * ResponseRules: the rules that make the station misbehave

    [station/response_rules.rs]: the compact text form of a rule (parser and printer), the
    rule list with its counted applications, the rejection payloads. *)

From stdpp Require Import strings.
From S2P Require Import Prelude Text Time Types Frame Actions.
Local Open Scope Z_scope.

Module ResponseRules.

Definition INBOUND_ACTIONS : list str :=
  [Actions.CancelReservation; Actions.CertificateSigned; Actions.ChangeAvailability;
   Actions.ChangeConfiguration; Actions.ClearCache; Actions.ClearChargingProfile;
   Actions.DataTransfer; Actions.DeleteCertificate; Actions.ExtendedTriggerMessage;
   Actions.GetCompositeSchedule; Actions.GetConfiguration; Actions.GetDiagnostics;
   Actions.GetInstalledCertificateIds; Actions.GetLocalListVersion; Actions.GetLog;
   Actions.InstallCertificate; Actions.RemoteStartTransaction;
   Actions.RemoteStopTransaction; Actions.ReserveNow; Actions.Reset;
   Actions.SendLocalList; Actions.SetChargingProfile; Actions.SignedUpdateFirmware;
   Actions.TriggerMessage; Actions.UnlockConnector; Actions.UpdateFirmware].

Definition MAX_DELAY_MS : Z := 3600000.

Inductive Behavior : Type :=
| Reject
| Delay (ms : Z)
| Error (code : ErrorCode.t) (description : option str)
| Drop
| Ignore.

#[export] Instance behavior_eq_dec : EqDecision Behavior.
Proof. solve_decision. Defined.

Record ResponseRule : Type := mk {
  action : str;
  behavior : Behavior;
  remaining : option Z;
}.

#[export] Instance rule_eq_dec : EqDecision ResponseRule.
Proof. solve_decision. Defined.
#[export] Instance rule_eta : Eta ResponseRule :=
  fun r => mk (action r) (behavior r) (remaining r).

Inductive RuleError : Type :=
| Format
| UnknownAction (name : str)
| UnknownBehavior (text : str)
| BadDelay
| UnknownErrorCode (code : str)
| BadCount.

#[export] Instance rule_error_eq_dec : EqDecision RuleError.
Proof. solve_decision. Defined.

Definition canonical_action (name : str) : result str RuleError :=
  match find_first (fun known => eq_ignore_ascii_case known (trim name)) INBOUND_ACTIONS with
  | Some known => Ok known
  | None => Err (UnknownAction (trim name))
  end.

Definition parse_behavior (text : str) : result Behavior RuleError :=
  let '(name, arg) :=
    match split_once 58 text with
    | Some (name, arg) => (trim name, Some arg)
    | None => (trim text, None)
    end in
  let name := to_ascii_lowercase name in
  match arg with
  | None =>
      if name == lit "reject" then Ok Reject
      else if name == lit "drop" then Ok Drop
      else if name == lit "ignore" then Ok Ignore
      else if name == lit "delay" then Err BadDelay
      else if name == lit "error" then Err (UnknownErrorCode [])
      else Err (UnknownBehavior (trim text))
  | Some arg =>
      if name == lit "delay" then
        match parse_u64 (trim arg) with
        | None => Err BadDelay
        | Some ms => if MAX_DELAY_MS <? ms then Err BadDelay else Ok (Delay ms)
        end
      else if name == lit "error" then
        let '(code, description) :=
          match split_once 58 arg with
          | Some (code, text) => (trim code, Some (trim text))
          | None => (trim arg, None)
          end in
        match find_first (fun known => eq_ignore_ascii_case (ErrorCode.as_str known) code)
                ErrorCode.STANDARD with
        | None => Err (UnknownErrorCode code)
        | Some code =>
            Ok (Error code (match description with
                            | Some [] => None
                            | d => d
                            end))
        end
      else Err (UnknownBehavior (trim text))
  end.

(** A trailing star with digits is the count; anything else belongs to the behavior. *)
Definition split_count (rest : str) : result (str * option Z) RuleError :=
  match rsplit_once 42 rest with
  | Some (head, tail) =>
      if negb (tail == []) && all is_ascii_digit tail then
        match parse_u32 tail with
        | None => Err BadCount
        | Some count => if count =? 0 then Err BadCount else Ok (trim_end head, Some count)
        end
      else Ok (rest, None)
  | None => Ok (rest, None)
  end.

(** [impl FromStr for ResponseRule] *)
Definition from_str (text : str) : result ResponseRule RuleError :=
  match split_once 61 text with
  | None => Err Format
  | Some (name, rest) =>
      let! action := canonical_action name in
      let! split := split_count (trim rest) in
      let! behavior := parse_behavior split.1 in
      Ok (mk action behavior split.2)
  end.

(** [impl Display for Behavior], [impl Display for ResponseRule] *)
Definition behavior_to_string (b : Behavior) : str :=
  match b with
  | Reject => lit "reject"
  | Delay ms => lit "delay:" ++ to_string ms
  | Error code description =>
      lit "error:" ++ ErrorCode.as_str code
        ++ match description with Some text => 58 :: text | None => [] end
  | Drop => lit "drop"
  | Ignore => lit "ignore"
  end.

Definition rule_to_string (r : ResponseRule) : str :=
  action r ++ 61 :: behavior_to_string (behavior r)
    ++ match remaining r with Some count => 42 :: to_string count | None => [] end.

(** ** The rule list *)

Definition set_rule (rules : list ResponseRule) (rule : ResponseRule) : list ResponseRule :=
  if any (fun r => action r == action rule) rules
  then update_first (fun r => action r == action rule) (fun _ => rule) rules
  else rules ++ [rule].

Definition clear_rules (rules : list ResponseRule) (name : option str)
  : list ResponseRule * Z :=
  let kept := retain (fun r => is_some_and (fun a => action r != a) name) rules in
  (kept, len rules - len kept).

Definition take_rule (rules : list ResponseRule) (name : str)
  : list ResponseRule * option Behavior :=
  match position (fun r => action r == name) rules with
  | None => (rules, None)
  | Some index =>
      match rules !! index with
      | None => (rules, None)
      | Some rule =>
          match remaining rule with
          | Some n =>
              let n := Z.max (n - 1) 0 in
              let rules := <[index := rule <| remaining := Some n |>]> rules in
              if n =? 0 then (remove_at index rules, Some (behavior rule))
              else (rules, Some (behavior rule))
          | None => (rules, Some (behavior rule))
          end
      end
  end.

(** [reject_payload] *)
Definition reject_payload {J : SerdeJson} (name : str) : option json :=
  let named a := name == a in
  let status :=
    if named Actions.CancelReservation || named Actions.ChangeAvailability
       || named Actions.ChangeConfiguration || named Actions.ClearCache || named Actions.DataTransfer
       || named Actions.GetCompositeSchedule || named Actions.RemoteStartTransaction
       || named Actions.RemoteStopTransaction || named Actions.ReserveNow || named Actions.Reset
       || named Actions.SetChargingProfile || named Actions.TriggerMessage
       || named Actions.ExtendedTriggerMessage || named Actions.GetLog
       || named Actions.SignedUpdateFirmware
    then Some (lit "Rejected")
    else if named Actions.SendLocalList || named Actions.UnlockConnector
    then Some (lit "NotSupported")
    else if named Actions.InstallCertificate || named Actions.CertificateSigned
    then Some (lit "Rejected")
    else if named Actions.DeleteCertificate then Some (lit "Failed")
    else if named Actions.GetInstalledCertificateIds then Some (lit "NotFound")
    else None in
  (fun s => Object [(lit "status", String s)]) <$> status.

(** The behaviors that [m] consecutive CALLs of an action get. *)
Fixpoint takes (m : nat) (rules : list ResponseRule) (name : str)
  : list ResponseRule * list (option Behavior) :=
  match m with
  | O => (rules, [])
  | S m =>
      let '(rules, b) := take_rule rules name in
      let '(rules, bs) := takes m rules name in
      (rules, b :: bs)
  end.

(** ** Well-formed rules *)

Definition behavior_ok (b : Behavior) : Prop :=
  match b with
  | Delay ms => 0 <= ms <= MAX_DELAY_MS
  | Error code description =>
      In code ErrorCode.STANDARD /\
      match description with
      | Some text => text <> [] /\ starts_trimmed text /\ ends_trimmed text
      | None => True
      end
  | _ => True
  end.

Definition rule_ok (r : ResponseRule) : Prop :=
  In (action r) INBOUND_ACTIONS /\ behavior_ok (behavior r) /\
  match remaining r with Some n => 1 <= n <= u32_max | None => True end.

(** The text ends in a star and digits, which the parser reads as a count. *)
Definition counted (s : str) : bool :=
  match rsplit_once 42 s with
  | Some (_, tail) => negb (tail == []) && all is_ascii_digit tail
  | None => false
  end.

(** ** Parsing and printing *)

Lemma inbound_actions_spelling :
  forallb (fun a => (canonical_action a == Ok a) && (split_once 61 a == None)) INBOUND_ACTIONS
  = true.
Proof. vm_compute. reflexivity. Qed.

Lemma standard_codes_spelling :
  forallb (fun c =>
    let s := ErrorCode.as_str c in
    (split_once 58 s == None) && (split_once 42 s == None) && (trim s == s)
    && (trim_end s == s) && negb (s == [])
    && (find_first (fun known => eq_ignore_ascii_case (ErrorCode.as_str known) s)
          ErrorCode.STANDARD == Some c)) ErrorCode.STANDARD = true.
Proof. vm_compute. reflexivity. Qed.

Lemma standard_code c :
  In c ErrorCode.STANDARD ->
  let s := ErrorCode.as_str c in
  (58 ∉ s) /\ (42 ∉ s) /\ trim s = s /\ trim_end s = s /\ s <> [] /\
  find_first (fun known => eq_ignore_ascii_case (ErrorCode.as_str known) s)
    ErrorCode.STANDARD = Some c.
Proof.
  intros H. pose proof (proj1 (forallb_forall _ _) standard_codes_spelling c H) as Hs.
  cbv beta zeta in *. bool_facts. rewrite <- !split_once_None. by split_and!.
Qed.

Lemma canonical_action_In name a : canonical_action name = Ok a -> In a INBOUND_ACTIONS.
Proof.
  unfold canonical_action. destruct (find_first _ _) as [k|] eqn:E; [|done].
  intros [= <-]. by apply find_first_In in E as [? _].
Qed.

Lemma canonical_action_inbound a :
  In a INBOUND_ACTIONS -> canonical_action a = Ok a /\ 61 ∉ a.
Proof.
  intros H. pose proof (proj1 (forallb_forall _ _) inbound_actions_spelling a H) as Hs.
  cbn beta in Hs. bool_facts. by rewrite <- split_once_None.
Qed.

Lemma digits_ends_trimmed s :
  Forall (fun c => is_ascii_digit c = true) s -> ends_trimmed s.
Proof.
  destruct s as [|c s] using rev_ind; [done|]. intros [_ H]%Forall_app.
  apply ends_trimmed_snoc, digit_not_whitespace. by inversion H.
Qed.

Lemma digits_no_char c s :
  is_ascii_digit c = false -> Forall (fun c => is_ascii_digit c = true) s -> c ∉ s.
Proof. intros Hc Hs Hin. rewrite Forall_forall in Hs. apply Hs in Hin. congruence. Qed.

Lemma parse_behavior_print b : behavior_ok b -> parse_behavior (behavior_to_string b) = Ok b.
Proof.
  destruct b as [|ms|code description| |]; intros Hb; cycle 1.
  3,4,5: reflexivity.
  - simpl in Hb. unfold parse_behavior, behavior_to_string.
    rewrite (proj2 (split_once_Some 58 (lit "delay:" ++ _) (lit "delay") (to_string ms))).
    2: { split; [done|]. rewrite <- split_once_None. vm_compute. reflexivity. }
    pose proof (to_string_digits ms ltac:(lia)) as Hd.
    replace (trim (to_string ms)) with (to_string ms).
    2: { symmetry. apply trim_id; [|by apply digits_ends_trimmed].
         destruct (to_string ms) as [|c r] eqn:E; [done|]. apply starts_trimmed_cons.
         inversion Hd. by apply digit_not_whitespace. }
    unfold parse_u64. rewrite parse_unsigned_to_string by (unfold MAX_DELAY_MS, u64_max in *; lia).
    rewrite (proj2 (Z.ltb_ge _ _)) by lia. reflexivity.
  - destruct Hb as [Hc Ht]. unfold parse_behavior, behavior_to_string.
    destruct (standard_code code Hc) as (H58 & _ & Htrim & _ & _ & Hfind).
    rewrite (proj2 (split_once_Some 58 _ (lit "error")
               (ErrorCode.as_str code ++ match description with Some t => 58 :: t | None => [] end))).
    2: { split; [done|]. rewrite <- split_once_None. vm_compute. reflexivity. }
    change (to_ascii_lowercase (trim (lit "error"))) with (lit "error").
    change (lit "error" == lit "delay") with false. change (lit "error" == lit "error") with true.
    cbv iota. destruct description as [text|].
    + destruct Ht as (Hn & Hst & He).
      rewrite (proj2 (split_once_Some 58 _ (ErrorCode.as_str code) text)) by done.
      rewrite Htrim, Hfind. rewrite trim_id by done. by destruct text.
    + rewrite app_nil_r. rewrite (proj2 (split_once_None _ _)) by done.
      rewrite Htrim, Hfind. done.
Qed.

Lemma behavior_text_trimmed b :
  behavior_ok b ->
  behavior_to_string b <> [] /\ starts_trimmed (behavior_to_string b) /\
  ends_trimmed (behavior_to_string b).
Proof.
  intros Hb. split; [by destruct b|]. split; [by destruct b|].
  destruct b as [|ms|code description| |]; simpl in Hb; try (vm_compute; reflexivity).
  - unfold behavior_to_string. apply ends_trimmed_app; [apply to_string_nonempty|].
    apply digits_ends_trimmed, to_string_digits. lia.
  - destruct Hb as [Hc Ht]. destruct (standard_code code Hc) as (_ & _ & _ & He & Hn & _).
    unfold behavior_to_string. destruct description as [text|].
    + destruct Ht as (Hne & _ & Het).
      rewrite !app_assoc. change (58 :: text) with ([58] ++ text). rewrite app_assoc.
      by apply ends_trimmed_app.
    + rewrite app_nil_r. by apply ends_trimmed_app.
Qed.

Lemma counted_suffix p s : 42 ∈ s -> counted (p ++ s) = counted s.
Proof.
  intros H. unfold counted. destruct (rsplit_once 42 s) as [[u v]|] eqn:E.
  - apply rsplit_once_Some in E as [-> Hv]. rewrite app_assoc.
    by rewrite (proj2 (rsplit_once_Some 42 _ (p ++ u) v)).
  - unfold rsplit_once in E. destruct (split_once 42 (rev s)) as [[??]|] eqn:E'; [done|].
    apply split_once_None in E'. destruct E'.
    by rewrite list_elem_of_In, <- in_rev, <- list_elem_of_In.
Qed.

Lemma not_counted s : (42 ∉ s) -> counted s = false.
Proof.
  intros H. unfold counted. destruct (rsplit_once 42 s) as [[u v]|] eqn:E; [|done].
  apply rsplit_once_Some in E as [-> _]. destruct H. apply elem_of_app. right. by left.
Qed.

Lemma split_count_plain s : counted s = false -> split_count s = Ok (s, None).
Proof.
  unfold counted, split_count. by destruct (rsplit_once 42 s) as [[u v]|]; [intros ->|].
Qed.

Lemma split_count_Ok s b n :
  split_count s = Ok (b, n) ->
  (n = None /\ b = s /\ counted s = false) \/
  (exists c u v, n = Some c /\ s = u ++ 42 :: v /\ b = trim_end u /\ 1 <= c <= u32_max).
Proof.
  unfold split_count, counted. destruct (rsplit_once 42 s) as [[u v]|] eqn:E.
  - destruct (_ && _); [|intros [= <- <-]; by left].
    destruct (parse_u32 v) as [c|] eqn:Hp; [|done]. destruct (c =? 0) eqn:Hc; [done|].
    intros [= <- <-]. right. exists c, u, v. apply rsplit_once_Some in E as [-> _].
    apply parse_unsigned_bounds in Hp. bool_facts. split_and!; auto; lia.
  - intros [= <- <-]. by left.
Qed.

Lemma split_count_print b n :
  ends_trimmed b -> 1 <= n <= u32_max ->
  split_count (b ++ 42 :: to_string n) = Ok (b, Some n).
Proof.
  intros Hb Hn. unfold split_count. pose proof (to_string_digits n ltac:(lia)) as Hd.
  rewrite (proj2 (rsplit_once_Some 42 _ b (to_string n))).
  2: { split; [done|]. by apply digits_no_char. }
  rewrite (eqb_ne (to_string n) []) by apply to_string_nonempty.
  assert (all is_ascii_digit (to_string n) = true) as ->.
  { apply forallb_forall. intros c Hc. rewrite Forall_forall in Hd. apply Hd.
    by apply list_elem_of_In. }
  simpl. rewrite parse_u32_to_string by (unfold is_u32; lia).
  rewrite (proj2 (Z.eqb_neq n 0)) by lia. by rewrite Hb.
Qed.

Lemma parse_behavior_Ok text b :
  ends_trimmed text -> parse_behavior text = Ok b ->
  behavior_ok b /\
  (forall c t, b = Error c (Some t) -> exists p, text = p ++ t).
Proof.
  intros He H. unfold parse_behavior in H.
  destruct (split_once 58 text) as [[name arg]|] eqn:Es.
  2: { destruct (_ == lit "reject"); [by simplify_eq|].
       destruct (_ == lit "drop"); [by simplify_eq|].
       destruct (_ == lit "ignore"); [by simplify_eq|].
       destruct (_ == lit "delay"); [done|]. by destruct (_ == lit "error"). }
  apply split_once_Some in Es as [-> _].
  destruct (_ == lit "delay").
  { destruct (parse_u64 _) as [ms|] eqn:Hp; [|done]. destruct (_ <? ms) eqn:Hm; [done|].
    injection H as <-. apply parse_unsigned_bounds in Hp. bool_facts. simpl. split; [lia|done]. }
  destruct (_ == lit "error"); [|done].
  destruct (split_once 58 arg) as [[code t]|] eqn:Ea.
  - apply split_once_Some in Ea as [-> _].
    destruct (find_first _ _) as [c|] eqn:Hf; [|done]. injection H as <-.
    apply find_first_In in Hf as [Hc _]. destruct (trim_trimmed t) as [Hs1 Hs2].
    assert (ends_trimmed t) as Ht.
    { destruct t as [|x t]; [done|].
      replace (name ++ 58 :: code ++ 58 :: x :: t)
        with ((name ++ 58 :: code ++ [58]) ++ x :: t) in He
        by (simpl; rewrite <- !app_assoc; simpl; by rewrite <- app_assoc).
      by apply ends_trimmed_app in He. }
    destruct (trim_suffix t Ht) as [p Hp].
    destruct (trim t) as [|x r] eqn:Et; simpl; [by split|].
    split; [by split_and!|]. intros c' t' [= <- <-].
    exists (name ++ 58 :: code ++ 58 :: p). rewrite Hp at 1.
    rewrite <- !app_assoc. simpl. by rewrite <- app_assoc.
  - destruct (find_first _ _) as [c|] eqn:Hf; [|done]. injection H as <-.
    apply find_first_In in Hf as [Hc _]. simpl. split; [by split|done].
Qed.

(** The text of a well-formed rule parses back, unless its behavior ends like a count. *)
Lemma from_str_print r :
  rule_ok r -> (remaining r = None -> counted (behavior_to_string (behavior r)) = false) ->
  from_str (rule_to_string r) = Ok r.
Proof.
  intros (Ha & Hb & Hr) Hc. destruct r as [a b n]; simpl in *.
  destruct (canonical_action_inbound a Ha) as [Hcan H61].
  destruct (behavior_text_trimmed b Hb) as (Hne & Hst & Het).
  unfold from_str, rule_to_string. simpl.
  rewrite (proj2 (split_once_Some 61 _ a
             (behavior_to_string b ++ match n with Some c => 42 :: to_string c | None => [] end))) by done.
  rewrite Hcan. rewrite trim_id.
  2: { by apply starts_trimmed_app. }
  2: { destruct n as [c|]; [|by rewrite app_nil_r].
       change (42 :: to_string c) with ([42] ++ to_string c). rewrite app_assoc.
       apply ends_trimmed_app; [apply to_string_nonempty|].
       apply digits_ends_trimmed, to_string_digits. lia. }
  destruct n as [c|].
  - rewrite split_count_print by done. simpl. by rewrite parse_behavior_print.
  - rewrite app_nil_r, split_count_plain by auto. simpl. by rewrite parse_behavior_print.
Qed.

(** Whatever text parses as a rule gives a well-formed rule (a known action, a
    positive count, a delay of at most an hour, a standard error code), and the compact
    form of that rule parses back to the same rule. *)
Theorem rule_roundtrip (text : str) (r : ResponseRule) :
  from_str text = Ok r -> rule_ok r /\ from_str (rule_to_string r) = Ok r.
Proof.
  unfold from_str at 1. destruct (split_once 61 text) as [[name rest]|] eqn:E; [|done].
  destruct (canonical_action name) as [a|] eqn:Ha; [|done].
  destruct (split_count (trim rest)) as [[b n]|] eqn:Hs; [|done]. simpl.
  destruct (parse_behavior b) as [beh|] eqn:Hb; [|done]. intros [= <-].
  apply canonical_action_In in Ha. destruct (trim_trimmed rest) as [_ Hend].
  apply split_count_Ok in Hs as [(-> & -> & Hc)|(c & u & v & -> & _ & -> & Hc)].
  2: { apply parse_behavior_Ok in Hb as [Hb _]; [|apply trim_end_trimmed].
       assert (rule_ok (mk a beh (Some c))) as Hok by by split_and!.
       split; [done|]. by apply from_str_print. }
  apply parse_behavior_Ok in Hb as [Hb Ht]; [|done].
  assert (rule_ok (mk a beh None)) as Hok by by split_and!.
  split; [done|]. apply from_str_print; [done|]. intros _. cbn [behavior].
  destruct beh as [|ms|code [t|]| |]; try (by apply not_counted; rewrite <- split_once_None).
  - apply not_counted. unfold behavior_to_string. rewrite elem_of_app. intros [H|H].
    + apply list_elem_of_In in H. vm_compute in H. intuition lia.
    + simpl in Hb. revert H. apply digits_no_char; [done|]. apply to_string_digits. lia.
  - destruct (Ht code t eq_refl) as [p Hp]. unfold behavior_to_string.
    destruct (decide (42 ∈ t)) as [Hin|Hn].
    + change (58 :: t) with ([58] ++ t). rewrite !app_assoc.
      rewrite counted_suffix, <- (counted_suffix p t), <- Hp; done.
    + apply not_counted. destruct Hb as [Hcode _].
      destruct (standard_code code Hcode) as (_ & H42 & _).
      rewrite !elem_of_app, elem_of_cons. intros [H|[H|[H|H]]]; try done.
      apply list_elem_of_In in H. vm_compute in H. intuition lia.
  - apply not_counted. destruct Hb as [Hcode _].
    destruct (standard_code code Hcode) as (_ & H42 & _).
    unfold behavior_to_string. rewrite app_nil_r, elem_of_app. intros [H|H]; [|done].
    apply list_elem_of_In in H. vm_compute in H. intuition lia.
Qed.

Lemma rule_roundtrip_witness :
  from_str (lit "reset = error:genericerror: try * later *2")
    = Ok (mk (lit "Reset") (Error ErrorCode.GenericError (Some (lit "try * later"))) (Some 2)) /\
  from_str (rule_to_string
    (mk (lit "Reset") (Error ErrorCode.GenericError (Some (lit "try * later"))) (Some 2)))
    = Ok (mk (lit "Reset") (Error ErrorCode.GenericError (Some (lit "try * later"))) (Some 2)).
Proof.
  split; [vm_compute; reflexivity|].
  eapply (rule_roundtrip (lit "reset = error:genericerror: try * later *2")).
  vm_compute. reflexivity.
Defined.

(** A rule built by other means need not survive its compact form: an error text that ends
    in a star and digits reads as a count. *)
Example compact_form_ambiguous :
  let r := mk (lit "Reset") (Error ErrorCode.GenericError (Some (lit "x*5"))) None in
  rule_ok r /\
  from_str (rule_to_string r)
    = Ok (mk (lit "Reset") (Error ErrorCode.GenericError (Some (lit "x"))) (Some 5)).
Proof.
  split; [|vm_compute; reflexivity]. split; [vm_compute; tauto|].
  split; [|exact I]. split; [vm_compute; tauto|]. by split_and!.
Qed.

(** ** Counted applications *)

Lemma take_rule_absent l name :
  (forall r, In r l -> action r <> name) -> take_rule l name = (l, None).
Proof.
  intros H. unfold take_rule.
  rewrite (proj2 (position_None (fun r => action r == name) l)); [done|].
  intros r Hr. apply eqb_ne. auto.
Qed.

Lemma take_rule_present l1 r l2 name :
  action r = name -> (forall x, In x l1 -> action x <> name) ->
  take_rule (l1 ++ r :: l2) name =
  (match remaining r with
   | None => l1 ++ r :: l2
   | Some n =>
       if n <=? 1 then l1 ++ l2 else l1 ++ (r <| remaining := Some (n - 1) |>) :: l2
   end, Some (behavior r)).
Proof.
  intros <- H. unfold take_rule. rewrite position_middle; [|intros x Hx; by apply eqb_ne, H|apply eqb_refl].
  rewrite list_lookup_middle by done. destruct (remaining r) as [n|]; [|done].
  rewrite insert_app_r_alt, Nat.sub_diag by done. simpl.
  destruct (n <=? 1) eqn:E; bool_facts.
  - rewrite (proj2 (Z.eqb_eq (Z.max (n - 1) 0) 0)) by lia. by rewrite remove_at_middle.
  - rewrite (proj2 (Z.eqb_neq (Z.max (n - 1) 0) 0)) by lia. by rewrite Z.max_l by lia.
Qed.

Lemma takes_absent m l name :
  (forall r, In r l -> action r <> name) -> takes m l name = (l, replicate m None).
Proof.
  intros H. induction m as [|m IH]; simpl; [done|].
  rewrite take_rule_absent by done. by rewrite IH.
Qed.

(** Of [m] consecutive CALLs of an action that has a rule, exactly the first
    [remaining] get the rule's behavior (all of them for an unlimited rule); the others are
    handled normally, the rule being gone, and the rules of the other actions stay as they
    are. *)
Theorem take_rule_counted (l1 l2 : list ResponseRule) (r : ResponseRule) (m : nat) :
  (forall x, In x (l1 ++ l2) -> action x <> action r) ->
  match remaining r with Some n => 1 <= n | None => True end ->
  let n := match remaining r with Some n => Z.to_nat n | None => m end in
  (takes m (l1 ++ r :: l2) (action r)).2 =
    replicate (Nat.min m n) (Some (behavior r)) ++ replicate (m - n) None /\
  retain (fun x => action x != action r) (takes m (l1 ++ r :: l2) (action r)).1 = l1 ++ l2.
Proof.
  intros Hother. assert (forall x, In x l1 -> action x <> action r) as Hl1.
  { intros x Hx. apply Hother, in_or_app. by left. }
  assert (Hl : retain (fun x => action x != action r) (l1 ++ l2) = l1 ++ l2).
  { apply retain_all. intros x Hx. by rewrite (eqb_ne _ _ (Hother x Hx)). }
  assert (Hr : forall r', action r' = action r ->
            retain (fun x => action x != action r) (l1 ++ r' :: l2) = l1 ++ l2).
  { intros r' E. etransitivity; [|exact Hl]. rewrite !List.filter_app. simpl. by rewrite E, eqb_refl. }
  destruct r as [a b [n|]]; cbn [remaining action behavior] in *; intros Hn; cbn zeta.
  - revert n Hn Hr. induction m as [|m IH]; intros n Hn Hr; [split; [done|]; by apply Hr|].
    simpl takes. rewrite (take_rule_present l1 (mk a b (Some n)) l2 a) by done. cbn [remaining].
    destruct (n <=? 1) eqn:E; bool_facts.
    + rewrite takes_absent by done. cbn [fst snd]. split; [|done].
      replace (Nat.min (S m) (Z.to_nat n)) with 1%nat by lia.
      by replace (S m - Z.to_nat n)%nat with m by lia.
    + destruct (IH (n - 1) ltac:(lia) Hr) as [IH1 IH2].
      cbn [action] in *. simpl over. simpl in IH1, IH2.
      destruct (takes m _ a) as [rules bs] eqn:Et. cbn [fst snd] in *.
      split; [|exact IH2]. rewrite IH1.
      replace (Z.to_nat n) with (S (Z.to_nat (n - 1))) by lia. done.
  - induction m as [|m IH]; [split; [done|]; by apply Hr|].
    simpl takes. rewrite (take_rule_present l1 (mk a b None) l2 a) by done. cbn [remaining].
    cbn [action behavior] in *.
    destruct (takes m _ a) as [rules bs] eqn:Et. cbn [fst snd] in *.
    destruct IH as [IH1 IH2]. split; [|exact IH2]. rewrite IH1.
    rewrite !Nat.min_id, !Nat.sub_diag. done.
Qed.

Lemma take_rule_counted_witness :
  (takes 3 [mk (lit "Reset") Drop (Some 2); mk (lit "GetLog") Ignore None] (lit "Reset")).2
  = [Some Drop; Some Drop; None].
Proof.
  refine (proj1 (take_rule_counted [] [mk (lit "GetLog") Ignore None]
                   (mk (lit "Reset") Drop (Some 2)) 3 _ _)).
  - intros x [<-|[]]. vm_compute. discriminate.
  - vm_compute. discriminate.
Defined.
End ResponseRules.
Export (hints) ResponseRules.
