(* ===== verification/Config.v ===== *)
(** * Config: the configuration of a station

    [config.rs]: the station configuration with its defaults, the reconnect policy, the
    validation a station start relies on. Paths are strings; the URL parser is code outside
    the repository and is the class [UrlParser]. *)

From stdpp Require Import strings.
From S2P Require Import Prelude Text Time Types Frame Actions ResponseRules.
Local Open Scope Z_scope.

Definition MAX_CALL_TIMEOUT_MS : Z := 24 * 60 * 60 * 1000.

Module defaults.
Definition CHARGE_POINT_ID : str := lit "CP-001".
Definition VENDOR : str := lit "archhaze24".
Definition MODEL : str := lit "KIRBY".
Definition HEARTBEAT_INTERVAL_SECS : Z := 30.
Definition WS_SUBPROTOCOL : str := lit "ocpp1.6".
Definition WS_PING_INTERVAL_SECS : Z := 30.
Definition RECONNECT_INITIAL_MS : Z := 1000.
Definition RECONNECT_MAX_MS : Z := 30000.
Definition CALL_TIMEOUT_MS : Z := 30000.
Definition NOMINAL_POWER_W : Z := 7200.
Definition VOLTAGE_V : Z := 230.
Definition PHASES : Z := 1.
End defaults.

(** ** The reconnect policy *)

Module ReconnectConfig.
Record t : Type := mk {
  enabled : bool;
  initial_delay_ms : Z;
  max_delay_ms : Z;
  max_attempts : Z;
}.
#[export] Instance eta : Eta t := fun r =>
  mk (enabled r) (initial_delay_ms r) (max_delay_ms r) (max_attempts r).
#[export] Instance eq_dec : EqDecision t.
Proof. solve_decision. Defined.

Definition default : t := {|
  enabled := true;
  initial_delay_ms := defaults.RECONNECT_INITIAL_MS;
  max_delay_ms := defaults.RECONNECT_MAX_MS;
  max_attempts := 0;
|}.

Definition delay_for_attempt (r : t) (attempt : Z) : Duration :=
  let exponent := Z.min (saturating_sub attempt 1) 63 in
  let factor := Z.shiftl 1 exponent in
  let millis := Z.min (u64_saturating_mul (initial_delay_ms r) factor) (max_delay_ms r) in
  millis * NS_PER_MS.

Definition allows_attempt (r : t) (attempt : Z) : bool :=
  enabled r && ((max_attempts r =? 0) || (attempt <=? max_attempts r)).
End ReconnectConfig.
Export (hints) ReconnectConfig.

(** ** TLS settings *)

Module TlsConfig.
Record t : Type := mk {
  ca_file : option str;
  cert_file : option str;
  key_file : option str;
  server_name : option str;
  skip_verify : bool;
  (** certificate chain and private key as PEM text *)
  identity_pem : option (str * str);
  extra_roots_pem : list str;
  allow_wildcard_certificates : bool;
}.
#[export] Instance eta : Eta t := fun r =>
  mk (ca_file r) (cert_file r) (key_file r) (server_name r) (skip_verify r) (identity_pem r)
     (extra_roots_pem r) (allow_wildcard_certificates r).
#[export] Instance eq_dec : EqDecision t.
Proof. solve_decision. Defined.

Definition default : t := mk None None None None false None [] false.
End TlsConfig.
Export (hints) TlsConfig.

(** ** The station *)

Module StationConfig.
Record t : Type := mk {
  url : str;
  charge_point_id : str;
  vendor : str;
  model : str;
  serial_number : option str;
  firmware_version : option str;
  initial_connector : ConnectorId;
  connector_count : Z;
  heartbeat_interval_secs : Z;
  ws_subprotocol : str;
  ws_ping_interval_secs : Z;
  reconnect : ReconnectConfig.t;
  call_timeout_ms : Z;
  tls : TlsConfig.t;
  persist : bool;
  state_dir : option str;
  nominal_power_w : Z;
  voltage_v : Z;
  phases : Z;
  response_rules : list ResponseRules.ResponseRule;
  show_secrets : bool;
  additional_root_certificate_check : bool;
}.
#[export] Instance eta : Eta t := fun r =>
  mk (url r) (charge_point_id r) (vendor r) (model r) (serial_number r) (firmware_version r)
     (initial_connector r) (connector_count r) (heartbeat_interval_secs r) (ws_subprotocol r)
     (ws_ping_interval_secs r) (reconnect r) (call_timeout_ms r) (tls r) (persist r)
     (state_dir r) (nominal_power_w r) (voltage_v r) (phases r) (response_rules r)
     (show_secrets r) (additional_root_certificate_check r).

Definition default : t := {|
  url := [];
  charge_point_id := defaults.CHARGE_POINT_ID;
  vendor := defaults.VENDOR;
  model := defaults.MODEL;
  serial_number := None;
  firmware_version := None;
  initial_connector := 1;
  connector_count := 1;
  heartbeat_interval_secs := defaults.HEARTBEAT_INTERVAL_SECS;
  ws_subprotocol := defaults.WS_SUBPROTOCOL;
  ws_ping_interval_secs := defaults.WS_PING_INTERVAL_SECS;
  reconnect := ReconnectConfig.default;
  call_timeout_ms := defaults.CALL_TIMEOUT_MS;
  tls := TlsConfig.default;
  persist := true;
  state_dir := None;
  nominal_power_w := defaults.NOMINAL_POWER_W;
  voltage_v := defaults.VOLTAGE_V;
  phases := defaults.PHASES;
  response_rules := [];
  show_secrets := false;
  additional_root_certificate_check := false;
|}.

Definition call_timeout (c : t) : Duration := call_timeout_ms c * NS_PER_MS.
Definition heartbeat_interval (c : t) : Duration := heartbeat_interval_secs c * NS_PER_SEC.
Definition ws_ping_interval (c : t) : option Duration :=
  if 0 <? ws_ping_interval_secs c then Some (ws_ping_interval_secs c * NS_PER_SEC) else None.
Definition normalize (c : t) : t :=
  c <| connector_count := Z.max (connector_count c) (initial_connector c) |>.
End StationConfig.
Export (hints) StationConfig.

(** ** Validation *)

(** The [url] crate, as far as the source uses it. *)
Class UrlParser : Type := {
  Url : Type;
  url_parse : str -> result Url str;
  url_scheme : Url -> str;
  url_host : Url -> option str;
  cannot_be_a_base : Url -> bool;
  (** the URL after [set_username("")] and [set_password(None)] *)
  without_userinfo : Url -> Url;
  (** [password()], and the URL after [set_username(u)] and [set_password(Some(p))] *)
  url_password : Url -> option str;
  with_userinfo : str -> str -> Url -> Url;
  url_text : Url -> str;
}.

Module Validation.
Import ReconnectConfig StationConfig.

Inductive ConfigError : Type :=
| InvalidUrl (text : str)
| Empty (field : str)
| NotPositive (field : str)
| TooLarge (field : str) (max : Z)
| TlsCertKeyMismatch
| ReconnectBusyLoop
| InvalidPhases
| InvalidResponseRule (rule : str).

Section url.
Context {U : UrlParser}.

(** [s.split_once("://")] *)
Fixpoint split_scheme (s : str) : option (str * str) :=
  match s with
  | 58 :: 47 :: 47 :: rest => Some ([], rest)
  | c :: rest => (fun '(a, b) => (c :: a, b)) <$> split_scheme rest
  | [] => None
  end.

Definition redact_unparsable_url (value : str) : str :=
  let '(scheme, rest) := from_option id ([], value) (split_scheme value) in
  let rest := match rsplit_once 64 rest with Some (_, after) => after | None => rest end in
  if scheme == [] then rest else scheme ++ lit "://" ++ rest.

Definition redact_url (value : str) : str :=
  match url_parse value with
  | Ok parsed =>
      if cannot_be_a_base parsed then redact_unparsable_url value
      else url_text (without_userinfo parsed)
  | Err _ => redact_unparsable_url value
  end.

Definition validate_ws_url (value : str) : result unit str :=
  match url_parse value with
  | Err e => Err (lit "invalid URL `" ++ redact_url value ++ lit "`: " ++ e)
  | Ok url =>
      let shown := redact_url value in
      if negb ((url_scheme url == lit "ws") || (url_scheme url == lit "wss"))
      then Err (lit "`" ++ shown ++ lit "` must use the ws:// or wss:// scheme")
      else if is_none_or (fun h => h == []) (url_host url)
      then Err (lit "`" ++ shown ++ lit "` has no host")
      else Ok tt
  end.

(** [StationConfig::validate] *)
Definition validate (c : StationConfig.t) : result unit ConfigError :=
  match validate_ws_url (url c) with
  | Err e => Err (InvalidUrl e)
  | Ok _ =>
      let! _ := try_each
        (fun '(field, value) => if value == [] then Err (Empty field) else Ok tt)
        [(lit "charge_point_id", charge_point_id c); (lit "vendor", vendor c);
         (lit "model", model c); (lit "ws_subprotocol", ws_subprotocol c)] in
      let! _ := try_each
        (fun '(field, value) => if value =? 0 then Err (NotPositive field) else Ok tt)
        [(lit "connector_count", connector_count c);
         (lit "initial_connector", initial_connector c);
         (lit "heartbeat_interval_secs", heartbeat_interval_secs c);
         (lit "call_timeout_ms", call_timeout_ms c);
         (lit "nominal_power_w", nominal_power_w c);
         (lit "voltage_v", voltage_v c)] in
      if MAX_CALL_TIMEOUT_MS <? call_timeout_ms c
      then Err (TooLarge (lit "call_timeout_ms") MAX_CALL_TIMEOUT_MS)
      else if negb ((1 <=? phases c) && (phases c <=? 3)) then Err InvalidPhases
      else if is_someb (TlsConfig.cert_file (tls c)) != is_someb (TlsConfig.key_file (tls c))
      then Err TlsCertKeyMismatch
      else if enabled (reconnect c) && (max_attempts (reconnect c) =? 0)
              && (Z.min (initial_delay_ms (reconnect c)) (max_delay_ms (reconnect c)) =? 0)
      then Err ReconnectBusyLoop
      else try_each
        (fun rule =>
           if negb (ResponseRules.canonical_action (ResponseRules.action rule)
                    == Ok (ResponseRules.action rule))
              || (ResponseRules.remaining rule == Some 0)
           then Err (InvalidResponseRule (ResponseRules.rule_to_string rule))
           else Ok tt) (response_rules c)
  end.
End url.
End Validation.

(** ** What the policy and the validation guarantee *)

(** The unsigned fields of a configuration. *)
Definition reconnect_width (r : ReconnectConfig.t) : Prop :=
  is_u64 (ReconnectConfig.initial_delay_ms r) /\ is_u64 (ReconnectConfig.max_delay_ms r) /\
  is_u32 (ReconnectConfig.max_attempts r).

Definition config_width (c : StationConfig.t) : Prop :=
  reconnect_width (StationConfig.reconnect c) /\ is_u32 (StationConfig.connector_count c) /\
  is_u32 (StationConfig.initial_connector c) /\ is_u32 (StationConfig.heartbeat_interval_secs c) /\
  is_u64 (StationConfig.call_timeout_ms c) /\ is_u32 (StationConfig.nominal_power_w c) /\
  is_u32 (StationConfig.voltage_v c) /\ is_u8 (StationConfig.phases c).

Section config_lemmas.
Import ReconnectConfig StationConfig Validation.

(** The delay before attempt [n] is the initial delay doubled [n - 1] times and
    capped by the maximum, computed without overflow for every attempt number; the doubling
    stops at the 63rd, which no maximum of at most 2^63 ms can notice. *)
Theorem delay_for_attempt_backoff (r : ReconnectConfig.t) (attempt : Z) :
  reconnect_width r -> 1 <= attempt -> max_delay_ms r <= 2 ^ 63 ->
  delay_for_attempt r attempt =
    Z.min (initial_delay_ms r * 2 ^ (attempt - 1)) (max_delay_ms r) * NS_PER_MS.
Proof.
  intros (Hi & Hm & _) Ha Hmax. unfold is_u64, u64_max in *.
  unfold delay_for_attempt, saturating_sub, u64_saturating_mul, u64_max.
  rewrite Z.shiftl_1_l, (Z.max_l (attempt - 1)) by lia. f_equal.
  destruct (Z.le_gt_cases (attempt - 1) 63) as [Hle|Hgt]; [rewrite (Z.min_l (attempt - 1) 63) by lia; lia|].
  rewrite (Z.min_r (attempt - 1) 63) by lia.
  assert (2 ^ 63 <= 2 ^ (attempt - 1)) by (apply Z.pow_le_mono_r; lia).
  destruct (Z.eq_dec (initial_delay_ms r) 0) as [->|]; [done|].
  rewrite !(Z.min_r _ (max_delay_ms r)); nia.
Qed.

Lemma delay_for_attempt_witness :
  delay_for_attempt ReconnectConfig.default 3 = 4000 * NS_PER_MS.
Proof.
  rewrite (delay_for_attempt_backoff ReconnectConfig.default 3); [reflexivity|..].
  - repeat split; vm_compute; discriminate.
  - lia.
  - vm_compute. discriminate.
Defined.

Lemma delay_positive r attempt :
  reconnect_width r -> 1 <= initial_delay_ms r -> 1 <= max_delay_ms r ->
  NS_PER_MS <= delay_for_attempt r attempt.
Proof.
  intros _ Hi Hm. unfold delay_for_attempt, u64_saturating_mul. rewrite Z.shiftl_1_l.
  set (e := Z.min _ 63). assert (1 <= 2 ^ e).
  { rewrite <- (Z.pow_0_r 2). apply Z.pow_le_mono_r; [lia|].
    unfold e, saturating_sub. lia. }
  unfold NS_PER_MS, u64_max. nia.
Qed.

Lemma canonical_inbound a :
  ResponseRules.canonical_action a = Ok a -> In a ResponseRules.INBOUND_ACTIONS.
Proof. apply ResponseRules.canonical_action_In. Qed.

(** A configuration that passes the validation has named fields and positive
    sizes, a call timeout between 1 ms and 24 hours, one to three phases, a client
    certificate exactly when it has a key, rules that only name inbound commands with
    applications left, and never reconnects in a busy loop: when reconnecting is unlimited,
    every attempt waits at least one millisecond. *)
Theorem validate_sound {U : UrlParser} (c : StationConfig.t) :
  config_width c -> validate c = Ok tt ->
  charge_point_id c <> [] /\ vendor c <> [] /\ model c <> [] /\ ws_subprotocol c <> [] /\
  1 <= connector_count c /\ 1 <= initial_connector c /\ 1 <= heartbeat_interval_secs c /\
  1 <= call_timeout_ms c <= MAX_CALL_TIMEOUT_MS /\
  1 <= nominal_power_w c /\ 1 <= voltage_v c /\ 1 <= phases c <= 3 /\
  (is_Some (TlsConfig.cert_file (tls c)) <-> is_Some (TlsConfig.key_file (tls c))) /\
  (forall rule, In rule (response_rules c) ->
     In (ResponseRules.action rule) ResponseRules.INBOUND_ACTIONS /\
     ResponseRules.remaining rule <> Some 0) /\
  (enabled (reconnect c) = true -> max_attempts (reconnect c) = 0 ->
   forall attempt, NS_PER_MS <= delay_for_attempt (reconnect c) attempt).
Proof.
  intros (Hr & Hw) H. unfold validate in H. destruct (validate_ws_url _); [|done].
  destruct (try_each _ _) as [[]|] eqn:E1 in H; [|done].
  destruct (try_each _ _) as [[]|] eqn:E2 in H; [|done].
  rewrite try_each_Ok in E1. rewrite try_each_Ok in E2.
  destruct (_ <? _) eqn:E3 in H; [done|]. destruct (negb _) eqn:E4 in H; [done|].
  destruct (_ != _) eqn:E5 in H; [done|]. destruct (_ && _ && _) eqn:E6 in H; [done|].
  rewrite try_each_Ok in H. bool_facts.
  match type of E1 with forall x, In x ?l -> _ => assert (Hn : forall f v, In (f, v) l -> v <> []) end.
  { intros f v Hin. specialize (E1 _ Hin). cbn in E1. destruct (v == []) eqn:E; [done|].
    by rewrite eqb_false in E. }
  match type of E2 with forall x, In x ?l -> _ => assert (Hp : forall f v, In (f, v) l -> v <> 0) end.
  { intros f v Hin. specialize (E2 _ Hin). cbn in E2. destruct (v =? 0) eqn:E; [done|].
    by bool_facts. }
  clear E1 E2.
  unfold is_u32, is_u64, is_u8 in *.
  assert (connector_count c <> 0 /\ initial_connector c <> 0 /\ heartbeat_interval_secs c <> 0
          /\ call_timeout_ms c <> 0 /\ nominal_power_w c <> 0 /\ voltage_v c <> 0) as Hz
    by (split_and!; eapply Hp; simpl; tauto).
  split_and!; try (eapply Hn; simpl; tauto); try lia.
  - destruct (TlsConfig.cert_file _), (TlsConfig.key_file _); simpl in E5; try done;
      split; intros; by eexists.
  - intros rule Hin. specialize (H _ Hin). cbn beta in H.
    destruct (_ || _) eqn:E in H; [done|]. bool_facts.
    split; [by apply canonical_inbound|done].
  - intros He Hm attempt. rewrite He, Hm in E6. simpl in E6. bool_facts.
    apply delay_positive; [done|..]; destruct Hr as (? & ? & _); unfold is_u64 in *; lia.
Qed.
End config_lemmas.

(** A parser that takes every text for a [ws] URL of one host. *)
Definition any_url : UrlParser := {|
  Url := str;
  url_parse s := Ok s;
  url_scheme _ := lit "ws";
  url_host _ := Some (lit "csms");
  cannot_be_a_base _ := false;
  without_userinfo s := s;
  url_password _ := None;
  with_userinfo _ _ s := s;
  url_text s := s;
|}.

Lemma validate_sound_witness :
  Validation.validate (U:=any_url) StationConfig.default = Ok tt /\
  (forall attempt,
     NS_PER_MS <= ReconnectConfig.delay_for_attempt ReconnectConfig.default attempt).
Proof.
  split; [vm_compute; reflexivity|].
  refine (proj2 (proj2 (proj2 (proj2 (proj2 (proj2 (proj2 (proj2 (proj2 (proj2 (proj2 (proj2
            (proj2 (@validate_sound any_url StationConfig.default _ _))))))))))))) _ _).
  - repeat split; vm_compute; discriminate.
  - vm_compute. reflexivity.
  - reflexivity.
  - reflexivity.
Defined.

(** The text before the last [@] is dropped only after the first [://]; userinfo in front of
    it stays. *)
Example redaction_keeps_userinfo :
  Validation.redact_unparsable_url (lit "user:secret@host://x") = lit "user:secret@host://x".
Proof. vm_compute. reflexivity. Qed.
