(* ===== verification/ConfigRegistry.v ===== *)
(** * ConfigRegistry: the OCPP configuration keys

    [station/config_registry.rs]: the keys of a station with their types, bounds and defaults,
    [GetConfiguration], [ChangeConfiguration], the snapshot of the writable values and its
    restoration, the typed accessors the rest of the station reads. *)

From stdpp Require Import strings.
From S2P Require Import Prelude Text Time Types ResponseRules Config.
Local Open Scope Z_scope.

Module ConfigRegistry.

Definition ALLOW_OFFLINE_TX_FOR_UNKNOWN_ID : str := lit "AllowOfflineTxForUnknownId".
Definition AUTHORIZATION_CACHE_ENABLED : str := lit "AuthorizationCacheEnabled".
Definition AUTHORIZATION_KEY : str := lit "AuthorizationKey".
Definition AUTHORIZE_REMOTE_TX_REQUESTS : str := lit "AuthorizeRemoteTxRequests".
Definition BLINK_REPEAT : str := lit "BlinkRepeat".
Definition CERTIFICATE_SIGNED_MAX_CHAIN_SIZE : str := lit "CertificateSignedMaxChainSize".
Definition CERTIFICATE_STORE_MAX_LENGTH : str := lit "CertificateStoreMaxLength".
Definition ADDITIONAL_ROOT_CERTIFICATE_CHECK : str := lit "AdditionalRootCertificateCheck".
Definition CPO_NAME : str := lit "CpoName".
Definition SECURITY_PROFILE : str := lit "SecurityProfile".
Definition ALLOW_SECURITY_PROFILE_DOWNGRADE : str := lit "AllowSecurityProfileDowngrade".
Definition ALLOW_CENTRAL_SYSTEM_TLS_WILDCARDS : str := lit "AllowCentralSystemTLSWildcards".
Definition CERT_SIGNING_WAIT_MINIMUM : str := lit "CertSigningWaitMinimum".
Definition CERT_SIGNING_REPEAT_TIMES : str := lit "CertSigningRepeatTimes".
Definition CHARGE_POINT_MODEL : str := lit "ChargePointModel".
Definition CHARGE_POINT_SERIAL_NUMBER : str := lit "ChargePointSerialNumber".
Definition CHARGE_POINT_VENDOR : str := lit "ChargePointVendor".
Definition CHARGE_PROFILE_MAX_STACK_LEVEL : str := lit "ChargeProfileMaxStackLevel".
Definition CHARGING_SCHEDULE_ALLOWED_CHARGING_RATE_UNIT : str := lit "ChargingScheduleAllowedChargingRateUnit".
Definition CHARGING_SCHEDULE_MAX_PERIODS : str := lit "ChargingScheduleMaxPeriods".
Definition CLOCK_ALIGNED_DATA_INTERVAL : str := lit "ClockAlignedDataInterval".
Definition CONNECTION_TIME_OUT : str := lit "ConnectionTimeOut".
Definition CONNECTOR_PHASE_ROTATION : str := lit "ConnectorPhaseRotation".
Definition CONNECTOR_PHASE_ROTATION_MAX_LENGTH : str := lit "ConnectorPhaseRotationMaxLength".
Definition CONNECTOR_SWITCH_3TO1_PHASE_SUPPORTED : str := lit "ConnectorSwitch3to1PhaseSupported".
Definition GET_CONFIGURATION_MAX_KEYS : str := lit "GetConfigurationMaxKeys".
Definition HEARTBEAT_INTERVAL : str := lit "HeartbeatInterval".
Definition LIGHT_INTENSITY : str := lit "LightIntensity".
Definition LOCAL_AUTH_LIST_ENABLED : str := lit "LocalAuthListEnabled".
Definition LOCAL_AUTH_LIST_MAX_LENGTH : str := lit "LocalAuthListMaxLength".
Definition LOCAL_AUTHORIZE_OFFLINE : str := lit "LocalAuthorizeOffline".
Definition LOCAL_PRE_AUTHORIZE : str := lit "LocalPreAuthorize".
Definition MAX_CHARGING_PROFILES_INSTALLED : str := lit "MaxChargingProfilesInstalled".
Definition MAX_ENERGY_ON_INVALID_ID : str := lit "MaxEnergyOnInvalidId".
Definition METER_VALUES_ALIGNED_DATA : str := lit "MeterValuesAlignedData".
Definition METER_VALUES_ALIGNED_DATA_MAX_LENGTH : str := lit "MeterValuesAlignedDataMaxLength".
Definition METER_VALUES_SAMPLED_DATA : str := lit "MeterValuesSampledData".
Definition METER_VALUES_SAMPLED_DATA_MAX_LENGTH : str := lit "MeterValuesSampledDataMaxLength".
Definition METER_VALUE_SAMPLE_INTERVAL : str := lit "MeterValueSampleInterval".
Definition MINIMUM_STATUS_DURATION : str := lit "MinimumStatusDuration".
Definition NUMBER_OF_CONNECTORS : str := lit "NumberOfConnectors".
Definition RESERVE_CONNECTOR_ZERO_SUPPORTED : str := lit "ReserveConnectorZeroSupported".
Definition RESET_RETRIES : str := lit "ResetRetries".
Definition SEND_LOCAL_LIST_MAX_LENGTH : str := lit "SendLocalListMaxLength".
Definition STOP_TRANSACTION_ON_EV_SIDE_DISCONNECT : str := lit "StopTransactionOnEVSideDisconnect".
Definition STOP_TRANSACTION_ON_INVALID_ID : str := lit "StopTransactionOnInvalidId".
Definition STOP_TXN_ALIGNED_DATA : str := lit "StopTxnAlignedData".
Definition STOP_TXN_ALIGNED_DATA_MAX_LENGTH : str := lit "StopTxnAlignedDataMaxLength".
Definition STOP_TXN_SAMPLED_DATA : str := lit "StopTxnSampledData".
Definition STOP_TXN_SAMPLED_DATA_MAX_LENGTH : str := lit "StopTxnSampledDataMaxLength".
Definition SUPPORTED_FEATURE_PROFILES : str := lit "SupportedFeatureProfiles".
Definition SUPPORTED_FEATURE_PROFILES_MAX_LENGTH : str := lit "SupportedFeatureProfilesMaxLength".
Definition TRANSACTION_MESSAGE_ATTEMPTS : str := lit "TransactionMessageAttempts".
Definition TRANSACTION_MESSAGE_RETRY_INTERVAL : str := lit "TransactionMessageRetryInterval".
Definition UNLOCK_CONNECTOR_ON_EV_SIDE_DISCONNECT : str := lit "UnlockConnectorOnEVSideDisconnect".
Definition WEB_SOCKET_PING_INTERVAL : str := lit "WebSocketPingInterval".

Definition FEATURE_PROFILES : list str :=
  [lit "Core"; lit "FirmwareManagement"; lit "LocalAuthListManagement"; lit "Reservation";
   lit "RemoteTrigger"; lit "SmartCharging"].

Definition PHASE_ROTATIONS : list str :=
  [lit "NotApplicable"; lit "Unknown"; lit "RST"; lit "RTS"; lit "SRT"; lit "STR";
   lit "TRS"; lit "TSR"].

Definition DEFAULT_SAMPLED_DATA : list Measurand.t :=
  [Measurand.EnergyActiveImportRegister; Measurand.PowerActiveImport;
   Measurand.CurrentImport; Measurand.Voltage; Measurand.Temperature; Measurand.SoC].

Definition STACK_LEVEL_LIMIT : Z := 10.
Definition SCHEDULE_PERIOD_LIMIT : Z := 24.
Definition PROFILES_INSTALLED_LIMIT : Z := 10.
Definition LOCAL_LIST_LIMIT : Z := 1000.
Definition SEND_LOCAL_LIST_LIMIT : Z := 1000.
Definition GET_CONFIGURATION_KEY_LIMIT : Z := 50.

(** ** Values *)

(** Trimmed, non-empty items of a comma-separated value. *)
Definition list_items (value : str) : list str :=
  retain (fun item => item != []) (map trim (split_on 44 value)).

(** Digits only, in the range of an [i32]. *)
Definition parse_int (value : str) : option Z :=
  if (value == []) || negb (all is_ascii_digit value) then None else parse_i32 value.

Definition is_phase_rotation (rotation : str) : bool :=
  any (fun r => r == rotation) PHASE_ROTATIONS.

(** [<rotation>] or [<connectorId>.<rotation>] *)
Definition is_phase_rotation_item (item : str) : bool :=
  match split_once 46 item with
  | Some (connector, rotation) =>
      if (connector == []) || negb (all is_ascii_digit connector) then false
      else is_phase_rotation rotation
  | None => is_phase_rotation item
  end.

Definition is_ok {A E} (r : result A E) : bool := match r with Ok _ => true | Err _ => false end.
Definition ok {A E} (r : result A E) : option A := match r with Ok a => Some a | Err _ => None end.

Definition measurand_from_str (s : str) : result Measurand.t ParseEnumError := parse_enum s.

Inductive Kind : Type :=
| Text | Boolean | NonNegativeInt | PositiveInt | Measurands | PhaseRotations
| SecurityProfile | Secret | Name.

#[export] Instance kind_eq_dec : EqDecision Kind.
Proof. solve_decision. Defined.

Definition kind_hint (k : Kind) : str :=
  match k with
  | Text => lit "read-only"
  | Boolean => lit "true or false"
  | NonNegativeInt => lit "integer, 0 or more"
  | PositiveInt => lit "integer, 1 or more"
  | Measurands => lit "comma-separated measurand names"
  | PhaseRotations => lit "comma-separated phase rotations (RST, 1.RST, ...)"
  | SecurityProfile => lit "0, 1, 2 or 3; can only be raised"
  | Secret => lit "write-only; 16 to 40 printable ASCII characters"
  | Name => lit "text, at most 50 characters"
  end.

Definition non_empty_all (p : str -> bool) (items : list str) : bool :=
  match items with [] => false | _ => all p items end.

Definition accepts (k : Kind) (value : str) : bool :=
  match k with
  | Text => true
  | Boolean => (value == lit "true") || (value == lit "false")
  | NonNegativeInt => is_some_and (fun n => 0 <=? n) (parse_int value)
  | PositiveInt => is_some_and (fun n => 1 <=? n) (parse_int value)
  | Measurands =>
      non_empty_all (fun item => is_ok (measurand_from_str item)) (list_items value)
  | PhaseRotations => non_empty_all is_phase_rotation_item (list_items value)
  | SecurityProfile => is_some_and (fun n => (0 <=? n) && (n <=? 3)) (parse_int value)
  | Secret =>
      ((16 <=? byte_len value) && (byte_len value <=? 40)) && all is_ascii_graphic value
  | Name => chars_count value <=? 50
  end.

(** ** Entries *)

Record ConfigEntry : Type := mk_entry {
  key : str;
  readonly : bool;
  entry_value : str;
  kind : Kind;
  max_items_key : option str;
}.
#[export] Instance entry_eta : Eta ConfigEntry := fun e =>
  mk_entry (key e) (readonly e) (entry_value e) (kind e) (max_items_key e).
#[export] Instance entry_eq_dec : EqDecision ConfigEntry.
Proof. solve_decision. Defined.

Definition secret (e : ConfigEntry) : bool := kind e == Secret.
Definition display_value (e : ConfigEntry) : str :=
  if secret e && (entry_value e != []) then lit "********" else entry_value e.
Definition hint (e : ConfigEntry) : str :=
  if readonly e then lit "read-only" else kind_hint (kind e).

Definition writable (name : str) (k : Kind) (value : str) : ConfigEntry :=
  mk_entry name false value k None.
Definition writable_list (name : str) (k : Kind) (max_key value : str) : ConfigEntry :=
  (writable name k value) <| max_items_key := Some max_key |>.
Definition read_only (name value : str) : ConfigEntry := mk_entry name true value Text None.

(** ** The registry *)

Record t : Type := mk { entries : list ConfigEntry; connector_count : Z }.
#[export] Instance eta : Eta t := fun r => mk (entries r) (connector_count r).

Definition index_of (r : t) (name : str) : option nat :=
  position (fun entry => eq_ignore_ascii_case (key entry) name) (entries r).

Definition get (r : t) (name : str) : option ConfigEntry :=
  index_of r name ≫= fun index => entries r !! index.

Definition value (r : t) (name : str) : option str := entry_value <$> get r name.

Definition number (r : t) (name : str) : Z :=
  from_option id 0 (value r name ≫= parse_u32).

Definition boolean (r : t) (name : str) : bool := value r name == Some (lit "true").

(** [usize::try_from] of a [u32] never fails. *)
Definition count_limit (r : t) (max_key : str) : Z := number r max_key.

Definition set_value (index : nat) (v : str) (r : t) : t :=
  r <| entries ::= fun l =>
         match l !! index with
         | Some e => <[index := e <| entry_value := v |>]> l
         | None => l
         end |>.

Definition check (r : t) (name v : str) : ConfigurationStatus.t :=
  match get r name with
  | None => ConfigurationStatus.NotSupported
  | Some entry =>
      let fits := is_none_or (fun max_key => len (list_items v) <=? count_limit r max_key)
                    (max_items_key entry) in
      if readonly entry || negb (accepts (kind entry) v) || negb fits
      then ConfigurationStatus.Rejected
      else ConfigurationStatus.Accepted
  end.

Definition change (r : t) (name v : str) : t * ConfigurationStatus.t :=
  let status := check r name v in
  match status, index_of r name with
  | ConfigurationStatus.Accepted, Some index => (set_value index v r, status)
  | _, _ => (r, status)
  end.

Record TooManyKeys : Type := { requested : Z; max : Z }.
Record ConfigurationReport : Type := {
  configuration_key : list ConfigEntry;
  unknown_key : list str;
}.

Definition get_configuration (r : t) (names : list str)
  : result ConfigurationReport TooManyKeys :=
  match names with
  | [] => Ok {| configuration_key := entries r; unknown_key := [] |}
  | _ =>
      let max := number r GET_CONFIGURATION_MAX_KEYS in
      if max <? len names then Err {| requested := len names; max := max |}
      else Ok
        {| configuration_key := omap (get r) names;
           unknown_key := retain (fun name => negb (is_someb (get r name))) names |}
  end.

Definition set_internal (r : t) (name v : str) : t :=
  match index_of r name with
  | Some index => set_value index v r
  | None => r
  end.

(** Connector ids that have an entry in [ConnectorPhaseRotation]. *)
Definition covered_connectors (current : str) : list Z :=
  omap (fun item => split_once 46 item ≫= fun '(connector, _) => parse_u32 connector)
    (list_items current).

Definition set_connector_count (r : t) (count : Z) : t :=
  if count <=? connector_count r then r
  else
    let r := r <| connector_count := count |> in
    let r := set_internal r NUMBER_OF_CONNECTORS (to_string count) in
    let r := set_internal r CONNECTOR_PHASE_ROTATION_MAX_LENGTH (to_string (count + 1)) in
    match value r CONNECTOR_PHASE_ROTATION with
    | None => r
    | Some current =>
        let covered := covered_connectors current in
        match covered with
        | [] => r
        | _ =>
            let added :=
              map (fun id => to_string id ++ lit ".Unknown")
                (retain (fun id => negb (any (Z.eqb id) covered)) (seqZ 1 count)) in
            set_internal r CONNECTOR_PHASE_ROTATION (join 44 (list_items current ++ added))
        end
    end.

(** ** Persistence *)

Definition ConfigSnapshot : Type := gmap str str.

Definition snapshot (r : t) : ConfigSnapshot :=
  list_to_map (map (fun e => (key e, entry_value e))
                 (retain (fun e => negb (readonly e) && negb (secret e)) (entries r))).

Fixpoint restore_values (r : t) (values : list (str * str)) (skipped : list str)
  : t * list str :=
  match values with
  | [] => (r, skipped)
  | (name, v) :: values =>
      let '(r, status) := change r name v in
      restore_values r values
        (if status != ConfigurationStatus.Accepted then skipped ++ [name] else skipped)
  end.

Definition restore (r : t) (s : ConfigSnapshot) : t * list str :=
  restore_values r (btree_iter s) [].

(** ** Typed accessors *)

Definition heartbeat_interval_secs (r : t) : Z :=
  number r HEARTBEAT_INTERVAL.
Definition web_socket_ping_interval (r : t) : option Duration :=
  let secs := number r WEB_SOCKET_PING_INTERVAL in
  if 0 <? secs then Some (secs * NS_PER_SEC) else None.
Definition transaction_message_attempts (r : t) : Z :=
  Z.max (number r TRANSACTION_MESSAGE_ATTEMPTS) 1.
Definition transaction_message_retry_interval (r : t) : Duration :=
  number r TRANSACTION_MESSAGE_RETRY_INTERVAL * NS_PER_SEC.
Definition minimum_status_duration (r : t) : Duration :=
  number r MINIMUM_STATUS_DURATION * NS_PER_SEC.
Definition meter_value_sample_interval_secs (r : t) : Z :=
  number r METER_VALUE_SAMPLE_INTERVAL.
Definition clock_aligned_data_interval_secs (r : t) : Z :=
  number r CLOCK_ALIGNED_DATA_INTERVAL.
Definition reset_retries (r : t) : Z :=
  number r RESET_RETRIES.
Definition local_auth_list_enabled (r : t) : bool :=
  boolean r LOCAL_AUTH_LIST_ENABLED.
Definition local_auth_list_max_length (r : t) : Z :=
  number r LOCAL_AUTH_LIST_MAX_LENGTH.
Definition send_local_list_max_length (r : t) : Z :=
  number r SEND_LOCAL_LIST_MAX_LENGTH.
Definition local_authorize_offline (r : t) : bool :=
  boolean r LOCAL_AUTHORIZE_OFFLINE.
Definition security_profile (r : t) : Z :=
  from_option id 0 (try_into 0 u8_max (number r SECURITY_PROFILE)).
Definition allow_security_profile_downgrade (r : t) : bool :=
  boolean r ALLOW_SECURITY_PROFILE_DOWNGRADE.
Definition allow_central_system_tls_wildcards (r : t) : bool :=
  boolean r ALLOW_CENTRAL_SYSTEM_TLS_WILDCARDS.
Definition cert_signing_wait_minimum_secs (r : t) : Z :=
  Z.max (number r CERT_SIGNING_WAIT_MINIMUM) 1.
Definition cert_signing_repeat_times (r : t) : Z :=
  number r CERT_SIGNING_REPEAT_TIMES.
Definition authorization_key (r : t) : option str :=
  match value r AUTHORIZATION_KEY with
  | Some [] | None => None
  | Some v => Some v
  end.
Definition cpo_name (r : t) : str :=
  from_option id [] (value r CPO_NAME).
Definition additional_root_certificate_check (r : t) : bool :=
  value r ADDITIONAL_ROOT_CERTIFICATE_CHECK == Some (lit "true").
Definition certificate_store_max_length (r : t) : Z :=
  number r CERTIFICATE_STORE_MAX_LENGTH.
Definition certificate_signed_max_chain_size (r : t) : Z :=
  number r CERTIFICATE_SIGNED_MAX_CHAIN_SIZE.
Definition local_pre_authorize (r : t) : bool :=
  boolean r LOCAL_PRE_AUTHORIZE.
Definition authorization_cache_enabled (r : t) : bool :=
  boolean r AUTHORIZATION_CACHE_ENABLED.
Definition allow_offline_tx_for_unknown_id (r : t) : bool :=
  boolean r ALLOW_OFFLINE_TX_FOR_UNKNOWN_ID.
Definition authorize_remote_tx_requests (r : t) : bool :=
  boolean r AUTHORIZE_REMOTE_TX_REQUESTS.
Definition stop_transaction_on_ev_side_disconnect (r : t) : bool :=
  boolean r STOP_TRANSACTION_ON_EV_SIDE_DISCONNECT.
Definition stop_transaction_on_invalid_id (r : t) : bool :=
  boolean r STOP_TRANSACTION_ON_INVALID_ID.
Definition unlock_connector_on_ev_side_disconnect (r : t) : bool :=
  boolean r UNLOCK_CONNECTOR_ON_EV_SIDE_DISCONNECT.
Definition max_energy_on_invalid_id (r : t) : Z :=
  number r MAX_ENERGY_ON_INVALID_ID.
Definition reserve_connector_zero_supported (r : t) : bool :=
  boolean r RESERVE_CONNECTOR_ZERO_SUPPORTED.
Definition connector_switch_3to1_phase_supported (r : t) : bool :=
  boolean r CONNECTOR_SWITCH_3TO1_PHASE_SUPPORTED.
Definition charge_profile_max_stack_level (r : t) : Z :=
  number r CHARGE_PROFILE_MAX_STACK_LEVEL.
Definition charging_schedule_max_periods (r : t) : Z :=
  number r CHARGING_SCHEDULE_MAX_PERIODS.
Definition max_charging_profiles_installed (r : t) : Z :=
  number r MAX_CHARGING_PROFILES_INSTALLED.
Definition set_authorization_key (r : t) (k : str) : t := set_internal r AUTHORIZATION_KEY k.

Definition charging_rate_unit_allowed (r : t) (unit : ChargingRateUnitType.t) : bool :=
  let wire := match unit with
              | ChargingRateUnitType.A => lit "Current"
              | ChargingRateUnitType.W => lit "Power"
              end in
  is_some_and (fun v => any (fun item => item == wire) (list_items v))
    (value r CHARGING_SCHEDULE_ALLOWED_CHARGING_RATE_UNIT).

Definition measurands (r : t) (name : str) : list Measurand.t :=
  let measurands :=
    match value r name with
    | Some v => omap (fun item => ok (measurand_from_str item)) (list_items v)
    | None => []
    end in
  match measurands with [] => DEFAULT_SAMPLED_DATA | _ => measurands end.

(** ** The defaults *)

Definition default_measurands : str := join 44 (map Measurand.as_str DEFAULT_SAMPLED_DATA).

Definition bool_to_string (b : bool) : str := if b then lit "true" else lit "false".

Definition first_half_entries (config : StationConfig.t) (connectors : Z) : list ConfigEntry :=
  let phase_rotation := join 44 (map (fun id => to_string id ++ lit ".Unknown") (seqZ 1 connectors)) in
  [writable ALLOW_CENTRAL_SYSTEM_TLS_WILDCARDS Boolean (lit "false");
   writable ALLOW_OFFLINE_TX_FOR_UNKNOWN_ID Boolean (lit "true");
   writable ALLOW_SECURITY_PROFILE_DOWNGRADE Boolean (lit "false");
   read_only ADDITIONAL_ROOT_CERTIFICATE_CHECK (bool_to_string (StationConfig.additional_root_certificate_check config));
   writable AUTHORIZATION_CACHE_ENABLED Boolean (lit "true");
   writable AUTHORIZATION_KEY Secret [];
   writable AUTHORIZE_REMOTE_TX_REQUESTS Boolean (lit "false");
   writable BLINK_REPEAT NonNegativeInt (lit "0");
   read_only CERTIFICATE_SIGNED_MAX_CHAIN_SIZE (lit "10000");
   read_only CERTIFICATE_STORE_MAX_LENGTH (lit "8");
   writable CERT_SIGNING_REPEAT_TIMES NonNegativeInt (lit "5");
   writable CERT_SIGNING_WAIT_MINIMUM NonNegativeInt (lit "20");
   read_only CHARGE_POINT_MODEL (StationConfig.model config);
   read_only CHARGE_POINT_SERIAL_NUMBER (StationConfig.charge_point_id config);
   read_only CHARGE_POINT_VENDOR (StationConfig.vendor config);
   read_only CHARGE_PROFILE_MAX_STACK_LEVEL (to_string STACK_LEVEL_LIMIT);
   read_only CHARGING_SCHEDULE_ALLOWED_CHARGING_RATE_UNIT (lit "Current,Power");
   read_only CHARGING_SCHEDULE_MAX_PERIODS (to_string SCHEDULE_PERIOD_LIMIT);
   writable CLOCK_ALIGNED_DATA_INTERVAL NonNegativeInt (lit "0");
   writable CONNECTION_TIME_OUT PositiveInt (lit "60");
   writable_list CONNECTOR_PHASE_ROTATION PhaseRotations CONNECTOR_PHASE_ROTATION_MAX_LENGTH phase_rotation;
   read_only CONNECTOR_PHASE_ROTATION_MAX_LENGTH (to_string (connectors + 1));
   writable CONNECTOR_SWITCH_3TO1_PHASE_SUPPORTED Boolean (lit "false");
   read_only GET_CONFIGURATION_MAX_KEYS (to_string GET_CONFIGURATION_KEY_LIMIT);
   writable HEARTBEAT_INTERVAL PositiveInt (to_string (StationConfig.heartbeat_interval_secs config));
   writable CPO_NAME Name [];
   writable LIGHT_INTENSITY NonNegativeInt (lit "0");
   writable LOCAL_AUTH_LIST_ENABLED Boolean (lit "true");
   read_only LOCAL_AUTH_LIST_MAX_LENGTH (to_string LOCAL_LIST_LIMIT);
   writable LOCAL_AUTHORIZE_OFFLINE Boolean (lit "true");
   writable LOCAL_PRE_AUTHORIZE Boolean (lit "false")].

Definition second_half_entries (config : StationConfig.t) (connectors : Z) : list ConfigEntry :=
  let measurands := default_measurands in
  let measurand_max := to_string (len (ALL (T:=Measurand.t))) in
  [read_only MAX_CHARGING_PROFILES_INSTALLED (to_string PROFILES_INSTALLED_LIMIT);
   writable MAX_ENERGY_ON_INVALID_ID NonNegativeInt (lit "0");
   writable_list METER_VALUES_ALIGNED_DATA Measurands METER_VALUES_ALIGNED_DATA_MAX_LENGTH measurands;
   read_only METER_VALUES_ALIGNED_DATA_MAX_LENGTH measurand_max;
   writable_list METER_VALUES_SAMPLED_DATA Measurands METER_VALUES_SAMPLED_DATA_MAX_LENGTH measurands;
   read_only METER_VALUES_SAMPLED_DATA_MAX_LENGTH measurand_max;
   writable METER_VALUE_SAMPLE_INTERVAL NonNegativeInt (lit "60");
   writable MINIMUM_STATUS_DURATION NonNegativeInt (lit "0");
   read_only NUMBER_OF_CONNECTORS (to_string connectors);
   read_only RESERVE_CONNECTOR_ZERO_SUPPORTED (lit "true");
   writable RESET_RETRIES NonNegativeInt (lit "0");
   writable SECURITY_PROFILE SecurityProfile (lit "0");
   read_only SEND_LOCAL_LIST_MAX_LENGTH (to_string SEND_LOCAL_LIST_LIMIT);
   writable STOP_TRANSACTION_ON_EV_SIDE_DISCONNECT Boolean (lit "true");
   writable STOP_TRANSACTION_ON_INVALID_ID Boolean (lit "true");
   writable_list STOP_TXN_ALIGNED_DATA Measurands STOP_TXN_ALIGNED_DATA_MAX_LENGTH measurands;
   read_only STOP_TXN_ALIGNED_DATA_MAX_LENGTH measurand_max;
   writable_list STOP_TXN_SAMPLED_DATA Measurands STOP_TXN_SAMPLED_DATA_MAX_LENGTH measurands;
   read_only STOP_TXN_SAMPLED_DATA_MAX_LENGTH measurand_max;
   read_only SUPPORTED_FEATURE_PROFILES (join 44 FEATURE_PROFILES);
   read_only SUPPORTED_FEATURE_PROFILES_MAX_LENGTH (to_string (len FEATURE_PROFILES));
   writable TRANSACTION_MESSAGE_ATTEMPTS PositiveInt (lit "1");
   writable TRANSACTION_MESSAGE_RETRY_INTERVAL PositiveInt (lit "30");
   writable UNLOCK_CONNECTOR_ON_EV_SIDE_DISCONNECT Boolean (lit "false");
   writable WEB_SOCKET_PING_INTERVAL NonNegativeInt (to_string (StationConfig.ws_ping_interval_secs config))].

Definition default_entries (config : StationConfig.t) (connectors : Z) : list ConfigEntry :=
  first_half_entries config connectors ++ second_half_entries config connectors.

Definition new (config : StationConfig.t) : t :=
  let connector_count :=
    Z.max (Z.max (StationConfig.connector_count config) (StationConfig.initial_connector config)) 1 in
  mk (default_entries config connector_count) connector_count.

(** A sequence of ChangeConfiguration requests. *)
Definition changes (r : t) (requests : list (str * str)) : t :=
  fold_left (fun r '(name, v) => (change r name v).1) requests r.

(** ** Keys and shapes

    The shape of an entry is what no operation changes: everything but its value. *)

Definition shape (e : ConfigEntry) : str * bool * Kind * option str :=
  (key e, readonly e, kind e, max_items_key e).
Definition shapes (r : t) : list (str * bool * Kind * option str) := map shape (entries r).

Definition keys_unique (r : t) : Prop :=
  NoDup (map (fun e => to_ascii_lowercase (key e)) (entries r)).

(** The limit keys of the list-valued keys exist and are read-only. *)
Definition limits_readonly (r : t) : Prop :=
  forall e k, In e (entries r) -> max_items_key e = Some k ->
    exists l, get r k = Some l /\ readonly l = true.

Definition persisted (e : ConfigEntry) : bool := negb (readonly e) && negb (secret e).

Definition same_key (a b : str) : bool := eq_ignore_ascii_case a b.

Lemma position_map {A B} (f : A -> B) (p : B -> bool) l :
  position p (map f l) = position (fun x => p (f x)) l.
Proof. induction l as [|x l IH]; simpl; [done|]. destruct (p (f x)); [done|]. by rewrite IH. Qed.

Lemma index_of_shapes r name :
  index_of r name = position (fun '(k, _, _, _) => eq_ignore_ascii_case k name) (shapes r).
Proof. unfold index_of, shapes. by rewrite position_map. Qed.

Lemma shapes_set_value i v r : shapes (set_value i v r) = shapes r.
Proof.
  unfold shapes, set_value. simpl. destruct (entries r !! i) as [e|] eqn:E; [|done].
  rewrite <- (list_insert_id (map shape (entries r)) i (shape e)).
  - rewrite list_fmap_insert || rewrite <- list_fmap_insert. done.
  - change (map shape (entries r)) with (shape <$> entries r). by rewrite list_lookup_fmap, E.
Qed.

Lemma index_of_set_value i v r name : index_of (set_value i v r) name = index_of r name.
Proof. by rewrite !index_of_shapes, shapes_set_value. Qed.

Lemma get_index r name e :
  get r name = Some e ->
  exists i, index_of r name = Some i /\ entries r !! i = Some e /\ same_key (key e) name = true.
Proof.
  unfold get. destruct (index_of r name) as [i|] eqn:E; simpl; [|done]. intros H.
  exists i. split_and!; [done..|]. unfold index_of in E.
  apply position_Some in E as (x & Hx & Hp & _). simplify_eq. done.
Qed.

Lemma index_get r name i : index_of r name = Some i -> exists e, get r name = Some e.
Proof.
  intros H. unfold get. rewrite H. simpl. unfold index_of in H.
  apply position_Some in H as (x & Hx & _). eauto.
Qed.

Lemma get_None_index r name : get r name = None <-> index_of r name = None.
Proof.
  destruct (index_of r name) as [i|] eqn:E.
  - apply index_get in E as [e ->]. done.
  - unfold get. by rewrite E.
Qed.

Lemma get_In r name e : get r name = Some e -> In e (entries r).
Proof.
  intros (i & _ & H & _)%get_index. apply list_elem_of_In. by eapply list_elem_of_lookup_2.
Qed.

Lemma get_set_value i v r name :
  get (set_value i v r) name =
  if decide (index_of r name = Some i) then (fun e => e <| entry_value := v |>) <$> get r name
  else get r name.
Proof.
  unfold get. rewrite index_of_set_value. case_decide as Hd.
  - rewrite Hd. simpl. destruct (entries r !! i) as [e|] eqn:Ei; [|by rewrite Ei].
    rewrite list_lookup_insert_eq; [done|]. by eapply lookup_lt_Some.
  - destruct (index_of r name) as [j|]; simpl; [|done].
    destruct (entries r !! i) as [e|]; [|done]. apply list_lookup_insert_ne. congruence.
Qed.

Lemma index_of_same r a b : same_key a b = true -> index_of r a = index_of r b.
Proof.
  intros H. unfold same_key in H. rewrite eq_ignore_ascii_case_true in H.
  unfold index_of, eq_ignore_ascii_case. by rewrite H.
Qed.

Lemma index_of_inj r a b i :
  index_of r a = Some i -> index_of r b = Some i -> same_key a b = true.
Proof.
  unfold index_of. intros Ha Hb.
  apply position_Some in Ha as (x & Hx & Hpa & _).
  apply position_Some in Hb as (y & Hy & Hpb & _). simplify_eq.
  unfold same_key. rewrite eq_ignore_ascii_case_true in *. congruence.
Qed.

Lemma value_set_value r a i v name :
  index_of r a = Some i ->
  value (set_value i v r) name = if same_key a name then Some v else value r name.
Proof.
  intros Ha. unfold value. rewrite get_set_value.
  destruct (same_key a name) eqn:E.
  - rewrite decide_True by by rewrite <- (index_of_same r _ _ E).
    rewrite (index_of_same r _ _ E) in Ha. apply index_get in Ha as [e ->]. done.
  - rewrite decide_False; [done|]. intros Hn.
    by rewrite (index_of_inj r _ _ _ Ha Hn) in E.
Qed.

Lemma get_entry r e : keys_unique r -> In e (entries r) -> get r (key e) = Some e.
Proof.
  intros Hu Hin. apply list_elem_of_In, list_elem_of_lookup in Hin as [i Hi].
  unfold get. destruct (index_of r (key e)) as [j|] eqn:E; simpl.
  - unfold index_of in E. apply position_Some in E as (x & Hx & Hp & _).
    rewrite eq_ignore_ascii_case_true in Hp. unfold keys_unique in Hu.
    assert (i = j) as ->; [|congruence].
    eapply (proj1 (NoDup_alt _) Hu);
      change (map ?f ?l) with (f <$> l); rewrite list_lookup_fmap.
    + by rewrite Hi.
    + rewrite Hx. simpl. by rewrite Hp.
  - unfold index_of in E. rewrite position_None in E.
    apply list_elem_of_lookup_2, list_elem_of_In in Hi. specialize (E e Hi).
    cbn beta in E. by rewrite eq_ignore_ascii_case_refl in E.
Qed.

Lemma keys_unique_shapes r1 r2 : shapes r1 = shapes r2 -> keys_unique r1 -> keys_unique r2.
Proof.
  unfold keys_unique. intros H.
  assert (Hm : forall r, map (fun e => to_ascii_lowercase (key e)) (entries r)
               = map (fun '(k, _, _, _) => to_ascii_lowercase k) (shapes r)).
  { intros r. unfold shapes. by rewrite map_map. }
  by rewrite !Hm, H.
Qed.

(** ** [ChangeConfiguration] *)

Lemma check_Accepted r name v :
  check r name v = ConfigurationStatus.Accepted <->
  exists e, get r name = Some e /\ readonly e = false /\ accepts (kind e) v = true /\
    forall k, max_items_key e = Some k -> len (list_items v) <= number r k.
Proof.
  unfold check. destruct (get r name) as [e|]; [|split; [done|by intros (?&?&_)]].
  destruct (readonly e) eqn:Er, (accepts (kind e) v) eqn:Ea; simpl;
    try (split; [done|intros (?&[= <-]&?&?&_); congruence]).
  unfold count_limit. destruct (max_items_key e) as [k|] eqn:Ek; simpl.
  - destruct (_ <=? _) eqn:El; bool_facts; simpl; split; try done.
    + intros _. exists e. split_and!; [done..|]. intros k' Hk. congruence.
    + intros (?&[= <-]&_&_&H). specialize (H _ Ek). lia.
  - split; [|done]. intros _. exists e. split_and!; [done..|]. congruence.
Qed.

Lemma change_accepted r name v i :
  check r name v = ConfigurationStatus.Accepted -> index_of r name = Some i ->
  change r name v = (set_value i v r, ConfigurationStatus.Accepted).
Proof. unfold change. by intros -> ->. Qed.

Lemma change_rejected r name v :
  check r name v <> ConfigurationStatus.Accepted -> change r name v = (r, check r name v).
Proof. unfold change. by destruct (check r name v). Qed.

Lemma change_cases r name v :
  (check r name v <> ConfigurationStatus.Accepted /\ change r name v = (r, check r name v)) \/
  (exists i e, check r name v = ConfigurationStatus.Accepted /\ index_of r name = Some i /\
     get r name = Some e /\ readonly e = false /\ accepts (kind e) v = true /\
     change r name v = (set_value i v r, ConfigurationStatus.Accepted)).
Proof.
  destruct (decide (check r name v = ConfigurationStatus.Accepted)) as [H|H].
  - right. pose proof H as (e & He & Hr & Ha & _)%check_Accepted.
    destruct (get_index _ _ _ He) as (i & Hi & _). exists i, e.
    split_and!; try done. by apply change_accepted.
  - left. split; [done|]. by apply change_rejected.
Qed.

(** What a change answers and does to the registry. *)
Lemma change_effect (r : t) (name v : str) :
  let '(r', status) := change r name v in
  status <> ConfigurationStatus.RebootRequired /\
  (status = ConfigurationStatus.NotSupported <-> get r name = None) /\
  (status = ConfigurationStatus.Accepted <->
     exists e, get r name = Some e /\ readonly e = false /\ accepts (kind e) v = true /\
       forall k, max_items_key e = Some k -> len (list_items v) <= number r k) /\
  (status <> ConfigurationStatus.Accepted -> r' = r) /\
  (status = ConfigurationStatus.Accepted ->
     forall other, value r' other = if same_key name other then Some v else value r other) /\
  shapes r' = shapes r /\ connector_count r' = connector_count r.
Proof.
  destruct (change_cases r name v) as [[Hn ->]|(i & e & Hc & Hi & He & _ & _ & ->)].
  - split_and!; try done.
    + unfold check. repeat case_match; done.
    + unfold check. destruct (get r name); [|done].
      split; [|done]. repeat case_match; done.
    + apply check_Accepted.
  - split_and!; try done.
    + by rewrite He.
    + by rewrite <- check_Accepted.
    + intros _ other. by apply value_set_value.
    + apply shapes_set_value.
Qed.

(** ** The values of a key *)

(** The decimal digits of [n], which a 32-bit integer holds. *)
Definition spells (v : str) (n : Z) : Prop :=
  v <> [] /\ Forall (fun c => 48 <= c <= 57) v /\
  n = fold_left (fun x c => 10 * x + (c - 48)) v 0 /\ n <= i32_max.

(** One item of [ConnectorPhaseRotation]: a rotation, for all or for one connector. *)
Definition rotation_item (item : str) : Prop :=
  exists rotation, In rotation PHASE_ROTATIONS /\
  (item = rotation \/
   exists connector, connector <> [] /\ Forall (fun c => 48 <= c <= 57) connector /\
     item = connector ++ lit "." ++ rotation).

(** The values of a type. *)
Definition valid_value (k : Kind) (v : str) : Prop :=
  match k with
  | Text => True
  | Boolean => v = lit "true" \/ v = lit "false"
  | NonNegativeInt => exists n, spells v n
  | PositiveInt => exists n, spells v n /\ 1 <= n
  | Measurands => list_items v <> [] /\
      Forall (fun item => exists m : Measurand.t, item = wire_str m) (list_items v)
  | PhaseRotations => list_items v <> [] /\ Forall rotation_item (list_items v)
  | SecurityProfile => exists n, spells v n /\ n <= 3
  | Secret => 16 <= byte_len v <= 40 /\ Forall (fun c => 33 <= c <= 126) v
  | Name => chars_count v <= 50
  end.

Lemma digits_Forall v : all is_ascii_digit v = true <-> Forall (fun c => 48 <= c <= 57) v.
Proof.
  unfold all. rewrite forallb_forall, List.Forall_forall. unfold is_ascii_digit.
  split; intros H c Hc; specialize (H c Hc); bool_facts; lia.
Qed.

Lemma digits_acc_fold v : forall acc, Forall (fun c => 48 <= c <= 57) v ->
  digits_acc acc v = Some (fold_left (fun x c => 10 * x + (c - 48)) v acc).
Proof.
  induction v as [|c v IH]; intros acc H; [done|]. inversion_clear H. simpl.
  unfold is_ascii_digit. rewrite (proj2 (Z.leb_le 48 c)), (proj2 (Z.leb_le c 57)) by lia. simpl.
  rewrite IH by done. do 2 f_equal. lia.
Qed.

Lemma parse_int_digits v :
  v <> [] -> Forall (fun c => 48 <= c <= 57) v ->
  parse_int v = try_into i32_min i32_max (fold_left (fun x c => 10 * x + (c - 48)) v 0) /\
  forall hi, parse_unsigned hi v =
    let n := fold_left (fun x c => 10 * x + (c - 48)) v 0 in if n <=? hi then Some n else None.
Proof.
  intros Hv Hd. assert (Hval : digits_value v = Some (fold_left (fun x c => 10 * x + (c - 48)) v 0))
    by (unfold digits_value; destruct v; [done|by apply digits_acc_fold]).
  assert (Hu : unsigned_part v = v).
  { destruct v as [|c [|d v]]; [done..|]. inversion_clear Hd. unfold unsigned_part.
    by rewrite (proj2 (Z.eqb_neq c 43)) by lia. }
  split; [|intros hi; unfold parse_unsigned; by rewrite Hu, Hval].
  unfold parse_int. rewrite (proj2 (digits_Forall v) Hd), (proj2 (eqb_false _ _) Hv). simpl.
  unfold parse_i32. destruct v as [|c [|d v]]; [done|by rewrite Hval|].
  inversion_clear Hd. rewrite (proj2 (Z.eqb_neq c 45)) by lia. by rewrite Hu, Hval.
Qed.

Lemma fold_digits_nonneg v acc :
  Forall (fun c => 48 <= c <= 57) v -> 0 <= acc ->
  0 <= fold_left (fun x c => 10 * x + (c - 48)) v acc.
Proof.
  revert acc. induction v as [|c v IH]; intros acc H Hacc; [done|]. inversion_clear H. simpl.
  apply IH; [done|lia].
Qed.

Lemma parse_int_spells v n : parse_int v = Some n <-> spells v n.
Proof.
  split.
  - intros H. unfold parse_int in H. destruct (v == []) eqn:Ev; [done|].
    apply (proj1 (eqb_false _ _)) in Ev. destruct (all is_ascii_digit v) eqn:Ed; [|done].
    apply digits_Forall in Ed. destruct (parse_int_digits v Ev Ed) as [Hp _].
    unfold parse_int in Hp. rewrite (proj2 (digits_Forall v) Ed), (proj2 (eqb_false _ _) Ev) in Hp.
    simpl in H, Hp. rewrite Hp in H. unfold try_into in H.
    destruct (_ && _) eqn:E in H; [|done]. bool_facts. simplify_eq. split_and!; auto.
  - intros (Hv & Hd & -> & Hn). destruct (parse_int_digits v Hv Hd) as [-> _].
    pose proof (fold_digits_nonneg v 0 Hd ltac:(lia)). unfold try_into, i32_min.
    by rewrite (proj2 (Z.leb_le _ _)), (proj2 (Z.leb_le _ _)) by (unfold i32_max in *; lia).
Qed.

Lemma spells_nonneg v n : spells v n -> 0 <= n.
Proof. intros (_ & Hd & -> & _). by apply fold_digits_nonneg. Qed.

Lemma parse_int_such (p : Z -> bool) v :
  is_some_and p (parse_int v) = true <-> exists n, spells v n /\ p n = true.
Proof.
  split.
  - destruct (parse_int v) as [n|] eqn:E; [|done]. apply parse_int_spells in E. by exists n.
  - intros (n & Hn%parse_int_spells & Hp). by rewrite Hn.
Qed.

Lemma non_empty_all_such (p : str -> bool) (Q : str -> Prop) l :
  (forall x, p x = true <-> Q x) -> non_empty_all p l = true <-> l <> [] /\ Forall Q l.
Proof.
  intros Hp. destruct l as [|x l]; [split; [done|by intros []]|].
  unfold non_empty_all, all. rewrite forallb_forall, List.Forall_forall.
  split; [intros H; split; [done|]|intros [_ H]]; intros y Hy; by apply Hp, H.
Qed.

Lemma measurand_such item :
  is_ok (measurand_from_str item) = true <-> exists m : Measurand.t, item = wire_str m.
Proof.
  unfold measurand_from_str. split.
  - destruct (parse_enum item) as [m|] eqn:E; [|done]. exists m. by apply parse_enum_sound.
  - intros [m ->]. by rewrite parse_enum_wire.
Qed.

Lemma rotation_such item : is_phase_rotation_item item = true <-> rotation_item item.
Proof.
  assert (Hrot : forall r, is_phase_rotation r = true <-> In r PHASE_ROTATIONS).
  { intros r. unfold is_phase_rotation, any. rewrite existsb_exists. split.
    - intros (x & Hx & Heq). apply (proj1 (eqb_true _ _)) in Heq. by subst.
    - intros Hr. exists r. by rewrite eqb_refl. }
  assert (Hdot : forall r, In r PHASE_ROTATIONS -> split_once 46 r = None).
  { intros r Hr. repeat (destruct Hr as [<-|Hr]; [done|]). done. }
  unfold is_phase_rotation_item, rotation_item. split.
  - destruct (split_once 46 item) as [[c r]|] eqn:E; [|intros Hr; exists item; split; [by apply Hrot|by left]].
    apply split_once_Some in E as [-> _]. destruct (c == []) eqn:Ec; [done|].
    destruct (all is_ascii_digit c) eqn:Ed; [|done]. intros Hr. exists r. split; [by apply Hrot|right].
    exists c. split_and!; [by apply (proj1 (eqb_false _ _))|by apply digits_Forall|done].
  - intros (r & Hr & [->|(c & Hc & Hd & ->)]); [rewrite (Hdot r Hr); by apply Hrot|].
    assert (Hs : split_once 46 (c ++ lit "." ++ r) = Some (c, r)).
    { apply split_once_Some. split; [done|]. intros Hin.
      rewrite Forall_forall in Hd. specialize (Hd _ Hin). lia. }
    rewrite Hs, (proj2 (eqb_false _ _) Hc), (proj2 (digits_Forall c) Hd). by apply Hrot.
Qed.

(** The check of a value is the description of its type. *)
Lemma accepts_valid k v : accepts k v = true <-> valid_value k v.
Proof.
  destruct k; cbn [accepts valid_value].
  - done.
  - by rewrite orb_true_iff, !eqb_true.
  - rewrite parse_int_such. split; [by intros (n & Hn & _); exists n|].
    intros (n & Hn). exists n. split; [done|]. apply Z.leb_le, (spells_nonneg v n Hn).
  - rewrite parse_int_such. by setoid_rewrite Z.leb_le.
  - apply non_empty_all_such, measurand_such.
  - apply non_empty_all_such, rotation_such.
  - rewrite parse_int_such. split.
    + intros (n & Hn & Hr). bool_facts. by exists n.
    + intros (n & Hn & Hr). exists n. split; [done|]. pose proof (spells_nonneg v n Hn).
      apply andb_true_iff. by rewrite !Z.leb_le.
  - rewrite !andb_true_iff, !Z.leb_le. unfold all. rewrite forallb_forall, List.Forall_forall.
    unfold is_ascii_graphic. setoid_rewrite andb_true_iff. by setoid_rewrite Z.leb_le.
  - apply Z.leb_le.
Qed.

(** ** What no accepted change can alter *)

Lemma same_key_get r a b : same_key a b = true -> get r a = get r b.
Proof. intros H. unfold get. by rewrite (index_of_same r a b H). Qed.

Lemma writable_not_readonly r a e k l :
  get r a = Some e -> readonly e = false -> get r k = Some l -> readonly l = true ->
  same_key a k = false.
Proof.
  intros He Hr Hl Hr'. destruct (same_key a k) eqn:E; [|done].
  rewrite (same_key_get r a k E) in He. congruence.
Qed.

Lemma limits_set_value r a i e v :
  index_of r a = Some i -> get r a = Some e -> readonly e = false ->
  limits_readonly r -> limits_readonly (set_value i v r).
Proof.
  intros Hi He Hr Hlim x k Hin Hk.
  assert (exists y, In y (entries r) /\ max_items_key y = Some k) as (y & Hy & Hyk).
  { assert (In (shape x) (shapes (set_value i v r))) as Hs by by apply in_map.
    rewrite shapes_set_value in Hs. apply in_map_iff in Hs as (y & Hs & Hy).
    exists y. split; [done|]. unfold shape in Hs. congruence. }
  destruct (Hlim y k Hy Hyk) as (l & Hl & Hlr). exists l. split; [|done].
  rewrite get_set_value, decide_False; [done|]. intros Hn.
  pose proof (index_of_inj r a k i Hi Hn) as Hsame.
  by rewrite (writable_not_readonly r a e k l He Hr Hl Hlr) in Hsame.
Qed.

Lemma check_set_value r a i e v name w :
  index_of r a = Some i -> get r a = Some e -> readonly e = false -> limits_readonly r ->
  check (set_value i v r) name w = check r name w.
Proof.
  intros Hi He Hr Hlim. unfold check. rewrite get_set_value.
  assert (Hnum : forall x k, get r name = Some x -> max_items_key x = Some k ->
            number (set_value i v r) k = number r k).
  { intros x k Hx Hk. destruct (Hlim x k (get_In _ _ _ Hx) Hk) as (l & Hl & Hlr).
    unfold number. rewrite (value_set_value r a i v k Hi).
    by rewrite (writable_not_readonly r a e k l He Hr Hl Hlr). }
  case_decide; [|]; destruct (get r name) as [x|] eqn:Hx; simpl; try done;
    destruct (max_items_key x) as [k|] eqn:Hk; simpl; try done;
    unfold count_limit; by rewrite (Hnum x k).
Qed.

(** ** Valid values *)

(** A persisted value is one the registry would accept again. *)
Definition values_valid (r : t) : Prop :=
  forall e, In e (entries r) -> persisted e = true ->
    check r (key e) (entry_value e) = ConfigurationStatus.Accepted.

Definition registry_ok (r : t) : Prop :=
  keys_unique r /\ limits_readonly r /\ values_valid r.

Lemma In_set_value r i v x :
  In x (entries (set_value i v r)) ->
  In x (entries r) \/
  exists e, entries r !! i = Some e /\ x = e <| entry_value := v |>.
Proof.
  unfold set_value. simpl. destruct (entries r !! i) as [e|] eqn:E; [|by left].
  intros H. apply list_elem_of_In, list_elem_of_lookup in H as [j Hj].
  destruct (decide (i = j)) as [<-|Hn].
  - rewrite list_lookup_insert_eq in Hj by by eapply lookup_lt_Some.
    right. exists e. split; [done|]. congruence.
  - rewrite list_lookup_insert_ne in Hj by done. left.
    by eapply list_elem_of_In, list_elem_of_lookup_2.
Qed.

Lemma change_ok r name v : registry_ok r -> registry_ok (change r name v).1.
Proof.
  intros (Hu & Hl & Hv).
  destruct (change_cases r name v) as [[_ ->]|(i & e & Hc & Hi & He & Hr & Ha & ->)]; simpl.
  { done. }
  split_and!.
  - eapply keys_unique_shapes; [symmetry; apply shapes_set_value|done].
  - by eapply limits_set_value.
  - intros x Hx Hp. rewrite (check_set_value r name i e v) by done.
    apply In_set_value in Hx as [Hx|(y & Hy & ->)]; [by apply Hv|].
    simpl. destruct (get_index _ _ _ He) as (j & Hj & Hje & Hs). simplify_eq.
    unfold check. rewrite (same_key_get r _ _ Hs). fold (check r name v). exact Hc.
Qed.

Lemma changes_ok r requests : registry_ok r -> registry_ok (changes r requests).
Proof.
  revert r. induction requests as [|[name v] requests IH]; intros r H; [done|].
  apply IH. by apply change_ok.
Qed.

Lemma changes_check r requests name v :
  limits_readonly r -> check (changes r requests) name v = check r name v /\
    limits_readonly (changes r requests) /\ shapes (changes r requests) = shapes r.
Proof.
  revert r. induction requests as [|[n w] requests IH]; intros r Hl; [done|].
  unfold changes. simpl. fold (changes (change r n w).1 requests).
  destruct (change_cases r n w) as [[_ ->]|(i & e & _ & Hi & He & Hr & _ & ->)]; simpl.
  { by apply IH. }
  destruct (IH (set_value i w r)) as (-> & ? & ->); [by eapply limits_set_value|].
  split_and!; [by eapply check_set_value|done|apply shapes_set_value].
Qed.

(** The read-only keys keep their values. *)
Lemma changes_readonly r requests name e :
  get r name = Some e -> readonly e = true -> get (changes r requests) name = Some e.
Proof.
  revert r. induction requests as [|[n w] requests IH]; intros r He Hr; [done|].
  unfold changes. simpl. fold (changes (change r n w).1 requests).
  destruct (change_cases r n w) as [[_ ->]|(i & x & _ & Hi & Hx & Hrx & _ & ->)]; simpl.
  { by apply IH. }
  apply IH; [|done]. rewrite get_set_value, decide_False; [done|]. intros Hn.
  pose proof (index_of_inj r n name i Hi Hn) as Hs.
  by rewrite (writable_not_readonly r n x name e Hx Hrx He Hr) in Hs.
Qed.

(** ** Restoring a snapshot *)

Lemma restore_values_ok values : forall r skipped,
  limits_readonly r -> NoDup (map (fun kv => to_ascii_lowercase kv.1) values) ->
  (forall k v, In (k, v) values -> check r k v = ConfigurationStatus.Accepted) ->
  exists r', restore_values r values skipped = (r', skipped) /\ shapes r' = shapes r /\
    forall name, value r' name =
      match find_first (fun '(k, _) => same_key k name) values with
      | Some (_, v) => Some v
      | None => value r name
      end.
Proof.
  induction values as [|[k v] values IH]; intros r skipped Hl Hn Hc.
  { exists r. by split_and!. }
  simpl in Hn. apply NoDup_cons in Hn as [Hk Hn].
  pose proof (Hc k v ltac:(by left)) as Hacc. simpl restore_values.
  destruct (change_cases r k v) as [[Hna _]|(i & e & _ & Hi & He & Hr & _ & ->)]; [done|].
  destruct (IH (set_value i v r) skipped) as (r' & Hr' & Hs & Hv).
  { by eapply limits_set_value. }
  { done. }
  { intros k' v' Hin. rewrite (check_set_value r k i e v) by done. apply Hc. by right. }
  exists r'. split_and!; [exact Hr'|by rewrite Hs, shapes_set_value|].
  intros name. rewrite Hv, (value_set_value r k) by done. simpl.
  destruct (same_key k name) eqn:Ek; [|done].
  destruct (find_first _ values) as [[k' v']|] eqn:Ef; [|done].
  apply find_first_In in Ef as [Hin Hk']. destruct Hk.
  unfold same_key in *. rewrite eq_ignore_ascii_case_true in *. rewrite Ek, <- Hk'.
  apply list_elem_of_In, in_map_iff. by exists (k', v').
Qed.

Lemma snapshot_lookup r e :
  keys_unique r -> In e (entries r) -> persisted e = true ->
  snapshot r !! key e = Some (entry_value e).
Proof.
  intros Hu Hin Hp. unfold snapshot. apply elem_of_list_to_map.
  - change (map ?f ?l) with (f <$> l). rewrite <- list_fmap_compose.
    unfold keys_unique in Hu.
    apply (NoDup_fmap_1 to_ascii_lowercase). rewrite <- list_fmap_compose.
    eapply sublist_NoDup; [exact Hu|]. apply (fmap_sublist _), retain_sublist.
  - apply list_elem_of_In, in_map_iff. exists e. split; [done|]. by apply retain_In.
Qed.

Lemma snapshot_inv r k v :
  snapshot r !! k = Some v -> exists e, In e (entries r) /\ persisted e = true /\
    key e = k /\ entry_value e = v.
Proof.
  unfold snapshot. intros H. apply elem_of_list_to_map_2 in H.
  apply list_elem_of_In, in_map_iff in H as (e & [= <- <-] & He).
  apply retain_In in He as [Hin Hp]. by exists e.
Qed.

Lemma snapshot_keys_NoDup r :
  keys_unique r -> NoDup (map (fun kv => to_ascii_lowercase kv.1) (btree_iter (snapshot r))).
Proof.
  intros Hu. change (NoDup ((to_ascii_lowercase ∘ fst) <$> btree_iter (snapshot r))).
  rewrite (list_fmap_compose fst to_ascii_lowercase).
  apply NoDup_fmap_2_strong; [|apply btree_iter_keys_NoDup].
  assert (Hkey : forall x, x ∈ (btree_iter (snapshot r)).*1 ->
            exists e, In e (entries r) /\ key e = x).
  { intros x Hx. apply list_elem_of_fmap in Hx as ([k v] & -> & Hx).
    apply btree_iter_elem, snapshot_inv in Hx as (e & ? & _ & ? & _). eauto. }
  intros a b Ha Hb Heq.
  destruct (Hkey a Ha) as (ea & Hea & <-), (Hkey b Hb) as (eb & Heb & <-).
  pose proof (get_entry r ea Hu Hea) as Ga. pose proof (get_entry r eb Hu Heb) as Gb.
  rewrite (same_key_get r (key ea) (key eb)) in Ga; [congruence|].
  unfold same_key. by rewrite eq_ignore_ascii_case_true.
Qed.

Lemma get_shape r r' name e e' :
  shapes r' = shapes r -> get r name = Some e -> get r' name = Some e' -> shape e' = shape e.
Proof.
  intros Hs He He'. apply get_index in He as (i & Hi & Hei & _).
  apply get_index in He' as (j & Hj & Hej & _).
  rewrite index_of_shapes, Hs, <- index_of_shapes, Hi in Hj. injection Hj as <-.
  assert (shape <$> (entries r' !! i) = shape <$> (entries r !! i)) as H.
  { rewrite <- !list_lookup_fmap. unfold shapes in Hs. f_equal. exact Hs. }
  rewrite Hei, Hej in H. simpl in H. congruence.
Qed.

Lemma get_shapes_Some r r' name e :
  shapes r' = shapes r -> get r name = Some e -> exists e', get r' name = Some e'.
Proof.
  intros Hs He. apply get_index in He as (i & Hi & _).
  rewrite index_of_shapes, <- Hs, <- index_of_shapes in Hi. by eapply index_get.
Qed.

Lemma entry_ext e e' : shape e' = shape e -> entry_value e' = entry_value e -> e' = e.
Proof. destruct e, e'. unfold shape. simpl. congruence. Qed.

Lemma restore_snapshot r0 r name e :
  registry_ok r -> shapes r = shapes r0 -> limits_readonly r0 ->
  (forall n v, check r0 n v = check r n v) ->
  exists r', restore r0 (snapshot r) = (r', []) /\ shapes r' = shapes r0 /\
    (get r name = Some e -> persisted e = true -> get r' name = Some e).
Proof.
  intros (Hu & _ & Hv) Hs Hl Hc. unfold restore.
  destruct (restore_values_ok (btree_iter (snapshot r)) r0 []) as (r' & Hr' & Hs' & Hval).
  { done. }
  { by apply snapshot_keys_NoDup. }
  { intros k v Hin. apply list_elem_of_In, btree_iter_elem in Hin.
    apply snapshot_inv in Hin as (x & Hx & Hp & <- & <-). rewrite Hc. by apply Hv. }
  exists r'. split_and!; [done..|]. intros He Hp.
  destruct (get_shapes_Some r r' name e) as [e' He']; [congruence|done|].
  rewrite He'. f_equal. apply entry_ext; [apply (get_shape r r' name); congruence|].
  pose proof (Hval name) as Hn. unfold value in Hn at 1. rewrite He' in Hn. simpl in Hn.
  pose proof (get_In _ _ _ He) as Hin.
  apply get_index in He as (_ & _ & _ & Hsame).
  assert ((key e, entry_value e) ∈ btree_iter (snapshot r)) as Helem
    by by apply btree_iter_elem, snapshot_lookup.
  destruct (find_first _ _) as [[k v]|] eqn:Ef.
  2: { rewrite find_first_none in Ef. apply list_elem_of_In in Helem.
       specialize (Ef _ Helem). cbn in Ef. congruence. }
  apply find_first_In in Ef as [Hk Hkn].
  apply list_elem_of_In, btree_iter_elem, snapshot_inv in Hk as (x & Hx & Hpx & <- & <-).
  pose proof (get_entry r x Hu Hx) as Gx. pose proof (get_entry r e Hu Hin) as Ge.
  rewrite (same_key_get r _ _ Hkn) in Gx. rewrite (same_key_get r _ _ Hsame) in Ge. congruence.
Qed.

(** ** The items of a list value *)

Definition item_ok (item : str) : Prop :=
  item <> [] /\ starts_trimmed item /\ ends_trimmed item /\ (44 ∉ item).

Lemma list_items_join items :
  Forall item_ok items -> list_items (join 44 items) = items.
Proof.
  intros H. unfold list_items. destruct items as [|w ws]; [done|].
  revert w H. induction ws as [|w' ws IH]; intros w H.
  - inversion H as [|?? (Hn & Hs & He & Hc) _]; subst. simpl join.
    rewrite split_on_plain by done. simpl. by rewrite trim_id, (eqb_ne w []).
  - inversion H as [|?? (Hn & Hs & He & Hc) Hr]; subst.
    change (join 44 (w :: w' :: ws)) with (w ++ 44 :: join 44 (w' :: ws)).
    rewrite split_on_app by done. simpl map.
    rewrite trim_id by done. cbn [List.filter]. rewrite (eqb_ne w []) by done. simpl negb.
    cbv iota. f_equal. by apply IH.
Qed.

Lemma list_items_ok v item : In item (list_items v) -> item_ok item.
Proof.
  unfold list_items. intros [H Hn]%retain_In. bool_facts.
  apply in_map_iff in H as (w & <- & Hw). apply split_on_no_sep in Hw.
  destruct (trim_trimmed w) as [Hs He]. split_and!; try done.
  intros Hin. apply Hw. unfold trim in Hin.
  destruct (trim_end_prefix (trim_start w)) as [p Hp].
  destruct (trim_start_suffix w) as [q ->]. apply elem_of_app. right.
  rewrite Hp. apply elem_of_app. by left.
Qed.

(** ** The registry of a new station *)

(** The bounds a station configuration needs for its values to be valid configuration
    values: the intervals are OCPP integers and the connectors leave room for a limit. *)
Definition registry_config (c : StationConfig.t) : Prop :=
  1 <= StationConfig.heartbeat_interval_secs c <= i32_max /\
  0 <= StationConfig.ws_ping_interval_secs c <= i32_max /\
  0 <= StationConfig.connector_count c < u32_max /\
  0 <= StationConfig.initial_connector c < u32_max.

Definition default_shapes : list (str * bool * Kind * option str) :=
  Eval vm_compute in shapes (new StationConfig.default).

Lemma shapes_new c : shapes (new c) = default_shapes.
Proof. reflexivity. Qed.

Definition limits_of_shapes (l : list (str * bool * Kind * option str)) : bool :=
  all (fun '(_, _, _, limit) =>
         is_none_or (fun k =>
           is_some_and (fun '(_, ro, _, _) => ro)
             (find_first (fun '(k', _, _, _) => eq_ignore_ascii_case k' k) l)) limit) l.

Lemma limits_of_shapes_ok r : limits_of_shapes (shapes r) = true -> limits_readonly r.
Proof.
  intros H e k Hin Hk. unfold limits_of_shapes, all in H. rewrite forallb_forall in H.
  specialize (H (shape e) (in_map _ _ _ Hin)). unfold shape in H at 1. rewrite Hk in H.
  cbn in H.
  destruct (index_of r k) as [i|] eqn:Ei.
  - destruct (index_get r k i Ei) as [l Hl]. exists l. split; [done|].
    rewrite index_of_shapes in Ei. apply get_index in Hl as (j & Hj & Hlj & _).
    rewrite index_of_shapes, Ei in Hj. injection Hj as <-.
    erewrite find_first_position in H; [|exact Ei|].
    2: { unfold shapes. change (map ?f ?l) with (f <$> l).
         rewrite list_lookup_fmap, Hlj. reflexivity. }
    done.
  - rewrite index_of_shapes, position_None in Ei.
    destruct (find_first _ (shapes r)) as [[[[k' ro] ki] mx]|] eqn:Ef; [|done].
    apply find_first_In in Ef as [Hin' Hp]. by rewrite (Ei _ Hin') in Hp.
Qed.

Lemma parse_int_to_string n : 0 <= n <= i32_max -> parse_int (to_string n) = Some n.
Proof.
  intros Hn. unfold parse_int. pose proof (to_string_digits n ltac:(lia)) as Hd.
  assert (all is_ascii_digit (to_string n) = true) as ->.
  { apply forallb_forall. intros x Hx. rewrite Forall_forall in Hd. apply Hd.
    by apply list_elem_of_In. }
  rewrite (eqb_ne (to_string n) []) by apply to_string_nonempty.
  simpl. by apply parse_i32_to_string.
Qed.

Definition phase_item (id : Z) : str := to_string id ++ lit ".Unknown".

Lemma phase_item_ok id :
  0 <= id -> item_ok (phase_item id) /\ is_phase_rotation_item (phase_item id) = true /\
    split_once 46 (phase_item id) = Some (to_string id, lit "Unknown").
Proof.
  intros Hid. pose proof (to_string_digits id Hid) as Hd.
  assert (split_once 46 (phase_item id) = Some (to_string id, lit "Unknown")) as Hsp.
  { apply split_once_Some. split; [done|].
    by apply ResponseRules.digits_no_char. }
  destruct (to_string id) as [|c s] eqn:E.
  { by apply to_string_nonempty in E. }
  split_and!; [| |done].
  - unfold item_ok, phase_item. rewrite E. split_and!; [done|..].
    + apply starts_trimmed_cons. inversion Hd. by apply digit_not_whitespace.
    + apply ends_trimmed_app; [vm_compute; discriminate|vm_compute; reflexivity].
    + rewrite elem_of_app. intros [H|H].
      * revert H. by apply ResponseRules.digits_no_char.
      * apply list_elem_of_In in H. vm_compute in H. intuition lia.
  - unfold is_phase_rotation_item. rewrite Hsp.
    assert (all is_ascii_digit (c :: s) = true) as ->; [|reflexivity].
    apply forallb_forall. intros x Hx. rewrite Forall_forall in Hd. apply Hd.
    by apply list_elem_of_In.
Qed.

Lemma phase_items n :
  1 <= n ->
  let v := join 44 (map phase_item (seqZ 1 n)) in
  list_items v = map phase_item (seqZ 1 n) /\ accepts PhaseRotations v = true /\
  len (list_items v) = n.
Proof.
  intros Hn v.
  assert (Hids : forall id, In id (seqZ 1 n) -> 0 <= id).
  { intros id Hid. apply list_elem_of_In, elem_of_seqZ in Hid. lia. }
  assert (list_items v = map phase_item (seqZ 1 n)) as Hv.
  { apply list_items_join, Forall_forall. intros w Hw.
    apply list_elem_of_In, in_map_iff in Hw as (id & <- & Hid).
    by apply phase_item_ok, Hids. }
  assert (len (list_items v) = n) as Hlen.
  { rewrite Hv. unfold len. rewrite length_map, length_seqZ. lia. }
  split_and!; [done| |done].
  unfold accepts. destruct (list_items v) as [|w ws] eqn:E; [unfold len in Hlen; simpl in Hlen; lia|].
  unfold non_empty_all. apply forallb_forall. intros x Hx. rewrite Hv in Hx.
  apply in_map_iff in Hx as (id & <- & Hid). by apply phase_item_ok, Hids.
Qed.

Definition entry_fits (r : t) (e : ConfigEntry) : Prop :=
  persisted e = true ->
  accepts (kind e) (entry_value e) = true /\
  forall k, max_items_key e = Some k -> len (list_items (entry_value e)) <= number r k.

Lemma values_valid_fits r :
  keys_unique r -> (forall e, In e (entries r) -> entry_fits r e) -> values_valid r.
Proof.
  intros Hu H e Hin Hp. apply check_Accepted. exists e.
  destruct (H e Hin Hp) as [Ha Hl]. split_and!; try done; [by apply get_entry|].
  unfold persisted in Hp. by bool_facts.
Qed.

Lemma value_new c name i v :
  index_of (new c) name = Some i -> entry_value <$> (entries (new c) !! i) = Some v ->
  value (new c) name = Some v.
Proof. unfold value, get. intros ->. by simpl. Qed.

(** Computes the value [v] a closed key has in a new registry. *)
Ltac closed_value c name v :=
  let i := eval vm_compute in
    (position (fun '(k, _, _, _) => eq_ignore_ascii_case k name) default_shapes) in
  lazymatch i with
  | Some ?n =>
      unfold number; rewrite (value_new c name n v);
      [ | rewrite index_of_shapes, shapes_new; vm_compute; reflexivity | reflexivity ]
  end.

Lemma measurand_limit c k :
  In k [METER_VALUES_ALIGNED_DATA_MAX_LENGTH; METER_VALUES_SAMPLED_DATA_MAX_LENGTH;
        STOP_TXN_ALIGNED_DATA_MAX_LENGTH; STOP_TXN_SAMPLED_DATA_MAX_LENGTH] ->
  number (new c) k = 22.
Proof.
  simpl. intros [<-|[<-|[<-|[<-|[]]]]].
  - closed_value c METER_VALUES_ALIGNED_DATA_MAX_LENGTH (lit "22"). vm_compute. reflexivity.
  - closed_value c METER_VALUES_SAMPLED_DATA_MAX_LENGTH (lit "22"). vm_compute. reflexivity.
  - closed_value c STOP_TXN_ALIGNED_DATA_MAX_LENGTH (lit "22"). vm_compute. reflexivity.
  - closed_value c STOP_TXN_SAMPLED_DATA_MAX_LENGTH (lit "22"). vm_compute. reflexivity.
Qed.

Lemma phase_limit c :
  registry_config c ->
  number (new c) CONNECTOR_PHASE_ROTATION_MAX_LENGTH = connector_count (new c) + 1.
Proof.
  intros (_ & _ & Hc & Hi). closed_value c CONNECTOR_PHASE_ROTATION_MAX_LENGTH (to_string (connector_count (new c) + 1)).
  cbn [mbind option_bind]. rewrite parse_u32_to_string; [done|].
  unfold is_u32, u32_max in *. simpl. lia.
Qed.

Lemma entries_fit_new c :
  registry_config c -> Forall (entry_fits (new c)) (entries (new c)).
Proof.
  intros Hcfg. pose proof Hcfg as (Hh & Hw & Hc & Hi).
  unfold new at 2. cbn [entries]. set (n := Z.max _ 1).
  assert (1 <= n) as Hn by lia.
  unfold default_entries, first_half_entries, second_half_entries. apply Forall_app; split.
  all: repeat (apply Forall_cons; split); try apply Forall_nil; try exact I.
  all: intros Hp; try discriminate Hp; clear Hp.
  all: cbn [writable writable_list over kind entry_value max_items_key].
  all: lazymatch goal with
       | |- accepts _ (to_string _) = true /\ _ => idtac
       | |- accepts PhaseRotations _ = true /\ _ => idtac
       | |- _ => try (split; [vm_compute; reflexivity|discriminate])
       end.
  - destruct (phase_items n Hn) as (_ & Ha & Hl). split; [exact Ha|].
    intros k [= <-]. rewrite phase_limit by done.
    change (len (list_items (join 44 (map phase_item (seqZ 1 n)))) <= n + 1). lia.
  - split; [|discriminate]. unfold accepts. rewrite parse_int_to_string by lia.
    apply Z.leb_le. lia.
  - split; [vm_compute; reflexivity|]. intros k [= <-]. rewrite measurand_limit by (simpl; tauto).
    vm_compute. discriminate.
  - split; [vm_compute; reflexivity|]. intros k [= <-]. rewrite measurand_limit by (simpl; tauto).
    vm_compute. discriminate.
  - split; [vm_compute; reflexivity|]. intros k [= <-]. rewrite measurand_limit by (simpl; tauto).
    vm_compute. discriminate.
  - split; [vm_compute; reflexivity|]. intros k [= <-]. rewrite measurand_limit by (simpl; tauto).
    vm_compute. discriminate.
  - split; [|discriminate]. unfold accepts. rewrite parse_int_to_string by lia.
    apply Z.leb_le. lia.
Qed.

Lemma new_ok c : registry_config c -> registry_ok (new c).
Proof.
  intros Hc.
  assert (keys_unique (new c)) as Hu.
  { eapply (keys_unique_shapes (new StationConfig.default)); [reflexivity|].
    apply (bool_decide_unpack _). vm_compute. exact I. }
  split_and!; [done| |].
  - apply limits_of_shapes_ok. rewrite shapes_new. vm_compute. reflexivity.
  - apply values_valid_fits; [done|]. intros e Hin.
    pose proof (entries_fit_new c Hc) as H. rewrite Forall_forall in H.
    apply H. by apply list_elem_of_In.
Qed.

(** Claim C24: whatever sequence of ChangeConfiguration requests a station gets, its registry
    keeps one entry per key in any letter case, every list limit stays a read-only key with
    its default value, and every persisted value stays one that the registry would accept. *)
Theorem registry_invariant (c : StationConfig.t) (requests : list (str * str)) :
  registry_config c ->
  let r := changes (new c) requests in
  registry_ok r /\ shapes r = default_shapes /\ connector_count r = connector_count (new c) /\
  forall name e, get (new c) name = Some e -> readonly e = true -> get r name = Some e.
Proof.
  intros Hc r. split_and!.
  - apply changes_ok, new_ok, Hc.
  - unfold r. destruct (changes_check (new c) requests [] []) as (_ & _ & ->); [|done].
    by apply new_ok.
  - subst r. generalize (new c). induction requests as [|[k v] requests IH]; intros r; [done|].
    unfold changes. simpl. fold (changes (change r k v).1 requests). rewrite IH.
    by destruct (change_cases r k v) as [[_ ->]|(?&?&_&_&_&_&_&->)].
  - intros name e. apply changes_readonly.
Qed.

Lemma registry_config_default : registry_config StationConfig.default.
Proof. unfold registry_config. repeat split; vm_compute; congruence. Qed.

Lemma registry_invariant_witness :
  registry_ok (changes (new StationConfig.default)
                 [(lit "heartbeatinterval", lit "5"); (lit "HeartbeatInterval", lit "no")]).
Proof.
  refine (proj1 (registry_invariant StationConfig.default _ _)).
  exact registry_config_default.
Defined.

Lemma restore_values_readonly values r skipped name e :
  get r name = Some e -> readonly e = true ->
  get (restore_values r values skipped).1 name = Some e.
Proof.
  revert r skipped. induction values as [|[k v] values IH]; intros r skipped Hn Hro; [done|].
  simpl. destruct (change r k v) as [r1 st] eqn:Ec. apply IH; [|done].
  assert (r1 = changes r [(k, v)]) as -> by (unfold changes; simpl; by rewrite Ec).
  by apply changes_readonly.
Qed.

(** Claim C30: a restart keeps the configuration: restoring the snapshot of a registry,
    after any ChangeConfiguration requests, into the registry of the same station skips no
    key and gives back every value that is not the write-only secret. *)
Theorem restart_keeps_configuration (c : StationConfig.t) (requests : list (str * str)) :
  registry_config c ->
  let r := changes (new c) requests in
  exists r', restore (new c) (snapshot r) = (r', []) /\
    forall name e, get r name = Some e -> secret e = false -> get r' name = Some e.
Proof.
  intros Hc r. pose proof (new_ok c Hc) as H0. pose proof H0 as (_ & Hl & _).
  destruct (changes_check (new c) requests [] [] Hl) as (_ & _ & Hs).
  assert (Hr : forall name e, get r name = Some e -> persisted e = true ->
            get (restore (new c) (snapshot r)).1 name = Some e).
  { intros name e He Hp.
    destruct (restore_snapshot (new c) r name e) as (r' & -> & _ & H); auto.
    - by apply changes_ok.
    - intros n v. symmetry. by apply changes_check. }
  destruct (restore_snapshot (new c) r [] (writable [] Text [])) as (r' & Hr' & Hs' & _).
  { by apply changes_ok. }
  { done. }
  { done. }
  { intros n v. symmetry. by apply changes_check. }
  exists r'. split; [done|]. rewrite Hr' in Hr. simpl in Hr. intros name e He Hsec.
  destruct (readonly e) eqn:Hro; [|apply Hr; [done|]; unfold persisted; by rewrite Hro, Hsec].
  assert (get (new c) name = Some e) as Hn.
  { destruct (get_shapes_Some r (new c) name e) as [e' He']; [done|done|].
    assert (shape e' = shape e) as Hsh by (by eapply (get_shape r (new c) name)).
    assert (readonly e' = true) as Hro' by (unfold shape in Hsh; congruence).
    pose proof (changes_readonly (new c) requests name e' He' Hro') as Hk.
    fold r in Hk. congruence. }
  replace r' with (restore (new c) (snapshot r)).1 by by rewrite Hr'.
  by apply restore_values_readonly.
Qed.

Lemma restart_keeps_configuration_witness :
  let r := changes (new StationConfig.default) [(lit "HeartbeatInterval", lit "5")] in
  exists r', restore (new StationConfig.default) (snapshot r) = (r', []) /\
    get r' HEARTBEAT_INTERVAL =
      Some (mk_entry HEARTBEAT_INTERVAL false (lit "5") PositiveInt None).
Proof.
  destruct (restart_keeps_configuration StationConfig.default
              [(lit "HeartbeatInterval", lit "5")] registry_config_default) as (r' & Hr & Hg).
  exists r'. split; [exact Hr|]. apply Hg; vm_compute; reflexivity.
Defined.

(** [GetConfiguration] with no names reports every entry in registry order; with
    more names than [GetConfigurationMaxKeys] it is refused with both counts; otherwise the
    known names give their entries and the unknown ones are echoed, in the order asked and
    none lost. *)
Theorem get_configuration_spec (r : t) (names : list str) :
  match get_configuration r names with
  | Err e => number r GET_CONFIGURATION_MAX_KEYS < len names /\ names <> [] /\
             requested e = len names /\ max e = number r GET_CONFIGURATION_MAX_KEYS
  | Ok report =>
      (names = [] -> configuration_key report = entries r /\ unknown_key report = []) /\
      (names <> [] ->
         len names <= number r GET_CONFIGURATION_MAX_KEYS /\
         len (configuration_key report) + len (unknown_key report) = len names /\
         (forall e, In e (configuration_key report) <->
            exists name, In name names /\ get r name = Some e) /\
         (forall name, In name (unknown_key report) <-> In name names /\ get r name = None))
  end.
Proof.
  unfold get_configuration. destruct names as [|n names]; [by split|].
  destruct (_ <? _) eqn:E; bool_facts; [by split_and!|].
  split; [done|]. intros _. split; [done|].
  cbn [configuration_key unknown_key]. generalize (n :: names). clear. intros names.
  split_and!.
  - unfold len in *. induction names as [|n names IH]; [done|].
    cbn [omap list_omap List.filter]. destruct (get r n); cbn [is_someb negb length] in *;
      rewrite !Nat2Z.inj_succ; lia.
  - intros e. rewrite <- list_elem_of_In, list_elem_of_omap. setoid_rewrite list_elem_of_In. done.
  - intros name. rewrite retain_In. by destruct (get r name); naive_solver.
Qed.

(** ** Growing the connectors *)

Lemma value_set_internal r name v other :
  value (set_internal r name v) other =
  if same_key name other && is_someb (index_of r name) then Some v else value r other.
Proof.
  unfold set_internal. destruct (index_of r name) as [i|] eqn:E; simpl.
  - rewrite andb_true_r. by apply value_set_value.
  - by rewrite andb_false_r.
Qed.

Lemma index_of_default r name :
  shapes r = default_shapes ->
  index_of r name = position (fun '(k, _, _, _) => eq_ignore_ascii_case k name) default_shapes.
Proof. intros <-. apply index_of_shapes. Qed.

Lemma shapes_set_internal r name v : shapes (set_internal r name v) = shapes r.
Proof. unfold set_internal. destruct (index_of r name); [apply shapes_set_value|done]. Qed.

Lemma connector_count_set_internal r name v :
  connector_count (set_internal r name v) = connector_count r.
Proof. unfold set_internal. by destruct (index_of r name). Qed.

(** Compares two key names of the source. *)
Ltac closed_keys :=
  repeat match goal with
  | |- context [same_key ?a ?b] =>
      let c := eval vm_compute in (same_key a b) in
      lazymatch c with true => idtac | false => idtac end;
      change (same_key a b) with c
  end.

Definition connector_keys : list str :=
  [NUMBER_OF_CONNECTORS; CONNECTOR_PHASE_ROTATION_MAX_LENGTH; CONNECTOR_PHASE_ROTATION].

(** The entries [set_connector_count] appends for [count] connectors. *)
Definition missing_connectors (covered : list Z) (count : Z) : list Z :=
  retain (fun id => negb (any (Z.eqb id) covered)) (seqZ 1 count).

Lemma covered_phase_items ids :
  Forall (fun id => is_u32 id) ids ->
  omap (fun item => split_once 46 item ≫= fun '(connector, _) => parse_u32 connector)
    (map phase_item ids) = ids.
Proof.
  induction ids as [|id ids IH]; [done|]. intros [Hid H]%Forall_cons. simpl.
  destruct (phase_item_ok id) as (_ & _ & ->); [apply Hid|]. simpl.
  rewrite parse_u32_to_string by done. f_equal. exact (IH H).
Qed.

(** The registry after the two derived keys were set for [count] connectors. *)
Definition counted_keys (r : t) (count : Z) : t :=
  set_internal (set_internal (r <| connector_count := count |>) NUMBER_OF_CONNECTORS
                  (to_string count))
    CONNECTOR_PHASE_ROTATION_MAX_LENGTH (to_string (count + 1)).

(** The value of [ConnectorPhaseRotation] with entries for the missing connectors. *)
Definition extended_rotation (current : str) (count : Z) : str :=
  join 44 (list_items current
           ++ map phase_item (missing_connectors (covered_connectors current) count)).

Lemma value_set_known r key v name :
  shapes r = default_shapes ->
  is_someb (position (fun '(k, _, _, _) => eq_ignore_ascii_case k key) default_shapes) = true ->
  value (set_internal r key v) name = if same_key key name then Some v else value r name.
Proof.
  intros Hs Hk. rewrite value_set_internal, (index_of_default r) by done. rewrite Hk.
  by rewrite andb_true_r.
Qed.

Lemma counted_keys_spec r count :
  shapes r = default_shapes ->
  shapes (counted_keys r count) = default_shapes /\
  connector_count (counted_keys r count) = count /\
  forall name, value (counted_keys r count) name =
    if same_key CONNECTOR_PHASE_ROTATION_MAX_LENGTH name then Some (to_string (count + 1))
    else if same_key NUMBER_OF_CONNECTORS name then Some (to_string count) else value r name.
Proof.
  intros Hs. unfold counted_keys. rewrite !shapes_set_internal, !connector_count_set_internal.
  split; [done|]. split; [done|]. intros name.
  rewrite value_set_known by (rewrite ?shapes_set_internal; done || (vm_compute; reflexivity)).
  by rewrite value_set_known by (done || (vm_compute; reflexivity)).
Qed.

Lemma missing_connectors_range covered count id :
  In id (missing_connectors covered count) -> 1 <= id <= count.
Proof. intros [Hin _]%retain_In. apply list_elem_of_In, elem_of_seqZ in Hin. lia. Qed.

Lemma extended_rotation_items current count :
  list_items (extended_rotation current count) =
  list_items current ++ map phase_item (missing_connectors (covered_connectors current) count).
Proof.
  apply list_items_join, Forall_app. split; apply Forall_forall; intros w Hw.
  - apply list_elem_of_In in Hw. by eapply list_items_ok.
  - apply list_elem_of_In, in_map_iff in Hw as (id & <- & Hid).
    apply phase_item_ok. apply missing_connectors_range in Hid. lia.
Qed.

Lemma extended_rotation_accepted current count :
  accepts PhaseRotations current = true ->
  accepts PhaseRotations (extended_rotation current count) = true.
Proof.
  intros Hacc. unfold accepts in *. rewrite extended_rotation_items.
  destruct (list_items current) as [|w ws]; [done|].
  unfold non_empty_all in *. simpl app. unfold all in *. rewrite app_comm_cons.
  rewrite forallb_app, Hacc. apply forallb_forall. intros y Hy.
  apply in_map_iff in Hy as (id & <- & Hid). apply phase_item_ok.
  apply missing_connectors_range in Hid. lia.
Qed.

Lemma extended_rotation_covers current count id :
  count < u32_max -> 1 <= id <= count ->
  In id (covered_connectors (extended_rotation current count)).
Proof.
  intros Hmax Hid. unfold covered_connectors at 1. rewrite extended_rotation_items, omap_app.
  rewrite covered_phase_items.
  2: { apply Forall_forall. intros i Hi. apply list_elem_of_In, missing_connectors_range in Hi.
       unfold is_u32. lia. }
  apply in_or_app. fold (covered_connectors current).
  destruct (any (Z.eqb id) (covered_connectors current)) eqn:Ea.
  - left. unfold any in Ea. apply existsb_exists in Ea as (y & Hy & Hyid).
    apply Z.eqb_eq in Hyid. by rewrite Hyid.
  - right. apply retain_In. split; [|by rewrite Ea].
    apply list_elem_of_In, elem_of_seqZ. lia.
Qed.

(** Adding connectors updates the two derived read-only keys, touches no key but
    those and [ConnectorPhaseRotation], and, when that key uses the per-connector form,
    appends an entry for exactly the connectors that have none, keeping the existing items
    in place: afterwards every connector is covered and the value still has the key's type.
    A count that is not larger changes nothing. *)
Theorem set_connector_count_spec (r : t) (count : Z) (current : str) :
  shapes r = default_shapes -> 0 <= connector_count r -> count < u32_max ->
  value r CONNECTOR_PHASE_ROTATION = Some current -> accepts PhaseRotations current = true ->
  let r' := set_connector_count r count in
  let covered := covered_connectors current in
  (count <= connector_count r -> r' = r) /\
  (connector_count r < count ->
     connector_count r' = count /\ shapes r' = shapes r /\
     number r' NUMBER_OF_CONNECTORS = count /\
     number r' CONNECTOR_PHASE_ROTATION_MAX_LENGTH = count + 1 /\
     (forall name, any (fun k => same_key k name) connector_keys = false ->
        value r' name = value r name) /\
     exists v, value r' CONNECTOR_PHASE_ROTATION = Some v /\
       accepts PhaseRotations v = true /\
       (covered = [] -> v = current) /\
       (covered <> [] ->
          list_items v = list_items current ++ map phase_item (missing_connectors covered count) /\
          forall id, 1 <= id <= count -> In id (covered_connectors v))).
Proof.
  intros Hs H0 Hmax Hcur Hacc r' covered. unfold r', set_connector_count.
  split; [intros H; by rewrite (proj2 (Z.leb_le _ _) H)|]. intros H.
  rewrite (proj2 (Z.leb_gt _ _) H). clear r'. cbv zeta. fold (counted_keys r count).
  destruct (counted_keys_spec r count Hs) as (Hs2 & Hc2 & Hv2). set (r2 := counted_keys r count) in *.
  assert (Hn1 : parse_u32 (to_string count) = Some count)
    by (apply parse_u32_to_string; unfold is_u32; lia).
  assert (Hn2 : parse_u32 (to_string (count + 1)) = Some (count + 1))
    by (apply parse_u32_to_string; unfold is_u32; lia).
  assert (value r2 CONNECTOR_PHASE_ROTATION = Some current) as Hcur2 by (rewrite Hv2; by closed_keys).
  rewrite Hcur2.
  assert (Hplain : forall name, any (fun k => same_key k name) connector_keys = false ->
    value r2 name = value r name /\ same_key CONNECTOR_PHASE_ROTATION name = false).
  { intros name Hname. simpl in Hname. bool_facts. rewrite Hv2.
    repeat match goal with E : same_key _ name = false |- _ => rewrite E; clear E end. done. }
  fold covered. destruct covered as [|x xs] eqn:Ecov.
  { split_and!; [done|congruence| | |intros nm Hnm; exact (proj1 (Hplain nm Hnm))|exists current; by split_and!].
    - unfold number. rewrite Hv2. closed_keys. simpl. by rewrite Hn1.
    - unfold number. rewrite Hv2. closed_keys. simpl. by rewrite Hn2. }
  rewrite <- Ecov. unfold covered.
  fold (missing_connectors (covered_connectors current) count) (extended_rotation current count).
  assert (Hvr : forall name,
    value (set_internal r2 CONNECTOR_PHASE_ROTATION (extended_rotation current count)) name =
    if same_key CONNECTOR_PHASE_ROTATION name then Some (extended_rotation current count)
    else value r2 name).
  { intros name. apply value_set_known; [done|]. vm_compute. reflexivity. }
  split_and!.
  - by rewrite connector_count_set_internal.
  - rewrite shapes_set_internal. congruence.
  - unfold number. rewrite Hvr, Hv2. closed_keys. simpl. by rewrite Hn1.
  - unfold number. rewrite Hvr, Hv2. closed_keys. simpl. by rewrite Hn2.
  - intros name Hname. destruct (Hplain name Hname) as [<- E]. by rewrite Hvr, E.
  - exists (extended_rotation current count). split_and!.
    + rewrite Hvr. by closed_keys.
    + by apply extended_rotation_accepted.
    + fold covered. by rewrite Ecov.
    + intros _. split; [apply extended_rotation_items|].
      intros id Hid. by apply extended_rotation_covers.
Qed.

Lemma set_connector_count_witness :
  number (set_connector_count (new StationConfig.default) 3) NUMBER_OF_CONNECTORS = 3.
Proof.
  apply (set_connector_count_spec (new StationConfig.default) 3 (lit "1.Unknown")).
  - reflexivity.
  - vm_compute. congruence.
  - reflexivity.
  - vm_compute. reflexivity.
  - vm_compute. reflexivity.
  - reflexivity.
Defined.

(** The appended entries can exceed the item limit of the key, when entries of connectors
    that do not exist were accepted before: such a value is dropped by the next restart. *)
Example grown_value_over_limit :
  let r := changes (new StationConfig.default) [(CONNECTOR_PHASE_ROTATION, lit "5.RST,6.RST")] in
  let r' := set_connector_count r 2 in
  value r' CONNECTOR_PHASE_ROTATION = Some (lit "5.RST,6.RST,1.Unknown,2.Unknown") /\
  check r' CONNECTOR_PHASE_ROTATION (lit "5.RST,6.RST,1.Unknown,2.Unknown")
    = ConfigurationStatus.Rejected.
Proof. split; vm_compute; reflexivity. Qed.

(** ** The typed accessors *)

Lemma parse_int_parse_u32 v n : parse_int v = Some n -> parse_u32 v = Some n /\ 0 <= n <= i32_max.
Proof.
  unfold parse_int. destruct (v == []) eqn:En; [done|]. simpl.
  destruct (all is_ascii_digit v) eqn:Ed; [|done]. simpl. intros H.
  assert (Forall (fun c => is_ascii_digit c = true) v) as Hd.
  { apply Forall_forall. intros c Hc. apply list_elem_of_In in Hc.
    unfold all in Ed. rewrite forallb_forall in Ed. auto. }
  assert (exists m, digits_value v = Some m /\ try_into i32_min i32_max m = Some n) as (m & Hm & Ht).
  { unfold parse_i32 in H. destruct v as [|c [|d s]]; [done| |].
    - destruct (digits_value [c]) as [m|]; [by exists m|done].
    - assert ((c =? 45) = false) as Hc.
      { inversion Hd as [|?? Hc]; subst. apply Z.eqb_neq. unfold is_ascii_digit in Hc.
        bool_facts. lia. }
      rewrite Hc, unsigned_part_digits in H by done.
      destruct (digits_value (c :: d :: s)) as [m|]; [by exists m|done]. }
  unfold try_into in Ht. destruct (_ && _) eqn:Hb; [|done]. injection Ht as ->. bool_facts.
  assert (0 <= n).
  { unfold digits_value in Hm. destruct v as [|c s]; [done|].
    by apply (digits_acc_nonneg _ 0) in Hm. }
  split; [|done]. unfold parse_u32, parse_unsigned. rewrite unsigned_part_digits, Hm by done.
  rewrite (proj2 (Z.leb_le _ _)); [done|]. unfold i32_max, u32_max in *. lia.
Qed.

Lemma accepted_value r name e :
  registry_ok r -> get r name = Some e -> persisted e = true ->
  value r name = Some (entry_value e) /\ accepts (kind e) (entry_value e) = true.
Proof.
  intros (Hu & _ & Hv) He Hp. unfold value. rewrite He. split; [done|].
  pose proof (Hv e (get_In _ _ _ He) Hp) as (e' & He' & _ & Ha & _)%check_Accepted.
  rewrite (get_entry r e Hu (get_In _ _ _ He)) in He'. congruence.
Qed.

Lemma default_entry r name i k ro ki mx :
  shapes r = default_shapes ->
  position (fun '(k, _, _, _) => eq_ignore_ascii_case k name) default_shapes = Some i ->
  default_shapes !! i = Some (k, ro, ki, mx) ->
  exists e, get r name = Some e /\ readonly e = ro /\ kind e = ki.
Proof.
  intros Hs Hi Hl. rewrite <- (index_of_default r) in Hi by done.
  destruct (index_get r name i Hi) as [e He]. exists e. split; [done|].
  apply get_index in He as (j & Hj & Hje & _). rewrite Hi in Hj. injection Hj as <-.
  rewrite <- Hs in Hl. unfold shapes in Hl. change (map ?f ?l) with (f <$> l) in Hl.
  rewrite list_lookup_fmap, Hje in Hl. unfold shape in Hl. simpl in Hl.
  by simplify_eq.
Qed.

(** The entry of a closed key: its kind and that it is writable. *)
Ltac known_entry r Hs name e He Hk Hro :=
  let i := eval vm_compute in
    (position (fun '(k, _, _, _) => eq_ignore_ascii_case k name) default_shapes) in
  lazymatch i with
  | Some ?n =>
      edestruct (default_entry r name n) as (e & He & Hro & Hk);
      [ exact Hs | vm_compute; reflexivity | vm_compute; reflexivity | ]
  end.

Lemma number_positive r name e :
  registry_ok r -> get r name = Some e -> readonly e = false -> kind e = PositiveInt ->
  1 <= number r name <= i32_max.
Proof.
  intros Hok He Hro Hk. destruct (accepted_value r name e) as [Hv Ha]; [done..| |].
  { unfold persisted, secret. by rewrite Hro, Hk. }
  rewrite Hk in Ha. unfold accepts in Ha. destruct (parse_int _) as [n|] eqn:Hp; [|done].
  simpl in Ha. apply parse_int_parse_u32 in Hp as [Hp Hb]. unfold number. rewrite Hv. simpl.
  rewrite Hp. simpl. bool_facts. lia.
Qed.

Lemma number_non_negative r name e :
  registry_ok r -> get r name = Some e -> readonly e = false -> kind e = NonNegativeInt ->
  0 <= number r name <= i32_max.
Proof.
  intros Hok He Hro Hk. destruct (accepted_value r name e) as [Hv Ha]; [done..| |].
  { unfold persisted, secret. by rewrite Hro, Hk. }
  rewrite Hk in Ha. unfold accepts in Ha. destruct (parse_int _) as [n|] eqn:Hp; [|done].
  simpl in Ha. apply parse_int_parse_u32 in Hp as [Hp Hb]. unfold number. rewrite Hv. simpl.
  by rewrite Hp.
Qed.

Lemma measurands_accessor r :
  registry_ok r -> shapes r = default_shapes ->
  exists v, value r METER_VALUES_SAMPLED_DATA = Some v /\
    measurands r METER_VALUES_SAMPLED_DATA <> [] /\
    map Measurand.as_str (measurands r METER_VALUES_SAMPLED_DATA) = list_items v.
Proof.
  intros Hok Hs.
  known_entry r Hs METER_VALUES_SAMPLED_DATA e He Hk Hro.
  destruct (accepted_value r _ e Hok He) as [Hv Ha].
  { unfold persisted, secret. by rewrite Hro, Hk. }
  exists (entry_value e). split; [done|]. rewrite Hk in Ha. unfold accepts in Ha.
  unfold measurands. rewrite Hv.
  assert (map Measurand.as_str
            (omap (fun item => ok (measurand_from_str item)) (list_items (entry_value e)))
          = list_items (entry_value e)) as Hm.
  { destruct (list_items (entry_value e)) as [|w ws]; [done|]. unfold non_empty_all in Ha.
    revert Ha. generalize (w :: ws). clear. intros l Ha.
    induction l as [|x l IH]; [done|]. simpl in Ha. apply andb_true_iff in Ha as [Hx Ha].
    simpl. destruct (measurand_from_str x) as [m|] eqn:Em; [|done]. simpl.
    apply parse_enum_sound in Em. f_equal; [done|]. exact (IH Ha). }
  destruct (omap _ _) as [|m ms] eqn:Eo; [|done].
  simpl in Hm. rewrite <- Hm in Ha. done.
Qed.

(** On a valid registry the accessors return values of the ranges the station
    relies on: the heartbeat and retry intervals are positive OCPP integers, at least one
    delivery attempt is made, the security profile is one of the four, the durations are
    not negative, and a sampled-data key gives exactly the measurands of its items, at
    least one, never the fallback list. *)
Theorem accessor_ranges (r : t) :
  registry_ok r -> shapes r = default_shapes ->
  1 <= heartbeat_interval_secs r <= i32_max /\
  1 <= transaction_message_attempts r <= i32_max /\
  NS_PER_SEC <= transaction_message_retry_interval r <= i32_max * NS_PER_SEC /\
  0 <= minimum_status_duration r <= i32_max * NS_PER_SEC /\
  0 <= meter_value_sample_interval_secs r <= i32_max /\
  0 <= security_profile r <= 3 /\
  exists v, value r METER_VALUES_SAMPLED_DATA = Some v /\
    measurands r METER_VALUES_SAMPLED_DATA <> [] /\
    map Measurand.as_str (measurands r METER_VALUES_SAMPLED_DATA) = list_items v.
Proof.
  intros Hok Hs. split_and!; [..|by apply measurands_accessor].
  1, 2: known_entry r Hs HEARTBEAT_INTERVAL e He Hk Hro;
        pose proof (number_positive r _ e Hok He Hro Hk) as H;
        unfold heartbeat_interval_secs; lia.
  1, 2: known_entry r Hs TRANSACTION_MESSAGE_ATTEMPTS e He Hk Hro;
        pose proof (number_positive r _ e Hok He Hro Hk) as H;
        unfold transaction_message_attempts; lia.
  1, 2: known_entry r Hs TRANSACTION_MESSAGE_RETRY_INTERVAL e He Hk Hro;
        pose proof (number_positive r _ e Hok He Hro Hk) as H;
        unfold transaction_message_retry_interval, NS_PER_SEC; lia.
  1, 2: known_entry r Hs MINIMUM_STATUS_DURATION e He Hk Hro;
        pose proof (number_non_negative r _ e Hok He Hro Hk) as H;
        unfold minimum_status_duration, NS_PER_SEC; lia.
  1, 2: known_entry r Hs METER_VALUE_SAMPLE_INTERVAL e He Hk Hro;
        pose proof (number_non_negative r _ e Hok He Hro Hk) as H;
        unfold meter_value_sample_interval_secs; lia.
  1, 2: known_entry r Hs SECURITY_PROFILE e He Hk Hro;
        destruct (accepted_value r _ e Hok He) as [Hv Ha];
        [unfold persisted, secret; by rewrite Hro, Hk|];
        rewrite Hk in Ha; unfold accepts in Ha;
        destruct (parse_int _) as [n|] eqn:Hp; [|done]; simpl in Ha;
        apply parse_int_parse_u32 in Hp as [Hp Hb];
        unfold security_profile, number; rewrite Hv; simpl; rewrite Hp; simpl;
        bool_facts; unfold try_into, u8_max;
        rewrite (proj2 (Z.leb_le 0 n)), (proj2 (Z.leb_le n 255)) by lia; simpl; lia.
Qed.

Lemma accessor_ranges_witness :
  1 <= heartbeat_interval_secs (new StationConfig.default) <= i32_max.
Proof.
  refine (proj1 (accessor_ranges (new StationConfig.default) _ _)).
  - exact (new_ok StationConfig.default registry_config_default).
  - reflexivity.
Defined.

End ConfigRegistry.
Export (hints) ConfigRegistry.
