(* ===== verification/LocalAuthList.v ===== *)
(** * LocalAuthList: the local authorization list

    [station/local_auth_list.rs]: the list the CSMS installs with [SendLocalList], its size
    limits and its version. *)

From stdpp Require Import strings.
From S2P Require Import Prelude Text Time Types Messages Config ConfigRegistry.
Local Open Scope Z_scope.

Module LocalAuthList.

Record LocalListLimits : Type := mk_limits {
  enabled : bool;
  max_update_entries : Z;
  max_entries : Z;
}.

Definition from_config (config : ConfigRegistry.t) : LocalListLimits := {|
  enabled := ConfigRegistry.local_auth_list_enabled config;
  max_update_entries := ConfigRegistry.send_local_list_max_length config;
  max_entries := ConfigRegistry.local_auth_list_max_length config;
|}.

Record t : Type := mk {
  version : Z;
  entries : gmap IdTag IdTagInfo.t;
}.
#[export] Instance eta : Eta t := fun l => mk (version l) (entries l).

Definition default : t := mk 0 ∅.

Definition count (l : t) : Z := Z.of_nat (size (entries l)).
Definition get (l : t) (id_tag : IdTag) : option IdTagInfo.t := entries l !! id_tag.
Definition iter (l : t) : list (IdTag * IdTagInfo.t) := btree_iter (entries l).
Definition reported_version (l : t) (is_enabled : bool) : Z :=
  if is_enabled then version l else -1.

(** One entry of an update: with an [idTagInfo] it is stored, without it the tag is removed. *)
Definition apply_item (next : gmap IdTag IdTagInfo.t) (item : AuthorizationData.t)
  : gmap IdTag IdTagInfo.t :=
  match AuthorizationData.id_tag_info item with
  | Some info => <[AuthorizationData.id_tag item := info]> next
  | None => base.delete (AuthorizationData.id_tag item) next
  end.

Definition apply (l : t) (request : SendLocalListRequest.t) (limits : LocalListLimits)
  : t * UpdateStatus.t :=
  if negb (enabled limits) then (l, UpdateStatus.NotSupported)
  else
    let update := from_option id [] (SendLocalListRequest.local_authorization_list request) in
    if max_update_entries limits <? len update then (l, UpdateStatus.Failed)
    else
      let full := SendLocalListRequest.update_type request == UpdateType.Full in
      if full && any (fun item => negb (is_someb (AuthorizationData.id_tag_info item))) update
      then (l, UpdateStatus.Failed)
      else
        let next := fold_left apply_item update (if full then ∅ else entries l) in
        if max_entries limits <? Z.of_nat (size next) then (l, UpdateStatus.Failed)
        else if negb full && (SendLocalListRequest.list_version request <=? version l)
        then (l, UpdateStatus.VersionMismatch)
        else (mk (SendLocalListRequest.list_version request) next, UpdateStatus.Accepted).

(** ** What an update does *)

(** The last entry of an update for a tag. *)
Definition last_item (update : list AuthorizationData.t) (tag : IdTag) : option AuthorizationData.t :=
  find_first (fun item => AuthorizationData.id_tag item == tag) (rev update).

Definition update_of (request : SendLocalListRequest.t) : list AuthorizationData.t :=
  from_option id [] (SendLocalListRequest.local_authorization_list request).

(** What a tag maps to after an update of the entries [base]. *)
Definition updated (base : gmap IdTag IdTagInfo.t) (update : list AuthorizationData.t) (tag : IdTag)
  : option IdTagInfo.t :=
  match last_item update tag with
  | Some item => AuthorizationData.id_tag_info item
  | None => base !! tag
  end.

Lemma fold_apply_lookup update base tag :
  fold_left apply_item update base !! tag = updated base update tag.
Proof.
  induction update as [|item update IH] using rev_ind; [done|].
  rewrite fold_left_app. cbn [fold_left]. unfold updated, last_item in *.
  rewrite rev_app_distr. cbn [rev app List.find]. unfold apply_item at 1.
  destruct (AuthorizationData.id_tag item == tag) eqn:E;
    rewrite ?eqb_true, ?eqb_false in E.
  - subst tag. destruct (AuthorizationData.id_tag_info item).
    + by rewrite lookup_insert_eq.
    + by rewrite lookup_delete_eq.
  - destruct (AuthorizationData.id_tag_info item).
    + by rewrite lookup_insert_ne.
    + by rewrite lookup_delete_ne.
Qed.

(** A [SendLocalList] is accepted exactly when the feature is on, the update and
    the resulting list fit their limits, a full update names an [idTagInfo] for every tag and
    a differential one raises the version; then the list has the request's version, holds at
    most the allowed entries, and every tag maps to what the last entry for it says (or, for
    a tag the update does not name, to what it was before a differential update). Every other
    answer leaves the list and its version untouched. *)
Theorem apply_spec (l : t) (request : SendLocalListRequest.t) (limits : LocalListLimits) :
  let full := SendLocalListRequest.update_type request == UpdateType.Full in
  let update := update_of request in
  let old := if full then ∅ else entries l in
  let '(l', status) := apply l request limits in
  (status <> UpdateStatus.Accepted -> l' = l) /\
  (status = UpdateStatus.Accepted ->
     version l' = SendLocalListRequest.list_version request /\
     count l' <= max_entries limits /\
     forall tag, get l' tag = updated old update tag) /\
  (status = UpdateStatus.NotSupported <-> enabled limits = false) /\
  (status = UpdateStatus.Accepted <->
     enabled limits = true /\ len update <= max_update_entries limits /\
     (full = true -> forall item, In item update -> AuthorizationData.id_tag_info item <> None) /\
     Z.of_nat (size (fold_left apply_item update old)) <= max_entries limits /\
     (full = false -> version l < SendLocalListRequest.list_version request)).
Proof.
  cbv zeta. unfold apply. fold (update_of request).
  set (full := _ == UpdateType.Full). set (update := update_of request).
  set (next := fold_left apply_item update _).
  destruct (enabled limits); cbn [negb]; [|split_and!; try done; split; [done|by intros (?&_)]].
  destruct (_ <? len update) eqn:E1; bool_facts.
  { split_and!; try done. split; [done|]. intros (_&?&_). lia. }
  destruct (full && _) eqn:E2.
  { split_and!; try done. split; [done|]. intros (_&_&H&_). apply andb_true_iff in E2 as [Hf Ha].
    apply existsb_exists in Ha as (item & Hin & Hn).
    specialize (H Hf item Hin). by destruct (AuthorizationData.id_tag_info item). }
  destruct (_ <? Z.of_nat _) eqn:E3; bool_facts.
  { split_and!; try done. split; [done|]. intros (_&_&_&?&_). lia. }
  destruct (negb full && _) eqn:E4.
  { apply andb_true_iff in E4 as [Hf Hv]. apply negb_true_iff in Hf. apply Z.leb_le in Hv.
    split_and!; try done. split; [done|]. intros (_&_&_&_&H). specialize (H Hf). lia. }
  split_and!; try done.
  - intros _. split_and!; [done|unfold count; simpl; lia|].
    intros tag. apply fold_apply_lookup.
  - split; [|done]. intros _. split_and!; try done; try lia.
    + intros Hf item Hin Hn. rewrite Hf in E2. simpl in E2.
      assert (any (fun item => negb (is_someb (AuthorizationData.id_tag_info item))) update = true);
        [|congruence].
      apply existsb_exists. exists item. by rewrite Hn.
    + intros Hf. rewrite Hf in E4. simpl in E4. by apply Z.leb_gt in E4.
Qed.

End LocalAuthList.
Export (hints) LocalAuthList.
