(* ===== verification/Authorization.v ===== *)
(** * Authorization: local list, authorization cache, offline rules

    [station/authorization.rs]: how the station decides about an idTag without the CSMS, and
    the bounded cache of the CSMS's answers. *)

From stdpp Require Import strings.
From S2P Require Import Prelude Text Time Types Messages Config ConfigRegistry LocalAuthList.
Local Open Scope Z_scope.

Module Authorization.

Definition DEFAULT_CACHE_CAPACITY : Z := 1000.

Inductive AuthSource : Type :=
| CentralSystem | LocalList | Cache | OfflineUnknown | NoSource.
#[export] Instance source_eq_dec : EqDecision AuthSource.
Proof. solve_decision. Defined.

Record AuthorizationDecision : Type := mk_decision {
  accepted : bool;
  id_tag_info : IdTagInfo.t;
  source : AuthSource;
}.

Definition normalize_id_tag_info (info : IdTagInfo.t) (now : DateTime) : IdTagInfo.t :=
  let status :=
    match IdTagInfo.expiry_date info with
    | Some expiry => if expiry <=? now then AuthorizationStatus.Expired else IdTagInfo.status info
    | None => IdTagInfo.status info
    end in
  IdTagInfo.mk status (IdTagInfo.expiry_date info) (IdTagInfo.parent_id_tag info).

Definition is_accepted (info : IdTagInfo.t) : bool :=
  IdTagInfo.status info == AuthorizationStatus.Accepted.

Definition is_live_accept (info : IdTagInfo.t) (now : DateTime) : bool :=
  is_accepted (normalize_id_tag_info info now).

(** ** The cache *)

Record CacheSlot : Type := mk_slot { info : IdTagInfo.t; seq : Z }.

Record AuthorizationCache : Type := mk_cache {
  capacity : Z;
  next_seq : Z;
  cache_entries : gmap IdTag CacheSlot;
}.
#[export] Instance cache_eta : Eta AuthorizationCache := fun c =>
  mk_cache (capacity c) (next_seq c) (cache_entries c).

Definition with_capacity (n : Z) : AuthorizationCache := mk_cache n 0 ∅.
Definition new_cache : AuthorizationCache := with_capacity DEFAULT_CACHE_CAPACITY.
Definition cache_len (c : AuthorizationCache) : Z := Z.of_nat (size (cache_entries c)).
Definition contains (c : AuthorizationCache) (id_tag : IdTag) : bool :=
  is_someb (cache_entries c !! id_tag).

(** The order of [(!is_live_accept, seq)]. *)
Definition evicts_before (now : DateTime) (a b : IdTag * CacheSlot) : bool :=
  let la := is_live_accept (info a.2) now in
  let lb := is_live_accept (info b.2) now in
  if la && negb lb then true
  else if negb la && lb then false
  else seq a.2 <? seq b.2.

Definition evict_one (c : AuthorizationCache) (now : DateTime) : AuthorizationCache :=
  match min_by (evicts_before now) (btree_iter (cache_entries c)) with
  | Some (id_tag, _) => c <| cache_entries ::= base.delete id_tag |>
  | None => c
  end.

(** [while len >= capacity { evict_one }]; every pass removes an entry. *)
Fixpoint evict_while_full (fuel : nat) (c : AuthorizationCache) (now : DateTime)
  : AuthorizationCache :=
  match fuel with
  | O => c
  | S k =>
      if capacity c <=? cache_len c then evict_while_full k (evict_one c now) now else c
  end.

Definition remember (c : AuthorizationCache) (id_tag : IdTag) (i : IdTagInfo.t) (now : DateTime)
  : AuthorizationCache :=
  if capacity c =? 0 then c
  else
    let c := if contains c id_tag then c
             else evict_while_full (size (cache_entries c)) c now in
    mk_cache (capacity c) (u64_wrapping_add (next_seq c) 1)
      (<[id_tag := mk_slot i (next_seq c)]> (cache_entries c)).

Definition lookup (c : AuthorizationCache) (id_tag : IdTag) (now : DateTime) : option IdTagInfo.t :=
  (fun slot => normalize_id_tag_info (info slot) now) <$> cache_entries c !! id_tag.

Definition clear (c : AuthorizationCache) : AuthorizationCache := c <| cache_entries := ∅ |>.

(** ** Decisions *)

Definition decided (i : IdTagInfo.t) (s : AuthSource) : AuthorizationDecision :=
  mk_decision (is_accepted i) i s.

Definition authorize_locally (id_tag : IdTag) (now : DateTime) (l : LocalAuthList.t)
    (cache : AuthorizationCache) (config : ConfigRegistry.t) (require_offline_permission : bool)
  : AuthorizationDecision :=
  if require_offline_permission && negb (ConfigRegistry.local_authorize_offline config)
  then decided (with_status AuthorizationStatus.Invalid) NoSource
  else
    match (if ConfigRegistry.local_auth_list_enabled config
           then LocalAuthList.get l id_tag else None) with
    | Some i => decided (normalize_id_tag_info i now) LocalList
    | None =>
        match (if ConfigRegistry.authorization_cache_enabled config
               then lookup cache id_tag now else None) with
        | Some i => decided i Cache
        | None =>
            if require_offline_permission
               && ConfigRegistry.allow_offline_tx_for_unknown_id config
            then decided (with_status AuthorizationStatus.Accepted) OfflineUnknown
            else decided (with_status AuthorizationStatus.Invalid) NoSource
        end
    end.

Definition authorize_offline (id_tag : IdTag) (now : DateTime) (l : LocalAuthList.t)
    (cache : AuthorizationCache) (config : ConfigRegistry.t) : AuthorizationDecision :=
  authorize_locally id_tag now l cache config true.

Definition pre_authorize (id_tag : IdTag) (now : DateTime) (l : LocalAuthList.t)
    (cache : AuthorizationCache) (config : ConfigRegistry.t) : option AuthorizationDecision :=
  if ConfigRegistry.local_pre_authorize config
  then Some (authorize_locally id_tag now l cache config false) else None.

Definition apply_online_id_tag_info (id_tag : IdTag) (i : IdTagInfo.t) (now : DateTime)
    (cache : AuthorizationCache) (config : ConfigRegistry.t)
  : AuthorizationCache * AuthorizationDecision :=
  let cache := if ConfigRegistry.authorization_cache_enabled config
               then remember cache id_tag i now else cache in
  (cache, decided (normalize_id_tag_info i now) CentralSystem).

Definition known_parent (id_tag : IdTag) (now : DateTime) (l : LocalAuthList.t)
    (cache : AuthorizationCache) : option IdTag :=
  option_or (LocalAuthList.get l id_tag ≫= IdTagInfo.parent_id_tag)
            (lookup cache id_tag now ≫= IdTagInfo.parent_id_tag).

(** ** The cache stays bounded and forgets denials last *)

Lemma evicts_before_irrefl_trans now :
  (forall a b c, evicts_before now a b = true -> evicts_before now b c = true ->
     evicts_before now a c = true) /\
  (forall a b, evicts_before now a b = true -> evicts_before now b a = false) /\
  (forall a b c, evicts_before now a b = false -> evicts_before now b c = false ->
     evicts_before now a c = false).
Proof.
  unfold evicts_before. split_and!.
  - intros a b c. destruct (is_live_accept (info a.2) now), (is_live_accept (info b.2) now),
      (is_live_accept (info c.2) now); simpl; intros; bool_facts; try done; apply Z.ltb_lt; lia.
  - intros a b. destruct (is_live_accept (info a.2) now), (is_live_accept (info b.2) now);
      simpl; intros; bool_facts; try done; apply Z.ltb_ge; lia.
  - intros a b c. destruct (is_live_accept (info a.2) now), (is_live_accept (info b.2) now),
      (is_live_accept (info c.2) now); simpl; intros; bool_facts; try done; apply Z.ltb_ge; lia.
Qed.

(** The entry that an eviction removes: a live accepted one if there is any, and the oldest
    of its kind. *)
Definition victim (c : AuthorizationCache) (now : DateTime) (tag : IdTag) : Prop :=
  exists s, cache_entries c !! tag = Some s /\
    (is_live_accept (info s) now = false ->
       forall t s', cache_entries c !! t = Some s' -> is_live_accept (info s') now = false) /\
    (forall t s', cache_entries c !! t = Some s' ->
       is_live_accept (info s') now = is_live_accept (info s) now -> seq s <= seq s').

Lemma evict_one_spec c now :
  cache_entries c <> ∅ ->
  exists tag, victim c now tag /\
    evict_one c now = c <| cache_entries ::= base.delete tag |> /\
    cache_len (evict_one c now) = cache_len c - 1.
Proof.
  intros Hne. unfold evict_one.
  destruct (min_by _ _) as [[tag s]|] eqn:E.
  2: { apply min_by_None in E. exfalso. apply Hne. apply map_empty. intros k.
       destruct (cache_entries c !! k) as [v|] eqn:Ek; [|done].
       apply btree_iter_elem in Ek. rewrite E in Ek. by apply not_elem_of_nil in Ek. }
  destruct (evicts_before_irrefl_trans now) as (H1 & H2 & H3).
  apply min_by_spec in E as [Hin Hmin]; [|done..].
  apply list_elem_of_In, btree_iter_elem in Hin.
  assert (Hle : forall t s', cache_entries c !! t = Some s' ->
            evicts_before now (t, s') (tag, s) = false).
  { intros t s' Ht. apply Hmin, list_elem_of_In, btree_iter_elem, Ht. }
  exists tag. split_and!; [|done|].
  - exists s. split_and!; [done| |].
    + intros Hl t s' Ht. specialize (Hle t s' Ht). unfold evicts_before in Hle. simpl in Hle.
      rewrite Hl in Hle. by destruct (is_live_accept (info s') now).
    + intros t s' Ht Hs. specialize (Hle t s' Ht). unfold evicts_before in Hle. simpl in Hle.
      rewrite Hs in Hle. destruct (is_live_accept (info s) now); simpl in Hle; bool_facts; lia.
  - unfold cache_len. simpl. rewrite map_size_delete, Hin.
    assert (size (cache_entries c) <> 0%nat) by by apply map_size_non_empty_iff.
    lia.
Qed.

Lemma evict_while_full_room c now fuel :
  cache_len c < capacity c -> evict_while_full fuel c now = c.
Proof. intros H. destruct fuel; simpl; [done|]. by rewrite (proj2 (Z.leb_gt _ _)). Qed.

(** The cache never holds more entries than its capacity: storing an answer keeps
    the bound, makes the tag read as that answer, and removes at most one other entry, only
    when the cache was full and the tag new: a live accepted one if there is any, the oldest
    of its kind. A denial is forgotten only when no accepted entry is left to drop. *)
Theorem remember_spec (c : AuthorizationCache) (tag : IdTag) (i : IdTagInfo.t) (now : DateTime) :
  0 < capacity c -> cache_len c <= capacity c ->
  let c' := remember c tag i now in
  cache_len c' <= capacity c' /\ capacity c' = capacity c /\
  lookup c' tag now = Some (normalize_id_tag_info i now) /\
  (forall t, t <> tag ->
     cache_entries c' !! t = cache_entries c !! t \/
     (cache_len c = capacity c /\ cache_entries c !! tag = None /\
      cache_entries c' !! t = None /\ victim c now t)) /\
  cache_len c <= cache_len c'.
Proof.
  intros Hcap Hlen. cbv zeta. unfold remember.
  rewrite (proj2 (Z.eqb_neq _ _)) by lia. unfold contains.
  destruct (cache_entries c !! tag) as [s|] eqn:Es; cbn [is_someb].
  { assert (size (<[tag:=mk_slot i (next_seq c)]> (cache_entries c)) = size (cache_entries c)) as Hsz
      by (rewrite map_size_insert, Es; done).
    unfold cache_len, lookup in *. cbn [capacity cache_entries].
    rewrite Hsz, lookup_insert_eq. split_and!; try done.
    intros t Ht. left. by rewrite lookup_insert_ne. }
  destruct (Z.lt_ge_cases (cache_len c) (capacity c)) as [Hroom|Hfull].
  - rewrite evict_while_full_room by done.
    unfold cache_len, lookup in *. cbn [capacity cache_entries].
    rewrite map_size_insert, Es, lookup_insert_eq. split_and!; try done; try lia.
    intros t Ht. left. by rewrite lookup_insert_ne.
  - assert (cache_len c = capacity c) as Heq by lia.
    destruct (evict_one_spec c now) as (v & Hv & He & Hl).
    { intros E. unfold cache_len in Heq. rewrite E, map_size_empty in Heq. lia. }
    destruct (size (cache_entries c)) as [|k] eqn:Ek; [unfold cache_len in Heq; lia|].
    cbn [evict_while_full]. rewrite (proj2 (Z.leb_le _ _)) by lia.
    assert (capacity (evict_one c now) = capacity c) as Hc by by rewrite He.
    rewrite evict_while_full_room by lia.
    assert (cache_entries (evict_one c now) = base.delete v (cache_entries c)) as Hent
      by by rewrite He.
    unfold cache_len, lookup in *. cbn [capacity cache_entries].
    rewrite lookup_insert_eq, map_size_insert.
    assert (cache_entries (evict_one c now) !! tag = None) as Hn.
    { rewrite Hent. destruct (decide (v = tag)) as [->|]; [by rewrite lookup_delete_eq|].
      by rewrite lookup_delete_ne. }
    rewrite Hn. split_and!; try done; try lia.
    intros t Ht. rewrite lookup_insert_ne, Hent by done.
    destruct (decide (v = t)) as [<-|]; [|left; by rewrite lookup_delete_ne].
    right. split_and!; auto. by rewrite lookup_delete_eq.
Qed.

Lemma remember_spec_witness :
  let deny := mk_slot (with_status AuthorizationStatus.Blocked) 0 in
  let accept := mk_slot (with_status AuthorizationStatus.Accepted) 1 in
  let c := mk_cache 2 2 {[lit "A" := deny; lit "B" := accept]} in
  cache_len (remember c (lit "C") (with_status AuthorizationStatus.Accepted) 0) <= 2.
Proof.
  refine (proj1 (remember_spec
    (mk_cache 2 2 {[lit "A" := mk_slot (with_status AuthorizationStatus.Blocked) 0;
                    lit "B" := mk_slot (with_status AuthorizationStatus.Accepted) 1]})
    (lit "C") (with_status AuthorizationStatus.Accepted) 0 _ _)).
  - reflexivity.
  - vm_compute. discriminate.
Defined.

(** ** The decision order *)

Lemma is_accepted_normalize i now :
  is_accepted (normalize_id_tag_info i now) = true <->
  IdTagInfo.status i = AuthorizationStatus.Accepted /\
  forall e, IdTagInfo.expiry_date i = Some e -> now < e.
Proof.
  unfold is_accepted, normalize_id_tag_info. rewrite eqb_true. cbn [IdTagInfo.status].
  destruct (IdTagInfo.expiry_date i) as [e|]; [|naive_solver].
  destruct (e <=? now) eqn:E; bool_facts.
  - split; [done|]. intros [_ H]. specialize (H e eq_refl). lia.
  - naive_solver.
Qed.

(** Offline, a tag is accepted exactly when offline authorization is on and either
    the (enabled) local list accepts it, or the list does not name it and the (enabled) cache
    accepts it, or neither names it and unknown tags are allowed; accepting always means an
    [Accepted] status whose expiry is in the future. Pre-authorization accepts by the list
    and the cache alone, so an unknown tag is never pre-authorized; a tag the list denies is
    accepted by neither, whatever the cache and the flags say. *)
Theorem authorize_spec (tag : IdTag) (now : DateTime) (l : LocalAuthList.t)
    (cache : AuthorizationCache) (config : ConfigRegistry.t) :
  let listed := if ConfigRegistry.local_auth_list_enabled config
                then LocalAuthList.get l tag else None in
  let cached := if ConfigRegistry.authorization_cache_enabled config
                then info <$> cache_entries cache !! tag else None in
  let valid i := IdTagInfo.status i = AuthorizationStatus.Accepted /\
                 forall e, IdTagInfo.expiry_date i = Some e -> now < e in
  let known :=
    match listed, cached with
    | Some i, _ => valid i
    | None, Some i => valid i
    | None, None => False
    end in
  (accepted (authorize_offline tag now l cache config) = true <->
     ConfigRegistry.local_authorize_offline config = true /\
     (known \/ (listed = None /\ cached = None /\
                ConfigRegistry.allow_offline_tx_for_unknown_id config = true))) /\
  (forall d, pre_authorize tag now l cache config = Some d ->
     accepted d = true <-> known) /\
  (pre_authorize tag now l cache config = None <->
     ConfigRegistry.local_pre_authorize config = false).
Proof.
  cbv zeta. unfold authorize_offline, pre_authorize, authorize_locally, lookup.
  set (listed := if ConfigRegistry.local_auth_list_enabled config then _ else _).
  replace (if ConfigRegistry.authorization_cache_enabled config
           then (fun slot => normalize_id_tag_info (info slot) now) <$> cache_entries cache !! tag
           else None)
    with ((fun i => normalize_id_tag_info i now) <$>
          (if ConfigRegistry.authorization_cache_enabled config
           then info <$> cache_entries cache !! tag else None)).
  2: { destruct (ConfigRegistry.authorization_cache_enabled config); [|done].
       by destruct (cache_entries cache !! tag). }
  set (cached := if ConfigRegistry.authorization_cache_enabled config then _ else _).
  split_and!.
  - destruct (ConfigRegistry.local_authorize_offline config); simpl.
    2: { split; [done|]. by intros [? _]. }
    destruct listed as [i|]; simpl; [|destruct cached as [i|]; simpl].
    + rewrite is_accepted_normalize. naive_solver.
    + rewrite is_accepted_normalize. naive_solver.
    + destruct (ConfigRegistry.allow_offline_tx_for_unknown_id config); simpl; naive_solver.
  - intros d. destruct (ConfigRegistry.local_pre_authorize config); [|done].
    intros [= <-]. simpl.
    destruct listed as [i|]; simpl; [apply is_accepted_normalize|].
    destruct cached as [i|]; simpl; [apply is_accepted_normalize|]. by split.
  - by destruct (ConfigRegistry.local_pre_authorize config).
Qed.

End Authorization.
Export (hints) Authorization.
