(* ===== verification/Connector.v ===== *)
(** * Connector: the state of a connector and its pure status rules

  [station/transaction.rs]: the transaction state machine of a connector;
  [station/snapshot.rs]: the connector record; [station/connector.rs]: the status rules that
  the actor applies after a fault, an availability change, an unplug or a stop. *)

From stdpp Require Import strings.
From S2P Require Import Prelude Text Time Types Messages.
Local Open Scope Z_scope.

(** ** Transactions *)

Module PendingStart.
Record t : Type := mk {
  tx_id : TxId.t;
  id_tag : IdTag;
  started_at : DateTime;
  meter_start_wh : Z;
  reservation_id : option ReservationId;
}.
#[export] Instance eta : Eta t := fun r => mk (tx_id r) (id_tag r) (started_at r) (meter_start_wh r) (reservation_id r).
#[export] Instance eq_dec : EqDecision t.
Proof. solve_decision. Defined.
End PendingStart.
Export (hints) PendingStart.

Module ActiveTransaction.
Record t : Type := mk {
  tx_id : TxId.t;
  id_tag : IdTag;
  started_at : DateTime;
  meter_start_wh : Z;
}.
#[export] Instance eta : Eta t := fun r => mk (tx_id r) (id_tag r) (started_at r) (meter_start_wh r).
#[export] Instance eq_dec : EqDecision t.
Proof. solve_decision. Defined.
End ActiveTransaction.
Export (hints) ActiveTransaction.

Module StoppingTransaction.
Record t : Type := mk {
  tx_id : TxId.t;
  id_tag : option IdTag;
  reason : StopReason.t;
  stopped_at : option DateTime;
  meter_stop_wh : option Z;
}.
#[export] Instance eta : Eta t := fun r => mk (tx_id r) (id_tag r) (reason r) (stopped_at r) (meter_stop_wh r).
#[export] Instance eq_dec : EqDecision t.
Proof. solve_decision. Defined.
End StoppingTransaction.
Export (hints) StoppingTransaction.

(** State of the transaction on one connector. *)
Module TransactionState.
Inductive t : Type :=
| Idle
| PendingStart (p : PendingStart.t)
| Active (a : ActiveTransaction.t)
| Stopping (s : StoppingTransaction.t).
#[export] Instance eq_dec : EqDecision t.
Proof. solve_decision. Defined.

Definition is_idle (x : t) : bool := match x with Idle => true | _ => false end.

Definition tx_id (x : t) : option TxId.t :=
  match x with
  | Idle => None
  | PendingStart p => Some (PendingStart.tx_id p)
  | Active a => Some (ActiveTransaction.tx_id a)
  | Stopping s => Some (StoppingTransaction.tx_id s)
  end.

Definition id_tag (x : t) : option IdTag :=
  match x with
  | Idle => None
  | PendingStart p => Some (PendingStart.id_tag p)
  | Active a => Some (ActiveTransaction.id_tag a)
  | Stopping s => StoppingTransaction.id_tag s
  end.

Definition blocks_new_transaction (x : t) : bool := negb (is_idle x).
End TransactionState.
Export (hints) TransactionState.

(** An active reservation on a connector. *)
Module Reservation.
Record t : Type := mk {
  id : ReservationId;
  id_tag : IdTag;
  parent_id_tag : option IdTag;
  expiry : DateTime;
}.
#[export] Instance eta : Eta t := fun r => mk (id r) (id_tag r) (parent_id_tag r) (expiry r).
#[export] Instance eq_dec : EqDecision t.
Proof. solve_decision. Defined.
End Reservation.
Export (hints) Reservation.

(** State of one connector (modelled on the TS `ConnectorState`). *)
Module ConnectorSnapshot.
Record t : Type := mk {
  id : ConnectorId;
  status : ConnectorStatus.t;
  error_code : ChargePointErrorCode.t;
  info : option str;
  vendor_id : option str;
  vendor_error_code : option str;
  ev_connected : bool;
  availability : AvailabilityType.t;
  pending_availability : option AvailabilityType.t;
  transaction : TransactionState.t;
  last_id_tag : option IdTag;
  meter_wh : Z;
  reservation : option Reservation.t;
}.
#[export] Instance eta : Eta t := fun r => mk (id r) (status r) (error_code r) (info r) (vendor_id r) (vendor_error_code r) (ev_connected r) (availability r) (pending_availability r) (transaction r) (last_id_tag r) (meter_wh r) (reservation r).
#[export] Instance eq_dec : EqDecision t.
Proof. solve_decision. Defined.
End ConnectorSnapshot.
Export (hints) ConnectorSnapshot.

(** A fresh, idle, operative connector. *)
Definition new_snapshot (id : ConnectorId) : ConnectorSnapshot.t := {|
  ConnectorSnapshot.id := id;
  ConnectorSnapshot.status := ConnectorStatus.Available;
  ConnectorSnapshot.error_code := ChargePointErrorCode.NoError;
  ConnectorSnapshot.info := None;
  ConnectorSnapshot.vendor_id := None;
  ConnectorSnapshot.vendor_error_code := None;
  ConnectorSnapshot.ev_connected := false;
  ConnectorSnapshot.availability := AvailabilityType.Operative;
  ConnectorSnapshot.pending_availability := None;
  ConnectorSnapshot.transaction := TransactionState.Idle;
  ConnectorSnapshot.last_id_tag := None;
  ConnectorSnapshot.meter_wh := 0;
  ConnectorSnapshot.reservation := None;
|}.

Definition connector_tx_id (c : ConnectorSnapshot.t) : option TxId.t :=
  TransactionState.tx_id (ConnectorSnapshot.transaction c).

(** ** Status rules *)

Module Connector.
Import ConnectorSnapshot.

Definition STATUS_TEXT_MAX : Z := 50.

Definition STATUS_SEQUENCE : list ConnectorStatus.t :=
  [ConnectorStatus.Available; ConnectorStatus.Preparing; ConnectorStatus.Charging;
   ConnectorStatus.SuspendedEVSE; ConnectorStatus.SuspendedEV; ConnectorStatus.Finishing;
   ConnectorStatus.Reserved; ConnectorStatus.Unavailable; ConnectorStatus.Faulted].

Definition next_status (s : ConnectorStatus.t) : ConnectorStatus.t :=
  let index :=
  match position (fun candidate => candidate == s) STATUS_SEQUENCE with
  | Some index => Nat.modulo (index + 1) (length STATUS_SEQUENCE)
  | None => 0%nat
  end in
  nth index STATUS_SEQUENCE ConnectorStatus.Available.

Definition trim_text (value : str) (max : Z) : option str :=
  let trimmed := trim value in
  if trimmed == [] then None else Some (take (Z.to_nat max) trimmed).

Definition fault_error_code (requested : ChargePointErrorCode.t) : ChargePointErrorCode.t :=
  if requested == ChargePointErrorCode.NoError then ChargePointErrorCode.OtherError
  else requested.

Definition is_idle (c : ConnectorSnapshot.t) : bool := TransactionState.is_idle (transaction c).

Definition status_after_fault_clear (c : ConnectorSnapshot.t) : ConnectorStatus.t :=
  if availability c == AvailabilityType.Inoperative then ConnectorStatus.Unavailable
  else if negb (is_idle c) then ConnectorStatus.Charging
  else if ev_connected c then ConnectorStatus.Preparing
  else if is_someb (reservation c) then ConnectorStatus.Reserved
  else ConnectorStatus.Available.

Definition status_after_availability_change (c : ConnectorSnapshot.t) (a : AvailabilityType.t)
  : ConnectorStatus.t :=
  if status c == ConnectorStatus.Faulted then ConnectorStatus.Faulted
  else if a == AvailabilityType.Inoperative then ConnectorStatus.Unavailable
  else if status c == ConnectorStatus.Finishing then ConnectorStatus.Finishing
  else if is_someb (reservation c) then ConnectorStatus.Reserved
  else if ev_connected c then ConnectorStatus.Preparing
  else ConnectorStatus.Available.

Definition status_after_unplug (c : ConnectorSnapshot.t) : ConnectorStatus.t :=
  if (availability c == AvailabilityType.Inoperative)
   || (status c == ConnectorStatus.Unavailable)
  then ConnectorStatus.Unavailable
  else if is_someb (reservation c) then ConnectorStatus.Reserved
  else ConnectorStatus.Available.

Definition charge_point_status (a : AvailabilityType.t) (current : ConnectorStatus.t)
  : ConnectorStatus.t :=
  match current, a with
  | ConnectorStatus.Faulted, _ => ConnectorStatus.Faulted
  | _, AvailabilityType.Inoperative => ConnectorStatus.Unavailable
  | _, _ => ConnectorStatus.Available
  end.

Definition new_connector (id : Z) : ConnectorSnapshot.t := new_snapshot id.

(** [state_after_stop] of [station/transaction.rs] *)
Definition state_after_stop (reason : StopReason.t) (ev : bool) (a : AvailabilityType.t)
  : bool * ConnectorStatus.t :=
  let still_connected := (reason != StopReason.EVDisconnected) && ev in
  let s :=
  if still_connected then ConnectorStatus.Finishing
  else if a == AvailabilityType.Inoperative then ConnectorStatus.Unavailable
  else ConnectorStatus.Available in
  (still_connected, s).

End Connector.

(** * Status: the StatusNotification discipline

    [station/status.rs]: the tracker of one connector, which decides when a change of its
    reportable state is sent, deferred by the debounce or dropped. *)

(** The reportable state of a connector. *)
Module StatusKey.
Record t : Type := mk {
  status : ConnectorStatus.t;
  error_code : ChargePointErrorCode.t;
  info : option str;
  vendor_id : option str;
  vendor_error_code : option str;
}.
#[export] Instance eq_dec : EqDecision t.
Proof. solve_decision. Defined.

Definition of_connector (c : ConnectorSnapshot.t) : t := {|
  status := ConnectorSnapshot.status c;
  error_code := ConnectorSnapshot.error_code c;
  info := ConnectorSnapshot.info c;
  vendor_id := ConnectorSnapshot.vendor_id c;
  vendor_error_code := ConnectorSnapshot.vendor_error_code c;
|}.
End StatusKey.
Export (hints) StatusKey.

Module StatusTracker.

Inductive Plan : Type :=
| Nothing
| Cancel
| Send (at_ : DateTime)
| Defer.

Record Pending : Type := mk_pending { pending_key : StatusKey.t; changed_at : DateTime }.

Record t : Type := mk {
  last_sent : option StatusKey.t;
  pending : option Pending;
}.
#[export] Instance eta : Eta t := fun r => mk (last_sent r) (pending r).

Definition default : t := mk None None.

Definition plan_change (s : t) (current : StatusKey.t) (now : DateTime) (minimum : Duration)
  : t * Plan :=
  if last_sent s == Some current then (s <| pending := None |>, Cancel)
  else if minimum =? 0 then (s <| pending := None |>, Send now)
  else if is_some_and (fun p => pending_key p == current) (pending s) then (s, Nothing)
  else (s <| pending := Some (mk_pending current now) |>, Defer).

Definition take_due (s : t) (current : StatusKey.t) : t * option DateTime :=
  match pending s with
  | None => (s, None)
  | Some p =>
      (s <| pending := None |>,
       if last_sent s == Some current then None else Some (changed_at p))
  end.

Definition forced (s : t) : t := s <| pending := None |>.
Definition mark_sent (s : t) (k : StatusKey.t) : t := s <| last_sent := Some k |>.
Definition mark_failed (s : t) (k : StatusKey.t) : t :=
  if last_sent s == Some k then s <| last_sent := None |> else s.
Definition has_pending (s : t) : bool := is_someb (pending s).
Definition reset (_ : t) : t := default.

End StatusTracker.
