(* ===== verification/Reservation.v ===== *)
(** * Reservation: reservations of connectors and their expiry

    [station/reservation.rs]: [ReserveNow], [CancelReservation], the expiry of reservations
    and the gates that a reservation puts on a remote start. The functions work on the list
    of the physical connectors of the station. *)

From stdpp Require Import strings.
From S2P Require Import Prelude Text Time Types Messages Connector.
Local Open Scope Z_scope.

Module Reservations.
Import ConnectorSnapshot.

Definition MAX_EXPIRY_TIMER : Duration := 24 * 60 * 60 * NS_PER_SEC.

Definition is_expired (r : Reservation.t) (now : DateTime) : bool := Reservation.expiry r <=? now.

(** [TimeDelta::to_std] fails on a negative delta. *)
Definition next_expiry_delay {C : Chrono} (r : Reservation.t) (now : DateTime) : option Duration :=
  if is_expired r now then None
  else
    let delta := dt_sub (Reservation.expiry r) now in
    let remaining := if 0 <=? delta then delta else MAX_EXPIRY_TIMER in
    Some (Z.min remaining MAX_EXPIRY_TIMER).

Definition accepts (r : Reservation.t) (id_tag : IdTag) (id_tag_parent : option IdTag) : bool :=
  if Reservation.id_tag r == id_tag then true
  else
    match Reservation.parent_id_tag r, id_tag_parent with
    | Some reserved_parent, Some parent => reserved_parent == parent
    | _, _ => false
    end.

Definition live_reservation (c : ConnectorSnapshot.t) (now : DateTime) : option Reservation.t :=
  match reservation c with
  | Some r => if is_expired r now then None else Some r
  | None => None
  end.

Definition reserved_for_other (c : ConnectorSnapshot.t) (id_tag : IdTag)
    (id_tag_parent : option IdTag) (now : DateTime) : bool :=
  is_some_and (fun r => negb (accepts r id_tag id_tag_parent)) (live_reservation c now).

Definition remote_start_usable (c : ConnectorSnapshot.t) : bool :=
  Connector.is_idle c && (availability c == AvailabilityType.Operative)
  && negb ((status c == ConnectorStatus.Unavailable) || (status c == ConnectorStatus.Faulted)).

Definition can_remote_start (c : option ConnectorSnapshot.t) (id_tag : IdTag)
    (id_tag_parent : option IdTag) (now : DateTime) : bool :=
  match c with
  | None => false
  | Some c =>
      if negb (remote_start_usable c) then false
      else
        match live_reservation c now with
        | Some r => accepts r id_tag id_tag_parent
        | None => status c != ConnectorStatus.Reserved
        end
  end.

Definition target_index (connectors : list ConnectorSnapshot.t) (requested : ConnectorId)
    (connector_zero_supported : bool) : result nat ReservationStatus.t :=
  if is_station requested then
    if negb connector_zero_supported then Err ReservationStatus.Rejected
    else
      match position (fun c => Connector.is_idle c
                               && (availability c == AvailabilityType.Operative)
                               && (status c == ConnectorStatus.Available)) connectors with
      | Some index => Ok index
      | None => Err ReservationStatus.Unavailable
      end
  else
    match position (fun c => id c == requested) connectors with
    | Some index => Ok index
    | None => Err ReservationStatus.Unavailable
    end.

Definition occupied (c : ConnectorSnapshot.t) (same_reservation : bool) : bool :=
  if negb (Connector.is_idle c) then true
  else if is_someb (reservation c) && negb same_reservation then true
  else
    match status c with
    | ConnectorStatus.Preparing | ConnectorStatus.Charging | ConnectorStatus.SuspendedEV
    | ConnectorStatus.SuspendedEVSE | ConnectorStatus.Finishing => true
    | ConnectorStatus.Reserved => negb same_reservation
    | _ => false
    end.

Definition has_reservation (rid : ReservationId) (c : ConnectorSnapshot.t) : bool :=
  is_some_and (fun r => Reservation.id r == rid) (reservation c).

(** [iter().enumerate().any(|(i, other)| i != index && other.reservation has the id)] *)
Definition id_used_elsewhere (connectors : list ConnectorSnapshot.t) (index : nat)
    (rid : ReservationId) : bool :=
  any (has_reservation rid) (take index connectors ++ drop (S index) connectors).

(** The checks on the connector the request targets, in their order. *)
Definition reserve_refusal (connectors : list ConnectorSnapshot.t) (index : nat)
    (c : ConnectorSnapshot.t) (request : ReserveNowRequest.t) (now : DateTime)
  : option ReservationStatus.t :=
  let same_reservation := has_reservation (ReserveNowRequest.reservation_id request) c in
  if occupied c same_reservation then Some ReservationStatus.Occupied
  else if status c == ConnectorStatus.Faulted then Some ReservationStatus.Faulted
  else if (availability c == AvailabilityType.Inoperative)
          || (status c == ConnectorStatus.Unavailable)
  then Some ReservationStatus.Unavailable
  else if ReserveNowRequest.expiry_date request <=? now then Some ReservationStatus.Rejected
  else if id_used_elsewhere connectors index (ReserveNowRequest.reservation_id request)
  then Some ReservationStatus.Rejected
  else None.

Definition reservation_of (request : ReserveNowRequest.t) : Reservation.t := {|
  Reservation.id := ReserveNowRequest.reservation_id request;
  Reservation.id_tag := ReserveNowRequest.id_tag request;
  Reservation.parent_id_tag := ReserveNowRequest.parent_id_tag request;
  Reservation.expiry := ReserveNowRequest.expiry_date request;
|}.

(** The index is a position of the list, so the lookup succeeds. *)
Definition reserve_now (connectors : list ConnectorSnapshot.t) (request : ReserveNowRequest.t)
    (now : DateTime) (connector_zero_supported : bool)
  : result (list ConnectorSnapshot.t * ConnectorId) ReservationStatus.t :=
  let! index := target_index connectors (ReserveNowRequest.connector_id request)
                  connector_zero_supported in
  match connectors !! index with
  | None => Err ReservationStatus.Unavailable
  | Some c =>
      match reserve_refusal connectors index c request now with
      | Some refusal => Err refusal
      | None =>
          let c' := c <| reservation := Some (reservation_of request) |>
                      <| status := ConnectorStatus.Reserved |> in
          Ok (<[index := c']> connectors, id c)
      end
  end.

Definition status_without_reservation (c : ConnectorSnapshot.t) : ConnectorStatus.t :=
  if (availability c == AvailabilityType.Inoperative)
     || (status c == ConnectorStatus.Unavailable)
  then ConnectorStatus.Unavailable
  else if status c == ConnectorStatus.Faulted then ConnectorStatus.Faulted
  else if negb (Connector.is_idle c) then ConnectorStatus.Charging
  else if ev_connected c then ConnectorStatus.Preparing
  else ConnectorStatus.Available.

Definition clear_reservation (c : ConnectorSnapshot.t)
  : ConnectorSnapshot.t * option Reservation.t :=
  match reservation c with
  | None => (c, None)
  | Some released =>
      let c := c <| reservation := None |> in
      let c := if status c == ConnectorStatus.Reserved
               then c <| status := status_without_reservation c |> else c in
      (c, Some released)
  end.

Definition cancel_reservation (connectors : list ConnectorSnapshot.t) (rid : ReservationId)
  : list ConnectorSnapshot.t * option ConnectorId :=
  match position (has_reservation rid) connectors with
  | None => (connectors, None)
  | Some index =>
      match connectors !! index with
      | None => (connectors, None)
      | Some c => (<[index := (clear_reservation c).1]> connectors, Some (id c))
      end
  end.

Definition reservation_expired (now : DateTime) (c : ConnectorSnapshot.t) : bool :=
  is_some_and (fun r => is_expired r now) (reservation c).

Fixpoint expire_due (connectors : list ConnectorSnapshot.t) (now : DateTime)
  : list ConnectorSnapshot.t * list ConnectorId :=
  match connectors with
  | [] => ([], [])
  | c :: rest =>
      let '(rest, released) := expire_due rest now in
      if reservation_expired now c
      then ((clear_reservation c).1 :: rest, id c :: released)
      else (c :: rest, released)
  end.

(** ** Unique reservations *)

(** No two connectors hold reservations with the same id. *)
Definition reservation_ids (connectors : list ConnectorSnapshot.t) : list ReservationId :=
  omap (fun c => Reservation.id <$> reservation c) connectors.
Definition reservations_unique (connectors : list ConnectorSnapshot.t) : Prop :=
  NoDup (reservation_ids connectors).

Lemma has_reservation_true rid c :
  has_reservation rid c = true <-> exists r, reservation c = Some r /\ Reservation.id r = rid.
Proof.
  unfold has_reservation. destruct (reservation c) as [r|]; simpl; [|naive_solver].
  rewrite eqb_true. naive_solver.
Qed.

Lemma reservation_ids_In connectors rid :
  In rid (reservation_ids connectors) <->
  exists c, In c connectors /\ has_reservation rid c = true.
Proof.
  unfold reservation_ids. rewrite <- list_elem_of_In, list_elem_of_omap.
  setoid_rewrite list_elem_of_In. setoid_rewrite has_reservation_true.
  split.
  - intros (c & Hin & Hr). exists c. split; [done|].
    destruct (reservation c) as [r|]; simplify_eq/=. eauto.
  - intros (c & Hin & r & Hr & <-). exists c. by rewrite Hr.
Qed.

Lemma clear_reservation_spec c :
  reservation (clear_reservation c).1 = None /\ id (clear_reservation c).1 = id c /\
  transaction (clear_reservation c).1 = transaction c /\
  (clear_reservation c).2 = reservation c /\
  (status (clear_reservation c).1 <> ConnectorStatus.Reserved \/ reservation c = None) /\
  (status c <> ConnectorStatus.Reserved -> status (clear_reservation c).1 = status c).
Proof.
  unfold clear_reservation. destruct (reservation c) as [r|] eqn:E; simpl.
  - destruct (status c == ConnectorStatus.Reserved) eqn:Es; simpl;
      rewrite ?eqb_true, ?eqb_false in Es; split_and!; try done.
    + left. unfold status_without_reservation. simpl. rewrite Es. by repeat case_match.
    + by left.
  - split_and!; auto.
Qed.

Lemma target_index_Ok connectors requested zero index :
  target_index connectors requested zero = Ok index ->
  exists c, connectors !! index = Some c /\
    if is_station requested
    then zero = true /\ status c = ConnectorStatus.Available
    else id c = requested.
Proof.
  unfold target_index. destruct (is_station requested); [destruct zero; [|done]|];
    destruct (position _ connectors) as [i|] eqn:Ep; try done; intros [= <-];
    destruct (position_Some _ _ _ Ep) as (c & Hc & Hp & _); exists c; by bool_facts.
Qed.

(** What holds of a connector that none of the checks refuses. *)
Lemma reserve_refusal_None connectors index c request now :
  reserve_refusal connectors index c request now = None ->
  let rid := ReserveNowRequest.reservation_id request in
  Connector.is_idle c = true /\ availability c = AvailabilityType.Operative /\
  (status c = ConnectorStatus.Available \/
   (status c = ConnectorStatus.Reserved /\ has_reservation rid c = true)) /\
  (reservation c = None \/ has_reservation rid c = true) /\
  now < ReserveNowRequest.expiry_date request /\
  id_used_elsewhere connectors index rid = false.
Proof.
  unfold reserve_refusal. cbv zeta. set (rid := ReserveNowRequest.reservation_id request).
  destruct (occupied _ _) eqn:Eo; [done|]. destruct (_ == ConnectorStatus.Faulted) eqn:Ef; [done|].
  destruct (_ || _) eqn:Ea; [done|]. destruct (_ <=? now) eqn:Ee; [done|].
  destruct (id_used_elsewhere _ _ _) eqn:Ei; [done|]. intros _. bool_facts.
  unfold occupied in Eo. destruct (Connector.is_idle c) eqn:Eidle; [|done]. cbn [negb] in Eo.
  split_and!; try done.
  - by destruct (availability c).
  - destruct (is_someb (reservation c) && _); [done|].
    destruct (status c), (has_reservation rid c); simpl in *; naive_solver.
  - destruct (reservation c); [|by left]. right. by destruct (has_reservation rid c).
Qed.

Lemma reservations_unique_replace pre c c' post r :
  reservations_unique (pre ++ c :: post) -> reservation c' = Some r ->
  any (has_reservation (Reservation.id r)) (pre ++ post) = false ->
  reservations_unique (pre ++ c' :: post).
Proof.
  unfold reservations_unique, reservation_ids. intros Hu Hr Hany.
  assert (Hfresh : ~ Reservation.id r ∈ reservation_ids (pre ++ post)).
  { rewrite list_elem_of_In, reservation_ids_In. intros (x & Hx & Hrx).
    assert (any (has_reservation (Reservation.id r)) (pre ++ post) = true); [|congruence].
    apply existsb_exists. eauto. }
  unfold reservation_ids in Hfresh. rewrite omap_app in *. cbn [omap list_omap] in *.
  rewrite Hr. cbn [fmap option_fmap option_map]. rewrite elem_of_app in Hfresh.
  apply NoDup_app in Hu as (Hu1 & Hu2 & Hu3). apply NoDup_app. split_and!; [done| |].
  - intros x Hx [->|Hin]%elem_of_cons; [tauto|].
    apply (Hu2 x Hx). destruct (reservation c); simpl; [by right|done].
  - constructor; [tauto|]. destruct (reservation c); [by apply NoDup_cons in Hu3 as [_ ?]|done].
Qed.

(** An accepted [ReserveNow] puts the reservation on exactly one connector, which
    was idle, operative, neither faulted nor unavailable nor occupied by another reservation,
    and sets it [Reserved]; every other connector stays as it is, the expiry is in the future
    and no two connectors ever hold the same reservation id. The target is the connector
    named, or for connector 0 (when supported) the first idle, operative, available one; a
    missing target answers [Unavailable], an unsupported connector 0 [Rejected]. *)
Theorem reserve_now_spec (connectors : list ConnectorSnapshot.t) (request : ReserveNowRequest.t)
    (now : DateTime) (zero : bool) :
  reservations_unique connectors ->
  match reserve_now connectors request now zero with
  | Ok (connectors', cid) =>
      exists pre c post,
        connectors = pre ++ c :: post /\ cid = id c /\
        connectors' = pre ++ (c <| reservation := Some (reservation_of request) |>
                                <| status := ConnectorStatus.Reserved |>) :: post /\
        Connector.is_idle c = true /\ availability c = AvailabilityType.Operative /\
        (status c = ConnectorStatus.Available \/
         (status c = ConnectorStatus.Reserved /\
          has_reservation (ReserveNowRequest.reservation_id request) c = true)) /\
        (reservation c = None \/
         has_reservation (ReserveNowRequest.reservation_id request) c = true) /\
        now < ReserveNowRequest.expiry_date request /\
        (if is_station (ReserveNowRequest.connector_id request)
         then zero = true /\ status c = ConnectorStatus.Available
         else id c = ReserveNowRequest.connector_id request) /\
        reservations_unique connectors'
  | Err refusal =>
      (is_station (ReserveNowRequest.connector_id request) = true -> zero = false ->
         refusal = ReservationStatus.Rejected) /\
      (is_station (ReserveNowRequest.connector_id request) = false ->
         (forall c, In c connectors -> id c <> ReserveNowRequest.connector_id request) ->
         refusal = ReservationStatus.Unavailable)
  end.
Proof.
  intros Hu. unfold reserve_now.
  destruct (target_index _ _ _) as [index|refusal] eqn:Et.
  2: { unfold target_index in Et. split.
       - intros Hs Hz. rewrite Hs, Hz in Et. simpl in Et. congruence.
       - intros Hs _. rewrite Hs in Et. by destruct (position _ _); simplify_eq. }
  destruct (target_index_Ok _ _ _ _ Et) as (c & Hc & Htarget). rewrite Hc.
  destruct (reserve_refusal _ _ _ _ _) as [refusal|] eqn:Er.
  { split; [intros Hs Hz; rewrite Hs in Htarget; destruct Htarget; congruence|].
    intros Hs Hn. rewrite Hs in Htarget. exfalso. eapply Hn; [|exact Htarget].
    apply list_elem_of_In. by eapply list_elem_of_lookup_2. }
  apply reserve_refusal_None in Er as (? & ? & ? & ? & ? & Hany).
  exists (take index connectors), c, (drop (S index) connectors).
  assert (connectors = take index connectors ++ c :: drop (S index) connectors) as Hsplit
    by by rewrite take_drop_middle.
  assert (index < length connectors)%nat by by eapply lookup_lt_Some.
  rewrite insert_take_drop by done. split_and!; try done.
  rewrite Hsplit in Hu. eapply reservations_unique_replace; [exact Hu|done|exact Hany].
Qed.

(** ** Releasing reservations *)

Lemma reservation_ids_release connectors f :
  (forall c, reservation (f c) = reservation c \/ reservation (f c) = None) ->
  sublist (reservation_ids (map f connectors)) (reservation_ids connectors).
Proof.
  intros Hf. unfold reservation_ids. induction connectors as [|c cs IH]; [constructor|].
  cbn [map omap list_omap]. destruct (Hf c) as [-> | ->].
  - destruct (reservation c); simpl; [by constructor|done].
  - destruct (reservation c); simpl; [by constructor|done].
Qed.

Definition released (now : DateTime) (c : ConnectorSnapshot.t) : ConnectorSnapshot.t :=
  if reservation_expired now c then (clear_reservation c).1 else c.

Lemma expire_due_map connectors now :
  expire_due connectors now =
    (map (released now) connectors, map id (retain (reservation_expired now) connectors)).
Proof.
  induction connectors as [|c cs IH]; [done|]. simpl. rewrite IH. unfold released.
  by destruct (reservation_expired now c).
Qed.

Lemma released_spec now c :
  reservation_expired now (released now c) = false /\
  (reservation_expired now c = false -> released now c = c) /\
  id (released now c) = id c /\ transaction (released now c) = transaction c /\
  (reservation (released now c) = reservation c \/ reservation (released now c) = None).
Proof.
  unfold released. destruct (reservation_expired now c) eqn:E; [|by split_and!; auto].
  destruct (clear_reservation_spec c) as (Hr & Hi & Ht & _).
  unfold reservation_expired. rewrite Hr. by split_and!; auto.
Qed.

(** An expiry pass releases exactly the connectors whose reservation has expired,
    in connector order: no expired reservation is left, every other connector is untouched,
    no transaction is affected, the reservation ids stay unique and a second pass at the same
    time releases nothing. *)
Theorem expire_due_spec (connectors : list ConnectorSnapshot.t) (now : DateTime) :
  reservations_unique connectors ->
  let '(connectors', ids) := expire_due connectors now in
  ids = map id (retain (reservation_expired now) connectors) /\
  Forall2 (fun c c' =>
    id c' = id c /\ transaction c' = transaction c /\
    if reservation_expired now c
    then reservation c' = None /\ status c' <> ConnectorStatus.Reserved
    else c' = c) connectors connectors' /\
  (forall c, In c connectors' -> reservation_expired now c = false) /\
  reservations_unique connectors' /\
  expire_due connectors' now = (connectors', []).
Proof.
  intros Hu. rewrite expire_due_map. split_and!; [done| | | |].
  - apply Forall2_fmap_r, Forall_Forall2_diag, Forall_forall. intros c _. cbv beta.
    destruct (released_spec now c) as (_ & Hsame & ? & ? & _). split; [done|]. split; [done|].
    destruct (reservation_expired now c) eqn:E; [|by apply Hsame].
    unfold released. rewrite E. destruct (clear_reservation_spec c) as (Hr & _ & _ & _ & Hs & _).
    split; [done|]. destruct Hs as [Hs|Hs]; [done|].
    unfold reservation_expired in E. by rewrite Hs in E.
  - intros c Hc. apply in_map_iff in Hc as (x & <- & _). by apply released_spec.
  - eapply sublist_NoDup; [exact Hu|]. apply reservation_ids_release. intros c.
    apply released_spec.
  - rewrite expire_due_map. f_equal.
    + rewrite map_map. apply map_ext. intros c. by apply released_spec, released_spec.
    + rewrite retain_none; [done|]. intros c Hc. apply in_map_iff in Hc as (x & <- & _).
      by apply released_spec.
Qed.

(** Claim C30: [CancelReservation] releases the connector that holds the named reservation,
    and only that one; an unknown id changes nothing. *)
Theorem cancel_reservation_spec (connectors : list ConnectorSnapshot.t) (rid : ReservationId) :
  reservations_unique connectors ->
  match cancel_reservation connectors rid with
  | (connectors', Some cid) =>
      exists pre c post, connectors = pre ++ c :: post /\ cid = id c /\
        has_reservation rid c = true /\
        connectors' = pre ++ (clear_reservation c).1 :: post /\
        reservation (clear_reservation c).1 = None /\
        ~ In rid (reservation_ids connectors') /\ reservations_unique connectors'
  | (connectors', None) => connectors' = connectors /\ ~ In rid (reservation_ids connectors)
  end.
Proof.
  intros Hu. unfold cancel_reservation. destruct (position _ _) as [index|] eqn:Ep.
  2: { split; [done|]. rewrite reservation_ids_In. intros (c & Hc & Hr).
       rewrite position_None in Ep. by rewrite Ep in Hr. }
  destruct (position_Some _ _ _ Ep) as (c & Hc & Hp & _). rewrite Hc.
  assert (connectors = take index connectors ++ c :: drop (S index) connectors) as Hsplit
    by by rewrite take_drop_middle.
  rewrite insert_take_drop by by eapply lookup_lt_Some.
  destruct (clear_reservation_spec c) as (Hr & _).
  exists (take index connectors), c, (drop (S index) connectors).
  apply has_reservation_true in Hp as Hres. destruct Hres as (r & Hcr & Hid).
  unfold reservations_unique, reservation_ids in *. rewrite Hsplit in Hu.
  rewrite !omap_app in *. cbn [omap list_omap] in *. rewrite Hr, Hcr in *.
  cbn [fmap option_fmap option_map] in *. rewrite Hid in Hu.
  apply NoDup_app in Hu as (Hu1 & Hu2 & Hu3). apply NoDup_cons in Hu3 as [Hu3 Hu4].
  split_and!; try done.
  - rewrite <- list_elem_of_In, elem_of_app. intros [Hin|Hin]; [|done].
    apply (Hu2 _ Hin). by left.
  - apply NoDup_app. split_and!; [done| |done]. intros x Hx Hin. apply (Hu2 x Hx). by right.
Qed.

(** The expiry timer of a reservation is armed for a positive delay of at most a
    day that never runs past the expiry; when it fires the reservation has expired, or the
    full step has passed and the timer is armed again for what is left. *)
Theorem next_expiry_delay_spec {C : Chrono} {CL : ChronoLaws C} (r : Reservation.t) (now : DateTime) :
  in_range now -> in_range (Reservation.expiry r) ->
  match next_expiry_delay r now with
  | None => Reservation.expiry r <= now
  | Some d =>
      now < Reservation.expiry r /\ 0 < d <= MAX_EXPIRY_TIMER /\
      now + d <= Reservation.expiry r /\
      (is_expired r (now + d) = true \/ d = MAX_EXPIRY_TIMER)
  end.
Proof.
  intros Hn He. unfold next_expiry_delay, is_expired. destruct (_ <=? now) eqn:E; bool_facts; [done|].
  rewrite dt_sub_ok by done. rewrite (proj2 (Z.leb_le 0 _)) by lia.
  assert (0 < MAX_EXPIRY_TIMER) by done.
  split_and!; try lia.
Qed.

(** ** Witnesses *)

Definition sample_request : ReserveNowRequest.t :=
  ReserveNowRequest.mk 0 1000 (lit "TAG") None 7.
Definition sample_connectors : list ConnectorSnapshot.t := [new_snapshot 1; new_snapshot 2].

Lemma reserve_now_witness :
  match reserve_now sample_connectors sample_request 5 true with
  | Ok (connectors', cid) => cid = 1 /\ reservations_unique connectors'
  | Err _ => False
  end.
Proof.
  pose proof (reserve_now_spec sample_connectors sample_request 5 true (NoDup_nil_2)) as H.
  destruct (reserve_now sample_connectors sample_request 5 true) as [[cs cid]|] eqn:E.
  - vm_compute in E. destruct H as (pre & c & post & _ & _ & _ & _ & _ & _ & _ & _ & _ & Hu).
    split; [congruence|exact Hu].
  - vm_compute in E. discriminate E.
Defined.

Lemma expire_due_witness :
  (expire_due sample_connectors 5).2 = [].
Proof.
  pose proof (expire_due_spec sample_connectors 5 NoDup_nil_2) as H.
  destruct (expire_due sample_connectors 5) as [cs ids] eqn:E. destruct H as (-> & _). reflexivity.
Defined.

Lemma cancel_reservation_witness :
  (cancel_reservation sample_connectors 7).1 = sample_connectors.
Proof.
  pose proof (cancel_reservation_spec sample_connectors 7 NoDup_nil_2) as H.
  destruct (cancel_reservation sample_connectors 7) as [cs [cid|]] eqn:E.
  - vm_compute in E. discriminate E.
  - exact (proj1 H).
Defined.

Lemma next_expiry_delay_witness :
  exists d, next_expiry_delay (C:=ns_chrono) (reservation_of sample_request) 5 = Some d /\ 0 < d.
Proof.
  pose proof (@next_expiry_delay_spec ns_chrono ns_chrono_laws (reservation_of sample_request) 5) as H.
  exists 995. split; [reflexivity|]. change (next_expiry_delay _ 5) with (Some 995) in H.
  apply H; vm_compute; split; discriminate.
Defined.

End Reservations.
