(* ===== verification/Offline.v ===== *)
(** * Offline: the queue of transactions that the CSMS has not fully seen

    [station/offline.rs]: one entry per transaction whose start or stop is still to be
    delivered. The queue is bounded; entries keep their order. *)

From stdpp Require Import strings.
From S2P Require Import Prelude Text Time F64 Types Messages Connector.
Local Open Scope Z_scope.

(** What a queued `StopTransaction` carries. *)
Module StopInfo.
Record t : Type := mk {
    id_tag : option IdTag;
    meter_stop_wh : Z;
    timestamp : DateTime;
    reason : StopReason.t;
    transaction_data : list MeterValue.t;
  }.
#[export] Instance eta : Eta t := fun r => mk (id_tag r) (meter_stop_wh r) (timestamp r) (reason r) (transaction_data r).
#[export] Instance eq_dec : EqDecision t.
  Proof. solve_decision. Defined.
End StopInfo.
Export (hints) StopInfo.

(** A transaction waiting for delivery of its start and/or stop. *)
Module OfflineTx.
Record t : Type := mk {
  key : Z;
    connector : ConnectorId;
    tx_id : TxId.t;
    id_tag : IdTag;
    started_at : DateTime;
    meter_start_wh : Z;
    reservation_id : option ReservationId;
    start_pending : bool;
    stop : option StopInfo.t;
  }.
#[export] Instance eta : Eta t := fun r => mk (key r) (connector r) (tx_id r) (id_tag r) (started_at r) (meter_start_wh r) (reservation_id r) (start_pending r) (stop r).
#[export] Instance eq_dec : EqDecision t.
  Proof. solve_decision. Defined.
End OfflineTx.
Export (hints) OfflineTx.

Module OfflineQueue.
Import OfflineTx.

Definition MAX_QUEUED_TRANSACTIONS : nat := Z.to_nat 1000.

Definition t : Type := list OfflineTx.t.

(** Appends an entry; over the bound the first stop-only entry, else the oldest, is dropped
    and returned. *)
Definition push (q : t) (entry : OfflineTx.t) : t * option OfflineTx.t :=
  let q := q ++ [entry] in
  if (length q <=? MAX_QUEUED_TRANSACTIONS)%nat then (q, None)
  else
    let index := from_option (fun i => i) 0%nat (position (fun e => negb (start_pending e)) q) in
    (remove_at index q, q !! index).

Definition get (q : t) (k : Z) : option OfflineTx.t := find_first (fun e => key e == k) q.

(** Assignment through [get_mut], [find_by_tx] and [find_by_tx_on]. *)
Definition modify (q : t) (k : Z) (f : OfflineTx.t -> OfflineTx.t) : t :=
  update_first (fun e => key e == k) f q.
Definition find_by_tx (q : t) (tx : TxId.t) : option OfflineTx.t :=
  find_first (fun e => tx_id e == tx) q.
Definition find_by_tx_on (q : t) (c : ConnectorId) (tx : TxId.t) : option OfflineTx.t :=
  find_first (fun e => (tx_id e == tx) && (connector e =? c)) q.
Definition modify_by_tx_on (q : t) (c : ConnectorId) (tx : TxId.t)
    (f : OfflineTx.t -> OfflineTx.t) : t :=
  update_first (fun e => (tx_id e == tx) && (connector e =? c)) f q.

Definition remove (q : t) (k : Z) : t * option OfflineTx.t :=
  match position (fun e => key e == k) q with
  | Some index => (remove_at index q, q !! index)
  | None => (q, None)
  end.

Definition keys (q : t) : list Z := map key q.
Definition is_empty (q : t) : bool := match q with [] => true | _ => false end.

Definition pending_of (e : OfflineTx.t) : Z :=
  (if start_pending e then 1 else 0) + (if is_someb (stop e) then 1 else 0).
Definition pending_messages (q : t) : Z :=
  let count := fold_right (fun e n => pending_of e + n) 0 q in
  if count <=? u32_max then count else u32_max.

(** ** The queue is bounded and forgets stops before starts *)

Definition queue_ok (q : t) : Prop :=
  (length q <= MAX_QUEUED_TRANSACTIONS)%nat /\ NoDup (keys q).

(** A push keeps the queue within its bound, its keys distinct and its entries in
    order with the new one last; nothing is dropped below the bound, and at the bound exactly
    one entry is: the oldest whose start was already delivered, so an undelivered start is
    only lost when every queued entry is one. *)
Theorem push_spec (q : t) (entry : OfflineTx.t) :
  queue_ok q -> key entry ∉ keys q ->
  let '(q', dropped) := push q entry in
  queue_ok q' /\
  match dropped with
  | None => q' = q ++ [entry] /\ (length q < MAX_QUEUED_TRANSACTIONS)%nat
  | Some d =>
      length q = MAX_QUEUED_TRANSACTIONS /\
      (exists pre post, q ++ [entry] = pre ++ d :: post /\ q' = pre ++ post /\
         (start_pending d = false -> forall e, In e pre -> start_pending e = true)) /\
      (start_pending d = true -> forall e, In e (q ++ [entry]) -> start_pending e = true)
  end.
Proof.
  intros [Hlen Hnd] Hfresh. unfold push.
  assert (NoDup (keys (q ++ [entry]))) as Hnd'.
  { unfold keys. rewrite map_app. apply NoDup_app. split_and!; [done| |apply NoDup_singleton].
    intros x Hx ->%list_elem_of_singleton. done. }
  rewrite length_app. cbn [length].
  destruct (length q + 1 <=? MAX_QUEUED_TRANSACTIONS)%nat eqn:E.
  { apply Nat.leb_le in E. split_and!; [|done|lia]. split; [rewrite length_app; simpl; lia|done]. }
  apply Nat.leb_gt in E. set (p := fun e => negb (start_pending e)).
  assert (exists i d, from_option (fun i => i) 0%nat (position p (q ++ [entry])) = i /\
    (q ++ [entry]) !! i = Some d /\
    (start_pending d = false -> forall e, In e (take i (q ++ [entry])) -> start_pending e = true) /\
    (start_pending d = true -> forall e, In e (q ++ [entry]) -> start_pending e = true))
    as (i & d & -> & Hd & H1 & H2).
  { destruct (position p (q ++ [entry])) as [i|] eqn:Ep; simpl.
    - destruct (position_Some _ _ _ Ep) as (d & Hd & Hpd & Hmin). exists i, d.
      unfold p in Hpd. apply negb_true_iff in Hpd. split_and!; [done..| |congruence].
      intros _ e He. apply list_elem_of_In, list_elem_of_lookup in He as [j Hj].
      apply lookup_take_Some in Hj as [Hj Hji]. specialize (Hmin j e Hji Hj).
      unfold p in Hmin. by apply negb_false_iff in Hmin.
    - destruct (q ++ [entry]) as [|d l] eqn:El; [by destruct q|]. exists 0%nat, d.
      rewrite position_None in Ep. split_and!; try done.
      intros _ e He. specialize (Ep e He). unfold p in Ep. by apply negb_false_iff in Ep. }
  rewrite Hd, remove_at_delete. set (l := q ++ [entry]) in *.
  assert (l = take i l ++ d :: drop (S i) l) as Hsplit by by rewrite take_drop_middle.
  assert (delete i l = take i l ++ drop (S i) l) as Hdel by apply delete_take_drop.
  split_and!; [|lia| |done].
  - split.
    + assert (i < length l)%nat by by eapply lookup_lt_Some.
      assert (length l = (length q + 1)%nat) by (unfold l; rewrite length_app; done).
      rewrite length_delete by by eexists. lia.
    + eapply sublist_NoDup; [exact Hnd'|]. apply (fmap_sublist key), sublist_delete.
  - exists (take i l), (drop (S i) l). by split_and!.
Qed.

(** Removing an entry by its key takes out that entry only. *)
Lemma remove_spec (q : t) (k : Z) :
  NoDup (keys q) ->
  keys (remove q k).1 = retain (fun x => x != k) (keys q) /\ (remove q k).2 = get q k.
Proof.
  unfold remove, get, keys. induction q as [|e q IH]; [done|]. simpl. intros [Hn Hnd]%NoDup_cons.
  destruct (key e == k) eqn:E; simpl.
  - rewrite eqb_true in E. subst k. split; [|done]. rewrite retain_all; [done|].
    intros x Hx. apply negb_true_iff, eqb_false. intros ->. apply Hn. by apply list_elem_of_In.
  - destruct (IH Hnd) as [IH1 IH2]. destruct (position _ q) as [i|]; simpl in *.
    + by rewrite IH1.
    + by rewrite <- IH1.
Qed.

Definition sample_entry : OfflineTx.t := {|
  key := 1; connector := 1; tx_id := TxId.Local 1; id_tag := lit "TAG"; started_at := 0;
  meter_start_wh := 0; reservation_id := None; start_pending := true; stop := None |}.

Lemma push_spec_witness : queue_ok (push [] sample_entry).1.
Proof.
  refine (proj1 (push_spec [] sample_entry _ _)).
  - split; [simpl; lia|apply NoDup_nil_2].
  - apply not_elem_of_nil.
Defined.

End OfflineQueue.
