(* ===== verification/Timers.v ===== *)
(** * Timers: the timer wheel of the station actor

    [station/timers.rs]: named one-shot timers. Every arming spawns a task that sleeps for
    the delay and then sends its key and generation over a channel; [next] returns the keys
    whose generation is still the armed one. The tasks run concurrently with the actor: the
    model has them as a map from generation to what they will send and when, and lets a due
    task send at any later moment. Aborting a task removes it from the map; what it sent
    before stays in the channel. *)

From stdpp Require Import gmap.
From S2P Require Import Prelude Time.
Local Open Scope Z_scope.

Definition MAX_DELAY : Duration := 24 * 60 * 60 * NS_PER_SEC.
Definition MAX_TOTAL_DELAY : Duration := 200 * 365 * 24 * 60 * 60 * NS_PER_SEC.

(** The sleeps of a timer task: [while remaining > MAX_DELAY]. *)
Fixpoint sleeps (fuel : nat) (remaining : Duration) : list Duration :=
  match fuel with
  | O => [remaining]
  | S k =>
      if MAX_DELAY <? remaining then MAX_DELAY :: sleeps k (remaining - MAX_DELAY)
      else [remaining]
  end.

(** Passes of the loop for the longest delay. *)
Definition SLEEP_FUEL : nat := Z.to_nat 73000.

Definition task_sleeps (delay : Duration) : list Duration :=
  sleeps SLEEP_FUEL (Z.min delay MAX_TOTAL_DELAY).

Definition total (l : list Duration) : Duration := fold_right Z.add 0 l.

Lemma total_sleeps fuel remaining : total (sleeps fuel remaining) = remaining.
Proof.
  revert remaining. induction fuel as [|k IH]; intros r; simpl; [lia|].
  destruct (MAX_DELAY <? r); simpl; [rewrite IH; lia|lia].
Qed.

(** The sleeps of a task add up to the capped delay. *)
Lemma total_task_sleeps delay : total (task_sleeps delay) = Z.min delay MAX_TOTAL_DELAY.
Proof. apply total_sleeps. Qed.

Lemma sleeps_bounded fuel remaining :
  remaining <= MAX_DELAY * (Z.of_nat fuel + 1) -> Forall (fun d => d <= MAX_DELAY) (sleeps fuel remaining).
Proof.
  revert remaining. induction fuel as [|k IH]; intros r Hr; simpl.
  - constructor; [lia|done].
  - destruct (MAX_DELAY <? r) eqn:E; bool_facts; (constructor; [lia|]); [apply IH; lia|done].
Qed.

Lemma sleeps_nonneg fuel remaining :
  0 <= remaining -> Forall (fun d => 0 <= d) (sleeps fuel remaining).
Proof.
  revert remaining. induction fuel as [|k IH]; intros r Hr; simpl; [by repeat constructor|].
  destruct (MAX_DELAY <? r) eqn:E; bool_facts; [|by repeat constructor].
  constructor; [unfold MAX_DELAY, NS_PER_SEC; lia|]. apply IH. lia.
Qed.

(** A timer task sleeps in steps of at most a day, of non-negative length for a
    non-negative delay, that add up to the delay, capped at 200 years; no [u32] number of
    seconds is affected by the cap. *)
Theorem task_sleeps_spec (delay : Duration) :
  0 <= delay ->
  total (task_sleeps delay) = Z.min delay MAX_TOTAL_DELAY /\
  Forall (fun d => 0 <= d <= MAX_DELAY) (task_sleeps delay) /\
  (delay <= u32_max * NS_PER_SEC -> total (task_sleeps delay) = delay).
Proof.
  intros Hd. split; [apply total_task_sleeps|]. split.
  - apply Forall_and. split.
    + apply sleeps_nonneg, Z.min_glb; [done|]. vm_compute. congruence.
    + apply sleeps_bounded. etrans; [apply Z.le_min_r|]. unfold SLEEP_FUEL. rewrite Z2Nat.id by lia.
      vm_compute. congruence.
  - intros Hmax. rewrite total_task_sleeps. apply Z.min_l. etrans; [exact Hmax|].
    vm_compute. congruence.
Qed.

Lemma task_sleeps_spec_witness :
  0 <= 3 * MAX_DELAY /\ total (task_sleeps (3 * MAX_DELAY)) = 3 * MAX_DELAY.
Proof.
  split; [vm_compute; congruence|].
  destruct (task_sleeps_spec (3 * MAX_DELAY)) as (_ & _ & Hm); [vm_compute; congruence|].
  apply Hm. vm_compute. congruence.
Defined.

Module TimerWheel.
Section wheel.
Context {K : Type} `{Countable K}.

(** The [JoinHandle] of a task stands for the moment at which its sleeps are over. *)
Record Armed : Type := mk_armed { generation : Z; due : DateTime }.

Record t : Type := mk {
  armed : gmap K Armed;
  next_generation : Z;
  (** the tasks that have not sent yet, by generation *)
  tasks : gmap Z (K * DateTime);
  (** what the tasks have sent and [next] has not received *)
  channel : list (K * Z);
  (** the clock of [tokio::time] *)
  clock : DateTime;
}.
#[local] Instance eta : Eta t := fun w =>
  mk (armed w) (next_generation w) (tasks w) (channel w) (clock w).

Definition new (clock : DateTime) : t := mk ∅ 0 ∅ [] clock.

(** Dropping an [Armed] aborts its task. *)
Definition abort (a : option Armed) (w : t) : t :=
  match a with
  | Some a => w <| tasks ::= base.delete (generation a) |>
  | None => w
  end.

Definition set (w : t) (key : K) (delay : Duration) : t :=
  let g := next_generation w in
  let fires := clock w + total (task_sleeps delay) in
  let w := w <| next_generation := u64_wrapping_add g 1 |>
             <| tasks ::= <[g := (key, fires)]> |> in
  let replaced := armed w !! key in
  abort replaced (w <| armed ::= <[key := mk_armed g fires]> |>).

Definition is_armed (w : t) (key : K) : bool := is_someb (armed w !! key).

Definition set_if_idle (w : t) (key : K) (delay : Duration) : t * bool :=
  if is_armed w key then (w, false) else (set w key delay, true).

Definition cancel (w : t) (key : K) : t * bool :=
  (abort (armed w !! key) (w <| armed ::= base.delete key |>), is_armed w key).

(** [retain] drops, and so aborts, the entries of the cancelled keys. *)
Definition cancel_where (w : t) (p : K -> bool) : t :=
  foldr (fun key w => (cancel w key).1) w
    (retain p (map fst (map_to_list (armed w)))).

Definition cancel_all (w : t) : t := cancel_where w (fun _ => true).

(** One pass of [next] per message; stale messages are dropped. *)
Fixpoint receive (w : t) (messages : list (K * Z)) : t * option K :=
  match messages with
  | [] => (w <| channel := [] |>, None)
  | (key, g) :: rest =>
      if is_some_and (fun a => generation a =? g) (armed w !! key)
      then (w <| channel := rest |> <| armed ::= base.delete key |>, Some key)
      else receive w rest
  end.

(** [next] without waiting: [None] when it would wait. *)
Definition next (w : t) : t * option K := receive w (channel w).

(** ** The wheel in its environment *)

Inductive op : Type :=
| Set_ (key : K) (delay : Duration)
| SetIfIdle (key : K) (delay : Duration)
| Cancel (key : K)
| CancelWhere (p : K -> bool)
| Next
(** time passes; the task of a generation, being due, sends *)
| Elapse (d : Duration)
| TaskSends (g : Z).

Definition step (w : t) (o : op) : t * option K :=
  match o with
  | Set_ key delay => (set w key delay, None)
  | SetIfIdle key delay => ((set_if_idle w key delay).1, None)
  | Cancel key => ((cancel w key).1, None)
  | CancelWhere p => (cancel_where w p, None)
  | Next => next w
  | Elapse d => (w <| clock ::= fun c => c + Z.max d 0 |>, None)
  | TaskSends g =>
      match tasks w !! g with
      | Some (key, fires) =>
          if fires <=? clock w
          then (w <| tasks ::= base.delete g |> <| channel ::= fun l => l ++ [(key, g)] |>, None)
          else (w, None)
      | None => (w, None)
      end
  end.

(** ** The contract of the wheel

    What the actor relies on, without generations, tasks and channel: a map from key to the
    moment it is due. [next] may return a key that is due and disarms it. *)

Inductive spec_step : gmap K DateTime * DateTime -> op -> option K ->
    gmap K DateTime * DateTime -> Prop :=
| spec_set m c key delay :
    spec_step (m, c) (Set_ key delay) None (<[key := c + Z.min delay MAX_TOTAL_DELAY]> m, c)
| spec_set_idle m c key delay :
    m !! key = None ->
    spec_step (m, c) (SetIfIdle key delay) None (<[key := c + Z.min delay MAX_TOTAL_DELAY]> m, c)
| spec_set_busy m c key delay :
    is_Some (m !! key) -> spec_step (m, c) (SetIfIdle key delay) None (m, c)
| spec_cancel m c key :
    spec_step (m, c) (Cancel key) None (base.delete key m, c)
| spec_cancel_where m c p :
    spec_step (m, c) (CancelWhere p) None (base.filter (fun kv => p kv.1 = false) m, c)
| spec_fire m c key d :
    m !! key = Some d -> d <= c -> spec_step (m, c) Next (Some key) (base.delete key m, c)
| spec_wait m c : spec_step (m, c) Next None (m, c)
| spec_elapse m c d : spec_step (m, c) (Elapse d) None (m, c + Z.max d 0)
| spec_task m c g : spec_step (m, c) (TaskSends g) None (m, c).

Definition abs (w : t) : gmap K DateTime * DateTime := (due <$> armed w, clock w).

(** Generations are in use once only, every message of an armed timer is due and every armed
    timer has a task or a message. *)
Record wheel_ok (w : t) : Prop := {
  ok_next : 0 <= next_generation w;
  ok_armed : forall key a, armed w !! key = Some a ->
    0 <= generation a < next_generation w /\
    (tasks w !! generation a = Some (key, due a) \/ In (key, generation a) (channel w));
  ok_inj : forall k1 k2 a1 a2, armed w !! k1 = Some a1 -> armed w !! k2 = Some a2 ->
    generation a1 = generation a2 -> k1 = k2;
  ok_tasks : forall g key fires, tasks w !! g = Some (key, fires) ->
    0 <= g < next_generation w /\ ~ In g (map snd (channel w)) /\
    (forall a, armed w !! key = Some a -> generation a = g -> due a = fires);
  ok_channel : forall key g, In (key, g) (channel w) ->
    0 <= g < next_generation w /\
    (forall a, armed w !! key = Some a -> generation a = g -> due a <= clock w);
}.

Lemma wheel_new_ok c : wheel_ok (new c).
Proof. constructor; simpl; try done; intros; by rewrite lookup_empty in *. Qed.

(** Aborting removes the task of one generation and nothing else. *)
Lemma abort_spec o w :
  armed (abort o w) = armed w /\ next_generation (abort o w) = next_generation w /\
  channel (abort o w) = channel w /\ clock (abort o w) = clock w /\
  (forall g, o = None \/ (exists a, o = Some a /\ generation a <> g) ->
     tasks (abort o w) !! g = tasks w !! g) /\
  (forall g x, tasks (abort o w) !! g = Some x -> tasks w !! g = Some x).
Proof.
  unfold abort. destruct o as [a|]; cbn; split_and!; try done.
  - intros g [?|(a' & [= <-] & Hne)]; [done|]. by rewrite lookup_delete_ne.
  - intros g x [? ?]%lookup_delete_Some. done.
Qed.

Lemma wheel_set_ok w key delay :
  wheel_ok w -> next_generation w < u64_max -> wheel_ok (set w key delay) /\
    next_generation (set w key delay) = next_generation w + 1.
Proof.
  intros [Hn Ha Hinj Ht Hc] Hmax. unfold set.
  set (g := next_generation w). set (fires := clock w + _).
  assert (u64_wrapping_add g 1 = g + 1) as Hg.
  { unfold u64_wrapping_add. rewrite Z.mod_small; [done|]. unfold g, u64_max in *. lia. }
  rewrite Hg. set (w0 := over armed _ _).
  destruct (abort_spec (armed w !! key) w0) as (Ea & En & Ec & Ek & Et & Et').
  set (w1 := abort _ w0) in *.
  change (armed w0) with (<[key := mk_armed g fires]> (armed w)) in Ea.
  change (tasks w0) with (<[g := (key, fires)]> (tasks w)) in Et, Et'.
  change (next_generation w0) with (g + 1) in En. change (channel w0) with (channel w) in Ec.
  change (clock w0) with (clock w) in Ek.
  split; [|done]. constructor; rewrite ?Ea, ?En, ?Ec, ?Ek; [lia| | | |].
  - intros k a [[<- <-]|[Hne Hk]]%lookup_insert_Some.
    + cbn [generation due]. split; [lia|]. left. rewrite Et.
      { by rewrite lookup_insert_eq. }
      destruct (armed w !! key) as [a|] eqn:Eold; [right|by left].
      exists a. split; [done|]. apply Ha in Eold. unfold g. lia.
    + destruct (Ha k a Hk) as [Hb Hl]. split; [lia|]. destruct Hl as [Hl|Hl]; [left|by right].
      rewrite Et.
      { rewrite lookup_insert_ne by (unfold g; lia). done. }
      destruct (armed w !! key) as [a'|] eqn:Eold; [right|by left].
      exists a'. split; [done|]. intros E. by apply Hne, (Hinj key k a' a).
  - intros k1 k2 a1 a2 [[<- <-]|[Hn1 H1]]%lookup_insert_Some [[<- <-]|[Hn2 H2]]%lookup_insert_Some;
      cbn [generation]; try done; intros E.
    + apply Ha in H2. unfold g in *. lia.
    + apply Ha in H1. unfold g in *. lia.
    + by eapply Hinj.
  - intros g' k f Hg'. apply Et' in Hg'.
    apply lookup_insert_Some in Hg' as [[<- [= <- <-]]|[Hne Hg']].
    + split; [lia|]. split.
      * intros (x & Hx & Hin)%in_map_iff. destruct x as [k' g']. simpl in Hx. subst g'.
        apply Hc in Hin. unfold g in *. lia.
      * intros a. rewrite lookup_insert_eq. by intros [= <-].
    + destruct (Ht g' k f Hg') as (Hb & Hnin & Hd). split; [lia|]. split; [done|].
      intros a [[<- <-]|[_ Hk]]%lookup_insert_Some; [cbn; intros ?; congruence|by apply Hd].
  - intros k g' Hin. destruct (Hc k g' Hin) as [Hb Hd]. split; [lia|].
    intros a [[<- <-]|[_ Hk]]%lookup_insert_Some; [cbn; unfold g; lia|by apply Hd].
Qed.

(** Disarming keys keeps the invariant. *)
Lemma cancel_ok w key : wheel_ok w -> wheel_ok (cancel w key).1.
Proof.
  intros [Hn Ha Hinj Ht Hc]. unfold cancel. cbn [fst].
  set (w0 := over armed _ w).
  destruct (abort_spec (armed w !! key) w0) as (Ea & En & Ec & Ek & Et & Et').
  set (w1 := abort _ w0) in *.
  change (armed w0) with (base.delete key (armed w)) in Ea.
  change (tasks w0) with (tasks w) in Et, Et'.
  change (next_generation w0) with (next_generation w) in En.
  change (channel w0) with (channel w) in Ec. change (clock w0) with (clock w) in Ek.
  constructor; rewrite ?Ea, ?En, ?Ec, ?Ek; [done| | | |].
  - intros k a [Hne Hk]%lookup_delete_Some. destruct (Ha k a Hk) as [Hb Hl]. split; [done|].
    destruct Hl as [Hl|Hl]; [left|by right]. rewrite Et; [done|].
    destruct (armed w !! key) as [a'|] eqn:Eold; [right|by left].
    exists a'. split; [done|]. intros E. by apply Hne, (Hinj key k a' a).
  - intros k1 k2 a1 a2 [_ H1]%lookup_delete_Some [_ H2]%lookup_delete_Some. by eapply Hinj.
  - intros g' k f Hg'. apply Et' in Hg'. destruct (Ht g' k f Hg') as (Hb & Hnin & Hd).
    split; [done|]. split; [done|]. intros a [_ Hk]%lookup_delete_Some. by apply Hd.
  - intros k g' Hin. destruct (Hc k g' Hin) as [Hb Hd]. split; [done|].
    intros a [_ Hk]%lookup_delete_Some. by apply Hd.
Qed.

Lemma cancel_frame w key :
  armed (cancel w key).1 = base.delete key (armed w) /\
  next_generation (cancel w key).1 = next_generation w /\ clock (cancel w key).1 = clock w.
Proof. unfold cancel, abort. cbn [fst]. by destruct (armed w !! key). Qed.

Lemma cancel_where_spec w p :
  wheel_ok w -> wheel_ok (cancel_where w p) /\
    armed (cancel_where w p) = base.filter (fun kv => p kv.1 = false) (armed w) /\
    next_generation (cancel_where w p) = next_generation w /\
    clock (cancel_where w p) = clock w.
Proof.
  intros Hok. unfold cancel_where.
  set (ks := retain p _).
  assert (forall l, let w' := foldr (fun key w => (cancel w key).1) w l in
    wheel_ok w' /\ next_generation w' = next_generation w /\ clock w' = clock w /\
    forall k, armed w' !! k = if decide (k ∈ l) then None else armed w !! k) as Hall.
  { intros l. induction l as [|k l IH]; cbn [foldr]; [by split_and!|].
    destruct IH as (Hw & Hn & Hc & Ha). set (w' := foldr _ _ _) in *.
    destruct (cancel_frame w' k) as (Ea & En & Ec). split_and!.
    - by apply cancel_ok.
    - congruence.
    - congruence.
    - intros x. rewrite Ea. destruct (decide (k = x)) as [<-|Hne].
      + rewrite lookup_delete_eq. by rewrite decide_True by by left.
      + rewrite lookup_delete_ne, Ha by done.
        destruct (decide (x ∈ l)), (decide (x ∈ k :: l)); set_solver. }
  destruct (Hall ks) as (Hw & Hn & Hc & Ha). split_and!; try done.
  apply map_eq. intros k. rewrite Ha, map_lookup_filter. case_decide as Hd.
  - apply list_elem_of_In, retain_In in Hd as [_ Hp].
    destruct (armed w !! k); simpl; [|done]. by rewrite option_guard_False by (cbn; congruence).
  - destruct (armed w !! k) as [a|] eqn:E; simpl; [|done].
    rewrite option_guard_True; [done|]. cbn. destruct (p k) eqn:Hp; [|done].
    destruct Hd. apply list_elem_of_In, retain_In. split; [|done].
    apply in_map_iff. exists (k, a). split; [done|].
    by apply list_elem_of_In, elem_of_map_to_list.
Qed.

(** What receiving does to a wheel whose channel holds [messages] after dropped ones. *)
Lemma receive_spec messages : forall w pre,
  channel w = pre ++ messages -> wheel_ok w ->
  (forall key g, In (key, g) pre -> forall a, armed w !! key = Some a -> generation a <> g) ->
  let '(w', out) := receive w messages in
  wheel_ok w' /\ next_generation w' = next_generation w /\ clock w' = clock w /\
  match out with
  | Some key => exists a, armed w !! key = Some a /\ due a <= clock w /\
                          armed w' = base.delete key (armed w)
  | None => armed w' = armed w /\
            forall key a, armed w' !! key = Some a -> tasks w' !! generation a = Some (key, due a)
  end.
Proof.
  induction messages as [|[key g] messages IH]; intros w pre Hch Hok Hpre; cbn [receive].
  { pose proof Hok as [Hn Ha Hinj Ht Hc]. rewrite app_nil_r in Hch.
    assert (forall k a, armed w !! k = Some a -> tasks w !! generation a = Some (k, due a)) as Hl.
    { intros k a Hk. destruct (Ha k a Hk) as [_ [?|Hin]]; [done|].
      rewrite Hch in Hin. by destruct (Hpre k _ Hin a Hk). }
    split_and!; try done. constructor; cbn; try done.
    - intros k a Hk. split; [by eapply Ha|]. left. by apply Hl.
    - intros g k f Hg. destruct (Ht g k f Hg) as (Hb & _ & Hd). split; [done|]. split; [intros []|done]. }
  destruct (is_some_and _ _) eqn:E.
  - destruct (armed w !! key) as [a|] eqn:Ea; [|done]. simpl in E. bool_facts. subst g.
    pose proof Hok as [Hn Ha Hinj Ht Hc].
    assert (In (key, generation a) (channel w)) as Hin by (rewrite Hch; apply in_or_app; simpl; auto).
    split_and!; try done; [|exists a; split; [done|]; split; [by destruct (Hc _ _ Hin) as [_ Hd]; apply Hd|done]].
    assert (Hsub : forall x, In x messages -> In x (channel w)).
    { intros x Hx. rewrite Hch. apply in_or_app. right. by right. }
    constructor; cbn; [done| | | |].
    + intros k b [Hne Hk]%lookup_delete_Some. destruct (Ha k b Hk) as [Hb Hl]. split; [done|].
      destruct Hl as [Hl|Hl]; [by left|right]. rewrite Hch in Hl.
      apply in_app_or in Hl as [Hl|[Hl|Hl]]; [|congruence|done].
      by destruct (Hpre k _ Hl b Hk).
    + intros k1 k2 a1 a2 [_ H1]%lookup_delete_Some [_ H2]%lookup_delete_Some. by eapply Hinj.
    + intros g k f Hg. destruct (Ht g k f Hg) as (Hb & Hnin & Hd).
      split; [done|]. split; [|by intros b [_ Hk]%lookup_delete_Some; apply Hd].
      intros (x & <- & Hx)%in_map_iff. apply Hnin, in_map_iff. eauto.
    + intros k g Hx. apply Hsub in Hx. destruct (Hc k g Hx) as [Hb Hd].
      split; [done|]. intros b [_ Hk]%lookup_delete_Some. by apply Hd.
  - apply (IH w (pre ++ [(key, g)])); [by rewrite <- app_assoc|done|].
    intros k g' [Hin|[[= <- <-]|[]]]%in_app_or a Hk; [by eapply Hpre|].
    rewrite Hk in E. simpl in E. by bool_facts.
Qed.

Lemma receive_none messages : forall w w',
  receive w messages = (w', None) -> channel w' = [] /\ tasks w' = tasks w.
Proof.
  induction messages as [|[key g] messages IH]; intros w w'; cbn [receive]; [by intros [= <-]|].
  destruct (is_some_and _ _); [done|]. apply IH.
Qed.

(** ** Runs *)

Fixpoint run (w : t) (ops : list op) : t * list (option K) :=
  match ops with
  | [] => (w, [])
  | o :: ops =>
      let '(w, out) := step w o in
      let '(w, outs) := run w ops in
      (w, out :: outs)
  end.

Inductive spec_run : gmap K DateTime * DateTime -> list op -> list (option K) ->
    gmap K DateTime * DateTime -> Prop :=
| spec_done m : spec_run m [] [] m
| spec_more m o out m' ops outs m'' :
    spec_step m o out m' -> spec_run m' ops outs m'' ->
    spec_run m (o :: ops) (out :: outs) m''.

Lemma set_abs w key delay :
  abs (set w key delay) =
    (<[key := clock w + Z.min delay MAX_TOTAL_DELAY]> (due <$> armed w), clock w).
Proof.
  unfold abs, set. destruct (abort_spec (armed w !! key)
    (w <| next_generation := u64_wrapping_add (next_generation w) 1 |>
       <| tasks ::= <[next_generation w := (key, clock w + total (task_sleeps delay))]> |>
       <| armed ::= <[key := mk_armed (next_generation w)
                               (clock w + total (task_sleeps delay))]> |>))
    as (Ea & _ & _ & Ek & _).
  cbn in Ea, Ek. cbn. rewrite Ea, Ek. rewrite fmap_insert. cbn [due].
  by rewrite total_task_sleeps.
Qed.

Lemma send_ok w g key fires :
  wheel_ok w -> tasks w !! g = Some (key, fires) -> fires <= clock w ->
  wheel_ok (w <| tasks ::= base.delete g |> <| channel ::= fun l => l ++ [(key, g)] |>).
Proof.
  intros [Hn Ha Hinj Ht Hc] Hg Hf. constructor; cbn; [done| |done| |].
  - intros k a Hk. destruct (Ha k a Hk) as [Hb Hl]. split; [done|].
    destruct (decide (generation a = g)) as [<-|Hne].
    + right. apply in_or_app. right. left. destruct Hl as [Hl|Hl]; [congruence|].
      destruct (Ht _ _ _ Hg) as (_ & Hnin & _). destruct Hnin.
      apply in_map_iff. by exists (k, generation a).
    + destruct Hl as [Hl|Hl]; [left; by rewrite lookup_delete_ne|right].
      apply in_or_app. by left.
  - intros g' k f [Hne Hg']%lookup_delete_Some. destruct (Ht g' k f Hg') as (Hb & Hnin & Hd).
    split; [done|]. split; [|done]. rewrite map_app. by intros [?|[?|[]]]%in_app_or.
  - intros k g' [Hin|[[= <- <-]|[]]]%in_app_or; [by apply Hc|].
    destruct (Ht _ _ _ Hg) as (Hb & _ & Hd). split; [done|].
    intros a Hk E. by rewrite (Hd a Hk E).
Qed.

Lemma elapse_ok w d : wheel_ok w -> wheel_ok (w <| clock ::= fun c => c + Z.max d 0 |>).
Proof.
  intros [Hn Ha Hinj Ht Hc]. constructor; cbn; try done.
  intros k g Hin. destruct (Hc k g Hin) as [Hb Hd]. split; [done|].
  intros a Hk E. specialize (Hd a Hk E). lia.
Qed.

Lemma fmap_filter_key (p : K -> bool) (m : gmap K Armed) :
  due <$> base.filter (fun kv => p kv.1 = false) m =
  base.filter (fun kv => p kv.1 = false) (due <$> m).
Proof.
  apply map_eq. intros k. rewrite lookup_fmap, !map_lookup_filter, lookup_fmap.
  destruct (m !! k) as [a|]; simpl; [|done]. destruct (p k) eqn:E; cbn.
  - by rewrite !option_guard_False by (cbn; congruence).
  - by rewrite !option_guard_True.
Qed.

(** A step of the wheel is a step of its contract. *)
Lemma step_refines w o :
  wheel_ok w -> next_generation w < u64_max ->
  let '(w', out) := step w o in
  wheel_ok w' /\ next_generation w' <= next_generation w + 1 /\
  spec_step (abs w) o out (abs w').
Proof.
  intros Hok Hmax. destruct o as [key delay|key delay|key|p| |d|g]; cbn [step].
  - destruct (wheel_set_ok w key delay Hok Hmax) as [Hw Hg].
    split_and!; [done|lia|]. rewrite set_abs. constructor.
  - unfold set_if_idle, is_armed, is_someb. destruct (armed w !! key) as [a|] eqn:Ea; cbn [fst].
    + split_and!; [done|lia|]. constructor. rewrite lookup_fmap, Ea. by eexists.
    + destruct (wheel_set_ok w key delay Hok Hmax) as [Hw Hg].
      split_and!; [done|lia|]. rewrite set_abs. constructor. by rewrite lookup_fmap, Ea.
  - destruct (cancel_frame w key) as (Ea & En & Ec).
    split_and!; [by apply cancel_ok|lia|]. unfold abs. rewrite Ea, Ec, fmap_delete. constructor.
  - destruct (cancel_where_spec w p Hok) as (Hw & Ea & En & Ec).
    split_and!; [done|lia|]. unfold abs. rewrite Ea, Ec, fmap_filter_key. constructor.
  - pose proof (receive_spec (channel w) w [] eq_refl Hok) as Hr. unfold next.
    specialize (Hr ltac:(by intros)). destruct (receive w (channel w)) as [w' out].
    destruct Hr as (Hw & Hn & Hc & Hout). split_and!; [done|lia|]. unfold abs. rewrite Hc.
    destruct out as [key|].
    + destruct Hout as (a & Ha & Hd & ->). rewrite fmap_delete.
      eapply spec_fire; [|done]. by rewrite lookup_fmap, Ha.
    + destruct Hout as [-> _]. constructor.
  - split_and!; [by apply elapse_ok|cbn; lia|]. constructor.
  - destruct (tasks w !! g) as [[key fires]|] eqn:Eg; [|split_and!; [done|lia|constructor]].
    destruct (fires <=? clock w) eqn:Ef; [|split_and!; [done|lia|constructor]]. bool_facts.
    split_and!; [by apply (send_ok w g key fires)|cbn; lia|constructor].
Qed.

Lemma run_refines ops : forall w,
  wheel_ok w -> next_generation w + len ops <= u64_max ->
  let '(w', outs) := run w ops in
  wheel_ok w' /\ spec_run (abs w) ops outs (abs w').
Proof.
  induction ops as [|o ops IH]; intros w Hok Hlen; cbn [run]; [split; [done|constructor]|].
  unfold len in *. cbn [length] in Hlen.
  pose proof (step_refines w o Hok ltac:(lia)) as Hs.
  destruct (step w o) as [w' out]. destruct Hs as (Hw & Hn & Hs).
  specialize (IH w' Hw ltac:(lia)). destruct (run w' ops) as [w'' outs].
  destruct IH as [Hw'' Hr]. split; [done|]. by econstructor.
Qed.

(** Claim C39: whatever the actor does with the wheel and however its tasks interleave with
    it (less than [2^64] operations), the wheel behaves as a map from key to due time: an
    armed timer fires at most once and never before it is due, and a replaced or cancelled
    timer never fires. When [next] would wait, the channel holds nothing of an armed timer:
    each has a task that has yet to send, and that task, once due, makes [next] return. *)
Theorem wheel_refinement (c : DateTime) (ops : list op) :
  len ops <= u64_max ->
  let '(w, outs) := run (new c) ops in
  spec_run (∅, c) ops outs (abs w) /\
  ((next w).2 = None ->
   forall key a, armed w !! key = Some a ->
     tasks w !! generation a = Some (key, due a) /\
     (due a <= clock w ->
      exists w', next (step (next w).1 (TaskSends (generation a))).1 = (w', Some key))).
Proof.
  intros Hlen. pose proof (run_refines ops (new c) (wheel_new_ok c)) as Hr.
  destruct (run (new c) ops) as [w outs]. destruct Hr as [Hw Hr]; [cbn; lia|].
  split; [by unfold abs in Hr; cbn in Hr; rewrite fmap_empty in Hr|].
  pose proof (receive_spec (channel w) w [] eq_refl Hw) as Hn. unfold next.
  specialize (Hn ltac:(by intros)). destruct (receive w (channel w)) as [w' out] eqn:E.
  destruct Hn as (Hw' & _ & Hc & Hout). cbn [snd fst]. intros ->. destruct Hout as [Ea Hl].
  rewrite <- Ea. intros key a Hk.
  apply receive_none in E as [E1 E2]. pose proof (Hl key a Hk) as Ht.
  split; [by rewrite <- E2|].
  intros Hd. eexists. cbn [step]. rewrite Ht, Hc.
  rewrite (proj2 (Z.leb_le _ _) Hd). cbn. rewrite E1. cbn. rewrite Hk. cbn.
  by rewrite Z.eqb_refl.
Qed.

End wheel.
Lemma wheel_refinement_witness :
  len [Set_ 1 5; Elapse 7; TaskSends 0; Set_ 1 5; Next] <= u64_max /\
  exists m, spec_run (∅, 0) [Set_ 1 5; Elapse 7; TaskSends 0; Set_ 1 5; Next]
              [None; None; None; None; None] m.
Proof.
  split; [vm_compute; congruence|].
  pose proof (wheel_refinement (K := Z) 0 [Set_ 1 5; Elapse 7; TaskSends 0; Set_ 1 5; Next]) as Hw.
  destruct Hw as [Hw _]; [vm_compute; congruence|]. eexists. exact Hw.
Defined.

End TimerWheel.
