(* ===== verification/Metering.v ===== *)
(** * Metering: simulated power, meter values and clock alignment

    [station/metering.rs]: the power model, the readings derived from it, the construction of
    MeterValues and the clock-aligned schedule. The comma-separated list of a configuration
    value and [DEFAULT_SAMPLED_DATA] are those of [ConfigRegistry.v]. *)

From stdpp Require Import strings.
From S2P Require Import Prelude Text F64 Time Types Messages Config ConfigRegistry.
Local Open Scope Z_scope.

Module PowerModel.
Record t : Type := mk { nominal_w : f64; voltage_v : f64; phases : Z }.

Definition from_config (config : StationConfig.t) : t :=
  mk (f_of_Z (StationConfig.nominal_power_w config)) (f_of_Z (StationConfig.voltage_v config))
     (Z.max (StationConfig.phases config) 1).

Definition period_phases (self : t) (number_phases : option Z) : f64 :=
  let station := phases self in
  f_of_Z (match number_phases with
          | Some n => Z.max 1 (Z.min n station)
          | None => station
          end).

Definition amps_to_watts (self : t) (amps : f64) (number_phases : option Z) : f64 :=
  f_mul (f_mul amps (voltage_v self)) (period_phases self number_phases).

Definition watts_to_amps (self : t) (watts : f64) : f64 :=
  f_div watts (f_mul (voltage_v self) (f_of_Z (phases self))).

Definition effective_w (self : t) (limit_w : option f64) : f64 :=
  match limit_w with
  | Some limit => f_clamp limit f_zero (nominal_w self)
  | None => nominal_w self
  end.
End PowerModel.

Module MeterReading.
Record t : Type := mk {
  energy_wh : f64;
  charging : bool;
  power_w : f64;
  offered_w : f64;
  interval_wh : f64;
}.
End MeterReading.

Module Readings.
Record t : Type := mk {
  charging : bool;
  energy_wh : f64;
  interval_wh : f64;
  power_w : f64;
  offered_w : f64;
  voltage_v : f64;
  current_a : f64;
  offered_a : f64;
  temperature_c : Z;
  soc_percent : Z;
}.
End Readings.

Module Metering.

(** [Duration::as_secs_f64] *)
Definition as_secs_f64 (d : Duration) : f64 :=
  f_add (f_of_Z (d / NS_PER_SEC)) (f_div (f_of_Z (d mod NS_PER_SEC)) (f_of_Z NS_PER_SEC)).

Definition energy_wh_for (power_w : f64) (elapsed : Duration) : f64 :=
  f_div (f_mul power_w (as_secs_f64 elapsed)) (f_of_Z 3600).

Definition floor_i64 (value : f64) : Z := f_to_int i64_min i64_max (f_floor value).

Definition round_half_up (value : f64) : Z :=
  f_to_int i64_min i64_max (f_floor (f_add value (f_div (f_of_Z 1) (f_of_Z 2)))).

Definition compute_readings (model : PowerModel.t) (reading : MeterReading.t) : Readings.t :=
  let energy_wh := MeterReading.energy_wh reading in
  let charging := MeterReading.charging reading in
  let cycle := Z.rem (Z.abs (round_half_up (f_div energy_wh (f_of_Z 120)))) 8 in
  let power_w := if charging then MeterReading.power_w reading else f_zero in
  let temperature_c :=
    if charging then 29 + cycle + Z.min (floor_i64 (f_div energy_wh (f_of_Z 3000))) 8 else 25 in
  let soc_percent :=
    if charging then Z.max 18 (Z.min (18 + floor_i64 (f_div energy_wh (f_of_Z 450))) 96) else 0 in
  {| Readings.charging := charging;
     Readings.energy_wh := energy_wh;
     Readings.interval_wh := MeterReading.interval_wh reading;
     Readings.power_w := power_w;
     Readings.offered_w := MeterReading.offered_w reading;
     Readings.voltage_v := PowerModel.voltage_v model;
     Readings.current_a := PowerModel.watts_to_amps model power_w;
     Readings.offered_a := PowerModel.watts_to_amps model (MeterReading.offered_w reading);
     Readings.temperature_c := temperature_c;
     Readings.soc_percent := soc_percent |}.

(** The integer nearest to [n / d], ties to the even one. *)
Definition round_half_even (n d : Z) : Z :=
  let q := n / d in
  let r := n mod d in
  if 2 * r <? d then q else if d <? 2 * r then q + 1 else if Z.even q then q else q + 1.

(** [format!("{value:.1}")] *)
Definition format_1 (value : f64) : str :=
  let sign (s : bool) := if s then lit "-" else [] in
  match value with
  | S754_nan => lit "NaN"
  | S754_infinity s => sign s ++ lit "inf"
  | S754_zero s => sign s ++ lit "0.0"
  | S754_finite s m e =>
      let tenths := if 0 <=? e then 10 * Zpos m * 2 ^ e
                    else round_half_even (10 * Zpos m) (2 ^ (- e)) in
      sign s ++ to_string (tenths / 10) ++ 46 :: to_string (tenths mod 10)
  end.

(** [fixed.strip_suffix(".0").unwrap_or(&fixed)] *)
Definition strip_dot_zero (fixed : str) : str :=
  match rev fixed with
  | 48 :: 46 :: rest => rev rest
  | _ => fixed
  end.

Definition format_decimal (value : f64) : str := strip_dot_zero (format_1 value).

Definition sampled_value (readings : Readings.t) (context : ReadingContext.t)
    (measurand : Measurand.t) : SampledValue.t :=
  let when_charging (on : str) := if Readings.charging readings then on else lit "0" in
  let outlet := Some Location.Outlet in
  let zero := lit "0" in
  let '(value, unit, location, phase) :=
    match measurand with
    | Measurand.EnergyActiveImportRegister =>
        (to_string (round_half_up (Readings.energy_wh readings)), Some UnitOfMeasure.Wh, outlet, None)
    | Measurand.EnergyActiveExportRegister | Measurand.EnergyActiveExportInterval =>
        (zero, Some UnitOfMeasure.Wh, outlet, None)
    | Measurand.EnergyReactiveImportRegister | Measurand.EnergyReactiveExportRegister
    | Measurand.EnergyReactiveImportInterval | Measurand.EnergyReactiveExportInterval =>
        (zero, Some UnitOfMeasure.Varh, outlet, None)
    | Measurand.EnergyActiveImportInterval =>
        (to_string (round_half_up (Readings.interval_wh readings)), Some UnitOfMeasure.Wh, outlet, None)
    | Measurand.PowerActiveImport =>
        (format_decimal (Readings.power_w readings), Some UnitOfMeasure.W, outlet, None)
    | Measurand.PowerActiveExport => (zero, Some UnitOfMeasure.W, outlet, None)
    | Measurand.PowerOffered =>
        (format_decimal (Readings.offered_w readings), Some UnitOfMeasure.W, outlet, None)
    | Measurand.PowerReactiveImport | Measurand.PowerReactiveExport =>
        (zero, Some UnitOfMeasure.Var, outlet, None)
    | Measurand.PowerFactor => (when_charging (lit "1"), None, outlet, None)
    | Measurand.CurrentImport =>
        (format_decimal (Readings.current_a readings), Some UnitOfMeasure.A, outlet, Some Phase.L1)
    | Measurand.CurrentExport => (zero, Some UnitOfMeasure.A, outlet, Some Phase.L1)
    | Measurand.CurrentOffered =>
        (format_decimal (Readings.offered_a readings), Some UnitOfMeasure.A, outlet, Some Phase.L1)
    | Measurand.Voltage =>
        (format_decimal (Readings.voltage_v readings), Some UnitOfMeasure.V, outlet, Some Phase.L1N)
    | Measurand.Frequency => (lit "50", None, outlet, None)
    | Measurand.Temperature =>
        (to_string (Readings.temperature_c readings), Some UnitOfMeasure.Celsius,
         Some Location.Body, None)
    | Measurand.SoC =>
        (to_string (Readings.soc_percent readings), Some UnitOfMeasure.Percent,
         Some Location.EV, None)
    | Measurand.Rpm => (zero, None, Some Location.Body, None)
    end in
  {| SampledValue.value := value;
     SampledValue.context := Some context;
     SampledValue.format := Some ValueFormat.Raw;
     SampledValue.measurand := Some measurand;
     SampledValue.phase := phase;
     SampledValue.location := location;
     SampledValue.unit := unit |}.

Definition meter_value (model : PowerModel.t) (reading : MeterReading.t) (timestamp : DateTime)
    (measurands : list Measurand.t) (context : ReadingContext.t) : MeterValue.t :=
  let readings := compute_readings model reading in
  MeterValue.mk timestamp (map (sampled_value readings context) measurands).

Definition is_empty {A} (l : list A) : bool := match l with [] => true | _ => false end.

Definition stop_transaction_data (model : PowerModel.t) (reading : MeterReading.t)
    (timestamp : DateTime) (sampled_data aligned_data : list Measurand.t) : list MeterValue.t :=
  (if negb (is_empty sampled_data)
   then [meter_value model reading timestamp sampled_data ReadingContext.TransactionEnd]
   else [])
  ++ (if negb (is_empty aligned_data)
      then [meter_value model reading timestamp aligned_data ReadingContext.SampleClock]
      else []).

Inductive SampledDataError : Type :=
| Empty
| Unknown (items : list str).

(** The two lists the loop over the items fills. *)
Fixpoint sort_items (items : list str) : list Measurand.t * list str :=
  match items with
  | [] => ([], [])
  | item :: items =>
      let '(measurands, unknown) := sort_items items in
      match ConfigRegistry.measurand_from_str item with
      | Ok m => (m :: measurands, unknown)
      | Err _ => (measurands, item :: unknown)
      end
  end.

Definition parse_sampled_data (value : str) : result (list Measurand.t) SampledDataError :=
  let items := ConfigRegistry.list_items value in
  if is_empty items then Err Empty
  else
    let '(measurands, unknown) := sort_items items in
    if is_empty unknown then Ok measurands else Err (Unknown unknown).

Definition configured_measurands (value : option str) : list Measurand.t :=
  let measurands :=
    omap (fun item => ConfigRegistry.ok (ConfigRegistry.measurand_from_str item))
      (ConfigRegistry.list_items (match value with Some v => v | None => [] end)) in
  if is_empty measurands then ConfigRegistry.DEFAULT_SAMPLED_DATA else measurands.

Definition clock_aligned_delay {C : Chrono} (now : DateTime) (interval_s : Z)
    : option TimeDelta :=
  if interval_s =? 0 then None
  else
    let period_ms := interval_s * 1000 in
    let remainder := (timestamp_millis now) mod period_ms in
    let delay_ms := if remainder =? 0 then period_ms else period_ms - remainder in
    Some (td_milliseconds delay_ms).

Definition next_clock_aligned {C : Chrono} (now : DateTime) (interval_s : Z)
    : option DateTime :=
  let? delay := clock_aligned_delay now interval_s in checked_add_signed now delay.

(** ** Readings *)

Lemma effective_w_bounds (model : PowerModel.t) (limit : option f64) :
  f_leb f_zero (PowerModel.nominal_w model) = true ->
  is_some_and is_nan limit = false ->
  f_leb f_zero (PowerModel.effective_w model limit) = true /\
  f_leb (PowerModel.effective_w model limit) (PowerModel.nominal_w model) = true.
Proof.
  intros Hn Hl. destruct limit as [x|]; simpl in *.
  - by apply f_clamp_bounds.
  - split; [done|]. apply f_leb_refl. by apply f_leb_not_nan in Hn as [_ ?].
Qed.

Definition contexts (data : list MeterValue.t) : list (option ReadingContext.t) :=
  concat (map (fun v => map SampledValue.context (MeterValue.sampled_value v)) data).

Definition measurands_of (v : MeterValue.t) : list (option Measurand.t) :=
  map SampledValue.measurand (MeterValue.sampled_value v).

Lemma sampled_value_labels readings context m :
  SampledValue.measurand (sampled_value readings context m) = Some m /\
  SampledValue.context (sampled_value readings context m) = Some context.
Proof. by destruct m. Qed.

Lemma meter_value_measurands model reading at_ measurands context :
  measurands_of (meter_value model reading at_ measurands context) = map Some measurands.
Proof.
  unfold measurands_of, meter_value. cbn. rewrite map_map. apply map_ext.
  intros m. apply sampled_value_labels.
Qed.

(** The [transactionData] of a StopTransaction holds no MeterValue without sampled
    values, which the schema would reject; the values configured for the end of a transaction
    come first, then the clock-aligned ones, each with exactly the configured measurands in
    their order and with its own reading context; both show the same register, rounded to
    whole watt hours. *)
Theorem stop_transaction_data_spec model reading at_ sampled aligned :
  let data := stop_transaction_data model reading at_ sampled aligned in
  (forall v, In v data ->
     MeterValue.sampled_value v <> [] /\ MeterValue.timestamp v = at_ /\
     forall s, In s (MeterValue.sampled_value v) ->
       SampledValue.measurand s = Some Measurand.EnergyActiveImportRegister ->
       SampledValue.value s = to_string (round_half_up (MeterReading.energy_wh reading))) /\
  map measurands_of data =
    retain (fun ms => negb (is_empty ms)) [map Some sampled; map Some aligned] /\
  contexts data = map (fun _ => Some ReadingContext.TransactionEnd) sampled
                  ++ map (fun _ => Some ReadingContext.SampleClock) aligned.
Proof.
  assert (forall ms context v, ms <> [] -> v = meter_value model reading at_ ms context ->
    MeterValue.sampled_value v <> [] /\ MeterValue.timestamp v = at_ /\
    forall s, In s (MeterValue.sampled_value v) ->
       SampledValue.measurand s = Some Measurand.EnergyActiveImportRegister ->
       SampledValue.value s = to_string (round_half_up (MeterReading.energy_wh reading)))
    as Hv.
  { intros ms context v Hne ->. split; [by destruct ms|]. split; [done|].
    intros s (m & <- & _)%in_map_iff. destruct (sampled_value_labels
      (compute_readings model reading) context m) as [-> _]. by intros [= ->]. }
  assert (forall ms context, map SampledValue.context
    (MeterValue.sampled_value (meter_value model reading at_ ms context))
    = map (fun _ => Some context) ms) as Hc.
  { intros ms context. cbn. rewrite map_map. apply map_ext. intros m.
    apply sampled_value_labels. }
  unfold stop_transaction_data, contexts. cbv zeta. split_and!.
  - intros v [Hin|Hin]%in_app_or.
    + destruct sampled as [|x l]; [done|]. destruct Hin as [<-|[]]. by eapply (Hv (x :: l)).
    + destruct aligned as [|x l]; [done|]. destruct Hin as [<-|[]]. by eapply (Hv (x :: l)).
  - rewrite map_app. destruct sampled as [|x l], aligned as [|y l']; cbn [is_empty negb];
      cbn [app map]; rewrite ?meter_value_measurands; done.
  - rewrite map_app, concat_app. destruct sampled as [|x l], aligned as [|y l'];
      cbn [is_empty negb]; cbn [app map concat]; rewrite ?Hc, ?app_nil_r; done.
Qed.

(** ** Configured lists of measurands *)

Lemma sort_items_spec items :
  fst (sort_items items) = omap (fun i => ConfigRegistry.ok (ConfigRegistry.measurand_from_str i)) items
  /\ (snd (sort_items items) = [] <->
      all (fun i => ConfigRegistry.is_ok (ConfigRegistry.measurand_from_str i)) items = true).
Proof.
  induction items as [|i items [IH1 IH2]]; [done|]. simpl.
  destruct (sort_items items) as [ms un]. simpl in *.
  destruct (ConfigRegistry.measurand_from_str i); simpl; [by rewrite IH1|]. by split.
Qed.

(** A list of measurands parses exactly when [ChangeConfiguration] accepts it as the
    value of a key with measurands, and then the station samples exactly the parsed list;
    a list with unknown items reports them. *)
Theorem parse_sampled_data_spec (value : str) :
  (forall ms, parse_sampled_data value = Ok ms <->
     ConfigRegistry.accepts ConfigRegistry.Measurands value = true /\
     ms = configured_measurands (Some value)) /\
  (forall items, parse_sampled_data value = Err (Unknown items) ->
     items <> [] /\ forall i, In i items <->
       In i (ConfigRegistry.list_items value) /\ exists e, ConfigRegistry.measurand_from_str i = Err e).
Proof.
  unfold parse_sampled_data, configured_measurands, ConfigRegistry.accepts.
  set (items := ConfigRegistry.list_items value).
  destruct items as [|i rest] eqn:E; [by split; simpl; [intros ms; split; [done|intros [? _]]|]|].
  cbn [is_empty ConfigRegistry.non_empty_all]. rewrite <- E.
  destruct (sort_items_spec items) as [Hm Hu].
  assert (forall x, In x (snd (sort_items items)) <->
     In x items /\ exists e, ConfigRegistry.measurand_from_str x = Err e) as Hin.
  { clear E Hm Hu. induction items as [|y l IH]; [naive_solver|]. simpl.
    destruct (sort_items l) as [ms un]. cbn [snd] in IH.
    destruct (ConfigRegistry.measurand_from_str y) eqn:Ey; cbn [snd]; simpl; naive_solver congruence. }
  destruct (sort_items items) as [ms un]. cbn [fst snd] in *. split.
  - intros ms'. destruct un as [|u un]; cbn [is_empty].
    + rewrite <- Hm. assert (Hall := proj1 Hu eq_refl).
      assert (ms <> []) as Hne.
      { rewrite Hm, E in *. simpl in *. bool_facts.
        by destruct (ConfigRegistry.measurand_from_str i). }
      destruct ms; [done|]. split; [by intros [= <-]|by intros [_ ->]].
    + split; [done|]. intros [Hall _]. by apply Hu in Hall.
  - intros un' H. destruct un as [|u un]; cbn [is_empty] in H; [done|].
    injection H as <-. by split.
Qed.

(** ** Clock alignment *)

(** The next clock-aligned sample is at the first multiple of the interval since
    the Unix epoch strictly after the current millisecond, at most one interval ahead; an
    interval of zero disables the samples. *)
Theorem clock_aligned_delay_spec {C : Chrono} {CL : ChronoLaws C} (now : DateTime)
    (interval_s : Z) :
  is_u32 interval_s ->
  match clock_aligned_delay now interval_s with
  | None => interval_s = 0
  | Some delay =>
      exists ms, delay = ms * NS_PER_MS /\ 0 < ms <= interval_s * 1000 /\
        (timestamp_millis now + ms) mod (interval_s * 1000) = 0 /\
        forall k, timestamp_millis now < k * (interval_s * 1000) ->
          timestamp_millis now + ms <= k * (interval_s * 1000)
  end.
Proof.
  intros Hi. unfold is_u32, u32_max in Hi. unfold clock_aligned_delay.
  destruct (interval_s =? 0) eqn:E; bool_facts; [done|]. cbv zeta.
  set (p := interval_s * 1000). set (t := timestamp_millis now).
  assert (0 < p <= 4294967295 * 1000) as Hp by (unfold p; lia).
  pose proof (Z.mod_pos_bound t p ltac:(lia)) as Hm. pose proof (Z.div_mod t p ltac:(lia)) as Hd.
  set (ms := if t mod p =? 0 then p else p - t mod p).
  assert (0 < ms <= p /\ t + ms = (t / p + 1) * p) as [Hms Ht].
  { unfold ms. destruct (t mod p =? 0) eqn:E0; bool_facts; lia. }
  exists ms. split_and!; [|lia|lia| |].
  - apply td_milliseconds_ok. unfold i64_max. lia.
  - rewrite Ht. by apply Z_mod_mult.
  - intros k Hk. rewrite Ht. assert (t / p < k); [|nia].
    apply Z.div_lt_upper_bound; lia.
Qed.

Lemma clock_aligned_delay_witness :
  is_u32 60 /\ clock_aligned_delay (C := ns_chrono) (30 * NS_PER_SEC) 60 = Some (30 * NS_PER_SEC).
Proof.
  split; [by vm_compute|].
  pose proof (clock_aligned_delay_spec (C := ns_chrono) (CL := ns_chrono_laws) (30 * NS_PER_SEC) 60) as H.
  destruct (clock_aligned_delay (30 * NS_PER_SEC) 60) as [d|] eqn:E.
  - revert E. vm_compute. by intros [= <-].
  - exfalso. assert (is_u32 60) as Hu by by vm_compute. by specialize (H Hu).
Defined.

End Metering.
