(* ===== verification/SmartCharging.v ===== *)
(** * SmartCharging: evaluation of charging profiles and the composite schedule

    [station/smart_charging.rs]: the shape of a profile, the period in force at an instant,
    the precedence between profiles, the composite schedule of [GetCompositeSchedule] and the
    energy a connector takes under its limits. The central result is that the composite
    schedule, which evaluates only the instants that [change_instants] names, is at every
    whole second of its window what evaluating that second gives. *)

From S2P Require Import Prelude F64 Time Types Messages Metering.
Local Open Scope Z_scope.

(** The stored profile of [station/charging_profiles.rs]. *)
Module StoredProfile.
Record t : Type := mk {
  connector_id : ConnectorId;
  profile : ChargingProfile.t;
  bound_tx : option TxId.t;
  installed_at : option DateTime;
}.
#[export] Instance eta : Eta t := fun r =>
  mk (connector_id r) (profile r) (bound_tx r) (installed_at r).
End StoredProfile.
Export (hints) StoredProfile.

Module CompositeRequest.
Record t : Type := mk {
  connector : ConnectorId;
  duration_s : Z;
  unit : option ChargingRateUnitType.t;
  now : DateTime;
  connector_count : Z;
  active_tx : option TxId.t;
  tx_started_at : option DateTime;
  model : PowerModel.t;
}.
End CompositeRequest.

Module CompositeSchedule.
Record t : Type := mk {
  connector_id : ConnectorId;
  schedule_start : DateTime;
  charging_schedule : ChargingSchedule.t;
}.
End CompositeSchedule.

Module PowerRequest.
Record t : Type := mk {
  connector : ConnectorId;
  active_tx : option TxId.t;
  tx_started_at : option DateTime;
  model : PowerModel.t;
  charging_connectors : Z;
}.
End PowerRequest.

Module ShapeError.
Inductive t : Type :=
| NegativeStackLevel
| NoPeriods
| FirstPeriodNotZero
| PeriodsNotIncreasing
| InvalidLimit
| NonPositiveDuration.
End ShapeError.

Module CompositeError.
Inductive t : Type :=
| UnknownConnector (connector : ConnectorId)
| NonPositiveDuration
| NoSchedule.
End CompositeError.

Module SmartCharging.
Import ChargingProfile ChargingSchedule.
Import ChargingSchedulePeriod.

Definition DAY_SECONDS : Z := 86400.
Definition WEEK_SECONDS : Z := 604800.
Definition MAX_COMPOSITE_DURATION_S : Z := 604800.
Definition MAX_COMPOSITE_PERIODS : nat := 1000.

Definition shape_error (profile : ChargingProfile.t) : option ShapeError.t :=
  let schedule := charging_schedule profile in
  let periods := charging_schedule_period schedule in
  if stack_level profile <? 0 then Some ShapeError.NegativeStackLevel
  else if is_some_and (fun duration => duration <=? 0) (duration schedule)
  then Some ShapeError.NonPositiveDuration
  else
    match periods with
    | [] => Some ShapeError.NoPeriods
    | first :: _ =>
        if negb (start_period first =? 0) then Some ShapeError.FirstPeriodNotZero
        else if any (fun '(a, b) => start_period b <=? start_period a) (windows2 periods)
        then Some ShapeError.PeriodsNotIncreasing
        else if any (fun p => negb (is_finite (limit p)) || f_ltb (limit p) f_zero) periods
        then Some ShapeError.InvalidLimit
        else None
    end.

Definition is_valid_at (profile : ChargingProfile.t) (at_ : DateTime) : bool :=
  is_none_or (fun from => from <=? at_) (valid_from profile)
  && is_none_or (fun to => at_ <=? to) (valid_to profile).

Definition is_expired (profile : ChargingProfile.t) (at_ : DateTime) : bool :=
  is_some_and (fun to => to <? at_) (valid_to profile).

Definition recurrence_period_ms (profile : ChargingProfile.t) : option Z :=
  if charging_profile_kind profile != ChargingProfileKindType.Recurring then None
  else
    let seconds :=
      match recurrency_kind profile with
      | Some RecurrencyKindType.Weekly => WEEK_SECONDS
      | Some RecurrencyKindType.Daily | None => DAY_SECONDS
      end in
    Some (seconds * 1000).

Definition schedule_base (profile : ChargingProfile.t) (relative_start installed_at : option DateTime)
    (fallback_start : DateTime) : DateTime :=
  match charging_profile_kind profile with
  | ChargingProfileKindType.Relative => from_option id fallback_start relative_start
  | ChargingProfileKindType.Absolute | ChargingProfileKindType.Recurring =>
      from_option id fallback_start
        (option_or (option_or (start_schedule (charging_schedule profile)) (valid_from profile))
           installed_at)
  end.

(** Connector [0] is the station; [1..=count] are the physical connectors. *)
Definition is_known_connector (connector : ConnectorId) (connector_count : Z) : bool :=
  is_station connector || ((1 <=? connector) && (connector <=? connector_count)).

Definition max_option (left_ right_ : option f64) : option f64 :=
  match left_, right_ with
  | Some a, Some b => Some (if f_geb a b then a else b)
  | a, None => a
  | None, b => b
  end.

Definition min_option (left_ right_ : option Z) : option Z :=
  match left_, right_ with
  | Some a, Some b => Some (Z.min a b)
  | a, None => a
  | None, b => b
  end.

Definition round_tenth (value : f64) : f64 :=
  f_div (f_round (f_mul value (f_of_Z 10))) (f_of_Z 10).

Record Resolved : Type := mk_resolved {
  r_limit : f64;
  r_number_phases : option Z;
  r_min_charging_rate : option f64;
}.

Record Candidate : Type := mk_candidate {
  entry : StoredProfile.t;
  period : ChargingSchedulePeriod.t;
  c_limit : f64;
  rank : Z * bool;
}.

(** [best.rank >= candidate.rank], ordered by stack level and then by the tie break *)
Definition rank_geb (a b : Z * bool) : bool :=
  (b.1 <? a.1) || ((a.1 =? b.1) && implb b.2 a.2).

Definition keep_higher (best : option Candidate) (candidate : Candidate) : Candidate :=
  match best with
  | Some best => if rank_geb (rank best) (rank candidate) then best else candidate
  | None => candidate
  end.

Section with_chrono.
Context {C : Chrono}.

Definition period_at (profile : ChargingProfile.t) (at_ base : DateTime)
    : option ChargingSchedulePeriod.t :=
  if negb (is_valid_at profile at_) || (at_ <? base) then None
  else
    let elapsed_ms := num_milliseconds (dt_sub at_ base) in
    let elapsed_ms :=
      match recurrence_period_ms profile with
      | Some cycle_ms => elapsed_ms mod cycle_ms
      | None => elapsed_ms
      end in
    let schedule := charging_schedule profile in
    if is_some_and (fun duration => duration * 1000 <=? elapsed_ms) (duration schedule) then None
    else
      max_by (fun a b => start_period a <? start_period b)
        (retain (fun period => start_period period * 1000 <=? elapsed_ms)
           (charging_schedule_period schedule)).

Definition offset_ms (instant : DateTime) (ms : Z) : option DateTime :=
  let? d := try_milliseconds ms in checked_add_signed instant d.

(** The candidates that count from the start of the schedule or of one cycle. *)
Definition schedule_instants (schedule : ChargingSchedule.t) (start : DateTime)
    : list (option DateTime) :=
  map (fun period => offset_ms start (start_period period * 1000))
    (charging_schedule_period schedule)
  ++ [let? duration := duration schedule in offset_ms start (duration * 1000)].

Definition change_instants (profile : ChargingProfile.t) (base from until : DateTime)
    : list DateTime :=
  let schedule := charging_schedule profile in
  let candidates :=
    [valid_from profile; valid_to profile; Some base]
    ++ match recurrence_period_ms profile with
       | Some cycle_ms =>
           let first_cycle := num_milliseconds (dt_sub from base) / cycle_ms - 1 in
           let last_cycle := num_milliseconds (dt_sub until base) / cycle_ms + 1 in
           concat (map (fun cycle =>
             match offset_ms base (i64_saturating_mul cycle cycle_ms) with
             | None => []
             | Some cycle_start => schedule_instants schedule cycle_start
             end) (range_inclusive first_cycle last_cycle))
       | None => schedule_instants schedule base
       end in
  retain (fun instant => (from <=? instant) && (instant <=? until)) (omap id candidates).

Definition truncate_to_second (instant : DateTime) : DateTime :=
  dt_sub_delta instant (td_milliseconds (timestamp_subsec_millis instant)).

Abbreviation LimitOf := (StoredProfile.t -> ChargingSchedulePeriod.t -> f64).

(** The best candidate of each purpose: transaction, default, station. *)
Definition Best : Type := option Candidate * option Candidate * option Candidate.

Definition consider (connector : ConnectorId) (active_tx : option TxId.t) (at_ : DateTime)
    (limit_of : LimitOf) (best : Best) (usable : StoredProfile.t * DateTime) : Best :=
  let '(tx_best, default_best, cap_best) := best in
  let '(entry, base) := usable in
  let profile := StoredProfile.profile entry in
  match period_at profile at_ base with
  | None => best
  | Some period =>
      let candidate :=
        mk_candidate entry period (limit_of entry period)
          (stack_level profile, StoredProfile.connector_id entry =? connector) in
      match charging_profile_purpose profile with
      | ChargingProfilePurposeType.TxProfile =>
          let bound := is_someb active_tx && (StoredProfile.bound_tx entry == active_tx) in
          if (StoredProfile.connector_id entry =? connector) && bound
          then (Some (keep_higher tx_best candidate), default_best, cap_best)
          else best
      | ChargingProfilePurposeType.TxDefaultProfile =>
          (tx_best, Some (keep_higher default_best candidate), cap_best)
      | ChargingProfilePurposeType.ChargePointMaxProfile =>
          if is_station (StoredProfile.connector_id entry)
          then (tx_best, default_best, Some (keep_higher cap_best candidate))
          else best
      end
  end.

Definition min_rate (c : Candidate) : option f64 :=
  min_charging_rate (charging_schedule (StoredProfile.profile (entry c))).

Definition combine (selected cap_best : option Candidate) : option Resolved :=
  let min_charging_rate :=
    fold_left (fun acc c => max_option acc (min_rate c))
      (option_list selected ++ option_list cap_best) None in
  match selected, cap_best with
  | None, None => None
  | Some only, None | None, Some only =>
      Some (mk_resolved (c_limit only) (number_phases (period only)) min_charging_rate)
  | Some profile, Some cap =>
      let '(limit, number_phases) :=
        match f_partial_cmp (c_limit profile) (c_limit cap) with
        | Some Lt => (c_limit profile, number_phases (period profile))
        | Some Gt => (c_limit cap, number_phases (period cap))
        | _ => (c_limit profile,
                min_option (number_phases (period profile)) (number_phases (period cap)))
        end in
      Some (mk_resolved limit number_phases min_charging_rate)
  end.

Definition resolve_at (usable : list (StoredProfile.t * DateTime)) (connector : ConnectorId)
    (active_tx : option TxId.t) (at_ : DateTime) (limit_of : LimitOf) : option Resolved :=
  let '(tx_best, default_best, cap_best) :=
    fold_left (consider connector active_tx at_ limit_of) usable (None, None, None) in
  combine (option_or tx_best default_best) cap_best.

(** The priority of an entry: its purpose, then its stack level. *)
Definition priority (req : CompositeRequest.t) (start : DateTime) (entry : StoredProfile.t)
    : option (Z * Z) :=
  let profile := StoredProfile.profile entry in
  let connector := StoredProfile.connector_id entry in
  let? class :=
    match charging_profile_purpose profile with
    | ChargingProfilePurposeType.TxProfile =>
        let bound := is_someb (CompositeRequest.active_tx req)
                     && (StoredProfile.bound_tx entry == CompositeRequest.active_tx req) in
        if negb (connector =? CompositeRequest.connector req) || negb bound then None else Some 2
    | ChargingProfilePurposeType.TxDefaultProfile =>
        if negb (connector =? CompositeRequest.connector req) && negb (is_station connector)
        then None else Some 1
    | ChargingProfilePurposeType.ChargePointMaxProfile =>
        if negb (is_station connector) then None else Some 0
    end in
  if is_valid_at profile start then Some (class, stack_level profile) else None.

Definition priority_ltb (a b : Z * Z) : bool :=
  (a.1 <? b.1) || ((a.1 =? b.1) && (a.2 <? b.2)).

Definition default_unit (entries : list StoredProfile.t) (req : CompositeRequest.t)
    (start : DateTime) : ChargingRateUnitType.t :=
  let keyed :=
    omap (fun entry => let? key := priority req start entry in Some (key, entry)) entries in
  match max_by (fun a b => priority_ltb a.1 b.1) keyed with
  | Some (_, entry) => charging_rate_unit (charging_schedule (StoredProfile.profile entry))
  | None => ChargingRateUnitType.A
  end.

(** The profiles of [entries] that can affect a connector, with their schedule bases. *)
Definition with_base (relative_start : option DateTime) (fallback_start : DateTime)
    (entry : StoredProfile.t) : StoredProfile.t * DateTime :=
  (entry, schedule_base (StoredProfile.profile entry) relative_start
            (StoredProfile.installed_at entry) fallback_start).

Definition affects (connector : ConnectorId) (entry : StoredProfile.t) : bool :=
  (StoredProfile.connector_id entry =? connector) || is_station (StoredProfile.connector_id entry).

Definition usable_profiles (entries : list StoredProfile.t) (req : CompositeRequest.t)
    (unit : ChargingRateUnitType.t) (start : DateTime) : list (StoredProfile.t * DateTime) :=
  map (with_base (CompositeRequest.tx_started_at req) start)
    (retain (affects (CompositeRequest.connector req))
      (retain (fun entry =>
         charging_rate_unit (charging_schedule (StoredProfile.profile entry)) == unit) entries)).

(** Every whole second where the state may change, relative to [start]. *)
Definition change_offsets (usable : list (StoredProfile.t * DateTime)) (start window_end : DateTime)
    (window_ms : Z) : list Z :=
  let offsets :=
    0 :: concat (map (fun '(entry, base) =>
           concat (map (fun instant =>
             let ms := num_milliseconds (dt_sub instant start) in
             [(ms + 999) / 1000; ms / 1000 + 1])
             (change_instants (StoredProfile.profile entry) base start window_end))) usable) in
  dedup (sort_unstable
    (retain (fun offset => (0 <=? offset) && (offset * 1000 <? window_ms)) offsets)).

Definition same_period (a : ChargingSchedulePeriod.t) (limit_ : f64) (phases : option Z) : bool :=
  same_bits (limit a) limit_ && (number_phases a == phases).

(** One point of the loop that builds the periods. *)
Definition push_point (station_limit : f64)
    (acc : list ChargingSchedulePeriod.t * option f64) (point : Z * option Resolved)
    : list ChargingSchedulePeriod.t * option f64 :=
  let '(periods, rate) := acc in
  let '(offset, resolved) := point in
  let '(limit, phases, rate) :=
    match resolved with
    | Some r => (r_limit r, r_number_phases r, max_option rate (r_min_charging_rate r))
    | None => (station_limit, None, rate)
    end in
  if is_some_and (fun last => same_period last limit phases) (last periods)
  then (periods, rate)
  else
    (periods ++ [ChargingSchedulePeriod.mk (from_option id i32_max (try_into i32_min i32_max offset))
                   limit phases], rate).

Definition station_limit (model : PowerModel.t) (unit : ChargingRateUnitType.t) : f64 :=
  match unit with
  | ChargingRateUnitType.W => PowerModel.nominal_w model
  | ChargingRateUnitType.A =>
      round_tenth (PowerModel.watts_to_amps model (PowerModel.nominal_w model))
  end.

(** The periods beyond the maximum are cut and the duration ends where the first one was. *)
Definition cut_periods (periods : list ChargingSchedulePeriod.t) (duration_s : Z)
    : list ChargingSchedulePeriod.t * Z :=
  if (MAX_COMPOSITE_PERIODS <? length periods)%nat then
    (firstn MAX_COMPOSITE_PERIODS periods,
     match periods !! MAX_COMPOSITE_PERIODS with
     | Some first_cut => Z.min (start_period first_cut) duration_s
     | None => duration_s
     end)
  else (periods, duration_s).

Definition composite_schedule (entries : list StoredProfile.t) (req : CompositeRequest.t)
    : result CompositeSchedule.t CompositeError.t :=
  if negb (is_known_connector (CompositeRequest.connector req) (CompositeRequest.connector_count req))
  then Err (CompositeError.UnknownConnector (CompositeRequest.connector req))
  else if CompositeRequest.duration_s req <=? 0 then Err CompositeError.NonPositiveDuration
  else
    let duration_s := Z.min (CompositeRequest.duration_s req) MAX_COMPOSITE_DURATION_S in
    let start := truncate_to_second (CompositeRequest.now req) in
    let unit :=
      match CompositeRequest.unit req with
      | Some unit => unit
      | None => default_unit entries req start
      end in
    let window_end := dt_add start (td_seconds duration_s) in
    let usable := usable_profiles entries req unit start in
    match usable with
    | [] => Err CompositeError.NoSchedule
    | _ =>
        let offsets := change_offsets usable start window_end (duration_s * 1000) in
        let points :=
          map (fun offset =>
            (offset, resolve_at usable (CompositeRequest.connector req)
                       (CompositeRequest.active_tx req) (dt_add start (td_seconds offset))
                       (fun _ p => limit p))) offsets in
        if all (fun point => negb (is_someb point.2)) points then Err CompositeError.NoSchedule
        else
          let '(periods, min_charging_rate) :=
            fold_left (push_point (station_limit (CompositeRequest.model req) unit)) points
              ([], None) in
          let '(periods, duration_s) := cut_periods periods duration_s in
          Ok (CompositeSchedule.mk (CompositeRequest.connector req) start
                (ChargingSchedule.mk (Some duration_s) (Some start) unit periods
                   min_charging_rate))
    end.

(** ** Power *)

Definition power_profiles (entries : list StoredProfile.t) (req : PowerRequest.t)
    (fallback_start : DateTime) : list (StoredProfile.t * DateTime) :=
  map (with_base (PowerRequest.tx_started_at req) fallback_start)
    (retain (affects (PowerRequest.connector req)) entries).

Definition limit_in_watts (req : PowerRequest.t) : LimitOf :=
  fun entry period =>
    let share := f_of_Z (Z.max (PowerRequest.charging_connectors req) 1) in
    let watts :=
      match charging_rate_unit (charging_schedule (StoredProfile.profile entry)) with
      | ChargingRateUnitType.W => limit period
      | ChargingRateUnitType.A =>
          PowerModel.amps_to_watts (PowerRequest.model req) (limit period) (number_phases period)
      end in
    if charging_profile_purpose (StoredProfile.profile entry)
       == ChargingProfilePurposeType.ChargePointMaxProfile
    then f_div watts share
    else watts.

Definition limit_w_resolved (usable : list (StoredProfile.t * DateTime)) (req : PowerRequest.t)
    (at_ : DateTime) : option f64 :=
  r_limit <$> resolve_at usable (PowerRequest.connector req) (PowerRequest.active_tx req) at_
                (limit_in_watts req).

Definition limit_w_at (entries : list StoredProfile.t) (req : PowerRequest.t) (at_ : DateTime)
    : option f64 :=
  limit_w_resolved (power_profiles entries req at_) req at_.

(** The instants between which the limit is constant. *)
Definition energy_cuts (usable : list (StoredProfile.t * DateTime)) (from to : DateTime)
    : list DateTime :=
  dedup (sort_unstable ([from; to]
    ++ concat (map (fun '(entry, base) =>
         change_instants (StoredProfile.profile entry) base from to) usable))).

(** [iter().sum()] of [f64] starts at [-0.0]. *)
Definition f_sum (l : list f64) : f64 := fold_left f_add l (S754_zero true).

Definition piece_energy (usable : list (StoredProfile.t * DateTime)) (req : PowerRequest.t)
    (pair : DateTime * DateTime) : f64 :=
  let span := dt_sub pair.2 pair.1 in
  let middle := dt_add pair.1 (td_half span) in
  let power := PowerModel.effective_w (PowerRequest.model req) (limit_w_resolved usable req middle) in
  f_div (f_mul power (as_seconds_f64 span)) (f_of_Z 3600).

Definition energy_wh (entries : list StoredProfile.t) (req : PowerRequest.t) (from to : DateTime)
    : f64 :=
  if to <=? from then f_zero
  else
    let usable := power_profiles entries req from in
    f_sum (map (piece_energy usable req) (windows2 (energy_cuts usable from to))).

(** ** Where the period in force can change *)

(** What the types of the source and [shape_error] give. *)
Record profile_ok (p : ChargingProfile.t) : Prop := {
  ok_shape : shape_error p = None;
  ok_starts : Forall (fun q => is_i32 (start_period q)) (charging_schedule_period (charging_schedule p));
  ok_duration : forall d, duration (charging_schedule p) = Some d -> is_i32 d;
}.

Definition elapsed (base t : DateTime) : Z := num_milliseconds (dt_sub t base).

Definition in_cycle (p : ChargingProfile.t) (ms : Z) : Z :=
  match recurrence_period_ms p with Some cycle => ms mod cycle | None => ms end.

(** The milliseconds at which the schedule (or its cycle) changes. *)
Definition threshold (s : ChargingSchedule.t) (k : Z) : Prop :=
  (exists q, In q (charging_schedule_period s) /\ k = start_period q * 1000)
  \/ exists d, duration s = Some d /\ k = d * 1000.

Context {CL : ChronoLaws C}.

Lemma offset_ms_ok t ms :
  - i64_max <= ms <= i64_max -> in_range (t + ms * NS_PER_MS) ->
  offset_ms t ms = Some (t + ms * NS_PER_MS).
Proof.
  intros Hms Hr. unfold offset_ms. rewrite try_milliseconds_ok by done.
  by apply checked_add_ok.
Qed.

(** Milliseconds between instants fit the crate's range. *)
Lemma span_ms t u ms :
  in_range t -> in_range u -> u = t + ms * NS_PER_MS -> - i64_max <= ms <= i64_max.
Proof.
  unfold in_range. intros Ht Hu ->. pose proof range_ms as Hr. unfold NS_PER_MS, i64_max in *. lia.
Qed.

Lemma schedule_instants_hit s start k :
  in_range start -> in_range (start + k * NS_PER_MS) -> threshold s k ->
  In (Some (start + k * NS_PER_MS)) (schedule_instants s start).
Proof.
  intros Hs Hk Ht. pose proof (span_ms start _ k Hs Hk eq_refl) as Hms.
  unfold schedule_instants. apply in_or_app.
  destruct Ht as [(q & Hq & ->)|(d & Hd & ->)]; [left|right].
  - apply in_map_iff. exists q. split; [by apply offset_ms_ok|done].
  - left. rewrite Hd. by apply offset_ms_ok.
Qed.

Lemma change_instants_In p base from until c :
  from <= c <= until ->
  In (Some c) ([valid_from p; valid_to p; Some base]
    ++ match recurrence_period_ms p with
       | Some cycle_ms =>
           concat (map (fun cycle =>
             match offset_ms base (i64_saturating_mul cycle cycle_ms) with
             | None => []
             | Some cycle_start => schedule_instants (charging_schedule p) cycle_start
             end) (range_inclusive (num_milliseconds (dt_sub from base) / cycle_ms - 1)
                     (num_milliseconds (dt_sub until base) / cycle_ms + 1)))
       | None => schedule_instants (charging_schedule p) base
       end) ->
  In c (change_instants p base from until).
Proof.
  intros Hc Hin. unfold change_instants. cbv zeta. apply retain_In. split; [|lia].
  apply list_elem_of_In, list_elem_of_omap. exists (Some c). split; [|done].
  by apply list_elem_of_In.
Qed.

Section quiet.
Context (p : ChargingProfile.t) (base from until t1 t2 : DateTime).
Hypothesis Hp : profile_ok p.
Hypothesis Hbase : in_range base.
Hypothesis Hfrom : in_range from.
Hypothesis Huntil : in_range until.
Hypothesis Hle : from <= t1 /\ t1 <= t2 /\ t2 <= until.
Hypothesis Hquiet : forall c, In c (change_instants p base from until) -> ~ t1 <= c <= t2.

Lemma quiet_in_range t : t1 <= t <= t2 -> in_range t.
Proof using Hfrom Huntil Hle. unfold in_range in *. lia. Qed.

Lemma quiet_bound c :
  In (Some c) [valid_from p; valid_to p; Some base] -> ~ t1 <= c <= t2.
Proof using Hle Hquiet.
  intros Hin Hc. apply (Hquiet c); [|done]. apply change_instants_In; [lia|].
  apply in_or_app. by left.
Qed.

Lemma quiet_valid : is_valid_at p t1 = is_valid_at p t2.
Proof using Hle Hquiet.
  unfold is_valid_at. f_equal.
  - destruct (valid_from p) as [f|] eqn:E; [|done]. simpl.
    assert (~ t1 <= f <= t2) by (apply quiet_bound; left; done). apply eq_true_iff_eq. lia.
  - destruct (valid_to p) as [f|] eqn:E; [|done]. simpl.
    assert (~ t1 <= f <= t2) by (apply quiet_bound; right; left; done).
    apply eq_true_iff_eq. lia.
Qed.

Lemma quiet_base : (t1 <? base) = (t2 <? base).
Proof using Hle Hquiet.
  assert (~ t1 <= base <= t2) by (apply quiet_bound; do 2 right; by left).
  apply eq_true_iff_eq. lia.
Qed.

(** Outside the change instants no threshold of the schedule is crossed. *)
Lemma crossing k :
  base <= t1 -> ~ t1 < base + k * NS_PER_MS <= t2 ->
  (k <=? elapsed base t1) = (k <=? elapsed base t2).
Proof using Hbase Hfrom Huntil Hle CL.
  intros Hb Hk. assert (in_range t1) as H1 by (apply quiet_in_range; lia).
  assert (in_range t2) as H2 by (apply quiet_in_range; lia).
  pose proof (elapsed_ms_ge t1 base k H1 Hbase Hb). pose proof (elapsed_ms_ge t2 base k H2 Hbase ltac:(lia)).
  unfold elapsed. apply eq_true_iff_eq. rewrite !Z.leb_le. lia.
Qed.

Lemma quiet_plain k :
  base <= t1 -> recurrence_period_ms p = None -> threshold (charging_schedule p) k ->
  (k <=? elapsed base t1) = (k <=? elapsed base t2).
Proof using Hbase Hfrom Huntil Hle Hquiet CL.
  intros Hb Hrec Hk. apply crossing; [done|]. intros Hc.
  apply (Hquiet (base + k * NS_PER_MS)); [|lia]. apply change_instants_In; [lia|].
  apply in_or_app. right. rewrite Hrec. apply schedule_instants_hit; [done| |done].
  apply quiet_in_range. lia.
Qed.

Lemma quiet_cycle_hit cycle q k :
  base <= t1 -> recurrence_period_ms p = Some cycle -> 0 < cycle -> 0 <= q ->
  elapsed base t1 / cycle <= q <= elapsed base t2 / cycle ->
  base + q * cycle * NS_PER_MS <= t2 ->
  threshold (charging_schedule p) k ->
  ~ t1 < base + (q * cycle + k) * NS_PER_MS <= t2.
Proof using Hbase Hfrom Huntil Hle Hquiet CL.
  intros Hb Hrec Hcy Hq Hrange Hstart Hk Hc.
  assert (base + (q * cycle + k) * NS_PER_MS = base + q * cycle * NS_PER_MS + k * NS_PER_MS)
    as Heq by lia.
  assert (in_range (base + q * cycle * NS_PER_MS)) as Hcs.
  { unfold in_range in *. unfold NS_PER_MS in *. nia. }
  apply (Hquiet (base + (q * cycle + k) * NS_PER_MS)); [|lia].
  apply change_instants_In; [lia|]. apply in_or_app. right. rewrite Hrec.
  apply in_concat. exists (schedule_instants (charging_schedule p) (base + q * cycle * NS_PER_MS)).
  split.
  - apply in_map_iff. exists q. split.
    + pose proof (span_ms base _ (q * cycle) Hbase Hcs eq_refl) as Hms.
      assert (i64_saturating_mul q cycle = q * cycle) as ->.
      { unfold i64_saturating_mul, i64_min, i64_max in *. lia. }
      by rewrite offset_ms_ok.
    + apply range_inclusive_In.
      assert (in_range t1) as H1 by (apply quiet_in_range; lia).
      assert (in_range t2) as H2 by (apply quiet_in_range; lia).
      pose proof (elapsed_ms_mono t1 from base H1 Hfrom Hbase ltac:(lia)) as Hm1.
      pose proof (elapsed_ms_mono until t2 base Huntil H2 Hbase ltac:(lia)) as Hm2.
      apply (Z.div_le_mono _ _ cycle Hcy) in Hm1, Hm2. unfold elapsed in Hrange. lia.
  - rewrite Heq. apply schedule_instants_hit; [done| |done].
    rewrite <- Heq. apply quiet_in_range. lia.
Qed.

Lemma first_period_zero : threshold (charging_schedule p) 0.
Proof using Hp.
  destruct Hp as [Hs _ _]. unfold shape_error in Hs. left.
  destruct (stack_level p <? 0); [done|]. destruct (is_some_and _ _); [done|].
  destruct (charging_schedule_period _) as [|q l]; [done|].
  destruct (start_period q =? 0) eqn:E; [|done]. bool_facts. exists q.
  split; [by left|lia].
Qed.

(** Both instants are in the same cycle and on the same side of every threshold in it. *)
Lemma quiet_recurring cycle k :
  base <= t1 -> recurrence_period_ms p = Some cycle -> 0 < cycle ->
  threshold (charging_schedule p) k ->
  (k <=? elapsed base t1 mod cycle) = (k <=? elapsed base t2 mod cycle).
Proof using Hp Hbase Hfrom Huntil Hle Hquiet CL.
  intros Hb Hrec Hcy Hk.
  assert (in_range t1) as H1 by (apply quiet_in_range; lia).
  assert (in_range t2) as H2 by (apply quiet_in_range; lia).
  pose proof (elapsed_ms_nonneg t1 base H1 Hbase Hb) as Hn1.
  pose proof (elapsed_ms_mono t2 t1 base H2 H1 Hbase ltac:(lia)) as Hm.
  fold (elapsed base t1) in Hn1, Hm. fold (elapsed base t2) in Hm.
  set (e1 := elapsed base t1) in *. set (e2 := elapsed base t2) in *.
  pose proof (Z.div_le_mono _ _ cycle Hcy Hm) as Hq.
  pose proof (Z.div_mod e1 cycle ltac:(lia)) as D1. pose proof (Z.mod_pos_bound e1 cycle Hcy) as M1.
  pose proof (Z.div_mod e2 cycle ltac:(lia)) as D2. pose proof (Z.mod_pos_bound e2 cycle Hcy) as M2.
  assert (0 <= e1 / cycle) as Hq1 by (apply Z.div_pos; lia).
  pose proof (elapsed_ms_ge t2 base (e2 / cycle * cycle) H2 Hbase ltac:(lia)) as Hs2.
  pose proof (elapsed_ms_ge t1 base (e2 / cycle * cycle) H1 Hbase Hb) as Hs1.
  fold (elapsed base t2) in Hs2. fold e2 in Hs2. fold (elapsed base t1) in Hs1. fold e1 in Hs1.
  assert (base + e2 / cycle * cycle * NS_PER_MS <= t2) as Hstart by (apply Hs2; nia).
  assert (e1 / cycle = e2 / cycle) as Heq.
  { destruct (Z.eq_dec (e1 / cycle) (e2 / cycle)) as [|Hne]; [done|exfalso].
    pose proof (quiet_cycle_hit cycle (e2 / cycle) 0 Hb Hrec Hcy ltac:(lia) ltac:(fold e1 e2; lia)
      Hstart first_period_zero) as Hhit.
    apply Hhit. rewrite Z.add_0_r. assert (e1 < e2 / cycle * cycle) by nia. lia. }
  pose proof (crossing (e2 / cycle * cycle + k) Hb) as Hx. fold e1 e2 in Hx.
  rewrite (eq_true_iff_eq (k <=? e1 mod cycle) (e2 / cycle * cycle + k <=? e1)) by lia.
  rewrite Hx; [apply eq_true_iff_eq; lia|].
  refine (quiet_cycle_hit cycle (e2 / cycle) k Hb Hrec Hcy _ _ Hstart Hk); [lia|].
  fold e1 e2. lia.
Qed.

Lemma recurrence_positive cycle : recurrence_period_ms p = Some cycle -> 0 < cycle.
Proof using.
  unfold recurrence_period_ms. destruct (_ != _); [done|]. intros [= <-].
  destruct (recurrency_kind p) as [[]|]; by vm_compute.
Qed.

(** Between two instants with no change instant between them or at them, the period in force
    stays the same. *)
Lemma quiet_period : period_at p t1 base = period_at p t2 base.
Proof using Hp Hbase Hfrom Huntil Hle Hquiet CL.
  unfold period_at. rewrite quiet_valid, quiet_base.
  destruct (_ || _) eqn:E; [done|]. bool_facts. cbv zeta.
  fold (elapsed base t1) (elapsed base t2).
  fold (in_cycle p (elapsed base t1)) (in_cycle p (elapsed base t2)).
  assert ((t1 <? base) = false) as Hb1 by by rewrite quiet_base; lia.
  assert (forall k, threshold (charging_schedule p) k ->
    (k <=? in_cycle p (elapsed base t1)) = (k <=? in_cycle p (elapsed base t2))) as Hk.
  { intros k Hk. unfold in_cycle. destruct (recurrence_period_ms p) as [cycle|] eqn:Er.
    - apply quiet_recurring; [lia|done|by apply recurrence_positive|done].
    - apply quiet_plain; [lia|done|done]. }
  assert (is_some_and (fun d => d * 1000 <=? in_cycle p (elapsed base t1))
            (duration (charging_schedule p))
          = is_some_and (fun d => d * 1000 <=? in_cycle p (elapsed base t2))
            (duration (charging_schedule p))) as ->.
  { destruct (duration _) as [d|] eqn:Ed; [|done]. apply Hk. right. eauto. }
  destruct (is_some_and _ _); [done|]. f_equal. apply filter_ext_in.
  intros q Hq. apply Hk. left. eauto.
Qed.
End quiet.

(** ** The composite schedule *)

Lemma fold_consider_ext connector tx t1 t2 limit_of usable best :
  (forall e b, In (e, b) usable ->
     period_at (StoredProfile.profile e) t1 b = period_at (StoredProfile.profile e) t2 b) ->
  fold_left (consider connector tx t1 limit_of) usable best =
  fold_left (consider connector tx t2 limit_of) usable best.
Proof using.
  revert best. induction usable as [|[e b] usable IH]; intros best H; [done|]. cbn [fold_left].
  assert (consider connector tx t1 limit_of best (e, b) = consider connector tx t2 limit_of best (e, b))
    as ->.
  { unfold consider. destruct best as [[? ?] ?]. by rewrite (H e b (or_introl eq_refl)). }
  apply IH. intros e' b' Hin. apply H. by right.
Qed.

Lemma resolve_ext connector tx t1 t2 limit_of usable :
  (forall e b, In (e, b) usable ->
     period_at (StoredProfile.profile e) t1 b = period_at (StoredProfile.profile e) t2 b) ->
  resolve_at usable connector tx t1 limit_of = resolve_at usable connector tx t2 limit_of.
Proof using. intros H. unfold resolve_at. by rewrite (fold_consider_ext connector tx t1 t2). Qed.

(** The entries as the station holds them: admitted profiles and instants of the crate. *)
Record entry_ok (e : StoredProfile.t) : Prop := {
  ok_profile : profile_ok (StoredProfile.profile e);
  ok_instants : forall t,
    In (Some t) [valid_from (StoredProfile.profile e); StoredProfile.installed_at e;
                 start_schedule (charging_schedule (StoredProfile.profile e))] -> in_range t;
}.

Definition usable_ok (usable : list (StoredProfile.t * DateTime)) : Prop :=
  forall e b, In (e, b) usable -> entry_ok e /\ in_range b.

Lemma with_base_ok relative start entries :
  Forall entry_ok entries -> in_range start -> (forall t, relative = Some t -> in_range t) ->
  usable_ok (map (with_base relative start) entries).
Proof using.
  intros He Hs Hr e b (x & [= -> <-] & Hin)%in_map_iff.
  rewrite List.Forall_forall in He. specialize (He e Hin). split; [done|].
  destruct He as [_ Hi]. unfold schedule_base.
  assert (in_range (from_option id start (option_or (option_or
    (start_schedule (charging_schedule (StoredProfile.profile e)))
    (valid_from (StoredProfile.profile e))) (StoredProfile.installed_at e)))) as Hin2.
  { destruct (start_schedule _) as [t|]; simpl; [apply Hi; simpl; tauto|].
    destruct (valid_from _) as [t|]; simpl; [apply Hi; simpl; tauto|].
    destruct (StoredProfile.installed_at e) as [t|]; simpl; [apply Hi; simpl; tauto|done]. }
  destruct (charging_profile_kind _); [done|done|].
  destruct relative as [t|]; simpl; [by apply Hr|done].
Qed.

Section window.
Context (usable : list (StoredProfile.t * DateTime)) (start : DateTime) (duration_s : Z).
Context (connector : ConnectorId) (tx : option TxId.t) (limit_of : LimitOf).
Hypothesis Husable : usable_ok usable.
Hypothesis Hduration : 0 < duration_s <= MAX_COMPOSITE_DURATION_S.
Hypothesis Hstart : in_range start.
Hypothesis Hend : in_range (start + duration_s * NS_PER_SEC).

Abbreviation second s := (start + s * NS_PER_SEC) (only parsing).
Abbreviation offsets :=
  (change_offsets usable start (second duration_s) (duration_s * 1000)) (only parsing).
Abbreviation resolved s := (resolve_at usable connector tx (second s) limit_of) (only parsing).

Lemma offsets_In_bound o : In o offsets -> 0 <= o < duration_s.
Proof using.
  unfold change_offsets. rewrite dedup_In, sort_unstable_In, retain_In. lia.
Qed.

Lemma offsets_zero : In 0 offsets.
Proof using Hduration.
  unfold change_offsets. rewrite dedup_In, sort_unstable_In, retain_In.
  split; [by left|lia].
Qed.

Lemma offsets_head : head offsets = Some 0.
Proof using Hduration.
  pose proof offsets_zero as H0. pose proof offsets_In_bound as Hb.
  assert (StronglySorted Z.lt offsets) as Hs by apply sort_dedup_sorted.
  destruct offsets as [|o l]; [done|]. simpl. f_equal.
  destruct H0 as [->|H0]; [done|]. inversion Hs as [|? ? _ Hf]; subst.
  rewrite List.Forall_forall in Hf. specialize (Hf 0 H0). specialize (Hb o (or_introl eq_refl)). lia.
Qed.

Lemma offsets_hit e b c o :
  In (e, b) usable ->
  In c (change_instants (StoredProfile.profile e) b start (second duration_s)) ->
  0 <= o < duration_s ->
  (o = (num_milliseconds (dt_sub c start) + 999) / 1000
   \/ o = num_milliseconds (dt_sub c start) / 1000 + 1) ->
  In o offsets.
Proof using.
  intros Hin Hc Hb Ho. unfold change_offsets.
  rewrite dedup_In, sort_unstable_In, retain_In. split; [right|lia].
  apply in_concat. eexists. split.
  { apply in_map_iff. exists (e, b). split; [reflexivity|done]. }
  apply in_concat. eexists. split.
  { apply in_map_iff. exists c. split; [reflexivity|done]. }
  destruct Ho as [->| ->]; simpl; auto.
Qed.

Lemma second_in_range s : 0 <= s <= duration_s -> in_range (second s).
Proof using Hstart Hend. unfold in_range, NS_PER_SEC in *. lia. Qed.

Lemma quiet_second k :
  0 <= k -> k + 1 < duration_s -> ~ In (k + 1) offsets -> resolved k = resolved (k + 1).
Proof using Husable Hstart Hend CL.
  intros Hk Hk1 Hnot. apply resolve_ext. intros e b Hin.
  destruct (Husable e b Hin) as [[Hp _] Hb].
  apply (quiet_period (StoredProfile.profile e) b start (second duration_s));
    [done|done|done|done|unfold NS_PER_SEC; lia|].
  intros c Hc Hbetween. apply Hnot.
  assert (in_range c) as Hcr.
  { pose proof (second_in_range k ltac:(lia)). pose proof (second_in_range (k + 1) ltac:(lia)).
    unfold in_range in *. lia. }
  assert (start <= c) as Hge by (unfold NS_PER_SEC in *; lia).
  pose proof (elapsed_ms_ge c start (k * 1000) Hcr Hstart Hge) as H1.
  pose proof (elapsed_ms_lt c start ((k + 1) * 1000 + 1) Hcr Hstart Hge) as H2.
  pose proof (offsets_hit e b c (k + 1) Hin Hc ltac:(lia)) as Hhit.
  set (ms := num_milliseconds (dt_sub c start)) in *.
  assert (k * 1000 <= ms < (k + 1) * 1000 + 1) as Hms.
  { unfold NS_PER_MS, NS_PER_SEC in *. split; [apply H1; lia|apply H2; lia]. }
  clear H1 H2 Hbetween. apply Hhit. destruct (Z.eq_dec ms ((k + 1) * 1000)) as [->|Hne]; [left|right].
  - replace ((k + 1) * 1000 + 999) with (999 + (k + 1) * 1000) by lia.
    rewrite Z.div_add by lia.
    by change (999 / 1000) with 0.
  - assert (ms / 1000 = k); [|lia]. symmetry. apply Z.div_unique with (ms - 1000 * k); lia.
Qed.

(** The limits at a second are those of the last evaluated second. *)
Lemma quiet_since o n :
  0 <= o -> o + Z.of_nat n < duration_s ->
  (forall x, o < x <= o + Z.of_nat n -> ~ In x offsets) ->
  resolved o = resolved (o + Z.of_nat n).
Proof using Husable Hstart Hend CL.
  intros Ho. induction n as [|n IH]; intros Hn Hnot; [by rewrite Z.add_0_r|].
  rewrite IH; [|lia|intros x Hx; apply Hnot; lia].
  replace (o + Z.of_nat (S n)) with (o + Z.of_nat n + 1) by lia.
  apply quiet_second; [lia|lia|]. apply Hnot. lia.
Qed.

Lemma last_offset s :
  0 <= s < duration_s ->
  exists o, In o offsets /\ 0 <= o <= s /\ (forall x, In x offsets -> x <= s -> x <= o) /\
    resolved o = resolved s.
Proof using Husable Hduration Hstart Hend CL.
  intros Hs.
  assert (exists o, In o offsets /\ o <= s /\ forall x, In x offsets -> x <= s -> x <= o)
    as (o & Hin & Hle & Hmax).
  { apply largest_below. exists 0. split; [apply offsets_zero|lia]. }
  pose proof (offsets_In_bound o Hin) as Hb. exists o. split_and!; try done; [lia|].
  replace s with (o + Z.of_nat (Z.to_nat (s - o))) by lia.
  apply quiet_since; [lia|lia|]. intros x Hx Hx'. specialize (Hmax x Hx'). lia.
Qed.
End window.

(** ** The periods built from the points *)

Definition in_force (periods : list ChargingSchedulePeriod.t) (s : Z)
    : option ChargingSchedulePeriod.t :=
  last (retain (fun q => start_period q <=? s) periods).

(** What a period shows for a resolved limit. *)
Definition shown (station : f64) (r : option Resolved) : f64 * option Z :=
  match r with
  | Some r => (r_limit r, r_number_phases r)
  | None => (station, None)
  end.

Definition shows (q : ChargingSchedulePeriod.t) : f64 * option Z := (limit q, number_phases q).

Definition starts (periods : list ChargingSchedulePeriod.t) : list Z := map start_period periods.

Section periods.
Context (station : f64) (R : Z -> option Resolved).

Definition build (offsets : list Z) : list ChargingSchedulePeriod.t * option f64 :=
  fold_left (push_point station) (map (fun o => (o, R o)) offsets) ([], None).

Lemma build_snoc offsets o :
  build (offsets ++ [o]) = push_point station (build offsets) (o, R o).
Proof using. unfold build. by rewrite map_app, fold_left_app. Qed.

Lemma push_point_periods acc o :
  is_i32 o ->
  exists rate, push_point station acc (o, R o) =
    ((if is_some_and (fun q => bool_decide (shows q = shown station (R o))) (last acc.1)
      then acc.1
      else acc.1 ++ [ChargingSchedulePeriod.mk o (shown station (R o)).1 (shown station (R o)).2]),
     rate).
Proof using.
  intros Ho. unfold push_point. destruct acc as [P rate]. cbn [fst].
  assert (try_into i32_min i32_max o = Some o) as ->.
  { unfold try_into, is_i32 in *. destruct (_ && _) eqn:E; [done|].
    apply andb_false_iff in E as [E|E]; bool_facts; lia. }
  assert (forall l ph, is_some_and (fun last => same_period last l ph) (last P) =
    is_some_and (fun q => bool_decide (shows q = (l, ph))) (last P)) as Hsame.
  { intros l ph. destruct (last P) as [q|]; [|done]. simpl. unfold same_period, same_bits, shows.
    apply eq_true_iff_eq. rewrite andb_true_iff, !eqb_true, bool_decide_eq_true.
    split; [intros [-> ->]; done|by intros [= -> ->]]. }
  destruct (R o) as [r|]; cbn [shown fst snd from_option id]; rewrite Hsame;
    destruct (is_some_and _ _); eauto.
Qed.

(** The periods follow the points: every point is shown by the period in force at it. *)
Record follows (offsets : list Z) (P : list ChargingSchedulePeriod.t) : Prop := {
  fo_starts : forall q, In q P -> In (start_period q) offsets;
  fo_sorted : StronglySorted Z.lt (starts P);
  fo_first : head (starts P) = head offsets;
  fo_last : shows <$> last P = shown station ∘ R <$> last offsets;
  fo_shows : forall o, In o offsets -> shows <$> in_force P o = Some (shown station (R o));
  (** no two neighbours show the same *)
  fo_distinct : forall a b, In (a, b) (windows2 P) -> shows a <> shows b;
}.

Lemma retain_le_app P o q :
  o < start_period q -> retain (fun q => start_period q <=? o) (P ++ [q])
                        = retain (fun q => start_period q <=? o) P.
Proof using.
  intros H. rewrite List.filter_app. simpl. destruct (_ <=? _) eqn:E; bool_facts; [lia|].
  by rewrite app_nil_r.
Qed.

Lemma in_force_all P o :
  (forall q, In q P -> start_period q <= o) -> in_force P o = last P.
Proof using.
  intros H. unfold in_force. rewrite retain_all; [done|]. intros q Hq. apply Z.leb_le. auto.
Qed.

Lemma build_follows offsets :
  StronglySorted Z.lt offsets -> Forall is_i32 offsets -> follows offsets (build offsets).1.
Proof using.
  induction offsets as [|o offsets IH] using rev_ind; intros Hs Hi.
  { by constructor; constructor || done. }
  apply StronglySorted_app in Hs as (Hlt & Hs & _). apply Forall_app in Hi as [Hi Ho].
  assert (forall x, In x offsets -> x < o) as Hbelow.
  { intros x Hx. apply (Hlt x o); [by apply list_elem_of_In|by left]. }
  specialize (IH Hs Hi) as [H1 H2 H3 H4 H5 H6]. rewrite build_snoc.
  destruct (push_point_periods (build offsets) o ltac:(by inversion Ho)) as [rate ->].
  set (P := (build offsets).1) in *. cbn [fst].
  assert (forall q, In q P -> start_period q < o) as HP by auto.
  destruct (is_some_and _ (last P)) eqn:E.
  - destruct (last P) as [q|] eqn:Eq; [|done]. simpl in E. apply bool_decide_eq_true in E.
    constructor; try done.
    + intros x Hx. apply in_or_app. left. auto.
    + rewrite H3. destruct offsets; [|done]. by destruct (last []).
    + rewrite Eq, last_snoc. simpl. by rewrite E.
    + intros x [Hx|[<-|[]]]%in_app_or; [auto|].
      rewrite in_force_all by (intros ? ?; apply Z.lt_le_incl; auto).
      rewrite Eq. simpl. by rewrite E.
  - constructor.
    + intros x [Hx|[<-|[]]]%in_app_or; apply in_or_app; [left; auto|right; by left].
    + unfold starts. rewrite map_app. apply StronglySorted_app_2; [|done|repeat constructor].
      intros x1 x2 Hx1 Hx2. apply list_elem_of_In, in_map_iff in Hx1 as (q & <- & Hq).
      apply list_elem_of_singleton in Hx2 as ->. auto.
    + unfold starts in *. rewrite map_app. destruct offsets as [|x offsets], P as [|y P']; done.
    + rewrite !last_snoc. simpl. by destruct (shown station (R o)).
    + intros x [Hx|[<-|[]]]%in_app_or.
      * unfold in_force. rewrite retain_le_app by (cbn; auto). by apply H5.
      * rewrite in_force_all.
        { rewrite last_snoc. simpl. by destruct (shown station (R o)). }
        intros q [Hq|[<-|[]]]%in_app_or; [apply Z.lt_le_incl; auto|cbn; lia].
    + intros a b Hab. destruct (last P) as [q|] eqn:Eq.
      * apply last_Some in Eq as [P' HP']. rewrite HP' in Hab. rewrite <- app_assoc in Hab.
        simpl in Hab. rewrite windows2_app, <- HP' in Hab.
        apply in_app_or in Hab as [Hab|[[= <- <-]|[]]]; [auto|]. simpl in E.
        apply bool_decide_eq_false in E. cbn. by destruct (shown station (R o)).
      * apply last_None in Eq. by rewrite Eq in Hab.
Qed.
End periods.

(** Cutting keeps the periods in force before the shortened end. *)
Record cut_ok (P : list ChargingSchedulePeriod.t) (d : Z) (P' : list ChargingSchedulePeriod.t)
    (d' : Z) : Prop := {
  cut_duration : 0 < d' <= d;
  cut_length : (length P' <= MAX_COMPOSITE_PERIODS)%nat;
  cut_prefix : P' `prefix_of` P;
  cut_ends : forall q, In q P' -> start_period q < d';
  cut_in_force : forall s, 0 <= s < d' -> in_force P' s = in_force P s;
  (** only when the maximum is reached *)
  cut_only : d' <> d -> length P' = MAX_COMPOSITE_PERIODS;
}.

Lemma sorted_drop P n q x :
  StronglySorted Z.lt (starts P) -> P !! n = Some q -> In x (drop n P) ->
  start_period q <= start_period x.
Proof using.
  intros Hs Hq Hx. rewrite <- (take_drop_middle _ _ _ Hq) in Hs.
  unfold starts in Hs. rewrite map_app in Hs. apply StronglySorted_app in Hs as (_ & _ & Hs).
  rewrite (drop_S _ _ _ Hq) in Hx. destruct Hx as [<-|Hx]; [lia|].
  simpl in Hs. inversion Hs as [|? ? _ Hf]; subst. rewrite List.Forall_forall in Hf.
  apply Z.lt_le_incl, Hf, in_map_iff. eauto.
Qed.

Lemma sorted_take P n q x :
  StronglySorted Z.lt (starts P) -> P !! n = Some q -> In x (firstn n P) ->
  start_period x < start_period q.
Proof using.
  intros Hs Hq Hx. rewrite <- (take_drop_middle _ _ _ Hq) in Hs.
  unfold starts in Hs. rewrite map_app in Hs. apply StronglySorted_app in Hs as (Hlt & _ & _).
  apply Hlt; [|by left]. apply list_elem_of_In, in_map_iff. eauto.
Qed.

Lemma cut_periods_ok P d :
  StronglySorted Z.lt (starts P) -> (forall q, In q P -> 0 <= start_period q < d) -> 0 < d ->
  cut_ok P d (cut_periods P d).1 (cut_periods P d).2.
Proof using.
  intros Hs Hb Hd. unfold cut_periods.
  destruct (Nat.ltb_spec MAX_COMPOSITE_PERIODS (length P)) as [Hlt|Hge]; cbn [fst snd].
  2:{ constructor; try done. intros q Hq. by apply Hb. }
  destruct (lookup_lt_is_Some_2 P _ Hlt) as [q Hq]. rewrite Hq.
  assert (In q P) as Hin by (by eapply list_elem_of_In, list_elem_of_lookup_2).
  pose proof (Hb q Hin) as Hqb. rewrite Z.min_l by lia.
  assert (exists p0, In p0 (firstn MAX_COMPOSITE_PERIODS P)) as [p0 Hp0].
  { destruct P as [|p0 P]; [done|]. exists p0. by left. }
  constructor.
  - pose proof (sorted_take P _ q p0 Hs Hq Hp0) as Hlt0.
    assert (In p0 P) as Hp0'.
    { rewrite <- (take_drop MAX_COMPOSITE_PERIODS P). apply in_or_app. by left. }
    specialize (Hb p0 Hp0'). lia.
  - rewrite length_firstn. lia.
  - exists (drop MAX_COMPOSITE_PERIODS P). symmetry. apply take_drop.
  - intros x Hx. by apply (sorted_take P MAX_COMPOSITE_PERIODS).
  - intros s Hs'. unfold in_force. f_equal.
    rewrite <- (take_drop MAX_COMPOSITE_PERIODS P) at 2. rewrite List.filter_app.
    rewrite (retain_none _ (drop _ P)); [by rewrite app_nil_r|]. intros x Hx.
    pose proof (sorted_drop P _ q x Hs Hq Hx). lia.
  - intros _. rewrite length_firstn. lia.
Qed.

(** ** The composite schedule against the evaluation of every second *)

(** The requests the station makes. *)
Record request_ok (req : CompositeRequest.t) : Prop := {
  rq_start : in_range (truncate_to_second (CompositeRequest.now req));
  rq_end : in_range (truncate_to_second (CompositeRequest.now req)
                     + MAX_COMPOSITE_DURATION_S * NS_PER_SEC);
  rq_duration : is_i32 (CompositeRequest.duration_s req);
  rq_tx : forall t, CompositeRequest.tx_started_at req = Some t -> in_range t;
}.

Definition requested_unit (entries : list StoredProfile.t) (req : CompositeRequest.t)
    : ChargingRateUnitType.t :=
  match CompositeRequest.unit req with
  | Some unit => unit
  | None => default_unit entries req (truncate_to_second (CompositeRequest.now req))
  end.

(** The limit in force at second [s] of the window, evaluated on its own. *)
Definition limit_at (entries : list StoredProfile.t) (req : CompositeRequest.t) (s : Z)
    : option Resolved :=
  let start := truncate_to_second (CompositeRequest.now req) in
  resolve_at (usable_profiles entries req (requested_unit entries req) start)
    (CompositeRequest.connector req) (CompositeRequest.active_tx req)
    (start + s * NS_PER_SEC) (fun _ p => limit p).

Definition clamped_duration (req : CompositeRequest.t) : Z :=
  Z.min (CompositeRequest.duration_s req) MAX_COMPOSITE_DURATION_S.

Section composite.
Context (entries : list StoredProfile.t) (req : CompositeRequest.t).
Hypothesis Hentries : Forall entry_ok entries.
Hypothesis Hreq : request_ok req.
Hypothesis Hknown :
  is_known_connector (CompositeRequest.connector req) (CompositeRequest.connector_count req) = true.
Hypothesis Hpositive : 0 < CompositeRequest.duration_s req.

Abbreviation start := (truncate_to_second (CompositeRequest.now req)) (only parsing).
Abbreviation dur := (clamped_duration req) (only parsing).
Abbreviation usable := (usable_profiles entries req (requested_unit entries req) start) (only parsing).
Abbreviation L := (change_offsets usable start (start + dur * NS_PER_SEC) (dur * 1000)) (only parsing).

Lemma dur_bounds : 0 < dur <= MAX_COMPOSITE_DURATION_S.
Proof using Hpositive. unfold clamped_duration, MAX_COMPOSITE_DURATION_S. lia. Qed.

Lemma window_in_range s : 0 <= s <= dur -> in_range (start + s * NS_PER_SEC).
Proof using Hreq Hpositive.
  intros Hs. pose proof dur_bounds. destruct Hreq as [H1 H2 _ _]. unfold in_range, NS_PER_SEC in *. lia.
Qed.

Lemma usable_profiles_ok : usable_ok usable.
Proof using Hentries Hreq.
  apply with_base_ok.
  - apply List.Forall_forall. intros e [[He _]%retain_In _]%retain_In.
    rewrite List.Forall_forall in Hentries. by apply Hentries.
  - apply Hreq.
  - apply Hreq.
Qed.

Lemma add_seconds s :
  0 <= s <= dur -> dt_add start (td_seconds s) = start + s * NS_PER_SEC.
Proof using Hreq Hpositive CL.
  intros Hs. pose proof dur_bounds. rewrite td_seconds_ok.
  - apply dt_add_ok. by apply window_in_range.
  - unfold is_i32, i32_min, i32_max, MAX_COMPOSITE_DURATION_S in *. lia.
Qed.

Lemma limit_at_last_offset s :
  0 <= s < dur ->
  exists o, In o L /\ 0 <= o <= s /\ (forall x, In x L -> x <= s -> x <= o) /\
    limit_at entries req o = limit_at entries req s.
Proof using Hentries Hreq Hpositive CL.
  intros Hs. apply last_offset; [apply usable_profiles_ok|apply dur_bounds|apply Hreq| |done].
  apply window_in_range. pose proof dur_bounds. lia.
Qed.

Abbreviation station := (station_limit (CompositeRequest.model req) (requested_unit entries req))
  (only parsing).
Abbreviation built := (build station (limit_at entries req) L) (only parsing).

(** The body of [composite_schedule] behind its guards. *)
Lemma composite_schedule_body :
  composite_schedule entries req =
    if all (fun o => negb (is_someb (limit_at entries req o))) L
    then Err CompositeError.NoSchedule
    else
      Ok (CompositeSchedule.mk (CompositeRequest.connector req) start
            (ChargingSchedule.mk (Some (cut_periods built.1 dur).2) (Some start)
               (requested_unit entries req) (cut_periods built.1 dur).1 built.2)).
Proof using Hreq Hknown Hpositive CL.
  unfold composite_schedule. rewrite Hknown. cbn [negb].
  destruct (CompositeRequest.duration_s req <=? 0) eqn:E; bool_facts; [lia|]. cbv zeta.
  fold (requested_unit entries req) (clamped_duration req).
  pose proof dur_bounds as Hdur. rewrite (add_seconds dur ltac:(lia)).
  assert (map (fun offset => (offset, resolve_at usable (CompositeRequest.connector req)
            (CompositeRequest.active_tx req) (dt_add start (td_seconds offset))
            (fun _ p => limit p))) L
          = map (fun o => (o, limit_at entries req o)) L) as Hpoints.
  { apply map_ext_in. intros o Ho. apply offsets_In_bound in Ho.
    by rewrite add_seconds by lia. }
  assert (all (fun point => negb (is_someb point.2)) (map (fun o => (o, limit_at entries req o)) L)
          = all (fun o => negb (is_someb (limit_at entries req o))) L) as Hall.
  { unfold all. generalize L. intros l. induction l as [|o l IH]; [done|].
    cbn [map forallb snd]. by rewrite IH. }
  assert (usable = [] -> all (fun o => negb (is_someb (limit_at entries req o))) L = true) as Hnone.
  { intros He. apply forallb_forall. intros o _. unfold limit_at. by rewrite He. }
  destruct usable as [|u us] eqn:Eu.
  - by rewrite Hnone.
  - rewrite <- Eu in *. rewrite Hpoints, Hall. clear Hall Hnone.
    destruct (all (fun o => negb (is_someb (limit_at entries req o))) L); [done|].
    fold (build station (limit_at entries req) L). destruct built as [periods rate].
    cbn [fst snd]. by destruct (cut_periods periods dur).
Qed.

Lemma all_none :
  all (fun o => negb (is_someb (limit_at entries req o))) L = true <->
  forall s, 0 <= s < dur -> limit_at entries req s = None.
Proof using Hentries Hreq Hpositive CL.
  unfold all. rewrite forallb_forall. split.
  - intros H s Hs. destruct (limit_at_last_offset s Hs) as (o & Ho & _ & _ & <-).
    specialize (H o Ho). by destruct (limit_at entries req o).
  - intros H o Ho. apply offsets_In_bound in Ho. by rewrite H.
Qed.

Lemma built_follows : follows station (limit_at entries req) L built.1.
Proof using Hpositive.
  apply build_follows; [apply sort_dedup_sorted|]. apply List.Forall_forall. intros o Ho.
  apply offsets_In_bound in Ho. pose proof dur_bounds.
  unfold is_i32, i32_min, i32_max, MAX_COMPOSITE_DURATION_S in *. lia.
Qed.

Lemma built_bounds q : In q built.1 -> 0 <= start_period q < dur.
Proof using Hpositive.
  intros Hq. apply (fo_starts _ _ _ _ built_follows) in Hq. by apply offsets_In_bound in Hq.
Qed.

Lemma built_shows s :
  0 <= s < dur -> shows <$> in_force built.1 s = Some (shown station (limit_at entries req s)).
Proof using Hentries Hreq Hpositive CL.
  intros Hs. destruct (limit_at_last_offset s Hs) as (o & Ho & Hos & Hmax & <-).
  rewrite <- (fo_shows _ _ _ _ built_follows o Ho). f_equal. unfold in_force. f_equal.
  apply filter_ext_in. intros q Hq. apply (fo_starts _ _ _ _ built_follows) in Hq.
  apply eq_true_iff_eq. rewrite !Z.leb_le. split; [by apply Hmax|lia].
Qed.

Lemma composite_cut :
  cut_ok built.1 dur (cut_periods built.1 dur).1 (cut_periods built.1 dur).2.
Proof using Hpositive.
  apply cut_periods_ok; [apply built_follows|apply built_bounds|apply dur_bounds].
Qed.
End composite.

(** Claim C38: the composite schedule of an accepted request shows, for every whole second of
    the time it covers, exactly the limit and phases that evaluating the profiles at that
    second gives (the station's own limit where no profile applies). It covers the requested
    time, clamped to a week; it ends earlier only when it holds the maximum of 1000 periods.
    Its periods start at 0, strictly increase, end inside the duration, and no two
    neighbours are equal. *)
Theorem composite_schedule_sound (entries : list StoredProfile.t) (req : CompositeRequest.t)
    (cs : CompositeSchedule.t) :
  Forall entry_ok entries -> request_ok req -> composite_schedule entries req = Ok cs ->
  let schedule := CompositeSchedule.charging_schedule cs in
  let periods := charging_schedule_period schedule in
  let unit := charging_rate_unit schedule in
  CompositeSchedule.schedule_start cs = truncate_to_second (CompositeRequest.now req) /\
  start_schedule schedule = Some (CompositeSchedule.schedule_start cs) /\
  unit = requested_unit entries req /\
  (length periods <= MAX_COMPOSITE_PERIODS)%nat /\
  head (starts periods) = Some 0 /\ StronglySorted Z.lt (starts periods) /\
  (forall a b, In (a, b) (windows2 periods) -> shows a <> shows b) /\
  exists d, duration schedule = Some d /\ 0 < d <= clamped_duration req /\
    (d <> clamped_duration req -> length periods = MAX_COMPOSITE_PERIODS) /\
    (forall q, In q periods -> start_period q < d) /\
    forall s, 0 <= s < d ->
      shows <$> in_force periods s =
        Some (shown (station_limit (CompositeRequest.model req) unit) (limit_at entries req s)).
Proof using CL.
  intros He Hr Hcs.
  assert (is_known_connector (CompositeRequest.connector req) (CompositeRequest.connector_count req) = true
    /\ 0 < CompositeRequest.duration_s req) as [Hk Hd].
  { unfold composite_schedule in Hcs. destruct (is_known_connector _ _); [|done].
    destruct (_ <=? 0) eqn:E in Hcs; bool_facts; [done|]. split; [done|lia]. }
  rewrite composite_schedule_body in Hcs by done. destruct (all _ _) in Hcs; [done|].
  injection Hcs as <-. cbn [CompositeSchedule.charging_schedule CompositeSchedule.schedule_start
    charging_schedule_period charging_rate_unit start_schedule duration]. cbv zeta.
  pose proof (built_follows entries req Hd) as Hf.
  destruct (composite_cut entries req Hd) as [C1 C2 [rest C3] C4 C5 C6].
  set (P' := (cut_periods _ _).1) in *. set (d' := (cut_periods _ _).2) in *.
  split_and!; try done.
  - destruct Hf as [_ _ Hhead Hlast _ _]. rewrite C3 in Hhead. unfold starts in *.
    rewrite map_app in Hhead.
    assert (P' <> []) as Hne.
    { intros E0. pose proof (C5 0 ltac:(lia)) as Hz. rewrite E0 in Hz.
      pose proof (built_shows entries req He Hr Hd 0 ltac:(lia)) as Hs. by rewrite <- Hz in Hs. }
    destruct P' as [|q P']; [done|]. simpl in *. rewrite Hhead. apply offsets_head. by apply dur_bounds.
  - pose proof (fo_sorted _ _ _ _ Hf) as Hs. rewrite C3 in Hs. unfold starts in *.
    rewrite map_app in Hs. by apply StronglySorted_app in Hs as (_ & ? & _).
  - intros a b Hab. apply (fo_distinct _ _ _ _ Hf). rewrite C3. by apply windows2_prefix.
  - exists d'. split_and!; try done; [lia|lia|].
    intros s Hs. rewrite C5 by done. apply built_shows; [done|done|done|lia].
Qed.

(** [GetCompositeSchedule] is refused exactly when the connector is unknown, the
    duration is not positive, or no profile of the requested unit applies in any second of
    the window. *)
Theorem composite_schedule_errors (entries : list StoredProfile.t) (req : CompositeRequest.t)
    (e : CompositeError.t) :
  Forall entry_ok entries -> request_ok req ->
  (composite_schedule entries req = Err e <->
    if is_known_connector (CompositeRequest.connector req) (CompositeRequest.connector_count req)
    then if CompositeRequest.duration_s req <=? 0 then e = CompositeError.NonPositiveDuration
         else e = CompositeError.NoSchedule /\
              forall s, 0 <= s < clamped_duration req -> limit_at entries req s = None
    else e = CompositeError.UnknownConnector (CompositeRequest.connector req)).
Proof using CL.
  intros He Hr. destruct (is_known_connector _ _) eqn:Hk.
  - destruct (_ <=? 0) eqn:Hd; bool_facts.
    + unfold composite_schedule. rewrite Hk, (proj2 (Z.leb_le _ _) Hd). simpl. split; congruence.
    + rewrite composite_schedule_body by done. rewrite <- all_none by done.
      destruct (all _ _); [|split; [done|by intros [_ ?]]].
      split; [by intros [= <-]|by intros [-> _]].
  - unfold composite_schedule. rewrite Hk. simpl. split; congruence.
Qed.

(** ** Precedence *)

(** What an entry competes for on [connector]. *)
Definition competes (purpose : ChargingProfilePurposeType.t) (connector : ConnectorId)
    (tx : option TxId.t) (e : StoredProfile.t) : bool :=
  (charging_profile_purpose (StoredProfile.profile e) == purpose)
  && match purpose with
     | ChargingProfilePurposeType.TxProfile =>
         (StoredProfile.connector_id e =? connector)
         && (is_someb tx && (StoredProfile.bound_tx e == tx))
     | ChargingProfilePurposeType.TxDefaultProfile => true
     | ChargingProfilePurposeType.ChargePointMaxProfile => is_station (StoredProfile.connector_id e)
     end.

Section precedence.
Context (connector : ConnectorId) (tx : option TxId.t) (at_ : DateTime) (limit_of : LimitOf).

Definition candidate_of (eb : StoredProfile.t * DateTime) : option Candidate :=
  let '(e, b) := eb in
  let? q := period_at (StoredProfile.profile e) at_ b in
  Some (mk_candidate e q (limit_of e q)
          (stack_level (StoredProfile.profile e), StoredProfile.connector_id e =? connector)).

Definition candidates (purpose : ChargingProfilePurposeType.t)
    (usable : list (StoredProfile.t * DateTime)) : list Candidate :=
  omap candidate_of (retain (fun eb => competes purpose connector tx eb.1) usable).

(** [c] is a highest-ranked of [l], if there is one. *)
Definition highest (l : list Candidate) (c : option Candidate) : Prop :=
  match c with
  | Some c => In c l /\ forall c', In c' l -> rank_geb (rank c) (rank c') = true
  | None => l = []
  end.

Lemma rank_geb_refl r : rank_geb r r = true.
Proof using. destruct r as [a []]; unfold rank_geb; simpl; rewrite Z.eqb_refl; by rewrite orb_true_r. Qed.

Lemma rank_geb_total a b : rank_geb a b = false -> rank_geb b a = true.
Proof using.
  unfold rank_geb. rewrite orb_false_iff, orb_true_iff, andb_true_iff, andb_false_iff,
    Z.ltb_lt, Z.ltb_ge, Z.eqb_eq, Z.eqb_neq.
  destruct a as [a []], b as [b []]; simpl; intros [H1 [H2|H2]]; try done; lia.
Qed.

Lemma rank_geb_trans a b c : rank_geb a b = true -> rank_geb b c = true -> rank_geb a c = true.
Proof using.
  unfold rank_geb. rewrite !orb_true_iff, !andb_true_iff, !Z.ltb_lt, !Z.eqb_eq.
  destruct a as [a []], b as [b []], c as [c []]; simpl; intros [H1|[H1 ?]] [H2|[H2 ?]];
    try done; try (left; lia); right; split; try done; lia.
Qed.

Lemma keep_higher_highest l best c :
  highest l best -> highest (l ++ [c]) (Some (keep_higher best c)).
Proof using.
  intros Hb. destruct best as [b|]; simpl in *.
  - destruct Hb as [Hin Hmax]. destruct (rank_geb (rank b) (rank c)) eqn:E; split.
    + apply in_or_app. by left.
    + intros c' [Hc|[<-|[]]]%in_app_or; [auto|done].
    + apply in_or_app. right. by left.
    + intros c' [Hc|[<-|[]]]%in_app_or; [|apply rank_geb_refl].
      apply (rank_geb_trans _ (rank b)); [by apply rank_geb_total|auto].
  - rewrite Hb. split; [by left|]. intros c' [<-|[]]. apply rank_geb_refl.
Qed.

Lemma candidates_snoc purpose usable eb :
  candidates purpose (usable ++ [eb]) =
  candidates purpose usable
  ++ (if competes purpose connector tx eb.1 then option_list (candidate_of eb) else []).
Proof using.
  unfold candidates. rewrite List.filter_app, omap_app. f_equal. simpl.
  destruct (competes _ _ _ _); [|done]. simpl. by destruct (candidate_of eb).
Qed.

Lemma fold_consider_highest usable :
  let '(t, d, c) := fold_left (consider connector tx at_ limit_of) usable (None, None, None) in
  highest (candidates ChargingProfilePurposeType.TxProfile usable) t /\
  highest (candidates ChargingProfilePurposeType.TxDefaultProfile usable) d /\
  highest (candidates ChargingProfilePurposeType.ChargePointMaxProfile usable) c.
Proof using.
  induction usable as [|[e b] usable IH] using rev_ind; [done|]. rewrite fold_left_app.
  destruct (fold_left _ usable _) as [[t d] c]. destruct IH as (Ht & Hd & Hc).
  rewrite !candidates_snoc. cbn [fold_left consider fst]. unfold candidate_of.
  destruct (period_at _ _ _) as [q|].
  2:{ cbn [option_list]. by rewrite !if_same, !app_nil_r. }
  unfold competes. destruct (charging_profile_purpose (StoredProfile.profile e));
    rewrite eqb_refl, !(eqb_ne (A := ChargingProfilePurposeType.t)) by done; cbn [andb]; rewrite !app_nil_r.
  - destruct (is_station (StoredProfile.connector_id e)); rewrite ?app_nil_r; split_and!; try done.
    by apply keep_higher_highest.
  - split_and!; try done. by apply keep_higher_highest.
  - destruct ((StoredProfile.connector_id e =? connector) && _); rewrite ?app_nil_r;
      split_and!; try done. by apply keep_higher_highest.
Qed.
End precedence.

Lemma combine_spec selected cap :
  (forall x, In x (option_list selected ++ option_list cap) -> is_nan (c_limit x) = false) ->
  match combine selected cap with
  | None => selected = None /\ cap = None
  | Some r =>
      (forall x, In x (option_list selected ++ option_list cap) ->
         f_leb (r_limit r) (c_limit x) = true) /\
      exists x, In x (option_list selected ++ option_list cap) /\ r_limit r = c_limit x
  end.
Proof using.
  intros Hn. unfold combine. destruct selected as [p|], cap as [c|]; simpl in *; [| | |done].
  - pose proof (Hn p ltac:(auto)) as Np. pose proof (Hn c ltac:(auto)) as Nc.
    destruct (f_compare_total _ _ Np Nc) as [o Ho]. unfold f_partial_cmp. rewrite Ho.
    pose proof (f_leb_refl _ Np). pose proof (f_leb_refl _ Nc).
    assert (Hs := f_compare_swap (c_limit p) (c_limit c)). rewrite Ho in Hs.
    unfold f_leb, SFleb in *.
    destruct o; simpl; (split; [intros x [<-|[<-|[]]]; rewrite ?Ho, ?Hs; done|]); eauto.
  - split; [intros x [<-|[]]; by apply f_leb_refl, Hn; auto|eauto].
  - split; [intros x [<-|[]]; by apply f_leb_refl, Hn; auto|eauto].
Qed.

(** Precedence. Of the profiles that cover an instant, the one with the highest
    stack level wins its purpose (the connector's own before the station's); a profile of the
    running transaction overrides every default; the limit is the smaller of the selected
    profile's and the station maximum's, and there is none exactly when no profile covers
    the instant. *)
Theorem resolve_precedence (usable : list (StoredProfile.t * DateTime)) (connector : ConnectorId)
    (tx : option TxId.t) (at_ : DateTime) (limit_of : LimitOf) :
  (forall e q, is_nan (limit_of e q) = false) ->
  let competing purpose := candidates connector tx at_ limit_of purpose usable in
  exists t d c,
    highest (competing ChargingProfilePurposeType.TxProfile) t /\
    highest (competing ChargingProfilePurposeType.TxDefaultProfile) d /\
    highest (competing ChargingProfilePurposeType.ChargePointMaxProfile) c /\
    let binding := option_list (option_or t d) ++ option_list c in
    match resolve_at usable connector tx at_ limit_of with
    | None => forall purpose, competing purpose = []
    | Some r =>
        (forall x, In x binding -> f_leb (r_limit r) (c_limit x) = true) /\
        exists x, In x binding /\ r_limit r = c_limit x
    end.
Proof using.
  intros Hn. cbv zeta.
  pose proof (fold_consider_highest connector tx at_ limit_of usable) as Hh. unfold resolve_at.
  destruct (fold_left _ usable _) as [[t d] c]. destruct Hh as (Ht & Hd & Hc).
  exists t, d, c. split_and!; try done.
  assert (forall purpose o x, highest (candidates connector tx at_ limit_of purpose usable) o ->
    o = Some x -> is_nan (c_limit x) = false) as Hnan.
  { intros purpose o x Ho ->. destruct Ho as [Hin _]. unfold candidates in Hin.
    apply list_elem_of_In, list_elem_of_omap in Hin as ([e b] & _ & Hx). simpl in Hx.
    destruct (period_at _ _ _); [|done]. injection Hx as <-. apply Hn. }
  pose proof (combine_spec (option_or t d) c) as Hcomb.
  destruct (combine _ _) as [r|].
  - apply Hcomb. intros x [Hx|Hx]%in_app_or.
    + destruct t as [t|], d as [d|]; simpl in Hx; try done; destruct Hx as [<-|[]]; eauto.
    + destruct c; simpl in Hx; [destruct Hx as [<-|[]]; eauto|done].
  - destruct Hcomb as [Htd ->].
    { intros x [Hx|Hx]%in_app_or.
      - destruct t as [t|], d as [d|]; simpl in Hx; try done; destruct Hx as [<-|[]]; eauto.
      - destruct c; simpl in Hx; [destruct Hx as [<-|[]]; eauto|done]. }
    destruct t; [done|]. simpl in Htd. subst d. by intros [].
Qed.

(** ** Energy *)

(** The energy of a connector is summed over consecutive pieces that run from the
    start to the end of the interval; inside a piece the charging limit never changes, so the
    power taken at its middle is the power of the whole piece. *)
Theorem energy_wh_pieces (entries : list StoredProfile.t) (req : PowerRequest.t)
    (from to : DateTime) :
  Forall entry_ok entries -> (forall t, PowerRequest.tx_started_at req = Some t -> in_range t) ->
  in_range from -> in_range to -> from < to ->
  let usable := power_profiles entries req from in
  let cuts := energy_cuts usable from to in
  energy_wh entries req from to = f_sum (map (piece_energy usable req) (windows2 cuts)) /\
  head cuts = Some from /\ last cuts = Some to /\ StronglySorted Z.lt cuts /\
  forall a b t, In (a, b) (windows2 cuts) -> a < t < b ->
    limit_w_resolved usable req t = limit_w_resolved usable req (dt_add a (td_half (dt_sub b a))).
Proof using CL.
  intros He Ht Hf Hto Hlt. cbv zeta.
  set (usable := power_profiles entries req from). set (cuts := energy_cuts usable from to).
  assert (usable_ok usable) as Hu.
  { apply with_base_ok; [|done|done]. apply List.Forall_forall. intros e [Hin _]%retain_In.
    rewrite List.Forall_forall in He. by apply He. }
  assert (StronglySorted Z.lt cuts) as Hs by apply sort_dedup_sorted.
  assert (forall c, In c cuts <-> c = from \/ c = to \/ exists e b, In (e, b) usable /\
    In c (change_instants (StoredProfile.profile e) b from to)) as Hcuts.
  { intros c. unfold cuts, energy_cuts. rewrite dedup_In, sort_unstable_In. simpl.
    rewrite in_concat. split.
    - intros [?|[?|(l & Hl & Hc)]]; [auto|auto|]. apply in_map_iff in Hl as ([e b] & <- & Hin). eauto 6.
    - intros [->|[->|(e & b & Hin & Hc)]]; [auto|auto|]. right. right.
      exists (change_instants (StoredProfile.profile e) b from to). split; [|done].
      apply in_map_iff. by exists (e, b). }
  assert (forall c, In c cuts -> from <= c <= to) as Hbounds.
  { intros c Hc. apply Hcuts in Hc as [->|[->|(e & b & _ & Hc)]]; [lia|lia|].
    unfold change_instants in Hc. apply retain_In in Hc as [_ Hc]. lia. }
  split; [unfold energy_wh; destruct (to <=? from) eqn:E; bool_facts; [lia|done]|].
  split; [apply sorted_head; [done|apply Hcuts; auto|by intros; apply Hbounds]|].
  split; [apply sorted_last; [done|apply Hcuts; auto|by intros; apply Hbounds]|].
  split; [done|]. intros a b t Hab Htab.
  destruct (windows2_gap cuts a b Hs Hab) as (Ha & Hb & Hgap).
  pose proof (Hbounds a Ha) as Hba. pose proof (Hbounds b Hb) as Hbb.
  assert (dt_add a (td_half (dt_sub b a)) = a + (b - a) / 2) as ->.
  { rewrite dt_sub_ok, td_half_ok by (unfold in_range in *; lia).
    apply dt_add_ok. pose proof (Z.div_mod (b - a) 2). pose proof (Z.mod_pos_bound (b - a) 2).
    unfold in_range in *. lia. }
  assert (forall u v, a < u -> u <= v -> v < b ->
    limit_w_resolved usable req u = limit_w_resolved usable req v) as Hq.
  { intros u v Hu1 Huv Hv. unfold limit_w_resolved. f_equal. apply resolve_ext.
    intros e base Hin. destruct (Hu e base Hin) as [[Hp _] Hbase].
    apply (quiet_period _ base from to); try done; [lia|].
    intros c Hc Hcb. apply (Hgap c); [apply Hcuts; eauto 6|lia]. }
  pose proof (Z.div_mod (b - a) 2). pose proof (Z.mod_pos_bound (b - a) 2).
  destruct (Z.le_ge_cases t (a + (b - a) / 2)); [|symmetry]; apply Hq; lia.
Qed.

(** [truncate_to_second] keeps what is below a millisecond. *)
Lemma truncate_to_second_spec (t : DateTime) :
  in_range (truncate_to_second t) -> in_range (t - timestamp_subsec_millis t * NS_PER_MS) ->
  truncate_to_second t = t / NS_PER_SEC * NS_PER_SEC + t mod NS_PER_MS.
Proof using CL.
  intros _ Hr. unfold truncate_to_second.
  rewrite td_milliseconds_ok, dt_sub_delta_ok; rewrite subsec_millis_ok in *; [|done|].
  - unfold NS_PER_SEC, NS_PER_MS in *. Z.to_euclidean_division_equations. lia.
  - unfold i64_max. pose proof (Z.mod_pos_bound (t / NS_PER_MS) 1000). lia.
Qed.

End with_chrono.

(** ** Witnesses: a daily default of the station, on the instants of [ns_chrono] *)

Definition sample_entry : StoredProfile.t :=
  StoredProfile.mk 0
    (ChargingProfile.mk 1 None 0 ChargingProfilePurposeType.TxDefaultProfile
       ChargingProfileKindType.Recurring (Some RecurrencyKindType.Daily) None None
       (ChargingSchedule.mk (Some 7200) (Some 0) ChargingRateUnitType.A
          [ChargingSchedulePeriod.mk 0 (f_of_Z 16) (Some 3);
           ChargingSchedulePeriod.mk 3600 (f_of_Z 10) None] None))
    None (Some 0).

Definition sample_model : PowerModel.t := PowerModel.mk (f_of_Z 11000) (f_of_Z 230) 3.

Definition sample_request : CompositeRequest.t :=
  CompositeRequest.mk 1 10000 None (1500 * NS_PER_MS) 2 None None sample_model.

Definition sample_power : PowerRequest.t := PowerRequest.mk 1 None None sample_model 1.

Ltac decide_range := split; vm_compute; congruence.

Lemma sample_ok : entry_ok (C := ns_chrono) sample_entry.
Proof.
  constructor.
  - constructor; [by vm_compute| |by intros ? [= <-]; decide_range].
    repeat constructor; vm_compute; congruence.
  - intros t [[=]|[[= <-]|[[= <-]|[]]]]; decide_range.
Defined.

Lemma sample_request_ok : request_ok (C := ns_chrono) sample_request.
Proof. constructor; [decide_range|decide_range|decide_range|done]. Defined.

Lemma composite_schedule_sound_witness :
  exists cs, composite_schedule (C := ns_chrono) [sample_entry] sample_request = Ok cs /\
    duration (CompositeSchedule.charging_schedule cs) = Some 10000 /\
    StronglySorted Z.lt (starts (charging_schedule_period (CompositeSchedule.charging_schedule cs))).
Proof.
  eexists. split; [vm_compute; reflexivity|]. split; [reflexivity|].
  eapply (composite_schedule_sound (CL := ns_chrono_laws) [sample_entry] sample_request).
  - constructor; [apply sample_ok|constructor].
  - apply sample_request_ok.
  - vm_compute. reflexivity.
Defined.

Lemma composite_schedule_errors_witness :
  composite_schedule (C := ns_chrono) [sample_entry]
    (CompositeRequest.mk 7 10 None 0 2 None None sample_model)
  = Err (CompositeError.UnknownConnector 7).
Proof.
  apply (composite_schedule_errors (CL := ns_chrono_laws)).
  - constructor; [apply sample_ok|constructor].
  - constructor; [decide_range|decide_range|decide_range|done].
  - vm_compute. reflexivity.
Defined.

Lemma resolve_precedence_witness :
  exists r, resolve_at (C := ns_chrono) [(sample_entry, 0)] 1 None 0 (fun _ _ => f_of_Z 16) = Some r /\
    exists x, r_limit r = c_limit x.
Proof.
  pose proof (resolve_precedence (C := ns_chrono) [(sample_entry, 0)] 1 None 0
    (fun _ _ => f_of_Z 16) ltac:(done)) as (t & d & c & _ & _ & _ & H).
  eexists. split; [vm_compute; reflexivity|].
  destruct (resolve_at _ _ _ _ _) as [r|] eqn:E in H; [|by vm_compute in E].
  vm_compute in E. injection E as <-.
  destruct H as (_ & x & _ & Hx). exists x. exact Hx.
Defined.

Lemma energy_wh_pieces_witness :
  last (energy_cuts (C := ns_chrono)
    (power_profiles [sample_entry] sample_power 0) 0 (10000 * NS_PER_SEC))
  = Some (10000 * NS_PER_SEC).
Proof.
  eapply (energy_wh_pieces (CL := ns_chrono_laws) [sample_entry] sample_power).
  - constructor; [apply sample_ok|constructor].
  - done.
  - decide_range.
  - decide_range.
  - by vm_compute.
Defined.

(** The start of a composite schedule is not a whole second when the clock has a finer
    resolution than milliseconds. *)
Example truncate_keeps_sub_milliseconds :
  truncate_to_second (C := ns_chrono) 1500000001 = 1000000001.
Proof. by vm_compute. Qed.

End SmartCharging.
