(* ===== verification/ChargingProfiles.v ===== *)
(** * ChargingProfiles: the store of charging profiles

    [station/charging_profiles.rs]: admission of [SetChargingProfile], [ClearChargingProfile],
    expiry, the binding of a TxProfile to its transaction, and [GetCompositeSchedule] over the
    stored profiles. The store promises the evaluation of [SmartCharging.v] what its theorems
    ask for: every stored profile has an admitted shape. *)

From S2P Require Import Prelude F64 Time Types Messages Metering SmartCharging.
Local Open Scope Z_scope.

Module StoreLimits.
Record t : Type := mk {
  max_stack_level : Z;
  max_installed : Z;
  max_periods : Z;
  allowed_units : list ChargingRateUnitType.t;
}.

Definition default : t :=
  mk i32_max usize_max usize_max [ChargingRateUnitType.A; ChargingRateUnitType.W].

Definition allows_unit (self : t) (unit : ChargingRateUnitType.t) : bool :=
  any (fun u => u == unit) (allowed_units self).
End StoreLimits.

Module ProfileContext.
Record t : Type := mk {
  now : DateTime;
  connector_count : Z;
  active_tx : option TxId.t;
  limits : StoreLimits.t;
}.
End ProfileContext.

Module ChargingProfileStore.
Import ChargingProfile ChargingSchedule.
Import StoredProfile.

Definition t : Type := list StoredProfile.t.

(** The checks of [admit] behind the purpose: shape, unit and the limits of the station. *)
Definition check_limits (profile : ChargingProfile.t) (ctx : ProfileContext.t)
    (bound_tx : option TxId.t) : result (option TxId.t) ChargingProfileStatus.t :=
  if is_someb (SmartCharging.shape_error profile) then Err ChargingProfileStatus.Rejected
  else if negb (StoreLimits.allows_unit (ProfileContext.limits ctx)
                  (charging_rate_unit (charging_schedule profile)))
  then Err ChargingProfileStatus.NotSupported
  else if (StoreLimits.max_stack_level (ProfileContext.limits ctx) <? stack_level profile)
          || (StoreLimits.max_periods (ProfileContext.limits ctx)
              <? len (charging_schedule_period (charging_schedule profile)))
  then Err ChargingProfileStatus.Rejected
  else Ok bound_tx.

Definition admit_ (connector : ConnectorId) (profile : ChargingProfile.t) (ctx : ProfileContext.t)
    : result (option TxId.t) ChargingProfileStatus.t :=
  if negb (SmartCharging.is_known_connector connector (ProfileContext.connector_count ctx))
  then Err ChargingProfileStatus.Rejected
  else
    let! bound_tx :=
      match charging_profile_purpose profile with
      | ChargingProfilePurposeType.ChargePointMaxProfile =>
          if negb (is_station connector) then Err ChargingProfileStatus.Rejected else Ok None
      | ChargingProfilePurposeType.TxProfile =>
          if is_station connector then Err ChargingProfileStatus.Rejected
          else
            match ProfileContext.active_tx ctx with
            | None => Err ChargingProfileStatus.Rejected
            | Some tx =>
                if is_some_and (fun id => TxId.wire tx != Some id) (transaction_id profile)
                then Err ChargingProfileStatus.Rejected
                else Ok (Some tx)
            end
      | ChargingProfilePurposeType.TxDefaultProfile => Ok None
      end in
    check_limits profile ctx bound_tx.

(** The stored profiles that a new one replaces. *)
Definition replaces (connector : ConnectorId) (new : ChargingProfile.t) (stored : StoredProfile.t)
    : bool :=
  (charging_profile_id (profile stored) =? charging_profile_id new)
  || ((connector_id stored =? connector)
      && (stack_level (profile stored) =? stack_level new)
      && (charging_profile_purpose (profile stored) == charging_profile_purpose new)).

Definition prune_expired (self : t) (now : DateTime) : t * Z :=
  let kept := retain (fun stored => negb (SmartCharging.is_expired (profile stored) now)) self in
  (kept, len self - len kept).

Definition set (self : t) (connector : ConnectorId) (new : ChargingProfile.t)
    (ctx : ProfileContext.t) : t * ChargingProfileStatus.t :=
  let self := (prune_expired self (ProfileContext.now ctx)).1 in
  match admit_ connector new ctx with
  | Err status => (self, status)
  | Ok bound_tx =>
      let others := retain (fun stored => negb (replaces connector new stored)) self in
      if StoreLimits.max_installed (ProfileContext.limits ctx) <=? len others
      then (self, ChargingProfileStatus.Rejected)
      else
        (others ++ [StoredProfile.mk connector new bound_tx (Some (ProfileContext.now ctx))],
         ChargingProfileStatus.Accepted)
  end.

Definition backfill_installed_at (self : t) (now : DateTime) : t * Z :=
  (map (fun stored =>
     if is_someb (installed_at stored) then stored else stored <| installed_at := Some now |>) self,
   len (retain (fun stored => negb (is_someb (installed_at stored))) self)).

Definition matches_filter (stored : StoredProfile.t) (filter : ClearChargingProfileRequest.t)
    : bool :=
  is_none_or (fun id => charging_profile_id (profile stored) =? id)
    (ClearChargingProfileRequest.id filter)
  && is_none_or (fun connector => connector_id stored =? connector)
       (ClearChargingProfileRequest.connector_id filter)
  && is_none_or (fun purpose => charging_profile_purpose (profile stored) == purpose)
       (ClearChargingProfileRequest.charging_profile_purpose filter)
  && is_none_or (fun stack => stack_level (profile stored) =? stack)
       (ClearChargingProfileRequest.stack_level filter).

Definition clear (self : t) (filter : ClearChargingProfileRequest.t) (now : DateTime)
    : t * ClearChargingProfileStatus.t :=
  let self := (prune_expired self now).1 in
  let kept := retain (fun stored => negb (matches_filter stored filter)) self in
  (kept, if len kept <? len self then ClearChargingProfileStatus.Accepted
         else ClearChargingProfileStatus.Unknown).

Definition on_transaction_ended (self : t) (tx : TxId.t) : t * Z :=
  let kept :=
    retain (fun stored =>
      negb ((charging_profile_purpose (profile stored) == ChargingProfilePurposeType.TxProfile)
            && (bound_tx stored == Some tx))) self in
  (kept, len self - len kept).

Definition composite_schedule {C : Chrono} (self : t) (req : CompositeRequest.t)
    : t * result CompositeSchedule.t CompositeError.t :=
  let self := (prune_expired self (CompositeRequest.now req)).1 in
  (self, SmartCharging.composite_schedule self req).

(** ** What the store promises *)

Definition is_tx_profile (s : StoredProfile.t) : bool :=
  charging_profile_purpose (profile s) == ChargingProfilePurposeType.TxProfile.

(** Every stored profile was admitted. *)
Record stored_ok (s : StoredProfile.t) : Prop := {
  so_shape : SmartCharging.shape_error (profile s) = None;
  so_station : charging_profile_purpose (profile s) = ChargingProfilePurposeType.ChargePointMaxProfile ->
    connector_id s = 0;
  so_bound : is_someb (bound_tx s) = is_tx_profile s;
  so_connector : is_tx_profile s = true -> connector_id s <> 0;
}.

(** No stored profile replaces another one. *)
Definition apart (a b : StoredProfile.t) : Prop :=
  replaces (connector_id b) (profile b) a = false.

Record store_ok (self : t) : Prop := {
  st_stored : Forall stored_ok self;
  st_apart : StronglySorted apart self;
}.

(** Removing profiles keeps the store well formed. *)
Lemma retain_ok p self : store_ok self -> store_ok (retain p self).
Proof.
  intros [Hs Ha]. constructor; [|by apply StronglySorted_retain].
  rewrite List.Forall_forall in *. intros s [Hin _]%retain_In. auto.
Qed.

(** The conditions under which a profile is admitted, and the transaction it is bound to. *)
Definition admitted (connector : ConnectorId) (new : ChargingProfile.t) (ctx : ProfileContext.t)
    (bound : option TxId.t) : Prop :=
  SmartCharging.is_known_connector connector (ProfileContext.connector_count ctx) = true /\
  SmartCharging.shape_error new = None /\
  StoreLimits.allows_unit (ProfileContext.limits ctx)
    (charging_rate_unit (charging_schedule new)) = true /\
  stack_level new <= StoreLimits.max_stack_level (ProfileContext.limits ctx) /\
  len (charging_schedule_period (charging_schedule new))
    <= StoreLimits.max_periods (ProfileContext.limits ctx) /\
  match charging_profile_purpose new with
  | ChargingProfilePurposeType.ChargePointMaxProfile => connector = 0 /\ bound = None
  | ChargingProfilePurposeType.TxDefaultProfile => bound = None
  | ChargingProfilePurposeType.TxProfile =>
      connector <> 0 /\
      exists tx, ProfileContext.active_tx ctx = Some tx /\ bound = Some tx /\
        forall id, transaction_id new = Some id -> TxId.wire tx = Some id
  end.

Lemma admit_spec connector new ctx bound :
  admit_ connector new ctx = Ok bound <-> admitted connector new ctx bound.
Proof.
  unfold admit_, admitted, is_station.
  destruct (SmartCharging.is_known_connector _ _); cbn [negb]; [|naive_solver].
  assert (forall b, check_limits new ctx b = Ok bound <-> b = bound /\
    SmartCharging.shape_error new = None /\
    StoreLimits.allows_unit (ProfileContext.limits ctx) (charging_rate_unit (charging_schedule new)) = true /\
    stack_level new <= StoreLimits.max_stack_level (ProfileContext.limits ctx) /\
    len (charging_schedule_period (charging_schedule new))
      <= StoreLimits.max_periods (ProfileContext.limits ctx))
    as Hchecks.
  { intros b. unfold check_limits. destruct (SmartCharging.shape_error new); cbn [is_someb]; [naive_solver|].
    destruct (StoreLimits.allows_unit _ _); cbn [negb]; [|naive_solver].
    destruct (_ || _) eqn:E; [|bool_facts; naive_solver lia].
    apply orb_true_iff in E as [E|E]; bool_facts; naive_solver lia. }
  destruct (charging_profile_purpose new).
  - destruct (connector =? 0) eqn:Ec; cbn [negb]; bool_facts; [rewrite Hchecks|]; naive_solver.
  - rewrite Hchecks. naive_solver.
  - destruct (connector =? 0) eqn:Ec; cbn [negb]; bool_facts; [naive_solver|].
    destruct (ProfileContext.active_tx ctx) as [tx|]; [|naive_solver].
    destruct (transaction_id new) as [id|]; simpl.
    + destruct (TxId.wire tx == Some id) eqn:Ew; cbn [negb]; bool_facts; [rewrite Hchecks|];
        naive_solver.
    + rewrite Hchecks. naive_solver.
Qed.

(** The statuses of a refusal. *)
Lemma admit_refusal connector new ctx status :
  admit_ connector new ctx = Err status ->
  status <> ChargingProfileStatus.Accepted /\
  (status = ChargingProfileStatus.NotSupported ->
     StoreLimits.allows_unit (ProfileContext.limits ctx)
       (charging_rate_unit (charging_schedule new)) = false).
Proof.
  assert (forall b, check_limits new ctx b = Err status ->
    status <> ChargingProfileStatus.Accepted /\
    (status = ChargingProfileStatus.NotSupported ->
       StoreLimits.allows_unit (ProfileContext.limits ctx)
         (charging_rate_unit (charging_schedule new)) = false)) as Hc.
  { intros b. unfold check_limits. destruct (StoreLimits.allows_unit _ _); cbn [negb];
      repeat (case_goal; simplify_eq); by intros [= <-]. }
  unfold admit_. destruct (negb _); [by intros [= <-]|].
  destruct (charging_profile_purpose new), (is_station connector),
    (ProfileContext.active_tx ctx) as [tx|]; cbn [negb]; try apply Hc; try (by intros [= <-]).
  destruct (is_some_and _ _); [by intros [= <-]|apply Hc].
Qed.

Lemma admitted_stored connector new ctx bound now :
  admitted connector new ctx bound ->
  stored_ok (StoredProfile.mk connector new bound now).
Proof.
  intros (_ & Hshape & _ & _ & _ & Hp). unfold is_tx_profile.
  constructor; unfold is_tx_profile; cbn; [done| | |];
    destruct (charging_profile_purpose new) eqn:E; try done; try (by intros [= ?%eqb_true]).
  - by destruct Hp.
  - destruct Hp as [_ ->]. done.
  - by subst.
  - by destruct Hp as (_ & tx & _ & -> & _).
  - by destruct Hp.
Qed.

Lemma set_store self connector new ctx :
  let pruned := (prune_expired self (ProfileContext.now ctx)).1 in
  (fst (set self connector new ctx) = pruned /\
   snd (set self connector new ctx) <> ChargingProfileStatus.Accepted) \/
  exists bound, admitted connector new ctx bound /\
    fst (set self connector new ctx) =
      retain (fun s => negb (replaces connector new s)) pruned
      ++ [StoredProfile.mk connector new bound (Some (ProfileContext.now ctx))] /\
    snd (set self connector new ctx) = ChargingProfileStatus.Accepted /\
    len (fst (set self connector new ctx)) <= StoreLimits.max_installed (ProfileContext.limits ctx).
Proof.
  cbv zeta. unfold set. set (pruned := (prune_expired self _).1). set (others := retain _ pruned).
  destruct (admit_ connector new ctx) as [bound|status] eqn:E.
  - apply admit_spec in E. destruct (_ <=? _) eqn:Em; [by left|]. right. exists bound.
    split; [done|]. split; [done|]. split; [done|]. bool_facts. cbn [fst].
    unfold len in *. rewrite length_app. cbn [length]. lia.
  - left. split; [done|]. by apply admit_refusal in E as [? _].
Qed.

Lemma set_ok self connector new ctx :
  store_ok self -> store_ok (set self connector new ctx).1.
Proof.
  intros Hok. pose proof (retain_ok (fun s => negb (SmartCharging.is_expired (profile s)
    (ProfileContext.now ctx))) self Hok) as Hp.
  destruct (set_store self connector new ctx) as [[-> _]|(bound & Ha & -> & _)]; [done|].
  destruct (retain_ok (fun s => negb (replaces connector new s)) _ Hp) as [H1 H2].
  constructor.
  - apply Forall_app. split; [done|]. constructor; [by eapply admitted_stored|done].
  - apply StronglySorted_snoc; [done|]. intros s [_ Hs]%retain_In. by bool_facts.
Qed.

(** ** The store over its life *)

Inductive op : Type :=
| Set_ (connector : ConnectorId) (new : ChargingProfile.t) (ctx : ProfileContext.t)
| Clear (filter : ClearChargingProfileRequest.t) (now : DateTime)
| Prune (now : DateTime)
| TransactionEnded (tx : TxId.t)
| Backfill (now : DateTime).

Definition apply (self : t) (o : op) : t :=
  match o with
  | Set_ connector new ctx => (set self connector new ctx).1
  | Clear filter now => (clear self filter now).1
  | Prune now => (prune_expired self now).1
  | TransactionEnded tx => (on_transaction_ended self tx).1
  | Backfill now => (backfill_installed_at self now).1
  end.

Lemma apply_ok self o : store_ok self -> store_ok (apply self o).
Proof.
  intros Hok. destruct o; cbn [apply].
  - by apply set_ok.
  - unfold clear. by apply retain_ok, retain_ok.
  - by apply retain_ok.
  - by apply retain_ok.
  - destruct Hok as [H1 H2]. constructor; unfold backfill_installed_at; cbn [fst].
    + rewrite List.Forall_forall in *. intros s (s' & <- & Hin)%in_map_iff.
      destruct (H1 s' Hin). by destruct (is_someb (installed_at s')).
    + apply StronglySorted_map_iff; [|done]. intros x y Hxy.
      unfold apart in *. by destruct (is_someb (installed_at x)), (is_someb (installed_at y)).
Qed.

(** Whatever requests, transactions and restarts the store goes through, every
    stored profile has a valid shape, a station maximum is on connector 0, exactly the
    profiles of transactions are bound to one, and no two profiles share an id or a connector,
    stack level and purpose. *)
Theorem store_invariant (ops : list op) : store_ok (fold_left apply ops []).
Proof.
  assert (forall self, store_ok self -> store_ok (fold_left apply ops self)) as H.
  { induction ops as [|o ops IH]; intros self Hok; [done|]. apply IH. by apply apply_ok. }
  apply H. repeat constructor.
Qed.

(** [SetChargingProfile] is accepted exactly when the profile is admitted and there
    is room for it; then it replaces the profiles it shares its id or its place with and
    keeps the others. A refused request changes nothing but the expired profiles. *)
Theorem set_spec (self : t) (connector : ConnectorId) (new : ChargingProfile.t)
    (ctx : ProfileContext.t) :
  let pruned := (prune_expired self (ProfileContext.now ctx)).1 in
  let others := retain (fun s => negb (replaces connector new s)) pruned in
  let '(self', status) := set self connector new ctx in
  (status = ChargingProfileStatus.Accepted <->
     (exists bound, admitted connector new ctx bound) /\
     len others < StoreLimits.max_installed (ProfileContext.limits ctx)) /\
  (status = ChargingProfileStatus.Accepted ->
     exists bound, admitted connector new ctx bound /\
       self' = others ++ [StoredProfile.mk connector new bound (Some (ProfileContext.now ctx))]) /\
  (status <> ChargingProfileStatus.Accepted -> self' = pruned) /\
  (status = ChargingProfileStatus.NotSupported ->
     StoreLimits.allows_unit (ProfileContext.limits ctx)
       (charging_rate_unit (charging_schedule new)) = false).
Proof.
  cbv zeta. unfold set.
  set (pruned := (prune_expired self _).1). set (others := retain _ _).
  destruct (admit_ connector new ctx) as [bound|status] eqn:E.
  - apply admit_spec in E. destruct (_ <=? _) eqn:Em; bool_facts; split_and!; try done.
    + split; [done|]. intros [_ ?]. lia.
    + split; [|done]. intros _. split; [by eexists|lia].
    + intros _. by exists bound.
  - apply admit_refusal in E as Hr. destruct Hr as [H1 H2].
    split; [|split; [|split]]; try done.
    split; [done|]. intros [(bound & Ha) _]. apply admit_spec in Ha. congruence.
Qed.

(** [ClearChargingProfile] removes exactly the unexpired profiles that match all the
    given criteria (all of them without criteria) and is accepted exactly when there was one.
    The end of a transaction removes exactly the profiles bound to it. *)
Theorem clear_spec (self : t) (filter : ClearChargingProfileRequest.t) (now : DateTime)
    (tx : TxId.t) :
  (forall s, In s (clear self filter now).1 <->
     In s self /\ SmartCharging.is_expired (profile s) now = false /\
     matches_filter s filter = false) /\
  ((clear self filter now).2 = ClearChargingProfileStatus.Accepted <->
     exists s, In s self /\ SmartCharging.is_expired (profile s) now = false /\
       matches_filter s filter = true) /\
  (forall s, In s (on_transaction_ended self tx).1 <->
     In s self /\ ~ (is_tx_profile s = true /\ bound_tx s = Some tx)).
Proof.
  unfold clear, prune_expired, on_transaction_ended. cbn [fst snd]. split_and!.
  - intros s. rewrite !retain_In, !negb_true_iff. tauto.
  - set (pruned := retain _ self). destruct (_ <? _) eqn:E; bool_facts.
    + split; [intros _|done]. unfold len in E.
      destruct (proj1 (retain_shorter (fun s => negb (matches_filter s filter)) pruned) ltac:(lia))
        as (s & Hin & Hm). bool_facts. apply retain_In in Hin as [Hin He]. bool_facts. eauto.
    + split; [done|]. intros (s & Hin & He & Hm). exfalso.
      assert (length (retain (fun s => negb (matches_filter s filter)) pruned) < length pruned)%nat.
      { apply retain_shorter. exists s. rewrite Hm. split; [|done]. apply retain_In.
        by rewrite He. }
      unfold len in E. lia.
  - intros s. rewrite retain_In, negb_true_iff, andb_false_iff. unfold is_tx_profile.
    destruct (_ == ChargingProfilePurposeType.TxProfile) eqn:E1; [|naive_solver].
    destruct (bound_tx s == Some tx) eqn:E2; bool_facts; naive_solver.
Qed.

(** The store keeps the promise that the evaluation of the profiles asks for. *)
Lemma store_entries_ok {C : Chrono} self :
  store_ok self ->
  (forall s, In s self ->
     Forall (fun q => is_i32 (ChargingSchedulePeriod.start_period q))
       (charging_schedule_period (charging_schedule (profile s))) /\
     (forall d, duration (charging_schedule (profile s)) = Some d -> is_i32 d) /\
     (forall t, In (Some t) [valid_from (profile s); installed_at s;
                 start_schedule (charging_schedule (profile s))] -> in_range t)) ->
  Forall SmartCharging.entry_ok self.
Proof.
  intros [Hs _] Hw. rewrite List.Forall_forall in *. intros s Hin.
  destruct (Hw s Hin) as (H1 & H2 & H3). destruct (Hs s Hin).
  constructor; [by constructor|done].
Qed.

End ChargingProfileStore.
