(* ===== verification/Maintenance.v ===== *)
(** * Maintenance: the plans of simulated uploads and firmware updates

    [station/maintenance.rs]: the status reports that follow a [GetDiagnostics], [GetLog],
    [UpdateFirmware] or [SignedUpdateFirmware], each with the delay before it. *)

From stdpp Require Import strings.
From S2P Require Import Prelude Text Time Types Messages SecurityMessages.
Local Open Scope Z_scope.

(** Result the emulator should simulate for the next `GetDiagnostics`. *)
Module DiagnosticsOutcome.
Inductive t : Type :=
| Success
| UploadFailure.
#[export] Instance eq_dec : EqDecision t.
Proof. solve_decision. Defined.
End DiagnosticsOutcome.
Export (hints) DiagnosticsOutcome.

(** Result the emulator should simulate for the next `UpdateFirmware`. *)
Module FirmwareOutcome.
Inductive t : Type :=
| Success
| DownloadFailure
| InstallationFailure
| InvalidSignature
| InstallVerificationFailed.
#[export] Instance eq_dec : EqDecision t.
Proof. solve_decision. Defined.
End FirmwareOutcome.
Export (hints) FirmwareOutcome.

Module Maintenance.

Definition STEP_DELAY : Duration := 100 * NS_PER_MS.
Definition MAX_DELAY : Duration := NS_PER_SEC.
Definition MAX_RETRIES : Z := 5.

(** One simulated status report, a delay after the previous one. *)
Inductive Step : Type :=
| Diagnostics (s : DiagnosticsStatus.t)
| Firmware (s : FirmwareStatus.t).

Definition repeat {T} (attempt : list T) (retries : Z) : list T :=
  concat (map (fun _ => attempt) (range_inclusive 0 (Z.min retries MAX_RETRIES))).

Definition with_delays {T} (steps : list T) (attempt_len : Z) (retry_interval : Duration)
  : list (Duration * T) :=
  imap (fun index step =>
    let index := Z.of_nat index in
    let delay := if (0 <? index) && (index mod attempt_len =? 0)
                 then Z.min retry_interval MAX_DELAY else STEP_DELAY in
    (delay, step)) steps.

Definition diagnostics_attempt (outcome : DiagnosticsOutcome.t) : list DiagnosticsStatus.t :=
  match outcome with
  | DiagnosticsOutcome.Success => [DiagnosticsStatus.Uploading; DiagnosticsStatus.Uploaded]
  | DiagnosticsOutcome.UploadFailure => [DiagnosticsStatus.Uploading; DiagnosticsStatus.UploadFailed]
  end.

Definition diagnostics_retries (outcome : DiagnosticsOutcome.t) (retries : Z) : Z :=
  match outcome with
  | DiagnosticsOutcome.Success => 0
  | DiagnosticsOutcome.UploadFailure => retries
  end.

Definition plan_diagnostics (outcome : DiagnosticsOutcome.t) (retries : Z)
    (retry_interval : Duration) : list (Duration * Step) :=
  let attempt := diagnostics_attempt outcome in
  with_delays (map Diagnostics (repeat attempt (diagnostics_retries outcome retries)))
    (len attempt) retry_interval.

Definition log_step (entry : Duration * Step) : option (Duration * UploadLogStatus.t) :=
  match entry with
  | (delay, Diagnostics DiagnosticsStatus.Uploading) => Some (delay, UploadLogStatus.Uploading)
  | (delay, Diagnostics DiagnosticsStatus.Uploaded) => Some (delay, UploadLogStatus.Uploaded)
  | (delay, Diagnostics DiagnosticsStatus.UploadFailed) =>
      Some (delay, UploadLogStatus.UploadFailure)
  | _ => None
  end.

Definition plan_log (outcome : DiagnosticsOutcome.t) (retries : Z) (retry_interval : Duration)
  : list (Duration * UploadLogStatus.t) :=
  omap log_step (plan_diagnostics outcome retries retry_interval).

Definition firmware_attempt (outcome : FirmwareOutcome.t) (retries : Z)
  : list FirmwareStatus.t * Z :=
  match outcome with
  | FirmwareOutcome.Success =>
      ([FirmwareStatus.Downloading; FirmwareStatus.Downloaded; FirmwareStatus.Installing;
        FirmwareStatus.Installed], 0)
  | FirmwareOutcome.DownloadFailure =>
      ([FirmwareStatus.Downloading; FirmwareStatus.DownloadFailed], retries)
  | FirmwareOutcome.InstallationFailure | FirmwareOutcome.InvalidSignature
  | FirmwareOutcome.InstallVerificationFailed =>
      ([FirmwareStatus.Downloading; FirmwareStatus.Downloaded; FirmwareStatus.Installing;
        FirmwareStatus.InstallationFailed], retries)
  end.

Definition plan_firmware (outcome : FirmwareOutcome.t) (retries : Z) (retry_interval : Duration)
  : list (Duration * Step) :=
  let '(attempt, retries) := firmware_attempt outcome retries in
  with_delays (map Firmware (repeat attempt retries)) (len attempt) retry_interval.

Section signed.
Import SignedFirmwareStatus.
Context (retries : Z) (retry_interval : Duration).
Context (retrieve_wait install_wait : option Duration).

(** The closure [installing]. *)
Definition installing (last : list SignedFirmwareStatus.t) : list SignedFirmwareStatus.t :=
  [Downloading; Downloaded; SignatureVerified]
  ++ (if is_someb install_wait then [InstallScheduled] else [])
  ++ [Installing] ++ last.

Definition signed_attempt (outcome : FirmwareOutcome.t) : list SignedFirmwareStatus.t * Z :=
  match outcome with
  | FirmwareOutcome.Success => (installing [InstallRebooting; Installed], 0)
  | FirmwareOutcome.DownloadFailure => ([Downloading; DownloadFailed], retries)
  | FirmwareOutcome.InstallationFailure => (installing [InstallationFailed], retries)
  | FirmwareOutcome.InvalidSignature => ([Downloading; Downloaded; InvalidSignature], 0)
  | FirmwareOutcome.InstallVerificationFailed =>
      (installing [InstallRebooting; InstallVerificationFailed], 0)
  end.

(** The delay of the entry at [index]: the three passes over the plan, the last one winning. *)
Definition signed_delay (head attempt_len index : Z) (status : SignedFirmwareStatus.t) : Duration :=
  let delay :=
    if (head <=? index) && (0 <? index - head) && ((index - head) mod attempt_len =? 0)
    then Z.min retry_interval MAX_DELAY else STEP_DELAY in
  let delay :=
    match retrieve_wait with
    | Some wait => if index =? head then Z.min wait MAX_DELAY else delay
    | None => delay
    end in
  match install_wait with
  | Some wait => if status == Installing then Z.min wait MAX_DELAY else delay
  | None => delay
  end.

Definition plan_signed (outcome : FirmwareOutcome.t)
  : list (Duration * SignedFirmwareStatus.t) :=
  let '(attempt, retries) := signed_attempt outcome in
  let steps := if is_someb retrieve_wait then [DownloadScheduled] else [] in
  let head := len steps in
  let steps := steps ++ repeat attempt retries in
  imap (fun index s => (signed_delay head (len attempt) (Z.of_nat index) s, s)) steps.
End signed.

(** ** The plans are bounded *)

(** A plan of at most [n] reports, at most a second apart, that ends with [final]. *)
Definition plan_ok {T} (plan : list (Duration * T)) (n : Z) (final : T) : Prop :=
  len plan <= n /\ last (map snd plan) = Some final /\
  Forall (fun entry => 0 <= entry.1 <= MAX_DELAY) plan.

Lemma range_inclusive_snoc k :
  0 <= k -> range_inclusive 0 k = range_inclusive 0 (k - 1) ++ [k].
Proof.
  intros Hk. unfold range_inclusive.
  replace (Z.to_nat (k - 0 + 1)) with (S (Z.to_nat (k - 1 - 0 + 1))) by lia.
  rewrite seq_S, map_app. simpl. do 2 f_equal. lia.
Qed.

Lemma repeat_length {T} (attempt : list T) retries :
  0 <= retries -> len (repeat attempt retries) = (Z.min retries MAX_RETRIES + 1) * len attempt.
Proof.
  unfold repeat. intros Hr. assert (Hk : 0 <= Z.min retries MAX_RETRIES) by (unfold MAX_RETRIES; lia).
  revert Hk. generalize (Z.min retries MAX_RETRIES) as k. clear.
  intros k Hk. pattern k. apply natlike_ind; [by unfold len; simpl; rewrite app_nil_r; lia| |done].
  intros x Hx IH. rewrite range_inclusive_snoc by lia. replace (Z.succ x - 1) with x by lia.
  rewrite map_app, concat_app. unfold len in *. rewrite length_app. simpl. rewrite app_nil_r. lia.
Qed.

Lemma repeat_last {T} (attempt : list T) retries x :
  0 <= retries -> last attempt = Some x -> last (repeat attempt retries) = Some x.
Proof.
  intros Hr Hx. unfold repeat.
  rewrite range_inclusive_snoc by (unfold MAX_RETRIES; lia).
  rewrite map_app, concat_app. simpl. by rewrite app_nil_r, last_app, Hx.
Qed.

Lemma imap_snd {A B} (f : nat -> A -> B) l : map snd (imap (fun i x => (f i x, x)) l) = l.
Proof.
  revert f. induction l as [|x l IH]; intros f; simpl; [done|]. f_equal. apply (IH (fun i => f (S i))).
Qed.

Lemma imap_Forall {A B} (P : B -> Prop) (f : nat -> A -> B) l :
  (forall i x, P (f i x)) -> Forall P (imap f l).
Proof.
  revert f. induction l as [|x l IH]; intros f Hf; simpl; constructor; [done|].
  apply (IH (fun i => f (S i))). intros. apply Hf.
Qed.

(** What the plans share: attempts repeated up to the bound, preceded by [head]. *)
Lemma attempts_ok {T} (delay : nat -> T -> Duration) (head attempt : list T) retries n final :
  0 <= retries -> last attempt = Some final ->
  len head + (Z.min retries MAX_RETRIES + 1) * len attempt <= n ->
  (forall i x, 0 <= delay i x <= MAX_DELAY) ->
  plan_ok (imap (fun i x => (delay i x, x)) (head ++ repeat attempt retries)) n final.
Proof.
  intros Hr Hlast Hn Hd. split_and!.
  - unfold len. rewrite length_imap, length_app, Nat2Z.inj_add. fold (len head).
    fold (len (repeat attempt retries)). rewrite repeat_length by done. done.
  - rewrite imap_snd, last_app, (repeat_last attempt retries final) by done. done.
  - apply imap_Forall. intros i x. apply Hd.
Qed.

Lemma with_delays_ok {T} (f : T -> Step) (attempt : list T) attempt_len retries interval n final :
  0 <= retries -> 0 <= interval -> last attempt = Some final -> 6 * len attempt <= n ->
  plan_ok (with_delays (map f (repeat attempt retries)) attempt_len interval) n (f final).
Proof.
  intros Hr Hi Hlast Hn. unfold with_delays.
  replace (map f (repeat attempt retries)) with ([] ++ repeat (map f attempt) retries).
  2:{ unfold repeat. simpl. rewrite concat_map, map_map. done. }
  apply (attempts_ok (fun i _ => if (0 <? Z.of_nat i) && (Z.of_nat i mod attempt_len =? 0)
    then Z.min interval MAX_DELAY else STEP_DELAY)); [done| | |].
  - change (map f attempt) with (f <$> attempt). by rewrite fmap_last, Hlast.
  - unfold len, MAX_RETRIES in *. rewrite length_map. simpl. nia.
  - intros i x. unfold STEP_DELAY, MAX_DELAY, NS_PER_MS, NS_PER_SEC. destruct (_ && _); lia.
Qed.

(** The status the simulation ends with. *)
Definition diagnostics_final (outcome : DiagnosticsOutcome.t) : DiagnosticsStatus.t :=
  match outcome with
  | DiagnosticsOutcome.Success => DiagnosticsStatus.Uploaded
  | DiagnosticsOutcome.UploadFailure => DiagnosticsStatus.UploadFailed
  end.
Definition firmware_final (outcome : FirmwareOutcome.t) : FirmwareStatus.t :=
  match outcome with
  | FirmwareOutcome.Success => FirmwareStatus.Installed
  | FirmwareOutcome.DownloadFailure => FirmwareStatus.DownloadFailed
  | _ => FirmwareStatus.InstallationFailed
  end.
Definition signed_final (outcome : FirmwareOutcome.t) : SignedFirmwareStatus.t :=
  match outcome with
  | FirmwareOutcome.Success => SignedFirmwareStatus.Installed
  | FirmwareOutcome.DownloadFailure => SignedFirmwareStatus.DownloadFailed
  | FirmwareOutcome.InstallationFailure => SignedFirmwareStatus.InstallationFailed
  | FirmwareOutcome.InvalidSignature => SignedFirmwareStatus.InvalidSignature
  | FirmwareOutcome.InstallVerificationFailed => SignedFirmwareStatus.InstallVerificationFailed
  end.

Definition nonneg_wait (wait : option Duration) : Prop :=
  match wait with Some d => 0 <= d | None => True end.

(** Whatever the outcome, the retries and the retry interval a request asks for, a
    simulated upload or update makes at most six attempts, waits at most a second before each
    of its reports and ends with the final status of the outcome. *)
Theorem plans_bounded (d : DiagnosticsOutcome.t) (f : FirmwareOutcome.t) (retries : Z)
    (interval : Duration) (retrieve_wait install_wait : option Duration) :
  0 <= retries -> 0 <= interval -> nonneg_wait retrieve_wait -> nonneg_wait install_wait ->
  plan_ok (plan_diagnostics d retries interval) 12 (Diagnostics (diagnostics_final d)) /\
  plan_ok (plan_firmware f retries interval) 24 (Firmware (firmware_final f)) /\
  plan_ok (plan_signed retries interval retrieve_wait install_wait f) 37 (signed_final f).
Proof.
  intros Hr Hi Hrw Hiw. split_and!.
  - apply with_delays_ok; destruct d; simpl; done || lia.
  - unfold plan_firmware. destruct f; apply with_delays_ok; simpl; done || lia.
  - unfold plan_signed.
    assert (Hd : forall head alen i s,
      0 <= signed_delay interval retrieve_wait install_wait head alen i s <= MAX_DELAY).
    { intros. unfold signed_delay, nonneg_wait, MAX_DELAY, STEP_DELAY, NS_PER_MS, NS_PER_SEC in *.
      destruct retrieve_wait, install_wait; cases; lia. }
    destruct (signed_attempt retries install_wait f) as [attempt n] eqn:E.
    assert (Ha : 0 <= n /\ last attempt = Some (signed_final f) /\
      (Z.min n MAX_RETRIES + 1) * len attempt <= 36).
    { destruct f, install_wait; injection E as <- <-; unfold MAX_RETRIES, len; simpl; split_and!;
        done || lia. }
    destruct Ha as (Hn & Hl & Hlen).
    apply (attempts_ok (fun i s => signed_delay interval retrieve_wait install_wait _ _
      (Z.of_nat i) s)); [done|done| |intros; apply Hd].
    destruct retrieve_wait; unfold len in *; simpl; lia.
Qed.

Lemma plans_bounded_witness :
  0 <= 9 /\ plan_ok (plan_diagnostics DiagnosticsOutcome.UploadFailure 9 (5 * NS_PER_SEC)) 12
              (Diagnostics DiagnosticsStatus.UploadFailed).
Proof.
  split; [lia|].
  apply (plans_bounded DiagnosticsOutcome.UploadFailure FirmwareOutcome.Success 9
    (5 * NS_PER_SEC) None None); simpl; done || (unfold NS_PER_SEC; lia).
Defined.
End Maintenance.
