(* ===== verification/Security.v ===== *)
(** * Security: the queue of security events

    [station/security.rs]: the names of the security events of the whitepaper, and the bounded
    queue of the events that could not be sent yet. *)

From stdpp Require Import strings.
From S2P Require Import Prelude Text Time Types Messages SecurityMessages.
Local Open Scope Z_scope.

Module Security.

Definition SECURITY_EVENT_TYPES : list str :=
  [lit "FirmwareUpdated"; lit "FailedToAuthenticateAtCentralSystem";
   lit "CentralSystemFailedToAuthenticate"; lit "SettingSystemTime"; lit "StartupOfTheDevice";
   lit "ResetOrReboot"; lit "SecurityLogWasCleared"; lit "ReconfigurationOfSecurityParameters";
   lit "MemoryExhaustion"; lit "InvalidMessages"; lit "AttemptedReplayAttacks";
   lit "TamperDetectionActivated"; lit "InvalidFirmwareSignature";
   lit "InvalidFirmwareSigningCertificate"; lit "InvalidCentralSystemCertificate";
   lit "InvalidChargePointCertificate"; lit "InvalidTLSVersion"; lit "InvalidTLSCipherSuite";
   lit "MaintenanceLoginAccepted"; lit "MaintenanceLoginFailed";
   lit "DiscardedRenewedClientCertificate"].

Definition MAX_QUEUED_EVENTS : nat := 100.

Definition canonical_event_type (name : str) : option str :=
  find_first (fun known => eq_ignore_ascii_case known (trim name)) SECURITY_EVENT_TYPES.

(** [char::is_control]: the general category Cc *)
Definition is_control (c : char) : bool :=
  ((0 <=? c) && (c <=? 31)) || ((127 <=? c) && (c <=? 159)).

Definition strip_control (text : str) : str := map (fun c => if is_control c then 32 else c) text.

(** A security event waiting to be reported. *)
Record PendingSecurityEvent : Type := mk_event {
  event_type : str;
  timestamp : DateTime;
  tech_info : option str;
}.
#[export] Instance event_eq_dec : EqDecision PendingSecurityEvent.
Proof. solve_decision. Defined.

Definition new (ty : str) (at_ : DateTime) (info : option str) : PendingSecurityEvent :=
  mk_event ty at_
    (match info with
     | Some t =>
         if t == [] then None
         else Some (take (Z.to_nat MAX_SECURITY_EVENT_TECH_INFO_LEN) (strip_control t))
     | None => None
     end).

Definition push_bounded (queue : list PendingSecurityEvent) (event : PendingSecurityEvent)
  : list PendingSecurityEvent :=
  let queue := queue ++ [event] in
  if (MAX_QUEUED_EVENTS <? length queue)%nat
  then drop (length queue - MAX_QUEUED_EVENTS) queue else queue.

(** [sort_by_key(|e| e.timestamp)], a stable sort *)
Fixpoint insert_by_time (e : PendingSecurityEvent) (l : list PendingSecurityEvent)
  : list PendingSecurityEvent :=
  match l with
  | [] => [e]
  | e' :: rest =>
      if timestamp e <=? timestamp e' then e :: l else e' :: insert_by_time e rest
  end.
Definition sort_by_timestamp (l : list PendingSecurityEvent) : list PendingSecurityEvent :=
  foldr insert_by_time [] l.

(** What a failed send does to the queue ([flush_security_events] in [secure.rs]). *)
Definition put_back (queue : list PendingSecurityEvent) (event : PendingSecurityEvent)
  : list PendingSecurityEvent := sort_by_timestamp (push_bounded queue event).

(** ** The queue is bounded and keeps the latest events in order *)

Definition in_time (a b : PendingSecurityEvent) : Prop := timestamp a <= timestamp b.

Lemma insert_by_time_perm e l : insert_by_time e l ≡ₚ e :: l.
Proof.
  induction l as [|e' l IH]; simpl; [done|]. destruct (_ <=? _); [done|].
  rewrite IH. constructor.
Qed.

Lemma sort_by_timestamp_perm l : sort_by_timestamp l ≡ₚ l.
Proof. induction l as [|e l IH]; simpl; [done|]. by rewrite insert_by_time_perm, IH. Qed.

Lemma insert_by_time_sorted e l :
  StronglySorted in_time l -> StronglySorted in_time (insert_by_time e l).
Proof.
  induction 1 as [|e' l Hs IH Hall]; simpl; [by repeat constructor|].
  destruct (timestamp e <=? timestamp e') eqn:E; bool_facts.
  - constructor; [by constructor|]. constructor; [done|].
    eapply Forall_impl; [exact Hall|]. unfold in_time. intros. lia.
  - constructor; [done|]. rewrite insert_by_time_perm. constructor; [unfold in_time; lia|done].
Qed.

Lemma sort_by_timestamp_sorted l : StronglySorted in_time (sort_by_timestamp l).
Proof. induction l; simpl; [constructor|by apply insert_by_time_sorted]. Qed.

Lemma push_bounded_length queue event :
  (length queue <= MAX_QUEUED_EVENTS)%nat -> (length (push_bounded queue event) <= MAX_QUEUED_EVENTS)%nat.
Proof.
  intros Hq. unfold push_bounded. destruct (_ <? _)%nat eqn:E.
  - rewrite length_drop. lia.
  - apply Nat.ltb_ge in E. done.
Qed.

Lemma push_bounded_suffix queue event : exists n, push_bounded queue event = drop n (queue ++ [event]).
Proof. unfold push_bounded. destruct (_ <? _)%nat; [by eexists|by exists 0%nat]. Qed.

Lemma put_back_length queue event :
  (length queue <= MAX_QUEUED_EVENTS)%nat -> (length (put_back queue event) <= MAX_QUEUED_EVENTS)%nat.
Proof. intros. unfold put_back. rewrite sort_by_timestamp_perm. by apply push_bounded_length. Qed.

(** A name is known up to case and surrounding white space, and the canonical spelling fits
    the schema. *)
Lemma canonical_event_type_spec name ty :
  canonical_event_type name = Some ty ->
  In ty SECURITY_EVENT_TYPES /\ to_ascii_lowercase ty = to_ascii_lowercase (trim name) /\
  byte_len ty <= MAX_SECURITY_EVENT_TYPE_LEN.
Proof.
  intros Hf. apply find_first_In in Hf as [Hin Heq].
  apply eq_ignore_ascii_case_true in Heq. split_and!; [done|done|].
  assert (Hall : forallb (fun t => byte_len t <=? MAX_SECURITY_EVENT_TYPE_LEN) SECURITY_EVENT_TYPES = true)
    by (vm_compute; reflexivity).
  rewrite forallb_forall in Hall. apply Hall in Hin. bool_facts. done.
Qed.
End Security.
