(* ===== verification/Certificates.v ===== *)
(** * Certificates: the certificate store of the station

    [station/certificates.rs]: the installed root certificates, their fallback rule and the
    check of a signed chain. PEM, X.509, digests and key pairs are code outside the repository
    ([rustls], [x509-parser], [ring], [rcgen]): the class [Pki]. The summaries shown to user
    interfaces are not modelled. *)

From stdpp Require Import strings.
From S2P Require Import Prelude Text Time Types Messages SecurityMessages.
Local Open Scope Z_scope.

Abbreviation bytes := (list Z).

(** What [X509Certificate::from_der] reads. *)
Record X509Fields : Type := mk_x509 {
  x_trailing : bool;
  x_subject : str;
  x_raw_serial : bytes;
  x_not_before : Z;
  x_not_after : Z;
  x_subject_raw : bytes;
  x_issuer_raw : bytes;
  x_key_bits : bytes;
  x_spki_raw : bytes;
}.

Class Pki : Type := {
  (** [CertificateDer::pem_slice_iter]: [None] for a block that is not PEM *)
  pem_slice_iter : str -> list (option bytes);
  x509_from_der : bytes -> option X509Fields;
  (** [cert.verify_signature(key).is_ok()], [None] standing for the certificate's own key *)
  verify_signature : bytes -> option bytes -> bool;
  digest : HashAlgorithm.t -> bytes -> bytes;
  (** [KeyPair::from_pem(pem)] with its [subject_public_key_info()] *)
  keypair_public_key : str -> option bytes;
  (** the PEM texts of a request for a common name and an organization with a fresh key *)
  KeyPair : Type;
  csr_pem : str -> str -> KeyPair -> option str;
  keypair_pem : KeyPair -> str;
}.

(** What both ends of a TLS connection use of [rustls], with the texts of its errors:
    [CertificateDer::pem_slice_iter], [PrivateKeyDer::from_pem_slice], [RootCertStore::add]. *)
Class Rustls : Type := {
  pem_certificates : bytes -> list (result bytes str);
  pem_private_key : bytes -> result bytes str;
  root_error : bytes -> option str;
}.

(** One installed root certificate. *)
Module StoredRoot.
Record t : Type := mk {
  kind : CertificateUse.t;
  pem : str;
  fallback : bool;
}.
#[export] Instance eta : Eta t := fun r => mk (kind r) (pem r) (fallback r).
#[export] Instance eq_dec : EqDecision t.
Proof. solve_decision. Defined.
End StoredRoot.
Export (hints) StoredRoot.

Module CertificateStore.
Import StoredRoot.

Definition MAX_CHAIN_CERTS : nat := 8.

Record t : Type := mk {
  roots : list StoredRoot.t;
  charge_point_chain : option str;
  previous_charge_point_chain : option str;
}.
#[export] Instance eta : Eta t := fun s =>
  mk (roots s) (charge_point_chain s) (previous_charge_point_chain s).
#[export] Instance eq_dec : EqDecision t.
Proof. solve_decision. Defined.

Definition default : t := mk [] None None.

Record ParsedCert : Type := mk_cert {
  der : bytes;
  subject : str;
  serial : str;
  not_before : Z;
  not_after : Z;
  subject_raw : bytes;
  issuer_raw : bytes;
  key_bits : bytes;
  spki_der : bytes;
  self_signed : bool;
}.

Definition hex_digit (n : Z) : char := if n <? 10 then 48 + n else 97 + (n - 10).
Definition hex (l : bytes) : str := concat (map (fun b => [hex_digit (b / 16); hex_digit (b mod 16)]) l).

(** [trim_start_matches('0')] *)
Fixpoint trim_zeros (s : str) : str :=
  match s with
  | c :: rest => if c =? 48 then trim_zeros rest else s
  | [] => []
  end.

Definition serial_hex (raw : bytes) : str :=
  let start := from_option id (length raw) (position (fun b => negb (b =? 0)) raw) in
  match drop start raw with
  | [] => lit "0"
  | trimmed => trim_zeros (hex trimmed)
  end.

Definition same_hash (a b : CertificateHashData.t) : bool :=
  (CertificateHashData.hash_algorithm a == CertificateHashData.hash_algorithm b)
  && eq_ignore_ascii_case (CertificateHashData.issuer_name_hash a)
       (CertificateHashData.issuer_name_hash b)
  && eq_ignore_ascii_case (CertificateHashData.issuer_key_hash a)
       (CertificateHashData.issuer_key_hash b)
  && eq_ignore_ascii_case (trim_zeros (CertificateHashData.serial_number a))
       (trim_zeros (CertificateHashData.serial_number b)).

Section pki.
Context {P : Pki} {C : Chrono}.

Definition from_der (d : bytes) : option ParsedCert :=
  match x509_from_der d with
  | None => None
  | Some x =>
      if x_trailing x then None
      else Some {|
        der := d;
        subject := x_subject x;
        serial := serial_hex (x_raw_serial x);
        not_before := x_not_before x;
        not_after := x_not_after x;
        subject_raw := x_subject_raw x;
        issuer_raw := x_issuer_raw x;
        key_bits := x_key_bits x;
        spki_der := x_spki_raw x;
        self_signed := (x_subject_raw x == x_issuer_raw x) && verify_signature d None;
      |}
  end.

Definition valid_at (c : ParsedCert) (now : DateTime) : bool :=
  let t := timestamp now in (not_before c <=? t) && (t <=? not_after c).

Definition hash_data (c : ParsedCert) (alg : HashAlgorithm.t) : CertificateHashData.t := {|
  CertificateHashData.hash_algorithm := alg;
  CertificateHashData.issuer_name_hash := hex (digest alg (issuer_raw c));
  CertificateHashData.issuer_key_hash := hex (digest alg (key_bits c));
  CertificateHashData.serial_number := serial c;
|}.

Definition root_hash_data (c : ParsedCert) (alg : HashAlgorithm.t) : CertificateHashData.t :=
  let data := hash_data c alg in
  if negb (self_signed c)
  then data <| CertificateHashData.issuer_name_hash := hex (digest alg (subject_raw c)) |>
  else data.

Definition signed_by (c issuer : ParsedCert) : bool :=
  match x509_from_der (der c), x509_from_der (der issuer) with
  | Some _, Some key => verify_signature (der c) (Some (x_spki_raw key))
  | _, _ => false
  end.

(** The loop over the PEM blocks, with the certificates read so far. *)
Fixpoint parse_blocks (out : list ParsedCert) (items : list (option bytes))
  : option (list ParsedCert) :=
  match items with
  | [] => Some out
  | None :: _ => None
  | Some d :: items =>
      if (MAX_CHAIN_CERTS <=? length out)%nat then None
      else
        match from_der d with
        | Some c => parse_blocks (out ++ [c]) items
        | None => None
        end
  end.

Definition parse_pem_chain (pem : str) : option (list ParsedCert) :=
  match parse_blocks [] (pem_slice_iter pem) with
  | Some [] => None
  | r => r
  end.

(** The one certificate of an installed root. *)
Definition parsed_root (r : StoredRoot.t) : option (CertificateUse.t * ParsedCert) :=
  match parse_pem_chain (pem r) with
  | Some [c] => Some (kind r, c)
  | _ => None
  end.
Definition parsed_roots (s : t) : list (CertificateUse.t * ParsedCert) := omap parsed_root (roots s).

Definition is_central (r : StoredRoot.t) : bool :=
  kind r == CertificateUse.CentralSystemRootCertificate.

(** The indexes of the installed Central System roots that are not the fallback. *)
Definition primaries (l : list StoredRoot.t) : list nat :=
  omap (fun '(i, r) => if is_central r && negb (fallback r) then Some i else None)
    (imap pair l).

Definition first_cert (r : StoredRoot.t) : option ParsedCert :=
  parse_pem_chain (pem r) ≫= head.

(** [retain_mut] with its counter: the signer stays, as the fallback. *)
Definition keep_signer (signer : nat) (l : list StoredRoot.t) : list StoredRoot.t :=
  omap (fun '(index, r) =>
    if negb (is_central r) then Some r
    else if (index =? signer)%nat then Some (r <| fallback := true |>) else None)
    (imap pair l).

Definition install (s : t) (use : CertificateUse.t) (text : str) (now : DateTime) (max_len : Z)
    (additional_check : bool) : t * InstallCertificateStatus.t :=
  if MAX_CERTIFICATE_LEN <? byte_len text then (s, InstallCertificateStatus.Rejected)
  else
    match parse_pem_chain text with
    | Some [cert] =>
        if negb (valid_at cert now) then (s, InstallCertificateStatus.Rejected)
        else
          let new_hash := root_hash_data cert HashAlgorithm.Sha256 in
          if any (fun '(k, c) => (k == use)
                    && same_hash (root_hash_data c HashAlgorithm.Sha256) new_hash)
                 (parsed_roots s)
          then (s, InstallCertificateStatus.Accepted)
          else
            let central := CertificateUse.CentralSystemRootCertificate in
            let old := if additional_check && (use == central) then primaries (roots s) else [] in
            let new := StoredRoot.mk use (trim text) false in
            match old with
            | [] =>
                if negb (self_signed cert) then (s, InstallCertificateStatus.Rejected)
                else if max_len <=? len (roots s) then (s, InstallCertificateStatus.Rejected)
                else (s <| roots ::= fun l => l ++ [new] |>, InstallCertificateStatus.Accepted)
            | _ =>
                match find_first (fun index =>
                        is_some_and (signed_by cert) (roots s !! index ≫= first_cert)) old with
                | None => (s, InstallCertificateStatus.Rejected)
                | Some signer =>
                    let kept := len (retain (fun r => negb (is_central r)) (roots s)) in
                    if max_len <? kept + 2 then (s, InstallCertificateStatus.Rejected)
                    else (s <| roots ::= fun l => keep_signer signer l ++ [new] |>,
                          InstallCertificateStatus.Accepted)
                end
            end
    | _ => (s, InstallCertificateStatus.Rejected)
    end.

Definition has_fallback (s : t) : bool := any fallback (roots s).

Definition drop_fallback (s : t) : t * bool :=
  let s' := s <| roots ::= retain (fun r => negb (fallback r)) |> in
  (s', negb (len (roots s') =? len (roots s))).

Definition matches_hash (wanted : CertificateHashData.t) (r : StoredRoot.t) : bool :=
  is_some_and (fun c =>
    same_hash (root_hash_data c (CertificateHashData.hash_algorithm wanted)) wanted)
    (first_cert r).

Definition delete (s : t) (wanted : CertificateHashData.t) (keep_last_central_root : bool)
  : t * DeleteCertificateStatus.t :=
  match position (matches_hash wanted) (roots s) with
  | None => (s, DeleteCertificateStatus.NotFound)
  | Some index =>
      if keep_last_central_root && is_some_and is_central (roots s !! index)
         && (len (retain is_central (roots s)) <=? 1)
      then (s, DeleteCertificateStatus.Failed)
      else
        let l := remove_at index (roots s) in
        let l := if any (fun r => is_central r && negb (fallback r)) l then l
                 else map (fun r => r <| fallback := false |>) l in
        (s <| roots := l |>, DeleteCertificateStatus.Accepted)
  end.

Definition ids (s : t) (use : CertificateUse.t) : list CertificateHashData.t :=
  map (fun '(_, c) => root_hash_data c HashAlgorithm.Sha256)
    (retain (fun '(k, _) => k == use) (parsed_roots s)).

Definition chains_to_manufacturer_root (s : t) (chain : list ParsedCert) : option bool :=
  let l := retain (fun '(k, _) => k == CertificateUse.ManufacturerRootCertificate) (parsed_roots s) in
  match l with
  | [] => None
  | _ => Some (any (fun cert => any (fun '(_, root) =>
                 (der cert == der root) || (issuer_raw cert == subject_raw root)) l) chain)
  end.

Definition root_pems (s : t) (use : CertificateUse.t) : list str :=
  map pem (retain (fun r => (kind r == use) && negb (fallback r)) (roots s)).
Definition fallback_pems (s : t) : list str := map pem (retain fallback (roots s)).

(** [generate_csr] with the key pair that [KeyPair::generate] returns. *)
Definition generate_csr (common_name organization : str) (generated : option KeyPair)
  : option (str * str) :=
  match generated with
  | None => None
  | Some key =>
      match csr_pem common_name organization key with
      | Some csr => Some (csr, keypair_pem key)
      | None => None
      end
  end.

(** [Err] carries a text for the log and for the security event. *)
Definition validate_signed_chain (chain_pem key_pem : str) (now : DateTime) (max_size : Z)
  : result unit str :=
  if max_size <? byte_len chain_pem
  then Err (lit "chain is larger than CertificateSignedMaxChainSize")
  else
    match parse_pem_chain chain_pem with
    | None => Err (lit "chain cannot be parsed")
    | Some [] => Err (lit "empty chain")
    | Some ((leaf :: _) as chain) =>
        if negb (all (fun c => valid_at c now) chain)
        then Err (lit "a certificate is expired or not yet valid")
        else
          match keypair_public_key key_pem with
          | None => Err (lit "pending key")
          | Some key =>
              if key != spki_der leaf
              then Err (lit "the leaf certificate does not match the requested key")
              else if negb (all (fun '(a, b) => signed_by a b) (windows2 chain))
              then Err (lit "a certificate of the chain is not signed by the next one")
              else Ok tt
          end
    end.

(** ** The fallback rule *)

Definition is_primary (r : StoredRoot.t) : bool := is_central r && negb (fallback r).

(** Two entries for the same certificate and use. *)
Definition same_root (a b : CertificateUse.t * ParsedCert) : bool :=
  (a.1 == b.1) && same_hash (root_hash_data a.2 HashAlgorithm.Sha256)
                            (root_hash_data b.2 HashAlgorithm.Sha256).

(** At most one root is a fallback, it is a Central System root and has a successor; no
    certificate is installed twice for the same use. *)
Record store_ok (s : t) : Prop := {
  one_fallback : (length (retain fallback (roots s)) <= 1)%nat;
  fallback_central : forall r, In r (roots s) -> fallback r = true -> is_central r = true;
  fallback_succeeded : has_fallback s = true -> any is_primary (roots s) = true;
  no_twins : ForallOrdPairs (fun a b => same_root a b = false) (parsed_roots s);
}.

Lemma any_In {A} (p : A -> bool) l : any p l = true <-> exists x, In x l /\ p x = true.
Proof. apply existsb_exists. Qed.

Lemma any_false {A} (p : A -> bool) l : any p l = false <-> forall x, In x l -> p x = false.
Proof.
  split.
  - intros Hf x Hx. destruct (p x) eqn:E; [|done]. exfalso.
    assert (any p l = true) by (apply any_In; eauto). congruence.
  - intros Hf. destruct (any p l) eqn:E; [|done]. apply any_In in E as (x & Hx & Hp).
    rewrite Hf in Hp; done.
Qed.

Lemma ForallOrdPairs_sublist {A} (R : A -> A -> Prop) l k :
  sublist k l -> ForallOrdPairs R l -> ForallOrdPairs R k.
Proof.
  induction 1 as [|x k l Hs IH|x k l Hs IH]; intros Hp; [done| |]; inversion_clear Hp; auto.
  constructor; [|auto]. rewrite Forall_forall in *. eauto using elem_of_sublist.
Qed.

Lemma ForallOrdPairs_snoc {A} (R : A -> A -> Prop) l x :
  ForallOrdPairs R l -> (forall y, In y l -> R y x) -> ForallOrdPairs R (l ++ [x]).
Proof.
  induction 1 as [|y l Hy Hp IH]; intros Hx; simpl; [by repeat constructor|].
  constructor; [|apply IH; auto with datatypes].
  apply Forall_app. split; [done|]. repeat constructor. apply Hx. by left.
Qed.

Lemma omap_sublist {A B} (f : A -> option B) l k : sublist k l -> sublist (omap f k) (omap f l).
Proof. induction 1; simpl; [done| |]; destruct (f x); try constructor; done. Qed.

Definition keep_from (signer : nat) (f : nat -> nat) (l : list StoredRoot.t) : list StoredRoot.t :=
  omap (fun '(index, r) =>
    if negb (is_central r) then Some r
    else if (index =? signer)%nat then Some (r <| fallback := true |>) else None)
    (imap (fun i r => (f i, r)) l).

Lemma keep_from_other signer l : forall f,
  (forall i, (i < length l)%nat -> f i <> signer) ->
  keep_from signer f l = retain (fun r => negb (is_central r)) l.
Proof.
  induction l as [|r l IH]; intros f Hf; [done|].
  specialize (IH (f ∘ S) ltac:(intros i Hi; apply (Hf (S i)); simpl; lia)).
  specialize (Hf 0%nat ltac:(simpl; lia)). apply Nat.eqb_neq in Hf.
  unfold keep_from in *. simpl. destruct (is_central r); simpl; [rewrite Hf|f_equal]; exact IH.
Qed.

(** The signer stays as the fallback, the other Central System roots go. *)
Lemma keep_signer_split l1 r l2 :
  is_central r = true ->
  keep_signer (length l1) (l1 ++ r :: l2) =
  retain (fun r => negb (is_central r)) l1 ++ (r <| fallback := true |>)
    :: retain (fun r => negb (is_central r)) l2.
Proof.
  intros Hr. unfold keep_signer. change (imap pair) with (imap (fun i (r : StoredRoot.t) => (i, r))).
  rewrite imap_app, omap_app. f_equal.
  - apply (keep_from_other (length l1) l1 (fun i => i)). intros. lia.
  - simpl. rewrite Hr. simpl. rewrite Nat.add_0_r, Nat.eqb_refl. f_equal.
    apply (keep_from_other (length l1) l2 (fun i => length l1 + S i)%nat). intros. lia.
Qed.

Lemma primaries_lookup l n :
  In n (primaries l) -> exists r, l !! n = Some r /\ is_primary r = true.
Proof.
  unfold primaries. intros Hin. apply list_elem_of_In, list_elem_of_omap in Hin as ([i r] & Hi & Hp).
  apply list_elem_of_lookup in Hi as [k Hk]. rewrite list_lookup_imap in Hk.
  destruct (l !! k) as [r'|] eqn:E; simplify_eq/=.
  unfold is_primary. destruct (is_central r && negb (fallback r)) eqn:Ep; simplify_eq. eauto.
Qed.

Lemma primaries_nil l : primaries l = [] -> any is_primary l = false.
Proof.
  intros Hn. apply any_false. intros r Hr. apply list_elem_of_In, list_elem_of_lookup in Hr as [k Hk].
  destruct (is_primary r) eqn:Ep; [exfalso|done].
  assert (Hin : In k (primaries l)).
  { unfold primaries. apply list_elem_of_In, list_elem_of_omap. exists (k, r). split.
    - apply list_elem_of_lookup. exists k. by rewrite list_lookup_imap, Hk.
    - simpl. unfold is_primary in Ep. by rewrite Ep. }
  rewrite Hn in Hin. done.
Qed.

(** A new primary root next to what is installed. *)
Lemma install_new (s : t) use text cert l :
  store_ok s -> parse_pem_chain (trim text) = Some [cert] ->
  any (fun '(k, c) => (k == use) && same_hash (root_hash_data c HashAlgorithm.Sha256)
                                     (root_hash_data cert HashAlgorithm.Sha256))
      (parsed_roots s) = false ->
  sublist (omap parsed_root l) (parsed_roots s) ->
  (length (retain fallback l) <= 1)%nat ->
  (forall r, In r l -> fallback r = true -> is_central r = true) ->
  (any fallback l = true -> any is_primary (l ++ [StoredRoot.mk use (trim text) false]) = true) ->
  store_ok (s <| roots := l ++ [StoredRoot.mk use (trim text) false] |>).
Proof.
  intros Hok Hparse Hnew Hsub Hone Hcentral Hsucc. rewrite any_false in Hnew. split.
  - simpl. rewrite List.filter_app, length_app. simpl. lia.
  - intros r Hr. simpl in Hr. apply in_app_iff in Hr as [Hr|[<-|[]]]; [by apply Hcentral|done].
  - intros Hf. apply Hsucc. unfold has_fallback in Hf. simpl in Hf. apply any_In in Hf as (r & Hr & Hf).
    apply in_app_iff in Hr as [Hr|[<-|[]]]; [|done]. apply any_In. eauto.
  - unfold parsed_roots. simpl. rewrite omap_app.
    assert (Hp : parsed_root (StoredRoot.mk use (trim text) false) = Some (use, cert))
      by (unfold parsed_root; simpl; by rewrite Hparse).
    simpl. rewrite Hp. apply ForallOrdPairs_snoc.
    + eapply ForallOrdPairs_sublist; [exact Hsub|apply Hok].
    + intros [k c] Hin. apply (Hnew (k, c)). apply list_elem_of_In in Hin.
      apply list_elem_of_In. eauto using elem_of_sublist.
Qed.

Lemma retain_nc_fallback (s : t) l :
  store_ok s -> (forall r, In r l -> In r (roots s)) ->
  retain fallback (retain (fun r => negb (is_central r)) l) = [].
Proof.
  intros Hok Hl. apply retain_none. intros r Hr. apply retain_In in Hr as [Hr Hc].
  destruct (fallback r) eqn:E; [|done]. apply (fallback_central s Hok) in E; [|auto].
  by rewrite E in Hc.
Qed.

(** The PEM reader skips the text around the blocks. *)
Class PkiLaws : Prop := {
  pem_trim text : pem_slice_iter (trim text) = pem_slice_iter text;
}.

Inductive op : Type :=
| Install (use : CertificateUse.t) (text : str) (now : DateTime) (max_len : Z) (check : bool)
| Delete (wanted : CertificateHashData.t) (keep_last : bool)
| DropFallback.

Definition apply (s : t) (o : op) : t :=
  match o with
  | Install use text now max_len check => (install s use text now max_len check).1
  | Delete wanted keep_last => (delete s wanted keep_last).1
  | DropFallback => (drop_fallback s).1
  end.

Lemma parse_trim {L : PkiLaws} text : parse_pem_chain (trim text) = parse_pem_chain text.
Proof. unfold parse_pem_chain. by rewrite pem_trim. Qed.

Definition twin (s : t) (use : CertificateUse.t) (cert : ParsedCert) : bool :=
  any (fun '(k, c) => (k == use) && same_hash (root_hash_data c HashAlgorithm.Sha256)
                                     (root_hash_data cert HashAlgorithm.Sha256)) (parsed_roots s).

(** A further root. *)
Lemma install_further {L : PkiLaws} s use text cert :
  store_ok s -> parse_pem_chain text = Some [cert] -> twin s use cert = false ->
  store_ok (s <| roots ::= fun l => l ++ [StoredRoot.mk use (trim text) false] |>).
Proof.
  intros Hok Hp Htwin. rewrite <- parse_trim in Hp. pose proof Hok as [H1 H2 H3 H4].
  apply (install_new s use text cert (roots s)); auto.
  intros Hf. rewrite any_In. apply H3, any_In in Hf as (r & Hr & Hrp). exists r.
  split; [apply in_app_iff; by left|done].
Qed.

(** A successor of the root at [signer]. *)
Lemma install_successor {L : PkiLaws} s text cert signer r :
  let use := CertificateUse.CentralSystemRootCertificate in
  let l := keep_signer signer (roots s) in
  store_ok s -> parse_pem_chain text = Some [cert] -> twin s use cert = false ->
  roots s !! signer = Some r -> is_primary r = true ->
  store_ok (s <| roots := l ++ [StoredRoot.mk use (trim text) false] |>) /\
  len l = len (retain (fun r => negb (is_central r)) (roots s)) + 1.
Proof.
  intros use l Hok Hp Htwin Hr Hrp. rewrite <- parse_trim in Hp.
  unfold is_primary in Hrp. apply andb_true_iff in Hrp as [Hc Hf].
  assert (exists l1 l2, roots s = l1 ++ r :: l2 /\ length l1 = signer) as (l1 & l2 & Hsplit & Hlen).
  { exists (take signer (roots s)), (drop (S signer) (roots s)).
    rewrite take_drop_middle by done. split; [done|].
    apply length_take_le. apply lookup_lt_Some in Hr. lia. }
  assert (Hl : l = retain (fun r => negb (is_central r)) l1 ++ (r <| fallback := true |>)
                     :: retain (fun r => negb (is_central r)) l2).
  { subst l. rewrite Hsplit, <- Hlen. by apply keep_signer_split. }
  assert (Hin : forall x, In x l1 \/ In x l2 -> In x (roots s))
    by (intros x Hx; rewrite Hsplit; apply in_app_iff; simpl; naive_solver).
  split.
  - apply (install_new s use text cert l); auto; rewrite Hl.
    + unfold parsed_roots. rewrite Hsplit, !omap_app. simpl.
      apply sublist_app; [apply omap_sublist, retain_sublist|].
      assert (Hpr : parsed_root (StoredRoot.mk (kind r) (pem r) true) = parsed_root r) by done.
      rewrite Hpr. destruct (parsed_root r); [apply sublist_skip|]; apply omap_sublist, retain_sublist.
    + rewrite List.filter_app. simpl. rewrite !(retain_nc_fallback s) by auto. simpl. lia.
    + intros x Hx. apply in_app_iff in Hx as [Hx|[<-|Hx]]; [|done|];
        apply retain_In in Hx as [Hx Hn]; intros Hfx;
        apply (fallback_central s Hok) in Hfx; auto.
    + intros _. rewrite any_In. eexists. split; [apply in_app_iff; right; by left|done].
  - rewrite Hl, Hsplit, List.filter_app. simpl. rewrite Hc. simpl.
    unfold len. rewrite !length_app. simpl. lia.
Qed.

Definition central_count (s : t) : Z := len (retain is_central (roots s)).

Lemma install_ok {L : PkiLaws} s use text now max_len check :
  store_ok s ->
  let s' := (install s use text now max_len check).1 in
  store_ok s' /\ (s' = s \/ len (roots s') <= max_len).
Proof.
  intros Hok. simpl. unfold install. destruct (_ <? _); [by auto|].
  destruct (parse_pem_chain text) as [[|cert [|]]|] eqn:Hp; try by auto.
  destruct (negb _); [by auto|]. fold (twin s use cert).
  destruct (twin s use cert) eqn:Htwin; [by auto|].
  destruct (if check && _ then _ else _) as [|p ps] eqn:Hold.
  - destruct (negb _); [by auto|]. destruct (max_len <=? _) eqn:Hmax; [by auto|]. bool_facts.
    split; [by eapply install_further|]. right. simpl. unfold len in *. rewrite length_app. simpl. lia.
  - rewrite <- Hold. destruct (find_first _ _) as [signer|] eqn:Hfind; [|by auto].
    destruct (max_len <? _) eqn:Hmax; [by auto|]. bool_facts.
    apply find_first_In in Hfind as [Hin _].
    destruct (check && (use == CertificateUse.CentralSystemRootCertificate)) eqn:Hcheck; [|done].
    apply andb_true_iff in Hcheck as [_ Huse]. apply eqb_true in Huse as ->.
    apply primaries_lookup in Hin as (r & Hr & Hrp).
    destruct (install_successor s text cert signer r) as [Hs Hl]; try done.
    split; [exact Hs|]. right. simpl. unfold len in *. rewrite length_app. simpl. lia.
Qed.

Lemma sublist_ok s l :
  store_ok s -> sublist l (roots s) -> (any fallback l = true -> any is_primary l = true) ->
  store_ok (s <| roots := l |>).
Proof.
  intros [H1 H2 H3 H4] Hsub Hsucc. split.
  - simpl. etrans; [|exact H1]. clear -Hsub. induction Hsub; simpl; [done| |];
      destruct (fallback x); simpl; lia.
  - intros r Hr. apply H2. apply list_elem_of_In. apply list_elem_of_In in Hr. eauto using elem_of_sublist.
  - exact Hsucc.
  - simpl. eapply ForallOrdPairs_sublist; [|exact H4]. by apply omap_sublist.
Qed.

Lemma drop_fallback_ok s : store_ok s -> store_ok (drop_fallback s).1.
Proof.
  intros Hok. simpl. apply sublist_ok; [done|apply retain_sublist|].
  intros Hf. apply any_In in Hf as (r & Hr & Hf). apply retain_In in Hr as [_ Hn]. by rewrite Hf in Hn.
Qed.

Lemma parsed_clear l :
  omap parsed_root (map (fun r => r <| fallback := false |>) l) = omap parsed_root l.
Proof.
  apply list_omap_ext. induction l as [|r l IH]; simpl; constructor; done.
Qed.

Lemma clear_fallbacks_ok s l :
  store_ok s -> sublist l (roots s) ->
  store_ok (s <| roots := map (fun r => r <| fallback := false |>) l |>).
Proof.
  intros [H1 H2 H3 H4] Hsub.
  assert (Hn : forall r, In r (map (fun r => r <| fallback := false |>) l) -> fallback r = false)
    by (intros r Hr; by apply in_map_iff in Hr as (r' & <- & _)).
  split.
  - simpl. rewrite retain_none by done. simpl. lia.
  - intros r Hr Hf. by rewrite Hn in Hf.
  - intros Hf. apply any_In in Hf as (r & Hr & Hf). by rewrite Hn in Hf.
  - unfold parsed_roots in *. simpl. rewrite parsed_clear.
    eapply ForallOrdPairs_sublist; [|exact H4]. by apply omap_sublist.
Qed.

Lemma delete_ok s wanted keep_last : store_ok s -> store_ok (delete s wanted keep_last).1.
Proof.
  intros Hok. unfold delete. destruct (position _ _) as [index|]; [|done].
  destruct (_ && _); [done|]. cbn [fst].
  destruct (any _ _) eqn:Hprim; [by apply sublist_ok; auto using remove_at_sublist|].
  apply clear_fallbacks_ok; auto using remove_at_sublist.
Qed.

Lemma remove_at_retain_length {A} (p : A -> bool) n l x :
  l !! n = Some x ->
  length (retain p l) = ((if p x then 1 else 0) + length (retain p (remove_at n l)))%nat.
Proof.
  intros Hn. rewrite remove_at_delete. rewrite <- (take_drop_middle _ _ _ Hn) at 1.
  rewrite delete_take_drop, !List.filter_app, !length_app. simpl. destruct (p x); simpl; lia.
Qed.

Lemma central_clear k :
  retain is_central (map (fun r => r <| fallback := false |>) k) =
  map (fun r => r <| fallback := false |>) (retain is_central k).
Proof.
  induction k as [|r k IH]; [done|]. unfold is_central in *. cbn.
  destruct (kind r == _); cbn; [f_equal|]; exact IH.
Qed.

Lemma delete_keeps_last s wanted :
  Z.min (central_count s) 1 <= central_count (delete s wanted true).1.
Proof.
  unfold delete. destruct (position _ _) as [index|] eqn:Hpos; [|cbn [fst]; lia].
  apply position_Some in Hpos as (x & Hx & _ & _). rewrite Hx. cbn [is_some_and andb].
  destruct (is_central x && _) eqn:Hkeep; cbn [fst]; [lia|].
  set (l := remove_at index (roots s)).
  pose proof (remove_at_retain_length is_central _ _ _ Hx) as Hlen. fold l in Hlen.
  unfold central_count, len in *.
  destruct (any _ _); simpl; rewrite ?central_clear, ?length_map; destruct (is_central x); simpl in *; bool_facts; lia.
Qed.

Lemma central_grows s l :
  central_count s <= central_count (s <| roots ::= fun k => k ++ l |>).
Proof. unfold central_count, len. simpl. rewrite List.filter_app, length_app. lia. Qed.

Lemma install_keeps_last s use text now max_len check :
  Z.min (central_count s) 1 <= central_count (install s use text now max_len check).1.
Proof.
  unfold install. destruct (_ <? _); [cbn; lia|].
  destruct (parse_pem_chain text) as [[|cert [|]]|]; try (cbn; lia).
  destruct (negb _); [cbn; lia|]. destruct (any _ _); [cbn; lia|].
  destruct (if check && _ then _ else _) as [|p ps] eqn:Hold.
  - destruct (negb _); [cbn; lia|]. destruct (max_len <=? _); [cbn; lia|].
    pose proof (central_grows s [StoredRoot.mk use (trim text) false]). cbn [fst]. lia.
  - destruct (find_first _ _) as [signer|]; [|cbn; lia]. destruct (max_len <? _); [cbn; lia|].
    destruct (check && (use == CertificateUse.CentralSystemRootCertificate)) eqn:Hcheck; [|done].
    apply andb_true_iff in Hcheck as [_ Huse]. apply eqb_true in Huse as ->.
    set (new := StoredRoot.mk _ _ _). assert (Hn : retain is_central [new] = [new]) by done.
    cbn [fst]. unfold central_count, len. simpl roots. rewrite List.filter_app, Hn, length_app.
    simpl. lia.
Qed.

(** The primary root that a fallback needs is what dropping the fallback leaves. *)
Lemma drop_fallback_keeps_last s :
  store_ok s -> Z.min (central_count s) 1 <= central_count (drop_fallback s).1.
Proof.
  intros Hok. unfold central_count. simpl. destruct (has_fallback s) eqn:Hf.
  - apply (fallback_succeeded s Hok), any_In in Hf as (r & Hr & Hp).
    unfold is_primary in Hp. apply andb_true_iff in Hp as [Hc Hf].
    set (left := retain is_central _) in |- * at 2.
    assert (Hin : In r left) by (subst left; by rewrite !retain_In).
    clearbody left. destruct left; [done|]. unfold len. cbn [length]. lia.
  - unfold has_fallback in Hf. rewrite any_false in Hf. rewrite (retain_all (fun r => negb (fallback r))); [lia|].
    intros r Hr. by rewrite Hf.
Qed.

(** Every operation but a deletion that does not ask for it. *)
Definition keeps_last (o : op) : Prop := match o with Delete _ false => False | _ => True end.

Lemma apply_keeps_last s o :
  store_ok s -> keeps_last o -> Z.min (central_count s) 1 <= central_count (apply s o).
Proof.
  intros Hok Ho. destruct o as [| wanted []|]; try done;
    [apply install_keeps_last|apply delete_keeps_last|by apply drop_fallback_keeps_last].
Qed.

Lemma operation_ok {L : PkiLaws} s o : store_ok s -> store_ok (apply s o).
Proof. intros Hok. destruct o; [by apply install_ok|by apply delete_ok|by apply drop_fallback_ok]. Qed.

Lemma run_ok {L : PkiLaws} s ops : store_ok s -> store_ok (fold_left apply ops s).
Proof. revert s. induction ops as [|o ops IH]; intros s Hok; [done|]. by apply IH, operation_ok. Qed.

Lemma run_keeps_last {L : PkiLaws} s ops :
  store_ok s -> Forall keeps_last ops ->
  Z.min (central_count s) 1 <= central_count (fold_left apply ops s).
Proof.
  intros Hok Hops. revert s Hok. induction Hops as [|o ops Ho _ IH]; intros s Hok; simpl; [lia|].
  pose proof (apply_keeps_last s o Hok Ho). specialize (IH _ (operation_ok s o Hok)). lia.
Qed.

(** ** The roots of other uses *)

(** The operation is a deletion of this root. *)
Definition names (o : op) (r : StoredRoot.t) : Prop :=
  match o with Delete wanted _ => matches_hash wanted r = true | _ => False end.

Lemma keep_signer_In signer l r : In r l -> is_central r = false -> In r (keep_signer signer l).
Proof.
  intros Hr Hc. apply list_elem_of_In, list_elem_of_lookup in Hr as [k Hk].
  unfold keep_signer. apply list_elem_of_In, list_elem_of_omap. exists (k, r). split.
  - apply list_elem_of_lookup. exists k. by rewrite list_lookup_imap, Hk.
  - simpl. by rewrite Hc.
Qed.

Lemma install_keeps_others s use text now max_len check r :
  In r (roots s) -> is_central r = false ->
  In r (roots (install s use text now max_len check).1).
Proof.
  intros Hr Hc. unfold install. destruct (_ <? _); [done|].
  destruct (parse_pem_chain text) as [[|cert [|]]|]; try done.
  destruct (negb _); [done|]. destruct (any _ _); [done|].
  destruct (if check && _ then _ else _) as [|p ps].
  - destruct (negb _); [done|]. destruct (max_len <=? _); [done|]. simpl.
    apply in_app_iff. by left.
  - destruct (find_first _ _) as [signer|]; [|done]. destruct (max_len <? _); [done|]. simpl.
    apply in_app_iff. left. by apply keep_signer_In.
Qed.

Lemma remove_at_other {A} n (l : list A) x y :
  l !! n = Some x -> In y l -> y <> x -> In y (remove_at n l).
Proof.
  intros Hn Hy Hne. rewrite remove_at_delete, delete_take_drop.
  rewrite <- (take_drop_middle _ _ _ Hn) in Hy. apply in_app_iff.
  apply in_app_iff in Hy as [Hy|[->|Hy]]; auto. done.
Qed.

Lemma delete_keeps_others s wanted keep_last r :
  store_ok s -> In r (roots s) -> is_central r = false -> matches_hash wanted r = false ->
  In r (roots (delete s wanted keep_last).1).
Proof.
  intros Hok Hr Hc Hm. unfold delete. destruct (position _ _) as [index|] eqn:Hpos; [|done].
  apply position_Some in Hpos as (x & Hx & Hmx & _). destruct (_ && _); [done|]. cbn [fst].
  assert (Hin : In r (remove_at index (roots s)))
    by (eapply remove_at_other; [exact Hx|done|congruence]).
  destruct (any _ _); [done|]. simpl. apply in_map_iff. exists r. split; [|done].
  assert (Hf : fallback r = false).
  { destruct (fallback r) eqn:E; [|done]. apply (fallback_central s Hok) in E; congruence. }
  destruct r. simpl in *. by subst.
Qed.

Lemma apply_keeps_others s o r :
  store_ok s -> In r (roots s) -> is_central r = false -> ~ names o r -> In r (roots (apply s o)).
Proof.
  intros Hok Hr Hc Hn. destruct o as [use text now max_len check|wanted keep_last|].
  - by apply install_keeps_others.
  - apply delete_keeps_others; auto. by apply not_true_is_false.
  - simpl. apply retain_In. split; [done|]. destruct (fallback r) eqn:E; [|done].
    apply (fallback_central s Hok) in E; congruence.
Qed.

(** Claim C37: through every sequence of operations the certificate store holds at most one
    fallback root, which is a Central System root with a successor, and no certificate twice
    for the same use. From any state so reached, no later sequence of installations, fallback
    removals and deletions that ask to keep it takes the last Central System root; a root of
    another use goes only with a deletion that names it; and a request only makes the store
    larger within its maximum. *)
Theorem certificate_store_invariant {L : PkiLaws} (s : t) (ops : list op) :
  store_ok s ->
  let s' := fold_left apply ops s in
  store_ok s' /\
  (forall later, Forall keeps_last later ->
     Z.min (central_count s') 1 <= central_count (fold_left apply later s')) /\
  (forall o r, In r (roots s') -> is_central r = false -> ~ names o r ->
     In r (roots (apply s' o))) /\
  (forall use text now max_len check,
     let s'' := (install s' use text now max_len check).1 in
     s'' = s' \/ len (roots s'') <= max_len).
Proof.
  intros Hok s'. pose proof (run_ok s ops Hok : store_ok s') as Hs. split_and!; [done|..].
  - intros later. by apply run_keeps_last.
  - intros o r. by apply apply_keeps_others.
  - intros. by apply install_ok.
Qed.
End pki.

(** A reader that takes every text for one self-signed certificate of its length. *)
Definition sample_pki : Pki := {|
  pem_slice_iter text := [Some [len (trim text)]];
  x509_from_der d := Some (mk_x509 false (lit "CN") d 0 i32_max [1] [1] d d);
  verify_signature _ _ := true;
  digest _ d := d;
  keypair_public_key _ := None;
  KeyPair := unit;
  csr_pem _ _ _ := None;
  keypair_pem _ := [];
|}.

Lemma sample_pki_laws : PkiLaws (P:=sample_pki).
Proof.
  split. intros text. simpl. destruct (trim_trimmed text). by rewrite trim_id.
Qed.

Lemma certificate_store_invariant_witness :
  let use := CertificateUse.CentralSystemRootCertificate in
  let ops := [Install use (lit "A") 0 8 true; Install use (lit "BB") 0 8 true] in
  let s := fold_left (apply (P:=sample_pki) (C:=ns_chrono)) ops default in
  let s' := apply (P:=sample_pki) (C:=ns_chrono) s DropFallback in
  map fallback (roots s) = [true; false] /\ store_ok (P:=sample_pki) s /\
  map fallback (roots s') = [false] /\ 1 <= central_count s'.
Proof.
  set (use := CertificateUse.CentralSystemRootCertificate).
  set (ops := [Install use (lit "A") 0 8 true; Install use (lit "BB") 0 8 true]).
  destruct (certificate_store_invariant (P:=sample_pki) (C:=ns_chrono) (L:=sample_pki_laws)
    default ops) as (Hok & Hlast & _); [split; [simpl; lia|done|done|constructor]|].
  split_and!; [by vm_compute|exact Hok|by vm_compute|].
  specialize (Hlast [DropFallback] ltac:(by repeat constructor)).
  etrans; [|exact Hlast]. by vm_compute.
Defined.
End CertificateStore.
Export (hints) CertificateStore.
