(* ===== verification/Interface.v ===== *)
(** * Interface: what goes in and out of the station actor

    [error.rs], [station/command.rs], [station/event.rs], [ws/mod.rs], [store.rs]: the
    commands of the user, their outcomes and errors, the events of the connection, the data
    that survives a restart, and the messages the station sends. The texts of log lines and
    the payloads of errors of other libraries are not modelled. *)

From stdpp Require Import strings.
From S2P Require Import Prelude Text Time F64 Types Messages SecurityMessages Frame Actions.
From S2P Require Import ResponseRules Config ConfigRegistry LocalAuthList Authorization.
From S2P Require Import Connector Reservation Offline Metering SmartCharging ChargingProfiles.
From S2P Require Import Maintenance Security Certificates.
Local Open Scope Z_scope.

(** Why an outbound CALL did not produce a usable CALLRESULT. *)
Module CallError.
Section json.
Context {J : SerdeJson}.
Inductive t : Type :=
| NotConnected
| NotRegistered (action state : str)
| Closed (code : option Z)
| Timeout (action : str) (after : Duration)
| Rpc (action : str) (code : ErrorCode.t) (description : str) (details : json)
| Schema
| Serialize (action : str)
| Decode (action : str).

(** The link, not the CSMS, stopped the CALL. *)
Definition is_link_failure (e : t) : bool :=
  match e with NotConnected | NotRegistered _ _ | Closed _ => true | _ => false end.
End json.
End CallError.

(** The error a command is answered with. *)
Module StationError.
Inductive t {J : SerdeJson} : Type :=
| Stopped
| NotConnected
| UnknownConnector (id : ConnectorId)
| InvalidState (connector : option ConnectorId) (reason : str)
| InvalidArgument
| Call (e : CallError.t)
| Store
| LocalTransaction
| NotImplemented (command : str).
End StationError.

Module LogLevel.
Inductive t : Type := Info | Success | Warn | Error.
End LogLevel.

Module Origin.
(** Why a message is being sent; decides whether the registration gate lets it through. *)
Inductive t : Type :=
| Station
| Triggered
| Raw.
#[export] Instance eq_dec : EqDecision t.
Proof. solve_decision. Defined.
End Origin.
Export (hints) Origin.

(** Lifecycle of the link to the CSMS. *)
Module ConnectionState.
Inductive t : Type :=
| Disconnected
| Connecting
| Connected
| Backoff (attempt : Z).
#[export] Instance eq_dec : EqDecision t.
Proof. solve_decision. Defined.
End ConnectionState.
Export (hints) ConnectionState.

(** Why a connection attempt failed. *)
Module ConnectError.
Inductive t : Type :=
| InvalidUrl (text : str)
| Tls (text : str)
| TlsFile (path reason : str)
| Network (text : str)
| Handshake (text : str)
| HttpStatus (status : Z) (line : str)
| SubprotocolMismatch (expected : str)
| Timeout.
End ConnectError.

(** Everything a UI, a headless runner or a scenario can ask the station to do. *)
Module Command.
Inductive t {J : SerdeJson} : Type :=
| Connect
| Disconnect
| Reconnect
| Boot
| Heartbeat
| AddConnector
| PlugIn (connector : ConnectorId)
| Unplug (connector : ConnectorId)
| SetConnectorStatus (connector : ConnectorId) (status : ConnectorStatus.t)
| CycleConnectorStatus (connector : ConnectorId)
| StatusNotification (connector : ConnectorId)
| Fault (connector : ConnectorId) (error_code : ChargePointErrorCode.t)
    (info vendor_error_code : option str)
| ClearFault (connector : ConnectorId)
| Authorize (id_tag : IdTag)
| StartTransaction (connector : ConnectorId) (id_tag : IdTag)
| StopTransaction (connector : ConnectorId) (reason : StopReason.t) (id_tag : option IdTag)
| MeterValues (connector : ConnectorId) (wh_delta : Z) (measurands : option (list Measurand.t))
| DataTransfer (vendor_id : str) (message_id data : option str)
| DiagnosticsStatusNotification (status : DiagnosticsStatus.t)
| FirmwareStatusNotification (status : FirmwareStatus.t)
| SetDiagnosticsOutcome (outcome : DiagnosticsOutcome.t)
| SetFirmwareOutcome (outcome : FirmwareOutcome.t)
| SendRaw (action : str) (payload : json) (validate : bool)
| SetResponseRule (rule : ResponseRules.ResponseRule)
| ClearResponseRules (action : option str)
| SetConfiguration (key value : str)
| SetLocalListEntry (id_tag : IdTag) (info : IdTagInfo.t)
| RemoveLocalListEntry (id_tag : IdTag)
| ClearLocalList
| InstallChargingProfile (connector : ConnectorId) (profile : ChargingProfile.t)
| ClearChargingProfiles (id : option Z)
| RequestCertificate
| SendSecurityEvent (event_type : str) (tech_info : option str)
| Shutdown.
(** [Command::name] *)
Definition name {J : SerdeJson} (c : t) : str :=
  match c with
  | Connect => lit "connect"
  | Disconnect => lit "disconnect"
  | Reconnect => lit "reconnect"
  | Boot => lit "boot"
  | Heartbeat => lit "heartbeat"
  | AddConnector => lit "add_connector"
  | PlugIn _ => lit "plug_in"
  | Unplug _ => lit "unplug"
  | SetConnectorStatus _ _ => lit "set_connector_status"
  | CycleConnectorStatus _ => lit "cycle_connector_status"
  | StatusNotification _ => lit "status_notification"
  | Fault _ _ _ _ => lit "fault"
  | ClearFault _ => lit "clear_fault"
  | Authorize _ => lit "authorize"
  | StartTransaction _ _ => lit "start_transaction"
  | StopTransaction _ _ _ => lit "stop_transaction"
  | MeterValues _ _ _ => lit "meter_values"
  | DataTransfer _ _ _ => lit "data_transfer"
  | DiagnosticsStatusNotification _ => lit "diagnostics_status_notification"
  | FirmwareStatusNotification _ => lit "firmware_status_notification"
  | SetDiagnosticsOutcome _ => lit "set_diagnostics_outcome"
  | SetFirmwareOutcome _ => lit "set_firmware_outcome"
  | SendRaw _ _ _ => lit "send_raw"
  | SetResponseRule _ => lit "set_response_rule"
  | ClearResponseRules _ => lit "clear_response_rules"
  | SetConfiguration _ _ => lit "set_configuration"
  | SetLocalListEntry _ _ => lit "set_local_list_entry"
  | RemoveLocalListEntry _ => lit "remove_local_list_entry"
  | ClearLocalList => lit "clear_local_list"
  | InstallChargingProfile _ _ => lit "install_charging_profile"
  | ClearChargingProfiles _ => lit "clear_charging_profiles"
  | RequestCertificate => lit "request_certificate"
  | SendSecurityEvent _ _ => lit "send_security_event"
  | Shutdown => lit "shutdown"
  end.
End Command.

(** What a successfully handled command produced. *)
Module Outcome.
Inductive t {J : SerdeJson} : Type :=
| Done
| ConnectorAdded (connector : ConnectorId)
| Authorized (decision : Authorization.AuthorizationDecision)
| TransactionStarted (connector : ConnectorId) (tx_id : TxId.t)
| TransactionRejected (status : AuthorizationStatus.t)
| Response (payload : json).
End Outcome.

(** The typed requests the station sends. *)
Module Request.
Inductive t : Type :=
| Authorize (r : AuthorizeRequest.t)
| BootNotification (r : BootNotificationRequest.t)
| DataTransfer (r : DataTransferRequest.t)
| DiagnosticsStatusNotification (r : DiagnosticsStatusNotificationRequest.t)
| FirmwareStatusNotification (r : FirmwareStatusNotificationRequest.t)
| Heartbeat
| LogStatusNotification (r : LogStatusNotificationRequest.t)
| MeterValues (r : MeterValuesRequest.t)
| SecurityEventNotification (r : SecurityEventNotificationRequest.t)
| SignCertificate (r : SignCertificateRequest.t)
| SignedFirmwareStatusNotification (r : SignedFirmwareStatusNotificationRequest.t)
| StartTransaction (r : StartTransactionRequest.t)
| StatusNotification (r : StatusNotificationRequest.t)
| StopTransaction (r : StopTransactionRequest.t).

(** [A::NAME] *)
Definition name (r : t) : str :=
  match r with
  | Authorize _ => Actions.Authorize
  | BootNotification _ => Actions.BootNotification
  | DataTransfer _ => Actions.DataTransfer
  | DiagnosticsStatusNotification _ => Actions.DiagnosticsStatusNotification
  | FirmwareStatusNotification _ => Actions.FirmwareStatusNotification
  | Heartbeat => Actions.Heartbeat
  | LogStatusNotification _ => Actions.LogStatusNotification
  | MeterValues _ => Actions.MeterValues
  | SecurityEventNotification _ => Actions.SecurityEventNotification
  | SignCertificate _ => Actions.SignCertificate
  | SignedFirmwareStatusNotification _ => Actions.SignedFirmwareStatusNotification
  | StartTransaction _ => Actions.StartTransaction
  | StatusNotification _ => Actions.StatusNotification
  | StopTransaction _ => Actions.StopTransaction
  end.
End Request.

(** The serde implementations the compiler derives for the message types. *)
Class Wire {J : SerdeJson} : Type := {
  (** [serde_json::to_value(request).ok()] *)
  to_value : Request.t -> option json;
  (** [serde_json::from_value::<A::Res>(v).ok()] *)
  authorize_conf : json -> option AuthorizeResponse.t;
  boot_conf : json -> option BootNotificationResponse.t;
  start_conf : json -> option StartTransactionResponse.t;
  sign_conf : json -> option SignCertificateResponse.t;
  (** whether the response type of the named action decodes, for the responses that are not
      looked at, and its value written back ([to_value(&response).unwrap_or(Null)]) *)
  conf_decodes : str -> json -> bool;
  conf_value : str -> json -> json;
}.

(** The responses of the station to the CALLs of the CSMS. *)
Module Response.
Inductive t : Type :=
| CancelReservation (r : CancelReservationResponse.t)
| CertificateSigned (r : CertificateSignedResponse.t)
| ChangeAvailability (r : ChangeAvailabilityResponse.t)
| ChangeConfiguration (r : ChangeConfigurationResponse.t)
| ClearCache (r : ClearCacheResponse.t)
| ClearChargingProfile (r : ClearChargingProfileResponse.t)
| DataTransfer (r : DataTransferResponse.t)
| DeleteCertificate (r : DeleteCertificateResponse.t)
| ExtendedTriggerMessage (r : ExtendedTriggerMessageResponse.t)
| GetCompositeSchedule (r : GetCompositeScheduleResponse.t)
| GetConfiguration (r : GetConfigurationResponse.t)
| GetDiagnostics (r : GetDiagnosticsResponse.t)
| GetInstalledCertificateIds (r : GetInstalledCertificateIdsResponse.t)
| GetLocalListVersion (r : GetLocalListVersionResponse.t)
| GetLog (r : GetLogResponse.t)
| InstallCertificate (r : InstallCertificateResponse.t)
| RemoteStartTransaction (r : RemoteStartTransactionResponse.t)
| RemoteStopTransaction (r : RemoteStopTransactionResponse.t)
| ReserveNow (r : ReserveNowResponse.t)
| Reset (r : ResetResponse.t)
| SendLocalList (r : SendLocalListResponse.t)
| SetChargingProfile (r : SetChargingProfileResponse.t)
| SignedUpdateFirmware (r : SignedUpdateFirmwareResponse.t)
| TriggerMessage (r : TriggerMessageResponse.t)
| UnlockConnector (r : UnlockConnectorResponse.t)
| UpdateFirmware.
End Response.

(** The right to answer one CALL of the CSMS ([ocpp/responder.rs]): a name for the handle, and
    how long its reply is held back. *)
Module ReplyHandle.
Record t : Type := mk { handle : Z; held_back : Duration }.
#[export] Instance eta : Eta t := fun h => mk (handle h) (held_back h).
End ReplyHandle.
Export (hints) ReplyHandle.

Module Answer.
Inductive t {J : SerdeJson} : Type :=
| Accept (r : Response.t)
| AcceptValue (v : json)
| Reject (code : ErrorCode.t)
| Abandoned.
End Answer.

(** How a connection is opened. *)
Module ConnectOptions.
Record t : Type := mk {
  ping_interval : option Duration;
  call_timeout : Duration;
  serialize_calls : bool;
  show_secrets : bool;
}.
End ConnectOptions.
