(* ===== verification/Store.v ===== *)
(** * Store: what survives a restart

    [store.rs]: the records of the state file and of the secrets file. Reading and writing
    the files is not modelled. *)

From stdpp Require Import strings.
From S2P Require Import Prelude Text Time F64 Types Messages SecurityMessages Config.
From S2P Require Import ConfigRegistry LocalAuthList Authorization Connector Offline.
From S2P Require Import SmartCharging ChargingProfiles Security Certificates.
Local Open Scope Z_scope.

Definition STORE_VERSION : Z := 7.

(** Persisted part of a connector. *)
Module PersistedConnector.
Record t : Type := mk {
  id : ConnectorId;
  status : ConnectorStatus.t;
  availability : AvailabilityType.t;
  pending_availability : option AvailabilityType.t;
  ev_connected : bool;
  meter_wh : Z;
  last_id_tag : option IdTag;
  reservation : option Reservation.t;
  transaction : TransactionState.t;
}.
End PersistedConnector.

Module PersistedStation.
Record t : Type := mk {
  version : Z;
  charge_point_id : str;
  charge_point_availability : AvailabilityType.t;
  connector_count : Z;
  connectors : list PersistedConnector.t;
  local_authorization_list : LocalAuthList.t;
  authorization_cache : Authorization.AuthorizationCache;
  charging_profiles : ChargingProfileStore.t;
  offline_queue : OfflineQueue.t;
  configuration : ConfigRegistry.ConfigSnapshot;
  certificates : CertificateStore.t;
  security_events : list Security.PendingSecurityEvent;
}.
End PersistedStation.

(** Secrets of one charge point, kept out of the main state file. *)
Module StationSecrets.
Record t : Type := mk {
  authorization_key : option str;
  charge_point_key_pem : option str;
  pending_key_pem : option str;
  previous_charge_point_key_pem : option str;
}.
#[export] Instance eta : Eta t := fun s =>
  mk (authorization_key s) (charge_point_key_pem s) (pending_key_pem s)
     (previous_charge_point_key_pem s).

Definition default : t := mk None None None None.
End StationSecrets.
Export (hints) StationSecrets.
