(* ===== verification/Actor.v ===== *)
(** * Actor: the state of the station actor and its basic operations

    [station/actor.rs] with the actor parts of [persistence.rs] and [power.rs]: the state that
    the single task of the station owns. An operation of the actor is a function from the state
    to the next state; what it hands to other tasks (CALLs, replies, writes, log lines) is
    appended to the [outbox], newest first. A continuation of the source is a closure; here it
    is data ([Continuation], [Done]) that [run_continuation] of [Link.v] runs.

    An iteration of the loop is taken to run in an instant: the wall clock ([clock_utc]) and the
    clock of the timers stand still while a handler runs and move only between iterations. The
    read-model views of the snapshot and its publication are not modelled. *)

From stdpp Require Import strings gmap.
From S2P Require Import Prelude Text F64 Time Types Messages SecurityMessages Frame Actions.
From S2P Require Import ResponseRules Config ConfigRegistry LocalAuthList Authorization.
From S2P Require Import Connector Reservation Offline Timers Metering SmartCharging.
From S2P Require Import ChargingProfiles Maintenance Security Certificates Interface Store.
Local Open Scope Z_scope.

(** Names of the timers the actor uses. *)
Module TimerKey.
Inductive t : Type :=
| Heartbeat
| Reconnect
| BootRetry
| StatusDebounce (c : ConnectorId)
| PersistFlush
| MeterPeriodic (c : ConnectorId)
| MeterAligned
| ReservationExpiry (c : ConnectorId)
| Diagnostics
| Firmware
| LogUpload
| SignedFirmware
| HardReset
| SyncRetry
| CertSigning.
#[export] Instance eq_dec : EqDecision t.
Proof. solve_decision. Defined.

Definition encode_key (k : t) : Z * Z :=
  match k with
  | Heartbeat => (0, 0) | Reconnect => (1, 0) | BootRetry => (2, 0) | StatusDebounce c => (3, c)
  | PersistFlush => (4, 0) | MeterPeriodic c => (5, c) | MeterAligned => (6, 0)
  | ReservationExpiry c => (7, c) | Diagnostics => (8, 0) | Firmware => (9, 0)
  | LogUpload => (10, 0) | SignedFirmware => (11, 0) | HardReset => (12, 0)
  | SyncRetry => (13, 0) | CertSigning => (14, 0)
  end.
Definition decode_key (p : Z * Z) : t :=
  match p with
  | (0, _) => Heartbeat | (1, _) => Reconnect | (2, _) => BootRetry | (3, c) => StatusDebounce c
  | (4, _) => PersistFlush | (5, c) => MeterPeriodic c | (6, _) => MeterAligned
  | (7, c) => ReservationExpiry c | (8, _) => Diagnostics | (9, _) => Firmware
  | (10, _) => LogUpload | (11, _) => SignedFirmware | (12, _) => HardReset
  | (13, _) => SyncRetry | _ => CertSigning
  end.
#[export] Instance countable : Countable t.
Proof. refine (inj_countable' encode_key decode_key _). by intros []. Defined.
End TimerKey.
Export (hints) TimerKey.

(** The live model of the station, less the fields that are derived for user interfaces. *)
Module Snapshot.
Record t : Type := mk {
  connection : ConnectionState.t;
  registration : option RegistrationStatus.t;
  heartbeat_interval_secs : Z;
  last_heartbeat_at : option DateTime;
  availability : AvailabilityType.t;
  charge_point : ConnectorSnapshot.t;
  diagnostics_status : DiagnosticsStatus.t;
  firmware_status : FirmwareStatus.t;
  log_status : UploadLogStatus.t;
  signed_firmware_status : SignedFirmwareStatus.t;
  signed_firmware_request_id : option Z;
  log_request_id : option Z;
  diagnostics_outcome : DiagnosticsOutcome.t;
  firmware_outcome : FirmwareOutcome.t;
  response_rules : list ResponseRules.ResponseRule;
  connectors : list ConnectorSnapshot.t;
}.
#[export] Instance eta : Eta t := fun r =>
  mk (connection r) (registration r) (heartbeat_interval_secs r) (last_heartbeat_at r)
    (availability r) (charge_point r) (diagnostics_status r) (firmware_status r)
    (log_status r) (signed_firmware_status r) (signed_firmware_request_id r)
    (log_request_id r) (diagnostics_outcome r) (firmware_outcome r) (response_rules r)
    (connectors r).
End Snapshot.
Export (hints) Snapshot.

(** The connection to the CSMS and everything about keeping it. *)
Module Link.
Record t : Type := mk {
  conn : bool;
  events : bool;
  generation : Z;
  connecting : bool;
  wanted : bool;
  attempts : Z;
  boot_in_flight : bool;
}.
#[export] Instance eta : Eta t := fun r =>
  mk (conn r) (events r) (generation r) (connecting r) (wanted r) (attempts r)
    (boot_in_flight r).
End Link.
Export (hints) Link.

(** The state of the writer of the state file; [store]: there is one. *)
Module Persistence.
Record t : Type := mk {
  store : bool;
  dirty : bool;
  in_flight : bool;
  queued : bool;
  secrets_dirty : bool;
}.
#[export] Instance eta : Eta t := fun r =>
  mk (store r) (dirty r) (in_flight r) (queued r) (secrets_dirty r).
End Persistence.
Export (hints) Persistence.

(** Per-connector integration state. *)
Module MeterRuntime.
Record t : Type := mk {
  last : DateTime;
  last_utc : DateTime;
  charging : bool;
  pending_wh : f64;
  carry_wh : f64;
  sample_base_wh : f64;
}.
#[export] Instance eta : Eta t := fun r =>
  mk (last r) (last_utc r) (charging r) (pending_wh r) (carry_wh r) (sample_base_wh r).
End MeterRuntime.
Export (hints) MeterRuntime.

(** The [SignCertificate] back-off series that a certificate request starts. *)
Module SignSeries.
Record t : Type := mk {
  id : Z;
  csr : str;
  key : str;
  repeats : Z;
}.
#[export] Instance eta : Eta t := fun r =>
  mk (id r) (csr r) (key r) (repeats r).
End SignSeries.
Export (hints) SignSeries.

(** Which stored charge point certificate a connection attempt presents. *)
Inductive StoredIdentity : Type :=
| NoIdentity
| CurrentIdentity
| PreviousIdentity.
#[export] Instance identity_eq_dec : EqDecision StoredIdentity.
Proof. solve_decision. Defined.

(** ** Continuations *)

(** The name of a command's reply channel. *)
Abbreviation Reply := Z.

(** The completion of a start or a stop that may span a CSMS round trip. *)
Inductive Done : Type :=
(** [reply_to(reply)], [ignore()] *)
| ReplyTo (r : Reply)
| Ignore
(** the closure of [begin_remote_start] *)
| InstallRemoteProfile (id : ConnectorId) (profile : option ChargingProfile.t).

(** The completion of an authorization. *)
Inductive AuthDone : Type :=
| AuthorizeReply (r : Reply)
(** the closure of [remote_start] *)
| RemoteAuthorized (h : ReplyHandle.t) (id : ConnectorId) (id_tag : IdTag)
    (profile : option ChargingProfile.t).

(** What runs when a CALL has been answered or failed: the closures the source passes to
    [call] and [call_raw], with the variables they capture. *)
Inductive Continuation : Type :=
(** [|_, _| {}] *)
| NoOp
(** [user_call], [send_raw] *)
| UserCall (r : Reply)
| RawCall (r : Reply)
(** [send_boot], [send_heartbeat] *)
| BootDone (generation : Z) (r : option Reply)
| HeartbeatDone (r : option Reply)
(** [dispatch_status] *)
| StatusSent (id : ConnectorId) (key : StatusKey.t) (r : option Reply)
(** [authorize], [start_transaction], [stop_transaction] *)
| AuthorizeDone (id_tag : IdTag) (done : AuthDone)
| StartDone (id : ConnectorId) (local : TxId.t) (pending : PendingStart.t) (done : Done)
| StopDone (id : ConnectorId) (tx : TxId.t) (tag : IdTag) (started_at : DateTime)
    (meter_start_wh : Z) (info : StopInfo.t) (done : Done)
(** [sync_entry], [sync_stop] *)
| SyncStart (key : Z)
| SyncStop (key : Z)
(** [sample_meter] *)
| SampleDone (id : ConnectorId) (r : option Reply)
(** [flush_security_events], [send_sign_certificate] *)
| SecurityEventSent (event : Security.PendingSecurityEvent)
| SignDone (id : Z) (key : str) (previous : option str) (r : option Reply).

(** A CALL that has been handed to the connection and not completed yet. *)
Record PendingCall : Type := mk_call { action : str; continuation : Continuation }.

Module Actor.
Section actor.
Context {J : SerdeJson} {P : Pki}.

(** The task [call_raw] spawns. *)
Record OutCall : Type := mk_out {
  token : Z;
  out_generation : Z;
  origin : Origin.t;
  out_action : str;
  payload : json;
  validate : bool;
  max_attempts : Z;
  interval : Duration;
  timeout : Duration;
}.

Inductive Effect : Type :=
| Sent (c : OutCall)
(** a task is aborted *)
| Aborted (token : Z)
| Replied (r : Reply) (answer : result Outcome.t StationError.t)
| Answered (h : ReplyHandle.t) (a : Answer.t)
| Opening (generation : Z) (config : StationConfig.t) (options : ConnectOptions.t)
| OpeningAborted
| Closing
| Saving (data : PersistedStation.t) (secrets : option StationSecrets.t)
| Logged (level : LogLevel.t).

Record t : Type := mk {
  config : StationConfig.t;
  clock_utc : DateTime;
  state : Snapshot.t;
  registry : ConfigRegistry.t;
  local_list : LocalAuthList.t;
  auth_cache : Authorization.AuthorizationCache;
  profiles : ChargingProfileStore.t;
  queue : OfflineQueue.t;
  certs : CertificateStore.t;
  secrets : StationSecrets.t;
  security_events : list Security.PendingSecurityEvent;
  use_fallback_root : bool;
  failure_series : list str;
  use_previous_cert : bool;
  connect_identity : StoredIdentity;
  sign_series : option SignSeries.t;
  next_sign_series : Z;
  startup_event_pending : bool;
  next_local : Z;
  invalid_limits : gmap ConnectorId Z;
  meters : gmap ConnectorId MeterRuntime.t;
  sync_outstanding : Z;
  sync_keys : list Z;
  sync_boot : bool;
  sync_failed : bool;
  sync_failures : gmap Z Z;
  reset_retries : option Z;
  hard_reset_deadline : option DateTime;
  diagnostics_plan : list (Duration * Maintenance.Step);
  firmware_plan : list (Duration * Maintenance.Step);
  log_upload : list (Duration * UploadLogStatus.t);
  log_request_id : option Z;
  signed_fw : list (Duration * SignedFirmwareStatus.t);
  signed_fw_request_id : option Z;
  last_firmware_signed : bool;
  timers : TimerWheel.t (K:=TimerKey.t);
  link : Link.t;
  calls : gmap Z PendingCall;
  next_call_token : Z;
  sample_calls : list Z;
  sample_overflow_warned : bool;
  trackers : gmap ConnectorId StatusTracker.t;
  persistence : Persistence.t;
  clock_offset : option TimeDelta;
  fresh_keys : list (option KeyPair);
  outbox : list Effect;
}.
#[export] Instance eta : Eta t := fun a =>
  mk (config a) (clock_utc a) (state a) (registry a) (local_list a) (auth_cache a)
    (profiles a) (queue a) (certs a) (secrets a) (security_events a) (use_fallback_root a)
    (failure_series a) (use_previous_cert a) (connect_identity a) (sign_series a)
    (next_sign_series a) (startup_event_pending a) (next_local a) (invalid_limits a)
    (meters a) (sync_outstanding a) (sync_keys a) (sync_boot a) (sync_failed a)
    (sync_failures a) (reset_retries a) (hard_reset_deadline a) (diagnostics_plan a)
    (firmware_plan a) (log_upload a) (log_request_id a) (signed_fw a)
    (signed_fw_request_id a) (last_firmware_signed a) (timers a) (link a) (calls a)
    (next_call_token a) (sample_calls a) (sample_overflow_warned a) (trackers a)
    (persistence a) (clock_offset a) (fresh_keys a) (outbox a).

(** ** Basic operations *)

Definition emit (a : t) (e : Effect) : t := a <| outbox ::= cons e |>.
Definition log (a : t) (level : LogLevel.t) : t := emit a (Logged level).
(** [reply.send(answer)] *)
Definition send_reply (a : t) (r : Reply) (answer : result Outcome.t StationError.t) : t :=
  emit a (Replied r answer).
Definition send_reply_opt (a : t) (r : option Reply) (answer : result Outcome.t StationError.t) : t :=
  match r with Some r => send_reply a r answer | None => a end.
(** [respond], [respond_error]; the transport takes every reply *)
Definition respond (a : t) (h : ReplyHandle.t) (r : Response.t) : t := emit a (Answered h (Answer.Accept r)).
Definition respond_error (a : t) (h : ReplyHandle.t) (code : ErrorCode.t) : t :=
  emit a (Answered h (Answer.Reject code)).

Definition now_utc (a : t) : DateTime := clock_utc a.
(** [tokio::time::Instant::now()] *)
Definition instant (a : t) : DateTime := TimerWheel.clock (timers a).

Definition timer_set (a : t) (k : TimerKey.t) (d : Duration) : t :=
  a <| timers ::= fun w => TimerWheel.set w k d |>.
Definition timer_set_if_idle (a : t) (k : TimerKey.t) (d : Duration) : t :=
  a <| timers ::= fun w => (TimerWheel.set_if_idle w k d).1 |>.
Definition timer_cancel (a : t) (k : TimerKey.t) : t :=
  a <| timers ::= fun w => (TimerWheel.cancel w k).1 |>.
Definition timer_cancel_where (a : t) (p : TimerKey.t -> bool) : t :=
  a <| timers ::= fun w => TimerWheel.cancel_where w p |>.

Definition connectors (a : t) : list ConnectorSnapshot.t := Snapshot.connectors (state a).
Definition connector_ids (a : t) : list ConnectorId := map ConnectorSnapshot.id (connectors a).
Definition registration (a : t) : option RegistrationStatus.t := Snapshot.registration (state a).
Definition connected (a : t) : bool := Link.conn (link a).

Definition set_registration (a : t) (r : option RegistrationStatus.t) : t :=
  a <| state ::= fun s => s <| Snapshot.registration := r |> |>.
Definition set_connection (a : t) (c : ConnectionState.t) : t :=
  a <| state ::= fun s => s <| Snapshot.connection := c |> |>.
Definition set_connectors (a : t) (l : list ConnectorSnapshot.t) : t :=
  a <| state ::= fun s => s <| Snapshot.connectors := l |> |>.

(** A connector by id; [0] is the charge point. *)
Definition find_connector (a : t) (id : ConnectorId) : option ConnectorSnapshot.t :=
  if is_station id then Some (Snapshot.charge_point (state a))
  else find_first (fun c => ConnectorSnapshot.id c =? id) (connectors a).

(** An assignment through [find_connector_mut]. *)
Definition modify_connector (a : t) (id : ConnectorId)
    (f : ConnectorSnapshot.t -> ConnectorSnapshot.t) : t :=
  if is_station id then a <| state ::= fun s => s <| Snapshot.charge_point ::= f |> |>
  else set_connectors a (update_first (fun c => ConnectorSnapshot.id c =? id) f (connectors a)).

(** A physical connector ([1..=n]). *)
Definition connector (a : t) (id : ConnectorId) : option ConnectorSnapshot.t :=
  if is_station id then None else find_connector a id.

Definition transaction_of (a : t) (id : ConnectorId) : TransactionState.t :=
  match find_connector a id with
  | Some c => ConnectorSnapshot.transaction c
  | None => TransactionState.Idle
  end.

(** ** Persistence ([persistence.rs]) *)

Definition FLUSH_DELAY : Duration := 200 * NS_PER_MS.

Definition mark_dirty (a : t) : t :=
  if Persistence.store (persistence a)
  then timer_set_if_idle (a <| persistence ::= fun p => p <| Persistence.dirty := true |> |>)
         TimerKey.PersistFlush FLUSH_DELAY
  else a.

Definition mark_secrets_dirty (a : t) : t :=
  mark_dirty (a <| persistence ::= fun p => p <| Persistence.secrets_dirty := true |> |>).

Definition persisted_connector (c : ConnectorSnapshot.t) : PersistedConnector.t := {|
  PersistedConnector.id := ConnectorSnapshot.id c;
  PersistedConnector.status := ConnectorSnapshot.status c;
  PersistedConnector.availability := ConnectorSnapshot.availability c;
  PersistedConnector.pending_availability := ConnectorSnapshot.pending_availability c;
  PersistedConnector.ev_connected := ConnectorSnapshot.ev_connected c;
  PersistedConnector.meter_wh := ConnectorSnapshot.meter_wh c;
  PersistedConnector.last_id_tag := ConnectorSnapshot.last_id_tag c;
  PersistedConnector.reservation := ConnectorSnapshot.reservation c;
  PersistedConnector.transaction := ConnectorSnapshot.transaction c;
|}.

Definition build_persisted (a : t) : PersistedStation.t := {|
  PersistedStation.version := STORE_VERSION;
  PersistedStation.charge_point_id := StationConfig.charge_point_id (config a);
  PersistedStation.charge_point_availability :=
    ConnectorSnapshot.availability (Snapshot.charge_point (state a));
  PersistedStation.connector_count :=
    from_option id u32_max (try_into 0 u32_max (len (connectors a)));
  PersistedStation.connectors := map persisted_connector (connectors a);
  PersistedStation.local_authorization_list := local_list a;
  PersistedStation.authorization_cache := auth_cache a;
  PersistedStation.charging_profiles := profiles a;
  PersistedStation.offline_queue := queue a;
  PersistedStation.configuration := ConfigRegistry.snapshot (registry a);
  PersistedStation.certificates := certs a;
  PersistedStation.security_events := security_events a;
|}.

(** ** Energy ([power.rs]) *)

Section power.
Context {C : Chrono}.

Definition transaction_context (x : TransactionState.t) : option TxId.t * option DateTime :=
  match x with
  | TransactionState.Active a =>
      (Some (ActiveTransaction.tx_id a), Some (ActiveTransaction.started_at a))
  | TransactionState.PendingStart p =>
      (Some (PendingStart.tx_id p), Some (PendingStart.started_at p))
  | _ => (None, None)
  end.

Definition power_model (a : t) : PowerModel.t := PowerModel.from_config (config a).

Definition is_charging (c : ConnectorSnapshot.t) : bool :=
  ConnectorSnapshot.status c == ConnectorStatus.Charging.

Definition charging_connectors (a : t) : Z :=
  from_option id u32_max (try_into 0 u32_max (len (retain is_charging (connectors a)))).

Definition power_request (a : t) (id : ConnectorId) : PowerRequest.t :=
  let '(active_tx, tx_started_at) := transaction_context (transaction_of a id) in
  {| PowerRequest.connector := id;
     PowerRequest.active_tx := active_tx;
     PowerRequest.tx_started_at := tx_started_at;
     PowerRequest.model := power_model a;
     PowerRequest.charging_connectors := charging_connectors a |}.

Definition wh_f64 (wh : Z) : f64 := f_of_Z wh.
Definition floor_u64 (x : f64) : Z := f_to_int 0 u64_max x.

Definition register_of (a : t) (id : ConnectorId) : f64 :=
  match find_connector a id with
  | Some c => wh_f64 (ConnectorSnapshot.meter_wh c)
  | None => f_zero
  end.

(** The energy a connector charged since [r] was recorded. *)
Definition integrate (a : t) (id : ConnectorId) (r : MeterRuntime.t) : MeterRuntime.t :=
  let elapsed := Z.max (instant a - MeterRuntime.last r) 0 in
  if MeterRuntime.charging r && negb (elapsed =? 0) then
    let from := MeterRuntime.last_utc r in
    let to := from_option (fun x => x) from (td_from_std elapsed ≫= checked_add_signed from) in
    r <| MeterRuntime.pending_wh ::= fun w =>
           f_add w (SmartCharging.energy_wh (profiles a) (power_request a id) from to) |>
  else r.

Definition settle_meter (a : t) (c : ConnectorId * bool) : t :=
  let '(id, charging) := c in
  let register := register_of a id in
  match meters a !! id with
  | None =>
      a <| meters ::= <[id := MeterRuntime.mk (instant a) (now_utc a) charging f_zero f_zero register]> |>
  | Some r =>
      let r := integrate a id r in
      let r := if charging && negb (MeterRuntime.charging r)
               then r <| MeterRuntime.sample_base_wh :=
                      f_add (f_add register (MeterRuntime.carry_wh r)) (MeterRuntime.pending_wh r) |>
               else r in
      a <| meters ::= <[id := r <| MeterRuntime.last := instant a |>
                               <| MeterRuntime.last_utc := now_utc a |>
                               <| MeterRuntime.charging := charging |>]> |>
  end.

Definition settle_meters (a : t) : t :=
  fold_left settle_meter (map (fun c => (ConnectorSnapshot.id c, is_charging c)) (connectors a)) a.

(** One pass of the loop of [flush_meters]. *)
Definition flush_meter (ms : gmap ConnectorId MeterRuntime.t) (c : ConnectorSnapshot.t)
  : gmap ConnectorId MeterRuntime.t * ConnectorSnapshot.t * bool :=
  match ms !! ConnectorSnapshot.id c with
  | None => (ms, c, false)
  | Some r =>
      if f_leb (MeterRuntime.pending_wh r) f_zero then (ms, c, false)
      else
        let total := f_add (MeterRuntime.carry_wh r) (MeterRuntime.pending_wh r) in
        let whole := f_floor total in
        let r := r <| MeterRuntime.pending_wh := f_zero |>
                   <| MeterRuntime.carry_wh := f_sub total whole |> in
        let ms := <[ConnectorSnapshot.id c := r]> ms in
        if f_geb whole (f_of_Z 1)
        then (ms, c <| ConnectorSnapshot.meter_wh ::= fun wh => u64_saturating_add wh (floor_u64 whole) |>,
              true)
        else (ms, c, false)
  end.

Fixpoint flush_list (ms : gmap ConnectorId MeterRuntime.t) (l : list ConnectorSnapshot.t)
  : gmap ConnectorId MeterRuntime.t * list ConnectorSnapshot.t * bool :=
  match l with
  | [] => (ms, [], false)
  | c :: l =>
      let '(ms, c, changed) := flush_meter ms c in
      let '(ms, l, changed') := flush_list ms l in
      (ms, c :: l, changed || changed')
  end.

Definition flush_meters (a : t) : t :=
  let a := settle_meters a in
  let '(ms, l, changed) := flush_list (meters a) (connectors a) in
  let a := set_connectors (a <| meters := ms |>) l in
  if changed then mark_dirty a else a.

(** One pass of the loop of [meter_reading]. *)
Definition add_reading (advance_interval : bool) (acc : t * MeterReading.t) (id : ConnectorId)
  : t * MeterReading.t :=
  let '(a, reading) := acc in
  match find_connector a id with
  | None => (a, reading)
  | Some c =>
      let register := wh_f64 (ConnectorSnapshot.meter_wh c) in
      let charging := is_charging c in
      let offered := PowerModel.effective_w (power_model a)
                       (SmartCharging.limit_w_at (profiles a) (power_request a id) (now_utc a)) in
      let base := match meters a !! id with
                  | Some r => MeterRuntime.sample_base_wh r
                  | None => register
                  end in
      let reading := {|
        MeterReading.energy_wh := f_add (MeterReading.energy_wh reading) register;
        MeterReading.charging := MeterReading.charging reading || charging;
        MeterReading.offered_w := f_add (MeterReading.offered_w reading) offered;
        MeterReading.power_w := if charging then f_add (MeterReading.power_w reading) offered
                                else MeterReading.power_w reading;
        MeterReading.interval_wh := f_add (MeterReading.interval_wh reading)
                                      (f_max (f_sub register base) f_zero) |} in
      let a := if advance_interval
               then match meters a !! id with
                    | Some r => a <| meters ::= <[id := r <| MeterRuntime.sample_base_wh := register |>]> |>
                    | None => a
                    end
               else a in
      (a, reading)
  end.

Definition meter_reading (a : t) (id : ConnectorId) (advance_interval : bool)
  : t * MeterReading.t :=
  let a := flush_meters a in
  let ids := if is_station id then connector_ids a else [id] in
  fold_left (add_reading advance_interval) ids
    (a, MeterReading.mk f_zero false f_zero f_zero f_zero).

(** ** Writing the state ([persistence.rs]) *)

Definition flush_persistence (a : t) : t :=
  let a := flush_meters a in
  let p := persistence a in
  if negb (Persistence.store p) then a
  else if negb (Persistence.dirty p) then a
  else if Persistence.in_flight p
  then a <| persistence := p <| Persistence.queued := true |> |>
  else
    let a := a <| persistence := p <| Persistence.dirty := false |>
                                   <| Persistence.secrets_dirty := false |>
                                   <| Persistence.in_flight := true |> |> in
    emit a (Saving (build_persisted a)
                   (if Persistence.secrets_dirty p then Some (secrets a) else None)).

Definition flush_now (a : t) : t :=
  flush_persistence (timer_cancel (mark_dirty a) TimerKey.PersistFlush).

Definition on_saved (a : t) (ok : bool) : t :=
  let a := a <| persistence ::= fun p => p <| Persistence.in_flight := false |> |> in
  let a := if ok then a
           else log (a <| persistence ::= fun p => p <| Persistence.dirty := true |>
                                                    <| Persistence.secrets_dirty := true |> |>)
                  LogLevel.Error in
  if Persistence.queued (persistence a)
  then flush_persistence (a <| persistence ::= fun p => p <| Persistence.queued := false |> |>)
  else a.
End power.
End actor.
End Actor.
