(* ===== verification/Calls.v ===== *)
(** * Calls: outbound CALLs and the operations whose continuations start no further work

    [station/calls.rs], the actor part of [station/status.rs], the timers of
    [station/sampling.rs], the security events of [station/secure.rs] and the reports of
    [station/handlers/maintenance.rs].

    [call_raw] runs the continuation at once when the message cannot be sent; a caller passes
    what its continuation does with an error ([fail]) next to the continuation it leaves for
    later. [Link.v] runs the continuations that are answered. *)

From stdpp Require Import strings gmap.
From S2P Require Import Prelude Text F64 Time Types Messages SecurityMessages Frame Actions.
From S2P Require Import ResponseRules Config ConfigRegistry LocalAuthList Authorization.
From S2P Require Import Connector Reservation Offline Timers Metering SmartCharging.
From S2P Require Import ChargingProfiles Maintenance Security Certificates Interface Store.
From S2P Require Import Actor.
Local Open Scope Z_scope.

Module Calls.
Import Actor.
Section calls.
Context {J : SerdeJson} {P : Pki} {C : Chrono} {W : Wire}.

(** ** The gate *)

(** The actions that are retried. *)
Definition is_transaction_message (name : str) : bool :=
  (name == lit "StartTransaction") || (name == lit "StopTransaction") || (name == lit "MeterValues").

(** [true] if a failed attempt of a transaction message should be tried again. *)
Definition retryable (e : CallError.t) : bool := negb (CallError.is_link_failure e).

Definition gate (r : option RegistrationStatus.t) (name : str) (origin : Origin.t) : bool :=
  match origin, r with
  | Origin.Raw, _ => true
  | _, r =>
      if name == lit "BootNotification" then true
      else
        match origin, r with
        | _, Some RegistrationStatus.Accepted => true
        | Origin.Triggered, Some RegistrationStatus.Pending => true
        | _, _ => false
        end
  end.

Definition may_send (a : t) (name : str) (origin : Origin.t) : result unit CallError.t :=
  if gate (registration a) name origin then Ok tt
  else Err (CallError.NotRegistered name
              (match registration a with
               | Some s => RegistrationStatus.as_str s
               | None => lit "unregistered"
               end)).

(** ** Calls *)

(** What handing a CALL to the connection changes: a task, and its continuation. *)
Definition hand_over (a : t) (o : Origin.t) (name : str) (body : json) (v : bool)
    (k : Continuation) : t :=
  let tok := next_call_token a in
  let '(n, pause) :=
    if (o != Origin.Raw) && is_transaction_message name
    then (ConfigRegistry.transaction_message_attempts (registry a),
          ConfigRegistry.transaction_message_retry_interval (registry a))
    else (1, 0) in
  let a := a <| next_call_token := tok + 1 |> in
  let a := emit a (Sent {| token := tok; out_generation := Link.generation (link a); origin := o;
                           out_action := name; payload := body; validate := v; max_attempts := n;
                           interval := pause;
                           timeout := StationConfig.call_timeout (config a) |}) in
  a <| calls ::= <[tok := mk_call name k]> |>.

Definition call_raw (a : t) (o : Origin.t) (name : str) (body : json) (v : bool)
    (k : Continuation) (fail : t -> CallError.t -> t) : t :=
  if negb (connected a) then fail a CallError.NotConnected
  else
    match may_send a name o with
    | Err e => fail a e
    | Ok _ => hand_over a o name body v k
    end.

(** Typed variant of [call_raw]. *)
Definition call (a : t) (o : Origin.t) (request : Request.t) (k : Continuation)
    (fail : t -> CallError.t -> t) : t :=
  match to_value request with
  | None => fail a (CallError.Serialize (Request.name request))
  | Some body => call_raw a o (Request.name request) body true k fail
  end.

(** How a failed CALL is reported to the caller of a command. *)
Definition call_failure (e : CallError.t) : StationError.t :=
  match e with
  | CallError.NotConnected => StationError.NotConnected
  | other => StationError.Call other
  end.

(** Connected and [BootNotification] accepted: the CSMS can be talked to. *)
Definition can_talk (a : t) : bool :=
  connected a && (registration a == Some RegistrationStatus.Accepted).

(** The closure [|_, _| {}]. *)
Definition no_op (a : t) (_ : CallError.t) : t := a.

(** ** StatusNotification ([status.rs]) *)

Definition tracker (a : t) (id : ConnectorId) : StatusTracker.t :=
  from_option (fun s => s) StatusTracker.default (trackers a !! id).
Definition set_tracker (a : t) (id : ConnectorId) (s : StatusTracker.t) : t :=
  a <| trackers ::= <[id := s]> |>.

Definition status_key (a : t) (id : ConnectorId) : option StatusKey.t :=
  StatusKey.of_connector <$> find_connector a id.

(** Whether a StatusNotification of [origin] may go out now. *)
Definition can_send_status (a : t) (o : Origin.t) : bool :=
  connected a && gate (registration a) (lit "StatusNotification") o.

Definition status_failed (id : ConnectorId) (key : StatusKey.t) (r : option Reply) (a : t)
    (e : CallError.t) : t :=
  let a := set_tracker a id (StatusTracker.mark_failed (tracker a id) key) in
  let a := log a LogLevel.Warn in
  send_reply_opt a r (Err (call_failure e)).

Definition dispatch_status (a : t) (id : ConnectorId) (key : StatusKey.t) (at_ : DateTime)
    (o : Origin.t) (r : option Reply) : t :=
  let request := {|
    StatusNotificationRequest.connector_id := id;
    StatusNotificationRequest.error_code := StatusKey.error_code key;
    StatusNotificationRequest.info := StatusKey.info key;
    StatusNotificationRequest.status := StatusKey.status key;
    StatusNotificationRequest.timestamp := Some at_;
    StatusNotificationRequest.vendor_id := StatusKey.vendor_id key;
    StatusNotificationRequest.vendor_error_code := StatusKey.vendor_error_code key |} in
  let a := set_tracker a id (StatusTracker.mark_sent (tracker a id) key) in
  call a o (Request.StatusNotification request) (StatusSent id key r) (status_failed id key r).

(** The connector's reportable state may have changed. *)
Definition status_changed (a : t) (id : ConnectorId) : t :=
  if negb (can_send_status a Origin.Station) then a
  else
    match status_key a id with
    | None => a
    | Some key =>
        let minimum := ConfigRegistry.minimum_status_duration (registry a) in
        let '(s, plan) := StatusTracker.plan_change (tracker a id) key (now_utc a) minimum in
        let a := set_tracker a id s in
        match plan with
        | StatusTracker.Nothing => a
        | StatusTracker.Cancel => timer_cancel a (TimerKey.StatusDebounce id)
        | StatusTracker.Send at_ =>
            dispatch_status (timer_cancel a (TimerKey.StatusDebounce id)) id key at_ Origin.Station None
        | StatusTracker.Defer => timer_set a (TimerKey.StatusDebounce id) minimum
        end
    end.

Definition status_timer_fired (a : t) (id : ConnectorId) : t :=
  match status_key a id with
  | None => a
  | Some key =>
      if negb (can_send_status a Origin.Station)
      then set_tracker a id (StatusTracker.forced (tracker a id))
      else
        let '(s, due) := StatusTracker.take_due (tracker a id) key in
        let a := set_tracker a id s in
        match due with
        | Some at_ => dispatch_status a id key at_ Origin.Station None
        | None => a
        end
  end.

Definition send_status_forced (a : t) (id : ConnectorId) (o : Origin.t) (r : option Reply) : t :=
  match status_key a id with
  | None => send_reply_opt a r (Err (StationError.UnknownConnector id))
  | Some key =>
      let a := timer_cancel a (TimerKey.StatusDebounce id) in
      let a := set_tracker a id (StatusTracker.forced (tracker a id)) in
      dispatch_status a id key (now_utc a) o r
  end.

(** Connector 0 first, then every connector. *)
Definition resend_all_statuses (a : t) : t :=
  fold_left (fun a id => send_status_forced a id Origin.Station None) (STATION :: connector_ids a) a.

(** [BTreeMap] iteration: by connector id. *)
Definition waiting_ids (a : t) : list ConnectorId :=
  sort_unstable (map fst (retain (fun '(_, s) => StatusTracker.has_pending s) (map_to_list (trackers a)))).

Definition flush_pending_statuses (a : t) : t :=
  fold_left (fun a id => status_timer_fired (timer_cancel a (TimerKey.StatusDebounce id)) id)
    (waiting_ids a) a.

Definition is_debounce (k : TimerKey.t) : bool :=
  match k with TimerKey.StatusDebounce _ => true | _ => false end.

Definition reset_status_tracking (a : t) : t :=
  (timer_cancel_where a is_debounce) <| trackers ::= fmap StatusTracker.reset |>.

(** ** Meter timers ([sampling.rs]) *)

Definition is_sampling (a : t) (id : ConnectorId) : bool :=
  match transaction_of a id with
  | TransactionState.PendingStart _ | TransactionState.Active _ => true
  | _ => false
  end.

(** [clock_aligned_delay(..).and_then(|d| d.to_std().ok())] *)
Definition aligned_delay (a : t) : option Duration :=
  match Metering.clock_aligned_delay (now_utc a)
          (ConfigRegistry.clock_aligned_data_interval_secs (registry a)) with
  | Some d => if 0 <=? d then Some d else None
  | None => None
  end.

Definition reschedule_periodic (interval : Z) (a : t) (id : ConnectorId) : t :=
  if (0 <? interval) && is_sampling a id
  then timer_set_if_idle a (TimerKey.MeterPeriodic id) (interval * NS_PER_SEC)
  else timer_cancel a (TimerKey.MeterPeriodic id).

Definition reschedule_metering (a : t) : t :=
  let interval := ConfigRegistry.meter_value_sample_interval_secs (registry a) in
  let a := fold_left (reschedule_periodic interval) (connector_ids a) a in
  match aligned_delay a with
  | Some delay => timer_set_if_idle a TimerKey.MeterAligned delay
  | None => timer_cancel a TimerKey.MeterAligned
  end.

Definition is_meter_timer (k : TimerKey.t) : bool :=
  match k with TimerKey.MeterPeriodic _ | TimerKey.MeterAligned => true | _ => false end.

Definition restart_metering (a : t) : t := reschedule_metering (timer_cancel_where a is_meter_timer).

(** ** Security events ([secure.rs]) *)

Definition security_event_failed (event : Security.PendingSecurityEvent) (a : t) (e : CallError.t) : t :=
  if CallError.is_link_failure e
  then mark_dirty (a <| security_events ::= fun q => Security.put_back q event |>)
  else log a LogLevel.Warn.

Definition send_security_event_call (a : t) (event : Security.PendingSecurityEvent) : t :=
  let request := {|
    SecurityEventNotificationRequest.event_type := Security.event_type event;
    SecurityEventNotificationRequest.timestamp := Security.timestamp event;
    SecurityEventNotificationRequest.tech_info := Security.tech_info event |} in
  call a Origin.Station (Request.SecurityEventNotification request) (SecurityEventSent event)
    (security_event_failed event).

Definition flush_security_events (a : t) : t :=
  if negb (connected a) || (registration a != Some RegistrationStatus.Accepted) then a
  else
    let events := security_events a in
    match events with
    | [] => a
    | _ => fold_left send_security_event_call events (mark_dirty (a <| security_events := [] |>))
    end.

(** Reports a security event: queued, then sent as soon as the station is registered. *)
Definition security_event (a : t) (ty : str) (info : option str) : t :=
  let event := Security.new ty (now_utc a) info in
  let a := log a LogLevel.Warn in
  let a := mark_dirty (a <| security_events ::= fun q => Security.push_bounded q event |>) in
  flush_security_events a.

(** ** Maintenance reports ([handlers/maintenance.rs]) *)

Definition report_diagnostics (a : t) (status : DiagnosticsStatus.t) : t :=
  let a := a <| state ::= fun s => s <| Snapshot.diagnostics_status := status |> |> in
  call a Origin.Station
    (Request.DiagnosticsStatusNotification (DiagnosticsStatusNotificationRequest.mk status)) NoOp no_op.

Definition report_firmware (a : t) (status : FirmwareStatus.t) : t :=
  let a := a <| state ::= fun s => s <| Snapshot.firmware_status := status |> |> in
  call a Origin.Station
    (Request.FirmwareStatusNotification (FirmwareStatusNotificationRequest.mk status)) NoOp no_op.

Definition report_log (a : t) (status : UploadLogStatus.t) : t :=
  let a := a <| state ::= fun s => s <| Snapshot.log_status := status |> |> in
  let request_id := if status == UploadLogStatus.Idle then None else log_request_id a in
  call a Origin.Station
    (Request.LogStatusNotification (LogStatusNotificationRequest.mk status request_id)) NoOp no_op.

Definition report_signed_firmware (a : t) (status : SignedFirmwareStatus.t) : t :=
  let a := a <| state ::= fun s => s <| Snapshot.signed_firmware_status := status |> |> in
  let request_id := if status == SignedFirmwareStatus.Idle then None else signed_fw_request_id a in
  call a Origin.Station
    (Request.SignedFirmwareStatusNotification
       (SignedFirmwareStatusNotificationRequest.mk status request_id)) NoOp no_op.

(** Drops the remaining [GetDiagnostics] and [UpdateFirmware] statuses. *)
Definition cancel_maintenance (a : t) : t :=
  let a := timer_cancel (timer_cancel a TimerKey.Diagnostics) TimerKey.Firmware in
  let a := match diagnostics_plan a with
           | [] => a
           | _ => a <| diagnostics_plan := [] |>
                    <| state ::= fun s => s <| Snapshot.diagnostics_status := DiagnosticsStatus.Idle |> |>
           end in
  match firmware_plan a with
  | [] => a
  | _ => a <| firmware_plan := [] |>
           <| state ::= fun s => s <| Snapshot.firmware_status := FirmwareStatus.Idle |> |>
  end.

Definition cancel_log_upload (a : t) : t :=
  let a := timer_cancel a TimerKey.LogUpload in
  match log_upload a with
  | [] => a
  | _ => a <| log_upload := [] |>
           <| state ::= fun s => s <| Snapshot.log_status := UploadLogStatus.Idle |> |>
  end.

Definition cancel_signed_firmware (a : t) : t :=
  let a := timer_cancel a TimerKey.SignedFirmware in
  match signed_fw a with
  | [] => a
  | _ => a <| signed_fw := [] |>
           <| state ::= fun s => s <| Snapshot.signed_firmware_status := SignedFirmwareStatus.Idle |> |>
  end.

(** The next step of a plan: its timer is armed again while steps remain. *)
Definition arm_next {T} (a : t) (k : TimerKey.t) (plan : list (Duration * T)) : t :=
  match plan with
  | (delay, _) :: _ => timer_set a k delay
  | [] => a
  end.

Definition on_diagnostics_timer (a : t) : t :=
  match diagnostics_plan a with
  | [] => a
  | (_, step) :: rest =>
      let a := a <| diagnostics_plan := rest |> in
      let a := match step with
               | Maintenance.Diagnostics status => report_diagnostics a status
               | _ => a
               end in
      arm_next a TimerKey.Diagnostics rest
  end.

Definition on_firmware_timer (a : t) : t :=
  match firmware_plan a with
  | [] => a
  | (_, step) :: rest =>
      let a := a <| firmware_plan := rest |> in
      let a := match step with
               | Maintenance.Firmware status => report_firmware a status
               | _ => a
               end in
      arm_next a TimerKey.Firmware rest
  end.

Definition on_log_timer (a : t) : t :=
  match log_upload a with
  | [] => a
  | (_, status) :: rest =>
      arm_next (report_log (a <| log_upload := rest |>) status) TimerKey.LogUpload rest
  end.

Definition on_signed_firmware_timer (a : t) : t :=
  match signed_fw a with
  | [] => a
  | (_, status) :: rest =>
      let a := report_signed_firmware (a <| signed_fw := rest |>) status in
      let a :=
        match status with
        | SignedFirmwareStatus.InvalidSignature =>
            security_event a (lit "InvalidFirmwareSignature")
              ((fun id => lit "requestId " ++ to_string id) <$> signed_fw_request_id a)
        | SignedFirmwareStatus.Installed => security_event a (lit "FirmwareUpdated") None
        | _ => a
        end in
      arm_next a TimerKey.SignedFirmware rest
  end.
End calls.
End Calls.
