(* ===== verification/Transactions.v ===== *)
(** * Transactions: start, stop and the delivery of what was queued while offline

    [station/transactions.rs] with the operations it calls: [apply_pending_availability] of
    [handlers/availability.rs], [set_charging_profile] of [handlers/smart.rs] and
    [install_remote_profile] of [handlers/remote.rs].

    The completions a start or a stop is called with ([Done]) start nothing further, and the
    delivery of the queue ([run_sync]) runs over the keys it was started with, so every
    definition is structural: [run_sync] recurses over [sync_keys]. *)

From stdpp Require Import strings gmap.
From S2P Require Import Prelude Text F64 Time Types Messages SecurityMessages Frame Actions.
From S2P Require Import ResponseRules Config ConfigRegistry LocalAuthList Authorization.
From S2P Require Import Connector Reservation Offline Timers Metering SmartCharging.
From S2P Require Import ChargingProfiles Maintenance Security Certificates Interface Store.
From S2P Require Import Actor Calls.
Local Open Scope Z_scope.

Module Transactions.
Import Actor Calls.
Section transactions.
Context {J : SerdeJson} {P : Pki} {C : Chrono} {W : Wire}.

(** Shortest pause before a queued message is tried again. *)
Definition MIN_SYNC_RETRY : Duration := NS_PER_SEC.

Definition invalid (id : ConnectorId) (reason : str) : StationError.t :=
  StationError.InvalidState (Some id) (lit "connector " ++ to_string id ++ lit ": " ++ reason).

(** ** Charging profiles ([handlers/smart.rs], [handlers/remote.rs]) *)

Definition store_limits (a : t) : StoreLimits.t :=
  let r := registry a in {|
  StoreLimits.max_stack_level :=
    from_option id i32_max (try_into i32_min i32_max (ConfigRegistry.charge_profile_max_stack_level r));
  StoreLimits.max_installed :=
    from_option id usize_max (try_into 0 usize_max (ConfigRegistry.max_charging_profiles_installed r));
  StoreLimits.max_periods :=
    from_option id usize_max (try_into 0 usize_max (ConfigRegistry.charging_schedule_max_periods r));
  StoreLimits.allowed_units :=
    retain (ConfigRegistry.charging_rate_unit_allowed r) [ChargingRateUnitType.A; ChargingRateUnitType.W] |}.

Definition connector_count (a : t) : Z :=
  from_option id u32_max (try_into 0 u32_max (len (connectors a))).

(** Stores a profile; persists when accepted. *)
Definition set_charging_profile (a : t) (id : ConnectorId) (profile : ChargingProfile.t)
  : t * ChargingProfileStatus.t :=
  let ctx := {|
    ProfileContext.now := now_utc a;
    ProfileContext.connector_count := connector_count a;
    ProfileContext.active_tx := find_connector a id ≫= connector_tx_id;
    ProfileContext.limits := store_limits a |} in
  let '(p, status) := ChargingProfileStore.set (profiles a) id profile ctx in
  let a := a <| profiles := p |> in
  (if status == ChargingProfileStatus.Accepted then mark_dirty a else a, status).

Definition install_remote_profile (a : t) (id : ConnectorId) (tx : TxId.t)
    (profile : ChargingProfile.t) : t :=
  let profile := profile <| ChargingProfile.transaction_id := TxId.wire tx |> in
  let '(a, _) := set_charging_profile a id profile in
  log a LogLevel.Info.

(** Runs a [Done]. *)
Definition run_done (a : t) (done : Done) (r : result Outcome.t StationError.t) : t :=
  match done with
  | ReplyTo reply => send_reply a reply r
  | Ignore => a
  | InstallRemoteProfile id profile =>
      match r, profile with
      | Ok (Outcome.TransactionStarted _ tx), Some profile => install_remote_profile a id tx profile
      | _, _ => a
      end
  end.

(** ** Shared steps *)

Definition next_key (a : t) : t * Z :=
  let key := next_local a + 1 in (a <| next_local := key |>, key).

Definition profiles_ended (a : t) (tx : TxId.t) : t * bool :=
  let '(p, n) := ChargingProfileStore.on_transaction_ended (profiles a) tx in
  (a <| profiles := p |>, 0 <? n).

(** The idTag was refused and [StopTransactionOnInvalidId] is off: the transaction goes on,
    limited to [MaxEnergyOnInvalidId] when that is set. *)
Definition limit_energy_on_invalid_id (a : t) (id : ConnectorId) : t :=
  let a := flush_meters a in
  let max := ConfigRegistry.max_energy_on_invalid_id (registry a) in
  match ConnectorSnapshot.meter_wh <$> find_connector a id with
  | None => a
  | Some meter =>
      if max =? 0 then log a LogLevel.Warn
      else log (a <| invalid_limits ::= <[id := u64_saturating_add meter max]> |>) LogLevel.Warn
  end.

(** Applies an availability change that was waiting for the transaction on [id] to end. *)
Definition apply_pending_availability (a : t) (id : ConnectorId) : t :=
  match find_connector a id ≫= ConnectorSnapshot.pending_availability with
  | None => a
  | Some kind =>
      let a := modify_connector a id (fun c =>
        let c := c <| ConnectorSnapshot.pending_availability := None |>
                   <| ConnectorSnapshot.availability := kind |> in
        c <| ConnectorSnapshot.status := Connector.status_after_availability_change c kind |>) in
      status_changed (flush_now a) id
  end.

(** Connector goes [Charging]; reservation consumed; meters armed. *)
Definition begin_charging (a : t) (id : ConnectorId) (id_tag : IdTag) : t :=
  let a := modify_connector a id (fun c =>
    (Reservations.clear_reservation c).1
      <| ConnectorSnapshot.status := ConnectorStatus.Charging |>
      <| ConnectorSnapshot.last_id_tag := Some id_tag |>) in
  let a := timer_cancel a (TimerKey.ReservationExpiry id) in
  status_changed (reschedule_metering (flush_now a)) id.

(** A start that did not happen: no transaction, EV still connected. *)
Definition abandon_start (a : t) (id : ConnectorId) : t :=
  let a := modify_connector a id (fun c =>
    let c := c <| ConnectorSnapshot.transaction := TransactionState.Idle |> in
    if ConnectorSnapshot.status c == ConnectorStatus.Charging
    then c <| ConnectorSnapshot.status :=
               if ConnectorSnapshot.ev_connected c then ConnectorStatus.Preparing
               else ConnectorStatus.Available |>
    else c) in
  status_changed (apply_pending_availability a id) id.

(** [i64::try_from(wh).unwrap_or(i64::MAX)] *)
Definition wire_wh (wh : Z) : Z := from_option id i64_max (try_into i64_min i64_max wh).

(** Fire-and-forget [StopTransaction] for a transaction the CSMS opened but we do not keep. *)
Definition send_stop_for (a : t) (tx : Z) (meter_stop_wh : Z) (id_tag : option IdTag)
    (reason : StopReason.t) : t :=
  let request := {|
    StopTransactionRequest.id_tag := id_tag;
    StopTransactionRequest.meter_stop := wire_wh meter_stop_wh;
    StopTransactionRequest.timestamp := now_utc a;
    StopTransactionRequest.transaction_id := tx;
    StopTransactionRequest.reason := Some reason;
    StopTransactionRequest.transaction_data := None |} in
  call a Origin.Station (Request.StopTransaction request) NoOp no_op.

Definition stop_request (info : StopInfo.t) (wire : Z) : StopTransactionRequest.t := {|
  StopTransactionRequest.id_tag := StopInfo.id_tag info;
  StopTransactionRequest.meter_stop := wire_wh (StopInfo.meter_stop_wh info);
  StopTransactionRequest.timestamp := StopInfo.timestamp info;
  StopTransactionRequest.transaction_id := wire;
  StopTransactionRequest.reason := Some (StopInfo.reason info);
  StopTransactionRequest.transaction_data :=
    match StopInfo.transaction_data info with [] => None | data => Some data end |}.

Definition start_request (c : ConnectorId) (id_tag : IdTag) (meter_start_wh : Z)
    (reservation : option ReservationId) (at_ : DateTime) : StartTransactionRequest.t := {|
  StartTransactionRequest.connector_id := c;
  StartTransactionRequest.id_tag := id_tag;
  StartTransactionRequest.meter_start := wire_wh meter_start_wh;
  StartTransactionRequest.reservation_id := reservation;
  StartTransactionRequest.timestamp := at_ |}.

(** ** The offline queue *)

Definition push_queue (a : t) (entry : OfflineTx.t) : t :=
  let '(q, dropped) := OfflineQueue.push (queue a) entry in
  let a := a <| queue := q |> in
  match dropped with
  | None => a
  | Some d => log (a <| sync_failures ::= base.delete (OfflineTx.key d) |>) LogLevel.Warn
  end.

(** Queues the stop of [tx]; returns the key of its queue entry. *)
Definition queue_stop (a : t) (id : ConnectorId) (tx : TxId.t) (id_tag : IdTag)
    (started_at : DateTime) (meter_start_wh : Z) (info : StopInfo.t) : t * Z :=
  match OfflineQueue.find_by_tx_on (queue a) id tx with
  | Some entry =>
      (a <| queue ::= fun q => OfflineQueue.modify_by_tx_on q id tx
                                 (fun e => e <| OfflineTx.stop := Some info |>) |>,
       OfflineTx.key entry)
  | None =>
      let '(a, key) := next_key a in
      (push_queue a {|
         OfflineTx.key := key;
         OfflineTx.connector := id;
         OfflineTx.tx_id := tx;
         OfflineTx.id_tag := id_tag;
         OfflineTx.started_at := started_at;
         OfflineTx.meter_start_wh := meter_start_wh;
         OfflineTx.reservation_id := None;
         OfflineTx.start_pending := false;
         OfflineTx.stop := Some info |}, key)
  end.

(** [connector.transaction.tx_id() == Some(tx)] *)
Definition holds_tx (tx : TxId.t) (c : ConnectorSnapshot.t) : bool := connector_tx_id c == Some tx.

(** The transaction on [id] is over: connector idle, profiles cleaned, pending availability
    applied. *)
Definition finish_stop (a : t) (id : ConnectorId) (tx : TxId.t) : t :=
  let a := modify_connector a id (fun c =>
    if holds_tx tx c then c <| ConnectorSnapshot.transaction := TransactionState.Idle |> else c) in
  let '(a, removed) := profiles_ended a tx in
  let a := if removed then mark_dirty a else a in
  status_changed (flush_now (apply_pending_availability a id)) id.

(** A local transaction the CSMS refused: the connector forgets it. *)
Definition drop_local_transaction (a : t) (id : ConnectorId) (local : TxId.t) : t :=
  let a := modify_connector a id (fun c =>
    if holds_tx local c
    then c <| ConnectorSnapshot.transaction := TransactionState.Idle |>
           <| ConnectorSnapshot.status :=
                if ConnectorSnapshot.availability c == AvailabilityType.Inoperative
                then ConnectorStatus.Unavailable
                else if ConnectorSnapshot.ev_connected c then ConnectorStatus.Preparing
                else ConnectorStatus.Available |>
    else c) in
  let a := timer_cancel a (TimerKey.MeterPeriodic id) in
  let '(a, _) := profiles_ended a local in
  status_changed (apply_pending_availability a id) id.

(** ** Offline sync *)

(** Meter timers and status re-send, once the offline sync is complete. *)
Definition finish_boot_accepted (a : t) : t :=
  if registration a != Some RegistrationStatus.Accepted then a
  else
    let a := resend_all_statuses (reschedule_metering a) in
    if startup_event_pending a
    then security_event (a <| startup_event_pending := false |>) (lit "StartupOfTheDevice") None
    else flush_security_events a.

(** Retry rounds an entry gets after its first failed round. *)
Definition sync_round_limit (a : t) : Z :=
  Z.max (ConfigRegistry.transaction_message_attempts (registry a)) 1.

Definition failures_of (a : t) (key : Z) : Z := from_option (fun n => n) 0 (sync_failures a !! key).

(** Remembers that the CSMS did not process the queued message [key]; a lost link is not its
    fault. *)
Definition record_sync_failure (a : t) (key : Z) (e : CallError.t) : t :=
  if CallError.is_link_failure e then a
  else a <| sync_failures ::= <[key := failures_of a key + 1]> |> <| sync_failed := true |>.

Definition drop_exhausted (a : t) (key : Z) : t :=
  let '(q, removed) := OfflineQueue.remove (queue a) key in
  let a := a <| queue := q |> in
  let a := if is_someb removed then log a LogLevel.Warn else a in
  flush_now (a <| sync_failures ::= base.delete key |>).

(** While the link is up, queued messages the CSMS failed to process are tried again for a
    bounded number of rounds. *)
Definition arm_sync_retry (a : t) : t :=
  if negb (can_talk a) then a
  else
    let rounds := sync_round_limit a in
    let exhausted := map OfflineTx.key (retain (fun e =>
      negb (OfflineTx.start_pending e) && (rounds <? failures_of a (OfflineTx.key e))) (queue a)) in
    let a := fold_left drop_exhausted exhausted a in
    if any (fun e => let failures := failures_of a (OfflineTx.key e) in
                     (0 <? failures) && (failures <=? rounds)) (queue a)
    then timer_set a TimerKey.SyncRetry
           (Z.max (ConfigRegistry.transaction_message_retry_interval (registry a)) MIN_SYNC_RETRY)
    else a.

Definition arm_sync_retry_if_idle (a : t) : t :=
  if (sync_outstanding a =? 0) && sync_failed a then arm_sync_retry (a <| sync_failed := false |>)
  else a.

Definition sync_finished (a : t) : t :=
  let boot := sync_boot a in
  let a := a <| sync_outstanding := 0 |> <| sync_boot := false |> in
  let a := if boot then finish_boot_accepted a else a in
  arm_sync_retry_if_idle a.

Definition sync_drop_one (a : t) : t :=
  a <| sync_outstanding ::= fun n => Z.max (n - 1) 0 |>.

(** The failed CALL of an entry; [next] is [sync_done]. *)
Definition sync_call_failed (next : t -> t) (key : Z) (a : t) (e : CallError.t) : t :=
  next (record_sync_failure (log a LogLevel.Warn) key e).

(** Starts the [StopTransaction] CALL of an entry; [None] if there is nothing to send. *)
Definition sync_stop (next : t -> t) (a : t) (key : Z) : option t :=
  match OfflineQueue.get (queue a) key with
  | None => None
  | Some entry =>
      match OfflineTx.stop entry, TxId.wire (OfflineTx.tx_id entry) with
      | Some info, Some wire =>
          Some (call a Origin.Station (Request.StopTransaction (stop_request info wire))
                  (SyncStop key) (sync_call_failed next key))
      | _, _ => None
      end
  end.

(** Starts the CALL for one entry; [None]: nothing to send, the entry is done. *)
Definition sync_entry (next : t -> t) (a : t) (key : Z) : option t :=
  match OfflineQueue.get (queue a) key with
  | None => None
  | Some entry =>
      if OfflineTx.start_pending entry
      then
        let request := start_request (OfflineTx.connector entry) (OfflineTx.id_tag entry)
          (OfflineTx.meter_start_wh entry) (OfflineTx.reservation_id entry)
          (OfflineTx.started_at entry) in
        Some (call a Origin.Station (Request.StartTransaction request)
                (SyncStart key) (sync_call_failed next key))
      else sync_stop next a key
  end.

(** [run_sync] with the keys that are left. *)
Fixpoint run_sync_keys (keys : list Z) (a : t) : t :=
  match keys with
  | [] => sync_finished (a <| sync_keys := [] |>)
  | key :: rest =>
      let a := a <| sync_keys := rest |> in
      match sync_entry (fun a => run_sync_keys rest (sync_drop_one a)) a key with
      | Some a => a
      | None => run_sync_keys rest (sync_drop_one a)
      end
  end.

Definition run_sync (a : t) : t := run_sync_keys (sync_keys a) a.

(** The CALL of one entry has completed. *)
Definition sync_done (a : t) : t := run_sync (sync_drop_one a).

(** Delivers the queued transactions, one at a time. Returns the number of entries. *)
Definition start_offline_sync (a : t) (boot : bool) : t * Z :=
  if 0 <? sync_outstanding a then (a, sync_outstanding a)
  else
    let a := timer_cancel a TimerKey.SyncRetry in
    let rounds := sync_round_limit a in
    let keys := retain (fun key => failures_of a key <=? rounds) (OfflineQueue.keys (queue a)) in
    match keys with
    | [] => (a, 0)
    | _ =>
        (run_sync (a <| sync_outstanding := len keys |> <| sync_boot := boot |>
                     <| sync_keys := keys |>), len keys)
    end.

Definition on_sync_retry_timer (a : t) : t :=
  if can_talk a then (start_offline_sync a false).1 else a.

(** The answer to the [StartTransaction] of a queue entry. *)
Definition on_sync_start (a : t) (key : Z) (r : result StartTransactionResponse.t CallError.t) : t :=
  match r with
  | Err e => sync_call_failed sync_done key a e
  | Ok response =>
      match OfflineQueue.get (queue a) key with
      | None => sync_done a
      | Some entry =>
          let tx := StartTransactionResponse.transaction_id response in
          let local := OfflineTx.tx_id entry in
          let '(cache, decision) := Authorization.apply_online_id_tag_info (OfflineTx.id_tag entry)
            (StartTransactionResponse.id_tag_info response) (now_utc a) (auth_cache a) (registry a) in
          let a := mark_dirty (a <| auth_cache := cache |>) in
          let a := a <| sync_failures ::= base.delete key |> in
          let accepted := Authorization.accepted decision in
          let lenient := negb accepted && negb (ConfigRegistry.stop_transaction_on_invalid_id (registry a)) in
          if negb accepted && negb lenient then
            let a := log a LogLevel.Warn in
            let a := a <| queue ::= fun q => (OfflineQueue.remove q key).1 |> in
            let a := drop_local_transaction a (OfflineTx.connector entry) local in
            let meter := match OfflineTx.stop entry with
                         | Some s => StopInfo.meter_stop_wh s
                         | None => OfflineTx.meter_start_wh entry
                         end in
            let a := send_stop_for a tx meter (Some (OfflineTx.id_tag entry)) StopReason.DeAuthorized in
            sync_done (flush_now a)
          else
            let real := TxId.Csms tx in
            let a := a <| queue ::= fun q => OfflineQueue.modify q key (fun e =>
                            e <| OfflineTx.tx_id := real |> <| OfflineTx.start_pending := false |>) |> in
            let a := modify_connector a (OfflineTx.connector entry) (fun c =>
              if holds_tx local c
              then c <| ConnectorSnapshot.transaction := TransactionState.Active {|
                          ActiveTransaction.tx_id := real;
                          ActiveTransaction.id_tag := OfflineTx.id_tag entry;
                          ActiveTransaction.started_at := OfflineTx.started_at entry;
                          ActiveTransaction.meter_start_wh := OfflineTx.meter_start_wh entry |} |>
              else c) in
            let '(a, removed) := profiles_ended a local in
            let a := if removed then mark_dirty a else a in
            let a := flush_now a in
            let a := if lenient && negb (is_someb (OfflineTx.stop entry))
                     then limit_energy_on_invalid_id a (OfflineTx.connector entry) else a in
            match (if is_someb (OfflineTx.stop entry) then sync_stop sync_done a key else None) with
            | Some a => a
            | None => sync_done a
            end
      end
  end.

(** The answer to the [StopTransaction] of a queue entry. *)
Definition on_sync_stop (a : t) (key : Z) (r : result unit CallError.t) : t :=
  match r with
  | Ok _ =>
      sync_done (flush_now (a <| queue ::= fun q => (OfflineQueue.remove q key).1 |>
                              <| sync_failures ::= base.delete key |>))
  | Err e => sync_call_failed sync_done key a e
  end.

(** ** Stop *)

(** What a stop needs to know about the transaction of a connector. *)
Definition stoppable (a : t) (c : ConnectorSnapshot.t)
  : result (TxId.t * DateTime * Z * IdTag) StationError.t :=
  let id := ConnectorSnapshot.id c in
  match ConnectorSnapshot.transaction c with
  | TransactionState.Idle => Err (invalid id (lit "has no transaction"))
  | TransactionState.Stopping _ => Err (invalid id (lit "transaction is already stopping"))
  | TransactionState.PendingStart p =>
      if negb (any (fun e => OfflineTx.tx_id e == PendingStart.tx_id p) (queue a))
      then Err (invalid id (lit "transaction start is still in progress"))
      else Ok (PendingStart.tx_id p, PendingStart.started_at p, PendingStart.meter_start_wh p,
               PendingStart.id_tag p)
  | TransactionState.Active x =>
      Ok (ActiveTransaction.tx_id x, ActiveTransaction.started_at x,
          ActiveTransaction.meter_start_wh x, ActiveTransaction.id_tag x)
  end.

(** The CALL of a stop failed: the stop is queued and tried again. *)
Definition stop_failed (id : ConnectorId) (tx : TxId.t) (tag : IdTag) (started_at : DateTime)
    (meter_start_wh : Z) (info : StopInfo.t) (done : Done) (a : t) (e : CallError.t) : t :=
  let '(a, key) := queue_stop a id tx tag started_at meter_start_wh info in
  let a := log (finish_stop a id tx) LogLevel.Warn in
  let a := arm_sync_retry_if_idle (record_sync_failure a key e) in
  run_done a done (Err (call_failure e)).

(** The answer to the [StopTransaction] of a running transaction. *)
Definition on_stop_result (id : ConnectorId) (tx : TxId.t) (tag : IdTag) (started_at : DateTime)
    (meter_start_wh : Z) (info : StopInfo.t) (done : Done) (a : t)
    (r : result unit CallError.t) : t :=
  match r with
  | Ok _ => run_done (finish_stop a id tx) done (Ok Outcome.Done)
  | Err e => stop_failed id tx tag started_at meter_start_wh info done a e
  end.

(** What the [StopTransaction] carries, read before the connector changes. *)
Definition stop_info (a : t) (c : ConnectorSnapshot.t) (reason : StopReason.t)
    (id_tag : option IdTag) : t * StopInfo.t :=
  let now := now_utc a in
  let sampled := ConfigRegistry.measurands (registry a) ConfigRegistry.STOP_TXN_SAMPLED_DATA in
  let aligned := ConfigRegistry.measurands (registry a) ConfigRegistry.STOP_TXN_ALIGNED_DATA in
  let '(a, reading) := meter_reading a (ConnectorSnapshot.id c) false in
  (a, {|
    StopInfo.id_tag := option_or id_tag (ConnectorSnapshot.last_id_tag c);
    StopInfo.meter_stop_wh := ConnectorSnapshot.meter_wh c;
    StopInfo.timestamp := now;
    StopInfo.reason := reason;
    StopInfo.transaction_data :=
      Metering.stop_transaction_data (power_model a) reading now sampled aligned |}).

Definition stop_transaction (a : t) (id : ConnectorId) (reason : StopReason.t)
    (id_tag : option IdTag) (done : Done) : t :=
  let a := flush_meters a in
  match connector a id with
  | None => run_done a done (Err (StationError.UnknownConnector id))
  | Some c =>
      match stoppable a c with
      | Err e => run_done a done (Err e)
      | Ok (tx, started_at, meter_start_wh, tag) =>
          let '(ev, status) := Connector.state_after_stop reason (ConnectorSnapshot.ev_connected c)
                                 (ConnectorSnapshot.availability c) in
          let '(a, info) := stop_info a c reason id_tag in
          let a := modify_connector a id (fun c =>
            c <| ConnectorSnapshot.ev_connected := ev |> <| ConnectorSnapshot.status := status |>) in
          let a := timer_cancel a (TimerKey.MeterPeriodic id) in
          let a := a <| invalid_limits ::= base.delete id |> in
          if TxId.is_local tx || negb (can_talk a) then
            let '(a, _) := queue_stop a id tx tag started_at meter_start_wh info in
            let a := log (finish_stop a id tx) LogLevel.Warn in
            let a := if can_talk a then (start_offline_sync a false).1 else a in
            run_done a done (Ok Outcome.Done)
          else
            let a := modify_connector a id (fun c =>
              c <| ConnectorSnapshot.transaction := TransactionState.Stopping {|
                     StoppingTransaction.tx_id := tx;
                     StoppingTransaction.id_tag := StopInfo.id_tag info;
                     StoppingTransaction.reason := reason;
                     StoppingTransaction.stopped_at := Some (StopInfo.timestamp info);
                     StoppingTransaction.meter_stop_wh := Some (StopInfo.meter_stop_wh info) |} |>) in
            let a := status_changed a id in
            match TxId.wire tx with
            | None => run_done a done (Ok Outcome.Done)
            | Some wire =>
                call a Origin.Station (Request.StopTransaction (stop_request info wire))
                  (StopDone id tx tag started_at meter_start_wh info done)
                  (stop_failed id tx tag started_at meter_start_wh info done)
            end
      end
  end.

(** After the meter advanced: stop a transaction that used up its [MaxEnergyOnInvalidId]. *)
Definition check_energy_limit (a : t) (id : ConnectorId) : t :=
  match invalid_limits a !! id, find_connector a id with
  | Some limit, Some c =>
      if (limit <=? ConnectorSnapshot.meter_wh c)
         && negb (TransactionState.is_idle (ConnectorSnapshot.transaction c))
      then stop_transaction (a <| invalid_limits ::= base.delete id |>) id StopReason.DeAuthorized
             (ConnectorSnapshot.last_id_tag c) Ignore
      else a
  | _, _ => a
  end.

(** ** Start *)

Definition start_rejection (c : ConnectorSnapshot.t) (id_tag : IdTag) (parent : option IdTag)
    (now : DateTime) : option str :=
  if TransactionState.blocks_new_transaction (ConnectorSnapshot.transaction c)
  then Some (lit "already has a transaction")
  else if (ConnectorSnapshot.availability c == AvailabilityType.Inoperative)
          || (ConnectorSnapshot.status c == ConnectorStatus.Unavailable)
  then Some (lit "is unavailable")
  else if ConnectorSnapshot.status c == ConnectorStatus.Faulted then Some (lit "is faulted")
  else if ConnectorSnapshot.status c == ConnectorStatus.Finishing
  then Some (lit "is finishing; unplug before starting a new transaction")
  else if Reservations.reserved_for_other c id_tag parent now
  then Some (lit "is reserved for another idTag")
  else None.

Definition rejected_locally (d : Authorization.AuthorizationDecision) : result Outcome.t StationError.t :=
  Ok (Outcome.TransactionRejected (IdTagInfo.status (Authorization.id_tag_info d))).

(** The denial of the local authorization that stops a start, if there is one. *)
Definition start_denied (a : t) (id_tag : IdTag) : option Authorization.AuthorizationDecision :=
  let now := now_utc a in
  let denied d := if Authorization.accepted d then None else Some d in
  match Authorization.pre_authorize id_tag now (local_list a) (auth_cache a) (registry a) ≫= denied with
  | Some d => Some d
  | None =>
      if can_talk a then None
      else denied (Authorization.authorize_offline id_tag now (local_list a) (auth_cache a) (registry a))
  end.

(** [still_ours]: the connector still holds the start. *)
Definition still_ours (a : t) (id : ConnectorId) (local : TxId.t) : bool :=
  is_some_and (holds_tx local) (find_connector a id).

Definition start_failed (id : ConnectorId) (local : TxId.t) (done : Done) (a : t)
    (e : CallError.t) : t :=
  let a := if still_ours a id local then abandon_start a id else a in
  run_done a done (Err (call_failure e)).

Definition out_of_service (c : ConnectorSnapshot.t) : bool :=
  (ConnectorSnapshot.status c == ConnectorStatus.Faulted)
  || (ConnectorSnapshot.status c == ConnectorStatus.Unavailable).

Definition on_start_result (id : ConnectorId) (local : TxId.t) (pending : PendingStart.t)
    (done : Done) (a : t) (r : result StartTransactionResponse.t CallError.t) : t :=
  match r with
  | Err e => start_failed id local done a e
  | Ok response =>
      let ours := still_ours a id local in
      let tx := StartTransactionResponse.transaction_id response in
      let tag := PendingStart.id_tag pending in
      let meter := PendingStart.meter_start_wh pending in
      let '(cache, decision) := Authorization.apply_online_id_tag_info tag
        (StartTransactionResponse.id_tag_info response) (now_utc a) (auth_cache a) (registry a) in
      let a := mark_dirty (a <| auth_cache := cache |>) in
      let accepted := Authorization.accepted decision in
      let lenient := negb accepted && ours
                     && negb (ConfigRegistry.stop_transaction_on_invalid_id (registry a)) in
      if (negb accepted && negb lenient) || negb ours then
        let status := if accepted then AuthorizationStatus.Invalid
                      else IdTagInfo.status (Authorization.id_tag_info decision) in
        let a := log a LogLevel.Warn in
        let a := if ours then abandon_start a id else a in
        let a := send_stop_for a tx meter (Some tag) StopReason.DeAuthorized in
        run_done a done (Ok (Outcome.TransactionRejected status))
      else if is_some_and out_of_service (find_connector a id) then
        let a := abandon_start (log a LogLevel.Warn) id in
        let a := send_stop_for a tx meter (Some tag) StopReason.Other in
        run_done a done (Err (invalid id (lit "became unavailable while the start was in flight")))
      else
        let a := modify_connector a id (fun c =>
          c <| ConnectorSnapshot.transaction := TransactionState.Active {|
                 ActiveTransaction.tx_id := TxId.Csms tx;
                 ActiveTransaction.id_tag := tag;
                 ActiveTransaction.started_at := PendingStart.started_at pending;
                 ActiveTransaction.meter_start_wh := meter |} |>) in
        let a := begin_charging a id tag in
        let a := if lenient then limit_energy_on_invalid_id a id else a in
        run_done a done (Ok (Outcome.TransactionStarted id (TxId.Csms tx)))
  end.

(** The start of a transaction without the CSMS: charging at once, the start queued. *)
Definition start_offline (a : t) (id : ConnectorId) (key : Z) (p : PendingStart.t) : t :=
  let a := begin_charging a id (PendingStart.id_tag p) in
  let a := push_queue a {|
    OfflineTx.key := key;
    OfflineTx.connector := id;
    OfflineTx.tx_id := PendingStart.tx_id p;
    OfflineTx.id_tag := PendingStart.id_tag p;
    OfflineTx.started_at := PendingStart.started_at p;
    OfflineTx.meter_start_wh := PendingStart.meter_start_wh p;
    OfflineTx.reservation_id := PendingStart.reservation_id p;
    OfflineTx.start_pending := true;
    OfflineTx.stop := None |} in
  log (flush_now a) LogLevel.Warn.

Definition start_transaction (a : t) (id : ConnectorId) (id_tag : IdTag) (done : Done) : t :=
  let a := flush_meters a in
  let now := now_utc a in
  match connector a id with
  | None => run_done a done (Err (StationError.UnknownConnector id))
  | Some c =>
      let parent := Authorization.known_parent id_tag now (local_list a) (auth_cache a) in
      match start_rejection c id_tag parent now with
      | Some reason => run_done a done (Err (invalid id reason))
      | None =>
          match start_denied a id_tag with
          | Some decision => run_done (log a LogLevel.Warn) done (rejected_locally decision)
          | None =>
              let online := can_talk a in
              let '(a, key) := next_key a in
              let local := TxId.Local key in
              let pending := {|
                PendingStart.tx_id := local;
                PendingStart.id_tag := id_tag;
                PendingStart.started_at := now;
                PendingStart.meter_start_wh := ConnectorSnapshot.meter_wh c;
                PendingStart.reservation_id :=
                  Reservation.id <$> ConnectorSnapshot.reservation c |} in
              let a := modify_connector a id (fun c =>
                let c := c <| ConnectorSnapshot.ev_connected := true |> in
                let c := if ConnectorSnapshot.status c == ConnectorStatus.Available
                         then c <| ConnectorSnapshot.status := ConnectorStatus.Preparing |> else c in
                c <| ConnectorSnapshot.transaction := TransactionState.PendingStart pending |>) in
              let a := a <| invalid_limits ::= base.delete id |> in
              if negb online then
                run_done (start_offline a id key pending) done
                  (Ok (Outcome.TransactionStarted id local))
              else
                let a := status_changed a id in
                let request := start_request id id_tag (ConnectorSnapshot.meter_wh c)
                                 (PendingStart.reservation_id pending) now in
                call a Origin.Station (Request.StartTransaction request)
                  (StartDone id local pending done) (start_failed id local done)
          end
      end
  end.

(** ** Authorize and remote start ([handlers/remote.rs]) *)

Definition begin_remote_start (a : t) (id : ConnectorId) (id_tag : IdTag)
    (profile : option ChargingProfile.t) : t :=
  start_transaction a id id_tag (InstallRemoteProfile id profile).

Definition remote_start_reply (a : t) (h : ReplyHandle.t) (s : RemoteStartStopStatus.t) : t :=
  respond a h (Response.RemoteStartTransaction (RemoteStartTransactionResponse.mk s)).

(** Runs an [AuthDone]. *)
Definition run_auth_done (a : t) (done : AuthDone)
    (r : result Authorization.AuthorizationDecision StationError.t) : t :=
  match done, r with
  | AuthorizeReply reply, Ok d => send_reply a reply (Ok (Outcome.Authorized d))
  | AuthorizeReply reply, Err e => send_reply a reply (Err e)
  | RemoteAuthorized h id tag profile, Ok d =>
      if Authorization.accepted d then
        let parent := option_or (IdTagInfo.parent_id_tag (Authorization.id_tag_info d))
          (Authorization.known_parent tag (now_utc a) (local_list a) (auth_cache a)) in
        if Reservations.can_remote_start (connector a id) tag parent (now_utc a)
        then begin_remote_start (remote_start_reply a h RemoteStartStopStatus.Accepted) id tag profile
        else remote_start_reply a h RemoteStartStopStatus.Rejected
      else remote_start_reply a h RemoteStartStopStatus.Rejected
  | RemoteAuthorized h _ _ _, Err _ => remote_start_reply a h RemoteStartStopStatus.Rejected
  end.

Definition decision_level (d : Authorization.AuthorizationDecision) : LogLevel.t :=
  if Authorization.accepted d then LogLevel.Success else LogLevel.Warn.

Definition authorize_failed (done : AuthDone) (a : t) (e : CallError.t) : t :=
  run_auth_done a done (Err (call_failure e)).

Definition on_authorize_result (id_tag : IdTag) (done : AuthDone) (a : t)
    (r : result AuthorizeResponse.t CallError.t) : t :=
  match r with
  | Ok response =>
      let '(cache, decision) := Authorization.apply_online_id_tag_info id_tag
        (AuthorizeResponse.id_tag_info response) (now_utc a) (auth_cache a) (registry a) in
      let a := mark_dirty (a <| auth_cache := cache |>) in
      run_auth_done (log a (decision_level decision)) done (Ok decision)
  | Err e => authorize_failed done a e
  end.

Definition authorize (a : t) (id_tag : IdTag) (done : AuthDone) : t :=
  if negb (can_talk a) then
    let decision := Authorization.authorize_offline id_tag (now_utc a) (local_list a)
                      (auth_cache a) (registry a) in
    run_auth_done (log a (decision_level decision)) done (Ok decision)
  else
    call a Origin.Station (Request.Authorize (AuthorizeRequest.mk id_tag))
      (AuthorizeDone id_tag done) (authorize_failed done).
End transactions.
End Transactions.
