(* ===== verification/Secure.v ===== *)
(** * Secure: certificate requests and the transport rules of the security profiles

    [station/secure.rs] but for the security events ([Calls.v]), and
    [schedule_reconnect_after_reply] of [handlers/remote.rs]. *)

From stdpp Require Import strings gmap.
From S2P Require Import Prelude Text F64 Time Types Messages SecurityMessages Frame Actions.
From S2P Require Import ResponseRules Config ConfigRegistry LocalAuthList Authorization.
From S2P Require Import Connector Reservation Offline Timers Metering SmartCharging.
From S2P Require Import ChargingProfiles Maintenance Security Certificates Interface Store.
From S2P Require Import Actor Calls.
Local Open Scope Z_scope.

Module Secure.
Import Actor Calls.

(** Why a TLS handshake failed, as far as the security events care. *)
Inductive TlsFailure : Type := Version | CipherSuite.

Definition classify_tls_failure (text : str) : option TlsFailure :=
  if any (fun m => contains_str m text)
       [lit "received fatal alert: ProtocolVersion"; lit "ServerDoesNotSupportTls12Or13";
        lit "ServerTlsVersionIsDisabledByOurConfig"]
  then Some Version
  else if any (fun m => contains_str m text)
       [lit "received fatal alert: HandshakeFailure"; lit "received fatal alert: InsufficientSecurity";
        lit "peer is incompatible: NoCipherSuitesInCommon";
        lit "peer is incompatible: NoKxGroupsInCommon"]
  then Some CipherSuite
  else None.

(** Whether a failed attempt looks like the server refusing our client certificate. *)
Definition is_client_certificate_refusal (e : ConnectError.t) : bool :=
  match e with
  | ConnectError.Tls text | ConnectError.Handshake text | ConnectError.Network text =>
      any (fun alert => contains_str (lit "received fatal alert: " ++ alert) text)
        [lit "BadCertificate"; lit "UnsupportedCertificate"; lit "CertificateRevoked";
         lit "CertificateExpired"; lit "CertificateUnknown"; lit "UnknownCA";
         lit "CertificateRequired"; lit "AccessDenied"]
  | _ => false
  end.

(** [WILDCARD_REFUSED] of [ws/tls.rs] *)
Definition WILDCARD_REFUSED : str := lit "wildcard Central System certificate refused".

Definition secure_url (url : str) : bool := starts_with (lit "wss://") (to_ascii_lowercase url).

Section secure.
Context {J : SerdeJson} {P : Pki} {C : Chrono} {W : Wire} {U : UrlParser}.

(** [Command::SendSecurityEvent] *)
Definition send_security_event (a : t) (event_type : str) (tech_info : option str)
  : t * result Outcome.t StationError.t :=
  match Security.canonical_event_type event_type with
  | None => (a, Err StationError.InvalidArgument)
  | Some canonical => (security_event a canonical tech_info, Ok Outcome.Done)
  end.

(** ** [SignCertificate] *)

Definition set_secrets (a : t) (f : StationSecrets.t -> StationSecrets.t) : t := a <| secrets ::= f |>.

Definition set_certs (a : t) (f : CertificateStore.t -> CertificateStore.t) : t := a <| certs ::= f |>.

(** [self.sign_series.as_ref().filter(|s| s.id == id)] *)
Definition series_of (a : t) (id : Z) : option SignSeries.t :=
  match sign_series a with
  | Some s => if SignSeries.id s =? id then Some s else None
  | None => None
  end.

(** Ends the back-off series. *)
Definition stop_sign_series (a : t) : t :=
  let a := timer_cancel a TimerKey.CertSigning in
  match sign_series a with
  | Some _ => log (a <| sign_series := None |>) LogLevel.Info
  | None => a
  end.

(** [base.saturating_mul(1_u64.checked_shl(repeats).unwrap_or(u64::MAX))] seconds *)
Definition cert_signing_wait (a : t) (repeats : Z) : Duration :=
  let factor := if repeats <? 64 then Z.shiftl 1 repeats else u64_max in
  u64_saturating_mul (ConfigRegistry.cert_signing_wait_minimum_secs (registry a)) factor * NS_PER_SEC.

Definition arm_cert_signing_retry (a : t) (id : Z) : t :=
  match series_of a id with
  | None => a
  | Some series =>
      if ConfigRegistry.cert_signing_repeat_times (registry a) <=? SignSeries.repeats series
      then stop_sign_series a
      else timer_set a TimerKey.CertSigning (cert_signing_wait a (SignSeries.repeats series))
  end.

(** Puts [previous] back after a failed [SignCertificate], unless a newer request has replaced
    the key in the meantime. *)
Definition restore_pending_key (a : t) (key : str) (previous : option str) : t :=
  if StationSecrets.pending_key_pem (secrets a) == Some key
  then mark_secrets_dirty
         (set_secrets a (fun s => s <| StationSecrets.pending_key_pem := previous |>))
  else a.

Definition sign_failed (id : Z) (key : str) (previous : option str) (r : option Reply) (a : t)
    (e : CallError.t) : t :=
  let a := arm_cert_signing_retry (restore_pending_key a key previous) id in
  send_reply_opt a r (Err (call_failure e)).

(** The answer to [SignCertificate]: the decoded response and its value written back. *)
Definition on_sign_result (id : Z) (key : str) (previous : option str) (r : option Reply) (a : t)
    (result : result (SignCertificateResponse.t * json) CallError.t) : t :=
  match result with
  | Ok (response, payload) =>
      let a := if SignCertificateResponse.status response == GenericStatus.Accepted
               then log a LogLevel.Info
               else log (restore_pending_key a key previous) LogLevel.Warn in
      let a := arm_cert_signing_retry a id in
      send_reply_opt a r (Ok (Outcome.Response payload))
  | Err e => sign_failed id key previous r a e
  end.

(** Sends [SignCertificate] for series [id] (the first request or a repeat). *)
Definition send_sign_certificate (a : t) (id : Z) (r : option Reply) : t :=
  match series_of a id with
  | None => send_reply_opt a r (Err StationError.NotConnected)
  | Some series =>
      let key := SignSeries.key series in
      let previous := StationSecrets.pending_key_pem (secrets a) in
      let a := mark_secrets_dirty
                 (set_secrets a (fun s => s <| StationSecrets.pending_key_pem := Some key |>)) in
      call a Origin.Station
        (Request.SignCertificate (SignCertificateRequest.mk (SignSeries.csr series)))
        (SignDone id key previous r) (sign_failed id key previous r)
  end.

(** [request_certificate]; [r]: nobody may be waiting for the answer. The key pair is the next
    one the generator returns. *)
Definition request_certificate (a : t) (r : option Reply) : t :=
  let organization := match ConfigRegistry.cpo_name (registry a) with
                      | [] => lit "Kirby" | name => name end in
  let generated := from_option (fun k => k) None (head (fresh_keys a)) in
  let a := a <| fresh_keys ::= tail |> in
  match CertificateStore.generate_csr (StationConfig.charge_point_id (config a)) organization generated with
  | None => send_reply_opt a r (Err StationError.InvalidArgument)
  | Some (csr, key) =>
      if negb (connected a) then send_reply_opt a r (Err StationError.NotConnected)
      else
        let id := next_sign_series a + 1 in
        let a := timer_cancel (a <| next_sign_series := id |>) TimerKey.CertSigning in
        send_sign_certificate (a <| sign_series := Some (SignSeries.mk id csr key 0) |>) id r
  end.

(** The back-off expired without a [CertificateSigned]. *)
Definition on_cert_signing_timer (a : t) : t :=
  match sign_series a with
  | None => a
  | Some series =>
      let repeats := SignSeries.repeats series in
      if negb (connected a) || (registration a != Some RegistrationStatus.Accepted)
      then timer_set a TimerKey.CertSigning (cert_signing_wait a repeats)
      else
        let a := a <| sign_series := Some (series <| SignSeries.repeats := repeats + 1 |>) |> in
        send_sign_certificate (log a LogLevel.Warn) (SignSeries.id series) None
  end.

(** ** The charge point certificate *)

Definition adopt_signed_certificate (a : t) (chain key : str) : t :=
  let a :=
    match CertificateStore.previous_charge_point_chain (certs a) with
    | Some _ => a
    | None =>
        let old_chain := CertificateStore.charge_point_chain (certs a) in
        let old_key := StationSecrets.charge_point_key_pem (secrets a) in
        match old_chain, old_key with
        | Some old_chain, Some old_key =>
            set_secrets
              (set_certs a (fun s => s <| CertificateStore.previous_charge_point_chain := Some old_chain |>))
              (fun s => s <| StationSecrets.previous_charge_point_key_pem := Some old_key |>)
        | _, _ => a
        end
    end in
  let a := set_certs a (fun s => s <| CertificateStore.charge_point_chain := Some (trim chain) |>) in
  let a := set_secrets a (fun s => s <| StationSecrets.charge_point_key_pem := Some key |>
                                     <| StationSecrets.pending_key_pem := None |>) in
  a <| use_previous_cert := false |>.

(** A connection with a stored client certificate succeeded. *)
Definition client_certificate_connected (a : t) : t :=
  let used := connect_identity a in
  let has_previous := is_someb (CertificateStore.previous_charge_point_chain (certs a)) in
  let a := a <| use_previous_cert := false |> in
  match used, has_previous with
  | CurrentIdentity, true =>
      let a := set_certs a (fun s => s <| CertificateStore.previous_charge_point_chain := None |>) in
      let a := set_secrets a (fun s => s <| StationSecrets.previous_charge_point_key_pem := None |>) in
      flush_now (mark_secrets_dirty (log a LogLevel.Info))
  | PreviousIdentity, true =>
      let a := set_certs a (fun s =>
                 s <| CertificateStore.charge_point_chain := CertificateStore.previous_charge_point_chain s |>
                   <| CertificateStore.previous_charge_point_chain := None |>) in
      let a := set_secrets a (fun s =>
                 s <| StationSecrets.charge_point_key_pem := StationSecrets.previous_charge_point_key_pem s |>
                   <| StationSecrets.previous_charge_point_key_pem := None |>) in
      let a := security_event (log a LogLevel.Warn) (lit "DiscardedRenewedClientCertificate")
                 (Some (lit "the renewed client certificate could not establish a connection")) in
      flush_now (mark_secrets_dirty a)
  | _, _ => a
  end.

Definition has_client_identity (a : t) : bool :=
  is_someb (TlsConfig.cert_file (StationConfig.tls (config a)))
  || (is_someb (CertificateStore.charge_point_chain (certs a))
      && is_someb (StationSecrets.charge_point_key_pem (secrets a))).

(** ** Transport rules *)

(** Rules for raising [SecurityProfile]; [Err] carries the reason. *)
Definition check_security_change (a : t) (key value : str) : result unit str :=
  if negb (eq_ignore_ascii_case key ConfigRegistry.SECURITY_PROFILE) then Ok tt
  else
    match parse_unsigned u8_max value with
    | None => Ok tt
    | Some new =>
        let current := ConfigRegistry.security_profile (registry a) in
        let downgrade := (current =? 3) && (new =? 2)
                         && ConfigRegistry.allow_security_profile_downgrade (registry a) in
        let has_password :=
          match url_parse (StationConfig.url (config a)) with
          | Ok u => is_someb (url_password u)
          | Err _ => false
          end in
        if 3 <? new then Ok tt
        else if (new <? current) && negb downgrade
        then Err (lit "the security profile cannot be lowered")
        else if new =? current then
          if 1 <? new then Err (lit "the security profile is already in use") else Ok tt
        else if (2 <=? new) && negb (secure_url (StationConfig.url (config a)))
        then Err (lit "the profile needs a wss:// URL")
        else if (new =? 3) && negb (has_client_identity a)
        then Err (lit "profile 3 needs a client certificate")
        else if ((new =? 1) || (new =? 2)) && negb has_password
                && negb (is_someb (ConfigRegistry.authorization_key (registry a)))
        then Err (lit "the profile needs an AuthorizationKey (Basic Auth password)")
        else Ok tt
    end.

Definition option_zip {A B} (x : option A) (y : option B) : option (A * B) :=
  match x, y with Some x, Some y => Some (x, y) | _, _ => None end.

(** Applies the security profile to the config used to open a connection. *)
Definition apply_security_transport (a : t) (c : StationConfig.t)
  : StationConfig.t * StoredIdentity :=
  let profile := ConfigRegistry.security_profile (registry a) in
  let set_tls (c : StationConfig.t) (f : TlsConfig.t -> TlsConfig.t) := c <| StationConfig.tls ::= f |> in
  let c := set_tls c (fun x => x <| TlsConfig.allow_wildcard_certificates :=
                                     ConfigRegistry.allow_central_system_tls_wildcards (registry a) |>) in
  let c :=
    if (profile =? 1) || (profile =? 2) then
      match ConfigRegistry.authorization_key (registry a), url_parse (StationConfig.url c) with
      | Some key, Ok url =>
          if is_someb (url_password url) then c
          else c <| StationConfig.url :=
                      url_text (with_userinfo (StationConfig.charge_point_id c) key url) |>
      | _, _ => c
      end
    else c in
  let '(c, identity) :=
    if (profile =? 3) && negb (is_someb (TlsConfig.cert_file (StationConfig.tls c))) then
      let previous := if use_previous_cert a
        then option_zip (CertificateStore.previous_charge_point_chain (certs a))
                        (StationSecrets.previous_charge_point_key_pem (secrets a))
        else None in
      let current := option_zip (CertificateStore.charge_point_chain (certs a))
                                (StationSecrets.charge_point_key_pem (secrets a)) in
      let '(chosen, which) := match previous with
                              | Some chain_key => (Some chain_key, PreviousIdentity)
                              | None => (current, CurrentIdentity)
                              end in
      match chosen with
      | Some chain_key => (set_tls c (fun x => x <| TlsConfig.identity_pem := Some chain_key |>), which)
      | None => (c, NoIdentity)
      end
    else (c, NoIdentity) in
  let extra :=
    if use_fallback_root a && CertificateStore.has_fallback (certs a)
    then CertificateStore.fallback_pems (certs a)
    else CertificateStore.root_pems (certs a) CertificateUse.CentralSystemRootCertificate in
  (set_tls c (fun x => x <| TlsConfig.extra_roots_pem := extra |>), identity).

(** Reports [event_type] unless the current series of failed attempts already did. *)
Definition series_security_event (a : t) (event_type tech_info : str) : t :=
  if any (fun x => x == event_type) (failure_series a) then a
  else security_event (a <| failure_series ::= cons event_type |>) event_type (Some tech_info).

(** Security events for a failed attempt, and the next attempt's certificate choices. *)
Definition report_connect_failure (a : t) (e : ConnectError.t) : t :=
  let tls_with (needle : str) :=
    match e with ConnectError.Tls text => contains_str needle text | _ => false end in
  let certificate_error := tls_with (lit "invalid peer certificate") in
  let wildcard := tls_with WILDCARD_REFUSED in
  let a := if certificate_error && negb wildcard && CertificateStore.has_fallback (certs a)
           then a <| use_fallback_root ::= negb |> else a in
  let a := if (connect_identity a != NoIdentity)
              && is_someb (CertificateStore.previous_charge_point_chain (certs a))
              && is_client_certificate_refusal e
           then log (a <| use_previous_cert ::= negb |>) LogLevel.Warn else a in
  match e with
  | ConnectError.HttpStatus status line =>
      if (status =? 401) || (status =? 403)
      then series_security_event a (lit "FailedToAuthenticateAtCentralSystem") line else a
  | ConnectError.Tls text =>
      if certificate_error then series_security_event a (lit "InvalidCentralSystemCertificate") text
      else
        match classify_tls_failure text with
        | Some Version => series_security_event a (lit "InvalidTLSVersion") text
        | Some CipherSuite => series_security_event a (lit "InvalidTLSCipherSuite") text
        | None => a
        end
  | _ => a
  end.

(** A connection attempt succeeded. *)
Definition on_connection_established (a : t) : t :=
  client_certificate_connected (a <| failure_series := [] |>).

(** A TLS connection was made: with the new Central System root the fallback is not needed. *)
Definition on_tls_connected (a : t) : t :=
  let via_new_root :=
    negb (use_fallback_root a)
    && match CertificateStore.root_pems (certs a) CertificateUse.CentralSystemRootCertificate with
       | [] => false | _ => true end in
  let a := a <| use_fallback_root := false |> in
  if via_new_root && CertificateStore.has_fallback (certs a) then
    let '(s, dropped) := CertificateStore.drop_fallback (certs a) in
    let a := a <| certs := s |> in
    if dropped then log (flush_now a) LogLevel.Info else a
  else a.

(** ** Reconnecting after the reply ([handlers/remote.rs]) *)

Definition HARD_RESET_FIRST_CHECK : Duration := 100 * NS_PER_MS.
Definition HARD_RESET_POLL : Duration := 50 * NS_PER_MS.
Definition HARD_RESET_WAIT : Duration := 5 * NS_PER_SEC.

Definition schedule_reconnect_after_reply (a : t) : t :=
  timer_set (a <| hard_reset_deadline := Some (instant a + HARD_RESET_WAIT) |>)
    TimerKey.HardReset HARD_RESET_FIRST_CHECK.

Definition reconnect_for_new_security_parameters (a : t) : t :=
  if negb (connected a) || is_someb (hard_reset_deadline a) then a
  else schedule_reconnect_after_reply a.

(** Side effects of an accepted change of a security key. *)
Definition on_security_key_changed (a : t) (key : str) : t :=
  let a :=
    if key == ConfigRegistry.AUTHORIZATION_KEY
    then mark_secrets_dirty (set_secrets a (fun s =>
           s <| StationSecrets.authorization_key := ConfigRegistry.authorization_key (registry a) |>))
    else a in
  if (key == ConfigRegistry.AUTHORIZATION_KEY) || (key == ConfigRegistry.SECURITY_PROFILE) then
    let a := security_event (log a LogLevel.Info) (lit "ReconfigurationOfSecurityParameters") (Some key) in
    reconnect_for_new_security_parameters a
  else a.
End secure.
End Secure.
