(* ===== verification/Sampling.v ===== *)
(** * Sampling: MeterValues

    [station/sampling.rs] but for the (re)arming of its timers ([Calls.v]): the samplers, the
    [MeterValues] command, and the bound on the samples that await an answer. *)

From stdpp Require Import strings gmap.
From S2P Require Import Prelude Text F64 Time Types Messages SecurityMessages Frame Actions ResponseRules Config ConfigRegistry LocalAuthList Authorization Connector Reservation Offline Timers Metering SmartCharging ChargingProfiles Maintenance Security Certificates Interface Store Actor Calls Transactions.
Local Open Scope Z_scope.

Module Sampling.
Import Actor Calls Transactions.
Section sampling.
Context {J : SerdeJson} {P : Pki} {C : Chrono} {W : Wire}.

(** Most timer-driven [MeterValues] calls that may await an answer at the same time. *)
Definition MAX_PENDING_SAMPLES : Z := 16.

(** The [while] loop of [make_room_for_sample], over the samples in flight, oldest first. *)
Fixpoint abandon_samples (limit : Z) (samples : list Z) (a : t) : t :=
  match samples with
  | [] => a <| sample_calls := [] |>
  | token :: rest =>
      if len samples <? limit then a <| sample_calls := samples |>
      else
        match calls a !! token with
        | None => abandon_samples limit rest a
        | Some _ =>
            let a := emit (a <| calls ::= base.delete token |>) (Aborted token) in
            let a := if sample_overflow_warned a then a
                     else log (a <| sample_overflow_warned := true |>) LogLevel.Warn in
            abandon_samples limit rest a
        end
  end.

(** Abandons the oldest in-flight timer-driven samples until one more fits. *)
Definition make_room_for_sample (a : t) : t :=
  let samples := retain (fun token => is_someb (calls a !! token)) (sample_calls a) in
  abandon_samples (Z.max MAX_PENDING_SAMPLES (len (connectors a))) samples a.

Definition sample_failed (id : ConnectorId) (r : option Reply) (a : t) (e : CallError.t) : t :=
  check_energy_limit (send_reply_opt a r (Err (call_failure e))) id.

(** The answer to a [MeterValues]. *)
Definition on_sample_result (id : ConnectorId) (r : option Reply) (a : t)
    (result : result unit CallError.t) : t :=
  match result with
  | Ok _ =>
      check_energy_limit
        (send_reply_opt (a <| sample_overflow_warned := false |>) r (Ok Outcome.Done)) id
  | Err e => sample_failed id r a e
  end.

(** [MeterValuesRequest] of one sample *)
Definition sample_request (id : ConnectorId) (tx : option TxId.t) (sample : MeterValue.t)
  : MeterValuesRequest.t :=
  MeterValuesRequest.mk id (tx ≫= TxId.wire) [sample].

(** Advances the meter of [id] by [delta_wh] and sends one sample, if it can be sent. *)
Definition sample_meter (a : t) (id : ConnectorId) (context : ReadingContext.t) (delta_wh : Z)
    (measurands : list Measurand.t) (r : option Reply) : t :=
  let now := now_utc a in
  let a := flush_meters a in
  match find_connector a id with
  | None => send_reply_opt a r (Err (StationError.UnknownConnector id))
  | Some c =>
      let a := modify_connector a id (fun c =>
        c <| ConnectorSnapshot.meter_wh ::= fun wh => u64_saturating_add wh delta_wh |>) in
      let tx := connector_tx_id c in
      let a := if 0 <? delta_wh then mark_dirty a else a in
      if negb (can_talk a && negb (is_some_and TxId.is_local tx)) then
        check_energy_limit (send_reply_opt (log a LogLevel.Info) r (Ok Outcome.Done)) id
      else
        let '(a, reading) := meter_reading a id true in
        let sample := Metering.meter_value (power_model a) reading now measurands context in
        let a := if is_someb r then a else make_room_for_sample a in
        let tok := next_call_token a in
        let a := call a Origin.Station (Request.MeterValues (sample_request id tx sample))
                   (SampleDone id r) (sample_failed id r) in
        if negb (is_someb r) && is_someb (calls a !! tok)
        then a <| sample_calls ::= fun l => l ++ [tok] |> else a
  end.

Definition on_meter_periodic (a : t) (id : ConnectorId) : t :=
  if negb (is_sampling a id) then a
  else
    let interval := ConfigRegistry.meter_value_sample_interval_secs (registry a) in
    if interval =? 0 then a
    else
      let a := timer_set a (TimerKey.MeterPeriodic id) (interval * NS_PER_SEC) in
      sample_meter a id ReadingContext.SamplePeriodic 0
        (ConfigRegistry.measurands (registry a) ConfigRegistry.METER_VALUES_SAMPLED_DATA) None.

Definition on_meter_aligned (a : t) : t :=
  let a := match aligned_delay a with
           | Some delay => timer_set a TimerKey.MeterAligned delay
           | None => a
           end in
  let measurands := ConfigRegistry.measurands (registry a) ConfigRegistry.METER_VALUES_ALIGNED_DATA in
  fold_left (fun a id => sample_meter a id ReadingContext.SampleClock 0 measurands None)
    (connector_ids a) a.

(** The [MeterValues] command. *)
Definition meter_values_command (a : t) (id : ConnectorId) (wh_delta : Z)
    (measurands : option (list Measurand.t)) (r : Reply) : t :=
  match connector a id with
  | None => send_reply a r (Err (StationError.UnknownConnector id))
  | Some _ =>
      let measurands :=
        match measurands with
        | Some ((_ :: _) as l) => l
        | _ => ConfigRegistry.measurands (registry a) ConfigRegistry.METER_VALUES_SAMPLED_DATA
        end in
      sample_meter a id ReadingContext.SamplePeriodic wh_delta measurands (Some r)
  end.
End sampling.
End Sampling.

(** * Reservations: the reservation timers of the actor

    [station/reservations.rs]: one expiry timer per live reservation; the rules are those of
    [Reservation.v]. The source lets [arm_reservation] and [on_reservation_timer] call each
    other; the depth is a parameter here ([arm]), one level is enough because a wake-up
    releases everything that has expired before it arms the rest. *)

Module ReservationTimers.
Import Actor Calls.
Section reservations.
Context {J : SerdeJson} {P : Pki} {C : Chrono} {W : Wire}.

Definition released_one (a : t) (id : ConnectorId) : t :=
  status_changed (log (timer_cancel a (TimerKey.ReservationExpiry id)) LogLevel.Warn) id.

(** [expire_due] plus notifications; returns the released connectors. *)
Definition release_expired_reservations (a : t) : t * list ConnectorId :=
  let '(l, released) := Reservations.expire_due (connectors a) (now_utc a) in
  let a := fold_left released_one released (set_connectors a l) in
  (match released with [] => a | _ => flush_now a end, released).

(** The connectors that hold a reservation. *)
Definition reserved_ids (a : t) : list ConnectorId :=
  map ConnectorSnapshot.id
    (retain (fun c => is_someb (ConnectorSnapshot.reservation c)) (connectors a)).

(** [arm_reservation] with [depth] more calls of [on_reservation_timer]. *)
Fixpoint arm (depth : nat) (a : t) (id : ConnectorId) : t :=
  let delay := (fun r => Reservations.next_expiry_delay r (now_utc a)) <$>
                 (find_connector a id ≫= ConnectorSnapshot.reservation) in
  match delay with
  | Some (Some delay) => timer_set a (TimerKey.ReservationExpiry id) delay
  | Some None =>
      match depth with
      | O => a
      | S depth =>
          let '(a, _) := release_expired_reservations a in
          fold_left (arm depth) (reserved_ids a) a
      end
  | None => timer_cancel a (TimerKey.ReservationExpiry id)
  end.

(** Arms (or fires at once) the expiry timer of the reservation on [id], if any. *)
Definition arm_reservation (a : t) (id : ConnectorId) : t := arm 1 a id.

(** Releases expired reservations (all connectors) and re-arms the live ones. *)
Definition on_reservation_timer (a : t) : t :=
  let '(a, _) := release_expired_reservations a in
  fold_left arm_reservation (reserved_ids a) a.

(** After the persisted state was restored. *)
Definition after_restore (a : t) : t :=
  let '(a, _) := release_expired_reservations a in
  reschedule_metering (fold_left arm_reservation (reserved_ids a) a).
End reservations.
End ReservationTimers.
