(* ===== verification/Link.v ===== *)
(** * Link: the connection of the actor, boot, heartbeat and the answers to its CALLs

    [station/link.rs] and the receiving half of [station/calls.rs]: what runs when a CALL is
    answered ([run_continuation]), when the connection goes away ([fail_pending_calls]), and
    the life cycle of the connection with its back-off. The incoming CALLs are in
    [Handlers.v]. *)

From stdpp Require Import strings gmap.
From S2P Require Import Prelude Text F64 Time Types Messages SecurityMessages Frame Actions.
From S2P Require Import ResponseRules Config ConfigRegistry LocalAuthList Authorization.
From S2P Require Import Connector Reservation Offline Timers Metering SmartCharging.
From S2P Require Import ChargingProfiles Maintenance Security Certificates Interface Store.
From S2P Require Import Actor Calls Transactions Secure Sampling.
Local Open Scope Z_scope.

Module Links.
Import Actor Calls Transactions Secure Sampling.
Section link.
Context {J : SerdeJson} {P : Pki} {C : Chrono} {W : Wire} {U : UrlParser}.

(** Smallest delay between two boot attempts or heartbeats. *)
Definition MIN_PERIOD : Duration := NS_PER_SEC.

Definition set_link (a : t) (f : Link.t -> Link.t) : t := a <| link ::= f |>.

(** ** BootNotification *)

Definition registry_retry_period (a : t) : Duration :=
  Z.max (ConfigRegistry.heartbeat_interval_secs (registry a) * NS_PER_SEC) MIN_PERIOD.

(** (Re)arms the periodic heartbeat. *)
Definition arm_heartbeat (a : t) : t := timer_set a TimerKey.Heartbeat (registry_retry_period a).

(** Everything that follows an accepted boot. *)
Definition after_boot_accepted (a : t) : t :=
  let '(a, n) := start_offline_sync (a <| reset_retries := None |>) true in
  if n =? 0 then finish_boot_accepted a else a.

Definition on_boot_accepted (a : t) (response : BootNotificationResponse.t) : t :=
  let offset := dt_sub (BootNotificationResponse.current_time response) (now_utc a) in
  let a := a <| clock_offset := Some offset |> in
  let a := set_link a (fun l => l <| Link.attempts := 0 |>) in
  let a := match try_into 0 u32_max (BootNotificationResponse.interval response) with
           | Some interval =>
               if 0 <? interval
               then a <| registry ::= fun r =>
                      (ConfigRegistry.change r ConfigRegistry.HEARTBEAT_INTERVAL (to_string interval)).1 |>
               else a
           | None => a
           end in
  let a := a <| state ::= fun s => s <| Snapshot.heartbeat_interval_secs :=
                                       ConfigRegistry.heartbeat_interval_secs (registry a) |> |> in
  after_boot_accepted (log (mark_dirty (arm_heartbeat a)) LogLevel.Success).

Definition boot_failed (a : t) (r : option Reply) (e : CallError.t) : t :=
  let a := if connected a && Link.wanted (link a)
           then timer_set (log a LogLevel.Warn) TimerKey.BootRetry (registry_retry_period a) else a in
  send_reply_opt a r (Err (call_failure e)).

(** The boot was not accepted: it is repeated, quickly after a [Reset]. *)
Definition on_boot_refused (a : t) (response : BootNotificationResponse.t) : t :=
  let a := timer_cancel a TimerKey.Heartbeat in
  let asked := try_into 0 u64_max (BootNotificationResponse.interval response) in
  let delay := match asked with
               | Some secs => if 0 <? secs then secs * NS_PER_SEC else registry_retry_period a
               | None => registry_retry_period a
               end in
  let '(a, delay) :=
    match reset_retries a with
    | Some left_ =>
        if 0 <? left_ then (a <| reset_retries := Some (left_ - 1) |>, 500 * NS_PER_MS)
        else (a <| reset_retries := None |>, Z.max delay MIN_PERIOD)
    | None => (a, Z.max delay MIN_PERIOD)
    end in
  let a := log a LogLevel.Warn in
  if connected a && Link.wanted (link a) then timer_set a TimerKey.BootRetry delay else a.

(** [on_boot_result] with the response and its value written back. *)
Definition on_boot_result (a : t) (r : option Reply)
    (result : result (BootNotificationResponse.t * json) CallError.t) : t :=
  match result with
  | Err e => boot_failed a r e
  | Ok (response, payload) =>
      let a := set_registration a (Some (BootNotificationResponse.status response)) in
      let a := match BootNotificationResponse.status response with
               | RegistrationStatus.Accepted => on_boot_accepted a response
               | _ => on_boot_refused a response
               end in
      send_reply_opt a r (Ok (Outcome.Response payload))
  end.

(** The closure of [send_boot]. *)
Definition boot_done (gen : Z) (r : option Reply) (a : t)
    (result : result (BootNotificationResponse.t * json) CallError.t) : t :=
  let a := if Link.generation (link a) =? gen
           then set_link a (fun l => l <| Link.boot_in_flight := false |>) else a in
  on_boot_result a r result.

Definition boot_request (a : t) : BootNotificationRequest.t := {|
  BootNotificationRequest.charge_point_vendor := StationConfig.vendor (config a);
  BootNotificationRequest.charge_point_model := StationConfig.model (config a);
  BootNotificationRequest.charge_point_serial_number := StationConfig.serial_number (config a);
  BootNotificationRequest.charge_box_serial_number := None;
  BootNotificationRequest.firmware_version := StationConfig.firmware_version (config a);
  BootNotificationRequest.iccid := None;
  BootNotificationRequest.imsi := None;
  BootNotificationRequest.meter_type := None;
  BootNotificationRequest.meter_serial_number := None |}.

Definition send_boot (a : t) (r : option Reply) : t :=
  if negb (is_someb r) && Link.boot_in_flight (link a) then a
  else
    let a := timer_cancel a TimerKey.BootRetry in
    let a := set_link a (fun l => l <| Link.boot_in_flight := true |>) in
    let gen := Link.generation (link a) in
    call a Origin.Station (Request.BootNotification (boot_request a)) (BootDone gen r)
      (fun a e => boot_done gen r a (Err e)).

Definition on_boot_retry_timer (a : t) : t := if connected a then send_boot a None else a.

(** ** Heartbeat *)

(** The closure of [send_heartbeat]: the value of the response written back. *)
Definition heartbeat_done (r : option Reply) (a : t) (result : result json CallError.t) : t :=
  match result with
  | Ok payload =>
      let a := a <| state ::= fun s => s <| Snapshot.last_heartbeat_at := Some (now_utc a) |> |> in
      send_reply_opt (log a LogLevel.Success) r (Ok (Outcome.Response payload))
  | Err e => send_reply_opt a r (Err (call_failure e))
  end.

Definition send_heartbeat (a : t) (o : Origin.t) (r : option Reply) : t :=
  call a o Request.Heartbeat (HeartbeatDone r) (fun a e => heartbeat_done r a (Err e)).

Definition on_heartbeat_timer (a : t) : t :=
  if registration a != Some RegistrationStatus.Accepted then a
  else send_heartbeat (arm_heartbeat a) Origin.Station None.

(** ** The answers *)

(** [from_value::<A::Res>] of the answer of a typed call. *)
Definition typed {T} (name : str) (decode : json -> option T) (r : result json CallError.t)
  : result T CallError.t :=
  match r with
  | Err e => Err e
  | Ok v => match decode v with Some x => Ok x | None => Err (CallError.Decode name) end
  end.

(** The decoder of a response that nobody looks at, and of one that is written back. *)
Definition decoded (name : str) (v : json) : option unit :=
  if conf_decodes name v then Some tt else None.
Definition with_value {T} (name : str) (decode : json -> option T) (v : json) : option (T * json) :=
  (fun x => (x, conf_value name v)) <$> decode v.

(** [log_data_transfer_result] *)
Definition log_data_transfer_result (a : t) (name : str) (payload : json) : t :=
  if name != Actions.DataTransfer then a
  else
    let get (key : str) : option str :=
      match payload with Object l => field key l ≫= as_str | _ => None end in
    let a := log a (if get (lit "status") == Some (lit "Accepted") then LogLevel.Success
                    else LogLevel.Warn) in
    if is_someb (get (lit "data")) then log a LogLevel.Info else a.

(** The closure of [user_call]. *)
Definition user_call_done (name : str) (r : Reply) (a : t) (result : result json CallError.t) : t :=
  match result with
  | Ok payload =>
      send_reply (log_data_transfer_result a name payload) r (Ok (Outcome.Response payload))
  | Err e => send_reply a r (Err (call_failure e))
  end.

(** A user-initiated CALL answered with [Outcome::Response]. *)
Definition user_call (a : t) (request : Request.t) (r : Reply) : t :=
  call a Origin.Station request (UserCall r)
    (fun a e => user_call_done (Request.name request) r a (Err e)).

Definition raw_done (r : Reply) (a : t) (result : result json CallError.t) : t :=
  match result with
  | Ok payload => send_reply a r (Ok (Outcome.Response payload))
  | Err e => send_reply a r (Err (call_failure e))
  end.

Definition send_raw (a : t) (name : str) (body : json) (validate : bool) (r : Reply) : t :=
  call_raw a Origin.Raw name body validate (RawCall r) (fun a e => raw_done r a (Err e)).

(** The closure of [dispatch_status]. *)
Definition status_done (id : ConnectorId) (key : StatusKey.t) (r : option Reply) (a : t)
    (result : result unit CallError.t) : t :=
  match result with
  | Ok _ => send_reply_opt a r (Ok Outcome.Done)
  | Err e => status_failed id key r a e
  end.

Definition security_event_done (event : Security.PendingSecurityEvent) (a : t)
    (result : result unit CallError.t) : t :=
  match result with Ok _ => a | Err e => security_event_failed event a e end.

(** Runs the closure that a CALL of the action [name] was made with. *)
Definition run_continuation (name : str) (k : Continuation) (a : t) (r : result json CallError.t) : t :=
  let written := typed name (fun v => snd <$> with_value name (decoded name) v) r in
  match k with
  | NoOp => a
  | UserCall reply => user_call_done name reply a written
  | RawCall reply => raw_done reply a r
  | BootDone gen reply => boot_done gen reply a (typed name (with_value name boot_conf) r)
  | HeartbeatDone reply => heartbeat_done reply a written
  | StatusSent id key reply => status_done id key reply a (typed name (decoded name) r)
  | AuthorizeDone id_tag done => on_authorize_result id_tag done a (typed name authorize_conf r)
  | StartDone id local pending done => on_start_result id local pending done a (typed name start_conf r)
  | StopDone id tx tag started_at meter_start_wh info done =>
      on_stop_result id tx tag started_at meter_start_wh info done a (typed name (decoded name) r)
  | SyncStart key => on_sync_start a key (typed name start_conf r)
  | SyncStop key => on_sync_stop a key (typed name (decoded name) r)
  | SampleDone id reply => on_sample_result id reply a (typed name (decoded name) r)
  | SecurityEventSent event => security_event_done event a (typed name (decoded name) r)
  | SignDone id key previous reply =>
      on_sign_result id key previous reply a (typed name (with_value name sign_conf) r)
  end.

(** [CallDone] arrived from a call task. *)
Definition on_call_done (a : t) (tok gen : Z) (r : result json CallError.t) : t :=
  if negb (gen =? Link.generation (link a)) then a
  else
    match calls a !! tok with
    | None => a
    | Some pending =>
        let a := a <| calls ::= base.delete tok |> in
        let a := log a (match r with Ok _ => LogLevel.Success | Err _ => LogLevel.Error end) in
        run_continuation (action pending) (continuation pending) a r
    end.

(** The calls in flight, by token. *)
Definition pending_in_order (m : gmap Z PendingCall) : list (Z * PendingCall) :=
  omap (fun tok => (fun p => (tok, p)) <$> m !! tok) (sort_unstable (map fst (map_to_list m))).

Lemma pending_in_order_perm (m : gmap Z PendingCall) : pending_in_order m ≡ₚ map_to_list m.
Proof.
  unfold pending_in_order, sort_unstable. rewrite merge_sort_Permutation.
  assert (Hl : forall l : list (Z * PendingCall), (forall tok p, (tok, p) ∈ l -> m !! tok = Some p) ->
    omap (fun tok => (fun p => (tok, p)) <$> m !! tok) (map fst l) = l).
  { intros l. induction l as [|[tok p] l IH]; intros Hl; simpl; [done|].
    rewrite (Hl tok p) by set_solver. simpl. f_equal. apply IH. set_solver. }
  rewrite Hl; [done|]. by intros tok p Hp%elem_of_map_to_list.
Qed.

Definition fail_one (e : CallError.t) (a : t) (p : Z * PendingCall) : t :=
  run_continuation (action p.2) (continuation p.2) (emit a (Aborted p.1)) (Err e).

(** Fails every call in flight: each continuation runs once with [e]. *)
Definition fail_pending_calls (a : t) (e : CallError.t) : t :=
  let pending := calls a in
  fold_left (fail_one e) (pending_in_order pending) (a <| calls := ∅ |>).

(** ** The connection *)

Definition connect_options (a : t) : ConnectOptions.t := {|
  ConnectOptions.ping_interval := ConfigRegistry.web_socket_ping_interval (registry a);
  ConnectOptions.call_timeout := StationConfig.call_timeout (config a);
  ConnectOptions.serialize_calls := true;
  ConnectOptions.show_secrets := StationConfig.show_secrets (config a) |}.

Definition start_connect (a : t) : t :=
  let a := set_link a (fun l => l <| Link.generation ::= fun n => n + 1 |>) in
  let a := log (set_connection a ConnectionState.Connecting) LogLevel.Info in
  let '(c, identity_) := apply_security_transport a (config a) in
  let a := a <| connect_identity := identity_ |> in
  let a := emit a (Opening (Link.generation (link a)) c (connect_options a)) in
  set_link a (fun l => l <| Link.connecting := true |>).

(** [Connect]: reset the back-off, open the connection unless one is open or being opened. *)
Definition connect (a : t) : t :=
  let a := set_link a (fun l => l <| Link.wanted := true |> <| Link.attempts := 0 |>) in
  let a := timer_cancel a TimerKey.Reconnect in
  if connected a || Link.connecting (link a) then a else start_connect a.

(** [if let Some(handle) = self.link.connecting.take() { handle.abort() }] *)
Definition abort_connecting (a : t) : t :=
  if Link.connecting (link a)
  then set_link (emit a OpeningAborted) (fun l => l <| Link.connecting := false |>) else a.

(** Everything that must stop when the connection is gone, whatever the reason. *)
Definition link_down (a : t) (code : option Z) : t :=
  let a := set_link a (fun l => l <| Link.generation ::= fun n => n + 1 |> <| Link.conn := false |>
                                  <| Link.boot_in_flight := false |>) in
  let a := timer_cancel (timer_cancel (timer_cancel a TimerKey.Heartbeat) TimerKey.BootRetry)
             TimerKey.HardReset in
  let a := cancel_maintenance (a <| hard_reset_deadline := None |>) in
  let a := cancel_signed_firmware (cancel_log_upload a) in
  let a := a <| sync_outstanding := 0 |> <| sync_keys := [] |> <| sync_boot := false |>
             <| sync_failed := false |> <| sync_failures := ∅ |> in
  let a := reset_status_tracking (timer_cancel a TimerKey.SyncRetry) in
  let a := set_registration a None in
  let a := fail_pending_calls a (CallError.Closed code) in
  set_connection a ConnectionState.Disconnected.

(** Takes the events of the connection and, after [link_down], closes it in the background. *)
Definition drop_connection (a : t) : t :=
  let open := connected a in
  let a := link_down (set_link a (fun l => l <| Link.events := false |>)) None in
  if open then emit a Closing else a.

(** [Disconnect]: close the connection and stop all automatic behaviour. *)
Definition disconnect (a : t) : t :=
  let a := set_link a (fun l => l <| Link.wanted := false |> <| Link.attempts := 0 |>) in
  let a := abort_connecting (timer_cancel a TimerKey.Reconnect) in
  let a := drop_connection a in
  log (set_connection a ConnectionState.Disconnected) LogLevel.Info.

(** Hard [Reset]: closes the connection and opens a new one right away. *)
Definition reconnect_for_hard_reset (a : t) : t :=
  let a := drop_connection a in
  let a := set_link a (fun l => l <| Link.wanted := true |> <| Link.attempts := 0 |>) in
  start_connect (abort_connecting (timer_cancel a TimerKey.Reconnect)).

(** Arms the next reconnect attempt, or gives up when the attempts are used up. *)
Definition schedule_reconnect (a : t) : t :=
  if negb (Link.wanted (link a)) then a
  else
    let attempt := Link.attempts (link a) + 1 in
    let policy := StationConfig.reconnect (config a) in
    if negb (ReconnectConfig.allows_attempt policy attempt)
    then set_connection (log a LogLevel.Error) ConnectionState.Disconnected
    else
      let a := set_link a (fun l => l <| Link.attempts := attempt |>) in
      let delay := ReconnectConfig.delay_for_attempt policy attempt in
      let a := set_connection (log a LogLevel.Warn) (ConnectionState.Backoff attempt) in
      timer_set a TimerKey.Reconnect delay.

Definition on_reconnect_timer (a : t) : t :=
  if negb (Link.wanted (link a)) || connected a || Link.connecting (link a) then a
  else start_connect a.

Definition on_connect_result (a : t) (gen : Z) (r : result unit ConnectError.t) : t :=
  if negb (gen =? Link.generation (link a)) then a
  else
    let a := set_link a (fun l => l <| Link.connecting := false |>) in
    match r with
    | Ok _ =>
        let a := set_link a (fun l => l <| Link.conn := true |> <| Link.events := true |>) in
        let a := log (set_connection a ConnectionState.Connected) LogLevel.Success in
        let a := if secure_url (StationConfig.url (config a))
                    && negb (TlsConfig.skip_verify (StationConfig.tls (config a)))
                 then on_tls_connected a else a in
        send_boot (on_connection_established a) None
    | Err e =>
        let a := report_connect_failure (log a LogLevel.Error) e in
        schedule_reconnect (set_connection a ConnectionState.Disconnected)
    end.

(** [ConnectionEvent::Closed] *)
Definition on_closed (a : t) (code : option Z) : t :=
  let a := set_link (log a LogLevel.Warn) (fun l => l <| Link.events := false |>) in
  let a := set_connection (link_down a code) ConnectionState.Disconnected in
  schedule_reconnect a.

(** Reconnects once the CALLs in flight are done, or the wait ran out
    ([handlers/remote.rs]). *)
Definition on_hard_reset_timer (a : t) : t :=
  match hard_reset_deadline a with
  | None => a
  | Some deadline =>
      if negb (connected a) then a <| hard_reset_deadline := None |>
      else if negb (len (map_to_list (calls a)) =? 0) && (instant a <? deadline)
      then timer_set a TimerKey.HardReset HARD_RESET_POLL
      else reconnect_for_hard_reset (log (a <| hard_reset_deadline := None |>) LogLevel.Info)
  end.
End link.
End Links.
