(* ===== verification/Handlers.v ===== *)
(** * Handlers: the CALLs of the CSMS

    [station/handlers/]: one handler per action, the response rules that may answer in its
    place ([rules.rs]) and the dispatch ([mod.rs]). A handler consumes the right to answer its
    CALL ([ReplyHandle]). The requests are decoded by [serde]: [InWire] is its interface. *)

From stdpp Require Import strings gmap.
From S2P Require Import Prelude Text F64 Time Types Messages SecurityMessages Frame Actions.
From S2P Require Import ResponseRules Config ConfigRegistry LocalAuthList Authorization.
From S2P Require Import Connector Reservation Offline Timers Metering SmartCharging.
From S2P Require Import ChargingProfiles Maintenance Security Certificates Interface Store.
From S2P Require Import Actor Calls Transactions Secure Sampling Link.
Local Open Scope Z_scope.

(** [serde_json::from_value::<A::Req>] of every action the CSMS may send. *)
Class InWire {J : SerdeJson} : Type := {
  cancel_reservation_req : json -> option CancelReservationRequest.t;
  certificate_signed_req : json -> option CertificateSignedRequest.t;
  change_availability_req : json -> option ChangeAvailabilityRequest.t;
  change_configuration_req : json -> option ChangeConfigurationRequest.t;
  clear_cache_req : json -> option unit;
  clear_charging_profile_req : json -> option ClearChargingProfileRequest.t;
  data_transfer_req : json -> option DataTransferRequest.t;
  delete_certificate_req : json -> option DeleteCertificateRequest.t;
  extended_trigger_message_req : json -> option ExtendedTriggerMessageRequest.t;
  get_composite_schedule_req : json -> option GetCompositeScheduleRequest.t;
  get_configuration_req : json -> option GetConfigurationRequest.t;
  get_diagnostics_req : json -> option GetDiagnosticsRequest.t;
  get_installed_certificate_ids_req : json -> option GetInstalledCertificateIdsRequest.t;
  get_local_list_version_req : json -> option unit;
  get_log_req : json -> option GetLogRequest.t;
  install_certificate_req : json -> option InstallCertificateRequest.t;
  remote_start_transaction_req : json -> option RemoteStartTransactionRequest.t;
  remote_stop_transaction_req : json -> option RemoteStopTransactionRequest.t;
  reserve_now_req : json -> option ReserveNowRequest.t;
  reset_req : json -> option ResetRequest.t;
  send_local_list_req : json -> option SendLocalListRequest.t;
  set_charging_profile_req : json -> option SetChargingProfileRequest.t;
  signed_update_firmware_req : json -> option SignedUpdateFirmwareRequest.t;
  trigger_message_req : json -> option TriggerMessageRequest.t;
  unlock_connector_req : json -> option UnlockConnectorRequest.t;
  update_firmware_req : json -> option UpdateFirmwareRequest.t;
  (** the text of the error of the PEM and DER parsers for a text they refuse *)
  pem_error_text : str -> str;
}.

Module Handlers.
Import Actor Calls Transactions Secure Sampling ReservationTimers Links.
Section handlers.
Context {J : SerdeJson} {P : Pki} {C : Chrono} {W : Wire} {U : UrlParser} {I : InWire}.

(** ** Availability ([availability.rs]) *)

(** One target: the state, whether a change waits, the changed connectors. *)
Definition change_one (kind : AvailabilityType.t) (acc : t * bool * list ConnectorId)
    (id : ConnectorId) : t * bool * list ConnectorId :=
  let '(a, scheduled, changed) := acc in
  match find_connector a id with
  | None => acc
  | Some c =>
      if negb (TransactionState.is_idle (ConnectorSnapshot.transaction c))
      then (modify_connector a id (fun c =>
              c <| ConnectorSnapshot.pending_availability := Some kind |>), true, changed)
      else
        (modify_connector a id (fun c =>
           let c := c <| ConnectorSnapshot.pending_availability := None |>
                      <| ConnectorSnapshot.availability := kind |> in
           c <| ConnectorSnapshot.status := Connector.status_after_availability_change c kind |>),
         scheduled, changed ++ [id])
  end.

Definition change_station (a : t) (kind : AvailabilityType.t) : t :=
  a <| state ::= fun s =>
    s <| Snapshot.charge_point ::= fun c =>
           c <| ConnectorSnapshot.availability := kind |>
             <| ConnectorSnapshot.status ::= Connector.charge_point_status kind |> |>
      <| Snapshot.availability := kind |> |>.

Definition change_availability (a : t) (h : ReplyHandle.t) (request : ChangeAvailabilityRequest.t) : t :=
  let kind := ChangeAvailabilityRequest.kind request in
  let id := ChangeAvailabilityRequest.connector_id request in
  let reply a s := respond a h (Response.ChangeAvailability (ChangeAvailabilityResponse.mk s)) in
  let whole_station := is_station id in
  if negb whole_station && negb (is_someb (connector a id)) then reply a AvailabilityStatus.Rejected
  else
    let targets := if whole_station then connector_ids a else [id] in
    let '(a, changed) := if whole_station then (change_station a kind, [STATION]) else (a, []) in
    let '(a, scheduled, changed) := fold_left (change_one kind) targets (a, false, changed) in
    let a := reply a (if scheduled then AvailabilityStatus.Scheduled else AvailabilityStatus.Accepted) in
    fold_left status_changed changed (flush_now (log a LogLevel.Info)).

Definition unlock_connector (a : t) (h : ReplyHandle.t) (request : UnlockConnectorRequest.t) : t :=
  let id := UnlockConnectorRequest.connector_id request in
  let '(status, running) :=
    match connector a id with
    | None => (UnlockStatus.NotSupported, false)
    | Some c => (UnlockStatus.Unlocked, negb (TransactionState.is_idle (ConnectorSnapshot.transaction c)))
    end in
  let a := respond a h (Response.UnlockConnector (UnlockConnectorResponse.mk status)) in
  if running then stop_transaction a id StopReason.UnlockCommand None Ignore else a.

(** ** Configuration ([config.rs]) *)

(** Side effects of an accepted configuration change. *)
Definition on_configuration_changed (a : t) (key : str) : t :=
  if key == ConfigRegistry.HEARTBEAT_INTERVAL then
    let a := a <| state ::= fun s => s <| Snapshot.heartbeat_interval_secs :=
                                        ConfigRegistry.heartbeat_interval_secs (registry a) |> |> in
    if registration a == Some RegistrationStatus.Accepted then arm_heartbeat a else a
  else if (key == ConfigRegistry.MINIMUM_STATUS_DURATION)
          && (ConfigRegistry.minimum_status_duration (registry a) =? 0)
  then flush_pending_statuses a
  else if (key == ConfigRegistry.METER_VALUE_SAMPLE_INTERVAL)
          || (key == ConfigRegistry.CLOCK_ALIGNED_DATA_INTERVAL)
  then restart_metering a
  else a.

Definition apply_configuration_change (a : t) (key v : str) : t * ConfigurationStatus.t :=
  match check_security_change a key v with
  | Err _ => (log a LogLevel.Warn, ConfigurationStatus.Rejected)
  | Ok _ =>
      let '(r, status) := ConfigRegistry.change (registry a) key v in
      let a := a <| registry := r |> in
      if status != ConfigurationStatus.Accepted then (log a LogLevel.Warn, status)
      else
        let canonical := match ConfigRegistry.get (registry a) key with
                         | Some entry => ConfigRegistry.key entry
                         | None => key
                         end in
        let a := on_security_key_changed (log a LogLevel.Info) canonical in
        (on_configuration_changed (flush_now a) canonical, status)
  end.

Definition change_configuration (a : t) (h : ReplyHandle.t) (request : ChangeConfigurationRequest.t) : t :=
  let '(a, status) := apply_configuration_change a (ChangeConfigurationRequest.key request)
                        (ChangeConfigurationRequest.value request) in
  respond a h (Response.ChangeConfiguration (ChangeConfigurationResponse.mk status)).

Definition reported_key (e : ConfigRegistry.ConfigEntry) : ConfigurationKey.t := {|
  ConfigurationKey.key := ConfigRegistry.key e;
  ConfigurationKey.readonly := ConfigRegistry.readonly e;
  ConfigurationKey.value := if ConfigRegistry.secret e then None else Some (ConfigRegistry.entry_value e) |}.

(** [(!l.is_empty()).then_some(l)] *)
Definition non_empty {A} (l : list A) : option (list A) :=
  match l with [] => None | _ => Some l end.

Definition get_configuration (a : t) (h : ReplyHandle.t) (request : GetConfigurationRequest.t) : t :=
  let requested := from_option (fun l => l) [] (GetConfigurationRequest.key request) in
  match ConfigRegistry.get_configuration (registry a) requested with
  | Err _ => respond_error a h ErrorCode.OccurenceConstraintViolation
  | Ok report =>
      respond a h (Response.GetConfiguration (GetConfigurationResponse.mk
        (non_empty (map reported_key (ConfigRegistry.configuration_key report)))
        (non_empty (ConfigRegistry.unknown_key report))))
  end.

(** ** [data_transfer.rs], [local_list.rs] *)

Definition data_transfer (a : t) (h : ReplyHandle.t) (request : DataTransferRequest.t) : t :=
  respond a h (Response.DataTransfer
    (if DataTransferRequest.vendor_id request == StationConfig.vendor (config a)
     then DataTransferResponse.mk DataTransferStatus.Accepted (DataTransferRequest.data request)
     else DataTransferResponse.mk DataTransferStatus.UnknownVendorId None)).

Definition send_local_list (a : t) (h : ReplyHandle.t) (request : SendLocalListRequest.t) : t :=
  let '(l, status) := LocalAuthList.apply (local_list a) request
                        (LocalAuthList.from_config (registry a)) in
  let a := a <| local_list := l |> in
  let a := if status == UpdateStatus.Accepted then log (flush_now a) LogLevel.Info
           else log a LogLevel.Warn in
  respond a h (Response.SendLocalList (SendLocalListResponse.mk status)).

Definition get_version (a : t) (h : ReplyHandle.t) : t :=
  respond a h (Response.GetLocalListVersion (GetLocalListVersionResponse.mk
    (LocalAuthList.reported_version (local_list a)
       (ConfigRegistry.local_auth_list_enabled (registry a))))).

Definition clear_cache (a : t) (h : ReplyHandle.t) : t :=
  let a := flush_now (a <| auth_cache ::= Authorization.clear |>) in
  respond a h (Response.ClearCache (ClearCacheResponse.mk ClearCacheStatus.Accepted)).

(** ** Remote control ([remote.rs]) *)

Definition remote_start_target (a : t) (request : RemoteStartTransactionRequest.t) : option ConnectorId :=
  let first :=
    ConnectorSnapshot.id <$> find_first (fun c =>
      TransactionState.is_idle (ConnectorSnapshot.transaction c)
      && (ConnectorSnapshot.availability c == AvailabilityType.Operative)
      && (ConnectorSnapshot.status c == ConnectorStatus.Available)) (connectors a) in
  match RemoteStartTransactionRequest.connector_id request with
  | Some id => if is_station id then first else Some id
  | None => first
  end.

Definition remote_profile_ok (profile : option ChargingProfile.t) : bool :=
  is_none_or (fun p =>
    (ChargingProfile.charging_profile_purpose p == ChargingProfilePurposeType.TxProfile)
    && negb (is_someb (ChargingProfile.transaction_id p))) profile.

Definition remote_start (a : t) (h : ReplyHandle.t) (request : RemoteStartTransactionRequest.t) : t :=
  let now := now_utc a in
  let id_tag := RemoteStartTransactionRequest.id_tag request in
  let profile := RemoteStartTransactionRequest.charging_profile request in
  let authorize_first := ConfigRegistry.authorize_remote_tx_requests (registry a) in
  match remote_start_target a request with
  | None => remote_start_reply a h RemoteStartStopStatus.Rejected
  | Some id =>
      let c := connector a id in
      let parent := Authorization.known_parent id_tag now (local_list a) (auth_cache a) in
      let allowed :=
        if negb authorize_first then Reservations.can_remote_start c id_tag parent now
        else is_some_and Reservations.remote_start_usable c in
      if negb (remote_profile_ok profile && allowed)
      then remote_start_reply a h RemoteStartStopStatus.Rejected
      else if authorize_first then authorize a id_tag (RemoteAuthorized h id id_tag profile)
      else begin_remote_start (remote_start_reply a h RemoteStartStopStatus.Accepted) id id_tag profile
  end.

Definition remote_stop (a : t) (h : ReplyHandle.t) (request : RemoteStopTransactionRequest.t) : t :=
  let tx := TxId.Csms (RemoteStopTransactionRequest.transaction_id request) in
  let reply s := respond a h (Response.RemoteStopTransaction (RemoteStopTransactionResponse.mk s)) in
  match find_first (holds_tx tx) (connectors a) with
  | Some c =>
      stop_transaction (reply RemoteStartStopStatus.Accepted) (ConnectorSnapshot.id c)
        StopReason.Remote None Ignore
  | None => reply RemoteStartStopStatus.Rejected
  end.

(** A running transaction at a reset: stopped, and the EV gone. *)
Definition reset_running (reason : StopReason.t) (a : t) (id : ConnectorId) : t :=
  let a := stop_transaction a id reason None Ignore in
  let a := modify_connector a id (fun c =>
    c <| ConnectorSnapshot.ev_connected := false |>
      <| ConnectorSnapshot.status :=
           if ConnectorSnapshot.availability c == AvailabilityType.Inoperative
           then ConnectorStatus.Unavailable else ConnectorStatus.Available |>) in
  status_changed a id.

Definition reset_reserved (a : t) (id : ConnectorId) : t :=
  let a := modify_connector a id (fun c => (Reservations.clear_reservation c).1) in
  status_changed (timer_cancel a (TimerKey.ReservationExpiry id)) id.

Definition running_ids (a : t) : list ConnectorId :=
  map ConnectorSnapshot.id
    (retain (fun c => negb (TransactionState.is_idle (ConnectorSnapshot.transaction c))) (connectors a)).

Definition perform_reset (a : t) (kind : ResetType.t) : t :=
  let reason := match kind with
                | ResetType.Hard => StopReason.HardReset
                | ResetType.Soft => StopReason.SoftReset
                end in
  let a := security_event (log a LogLevel.Warn) (lit "ResetOrReboot")
             (Some (ResetType.as_str kind ++ lit " reset requested by the CSMS")) in
  let a := timer_cancel (timer_cancel a TimerKey.Heartbeat) TimerKey.BootRetry in
  let a := cancel_signed_firmware (cancel_log_upload (cancel_maintenance a)) in
  let a := timer_cancel_where a is_meter_timer in
  let a := fold_left (reset_running reason) (running_ids a) a in
  let a := fold_left reset_reserved (reserved_ids a) a in
  let a := set_registration a None in
  let a := a <| reset_retries := Some (ConfigRegistry.reset_retries (registry a)) |> in
  let a :=
    if connected a then
      match kind with
      | ResetType.Soft => timer_set a TimerKey.BootRetry (500 * NS_PER_MS)
      | ResetType.Hard => schedule_reconnect_after_reply a
      end
    else a in
  flush_now a.

Definition reset (a : t) (h : ReplyHandle.t) (request : ResetRequest.t) : t :=
  perform_reset (respond a h (Response.Reset (ResetResponse.mk ResetStatus.Accepted)))
    (ResetRequest.kind request).

(** ** Reservations ([reservation.rs]) *)

(** The connector whose reservation the request moves. *)
Definition moved_from (l : list ConnectorSnapshot.t) (request : ReserveNowRequest.t) : option ConnectorId :=
  ConnectorSnapshot.id <$> find_first (fun c =>
    Reservations.has_reservation (ReserveNowRequest.reservation_id request) c
    && negb (ConnectorSnapshot.id c =? ReserveNowRequest.connector_id request)) l.

Definition reserve_now_handler (a : t) (h : ReplyHandle.t) (request : ReserveNowRequest.t) : t :=
  let '(a, _) := release_expired_reservations a in
  let moved := moved_from (connectors a) request in
  let trial := match moved with
               | Some _ => (Reservations.cancel_reservation (connectors a)
                              (ReserveNowRequest.reservation_id request)).1
               | None => connectors a
               end in
  let reply a s := respond a h (Response.ReserveNow (ReserveNowResponse.mk s)) in
  match Reservations.reserve_now trial request (now_utc a)
          (ConfigRegistry.reserve_connector_zero_supported (registry a)) with
  | Ok (l, target) =>
      let a := log (reply (set_connectors a l) ReservationStatus.Accepted) LogLevel.Info in
      let a := match moved with
               | Some old => status_changed (timer_cancel a (TimerKey.ReservationExpiry old)) old
               | None => a
               end in
      status_changed (flush_now (arm_reservation a target)) target
  | Err status => reply a status
  end.

Definition cancel_reservation_handler (a : t) (h : ReplyHandle.t)
    (request : CancelReservationRequest.t) : t :=
  let reply a s := respond a h (Response.CancelReservation (CancelReservationResponse.mk s)) in
  let '(l, cancelled) := Reservations.cancel_reservation (connectors a)
                           (CancelReservationRequest.reservation_id request) in
  let a := set_connectors a l in
  match cancelled with
  | Some id =>
      let a := timer_cancel (reply a CancelReservationStatus.Accepted) (TimerKey.ReservationExpiry id) in
      status_changed (flush_now a) id
  | None => reply a CancelReservationStatus.Rejected
  end.

(** ** Charging profiles ([smart.rs]) *)

Definition set_profile (a : t) (h : ReplyHandle.t) (request : SetChargingProfileRequest.t) : t :=
  let '(a, status) := set_charging_profile a (SetChargingProfileRequest.connector_id request)
                        (SetChargingProfileRequest.cs_charging_profiles request) in
  respond a h (Response.SetChargingProfile (SetChargingProfileResponse.mk status)).

Definition clear_profile (a : t) (h : ReplyHandle.t) (request : ClearChargingProfileRequest.t) : t :=
  let '(p, status) := ChargingProfileStore.clear (profiles a) request (now_utc a) in
  respond (mark_dirty (a <| profiles := p |>)) h
    (Response.ClearChargingProfile (ClearChargingProfileResponse.mk status)).

Definition composite_schedule (a : t) (h : ReplyHandle.t) (request : GetCompositeScheduleRequest.t) : t :=
  let '(active_tx, tx_started_at) :=
    transaction_context (transaction_of a (GetCompositeScheduleRequest.connector_id request)) in
  let query := {|
    CompositeRequest.connector := GetCompositeScheduleRequest.connector_id request;
    CompositeRequest.duration_s := GetCompositeScheduleRequest.duration request;
    CompositeRequest.unit := GetCompositeScheduleRequest.charging_rate_unit request;
    CompositeRequest.now := now_utc a;
    CompositeRequest.connector_count := connector_count a;
    CompositeRequest.active_tx := active_tx;
    CompositeRequest.tx_started_at := tx_started_at;
    CompositeRequest.model := power_model a |} in
  let before := len (profiles a) in
  let '(p, r) := ChargingProfileStore.composite_schedule (profiles a) query in
  let a := a <| profiles := p |> in
  let a := if len p =? before then a else mark_dirty a in
  respond a h (Response.GetCompositeSchedule
    match r with
    | Ok schedule => {|
        GetCompositeScheduleResponse.status := GetCompositeScheduleStatus.Accepted;
        GetCompositeScheduleResponse.connector_id := Some (CompositeSchedule.connector_id schedule);
        GetCompositeScheduleResponse.schedule_start := Some (CompositeSchedule.schedule_start schedule);
        GetCompositeScheduleResponse.charging_schedule :=
          Some (CompositeSchedule.charging_schedule schedule) |}
    | Err _ => {|
        GetCompositeScheduleResponse.status := GetCompositeScheduleStatus.Rejected;
        GetCompositeScheduleResponse.connector_id := None;
        GetCompositeScheduleResponse.schedule_start := None;
        GetCompositeScheduleResponse.charging_schedule := None |}
    end).

(** ** Maintenance ([maintenance.rs]) *)

Definition non_negative (v : option Z) : Z := from_option (fun n => n) 0 (v ≫= try_into 0 u32_max).
(** [Duration::from_secs(non_negative(retry_interval))] *)
Definition retry_pause (v : option Z) : Duration := non_negative v * NS_PER_SEC.

(** [(at - now).to_std()] *)
Definition to_std_until (a : t) (at_ : DateTime) : option Duration :=
  let delta := dt_sub at_ (now_utc a) in if 0 <=? delta then Some delta else None.

(** The URL check of [station/maintenance.rs]. *)
Definition valid_log_location (location : str) : bool :=
  match url_parse location with
  | Ok url =>
      any (fun s => s == url_scheme url) [lit "ftp"; lit "ftps"; lit "http"; lit "https"; lit "sftp"]
      && is_someb (url_host url)
  | Err _ => false
  end.

Definition file_name (a : t) (prefix : str) : str :=
  prefix ++ lit "-" ++ StationConfig.charge_point_id (config a) ++ lit "-"
    ++ format_stamp (now_utc a) ++ lit ".log".

Definition get_diagnostics (a : t) (h : ReplyHandle.t) (request : GetDiagnosticsRequest.t) : t :=
  let a := respond a h (Response.GetDiagnostics (GetDiagnosticsResponse.mk
             (Some (file_name a (lit "diagnostics"))))) in
  let plan := Maintenance.plan_diagnostics (Snapshot.diagnostics_outcome (state a))
    (non_negative (GetDiagnosticsRequest.retries request))
    (retry_pause (GetDiagnosticsRequest.retry_interval request)) in
  arm_next (a <| diagnostics_plan := plan |>) TimerKey.Diagnostics plan.

Definition get_log (a : t) (h : ReplyHandle.t) (request : GetLogRequest.t) : t :=
  let reply a s name := respond a h (Response.GetLog (GetLogResponse.mk s name)) in
  if negb (valid_log_location (LogParameters.remote_location (GetLogRequest.log request)))
  then reply (log a LogLevel.Warn) LogStatus.Rejected None
  else
    let canceled := match log_upload a with [] => false | _ => true end in
    let a := cancel_log_upload a in
    let prefix := match GetLogRequest.log_type request with
                  | LogType.DiagnosticsLog => lit "diagnostics-log"
                  | LogType.SecurityLog => lit "security-log"
                  end in
    let a := reply a (if canceled then LogStatus.AcceptedCanceled else LogStatus.Accepted)
               (Some (file_name a prefix)) in
    let id := GetLogRequest.request_id request in
    let a := a <| state ::= fun s => s <| Snapshot.log_request_id := Some id |>
                                       <| Snapshot.log_status := UploadLogStatus.Idle |> |> in
    let plan := Maintenance.plan_log (Snapshot.diagnostics_outcome (state a))
      (non_negative (GetLogRequest.retries request))
      (retry_pause (GetLogRequest.retry_interval request)) in
    arm_next (a <| log_request_id := Some id |> <| log_upload := plan |>) TimerKey.LogUpload plan.

Definition update_firmware (a : t) (h : ReplyHandle.t) (request : UpdateFirmwareRequest.t) : t :=
  let a := respond a h Response.UpdateFirmware in
  let a := a <| last_firmware_signed := false |> in
  let plan := Maintenance.plan_firmware (Snapshot.firmware_outcome (state a))
    (non_negative (UpdateFirmwareRequest.retries request))
    (retry_pause (UpdateFirmwareRequest.retry_interval request)) in
  let wait := Z.min (from_option (fun d => d) 0
                       (to_std_until a (UpdateFirmwareRequest.retrieve_date request)))
                Maintenance.MAX_DELAY in
  let a := a <| firmware_plan := plan |> in
  match plan with [] => a | _ => timer_set a TimerKey.Firmware wait end.

(** The signing certificate must parse, be valid now and, when a manufacturer root is
    installed, chain to one. *)
Definition check_signing_certificate (a : t) (pem : str) : result unit str :=
  match CertificateStore.parse_pem_chain pem with
  | None => Err (pem_error_text pem)
  | Some chain =>
      match find_first (fun cert => negb (CertificateStore.valid_at cert (now_utc a))) chain with
      | Some bad => Err (CertificateStore.subject bad ++ lit " is expired or not yet valid")
      | None =>
          match CertificateStore.chains_to_manufacturer_root (certs a) chain with
          | Some false => Err (lit "does not chain to an installed manufacturer root")
          | _ => Ok tt
          end
      end
  end.

(** The refusal of a signed update, with the events it raises. *)
Definition signed_refusal (a : t) (firmware : SignedFirmware.t) : t * option UpdateFirmwareStatus.t :=
  if negb (valid_log_location (SignedFirmware.location firmware))
  then (log a LogLevel.Warn, Some UpdateFirmwareStatus.Rejected)
  else
    match check_signing_certificate a (SignedFirmware.signing_certificate firmware) with
    | Err reason =>
        (security_event (log a LogLevel.Warn) (lit "InvalidFirmwareSigningCertificate") (Some reason),
         Some UpdateFirmwareStatus.InvalidCertificate)
    | Ok _ => (a, None)
    end.

Definition signed_update_firmware (a : t) (h : ReplyHandle.t) (request : SignedUpdateFirmwareRequest.t) : t :=
  let firmware := SignedUpdateFirmwareRequest.firmware request in
  let reply a s := respond a h (Response.SignedUpdateFirmware (SignedUpdateFirmwareResponse.mk s)) in
  let '(a, refusal) := signed_refusal a firmware in
  match refusal with
  | Some status => reply a status
  | None =>
      let canceled := match signed_fw a with [] => false | _ => true end in
      let a := cancel_signed_firmware a in
      let a := reply a (if canceled then UpdateFirmwareStatus.AcceptedCanceled
                        else UpdateFirmwareStatus.Accepted) in
      let until at_ := match to_std_until a at_ with
                       | Some d => if d =? 0 then None else Some d
                       | None => None
                       end in
      let plan := Maintenance.plan_signed
        (non_negative (SignedUpdateFirmwareRequest.retries request))
        (retry_pause (SignedUpdateFirmwareRequest.retry_interval request))
        (until (SignedFirmware.retrieve_date_time firmware))
        (SignedFirmware.install_date_time firmware ≫= until)
        (Snapshot.firmware_outcome (state a)) in
      let id := SignedUpdateFirmwareRequest.request_id request in
      let a := a <| last_firmware_signed := true |> <| signed_fw_request_id := Some id |> in
      let a := a <| state ::= fun s =>
                 s <| Snapshot.signed_firmware_request_id := Some id |>
                   <| Snapshot.signed_firmware_status := SignedFirmwareStatus.Idle |> |> in
      arm_next (a <| signed_fw := plan |>) TimerKey.SignedFirmware plan
  end.

(** ** Certificates ([security.rs]) *)

Definition install_certificate (a : t) (h : ReplyHandle.t) (request : InstallCertificateRequest.t) : t :=
  let before := CertificateStore.roots (certs a) in
  let '(s, status) := CertificateStore.install (certs a)
    (InstallCertificateRequest.certificate_type request)
    (InstallCertificateRequest.certificate request) (now_utc a)
    (ConfigRegistry.certificate_store_max_length (registry a))
    (ConfigRegistry.additional_root_certificate_check (registry a)) in
  let a := set_certs a (fun _ => s) in
  let a :=
    match status with
    | InstallCertificateStatus.Accepted =>
        let a := if CertificateStore.roots s == before then a
                 else flush_now (a <| use_fallback_root := false |>) in
        log a LogLevel.Info
    | InstallCertificateStatus.Rejected => log (log a LogLevel.Warn) LogLevel.Warn
    | InstallCertificateStatus.Failed => log a LogLevel.Warn
    end in
  respond a h (Response.InstallCertificate (InstallCertificateResponse.mk status)).

Definition delete_certificate (a : t) (h : ReplyHandle.t) (request : DeleteCertificateRequest.t) : t :=
  let keep_last := 2 <=? ConfigRegistry.security_profile (registry a) in
  let '(s, status) := CertificateStore.delete (certs a)
    (DeleteCertificateRequest.certificate_hash_data request) keep_last in
  let a := set_certs a (fun _ => s) in
  let a := if status == DeleteCertificateStatus.Accepted then flush_now a else a in
  respond (log a LogLevel.Info) h (Response.DeleteCertificate (DeleteCertificateResponse.mk status)).

Definition get_installed_certificate_ids (a : t) (h : ReplyHandle.t)
    (request : GetInstalledCertificateIdsRequest.t) : t :=
  respond a h (Response.GetInstalledCertificateIds
    match CertificateStore.ids (certs a) (GetInstalledCertificateIdsRequest.certificate_type request) with
    | [] => GetInstalledCertificateIdsResponse.mk GetInstalledCertificateStatus.NotFound None
    | ids => GetInstalledCertificateIdsResponse.mk GetInstalledCertificateStatus.Accepted (Some ids)
    end).

Definition certificate_signed (a : t) (h : ReplyHandle.t) (request : CertificateSignedRequest.t) : t :=
  let chain := CertificateSignedRequest.certificate_chain request in
  let reply a s := respond a h (Response.CertificateSigned (CertificateSignedResponse.mk s)) in
  let outcome :=
    match StationSecrets.pending_key_pem (secrets a) with
    | None => Err (lit "no certificate request is pending")
    | Some key =>
        match CertificateStore.validate_signed_chain chain key (now_utc a)
                (ConfigRegistry.certificate_signed_max_chain_size (registry a)) with
        | Ok _ => Ok key
        | Err reason => Err reason
        end
    end in
  match outcome with
  | Ok key =>
      let a := stop_sign_series (adopt_signed_certificate a chain key) in
      let a := log (flush_now (mark_secrets_dirty a)) LogLevel.Success in
      reply (reconnect_for_new_security_parameters a) CertificateSignedStatus.Accepted
  | Err reason =>
      let a := reply (log (stop_sign_series a) LogLevel.Warn) CertificateSignedStatus.Rejected in
      security_event a (lit "InvalidChargePointCertificate") (Some reason)
  end.

(** ** Triggers ([trigger.rs]) *)

Definition decide_for (a : t) (is_boot connector_specific : bool) (c : option ConnectorId)
  : TriggerMessageStatus.t :=
  let open :=
    match registration a with
    | Some RegistrationStatus.Accepted | Some RegistrationStatus.Pending => true
    | _ => false
    end in
  if negb is_boot && negb open then TriggerMessageStatus.Rejected
  else if connector_specific && is_some_and (fun id => negb (is_someb (find_connector a id))) c
  then TriggerMessageStatus.Rejected
  else TriggerMessageStatus.Accepted.

Definition decide (a : t) (request : TriggerMessageRequest.t) : TriggerMessageStatus.t :=
  let message := TriggerMessageRequest.requested_message request in
  decide_for a (message == MessageTrigger.BootNotification)
    ((message == MessageTrigger.StatusNotification) || (message == MessageTrigger.MeterValues))
    (TriggerMessageRequest.connector_id request).

(** One triggered [MeterValues] sample for [id] (0 = the whole station). *)
Definition send_meter_values (a : t) (id : ConnectorId) : t :=
  let active_tx :=
    if is_station id then Some None else connector_tx_id <$> find_connector a id in
  match active_tx with
  | None => a
  | Some tx =>
      let measurands := ConfigRegistry.measurands (registry a) ConfigRegistry.METER_VALUES_SAMPLED_DATA in
      let '(a, reading) := meter_reading a id false in
      let sample := Metering.meter_value (power_model a) reading (now_utc a) measurands
                      ReadingContext.Trigger in
      call a Origin.Triggered (Request.MeterValues (sample_request id tx sample)) NoOp no_op
  end.

(** Starts the triggered message (after the reply was queued). *)
Definition start (a : t) (message : MessageTrigger.t) (c : option ConnectorId) : t :=
  match message with
  | MessageTrigger.BootNotification => send_boot a None
  | MessageTrigger.Heartbeat => send_heartbeat a Origin.Triggered None
  | MessageTrigger.DiagnosticsStatusNotification =>
      call a Origin.Triggered (Request.DiagnosticsStatusNotification
        (DiagnosticsStatusNotificationRequest.mk (Snapshot.diagnostics_status (state a)))) NoOp no_op
  | MessageTrigger.FirmwareStatusNotification =>
      call a Origin.Triggered (Request.FirmwareStatusNotification
        (FirmwareStatusNotificationRequest.mk (Snapshot.firmware_status (state a)))) NoOp no_op
  | MessageTrigger.StatusNotification =>
      let ids := match c with Some id => [id] | None => STATION :: connector_ids a end in
      fold_left (fun a id => send_status_forced a id Origin.Triggered None) ids a
  | MessageTrigger.MeterValues =>
      let ids := match c with Some id => [id] | None => connector_ids a end in
      fold_left send_meter_values ids a
  end.

Definition trigger_message (a : t) (h : ReplyHandle.t) (request : TriggerMessageRequest.t) : t :=
  let status := decide a request in
  let a := respond a h (Response.TriggerMessage (TriggerMessageResponse.mk status)) in
  let a := log a LogLevel.Info in
  if status == TriggerMessageStatus.Accepted
  then start a (TriggerMessageRequest.requested_message request) (TriggerMessageRequest.connector_id request)
  else a.

(** The trigger of the 1.6 message, where there is one. *)
Definition common_trigger (m : ExtendedMessageTrigger.t) : option MessageTrigger.t :=
  match m with
  | ExtendedMessageTrigger.BootNotification => Some MessageTrigger.BootNotification
  | ExtendedMessageTrigger.FirmwareStatusNotification => Some MessageTrigger.FirmwareStatusNotification
  | ExtendedMessageTrigger.Heartbeat => Some MessageTrigger.Heartbeat
  | ExtendedMessageTrigger.MeterValues => Some MessageTrigger.MeterValues
  | ExtendedMessageTrigger.StatusNotification => Some MessageTrigger.StatusNotification
  | ExtendedMessageTrigger.LogStatusNotification
  | ExtendedMessageTrigger.SignChargePointCertificate => None
  end.

Definition start_extended (a : t) (m : ExtendedMessageTrigger.t) (c : option ConnectorId) : t :=
  match common_trigger m with
  | Some trigger =>
      if (trigger == MessageTrigger.FirmwareStatusNotification) && last_firmware_signed a then
        let status := Snapshot.signed_firmware_status (state a) in
        let request_id := if status == SignedFirmwareStatus.Idle then None else signed_fw_request_id a in
        call a Origin.Triggered (Request.SignedFirmwareStatusNotification
          (SignedFirmwareStatusNotificationRequest.mk status request_id)) NoOp no_op
      else start a trigger c
  | None =>
      if m == ExtendedMessageTrigger.LogStatusNotification then
        let status := match log_upload a with
                      | [] => UploadLogStatus.Idle | _ => UploadLogStatus.Uploading end in
        let request_id := if status == UploadLogStatus.Idle then None else log_request_id a in
        call a Origin.Triggered (Request.LogStatusNotification
          (LogStatusNotificationRequest.mk status request_id)) NoOp no_op
      else request_certificate a None
  end.

Definition extended_trigger_message (a : t) (h : ReplyHandle.t)
    (request : ExtendedTriggerMessageRequest.t) : t :=
  let message := ExtendedTriggerMessageRequest.requested_message request in
  let status := decide_for a (message == ExtendedMessageTrigger.BootNotification)
    ((message == ExtendedMessageTrigger.StatusNotification)
     || (message == ExtendedMessageTrigger.MeterValues))
    (ExtendedTriggerMessageRequest.connector_id request) in
  let a := respond a h (Response.ExtendedTriggerMessage (ExtendedTriggerMessageResponse.mk status)) in
  let a := log a LogLevel.Info in
  if status != TriggerMessageStatus.Accepted then a
  else start_extended a message (ExtendedTriggerMessageRequest.connector_id request).

(** ** Response rules ([rules.rs]) *)

(** Looks up a rule for the action and applies it; the handle for the normal handler, or
    [None] when the rule dealt with the CALL. *)
Definition apply_response_rule (a : t) (name : str) (h : ReplyHandle.t) : t * option ReplyHandle.t :=
  let '(rules, behavior) := ResponseRules.take_rule (Snapshot.response_rules (state a)) name in
  let a := a <| state ::= fun s => s <| Snapshot.response_rules := rules |> |> in
  match behavior with
  | None => (a, Some h)
  | Some b =>
      let a := log a LogLevel.Warn in
      match b with
      | ResponseRules.Delay ms => (a, Some (h <| ReplyHandle.held_back := ms * NS_PER_MS |>))
      | ResponseRules.Reject =>
          (match ResponseRules.reject_payload name with
           | Some payload => emit a (Answered h (Answer.AcceptValue payload))
           | None => emit a (Answered h (Answer.Reject ErrorCode.NotSupported))
           end, None)
      | ResponseRules.Error code _ => (emit a (Answered h (Answer.Reject code)), None)
      | ResponseRules.Drop =>
          let a := emit a (Answered h Answer.Abandoned) in
          (if connected a then emit a Closing else a, None)
      | ResponseRules.Ignore => (emit a (Answered h Answer.Abandoned), None)
      end
  end.

(** ** The dispatch ([mod.rs]) *)

(** Decodes the request and calls [handler], or answers the decoding failure. *)
Definition invoke {T} (a : t) (h : ReplyHandle.t) (request : option T)
    (handler : t -> ReplyHandle.t -> T -> t) : t :=
  match request with
  | Some request => handler a h request
  | None => respond_error (log a LogLevel.Warn) h ErrorCode.TypeConstraintViolation
  end.

Definition not_handled (a : t) (name : str) (h : ReplyHandle.t) : t :=
  let code :=
    if is_some_and (fun i => Actions.central_system_may_send (Actions.direction i)) (Actions.find name)
    then ErrorCode.NotSupported else ErrorCode.NotImplemented in
  emit (log a LogLevel.Warn) (Answered h (Answer.Reject code)).

Definition route (a : t) (name : str) (payload : json) (h : ReplyHandle.t) : t :=
  let is_ x := name == x in
  if is_ Actions.ChangeConfiguration then invoke a h (change_configuration_req payload) change_configuration
  else if is_ Actions.GetConfiguration then invoke a h (get_configuration_req payload) get_configuration
  else if is_ Actions.ClearCache then invoke a h (clear_cache_req payload) (fun a h _ => clear_cache a h)
  else if is_ Actions.DataTransfer then invoke a h (data_transfer_req payload) data_transfer
  else if is_ Actions.GetLocalListVersion
  then invoke a h (get_local_list_version_req payload) (fun a h _ => get_version a h)
  else if is_ Actions.SendLocalList then invoke a h (send_local_list_req payload) send_local_list
  else if is_ Actions.ChangeAvailability
  then invoke a h (change_availability_req payload) change_availability
  else if is_ Actions.UnlockConnector then invoke a h (unlock_connector_req payload) unlock_connector
  else if is_ Actions.TriggerMessage then invoke a h (trigger_message_req payload) trigger_message
  else if is_ Actions.CancelReservation
  then invoke a h (cancel_reservation_req payload) cancel_reservation_handler
  else if is_ Actions.ReserveNow then invoke a h (reserve_now_req payload) reserve_now_handler
  else if is_ Actions.ClearChargingProfile
  then invoke a h (clear_charging_profile_req payload) clear_profile
  else if is_ Actions.GetCompositeSchedule
  then invoke a h (get_composite_schedule_req payload) composite_schedule
  else if is_ Actions.SetChargingProfile then invoke a h (set_charging_profile_req payload) set_profile
  else if is_ Actions.GetDiagnostics then invoke a h (get_diagnostics_req payload) get_diagnostics
  else if is_ Actions.GetLog then invoke a h (get_log_req payload) get_log
  else if is_ Actions.ExtendedTriggerMessage
  then invoke a h (extended_trigger_message_req payload) extended_trigger_message
  else if is_ Actions.SignedUpdateFirmware
  then invoke a h (signed_update_firmware_req payload) signed_update_firmware
  else if is_ Actions.UpdateFirmware then invoke a h (update_firmware_req payload) update_firmware
  else if is_ Actions.RemoteStartTransaction
  then invoke a h (remote_start_transaction_req payload) remote_start
  else if is_ Actions.RemoteStopTransaction
  then invoke a h (remote_stop_transaction_req payload) remote_stop
  else if is_ Actions.Reset then invoke a h (reset_req payload) reset
  else if is_ Actions.InstallCertificate
  then invoke a h (install_certificate_req payload) install_certificate
  else if is_ Actions.DeleteCertificate
  then invoke a h (delete_certificate_req payload) delete_certificate
  else if is_ Actions.GetInstalledCertificateIds
  then invoke a h (get_installed_certificate_ids_req payload) get_installed_certificate_ids
  else if is_ Actions.CertificateSigned
  then invoke a h (certificate_signed_req payload) certificate_signed
  else not_handled a name h.

(** Routes an incoming CALL to its handler. *)
Definition dispatch_incoming (a : t) (name : str) (payload : json) (h : ReplyHandle.t) : t :=
  let a := log a LogLevel.Info in
  if any (fun x => x == name) ResponseRules.INBOUND_ACTIONS then
    let '(a, kept) := apply_response_rule a name h in
    match kept with
    | Some h => route a name payload h
    | None => a
    end
  else route a name payload h.
End handlers.
End Handlers.
