(* ===== verification/Commands.v ===== *)
(** * Commands: what the user asks the station to do

    [station/commands.rs] and [station/local_edit.rs]. A command is answered at once, or when
    the CSMS has answered ([Reply] travels with the continuation). *)

From stdpp Require Import strings gmap.
From S2P Require Import Prelude Text F64 Time Types Messages SecurityMessages Frame Actions.
From S2P Require Import ResponseRules Config ConfigRegistry LocalAuthList Authorization.
From S2P Require Import Connector Reservation Offline Timers Metering SmartCharging.
From S2P Require Import ChargingProfiles Maintenance Security Certificates Interface Store.
From S2P Require Import Actor Calls Transactions Secure Sampling Link Handlers.
Local Open Scope Z_scope.

Module Commands.
Import Actor Calls Transactions Secure Sampling Links Handlers.
Section commands.
Context {J : SerdeJson} {P : Pki} {C : Chrono} {W : Wire} {U : UrlParser} {I : InWire}.

(** What an immediate command leaves behind. *)
Abbreviation Immediate := (t * result Outcome.t StationError.t)%type.

(** ** Connectors *)

Definition max_id (a : t) : Z := fold_right Z.max 0 (connector_ids a).

Definition add_connector (a : t) : t * Outcome.t :=
  let id := max_id a + 1 in
  let a := set_connectors a (connectors a ++ [Connector.new_connector id]) in
  let a := a <| registry ::= fun r => ConfigRegistry.set_connector_count r id |> in
  (status_changed (log (flush_now a) LogLevel.Info) id, Outcome.ConnectorAdded id).

Definition plug_in (a : t) (id : ConnectorId) : Immediate :=
  match connector a id with
  | None => (a, Err (StationError.UnknownConnector id))
  | Some c =>
      if ConnectorSnapshot.ev_connected c
      then (a, Err (invalid id (lit "an EV is already connected")))
      else if (ConnectorSnapshot.availability c == AvailabilityType.Inoperative) || out_of_service c
      then (a, Err (invalid id (lit "cannot accept an EV while "
                                 ++ ConnectorStatus.as_str (ConnectorSnapshot.status c))))
      else
        let resumes := negb (TransactionState.is_idle (ConnectorSnapshot.transaction c)) in
        let status :=
          if resumes then ConnectorStatus.Charging
          else if is_someb (ConnectorSnapshot.reservation c) then ConnectorStatus.Reserved
          else ConnectorStatus.Preparing in
        let a := modify_connector a id (fun c =>
          c <| ConnectorSnapshot.ev_connected := true |> <| ConnectorSnapshot.status := status |>) in
        let a := if resumes then reschedule_metering a else a in
        (status_changed a id, Ok Outcome.Done)
  end.

(** The EV is gone and the connector shows [status]. *)
Definition set_unplugged (a : t) (id : ConnectorId) (status : ConnectorStatus.t) : t :=
  status_changed (modify_connector a id (fun c =>
    c <| ConnectorSnapshot.ev_connected := false |> <| ConnectorSnapshot.status := status |>)) id.

Definition unplug (a : t) (id : ConnectorId) (done : Done) : t :=
  match connector a id with
  | None => run_done a done (Err (StationError.UnknownConnector id))
  | Some c =>
      if negb (TransactionState.is_idle (ConnectorSnapshot.transaction c)) then
        if ConfigRegistry.stop_transaction_on_ev_side_disconnect (registry a)
        then stop_transaction a id StopReason.EVDisconnected (ConnectorSnapshot.last_id_tag c) done
        else run_done (set_unplugged a id ConnectorStatus.SuspendedEV) done (Ok Outcome.Done)
      else if negb (ConnectorSnapshot.ev_connected c)
              && (ConnectorSnapshot.status c != ConnectorStatus.Finishing)
      then run_done a done (Err (invalid id (lit "no EV is connected")))
      else run_done (set_unplugged a id (Connector.status_after_unplug c)) done (Ok Outcome.Done)
  end.

(** Status, error code, info, vendor id and vendor error code of a connector. *)
Definition set_error (c : ConnectorSnapshot.t) (status : ConnectorStatus.t)
    (code : ChargePointErrorCode.t) (info vendor vendor_code : option str) : ConnectorSnapshot.t :=
  c <| ConnectorSnapshot.status := status |> <| ConnectorSnapshot.error_code := code |>
    <| ConnectorSnapshot.info := info |> <| ConnectorSnapshot.vendor_id := vendor |>
    <| ConnectorSnapshot.vendor_error_code := vendor_code |>.

Definition set_status (a : t) (id : ConnectorId) (status : ConnectorStatus.t) : Immediate :=
  match find_connector a id with
  | None => (a, Err (StationError.UnknownConnector id))
  | Some _ =>
      let vendor := StationConfig.vendor (config a) in
      let a := modify_connector a id (fun c =>
        if status == ConnectorStatus.Faulted
        then set_error c status ChargePointErrorCode.OtherError (Some (lit "Manual fault")) (Some vendor) None
        else set_error c status ChargePointErrorCode.NoError None None None) in
      (status_changed a id, Ok Outcome.Done)
  end.

Definition fault (a : t) (id : ConnectorId) (code : ChargePointErrorCode.t)
    (info vendor_code : option str) (done : Done) : t :=
  match find_connector a id with
  | None => run_done a done (Err (StationError.UnknownConnector id))
  | Some current =>
      let a := if negb (TransactionState.is_idle (ConnectorSnapshot.transaction current))
               then stop_transaction a id StopReason.Other (ConnectorSnapshot.last_id_tag current) Ignore
               else a in
      let text (x : option str) := x ≫= fun x => Connector.trim_text x Connector.STATUS_TEXT_MAX in
      let a := modify_connector a id (fun c =>
        set_error c ConnectorStatus.Faulted (Connector.fault_error_code code) (text info)
          (Some (StationConfig.vendor (config a))) (text vendor_code)) in
      run_done (status_changed a id) done (Ok Outcome.Done)
  end.

Definition clear_fault (a : t) (id : ConnectorId) : Immediate :=
  match find_connector a id with
  | None => (a, Err (StationError.UnknownConnector id))
  | Some c =>
      let status := if is_station id
        then Connector.charge_point_status (ConnectorSnapshot.availability c) ConnectorStatus.Available
        else Connector.status_after_fault_clear c in
      let a := modify_connector a id (fun c =>
        set_error c status ChargePointErrorCode.NoError None None None) in
      (status_changed a id, Ok Outcome.Done)
  end.

(** ** Local edits ([local_edit.rs]) *)

Definition set_configuration (a : t) (key v : str) : Immediate :=
  let '(a, status) := apply_configuration_change a key v in
  (a, match status with
      | ConfigurationStatus.Accepted => Ok Outcome.Done
      | _ => Err StationError.InvalidArgument
      end).

Definition apply_local_list_request (a : t) (request : SendLocalListRequest.t)
  : t * result unit StationError.t :=
  let '(l, status) := LocalAuthList.apply (local_list a) request
                        (LocalAuthList.from_config (registry a)) in
  let a := a <| local_list := l |> in
  match status with
  | UpdateStatus.Accepted => (flush_now a, Ok tt)
  | _ => (a, Err StationError.InvalidArgument)
  end.

(** [result?; log(..); Ok(Outcome::Done)] *)
Definition logged (x : t * result unit StationError.t) : Immediate :=
  let '(a, r) := x in
  match r with
  | Ok _ => (log a LogLevel.Info, Ok Outcome.Done)
  | Err e => (a, Err e)
  end.

Definition apply_local_list_edit (a : t) (item : AuthorizationData.t) : t * result unit StationError.t :=
  apply_local_list_request a {|
    SendLocalListRequest.list_version := Z.min (LocalAuthList.version (local_list a) + 1) i32_max;
    SendLocalListRequest.local_authorization_list := Some [item];
    SendLocalListRequest.update_type := UpdateType.Differential |}.

Definition set_local_list_entry (a : t) (id_tag : IdTag) (info : IdTagInfo.t) : Immediate :=
  logged (apply_local_list_edit a (AuthorizationData.mk id_tag (Some info))).

Definition remove_local_list_entry (a : t) (id_tag : IdTag) : Immediate :=
  match LocalAuthList.get (local_list a) id_tag with
  | None => (a, Err StationError.InvalidArgument)
  | Some _ => logged (apply_local_list_edit a (AuthorizationData.mk id_tag None))
  end.

Definition clear_local_list (a : t) : Immediate :=
  logged (apply_local_list_request a {|
    SendLocalListRequest.list_version := 0;
    SendLocalListRequest.local_authorization_list := Some [];
    SendLocalListRequest.update_type := UpdateType.Full |}).

Definition install_charging_profile (a : t) (id : ConnectorId) (profile : ChargingProfile.t) : Immediate :=
  let '(a, status) := set_charging_profile a id profile in
  match status with
  | ChargingProfileStatus.Accepted => (log (flush_now a) LogLevel.Info, Ok Outcome.Done)
  | _ => (a, Err StationError.InvalidArgument)
  end.

Definition clear_charging_profiles (a : t) (id : option Z) : Immediate :=
  let filter := ClearChargingProfileRequest.mk id None None None in
  let '(p, status) := ChargingProfileStore.clear (profiles a) filter (now_utc a) in
  let a := flush_now (a <| profiles := p |>) in
  match status, id with
  | ClearChargingProfileStatus.Unknown, Some _ => (a, Err StationError.InvalidArgument)
  | _, _ => (log a LogLevel.Info, Ok Outcome.Done)
  end.

(** ** Response rules and simulated outcomes *)

Definition set_response_rules (a : t) (rules : list ResponseRules.ResponseRule) : t :=
  a <| state ::= fun s => s <| Snapshot.response_rules := rules |> |>.

Definition set_response_rule (a : t) (rule : ResponseRules.ResponseRule) : Immediate :=
  match ResponseRules.canonical_action (ResponseRules.action rule) with
  | Err _ => (a, Err StationError.InvalidArgument)
  | Ok canonical =>
      let rule := rule <| ResponseRules.action := canonical |> in
      if ResponseRules.remaining rule == Some 0 then (a, Err StationError.InvalidArgument)
      else
        (set_response_rules (log a LogLevel.Info)
           (ResponseRules.set_rule (Snapshot.response_rules (state a)) rule), Ok Outcome.Done)
  end.

Definition clear_response_rules (a : t) (name : option str) : Immediate :=
  let named :=
    match name with
    | None => Ok None
    | Some name => match ResponseRules.canonical_action name with
                   | Ok canonical => Ok (Some canonical)
                   | Err e => Err e
                   end
    end in
  match named with
  | Err _ => (a, Err StationError.InvalidArgument)
  | Ok name =>
      (log (set_response_rules a
              (ResponseRules.clear_rules (Snapshot.response_rules (state a)) name).1) LogLevel.Info,
       Ok Outcome.Done)
  end.

(** ** The commands *)

(** The commands that complete immediately. *)
Definition execute_now (a : t) (command : Command.t) : Immediate :=
  match command with
  | Command.Connect => (connect a, Ok Outcome.Done)
  | Command.Disconnect => (disconnect a, Ok Outcome.Done)
  | Command.Reconnect => (connect (disconnect a), Ok Outcome.Done)
  | Command.AddConnector => let '(a, o) := add_connector a in (a, Ok o)
  | Command.PlugIn id => plug_in a id
  | Command.SetConnectorStatus id status => set_status a id status
  | Command.CycleConnectorStatus id =>
      match find_connector a id with
      | None => (a, Err (StationError.UnknownConnector id))
      | Some c => set_status a id (Connector.next_status (ConnectorSnapshot.status c))
      end
  | Command.ClearFault id => clear_fault a id
  | Command.SetDiagnosticsOutcome outcome =>
      (log (a <| state ::= fun s => s <| Snapshot.diagnostics_outcome := outcome |> |>) LogLevel.Info,
       Ok Outcome.Done)
  | Command.SetFirmwareOutcome outcome =>
      (log (a <| state ::= fun s => s <| Snapshot.firmware_outcome := outcome |> |>) LogLevel.Info,
       Ok Outcome.Done)
  | Command.SetResponseRule rule => set_response_rule a rule
  | Command.ClearResponseRules name => clear_response_rules a name
  | Command.SetConfiguration key v => set_configuration a key v
  | Command.SetLocalListEntry id_tag info => set_local_list_entry a id_tag info
  | Command.RemoveLocalListEntry id_tag => remove_local_list_entry a id_tag
  | Command.ClearLocalList => clear_local_list a
  | Command.InstallChargingProfile id profile => install_charging_profile a id profile
  | Command.ClearChargingProfiles id => clear_charging_profiles a id
  | Command.SendSecurityEvent event_type tech_info => send_security_event a event_type tech_info
  | other => (a, Err (StationError.NotImplemented (Command.name other)))
  end.

(** Runs one command; the answer goes to [r] now or when the CSMS has answered. *)
Definition execute (a : t) (command : Command.t) (r : Reply) : t :=
  match command with
  | Command.Boot =>
      if negb (connected a) then send_reply a r (Err StationError.NotConnected)
      else send_boot a (Some r)
  | Command.Heartbeat => send_heartbeat a Origin.Station (Some r)
  | Command.StatusNotification id => send_status_forced a id Origin.Station (Some r)
  | Command.DataTransfer vendor_id message_id data =>
      user_call a (Request.DataTransfer (DataTransferRequest.mk vendor_id message_id data)) r
  | Command.DiagnosticsStatusNotification status =>
      let a := a <| state ::= fun s => s <| Snapshot.diagnostics_status := status |> |> in
      user_call a (Request.DiagnosticsStatusNotification (DiagnosticsStatusNotificationRequest.mk status)) r
  | Command.FirmwareStatusNotification status =>
      let a := a <| state ::= fun s => s <| Snapshot.firmware_status := status |> |> in
      user_call a (Request.FirmwareStatusNotification (FirmwareStatusNotificationRequest.mk status)) r
  | Command.SendRaw name payload validate => send_raw a name payload validate r
  | Command.RequestCertificate => request_certificate a (Some r)
  | Command.Authorize id_tag => authorize a id_tag (AuthorizeReply r)
  | Command.StartTransaction id id_tag => start_transaction a id id_tag (ReplyTo r)
  | Command.StopTransaction id reason id_tag => stop_transaction a id reason id_tag (ReplyTo r)
  | Command.MeterValues id wh_delta measurands => meter_values_command a id wh_delta measurands r
  | Command.Unplug id => unplug a id (ReplyTo r)
  | Command.Fault id code info vendor_code => fault a id code info vendor_code (ReplyTo r)
  | other => let '(a, result) := execute_now a other in send_reply a r result
  end.
End commands.
End Commands.
