(* ===== verification/Restore.v ===== *)
(** * Restore: the station at start

    [Snapshot::initial] of [station/snapshot.rs], [restore] of [station/persistence.rs] and
    [StationActor::new] of [station/actor.rs]. What the state file and the secrets file hold
    is an argument (reading them is I/O of [store.rs]). *)

From stdpp Require Import strings gmap.
From S2P Require Import Prelude Text F64 Time Types Messages SecurityMessages Frame Actions.
From S2P Require Import ResponseRules Config ConfigRegistry LocalAuthList Authorization.
From S2P Require Import Connector Reservation Offline Timers Metering SmartCharging.
From S2P Require Import ChargingProfiles Maintenance Security Certificates Interface Store.
From S2P Require Import Actor.
Local Open Scope Z_scope.

(** The mutable parts [restore] fills in. *)
Module RestoredParts.
Record t : Type := mk {
  registry : ConfigRegistry.t;
  local_list : LocalAuthList.t;
  auth_cache : Authorization.AuthorizationCache;
  profiles : ChargingProfileStore.t;
  queue : OfflineQueue.t;
  certs : CertificateStore.t;
  secrets : StationSecrets.t;
  security_events : list Security.PendingSecurityEvent;
}.
#[export] Instance eta : Eta t := fun p =>
  mk (registry p) (local_list p) (auth_cache p) (profiles p) (queue p) (certs p) (secrets p)
     (security_events p).
End RestoredParts.
Export (hints) RestoredParts.

Module Restore.
Import RestoredParts.

(** A state file cannot make the station allocate more connectors than this. *)
Definition MAX_RESTORED_CONNECTORS : Z := 4096.

(** The state of a station that has just been created from [config]. *)
Definition initial (c : StationConfig.t) : Snapshot.t :=
  let count := Z.max (Z.max (StationConfig.connector_count c) (StationConfig.initial_connector c)) 1 in {|
  Snapshot.connection := ConnectionState.Disconnected;
  Snapshot.registration := None;
  Snapshot.heartbeat_interval_secs := StationConfig.heartbeat_interval_secs c;
  Snapshot.last_heartbeat_at := None;
  Snapshot.availability := AvailabilityType.Operative;
  Snapshot.charge_point := new_snapshot STATION;
  Snapshot.diagnostics_status := DiagnosticsStatus.Idle;
  Snapshot.firmware_status := FirmwareStatus.Idle;
  Snapshot.log_status := UploadLogStatus.Idle;
  Snapshot.signed_firmware_status := SignedFirmwareStatus.Idle;
  Snapshot.signed_firmware_request_id := None;
  Snapshot.log_request_id := None;
  Snapshot.diagnostics_outcome := DiagnosticsOutcome.Success;
  Snapshot.firmware_outcome := FirmwareOutcome.Success;
  Snapshot.response_rules := StationConfig.response_rules c;
  Snapshot.connectors := map new_snapshot (range_inclusive 1 count) |}.

(** The connector count of the restored station; it only grows. *)
Definition restored_count (p : PersistedStation.t) (present : Z) : Z :=
  let highest := fold_right Z.max 0 (map PersistedConnector.id (PersistedStation.connectors p)) in
  Z.max (Z.min (Z.max (PersistedStation.connector_count p) highest) MAX_RESTORED_CONNECTORS) present.

(** A saved connector applied to the connector of the same id. *)
Definition restore_connector (saved : PersistedConnector.t) (c : ConnectorSnapshot.t)
  : ConnectorSnapshot.t :=
  let c := c <| ConnectorSnapshot.availability := PersistedConnector.availability saved |>
             <| ConnectorSnapshot.pending_availability := PersistedConnector.pending_availability saved |>
             <| ConnectorSnapshot.meter_wh := PersistedConnector.meter_wh saved |>
             <| ConnectorSnapshot.last_id_tag := PersistedConnector.last_id_tag saved |>
             <| ConnectorSnapshot.ev_connected := PersistedConnector.ev_connected saved |>
             <| ConnectorSnapshot.reservation := PersistedConnector.reservation saved |>
             <| ConnectorSnapshot.transaction := PersistedConnector.transaction saved |>
             <| ConnectorSnapshot.status := PersistedConnector.status saved |> in
  let c := if PersistedConnector.status saved == ConnectorStatus.Faulted
           then c <| ConnectorSnapshot.error_code := ChargePointErrorCode.OtherError |> else c in
  if (PersistedConnector.availability saved == AvailabilityType.Inoperative) && Connector.is_idle c
  then c <| ConnectorSnapshot.status := ConnectorStatus.Unavailable |> else c.

Definition restore_connectors (saved : list PersistedConnector.t) (l : list ConnectorSnapshot.t)
  : list ConnectorSnapshot.t :=
  fold_left (fun l s => update_first (fun c => ConnectorSnapshot.id c =? PersistedConnector.id s)
                          (restore_connector s) l) saved l.

(** An online start whose CALL was in flight at a crash left no queue entry: it never
    happened. *)
Definition drop_unqueued_start (q : OfflineQueue.t) (c : ConnectorSnapshot.t) : ConnectorSnapshot.t :=
  match ConnectorSnapshot.transaction c with
  | TransactionState.PendingStart p =>
      if is_someb (OfflineQueue.find_by_tx q (PendingStart.tx_id p)) then c
      else c <| ConnectorSnapshot.transaction := TransactionState.Idle |>
             <| ConnectorSnapshot.status :=
                  if ConnectorSnapshot.availability c == AvailabilityType.Inoperative
                  then ConnectorStatus.Unavailable
                  else if ConnectorSnapshot.ev_connected c then ConnectorStatus.Preparing
                  else ConnectorStatus.Available |>
  | _ => c
  end.

(** What is queued for a stop that was in flight when the station died. *)
Definition stop_of (c : ConnectorSnapshot.t) (s : StoppingTransaction.t) (restored_at : DateTime)
  : StopInfo.t := {|
  StopInfo.id_tag := StoppingTransaction.id_tag s;
  StopInfo.meter_stop_wh := from_option (fun wh => wh) (ConnectorSnapshot.meter_wh c)
                              (StoppingTransaction.meter_stop_wh s);
  StopInfo.timestamp := from_option (fun d => d) restored_at (StoppingTransaction.stopped_at s);
  StopInfo.reason := StoppingTransaction.reason s;
  StopInfo.transaction_data := [] |}.

Definition max_key (q : OfflineQueue.t) : Z := fold_right Z.max 0 (OfflineQueue.keys q).

(** A stop that was in flight is queued, not repeated blindly. *)
Definition queue_stopping (restored_at : DateTime) (q : OfflineQueue.t) (c : ConnectorSnapshot.t)
  : OfflineQueue.t * ConnectorSnapshot.t :=
  match ConnectorSnapshot.transaction c with
  | TransactionState.Stopping s =>
      let stop := stop_of c s restored_at in
      let tx := StoppingTransaction.tx_id s in
      let id := ConnectorSnapshot.id c in
      (match OfflineQueue.find_by_tx_on q id tx with
       | Some _ => OfflineQueue.modify_by_tx_on q id tx (fun e => e <| OfflineTx.stop := Some stop |>)
       | None =>
           (OfflineQueue.push q {|
              OfflineTx.key := max_key q + 1;
              OfflineTx.connector := id;
              OfflineTx.tx_id := tx;
              OfflineTx.id_tag := from_option (fun x => x) (lit "UNKNOWN") (StoppingTransaction.id_tag s);
              OfflineTx.started_at := from_option (fun d => d) restored_at (StoppingTransaction.stopped_at s);
              OfflineTx.meter_start_wh := 0;
              OfflineTx.reservation_id := None;
              OfflineTx.start_pending := false;
              OfflineTx.stop := Some stop |}).1
       end,
       c <| ConnectorSnapshot.transaction := TransactionState.Idle |>)
  | _ => (q, c)
  end.

Fixpoint queue_all_stopping (restored_at : DateTime) (q : OfflineQueue.t) (l : list ConnectorSnapshot.t)
  : OfflineQueue.t * list ConnectorSnapshot.t :=
  match l with
  | [] => (q, [])
  | c :: l =>
      let '(q, c) := queue_stopping restored_at q c in
      let '(q, l) := queue_all_stopping restored_at q l in
      (q, c :: l)
  end.

(** A change that waited for a transaction which no longer exists is applied now. *)
Definition apply_waiting (c : ConnectorSnapshot.t) : ConnectorSnapshot.t :=
  match Connector.is_idle c, ConnectorSnapshot.pending_availability c with
  | true, Some kind =>
      let c := c <| ConnectorSnapshot.pending_availability := None |>
                 <| ConnectorSnapshot.availability := kind |> in
      c <| ConnectorSnapshot.status := Connector.status_after_availability_change c kind |>
  | _, _ => c
  end.

Definition restore_secrets (s : option StationSecrets.t) (parts : RestoredParts.t) : RestoredParts.t :=
  match s with
  | None => parts
  | Some s =>
      let parts := match StationSecrets.authorization_key s with
                   | Some key => parts <| registry ::= fun r => ConfigRegistry.set_authorization_key r key |>
                   | None => parts
                   end in
      parts <| secrets := s |>
  end.

(** Before format version 6 the key was stored but unused. *)
Definition restored_configuration (p : PersistedStation.t) : ConfigRegistry.ConfigSnapshot :=
  if PersistedStation.version p <? 6
  then base.filter (fun '(key, _) =>
         eq_ignore_ascii_case key ConfigRegistry.WEB_SOCKET_PING_INTERVAL = false)
         (PersistedStation.configuration p)
  else PersistedStation.configuration p.

Definition restore_station (p : PersistedStation.t) (state : Snapshot.t) (parts : RestoredParts.t)
    (restored_at : DateTime) : Snapshot.t * RestoredParts.t :=
  let present := len (Snapshot.connectors state) in
  let count := restored_count p present in
  let l := Snapshot.connectors state ++ map Connector.new_connector (range_inclusive (present + 1) count) in
  let registry' := ConfigRegistry.set_connector_count (registry parts) count in
  let registry' := (ConfigRegistry.restore registry' (restored_configuration p)).1 in
  let availability := PersistedStation.charge_point_availability p in
  let l := restore_connectors (PersistedStation.connectors p) l in
  let q := PersistedStation.offline_queue p in
  let l := map (drop_unqueued_start q) l in
  let '(q, l) := queue_all_stopping restored_at q l in
  let l := map apply_waiting l in
  (state <| Snapshot.availability := availability |>
         <| Snapshot.charge_point ::= fun c =>
              c <| ConnectorSnapshot.availability := availability |>
                <| ConnectorSnapshot.status :=
                     Connector.charge_point_status availability ConnectorStatus.Available |> |>
         <| Snapshot.connectors := l |>,
   parts <| registry := registry' |>
         <| certs := PersistedStation.certificates p |>
         <| security_events := PersistedStation.security_events p |>
         <| queue := q |>
         <| local_list := PersistedStation.local_authorization_list p |>
         <| auth_cache := PersistedStation.authorization_cache p |>
         <| profiles := PersistedStation.charging_profiles p |>).

(** Applies the loaded files (if any) to the freshly built state. *)
Definition restore (loaded : option PersistedStation.t) (loaded_secrets : option StationSecrets.t)
    (state : Snapshot.t) (parts : RestoredParts.t) (restored_at : DateTime)
  : Snapshot.t * RestoredParts.t :=
  let parts := restore_secrets loaded_secrets parts in
  match loaded with
  | None => (state, parts)
  | Some p => restore_station p state parts restored_at
  end.

Definition fresh_parts (c : StationConfig.t) : RestoredParts.t := {|
  registry := ConfigRegistry.new c;
  local_list := LocalAuthList.default;
  auth_cache := Authorization.new_cache;
  profiles := [];
  queue := [];
  certs := CertificateStore.default;
  secrets := StationSecrets.default;
  security_events := [] |}.

Section station.
Context {J : SerdeJson} {P : Pki} {C : Chrono}.

(** [StationActor::new] with the wall clock and the clock of the timers at start, what was
    loaded, whether there is a store to write to, and the key pairs the generator will return. *)
Definition new (c : StationConfig.t) (now ticks : DateTime) (store : bool)
    (loaded : option PersistedStation.t) (loaded_secrets : option StationSecrets.t)
    (keys : list (option KeyPair)) : Actor.t :=
  let seed := Z.max (timestamp_millis now) 1 in
  let '(state, parts) := restore loaded loaded_secrets (initial c) (fresh_parts c) now in
  let parts := parts <| profiles ::= fun p => (ChargingProfileStore.backfill_installed_at p now).1 |> in
  let state := state <| Snapshot.heartbeat_interval_secs :=
                          ConfigRegistry.heartbeat_interval_secs (registry parts) |> in {|
  Actor.config := c;
  Actor.clock_utc := now;
  Actor.state := state;
  Actor.registry := registry parts;
  Actor.local_list := local_list parts;
  Actor.auth_cache := auth_cache parts;
  Actor.profiles := profiles parts;
  Actor.queue := queue parts;
  Actor.certs := certs parts;
  Actor.secrets := secrets parts;
  Actor.security_events := security_events parts;
  Actor.use_fallback_root := false;
  Actor.failure_series := [];
  Actor.use_previous_cert := false;
  Actor.connect_identity := NoIdentity;
  Actor.sign_series := None;
  Actor.next_sign_series := 0;
  Actor.startup_event_pending := true;
  Actor.next_local := Z.max seed (max_key (queue parts));
  Actor.invalid_limits := ∅;
  Actor.meters := ∅;
  Actor.sync_outstanding := 0;
  Actor.sync_keys := [];
  Actor.sync_boot := false;
  Actor.sync_failed := false;
  Actor.sync_failures := ∅;
  Actor.reset_retries := None;
  Actor.hard_reset_deadline := None;
  Actor.diagnostics_plan := [];
  Actor.firmware_plan := [];
  Actor.log_upload := [];
  Actor.log_request_id := None;
  Actor.signed_fw := [];
  Actor.signed_fw_request_id := None;
  Actor.last_firmware_signed := false;
  Actor.timers := TimerWheel.new ticks;
  Actor.link := Link.mk false false 0 false false 0 false;
  Actor.calls := ∅;
  Actor.next_call_token := 0;
  Actor.sample_calls := [];
  Actor.sample_overflow_warned := false;
  Actor.trackers := ∅;
  Actor.persistence := Persistence.mk store false false false false;
  Actor.clock_offset := None;
  Actor.fresh_keys := keys;
  Actor.outbox := [] |}.
End station.
End Restore.
