(* ===== verification/Station.v ===== *)
(** * Station: the loop of the actor

    [station/actor.rs]: what wakes the loop, what one iteration does, the graceful stop, and
    the station as a transition system: between two iterations time passes, timer tasks send,
    and the environment delivers commands, CALLs, answers and connection events. *)

From stdpp Require Import strings gmap.
From S2P Require Import Prelude Text F64 Time Types Messages SecurityMessages Frame Actions.
From S2P Require Import ResponseRules Config ConfigRegistry LocalAuthList Authorization.
From S2P Require Import Connector Reservation Offline Timers Metering SmartCharging.
From S2P Require Import ChargingProfiles Maintenance Security Certificates Interface Store.
From S2P Require Import Actor Calls Transactions Secure Sampling Link Handlers.
From S2P Require Import Commands Restore.
Local Open Scope Z_scope.

(** [ConnectionEvent] of [ws/mod.rs]; the record of a frame is for user interfaces. *)
Module ConnectionEvent.
Inductive t {J : SerdeJson} : Type :=
| Frame
| Call (name : str) (payload : json) (h : ReplyHandle.t)
| ProtocolWarning
| Closed (code : option Z).
End ConnectionEvent.

(** Results of the work the actor spawned. *)
Module Internal.
Inductive t {J : SerdeJson} : Type :=
| Connected (generation : Z) (result : result unit ConnectError.t)
| CallDone (token generation : Z) (result : result json CallError.t)
| Saved (ok : bool)
| Log (level : LogLevel.t).
End Internal.

(** What wakes the loop up; [Command None]: every handle of the station is gone. *)
Module Wake.
Inductive t {J : SerdeJson} : Type :=
| Command (c : option (Command.t * Reply))
| Link (e : ConnectionEvent.t)
| Internal (i : Internal.t)
| Timer (k : TimerKey.t).
End Wake.

Module Station.
Import Actor Calls Transactions Secure Sampling ReservationTimers Links Handlers Commands.
Section station.
Context {J : SerdeJson} {P : Pki} {C : Chrono} {W : Wire} {U : UrlParser} {I : InWire}.

Definition on_connection_event (a : t) (e : ConnectionEvent.t) : t :=
  match e with
  | ConnectionEvent.Frame => a
  | ConnectionEvent.Call name payload h => dispatch_incoming a name payload h
  | ConnectionEvent.ProtocolWarning => log a LogLevel.Warn
  | ConnectionEvent.Closed code => on_closed a code
  end.

Definition on_internal (a : t) (i : Internal.t) : t :=
  match i with
  | Internal.Connected gen r => on_connect_result a gen r
  | Internal.CallDone tok gen r => on_call_done a tok gen r
  | Internal.Saved ok => on_saved a ok
  | Internal.Log level => log a level
  end.

Definition on_timer (a : t) (k : TimerKey.t) : t :=
  match k with
  | TimerKey.Heartbeat => on_heartbeat_timer a
  | TimerKey.Reconnect => on_reconnect_timer a
  | TimerKey.BootRetry => on_boot_retry_timer a
  | TimerKey.StatusDebounce id => status_timer_fired a id
  | TimerKey.PersistFlush => flush_persistence a
  | TimerKey.MeterPeriodic id => on_meter_periodic a id
  | TimerKey.MeterAligned => on_meter_aligned a
  | TimerKey.ReservationExpiry _ => on_reservation_timer a
  | TimerKey.Diagnostics => on_diagnostics_timer a
  | TimerKey.Firmware => on_firmware_timer a
  | TimerKey.LogUpload => on_log_timer a
  | TimerKey.SignedFirmware => on_signed_firmware_timer a
  | TimerKey.HardReset => on_hard_reset_timer a
  | TimerKey.SyncRetry => on_sync_retry_timer a
  | TimerKey.CertSigning => on_cert_signing_timer a
  end.

(** ** Graceful stop *)

(** Final write at shutdown: the write in flight has ended; [ok]: the final one succeeds. *)
Definition finish_persistence (a : t) (ok : bool) : t :=
  let a := timer_cancel a TimerKey.PersistFlush in
  let p := persistence a in
  let had_in_flight := Persistence.in_flight p in
  let a := a <| persistence ::= fun p => p <| Persistence.in_flight := false |> |> in
  if negb (Persistence.store p) then a
  else if negb (Persistence.dirty p || Persistence.queued p || had_in_flight || Persistence.secrets_dirty p)
  then a
  else
    let a := emit a (Saving (build_persisted a)
               (if Persistence.secrets_dirty p || had_in_flight then Some (secrets a) else None)) in
    let a := if ok then a else log a LogLevel.Error in
    a <| persistence ::= fun p => p <| Persistence.dirty := false |> <| Persistence.queued := false |>
                                    <| Persistence.secrets_dirty := false |> |>.

(** Tear the link down, fail what is in flight, write the state file. *)
Definition shutdown (a : t) (ok : bool) : t :=
  let a := flush_meters (log a LogLevel.Info) in
  let a := set_link a (fun l => l <| Link.wanted := false |>) in
  let a := a <| timers ::= TimerWheel.cancel_all |> in
  let a := fail_pending_calls a (CallError.Closed None) in
  let a := abort_connecting a in
  let open := connected a in
  let a := set_link a (fun l => l <| Link.generation ::= fun n => n + 1 |> <| Link.conn := false |>
                                  <| Link.events := false |>) in
  let a := if open then emit a Closing else a in
  let a := set_registration (set_connection a ConnectionState.Disconnected) None in
  finish_persistence a ok.

(** ** The loop *)

(** One iteration; [true]: the loop ends. [ok] is for the final write. *)
Definition handle (a : t) (w : Wake.t) (ok : bool) : t * bool :=
  match w with
  | Wake.Command (Some (Command.Shutdown, r)) => (send_reply (shutdown a ok) r (Ok Outcome.Done), true)
  | Wake.Command (Some (c, r)) => (execute a c r, false)
  | Wake.Command None => (shutdown a ok, true)
  | Wake.Link e => (on_connection_event a e, false)
  | Wake.Internal i => (on_internal a i, false)
  | Wake.Timer k => (on_timer a k, false)
  end.

Definition iterate (a : t) (w : Wake.t) (ok : bool) : t * bool :=
  let a := settle_meters a in
  let '(a, stop) := handle a w ok in
  if stop then (log a LogLevel.Info, true) else (settle_meters a, false).

(** What [run] does before the loop. *)
Definition start_up (a : t) : t := settle_meters (after_restore (log a LogLevel.Info)).

(** The environment: time passes (the wall clock may jump) and timer tasks send; neither is
    work of the loop. *)
Definition pass_time (a : t) (d : Duration) (now : DateTime) : t :=
  a <| timers ::= fun w => (TimerWheel.step w (TimerWheel.Elapse d)).1 |> <| clock_utc := now |>.
Definition timer_sends (a : t) (generation : Z) : t :=
  a <| timers ::= fun w => (TimerWheel.step w (TimerWheel.TaskSends generation)).1 |>.

(** The running station; [Stopped]: the loop has ended. *)
Inductive status : Type :=
| Running (a : t)
| Stopped (a : t).

Definition state_of (s : status) : t := match s with Running a | Stopped a => a end.

Definition ended (x : t * bool) : status := if x.2 then Stopped x.1 else Running x.1.

(** What can happen: an iteration for a message of the environment, an iteration for the timer
    key that [TimerWheel.next] hands out, or the environment alone. *)
Inductive step : status -> option Wake.t -> status -> Prop :=
| step_message (a : t) (w : Wake.t) (ok : bool) :
    (forall k, w <> Wake.Timer k) ->
    step (Running a) (Some w) (ended (iterate a w ok))
| step_timer (a : t) (k : TimerKey.t) (w : TimerWheel.t) (ok : bool) :
    TimerWheel.next (timers a) = (w, Some k) ->
    step (Running a) (Some (Wake.Timer k)) (ended (iterate (a <| timers := w |>) (Wake.Timer k) ok))
| step_time (a : t) (d : Duration) (now : DateTime) :
    0 <= d -> step (Running a) None (Running (pass_time a d now))
| step_send (a : t) (generation : Z) :
    step (Running a) None (Running (timer_sends a generation)).

(** Runs of the station, with the messages they consume, oldest first. *)
Inductive steps : status -> list Wake.t -> status -> Prop :=
| steps_refl (s : status) : steps s [] s
| steps_next (s s' s'' : status) (o : option Wake.t) (ws : list Wake.t) :
    step s o s' -> steps s' ws s'' ->
    steps s (match o with Some w => w :: ws | None => ws end) s''.
End station.
End Station.
