(* ===== verification/Samples.v ===== *)
(** * Samples: a concrete environment and a concrete station

    Instances of the interfaces that stand for foreign code, with which the definitions evaluate
    and the hypotheses of the theorems about the station are seen to hold: a CSMS whose answers
    decode to an acceptance of everything, requests that decode to fixed ones, and a station with
    the default configuration. *)

From stdpp Require Import strings gmap.
From S2P Require Import Prelude Text F64 Time Types Messages SecurityMessages Frame Actions.
From S2P Require Import ResponseRules Config ConfigRegistry LocalAuthList Authorization.
From S2P Require Import Connector Reservation Offline Timers Metering SmartCharging.
From S2P Require Import ChargingProfiles Maintenance Security Certificates Interface Store.
From S2P Require Import Actor Calls Transactions Secure Sampling Link Handlers.
From S2P Require Import Commands Restore Station.
Local Open Scope Z_scope.

Module Samples.

#[local] Existing Instance u64_json.
#[local] Existing Instance ns_chrono.
#[local] Existing Instance any_url.
#[local] Existing Instance CertificateStore.sample_pki.

Definition accepted : IdTagInfo.t := IdTagInfo.mk AuthorizationStatus.Accepted None None.

(** Every answer decodes to an acceptance; transaction ids are all 7. *)
Definition accepting : Wire := {|
  to_value _ := Some Null;
  authorize_conf _ := Some (AuthorizeResponse.mk accepted);
  boot_conf _ := Some (BootNotificationResponse.mk RegistrationStatus.Accepted 0 300);
  start_conf _ := Some (StartTransactionResponse.mk accepted 7);
  sign_conf _ := Some (SignCertificateResponse.mk GenericStatus.Accepted);
  conf_decodes _ _ := true;
  conf_value _ v := v;
|}.

Definition tag : IdTag := lit "TAG".

(** The requests of the CSMS that decode: a remote start and stop on connector 1, resets. *)
Definition requests : InWire := {|
  cancel_reservation_req _ := None;
  certificate_signed_req _ := None;
  change_availability_req _ := Some (ChangeAvailabilityRequest.mk 1 AvailabilityType.Inoperative);
  change_configuration_req _ := None;
  clear_cache_req _ := Some tt;
  clear_charging_profile_req _ := None;
  data_transfer_req _ := None;
  delete_certificate_req _ := None;
  extended_trigger_message_req _ := None;
  get_composite_schedule_req _ := None;
  get_configuration_req _ := Some (GetConfigurationRequest.mk None);
  get_diagnostics_req _ := None;
  get_installed_certificate_ids_req _ := None;
  get_local_list_version_req _ := Some tt;
  get_log_req _ := None;
  install_certificate_req _ := None;
  remote_start_transaction_req _ := Some (RemoteStartTransactionRequest.mk (Some 1) tag None);
  remote_stop_transaction_req _ := Some (RemoteStopTransactionRequest.mk 7);
  reserve_now_req _ := None;
  reset_req _ := Some (ResetRequest.mk ResetType.Soft);
  send_local_list_req _ := None;
  set_charging_profile_req _ := None;
  signed_update_firmware_req _ := None;
  trigger_message_req _ := None;
  unlock_connector_req _ := Some (UnlockConnectorRequest.mk 1);
  update_firmware_req _ := None;
  pem_error_text _ := [];
|}.

#[local] Existing Instance accepting.
#[local] Existing Instance requests.

(** A station that has just been created, one day after the epoch. *)
Definition day : DateTime := 86400 * NS_PER_SEC.
Definition station : Actor.t :=
  Station.start_up (Restore.new StationConfig.default day 0 true None None []).

(** Runs the loop over messages; the station must not stop on the way. *)
Fixpoint run (a : Actor.t) (ws : list Wake.t) : Actor.t :=
  match ws with
  | [] => a
  | w :: ws => run (Station.iterate a w true).1 ws
  end.

(** No message is a timer, and none ends the loop. *)
Fixpoint runs_on (a : Actor.t) (ws : list Wake.t) : bool :=
  match ws with
  | [] => true
  | Wake.Timer _ :: _ => false
  | w :: ws => negb (Station.iterate a w true).2 && runs_on (Station.iterate a w true).1 ws
  end.

Lemma run_steps a ws :
  runs_on a ws = true -> Station.steps (Station.Running a) ws (Station.Running (run a ws)).
Proof.
  revert a. induction ws as [|w ws IH]; intros a Hr; [apply Station.steps_refl|].
  assert (Hw : (forall k, w <> Wake.Timer k) /\ (Station.iterate a w true).2 = false
               /\ runs_on (Station.iterate a w true).1 ws = true).
  { destruct w; cbn [runs_on] in Hr; try discriminate;
      apply andb_true_iff in Hr as [Hgo%negb_true_iff Hr]; split_and!; done. }
  destruct Hw as (Ht & Hgo & Hr'). apply (Station.steps_next _ _ _ (Some w) ws) with (2 := IH _ Hr').
  assert (Hs := Station.step_message a w true Ht). unfold Station.ended in Hs. by rewrite Hgo in Hs.
Qed.

(** The run, and the shutdown of the station by a command. *)
Definition stop (a : Actor.t) (r : Reply) : Actor.t :=
  (Station.iterate a (Wake.Command (Some (Command.Shutdown, r))) true).1.
Lemma run_stop_steps a ws r :
  runs_on a ws = true ->
  Station.steps (Station.Running a) (ws ++ [Wake.Command (Some (Command.Shutdown, r))])
    (Station.Stopped (stop (run a ws) r)).
Proof.
  intros Hr%run_steps.
  assert (Hend : Station.steps (Station.Running (run a ws)) [Wake.Command (Some (Command.Shutdown, r))]
                   (Station.Stopped (stop (run a ws) r))).
  { apply (Station.steps_next _ _ _ (Some _) []) with (2 := Station.steps_refl _).
    by apply (Station.step_message (run a ws) (Wake.Command (Some (Command.Shutdown, r))) true). }
  revert Hend. generalize (Station.Stopped (stop (run a ws) r)). revert Hr.
  generalize (Station.Running (run a ws)), (Station.Running a). intros s' s Hr s'' Hend.
  induction Hr as [|s1 s2 s3 o l Hs _ IH]; [done|].
  replace ((match o with Some w => w :: l | None => l end) ++ [Wake.Command (Some (Command.Shutdown, r))])
    with (match o with
          | Some w => w :: (l ++ [Wake.Command (Some (Command.Shutdown, r))])
          | None => l ++ [Wake.Command (Some (Command.Shutdown, r))]
          end) by by destruct o.
  eapply Station.steps_next; [done|]. by apply IH.
Qed.

(** The link comes up and the boot is accepted. *)
Definition connect : list Wake.t := [
  Wake.Command (Some (Command.Connect, 1));
  Wake.Internal (Internal.Connected 1 (Ok tt));
  Wake.Internal (Internal.CallDone 0 1 (Ok Null))].
Definition online : Actor.t := run station connect.

Example online_ok :
  (Actor.registration online, Actor.connected online) = (Some RegistrationStatus.Accepted, true).
Proof. vm_compute. reflexivity. Qed.
End Samples.
