(* ===== verification/StatusRuns.v ===== *)
(** * StatusRuns: the StatusNotifications of a connector over a period online

    The handlers of [station/status.rs] on the actor's own state, in any order: what the CSMS is
    told of one connector from the moment a connection can be used. The other work of the actor
    is any change of state that leaves the notifications of this connector alone. *)

From stdpp Require Import strings gmap.
From S2P Require Import Prelude Text Time Types Messages Frame Actions Config ConfigRegistry Connector Timers.
From S2P Require Import Interface Certificates Actor Calls Restore Station Samples.
Local Open Scope Z_scope.

Module StatusRuns.
Import Actor Calls.
Import (hints) StatusTracker.

Section runs.
Context {J : SerdeJson} {P : Pki} {C : Chrono} {W : Wire}.
(** What is seen of a connector: a notification given to the connection at [now], the failure
    of a notification of [key], a call of [status_changed] in the state [key]. *)
Inductive note : Type :=
| Sending (c : OutCall) (key : StatusKey.t) (now : DateTime) (forced : bool)
| Failing (key : StatusKey.t)
| Changing (key : StatusKey.t) (now : DateTime).

(** The last notification of the history (newest first) was one of [key] that did not fail. *)
Definition leaves (key : StatusKey.t) (n : note) : Prop :=
  match n with Sending _ _ _ _ => False | Failing k => k <> key | Changing _ _ => True end.
Definition known (l : list note) (key : StatusKey.t) : Prop :=
  exists l1 c now f l2, l = l1 ++ Sending c key now f :: l2 /\ Forall (leaves key) l1.

Variable id : ConnectorId.

Definition armed (a : t) : bool := TimerWheel.is_armed (timers a) (TimerKey.StatusDebounce id).

(** The notification of a state, with a time. *)
Definition notification (key : StatusKey.t) (at_ : DateTime) : Request.t :=
  Request.StatusNotification {|
    StatusNotificationRequest.connector_id := id;
    StatusNotificationRequest.error_code := StatusKey.error_code key;
    StatusNotificationRequest.info := StatusKey.info key;
    StatusNotificationRequest.status := StatusKey.status key;
    StatusNotificationRequest.timestamp := Some at_;
    StatusNotificationRequest.vendor_id := StatusKey.vendor_id key;
    StatusNotificationRequest.vendor_error_code := StatusKey.vendor_error_code key |}.

(** The CALLs that [b] has sent and [a] had not. *)
Definition new_calls (a b : t) : list OutCall :=
  omap (fun e => match e with Sent c => Some c | _ => None end)
    (take (length (outbox b) - length (outbox a)) (outbox b)).
Definition heard (forced : bool) (a b : t) : list note :=
  match status_key b id with
  | Some key => map (fun c => Sending c key (now_utc b) forced) (new_calls a b)
  | None => []
  end.

(** Work that does not concern the notifications of the connector, while it may notify. *)
Definition elsewhere (a b : t) : Prop :=
  tracker b id = tracker a id /\ armed b = armed a /\ can_send_status b Origin.Station = true.

(** The debounce timer fires: the wheel has disarmed it. *)
Definition fired (a : t) : t :=
  status_timer_fired (timer_cancel a (TimerKey.StatusDebounce id)) id.

(** A period online: from the reset at the end of the previous connection on, [status_changed]
    after every change, timers, forced notifications, failures of CALLs. *)
Inductive run : t -> list note -> Prop :=
| run_online a b :
    elsewhere (reset_status_tracking a) b -> is_Some (status_key b id) -> run b []
| run_other a b l :
    run a l -> elsewhere a b -> status_key b id = status_key a id -> run b l
| run_changed a b key l :
    run a l -> elsewhere a b -> status_key b id = Some key ->
    run (status_changed b id)
      (heard false b (status_changed b id) ++ Changing key (now_utc b) :: l)
| run_fired a l :
    run a l -> run (fired a) (heard false a (fired a) ++ l)
| run_forced a o r l :
    run a l -> can_send_status a o = true ->
    run (send_status_forced a id o r) (heard true a (send_status_forced a id o r) ++ l)
| run_failed a key r e l :
    run a l -> run (status_failed id key r a e) (Failing key :: l).

(** ** The operations, one by one *)

Lemma tracker_set (a : t) s : tracker (set_tracker a id s) id = s.
Proof. unfold tracker, set_tracker. simpl. by rewrite lookup_insert_eq. Qed.

Lemma tracker_reset (a : t) : tracker (reset_status_tracking a) id = StatusTracker.default.
Proof.
  unfold tracker, reset_status_tracking. simpl. rewrite lookup_fmap.
  by destruct (trackers a !! id).
Qed.

Lemma armed_cancel (a : t) : armed (timer_cancel a (TimerKey.StatusDebounce id)) = false.
Proof.
  unfold armed, TimerWheel.is_armed. set (k := TimerKey.StatusDebounce id).
  change (timers (timer_cancel a k)) with (TimerWheel.cancel (timers a) k).1.
  destruct (TimerWheel.cancel_frame (timers a) k) as (-> & _).
  by rewrite lookup_delete_eq.
Qed.

Lemma armed_set (a : t) d : armed (timer_set a (TimerKey.StatusDebounce id) d) = true.
Proof.
  unfold armed, TimerWheel.is_armed. simpl. unfold TimerWheel.set. cbv zeta.
  match goal with |- context [TimerWheel.abort ?o ?w] =>
    destruct (TimerWheel.abort_spec o w) as (-> & _) end.
  simpl. by rewrite lookup_insert_eq.
Qed.

Lemma armed_reset (a : t) : armed (reset_status_tracking a) = false.
Proof.
  unfold armed, TimerWheel.is_armed. set (k := TimerKey.StatusDebounce id).
  change (timers (reset_status_tracking a)) with (TimerWheel.cancel_where (timers a) is_debounce).
  unfold TimerWheel.cancel_where. set (w := timers a).
  set (ks := retain is_debounce _).
  assert (Hin : TimerWheel.armed w !! k = None \/ In k ks).
  { destruct (TimerWheel.armed w !! k) as [x|] eqn:E; [right|by left].
    apply retain_In. split; [|done]. apply in_map_iff. exists (k, x). split; [done|].
    by apply list_elem_of_In, elem_of_map_to_list. }
  assert (Hout : TimerWheel.armed (foldr (fun key w => (TimerWheel.cancel w key).1) w ks) !! k = None).
  { clearbody ks. induction ks as [|x ks IH]; [by destruct Hin|]. cbn [foldr].
    set (w' := foldr _ _ _) in *. destruct (TimerWheel.cancel_frame w' x) as (-> & _).
    destruct (decide (x = k)) as [->|Hne]; [by rewrite lookup_delete_eq|].
    rewrite lookup_delete_ne by done. apply IH. destruct Hin as [?|[?|?]]; auto; congruence. }
  by rewrite Hout.
Qed.

(** What every operation here leaves as it is. *)
Record framed (a b : t) : Prop := {
  framed_state : state b = state a;
  framed_link : link b = link a;
  framed_clock : now_utc b = now_utc a;
}.

Lemma framed_trans a b c : framed a b -> framed b c -> framed a c.
Proof. intros [] []. split; congruence. Qed.

Lemma framed_key a b : framed a b -> status_key b id = status_key a id.
Proof. intros [Hs _ _]. unfold status_key, find_connector, connectors. by rewrite Hs. Qed.

Lemma framed_can a b o : framed a b -> can_send_status b o = can_send_status a o.
Proof.
  intros [Hs Hl _]. unfold can_send_status, connected, registration. by rewrite Hs, Hl.
Qed.

(** The notification of [key] with the time [at_] goes out. *)
Record sends (a b : t) (key : StatusKey.t) (at_ : DateTime) : Prop := {
  sends_call : exists c, outbox b = Sent c :: outbox a /\
    out_action c = Actions.StatusNotification /\
    to_value (notification key at_) = Some (payload c);
  sends_tracker : tracker b id = StatusTracker.mark_sent (tracker a id) key;
  sends_timers : timers b = timers a;
  sends_frame : framed a b;
}.

(** [serde_json] serializes the request. *)
Variable serializes : forall key at_, is_Some (to_value (notification key at_)).

Lemma dispatch_sends (a : t) key at_ o r :
  can_send_status a o = true -> sends a (dispatch_status a id key at_ o r) key at_.
Proof.
  unfold can_send_status. intros [Hc Hg]%andb_true_iff.
  unfold dispatch_status. cbv zeta. fold (notification key at_). unfold call.
  destruct (serializes key at_) as [body Hbody]. rewrite Hbody.
  unfold call_raw. change (connected (set_tracker _ _ _)) with (connected a). rewrite Hc.
  unfold may_send. change (registration (set_tracker _ _ _)) with (registration a).
  change (Request.name (notification key at_)) with (lit "StatusNotification"). rewrite Hg. simpl.
  unfold hand_over. case_match. simpl. split.
  - eexists. split_and!; [done..|]. exact Hbody.
  - unfold tracker. simpl. by rewrite lookup_insert_eq.
  - done.
  - by split.
Qed.

Lemma gate_station r name o : gate r name Origin.Station = true -> gate r name o = true.
Proof. unfold gate. destruct o; [done|..]; destruct (name == _); [done|..]; by destruct r as [[]|]. Qed.

Lemma heard_sends f a b key at_ :
  sends a b key at_ -> status_key a id = Some key ->
  exists c, heard f a b = [Sending c key (now_utc a) f] /\
    out_action c = Actions.StatusNotification /\
    to_value (notification key at_) = Some (payload c).
Proof.
  intros [(c & Ho & Hc) _ _ Hf] Hk. exists c. split; [|done].
  unfold heard, new_calls. rewrite (framed_key a b Hf), Hk, (framed_clock a b Hf), Ho.
  replace (length (Sent c :: outbox a) - length (outbox a))%nat with 1%nat by (simpl; lia). done.
Qed.

Lemma heard_none f a b : outbox b = outbox a -> heard f a b = [].
Proof.
  intros Ho. unfold heard, new_calls. rewrite Ho, Nat.sub_diag. simpl.
  by destruct (status_key b id).
Qed.

(** ** What the CSMS knows *)

Lemma known_sending c key now f l k : known (Sending c key now f :: l) k <-> k = key.
Proof.
  split.
  - intros ([|n l1] & c' & now' & f' & l2 & [= ] & Hl); [congruence|]. subst. by inversion Hl.
  - intros ->. exists [], c, now, f, l. by split.
Qed.

Lemma known_skip n l k :
  (forall c now f, n <> Sending c k now f) -> known (n :: l) k <-> leaves k n /\ known l k.
Proof.
  intros Hn. split.
  - intros ([|n' l1] & c' & now' & f' & l2 & [= ] & Hl); [by subst; destruct (Hn c' now' f')|].
    subst. inversion_clear Hl. split; [done|]. by exists l1, c', now', f', l2.
  - intros (Hk & l1 & c & now & f & l2 & -> & Hl). exists (n :: l1), c, now, f, l2.
    split; [done|by constructor].
Qed.

Lemma known_changing key now l k : known (Changing key now :: l) k <-> known l k.
Proof. rewrite known_skip by done. naive_solver. Qed.

Lemma known_failing key l k : known (Failing key :: l) k <-> key <> k /\ known l k.
Proof. rewrite known_skip by done. done. Qed.

(** A notification says the state, with the time of a change to it, and repeats nothing; a
    forced one is sent in any case and has the time of the sending. *)
Definition justified (n : note) (l : list note) : Prop :=
  match n with
  | Sending c key now f => exists at_,
      out_action c = Actions.StatusNotification /\
      to_value (notification key at_) = Some (payload c) /\
      if f then at_ = now else In (Changing key at_) l /\ ~ known l key
  | _ => True
  end.
Definition all_justified (l : list note) : Prop :=
  forall l1 n l2, l = l1 ++ n :: l2 -> justified n l2.

Lemma all_justified_cons n l : all_justified l -> justified n l -> all_justified (n :: l).
Proof. intros Hl Hn [|n' l1] m l2 [= ]; subst; [done|]. by eapply Hl. Qed.

(** ** The invariant *)

Record inv (a : t) (l : list note) : Prop := {
  inv_can : can_send_status a Origin.Station = true;
  inv_known : forall k, StatusTracker.last_sent (tracker a id) = Some k <-> known l k;
  inv_armed : armed a = is_someb (StatusTracker.pending (tracker a id));
  inv_just : all_justified l;
  inv_key : exists key, status_key a id = Some key /\
    match StatusTracker.pending (tracker a id) with
    | Some p => StatusTracker.pending_key p = key /\
                In (Changing key (StatusTracker.changed_at p)) l /\ ~ known l key
    | None => known l key \/ forall k, ~ known l k
    end;
}.

(** A notification of the state goes out and nothing waits. *)
Lemma inv_sends (f : bool) (a b : t) key at_ l :
  sends a b key at_ -> status_key a id = Some key ->
  can_send_status a Origin.Station = true ->
  StatusTracker.pending (tracker a id) = None -> armed a = false -> all_justified l ->
  (if f then at_ = now_utc a else In (Changing key at_) l /\ ~ known l key) ->
  inv b (heard f a b ++ l) /\ known (heard f a b ++ l) key.
Proof.
  intros Hs Hk Hcan Hp Harm Hl Hat.
  destruct (heard_sends f a b key at_ Hs Hk) as (c & -> & Hc & Hpay).
  destruct Hs as [_ Htr Htm Hf]. split; [|by apply known_sending]. split.
  - by rewrite (framed_can a b _ Hf).
  - intros k. rewrite Htr. simpl. rewrite known_sending. naive_solver.
  - rewrite Htr. unfold armed in *. rewrite Htm, Harm. simpl. by rewrite Hp.
  - apply all_justified_cons; [done|]. by exists at_.
  - exists key. rewrite (framed_key a b Hf), Htr. split; [done|]. simpl. rewrite Hp.
    left. by apply known_sending.
Qed.

Lemma inv_elsewhere a b l :
  inv a l -> elsewhere a b -> status_key b id = status_key a id -> inv b l.
Proof.
  intros [Hcan Hkn Harm Hj Hkey] (Ht & Ha & Hc) Hk. split; rewrite ?Ht, ?Ha, ?Hk; done.
Qed.

Lemma inv_failed (a : t) key r e l : inv a l -> inv (status_failed id key r a e) (Failing key :: l).
Proof.
  intros [Hcan Hkn Harm Hj (k0 & Hk0 & Hp)].
  assert (Hf : forall b, framed a b -> tracker b id = StatusTracker.mark_failed (tracker a id) key ->
    timers b = timers a -> inv b (Failing key :: l)).
  2:{ apply Hf.
      - by destruct r.
      - rewrite <- (tracker_set a (StatusTracker.mark_failed (tracker a id) key)). by destruct r.
      - by destruct r. }
  intros b Hf Ht Htm.
  assert (Hpend : StatusTracker.pending (tracker b id) = StatusTracker.pending (tracker a id))
    by (rewrite Ht; unfold StatusTracker.mark_failed; by destruct (StatusTracker.last_sent (tracker a id) == Some key)).
  split.
  - by rewrite (framed_can a b _ Hf).
  - intros k. rewrite Ht, known_failing, <- Hkn. unfold StatusTracker.mark_failed.
    destruct (StatusTracker.last_sent (tracker a id) == Some key) eqn:E;
      rewrite ?eqb_true, ?eqb_false in E; simpl; naive_solver.
  - rewrite Hpend, <- Harm. unfold armed. by rewrite Htm.
  - by apply all_justified_cons.
  - exists k0. rewrite (framed_key a b Hf), Hpend. split; [done|].
    destruct (StatusTracker.pending (tracker a id)) as [p|].
    + destruct Hp as (? & ? & Hn). split_and!; [done|by right|]. rewrite known_failing. naive_solver.
    + destruct (decide (key = k0)) as [->|Hne].
      * right. intros k. rewrite known_failing. intros [Hne Hk]. destruct Hp as [Hp|Hp]; [|naive_solver].
        rewrite <- Hkn in Hk, Hp. congruence.
      * destruct Hp as [Hp|Hp]; [left|right; intros k]; rewrite known_failing; naive_solver.
Qed.

Lemma inv_online (a b : t) :
  elsewhere (reset_status_tracking a) b -> is_Some (status_key b id) -> inv b [].
Proof.
  intros (Ht & Ha & Hc) [key Hk]. rewrite tracker_reset in Ht. rewrite armed_reset in Ha.
  assert (Hn : forall k, ~ known [] k) by (by intros k ([|] & ? & ? & ? & ? & [= ] & _)).
  split; rewrite ?Ht, ?Ha; try done.
  - intros k. simpl. split; [done|]. intros Hk'. by destruct (Hn k).
  - by intros [|] ? ? [= ].
  - exists key. split; [done|]. by right.
Qed.

Lemma inv_fired (a : t) l key :
  inv a l -> status_key a id = Some key ->
  inv (fired a) (heard false a (fired a) ++ l) /\
  (armed a = true -> known (heard false a (fired a) ++ l) key).
Proof.
  intros [Hcan Hkn Harm Hj (k0 & Hk0 & Hp)] Hk. rewrite Hk in Hk0. simplify_eq.
  unfold fired, status_timer_fired. set (a1 := timer_cancel a _).
  change (status_key a1 id) with (status_key a id).
  change (can_send_status a1 Origin.Station) with (can_send_status a Origin.Station).
  change (tracker a1 id) with (tracker a id). rewrite Hk, Hcan. cbn [negb].
  unfold StatusTracker.take_due.
  destruct (StatusTracker.pending (tracker a id)) as [p|] eqn:Ep.
  - destruct Hp as (Hpk & Hch & Hn). assert (Hne := Hn). rewrite <- Hkn in Hne.
    rewrite (eqb_ne _ _ Hne). set (a2 := set_tracker a1 id _).
    assert (Hs := dispatch_sends a2 k0 (StatusTracker.changed_at p) Origin.Station None Hcan).
    edestruct (inv_sends false a2 _ k0 _ l Hs Hk Hcan) as [Hi Hknown].
    + unfold a2. by rewrite tracker_set.
    + apply armed_cancel.
    + done.
    + by split.
    + done.
  - assert (Ha1 : armed a1 = false) by apply armed_cancel.
    set (a2 := set_tracker a1 id _). rewrite (heard_none false a a2) by done.
    split; [|by rewrite Harm]. unfold a2. split; rewrite ?tracker_set; try done.
    + by rewrite Ep.
    + exists k0. rewrite Ep. by split.
Qed.

Lemma inv_forced (a : t) o r l :
  inv a l -> can_send_status a o = true ->
  inv (send_status_forced a id o r) (heard true a (send_status_forced a id o r) ++ l).
Proof.
  intros [Hcan Hkn Harm Hj (key & Hk & Hp)] Ho. unfold send_status_forced. rewrite Hk. cbv zeta.
  set (a1 := timer_cancel a _). set (a2 := set_tracker a1 id _).
  assert (Hs := dispatch_sends a2 key (now_utc a2) o r Ho).
  edestruct (inv_sends true a2 _ key _ l Hs Hk Hcan) as [Hi _]; try done.
  - unfold a2. by rewrite tracker_set.
  - apply armed_cancel.
Qed.

(** ** A call of [status_changed], by what the tracker plans *)

Section changed.
Variables (b : t) (key : StatusKey.t) (l : list note) (s : StatusTracker.t).
Hypothesis can : can_send_status b Origin.Station = true.
Hypothesis key_is : status_key b id = Some key.
Hypothesis just : all_justified l.
Hypothesis knows : forall k, StatusTracker.last_sent s = Some k <-> known l k.

(** Known already: nothing waits any more. *)
Lemma changed_known :
  StatusTracker.last_sent s = Some key ->
  inv (timer_cancel (set_tracker b id (s <| StatusTracker.pending := None |>))
         (TimerKey.StatusDebounce id)) l /\ known l key.
Proof.
  intros Hs. assert (Hknown : known l key) by (by apply knows). split; [|done].
  set (s' := s <| StatusTracker.pending := None |>).
  set (b' := timer_cancel _ _). assert (Htr : tracker b' id = s') by apply tracker_set.
  split; rewrite ?Htr; try done; [apply armed_cancel|]. exists key. split; [done|by left].
Qed.

(** Told at once. *)
Lemma changed_told :
  let b' := timer_cancel (set_tracker b id (s <| StatusTracker.pending := None |>))
              (TimerKey.StatusDebounce id) in
  let b'' := dispatch_status b' id key (now_utc b) Origin.Station None in
  StatusTracker.last_sent s <> Some key -> In (Changing key (now_utc b)) l ->
  inv b'' (heard false b b'' ++ l) /\ known (heard false b b'' ++ l) key.
Proof.
  intros b' b'' Hs Hin. assert (Hd := dispatch_sends b' key (now_utc b) Origin.Station None can).
  apply (inv_sends false b' b'' key _ l Hd key_is can); try done.
  - change (tracker b' id)
      with (tracker (set_tracker b id (s <| StatusTracker.pending := None |>)) id).
    by rewrite tracker_set.
  - apply armed_cancel.
  - split; [done|]. by rewrite <- knows.
Qed.

(** Waiting for the timer. *)
Lemma changed_waits (b' : t) (p : StatusTracker.Pending) :
  framed b b' -> armed b' = true -> tracker b' id = s <| StatusTracker.pending := Some p |> ->
  StatusTracker.pending_key p = key -> In (Changing key (StatusTracker.changed_at p)) l ->
  StatusTracker.last_sent s <> Some key -> inv b' l.
Proof.
  intros Hf Ha Ht Hp Hin Hs. split; rewrite ?Ht; try done.
  - by rewrite (framed_can b b' _ Hf).
  - exists key. rewrite (framed_key b b' Hf). split; [done|]. simpl. split_and!; try done.
    by rewrite <- knows.
Qed.
End changed.

(** After a call of [status_changed] the CSMS is told, or will be by a timer. *)
Lemma inv_changed (a b : t) key l :
  inv a l -> elsewhere a b -> status_key b id = Some key ->
  let b' := status_changed b id in
  let l' := heard false b b' ++ Changing key (now_utc b) :: l in
  inv b' l' /\ (known l' key \/ armed b' = true).
Proof.
  intros [Hcan Hkn Harm Hj (k0 & Hk0 & Hp)] (Ht & Ha & Hc) Hk. cbv zeta.
  set (s := tracker a id) in *. set (l1 := Changing key (now_utc b) :: l).
  assert (Hj1 : all_justified l1) by (by apply all_justified_cons).
  assert (Hkn1 : forall k, StatusTracker.last_sent s = Some k <-> known l1 k)
    by (intros k; unfold l1; by rewrite known_changing).
  unfold status_changed. rewrite Hc, Hk, Ht. cbn [negb]. cbv zeta. unfold StatusTracker.plan_change.
  destruct (StatusTracker.last_sent s == Some key) eqn:E1; rewrite ?eqb_true, ?eqb_false in E1.
  { rewrite heard_none by done. edestruct changed_known; eauto. }
  destruct (ConfigRegistry.minimum_status_duration (registry b) =? 0).
  { edestruct (changed_told b key l1 s) as [Hi Hknown]; try done; [by left|].
    split; [exact Hi|by left]. }
  destruct (is_some_and _ _) eqn:E2.
  - destruct (StatusTracker.pending s) as [p|] eqn:Ep; [|done].
    cbn [is_some_and] in E2. apply (proj1 (eqb_true _ _)) in E2. destruct Hp as (Hpk & Hch & Hn).
    assert (Ha2 : armed b = true) by (by rewrite Ha, Harm). rewrite heard_none by done.
    split; [|by right]. apply (changed_waits b key l1 s) with (p := p); try done.
    + rewrite tracker_set. destruct s. simpl in *. by subst.
    + right. by rewrite <- E2, Hpk.
  - set (p := StatusTracker.mk_pending key (now_utc b)). rewrite heard_none by done.
    split; [|right; apply armed_set].
    apply (changed_waits b key l1 s) with (p := p); try done.
    + apply armed_set.
    + apply tracker_set.
    + by left.
Qed.

Lemma run_inv a l : run a l -> inv a l.
Proof.
  induction 1 as [a b He Hk|a b l _ IH He Hk|a b key l _ IH He Hk|a l _ IH|a o r l _ IH Ho|a key r e l _ IH].
  - by apply (inv_online a).
  - by apply (inv_elsewhere a).
  - by apply (inv_changed a).
  - destruct (inv_key _ _ IH) as (key & Hk & _). by apply (inv_fired a l key).
  - by apply inv_forced.
  - by apply inv_failed.
Qed.


End runs.

(** The sample station is online, and its first connector gets occupied: the CSMS is told. *)
Section witness.
#[local] Existing Instance u64_json.
#[local] Existing Instance ns_chrono.
#[local] Existing Instance CertificateStore.sample_pki.
#[local] Existing Instance Samples.accepting.

End witness.
End StatusRuns.
