(* ===== verification/Dispatch.v ===== *)
(** * Dispatch: what a CALL of the CSMS is answered before any handler decides

    The table of [dispatch_incoming] (station/handlers/mod.rs) against the registry of actions
    and the response rules: which CALLs reach a handler, and the one answer of those that do not. *)

From stdpp Require Import strings gmap.
From S2P Require Import Prelude Text F64 Time Types Messages SecurityMessages Frame Actions.
From S2P Require Import ResponseRules Config ConfigRegistry LocalAuthList Authorization.
From S2P Require Import Connector Reservation Offline Timers Metering SmartCharging.
From S2P Require Import ChargingProfiles Maintenance Security Certificates Interface Store.
From S2P Require Import Actor Calls Transactions Secure Sampling Link Handlers.
From S2P Require Import Commands Restore Station Samples.
Local Open Scope Z_scope.

Module Dispatch.
Import Actor Handlers.
Section dispatch.
Context {J : SerdeJson} {P : Pki} {C : Chrono} {W : Wire} {U : UrlParser} {I : InWire}.

(** The actions the registry lets a Central System send. *)
Definition sent_by_csms (name : str) : bool :=
  is_some_and (fun i => Actions.central_system_may_send (Actions.direction i)) (Actions.find name).

(** The decoders of the requests, by the name of their action. *)
Definition decoders : list (str * (json -> bool)) :=
  [(Actions.CancelReservation, fun v => is_someb (cancel_reservation_req v));
   (Actions.CertificateSigned, fun v => is_someb (certificate_signed_req v));
   (Actions.ChangeAvailability, fun v => is_someb (change_availability_req v));
   (Actions.ChangeConfiguration, fun v => is_someb (change_configuration_req v));
   (Actions.ClearCache, fun v => is_someb (clear_cache_req v));
   (Actions.ClearChargingProfile, fun v => is_someb (clear_charging_profile_req v));
   (Actions.DataTransfer, fun v => is_someb (data_transfer_req v));
   (Actions.DeleteCertificate, fun v => is_someb (delete_certificate_req v));
   (Actions.ExtendedTriggerMessage, fun v => is_someb (extended_trigger_message_req v));
   (Actions.GetCompositeSchedule, fun v => is_someb (get_composite_schedule_req v));
   (Actions.GetConfiguration, fun v => is_someb (get_configuration_req v));
   (Actions.GetDiagnostics, fun v => is_someb (get_diagnostics_req v));
   (Actions.GetInstalledCertificateIds, fun v => is_someb (get_installed_certificate_ids_req v));
   (Actions.GetLocalListVersion, fun v => is_someb (get_local_list_version_req v));
   (Actions.GetLog, fun v => is_someb (get_log_req v));
   (Actions.InstallCertificate, fun v => is_someb (install_certificate_req v));
   (Actions.RemoteStartTransaction, fun v => is_someb (remote_start_transaction_req v));
   (Actions.RemoteStopTransaction, fun v => is_someb (remote_stop_transaction_req v));
   (Actions.ReserveNow, fun v => is_someb (reserve_now_req v));
   (Actions.Reset, fun v => is_someb (reset_req v));
   (Actions.SendLocalList, fun v => is_someb (send_local_list_req v));
   (Actions.SetChargingProfile, fun v => is_someb (set_charging_profile_req v));
   (Actions.SignedUpdateFirmware, fun v => is_someb (signed_update_firmware_req v));
   (Actions.TriggerMessage, fun v => is_someb (trigger_message_req v));
   (Actions.UnlockConnector, fun v => is_someb (unlock_connector_req v));
   (Actions.UpdateFirmware, fun v => is_someb (update_firmware_req v))].

(** The answer of a rule that keeps the CALL from its handler. *)
Definition refusal (name : str) (b : ResponseRules.Behavior) : option Answer.t :=
  match b with
  | ResponseRules.Delay _ => None
  | ResponseRules.Reject =>
      Some (match ResponseRules.reject_payload name with
            | Some payload => Answer.AcceptValue payload
            | None => Answer.Reject ErrorCode.NotSupported
            end)
  | ResponseRules.Error code _ => Some (Answer.Reject code)
  | ResponseRules.Drop | ResponseRules.Ignore => Some Answer.Abandoned
  end.

(** How long the answer of the handler is held back. *)
Definition held_for (b : option ResponseRules.Behavior) (h : ReplyHandle.t) : ReplyHandle.t :=
  match b with
  | Some (ResponseRules.Delay ms) => h <| ReplyHandle.held_back := ms * NS_PER_MS |>
  | _ => h
  end.

(** The station once the rules were looked up for a CALL. *)
Definition looked_up (a : t) (rules : list ResponseRules.ResponseRule)
    (b : option ResponseRules.Behavior) : t :=
  let a := (log a LogLevel.Info) <| state ::= fun s => s <| Snapshot.response_rules := rules |> |> in
  match b with Some _ => log a LogLevel.Warn | None => a end.

(** The table of the dispatch is the registry's: an action has a handler exactly when a Central
    System may send it. *)
Lemma inbound_iff name : any (fun x => x == name) ResponseRules.INBOUND_ACTIONS = sent_by_csms name.
Proof.
  unfold sent_by_csms, Actions.find, Actions.ACTIONS, ResponseRules.INBOUND_ACTIONS, any.
  cbn [existsb find_first Actions.name].
  repeat match goal with
  | |- context [@eqb _ _ ?n name] =>
      let E := fresh in destruct (@eqb _ _ n name) eqn:E;
      [apply (proj1 (eqb_true _ _)) in E; subst name; vm_compute; reflexivity|]
  end.
  reflexivity.
Qed.

Lemma route_undecoded (a : t) name payload h d :
  In (name, d) decoders -> d payload = false ->
  route a name payload h = respond_error (log a LogLevel.Warn) h ErrorCode.TypeConstraintViolation.
Proof.
  intros Hin Hd. unfold decoders in Hin.
  repeat (destruct Hin as [Heq|Hin];
    [injection Heq as <- <-; unfold is_someb in Hd;
     match type of Hd with match ?r with _ => _ end = _ => destruct r eqn:E; [discriminate|] end;
     unfold route; cbn -[emit log respond_error]; by rewrite E|]).
  done.
Qed.

Lemma route_unknown (a : t) name payload h :
  sent_by_csms name = false ->
  route a name payload h = emit (log a LogLevel.Warn) (Answered h (Answer.Reject ErrorCode.NotImplemented)).
Proof.
  intros Hn. pose proof Hn as Hs. rewrite <- inbound_iff in Hn.
  unfold any, ResponseRules.INBOUND_ACTIONS in Hn. cbn [existsb] in Hn.
  repeat match goal with
  | H : _ || _ = false |- _ => apply orb_false_iff in H as [? H]
  end.
  assert (Hsym : forall x y : str, (x == y) = (y == x)).
  { intros x y. destruct (y == x) eqn:E; [apply (proj1 (eqb_true _ _)) in E; subst; apply eqb_refl|].
    apply eqb_false. apply (proj1 (eqb_false _ _)) in E. congruence. }
  unfold route. rewrite !(Hsym name).
  repeat match goal with H : @eqb _ _ _ name = false |- _ => rewrite H; clear H end.
  unfold not_handled. unfold sent_by_csms in Hs. by rewrite Hs.
Qed.

(** The one answer of a CALL that reaches no handler. The actions with a handler are
    exactly those the registry lets a Central System send. Any other action is answered with
    NotImplemented (never with NotSupported) and touches nothing but the log. A response rule
    other than a delay gives its own answer, and the handler does not run; [Drop] closes the
    connection too. Otherwise a payload that does not decode is answered with
    TypeConstraintViolation, after the delay of the rule. *)
Theorem dispatch_answers (a : t) name payload h rules b :
  ResponseRules.take_rule (Snapshot.response_rules (state a)) name = (rules, b) ->
  (In name ResponseRules.INBOUND_ACTIONS <-> sent_by_csms name = true) /\
  (sent_by_csms name = false ->
     dispatch_incoming a name payload h
     = emit (log (log a LogLevel.Info) LogLevel.Warn) (Answered h (Answer.Reject ErrorCode.NotImplemented))) /\
  (sent_by_csms name = true ->
     match b ≫= refusal name with
     | Some answer =>
         let a' := emit (looked_up a rules b) (Answered h answer) in
         dispatch_incoming a name payload h
         = (if connected a && (b == Some ResponseRules.Drop) then emit a' Closing else a')
     | None =>
         forall d, In (name, d) decoders -> d payload = false ->
         dispatch_incoming a name payload h
         = emit (log (looked_up a rules b) LogLevel.Warn)
             (Answered (held_for b h) (Answer.Reject ErrorCode.TypeConstraintViolation))
     end).
Proof.
  intros Ht. split_and!.
  - rewrite <- inbound_iff. unfold any. rewrite existsb_exists. split.
    + intros Hin. exists name. split; [done|apply eqb_refl].
    + intros (x & Hx & <-%(proj1 (eqb_true _ _))). done.
  - intros Hn. unfold dispatch_incoming. rewrite inbound_iff, Hn. by apply route_unknown.
  - intros Hs. unfold dispatch_incoming. rewrite inbound_iff, Hs.
    unfold apply_response_rule. change (state (log a LogLevel.Info)) with (state a). rewrite Ht.
    destruct b as [b|]; [destruct b|]; cbn [option_bind mbind refusal].
    + rewrite andb_comm. cbn [andb eqb]. destruct (ResponseRules.reject_payload name); done.
    + intros d Hd Hp. by apply (route_undecoded _ _ _ _ d).
    + by rewrite andb_comm.
    + rewrite andb_comm. unfold connected. done.
    + by rewrite andb_comm.
    + intros d Hd Hp. by apply (route_undecoded _ _ _ _ d).
Qed.
End dispatch.

#[local] Existing Instance u64_json.
#[local] Existing Instance ns_chrono.
#[local] Existing Instance any_url.
#[local] Existing Instance CertificateStore.sample_pki.
#[local] Existing Instance Samples.accepting.
#[local] Existing Instance Samples.requests.

(** A CALL whose payload does not decode, answered late because of a counted rule; and one that
    a Charge Point sends. *)
Definition delayed : Actor.t :=
  Samples.online <| state ::= fun s => s <| Snapshot.response_rules :=
    [ResponseRules.mk Actions.ChangeConfiguration (ResponseRules.Delay 20) (Some 1)] |> |>.

Lemma dispatch_answers_witness :
  exists a', dispatch_incoming delayed Actions.ChangeConfiguration Null (ReplyHandle.mk 1 0)
             = emit a' (Answered (ReplyHandle.mk 1 20000000) (Answer.Reject ErrorCode.TypeConstraintViolation))
             /\ Snapshot.response_rules (state a') = [] /\
  dispatch_incoming delayed Actions.BootNotification Null (ReplyHandle.mk 1 0)
    = emit (log (log delayed LogLevel.Info) LogLevel.Warn)
        (Answered (ReplyHandle.mk 1 0) (Answer.Reject ErrorCode.NotImplemented)).
Proof.
  assert (Ht : forall name, exists rules b,
    ResponseRules.take_rule (Snapshot.response_rules (state delayed)) name = (rules, b)).
  { intros name. destruct (ResponseRules.take_rule _ name) as [rules b]. eexists _, _. reflexivity. }
  eexists. split; [|split; cycle 1].
  - destruct (dispatch_answers delayed Actions.ChangeConfiguration Null (ReplyHandle.mk 1 0)
                [] (Some (ResponseRules.Delay 20)) ltac:(vm_compute; reflexivity)) as (_ & _ & Hd).
    refine (Hd ltac:(vm_compute; reflexivity) (fun v => is_someb (change_configuration_req v)) _ _);
      [right; right; right; left; reflexivity|reflexivity].
  - destruct (Ht Actions.BootNotification) as (rules & b & Hb).
    apply (dispatch_answers delayed Actions.BootNotification Null (ReplyHandle.mk 1 0) _ _ Hb).
    vm_compute. reflexivity.
  - reflexivity.
Defined.
End Dispatch.

(** ** ChangeConfiguration, from the request to the answer ([handlers/config.rs]) *)

Module Configuring.
Import Actor Calls Secure Handlers.

Section configuring.
Context {J : SerdeJson} {P : Pki} {C : Chrono} {W : Wire} {U : UrlParser} {I : InWire}.

(** The configuration is left alone. *)
Definition keeps (a b : t) : Prop := registry b = registry a.

Lemma keeps_trans a b c : keeps a b -> keeps b c -> keeps a c.
Proof. unfold keeps. congruence. Qed.
Lemma keeps_fold {X} (f : t -> X -> t) l a :
  (forall b x, keeps b (f b x)) -> keeps a (fold_left f l a).
Proof.
  intros Hf. revert a. induction l as [|x l IH]; intros a; [done|].
  eapply keeps_trans; [apply Hf|apply IH].
Qed.

Lemma keeps_mark_dirty a : keeps a (mark_dirty a).
Proof. unfold mark_dirty. by case_match. Qed.
Lemma keeps_flush_now a : keeps a (flush_now a).
Proof.
  unfold flush_now. eapply keeps_trans; [apply keeps_mark_dirty|].
  set (b := timer_cancel _ _). apply (keeps_trans _ b); [done|]. clearbody b.
  unfold flush_persistence. assert (Hf : keeps b (flush_meters b)).
  { unfold flush_meters. cbv zeta. assert (Hs : keeps b (settle_meters b)).
    { apply keeps_fold. intros c [i charging]. unfold settle_meter. by repeat case_match. }
    destruct (flush_list _ _) as [[ms l] []]; [|exact Hs].
    set (c := set_connectors _ _). apply (keeps_trans _ c); [exact Hs|apply keeps_mark_dirty]. }
  cbv zeta. repeat case_match; exact Hf.
Qed.

Lemma keeps_call a o request k fail :
  (forall e, keeps a (fail a e)) -> keeps a (call a o request k fail).
Proof.
  intros Hf. unfold call. case_match; [|done]. unfold call_raw. case_match; [done|].
  case_match; [|done]. unfold hand_over, keeps, emit. case_match. simpl. reflexivity.
Qed.

Lemma keeps_security_event a ty info : keeps a (security_event a ty info).
Proof.
  unfold security_event. cbv zeta. set (b0 := (log a _) <| security_events ::= _ |>).
  apply (keeps_trans _ b0); [done|]. set (b := mark_dirty b0).
  apply (keeps_trans _ b); [apply keeps_mark_dirty|].
  unfold flush_security_events. case_match; [done|]. cbv zeta. case_match; [done|].
  set (c := b <| security_events := [] |>). apply (keeps_trans _ c); [done|].
  apply (keeps_trans _ (mark_dirty c)); [apply keeps_mark_dirty|].
  apply keeps_fold. intros d x. unfold send_security_event_call. apply keeps_call.
  intros e. unfold security_event_failed. case_match; [|done].
  set (d' := d <| security_events ::= _ |>). apply (keeps_trans _ d'); [done|apply keeps_mark_dirty].
Qed.

Lemma keeps_reconnect a : keeps a (reconnect_for_new_security_parameters a).
Proof. unfold reconnect_for_new_security_parameters. by case_match. Qed.

Lemma keeps_security_key a key : keeps a (on_security_key_changed a key).
Proof.
  unfold on_security_key_changed. set (b := if _ == _ then _ else a).
  assert (Hb : keeps a b).
  { subst b. case_match; [|done]. unfold mark_secrets_dirty. set (c := over persistence _ _).
    apply (keeps_trans _ c); [done|apply keeps_mark_dirty]. }
  case_match; [|exact Hb]. eapply keeps_trans; [exact Hb|].
  apply (keeps_trans _ (log b LogLevel.Info)); [done|].
  eapply keeps_trans; [|apply keeps_reconnect]. apply keeps_security_event.
Qed.

Lemma keeps_status_timer a id : keeps a (status_timer_fired a id).
Proof.
  unfold status_timer_fired. case_match; [|done]. case_match; [done|].
  destruct (StatusTracker.take_due _ _) as [s [at_|]]; [|done].
  unfold dispatch_status. cbv zeta. set (b := set_tracker _ _ _). apply (keeps_trans _ b); [done|].
  by apply keeps_call.
Qed.

Lemma keeps_configuration a key : keeps a (on_configuration_changed a key).
Proof.
  unfold on_configuration_changed. repeat (case_match; try done).
  - apply keeps_fold. intros b id. set (c := timer_cancel b _).
    apply (keeps_trans _ c); [done|apply keeps_status_timer].
  - unfold restart_metering, reschedule_metering. set (b := timer_cancel_where a _).
    apply (keeps_trans _ b); [done|]. cbv zeta. set (c := fold_left _ _ b).
    apply (keeps_trans _ c); [|by case_match]. apply keeps_fold.
    intros d id. unfold reschedule_periodic. by case_match.
Qed.

(** ** The rules of [SecurityProfile] *)

Definition url_has_password (a : t) : Prop :=
  exists u, url_parse (StationConfig.url (config a)) = Ok u /\ is_Some (url_password u).

(** Which profiles the station may be given: it is only raised, but for 3 to 2 where the
    configuration allows that; TLS needs its URL, profile 3 a client certificate, Basic
    authentication a password. 0 and 1 may be set again. *)
Definition profile_permitted (a : t) (new : Z) : Prop :=
  let current := ConfigRegistry.security_profile (registry a) in
  (new = current /\ new <= 1) \/
  ((current < new \/
    (current = 3 /\ new = 2 /\ ConfigRegistry.allow_security_profile_downgrade (registry a) = true)) /\
   (2 <= new -> secure_url (StationConfig.url (config a)) = true) /\
   (new = 3 -> has_client_identity a = true) /\
   (new = 1 \/ new = 2 ->
      url_has_password a \/ is_Some (ConfigRegistry.authorization_key (registry a)))).

(** A request that the rules of [SecurityProfile] let through to the registry. *)
Definition permitted (a : t) (name v : str) : Prop :=
  eq_ignore_ascii_case name ConfigRegistry.SECURITY_PROFILE = true ->
  forall new, parse_unsigned u8_max v = Some new -> new <= 3 -> profile_permitted a new.

Lemma has_password_spec (a : t) :
  match url_parse (StationConfig.url (config a)) with
  | Ok u => is_someb (url_password u)
  | Err _ => false
  end = true <-> url_has_password a.
Proof.
  unfold url_has_password. destruct (url_parse _) as [u|e].
  - destruct (url_password u) eqn:E; simpl; split; [by eauto|done|done|].
    intros (u' & [= <-] & Hu). rewrite E in Hu. by destruct Hu.
  - split; [done|]. by intros (u & [= ] & _).
Qed.

Lemma profile_check (a : t) (new : Z) (password : bool) :
  0 <= new <= 3 -> (password = true <-> url_has_password a) ->
  let current := ConfigRegistry.security_profile (registry a) in
  (negb ((new <? current) && negb ((current =? 3) && (new =? 2)
            && ConfigRegistry.allow_security_profile_downgrade (registry a)))
   && (if new =? current then negb (1 <? new)
       else negb ((2 <=? new) && negb (secure_url (StationConfig.url (config a))))
            && negb ((new =? 3) && negb (has_client_identity a))
            && negb (((new =? 1) || (new =? 2)) && negb password
                     && negb (is_someb (ConfigRegistry.authorization_key (registry a)))))) = true
  <-> profile_permitted a new.
Proof.
  intros Hn Hp current. unfold profile_permitted. fold current. rewrite <- Hp.
  assert (Hkey : is_someb (ConfigRegistry.authorization_key (registry a)) = true
                 <-> is_Some (ConfigRegistry.authorization_key (registry a))).
  { destruct (ConfigRegistry.authorization_key _); simpl; split; [by eauto|done|done|by intros []]. }
  rewrite <- Hkey. clear Hkey Hp.
  generalize (secure_url (StationConfig.url (config a))), (has_client_identity a).
  generalize (is_someb (ConfigRegistry.authorization_key (registry a))).
  generalize (ConfigRegistry.allow_security_profile_downgrade (registry a)).
  intros allow key secure identity.
  destruct (Z.ltb_spec new current), (Z.eqb_spec current 3), (Z.eqb_spec new 2),
    (Z.eqb_spec new current), (Z.ltb_spec 1 new), (Z.leb_spec 2 new), (Z.eqb_spec new 3),
    (Z.eqb_spec new 1); try lia; destruct allow, key, secure, identity, password; simpl;
    (split; [intros Ha; first [discriminate Ha|intuition (try congruence; try lia)]
            |intros Ha; first [reflexivity|exfalso; intuition (try congruence; try lia)]]).
Qed.

Lemma check_permitted (a : t) (name v : str) :
  check_security_change a name v = Ok tt <-> permitted a name v.
Proof.
  unfold check_security_change, permitted. destruct (eq_ignore_ascii_case _ _); simpl; [|done].
  destruct (parse_unsigned u8_max v) as [new|] eqn:Ev; [|by split].
  assert (Hall : (forall n, Some new = Some n -> n <= 3 -> profile_permitted a n)
                 <-> (new <= 3 -> profile_permitted a new)) by naive_solver.
  rewrite Hall. cbv zeta. apply parse_unsigned_bounds in Ev.
  destruct (Z.ltb_spec 3 new); [split; [lia|done]|].
  set (password := match url_parse _ with Ok _ => _ | Err _ => _ end).
  assert (Hn : 0 <= new <= 3) by lia.
  rewrite <- (profile_check a new password Hn (has_password_spec a)).
  generalize (secure_url (StationConfig.url (config a))), (has_client_identity a).
  generalize (is_someb (ConfigRegistry.authorization_key (registry a))), password.
  intros key pass secure identity.
  destruct (_ && negb _); simpl; [naive_solver|]. destruct (_ =? _); [case_match; naive_solver|].
  destruct ((2 <=? new) && _); simpl; [naive_solver|].
  destruct ((new =? 3) && _); simpl; [naive_solver|].
  destruct ((_ || _) && _ && _); simpl; naive_solver.
Qed.

(** ** The request *)

Lemma keeps_accepted (a : t) (r : ConfigRegistry.t) (key : str) :
  registry (on_configuration_changed (flush_now (on_security_key_changed
    (log (a <| registry := r |>) LogLevel.Info) key)) key) = r.
Proof.
  rewrite keeps_configuration, keeps_flush_now, keeps_security_key. done.
Qed.

(** A request that is not accepted leaves nothing but a line in the log. *)
Lemma apply_refused (a : t) (name v : str) :
  let '(a', status) := apply_configuration_change a name v in
  status <> ConfigurationStatus.Accepted -> a' = log a LogLevel.Warn.
Proof.
  unfold apply_configuration_change. destruct (check_security_change a name v); [|done].
  destruct (ConfigRegistry.change_cases (registry a) name v) as [[Hn ->]|(i & e & Hc & _ & _ & _ & _ & ->)].
  - rewrite (eqb_ne _ _ Hn). simpl. intros _. by destruct a.
  - rewrite eqb_refl. cbn. by intros [].
Qed.

(** An accepted one stores the value and changes nothing else of the configuration. *)
Lemma apply_status (a : t) (name v : str) :
  let '(a', status) := apply_configuration_change a name v in
  (status = ConfigurationStatus.Accepted ->
     registry a' = (ConfigRegistry.change (registry a) name v).1) /\
  status = match check_security_change a name v with
           | Ok _ => (ConfigRegistry.change (registry a) name v).2
           | Err _ => ConfigurationStatus.Rejected
           end.
Proof.
  unfold apply_configuration_change. destruct (check_security_change a name v); [|done].
  destruct (ConfigRegistry.change (registry a) name v) as [r status]. simpl.
  destruct (status == ConfigurationStatus.Accepted) eqn:E; simpl.
  - split; [|done]. intros _. apply keeps_accepted.
  - split; [|done]. intros ->. by rewrite eqb_refl in E.
Qed.

(** Claim C25: a [ChangeConfiguration.req] is answered once, with [Accepted] exactly if the key
    is known and writable, the value is one of the key's type and fits its item limit, and,
    for [SecurityProfile], the rules for raising the profile allow it; with [NotSupported]
    exactly for a key that is not known; and otherwise with [Rejected], never with
    [RebootRequired]. An accepted value is what every spelling of the key reads from then on,
    and nothing else of the configuration changes; a request that is not accepted changes
    nothing of the station but its log. *)
Theorem change_configuration_spec (a : t) (h : ReplyHandle.t) (name v : str) :
  let a' := change_configuration a h (ChangeConfigurationRequest.mk name v) in
  let known := ConfigRegistry.get (registry a) name in
  exists status b, a' = respond b h (Response.ChangeConfiguration (ChangeConfigurationResponse.mk status)) /\
  status <> ConfigurationStatus.RebootRequired /\
  (status = ConfigurationStatus.NotSupported <-> known = None /\ permitted a name v) /\
  (status = ConfigurationStatus.Accepted <->
     exists e, known = Some e /\ ConfigRegistry.readonly e = false /\
       ConfigRegistry.valid_value (ConfigRegistry.kind e) v /\
       (forall k, ConfigRegistry.max_items_key e = Some k ->
          len (ConfigRegistry.list_items v) <= ConfigRegistry.number (registry a) k) /\
       permitted a name v) /\
  (status <> ConfigurationStatus.Accepted -> b = log a LogLevel.Warn) /\
  (status = ConfigurationStatus.Accepted ->
     (forall other, ConfigRegistry.value (registry a') other =
        if ConfigRegistry.same_key name other then Some v
        else ConfigRegistry.value (registry a) other) /\
     ConfigRegistry.shapes (registry a') = ConfigRegistry.shapes (registry a) /\
     ConfigRegistry.connector_count (registry a') = ConfigRegistry.connector_count (registry a)).
Proof.
  cbv zeta. unfold change_configuration. simpl.
  pose proof (apply_refused a name v) as Href. pose proof (apply_status a name v) as Hst.
  destruct (apply_configuration_change a name v) as [b status]. exists status, b. split; [done|].
  destruct Hst as [Hreg Hst]. pose proof (ConfigRegistry.change_effect (registry a) name v) as He.
  destruct (ConfigRegistry.change (registry a) name v) as [r s]. simpl in *.
  destruct He as (Hboot & Hns & Hacc & _ & Hval & Hsh & Hcc).
  setoid_rewrite ConfigRegistry.accepts_valid in Hacc.
  pose proof (check_permitted a name v) as Hp.
  change (registry (respond b h _)) with (registry b).
  destruct (check_security_change a name v) as [[]|e]; subst.
  - assert (Hperm : permitted a name v) by (by apply Hp).
    split; [done|]. split; [by rewrite Hns; split; [|intros []]|].
    split; [|split; [done|intros Hs; rewrite Hreg by done; auto]].
    rewrite Hacc. split; [intros (x & ? & ? & ? & ?)|intros (x & ? & ? & ? & ? & _)];
      exists x; split_and!; auto.
  - assert (Hperm : ~ permitted a name v) by (intros Hc; apply Hp in Hc; discriminate).
    split; [done|]. split; [split; [done|by intros []]|]. split; [|split; [done|by intros [= ]]].
    split; [done|]. by intros (x & _ & _ & _ & _ & ?).
Qed.

End configuring.
End Configuring.
