(* ===== verification/Walk.v ===== *)
(** * Walk: stepping through the body of an operation of the actor

    An operation is a chain of smaller ones. To show [R a (op a)] for a transitive relation [R]
    between states, [walk] goes through the body of [op]: a state on the way is reached first
    and then generalised, every branch is followed, and what remains are single operations. What
    is done with a state on the way ([past]), with an operation that returns a pair ([pair_]) and
    with a single operation ([leaf]) is up to the relation; each of the three is given the
    tactic to go on with. *)

From S2P Require Import Prelude Actor Calls.

(** The state that an operation is applied to. *)
Ltac state_arg S :=
  lazymatch S with
  | ?f ?x => lazymatch type of x with @Actor.t _ _ => x | _ => state_arg f end
  end.

Ltac walk past pair_ leaf :=
  cbv beta;
  lazymatch goal with
  | |- ?R ?a ?S =>
      tryif is_var S then leaf ltac:(walk past pair_ leaf)
      else
        lazymatch S with
        | let b := ?E in @?F b =>
            change (R a (F E));
            lazymatch type of E with
            | @Actor.t _ _ => past E ltac:(walk past pair_ leaf)
            | _ => generalize E; intro
            end;
            walk past pair_ leaf
        | match ?E with (b, y) => @?F b y end =>
            lazymatch type of E with
            | (@Actor.t _ _ * _)%type => pair_ E ltac:(walk past pair_ leaf)
            | _ => destruct E
            end;
            walk past pair_ leaf
        | match ?E with _ => _ end =>
            lazymatch type of E with
            | option (@Actor.t _ _) =>
                lazymatch E with
                | if _ then ?S' else _ => let b := state_arg S' in past b ltac:(walk past pair_ leaf)
                | _ => idtac
                end;
                lazymatch goal with
                | |- _ _ (match ?E with _ => _ end) =>
                    let H := fresh "He" in
                    destruct E eqn:H;
                    [leaf ltac:(walk past pair_ leaf)|clear H; walk past pair_ leaf]
                end
            | _ => destruct E; walk past pair_ leaf
            end
        | fst ?M =>
            lazymatch M with
            | (?u, _) => change (R a u); walk past pair_ leaf
            | let b := ?E in @?F b =>
                change (R a (fst (F E)));
                lazymatch type of E with
                | @Actor.t _ _ => past E ltac:(walk past pair_ leaf)
                | _ => generalize E; intro
                end;
                walk past pair_ leaf
            | match ?E with (b, y) => @?F b y end =>
                lazymatch type of E with
                | (@Actor.t _ _ * _)%type => pair_ E ltac:(walk past pair_ leaf)
                | _ => destruct E
                end;
                walk past pair_ leaf
            | match ?E with _ => _ end => destruct E; walk past pair_ leaf
            | _ => tryif (let b := state_arg M in idtac)
                   then let b := state_arg M in past b ltac:(walk past pair_ leaf) else idtac;
                   leaf ltac:(walk past pair_ leaf)
            end
        | over _ _ ?b => past b ltac:(walk past pair_ leaf); leaf ltac:(walk past pair_ leaf)
        | fold_left _ _ ?b => past b ltac:(walk past pair_ leaf); leaf ltac:(walk past pair_ leaf)
        | _ => let b := state_arg S in
               past b ltac:(walk past pair_ leaf); leaf ltac:(walk past pair_ leaf)
        end
  end.
