(* ===== verification/Books.v ===== *)
(** * Books: which answers the station owes, and what every operation does to them

    The books of the station actor: the reply channels of commands and the handles of incoming
    CALLs that wait for an answer, in the continuation of a pending CALL, and those that were
    answered, in the outbox. [moves] says what an operation does to the books; every operation
    of the actor below the link has a lemma of that form (the hint database [ledger], which the
    tactic [ledger] uses). [Ledger.v] goes on with the link, the handlers and whole runs. *)

From stdpp Require Import strings gmap gmultiset.
From S2P Require Import Prelude Text F64 Time Types Messages SecurityMessages Frame Actions.
From S2P Require Import ResponseRules Config ConfigRegistry LocalAuthList Authorization.
From S2P Require Import Connector Reservation Offline Timers Metering SmartCharging.
From S2P Require Import ChargingProfiles Maintenance Security Certificates Interface Store.
From S2P Require Import Actor Calls Transactions Secure Sampling Walk.
Local Open Scope Z_scope.

Module Books.
Import Actor Calls Transactions Secure Sampling ReservationTimers.

(** ** What is owed *)

Inductive Slot : Type :=
| SReply (r : Reply)
| SHandle (h : Z).
#[export] Instance slot_eq_dec : EqDecision Slot.
Proof. solve_decision. Defined.
#[export] Instance slot_countable : Countable Slot.
Proof.
  refine (inj_countable' (fun s => match s with SReply r => inl r | SHandle h => inr h end)
                         (fun s => match s with inl r => SReply r | inr h => SHandle h end) _).
  by intros [].
Defined.

Definition reply_slots (r : option Reply) : gmultiset Slot :=
  match r with Some r => {[+ SReply r +]} | None => ∅ end.
Definition done_slots (d : Done) : gmultiset Slot :=
  match d with ReplyTo r => {[+ SReply r +]} | _ => ∅ end.
Definition auth_slots (d : AuthDone) : gmultiset Slot :=
  match d with
  | AuthorizeReply r => {[+ SReply r +]}
  | RemoteAuthorized h _ _ _ => {[+ SHandle (ReplyHandle.handle h) +]}
  end.

(** What the closure of a CALL has captured. *)
Definition slots (k : Continuation) : gmultiset Slot :=
  match k with
  | NoOp | SyncStart _ | SyncStop _ | SecurityEventSent _ => ∅
  | UserCall r | RawCall r => {[+ SReply r +]}
  | BootDone _ r | HeartbeatDone r | StatusSent _ _ r | SampleDone _ r | SignDone _ _ _ r => reply_slots r
  | AuthorizeDone _ d => auth_slots d
  | StartDone _ _ _ d | StopDone _ _ _ _ _ _ d => done_slots d
  end.

Section ledger.
Context {J : SerdeJson} {P : Pki} {C : Chrono} {W : Wire} {U : UrlParser}.

Definition effect_slots (e : Effect) : gmultiset Slot :=
  match e with
  | Replied r _ => {[+ SReply r +]}
  | Answered h _ => {[+ SHandle (ReplyHandle.handle h) +]}
  | _ => ∅
  end.

Definition held (_ : Z) (p : PendingCall) (m : gmultiset Slot) : gmultiset Slot :=
  slots (continuation p) ⊎ m.
(** The answers that wait for a CALL, and those that were given. *)
Definition pending (a : t) : gmultiset Slot := map_fold held ∅ (calls a).
Definition given (l : list Effect) : gmultiset Slot :=
  foldr (fun e m => effect_slots e ⊎ m) ∅ l.
Definition answered (a : t) : gmultiset Slot := given (outbox a).

(** Tokens are fresh, and a timer-driven sample owes nothing (it may be dropped). *)
Record books_ok (a : t) : Prop := mk_books {
  fresh_token : forall tok p, calls a !! tok = Some p -> tok < next_call_token a;
  fresh_sample : forall tok, tok ∈ sample_calls a -> tok < next_call_token a;
  sample_owes_nothing : forall tok p,
    tok ∈ sample_calls a -> calls a !! tok = Some p -> slots (continuation p) = ∅;
}.

(** From [a] to [b] the answers [x] were asked for in addition; unless [kept], no new CALL owes
    one of them. *)
Record moved (kept : bool) (x : gmultiset Slot) (a b : t) : Prop := mk_moved {
  moved_ok : books_ok b;
  moved_total : pending b ⊎ answered b = x ⊎ (pending a ⊎ answered a);
  moved_next : next_call_token a <= next_call_token b;
  moved_old : forall tok p,
    tok < next_call_token a -> calls b !! tok = Some p -> calls a !! tok = Some p;
  moved_new : kept = false -> forall tok p,
    next_call_token a <= tok -> calls b !! tok = Some p -> slots (continuation p) = ∅;
}.
Definition moves (kept : bool) (x : gmultiset Slot) (a b : t) : Prop :=
  books_ok a -> moved kept x a b.

Lemma moves_refl kept a : moves kept ∅ a a.
Proof.
  intros Hok. split; try done; [multiset_solver|].
  intros _ tok p Hle Hp. apply (fresh_token a Hok) in Hp. lia.
Qed.

Lemma moves_trans kept kept' x y a b c :
  moves kept x a b -> moves kept' y b c -> moves (kept || kept') (x ⊎ y) a c.
Proof.
  intros Hab Hbc Hok. specialize (Hab Hok).
  destruct (Hbc (moved_ok _ _ _ _ Hab)) as [Hokc Ht2 Hn2 Ho2 Hnew2].
  destruct Hab as [Hokb Ht1 Hn1 Ho1 Hnew1].
  split; [done| |lia| |].
  - rewrite Ht2, Ht1. multiset_solver.
  - intros tok p Hlt Hc. apply Ho1; [done|]. apply Ho2; [lia|done].
  - intros Hk tok p Hle Hc. apply orb_false_iff in Hk as [-> ->].
    destruct (Z.lt_ge_cases tok (next_call_token b)) as [Hlt|Hge].
    + apply Ho2 in Hc; [|done]. by apply (Hnew1 eq_refl tok).
    + by apply (Hnew2 eq_refl tok).
Qed.

Lemma moves_weaken kept x a b : moves false x a b -> moves kept x a b.
Proof.
  intros Hm Hok. destruct (Hm Hok) as [? ? ? ? Hnew]. split; try done. intros _. by apply Hnew.
Qed.

(** A quiet step, and the step that takes the answers over. *)
Lemma moves_quiet kept x a b c : moves kept x a b -> moves false ∅ b c -> moves kept x a c.
Proof.
  intros Hab Hbc. generalize (moves_trans _ _ _ _ _ _ _ Hab Hbc).
  by rewrite orb_false_r, (right_id_L ∅ (⊎)).
Qed.
Lemma moves_last kept x a b c : moves false ∅ a b -> moves kept x b c -> moves kept x a c.
Proof.
  intros Hab Hbc. generalize (moves_trans _ _ _ _ _ _ _ Hab Hbc). by rewrite (left_id_L ∅ (⊎)).
Qed.

(** Changes that do not touch the books. *)
Definition same_books (a b : t) : Prop :=
  calls b = calls a /\ next_call_token b = next_call_token a /\ sample_calls b = sample_calls a
  /\ outbox b = outbox a.

Lemma moves_same kept x a b c : same_books b c -> moves kept x a b -> moves kept x a c.
Proof.
  intros (Hc & Hn & Hs & Ho) Hab. apply (moves_quiet _ _ _ _ _ Hab). intros Hok.
  split; unfold pending, answered; rewrite ?Hc, ?Hn, ?Ho; try done.
  - destruct Hok. split; rewrite ?Hc, ?Hn, ?Hs; eauto.
  - multiset_solver.
  - intros _ tok p Hle Hp. apply (fresh_token b Hok) in Hp. lia.
Qed.

Lemma moves_emit kept x a b e :
  effect_slots e = ∅ -> moves kept x a b -> moves kept x a (emit b e).
Proof.
  intros He Hab. apply (moves_quiet _ _ _ _ _ Hab). intros Hok. split; try done.
  - by destruct Hok.
  - unfold pending, answered. simpl. rewrite He. multiset_solver.
  - intros _ tok p Hle Hp. apply (fresh_token b Hok) in Hp. simpl in *. lia.
Qed.

Lemma moves_answer kept a b e :
  moves false ∅ a b -> moves kept (effect_slots e) a (emit b e).
Proof.
  intros Hab. apply (moves_last _ _ _ _ _ Hab). intros Hok. split; try done.
  - by destruct Hok.
  - unfold pending, answered. simpl. multiset_solver.
  - intros _ tok p Hle Hp. apply (fresh_token b Hok) in Hp. simpl in *. lia.
Qed.

(** Answering right away. *)
Lemma moves_send_reply kept x a r ans :
  x = {[+ SReply r +]} -> moves kept x a (send_reply a r ans).
Proof. intros ->. apply (moves_answer kept a a (Replied r ans)), moves_refl. Qed.
Lemma moves_send_reply_opt kept x a r ans :
  x = reply_slots r -> moves kept x a (send_reply_opt a r ans).
Proof. intros ->. destruct r; [by apply moves_send_reply|apply moves_refl]. Qed.
Lemma moves_respond kept x a h r :
  x = {[+ SHandle (ReplyHandle.handle h) +]} -> moves kept x a (respond a h r).
Proof. intros ->. apply (moves_answer kept a a (Answered h (Answer.Accept r))), moves_refl. Qed.
Lemma moves_respond_error kept x a h c :
  x = {[+ SHandle (ReplyHandle.handle h) +]} -> moves kept x a (respond_error a h c).
Proof. intros ->. apply (moves_answer kept a a (Answered h (Answer.Reject c))), moves_refl. Qed.
Lemma moves_answered kept x a h ans :
  x = {[+ SHandle (ReplyHandle.handle h) +]} -> moves kept x a (emit a (Answered h ans)).
Proof. intros ->. apply (moves_answer kept a a (Answered h ans)), moves_refl. Qed.
Lemma moves_quiet_effect kept a e : effect_slots e = ∅ -> moves kept ∅ a (emit a e).
Proof. intros He. apply moves_emit; [done|apply moves_refl]. Qed.

Lemma moves_fold {A} (f : t -> A -> t) l kept a :
  (forall a i, moves false ∅ a (f a i)) -> moves kept ∅ a (fold_left f l a).
Proof.
  intros Hf. revert a. induction l as [|i l IH]; intros a; simpl; [apply moves_refl|].
  apply (moves_last _ _ _ (f a i)); [apply Hf|apply IH].
Qed.

Lemma held_swap (z1 z2 : Z) (p1 p2 : PendingCall) (m : gmultiset Slot) :
  held z1 p1 (held z2 p2 m) = held z2 p2 (held z1 p1 m).
Proof. unfold held. multiset_solver. Qed.

Lemma pending_insert (m : gmap Z PendingCall) tok p :
  m !! tok = None ->
  map_fold held ∅ (<[tok := p]> m) = slots (continuation p) ⊎ map_fold held ∅ m.
Proof. intros Hm. rewrite map_fold_insert_L; [done| |done]. intros; apply held_swap. Qed.

Lemma pending_delete (m : gmap Z PendingCall) tok p :
  m !! tok = Some p ->
  map_fold held ∅ m = slots (continuation p) ⊎ map_fold held ∅ (base.delete tok m).
Proof.
  intros Hm. rewrite <- (insert_delete_id m tok p Hm) at 1.
  apply pending_insert, lookup_delete_eq.
Qed.

(** A CALL that is handed over keeps what its closure has captured. *)
Lemma moves_hand_over kept (a : t) o name body v k :
  (kept = false -> slots k = ∅) -> moves kept (slots k) a (hand_over a o name body v k).
Proof.
  intros Hk Hok. unfold hand_over.
  match goal with |- context [match ?E with (n, pause) => _ end] => destruct E as [n pause] end.
  cbv zeta.
  assert (Hnone : calls a !! next_call_token a = None).
  { destruct (calls a !! next_call_token a) as [p|] eqn:E; [|done].
    apply (fresh_token a Hok) in E. lia. }
  split; simpl; [split; simpl| | | |].
  - intros tok p Hp. apply lookup_insert_Some in Hp as [[<- _]|[_ Hp]]; [lia|].
    apply (fresh_token a Hok) in Hp. lia.
  - intros tok Hin. apply (fresh_sample a Hok) in Hin. lia.
  - intros tok p Hin Hp. apply lookup_insert_Some in Hp as [[<- _]|[_ Hp]].
    + apply (fresh_sample a Hok) in Hin. lia.
    + by apply (sample_owes_nothing a Hok tok).
  - unfold pending, answered. simpl. rewrite pending_insert by done. simpl. multiset_solver.
  - lia.
  - intros tok p Hlt Hp. apply lookup_insert_Some in Hp as [[<- _]|[_ Hp]]; [lia|done].
  - intros Hkept tok p Hle Hp. apply lookup_insert_Some in Hp as [[_ <-]|[_ Hp]]; [by apply Hk|].
    apply (fresh_token a Hok) in Hp. lia.
Qed.

Lemma moves_call_raw kept x (a : t) o name body v k fail :
  x = slots k -> (kept = false -> slots k = ∅) ->
  (forall a e, moves false x a (fail a e)) ->
  moves kept x a (call_raw a o name body v k fail).
Proof.
  intros -> Hk Hf. unfold call_raw.
  destruct (negb _); [apply moves_weaken, Hf|].
  destruct (may_send _ _ _); [by apply moves_hand_over|apply moves_weaken, Hf].
Qed.

Lemma moves_call kept x (a : t) o request k fail :
  x = slots k -> (kept = false -> slots k = ∅) ->
  (forall a e, moves false x a (fail a e)) ->
  moves kept x a (call a o request k fail).
Proof.
  intros Hx Hk Hf. unfold call. destruct (to_value request); [by apply moves_call_raw|].
  apply moves_weaken, Hf.
Qed.
End ledger.

Create HintDb ledger discriminated.
#[export] Hint Constants Opaque : ledger.
#[export] Hint Resolve moves_refl moves_send_reply moves_send_reply_opt moves_respond
  moves_respond_error moves_answered moves_quiet_effect moves_fold moves_call moves_call_raw : ledger.
#[export] Hint Extern 0 (_ = _) => reflexivity : ledger.
#[export] Hint Extern 1 =>
  lazymatch goal with
  | |- _ = _ -> _ => first [assumption | intros; first [discriminate | reflexivity | assumption]]
  end : ledger.

(** [ledger] walks through the body of an operation: a state on the way is reached by quiet
    steps, or takes the answers over, so that the rest is quiet. *)
Ltac ledger_past E go :=
  tryif is_var E then idtac
  else
    lazymatch goal with
    | |- moves ?kept ?x ?a _ =>
        let H := fresh "Hm" in
        first [ assert (H : moves false ∅ a E) by go; apply (moves_last kept x a E _ H)
              | assert (H : moves kept x a E) by go; apply (moves_quiet kept x a E _ H) ];
        clear H; generalize E; intro
    end.
Ltac ledger_pair E go :=
  lazymatch goal with
  | |- moves ?kept ?x ?a _ =>
      let H := fresh "Hm" in
      assert (H : moves false ∅ a E.1) by go;
      destruct E as [? ?]; cbn [fst] in H; apply (moves_last kept x a _ _ H); clear H
  end.
Ltac ledger_quiet := lazymatch goal with |- moves ?k _ ?a ?S => change (moves k ∅ a S) end.
Ltac ledger_known :=
  first [ solve [eauto 6 with ledger nocore] | apply moves_weaken; solve [eauto 6 with ledger nocore] ].
Ltac ledger_leaf go :=
  lazymatch goal with
  | |- moves _ _ _ (over _ _ ?b) =>
      apply (moves_same _ _ _ b); [split_and!; reflexivity|apply moves_refl]
  | |- moves _ _ _ (fold_left _ _ _) => ledger_quiet; apply moves_fold; intros; go
  | |- moves _ _ _ (call _ _ _ _ _) =>
      apply moves_call; [reflexivity|solve [eauto with ledger]|intros; go]
  | |- moves _ _ _ (call_raw _ _ _ _ _ _ _) =>
      apply moves_call_raw; [reflexivity|solve [eauto with ledger]|intros; go]
  | |- moves _ _ _ ?S =>
      tryif is_var S then first [apply moves_refl | ledger_known]
      else first [ ledger_known | ledger_quiet; ledger_known ]
  end.
Ltac ledger := walk ledger_past ledger_pair ledger_leaf.

Section operations.
Context {J : SerdeJson} {P : Pki} {C : Chrono} {W : Wire} {U : UrlParser}.

(** ** [actor.rs], [persistence.rs], [power.rs] *)

Lemma moves_log kept (a : t) l : moves kept ∅ a (log a l).
Proof. unfold log. ledger. Qed.
#[local] Hint Resolve moves_log : ledger.
Lemma moves_timer_set kept (a : t) k d : moves kept ∅ a (timer_set a k d).
Proof. unfold timer_set. ledger. Qed.
#[local] Hint Resolve moves_timer_set : ledger.
Lemma moves_timer_set_if_idle kept (a : t) k d : moves kept ∅ a (timer_set_if_idle a k d).
Proof. unfold timer_set_if_idle. ledger. Qed.
#[local] Hint Resolve moves_timer_set_if_idle : ledger.
Lemma moves_timer_cancel kept (a : t) k : moves kept ∅ a (timer_cancel a k).
Proof. unfold timer_cancel. ledger. Qed.
#[local] Hint Resolve moves_timer_cancel : ledger.
Lemma moves_timer_cancel_where kept (a : t) p : moves kept ∅ a (timer_cancel_where a p).
Proof. unfold timer_cancel_where. ledger. Qed.
#[local] Hint Resolve moves_timer_cancel_where : ledger.
Lemma moves_set_registration kept (a : t) r : moves kept ∅ a (set_registration a r).
Proof. unfold set_registration. ledger. Qed.
#[local] Hint Resolve moves_set_registration : ledger.
Lemma moves_set_connection kept (a : t) c : moves kept ∅ a (set_connection a c).
Proof. unfold set_connection. ledger. Qed.
#[local] Hint Resolve moves_set_connection : ledger.
Lemma moves_set_connectors kept (a : t) l : moves kept ∅ a (set_connectors a l).
Proof. unfold set_connectors. ledger. Qed.
#[local] Hint Resolve moves_set_connectors : ledger.
Lemma moves_modify_connector kept (a : t) id f : moves kept ∅ a (modify_connector a id f).
Proof. unfold modify_connector. ledger. Qed.
#[local] Hint Resolve moves_modify_connector : ledger.
Lemma moves_mark_dirty kept (a : t) : moves kept ∅ a (mark_dirty a).
Proof. unfold mark_dirty. ledger. Qed.
#[local] Hint Resolve moves_mark_dirty : ledger.
Lemma moves_mark_secrets_dirty kept (a : t) : moves kept ∅ a (mark_secrets_dirty a).
Proof. unfold mark_secrets_dirty. ledger. Qed.
#[local] Hint Resolve moves_mark_secrets_dirty : ledger.
Lemma moves_settle_meter kept (a : t) c : moves kept ∅ a (settle_meter a c).
Proof. unfold settle_meter. ledger. Qed.
#[local] Hint Resolve moves_settle_meter : ledger.
Lemma moves_settle_meters kept (a : t) : moves kept ∅ a (settle_meters a).
Proof. unfold settle_meters. ledger. Qed.
#[local] Hint Resolve moves_settle_meters : ledger.
Lemma moves_flush_meters kept (a : t) : moves kept ∅ a (flush_meters a).
Proof. unfold flush_meters. ledger. Qed.
#[local] Hint Resolve moves_flush_meters : ledger.
Lemma moves_fold_pair {A B} (f : t * B -> A -> t * B) l kept acc :
  (forall acc i, moves false ∅ acc.1 (f acc i).1) -> moves kept ∅ acc.1 (fold_left f l acc).1.
Proof.
  intros Hf. revert acc. induction l as [|i l IH]; intros acc; simpl; [apply moves_refl|].
  apply (moves_last _ _ _ (f acc i).1); [apply Hf|apply IH].
Qed.
Lemma moves_add_reading advance (acc : t * MeterReading.t) id :
  moves false ∅ acc.1 (add_reading advance acc id).1.
Proof. destruct acc as [a reading]. unfold add_reading. cbn [fst]. ledger. Qed.
Lemma moves_meter_reading kept (a : t) id advance : moves kept ∅ a (meter_reading a id advance).1.
Proof.
  unfold meter_reading. cbv zeta. apply (moves_last _ _ _ _ _ (moves_flush_meters false a)).
  match goal with |- moves _ _ ?b (fold_left ?f ?l (_, ?m)).1 =>
    apply (moves_fold_pair f l kept (b, m)) end.
  intros. apply moves_add_reading.
Qed.
#[local] Hint Resolve moves_meter_reading : ledger.
Lemma moves_flush_persistence kept (a : t) : moves kept ∅ a (flush_persistence a).
Proof. unfold flush_persistence. ledger. Qed.
#[local] Hint Resolve moves_flush_persistence : ledger.
Lemma moves_flush_now kept (a : t) : moves kept ∅ a (flush_now a).
Proof. unfold flush_now. ledger. Qed.
#[local] Hint Resolve moves_flush_now : ledger.
Lemma moves_on_saved kept (a : t) ok : moves kept ∅ a (on_saved a ok).
Proof. unfold on_saved. ledger. Qed.
#[local] Hint Resolve moves_on_saved : ledger.

(** ** [calls.rs] and the operations around it *)

Lemma moves_set_tracker kept (a : t) id s : moves kept ∅ a (set_tracker a id s).
Proof. unfold set_tracker. ledger. Qed.
#[local] Hint Resolve moves_set_tracker : ledger.
Lemma moves_status_failed kept x (a : t) id key r e :
  x = reply_slots r -> moves kept x a (status_failed id key r a e).
Proof. intros ->. unfold status_failed. ledger. Qed.
#[local] Hint Resolve moves_status_failed : ledger.
Lemma moves_dispatch_status kept x (a : t) id key at_ o r :
  x = reply_slots r -> (kept = false -> reply_slots r = ∅) -> moves kept x a (dispatch_status a id key at_ o r).
Proof. intros -> Hk. unfold dispatch_status. ledger. Qed.
#[local] Hint Resolve moves_dispatch_status : ledger.
Lemma moves_status_changed kept (a : t) id : moves kept ∅ a (status_changed a id).
Proof. unfold status_changed. ledger. Qed.
#[local] Hint Resolve moves_status_changed : ledger.
Lemma moves_status_timer_fired kept (a : t) id : moves kept ∅ a (status_timer_fired a id).
Proof. unfold status_timer_fired. ledger. Qed.
#[local] Hint Resolve moves_status_timer_fired : ledger.
Lemma moves_send_status_forced kept x (a : t) id o r :
  x = reply_slots r -> (kept = false -> reply_slots r = ∅) -> moves kept x a (send_status_forced a id o r).
Proof. intros -> Hk. unfold send_status_forced. ledger. Qed.
#[local] Hint Resolve moves_send_status_forced : ledger.
Lemma moves_resend_all_statuses kept (a : t) : moves kept ∅ a (resend_all_statuses a).
Proof. unfold resend_all_statuses. ledger. Qed.
#[local] Hint Resolve moves_resend_all_statuses : ledger.
Lemma moves_flush_pending_statuses kept (a : t) : moves kept ∅ a (flush_pending_statuses a).
Proof. unfold flush_pending_statuses. ledger. Qed.
#[local] Hint Resolve moves_flush_pending_statuses : ledger.
Lemma moves_reset_status_tracking kept (a : t) : moves kept ∅ a (reset_status_tracking a).
Proof. unfold reset_status_tracking. ledger. Qed.
#[local] Hint Resolve moves_reset_status_tracking : ledger.
Lemma moves_reschedule_periodic kept (a : t) interval id :
  moves kept ∅ a (reschedule_periodic interval a id).
Proof. unfold reschedule_periodic. ledger. Qed.
#[local] Hint Resolve moves_reschedule_periodic : ledger.
Lemma moves_reschedule_metering kept (a : t) : moves kept ∅ a (reschedule_metering a).
Proof. unfold reschedule_metering. ledger. Qed.
#[local] Hint Resolve moves_reschedule_metering : ledger.
Lemma moves_restart_metering kept (a : t) : moves kept ∅ a (restart_metering a).
Proof. unfold restart_metering. ledger. Qed.
#[local] Hint Resolve moves_restart_metering : ledger.
Lemma moves_security_event_failed kept (a : t) event e :
  moves kept ∅ a (security_event_failed event a e).
Proof. unfold security_event_failed. ledger. Qed.
#[local] Hint Resolve moves_security_event_failed : ledger.
Lemma moves_send_security_event_call kept (a : t) event :
  moves kept ∅ a (send_security_event_call a event).
Proof. unfold send_security_event_call. ledger. Qed.
#[local] Hint Resolve moves_send_security_event_call : ledger.
Lemma moves_flush_security_events kept (a : t) : moves kept ∅ a (flush_security_events a).
Proof. unfold flush_security_events. ledger. Qed.
#[local] Hint Resolve moves_flush_security_events : ledger.
Lemma moves_security_event kept (a : t) ty info : moves kept ∅ a (security_event a ty info).
Proof. unfold security_event. ledger. Qed.
#[local] Hint Resolve moves_security_event : ledger.
Lemma moves_report_diagnostics kept (a : t) status : moves kept ∅ a (report_diagnostics a status).
Proof. unfold report_diagnostics. ledger. Qed.
#[local] Hint Resolve moves_report_diagnostics : ledger.
Lemma moves_report_firmware kept (a : t) status : moves kept ∅ a (report_firmware a status).
Proof. unfold report_firmware. ledger. Qed.
#[local] Hint Resolve moves_report_firmware : ledger.
Lemma moves_report_log kept (a : t) status : moves kept ∅ a (report_log a status).
Proof. unfold report_log. ledger. Qed.
#[local] Hint Resolve moves_report_log : ledger.
Lemma moves_report_signed_firmware kept (a : t) status :
  moves kept ∅ a (report_signed_firmware a status).
Proof. unfold report_signed_firmware. ledger. Qed.
#[local] Hint Resolve moves_report_signed_firmware : ledger.
Lemma moves_cancel_maintenance kept (a : t) : moves kept ∅ a (cancel_maintenance a).
Proof. unfold cancel_maintenance. ledger. Qed.
#[local] Hint Resolve moves_cancel_maintenance : ledger.
Lemma moves_cancel_log_upload kept (a : t) : moves kept ∅ a (cancel_log_upload a).
Proof. unfold cancel_log_upload. ledger. Qed.
#[local] Hint Resolve moves_cancel_log_upload : ledger.
Lemma moves_cancel_signed_firmware kept (a : t) : moves kept ∅ a (cancel_signed_firmware a).
Proof. unfold cancel_signed_firmware. ledger. Qed.
#[local] Hint Resolve moves_cancel_signed_firmware : ledger.
Lemma moves_arm_next {T} kept (a : t) k (plan : list (Duration * T)) : moves kept ∅ a (arm_next a k plan).
Proof. unfold arm_next. ledger. Qed.
#[local] Hint Resolve moves_arm_next : ledger.
Lemma moves_on_diagnostics_timer kept (a : t) : moves kept ∅ a (on_diagnostics_timer a).
Proof. unfold on_diagnostics_timer. ledger. Qed.
#[local] Hint Resolve moves_on_diagnostics_timer : ledger.
Lemma moves_on_firmware_timer kept (a : t) : moves kept ∅ a (on_firmware_timer a).
Proof. unfold on_firmware_timer. ledger. Qed.
#[local] Hint Resolve moves_on_firmware_timer : ledger.
Lemma moves_on_log_timer kept (a : t) : moves kept ∅ a (on_log_timer a).
Proof. unfold on_log_timer. ledger. Qed.
#[local] Hint Resolve moves_on_log_timer : ledger.
Lemma moves_on_signed_firmware_timer kept (a : t) : moves kept ∅ a (on_signed_firmware_timer a).
Proof. unfold on_signed_firmware_timer. ledger. Qed.
#[local] Hint Resolve moves_on_signed_firmware_timer : ledger.

(** ** [transactions.rs] *)

Lemma moves_set_charging_profile kept (a : t) id profile :
  moves kept ∅ a (set_charging_profile a id profile).1.
Proof. unfold set_charging_profile. ledger. Qed.
#[local] Hint Resolve moves_set_charging_profile : ledger.
Lemma moves_install_remote_profile kept (a : t) id tx profile :
  moves kept ∅ a (install_remote_profile a id tx profile).
Proof. unfold install_remote_profile. ledger. Qed.
#[local] Hint Resolve moves_install_remote_profile : ledger.
Lemma moves_run_done kept x (a : t) done r :
  x = done_slots done -> moves kept x a (run_done a done r).
Proof. intros ->. unfold run_done. ledger. Qed.
#[local] Hint Resolve moves_run_done : ledger.
Lemma moves_next_key kept (a : t) : moves kept ∅ a (next_key a).1.
Proof. unfold next_key. ledger. Qed.
#[local] Hint Resolve moves_next_key : ledger.
Lemma moves_profiles_ended kept (a : t) tx : moves kept ∅ a (profiles_ended a tx).1.
Proof. unfold profiles_ended. ledger. Qed.
#[local] Hint Resolve moves_profiles_ended : ledger.
Lemma moves_limit_energy_on_invalid_id kept (a : t) id :
  moves kept ∅ a (limit_energy_on_invalid_id a id).
Proof. unfold limit_energy_on_invalid_id. ledger. Qed.
#[local] Hint Resolve moves_limit_energy_on_invalid_id : ledger.
Lemma moves_apply_pending_availability kept (a : t) id :
  moves kept ∅ a (apply_pending_availability a id).
Proof. unfold apply_pending_availability. ledger. Qed.
#[local] Hint Resolve moves_apply_pending_availability : ledger.
Lemma moves_begin_charging kept (a : t) id tag : moves kept ∅ a (begin_charging a id tag).
Proof. unfold begin_charging. ledger. Qed.
#[local] Hint Resolve moves_begin_charging : ledger.
Lemma moves_abandon_start kept (a : t) id : moves kept ∅ a (abandon_start a id).
Proof. unfold abandon_start. ledger. Qed.
#[local] Hint Resolve moves_abandon_start : ledger.
Lemma moves_send_stop_for kept (a : t) tx m tag reason :
  moves kept ∅ a (send_stop_for a tx m tag reason).
Proof. unfold send_stop_for. ledger. Qed.
#[local] Hint Resolve moves_send_stop_for : ledger.
Lemma moves_push_queue kept (a : t) entry : moves kept ∅ a (push_queue a entry).
Proof. unfold push_queue. ledger. Qed.
#[local] Hint Resolve moves_push_queue : ledger.
Lemma moves_queue_stop kept (a : t) id tx tag at_ m info :
  moves kept ∅ a (queue_stop a id tx tag at_ m info).1.
Proof. unfold queue_stop. ledger. Qed.
#[local] Hint Resolve moves_queue_stop : ledger.
Lemma moves_finish_stop kept (a : t) id tx : moves kept ∅ a (finish_stop a id tx).
Proof. unfold finish_stop. ledger. Qed.
#[local] Hint Resolve moves_finish_stop : ledger.
Lemma moves_drop_local_transaction kept (a : t) id local :
  moves kept ∅ a (drop_local_transaction a id local).
Proof. unfold drop_local_transaction. ledger. Qed.
#[local] Hint Resolve moves_drop_local_transaction : ledger.
Lemma moves_finish_boot_accepted kept (a : t) : moves kept ∅ a (finish_boot_accepted a).
Proof. unfold finish_boot_accepted. ledger. Qed.
#[local] Hint Resolve moves_finish_boot_accepted : ledger.
Lemma moves_record_sync_failure kept (a : t) key e : moves kept ∅ a (record_sync_failure a key e).
Proof. unfold record_sync_failure. ledger. Qed.
#[local] Hint Resolve moves_record_sync_failure : ledger.
Lemma moves_drop_exhausted kept (a : t) key : moves kept ∅ a (drop_exhausted a key).
Proof. unfold drop_exhausted. ledger. Qed.
#[local] Hint Resolve moves_drop_exhausted : ledger.
Lemma moves_arm_sync_retry kept (a : t) : moves kept ∅ a (arm_sync_retry a).
Proof. unfold arm_sync_retry. ledger. Qed.
#[local] Hint Resolve moves_arm_sync_retry : ledger.
Lemma moves_arm_sync_retry_if_idle kept (a : t) : moves kept ∅ a (arm_sync_retry_if_idle a).
Proof. unfold arm_sync_retry_if_idle. ledger. Qed.
#[local] Hint Resolve moves_arm_sync_retry_if_idle : ledger.
Lemma moves_sync_finished kept (a : t) : moves kept ∅ a (sync_finished a).
Proof. unfold sync_finished. ledger. Qed.
#[local] Hint Resolve moves_sync_finished : ledger.
Lemma moves_sync_drop_one kept (a : t) : moves kept ∅ a (sync_drop_one a).
Proof. unfold sync_drop_one. ledger. Qed.
#[local] Hint Resolve moves_sync_drop_one : ledger.

Section sync.
Context (next : t -> t) (moves_next : forall a, moves false ∅ a (next a)).
#[local] Hint Resolve moves_next : ledger.

Lemma moves_sync_call_failed kept (a : t) key e : moves kept ∅ a (sync_call_failed next key a e).
Proof. unfold sync_call_failed. ledger. Qed.
#[local] Hint Resolve moves_sync_call_failed : ledger.
Lemma moves_sync_stop (a b : t) key : sync_stop next a key = Some b -> moves false ∅ a b.
Proof.
  unfold sync_stop. intros Hs. repeat (case_match; try done). simplify_eq. ledger.
Qed.
Lemma moves_sync_entry (a b : t) key : sync_entry next a key = Some b -> moves false ∅ a b.
Proof.
  unfold sync_entry. intros Hs. repeat (case_match; try done); [|by apply moves_sync_stop in Hs].
  simplify_eq. ledger.
Qed.
End sync.
#[local] Hint Resolve moves_sync_call_failed : ledger.

Lemma moves_run_sync_keys keys (a : t) : moves false ∅ a (run_sync_keys keys a).
Proof.
  revert a. induction keys as [|key keys IH]; intros a; cbn [run_sync_keys]; [ledger|].
  assert (Hnext : forall a, moves false ∅ a (run_sync_keys keys (sync_drop_one a))).
  { clear a. intros a. apply (moves_last _ _ _ (sync_drop_one a)); auto with ledger. }
  apply (moves_last _ _ _ (over sync_keys (fun _ => keys) a)); [ledger|].
  generalize (over sync_keys (fun _ => keys) a). clear a. intros a.
  case_match eqn:E; [by apply moves_sync_entry in E|apply Hnext].
Qed.
#[local] Hint Resolve moves_run_sync_keys : ledger.
Lemma moves_run_sync kept (a : t) : moves kept ∅ a (run_sync a).
Proof. apply moves_weaken, moves_run_sync_keys. Qed.
#[local] Hint Resolve moves_run_sync : ledger.
Lemma moves_sync_done kept (a : t) : moves kept ∅ a (sync_done a).
Proof. unfold sync_done. ledger. Qed.
#[local] Hint Resolve moves_sync_done : ledger.
Lemma moves_start_offline_sync kept (a : t) boot : moves kept ∅ a (start_offline_sync a boot).1.
Proof. unfold start_offline_sync. ledger. Qed.
#[local] Hint Resolve moves_start_offline_sync : ledger.
Lemma moves_on_sync_retry_timer kept (a : t) : moves kept ∅ a (on_sync_retry_timer a).
Proof. unfold on_sync_retry_timer. ledger. Qed.
#[local] Hint Resolve moves_on_sync_retry_timer : ledger.
Lemma moves_on_sync_stop kept (a : t) key r : moves kept ∅ a (on_sync_stop a key r).
Proof. unfold on_sync_stop. ledger. Qed.
#[local] Hint Resolve moves_on_sync_stop : ledger.
Lemma moves_stop_next kept (c : bool) (a b : t) key :
  (if c then sync_stop sync_done a key else None) = Some b -> moves kept ∅ a b.
Proof.
  destruct c; [|done]. intros Hs. apply moves_weaken. apply (moves_sync_stop sync_done) in Hs; [done|].
  intros; apply moves_sync_done.
Qed.
#[local] Hint Resolve moves_stop_next : ledger.
Lemma moves_on_sync_start kept (a : t) key r : moves kept ∅ a (on_sync_start a key r).
Proof. unfold on_sync_start. ledger. Qed.
#[local] Hint Resolve moves_on_sync_start : ledger.

Lemma moves_stop_failed kept x (a : t) id tx tag at_ m info done e :
  x = done_slots done -> moves kept x a (stop_failed id tx tag at_ m info done a e).
Proof. intros ->. unfold stop_failed. ledger. Qed.
#[local] Hint Resolve moves_stop_failed : ledger.
Lemma moves_on_stop_result kept x (a : t) id tx tag at_ m info done r :
  x = done_slots done -> moves kept x a (on_stop_result id tx tag at_ m info done a r).
Proof. intros ->. unfold on_stop_result. ledger. Qed.
#[local] Hint Resolve moves_on_stop_result : ledger.
Lemma moves_stop_info kept (a : t) c reason tag : moves kept ∅ a (stop_info a c reason tag).1.
Proof. unfold stop_info. ledger. Qed.
#[local] Hint Resolve moves_stop_info : ledger.
Lemma moves_stop_transaction kept x (a : t) id reason tag done :
  x = done_slots done -> (kept = false -> done_slots done = ∅) -> moves kept x a (stop_transaction a id reason tag done).
Proof. intros -> Hk. unfold stop_transaction. ledger. Qed.
#[local] Hint Resolve moves_stop_transaction : ledger.
Lemma moves_check_energy_limit kept (a : t) id : moves kept ∅ a (check_energy_limit a id).
Proof. unfold check_energy_limit. ledger. Qed.
#[local] Hint Resolve moves_check_energy_limit : ledger.
Lemma moves_start_failed kept x (a : t) id local done e :
  x = done_slots done -> moves kept x a (start_failed id local done a e).
Proof. intros ->. unfold start_failed. ledger. Qed.
#[local] Hint Resolve moves_start_failed : ledger.
Lemma moves_on_start_result kept x (a : t) id local p done r :
  x = done_slots done -> moves kept x a (on_start_result id local p done a r).
Proof. intros ->. unfold on_start_result. ledger. Qed.
#[local] Hint Resolve moves_on_start_result : ledger.
Lemma moves_start_offline kept (a : t) id key p : moves kept ∅ a (start_offline a id key p).
Proof. unfold start_offline. ledger. Qed.
#[local] Hint Resolve moves_start_offline : ledger.
Lemma moves_start_transaction kept x (a : t) id tag done :
  x = done_slots done -> (kept = false -> done_slots done = ∅) -> moves kept x a (start_transaction a id tag done).
Proof. intros -> Hk. unfold start_transaction. ledger. Qed.
#[local] Hint Resolve moves_start_transaction : ledger.
Lemma moves_begin_remote_start kept (a : t) id tag profile :
  moves kept ∅ a (begin_remote_start a id tag profile).
Proof. unfold begin_remote_start. ledger. Qed.
#[local] Hint Resolve moves_begin_remote_start : ledger.
Lemma moves_remote_start_reply kept x (a : t) h s :
  x = {[+ SHandle (ReplyHandle.handle h) +]} -> moves kept x a (remote_start_reply a h s).
Proof. intros ->. unfold remote_start_reply. ledger. Qed.
#[local] Hint Resolve moves_remote_start_reply : ledger.
Lemma moves_run_auth_done kept x (a : t) done r :
  x = auth_slots done -> moves kept x a (run_auth_done a done r).
Proof. intros ->. unfold run_auth_done. ledger. Qed.
#[local] Hint Resolve moves_run_auth_done : ledger.
Lemma moves_authorize_failed kept x (a : t) done e :
  x = auth_slots done -> moves kept x a (authorize_failed done a e).
Proof. intros ->. unfold authorize_failed. ledger. Qed.
#[local] Hint Resolve moves_authorize_failed : ledger.
Lemma moves_on_authorize_result kept x (a : t) tag done r :
  x = auth_slots done -> moves kept x a (on_authorize_result tag done a r).
Proof. intros ->. unfold on_authorize_result. ledger. Qed.
#[local] Hint Resolve moves_on_authorize_result : ledger.
Lemma moves_authorize kept x (a : t) tag done :
  x = auth_slots done -> (kept = false -> auth_slots done = ∅) -> moves kept x a (authorize a tag done).
Proof. intros -> Hk. unfold authorize. ledger. Qed.
#[local] Hint Resolve moves_authorize : ledger.

(** ** [secure.rs], [sampling.rs], [reservations.rs] *)

Lemma moves_set_secrets kept (a : t) f : moves kept ∅ a (set_secrets a f).
Proof. unfold set_secrets. ledger. Qed.
#[local] Hint Resolve moves_set_secrets : ledger.
Lemma moves_set_certs kept (a : t) f : moves kept ∅ a (set_certs a f).
Proof. unfold set_certs. ledger. Qed.
#[local] Hint Resolve moves_set_certs : ledger.
Lemma moves_stop_sign_series kept (a : t) : moves kept ∅ a (stop_sign_series a).
Proof. unfold stop_sign_series. ledger. Qed.
#[local] Hint Resolve moves_stop_sign_series : ledger.
Lemma moves_arm_cert_signing_retry kept (a : t) id : moves kept ∅ a (arm_cert_signing_retry a id).
Proof. unfold arm_cert_signing_retry. ledger. Qed.
#[local] Hint Resolve moves_arm_cert_signing_retry : ledger.
Lemma moves_restore_pending_key kept (a : t) key previous :
  moves kept ∅ a (restore_pending_key a key previous).
Proof. unfold restore_pending_key. ledger. Qed.
#[local] Hint Resolve moves_restore_pending_key : ledger.
Lemma moves_send_security_event kept (a : t) ty info :
  moves kept ∅ a (send_security_event a ty info).1.
Proof. unfold send_security_event. ledger. Qed.
#[local] Hint Resolve moves_send_security_event : ledger.
Lemma moves_sign_failed kept x (a : t) id key previous r e :
  x = reply_slots r -> moves kept x a (sign_failed id key previous r a e).
Proof. intros ->. unfold sign_failed. ledger. Qed.
#[local] Hint Resolve moves_sign_failed : ledger.
Lemma moves_on_sign_result kept x (a : t) id key previous r res :
  x = reply_slots r -> moves kept x a (on_sign_result id key previous r a res).
Proof. intros ->. unfold on_sign_result. ledger. Qed.
#[local] Hint Resolve moves_on_sign_result : ledger.
Lemma moves_send_sign_certificate kept x (a : t) id r :
  x = reply_slots r -> (kept = false -> reply_slots r = ∅) -> moves kept x a (send_sign_certificate a id r).
Proof. intros -> Hk. unfold send_sign_certificate. ledger. Qed.
#[local] Hint Resolve moves_send_sign_certificate : ledger.
Lemma moves_request_certificate kept x (a : t) r :
  x = reply_slots r -> (kept = false -> reply_slots r = ∅) -> moves kept x a (request_certificate a r).
Proof. intros -> Hk. unfold request_certificate. ledger. Qed.
#[local] Hint Resolve moves_request_certificate : ledger.
Lemma moves_on_cert_signing_timer kept (a : t) : moves kept ∅ a (on_cert_signing_timer a).
Proof. unfold on_cert_signing_timer. ledger. Qed.
#[local] Hint Resolve moves_on_cert_signing_timer : ledger.
Lemma moves_adopt_signed_certificate kept (a : t) chain key :
  moves kept ∅ a (adopt_signed_certificate a chain key).
Proof. unfold adopt_signed_certificate. ledger. Qed.
#[local] Hint Resolve moves_adopt_signed_certificate : ledger.
Lemma moves_client_certificate_connected kept (a : t) :
  moves kept ∅ a (client_certificate_connected a).
Proof. unfold client_certificate_connected. ledger. Qed.
#[local] Hint Resolve moves_client_certificate_connected : ledger.
Lemma moves_series_security_event kept (a : t) ty info :
  moves kept ∅ a (series_security_event a ty info).
Proof. unfold series_security_event. ledger. Qed.
#[local] Hint Resolve moves_series_security_event : ledger.
Lemma moves_report_connect_failure kept (a : t) e : moves kept ∅ a (report_connect_failure a e).
Proof. unfold report_connect_failure. ledger. Qed.
#[local] Hint Resolve moves_report_connect_failure : ledger.
Lemma moves_on_connection_established kept (a : t) : moves kept ∅ a (on_connection_established a).
Proof. unfold on_connection_established. ledger. Qed.
#[local] Hint Resolve moves_on_connection_established : ledger.
Lemma moves_on_tls_connected kept (a : t) : moves kept ∅ a (on_tls_connected a).
Proof. unfold on_tls_connected. ledger. Qed.
#[local] Hint Resolve moves_on_tls_connected : ledger.
Lemma moves_schedule_reconnect_after_reply kept (a : t) :
  moves kept ∅ a (schedule_reconnect_after_reply a).
Proof. unfold schedule_reconnect_after_reply. ledger. Qed.
#[local] Hint Resolve moves_schedule_reconnect_after_reply : ledger.
Lemma moves_reconnect_for_new_security_parameters kept (a : t) :
  moves kept ∅ a (reconnect_for_new_security_parameters a).
Proof. unfold reconnect_for_new_security_parameters. ledger. Qed.
#[local] Hint Resolve moves_reconnect_for_new_security_parameters : ledger.
Lemma moves_on_security_key_changed kept (a : t) key :
  moves kept ∅ a (on_security_key_changed a key).
Proof. unfold on_security_key_changed. ledger. Qed.
#[local] Hint Resolve moves_on_security_key_changed : ledger.

Lemma moves_released_one kept (a : t) id : moves kept ∅ a (released_one a id).
Proof. unfold released_one. ledger. Qed.
#[local] Hint Resolve moves_released_one : ledger.
Lemma moves_release_expired_reservations kept (a : t) :
  moves kept ∅ a (release_expired_reservations a).1.
Proof. unfold release_expired_reservations. ledger. Qed.
#[local] Hint Resolve moves_release_expired_reservations : ledger.
Lemma moves_arm depth kept (a : t) id : moves kept ∅ a (arm depth a id).
Proof. revert kept a id. induction depth; intros kept a id; cbn [arm]; ledger. Qed.
#[local] Hint Resolve moves_arm : ledger.
Lemma moves_arm_reservation kept (a : t) id : moves kept ∅ a (arm_reservation a id).
Proof. unfold arm_reservation. ledger. Qed.
#[local] Hint Resolve moves_arm_reservation : ledger.
Lemma moves_on_reservation_timer kept (a : t) : moves kept ∅ a (on_reservation_timer a).
Proof. unfold on_reservation_timer. ledger. Qed.
#[local] Hint Resolve moves_on_reservation_timer : ledger.
Lemma moves_after_restore kept (a : t) : moves kept ∅ a (after_restore a).
Proof. unfold after_restore. ledger. Qed.
#[local] Hint Resolve moves_after_restore : ledger.

(** A sample in flight owes nothing: it can be dropped, and one more can be kept in view. *)
Lemma moves_set_samples kept (a : t) l :
  (forall tok, tok ∈ l -> tok ∈ sample_calls a) -> moves kept ∅ a (a <| sample_calls := l |>).
Proof.
  intros Hl Hok. destruct Hok as [Hf Hs Ho]. split; simpl; try done; try lia.
  - split; simpl; eauto.
  - unfold pending, answered. simpl. multiset_solver.
  - intros _ tok p Hle Hp. apply Hf in Hp. lia.
Qed.

Lemma moves_drop_sample kept (a : t) tok :
  tok ∈ sample_calls a -> moves kept ∅ a (a <| calls ::= base.delete tok |>).
Proof.
  intros Hin Hok. pose proof Hok as [Hf Hs Ho]. split; simpl; try lia.
  - split; simpl; intros tok'.
    + intros p [_ Hp]%lookup_delete_Some. by apply (Hf tok' p).
    + apply Hs.
    + intros p Hin' [_ Hp]%lookup_delete_Some. by apply (Ho tok' p).
  - unfold pending, answered. simpl. destruct (calls a !! tok) as [p|] eqn:E.
    + rewrite (pending_delete (calls a) tok p E), (Ho tok p Hin E). multiset_solver.
    + rewrite delete_id by done. multiset_solver.
  - by intros tok' p _ [_ Hp]%lookup_delete_Some.
  - intros _ tok' p Hle [_ Hp]%lookup_delete_Some. apply Hf in Hp. lia.
Qed.

Lemma moves_abandon_samples limit samples (a : t) :
  (forall tok, tok ∈ samples -> tok ∈ sample_calls a) ->
  moves false ∅ a (abandon_samples limit samples a).
Proof.
  revert a. induction samples as [|tok rest IH]; intros a Hin; cbn [abandon_samples].
  { by apply moves_set_samples. }
  case_match; [by apply moves_set_samples|].
  case_match; [|apply IH; set_solver].
  apply (moves_last _ _ _ _ _ (moves_drop_sample false a tok (Hin tok ltac:(set_solver)))).
  match goal with |- moves _ _ ?b _ => assert (Hb : sample_calls b = sample_calls a) by done end.
  revert Hb. generalize (a <| calls ::= base.delete tok |>). intros b Hb.
  apply (moves_last _ _ _ (emit b (Aborted tok))); [ledger|]. cbv zeta.
  case_match.
  - apply IH. intros tok' Hin'. simpl. rewrite Hb. set_solver.
  - eapply moves_last; [|apply IH; intros tok' Hin'; simpl; rewrite Hb; set_solver].
    generalize (emit b (Aborted tok)). intros c. ledger.
Qed.

Lemma moves_make_room_for_sample kept (a : t) : moves kept ∅ a (make_room_for_sample a).
Proof.
  apply moves_weaken, moves_abandon_samples. intros tok Hin.
  unfold retain in Hin. by apply list_elem_of_In, List.filter_In in Hin as [Hin%list_elem_of_In _].
Qed.
#[local] Hint Resolve moves_make_room_for_sample : ledger.

Lemma moves_push_sample (a b : t) tok :
  moves false ∅ a b -> tok = next_call_token a -> is_someb (calls b !! tok) = true ->
  moves false ∅ a (b <| sample_calls ::= fun l => l ++ [tok] |>).
Proof.
  intros Hab -> Hsome Hok. destruct (Hab Hok) as [[Hf Hs Ho] Ht Hn Hold Hnew].
  destruct (calls b !! next_call_token a) as [p|] eqn:E; [|done].
  split; simpl; try done. split; simpl; try done.
  - intros tok [Hin|Hin]%elem_of_app; [by apply Hs|].
    apply list_elem_of_singleton in Hin as ->. by apply Hf in E.
  - intros tok p' [Hin|Hin]%elem_of_app Hp; [by apply (Ho tok)|].
    apply list_elem_of_singleton in Hin as ->. apply (Hnew eq_refl _ _ (Z.le_refl _) Hp).
Qed.
Lemma moves_sample_failed kept x (a : t) id r e :
  x = reply_slots r -> moves kept x a (sample_failed id r a e).
Proof. intros ->. unfold sample_failed. ledger. Qed.
#[local] Hint Resolve moves_sample_failed : ledger.
Lemma moves_on_sample_result kept x (a : t) id r res :
  x = reply_slots r -> moves kept x a (on_sample_result id r a res).
Proof. intros ->. unfold on_sample_result. ledger. Qed.
#[local] Hint Resolve moves_on_sample_result : ledger.
Lemma moves_sample_call kept (a : t) request id r :
  (kept = false -> reply_slots r = ∅) ->
  moves kept (reply_slots r) a
    (call a Origin.Station request (SampleDone id r) (sample_failed id r)).
Proof. intros Hk. ledger. Qed.
Lemma moves_sample_meter kept x (a : t) id context delta l r :
  x = reply_slots r -> (kept = false -> reply_slots r = ∅) ->
  moves kept x a (sample_meter a id context delta l r).
Proof.
  intros -> Hk. unfold sample_meter. cbv zeta. generalize (now_utc a). intros now.
  apply (moves_last _ _ _ _ _ (moves_flush_meters false a)). generalize (flush_meters a).
  clear a. intros a. case_match; [|ledger].
  match goal with |- moves _ _ _ (if _ then check_energy_limit (send_reply_opt (log ?b _) _ _) _ else _) =>
    assert (Hb : moves false ∅ a b) by ledger; apply (moves_last _ _ _ _ _ Hb); generalize b end.
  clear Hb. intros b. case_match; [ledger|].
  pose proof (moves_meter_reading false b id true) as Hr.
  destruct (meter_reading b id true) as [d reading]. apply (moves_last _ _ _ _ _ Hr). clear Hr.
  destruct r as [r|]; cbn [is_someb negb andb].
  - by apply moves_sample_call.
  - apply (moves_last _ _ _ _ _ (moves_make_room_for_sample false d)).
    generalize (make_room_for_sample d). intros e. apply moves_weaken.
    pose proof (fun q => moves_sample_call false e q id None (fun _ => eq_refl)) as Hc.
    case_match eqn:E; [|exact (Hc _)]. exact (moves_push_sample _ _ _ (Hc _) eq_refl E).
Qed.
#[local] Hint Resolve moves_sample_meter : ledger.
Lemma moves_on_meter_periodic kept (a : t) id : moves kept ∅ a (on_meter_periodic a id).
Proof. unfold on_meter_periodic. ledger. Qed.
#[local] Hint Resolve moves_on_meter_periodic : ledger.
Lemma moves_on_meter_aligned kept (a : t) : moves kept ∅ a (on_meter_aligned a).
Proof. unfold on_meter_aligned. ledger. Qed.
#[local] Hint Resolve moves_on_meter_aligned : ledger.
Lemma moves_meter_values_command kept x (a : t) id wh l r :
  x = {[+ SReply r +]} -> (kept = false -> reply_slots (Some r) = ∅) -> moves kept x a (meter_values_command a id wh l r).
Proof. intros -> Hk. unfold meter_values_command. ledger. Qed.
#[local] Hint Resolve moves_meter_values_command : ledger.
End operations.
#[export] Hint Resolve
  moves_log moves_timer_set moves_timer_set_if_idle moves_timer_cancel
  moves_timer_cancel_where moves_set_registration moves_set_connection moves_set_connectors
  moves_modify_connector moves_mark_dirty moves_mark_secrets_dirty moves_settle_meter
  moves_settle_meters moves_flush_meters moves_meter_reading moves_flush_persistence
  moves_flush_now moves_on_saved moves_set_tracker moves_status_failed moves_dispatch_status
  moves_status_changed moves_status_timer_fired moves_send_status_forced
  moves_resend_all_statuses moves_flush_pending_statuses moves_reset_status_tracking
  moves_reschedule_periodic moves_reschedule_metering moves_restart_metering
  moves_security_event_failed moves_send_security_event_call moves_flush_security_events
  moves_security_event moves_report_diagnostics moves_report_firmware moves_report_log
  moves_report_signed_firmware moves_cancel_maintenance moves_cancel_log_upload
  moves_cancel_signed_firmware moves_arm_next moves_on_diagnostics_timer
  moves_on_firmware_timer moves_on_log_timer moves_on_signed_firmware_timer
  moves_set_charging_profile moves_install_remote_profile moves_run_done moves_next_key
  moves_profiles_ended moves_limit_energy_on_invalid_id moves_apply_pending_availability
  moves_begin_charging moves_abandon_start moves_send_stop_for moves_push_queue
  moves_queue_stop moves_finish_stop moves_drop_local_transaction moves_finish_boot_accepted
  moves_record_sync_failure moves_drop_exhausted moves_arm_sync_retry
  moves_arm_sync_retry_if_idle moves_sync_finished moves_sync_drop_one
  moves_sync_call_failed moves_run_sync_keys moves_run_sync moves_sync_done
  moves_start_offline_sync moves_on_sync_retry_timer moves_on_sync_stop moves_stop_next
  moves_on_sync_start moves_stop_failed moves_on_stop_result moves_stop_info
  moves_stop_transaction moves_check_energy_limit moves_start_failed moves_on_start_result
  moves_start_offline moves_start_transaction moves_begin_remote_start
  moves_remote_start_reply moves_run_auth_done moves_authorize_failed
  moves_on_authorize_result moves_authorize moves_set_secrets moves_set_certs
  moves_stop_sign_series moves_arm_cert_signing_retry moves_restore_pending_key
  moves_send_security_event moves_sign_failed moves_on_sign_result
  moves_send_sign_certificate moves_request_certificate moves_on_cert_signing_timer
  moves_adopt_signed_certificate moves_client_certificate_connected
  moves_series_security_event moves_report_connect_failure moves_on_connection_established
  moves_on_tls_connected moves_schedule_reconnect_after_reply
  moves_reconnect_for_new_security_parameters moves_on_security_key_changed
  moves_released_one moves_release_expired_reservations moves_arm moves_arm_reservation
  moves_on_reservation_timer moves_after_restore moves_make_room_for_sample
  moves_sample_failed moves_on_sample_result moves_sample_meter moves_on_meter_periodic
  moves_on_meter_aligned moves_meter_values_command : ledger.
End Books.
Export (hints) Books.
