(* ===== verification/Ledger.v ===== *)
(** * Ledger: every command and every request of the CSMS is answered exactly once

    The books ([Books.v]) through the link, the handlers of incoming CALLs, the commands and the
    loop. Every closure gives the answers it has captured; when the link goes down or the station
    stops, all of them run. [exactly_once] is the consequence for whole runs of the station. *)

From stdpp Require Import strings gmap gmultiset.
From S2P Require Import Prelude Text F64 Time Types Messages SecurityMessages Frame Actions.
From S2P Require Import ResponseRules Config ConfigRegistry LocalAuthList Authorization.
From S2P Require Import Connector Reservation Offline Timers Metering SmartCharging.
From S2P Require Import ChargingProfiles Maintenance Security Certificates Interface Store.
From S2P Require Import Actor Calls Transactions Secure Sampling Link Handlers.
From S2P Require Import Commands Restore Station Samples Walk Books.
Local Open Scope Z_scope.

Module Ledger.
Import Actor Calls Transactions Secure Sampling ReservationTimers Links Handlers Commands Station.
Import Books.
Section ledger.
Context {J : SerdeJson} {P : Pki} {C : Chrono} {W : Wire} {U : UrlParser} {I : InWire}.

(** ** [link.rs] *)

Lemma moves_set_link kept (a : t) f : moves kept ∅ a (set_link a f).
Proof. unfold set_link. ledger. Qed.
#[local] Hint Resolve moves_set_link : ledger.
Lemma moves_arm_heartbeat kept (a : t) : moves kept ∅ a (arm_heartbeat a).
Proof. unfold arm_heartbeat. ledger. Qed.
#[local] Hint Resolve moves_arm_heartbeat : ledger.
Lemma moves_after_boot_accepted kept (a : t) : moves kept ∅ a (after_boot_accepted a).
Proof. unfold after_boot_accepted. ledger. Qed.
#[local] Hint Resolve moves_after_boot_accepted : ledger.
Lemma moves_on_boot_accepted kept (a : t) res : moves kept ∅ a (on_boot_accepted a res).
Proof. unfold on_boot_accepted. ledger. Qed.
#[local] Hint Resolve moves_on_boot_accepted : ledger.
Lemma moves_boot_failed kept x (a : t) r e :
  x = reply_slots r -> moves kept x a (boot_failed a r e).
Proof. intros ->. unfold boot_failed. ledger. Qed.
#[local] Hint Resolve moves_boot_failed : ledger.
Lemma moves_on_boot_refused kept (a : t) res : moves kept ∅ a (on_boot_refused a res).
Proof. unfold on_boot_refused. ledger. Qed.
#[local] Hint Resolve moves_on_boot_refused : ledger.
Lemma moves_on_boot_result kept x (a : t) r res :
  x = reply_slots r -> moves kept x a (on_boot_result a r res).
Proof. intros ->. unfold on_boot_result. ledger. Qed.
#[local] Hint Resolve moves_on_boot_result : ledger.
Lemma moves_boot_done kept x (a : t) gen r res :
  x = reply_slots r -> moves kept x a (boot_done gen r a res).
Proof. intros ->. unfold boot_done. ledger. Qed.
#[local] Hint Resolve moves_boot_done : ledger.
Lemma moves_send_boot kept x (a : t) r :
  x = reply_slots r -> (kept = false -> reply_slots r = ∅) -> moves kept x a (send_boot a r).
Proof. intros -> Hk. unfold send_boot. destruct r; cbn [is_someb negb andb]; ledger. Qed.
#[local] Hint Resolve moves_send_boot : ledger.
Lemma moves_on_boot_retry_timer kept (a : t) : moves kept ∅ a (on_boot_retry_timer a).
Proof. unfold on_boot_retry_timer. ledger. Qed.
#[local] Hint Resolve moves_on_boot_retry_timer : ledger.
Lemma moves_heartbeat_done kept x (a : t) r res :
  x = reply_slots r -> moves kept x a (heartbeat_done r a res).
Proof. intros ->. unfold heartbeat_done. ledger. Qed.
#[local] Hint Resolve moves_heartbeat_done : ledger.
Lemma moves_send_heartbeat kept x (a : t) o r :
  x = reply_slots r -> (kept = false -> reply_slots r = ∅) -> moves kept x a (send_heartbeat a o r).
Proof. intros -> Hk. unfold send_heartbeat. ledger. Qed.
#[local] Hint Resolve moves_send_heartbeat : ledger.
Lemma moves_on_heartbeat_timer kept (a : t) : moves kept ∅ a (on_heartbeat_timer a).
Proof. unfold on_heartbeat_timer. ledger. Qed.
#[local] Hint Resolve moves_on_heartbeat_timer : ledger.
Lemma moves_log_data_transfer_result kept (a : t) name payload :
  moves kept ∅ a (log_data_transfer_result a name payload).
Proof. unfold log_data_transfer_result. ledger. Qed.
#[local] Hint Resolve moves_log_data_transfer_result : ledger.
Lemma moves_user_call_done kept x (a : t) name r res :
  x = {[+ SReply r +]} -> moves kept x a (user_call_done name r a res).
Proof. intros ->. unfold user_call_done. ledger. Qed.
#[local] Hint Resolve moves_user_call_done : ledger.
Lemma moves_user_call kept x (a : t) request r :
  x = {[+ SReply r +]} -> kept = true -> moves kept x a (user_call a request r).
Proof. intros -> ->. unfold user_call. ledger. Qed.
#[local] Hint Resolve moves_user_call : ledger.
Lemma moves_raw_done kept x (a : t) r res :
  x = {[+ SReply r +]} -> moves kept x a (raw_done r a res).
Proof. intros ->. unfold raw_done. ledger. Qed.
#[local] Hint Resolve moves_raw_done : ledger.
Lemma moves_send_raw kept x (a : t) name body v r :
  x = {[+ SReply r +]} -> kept = true -> moves kept x a (send_raw a name body v r).
Proof. intros -> ->. unfold send_raw. ledger. Qed.
#[local] Hint Resolve moves_send_raw : ledger.
Lemma moves_status_done kept x (a : t) id key r res :
  x = reply_slots r -> moves kept x a (status_done id key r a res).
Proof. intros ->. unfold status_done. ledger. Qed.
#[local] Hint Resolve moves_status_done : ledger.
Lemma moves_security_event_done kept (a : t) event res :
  moves kept ∅ a (security_event_done event a res).
Proof. unfold security_event_done. ledger. Qed.
#[local] Hint Resolve moves_security_event_done : ledger.

(** Running a closure gives every answer it has captured. *)
Lemma moves_run_continuation kept name k (a : t) r :
  moves kept (slots k) a (run_continuation name k a r).
Proof. destruct k; unfold run_continuation; cbv zeta; ledger. Qed.
#[local] Hint Resolve moves_run_continuation : ledger.
Lemma moves_start_connect kept (a : t) : moves kept ∅ a (start_connect a).
Proof. unfold start_connect. ledger. Qed.
#[local] Hint Resolve moves_start_connect : ledger.
Lemma moves_connect kept (a : t) : moves kept ∅ a (connect a).
Proof. unfold connect. ledger. Qed.
#[local] Hint Resolve moves_connect : ledger.
Lemma moves_abort_connecting kept (a : t) : moves kept ∅ a (abort_connecting a).
Proof. unfold abort_connecting. ledger. Qed.
#[local] Hint Resolve moves_abort_connecting : ledger.
Lemma moves_schedule_reconnect kept (a : t) : moves kept ∅ a (schedule_reconnect a).
Proof. unfold schedule_reconnect. ledger. Qed.
#[local] Hint Resolve moves_schedule_reconnect : ledger.
Lemma moves_on_reconnect_timer kept (a : t) : moves kept ∅ a (on_reconnect_timer a).
Proof. unfold on_reconnect_timer. ledger. Qed.
#[local] Hint Resolve moves_on_reconnect_timer : ledger.
Lemma moves_on_connect_result kept (a : t) gen r : moves kept ∅ a (on_connect_result a gen r).
Proof. unfold on_connect_result. ledger. Qed.
#[local] Hint Resolve moves_on_connect_result : ledger.

(** ** [handlers] *)

Lemma moves_change_one kind (acc : t * bool * list ConnectorId) id :
  moves false ∅ acc.1.1 (change_one kind acc id).1.1.
Proof. destruct acc as [[a scheduled] changed]. unfold change_one. repeat case_match; cbn [fst]; ledger. Qed.
Lemma moves_change_all kind kept l (a : t) scheduled changed :
  moves kept ∅ a (fold_left (change_one kind) l (a, scheduled, changed)).1.1.
Proof.
  apply moves_weaken. revert a scheduled changed.
  induction l as [|id l IH]; intros a scheduled changed; cbn [fold_left]; [apply moves_refl|].
  apply (moves_last _ _ _ _ _ (moves_change_one kind (a, scheduled, changed) id)).
  destruct (change_one kind _ id) as [[? ?] ?]. apply IH.
Qed.
Lemma moves_change_station kept (a : t) kind : moves kept ∅ a (change_station a kind).
Proof. unfold change_station. ledger. Qed.
#[local] Hint Resolve moves_change_station : ledger.
Lemma moves_change_availability kept x (a : t) h request :
  x = {[+ SHandle (ReplyHandle.handle h) +]} -> moves kept x a (change_availability a h request).
Proof.
  intros ->. unfold change_availability. cbv zeta. case_match; [ledger|].
  generalize (if is_station (ChangeAvailabilityRequest.connector_id request) then connector_ids a
              else [ChangeAvailabilityRequest.connector_id request]). intros targets.
  set (start := if is_station _ then _ else _).
  assert (Hs : moves false ∅ a start.1) by (unfold start; case_match; cbn [fst]; ledger).
  destruct start as [b changed]. apply (moves_last _ _ _ _ _ Hs). cbn [fst]. clear Hs.
  pose proof (moves_change_all (ChangeAvailabilityRequest.kind request) false targets b false changed) as Hc.
  destruct (fold_left _ targets _) as [[d scheduled] all].
  apply (moves_last _ _ _ _ _ Hc). cbn [fst]. ledger.
Qed.
#[local] Hint Resolve moves_change_availability : ledger.
Lemma moves_unlock_connector kept x (a : t) h request :
  x = {[+ SHandle (ReplyHandle.handle h) +]} -> moves kept x a (unlock_connector a h request).
Proof. intros ->. unfold unlock_connector. cbv zeta. case_match; ledger. Qed.
#[local] Hint Resolve moves_unlock_connector : ledger.
Lemma moves_on_configuration_changed kept (a : t) key :
  moves kept ∅ a (on_configuration_changed a key).
Proof. unfold on_configuration_changed. ledger. Qed.
#[local] Hint Resolve moves_on_configuration_changed : ledger.
Lemma moves_apply_configuration_change kept (a : t) key v :
  moves kept ∅ a (apply_configuration_change a key v).1.
Proof. unfold apply_configuration_change. ledger. Qed.
#[local] Hint Resolve moves_apply_configuration_change : ledger.
Lemma moves_change_configuration kept x (a : t) h request :
  x = {[+ SHandle (ReplyHandle.handle h) +]} -> moves kept x a (change_configuration a h request).
Proof. intros ->. unfold change_configuration. ledger. Qed.
#[local] Hint Resolve moves_change_configuration : ledger.
Lemma moves_get_configuration kept x (a : t) h request :
  x = {[+ SHandle (ReplyHandle.handle h) +]} -> moves kept x a (get_configuration a h request).
Proof. intros ->. unfold get_configuration. ledger. Qed.
#[local] Hint Resolve moves_get_configuration : ledger.
Lemma moves_data_transfer kept x (a : t) h request :
  x = {[+ SHandle (ReplyHandle.handle h) +]} -> moves kept x a (data_transfer a h request).
Proof. intros ->. unfold data_transfer. ledger. Qed.
#[local] Hint Resolve moves_data_transfer : ledger.
Lemma moves_send_local_list kept x (a : t) h request :
  x = {[+ SHandle (ReplyHandle.handle h) +]} -> moves kept x a (send_local_list a h request).
Proof. intros ->. unfold send_local_list. ledger. Qed.
#[local] Hint Resolve moves_send_local_list : ledger.
Lemma moves_get_version kept x (a : t) h :
  x = {[+ SHandle (ReplyHandle.handle h) +]} -> moves kept x a (get_version a h).
Proof. intros ->. unfold get_version. ledger. Qed.
#[local] Hint Resolve moves_get_version : ledger.
Lemma moves_clear_cache kept x (a : t) h :
  x = {[+ SHandle (ReplyHandle.handle h) +]} -> moves kept x a (clear_cache a h).
Proof. intros ->. unfold clear_cache. ledger. Qed.
#[local] Hint Resolve moves_clear_cache : ledger.
Lemma moves_remote_start kept x (a : t) h request :
  x = {[+ SHandle (ReplyHandle.handle h) +]} -> kept = true -> moves kept x a (remote_start a h request).
Proof. intros -> ->. unfold remote_start. ledger. Qed.
#[local] Hint Resolve moves_remote_start : ledger.
Lemma moves_remote_stop kept x (a : t) h request :
  x = {[+ SHandle (ReplyHandle.handle h) +]} -> moves kept x a (remote_stop a h request).
Proof. intros ->. unfold remote_stop. ledger. Qed.
#[local] Hint Resolve moves_remote_stop : ledger.
Lemma moves_reset_running kept (a : t) reason id : moves kept ∅ a (reset_running reason a id).
Proof. unfold reset_running. ledger. Qed.
#[local] Hint Resolve moves_reset_running : ledger.
Lemma moves_reset_reserved kept (a : t) id : moves kept ∅ a (reset_reserved a id).
Proof. unfold reset_reserved. ledger. Qed.
#[local] Hint Resolve moves_reset_reserved : ledger.
Lemma moves_perform_reset kept (a : t) kind : moves kept ∅ a (perform_reset a kind).
Proof. unfold perform_reset. ledger. Qed.
#[local] Hint Resolve moves_perform_reset : ledger.
Lemma moves_reset kept x (a : t) h request :
  x = {[+ SHandle (ReplyHandle.handle h) +]} -> moves kept x a (reset a h request).
Proof. intros ->. unfold reset. ledger. Qed.
#[local] Hint Resolve moves_reset : ledger.
Lemma moves_reserve_now_handler kept x (a : t) h request :
  x = {[+ SHandle (ReplyHandle.handle h) +]} -> moves kept x a (reserve_now_handler a h request).
Proof. intros ->. unfold reserve_now_handler. ledger. Qed.
#[local] Hint Resolve moves_reserve_now_handler : ledger.
Lemma moves_cancel_reservation_handler kept x (a : t) h request :
  x = {[+ SHandle (ReplyHandle.handle h) +]} -> moves kept x a (cancel_reservation_handler a h request).
Proof. intros ->. unfold cancel_reservation_handler. ledger. Qed.
#[local] Hint Resolve moves_cancel_reservation_handler : ledger.
Lemma moves_set_profile kept x (a : t) h request :
  x = {[+ SHandle (ReplyHandle.handle h) +]} -> moves kept x a (set_profile a h request).
Proof. intros ->. unfold set_profile. ledger. Qed.
#[local] Hint Resolve moves_set_profile : ledger.
Lemma moves_clear_profile kept x (a : t) h request :
  x = {[+ SHandle (ReplyHandle.handle h) +]} -> moves kept x a (clear_profile a h request).
Proof. intros ->. unfold clear_profile. ledger. Qed.
#[local] Hint Resolve moves_clear_profile : ledger.
Lemma moves_composite_schedule kept x (a : t) h request :
  x = {[+ SHandle (ReplyHandle.handle h) +]} -> moves kept x a (composite_schedule a h request).
Proof. intros ->. unfold composite_schedule. ledger. Qed.
#[local] Hint Resolve moves_composite_schedule : ledger.
Lemma moves_get_diagnostics kept x (a : t) h request :
  x = {[+ SHandle (ReplyHandle.handle h) +]} -> moves kept x a (get_diagnostics a h request).
Proof. intros ->. unfold get_diagnostics. ledger. Qed.
#[local] Hint Resolve moves_get_diagnostics : ledger.
Lemma moves_get_log kept x (a : t) h request :
  x = {[+ SHandle (ReplyHandle.handle h) +]} -> moves kept x a (get_log a h request).
Proof. intros ->. unfold get_log. ledger. Qed.
#[local] Hint Resolve moves_get_log : ledger.
Lemma moves_update_firmware kept x (a : t) h request :
  x = {[+ SHandle (ReplyHandle.handle h) +]} -> moves kept x a (update_firmware a h request).
Proof. intros ->. unfold update_firmware. ledger. Qed.
#[local] Hint Resolve moves_update_firmware : ledger.
Lemma moves_signed_refusal kept (a : t) firmware : moves kept ∅ a (signed_refusal a firmware).1.
Proof. unfold signed_refusal. ledger. Qed.
#[local] Hint Resolve moves_signed_refusal : ledger.
Lemma moves_signed_update_firmware kept x (a : t) h request :
  x = {[+ SHandle (ReplyHandle.handle h) +]} -> moves kept x a (signed_update_firmware a h request).
Proof. intros ->. unfold signed_update_firmware. ledger. Qed.
#[local] Hint Resolve moves_signed_update_firmware : ledger.
Lemma moves_install_certificate kept x (a : t) h request :
  x = {[+ SHandle (ReplyHandle.handle h) +]} -> moves kept x a (install_certificate a h request).
Proof. intros ->. unfold install_certificate. ledger. Qed.
#[local] Hint Resolve moves_install_certificate : ledger.
Lemma moves_delete_certificate kept x (a : t) h request :
  x = {[+ SHandle (ReplyHandle.handle h) +]} -> moves kept x a (delete_certificate a h request).
Proof. intros ->. unfold delete_certificate. ledger. Qed.
#[local] Hint Resolve moves_delete_certificate : ledger.
Lemma moves_get_installed_certificate_ids kept x (a : t) h request :
  x = {[+ SHandle (ReplyHandle.handle h) +]} -> moves kept x a (get_installed_certificate_ids a h request).
Proof. intros ->. unfold get_installed_certificate_ids. ledger. Qed.
#[local] Hint Resolve moves_get_installed_certificate_ids : ledger.
Lemma moves_certificate_signed kept x (a : t) h request :
  x = {[+ SHandle (ReplyHandle.handle h) +]} -> moves kept x a (certificate_signed a h request).
Proof. intros ->. unfold certificate_signed. ledger. Qed.
#[local] Hint Resolve moves_certificate_signed : ledger.
Lemma moves_send_meter_values kept (a : t) id : moves kept ∅ a (send_meter_values a id).
Proof. unfold send_meter_values. ledger. Qed.
#[local] Hint Resolve moves_send_meter_values : ledger.
Lemma moves_start kept (a : t) m c : moves kept ∅ a (start a m c).
Proof. unfold start. ledger. Qed.
#[local] Hint Resolve moves_start : ledger.
Lemma moves_trigger_message kept x (a : t) h request :
  x = {[+ SHandle (ReplyHandle.handle h) +]} -> moves kept x a (trigger_message a h request).
Proof. intros ->. unfold trigger_message. ledger. Qed.
#[local] Hint Resolve moves_trigger_message : ledger.
Lemma moves_start_extended kept (a : t) m c : moves kept ∅ a (start_extended a m c).
Proof. unfold start_extended. ledger. Qed.
#[local] Hint Resolve moves_start_extended : ledger.
Lemma moves_extended_trigger_message kept x (a : t) h request :
  x = {[+ SHandle (ReplyHandle.handle h) +]} -> moves kept x a (extended_trigger_message a h request).
Proof. intros ->. unfold extended_trigger_message. ledger. Qed.
#[local] Hint Resolve moves_extended_trigger_message : ledger.

(** A rule answers the CALL itself, or leaves it (perhaps delayed) to the handler. *)
Lemma moves_apply_response_rule (a : t) name h :
  let '(b, kept) := apply_response_rule a name h in
  match kept with
  | Some h' => ReplyHandle.handle h' = ReplyHandle.handle h /\ moves false ∅ a b
  | None => moves false {[+ SHandle (ReplyHandle.handle h) +]} a b
  end.
Proof.
  unfold apply_response_rule. destruct (ResponseRules.take_rule _ _) as [rules behavior]. cbv zeta.
  match goal with |- context [over ?f ?g a] =>
    assert (Hb : moves false ∅ a (over f g a)) by ledger; revert Hb; generalize (over f g a) end.
  intros b Hb. repeat case_match; simplify_eq; cbn [ReplyHandle.handle over];
    first [ split; [reflexivity|]; apply (moves_last _ _ _ _ _ Hb); ledger
          | apply (moves_last _ _ _ _ _ Hb); ledger ].
Qed.

Lemma moves_invoke {T} (a : t) h (request : option T) handler :
  (forall a r, moves true {[+ SHandle (ReplyHandle.handle h) +]} a (handler a h r)) ->
  moves true {[+ SHandle (ReplyHandle.handle h) +]} a (invoke a h request handler).
Proof. intros Hh. unfold invoke. destruct request; [apply Hh|]. ledger. Qed.

(** Whatever the action, its CALL is answered or the answer waits for an authorization. *)
Lemma moves_route (a : t) name payload h :
  moves true {[+ SHandle (ReplyHandle.handle h) +]} a (route a name payload h).
Proof.
  unfold route. cbv zeta.
  repeat match goal with
         | |- moves _ _ _ (if ?b then _ else _) =>
             destruct b; [solve [apply moves_invoke; intros; eauto with ledger]|]
         end.
  unfold not_handled. ledger.
Qed.

Lemma moves_dispatch_incoming (a : t) name payload h :
  moves true {[+ SHandle (ReplyHandle.handle h) +]} a (dispatch_incoming a name payload h).
Proof.
  unfold dispatch_incoming. cbv zeta.
  apply (moves_last _ _ _ _ _ (moves_log false a LogLevel.Info)). generalize (log a LogLevel.Info).
  clear a. intros a. case_match; [|apply moves_route].
  pose proof (moves_apply_response_rule a name h) as Hr.
  destruct (apply_response_rule a name h) as [b [h'|]]; [|by apply moves_weaken].
  destruct Hr as [Hh Hb]. apply (moves_last _ _ _ _ _ Hb). rewrite <- Hh. apply moves_route.
Qed.

(** ** The books when the calls in flight end *)

(** [conserves]: [moves] without its account of tokens. [settles]: moreover nothing is left
    waiting. *)
Definition conserves (x : gmultiset Slot) (a b : t) : Prop :=
  books_ok a -> books_ok b /\ pending b ⊎ answered b = x ⊎ (pending a ⊎ answered a).
Definition settles (a b : t) : Prop := conserves ∅ a b /\ (books_ok a -> pending b = ∅).

Lemma moves_conserves kept x a b : moves kept x a b -> conserves x a b.
Proof. intros Hm Hok. by destruct (Hm Hok). Qed.
Lemma conserves_trans x y a b c : conserves x a b -> conserves y b c -> conserves (x ⊎ y) a c.
Proof.
  intros Hab Hbc Hok. destruct (Hab Hok) as [Hb E1]. destruct (Hbc Hb) as [Hc E2].
  split; [done|]. rewrite E2, E1. multiset_solver.
Qed.
Lemma conserves_quiet kept x a b c : conserves x a b -> moves kept ∅ b c -> conserves x a c.
Proof.
  intros Hab Hbc%moves_conserves. generalize (conserves_trans _ _ _ _ _ Hab Hbc).
  by rewrite (right_id_L ∅ (⊎)).
Qed.
Lemma conserves_last kept x a b c : moves kept ∅ a b -> conserves x b c -> conserves x a c.
Proof.
  intros Hab%moves_conserves Hbc. generalize (conserves_trans _ _ _ _ _ Hab Hbc).
  by rewrite (left_id_L ∅ (⊎)).
Qed.

Lemma pending_empty (m : gmap Z PendingCall) :
  (forall tok p, m !! tok = Some p -> slots (continuation p) = ∅) -> map_fold held ∅ m = ∅.
Proof.
  induction m as [|tok p m Hm IH] using map_ind; intros Hs; [apply map_fold_empty|].
  rewrite pending_insert by done. rewrite (Hs tok p) by apply lookup_insert_eq.
  rewrite IH; [multiset_solver|]. intros tok' p' Hp'. apply (Hs tok').
  rewrite lookup_insert_ne; [done|]. intros ->. congruence.
Qed.
Lemma pending_empty_inv (m : gmap Z PendingCall) tok p :
  map_fold held ∅ m = ∅ -> m !! tok = Some p -> slots (continuation p) = ∅.
Proof. intros Hm Hp. rewrite (pending_delete m tok p Hp) in Hm. multiset_solver. Qed.

Lemma settles_last a b c : moves false ∅ a b -> settles b c -> settles a c.
Proof.
  intros Hab [Hbc Hs]. split; [by apply (conserves_last false _ a b)|].
  intros Hok. apply Hs. by destruct (Hab Hok).
Qed.
Lemma settles_quiet a b c : settles a b -> moves false ∅ b c -> settles a c.
Proof.
  intros [Hab Hs] Hbc. split; [by apply (conserves_quiet false _ a b)|].
  intros Hok. specialize (Hs Hok). destruct (Hab Hok) as [Hb _].
  destruct (Hbc Hb) as [_ _ Hn Hold Hnew]. apply pending_empty. intros tok p Hp.
  destruct (Z.lt_ge_cases tok (next_call_token b)) as [Hlt|Hge]; [|by apply (Hnew eq_refl tok)].
  apply Hold in Hp; [|done]. by apply (pending_empty_inv (calls b) tok).
Qed.

Definition owed (l : list (Z * PendingCall)) : gmultiset Slot :=
  foldr (fun p m => slots (continuation p.2) ⊎ m) ∅ l.
Lemma owed_perm l l' : l ≡ₚ l' -> owed l = owed l'.
Proof. induction 1; simpl; multiset_solver. Qed.

Lemma owed_pending (m : gmap Z PendingCall) : owed (pending_in_order m) = map_fold held ∅ m.
Proof.
  rewrite (owed_perm _ _ (pending_in_order_perm m)), map_fold_foldr. unfold owed, held.
  induction (map_to_list m) as [|[tok p] l IH]; simpl; [done|]. by rewrite IH.
Qed.

Lemma moves_fail_all e l (a : t) : moves false (owed l) a (fold_left (fail_one e) l a).
Proof.
  revert a. induction l as [|p l IH]; intros a; simpl; [apply moves_refl|].
  refine (moves_trans false false _ _ _ _ _ _ (IH _)). unfold fail_one. ledger.
Qed.

(** When the link goes down every closure runs: nothing is left waiting. *)
Lemma settles_fail_pending_calls (a : t) e : settles a (fail_pending_calls a e).
Proof.
  unfold fail_pending_calls. cbv zeta.
  set (b := a <| calls := ∅ |>). pose proof (moves_fail_all e (pending_in_order (calls a)) b) as Hm.
  rewrite owed_pending in Hm.
  assert (Hb : books_ok a -> books_ok b) by (intros [Hf Hs Ho]; split; simpl; auto; intros; by simplify_map_eq).
  split.
  - intros Hok. destruct (Hm (Hb Hok)) as [Hc Ht _ _ _]. split; [done|]. rewrite Ht.
    unfold pending, answered. simpl. rewrite map_fold_empty. multiset_solver.
  - intros Hok. destruct (Hm (Hb Hok)) as [_ _ _ Hold Hnew]. apply pending_empty. intros tok p Hp.
    destruct (Z.lt_ge_cases tok (next_call_token b)) as [Hlt|Hge]; [|by apply (Hnew eq_refl tok)].
    apply Hold in Hp; [|done]. simpl in Hp. by simplify_map_eq.
Qed.

(** [settled lem] proves [settles] of an operation: quiet steps, the one that [lem] is about,
    and quiet steps again. *)
Ltac settled lem :=
  cbv beta;
  let past E :=
    lazymatch goal with
    | |- settles ?a _ =>
        let H := fresh "Hm" in
        first [ assert (H : moves false ∅ a E) by ledger;
                apply (settles_last a E _ H); clear H; generalize E; intro; settled lem
              | assert (H : settles a E) by settled lem;
                apply (settles_quiet a E _ H); clear H; generalize E; intro; ledger ]
    end in
  lazymatch goal with
  | |- settles ?a (let b := ?E in @?F b) =>
      change (settles a (F E));
      lazymatch type of E with
      | @Actor.t _ _ => past E
      | _ => generalize E; intro; settled lem
      end
  | |- settles _ (if ?c then _ else _) => destruct c; settled lem
  | |- settles _ (over _ _ ?b) => past b
  | |- settles ?a ?S =>
      let b := state_arg S in tryif is_var b then apply lem else past b
  end.

Lemma settles_link_down (a : t) code : settles a (link_down a code).
Proof. unfold link_down. settled settles_fail_pending_calls. Qed.
Lemma settles_drop_connection (a : t) : settles a (drop_connection a).
Proof. unfold drop_connection. settled settles_link_down. Qed.
Lemma settles_disconnect (a : t) : settles a (disconnect a).
Proof. unfold disconnect. settled settles_drop_connection. Qed.
Lemma settles_reconnect_for_hard_reset (a : t) : settles a (reconnect_for_hard_reset a).
Proof. unfold reconnect_for_hard_reset. settled settles_drop_connection. Qed.
Lemma settles_on_closed (a : t) code : settles a (on_closed a code).
Proof. unfold on_closed. settled settles_link_down. Qed.
Lemma conserves_on_hard_reset_timer (a : t) : conserves ∅ a (on_hard_reset_timer a).
Proof.
  unfold on_hard_reset_timer. case_match; [|apply (moves_conserves false), moves_refl].
  case_match; [apply (moves_conserves false); ledger|].
  case_match; [apply (moves_conserves false); ledger|].
  eapply (conserves_last false); [|apply settles_reconnect_for_hard_reset]. ledger.
Qed.

Lemma conserves_on_call_done (a : t) tok gen r : conserves ∅ a (on_call_done a tok gen r).
Proof.
  unfold on_call_done. case_match; [apply (moves_conserves false), moves_refl|].
  destruct (calls a !! tok) as [p|] eqn:E; [|apply (moves_conserves false), moves_refl]. cbv zeta.
  intros Hok. set (b := a <| calls ::= base.delete tok |>).
  assert (Hb : books_ok b).
  { destruct Hok as [Hf Hs Ho]. split; simpl; [|exact Hs|].
    - intros tok' p' [_ Hp]%lookup_delete_Some. by apply (Hf tok' p').
    - intros tok' p' Hin [_ Hp]%lookup_delete_Some. by apply (Ho tok' p'). }
  set (level := match r with Ok _ => LogLevel.Success | Err _ => LogLevel.Error end).
  destruct (moves_last false _ b (log b level) _ (moves_log _ _ _)
              (moves_run_continuation false (action p) (continuation p) (log b level) r) Hb)
    as [Hc Ht _ _ _].
  split; [exact Hc|]. rewrite Ht. unfold pending. rewrite (pending_delete (calls a) tok p E).
  unfold answered. simpl. multiset_solver.
Qed.

(** ** The commands and the loop *)
Lemma moves_add_connector kept (a : t) : moves kept ∅ a (add_connector a).1.
Proof. unfold add_connector. ledger. Qed.
#[local] Hint Resolve moves_add_connector : ledger.
Lemma moves_plug_in kept (a : t) id : moves kept ∅ a (plug_in a id).1.
Proof. unfold plug_in. ledger. Qed.
#[local] Hint Resolve moves_plug_in : ledger.
Lemma moves_set_unplugged kept (a : t) id s : moves kept ∅ a (set_unplugged a id s).
Proof. unfold set_unplugged. ledger. Qed.
#[local] Hint Resolve moves_set_unplugged : ledger.
Lemma moves_unplug kept x (a : t) id done :
  x = done_slots done -> (kept = false -> done_slots done = ∅) -> moves kept x a (unplug a id done).
Proof. intros -> Hk. unfold unplug. ledger. Qed.
#[local] Hint Resolve moves_unplug : ledger.
Lemma moves_set_status kept (a : t) id s : moves kept ∅ a (set_status a id s).1.
Proof. unfold set_status. ledger. Qed.
#[local] Hint Resolve moves_set_status : ledger.
Lemma moves_fault kept x (a : t) id code info vc done :
  x = done_slots done -> moves kept x a (fault a id code info vc done).
Proof. intros ->. unfold fault. ledger. Qed.
#[local] Hint Resolve moves_fault : ledger.
Lemma moves_clear_fault kept (a : t) id : moves kept ∅ a (clear_fault a id).1.
Proof. unfold clear_fault. ledger. Qed.
#[local] Hint Resolve moves_clear_fault : ledger.
Lemma moves_set_configuration kept (a : t) key v : moves kept ∅ a (set_configuration a key v).1.
Proof. unfold set_configuration. ledger. Qed.
#[local] Hint Resolve moves_set_configuration : ledger.
Lemma moves_apply_local_list_request kept (a : t) request :
  moves kept ∅ a (apply_local_list_request a request).1.
Proof. unfold apply_local_list_request. ledger. Qed.
#[local] Hint Resolve moves_apply_local_list_request : ledger.
Lemma moves_apply_local_list_edit kept (a : t) item :
  moves kept ∅ a (apply_local_list_edit a item).1.
Proof. unfold apply_local_list_edit. ledger. Qed.
#[local] Hint Resolve moves_apply_local_list_edit : ledger.
Lemma moves_logged kept (a : t) x : moves kept ∅ a x.1 -> moves kept ∅ a (logged x).1.
Proof.
  destruct x as [b r]. cbn [fst]. intros Hb. apply (moves_quiet _ _ _ b); [done|].
  unfold logged. destruct r; cbn [fst]; ledger.
Qed.
#[local] Hint Resolve moves_logged : ledger.
Lemma moves_set_local_list_entry kept (a : t) tag info :
  moves kept ∅ a (set_local_list_entry a tag info).1.
Proof. unfold set_local_list_entry. ledger. Qed.
#[local] Hint Resolve moves_set_local_list_entry : ledger.
Lemma moves_remove_local_list_entry kept (a : t) tag :
  moves kept ∅ a (remove_local_list_entry a tag).1.
Proof. unfold remove_local_list_entry. ledger. Qed.
#[local] Hint Resolve moves_remove_local_list_entry : ledger.
Lemma moves_clear_local_list kept (a : t) : moves kept ∅ a (clear_local_list a).1.
Proof. unfold clear_local_list. ledger. Qed.
#[local] Hint Resolve moves_clear_local_list : ledger.
Lemma moves_install_charging_profile kept (a : t) id profile :
  moves kept ∅ a (install_charging_profile a id profile).1.
Proof. unfold install_charging_profile. ledger. Qed.
#[local] Hint Resolve moves_install_charging_profile : ledger.
Lemma moves_clear_charging_profiles kept (a : t) id :
  moves kept ∅ a (clear_charging_profiles a id).1.
Proof. unfold clear_charging_profiles. ledger. Qed.
#[local] Hint Resolve moves_clear_charging_profiles : ledger.
Lemma moves_set_response_rules kept (a : t) rules : moves kept ∅ a (set_response_rules a rules).
Proof. unfold set_response_rules. ledger. Qed.
#[local] Hint Resolve moves_set_response_rules : ledger.
Lemma moves_set_response_rule kept (a : t) rule : moves kept ∅ a (set_response_rule a rule).1.
Proof. unfold set_response_rule. ledger. Qed.
#[local] Hint Resolve moves_set_response_rule : ledger.
Lemma moves_clear_response_rules kept (a : t) name : moves kept ∅ a (clear_response_rules a name).1.
Proof. unfold clear_response_rules. ledger. Qed.
#[local] Hint Resolve moves_clear_response_rules : ledger.

Lemma conserves_execute_now (a : t) c : conserves ∅ a (execute_now a c).1.
Proof.
  destruct c; unfold execute_now; cbn [fst]; try (apply (moves_conserves false); ledger).
  - apply settles_disconnect.
  - eapply (conserves_quiet false); [apply settles_disconnect|]. ledger.
Qed.
Lemma conserves_execute (a : t) c r : conserves {[+ SReply r +]} a (execute a c r).
Proof.
  destruct c; unfold execute; try (apply (moves_conserves true); ledger);
    match goal with |- conserves _ _ (let '(b, result) := ?E in _) =>
      assert (He : conserves ∅ a E.1) by apply conserves_execute_now; destruct E as [d ans] end;
    rewrite <- (left_id_L ∅ (⊎) {[+ SReply r +]});
    (eapply conserves_trans; [exact He|]);
    by apply (moves_conserves false), moves_send_reply.
Qed.

Lemma moves_finish_persistence kept (a : t) ok : moves kept ∅ a (finish_persistence a ok).
Proof. unfold finish_persistence. ledger. Qed.
#[local] Hint Resolve moves_finish_persistence : ledger.
Lemma settles_shutdown (a : t) ok : settles a (shutdown a ok).
Proof. unfold shutdown. settled settles_fail_pending_calls. Qed.

(** The answers that a message of the environment asks for. *)
Definition asks (w : Wake.t) : gmultiset Slot :=
  match w with
  | Wake.Command (Some (_, r)) => {[+ SReply r +]}
  | Wake.Link (ConnectionEvent.Call _ _ h) => {[+ SHandle (ReplyHandle.handle h) +]}
  | _ => ∅
  end.
Definition asked (ws : list Wake.t) : gmultiset Slot := foldr (fun w m => asks w ⊎ m) ∅ ws.

Lemma conserves_on_connection_event (a : t) e :
  conserves (asks (Wake.Link e)) a (on_connection_event a e).
Proof.
  destruct e as [|name payload h| |code]; cbn [on_connection_event asks].
  - apply (moves_conserves false), moves_refl.
  - apply (moves_conserves true), moves_dispatch_incoming.
  - apply (moves_conserves false), moves_log.
  - apply settles_on_closed.
Qed.

Lemma conserves_on_internal (a : t) i : conserves ∅ a (on_internal a i).
Proof.
  destruct i; cbn [on_internal]; try (apply (moves_conserves false); ledger).
  apply conserves_on_call_done.
Qed.

Lemma conserves_on_timer (a : t) k : conserves ∅ a (on_timer a k).
Proof.
  destruct k; cbn [on_timer]; try (apply (moves_conserves false); ledger).
  apply conserves_on_hard_reset_timer.
Qed.

Lemma conserves_handle (a : t) w ok : conserves (asks w) a (handle a w ok).1.
Proof.
  destruct w as [[[c r]|]|e|i|k]; cbn [handle asks fst].
  - assert (Hs : conserves {[+ SReply r +]} a (send_reply (shutdown a ok) r (Ok Outcome.Done))).
    { rewrite <- (left_id_L ∅ (⊎) {[+ SReply r +]}).
      eapply conserves_trans; [apply settles_shutdown|]. by apply (moves_conserves false), moves_send_reply. }
    destruct c; cbn [fst]; apply conserves_execute || exact Hs.
  - apply settles_shutdown.
  - apply conserves_on_connection_event.
  - apply conserves_on_internal.
  - apply conserves_on_timer.
Qed.

Lemma pending_emit (a : t) e : pending (emit a e) = pending a.
Proof. reflexivity. Qed.

Lemma handle_ends (a : t) w ok :
  (handle a w ok).2 = true -> books_ok a -> pending (handle a w ok).1 = ∅.
Proof.
  intros He Hok. pose proof (proj2 (settles_shutdown a ok) Hok) as Hs.
  destruct w as [[[c r]|]|e|i|k]; cbn [handle fst snd] in *; [|exact Hs|discriminate..].
  destruct c; cbn [fst snd] in *; try discriminate. unfold send_reply. by rewrite pending_emit.
Qed.

Lemma conserves_iterate (a : t) w ok : conserves (asks w) a (iterate a w ok).1.
Proof.
  unfold iterate. cbv zeta. eapply (conserves_last false); [apply moves_settle_meters|].
  generalize (settle_meters a). clear a. intros a.
  pose proof (conserves_handle a w ok) as Hc. destruct (handle a w ok) as [b stop]. cbn [fst] in Hc.
  destruct stop; cbn [fst]; apply (conserves_quiet false _ _ _ _ Hc); [apply moves_log|apply moves_settle_meters].
Qed.

Lemma iterate_ends (a : t) w ok :
  (iterate a w ok).2 = true -> books_ok a -> pending (iterate a w ok).1 = ∅.
Proof.
  unfold iterate. cbv zeta. intros Hend Hok.
  assert (Hs : books_ok (settle_meters a)) by by apply (moves_settle_meters false a).
  pose proof (handle_ends (settle_meters a) w ok) as He.
  destruct (handle (settle_meters a) w ok) as [b stop]. destruct stop; [|done]. cbn [fst snd] in *.
  unfold log. rewrite pending_emit. by apply He.
Qed.

(** ** Whole runs *)

Definition waiting (o : option Wake.t) : list Wake.t := match o with Some w => [w] | None => [] end.

Definition books_at (s s' : status) (ws : list Wake.t) : Prop :=
  conserves (asked ws) (state_of s) (state_of s') /\
  (forall a, s' = Stopped a -> s = s' \/ (books_ok (state_of s) -> pending a = ∅)).

Lemma same_books_conserves (a b : t) : same_books a b -> conserves ∅ a b.
Proof. intros Hs. apply (moves_conserves false), (moves_same _ _ _ a); [done|apply moves_refl]. Qed.

Lemma books_iterate (a b : t) w ok :
  same_books a b -> books_at (Running a) (ended (iterate b w ok)) [w].
Proof.
  intros Hs. apply same_books_conserves in Hs. unfold ended, books_at.
  split.
  - assert (Hc : conserves (∅ ⊎ asks w) a (iterate b w ok).1)
      by (eapply conserves_trans; [exact Hs|apply conserves_iterate]).
    unfold asked. simpl. rewrite (right_id_L ∅ (⊎)). rewrite (left_id_L ∅ (⊎)) in Hc.
    by destruct ((iterate b w ok).2).
  - intros a' Ha'. right. intros Hok. destruct ((iterate b w ok).2) eqn:E; [|done].
    simplify_eq. apply iterate_ends; [done|]. by apply Hs.
Qed.

Lemma books_step s o s' : step s o s' -> books_at s s' (waiting o).
Proof.
  destruct 1; cbn [waiting].
  - by apply books_iterate.
  - by apply books_iterate.
  - split; [by apply same_books_conserves|done].
  - split; [by apply same_books_conserves|done].
Qed.

Lemma asked_app l l' : asked (l ++ l') = asked l ⊎ asked l'.
Proof. induction l as [|w l IH]; simpl; multiset_solver. Qed.

Lemma books_steps s ws s' : steps s ws s' -> books_at s s' ws.
Proof.
  induction 1 as [s|s s' s'' o ws Hstep Hsteps IH].
  - split; [apply (moves_conserves false), moves_refl|auto].
  - apply books_step in Hstep as [Hc He]. destruct IH as [Hc' He'].
    replace (match o with Some w => w :: ws | None => ws end) with (waiting o ++ ws) by by destruct o.
    split.
    + rewrite asked_app. by eapply conserves_trans.
    + intros a Ha. destruct (He' a Ha) as [Heq|Hend].
      * destruct (He a) as [Heq'|Hs]; [congruence|left; congruence|by right].
      * right. intros Hok. apply Hend. by apply Hc.
Qed.

Lemma moves_start_up kept (a : t) : moves kept ∅ a (start_up a).
Proof. unfold start_up. ledger. Qed.

Lemma fresh_books c now ticks store loaded loaded_secrets keys :
  let a := start_up (Restore.new c now ticks store loaded loaded_secrets keys) in
  books_ok a /\ pending a = ∅ /\ answered a = ∅.
Proof.
  intros a.
  set (b := Restore.new c now ticks store loaded loaded_secrets keys).
  assert (Hm : moves false ∅ b a) by apply moves_start_up.
  assert (Hb : calls b = ∅ /\ sample_calls b = [] /\ outbox b = []).
  { unfold b, Restore.new. by destruct (Restore.restore _ _ _ _ _) as [state parts]. }
  destruct Hb as (Hc & Hs & Ho).
  assert (Hok : books_ok b).
  { split; rewrite ?Hc, ?Hs; intros *; [by rewrite lookup_empty|by intros ?%not_elem_of_nil..]. }
  destruct (Hm Hok) as [Ha Ht _ Hold Hnew].
  assert (Hpb : pending b = ∅) by (unfold pending; rewrite Hc; apply map_fold_empty).
  assert (Hab : answered b = ∅) by (unfold answered; by rewrite Ho).
  rewrite Hpb, Hab in Ht.
  split; [done|]. split; multiset_solver.
Qed.

(** Claim C1: every command and every CALL of the CSMS is answered exactly once. Whatever a
    station goes through from its start (messages of the users and of the CSMS in any order,
    lost connections, failed and late CALLs, resets, timers), each answer asked for is at any
    moment either given once or held by exactly one CALL in flight; when the station has stopped
    all of them are given, and no answer is ever given that nobody asked for. *)
Theorem exactly_once c now ticks store loaded loaded_secrets keys ws s :
  steps (Running (start_up (Restore.new c now ticks store loaded loaded_secrets keys))) ws s ->
  (forall x, (multiplicity x (pending (state_of s)) + multiplicity x (answered (state_of s)))%nat
             = multiplicity x (asked ws)) /\
  (forall a, s = Stopped a -> answered a = asked ws).
Proof.
  intros Hsteps. apply books_steps in Hsteps as [Hc He].
  destruct (fresh_books c now ticks store loaded loaded_secrets keys) as (Hok & Hp & Ha).
  destruct (Hc Hok) as [_ Ht]. cbn [state_of] in Ht. rewrite Hp, Ha, !(right_id_L ∅ (⊎)) in Ht. split.
  - intros x. by rewrite <- multiplicity_disj_union, Ht.
  - intros a ->. destruct (He a eq_refl) as [|Hs]; [done|].
    cbn [state_of] in Ht, Hs. by rewrite (Hs Hok), (left_id_L ∅ (⊎)) in Ht.
Qed.
End ledger.

#[local] Existing Instance u64_json.
#[local] Existing Instance ns_chrono.
#[local] Existing Instance any_url.
#[local] Existing Instance CertificateStore.sample_pki.
#[local] Existing Instance Samples.accepting.
#[local] Existing Instance Samples.requests.

(** A [Boot] command whose CALL is in flight when the station is shut down. *)
Definition sample_messages : list Wake.t :=
  Samples.connect ++ [Wake.Command (Some (Command.Boot, 2))].

Lemma exactly_once_witness :
  exists ws a,
    steps (Running (start_up (Restore.new StationConfig.default Samples.day 0 true None None [])))
      ws (Stopped a) /\
    answered a = asked ws /\ multiplicity (SReply 2) (asked ws) = 1%nat.
Proof.
  eexists _, _.
  assert (Hs := Samples.run_stop_steps
    (start_up (Restore.new StationConfig.default Samples.day 0 true None None []))
    sample_messages 3 ltac:(vm_compute; reflexivity)).
  split; [exact Hs|]. split; [|vm_compute; reflexivity].
  exact (proj2 (exactly_once _ _ _ _ _ _ _ _ _ Hs) _ eq_refl).
Defined.
End Ledger.
