(* ===== verification/Histories.v ===== *)
(** * Histories: what every operation does to transactions, registers and the offline queue

    The transaction of a connector goes through [TransactionState]; the closures of CALLs in
    flight and the entries of the offline queue refer to it by an id that the station has drawn.
    [ok] is the invariant that ties them together; the starts begun so far ([starts]) are its
    ghost state. [grows] says that an operation keeps [ok], that the transaction of every
    connector moves along [life], and that no register runs backwards; every operation of the
    actor below the link has a lemma of that form (the hint database [histories], the tactic
    [histories]). [Lifecycle.v] goes on with the link, the handlers and whole runs. *)

From stdpp Require Import strings gmap.
From S2P Require Import Prelude Text F64 Time Types Messages SecurityMessages Frame Actions.
From S2P Require Import ResponseRules Config ConfigRegistry LocalAuthList Authorization.
From S2P Require Import Connector Reservation Offline Timers Metering SmartCharging.
From S2P Require Import ChargingProfiles Maintenance Security Certificates Interface Store.
From S2P Require Import Actor Calls Transactions Secure Sampling Walk.
Local Open Scope Z_scope.

Module Histories.
Import Actor Calls Transactions Secure Sampling ReservationTimers.

(** ** The life of a transaction *)

Definition active_of (p : PendingStart.t) (tx : Z) : ActiveTransaction.t := {|
  ActiveTransaction.tx_id := TxId.Csms tx;
  ActiveTransaction.id_tag := PendingStart.id_tag p;
  ActiveTransaction.started_at := PendingStart.started_at p;
  ActiveTransaction.meter_start_wh := PendingStart.meter_start_wh p |}.

(** A start is begun under an id of the station; the CSMS confirms it under its own id, and
    everything else stays as it was begun; a confirmed transaction is stopped under that id,
    with a register that has not run backwards; any transaction may end. *)
Inductive life : TransactionState.t -> TransactionState.t -> Prop :=
| life_begin p : life TransactionState.Idle (TransactionState.PendingStart p)
| life_confirm p tx :
    life (TransactionState.PendingStart p) (TransactionState.Active (active_of p tx))
| life_stop x tag reason stopped_at meter :
    ActiveTransaction.meter_start_wh x <= meter ->
    life (TransactionState.Active x)
      (TransactionState.Stopping
         (StoppingTransaction.mk (ActiveTransaction.tx_id x) tag reason (Some stopped_at) (Some meter)))
| life_end x : life x TransactionState.Idle.

(** ** The invariant *)

(** The starts begun so far: the connector and the data, by the number of the local id. *)
Definition starts : Type := gmap Z (ConnectorId * PendingStart.t).

Definition in_u64 (n : Z) : Prop := 0 <= n <= u64_max.

(** The transaction of a connector was begun there, and its id is of the side that knows it. *)
Definition fits (B : starts) (i : ConnectorId) (x : TransactionState.t) : Prop :=
  match x with
  | TransactionState.Idle => True
  | TransactionState.PendingStart p =>
      exists k, PendingStart.tx_id p = TxId.Local k /\ B !! k = Some (i, p)
  | TransactionState.Active x => TxId.is_local (ActiveTransaction.tx_id x) = false
  | TransactionState.Stopping x => TxId.is_local (StoppingTransaction.tx_id x) = false
  end.

(** The register, and what a running transaction has recorded of it. *)
Definition register_ok (c : ConnectorSnapshot.t) : Prop :=
  in_u64 (ConnectorSnapshot.meter_wh c) /\
  match ConnectorSnapshot.transaction c with
  | TransactionState.PendingStart p =>
      0 <= PendingStart.meter_start_wh p <= ConnectorSnapshot.meter_wh c
  | TransactionState.Active x =>
      0 <= ActiveTransaction.meter_start_wh x <= ConnectorSnapshot.meter_wh c
  | _ => True
  end.

(** An entry whose start is still to be delivered says what was begun. *)
Definition queued_ok (B : starts) (e : OfflineTx.t) : Prop :=
  OfflineTx.start_pending e = true ->
  exists p, B !! OfflineTx.key e = Some (OfflineTx.connector e, p)
    /\ OfflineTx.tx_id e = TxId.Local (OfflineTx.key e)
    /\ OfflineTx.id_tag e = PendingStart.id_tag p
    /\ OfflineTx.started_at e = PendingStart.started_at p
    /\ OfflineTx.meter_start_wh e = PendingStart.meter_start_wh p.

Definition is_sync (k : Continuation) : bool :=
  match k with SyncStart _ | SyncStop _ => true | _ => false end.

(** What the delivery of the queue is doing while an operation runs: [sync_ok] says what each of
    them means. *)
Inductive hand : Type :=
| Rest
| Holding (k : Continuation) (n : Z)
| Between (n : Z)
| Within (strict : bool) (n : Z)
| Down.

Definition settled (h : hand) : bool :=
  match h with Between _ | Within _ _ => false | _ => true end.

Section invariant.
Context {J : SerdeJson} {P : Pki} {C : Chrono} {W : Wire} {U : UrlParser}.

(** What a closure has captured is what was begun; the entry of a [SyncStart] still waits. *)
Definition carried (B : starts) (a : t) (k : Continuation) : Prop :=
  match k with
  | StartDone id local pending _ => exists k, local = TxId.Local k /\ B !! k = Some (id, pending)
  | SyncStart key =>
      key <= next_local a /\
      forall e, e ∈ queue a -> OfflineTx.key e = key -> OfflineTx.start_pending e = true
  | _ => True
  end.

(** No CALL of the delivery of the queue is in flight; at most one is; exactly one is. *)
Definition none_syncing (a : t) : Prop :=
  forall tok p, calls a !! tok = Some p -> is_sync (continuation p) = false.
Definition lone_syncing (a : t) : Prop :=
  forall tok p tok' p', calls a !! tok = Some p -> is_sync (continuation p) = true ->
    calls a !! tok' = Some p' -> is_sync (continuation p') = true -> tok' = tok.
Definition one_syncing (a : t) : Prop :=
  exists tok p, calls a !! tok = Some p /\ is_sync (continuation p) = true /\
    forall tok' p', calls a !! tok' = Some p' -> is_sync (continuation p') = true -> tok' = tok.

(** What is in flight for the delivery is a [StopTransaction]. *)
Definition only_stops (a : t) : Prop :=
  forall tok p, calls a !! tok = Some p -> is_sync (continuation p) = true ->
    exists key, continuation p = SyncStop key.

(** [Rest]: the delivery is at rest, or one CALL of it is in flight and [sync_keys] are the
    entries behind it. [Within]: moreover at most [n] entries are left (one more if a stop is in
    flight and not [strict]). [Holding]: the closure of the CALL of the delivery is about to run
    and no other is in flight; [n] entries are left, or the delivery is over because the link
    went down. [Between]: [n] entries are left, and none is under way. [Down]: the link has just
    gone down. *)
Definition resting (a : t) : Prop :=
  (none_syncing a /\ sync_outstanding a = 0 /\ sync_keys a = []) \/
  (one_syncing a /\ sync_outstanding a = 1 + len (sync_keys a)).
Definition sync_ok (h : hand) (a : t) : Prop :=
  match h with
  | Rest => resting a
  | Within strict n =>
      resting a /\
      (sync_outstanding a <= n \/
       (strict = false /\ sync_outstanding a <= n + 1 /\ only_stops a))
  | Holding _ n =>
      none_syncing a /\ 1 <= n /\
      ((sync_outstanding a = n /\ n = 1 + len (sync_keys a)) \/
       (sync_outstanding a = 0 /\ sync_keys a = [] /\ connected a = false))
  | Between n => none_syncing a /\ sync_outstanding a = n
  | Down => lone_syncing a /\ connected a = false
  end.

Record ok (h : hand) (B : starts) (a : t) : Prop := mk_ok {
  ok_starts : forall k i p, B !! k = Some (i, p) ->
    k <= next_local a /\ PendingStart.tx_id p = TxId.Local k;
  ok_at : forall i c, find_connector a i = Some c ->
    fits B i (ConnectorSnapshot.transaction c) /\ register_ok c;
  ok_queue : forall e, e ∈ queue a -> OfflineTx.key e <= next_local a /\ queued_ok B e;
  ok_keys : NoDup (OfflineQueue.keys (queue a));
  ok_calls : forall tok p, calls a !! tok = Some p ->
    tok < next_call_token a /\ carried B a (continuation p);
  ok_hand : forall k n, h = Holding k n -> carried B a k;
  ok_samples : forall tok, tok ∈ sample_calls a ->
    tok < next_call_token a /\
    forall p, calls a !! tok = Some p -> is_sync (continuation p) = false;
  ok_sync : sync_ok h a;
}.

Definition tx_of (o : option ConnectorSnapshot.t) : TransactionState.t :=
  match o with Some c => ConnectorSnapshot.transaction c | None => TransactionState.Idle end.

(** A connector is never lost, its transaction lives, its register does not run backwards. *)
Definition evolved (o o' : option ConnectorSnapshot.t) : Prop :=
  rtc life (tx_of o) (tx_of o') /\
  forall c, o = Some c ->
    exists c', o' = Some c' /\ ConnectorSnapshot.meter_wh c <= ConnectorSnapshot.meter_wh c'.

#[export] Instance evolved_preorder : PreOrder evolved.
Proof.
  split; [intros o; split; [done|intros c ->; eauto with lia]|].
  intros o1 o2 o3 [L1 M1] [L2 M2]. split; [by etransitivity|].
  intros c Hc. destruct (M1 c Hc) as (c2 & Hc2 & Hm). destruct (M2 c2 Hc2) as (c3 & Hc3 & Hm').
  exists c3. split; [done|lia].
Qed.

(** Keys of new entries are new. *)
Definition new_keys (a b : t) : Prop :=
  next_local a <= next_local b /\
  forall e, e ∈ queue b ->
    OfflineTx.key e ∈ OfflineQueue.keys (queue a) \/ next_local a < OfflineTx.key e.

Record grown (h : hand) (B : starts) (a b : t) : Prop := mk_grown {
  grown_ok : exists B', B ⊆ B' /\ ok h B' b;
  grown_at : forall i, evolved (find_connector a i) (find_connector b i);
  grown_keys : new_keys a b;
}.
(** [D]: starts that are known to have been begun. *)
Definition grows (D : starts) (h h' : hand) (a b : t) : Prop :=
  forall B, D ⊆ B -> ok h B a -> grown h' B a b.

(** ** Composing *)

Lemma new_keys_refl a : new_keys a a.
Proof. split; [done|]. intros e He. left. by apply list_elem_of_fmap_2. Qed.
Lemma new_keys_trans a b c : new_keys a b -> new_keys b c -> new_keys a c.
Proof.
  intros [N1 K1] [N2 K2]. split; [lia|]. intros e He.
  destruct (K2 e He) as [(e' & -> & He')%list_elem_of_fmap|Hlt]; [by apply K1|right; lia].
Qed.

Lemma grows_refl D h a : grows D h h a a.
Proof. intros B _ Hok. split; [by exists B|done|apply new_keys_refl]. Qed.

Lemma grown_trans h h' B B' a b c :
  ok h B' b -> B ⊆ B' -> (forall i, evolved (find_connector a i) (find_connector b i)) ->
  new_keys a b -> grows B' h h' b c -> grown h' B a c.
Proof.
  intros Hb HB Ha Hk Hc. destruct (Hc B' (reflexivity _) Hb) as [(B'' & HB' & Hok) Hat Hks].
  split; [exists B''; split; [by etransitivity|done]| |by eapply new_keys_trans].
  intros i. etransitivity; [apply Ha|apply Hat].
Qed.

Lemma grows_sub D D' h h' a b : D ⊆ D' -> grows D h h' a b -> grows D' h h' a b.
Proof. intros HD Hg B HB. apply Hg. by etransitivity. Qed.
Lemma grows_any D h h' a b : grows ∅ h h' a b -> grows D h h' a b.
Proof. apply grows_sub, map_empty_subseteq. Qed.

Lemma grows_trans D h h' h'' a b c :
  grows D h h' a b -> grows D h' h'' b c -> grows D h h'' a c.
Proof.
  intros Hab Hbc B HB Hok. destruct (Hab B HB Hok) as [(B' & HB' & Hb) Hat Hk].
  apply (grown_trans h' h'' B B' a b c); try done. apply (grows_sub D); [by etransitivity|done].
Qed.

(** What the invariant says of the first state may be used. *)
Lemma grows_intro D h h' a b :
  (forall B, D ⊆ B -> ok h B a -> grows B h h' a b) -> grows D h h' a b.
Proof. intros Hg B HB Hok. by apply (Hg B HB Hok B). Qed.

(** ** Changes that concern none of this *)

Definition same_rest (a b : t) : Prop :=
  calls b = calls a /\ next_call_token b = next_call_token a /\ sample_calls b = sample_calls a
  /\ queue b = queue a /\ next_local b = next_local a /\ sync_outstanding b = sync_outstanding a
  /\ sync_keys b = sync_keys a /\ connected b = connected a.

(** Only connectors change, each into one that fits. *)
Definition turns (B : starts) (i : ConnectorId) (o o' : option ConnectorSnapshot.t) : Prop :=
  (forall c', o' = Some c' -> fits B i (ConnectorSnapshot.transaction c') /\ register_ok c') /\
  evolved o o'.

Lemma grows_turns D h (a b : t) :
  same_rest a b ->
  (forall B i, D ⊆ B -> ok h B a -> turns B i (find_connector a i) (find_connector b i)) ->
  grows D h h a b.
Proof.
  intros (Hc & Hn & Hs & Hq & Hl & Ho & Hk & Hd) Ht B HB Hok.
  split; [exists B; split; [done|]| |].
  - destruct Hok as [H1 H2 H3 H4 H5 H6 H7 H8].
    assert (Hcar : forall k, carried B b k <-> carried B a k).
    { intros []; simpl; try done. by rewrite Hq, Hl. }
    split.
    + intros k i p. rewrite Hl. apply H1.
    + intros i c Hi. by apply (Ht B i HB).
    + intros e. rewrite Hq, Hl. apply H3.
    + by rewrite Hq.
    + intros tok p. rewrite Hc, Hn, Hcar. apply H5.
    + intros k n Hh. by eapply Hcar, H6.
    + intros tok. rewrite Hs, Hc, Hn. apply H7.
    + revert H8. unfold sync_ok, resting, only_stops, none_syncing, lone_syncing, one_syncing. by rewrite Hc, Ho, Hk, Hd.
  - intros i. by apply (Ht B i HB).
  - split; [by rewrite Hl|]. rewrite Hq. apply new_keys_refl.
Qed.

Lemma grows_same D h (a b : t) :
  same_rest a b -> (forall i, find_connector b i = find_connector a i) -> grows D h h a b.
Proof.
  intros Hr Hf. apply grows_turns; [done|]. intros B i _ Hok. rewrite Hf.
  split; [|reflexivity]. intros c. apply (ok_at _ _ _ Hok).
Qed.

Lemma grows_emit D h (a : t) e : grows D h h a (emit a e).
Proof. by apply grows_same. Qed.

Lemma grows_log D h (a : t) l : grows D h h a (log a l).
Proof. apply grows_emit. Qed.
Lemma grows_send_reply D h (a : t) r ans : grows D h h a (send_reply a r ans).
Proof. apply grows_emit. Qed.
Lemma grows_send_reply_opt D h (a : t) r ans : grows D h h a (send_reply_opt a r ans).
Proof. destruct r; [apply grows_emit|apply grows_refl]. Qed.
Lemma grows_respond D h (a : t) handle r : grows D h h a (respond a handle r).
Proof. apply grows_emit. Qed.
Lemma grows_respond_error D h (a : t) handle code : grows D h h a (respond_error a handle code).
Proof. apply grows_emit. Qed.

Lemma grows_fold {A} (f : t -> A -> t) l D h (a : t) :
  (forall a i, grows D h h a (f a i)) -> grows D h h a (fold_left f l a).
Proof.
  intros Hf. revert a. induction l as [|i l IH]; intros a; simpl; [apply grows_refl|].
  eapply grows_trans; [apply Hf|apply IH].
Qed.
Lemma grows_fold_pair {A X} (f : t * X -> A -> t * X) l D h acc :
  (forall acc i, grows D h h acc.1 (f acc i).1) -> grows D h h acc.1 (fold_left f l acc).1.
Proof.
  intros Hf. revert acc. induction l as [|i l IH]; intros acc; simpl; [apply grows_refl|].
  eapply grows_trans; [apply Hf|apply IH].
Qed.

(** ** Changes of connectors *)

Lemma find_update (l : list ConnectorSnapshot.t) (f : ConnectorSnapshot.t -> ConnectorSnapshot.t)
    (i j : ConnectorId) :
  (forall c, ConnectorSnapshot.id (f c) = ConnectorSnapshot.id c) ->
  find_first (fun c => ConnectorSnapshot.id c =? j) (update_first (fun c => ConnectorSnapshot.id c =? i) f l)
  = (if j =? i then f <$> find_first (fun c => ConnectorSnapshot.id c =? j) l
     else find_first (fun c => ConnectorSnapshot.id c =? j) l).
Proof.
  intros Hf. induction l as [|c l IH]; simpl; [by case_match|].
  destruct (Z.eqb_spec (ConnectorSnapshot.id c) i) as [Ei|Ei]; simpl.
  - rewrite Hf. destruct (Z.eqb_spec j i) as [->|Hj].
    + by rewrite Ei, Z.eqb_refl.
    + destruct (Z.eqb_spec (ConnectorSnapshot.id c) j); [congruence|done].
  - destruct (Z.eqb_spec (ConnectorSnapshot.id c) j) as [Ej|Ej]; [|exact IH].
    destruct (Z.eqb_spec j i); [congruence|done].
Qed.

Lemma find_modify (a : t) (i j : ConnectorId) f :
  (forall c, ConnectorSnapshot.id (f c) = ConnectorSnapshot.id c) ->
  find_connector (modify_connector a i f) j
  = (if j =? i then f <$> find_connector a j else find_connector a j).
Proof.
  intros Hf. unfold find_connector, modify_connector, is_station, connectors.
  destruct (Z.eqb_spec i 0) as [->|Ei]; destruct (Z.eqb_spec j 0) as [->|Ej]; try done.
  - destruct (Z.eqb_spec 0 i); [congruence|done].
  - by apply find_update.
Qed.

Lemma same_rest_modify (a : t) i f : same_rest a (modify_connector a i f).
Proof. unfold modify_connector. by case_match. Qed.

(** One connector changes into one that fits. *)
Lemma grows_modify D h (a : t) i f :
  (forall c, ConnectorSnapshot.id (f c) = ConnectorSnapshot.id c) ->
  (forall B c, D ⊆ B -> ok h B a -> find_connector a i = Some c ->
     fits B i (ConnectorSnapshot.transaction (f c)) /\ register_ok (f c) /\
     rtc life (ConnectorSnapshot.transaction c) (ConnectorSnapshot.transaction (f c)) /\
     ConnectorSnapshot.meter_wh c <= ConnectorSnapshot.meter_wh (f c)) ->
  grows D h h a (modify_connector a i f).
Proof.
  intros Hi Hf. apply grows_turns; [apply same_rest_modify|]. intros B j HB Hok.
  rewrite find_modify by done. destruct (Z.eqb_spec j i) as [->|Hj].
  - destruct (find_connector a i) as [c|] eqn:E; [|by split].
    destruct (Hf B c HB Hok eq_refl) as (H1 & H2 & H3 & H4).
    split; [by intros ? [= <-]|]. split; [done|]. intros ? [= <-]. eauto.
  - split; [|reflexivity]. intros c Hc. by apply (ok_at _ _ _ Hok).
Qed.

(** The transaction stays or ends, the register stays. *)
Definition plain_change (c c' : ConnectorSnapshot.t) : Prop :=
  ConnectorSnapshot.id c' = ConnectorSnapshot.id c /\
  ConnectorSnapshot.meter_wh c' = ConnectorSnapshot.meter_wh c /\
  (ConnectorSnapshot.transaction c' = ConnectorSnapshot.transaction c \/
   ConnectorSnapshot.transaction c' = TransactionState.Idle).

Lemma grows_plain D h (a : t) i f :
  (forall c, plain_change c (f c)) -> grows D h h a (modify_connector a i f).
Proof.
  intros Hf. apply grows_modify; [by intros c; destruct (Hf c)|].
  intros B c _ Hok Hc. destruct (Hf c) as (_ & Hm & Ht).
  destruct (ok_at _ _ _ Hok i c Hc) as [H1 [H2 H3]]. unfold register_ok. rewrite Hm.
  destruct Ht as [Ht|Ht]; rewrite Ht; split_and!; try done. apply rtc_once, life_end.
Qed.

(** A connector that keeps its transaction, and whose register does not run backwards; a new
    one is idle. *)
Definition stays (c c' : ConnectorSnapshot.t) : Prop :=
  ConnectorSnapshot.id c' = ConnectorSnapshot.id c /\
  ConnectorSnapshot.transaction c' = ConnectorSnapshot.transaction c /\
  (in_u64 (ConnectorSnapshot.meter_wh c) ->
   ConnectorSnapshot.meter_wh c <= ConnectorSnapshot.meter_wh c' <= u64_max).
Definition stays_at (o o' : option ConnectorSnapshot.t) : Prop :=
  match o, o' with
  | Some c, Some c' => stays c c'
  | None, Some c' => ConnectorSnapshot.transaction c' = TransactionState.Idle
                     /\ in_u64 (ConnectorSnapshot.meter_wh c')
  | None, None => True
  | Some _, None => False
  end.

Lemma stays_refl c : stays c c.
Proof. unfold stays, in_u64. split_and!; [done..|]. intros. lia. Qed.
Lemma find_stays (l l' : list ConnectorSnapshot.t) (i : ConnectorId) :
  Forall2 stays l l' ->
  stays_at (find_first (fun c => ConnectorSnapshot.id c =? i) l)
           (find_first (fun c => ConnectorSnapshot.id c =? i) l').
Proof.
  induction 1 as [|c c' l l' Hc _ IH]; simpl; [done|]. rewrite (proj1 Hc). by case_match.
Qed.

Lemma turns_stays h B (a : t) i o o' :
  ok h B a -> find_connector a i = o -> stays_at o o' -> turns B i o o'.
Proof.
  intros Hok Hi Hs. destruct o as [c|], o' as [c'|]; try done; simpl in Hs.
  - destruct (ok_at _ _ _ Hok i c Hi) as [Hf [Hm Hr]]. destruct Hs as (_ & Ht & Hmono).
    specialize (Hmono Hm). unfold turns, register_ok, in_u64 in *. split; [|split].
    + intros ? [= <-]. rewrite Ht. split; [done|]. split; [lia|].
      destruct (ConnectorSnapshot.transaction c); done || lia.
    + simpl. by rewrite Ht.
    + intros ? [= <-]. exists c'. split; [done|lia].
  - destruct Hs as [Ht Hm]. split; [|split]; simpl.
    + intros ? [= <-]. unfold register_ok. by rewrite Ht.
    + by rewrite Ht.
    + done.
Qed.

Lemma grows_connectors D h (a : t) l :
  (forall i, stays_at (find_first (fun c => ConnectorSnapshot.id c =? i) (connectors a))
                      (find_first (fun c => ConnectorSnapshot.id c =? i) l)) ->
  grows D h h a (set_connectors a l).
Proof.
  intros Hl. apply grows_turns; [done|]. intros B i _ Hok.
  apply (turns_stays h B a i); [done..|]. unfold find_connector.
  destruct (is_station i); [apply stays_refl|apply Hl].
Qed.

(** ** CALLs *)

(** Everything but the calls is as before. *)
Lemma hand_over_calls (a : t) o name body v k :
  let b := hand_over a o name body v k in
  calls b = <[next_call_token a := mk_call name k]> (calls a) /\
  next_call_token b = next_call_token a + 1 /\ sample_calls b = sample_calls a /\
  queue b = queue a /\ next_local b = next_local a /\ sync_outstanding b = sync_outstanding a /\
  sync_keys b = sync_keys a /\ connected b = connected a /\
  forall i, find_connector b i = find_connector a i.
Proof. unfold hand_over. by case_match. Qed.

(** The parts of the invariant that do not concern the delivery of the queue. *)
Lemma ok_hand_over h h' B (a : t) o name body v k :
  ok h B a -> carried B a k ->
  (forall k n, h' = Holding k n -> h = h') ->
  sync_ok h' (hand_over a o name body v k) -> ok h' B (hand_over a o name body v k).
Proof.
  intros Hok Hk Hh Hsync. destruct (hand_over_calls a o name body v k)
    as (Hc & Hn & Hs & Hq & Hl & Ho & Hks & Hd & Hf).
  generalize dependent (hand_over a o name body v k). intros b Hsync Hc Hn Hs Hq Hl Ho Hks Hd Hf.
  destruct Hok as [H1 H2 H3 H4 H5 H6 H7 H8].
  assert (Hcar : forall k, carried B b k <-> carried B a k).
  { intros []; simpl; try done. by rewrite Hq, Hl. }
  split; try done.
  - intros k' i p. rewrite Hl. apply H1.
  - intros i c. rewrite Hf. apply H2.
  - intros e. rewrite Hq, Hl. apply H3.
  - by rewrite Hq.
  - intros tok p. rewrite Hc, Hn, Hcar. intros [[<- <-]|[_ Hp]]%lookup_insert_Some.
    + split; [lia|done].
    + destruct (H5 tok p Hp). split; [lia|done].
  - intros key n Hkey. apply Hcar. rewrite <- (Hh key n Hkey) in Hkey. by eapply H6.
  - intros tok Htok. rewrite Hs in Htok. rewrite Hc, Hn. destruct (H7 tok Htok) as [Hlt Hun].
    split; [lia|]. intros p [[<- _]|[_ Hp]]%lookup_insert_Some; [lia|by apply Hun].
Qed.

(** A CALL that is not of the delivery. *)
Lemma sync_hand_over h (a : t) o name body v k B :
  ok h B a -> is_sync k = false -> sync_ok h (hand_over a o name body v k).
Proof.
  intros Hok Hk. pose proof (ok_sync _ _ _ Hok) as Hsync.
  assert (Hfresh : forall tok p, calls a !! tok = Some p -> tok < next_call_token a)
    by (intros tok p; apply (ok_calls _ _ _ Hok)).
  destruct (hand_over_calls a o name body v k) as (Hc & Hn & Hs & Hq & Hl & Ho & Hks & Hd & _).
  generalize dependent (hand_over a o name body v k). intros b Hc Hn Hs Hq Hl Ho Hks Hd.
  assert (Hnone : none_syncing a -> none_syncing b).
  { intros Hna tok p. rewrite Hc. intros [[_ <-]|[_ Hp]]%lookup_insert_Some; [done|by apply (Hna tok)]. }
  assert (Hone : one_syncing a -> one_syncing b).
  { intros (tok & p & Hp & Hsp & Huniq). exists tok, p. rewrite Hc.
    split; [rewrite lookup_insert_ne; [done|]; apply Hfresh in Hp; lia|]. split; [done|].
    intros tok' p' [[_ <-]|[_ Hp']]%lookup_insert_Some Hsp'; [simpl in Hsp'; congruence|].
    by apply (Huniq tok' p'). }
  assert (Hlone : lone_syncing a -> lone_syncing b).
  { intros Hla tok p tok' p'. rewrite Hc. intros [[_ <-]|[_ Hp]]%lookup_insert_Some Hsp;
      [simpl in Hsp; congruence|]. intros [[_ <-]|[_ Hp']]%lookup_insert_Some Hsp';
      [simpl in Hsp'; congruence|]. by apply (Hla tok p tok' p'). }
  assert (Hstops : only_stops a -> only_stops b).
  { intros Hsa tok p. rewrite Hc. intros [[_ <-]|[_ Hp]]%lookup_insert_Some Hsp;
      [simpl in Hsp; congruence|by apply (Hsa tok p)]. }
  unfold sync_ok, resting in *. rewrite Ho, Hks, Hd. destruct h; naive_solver.
Qed.

Lemma grows_hand_over D h (a : t) o name body v k :
  is_sync k = false -> (forall B, D ⊆ B -> ok h B a -> carried B a k) ->
  grows D h h a (hand_over a o name body v k).
Proof.
  intros Hk Hcar B HB Hok.
  destruct (hand_over_calls a o name body v k) as (_ & _ & _ & Hq & Hl & _ & _ & _ & Hf).
  split; [exists B; split; [done|]| |].
  - apply (ok_hand_over h); auto. by apply (sync_hand_over h _ _ _ _ _ _ B).
  - intros i. by rewrite Hf.
  - split; [by rewrite Hl|]. rewrite Hq. apply new_keys_refl.
Qed.

(** The closures that carry nothing of this. *)
Definition plain (k : Continuation) : bool :=
  match k with StartDone _ _ _ _ | SyncStart _ | SyncStop _ => false | _ => true end.

Lemma grows_call_raw D h (a : t) o name body v k fail :
  plain k = true -> (forall a e, grows D h h a (fail a e)) ->
  grows D h h a (call_raw a o name body v k fail).
Proof.
  intros Hk Hf. unfold call_raw. case_match; [apply Hf|]. case_match; [|apply Hf].
  apply grows_hand_over; [by destruct k|]. intros B _ _. by destruct k.
Qed.
Lemma grows_call D h (a : t) o request k fail :
  plain k = true -> (forall a e, grows D h h a (fail a e)) -> grows D h h a (call a o request k fail).
Proof. intros Hk Hf. unfold call. case_match; [by apply grows_call_raw|apply Hf]. Qed.

(** A CALL of the delivery, for the entry at its front. *)
Lemma one_syncing_hand_over (a : t) o name body v k :
  none_syncing a -> is_sync k = true -> one_syncing (hand_over a o name body v k).
Proof.
  intros Hna Hk. destruct (hand_over_calls a o name body v k) as (Hc & _).
  exists (next_call_token a), (mk_call name k). rewrite Hc, lookup_insert_eq.
  split_and!; [done..|]. intros tok p [[<- _]|[_ Hp]]%lookup_insert_Some; [done|].
  intros Hsp. by rewrite (Hna tok p Hp) in Hsp.
Qed.

(** ** The queue *)

Definition same_but_queue (a b : t) : Prop :=
  calls b = calls a /\ next_call_token b = next_call_token a /\ sample_calls b = sample_calls a
  /\ sync_outstanding b = sync_outstanding a /\ sync_keys b = sync_keys a
  /\ connected b = connected a /\ forall i, find_connector b i = find_connector a i.

(** An entry of the queue is an old one (up to what the invariant does not look at), or one
    under a new key, or one whose start waits. *)
Definition entry_from (B : starts) (a b : t) (e : OfflineTx.t) : Prop :=
  (exists e', e' ∈ queue a /\ OfflineTx.key e = OfflineTx.key e' /\
     OfflineTx.start_pending e = OfflineTx.start_pending e' /\ (queued_ok B e' -> queued_ok B e)) \/
  (OfflineTx.key e <= next_local b /\ queued_ok B e /\
   (OfflineTx.start_pending e = true \/ next_local a < OfflineTx.key e)).

Lemma ok_queue_change h B (a b : t) :
  same_but_queue a b -> next_local a <= next_local b ->
  (forall e, e ∈ queue b -> entry_from B a b e) -> NoDup (OfflineQueue.keys (queue b)) ->
  ok h B a -> ok h B b.
Proof.
  intros (Hc & Hn & Hs & Ho & Hk & Hd & Hf) Hl He Hnd [H1 H2 H3 H4 H5 H6 H7 H8].
  assert (Hcar : forall k, carried B a k -> carried B b k).
  { intros []; simpl; try done. intros [Hle Hpend]. split; [lia|]. intros e Hin Hkey.
    destruct (He e Hin) as [(e' & He' & Hk' & Hp' & _)|(_ & _ & [Hp|Hlt])]; [|done|lia].
    rewrite Hp'. apply Hpend; congruence. }
  split; try done.
  - intros k i p HB. destruct (H1 k i p HB). split; [lia|done].
  - intros i c. rewrite Hf. apply H2.
  - intros e Hin. destruct (He e Hin) as [(e' & He' & Hk' & _ & Hq)|(Hle & Hq & _)]; [|done].
    destruct (H3 e' He') as [Hle Hq']. rewrite Hk'. split; [lia|auto].
  - intros tok p. rewrite Hc, Hn. intros Hp. destruct (H5 tok p Hp). auto.
  - intros k n Hkn. by eapply Hcar, H6.
  - intros tok. rewrite Hs, Hc, Hn. apply H7.
  - revert H8. unfold sync_ok, resting, only_stops, none_syncing, lone_syncing, one_syncing. by rewrite Hc, Ho, Hk, Hd.
Qed.

Lemma entry_from_old B a b e : e ∈ queue a -> entry_from B a b e.
Proof. intros He. left. by exists e. Qed.

Lemma evolved_same (a b : t) :
  (forall i, find_connector b i = find_connector a i) ->
  forall i, evolved (find_connector a i) (find_connector b i).
Proof. intros Hf i. by rewrite Hf. Qed.

(** Entries leave the queue. *)
Lemma grows_shrink D h (a : t) (f : OfflineQueue.t -> OfflineQueue.t) :
  sublist (f (queue a)) (queue a) -> grows D h h a (a <| queue ::= f |>).
Proof.
  intros Hf B HB Hok. assert (Hin : forall e, e ∈ f (queue a) -> e ∈ queue a).
  { intros e He. eapply elem_of_sublist; [exact He|apply Hf]. }
  split; [exists B; split; [done|]| |].
  - apply (ok_queue_change h B a); try done; [intros e He; by apply entry_from_old, Hin|].
    eapply sublist_NoDup; [apply (ok_keys _ _ _ Hok)|]. apply (fmap_sublist OfflineTx.key), Hf.
  - by apply evolved_same.
  - split; [done|]. intros e He. left. by apply list_elem_of_fmap_2, Hin.
Qed.

Lemma remove_sublist q k : sublist (OfflineQueue.remove q k).1 q.
Proof. unfold OfflineQueue.remove. case_match; simpl; [apply remove_at_sublist|done]. Qed.
Lemma push_sublist q e : sublist (OfflineQueue.push q e).1 (q ++ [e]).
Proof. unfold OfflineQueue.push. cbv zeta. case_match; simpl; [done|apply remove_at_sublist]. Qed.

(** One entry is changed; its key, and whether its start waits, stay. *)
Lemma update_first_keys (p : OfflineTx.t -> bool) f q :
  (forall e, OfflineTx.key (f e) = OfflineTx.key e) ->
  OfflineQueue.keys (update_first p f q) = OfflineQueue.keys q.
Proof.
  intros Hf. induction q as [|e q IH]; [done|]. simpl.
  case_match; simpl; [by rewrite Hf|by rewrite IH].
Qed.
Lemma update_first_elem {A} (p : A -> bool) f q x :
  x ∈ update_first p f q -> x ∈ q \/ exists y, y ∈ q /\ x = f y.
Proof.
  induction q as [|y q IH]; simpl; [by left|]. case_match; intros [->|Hx]%elem_of_cons.
  - right. exists y. split; [by left|done].
  - left. by right.
  - left. by left.
  - destruct (IH Hx) as [?|(z & ? & ?)]; [left; by right|right; exists z; split; [by right|done]].
Qed.
Lemma grows_update D h (a : t) (p : OfflineTx.t -> bool) f :
  (forall e, OfflineTx.key (f e) = OfflineTx.key e) ->
  (forall e, OfflineTx.start_pending (f e) = OfflineTx.start_pending e) ->
  (forall B e, queued_ok B e -> queued_ok B (f e)) ->
  grows D h h a (a <| queue ::= fun q => update_first p f q |>).
Proof.
  intros Hk Hp Hq B HB Hok. split; [exists B; split; [done|]| |].
  - apply (ok_queue_change h B a); try done; simpl.
    + intros e [He|(e' & He' & ->)]%update_first_elem; [by apply entry_from_old|].
      left. exists e'. auto.
    + rewrite update_first_keys by done. apply (ok_keys _ _ _ Hok).
  - by apply evolved_same.
  - split; [done|]. simpl. intros e He. left.
    apply (list_elem_of_fmap_2 OfflineTx.key) in He. change (OfflineTx.key e ∈ OfflineQueue.keys (update_first p f (queue a))) in He.
    by rewrite update_first_keys in He by done.
Qed.

(** An entry is pushed, under a key that was drawn when the next one was [n]. *)
Lemma same_but_queue_push (a b : t) e : same_but_queue a b -> same_but_queue a (push_queue b e).
Proof. unfold push_queue. by destruct (OfflineQueue.push _ _) as [q [d|]]. Qed.
Lemma push_queue_queue (a : t) e : queue (push_queue a e) = (OfflineQueue.push (queue a) e).1.
Proof. unfold push_queue. destruct (OfflineQueue.push _ _) as [q [d|]]; done. Qed.
Lemma push_queue_local (a : t) e : next_local (push_queue a e) = next_local a.
Proof. unfold push_queue. by destruct (OfflineQueue.push _ _) as [q [d|]]. Qed.

Lemma push_elem q e e' : e' ∈ (OfflineQueue.push q e).1 -> e' ∈ q \/ e' = e.
Proof.
  intros Hin. eapply elem_of_sublist in Hin; [|apply push_sublist].
  apply elem_of_app in Hin as [?|Hin%list_elem_of_singleton]; auto.
Qed.

Lemma ok_push h B (a b : t) e :
  same_but_queue a b -> queue b = queue a -> next_local a <= next_local b ->
  OfflineTx.key e <= next_local b -> OfflineTx.key e ∉ OfflineQueue.keys (queue a) ->
  queued_ok B e -> (OfflineTx.start_pending e = true \/ next_local a < OfflineTx.key e) ->
  ok h B a -> ok h B (push_queue b e).
Proof.
  intros Hs Hq Hl Hk Hfresh He Hp Hok.
  apply (ok_queue_change h B a); [by apply same_but_queue_push|by rewrite push_queue_local| | |done].
  - intros e'. rewrite push_queue_queue, Hq. intros [He'| ->]%push_elem; [by apply entry_from_old|].
    right. by rewrite push_queue_local.
  - rewrite push_queue_queue, Hq. eapply sublist_NoDup; [|apply (fmap_sublist OfflineTx.key), push_sublist].
    rewrite fmap_app. apply NoDup_app. split_and!; [apply (ok_keys _ _ _ Hok)| |apply NoDup_singleton].
    intros x Hx ->%list_elem_of_singleton. by apply Hfresh.
Qed.

Lemma drawn_fresh h B (a : t) k :
  ok h B a -> next_local a < k -> k ∉ OfflineQueue.keys (queue a).
Proof.
  intros Hok Hlt (e & -> & He)%list_elem_of_fmap. apply (ok_queue _ _ _ Hok) in He as [? _]. lia.
Qed.

Lemma same_but_queue_next_key (a : t) : same_but_queue a (next_key a).1.
Proof. done. Qed.
Lemma grows_next_key D h (a : t) : grows D h h a (next_key a).1.
Proof.
  intros B HB Hok. split; [exists B; split; [done|]| |].
  - apply (ok_queue_change h B a); try done; [simpl; lia| |apply (ok_keys _ _ _ Hok)].
    intros e He. by apply entry_from_old.
  - by apply evolved_same.
  - split; [simpl; lia|]. intros e He. left. by apply list_elem_of_fmap_2.
Qed.

Lemma grows_queue_stop D h (a : t) id tx tag at_ m info :
  grows D h h a (queue_stop a id tx tag at_ m info).1.
Proof.
  unfold queue_stop. case_match; simpl; [by apply grows_update|].
  intros B HB Hok. split; [exists B; split; [done|]| |].
  - apply (ok_push h B a); try done; simpl; try lia. apply (drawn_fresh h B); [done|lia].
  - apply evolved_same. intros i. by apply (same_but_queue_push a).
  - split; [rewrite push_queue_local; simpl; lia|]. intros e. rewrite push_queue_queue.
    intros [He| ->]%push_elem; [left; by apply list_elem_of_fmap_2|right; simpl; lia].
Qed.
(** ** The delivery of the queue *)

Definition same_but_sync (a b : t) : Prop :=
  calls b = calls a /\ next_call_token b = next_call_token a /\ sample_calls b = sample_calls a
  /\ queue b = queue a /\ next_local b = next_local a
  /\ forall i, find_connector b i = find_connector a i.

Lemma grows_sync_change D h h' (a b : t) :
  same_but_sync a b ->
  (forall B k n, ok h B a -> h' = Holding k n -> carried B a k) ->
  (forall B, ok h B a -> sync_ok h' b) -> grows D h h' a b.
Proof.
  intros (Hc & Hn & Hs & Hq & Hl & Hf) Hh Hsync B HB Hok.
  assert (Hcar : forall k, carried B b k <-> carried B a k).
  { intros []; simpl; try done. by rewrite Hq, Hl. }
  split; [exists B; split; [done|]| |].
  - pose proof (Hsync B Hok) as Hsb. pose proof (fun k n => Hh B k n Hok) as Hhb.
    destruct Hok as [H1 H2 H3 H4 H5 H6 H7 H8]. split; try done.
    + intros k i p. rewrite Hl. apply H1.
    + intros i c. rewrite Hf. apply H2.
    + intros e. rewrite Hq, Hl. apply H3.
    + by rewrite Hq.
    + intros tok p. rewrite Hc, Hn, Hcar. apply H5.
    + intros k n Hk. by eapply Hcar, Hhb.
    + intros tok. rewrite Hs, Hc, Hn. apply H7.
  - by apply evolved_same.
  - split; [by rewrite Hl|]. rewrite Hq. apply new_keys_refl.
Qed.
End invariant.

Create HintDb histories discriminated.
#[export] Hint Constants Opaque : histories.
#[export] Hint Resolve grows_refl grows_emit grows_log grows_send_reply grows_send_reply_opt
  grows_respond grows_respond_error grows_call grows_call_raw grows_next_key
  grows_queue_stop : histories.
#[export] Hint Extern 0 (_ = _) => reflexivity : histories.
#[export] Hint Extern 0 (_ = _) => assumption : histories.

(** [histories] walks through the body of an operation that does not change hands. *)
Ltac histories_past E go :=
  tryif is_var E then idtac
  else
    lazymatch goal with
    | |- grows ?D ?h ?h' ?a _ =>
        let H := fresh "Hg" in
        assert (H : grows D h h a E) by go; apply (grows_trans D h h h' a E _ H);
        clear H; generalize E; intro
    end.
Ltac histories_pair E go :=
  lazymatch goal with
  | |- grows ?D ?h ?h' ?a _ =>
      let H := fresh "Hg" in
      assert (H : grows D h h a E.1) by go;
      destruct E as [? ?]; cbn [fst] in H; apply (grows_trans D h h h' a _ _ H); clear H
  end.
Ltac plain_change :=
  intros; unfold Reservations.clear_reservation; cbv zeta; repeat case_match;
  (split_and!; [reflexivity|reflexivity|first [left; reflexivity|right; reflexivity]]).
Ltac histories_leaf go :=
  lazymatch goal with
  | |- grows _ _ _ ?a ?S =>
      tryif is_var S then first [apply grows_refl | solve [eauto 6 with histories nocore]]
      else
        lazymatch S with
        | over _ _ ?b =>
            first [ apply grows_same; [split_and!; reflexivity|intros; reflexivity]
                  | apply grows_shrink, remove_sublist ]
        | fold_left _ _ _ => apply grows_fold; intros; go
        | call _ _ _ _ _ => apply grows_call; [reflexivity|intros; go]
        | call_raw _ _ _ _ _ _ _ => apply grows_call_raw; [reflexivity|intros; go]
        | modify_connector _ _ _ => apply grows_plain; plain_change
        | _ => solve [eauto 6 with histories nocore]
        end
  end.
Ltac histories := walk histories_past histories_pair histories_leaf.
End Histories.
