(* ===== verification/HistoryOps.v ===== *)
(** * HistoryOps: the operations below the link keep the histories

    Every operation of [Actor.v], [Calls.v], [Transactions.v], [Secure.v], [Sampling.v] and
    [ReservationTimers] has a lemma [grows_<operation>] ([Histories.v]). Most of them do not concern
    transactions, and the tactic [histories] walks through them; the proofs that are written out
    are those of a start, its confirmation, a stop, and the delivery of the offline queue. *)

From stdpp Require Import strings gmap.
From S2P Require Import Prelude Text F64 Time Types Messages SecurityMessages Frame Actions.
From S2P Require Import ResponseRules Config ConfigRegistry LocalAuthList Authorization.
From S2P Require Import Connector Reservation Offline Timers Metering SmartCharging.
From S2P Require Import ChargingProfiles Maintenance Security Certificates Interface Store.
From S2P Require Import Actor Calls Transactions Secure Sampling Walk Histories.
Local Open Scope Z_scope.

Module HistoryOps.
Import Actor Calls Transactions Secure Sampling ReservationTimers Histories.

(** ** Registers *)

Lemma saturating_add_bounds (m n : Z) :
  in_u64 m -> 0 <= n -> m <= u64_saturating_add m n <= u64_max.
Proof. unfold in_u64, u64_saturating_add. lia. Qed.

Lemma floor_u64_nonneg x : 0 <= floor_u64 x.
Proof. unfold floor_u64, f_to_int. destruct x as [| [] | |]; unfold u64_max; lia. Qed.

Section registers.
Context {J : SerdeJson} {P : Pki} {C : Chrono}.

Lemma flush_meter_stays ms c : stays c (flush_meter ms c).1.2.
Proof.
  unfold flush_meter. repeat case_match; cbn [fst snd]; try apply stays_refl.
  split_and!; [done..|]. intros Hm. apply saturating_add_bounds; [done|apply floor_u64_nonneg].
Qed.
Lemma flush_list_stays ms l : Forall2 stays l (flush_list ms l).1.2.
Proof.
  revert ms. induction l as [|c l IH]; intros ms; cbn [flush_list]; [constructor|].
  pose proof (flush_meter_stays ms c) as Hc. destruct (flush_meter ms c) as [[ms' c'] changed].
  pose proof (IH ms') as Hl. destruct (flush_list ms' l) as [[ms'' l'] changed'].
  by constructor.
Qed.
End registers.

Section operations.
Context {J : SerdeJson} {P : Pki} {C : Chrono} {W : Wire} {U : UrlParser}.

(** ** [actor.rs], [persistence.rs], [power.rs] *)

Lemma grows_timer_set D h (a : t) k d : grows D h h a (timer_set a k d).
Proof. unfold timer_set. histories. Qed.
#[local] Hint Resolve grows_timer_set : histories.
Lemma grows_timer_set_if_idle D h (a : t) k d : grows D h h a (timer_set_if_idle a k d).
Proof. unfold timer_set_if_idle. histories. Qed.
#[local] Hint Resolve grows_timer_set_if_idle : histories.
Lemma grows_timer_cancel D h (a : t) k : grows D h h a (timer_cancel a k).
Proof. unfold timer_cancel. histories. Qed.
#[local] Hint Resolve grows_timer_cancel : histories.
Lemma grows_timer_cancel_where D h (a : t) p : grows D h h a (timer_cancel_where a p).
Proof. unfold timer_cancel_where. histories. Qed.
#[local] Hint Resolve grows_timer_cancel_where : histories.
Lemma grows_set_registration D h (a : t) r : grows D h h a (set_registration a r).
Proof. unfold set_registration. histories. Qed.
#[local] Hint Resolve grows_set_registration : histories.
Lemma grows_set_connection D h (a : t) c : grows D h h a (set_connection a c).
Proof. unfold set_connection. histories. Qed.
#[local] Hint Resolve grows_set_connection : histories.
Lemma grows_mark_dirty D h (a : t) : grows D h h a (mark_dirty a).
Proof. unfold mark_dirty. histories. Qed.
#[local] Hint Resolve grows_mark_dirty : histories.
Lemma grows_mark_secrets_dirty D h (a : t) : grows D h h a (mark_secrets_dirty a).
Proof. unfold mark_secrets_dirty. histories. Qed.
#[local] Hint Resolve grows_mark_secrets_dirty : histories.
Lemma grows_settle_meter D h (a : t) c : grows D h h a (settle_meter a c).
Proof. unfold settle_meter. histories. Qed.
#[local] Hint Resolve grows_settle_meter : histories.
Lemma grows_settle_meters D h (a : t) : grows D h h a (settle_meters a).
Proof. unfold settle_meters. histories. Qed.
#[local] Hint Resolve grows_settle_meters : histories.
Lemma grows_flush_meters D h (a : t) : grows D h h a (flush_meters a).
Proof.
  unfold flush_meters. cbv zeta. apply (grows_trans D h h h _ (settle_meters a)); [histories|].
  generalize (settle_meters a). clear a. intros a.
  pose proof (flush_list_stays (meters a) (connectors a)) as Hs.
  destruct (flush_list (meters a) (connectors a)) as [[ms l] changed]. cbn [fst snd] in Hs.
  apply (grows_trans D h h h _ (a <| meters := ms |>)); [histories|].
  assert (Hl : connectors (a <| meters := ms |>) = connectors a) by done.
  revert Hl. generalize (a <| meters := ms |>). intros b Hl.
  apply (grows_trans D h h h _ (set_connectors b l)).
  - apply grows_connectors. intros i. rewrite Hl. by apply find_stays.
  - generalize (set_connectors b l). clear b Hl. intros b. histories.
Qed.
#[local] Hint Resolve grows_flush_meters : histories.
Lemma grows_add_reading D h advance (acc : t * MeterReading.t) id :
  grows D h h acc.1 (add_reading advance acc id).1.
Proof. destruct acc as [a reading]. unfold add_reading. cbn [fst]. histories. Qed.
Lemma grows_meter_reading D h (a : t) id advance : grows D h h a (meter_reading a id advance).1.
Proof.
  unfold meter_reading. cbv zeta. apply (grows_trans _ _ _ _ _ _ _ (grows_flush_meters D h a)).
  match goal with |- grows _ _ _ ?b (fold_left ?f ?l (_, ?m)).1 =>
    apply (grows_fold_pair f l D h (b, m)) end.
  intros. apply grows_add_reading.
Qed.
#[local] Hint Resolve grows_meter_reading : histories.
Lemma grows_flush_persistence D h (a : t) : grows D h h a (flush_persistence a).
Proof. unfold flush_persistence. histories. Qed.
#[local] Hint Resolve grows_flush_persistence : histories.
Lemma grows_flush_now D h (a : t) : grows D h h a (flush_now a).
Proof. unfold flush_now. histories. Qed.
#[local] Hint Resolve grows_flush_now : histories.
Lemma grows_on_saved D h (a : t) ok : grows D h h a (on_saved a ok).
Proof. unfold on_saved. histories. Qed.
#[local] Hint Resolve grows_on_saved : histories.

(** ** [calls.rs] and the operations around it *)

Lemma grows_set_tracker D h (a : t) id s : grows D h h a (set_tracker a id s).
Proof. unfold set_tracker. histories. Qed.
#[local] Hint Resolve grows_set_tracker : histories.
Lemma grows_status_failed D h (a : t) id key r e : grows D h h a (status_failed id key r a e).
Proof. unfold status_failed. histories. Qed.
#[local] Hint Resolve grows_status_failed : histories.
Lemma grows_dispatch_status D h (a : t) id key at_ o r :
  grows D h h a (dispatch_status a id key at_ o r).
Proof. unfold dispatch_status. histories. Qed.
#[local] Hint Resolve grows_dispatch_status : histories.
Lemma grows_status_changed D h (a : t) id : grows D h h a (status_changed a id).
Proof. unfold status_changed. histories. Qed.
#[local] Hint Resolve grows_status_changed : histories.
Lemma grows_status_timer_fired D h (a : t) id : grows D h h a (status_timer_fired a id).
Proof. unfold status_timer_fired. histories. Qed.
#[local] Hint Resolve grows_status_timer_fired : histories.
Lemma grows_send_status_forced D h (a : t) id o r : grows D h h a (send_status_forced a id o r).
Proof. unfold send_status_forced. histories. Qed.
#[local] Hint Resolve grows_send_status_forced : histories.
Lemma grows_resend_all_statuses D h (a : t) : grows D h h a (resend_all_statuses a).
Proof. unfold resend_all_statuses. histories. Qed.
#[local] Hint Resolve grows_resend_all_statuses : histories.
Lemma grows_flush_pending_statuses D h (a : t) : grows D h h a (flush_pending_statuses a).
Proof. unfold flush_pending_statuses. histories. Qed.
#[local] Hint Resolve grows_flush_pending_statuses : histories.
Lemma grows_reset_status_tracking D h (a : t) : grows D h h a (reset_status_tracking a).
Proof. unfold reset_status_tracking. histories. Qed.
#[local] Hint Resolve grows_reset_status_tracking : histories.
Lemma grows_reschedule_periodic D h (a : t) interval id :
  grows D h h a (reschedule_periodic interval a id).
Proof. unfold reschedule_periodic. histories. Qed.
#[local] Hint Resolve grows_reschedule_periodic : histories.
Lemma grows_reschedule_metering D h (a : t) : grows D h h a (reschedule_metering a).
Proof. unfold reschedule_metering. histories. Qed.
#[local] Hint Resolve grows_reschedule_metering : histories.
Lemma grows_restart_metering D h (a : t) : grows D h h a (restart_metering a).
Proof. unfold restart_metering. histories. Qed.
#[local] Hint Resolve grows_restart_metering : histories.
Lemma grows_security_event_failed D h (a : t) event e :
  grows D h h a (security_event_failed event a e).
Proof. unfold security_event_failed. histories. Qed.
#[local] Hint Resolve grows_security_event_failed : histories.
Lemma grows_send_security_event_call D h (a : t) event :
  grows D h h a (send_security_event_call a event).
Proof. unfold send_security_event_call. histories. Qed.
#[local] Hint Resolve grows_send_security_event_call : histories.
Lemma grows_flush_security_events D h (a : t) : grows D h h a (flush_security_events a).
Proof. unfold flush_security_events. histories. Qed.
#[local] Hint Resolve grows_flush_security_events : histories.
Lemma grows_security_event D h (a : t) ty info : grows D h h a (security_event a ty info).
Proof. unfold security_event. histories. Qed.
#[local] Hint Resolve grows_security_event : histories.
Lemma grows_report_diagnostics D h (a : t) status : grows D h h a (report_diagnostics a status).
Proof. unfold report_diagnostics. histories. Qed.
#[local] Hint Resolve grows_report_diagnostics : histories.
Lemma grows_report_firmware D h (a : t) status : grows D h h a (report_firmware a status).
Proof. unfold report_firmware. histories. Qed.
#[local] Hint Resolve grows_report_firmware : histories.
Lemma grows_report_log D h (a : t) status : grows D h h a (report_log a status).
Proof. unfold report_log. histories. Qed.
#[local] Hint Resolve grows_report_log : histories.
Lemma grows_report_signed_firmware D h (a : t) status :
  grows D h h a (report_signed_firmware a status).
Proof. unfold report_signed_firmware. histories. Qed.
#[local] Hint Resolve grows_report_signed_firmware : histories.
Lemma grows_cancel_maintenance D h (a : t) : grows D h h a (cancel_maintenance a).
Proof. unfold cancel_maintenance. histories. Qed.
#[local] Hint Resolve grows_cancel_maintenance : histories.
Lemma grows_cancel_log_upload D h (a : t) : grows D h h a (cancel_log_upload a).
Proof. unfold cancel_log_upload. histories. Qed.
#[local] Hint Resolve grows_cancel_log_upload : histories.
Lemma grows_cancel_signed_firmware D h (a : t) : grows D h h a (cancel_signed_firmware a).
Proof. unfold cancel_signed_firmware. histories. Qed.
#[local] Hint Resolve grows_cancel_signed_firmware : histories.
Lemma grows_arm_next {T} D h (a : t) k (plan : list (Duration * T)) :
  grows D h h a (arm_next a k plan).
Proof. unfold arm_next. histories. Qed.
#[local] Hint Resolve grows_arm_next : histories.
Lemma grows_on_diagnostics_timer D h (a : t) : grows D h h a (on_diagnostics_timer a).
Proof. unfold on_diagnostics_timer. histories. Qed.
#[local] Hint Resolve grows_on_diagnostics_timer : histories.
Lemma grows_on_firmware_timer D h (a : t) : grows D h h a (on_firmware_timer a).
Proof. unfold on_firmware_timer. histories. Qed.
#[local] Hint Resolve grows_on_firmware_timer : histories.
Lemma grows_on_log_timer D h (a : t) : grows D h h a (on_log_timer a).
Proof. unfold on_log_timer. histories. Qed.
#[local] Hint Resolve grows_on_log_timer : histories.
Lemma grows_on_signed_firmware_timer D h (a : t) : grows D h h a (on_signed_firmware_timer a).
Proof. unfold on_signed_firmware_timer. histories. Qed.
#[local] Hint Resolve grows_on_signed_firmware_timer : histories.

(** ** [transactions.rs] *)

Lemma grows_set_charging_profile D h (a : t) id profile :
  grows D h h a (set_charging_profile a id profile).1.
Proof. unfold set_charging_profile. histories. Qed.
#[local] Hint Resolve grows_set_charging_profile : histories.
Lemma grows_install_remote_profile D h (a : t) id tx profile :
  grows D h h a (install_remote_profile a id tx profile).
Proof. unfold install_remote_profile. histories. Qed.
#[local] Hint Resolve grows_install_remote_profile : histories.
Lemma grows_run_done D h (a : t) done r : grows D h h a (run_done a done r).
Proof. unfold run_done. histories. Qed.
#[local] Hint Resolve grows_run_done : histories.
Lemma grows_profiles_ended D h (a : t) tx : grows D h h a (profiles_ended a tx).1.
Proof. unfold profiles_ended. histories. Qed.
#[local] Hint Resolve grows_profiles_ended : histories.
Lemma grows_limit_energy_on_invalid_id D h (a : t) id :
  grows D h h a (limit_energy_on_invalid_id a id).
Proof. unfold limit_energy_on_invalid_id. histories. Qed.
#[local] Hint Resolve grows_limit_energy_on_invalid_id : histories.
Lemma grows_apply_pending_availability D h (a : t) id :
  grows D h h a (apply_pending_availability a id).
Proof. unfold apply_pending_availability. histories. Qed.
#[local] Hint Resolve grows_apply_pending_availability : histories.
Lemma grows_begin_charging D h (a : t) id tag : grows D h h a (begin_charging a id tag).
Proof. unfold begin_charging. histories. Qed.
#[local] Hint Resolve grows_begin_charging : histories.
Lemma grows_abandon_start D h (a : t) id : grows D h h a (abandon_start a id).
Proof. unfold abandon_start. histories. Qed.
#[local] Hint Resolve grows_abandon_start : histories.
Lemma grows_send_stop_for D h (a : t) tx m tag reason :
  grows D h h a (send_stop_for a tx m tag reason).
Proof. unfold send_stop_for. histories. Qed.
#[local] Hint Resolve grows_send_stop_for : histories.
Lemma grows_finish_stop D h (a : t) id tx : grows D h h a (finish_stop a id tx).
Proof. unfold finish_stop. histories. Qed.
#[local] Hint Resolve grows_finish_stop : histories.
Lemma grows_drop_local_transaction D h (a : t) id local :
  grows D h h a (drop_local_transaction a id local).
Proof. unfold drop_local_transaction. histories. Qed.
#[local] Hint Resolve grows_drop_local_transaction : histories.
Lemma grows_finish_boot_accepted D h (a : t) : grows D h h a (finish_boot_accepted a).
Proof. unfold finish_boot_accepted. histories. Qed.
#[local] Hint Resolve grows_finish_boot_accepted : histories.
Lemma grows_record_sync_failure D h (a : t) key e : grows D h h a (record_sync_failure a key e).
Proof. unfold record_sync_failure. histories. Qed.
#[local] Hint Resolve grows_record_sync_failure : histories.
Lemma grows_drop_exhausted D h (a : t) key : grows D h h a (drop_exhausted a key).
Proof.
  unfold drop_exhausted. pose proof (remove_sublist (queue a) key) as Hs.
  destruct (OfflineQueue.remove (queue a) key) as [q removed]. cbn [fst] in Hs.
  apply (grows_trans D h h h _ (a <| queue := q |>)); [by apply (grows_shrink D h a (fun _ => q))|].
  generalize (a <| queue := q |>). clear a Hs. intros a. histories.
Qed.
#[local] Hint Resolve grows_drop_exhausted : histories.
Lemma grows_arm_sync_retry D h (a : t) : grows D h h a (arm_sync_retry a).
Proof. unfold arm_sync_retry. histories. Qed.
#[local] Hint Resolve grows_arm_sync_retry : histories.
Lemma grows_arm_sync_retry_if_idle D h (a : t) : grows D h h a (arm_sync_retry_if_idle a).
Proof. unfold arm_sync_retry_if_idle. histories. Qed.
#[local] Hint Resolve grows_arm_sync_retry_if_idle : histories.

(** *** The delivery *)

Lemma grows_sync_finished D strict n (a : t) :
  0 <= n -> grows D (Between n) (Within strict 0) a (sync_finished (a <| sync_keys := [] |>)).
Proof.
  intros Hn0. unfold sync_finished. cbv zeta. generalize (sync_boot (a <| sync_keys := [] |>)). intros boot.
  match goal with |- grows _ _ _ _ (arm_sync_retry_if_idle (if _ then finish_boot_accepted ?b else _)) =>
    apply (grows_trans D (Between n) (Within strict 0) _ _ b) end.
  - apply grows_sync_change; [by split_and!|done|].
    intros B Hok. destruct (ok_sync _ _ _ Hok) as [Hn _]. split; [left|left; simpl; lia]. by split_and!.
  - match goal with |- grows _ _ _ ?b _ => generalize b end. clear a. intros a. histories.
Qed.

Lemma len_nonneg {A} (l : list A) : 0 <= len l.
Proof. unfold len. lia. Qed.

Lemma grows_drop_one_holding D k n (a : t) :
  grows D (Holding k n) (Between (len (sync_keys a))) a (sync_drop_one a).
Proof.
  apply grows_sync_change; [by split_and!|done|]. intros B Hok.
  destruct (ok_sync _ _ _ Hok) as (Hn & _ & Ho). split; [exact Hn|]. simpl.
  pose proof (len_nonneg (sync_keys a)). destruct Ho as [[-> ->]|(-> & -> & _)]; [lia|done].
Qed.
Lemma grows_drop_one_between D n (a : t) :
  0 <= n -> grows D (Between (1 + n)) (Between n) a (sync_drop_one a).
Proof.
  intros Hn0. apply grows_sync_change; [by split_and!|done|]. intros B Hok.
  destruct (ok_sync _ _ _ Hok) as [Hn Ho]. split; [exact Hn|]. simpl. rewrite Ho. lia.
Qed.

(** A bound on what is left may be given up. *)
Lemma ok_weaken h h' B (a : t) :
  (forall k n, h' <> Holding k n) -> (sync_ok h a -> sync_ok h' a) -> ok h B a -> ok h' B a.
Proof.
  intros Hh Hs [H1 H2 H3 H4 H5 H6 H7 H8]. split; auto. intros k n Hk. by destruct (Hh k n).
Qed.
Lemma grows_weaken D h h' h'' (a b : t) :
  (forall k n, h'' <> Holding k n) -> (sync_ok h' b -> sync_ok h'' b) -> grows D h h' a b -> grows D h h'' a b.
Proof.
  intros Hh Hs Hg B HB Hok. destruct (Hg B HB Hok) as [(B' & HB' & Hb) Hat Hk].
  split; [exists B'; split; [done|]|done|done]. by eapply ok_weaken.
Qed.
Lemma grows_within D h strict n m (a b : t) :
  n <= m -> grows D h (Within true n) a b -> grows D h (Within strict m) a b.
Proof.
  intros Hle. apply grows_weaken; [done|]. intros [Hr [Hn|[? _]]]; [|done]. split; [done|left; lia].
Qed.
Lemma grows_rest D h strict n (a b : t) : grows D h (Within strict n) a b -> grows D h Rest a b.
Proof. apply grows_weaken; [done|]. by intros [Hr _]. Qed.

(** The delivery may hand the CALL with the closure [k] over. *)
Definition ready (h : hand) (strict : bool) (n : Z) (k : Continuation) (a : t) : Prop :=
  forall B, ok h B a -> connected a = true ->
    none_syncing a /\ sync_outstanding a = 1 + len (sync_keys a) /\
    (sync_outstanding a <= n \/
     (strict = false /\ sync_outstanding a <= n + 1 /\ exists key, k = SyncStop key)).

Lemma ready_holding k k' strict n m (a : t) :
  n <= m \/ (strict = false /\ n <= m + 1 /\ exists key, k' = SyncStop key) ->
  ready (Holding k n) strict m k' a.
Proof.
  intros Hm B Hok Hc. destruct (ok_sync _ _ _ Hok) as (Hn & _ & [[Ho Hl]|(_ & _ & Hd)]); [|congruence].
  split; [done|]. split; [lia|]. rewrite Ho. exact Hm.
Qed.
Lemma ready_between k strict n (a : t) :
  n = 1 + len (sync_keys a) -> ready (Between n) strict n k a.
Proof. intros Hn B Hok _. destruct (ok_sync _ _ _ Hok) as [Hna Ho]. split_and!; [done|lia|left; lia]. Qed.

Section next.
Context (D : starts) (h : hand) (strict : bool) (n : Z).
Context (next : t -> t) (grows_next : forall a, grows D h (Within strict n) a (next a)).

Lemma grows_sync_call_failed (a : t) key e :
  grows D h (Within strict n) a (sync_call_failed next key a e).
Proof.
  unfold sync_call_failed.
  apply (grows_trans D h h _ _ (record_sync_failure (log a LogLevel.Warn) key e)); [histories|apply grows_next].
Qed.

Lemma grows_sync_call (a : t) request k key :
  ready h strict n k a -> is_sync k = true -> (forall B, ok h B a -> carried B a k) ->
  grows D h (Within strict n) a (call a Origin.Station request k (sync_call_failed next key)).
Proof.
  intros Hr Hk Hcar. unfold call, call_raw. case_match; [|apply grows_sync_call_failed].
  destruct (connected a) eqn:Hc; [|apply grows_sync_call_failed].
  cbn [negb]. case_match; [|apply grows_sync_call_failed].
  intros B HB Hok. destruct (Hr B Hok Hc) as (Hn & Ho & Hb).
  match goal with |- grown _ _ _ (hand_over _ ?o ?m ?v ?c _) =>
    pose proof (one_syncing_hand_over a o m v c k Hn Hk) as Hone;
    destruct (hand_over_calls a o m v c k) as (Hcs & _ & _ & Hq & Hl & Hso & Hsk & _ & Hf) end.
  split; [exists B; split; [done|]| |].
  - apply (ok_hand_over h); [done|by apply Hcar|done|]. split; [right; by rewrite Hso, Hsk|].
    rewrite Hso. destruct Hb as [Hb|(Hst & Hb & key' & ->)]; [by left|right]. split_and!; [done..|].
    intros tok p. rewrite Hcs. intros [[_ <-]|[_ Hp]]%lookup_insert_Some Hs; [by exists key'|].
    by rewrite (Hn tok p Hp) in Hs.
  - by apply evolved_same.
  - split; [by rewrite Hl|]. rewrite Hq. apply new_keys_refl.
Qed.

Lemma grows_sync_stop (a b : t) key :
  ready h strict n (SyncStop key) a -> sync_stop next a key = Some b -> grows D h (Within strict n) a b.
Proof.
  intros Hr. unfold sync_stop. intros Hs. repeat (case_match; try done). simplify_eq.
  by apply grows_sync_call.
Qed.

Lemma entry_unique (q : OfflineQueue.t) e e' :
  NoDup (OfflineQueue.keys q) -> e ∈ q -> e' ∈ q -> OfflineTx.key e = OfflineTx.key e' -> e = e'.
Proof.
  induction q as [|x q IH]; intros Hnd He He' Hk; [by apply not_elem_of_nil in He|].
  simpl in Hnd. apply NoDup_cons in Hnd as [Hx Hnd].
  apply elem_of_cons in He as [->|He]; apply elem_of_cons in He' as [->|He']; [done| | |auto].
  - exfalso. apply Hx. rewrite Hk. by apply (list_elem_of_fmap_2 OfflineTx.key).
  - exfalso. apply Hx. rewrite <- Hk. by apply (list_elem_of_fmap_2 OfflineTx.key).
Qed.
Lemma get_Some (q : OfflineQueue.t) key e :
  OfflineQueue.get q key = Some e -> e ∈ q /\ OfflineTx.key e = key.
Proof.
  unfold OfflineQueue.get. intros [Hin Hk]%find_first_In. rewrite eqb_true in Hk.
  split; [by apply list_elem_of_In|done].
Qed.

Lemma grows_sync_entry (a b : t) key :
  (forall k, ready h strict n k a) -> sync_entry next a key = Some b -> grows D h (Within strict n) a b.
Proof.
  intros Hr. unfold sync_entry. intros Hs.
  destruct (OfflineQueue.get (queue a) key) as [e|] eqn:Eg; [|done].
  destruct (OfflineTx.start_pending e) eqn:Ep; [|by apply grows_sync_stop in Hs].
  simplify_eq. apply get_Some in Eg as [Hin Hk].
  apply grows_sync_call; [done..|]. intros B Hok. split.
  - rewrite <- Hk. by apply (ok_queue _ _ _ Hok).
  - intros e' Hin' Hk'. by rewrite (entry_unique (queue a) e' e (ok_keys _ _ _ Hok) Hin' Hin) by congruence.
Qed.
End next.

Lemma grows_run_sync_keys D keys (a : t) :
  grows D (Between (len keys)) (Within true (len keys)) a (run_sync_keys keys a).
Proof.
  revert a. induction keys as [|key keys IH]; intros a; cbn [run_sync_keys].
  { apply grows_sync_finished. apply len_nonneg. }
  replace (len (key :: keys)) with (1 + len keys) by (unfold len; simpl; lia).
  assert (Hnext : forall a, grows D (Between (1 + len keys)) (Within true (1 + len keys)) a
                    (run_sync_keys keys (sync_drop_one a))).
  { clear a. intros a. apply (grows_within _ _ _ (len keys)); [lia|].
    eapply grows_trans; [|apply IH]. apply grows_drop_one_between, len_nonneg. }
  apply (grows_trans _ _ (Between (1 + len keys)) _ _ (a <| sync_keys := keys |>)).
  { apply grows_sync_change; [by split_and!|done|]. intros B Hok. exact (ok_sync _ _ _ Hok). }
  assert (Hk : sync_keys (a <| sync_keys := keys |>) = keys) by done.
  revert Hk. generalize (a <| sync_keys := keys |>). clear a. intros a Hk. cbv zeta.
  destruct (sync_entry _ a key) as [b|] eqn:E; [|apply Hnext].
  eapply grows_sync_entry; [apply Hnext| |exact E]. intros k. apply ready_between. by rewrite Hk.
Qed.

(** One entry less is left. *)
Lemma grows_sync_done D k n strict (a : t) :
  grows D (Holding k n) (Within strict (n - 1)) a (sync_done a).
Proof.
  apply grows_intro. intros B _ Hok. unfold sync_done, run_sync.
  apply (grows_within _ _ _ (len (sync_keys a))).
  { destruct (ok_sync _ _ _ Hok) as (_ & Hn & [[_ ->]|(_ & -> & _)]); [lia|]. unfold len. simpl. lia. }
  eapply grows_trans; [apply grows_drop_one_holding|].
  apply (grows_run_sync_keys B (sync_keys (sync_drop_one a))).
Qed.
#[local] Hint Resolve grows_sync_done : histories.

(** The delivery is started when it is at rest. *)
Lemma grows_start_offline_sync D (a : t) boot : grows D Rest Rest a (start_offline_sync a boot).1.
Proof.
  unfold start_offline_sync. destruct (0 <? sync_outstanding a) eqn:E; [apply grows_refl|]. cbv zeta.
  apply Z.ltb_ge in E.
  match goal with |- context [match ?l with [] => _ | _ :: _ => _ end] => generalize l end.
  intros keys. destruct keys as [|key keys]; cbn [fst]; [histories|].
  generalize (key :: keys). clear key keys. intros keys. unfold run_sync.
  match goal with |- grows _ _ _ _ (run_sync_keys (sync_keys ?b) _) =>
    apply (grows_trans _ _ (Between (len keys)) _ _ b); [|eapply grows_rest, (grows_run_sync_keys D keys b)] end.
  apply grows_sync_change; [by split_and!|done|]. intros B Hok.
  destruct (ok_sync _ _ _ Hok) as [(Hn & _)|[_ Ho]]; [by split|].
  pose proof (len_nonneg (sync_keys a)). lia.
Qed.
#[local] Hint Resolve grows_start_offline_sync : histories.
(** Elsewhere it is started only while the CSMS can be talked to. *)
Lemma grows_sync_if_can_talk D h (a : t) boot :
  settled h = true -> grows D h h a (if can_talk a then (start_offline_sync a boot).1 else a).
Proof.
  destruct h as [|k n|n|strict n|]; intros Hh; [| |done|done|].
  - destruct (can_talk a); [apply grows_start_offline_sync|apply grows_refl].
  - apply grows_intro. intros B _ Hok. destruct (ok_sync _ _ _ Hok) as (_ & Hn & [[Ho _]|(_ & _ & Hd)]).
    + unfold start_offline_sync.
      assert (Hlt : (0 <? sync_outstanding a) = true) by (apply Z.ltb_lt; lia). rewrite Hlt.
      destruct (can_talk a); apply grows_refl.
    + unfold can_talk. rewrite Hd. apply grows_refl.
  - apply grows_intro. intros B _ Hok. destruct (ok_sync _ _ _ Hok) as [_ Hd].
    unfold can_talk. rewrite Hd. apply grows_refl.
Qed.
#[local] Hint Resolve grows_sync_if_can_talk : histories.
Lemma grows_on_sync_retry_timer D (a : t) : grows D Rest Rest a (on_sync_retry_timer a).
Proof. by apply grows_sync_if_can_talk. Qed.
#[local] Hint Resolve grows_on_sync_retry_timer : histories.
Lemma grows_on_sync_stop D k n (a : t) key r :
  grows D (Holding k n) (Within true (n - 1)) a (on_sync_stop a key r).
Proof.
  unfold on_sync_stop. destruct r; [histories|]. apply grows_sync_call_failed.
  intros; apply grows_sync_done.
Qed.
Lemma grows_stop_next D k n (c : bool) (a b : t) key :
  (if c then sync_stop sync_done a key else None) = Some b ->
  grows D (Holding k n) (Within false (n - 1)) a b.
Proof.
  destruct c; [|done]. apply grows_sync_stop; [intros; apply grows_sync_done|].
  apply ready_holding. right. split_and!; [done|lia|by exists key].
Qed.
#[local] Hint Resolve grows_stop_next : histories.

(** *** A queued start is confirmed *)

Lemma find_mark_dirty (a : t) i : find_connector (mark_dirty a) i = find_connector a i.
Proof. unfold mark_dirty. by case_match. Qed.

(** The entry has got its real id; the closure in hand has nothing more to say about it. *)
Lemma grows_deliver D key n (a : t) f :
  (forall e, OfflineTx.key (f e) = OfflineTx.key e) ->
  (forall e, OfflineTx.start_pending (f e) = false) ->
  grows D (Holding (SyncStart key) n) (Holding (SyncStop key) n) a
    (a <| queue ::= fun q => OfflineQueue.modify q key f |>).
Proof.
  intros Hkf Hpf B HB Hok.
  assert (Hkeys : OfflineQueue.keys (OfflineQueue.modify (queue a) key f) = OfflineQueue.keys (queue a))
    by by apply update_first_keys.
  assert (Hin : forall e, e ∈ OfflineQueue.modify (queue a) key f ->
            e ∈ queue a \/ exists e', e' ∈ queue a /\ e = f e') by (intros e; apply update_first_elem).
  split; [exists B; split; [done|]| |].
  - destruct Hok as [H1 H2 H3 H4 H5 H6 H7 H8]. pose proof (proj1 H8) as Hnone.
    assert (Hcar : forall k, is_sync k = false -> carried B a k ->
              carried B (a <| queue ::= fun q => OfflineQueue.modify q key f |>) k) by by intros [].
    split; try done; simpl.
    + intros e [He|(e' & He' & ->)]%Hin; [by apply H3|]. rewrite Hkf. split; [by apply (H3 e')|].
      intros Hp. by rewrite Hpf in Hp.
    + by rewrite Hkeys.
    + intros tok p Hp. destruct (H5 tok p Hp). split; [done|]. apply Hcar; [by apply (Hnone tok)|done].
    + by intros k m [= <- _].
  - by apply evolved_same.
  - split; [done|]. simpl. intros e He. left. rewrite <- Hkeys. by apply list_elem_of_fmap_2.
Qed.

(** The connector that holds a start has the data it was begun with. *)
Lemma holds_start h B (a : t) id local k p c :
  ok h B a -> B !! k = Some (id, p) -> local = TxId.Local k ->
  find_connector a id = Some c -> holds_tx local c = true ->
  ConnectorSnapshot.transaction c = TransactionState.PendingStart p /\
  0 <= PendingStart.meter_start_wh p <= ConnectorSnapshot.meter_wh c.
Proof.
  intros Hok HB -> Hc Hh. destruct (ok_at _ _ _ Hok id c Hc) as [Hf [_ Hr]].
  unfold holds_tx, connector_tx_id in Hh. rewrite eqb_true in Hh.
  destruct (ConnectorSnapshot.transaction c) as [|p'|x|x]; simpl in *; simplify_eq.
  - destruct Hf as (k' & Hk' & HB'). rewrite Hh in Hk'. by simplify_eq.
  - by rewrite Hh in Hf.
  - by rewrite Hh in Hf.
Qed.

(** The start is confirmed on its connector. *)
Lemma grows_confirm D h (a : t) id local k p tx :
  D !! k = Some (id, p) -> local = TxId.Local k ->
  grows D h h a (modify_connector a id (fun c =>
    if holds_tx local c
    then c <| ConnectorSnapshot.transaction := TransactionState.Active (active_of p tx) |> else c)).
Proof.
  intros HD Hl. apply grows_modify; [intros c; by case_match|].
  intros B c HB Hok Hc. pose proof (ok_at _ _ _ Hok id c Hc) as [Hf Hr].
  destruct (holds_tx local c) eqn:Hh; [|done].
  assert (HBk : B !! k = Some (id, p)) by by eapply lookup_weaken.
  destruct (holds_start h B a id local k p c Hok HBk Hl Hc Hh) as [Ht Hm].
  split_and!; simpl; [done| |rewrite Ht; apply rtc_once, life_confirm|done].
  split; [apply Hr|exact Hm].
Qed.

Lemma grows_on_sync_start D n (a : t) key r :
  grows D (Holding (SyncStart key) n) (Within false (n - 1)) a (on_sync_start a key r).
Proof.
  unfold on_sync_start. destruct r as [response|e];
    [|apply grows_sync_call_failed; intros; apply grows_sync_done].
  destruct (OfflineQueue.get (queue a) key) as [entry|] eqn:Eg; [|apply grows_sync_done].
  apply grows_intro. intros B _ Hok. apply get_Some in Eg as [Hin Hkey].
  destruct (ok_hand _ _ _ Hok _ _ eq_refl) as [_ Hpend].
  destruct (ok_queue _ _ _ Hok entry Hin) as [_ Hq].
  destruct (Hq (Hpend entry Hin Hkey)) as (p & HB & Htx & Htag & Hat & Hm).
  rewrite Hkey in HB, Htx. clear D Hok Hin Hpend Hq.
  destruct (Authorization.apply_online_id_tag_info _ _ _ _ _) as [cache decision]. cbv zeta.
  match goal with |- context [over sync_failures ?f (mark_dirty ?b)] =>
    apply (grows_trans B _ (Holding (SyncStart key) n) _ _ (over sync_failures f (mark_dirty b)));
      [histories|generalize (over sync_failures f (mark_dirty b))] end.
  clear a. intros a. generalize (ConfigRegistry.stop_transaction_on_invalid_id (registry a)). intros strict.
  destruct (negb _ && negb _); [histories|].
  match goal with |- context [over queue ?f a] =>
    apply (grows_trans B _ (Holding (SyncStop key) n) _ _ (over queue f a));
      [by apply grows_deliver|generalize (over queue f a)] end.
  clear a. intros a. rewrite Htag, Hat, Hm.
  match goal with |- context [modify_connector a ?i ?f] =>
    apply (grows_trans B _ (Holding (SyncStop key) n) _ _ (modify_connector a i f));
      [exact (grows_confirm B _ a i _ key p _ HB Htx)|generalize (modify_connector a i f)] end.
  clear a. intros a. histories.
Qed.

(** *** Stopping *)

(** The transaction of a connector is not touched. *)
Definition keeps_tx (i : ConnectorId) (a b : t) : Prop :=
  forall c, find_connector a i = Some c ->
    exists c', find_connector b i = Some c' /\
      ConnectorSnapshot.transaction c' = ConnectorSnapshot.transaction c.

Lemma keeps_tx_trans i a b c : keeps_tx i a b -> keeps_tx i b c -> keeps_tx i a c.
Proof.
  intros Hab Hbc x Hx. destruct (Hab x Hx) as (y & Hy & Hxy). destruct (Hbc y Hy) as (z & Hz & Hyz).
  exists z. split; [done|congruence].
Qed.
Lemma keeps_tx_same i (a b : t) : find_connector b i = find_connector a i -> keeps_tx i a b.
Proof. intros Hf c Hc. exists c. by rewrite Hf. Qed.

Lemma find_settle_meters (a : t) i : find_connector (settle_meters a) i = find_connector a i.
Proof.
  unfold settle_meters. generalize (map (fun c => (ConnectorSnapshot.id c, is_charging c)) (connectors a)).
  intros l. revert a. induction l as [|x l IH]; intros a; simpl; [done|]. rewrite IH.
  unfold settle_meter. destruct x. by case_match.
Qed.

Lemma keeps_tx_flush_meters i (a : t) : keeps_tx i a (flush_meters a).
Proof.
  unfold flush_meters. cbv zeta.
  apply (keeps_tx_trans _ _ (settle_meters a)); [apply keeps_tx_same, find_settle_meters|].
  generalize (settle_meters a). clear a. intros a.
  pose proof (flush_list_stays (meters a) (connectors a)) as Hs.
  destruct (flush_list (meters a) (connectors a)) as [[ms l] changed]. cbn [fst snd] in Hs.
  apply (keeps_tx_trans _ _ (set_connectors (a <| meters := ms |>) l)).
  - intros c. unfold find_connector. destruct (is_station i); [intros [= <-]; by eexists|].
    intros Hc. pose proof (find_stays (connectors a) l i Hs) as Hst. rewrite Hc in Hst.
    change (connectors (set_connectors (a <| meters := ms |>) l)) with l.
    destruct (find_first _ l) as [c'|]; [|done]. exists c'. split; [done|]. apply Hst.
  - apply keeps_tx_same. case_match; [by rewrite find_mark_dirty|done].
Qed.

Lemma find_add_readings advance ids (acc : t * MeterReading.t) i :
  find_connector (fold_left (add_reading advance) ids acc).1 i = find_connector acc.1 i.
Proof.
  revert acc. induction ids as [|x ids IH]; intros acc; simpl; [done|]. rewrite IH.
  destruct acc as [a reading]. unfold add_reading. by repeat case_match.
Qed.
Lemma keeps_tx_stop_info i (a : t) c reason tag : keeps_tx i a (stop_info a c reason tag).1.
Proof.
  unfold stop_info, meter_reading. cbv zeta.
  match goal with |- context [fold_left (add_reading ?v) ?ids (?b, ?m)] =>
    pose proof (find_add_readings v ids (b, m) i) as Hf;
    destruct (fold_left (add_reading v) ids (b, m)) as [d reading] end.
  cbn [fst] in *. apply (keeps_tx_trans _ _ (flush_meters a)); [apply keeps_tx_flush_meters|].
  by apply keeps_tx_same.
Qed.
Lemma keeps_tx_modify i (a : t) j f :
  (forall c, ConnectorSnapshot.id (f c) = ConnectorSnapshot.id c) ->
  (forall c, ConnectorSnapshot.transaction (f c) = ConnectorSnapshot.transaction c) ->
  keeps_tx i a (modify_connector a j f).
Proof.
  intros Hi Ht c Hc. rewrite find_modify, Hc by done.
  case_match; simpl; eexists; (split; [done|]); [apply Ht|done].
Qed.
Lemma grows_stop_failed D h (a : t) id tx tag at_ m info done e :
  grows D h h a (stop_failed id tx tag at_ m info done a e).
Proof. unfold stop_failed. histories. Qed.
#[local] Hint Resolve grows_stop_failed : histories.
Lemma grows_on_stop_result D h (a : t) id tx tag at_ m info done r :
  grows D h h a (on_stop_result id tx tag at_ m info done a r).
Proof. unfold on_stop_result. histories. Qed.
#[local] Hint Resolve grows_on_stop_result : histories.
Lemma grows_stop_info D h (a : t) c reason tag : grows D h h a (stop_info a c reason tag).1.
Proof. unfold stop_info. histories. Qed.
#[local] Hint Resolve grows_stop_info : histories.

(** The transaction that a stop may end, and what is known of it. *)
Lemma stoppable_facts h B (a : t) i c tx at_ m tag :
  ok h B a -> find_connector a i = Some c -> stoppable a c = Ok (tx, at_, m, tag) ->
  TxId.is_local tx = true \/
  exists x, ConnectorSnapshot.transaction c = TransactionState.Active x
    /\ ActiveTransaction.tx_id x = tx /\ TxId.is_local tx = false
    /\ ActiveTransaction.meter_start_wh x <= ConnectorSnapshot.meter_wh c.
Proof.
  intros Hok Hc. destruct (ok_at _ _ _ Hok i c Hc) as [Hf [_ Hr]]. unfold stoppable.
  destruct (ConnectorSnapshot.transaction c) as [|p|x|x]; try done; simpl in *.
  - destruct Hf as (k & Hk & _). case_match; [done|]. intros [= <- _ _ _]. left. by rewrite Hk.
  - intros [= <- _ _ _]. right. exists x. split_and!; try done. apply Hr.
Qed.

(** The connector starts to stop its transaction. *)
Lemma grows_begin_stop D h (a : t) i x tag reason at_ meter :
  TxId.is_local (ActiveTransaction.tx_id x) = false -> ActiveTransaction.meter_start_wh x <= meter ->
  (forall c, find_connector a i = Some c -> ConnectorSnapshot.transaction c = TransactionState.Active x) ->
  grows D h h a (modify_connector a i (fun c =>
    c <| ConnectorSnapshot.transaction := TransactionState.Stopping
           (StoppingTransaction.mk (ActiveTransaction.tx_id x) tag reason (Some at_) (Some meter)) |>)).
Proof.
  intros Hl Hm Hx. apply grows_modify; [done|]. intros B c _ Hok Hc.
  destruct (ok_at _ _ _ Hok i c Hc) as [_ [Hr _]]. split_and!; [exact Hl|by split| |simpl; lia].
  simpl. rewrite (Hx c Hc). by apply rtc_once, life_stop.
Qed.

(** Without the CSMS the stop is queued, and the transaction is over. *)
Lemma grows_stop_offline D h (a : t) id tx tag at_ m info done :
  settled h = true ->
  grows D h h a
    (let '(a, _) := queue_stop a id tx tag at_ m info in
     let a := log (finish_stop a id tx) LogLevel.Warn in
     let a := if can_talk a then (start_offline_sync a false).1 else a in
     run_done a done (Ok Outcome.Done)).
Proof.
  intros Hh. pose proof (grows_queue_stop D h a id tx tag at_ m info) as Hq.
  destruct (queue_stop a id tx tag at_ m info) as [b key]. cbn [fst] in Hq.
  apply (grows_trans D h h h _ b); [exact Hq|]. cbv zeta.
  apply (grows_trans D h h h _ (log (finish_stop b id tx) LogLevel.Warn)); [histories|].
  generalize (log (finish_stop b id tx) LogLevel.Warn). clear a b Hq. intros a.
  apply (grows_trans D h h h _ (if can_talk a then (start_offline_sync a false).1 else a)).
  - by apply grows_sync_if_can_talk.
  - match goal with |- grows _ _ _ ?b _ => generalize b end. clear a. intros a. histories.
Qed.

Lemma grows_stop_transaction D h (a : t) id reason tag done :
  settled h = true -> grows D h h a (stop_transaction a id reason tag done).
Proof.
  intros Hh. unfold stop_transaction. cbv zeta. eapply grows_trans; [apply grows_flush_meters|].
  generalize (flush_meters a). clear a. intros a.
  destruct (connector a id) as [c|] eqn:Ec; [|histories].
  assert (Hc : find_connector a id = Some c).
  { revert Ec. unfold connector. by destruct (is_station id). }
  destruct (stoppable a c) as [[[[tx at_] m] tag']|e] eqn:Es; [|histories].
  apply grows_intro. intros B _ Hok.
  pose proof (stoppable_facts h B a id c tx at_ m tag' Hok Hc Es) as Hfacts. clear D Hok Es Ec.
  destruct (Connector.state_after_stop _ _ _) as [ev status].
  pose proof (grows_stop_info B h a c reason tag) as Hg.
  pose proof (keeps_tx_stop_info id a c reason tag c Hc) as (c1 & Hc1 & Ht1).
  assert (Hinfo : StopInfo.meter_stop_wh (stop_info a c reason tag).2 = ConnectorSnapshot.meter_wh c).
  { unfold stop_info. by destruct (meter_reading _ _ _). }
  destruct (stop_info a c reason tag) as [b info]. cbn [fst snd] in *.
  eapply grows_trans; [exact Hg|]. clear Hg.
  match goal with |- context [over invalid_limits ?g ?e] => set (d := over invalid_limits g e) end.
  assert (Hd : grows B h h b d) by (unfold d; histories).
  assert (Hkd : keeps_tx id b d) by by apply keeps_tx_modify.
  destruct (Hkd c1 Hc1) as (c2 & Hc2 & Ht2). rewrite Ht1 in Ht2. clearbody d.
  eapply grows_trans; [exact Hd|]. clear b c1 Hc Hc1 Ht1 Hd Hkd.
  destruct (TxId.is_local tx || negb (can_talk d)) eqn:El; [by apply grows_stop_offline|].
  apply orb_false_iff in El as [El _]. destruct Hfacts as [Hl|(x & Hx & Htx & Hnl & Hm)]; [congruence|].
  subst tx. rewrite Hinfo.
  match goal with |- context [modify_connector d id ?f] =>
    apply (grows_trans B h h h _ (modify_connector d id f)); [|generalize (modify_connector d id f)] end.
  - apply grows_begin_stop; [done..|]. intros c' Hc'. rewrite Hc2 in Hc'. simplify_eq. congruence.
  - clear d Hc2. intros d. histories.
Qed.
#[local] Hint Resolve grows_stop_transaction : histories.
Lemma grows_check_energy_limit D h (a : t) id :
  settled h = true -> grows D h h a (check_energy_limit a id).
Proof. intros Hh. unfold check_energy_limit. histories. Qed.
#[local] Hint Resolve grows_check_energy_limit : histories.
Lemma grows_start_failed D h (a : t) id local done e :
  grows D h h a (start_failed id local done a e).
Proof. unfold start_failed. histories. Qed.
#[local] Hint Resolve grows_start_failed : histories.

(** A CALL for a start that was begun. *)
Lemma grows_call_start D h (a : t) request id local k pending done :
  local = TxId.Local k -> D !! k = Some (id, pending) ->
  grows D h h a (call a Origin.Station request (StartDone id local pending done) (start_failed id local done)).
Proof.
  intros Hl HD. unfold call, call_raw.
  case_match; [|histories]. case_match; [histories|]. case_match; [|histories].
  apply grows_hand_over; [done|]. intros B HB _. exists k. split; [done|]. by eapply lookup_weaken.
Qed.

(** One more start is begun. *)
Lemma ok_born h B (a : t) k i p :
  B !! k = None -> k <= next_local a -> PendingStart.tx_id p = TxId.Local k ->
  ok h B a -> ok h (<[k := (i, p)]> B) a.
Proof.
  intros HB Hk Htx [H1 H2 H3 H4 H5 H6 H7 H8].
  assert (Hsub : B ⊆ <[k := (i, p)]> B) by by apply insert_subseteq.
  assert (Hcar : forall k', carried B a k' -> carried (<[k := (i, p)]> B) a k').
  { intros []; simpl; try done. intros (k' & ? & ?). exists k'. split; [done|]. by eapply lookup_weaken. }
  split; try done; eauto.
  - intros k' i' p' [[<- [= <- <-]]|[_ HB']]%lookup_insert_Some; [done|by apply (H1 k' i')].
  - intros j c Hc. destruct (H2 j c Hc) as [Hf Hr]. split; [|done]. revert Hf. unfold fits.
    case_match; try done. intros (k' & ? & ?). exists k'. split; [done|]. by eapply lookup_weaken.
  - intros e He. destruct (H3 e He) as [Hle Hq]. split; [done|]. intros Hp.
    destruct (Hq Hp) as (p' & ? & ?). exists p'. split; [by eapply lookup_weaken|done].
  - intros tok q Hq. destruct (H5 tok q Hq). auto.
Qed.

Lemma grows_begin h B (a : t) id c pending f :
  ok h B a -> find_connector a id = Some c ->
  ConnectorSnapshot.transaction c = TransactionState.Idle ->
  PendingStart.tx_id pending = TxId.Local (next_local a + 1) ->
  PendingStart.meter_start_wh pending = ConnectorSnapshot.meter_wh c ->
  (forall c, ConnectorSnapshot.id (f c) = ConnectorSnapshot.id c /\
     ConnectorSnapshot.meter_wh (f c) = ConnectorSnapshot.meter_wh c /\
     ConnectorSnapshot.transaction (f c) = TransactionState.PendingStart pending) ->
  let b := modify_connector (next_key a).1 id f in
  exists B', B ⊆ B' /\ B' !! (next_local a + 1) = Some (id, pending) /\ ok h B' b /\
    (forall i, evolved (find_connector a i) (find_connector b i)).
Proof.
  intros Hok Hc Ht Htx Hm Hf b. set (k := next_local a + 1) in *.
  assert (HBk : B !! k = None).
  { destruct (B !! k) as [[i p]|] eqn:E; [|done]. apply (ok_starts _ _ _ Hok) in E as [? _]. unfold k in *; lia. }
  assert (Hok1 : ok h B (next_key a).1).
  { apply (ok_queue_change h B a); try done; [simpl; lia| |apply (ok_keys _ _ _ Hok)].
    intros e He. by apply entry_from_old. }
  assert (Hok2 : ok h (<[k := (id, pending)]> B) (next_key a).1) by (apply ok_born; try done; simpl; unfold k; lia).
  assert (Hg : grows (<[k := (id, pending)]> B) h h (next_key a).1 b).
  { apply grows_modify; [apply Hf|]. intros B' c' HB' Hok' Hc'.
    assert (c' = c) as -> by (change (find_connector a id = Some c') in Hc'; congruence).
    destruct (ok_at _ _ _ Hok' id c Hc') as [_ [Hr _]]. destruct (Hf c) as (_ & Hfm & Hft).
    unfold register_ok, in_u64 in *. rewrite Hft, Hfm, Ht. split_and!; try lia.
    - exists k. split; [done|]. eapply lookup_weaken; [|exact HB']. apply lookup_insert_eq.
    - by apply rtc_once, life_begin. }
  destruct (Hg _ (reflexivity _) Hok2) as [(B' & HB' & Hokb) Hat _].
  exists B'. split_and!; [|eapply lookup_weaken; [apply lookup_insert_eq|exact HB']|done|exact Hat].
  etransitivity; [by apply (insert_subseteq B k (id, pending))|exact HB'].
Qed.

(** The start without the CSMS: its entry is queued under the key that was drawn for it. *)
Lemma grown_start_offline h B (a : t) id key p n :
  ok h B a -> B !! key = Some (id, p) -> PendingStart.tx_id p = TxId.Local key ->
  (forall e, e ∈ queue a -> OfflineTx.key e <= n) -> next_local a = key -> n < key ->
  let b := start_offline a id key p in
  (exists B', B ⊆ B' /\ ok h B' b) /\ (forall i, evolved (find_connector a i) (find_connector b i)) /\
  n <= next_local b /\ (forall e, e ∈ queue b -> OfflineTx.key e ∈ OfflineQueue.keys (queue a) \/ n < OfflineTx.key e).
Proof.
  intros Hok HB Htx Hq Hl Hn b. unfold b, start_offline. cbv zeta.
  pose proof (grows_begin_charging B h a id (PendingStart.id_tag p) B (reflexivity _) Hok) as Hg.
  revert Hg. generalize (begin_charging a id (PendingStart.id_tag p)). intros d [(B' & HB' & Hokd) Hat [Hld Hkd]].
  set (entry := OfflineTx.mk _ _ _ _ _ _ _ _ _).
  assert (Hfresh : key ∉ OfflineQueue.keys (queue d)).
  { intros (e & He & Hin)%list_elem_of_fmap. apply Hkd in Hin as [(e' & He' & Hin')%list_elem_of_fmap|?]; [|lia].
    apply Hq in Hin'. lia. }
  assert (HB'k : B' !! key = Some (id, p)) by by eapply lookup_weaken.
  assert (Hokp : ok h B' (push_queue d entry)).
  { apply (ok_push h B' d); try done; simpl; [lia| |by left]. intros _. by exists p. }
  assert (Hgf : grows B' h h (push_queue d entry) (log (flush_now (push_queue d entry)) LogLevel.Warn)) by histories.
  destruct (Hgf B' (reflexivity _) Hokp) as [(B'' & HB'' & Hokf) Hatf [Hlf Hkf]].
  rewrite push_queue_local in Hlf.
  split; [exists B''; split; [by etransitivity|done]|]. split.
  - intros i. etransitivity; [apply Hat|]. etransitivity; [|apply Hatf].
    by rewrite (proj2 (proj2 (proj2 (proj2 (proj2 (proj2 (same_but_queue_push d d entry ltac:(done)))))))).
  - split; [lia|]. intros e He. destruct (Hkf e He) as [(e' & -> & He')%list_elem_of_fmap|Hlt];
      [|rewrite push_queue_local in Hlt; right; lia].
    rewrite push_queue_queue in He'. apply push_elem in He' as [He'| ->]; [|right; simpl; lia].
    destruct (Hkd e' He'); [by left|right; lia].
Qed.

Lemma grows_start_transaction D h (a : t) id tag done :
  grows D h h a (start_transaction a id tag done).
Proof.
  unfold start_transaction. cbv zeta. eapply grows_trans; [apply grows_flush_meters|].
  generalize (now_utc a). intros now. generalize (flush_meters a). clear a. intros a.
  destruct (connector a id) as [c|] eqn:Ec; [|histories].
  assert (Hc : find_connector a id = Some c).
  { revert Ec. unfold connector. by destruct (is_station id). }
  destruct (start_rejection _ _ _ _) eqn:Er; [histories|].
  assert (Ht : ConnectorSnapshot.transaction c = TransactionState.Idle).
  { unfold start_rejection in Er. by destruct (ConnectorSnapshot.transaction c). }
  destruct (start_denied a tag); [histories|]. clear Ec Er.
  change (next_key a) with ((next_key a).1, next_local a + 1). cbv iota.
  set (pending := PendingStart.mk _ _ _ _ _).
  intros B HB Hok.
  match goal with |- context [modify_connector (next_key a).1 id ?f] =>
    destruct (grows_begin h B a id c pending f Hok Hc Ht) as (B1 & HB1 & HBk & Hok1 & Hat1);
      [done|done|by intros x; cbv zeta; case_match|];
    set (d := over invalid_limits (base.delete id) (modify_connector (next_key a).1 id f)) in * end.
  assert (Hokd : ok h B1 d) by by destruct Hok1.
  assert (Hatd : forall i, evolved (find_connector a i) (find_connector d i)) by exact Hat1.
  assert (Hq : queue d = queue a /\ next_local d = next_local a + 1).
  { unfold d, modify_connector. by case_match. }
  clearbody d pending. clear Hok1 Hat1. destruct Hq as [Hq Hl]. destruct (negb (can_talk a)).
  - assert (Htx : PendingStart.tx_id pending = TxId.Local (next_local a + 1))
      by exact (proj2 (ok_starts _ _ _ Hokd _ _ _ HBk)).
    assert (Hle : forall e, e ∈ queue d -> OfflineTx.key e <= next_local a).
    { intros e. rewrite Hq. intros He. by apply (ok_queue _ _ _ Hok). }
    pose proof (grown_start_offline h B1 d id (next_local a + 1) pending (next_local a)
      Hokd HBk Htx Hle Hl ltac:(lia)) as Hoff. cbv zeta in Hoff.
    destruct Hoff as ((B2 & HB2 & Hok2) & Hat2 & Hl2 & Hk2).
    apply (grown_trans h h B B2 a (start_offline d id (next_local a + 1) pending));
      [done|by etransitivity|..].
    + intros i. etransitivity; [apply Hatd|apply Hat2].
    + split; [lia|]. rewrite <- Hq. exact Hk2.
    + histories.
  - apply (grown_trans h h B B1 a d); [done..|split; [lia|]|].
    { intros e. rewrite Hq. intros He. left. by apply list_elem_of_fmap_2. }
    eapply grows_trans; [apply grows_status_changed|]. by eapply grows_call_start.
Qed.
#[local] Hint Resolve grows_start_transaction : histories.


Lemma grows_on_start_result D h (a : t) id local k p done r :
  local = TxId.Local k -> D !! k = Some (id, p) ->
  grows D h h a (on_start_result id local p done a r).
Proof.
  intros Hl HD. unfold on_start_result. destruct r as [response|e]; [|histories].
  destruct (Authorization.apply_online_id_tag_info _ _ _ _ _) as [cache decision]. cbv zeta.
  match goal with |- context [mark_dirty ?b] => set (d := mark_dirty b) end.
  assert (Hd : grows D h h a d) by (unfold d; histories).
  assert (Hours : still_ours a id local = still_ours d id local).
  { unfold still_ours, d. by rewrite find_mark_dirty. }
  clearbody d. rewrite Hours. eapply grows_trans; [exact Hd|]. clear a Hd Hours.
  generalize (ConfigRegistry.stop_transaction_on_invalid_id (registry d)). intros strict.
  destruct (_ || negb (still_ours d id local)) eqn:Eo; [histories|]. apply orb_false_iff in Eo as [_ Eo].
  apply negb_false_iff in Eo. destruct (is_some_and out_of_service _); [histories|].
  match goal with |- context [modify_connector d id ?f] =>
    apply (grows_trans D h h h _ (modify_connector d id f)); [|generalize (modify_connector d id f)] end.
  - apply grows_modify; [done|]. intros B c HB Hok Hc.
    unfold still_ours in Eo. rewrite Hc in Eo. simpl in Eo.
    assert (HBk : B !! k = Some (id, p)) by by eapply lookup_weaken.
    destruct (holds_start h B d id local k p c Hok HBk Hl Hc Eo) as [Ht Hm].
    split_and!; simpl; [done| |rewrite Ht; apply rtc_once, life_confirm|done].
    split; [apply (ok_at _ _ _ Hok id c Hc)|exact Hm].
  - clear Eo. generalize (still_ours d id local). clear d. intros ours d. histories.
Qed.
Lemma grows_begin_remote_start D h (a : t) id tag profile :
  grows D h h a (begin_remote_start a id tag profile).
Proof. unfold begin_remote_start. histories. Qed.
#[local] Hint Resolve grows_begin_remote_start : histories.
Lemma grows_remote_start_reply D hd (a : t) h s : grows D hd hd a (remote_start_reply a h s).
Proof. unfold remote_start_reply. histories. Qed.
#[local] Hint Resolve grows_remote_start_reply : histories.
Lemma grows_run_auth_done D h (a : t) done r : grows D h h a (run_auth_done a done r).
Proof. unfold run_auth_done. histories. Qed.
#[local] Hint Resolve grows_run_auth_done : histories.
Lemma grows_authorize_failed D h (a : t) done e : grows D h h a (authorize_failed done a e).
Proof. unfold authorize_failed. histories. Qed.
#[local] Hint Resolve grows_authorize_failed : histories.
Lemma grows_on_authorize_result D h (a : t) tag done r :
  grows D h h a (on_authorize_result tag done a r).
Proof. unfold on_authorize_result. histories. Qed.
#[local] Hint Resolve grows_on_authorize_result : histories.
Lemma grows_authorize D h (a : t) tag done : grows D h h a (authorize a tag done).
Proof. unfold authorize. histories. Qed.
#[local] Hint Resolve grows_authorize : histories.

(** ** [secure.rs], [reservations.rs] *)

Lemma grows_set_secrets D h (a : t) f : grows D h h a (set_secrets a f).
Proof. unfold set_secrets. histories. Qed.
#[local] Hint Resolve grows_set_secrets : histories.
Lemma grows_set_certs D h (a : t) f : grows D h h a (set_certs a f).
Proof. unfold set_certs. histories. Qed.
#[local] Hint Resolve grows_set_certs : histories.
Lemma grows_stop_sign_series D h (a : t) : grows D h h a (stop_sign_series a).
Proof. unfold stop_sign_series. histories. Qed.
#[local] Hint Resolve grows_stop_sign_series : histories.
Lemma grows_arm_cert_signing_retry D h (a : t) id : grows D h h a (arm_cert_signing_retry a id).
Proof. unfold arm_cert_signing_retry. histories. Qed.
#[local] Hint Resolve grows_arm_cert_signing_retry : histories.
Lemma grows_restore_pending_key D h (a : t) key previous :
  grows D h h a (restore_pending_key a key previous).
Proof. unfold restore_pending_key. histories. Qed.
#[local] Hint Resolve grows_restore_pending_key : histories.
Lemma grows_send_security_event D h (a : t) ty info :
  grows D h h a (send_security_event a ty info).1.
Proof. unfold send_security_event. histories. Qed.
#[local] Hint Resolve grows_send_security_event : histories.
Lemma grows_sign_failed D h (a : t) id key previous r e :
  grows D h h a (sign_failed id key previous r a e).
Proof. unfold sign_failed. histories. Qed.
#[local] Hint Resolve grows_sign_failed : histories.
Lemma grows_on_sign_result D h (a : t) id key previous r res :
  grows D h h a (on_sign_result id key previous r a res).
Proof. unfold on_sign_result. histories. Qed.
#[local] Hint Resolve grows_on_sign_result : histories.
Lemma grows_send_sign_certificate D h (a : t) id r : grows D h h a (send_sign_certificate a id r).
Proof. unfold send_sign_certificate. histories. Qed.
#[local] Hint Resolve grows_send_sign_certificate : histories.
Lemma grows_request_certificate D h (a : t) r : grows D h h a (request_certificate a r).
Proof. unfold request_certificate. histories. Qed.
#[local] Hint Resolve grows_request_certificate : histories.
Lemma grows_on_cert_signing_timer D h (a : t) : grows D h h a (on_cert_signing_timer a).
Proof. unfold on_cert_signing_timer. histories. Qed.
#[local] Hint Resolve grows_on_cert_signing_timer : histories.
Lemma grows_adopt_signed_certificate D h (a : t) chain key :
  grows D h h a (adopt_signed_certificate a chain key).
Proof. unfold adopt_signed_certificate. histories. Qed.
#[local] Hint Resolve grows_adopt_signed_certificate : histories.
Lemma grows_client_certificate_connected D h (a : t) :
  grows D h h a (client_certificate_connected a).
Proof. unfold client_certificate_connected. histories. Qed.
#[local] Hint Resolve grows_client_certificate_connected : histories.
Lemma grows_series_security_event D h (a : t) ty info :
  grows D h h a (series_security_event a ty info).
Proof. unfold series_security_event. histories. Qed.
#[local] Hint Resolve grows_series_security_event : histories.
Lemma grows_report_connect_failure D h (a : t) e : grows D h h a (report_connect_failure a e).
Proof. unfold report_connect_failure. histories. Qed.
#[local] Hint Resolve grows_report_connect_failure : histories.
Lemma grows_on_connection_established D h (a : t) : grows D h h a (on_connection_established a).
Proof. unfold on_connection_established. histories. Qed.
#[local] Hint Resolve grows_on_connection_established : histories.
Lemma grows_on_tls_connected D h (a : t) : grows D h h a (on_tls_connected a).
Proof. unfold on_tls_connected. histories. Qed.
#[local] Hint Resolve grows_on_tls_connected : histories.
Lemma grows_schedule_reconnect_after_reply D h (a : t) :
  grows D h h a (schedule_reconnect_after_reply a).
Proof. unfold schedule_reconnect_after_reply. histories. Qed.
#[local] Hint Resolve grows_schedule_reconnect_after_reply : histories.
Lemma grows_reconnect_for_new_security_parameters D h (a : t) :
  grows D h h a (reconnect_for_new_security_parameters a).
Proof. unfold reconnect_for_new_security_parameters. histories. Qed.
#[local] Hint Resolve grows_reconnect_for_new_security_parameters : histories.
Lemma grows_on_security_key_changed D h (a : t) key : grows D h h a (on_security_key_changed a key).
Proof. unfold on_security_key_changed. histories. Qed.
#[local] Hint Resolve grows_on_security_key_changed : histories.
Lemma grows_released_one D h (a : t) id : grows D h h a (released_one a id).
Proof. unfold released_one. histories. Qed.
#[local] Hint Resolve grows_released_one : histories.
Lemma clear_reservation_stays c : stays c (Reservations.clear_reservation c).1.
Proof.
  unfold Reservations.clear_reservation. destruct (ConnectorSnapshot.reservation c); [|apply stays_refl].
  cbv zeta. case_match; cbn [fst]; apply (stays_refl c).
Qed.
Lemma expire_due_stays l now : Forall2 stays l (Reservations.expire_due l now).1.
Proof.
  induction l as [|c l IH]; simpl; [constructor|].
  destruct (Reservations.expire_due l now) as [l' released]. cbn [fst] in IH.
  case_match; constructor; try done; [apply clear_reservation_stays|apply stays_refl].
Qed.
Lemma grows_release_expired_reservations D h (a : t) :
  grows D h h a (release_expired_reservations a).1.
Proof.
  unfold release_expired_reservations. pose proof (expire_due_stays (connectors a) (now_utc a)) as Hs.
  destruct (Reservations.expire_due _ _) as [l released]. cbn [fst] in *.
  apply (grows_trans D h h h _ (set_connectors a l)).
  - apply grows_connectors. intros i. by apply find_stays.
  - generalize (set_connectors a l). clear Hs a. intros a. histories.
Qed.
#[local] Hint Resolve grows_release_expired_reservations : histories.
Lemma grows_arm depth D h (a : t) id : grows D h h a (arm depth a id).
Proof. revert a id. induction depth; intros a id; cbn [arm]; histories. Qed.
#[local] Hint Resolve grows_arm : histories.
Lemma grows_arm_reservation D h (a : t) id : grows D h h a (arm_reservation a id).
Proof. unfold arm_reservation. histories. Qed.
#[local] Hint Resolve grows_arm_reservation : histories.
Lemma grows_on_reservation_timer D h (a : t) : grows D h h a (on_reservation_timer a).
Proof. unfold on_reservation_timer. histories. Qed.
#[local] Hint Resolve grows_on_reservation_timer : histories.
Lemma grows_after_restore D h (a : t) : grows D h h a (after_restore a).
Proof. unfold after_restore. histories. Qed.
#[local] Hint Resolve grows_after_restore : histories.

(** ** [sampling.rs] *)

Lemma grows_set_samples D h (a : t) l :
  (forall tok, tok ∈ l -> tok ∈ sample_calls a) -> grows D h h a (a <| sample_calls := l |>).
Proof.
  intros Hl B HB Hok. split; [exists B; split; [done|]|by apply evolved_same|].
  - destruct Hok as [H1 H2 H3 H4 H5 H6 H7 H8].
    split; try done. intros tok Htok. by apply H7, Hl.
  - exact (new_keys_refl a).
Qed.

Lemma grows_drop_sample D h (a : t) tok :
  tok ∈ sample_calls a -> grows D h h a (a <| calls ::= base.delete tok |>).
Proof.
  intros Hin B HB Hok. split; [exists B; split; [done|]|by apply evolved_same|exact (new_keys_refl a)].
  destruct Hok as [H1 H2 H3 H4 H5 H6 H7 H8].
  assert (Hnone : none_syncing a -> none_syncing (a <| calls ::= base.delete tok |>)).
  { intros Hn tok' p Hp. simpl in Hp. apply lookup_delete_Some in Hp as [_ Hp]. by apply (Hn tok'). }
  split; try done; simpl.
  - intros tok' p [_ Hp]%lookup_delete_Some. by destruct (H5 tok' p Hp).
  - intros tok' Hin'. destruct (H7 tok' Hin') as [Hlt Hun]. split; [done|].
    intros p [_ Hp]%lookup_delete_Some. by apply Hun.
  - assert (Hrest : resting a -> resting (a <| calls ::= base.delete tok |>)).
    { intros [?|[(tok' & p & Hp & Hs & Hu) Ho]]; [left; naive_solver|right].
      split; [|done]. exists tok', p. split_and!; simpl; [|done|].
      - apply lookup_delete_Some. split; [|done]. intros <-. destruct (H7 tok Hin) as [_ Hun].
        by rewrite (Hun p Hp) in Hs.
      - intros tok2 p2 [_ Hp2]%lookup_delete_Some. by apply Hu. }
    assert (Hstops : only_stops a -> only_stops (a <| calls ::= base.delete tok |>)).
    { intros Hsa tok' p. simpl. intros [_ Hp]%lookup_delete_Some. by apply (Hsa tok'). }
    destruct h as [|k n|n|strict n|]; simpl in *; [naive_solver..|].
    destruct H8 as [Hl ?]. split; [|done]. intros tok1 p1 tok2 p2. simpl.
    intros [_ Hp1]%lookup_delete_Some Hs1 [_ Hp2]%lookup_delete_Some. by apply (Hl tok1 p1 tok2 p2).
Qed.

Lemma grows_abandon_samples D h limit samples (a : t) :
  (forall tok, tok ∈ samples -> tok ∈ sample_calls a) -> grows D h h a (abandon_samples limit samples a).
Proof.
  revert a. induction samples as [|tok rest IH]; intros a Hin; cbn [abandon_samples].
  { by apply grows_set_samples. }
  case_match; [by apply grows_set_samples|].
  case_match; [|apply IH; set_solver].
  eapply grows_trans; [apply (grows_drop_sample D h a tok (Hin tok ltac:(set_solver)))|].
  match goal with |- grows _ _ _ ?b _ => assert (Hb : sample_calls b = sample_calls a) by done end.
  revert Hb. generalize (a <| calls ::= base.delete tok |>). intros b Hb.
  eapply grows_trans; [apply (grows_emit D h b (Aborted tok))|]. cbv zeta.
  case_match.
  - apply IH. intros tok' Hin'. simpl. rewrite Hb. set_solver.
  - eapply grows_trans; [|apply IH; intros tok' Hin'; simpl; rewrite Hb; set_solver].
    generalize (emit b (Aborted tok)). intros c. histories.
Qed.

Lemma grows_make_room_for_sample D h (a : t) : grows D h h a (make_room_for_sample a).
Proof.
  apply grows_abandon_samples. intros tok Hin.
  unfold retain in Hin. by apply list_elem_of_In, List.filter_In in Hin as [Hin%list_elem_of_In _].
Qed.
#[local] Hint Resolve grows_make_room_for_sample : histories.
Lemma grows_sample_failed D h (a : t) id r e :
  settled h = true -> grows D h h a (sample_failed id r a e).
Proof. intros Hh. unfold sample_failed. histories. Qed.
#[local] Hint Resolve grows_sample_failed : histories.
Lemma grows_on_sample_result D h (a : t) id r res :
  settled h = true -> grows D h h a (on_sample_result id r a res).
Proof. intros Hh. unfold on_sample_result. histories. Qed.
#[local] Hint Resolve grows_on_sample_result : histories.

(** Reading the meters and making room do not change whether the CSMS can be talked to. *)
Lemma can_talk_mark_dirty (a : t) : can_talk (mark_dirty a) = can_talk a.
Proof. unfold mark_dirty. by case_match. Qed.
Lemma can_talk_settle_meters (a : t) : can_talk (settle_meters a) = can_talk a.
Proof.
  unfold settle_meters. generalize (map (fun c => (ConnectorSnapshot.id c, is_charging c)) (connectors a)).
  intros l. revert a. induction l as [|x l IH]; intros a; simpl; [done|]. rewrite IH.
  unfold settle_meter. destruct x. by case_match.
Qed.
Lemma can_talk_flush_meters (a : t) : can_talk (flush_meters a) = can_talk a.
Proof.
  unfold flush_meters. cbv zeta. rewrite <- (can_talk_settle_meters a).
  generalize (settle_meters a). clear a. intros a.
  destruct (flush_list _ _) as [[ms l] changed]. case_match; [by rewrite can_talk_mark_dirty|done].
Qed.
Lemma can_talk_add_readings advance ids (acc : t * MeterReading.t) :
  can_talk (fold_left (add_reading advance) ids acc).1 = can_talk acc.1.
Proof.
  revert acc. induction ids as [|x ids IH]; intros acc; simpl; [done|]. rewrite IH.
  destruct acc as [a reading]. unfold add_reading. by repeat case_match.
Qed.
Lemma can_talk_meter_reading (a : t) id advance : can_talk (meter_reading a id advance).1 = can_talk a.
Proof. unfold meter_reading. cbv zeta. rewrite can_talk_add_readings. apply can_talk_flush_meters. Qed.
Lemma can_talk_make_room (a : t) : can_talk (make_room_for_sample a) = can_talk a.
Proof.
  unfold make_room_for_sample. generalize (Z.max MAX_PENDING_SAMPLES (len (connectors a))). intros limit.
  match goal with |- can_talk (abandon_samples _ ?l _) = _ => generalize l end. intros l. revert a.
  induction l as [|tok l IH]; intros a; cbn [abandon_samples]; [done|].
  case_match; [done|]. case_match; [|apply IH]. cbv zeta. rewrite IH. by case_match.
Qed.

(** A timer-driven sample is remembered: its CALL was handed over, and is none of the delivery. *)
Lemma grows_push_sample D h (a : t) o name body v id r :
  let b := hand_over a o name body v (SampleDone id r) in
  grows D h h a (b <| sample_calls ::= fun l => l ++ [next_call_token a] |>).
Proof.
  intros b B HB Hok.
  assert (Hg : grows D h h a b) by by apply grows_hand_over.
  destruct (hand_over_calls a o name body v (SampleDone id r)) as (Hc & Hn & _). fold b in Hc, Hn.
  destruct (Hg B HB Hok) as [(B' & HB' & Hokb) Hat Hk].
  split; [exists B'; split; [done|]|exact Hat|exact Hk]. clearbody b.
  destruct Hokb as [H1 H2 H3 H4 H5 H6 H7 H8].
  split; try done; simpl.
  - intros tok [Hin| ->%list_elem_of_singleton]%elem_of_app; [by apply H7|]. rewrite Hn. split; [lia|].
    intros p. rewrite Hc, lookup_insert_eq. by intros [= <-].
Qed.

Section samples.
(** The serializer of the source cannot fail on a [MeterValues]. *)
Context (samples_serialize : forall request, to_value (Request.MeterValues request) <> None).

Lemma grows_sample_call D h (a : t) request id r :
  settled h = true -> can_talk a = true ->
  let b := call a Origin.Station (Request.MeterValues request) (SampleDone id r) (sample_failed id r) in
  grows D h h a (if negb (is_someb r) && is_someb (calls b !! next_call_token a)
                 then b <| sample_calls ::= fun l => l ++ [next_call_token a] |> else b).
Proof.
  intros Hh Ht b. unfold can_talk in Ht. apply andb_true_iff in Ht as [Hconn Hreg].
  rewrite eqb_true in Hreg. unfold b, call, call_raw, may_send. clear b.
  destruct (to_value _) as [body|] eqn:E; [|by apply samples_serialize in E].
  rewrite Hconn, Hreg. cbn [negb]. replace (gate _ _ _) with true by (by unfold gate; case_match).
  case_match; [apply grows_push_sample|]. by apply grows_hand_over.
Qed.

Lemma grows_sample_meter D h (a : t) id context delta l r :
  settled h = true -> 0 <= delta -> grows D h h a (sample_meter a id context delta l r).
Proof.
  intros Hh Hd. unfold sample_meter. cbv zeta. generalize (now_utc a). intros now.
  eapply grows_trans; [apply grows_flush_meters|]. generalize (flush_meters a). clear a. intros a.
  destruct (find_connector a id) as [c|]; [|histories].
  generalize (negb (is_some_and TxId.is_local (connector_tx_id c))). intros central.
  generalize (connector_tx_id c). intros tx. clear c.
  match goal with |- context [modify_connector a id ?f] =>
    apply (grows_trans D h h h _ (modify_connector a id f)); [|generalize (modify_connector a id f)] end.
  { apply grows_turns; [apply same_rest_modify|]. intros B i HB Hok. rewrite find_modify by done.
    apply (turns_stays h B a i); [done..|]. destruct (find_connector a i) as [c|]; [|by case_match].
    case_match; simpl; [|apply stays_refl]. split_and!; [done..|]. intros Hm. by apply saturating_add_bounds. }
  clear a. intros a.
  match goal with |- context [if ?b then mark_dirty a else a] =>
    apply (grows_trans D h h h _ (if b then mark_dirty a else a));
      [histories|generalize (if b then mark_dirty a else a)] end.
  clear a. intros a. destruct (negb _) eqn:Et; [histories|].
  apply negb_false_iff, andb_true_iff in Et as [Et _].
  pose proof (grows_meter_reading D h a id true) as Hg.
  pose proof (can_talk_meter_reading a id true) as Htr. rewrite Et in Htr.
  destruct (meter_reading a id true) as [d reading]. cbn [fst] in *.
  apply (grows_trans D h h h _ d); [exact Hg|]. clear a Hg Et.
  destruct r as [r|]; cbn [is_someb negb].
  - by apply (grows_sample_call D h d _ id (Some r)).
  - apply (grows_trans D h h h _ (make_room_for_sample d)); [histories|].
    rewrite <- can_talk_make_room in Htr. revert Htr. generalize (make_room_for_sample d). intros a Htr.
    by apply (grows_sample_call D h a _ id None).
Qed.

Lemma grows_on_meter_periodic D h (a : t) id :
  settled h = true -> grows D h h a (on_meter_periodic a id).
Proof.
  intros Hh. unfold on_meter_periodic. cbv zeta. case_match; [histories|]. case_match; [histories|].
  eapply grows_trans; [apply grows_timer_set|]. by apply grows_sample_meter.
Qed.
Lemma grows_on_meter_aligned D h (a : t) : settled h = true -> grows D h h a (on_meter_aligned a).
Proof.
  intros Hh. unfold on_meter_aligned. cbv zeta.
  match goal with |- grows _ _ _ _ (fold_left _ _ ?b) =>
    apply (grows_trans D h h h _ b); [destruct (aligned_delay a); histories|] end.
  apply grows_fold. intros. by apply grows_sample_meter.
Qed.
Lemma grows_meter_values_command D h (a : t) id wh l r :
  settled h = true -> 0 <= wh -> grows D h h a (meter_values_command a id wh l r).
Proof.
  intros Hh Hw. unfold meter_values_command. case_match; [by apply grows_sample_meter|histories].
Qed.
End samples.
End operations.
#[export] Hint Resolve
  grows_timer_set grows_timer_set_if_idle grows_timer_cancel grows_timer_cancel_where
  grows_set_registration grows_set_connection grows_mark_dirty grows_mark_secrets_dirty
  grows_settle_meter grows_settle_meters grows_flush_meters grows_meter_reading
  grows_flush_persistence grows_flush_now grows_on_saved grows_set_tracker grows_status_failed
  grows_dispatch_status grows_status_changed grows_status_timer_fired grows_send_status_forced
  grows_resend_all_statuses grows_flush_pending_statuses grows_reset_status_tracking
  grows_reschedule_periodic grows_reschedule_metering grows_restart_metering
  grows_security_event_failed grows_send_security_event_call grows_flush_security_events
  grows_security_event grows_report_diagnostics grows_report_firmware grows_report_log
  grows_report_signed_firmware grows_cancel_maintenance grows_cancel_log_upload
  grows_cancel_signed_firmware grows_arm_next grows_on_diagnostics_timer grows_on_firmware_timer
  grows_on_log_timer grows_on_signed_firmware_timer grows_set_charging_profile
  grows_install_remote_profile grows_run_done grows_profiles_ended
  grows_limit_energy_on_invalid_id grows_apply_pending_availability grows_begin_charging
  grows_abandon_start grows_send_stop_for grows_finish_stop grows_drop_local_transaction
  grows_finish_boot_accepted grows_record_sync_failure grows_drop_exhausted grows_arm_sync_retry
  grows_arm_sync_retry_if_idle grows_sync_done grows_start_offline_sync grows_sync_if_can_talk
  grows_on_sync_retry_timer grows_stop_next grows_stop_failed grows_on_stop_result
  grows_stop_info grows_stop_transaction grows_check_energy_limit grows_start_failed
  grows_start_transaction grows_begin_remote_start grows_remote_start_reply grows_run_auth_done
  grows_authorize_failed grows_on_authorize_result grows_authorize grows_set_secrets
  grows_set_certs grows_stop_sign_series grows_arm_cert_signing_retry grows_restore_pending_key
  grows_send_security_event grows_sign_failed grows_on_sign_result grows_send_sign_certificate
  grows_request_certificate grows_on_cert_signing_timer grows_adopt_signed_certificate
  grows_client_certificate_connected grows_series_security_event grows_report_connect_failure
  grows_on_connection_established grows_on_tls_connected grows_schedule_reconnect_after_reply
  grows_reconnect_for_new_security_parameters grows_on_security_key_changed grows_released_one
  grows_release_expired_reservations grows_arm grows_arm_reservation grows_on_reservation_timer
  grows_after_restore grows_make_room_for_sample grows_sample_failed grows_on_sample_result : histories.
End HistoryOps.
Export (hints) HistoryOps.
