(* ===== verification/Lifecycle.v ===== *)
(** * Lifecycle: transactions, registers and the delivery of the queue over whole runs

    The histories ([Histories.v], [HistoryOps.v]) through the link, the handlers of incoming
    CALLs, the commands and the loop, and what follows for a station from its start on: the
    transaction of every connector moves along [life] only, no energy register runs backwards,
    the ids of transactions are of the side that drew them, and the delivery of the offline queue
    is never stuck. *)

From stdpp Require Import strings gmap.
From S2P Require Import Prelude Text F64 Time Types Messages SecurityMessages Frame Actions.
From S2P Require Import ResponseRules Config ConfigRegistry LocalAuthList Authorization.
From S2P Require Import Connector Reservation Offline Timers Metering SmartCharging.
From S2P Require Import ChargingProfiles Maintenance Security Certificates Interface Store.
From S2P Require Import Actor Calls Transactions Secure Sampling Link Handlers.
From S2P Require Import Commands Restore Station Samples Walk Histories HistoryOps.
Local Open Scope Z_scope.

Module Lifecycle.
Import Actor Calls Transactions Secure Sampling ReservationTimers Links Handlers Commands Station.
Import Histories HistoryOps.
Section lifecycle.
Context {J : SerdeJson} {P : Pki} {C : Chrono} {W : Wire} {U : UrlParser} {I : InWire}.

(** ** [link.rs] *)

(** A change of the link that keeps the connection; at rest any change is fine. *)
Lemma grows_set_link D h (a : t) f :
  (forall l, Link.conn (f l) = Link.conn l) -> grows D h h a (set_link a f).
Proof.
  intros Hf. apply grows_same; [|done]. split_and!; try done. unfold connected. simpl. apply Hf.
Qed.
#[local] Hint Resolve grows_set_link : histories.
#[local] Hint Extern 1 (forall _, _ = _) => intros; reflexivity : histories.
Lemma grows_set_link_rest D (a : t) f : grows D Rest Rest a (set_link a f).
Proof.
  apply grows_sync_change; [by split_and!|done|]. intros B Hok. exact (ok_sync _ _ _ Hok).
Qed.
#[local] Hint Resolve grows_set_link_rest : histories.
Lemma grows_arm_heartbeat D h (a : t) : grows D h h a (arm_heartbeat a).
Proof. unfold arm_heartbeat. histories. Qed.
#[local] Hint Resolve grows_arm_heartbeat : histories.
Lemma grows_after_boot_accepted D (a : t) : grows D Rest Rest a (after_boot_accepted a).
Proof. unfold after_boot_accepted. histories. Qed.
#[local] Hint Resolve grows_after_boot_accepted : histories.
Lemma grows_on_boot_accepted D (a : t) res : grows D Rest Rest a (on_boot_accepted a res).
Proof. unfold on_boot_accepted. histories. Qed.
#[local] Hint Resolve grows_on_boot_accepted : histories.
Lemma grows_boot_failed D h (a : t) r e : grows D h h a (boot_failed a r e).
Proof. unfold boot_failed. histories. Qed.
#[local] Hint Resolve grows_boot_failed : histories.
Lemma grows_on_boot_refused D h (a : t) res : grows D h h a (on_boot_refused a res).
Proof. unfold on_boot_refused. histories. Qed.
#[local] Hint Resolve grows_on_boot_refused : histories.
Lemma grows_on_boot_result D (a : t) r res : grows D Rest Rest a (on_boot_result a r res).
Proof. unfold on_boot_result. histories. Qed.
#[local] Hint Resolve grows_on_boot_result : histories.
Lemma grows_boot_failed_done D h (a : t) gen r e : grows D h h a (boot_done gen r a (Err e)).
Proof. unfold boot_done, on_boot_result. histories. Qed.
#[local] Hint Resolve grows_boot_failed_done : histories.
Lemma grows_boot_done D (a : t) gen r res : grows D Rest Rest a (boot_done gen r a res).
Proof. unfold boot_done. histories. Qed.
#[local] Hint Resolve grows_boot_done : histories.
Lemma grows_send_boot D h (a : t) r : grows D h h a (send_boot a r).
Proof. unfold send_boot. destruct r; cbn [is_someb negb andb]; histories. Qed.
#[local] Hint Resolve grows_send_boot : histories.
Lemma grows_on_boot_retry_timer D h (a : t) : grows D h h a (on_boot_retry_timer a).
Proof. unfold on_boot_retry_timer. histories. Qed.
#[local] Hint Resolve grows_on_boot_retry_timer : histories.
Lemma grows_heartbeat_done D h (a : t) r res : grows D h h a (heartbeat_done r a res).
Proof. unfold heartbeat_done. histories. Qed.
#[local] Hint Resolve grows_heartbeat_done : histories.
Lemma grows_send_heartbeat D h (a : t) o r : grows D h h a (send_heartbeat a o r).
Proof. unfold send_heartbeat. histories. Qed.
#[local] Hint Resolve grows_send_heartbeat : histories.
Lemma grows_on_heartbeat_timer D h (a : t) : grows D h h a (on_heartbeat_timer a).
Proof. unfold on_heartbeat_timer. histories. Qed.
#[local] Hint Resolve grows_on_heartbeat_timer : histories.
Lemma grows_log_data_transfer_result D h (a : t) name payload :
  grows D h h a (log_data_transfer_result a name payload).
Proof. unfold log_data_transfer_result. histories. Qed.
#[local] Hint Resolve grows_log_data_transfer_result : histories.
Lemma grows_user_call_done D h (a : t) name r res : grows D h h a (user_call_done name r a res).
Proof. unfold user_call_done. histories. Qed.
#[local] Hint Resolve grows_user_call_done : histories.
Lemma grows_user_call D h (a : t) request r : grows D h h a (user_call a request r).
Proof. unfold user_call. histories. Qed.
#[local] Hint Resolve grows_user_call : histories.
Lemma grows_raw_done D h (a : t) r res : grows D h h a (raw_done r a res).
Proof. unfold raw_done. histories. Qed.
#[local] Hint Resolve grows_raw_done : histories.
Lemma grows_send_raw D h (a : t) name body v r : grows D h h a (send_raw a name body v r).
Proof. unfold send_raw. histories. Qed.
#[local] Hint Resolve grows_send_raw : histories.
Lemma grows_status_done D h (a : t) id key r res : grows D h h a (status_done id key r a res).
Proof. unfold status_done. histories. Qed.
#[local] Hint Resolve grows_status_done : histories.
Lemma grows_security_event_done D h (a : t) event res :
  grows D h h a (security_event_done event a res).
Proof. unfold security_event_done. histories. Qed.
#[local] Hint Resolve grows_security_event_done : histories.

(** What a closure has captured was begun. *)
Definition begun (D : starts) (k : Continuation) : Prop :=
  match k with
  | StartDone id local pending _ => exists n, local = TxId.Local n /\ D !! n = Some (id, pending)
  | _ => True
  end.
Lemma carried_begun B (a : t) k : carried B a k -> begun B k.
Proof. by destruct k. Qed.

(** The closure of a CALL runs; one of the delivery takes the delivery on. *)
Lemma grows_run_continuation D name k (a : t) r :
  is_sync k = false -> begun D k -> grows D Rest Rest a (run_continuation name k a r).
Proof.
  intros Hk Hb. destruct k; try done; unfold run_continuation; cbv zeta; try histories.
  destruct Hb as (n & Hl & Hn). by eapply grows_on_start_result.
Qed.
Definition is_sync_stop (k : Continuation) : bool := match k with SyncStop _ => true | _ => false end.
Lemma grows_run_sync_continuation D name k n (a : t) r :
  is_sync k = true ->
  grows D (Holding k n) (Within (is_sync_stop k) (n - 1)) a (run_continuation name k a r).
Proof.
  intros Hk. destruct k; try done; unfold run_continuation; cbv zeta; cbn [is_sync_stop].
  - apply grows_on_sync_start.
  - apply grows_on_sync_stop.
Qed.
(** Its CALL has failed. *)
Lemma grows_fail_continuation D h name k (a : t) e :
  settled h = true -> is_sync k = false -> begun D k ->
  grows D h h a (run_continuation name k a (Err e)).
Proof.
  intros Hh Hk Hb. destruct k; try done; unfold run_continuation; cbn [typed]; cbv zeta; try histories.
  destruct Hb as (n & Hl & Hn). by eapply grows_on_start_result.
Qed.

Lemma grows_start_connect D h (a : t) : grows D h h a (start_connect a).
Proof. unfold start_connect. histories. Qed.
#[local] Hint Resolve grows_start_connect : histories.
Lemma grows_connect D h (a : t) : grows D h h a (connect a).
Proof. unfold connect. histories. Qed.
#[local] Hint Resolve grows_connect : histories.
Lemma grows_abort_connecting D h (a : t) : grows D h h a (abort_connecting a).
Proof. unfold abort_connecting. histories. Qed.
#[local] Hint Resolve grows_abort_connecting : histories.
Lemma grows_schedule_reconnect D h (a : t) : grows D h h a (schedule_reconnect a).
Proof. unfold schedule_reconnect. histories. Qed.
#[local] Hint Resolve grows_schedule_reconnect : histories.
Lemma grows_on_reconnect_timer D h (a : t) : grows D h h a (on_reconnect_timer a).
Proof. unfold on_reconnect_timer. histories. Qed.
#[local] Hint Resolve grows_on_reconnect_timer : histories.
Lemma grows_on_connect_result D (a : t) gen r : grows D Rest Rest a (on_connect_result a gen r).
Proof. unfold on_connect_result. histories. Qed.
#[local] Hint Resolve grows_on_connect_result : histories.

(** ** The link goes down *)

Lemma begun_sub D D' k : D ⊆ D' -> begun D k -> begun D' k.
Proof.
  intros HD. destruct k; simpl; try done. intros (n & Hl & Hn). exists n. split; [done|].
  by eapply lookup_weaken.
Qed.

Lemma grows_fail_one D h e (a : t) p :
  settled h = true -> is_sync (continuation p.2) = false -> begun D (continuation p.2) ->
  grows D h h a (fail_one e a p).
Proof.
  intros Hh Hk Hb. unfold fail_one. eapply grows_trans; [apply grows_emit|]. by apply grows_fail_continuation.
Qed.
Lemma grows_fail_sync_one D e n (a : t) p :
  is_sync (continuation p.2) = true -> grows D (Holding (continuation p.2) n) Rest a (fail_one e a p).
Proof.
  intros Hk. unfold fail_one. eapply grows_trans; [apply grows_emit|].
  by eapply grows_rest, grows_run_sync_continuation.
Qed.
Lemma grows_fail_plain D h e l (a : t) :
  settled h = true ->
  (forall p, p ∈ l -> is_sync (continuation p.2) = false /\ begun D (continuation p.2)) ->
  grows D h h a (fold_left (fail_one e) l a).
Proof.
  intros Hh. revert a. induction l as [|p l IH]; intros a Hl; simpl; [apply grows_refl|].
  destruct (Hl p ltac:(by left)). eapply grows_trans; [by apply grows_fail_one|].
  apply IH. intros q Hq. apply Hl. by right.
Qed.

(** The calls in flight: none of the delivery, or one of it between others. *)
Lemma pending_cases (m : gmap Z PendingCall) :
  (forall tok p tok' p', m !! tok = Some p -> is_sync (continuation p) = true ->
     m !! tok' = Some p' -> is_sync (continuation p') = true -> tok' = tok) ->
  (forall x, x ∈ pending_in_order m -> is_sync (continuation x.2) = false) \/
  exists l1 x l2, pending_in_order m = l1 ++ x :: l2 /\ m !! x.1 = Some x.2 /\
    is_sync (continuation x.2) = true /\
    forall y, y ∈ l1 ++ l2 -> is_sync (continuation y.2) = false.
Proof.
  intros Hlone. pose proof (pending_in_order_perm m) as Hp.
  assert (Hin : forall x, x ∈ pending_in_order m -> m !! x.1 = Some x.2).
  { intros [tok p]. rewrite Hp. by intros ?%elem_of_map_to_list. }
  assert (Hnd : NoDup (pending_in_order m)).
  { rewrite Hp. apply NoDup_map_to_list. }
  destruct (base.decide (Exists (fun x => is_sync (continuation x.2) = true) (pending_in_order m))) as [He|He].
  - right. apply Exists_exists in He as (x & Hx & Hs). pose proof (Hin x Hx) as Hmx.
    apply list_elem_of_split in Hx as (l1 & l2 & Hl). exists l1, x, l2. split_and!; [done..|].
    rewrite Hl in Hnd. apply NoDup_app in Hnd as (_ & Hd1 & Hnd2). apply NoDup_cons in Hnd2 as [Hd2 _].
    intros y Hy. apply not_true_is_false. intros Hsy.
    assert (Hmy : m !! y.1 = Some y.2) by (apply Hin; rewrite Hl; set_solver).
    assert (y = x) as ->.
    { pose proof (Hlone _ _ _ _ Hmx Hs Hmy Hsy) as Heq. rewrite Heq in Hmy.
      destruct x, y; simpl in *; congruence. }
    apply elem_of_app in Hy as [Hy|Hy]; [|done]. apply (Hd1 x Hy). by left.
  - left. intros x Hx. apply not_true_is_false. intros Hs. apply He, Exists_exists. eauto.
Qed.

(** With the calls gone, the closure that is in hand is the one of the delivery. *)
Lemma ok_no_calls h h' B (a : t) :
  ok h B a -> (forall k n, h' = Holding k n -> carried B a k) -> sync_ok h' (a <| calls := ∅ |>) ->
  ok h' B (a <| calls := ∅ |>).
Proof.
  intros [H1 H2 H3 H4 H5 H6 H7 H8] Hc Hs. split; try done; simpl.
  intros tok Hin. destruct (H7 tok Hin). split; [done|]. intros p. by rewrite lookup_empty.
Qed.

Lemma grown_fail_all h B (a : t) e :
  ok h B a -> settled h = true -> lone_syncing a ->
  (one_syncing a -> sync_outstanding a = 1 + len (sync_keys a) \/
     (sync_outstanding a = 0 /\ sync_keys a = [] /\ connected a = false)) ->
  (none_syncing a -> sync_outstanding a = 0 /\ sync_keys a = []) ->
  grown Rest B a (fail_pending_calls a e).
Proof.
  intros Hok Hh Hlone Hone Hnone. unfold fail_pending_calls. cbv zeta.
  pose proof (pending_in_order_perm (calls a)) as Hperm.
  assert (Hin : forall x, x ∈ pending_in_order (calls a) -> calls a !! x.1 = Some x.2).
  { intros [tok p]. rewrite Hperm. by intros ?%elem_of_map_to_list. }
  assert (Hbeg : forall x, x ∈ pending_in_order (calls a) -> begun B (continuation x.2)).
  { intros x Hx. eapply carried_begun. by apply (ok_calls _ _ _ Hok x.1), Hin. }
  assert (Hempty : none_syncing (a <| calls := ∅ |>)) by (intros tok p; simpl; by rewrite lookup_empty).
  destruct (pending_cases (calls a) Hlone) as [Hno|(l1 & x & l2 & Hl & Hx & Hs & Hrest)].
  - assert (Hn : none_syncing a).
    { intros tok p Hp. apply (Hno (tok, p)). rewrite Hperm. by apply elem_of_map_to_list. }
    apply (grown_trans Rest Rest B B a (a <| calls := ∅ |>));
      [|done|by apply evolved_same|exact (new_keys_refl a)|apply grows_fail_plain; auto].
    apply (ok_no_calls h); [done..|]. left. split; [done|]. by apply Hnone.
  - assert (Ho : one_syncing a) by (exists x.1, x.2; split_and!; eauto).
    assert (Hcount : exists n, sync_ok (Holding (continuation x.2) n) (a <| calls := ∅ |>)).
    { destruct (Hone Ho) as [Hc|Hc].
      - exists (1 + len (sync_keys a)). split; [done|]. pose proof (len_nonneg (sync_keys a)).
        split; [lia|]. left. split; [exact Hc|done].
      - exists 1. split; [done|]. split; [lia|]. by right. }
    destruct Hcount as [n Hcount].
    apply (grown_trans (Holding (continuation x.2) n) Rest B B a (a <| calls := ∅ |>));
      [|done|by apply evolved_same|exact (new_keys_refl a)|].
    + apply (ok_no_calls h); [done| |done]. intros k m [= <- _]. by apply (ok_calls _ _ _ Hok x.1).
    + rewrite Hl in *. rewrite fold_left_app. cbn [fold_left].
      generalize (a <| calls := ∅ |>). intros c.
      apply (grows_trans B (Holding (continuation x.2) n) (Holding (continuation x.2) n) Rest _
               (fold_left (fail_one e) l1 c)).
      { apply grows_fail_plain; [done|]. intros y Hy. split; [apply Hrest; set_solver|apply Hbeg; set_solver]. }
      generalize (fold_left (fail_one e) l1 c). clear c. intros c.
      apply (grows_trans B _ Rest Rest _ (fail_one e c x)); [by apply grows_fail_sync_one|].
      apply grows_fail_plain; [done|]. intros y Hy. split; [apply Hrest; set_solver|apply Hbeg; set_solver].
Qed.

Lemma one_lone (a : t) : one_syncing a -> lone_syncing a.
Proof.
  intros (tok & p & Hp & Hs & Hu) tok1 p1 tok2 p2 H1 S1 H2 S2.
  by rewrite (Hu tok1 p1 H1 S1), (Hu tok2 p2 H2 S2).
Qed.
Lemma none_lone (a : t) : none_syncing a -> lone_syncing a.
Proof. intros Hn tok1 p1 tok2 p2 H1 S1. by rewrite (Hn tok1 p1 H1) in S1. Qed.
Lemma none_not_one (a : t) : none_syncing a -> one_syncing a -> False.
Proof. intros Hn (tok & p & Hp & Hs & _). by rewrite (Hn tok p Hp) in Hs. Qed.

(** The calls in flight are failed while the link is up, or once it is down. *)
Lemma grows_fail_pending_calls D (a : t) e : grows D Rest Rest a (fail_pending_calls a e).
Proof.
  intros B _ Hok. pose proof (ok_sync _ _ _ Hok) as Hs. apply (grown_fail_all Rest); [done..| | |].
  - destruct Hs as [[Hn _]|[Ho _]]; [by apply none_lone|by apply one_lone].
  - intros Ho. destruct Hs as [[Hn _]|[_ Ho']]; [by destruct (none_not_one a)|by left].
  - intros Hn. destruct Hs as [[_ ?]|[Ho _]]; [done|by destruct (none_not_one a)].
Qed.
Lemma grows_fail_down D (a : t) e :
  sync_outstanding a = 0 -> sync_keys a = [] -> grows D Down Rest a (fail_pending_calls a e).
Proof.
  intros H0 Hk B _ Hok. destruct (ok_sync _ _ _ Hok) as [Hl Hd]. apply (grown_fail_all Down); auto.
Qed.

Lemma grows_goes_down D (a : t) f :
  (forall l, Link.conn (f l) = false) -> grows D Rest Down a (set_link a f).
Proof.
  intros Hf. apply grows_sync_change; [by split_and!|done|]. intros B Hok.
  split; [|unfold connected; simpl; apply Hf].
  destruct (ok_sync _ _ _ Hok) as [[Hn _]|[Ho _]]; [by apply (none_lone a)|by apply (one_lone a)].
Qed.
Lemma grows_reset_sync D (a b : t) :
  same_but_sync a b -> connected b = connected a -> grows D Down Down a b.
Proof.
  intros Hs Hc. apply grows_sync_change; [done..|]. intros B Hok. destruct (ok_sync _ _ _ Hok) as [Hl Hd].
  split; [|by rewrite Hc]. unfold lone_syncing. by rewrite (proj1 Hs).
Qed.

Lemma grows_link_down D (a : t) code : grows D Rest Rest a (link_down a code).
Proof.
  unfold link_down. cbv zeta.
  match goal with |- context [set_link a ?f] =>
    apply (grows_trans D Rest Down Rest _ (set_link a f)); [by apply grows_goes_down|];
    generalize (set_link a f) end.
  clear a. intros a.
  match goal with |- context [over sync_outstanding ?f ?b] =>
    apply (grows_trans D Down Down Rest _ b); [histories|generalize b] end.
  clear a. intros a.
  match goal with |- context [timer_cancel ?b TimerKey.SyncRetry] =>
    apply (grows_trans D Down Down Rest _ b); [by apply grows_reset_sync|];
    assert (Ho : sync_outstanding b = 0 /\ sync_keys b = []) by done;
    revert Ho; generalize b end.
  clear a. intros a Ho.
  match goal with |- context [fail_pending_calls ?b ?e] =>
    apply (grows_trans D Down Down Rest _ b); [histories|];
    change (sync_outstanding b = 0 /\ sync_keys b = []) in Ho; revert Ho; generalize b end.
  clear a. intros a [Ho Hk].
  match goal with |- context [fail_pending_calls a ?e] =>
    apply (grows_trans D Down Rest Rest _ (fail_pending_calls a e)); [by apply grows_fail_down|];
    generalize (fail_pending_calls a e) end.
  clear a Ho Hk. intros a. histories.
Qed.
#[local] Hint Resolve grows_fail_pending_calls grows_link_down : histories.
Lemma grows_drop_connection D (a : t) : grows D Rest Rest a (drop_connection a).
Proof. unfold drop_connection. histories. Qed.
#[local] Hint Resolve grows_drop_connection : histories.
Lemma grows_disconnect D (a : t) : grows D Rest Rest a (disconnect a).
Proof. unfold disconnect. histories. Qed.
#[local] Hint Resolve grows_disconnect : histories.
Lemma grows_reconnect_for_hard_reset D (a : t) : grows D Rest Rest a (reconnect_for_hard_reset a).
Proof. unfold reconnect_for_hard_reset. histories. Qed.
#[local] Hint Resolve grows_reconnect_for_hard_reset : histories.
Lemma grows_on_closed D (a : t) code : grows D Rest Rest a (on_closed a code).
Proof. unfold on_closed. histories. Qed.
#[local] Hint Resolve grows_on_closed : histories.
Lemma grows_on_hard_reset_timer D (a : t) : grows D Rest Rest a (on_hard_reset_timer a).
Proof. unfold on_hard_reset_timer. histories. Qed.
#[local] Hint Resolve grows_on_hard_reset_timer : histories.

(** A CALL is answered: its closure is taken in hand and runs. *)
Definition taken (k : Continuation) (a : t) : hand :=
  if is_sync k then Holding k (sync_outstanding a) else Rest.
Lemma ok_take B (a : t) tok p :
  ok Rest B a -> calls a !! tok = Some p ->
  ok (taken (continuation p) a) B (a <| calls ::= base.delete tok |>).
Proof.
  intros Hok E. destruct Hok as [H1 H2 H3 H4 H5 H6 H7 H8]. unfold taken. split; try done; simpl.
  - intros tok' p' [_ Hp]%lookup_delete_Some. by destruct (H5 tok' p' Hp).
  - intros k n. case_match; [|done]. intros [= <- _]. by apply (H5 tok).
  - intros tok' Hin. destruct (H7 tok' Hin) as [Hlt Hun]. split; [done|].
    intros p' [_ Hp]%lookup_delete_Some. by apply Hun.
  - destruct (is_sync (continuation p)) eqn:Es.
    + destruct H8 as [[Hn _]|[(tok1 & p1 & Hp1 & Hs1 & Hu) Ho]]; [by rewrite (Hn tok p E) in Es|].
      split; [|pose proof (len_nonneg (sync_keys a)); split; [lia|by left]].
      intros tok' p'. simpl. intros [Hne Hp']%lookup_delete_Some.
      apply not_true_is_false. intros Hs'. apply Hne.
      by rewrite (Hu tok p E Es), (Hu tok' p' Hp' Hs').
    + destruct H8 as [[Hn ?]|[(tok1 & p1 & Hp1 & Hs1 & Hu) Ho]].
      * left. split; [|done]. intros tok' p'. simpl. intros [_ Hp']%lookup_delete_Some. by apply (Hn tok').
      * right. split; [|done]. exists tok1, p1. split_and!; simpl; [|done|].
        -- apply lookup_delete_Some. split; [|done]. intros <-. congruence.
        -- intros tok' p' [_ Hp']%lookup_delete_Some. by apply Hu.
Qed.

(** The answer to the CALL of the delivery: at least one entry less is left, or its start is
    delivered and its stop is under way. *)
Lemma grown_on_sync_answer B (a : t) tok p r :
  ok Rest B a -> calls a !! tok = Some p -> is_sync (continuation p) = true ->
  grown (Within (is_sync_stop (continuation p)) (sync_outstanding a - 1)) B a
    (on_call_done a tok (Link.generation (link a)) r).
Proof.
  intros Hok E Es. unfold on_call_done. rewrite Z.eqb_refl. cbn [negb]. rewrite E. cbv zeta.
  pose proof (ok_take B a tok p Hok E) as Hb. unfold taken in Hb. rewrite Es in Hb.
  set (b := a <| calls ::= base.delete tok |>) in *.
  apply (grown_trans _ _ B B a b _ Hb); [done|by apply evolved_same|exact (new_keys_refl a)|].
  eapply grows_trans; [apply grows_log|]. by apply grows_run_sync_continuation.
Qed.

Lemma grows_on_call_done D (a : t) tok gen r : grows D Rest Rest a (on_call_done a tok gen r).
Proof.
  intros B HB Hok. unfold on_call_done. case_match; [by apply grows_refl with (D := D)|].
  destruct (calls a !! tok) as [p|] eqn:E; [|by apply grows_refl with (D := D)]. cbv zeta.
  pose proof (ok_take B a tok p Hok E) as Hb. unfold taken in Hb.
  set (b := a <| calls ::= base.delete tok |>) in *.
  apply (grown_trans _ Rest B B a b _ Hb); [done|by apply evolved_same|exact (new_keys_refl a)|].
  eapply grows_trans; [apply grows_log|].
  destruct (is_sync (continuation p)) eqn:Es; [by eapply grows_rest, grows_run_sync_continuation|].
  apply grows_run_continuation; [done|]. eapply carried_begun. by apply (ok_calls _ _ _ Hok tok).
Qed.
#[local] Hint Resolve grows_on_call_done : histories.

(** ** [handlers] *)

Lemma grows_change_one D kind (acc : t * bool * list ConnectorId) id :
  grows D Rest Rest acc.1.1 (change_one kind acc id).1.1.
Proof. destruct acc as [[a scheduled] changed]. unfold change_one. repeat case_match; cbn [fst]; histories. Qed.
Lemma grows_change_all D kind l (a : t) scheduled changed :
  grows D Rest Rest a (fold_left (change_one kind) l (a, scheduled, changed)).1.1.
Proof.
  revert a scheduled changed.
  induction l as [|id l IH]; intros a scheduled changed; cbn [fold_left]; [apply grows_refl|].
  eapply grows_trans; [apply (grows_change_one D kind (a, scheduled, changed) id)|].
  destruct (change_one kind _ id) as [[? ?] ?]. apply IH.
Qed.
Lemma grows_change_station D (a : t) kind : grows D Rest Rest a (change_station a kind).
Proof.
  set (b := modify_connector a STATION (fun c =>
    c <| ConnectorSnapshot.availability := kind |>
      <| ConnectorSnapshot.status ::= Connector.charge_point_status kind |>)).
  change (change_station a kind) with (b <| state ::= fun s => s <| Snapshot.availability := kind |> |>).
  apply (grows_trans D Rest Rest Rest _ b).
  - apply grows_plain. plain_change.
  - generalize b. clear. intros a. histories.
Qed.
#[local] Hint Resolve grows_change_station : histories.
Lemma grows_change_availability D (a : t) h request :
  grows D Rest Rest a (change_availability a h request).
Proof.
  unfold change_availability. cbv zeta. case_match; [histories|].
  generalize (if is_station (ChangeAvailabilityRequest.connector_id request) then connector_ids a
              else [ChangeAvailabilityRequest.connector_id request]). intros targets.
  set (start := if is_station _ then _ else _).
  assert (Hs : grows D Rest Rest a start.1) by (unfold start; case_match; cbn [fst]; histories).
  destruct start as [b changed]. cbn [fst] in Hs. eapply grows_trans; [exact Hs|]. clear Hs.
  pose proof (grows_change_all D (ChangeAvailabilityRequest.kind request) targets b false changed) as Hc.
  destruct (fold_left _ targets _) as [[d scheduled] all]. cbn [fst] in Hc.
  eapply grows_trans; [exact Hc|]. histories.
Qed.
#[local] Hint Resolve grows_change_availability : histories.
Lemma grows_unlock_connector D (a : t) h request :
  grows D Rest Rest a (unlock_connector a h request).
Proof. unfold unlock_connector. cbv zeta. case_match; histories. Qed.
#[local] Hint Resolve grows_unlock_connector : histories.
Lemma grows_on_configuration_changed D (a : t) key :
  grows D Rest Rest a (on_configuration_changed a key).
Proof. unfold on_configuration_changed. histories. Qed.
#[local] Hint Resolve grows_on_configuration_changed : histories.
Lemma grows_apply_configuration_change D (a : t) key v :
  grows D Rest Rest a (apply_configuration_change a key v).1.
Proof. unfold apply_configuration_change. histories. Qed.
#[local] Hint Resolve grows_apply_configuration_change : histories.
Lemma grows_change_configuration D (a : t) h request :
  grows D Rest Rest a (change_configuration a h request).
Proof. unfold change_configuration. histories. Qed.
#[local] Hint Resolve grows_change_configuration : histories.
Lemma grows_get_configuration D (a : t) h request :
  grows D Rest Rest a (get_configuration a h request).
Proof. unfold get_configuration. histories. Qed.
#[local] Hint Resolve grows_get_configuration : histories.
Lemma grows_data_transfer D (a : t) h request : grows D Rest Rest a (data_transfer a h request).
Proof. unfold data_transfer. histories. Qed.
#[local] Hint Resolve grows_data_transfer : histories.
Lemma grows_send_local_list D (a : t) h request : grows D Rest Rest a (send_local_list a h request).
Proof. unfold send_local_list. histories. Qed.
#[local] Hint Resolve grows_send_local_list : histories.
Lemma grows_get_version D (a : t) h : grows D Rest Rest a (get_version a h).
Proof. unfold get_version. histories. Qed.
#[local] Hint Resolve grows_get_version : histories.
Lemma grows_clear_cache D (a : t) h : grows D Rest Rest a (clear_cache a h).
Proof. unfold clear_cache. histories. Qed.
#[local] Hint Resolve grows_clear_cache : histories.
Lemma grows_remote_start D (a : t) h request : grows D Rest Rest a (remote_start a h request).
Proof. unfold remote_start. histories. Qed.
#[local] Hint Resolve grows_remote_start : histories.
Lemma grows_remote_stop D (a : t) h request : grows D Rest Rest a (remote_stop a h request).
Proof. unfold remote_stop. histories. Qed.
#[local] Hint Resolve grows_remote_stop : histories.
Lemma grows_reset_running D (a : t) reason id : grows D Rest Rest a (reset_running reason a id).
Proof. unfold reset_running. histories. Qed.
#[local] Hint Resolve grows_reset_running : histories.
Lemma grows_reset_reserved D (a : t) id : grows D Rest Rest a (reset_reserved a id).
Proof. unfold reset_reserved. histories. Qed.
#[local] Hint Resolve grows_reset_reserved : histories.
Lemma grows_perform_reset D (a : t) kind : grows D Rest Rest a (perform_reset a kind).
Proof. unfold perform_reset. histories. Qed.
#[local] Hint Resolve grows_perform_reset : histories.
Lemma grows_reset D (a : t) h request : grows D Rest Rest a (reset a h request).
Proof. unfold reset. histories. Qed.
#[local] Hint Resolve grows_reset : histories.
Lemma stays_trans c1 c2 c3 : stays c1 c2 -> stays c2 c3 -> stays c1 c3.
Proof.
  intros (I1 & T1 & M1) (I2 & T2 & M2). split_and!; [congruence|congruence|]. intros Hm.
  specialize (M1 Hm). assert (H2 : in_u64 (ConnectorSnapshot.meter_wh c2)) by (unfold in_u64 in *; lia).
  specialize (M2 H2). lia.
Qed.
Lemma all_stay l : Forall2 stays l l.
Proof. induction l; constructor; [apply stays_refl|done]. Qed.
Lemma all_stay_trans l1 l2 l3 : Forall2 stays l1 l2 -> Forall2 stays l2 l3 -> Forall2 stays l1 l3.
Proof.
  intros H12. revert l3. induction H12 as [|c1 c2 l1 l2 Hc _ IH]; intros l3 H23; inversion H23; subst;
    constructor; [by eapply stays_trans|by apply IH].
Qed.
Lemma all_stay_insert l i c c' : l !! i = Some c -> stays c c' -> Forall2 stays l (<[i := c']> l).
Proof.
  revert i. induction l as [|x l IH]; intros [|i]; try done; simpl.
  - intros [= ->] Hs. constructor; [done|apply all_stay].
  - intros Hi Hs. constructor; [apply stays_refl|by apply IH].
Qed.
Lemma cancel_reservation_stays l rid : Forall2 stays l (Reservations.cancel_reservation l rid).1.
Proof.
  unfold Reservations.cancel_reservation. case_match; [|apply all_stay].
  destruct (l !! n) as [c|] eqn:E; [|apply all_stay].
  eapply all_stay_insert; [exact E|apply clear_reservation_stays].
Qed.
Lemma reserve_now_stays l request now zero l' target :
  Reservations.reserve_now l request now zero = Ok (l', target) -> Forall2 stays l l'.
Proof.
  unfold Reservations.reserve_now. destruct (Reservations.target_index _ _ _) as [i|]; [|done]. simpl.
  destruct (l !! i) as [c|] eqn:E; [|done]. case_match; [done|]. intros [= <- _].
  eapply all_stay_insert; [exact E|apply (stays_refl c)].
Qed.
Lemma grows_set_stays D h (a : t) l : Forall2 stays (connectors a) l -> grows D h h a (set_connectors a l).
Proof. intros Hs. apply grows_connectors. intros i. by apply find_stays. Qed.

Lemma grows_reserve_now_handler D (a : t) h request :
  grows D Rest Rest a (reserve_now_handler a h request).
Proof.
  unfold reserve_now_handler. cbv zeta.
  pose proof (grows_release_expired_reservations D Rest a) as Hr.
  destruct (release_expired_reservations a) as [b released]. cbn [fst] in Hr.
  eapply grows_trans; [exact Hr|]. clear a Hr released.
  generalize (moved_from (connectors b) request). intros moved.
  set (trial := match moved with Some _ => _ | None => _ end).
  assert (Ht : Forall2 stays (connectors b) trial).
  { unfold trial. destruct moved; [apply cancel_reservation_stays|apply all_stay]. }
  clearbody trial. destruct (Reservations.reserve_now _ _ _ _) as [[l target]|status] eqn:E; [|histories].
  apply (grows_trans D Rest Rest Rest _ (set_connectors b l)).
  - apply grows_set_stays. eapply all_stay_trans; [exact Ht|by eapply reserve_now_stays].
  - generalize (set_connectors b l). clear b Ht E. intros b. histories.
Qed.
#[local] Hint Resolve grows_reserve_now_handler : histories.
Lemma grows_cancel_reservation_handler D (a : t) h request :
  grows D Rest Rest a (cancel_reservation_handler a h request).
Proof.
  unfold cancel_reservation_handler. cbv zeta.
  pose proof (cancel_reservation_stays (connectors a) (CancelReservationRequest.reservation_id request)) as Hs.
  destruct (Reservations.cancel_reservation _ _) as [l cancelled]. cbn [fst] in Hs.
  apply (grows_trans D Rest Rest Rest _ (set_connectors a l)); [by apply grows_set_stays|].
  generalize (set_connectors a l). clear a Hs. intros a. histories.
Qed.
#[local] Hint Resolve grows_cancel_reservation_handler : histories.
Lemma grows_set_profile D (a : t) h request : grows D Rest Rest a (set_profile a h request).
Proof. unfold set_profile. histories. Qed.
#[local] Hint Resolve grows_set_profile : histories.
Lemma grows_clear_profile D (a : t) h request : grows D Rest Rest a (clear_profile a h request).
Proof. unfold clear_profile. histories. Qed.
#[local] Hint Resolve grows_clear_profile : histories.
Lemma grows_composite_schedule D (a : t) h request :
  grows D Rest Rest a (composite_schedule a h request).
Proof. unfold composite_schedule. histories. Qed.
#[local] Hint Resolve grows_composite_schedule : histories.
Lemma grows_get_diagnostics D (a : t) h request : grows D Rest Rest a (get_diagnostics a h request).
Proof. unfold get_diagnostics. histories. Qed.
#[local] Hint Resolve grows_get_diagnostics : histories.
Lemma grows_get_log D (a : t) h request : grows D Rest Rest a (get_log a h request).
Proof. unfold get_log. histories. Qed.
#[local] Hint Resolve grows_get_log : histories.
Lemma grows_update_firmware D (a : t) h request : grows D Rest Rest a (update_firmware a h request).
Proof. unfold update_firmware. histories. Qed.
#[local] Hint Resolve grows_update_firmware : histories.
Lemma grows_signed_refusal D (a : t) firmware : grows D Rest Rest a (signed_refusal a firmware).1.
Proof. unfold signed_refusal. histories. Qed.
#[local] Hint Resolve grows_signed_refusal : histories.
Lemma grows_signed_update_firmware D (a : t) h request :
  grows D Rest Rest a (signed_update_firmware a h request).
Proof. unfold signed_update_firmware. histories. Qed.
#[local] Hint Resolve grows_signed_update_firmware : histories.
Lemma grows_install_certificate D (a : t) h request :
  grows D Rest Rest a (install_certificate a h request).
Proof. unfold install_certificate. histories. Qed.
#[local] Hint Resolve grows_install_certificate : histories.
Lemma grows_delete_certificate D (a : t) h request :
  grows D Rest Rest a (delete_certificate a h request).
Proof. unfold delete_certificate. histories. Qed.
#[local] Hint Resolve grows_delete_certificate : histories.
Lemma grows_get_installed_certificate_ids D (a : t) h request :
  grows D Rest Rest a (get_installed_certificate_ids a h request).
Proof. unfold get_installed_certificate_ids. histories. Qed.
#[local] Hint Resolve grows_get_installed_certificate_ids : histories.
Lemma grows_certificate_signed D (a : t) h request :
  grows D Rest Rest a (certificate_signed a h request).
Proof. unfold certificate_signed. histories. Qed.
#[local] Hint Resolve grows_certificate_signed : histories.
Lemma grows_send_meter_values D (a : t) id : grows D Rest Rest a (send_meter_values a id).
Proof. unfold send_meter_values. histories. Qed.
#[local] Hint Resolve grows_send_meter_values : histories.
Lemma grows_start D (a : t) m c : grows D Rest Rest a (start a m c).
Proof. unfold start. histories. Qed.
#[local] Hint Resolve grows_start : histories.
Lemma grows_trigger_message D (a : t) h request : grows D Rest Rest a (trigger_message a h request).
Proof. unfold trigger_message. histories. Qed.
#[local] Hint Resolve grows_trigger_message : histories.
Lemma grows_start_extended D (a : t) m c : grows D Rest Rest a (start_extended a m c).
Proof. unfold start_extended. histories. Qed.
#[local] Hint Resolve grows_start_extended : histories.
Lemma grows_extended_trigger_message D (a : t) h request :
  grows D Rest Rest a (extended_trigger_message a h request).
Proof. unfold extended_trigger_message. histories. Qed.
#[local] Hint Resolve grows_extended_trigger_message : histories.

Lemma grows_apply_response_rule D (a : t) name h : grows D Rest Rest a (apply_response_rule a name h).1.
Proof. unfold apply_response_rule. histories. Qed.
#[local] Hint Resolve grows_apply_response_rule : histories.
Lemma grows_invoke {T} D (a : t) h (request : option T) handler :
  (forall a r, grows D Rest Rest a (handler a h r)) -> grows D Rest Rest a (invoke a h request handler).
Proof. intros Hh. unfold invoke. destruct request; [apply Hh|]. histories. Qed.
Lemma grows_route D (a : t) name payload h : grows D Rest Rest a (route a name payload h).
Proof.
  unfold route. cbv zeta.
  repeat match goal with
         | |- grows _ _ _ _ (if ?b then _ else _) =>
             destruct b; [solve [apply grows_invoke; intros; eauto with histories]|]
         end.
  unfold not_handled. histories.
Qed.
#[local] Hint Resolve grows_route : histories.
Lemma grows_dispatch_incoming D (a : t) name payload h :
  grows D Rest Rest a (dispatch_incoming a name payload h).
Proof. unfold dispatch_incoming. histories. Qed.
#[local] Hint Resolve grows_dispatch_incoming : histories.

(** ** The commands and the loop *)

Lemma grows_add_connector D (a : t) : grows D Rest Rest a (add_connector a).1.
Proof.
  unfold add_connector. cbv zeta. cbn [fst]. set (id := max_id a + 1).
  apply (grows_trans D Rest Rest Rest _ (set_connectors a (connectors a ++ [Connector.new_connector id]))).
  - apply grows_connectors. intros i. induction (connectors a) as [|c l IH]; simpl.
    + destruct (id =? i); simpl; [|done]. split; [done|]. unfold in_u64, u64_max. simpl. lia.
    + case_match; [apply stays_refl|exact IH].
  - generalize (set_connectors a (connectors a ++ [Connector.new_connector id])). intros b. histories.
Qed.
#[local] Hint Resolve grows_add_connector : histories.
Lemma grows_plug_in D (a : t) id : grows D Rest Rest a (plug_in a id).1.
Proof. unfold plug_in. histories. Qed.
#[local] Hint Resolve grows_plug_in : histories.
Lemma grows_set_unplugged D (a : t) id s : grows D Rest Rest a (set_unplugged a id s).
Proof. unfold set_unplugged. histories. Qed.
#[local] Hint Resolve grows_set_unplugged : histories.
Lemma grows_unplug D (a : t) id done : grows D Rest Rest a (unplug a id done).
Proof. unfold unplug. histories. Qed.
#[local] Hint Resolve grows_unplug : histories.
Lemma grows_set_status D (a : t) id s : grows D Rest Rest a (set_status a id s).1.
Proof. unfold set_status. histories. Qed.
#[local] Hint Resolve grows_set_status : histories.
Lemma grows_fault D (a : t) id code info vc done :
  grows D Rest Rest a (fault a id code info vc done).
Proof. unfold fault. histories. Qed.
#[local] Hint Resolve grows_fault : histories.
Lemma grows_clear_fault D (a : t) id : grows D Rest Rest a (clear_fault a id).1.
Proof. unfold clear_fault. histories. Qed.
#[local] Hint Resolve grows_clear_fault : histories.
Lemma grows_set_configuration D (a : t) key v : grows D Rest Rest a (set_configuration a key v).1.
Proof. unfold set_configuration. histories. Qed.
#[local] Hint Resolve grows_set_configuration : histories.
Lemma grows_apply_local_list_request D (a : t) request :
  grows D Rest Rest a (apply_local_list_request a request).1.
Proof. unfold apply_local_list_request. histories. Qed.
#[local] Hint Resolve grows_apply_local_list_request : histories.
Lemma grows_apply_local_list_edit D (a : t) item :
  grows D Rest Rest a (apply_local_list_edit a item).1.
Proof. unfold apply_local_list_edit. histories. Qed.
#[local] Hint Resolve grows_apply_local_list_edit : histories.
Lemma grows_logged D (a : t) x : grows D Rest Rest a x.1 -> grows D Rest Rest a (logged x).1.
Proof.
  destruct x as [b r]. cbn [fst]. intros Hb. apply (grows_trans D Rest Rest Rest a b); [done|].
  unfold logged. destruct r; cbn [fst]; histories.
Qed.
#[local] Hint Resolve grows_logged : histories.
Lemma grows_set_local_list_entry D (a : t) tag info :
  grows D Rest Rest a (set_local_list_entry a tag info).1.
Proof. unfold set_local_list_entry. histories. Qed.
#[local] Hint Resolve grows_set_local_list_entry : histories.
Lemma grows_remove_local_list_entry D (a : t) tag :
  grows D Rest Rest a (remove_local_list_entry a tag).1.
Proof. unfold remove_local_list_entry. histories. Qed.
#[local] Hint Resolve grows_remove_local_list_entry : histories.
Lemma grows_clear_local_list D (a : t) : grows D Rest Rest a (clear_local_list a).1.
Proof. unfold clear_local_list. histories. Qed.
#[local] Hint Resolve grows_clear_local_list : histories.
Lemma grows_install_charging_profile D (a : t) id profile :
  grows D Rest Rest a (install_charging_profile a id profile).1.
Proof. unfold install_charging_profile. histories. Qed.
#[local] Hint Resolve grows_install_charging_profile : histories.
Lemma grows_clear_charging_profiles D (a : t) id :
  grows D Rest Rest a (clear_charging_profiles a id).1.
Proof. unfold clear_charging_profiles. histories. Qed.
#[local] Hint Resolve grows_clear_charging_profiles : histories.
Lemma grows_set_response_rules D (a : t) rules : grows D Rest Rest a (set_response_rules a rules).
Proof. unfold set_response_rules. histories. Qed.
#[local] Hint Resolve grows_set_response_rules : histories.
Lemma grows_set_response_rule D (a : t) rule : grows D Rest Rest a (set_response_rule a rule).1.
Proof. unfold set_response_rule. histories. Qed.
#[local] Hint Resolve grows_set_response_rule : histories.
Lemma grows_clear_response_rules D (a : t) name :
  grows D Rest Rest a (clear_response_rules a name).1.
Proof. unfold clear_response_rules. histories. Qed.
#[local] Hint Resolve grows_clear_response_rules : histories.
Lemma grows_finish_persistence D (a : t) ok : grows D Rest Rest a (finish_persistence a ok).
Proof. unfold finish_persistence. histories. Qed.
#[local] Hint Resolve grows_finish_persistence : histories.
Lemma grows_start_up D (a : t) : grows D Rest Rest a (start_up a).
Proof. unfold start_up. histories. Qed.
#[local] Hint Resolve grows_start_up : histories.

Section runs.
(** The serializer of the source cannot fail on a [MeterValues]. *)
Context (samples_serialize : forall request, to_value (Request.MeterValues request) <> None).

Lemma grows_execute_now D (a : t) c : grows D Rest Rest a (execute_now a c).1.
Proof. destruct c; unfold execute_now; cbn [fst]; histories. Qed.
#[local] Hint Resolve grows_execute_now : histories.

(** The energy of a command is a [u64] of the source. *)
Definition well_typed_command (c : Command.t) : Prop :=
  match c with Command.MeterValues _ wh_delta _ => 0 <= wh_delta | _ => True end.
Definition well_typed (w : Wake.t) : Prop :=
  match w with Wake.Command (Some (c, _)) => well_typed_command c | _ => True end.

Lemma grows_execute D (a : t) c r : well_typed_command c -> grows D Rest Rest a (execute a c r).
Proof.
  intros Hc. destruct c; unfold execute; try histories.
  by apply (grows_meter_values_command samples_serialize).
Qed.

Lemma grows_shutdown D (a : t) ok : grows D Rest Rest a (shutdown a ok).
Proof. unfold shutdown. histories. Qed.

Lemma grows_on_connection_event D (a : t) e : grows D Rest Rest a (on_connection_event a e).
Proof. destruct e; cbn [on_connection_event]; histories. Qed.
Lemma grows_on_internal D (a : t) i : grows D Rest Rest a (on_internal a i).
Proof. destruct i; cbn [on_internal]; histories. Qed.
Lemma grows_on_timer D (a : t) k : grows D Rest Rest a (on_timer a k).
Proof.
  destruct k; cbn [on_timer]; try histories.
  - by apply (grows_on_meter_periodic samples_serialize).
  - by apply (grows_on_meter_aligned samples_serialize).
Qed.

Lemma grows_handle D (a : t) w ok : well_typed w -> grows D Rest Rest a (handle a w ok).1.
Proof.
  destruct w as [[[c r]|]|e|i|k]; cbn [handle]; intros Hw.
  - assert (Hs : grows D Rest Rest a (send_reply (shutdown a ok) r (Ok Outcome.Done))).
    { eapply grows_trans; [apply grows_shutdown|apply grows_send_reply]. }
    destruct c; cbn [fst]; first [exact Hs | by apply grows_execute].
  - apply grows_shutdown.
  - apply grows_on_connection_event.
  - apply grows_on_internal.
  - apply grows_on_timer.
Qed.

Lemma grows_iterate D (a : t) w ok : well_typed w -> grows D Rest Rest a (iterate a w ok).1.
Proof.
  intros Hw. unfold iterate. cbv zeta. eapply grows_trans; [apply grows_settle_meters|].
  generalize (settle_meters a). clear a. intros a.
  pose proof (grows_handle D a w ok Hw) as Hh. destruct (handle a w ok) as [b stop]. cbn [fst] in Hh.
  destruct stop; cbn [fst]; (eapply grows_trans; [exact Hh|]); [apply grows_log|apply grows_settle_meters].
Qed.

Lemma grows_step s o s' :
  step s o s' -> (forall w, o = Some w -> well_typed w) -> grows ∅ Rest Rest (state_of s) (state_of s').
Proof.
  assert (He : forall a w ok, well_typed w -> grows ∅ Rest Rest a (state_of (ended (iterate a w ok)))).
  { intros a w ok Hw. unfold ended.
    replace (state_of (if (iterate a w ok).2 then Stopped (iterate a w ok).1 else Running (iterate a w ok).1))
      with (iterate a w ok).1 by by case_match. by apply grows_iterate. }
  destruct 1 as [a w ok _|a k w ok _|a d now _|a gen]; intros Hw; cbn [state_of].
  - by apply He, Hw.
  - apply (grows_trans ∅ Rest Rest Rest _ (a <| timers := w |>)); [histories|by apply He].
  - unfold pass_time. histories.
  - unfold timer_sends. histories.
Qed.

Lemma grows_steps s ws s' :
  steps s ws s' -> Forall well_typed ws -> grows ∅ Rest Rest (state_of s) (state_of s').
Proof.
  induction 1 as [s|s s' s'' o ws Hstep Hsteps IH]; intros Hws; [apply grows_refl|].
  apply grows_step in Hstep.
  - eapply grows_trans; [exact Hstep|]. apply IH. destruct o; [by inversion Hws|done].
  - intros w ->. by inversion Hws.
Qed.

(** ** From the start *)

Lemma find_new_snapshots l i c :
  find_first (fun c => ConnectorSnapshot.id c =? i) (map new_snapshot l) = Some c -> c = new_snapshot i.
Proof.
  induction l as [|j l IH]; simpl; [done|]. destruct (Z.eqb_spec j i) as [->|]; [by intros [= <-]|done].
Qed.

Definition fresh (c : StationConfig.t) (now ticks : DateTime) (store : bool)
    (loaded_secrets : option StationSecrets.t) (keys : list (option KeyPair)) : t :=
  start_up (Restore.new c now ticks store None loaded_secrets keys).

(** A station that was started without a state file, and what it has gone through. *)
Definition reachable (s : status) : Prop :=
  exists c now ticks store loaded_secrets keys ws,
    Forall well_typed ws /\ steps (Running (fresh c now ticks store loaded_secrets keys)) ws s.

Lemma ok_new c now ticks store loaded_secrets keys :
  ok Rest ∅ (Restore.new c now ticks store None loaded_secrets keys).
Proof.
  assert (Hp : forall parts, RestoredParts.queue (Restore.restore_secrets loaded_secrets parts) = RestoredParts.queue parts).
  { intros parts. unfold Restore.restore_secrets. destruct loaded_secrets as [s|]; [|done].
    by destruct (StationSecrets.authorization_key s). }
  split; simpl; try done.
  - intros i x. unfold find_connector, connectors. simpl. intros Hx.
    assert (x = new_snapshot i) as ->.
    { unfold is_station in Hx. destruct (Z.eqb_spec i 0) as [->|_]; [by injection Hx as <-|].
      by apply find_new_snapshots in Hx. }
    split; [done|]. split; [|done]. unfold in_u64, u64_max. simpl. lia.
  - intros e. rewrite Hp. simpl. by intros ?%not_elem_of_nil.
  - rewrite Hp. constructor.
  - intros tok Htok. by apply not_elem_of_nil in Htok.
  - left. split_and!; [|done..]. intros tok p. simpl. by rewrite lookup_empty.
Qed.

Lemma ok_reachable s : reachable s -> exists B, ok Rest B (state_of s).
Proof.
  intros (c & now & ticks & store & ls & keys & ws & Hws & Hs).
  assert (Hu : grows ∅ Rest Rest (Restore.new c now ticks store None ls keys) (fresh c now ticks store ls keys))
    by apply grows_start_up.
  destruct (Hu ∅ (reflexivity _) (ok_new c now ticks store ls keys)) as [(B & _ & Hok) _ _].
  destruct (grows_steps _ _ _ Hs Hws B (map_empty_subseteq B) Hok) as [(B' & _ & Hok') _ _].
  by exists B'.
Qed.

Lemma evolved_steps s ws s' i :
  reachable s -> steps s ws s' -> Forall well_typed ws ->
  evolved (find_connector (state_of s) i) (find_connector (state_of s') i).
Proof.
  intros [B Hok]%ok_reachable Hs Hws.
  by destruct (grows_steps _ _ _ Hs Hws B (map_empty_subseteq B) Hok) as [_ Hat _].
Qed.


(** The register reading a running transaction started with. *)
Definition started_with (x : TransactionState.t) : option Z :=
  match x with
  | TransactionState.PendingStart p => Some (PendingStart.meter_start_wh p)
  | TransactionState.Active x => Some (ActiveTransaction.meter_start_wh x)
  | _ => None
  end.

(** Claim C14: energy registers. A connector is never lost and its register never runs backwards
    nor out of [u64], through samples, transactions, resets and lost connections; and at any
    moment it is at least the reading that the transaction running on the connector has started
    with, so that no transaction is ever billed a negative amount. *)
Theorem register_monotone s ws s' i c :
  reachable s -> steps s ws s' -> Forall well_typed ws -> find_connector (state_of s) i = Some c ->
  exists c', find_connector (state_of s') i = Some c' /\
    0 <= ConnectorSnapshot.meter_wh c <= ConnectorSnapshot.meter_wh c' /\
    ConnectorSnapshot.meter_wh c' <= u64_max /\
    forall m, started_with (ConnectorSnapshot.transaction c') = Some m ->
      0 <= m <= ConnectorSnapshot.meter_wh c'.
Proof.
  intros [B Hok]%ok_reachable Hs Hw Hc.
  destruct (grows_steps _ _ _ Hs Hw B (map_empty_subseteq B) Hok) as [(B' & _ & Hok') Hat _].
  destruct (proj2 (Hat i) c Hc) as (c' & Hc' & Hm). exists c'.
  destruct (ok_at _ _ _ Hok i c Hc) as [_ [[Hr _] _]].
  destruct (ok_at _ _ _ Hok' i c' Hc') as [_ [[_ Hmax] Hst]].
  split_and!; [done|lia|lia|lia|..]; destruct (ConnectorSnapshot.transaction c'); simpl in *;
    intros; simplify_eq; lia.
Qed.


(** ** The delivery of the queue *)

(** What is left of the delivery: two messages for every entry, less the start that is already
    delivered. *)
Definition work_left (a : t) : Z :=
  2 * sync_outstanding a
  - (if any (fun p => is_sync_stop (continuation p.2)) (map_to_list (calls a)) then 1 else 0).

Lemma any_sync_stop (a : t) :
  any (fun p => is_sync_stop (continuation p.2)) (map_to_list (calls a)) = true <->
  exists tok p, calls a !! tok = Some p /\ is_sync_stop (continuation p) = true.
Proof.
  unfold any. rewrite existsb_exists. split.
  - intros ([tok p] & Hin & Hs). exists tok, p. split; [|done].
    by apply elem_of_map_to_list, list_elem_of_In.
  - intros (tok & p & Hp & Hs). exists (tok, p). split; [|done].
    by apply list_elem_of_In, elem_of_map_to_list.
Qed.

Lemma work_left_bounds (a : t) :
  resting a -> 0 <= work_left a <= 2 * sync_outstanding a /\
  (0 < sync_outstanding a -> only_stops a -> work_left a = 2 * sync_outstanding a - 1).
Proof.
  intros Hr. unfold work_left.
  destruct (any _ _) eqn:Ea.
  - apply any_sync_stop in Ea as (tok & p & Hp & Hs).
    destruct Hr as [[Hn _]|[_ Ho]].
    + specialize (Hn tok p Hp). by destruct (continuation p).
    + pose proof (len_nonneg (sync_keys a)). split; [lia|done].
  - destruct Hr as [(_ & Ho & _)|[(tok & p & Hp & Hs & _) Ho]]; [split; [lia|lia]|].
    pose proof (len_nonneg (sync_keys a)). split; [lia|]. intros _ Hst.
    destruct (Hst tok p Hp Hs) as [key Hk].
    assert (Hc : any (fun p => is_sync_stop (continuation p.2)) (map_to_list (calls a)) = true).
    { apply any_sync_stop. exists tok, p. by rewrite Hk. }
    congruence.
Qed.

End runs.
End lifecycle.

(** ** A run in which the hypotheses hold *)

#[local] Existing Instance u64_json.
#[local] Existing Instance ns_chrono.
#[local] Existing Instance any_url.
#[local] Existing Instance CertificateStore.sample_pki.
#[local] Existing Instance Samples.accepting.
#[local] Existing Instance Samples.requests.

Definition sample_fresh : Actor.t := fresh StationConfig.default Samples.day 0 true None [].

(** A transaction is begun while the station is offline; then the link comes up and the queue is
    delivered as far as its start. *)
Definition offline_start : list Wake.t := [
  Wake.Command (Some (Command.PlugIn 1, 2));
  Wake.Command (Some (Command.StartTransaction 1 Samples.tag, 3));
  Wake.Command (Some (Command.MeterValues 1 250 None, 4))] ++ Samples.connect.
Definition delivered_start : list Wake.t := [Wake.Internal (Internal.CallDone 1 1 (Ok Null))].

Lemma samples_accepted : forall request, to_value (Request.MeterValues request) <> None.
Proof. discriminate. Qed.
Lemma offline_start_typed : Forall well_typed offline_start.
Proof. repeat constructor; simpl; lia. Qed.
Lemma delivered_start_typed : Forall well_typed delivered_start.
Proof. repeat constructor. Qed.
Lemma sample_reachable : reachable (Running (Samples.run sample_fresh offline_start)).
Proof.
  exists StationConfig.default, Samples.day, 0, true, None, [], offline_start.
  split; [apply offline_start_typed|]. unfold sample_fresh.
  refine (Samples.run_steps _ _ _). vm_compute. reflexivity.
Qed.
Lemma delivered_steps :
  steps (Running (Samples.run sample_fresh offline_start)) delivered_start
    (Running (Samples.run (Samples.run sample_fresh offline_start) delivered_start)).
Proof. apply Samples.run_steps. vm_compute. reflexivity. Qed.


Lemma register_monotone_witness :
  exists s s' c c', reachable s /\ find_connector (state_of s) 1 = Some c /\
    find_connector (state_of s') 1 = Some c' /\
    0 <= ConnectorSnapshot.meter_wh c <= ConnectorSnapshot.meter_wh c' /\
    ConnectorSnapshot.meter_wh c = 250.
Proof.
  pose (s := Running (Samples.run sample_fresh offline_start)).
  assert (Hc : exists c, find_connector (state_of s) 1 = Some c /\ ConnectorSnapshot.meter_wh c = 250)
    by (eexists; split; vm_compute; reflexivity).
  destruct Hc as (c & Hc & Hm).
  destruct (register_monotone samples_accepted _ _ _ _ _ sample_reachable delivered_steps
              delivered_start_typed Hc) as (c' & Hc' & Hle & _).
  eexists _, _, c, c'. split; [exact sample_reachable|]. split; [exact Hc|]. split; [exact Hc'|].
  split; [exact Hle|exact Hm].
Defined.



(** What the entry of a transaction becomes that was begun offline, whose start is then delivered
    and which is stopped online: the transaction has ended, and its entry, which has nothing left
    to send, is still in the queue. *)
Definition stopped_online : list Wake.t := delivered_start ++ [
  Wake.Command (Some (Command.StopTransaction 1 StopReason.Local None, 5));
  Wake.Internal (Internal.CallDone 6 1 (Ok Null))].

Example delivered_entry_stays :
  let a := Samples.run (Samples.run sample_fresh offline_start) stopped_online in
  transaction_of a 1 = TransactionState.Idle /\
  map (fun e => (OfflineTx.tx_id e, OfflineTx.start_pending e, is_someb (OfflineTx.stop e))) (queue a)
  = [(TxId.Csms 7, false, false)].
Proof. vm_compute. split; reflexivity. Qed.
End Lifecycle.
