(* ===== verification/Utf8.v ===== *)
(** * Utf8: the bytes of a string

    [str::as_bytes] and [String::from_utf8]: the encoding of scalar values and the decoder that
    refuses overlong forms, surrogates and truncated sequences. *)

From stdpp Require Import strings.
From S2P Require Import Prelude Text.
Local Open Scope Z_scope.

(** A Unicode scalar value ([char]). *)
Definition is_scalar (c : char) : bool :=
  (0 <=? c) && (c <=? 1114111) && negb ((55296 <=? c) && (c <=? 57343)).

Definition utf8_char (c : char) : list Z :=
  if c <? 128 then [c]
  else if c <? 2048 then [192 + c / 64; 128 + c mod 64]
  else if c <? 65536 then [224 + c / 4096; 128 + (c / 64) mod 64; 128 + c mod 64]
  else [240 + c / 262144; 128 + (c / 4096) mod 64; 128 + (c / 64) mod 64; 128 + c mod 64].

(** [s.as_bytes()] *)
Definition as_bytes (s : str) : list Z := flat_map utf8_char s.

Definition is_continuation (b : Z) : bool := (128 <=? b) && (b <=? 191).

(** [String::from_utf8(bytes).ok()] *)
Fixpoint from_utf8 (bytes : list Z) : option str :=
  match bytes with
  | [] => Some []
  | x :: r =>
      if (0 <=? x) && (x <? 128) then cons x <$> from_utf8 r
      else if (194 <=? x) && (x <=? 223) then
        match r with
        | y :: r =>
            if is_continuation y then cons ((x - 192) * 64 + (y - 128)) <$> from_utf8 r else None
        | _ => None
        end
      else if (224 <=? x) && (x <=? 239) then
        match r with
        | y :: z :: r =>
            let c := ((x - 224) * 64 + (y - 128)) * 64 + (z - 128) in
            if is_continuation y && is_continuation z && (2048 <=? c) && is_scalar c
            then cons c <$> from_utf8 r else None
        | _ => None
        end
      else if (240 <=? x) && (x <=? 244) then
        match r with
        | y :: z :: w :: r =>
            let c := (((x - 240) * 64 + (y - 128)) * 64 + (z - 128)) * 64 + (w - 128) in
            if is_continuation y && is_continuation z && is_continuation w && (65536 <=? c)
               && is_scalar c
            then cons c <$> from_utf8 r else None
        | _ => None
        end
      else None
  end.

Lemma utf8_char_length c : len (utf8_char c) = len_utf8 c.
Proof. unfold utf8_char, len_utf8. by repeat case_match. Qed.

Lemma as_bytes_length s : len (as_bytes s) = byte_len s.
Proof.
  induction s as [|c s IH]; [done|]. cbn [as_bytes flat_map byte_len fold_right].
  rewrite <- utf8_char_length. unfold len in *. rewrite length_app. unfold as_bytes, byte_len in IH. lia.
Qed.

Lemma is_scalar_bounds c :
  is_scalar c = true <-> 0 <= c <= 1114111 /\ ~ (55296 <= c <= 57343).
Proof. unfold is_scalar. rewrite !andb_true_iff, negb_true_iff, andb_false_iff, !Z.leb_le, !Z.leb_gt. lia. Qed.

(** Decides every comparison of integers by [lia]. *)
Ltac comparisons :=
  repeat match goal with
  | |- context [?a <=? ?b] =>
      first [replace (a <=? b) with true by (symmetry; apply Z.leb_le; lia)
            |replace (a <=? b) with false by (symmetry; apply Z.leb_gt; lia)]
  | |- context [?a <? ?b] =>
      first [replace (a <? b) with true by (symmetry; apply Z.ltb_lt; lia)
            |replace (a <? b) with false by (symmetry; apply Z.ltb_ge; lia)]
  end.

Lemma from_utf8_char c bytes :
  is_scalar c = true -> from_utf8 (utf8_char c ++ bytes) = cons c <$> from_utf8 bytes.
Proof.
  intros Hc. pose proof Hc as Hb. rewrite is_scalar_bounds in Hb. destruct Hb as [Hb Hn].
  unfold utf8_char.
  destruct (Z.ltb_spec c 128); [|destruct (Z.ltb_spec c 2048); [|destruct (Z.ltb_spec c 65536)]];
    cbn [app from_utf8]; unfold is_continuation.
  - by comparisons.
  - pose proof (Z.div_mod c 64). pose proof (Z.mod_pos_bound c 64).
    assert (2 <= c / 64 < 32) by lia. comparisons. cbn [andb].
    replace _ with c by lia. reflexivity.
  - assert (Hd : c / 4096 = c / 64 / 64) by (rewrite Z.div_div by lia; reflexivity). rewrite Hd.
    set (d := c / 64) in *. pose proof (Z.div_mod c 64). pose proof (Z.mod_pos_bound c 64).
    pose proof (Z.div_mod d 64). pose proof (Z.mod_pos_bound d 64).
    assert (c = d * 64 + c mod 64) by lia. assert (32 <= d < 1024) by lia.
    assert (0 <= d / 64 < 16) by lia.
    replace (((224 + d / 64 - 224) * 64 + (128 + d mod 64 - 128)) * 64 + (128 + c mod 64 - 128)) with c
      by lia.
    rewrite Hc. by comparisons.
  - assert (Hd : c / 4096 = c / 64 / 64) by (rewrite Z.div_div by lia; reflexivity).
    assert (He : c / 262144 = c / 64 / 64 / 64) by (rewrite !Z.div_div by lia; reflexivity).
    rewrite Hd, He. set (d := c / 64) in *. set (e := d / 64) in *.
    pose proof (Z.div_mod c 64). pose proof (Z.mod_pos_bound c 64).
    pose proof (Z.div_mod d 64). pose proof (Z.mod_pos_bound d 64).
    pose proof (Z.div_mod e 64). pose proof (Z.mod_pos_bound e 64).
    assert (1024 <= d <= 17407) by lia. assert (16 <= e <= 271) by lia.
    assert (0 <= e / 64 <= 4) by lia.
    replace ((((240 + e / 64 - 240) * 64 + (128 + e mod 64 - 128)) * 64 + (128 + d mod 64 - 128)) * 64
             + (128 + c mod 64 - 128)) with c by lia.
    rewrite Hc. by comparisons.
Qed.

(** Every string is read back from its bytes. *)
Lemma from_utf8_as_bytes s : Forall (fun c => is_scalar c = true) s -> from_utf8 (as_bytes s) = Some s.
Proof.
  induction 1 as [|c s Hc _ IH]; [done|]. unfold as_bytes in *. cbn [flat_map].
  by rewrite from_utf8_char, IH.
Qed.

Lemma as_bytes_inj s t :
  Forall (fun c => is_scalar c = true) s -> Forall (fun c => is_scalar c = true) t ->
  as_bytes s = as_bytes t -> s = t.
Proof.
  intros Hs%from_utf8_as_bytes Ht%from_utf8_as_bytes Heq. rewrite Heq in Hs. congruence.
Qed.

(** What is read from bytes is a sequence of scalar values. *)
Lemma from_utf8_scalars bytes s : from_utf8 bytes = Some s -> Forall (fun c => is_scalar c = true) s.
Proof.
  remember (length bytes) as n eqn:Hn. revert bytes s Hn.
  induction n as [n IH] using lt_wf_ind. intros bytes s ->.
  assert (Hc : forall c r, (length r < length bytes)%nat -> is_scalar c = true ->
    cons c <$> from_utf8 r = Some s -> Forall (fun c => is_scalar c = true) s).
  { intros c r Hr Hs. destruct (from_utf8 r) as [t|] eqn:Ht; [|done]. intros [= <-].
    constructor; [done|]. by apply (IH (length r) Hr r). }
  destruct bytes as [|x r]; cbn [from_utf8]; [intros [= <-]; constructor|]. unfold is_continuation.
  repeat case_match; try done; bool_facts; apply Hc; simpl; try lia; try done;
    apply is_scalar_bounds; lia.
Qed.
