(* ===== verification/Strings.v ===== *)
(** * Strings: the string operations the components share

    [str::split_once], [str::split] with a string as the separator, [str::split_whitespace] and
    [String::from_utf8_lossy], with the lemmas on where they cut. *)

From stdpp Require Import strings.
From S2P Require Import Prelude Text Utf8.
Local Open Scope Z_scope.

(** [s.split_once(sep)] *)
Fixpoint split_once_str (fuel : nat) (sep s : str) : option (str * str) :=
  match strip_prefix sep s with
  | Some rest => Some ([], rest)
  | None =>
      match fuel, s with
      | S fuel, c :: r => (fun '(a, b) => (c :: a, b)) <$> split_once_str fuel sep r
      | _, _ => None
      end
  end.
Definition split_once_text (sep s : str) : option (str * str) := split_once_str (length s) sep s.
(** [s.split(sep)] for a non-empty separator; a piece is shorter than the text, so its length is
    enough fuel. *)
Fixpoint split_str (fuel : nat) (sep s : str) : list str :=
  match fuel, split_once_text sep s with
  | S fuel, Some (a, b) => a :: split_str fuel sep b
  | _, _ => [s]
  end.
Definition split_text (sep s : str) : list str := split_str (length s) sep s.
(** [s.split_whitespace()]: the runs of other characters; [word] is the run that is being read. *)
Fixpoint words_from (word s : str) : list str :=
  match s with
  | [] => match word with [] => [] | _ :: _ => [word] end
  | c :: s =>
      if is_whitespace c then match word with [] => words_from [] s | _ :: _ => word :: words_from [] s end
      else words_from (word ++ [c]) s
  end.
Definition split_whitespace (s : str) : list str := words_from [] s.

(** Whether [y] may follow the lead byte [x] of three or of four bytes. *)
Definition second_of_three (x y : Z) : bool :=
  ((if x =? 224 then 160 else 128) <=? y) && (y <=? (if x =? 237 then 159 else 191)).
Definition second_of_four (x y : Z) : bool :=
  ((if x =? 240 then 144 else 128) <=? y) && (y <=? (if x =? 244 then 143 else 191)).
(** [String::from_utf8_lossy(bytes)]: every maximal piece of a broken sequence becomes one U+FFFD. *)
Fixpoint from_utf8_lossy (bytes : list Z) : str :=
  match bytes with
  | [] => []
  | x :: r =>
      if x <? 128 then x :: from_utf8_lossy r
      else if (194 <=? x) && (x <=? 223) then
        match r with
        | y :: r' =>
            if is_continuation y then ((x - 192) * 64 + (y - 128)) :: from_utf8_lossy r' else 65533 :: from_utf8_lossy r
        | [] => [65533]
        end
      else if (224 <=? x) && (x <=? 239) then
        match r with
        | y :: r1 =>
            if second_of_three x y then
              match r1 with
              | z :: r2 =>
                  if is_continuation z
                  then (((x - 224) * 64 + (y - 128)) * 64 + (z - 128)) :: from_utf8_lossy r2
                  else 65533 :: from_utf8_lossy r1
              | [] => [65533]
              end
            else 65533 :: from_utf8_lossy r
        | [] => [65533]
        end
      else if (240 <=? x) && (x <=? 244) then
        match r with
        | y :: r1 =>
            if second_of_four x y then
              match r1 with
              | z :: r2 =>
                  if is_continuation z then
                    match r2 with
                    | w :: r3 =>
                        if is_continuation w
                        then ((((x - 240) * 64 + (y - 128)) * 64 + (z - 128)) * 64 + (w - 128)) :: from_utf8_lossy r3
                        else 65533 :: from_utf8_lossy r2
                    | [] => [65533]
                    end
                  else 65533 :: from_utf8_lossy r1
              | [] => [65533]
              end
            else 65533 :: from_utf8_lossy r
        | [] => [65533]
        end
      else 65533 :: from_utf8_lossy r
  end.

(** ** Where a text is split *)

Lemma split_once_text_cons sep c s :
  split_once_text sep (c :: s)
  = match strip_prefix sep (c :: s) with
    | Some rest => Some ([], rest)
    | None => (fun '(a, b) => (c :: a, b)) <$> split_once_text sep s
    end.
Proof. reflexivity. Qed.
Lemma split_once_text_Some sep s a b : split_once_text sep s = Some (a, b) -> s = a ++ sep ++ b.
Proof.
  revert a. induction s as [|c s IH]; intros a.
  - unfold split_once_text. simpl. destruct (strip_prefix sep []) eqn:E; [|done].
    intros [= <- <-]. by apply strip_prefix_Some in E.
  - rewrite split_once_text_cons. destruct (strip_prefix sep (c :: s)) eqn:E.
    + intros [= <- <-]. by apply strip_prefix_Some in E.
    + destruct (split_once_text sep s) as [[a' b']|]; [|done]. intros [= <- <-]. by rewrite (IH a').
Qed.
Lemma strip_prefix_app prefix rest : strip_prefix prefix (prefix ++ rest) = Some rest.
Proof. by apply strip_prefix_Some. Qed.
Lemma split_once_text_here sep rest : split_once_text sep (sep ++ rest) = Some ([], rest).
Proof.
  destruct sep as [|c sep]; [by destruct rest|]. cbn [app]. rewrite split_once_text_cons.
  by rewrite (strip_prefix_app (c :: sep) rest : strip_prefix (c :: sep) (c :: sep ++ rest) = _).
Qed.
(** Whether a separator stands at a place does not depend on what follows it. *)
Lemma strip_prefix_before sep s b b' :
  strip_prefix sep (s ++ sep ++ b) = None -> strip_prefix sep (s ++ sep ++ b') = None.
Proof.
  intros H. destruct (strip_prefix sep (s ++ sep ++ b')) as [r|] eqn:E; [|done]. exfalso.
  apply strip_prefix_Some in E.
  assert (Hp : sep = firstn (length sep) (s ++ sep)).
  { transitivity (firstn (length sep) (sep ++ r)); [by rewrite take_app_length|].
    rewrite <- E, app_assoc, take_app_le; [done|]. rewrite length_app. lia. }
  assert (Hs : strip_prefix sep (s ++ sep ++ b) = Some (skipn (length sep) (s ++ sep) ++ b)).
  { apply strip_prefix_Some. rewrite app_assoc.
    rewrite <- (firstn_skipn (length sep) (s ++ sep)) at 1. by rewrite <- Hp, <- app_assoc. }
  congruence.
Qed.
Lemma split_once_text_swap sep s a b b' :
  split_once_text sep s = Some (a, b) -> split_once_text sep (a ++ sep ++ b') = Some (a, b').
Proof.
  intros H. pose proof (split_once_text_Some _ _ _ _ H) as ->. revert H. induction a as [|c a IH]; intros H.
  - exact (split_once_text_here sep b').
  - cbn [app] in *. rewrite split_once_text_cons in *.
    destruct (strip_prefix sep (c :: a ++ sep ++ b)) eqn:E; [done|].
    rewrite (strip_prefix_before sep (c :: a) b b' E : strip_prefix sep (c :: a ++ sep ++ b') = None).
    destruct (split_once_text sep (a ++ sep ++ b)) as [[x y]|] eqn:E'; [|done]. injection H as -> ->.
    by rewrite IH.
Qed.
Lemma split_once_text_fresh d sep a b :
  d ∉ a -> split_once_text (d :: sep) (a ++ (d :: sep) ++ b) = Some (a, b).
Proof.
  induction a as [|c a IH]; intros Hd.
  - exact (split_once_text_here (d :: sep) b).
  - apply not_elem_of_cons in Hd as [Hc Ha]. specialize (IH Ha).
    change ((c :: a) ++ (d :: sep) ++ b) with (c :: (a ++ (d :: sep) ++ b)).
    rewrite split_once_text_cons, IH. cbn [strip_prefix]. by rewrite (proj2 (Z.eqb_neq d c) Hc).
Qed.

(** ** Lossy decoding *)

(** One step of the decoder, which looks into the tail only after the lead byte. *)
Ltac lossy_step :=
  cbn [app];
  match goal with |- from_utf8_lossy (?x :: ?l) = _ =>
    let l' := fresh "l" in let El := fresh "El" in
    remember l as l' eqn:El; cbn [from_utf8_lossy]; comparisons; cbn [andb]; rewrite El; cbv beta iota
  end.
Lemma lossy_two x y r :
  194 <= x <= 223 -> 128 <= y <= 191 ->
  from_utf8_lossy (x :: y :: r) = ((x - 192) * 64 + (y - 128)) :: from_utf8_lossy r.
Proof. intros Hx Hy. lossy_step. unfold is_continuation. by comparisons. Qed.
Lemma lossy_three x y z r :
  224 <= x <= 239 -> second_of_three x y = true -> 128 <= z <= 191 ->
  from_utf8_lossy (x :: y :: z :: r) = (((x - 224) * 64 + (y - 128)) * 64 + (z - 128)) :: from_utf8_lossy r.
Proof. intros Hx Hy Hz. lossy_step. rewrite Hy. unfold is_continuation. by comparisons. Qed.
Lemma lossy_four x y z w r :
  240 <= x <= 244 -> second_of_four x y = true -> 128 <= z <= 191 -> 128 <= w <= 191 ->
  from_utf8_lossy (x :: y :: z :: w :: r)
  = ((((x - 240) * 64 + (y - 128)) * 64 + (z - 128)) * 64 + (w - 128)) :: from_utf8_lossy r.
Proof. intros Hx Hy Hz Hw. lossy_step. rewrite Hy. unfold is_continuation. by comparisons. Qed.
Lemma lossy_char c bytes : is_scalar c = true -> from_utf8_lossy (utf8_char c ++ bytes) = c :: from_utf8_lossy bytes.
Proof.
  intros Hc%is_scalar_bounds. destruct Hc as [Hb Hn]. unfold utf8_char.
  pose proof (Z.div_mod c 64 ltac:(lia)) as Ec. pose proof (Z.mod_pos_bound c 64 ltac:(lia)).
  pose proof (Z.div_mod (c / 64) 64 ltac:(lia)) as Ed. pose proof (Z.mod_pos_bound (c / 64) 64 ltac:(lia)).
  pose proof (Z.div_mod (c / 64 / 64) 64 ltac:(lia)) as Ee. pose proof (Z.mod_pos_bound (c / 64 / 64) 64 ltac:(lia)).
  replace (c / 4096) with (c / 64 / 64) by (rewrite Z.div_div by lia; reflexivity).
  replace (c / 262144) with (c / 64 / 64 / 64) by (rewrite !Z.div_div by lia; reflexivity).
  generalize dependent (c / 64 / 64 mod 64). generalize dependent (c / 64 / 64 / 64).
  generalize dependent (c / 64 mod 64). generalize dependent (c / 64 / 64).
  generalize dependent (c mod 64). generalize dependent (c / 64).
  intros d c0 Ec Hc0 e d0 Ed Hd0 q e0 Ee He0.
  destruct (Z.ltb_spec c 128); [|destruct (Z.ltb_spec c 2048); [|destruct (Z.ltb_spec c 65536)]]; cbn [app].
  - lossy_step. done.
  - rewrite lossy_two by lia. f_equal. lia.
  - rewrite lossy_three; [f_equal; lia|lia| |lia]. unfold second_of_three.
    destruct (Z.eqb_spec (224 + e) 224), (Z.eqb_spec (224 + e) 237); rewrite andb_true_iff, !Z.leb_le; lia.
  - rewrite lossy_four; [f_equal; lia|lia| |lia|lia]. unfold second_of_four.
    destruct (Z.eqb_spec (240 + q) 240), (Z.eqb_spec (240 + q) 244); rewrite andb_true_iff, !Z.leb_le; lia.
Qed.
(** A text survives its bytes. *)
Lemma lossy_as_bytes s : Forall (fun c => is_scalar c = true) s -> from_utf8_lossy (as_bytes s) = s.
Proof.
  induction 1 as [|c s Hc _ IH]; [done|]. unfold as_bytes in *. cbn [flat_map]. by rewrite lossy_char, IH.
Qed.

(** * Numerals: zero-padded decimal numbers

    [format!("{n:0width$}")]: the digits of a number, padded with zeros on the left. The padded
    form determines the number, and its length grows with it. *)

Module Numerals.

(** [{n:0width$}] of an unsigned number *)
Definition padded (width : nat) (n : Z) : str :=
  repeat 48 (width - length (to_string n))%nat ++ to_string n.

Lemma digits_acc_zeros k acc s : digits_acc acc (repeat 48 k ++ s) = digits_acc (acc * 10 ^ Z.of_nat k) s.
Proof.
  revert acc. induction k as [|k IH]; intros acc; [f_equal; simpl; lia|].
  cbn [repeat app digits_acc]. change (is_ascii_digit 48) with true. cbn iota. rewrite IH. f_equal.
  rewrite Nat2Z.inj_succ, Z.pow_succ_r by lia. ring.
Qed.
Lemma digits_value_padded width n : 0 <= n -> digits_value (padded width n) = Some n.
Proof.
  intros Hn. pose proof (digits_value_to_string n Hn) as H. unfold padded.
  destruct (to_string n) as [|c s] eqn:E; [by apply to_string_nonempty in E|].
  destruct (repeat 48 (width - length (c :: s)) ++ c :: s) as [|d r] eqn:Er.
  { by destruct (repeat _ _). }
  unfold digits_value in *. by rewrite <- Er, digits_acc_zeros, Z.mul_0_l.
Qed.
Lemma padded_inj width m n : 0 <= m -> 0 <= n -> padded width m = padded width n -> m = n.
Proof.
  intros Hm Hn H. apply (f_equal digits_value) in H. rewrite !digits_value_padded in H by done. congruence.
Qed.

(** ** Lengths *)

Lemma decimal_length fuel n k :
  0 <= n -> n < 2 ^ Z.of_nat fuel -> length (decimal fuel n) = S (S k) -> 10 ^ Z.of_nat (S k) <= n.
Proof.
  revert n k. induction fuel as [|fuel IH]; intros n k Hn Hf; [done|]. simpl.
  destruct (Z.ltb_spec n 10) as [|Hge]; [done|]. rewrite length_app. simpl. intros Hl.
  assert (Hd : n / 10 < 2 ^ Z.of_nat fuel).
  { apply Z.div_lt_upper_bound; [lia|]. rewrite Nat2Z.inj_succ, Z.pow_succ_r in Hf by lia. lia. }
  pose proof (Z.div_pos n 10 Hn ltac:(lia)) as Hp. pose proof (Z.mul_div_le n 10 ltac:(lia)) as Hm.
  destruct k as [|k]; [simpl; lia|]. specialize (IH (n / 10) k Hp Hd ltac:(lia)).
  rewrite (Nat2Z.inj_succ (S k)), Z.pow_succ_r by lia. lia.
Qed.
Lemma to_string_length_lower n k : 0 <= n -> length (to_string n) = S (S k) -> 10 ^ Z.of_nat (S k) <= n.
Proof.
  intros Hn. unfold to_string. destruct (n <? 0) eqn:E; [apply Z.ltb_lt in E; lia|].
  apply decimal_length; [done|]. by apply decimal_enough.
Qed.
Lemma digits_acc_bound s acc n :
  digits_acc acc s = Some n -> n < (acc + 1) * 10 ^ Z.of_nat (length s).
Proof.
  revert acc. induction s as [|c s IH]; intros acc; cbn [digits_acc length]; [intros [= ->]; simpl; lia|].
  destruct (is_ascii_digit c) eqn:Hc; [|done]. intros H. apply IH in H.
  assert (Hd : c - 48 <= 9) by (unfold is_ascii_digit in Hc; bool_facts; lia).
  rewrite Nat2Z.inj_succ, Z.pow_succ_r by lia.
  pose proof (Z.pow_pos_nonneg 10 (Z.of_nat (length s)) ltac:(lia) ltac:(lia)). nia.
Qed.
Lemma to_string_length_upper n : 0 <= n -> n < 10 ^ Z.of_nat (length (to_string n)).
Proof.
  intros Hn. pose proof (digits_value_to_string n Hn) as H. unfold digits_value in H.
  destruct (to_string n) as [|c s]; [done|]. apply digits_acc_bound in H. by rewrite Z.mul_1_l in H.
Qed.
Lemma to_string_length_mono m n : 0 <= m <= n -> (length (to_string m) <= length (to_string n))%nat.
Proof.
  intros Hmn. destruct (length (to_string m)) as [|[|k]] eqn:E; [lia| |].
  - destruct (to_string n) as [|c s] eqn:En; [by apply to_string_nonempty in En|simpl; lia].
  - apply to_string_length_lower in E; [|lia]. pose proof (to_string_length_upper n ltac:(lia)) as H.
    apply Nat.nlt_ge. intros Hlt.
    pose proof (Z.pow_le_mono_r 10 (Z.of_nat (length (to_string n))) (Z.of_nat (S k)) ltac:(lia) ltac:(lia)). lia.
Qed.
Lemma padded_length width n : length (padded width n) = Nat.max width (length (to_string n)).
Proof. unfold padded. rewrite length_app, repeat_length. lia. Qed.
Lemma padded_length_mono width m n : 0 <= m <= n -> (length (padded width m) <= length (padded width n))%nat.
Proof. intros H. rewrite !padded_length. pose proof (to_string_length_mono m n H). lia. Qed.
End Numerals.
