(* ===== verification/CsmsState.v ===== *)
(** * CsmsState: what the CSMS knows about the protocol state of a station

    [kirby-csms-core/src/state.rs]: the read model of one station, folded from the CALLs the CSMS
    answers with a result and from the answers to its own CALLs. Decoding a payload into a typed
    message is code of the JSON library ([CsmsWire]); the counters are [u64]s that wrap. *)

From stdpp Require Import strings gmap.
From S2P Require Import Prelude Text F64 Time Types Messages SecurityMessages Frame Actions.
Local Open Scope Z_scope.

Module CsmsState.

(** [serde::Deserialize] of the messages the read model looks at. *)
Class CsmsWire {J : SerdeJson} : Type := {
  boot_req : json -> option BootNotificationRequest.t;
  boot_res : json -> option BootNotificationResponse.t;
  status_req : json -> option StatusNotificationRequest.t;
  start_req : json -> option StartTransactionRequest.t;
  start_res : json -> option StartTransactionResponse.t;
  stop_req : json -> option StopTransactionRequest.t;
  meter_req : json -> option MeterValuesRequest.t;
  diagnostics_req : json -> option DiagnosticsStatusNotificationRequest.t;
  firmware_req : json -> option FirmwareStatusNotificationRequest.t;
  security_event_req : json -> option SecurityEventNotificationRequest.t;
  log_status_req : json -> option LogStatusNotificationRequest.t;
  signed_firmware_req : json -> option SignedFirmwareStatusNotificationRequest.t;
  sign_certificate_req : json -> option SignCertificateRequest.t;
  installed_req : json -> option GetInstalledCertificateIdsRequest.t;
  installed_res : json -> option GetInstalledCertificateIdsResponse.t;
}.

Definition MAX_CONNECTORS : Z := 1024.
Definition MAX_ACTIVE_TRANSACTIONS : Z := 256.
Definition MAX_SECURITY_EVENTS : Z := 100.
Definition MAX_INSTALLED_CERTIFICATES : nat := 64.
Definition MAX_HASH_LEN : Z := 128.
Definition MAX_SERIAL_LEN : Z := 40.

(** ** Data *)

Inductive TransactionStatus : Type := Active | Stopped.
#[export] Instance transaction_status_eq_dec : EqDecision TransactionStatus.
Proof. solve_decision. Defined.

Record Reported (T : Type) : Type := reported { reported_status : T; reported_at : DateTime }.
Arguments reported {T}.
Arguments reported_status {T}.
Arguments reported_at {T}.

Module InstalledCertificates.
Record t : Type := mk {
  status : GetInstalledCertificateStatus.t;
  certificates : list CertificateHashData.t;
  total : Z;
  at_ : DateTime;
}.
#[export] Instance eta : Eta t := fun r => mk (status r) (certificates r) (total r) (at_ r).
End InstalledCertificates.
Export (hints) InstalledCertificates.

Module SecurityEventRecord.
Record t : Type := mk {
  event_type : str;
  timestamp : DateTime;
  tech_info : option str;
  received_at : DateTime;
}.
#[export] Instance eta : Eta t := fun r => mk (event_type r) (timestamp r) (tech_info r)
  (received_at r).
End SecurityEventRecord.
Export (hints) SecurityEventRecord.

Module LogReport.
Record t : Type := mk {
  status : UploadLogStatus.t;
  request_id : option Z;
  at_ : DateTime;
}.
#[export] Instance eta : Eta t := fun r => mk (status r) (request_id r) (at_ r).
End LogReport.
Export (hints) LogReport.

Module SignedFirmwareReport.
Record t : Type := mk {
  status : SignedFirmwareStatus.t;
  request_id : option Z;
  at_ : DateTime;
}.
#[export] Instance eta : Eta t := fun r => mk (status r) (request_id r) (at_ r).
End SignedFirmwareReport.
Export (hints) SignedFirmwareReport.

Module CertificateRequest.
Record t : Type := mk {
  csr : str;
  received_at : DateTime;
}.
#[export] Instance eta : Eta t := fun r => mk (csr r) (received_at r).
End CertificateRequest.
Export (hints) CertificateRequest.

Module BootInfo.
Record t : Type := mk {
  vendor : str;
  model : str;
  charge_point_serial_number : option str;
  charge_box_serial_number : option str;
  firmware_version : option str;
  iccid : option str;
  imsi : option str;
  meter_type : option str;
  meter_serial_number : option str;
  booted_at : DateTime;
  registration : option RegistrationStatus.t;
  interval : option Z;
}.
#[export] Instance eta : Eta t := fun r => mk (vendor r) (model r) (charge_point_serial_number
  r) (charge_box_serial_number r) (firmware_version r) (iccid r) (imsi r) (meter_type r)
  (meter_serial_number r) (booted_at r) (registration r) (interval r).
End BootInfo.
Export (hints) BootInfo.

Module ConnectorState.
Record t : Type := mk {
  status : ConnectorStatus.t;
  error_code : ChargePointErrorCode.t;
  info : option str;
  vendor_id : option str;
  vendor_error_code : option str;
  timestamp : option DateTime;
  received_at : DateTime;
}.
#[export] Instance eta : Eta t := fun r => mk (status r) (error_code r) (info r) (vendor_id r)
  (vendor_error_code r) (timestamp r) (received_at r).
End ConnectorState.
Export (hints) ConnectorState.

Module TransactionRecord.
Record t : Type := mk {
  id : Z;
  connector : ConnectorId;
  id_tag : str;
  id_tag_status : AuthorizationStatus.t;
  meter_start : Z;
  started_at : DateTime;
  status : TransactionStatus;
  meter_stop : option Z;
  stopped_at : option DateTime;
  stop_reason : option StopReason.t;
  energy_wh : option f64;
  power_w : option f64;
  last_meter_at : option DateTime;
}.
#[export] Instance eta : Eta t := fun r => mk (id r) (connector r) (id_tag r) (id_tag_status r)
  (meter_start r) (started_at r) (status r) (meter_stop r) (stopped_at r) (stop_reason r)
  (energy_wh r) (power_w r) (last_meter_at r).
End TransactionRecord.
Export (hints) TransactionRecord.

Module StationState.
Record t : Type := mk {
  boot : option BootInfo.t;
  connectors : gmap Z ConnectorState.t;
  transactions : list TransactionRecord.t;
  last_heartbeat_at : option DateTime;
  diagnostics_status : option (Reported DiagnosticsStatus.t);
  firmware_status : option (Reported FirmwareStatus.t);
  failed_calls : Z;
  unknown_stops : Z;
  security_events : list SecurityEventRecord.t;
  security_events_total : Z;
  log_status : option LogReport.t;
  signed_firmware_status : option SignedFirmwareReport.t;
  certificate_request : option CertificateRequest.t;
  installed_certificates : gmap str InstalledCertificates.t;
}.
#[export] Instance eta : Eta t := fun r => mk (boot r) (connectors r) (transactions r)
  (last_heartbeat_at r) (diagnostics_status r) (firmware_status r) (failed_calls r) (unknown_stops
  r) (security_events r) (security_events_total r) (log_status r) (signed_firmware_status r)
  (certificate_request r) (installed_certificates r).
End StationState.
Export (hints) StationState.

(** [StationState::default] *)
Definition new_state : StationState.t :=
  StationState.mk None ∅ [] None None None 0 0 [] 0 None None None ∅.

(** Cuts [text] to at most [max] characters. *)
Definition truncate (text : str) (max : Z) : str :=
  if chars_count text <=? max then text else take (Z.to_nat max) text.

(** [while len > max { pop_front }] *)
Fixpoint pop_over {A} (max : Z) (l : list A) : list A :=
  match l with
  | [] => []
  | _ :: r => if max <? len l then pop_over max r else l
  end.

(** [iter_mut().rev().find(p)], and the change made through it *)
Definition update_last {A} (p : A -> bool) (f : A -> A) (l : list A) : list A :=
  rev (update_first p f (rev l)).
Definition find_last {A} (p : A -> bool) (l : list A) : option A := find_first p (rev l).

Definition has_status (s : TransactionStatus) (tx : TransactionRecord.t) : bool :=
  TransactionRecord.status tx == s.
Definition count_status (s : TransactionStatus) (l : list TransactionRecord.t) : Z :=
  len (retain (has_status s) l).

(** [transactions.remove(position(status))] *)
Definition remove_oldest (s : TransactionStatus) (l : list TransactionRecord.t) : list TransactionRecord.t :=
  match position (has_status s) l with Some i => remove_at i l | None => l end.

(** The loop of [on_stop]: [n] is how many stopped transactions are too many. *)
Fixpoint remove_stopped (n : nat) (l : list TransactionRecord.t) : list TransactionRecord.t :=
  match n with
  | O => l
  | S n =>
      match position (has_status Stopped) l with
      | Some i => remove_stopped n (remove_at i l)
      | None => l
      end
  end.

(** [active_mut] *)
Definition is_active_with (id : Z) (tx : TransactionRecord.t) : bool :=
  (TransactionRecord.id tx =? id) && has_status Active tx.
Definition active (s : StationState.t) (id : Z) : option TransactionRecord.t :=
  find_last (is_active_with id) (StationState.transactions s).
Definition modify_active (s : StationState.t) (id : Z) (f : TransactionRecord.t -> TransactionRecord.t)
  : StationState.t :=
  s <| StationState.transactions ::= update_last (is_active_with id) f |>.

(** A raw numeric sample as [f64]; signed data and non-numbers are skipped. *)
Definition sample_value (sample : SampledValue.t) : option f64 :=
  if SampledValue.format sample == Some ValueFormat.SignedData then None
  else match parse_f64 (trim (SampledValue.value sample)) with
       | Some v => if is_finite v then Some v else None
       | None => None
       end.

(** One sample of a [MeterValue], and whether it was recorded. *)
Definition apply_sample (tx : TransactionRecord.t) (sample : SampledValue.t)
  : TransactionRecord.t * bool :=
  match sample_value sample with
  | None => (tx, false)
  | Some value =>
      match default Measurand.EnergyActiveImportRegister (SampledValue.measurand sample) with
      | Measurand.EnergyActiveImportRegister =>
          match default UnitOfMeasure.Wh (SampledValue.unit sample) with
          | UnitOfMeasure.Wh => (tx <| TransactionRecord.energy_wh := Some value |>, true)
          | UnitOfMeasure.KWh =>
              (tx <| TransactionRecord.energy_wh := Some (f_mul value (f_of_Z 1000)) |>, true)
          | _ => (tx, false)
          end
      | Measurand.PowerActiveImport =>
          match default UnitOfMeasure.W (SampledValue.unit sample) with
          | UnitOfMeasure.W => (tx <| TransactionRecord.power_w := Some value |>, true)
          | UnitOfMeasure.KW =>
              (tx <| TransactionRecord.power_w := Some (f_mul value (f_of_Z 1000)) |>, true)
          | _ => (tx, false)
          end
      | _ => (tx, false)
      end
  end.

Definition apply_samples (tx : TransactionRecord.t) (samples : list SampledValue.t)
  : TransactionRecord.t * bool :=
  fold_left (fun '(tx, touched) sample =>
    let '(tx, hit) := apply_sample tx sample in (tx, touched || hit)) samples (tx, false).

Definition apply_meter (tx : TransactionRecord.t) (meter : MeterValue.t) : TransactionRecord.t * bool :=
  let samples := retain (fun s => negb (is_someb (SampledValue.phase s))) (MeterValue.sampled_value meter) in
  let '(tx, touched) := apply_samples tx samples in
  if touched then (tx <| TransactionRecord.last_meter_at := Some (MeterValue.timestamp meter) |>, true)
  else (tx, false).

Definition apply_meters (tx : TransactionRecord.t) (meters : list MeterValue.t)
  : TransactionRecord.t * bool :=
  fold_left (fun '(tx, changed) meter =>
    let '(tx, hit) := apply_meter tx meter in (tx, changed || hit)) meters (tx, false).

Section state.
Context {J : SerdeJson} {W : CsmsWire}.
Implicit Types (s : StationState.t) (request response : json) (now : DateTime).

Definition on_installed_certificates s request response now : option StationState.t :=
  let? req := installed_req request in
  let? res := installed_res response in
  let key := CertificateUse.as_str (GetInstalledCertificateIdsRequest.certificate_type req) in
  let sent := default [] (GetInstalledCertificateIdsResponse.certificate_hash_data res) in
  let certificates := map (fun hash =>
    hash <| CertificateHashData.issuer_name_hash ::= fun t => truncate t MAX_HASH_LEN |>
         <| CertificateHashData.issuer_key_hash ::= fun t => truncate t MAX_HASH_LEN |>
         <| CertificateHashData.serial_number ::= fun t => truncate t MAX_SERIAL_LEN |>)
    (take MAX_INSTALLED_CERTIFICATES sent) in
  Some (s <| StationState.installed_certificates ::=
    <[key := InstalledCertificates.mk (GetInstalledCertificateIdsResponse.status res)
               certificates (len sent) now]> |>).

Definition on_security_event s request now : option StationState.t :=
  let? req := security_event_req request in
  let event := SecurityEventRecord.mk
    (truncate (SecurityEventNotificationRequest.event_type req) MAX_SECURITY_EVENT_TYPE_LEN)
    (SecurityEventNotificationRequest.timestamp req)
    ((fun text => truncate text MAX_SECURITY_EVENT_TECH_INFO_LEN)
       <$> SecurityEventNotificationRequest.tech_info req) now in
  Some (s <| StationState.security_events ::= fun l => pop_over MAX_SECURITY_EVENTS (l ++ [event]) |>
          <| StationState.security_events_total ::= fun n => u64_wrapping_add n 1 |>).

Definition on_boot s request response now : option StationState.t :=
  let? req := boot_req request in
  let res := boot_res response in
  Some (s <| StationState.boot := Some {|
    BootInfo.vendor := BootNotificationRequest.charge_point_vendor req;
    BootInfo.model := BootNotificationRequest.charge_point_model req;
    BootInfo.charge_point_serial_number := BootNotificationRequest.charge_point_serial_number req;
    BootInfo.charge_box_serial_number := BootNotificationRequest.charge_box_serial_number req;
    BootInfo.firmware_version := BootNotificationRequest.firmware_version req;
    BootInfo.iccid := BootNotificationRequest.iccid req;
    BootInfo.imsi := BootNotificationRequest.imsi req;
    BootInfo.meter_type := BootNotificationRequest.meter_type req;
    BootInfo.meter_serial_number := BootNotificationRequest.meter_serial_number req;
    BootInfo.booted_at := now;
    BootInfo.registration := BootNotificationResponse.status <$> res;
    BootInfo.interval := BootNotificationResponse.interval <$> res |} |>).

Definition on_status s request now : option StationState.t :=
  let? req := status_req request in
  let id := StatusNotificationRequest.connector_id req in
  let connectors := StationState.connectors s in
  if negb (is_someb (connectors !! id)) && (MAX_CONNECTORS <=? Z.of_nat (size connectors)) then None
  else Some (s <| StationState.connectors ::= <[id := {|
    ConnectorState.status := StatusNotificationRequest.status req;
    ConnectorState.error_code := StatusNotificationRequest.error_code req;
    ConnectorState.info := StatusNotificationRequest.info req;
    ConnectorState.vendor_id := StatusNotificationRequest.vendor_id req;
    ConnectorState.vendor_error_code := StatusNotificationRequest.vendor_error_code req;
    ConnectorState.timestamp := StatusNotificationRequest.timestamp req;
    ConnectorState.received_at := now |}]> |>).

(** The record of a transaction that has just been answered. *)
Definition new_record (req : StartTransactionRequest.t) (res : StartTransactionResponse.t)
  : TransactionRecord.t := {|
  TransactionRecord.id := StartTransactionResponse.transaction_id res;
  TransactionRecord.connector := StartTransactionRequest.connector_id req;
  TransactionRecord.id_tag := StartTransactionRequest.id_tag req;
  TransactionRecord.id_tag_status := IdTagInfo.status (StartTransactionResponse.id_tag_info res);
  TransactionRecord.meter_start := StartTransactionRequest.meter_start req;
  TransactionRecord.started_at := StartTransactionRequest.timestamp req;
  TransactionRecord.status := Active;
  TransactionRecord.meter_stop := None;
  TransactionRecord.stopped_at := None;
  TransactionRecord.stop_reason := None;
  TransactionRecord.energy_wh := None;
  TransactionRecord.power_w := None;
  TransactionRecord.last_meter_at := None |}.

Definition on_start s request response : option StationState.t :=
  let? req := start_req request in
  let? res := start_res response in
  let transactions := StationState.transactions s ++ [new_record req res] in
  Some (s <| StationState.transactions :=
    if MAX_ACTIVE_TRANSACTIONS <? count_status Active transactions
    then remove_oldest Active transactions else transactions |>).

Definition stop_record (req : StopTransactionRequest.t) (tx : TransactionRecord.t)
  : TransactionRecord.t :=
  tx <| TransactionRecord.status := Stopped |>
     <| TransactionRecord.meter_stop := Some (StopTransactionRequest.meter_stop req) |>
     <| TransactionRecord.stopped_at := Some (StopTransactionRequest.timestamp req) |>
     <| TransactionRecord.stop_reason := StopTransactionRequest.reason req |>.

Definition on_stop s request (history_cap : Z) : option StationState.t :=
  let? req := stop_req request in
  let id := StopTransactionRequest.transaction_id req in
  match active s id with
  | None => Some (s <| StationState.unknown_stops ::= fun n => u64_wrapping_add n 1 |>)
  | Some _ =>
      let s := modify_active s id (stop_record req) in
      let stopped := count_status Stopped (StationState.transactions s) in
      Some (s <| StationState.transactions ::= remove_stopped (Z.to_nat (stopped - history_cap)) |>)
  end.

(** [MeterValues] update the active transaction they name; readings without a transaction id, or
    for an unknown one, are not tracked. *)
Definition on_meter s request : StationState.t * bool :=
  match meter_req request with
  | None => (s, false)
  | Some req =>
      match MeterValuesRequest.transaction_id req with
      | None => (s, false)
      | Some id =>
          match active s id with
          | None => (s, false)
          | Some tx =>
              let '(tx, changed) := apply_meters tx (MeterValuesRequest.meter_value req) in
              (modify_active s id (fun _ => tx), changed)
          end
      end
  end.

(** The operations that change the state exactly when they return [Some]. *)
Definition changed s (o : option StationState.t) : StationState.t * bool :=
  match o with Some s' => (s', true) | None => (s, false) end.

(** Folds one answered CALL into the state; also whether the state changed. *)
Definition apply s (action : str) request response now (history_cap : Z) : StationState.t * bool :=
  let is_ name := action == name in
  if is_ Actions.BootNotification then changed s (on_boot s request response now)
  else if is_ Actions.Heartbeat then (s <| StationState.last_heartbeat_at := Some now |>, false)
  else if is_ Actions.StatusNotification then changed s (on_status s request now)
  else if is_ Actions.StartTransaction then changed s (on_start s request response)
  else if is_ Actions.StopTransaction then changed s (on_stop s request history_cap)
  else if is_ Actions.MeterValues then on_meter s request
  else if is_ Actions.DiagnosticsStatusNotification then
    changed s (let? req := diagnostics_req request in
      Some (s <| StationState.diagnostics_status :=
              Some (reported (DiagnosticsStatusNotificationRequest.status req) now) |>))
  else if is_ Actions.FirmwareStatusNotification then
    changed s (let? req := firmware_req request in
      Some (s <| StationState.firmware_status :=
              Some (reported (FirmwareStatusNotificationRequest.status req) now) |>))
  else if is_ Actions.SecurityEventNotification then changed s (on_security_event s request now)
  else if is_ Actions.LogStatusNotification then
    changed s (let? req := log_status_req request in
      Some (s <| StationState.log_status :=
              Some (LogReport.mk (LogStatusNotificationRequest.status req)
                      (LogStatusNotificationRequest.request_id req) now) |>))
  else if is_ Actions.SignedFirmwareStatusNotification then
    changed s (let? req := signed_firmware_req request in
      Some (s <| StationState.signed_firmware_status :=
              Some (SignedFirmwareReport.mk (SignedFirmwareStatusNotificationRequest.status req)
                      (SignedFirmwareStatusNotificationRequest.request_id req) now) |>))
  else if is_ Actions.SignCertificate then
    changed s (let? req := sign_certificate_req request in
      Some (s <| StationState.certificate_request :=
              Some (CertificateRequest.mk
                      (truncate (SignCertificateRequest.csr req) MAX_CERTIFICATE_LEN) now) |>))
  else (s, false).

(** Folds the answer of a CALL of the CSMS into the state. *)
Definition apply_result s (action : str) request response now : StationState.t * bool :=
  if action == Actions.GetInstalledCertificateIds
  then changed s (on_installed_certificates s request response now)
  else (s, false).

(** ** Finding, changing and forgetting records *)

Lemma find_last_split {A} (p : A -> bool) (l : list A) x :
  find_last p l = Some x ->
  exists l1 l2, l = l1 ++ x :: l2 /\ p x = true /\ (forall y, In y l2 -> p y = false) /\
    forall f, update_last p f l = l1 ++ f x :: l2.
Proof.
  unfold find_last, update_last. intros Hx.
  assert (Hs : exists r1 r2, rev l = r1 ++ x :: r2 /\ p x = true /\ forall y, In y r1 -> p y = false).
  { revert Hx. generalize (rev l). intros r. induction r as [|y r IH]; simpl; [done|].
    destruct (p y) eqn:Ey.
    - intros [= ->]. exists [], r. by split_and!; [|done|intros ? []].
    - intros (r1 & r2 & -> & Hp & Hr)%IH. exists (y :: r1), r2. split_and!; [done..|].
      intros z [<-|Hz]; auto. }
  destruct Hs as (r1 & r2 & Hr & Hp & Hn).
  assert (Hl : l = rev r2 ++ x :: rev r1).
  { rewrite <- (rev_involutive l), Hr, rev_app_distr. simpl. by rewrite <- app_assoc. }
  exists (rev r2), (rev r1). split_and!; [done|done| |].
  - intros y Hy. apply Hn. by apply in_rev.
  - intros f. rewrite Hr, update_first_middle by done. rewrite rev_app_distr. simpl.
    by rewrite <- app_assoc.
Qed.

Lemma find_last_none {A} (p : A -> bool) (l : list A) :
  find_last p l = None -> (forall x, In x l -> p x = false) /\ forall f, update_last p f l = l.
Proof.
  unfold find_last, update_last. intros Hn. rewrite find_first_none in Hn. split.
  - intros x Hx. apply Hn. by apply in_rev in Hx.
  - intros f. rewrite update_first_none by done. apply rev_involutive.
Qed.

Lemma position_split {A} (p : A -> bool) (l : list A) i :
  position p l = Some i ->
  exists l1 x l2, l = l1 ++ x :: l2 /\ p x = true /\ (forall y, In y l1 -> p y = false) /\
    remove_at i l = l1 ++ l2.
Proof.
  revert i. induction l as [|y l IH]; intros i; simpl; [done|]. destruct (p y) eqn:Ey.
  - intros [= <-]. exists [], y, l. by split_and!; [|done|intros ? []|].
  - destruct (position p l) as [k|]; simpl; [|done]. intros [= <-].
    destruct (IH k eq_refl) as (l1 & x & l2 & -> & Hp & Hn & Hr). exists (y :: l1), x, l2.
    split_and!; [done|done| |simpl; by rewrite Hr]. intros z [<-|Hz]; auto.
Qed.

Lemma Forall_sublist {A} (P : A -> Prop) l l' : sublist l l' -> Forall P l' -> Forall P l.
Proof. induction 1; inversion 1; subst; [done|constructor; auto|auto]. Qed.

Lemma count_app st l l' : count_status st (l ++ l') = count_status st l + count_status st l'.
Proof. unfold count_status, len. rewrite List.filter_app, length_app. lia. Qed.
Lemma count_cons st x l :
  count_status st (x :: l) = (if has_status st x then 1 else 0) + count_status st l.
Proof. unfold count_status, len. simpl. destruct (has_status st x); simpl length; lia. Qed.
Lemma count_nonneg st l : 0 <= count_status st l.
Proof. unfold count_status, len. lia. Qed.

Lemma has_status_eq st x : has_status st x = true <-> TransactionRecord.status x = st.
Proof. apply eqb_true. Qed.
Lemma has_status_other st st' x :
  has_status st x = true -> has_status st' x = (if decide (st = st') then true else false).
Proof.
  rewrite has_status_eq. unfold has_status. intros ->. case_decide; [by apply eqb_true|by apply eqb_ne].
Qed.

(** Forgetting the oldest record of a status. *)
Lemma remove_oldest_count st st' l :
  count_status st' (remove_oldest st l)
  = count_status st' l - (if decide (st = st') then if 0 <? count_status st l then 1 else 0 else 0).
Proof.
  unfold remove_oldest. destruct (position (has_status st) l) as [i|] eqn:Hi.
  - apply position_split in Hi as (l1 & x & l2 & -> & Hx & _ & ->).
    rewrite !count_app, !count_cons, (has_status_other _ st' _ Hx), Hx.
    pose proof (count_nonneg st l1). pose proof (count_nonneg st l2).
    rewrite (proj2 (Z.ltb_lt 0 _)) by lia. case_decide; lia.
  - rewrite position_None in Hi.
    assert (count_status st l = 0) as ->; [|case_decide; simpl; lia].
    unfold count_status. by rewrite retain_none.
Qed.
Lemma remove_oldest_sublist st l : sublist (remove_oldest st l) l.
Proof. unfold remove_oldest. case_match; [apply remove_at_sublist|done]. Qed.

Lemma remove_stopped_step n l :
  remove_stopped (S n) l = remove_stopped n (remove_oldest Stopped l).
Proof.
  unfold remove_oldest. simpl. destruct (position (has_status Stopped) l) eqn:E; [done|].
  destruct n as [|n]; [done|]. simpl. by rewrite E.
Qed.
Lemma remove_stopped_count n l :
  count_status Active (remove_stopped n l) = count_status Active l /\
  count_status Stopped (remove_stopped n l) = Z.max 0 (count_status Stopped l - Z.of_nat n).
Proof.
  revert l. induction n as [|n IH]; intros l.
  - simpl. pose proof (count_nonneg Stopped l). lia.
  - rewrite remove_stopped_step. destruct (IH (remove_oldest Stopped l)) as [-> ->].
    rewrite !remove_oldest_count. pose proof (count_nonneg Stopped l).
    case_decide; [done|]. case_decide; [|done].
    destruct (Z.ltb_spec 0 (count_status Stopped l)); lia.
Qed.
Lemma remove_stopped_sublist n l : sublist (remove_stopped n l) l.
Proof.
  revert l. induction n as [|n IH]; intros l; [done|]. rewrite remove_stopped_step.
  etrans; [apply IH|apply remove_oldest_sublist].
Qed.

(** ** Bounds *)

(** What the engine folds into the state of a station. *)
Inductive op : Type :=
| Answered (action : str) (request response : json) (now : DateTime)
| Result (action : str) (request response : json) (now : DateTime).

Definition step (history_cap : Z) s (o : op) : StationState.t :=
  match o with
  | Answered action request response now => (apply s action request response now history_cap).1
  | Result action request response now => (apply_result s action request response now).1
  end.
Definition run (history_cap : Z) (ops : list op) : StationState.t :=
  fold_left (step history_cap) ops new_state.

Definition within (max : Z) (text : str) : Prop := len text <= max.
Definition event_ok (e : SecurityEventRecord.t) : Prop :=
  within MAX_SECURITY_EVENT_TYPE_LEN (SecurityEventRecord.event_type e) /\
  forall t, SecurityEventRecord.tech_info e = Some t -> within MAX_SECURITY_EVENT_TECH_INFO_LEN t.
Definition hash_ok (h : CertificateHashData.t) : Prop :=
  within MAX_HASH_LEN (CertificateHashData.issuer_name_hash h) /\
  within MAX_HASH_LEN (CertificateHashData.issuer_key_hash h) /\
  within MAX_SERIAL_LEN (CertificateHashData.serial_number h).
(** A transaction has the data of its stop exactly when it is stopped. *)
Definition record_ok (tx : TransactionRecord.t) : Prop :=
  match TransactionRecord.status tx with
  | Active => TransactionRecord.meter_stop tx = None /\ TransactionRecord.stopped_at tx = None
              /\ TransactionRecord.stop_reason tx = None
  | Stopped => is_Some (TransactionRecord.meter_stop tx) /\ is_Some (TransactionRecord.stopped_at tx)
  end.

Record bounded (history_cap : Z) (s : StationState.t) : Prop := {
  bounded_active : count_status Active (StationState.transactions s) <= MAX_ACTIVE_TRANSACTIONS;
  bounded_stopped : count_status Stopped (StationState.transactions s) <= history_cap;
  bounded_records : Forall record_ok (StationState.transactions s);
  bounded_connectors : Z.of_nat (size (StationState.connectors s)) <= MAX_CONNECTORS;
  bounded_events : len (StationState.security_events s) <= MAX_SECURITY_EVENTS;
  bounded_event_texts : Forall event_ok (StationState.security_events s);
  bounded_csr c : StationState.certificate_request s = Some c ->
    within MAX_CERTIFICATE_LEN (CertificateRequest.csr c);
  bounded_installed key c : StationState.installed_certificates s !! key = Some c ->
    (length (InstalledCertificates.certificates c) <= MAX_INSTALLED_CERTIFICATES)%nat /\
    Z.of_nat (length (InstalledCertificates.certificates c)) <= InstalledCertificates.total c /\
    Forall hash_ok (InstalledCertificates.certificates c);
}.

Lemma truncate_within text max : 0 <= max -> within max (truncate text max).
Proof.
  intros Hm. unfold truncate, within, chars_count, len. destruct (Z.leb_spec (Z.of_nat (length text)) max);
    [done|]. rewrite length_take. lia.
Qed.

Lemma pop_over_spec {A} max (l : list A) :
  0 <= max -> len (pop_over max l) <= max /\ sublist (pop_over max l) l.
Proof.
  intros Hm. induction l as [|x l IH]; simpl; [by split; [unfold len; simpl; lia|]|].
  destruct (Z.ltb_spec max (len (x :: l))); [|done]. split; [apply IH|]. constructor. apply IH.
Qed.

Lemma apply_sample_keeps tx sample :
  let tx' := (apply_sample tx sample).1 in
  TransactionRecord.id tx' = TransactionRecord.id tx /\
  TransactionRecord.status tx' = TransactionRecord.status tx /\ (record_ok tx -> record_ok tx').
Proof.
  unfold apply_sample. repeat case_match; cbn [fst]; (split_and!; [done|done|intros Ho; exact Ho]).
Qed.

(** Two records of the same transaction at the same stage. *)
Definition same_stage (tx tx' : TransactionRecord.t) : Prop :=
  TransactionRecord.id tx' = TransactionRecord.id tx /\
  TransactionRecord.status tx' = TransactionRecord.status tx /\ (record_ok tx -> record_ok tx').
#[global] Instance same_stage_preorder : PreOrder same_stage.
Proof.
  split; [by intros tx; split_and!|]. intros x y z (Hi & Hs & Ho) (Hi' & Hs' & Ho').
  split_and!; [congruence|congruence|auto].
Qed.

Lemma fold_keeps {A} (f : TransactionRecord.t -> A -> TransactionRecord.t * bool) l tx b :
  (forall tx x, same_stage tx (f tx x).1) ->
  same_stage tx (fold_left (fun '(tx, hit) x => let '(tx, hit') := f tx x in (tx, hit || hit')) l (tx, b)).1.
Proof.
  intros Hf. revert tx b. induction l as [|x l IH]; intros tx b; [done|]. cbn [fold_left].
  specialize (Hf tx x). destruct (f tx x) as [tx' b']. cbn [fst] in Hf. etrans; [exact Hf|apply IH].
Qed.
Lemma apply_meter_keeps tx meter : same_stage tx (apply_meter tx meter).1.
Proof.
  unfold apply_meter, apply_samples.
  pose proof (fold_keeps apply_sample (retain (fun x => negb (is_someb (SampledValue.phase x)))
    (MeterValue.sampled_value meter)) tx false apply_sample_keeps) as Hs.
  destruct (fold_left _ _ _) as [tx' []]; cbn [fst] in *; [|exact Hs]. cbn [fst] in *. etrans; [exact Hs|].
  by split_and!; [| |unfold record_ok].
Qed.
Lemma apply_meters_keeps tx meters : same_stage tx (apply_meters tx meters).1.
Proof. apply fold_keeps. intros *. apply apply_meter_keeps. Qed.

(** The records after a change through [active_mut] that keeps the status or stops. *)
Lemma modify_active_split s id f tx :
  active s id = Some tx ->
  exists l1 l2, StationState.transactions s = l1 ++ tx :: l2 /\
    StationState.transactions (modify_active s id f) = l1 ++ f tx :: l2 /\
    TransactionRecord.id tx = id /\ TransactionRecord.status tx = Active.
Proof.
  intros (l1 & l2 & Hl & Hp & _ & Hu)%find_last_split. exists l1, l2.
  unfold is_active_with in Hp. bool_facts. split_and!; [done| |done|by apply has_status_eq].
  unfold modify_active. simpl. apply Hu.
Qed.

Lemma bounded_same cap s s' :
  StationState.transactions s' = StationState.transactions s ->
  StationState.connectors s' = StationState.connectors s ->
  StationState.security_events s' = StationState.security_events s ->
  StationState.certificate_request s' = StationState.certificate_request s ->
  StationState.installed_certificates s' = StationState.installed_certificates s ->
  bounded cap s -> bounded cap s'.
Proof. intros Ht Hc He Hr Hi []. split; rewrite ?Ht, ?Hc, ?He, ?Hr, ?Hi; auto. Qed.

(** The other fields are kept. *)
Lemma bounded_transactions cap s l :
  count_status Active l <= MAX_ACTIVE_TRANSACTIONS -> count_status Stopped l <= cap ->
  Forall record_ok l -> bounded cap s -> bounded cap (s <| StationState.transactions := l |>).
Proof. intros Ha Hs Hl []. by split. Qed.

Lemma bounded_on_start cap s request response s' :
  on_start s request response = Some s' -> bounded cap s -> bounded cap s'.
Proof.
  unfold on_start. destruct (start_req request) as [req|]; [|done].
  destruct (start_res response) as [res|]; [|done]. intros [= <-] Hb.
  pose proof Hb as [Ha Hs Hl _ _ _ _ _].
  assert (Hc : forall st, count_status st (StationState.transactions s ++ [new_record req res])
    = count_status st (StationState.transactions s) + (if has_status st (new_record req res) then 1 else 0)).
  { intros st. rewrite count_app, count_cons. change (count_status st []) with 0. lia. }
  pose proof (Hc Active) as Hca. pose proof (Hc Stopped) as Hcs. 
  change (has_status Active (new_record req res)) with true in Hca.
  change (has_status Stopped (new_record req res)) with false in Hcs. cbv iota in Hca, Hcs.
  assert (Hok : Forall record_ok (StationState.transactions s ++ [new_record req res]))
    by (apply Forall_app; split; [done|repeat constructor]).
  apply bounded_transactions; [..|done].
  - destruct (Z.ltb_spec MAX_ACTIVE_TRANSACTIONS
      (count_status Active (StationState.transactions s ++ [new_record req res]))) as [Hgt|]; [|lia].
    rewrite remove_oldest_count. case_decide; [|done].
    unfold MAX_ACTIVE_TRANSACTIONS in *. case_match eqn:Hz; [lia|]. apply Z.ltb_ge in Hz. lia.
  - case_match; [|lia]. rewrite remove_oldest_count. case_decide; [done|lia].
  - case_match; [|done]. by apply (Forall_sublist _ _ _ (remove_oldest_sublist _ _)).
Qed.

Lemma bounded_on_stop cap s request s' :
  0 <= cap -> on_stop s request cap = Some s' -> bounded cap s -> bounded cap s'.
Proof.
  intros Hcap. unfold on_stop. destruct (stop_req request) as [req|]; [|done].
  destruct (active s _) as [tx|] eqn:Htx; intros [= <-] Hb; [|by apply (bounded_same cap s)].
  pose proof Hb as [Ha Hs Hl _ _ _ _ _].
  destruct (modify_active_split s _ (stop_record req) tx Htx) as (l1 & l2 & Ht & Hm & _ & Hact).
  rewrite Ht in Ha, Hs, Hl. rewrite count_app, count_cons in Ha, Hs.
  pose proof (proj2 (has_status_eq Active tx) Hact) as Hst.
  rewrite Hst in Ha. rewrite (has_status_other _ Stopped _ Hst) in Hs. simpl in Hs.
  assert (Hn : count_status Active (l1 ++ stop_record req tx :: l2) <= MAX_ACTIVE_TRANSACTIONS)
    by (rewrite count_app, count_cons; change (has_status Active _) with false; simpl; lia).
  assert (Hok : Forall record_ok (l1 ++ stop_record req tx :: l2)).
  { apply Forall_app in Hl as [Hl1 Hl2]. inversion Hl2; subst. apply Forall_app. split; [done|].
    constructor; [|done]. split; simpl; eauto. }
  set (l := l1 ++ stop_record req tx :: l2) in *.
  destruct (remove_stopped_count (Z.to_nat (count_status Stopped l - cap)) l) as [Hra Hrs].
  pose (l' := StationState.transactions (modify_active s (StopTransactionRequest.transaction_id req)
                                           (stop_record req))).
  apply (bounded_transactions cap s (remove_stopped (Z.to_nat (count_status Stopped l' - cap)) l'));
    change l' with (StationState.transactions (modify_active s
      (StopTransactionRequest.transaction_id req) (stop_record req))); rewrite ?Hm; [by rewrite Hra|rewrite Hrs; lia| |done].
  by apply (Forall_sublist _ _ _ (remove_stopped_sublist _ _)).
Qed.

Lemma bounded_on_meter cap s request : bounded cap s -> bounded cap (on_meter s request).1.
Proof.
  unfold on_meter. destruct (meter_req request) as [req|]; [|done].
  destruct (MeterValuesRequest.transaction_id req) as [id|]; [|done].
  destruct (active s id) as [tx|] eqn:Htx; [|done].
  pose proof (apply_meters_keeps tx (MeterValuesRequest.meter_value req)) as (_ & Hst & Hok).
  destruct (apply_meters tx _) as [tx' hit]. cbn [fst] in *. intros Hb.
  pose proof Hb as [Ha Hs Hl _ _ _ _ _].
  destruct (modify_active_split s id (fun _ => tx') tx Htx) as (l1 & l2 & Ht & Hm & _ & Hact).
  apply (bounded_transactions cap s (StationState.transactions (modify_active s id (fun _ => tx'))));
    rewrite ?Hm; [..|done]; rewrite Ht in *.
  - revert Ha. rewrite !count_app, !count_cons. unfold has_status. by rewrite Hst.
  - revert Hs. rewrite !count_app, !count_cons. unfold has_status. by rewrite Hst.
  - apply Forall_app in Hl as [Hl1 Hl2]. inversion Hl2; subst. apply Forall_app. split; [done|].
    constructor; auto.
Qed.

Lemma bounded_on_status cap s request now s' :
  on_status s request now = Some s' -> bounded cap s -> bounded cap s'.
Proof.
  unfold on_status. destruct (status_req request) as [req|]; [|done].
  destruct (negb _ && _) eqn:Hfull; [done|]. intros [= <-] []. split; try done. simpl.
  destruct (StationState.connectors s !! StatusNotificationRequest.connector_id req) eqn:Hc.
  - rewrite map_size_insert_Some by done. done.
  - rewrite map_size_insert_None by done. simpl in Hfull. apply Z.leb_gt in Hfull. lia.
Qed.

Lemma bounded_on_security_event cap s request now s' :
  on_security_event s request now = Some s' -> bounded cap s -> bounded cap s'.
Proof.
  unfold on_security_event. destruct (security_event_req request) as [req|]; [|done].
  intros [= <-] []. split; try done; simpl;
    destruct (pop_over_spec MAX_SECURITY_EVENTS (StationState.security_events s ++
      [SecurityEventRecord.mk
         (truncate (SecurityEventNotificationRequest.event_type req) MAX_SECURITY_EVENT_TYPE_LEN)
         (SecurityEventNotificationRequest.timestamp req)
         ((fun text => truncate text MAX_SECURITY_EVENT_TECH_INFO_LEN)
            <$> SecurityEventNotificationRequest.tech_info req) now])) as [Hlen Hsub]; [done| |done|].
  - exact Hlen.
  - apply (Forall_sublist _ _ _ Hsub), Forall_app. split; [done|]. constructor; [|done]. split; simpl.
    + by apply truncate_within.
    + intros text. destruct (SecurityEventNotificationRequest.tech_info req); simpl; [|done].
      intros [= <-]. by apply truncate_within.
Qed.

Lemma bounded_on_installed cap s request response now s' :
  on_installed_certificates s request response now = Some s' -> bounded cap s -> bounded cap s'.
Proof.
  unfold on_installed_certificates. destruct (installed_req request) as [req|]; [|done].
  destruct (installed_res response) as [res|]; [|done]. intros [= <-] []. split; try done. simpl.
  intros key c [[<- <-]|[_ Hc]]%lookup_insert_Some; [|eauto]. cbn [InstalledCertificates.certificates
    InstalledCertificates.total]. unfold len. rewrite length_map, length_take. split_and!; [lia|lia|].
  apply Forall_map, Forall_forall. intros h _. by split_and!; apply truncate_within.
Qed.

Lemma bounded_changed cap s o :
  (forall s', o = Some s' -> bounded cap s -> bounded cap s') -> bounded cap s ->
  bounded cap (changed s o).1.
Proof. destruct o; simpl; auto. Qed.

Lemma bounded_result_step cap s action request response now :
  bounded cap s -> bounded cap (apply_result s action request response now).1.
Proof.
  intros Hb. unfold apply_result. case_match; [|done]. apply bounded_changed; [intros s'|done].
  apply bounded_on_installed.
Qed.

Lemma bounded_step cap s o : 0 <= cap -> bounded cap s -> bounded cap (step cap s o).
Proof.
  intros Hcap Hb. destruct o as [action request response now|action request response now]; simpl.
  - unfold apply. repeat case_match; cbn [fst]; try done;
      try (apply bounded_changed; [intros s'|done]); try (by apply bounded_on_meter);
      try (by apply (bounded_same cap s)).
    + unfold on_boot. destruct (boot_req request); [|done]. intros [= <-]. by apply bounded_same.
    + apply bounded_on_status.
    + apply bounded_on_start.
    + by apply bounded_on_stop.
    + destruct (diagnostics_req request); [|done]. intros [= <-]. by apply bounded_same.
    + destruct (firmware_req request); [|done]. intros [= <-]. by apply bounded_same.
    + apply bounded_on_security_event.
    + destruct (log_status_req request); [|done]. intros [= <-]. by apply bounded_same.
    + destruct (signed_firmware_req request); [|done]. intros [= <-]. by apply bounded_same.
    + destruct (sign_certificate_req request); [|done]. intros [= <-] []. split; try done. simpl.
      intros c [= <-]. by apply truncate_within.
  - by apply bounded_result_step.
Qed.

Lemma run_bounded cap ops : 0 <= cap -> bounded cap (run cap ops).
Proof.
  intros Hcap. assert (H0 : bounded cap new_state) by by split.
  unfold run. revert H0. generalize new_state. induction ops as [|o ops IH]; intros s Hb; simpl; [done|].
  by apply IH, bounded_step.
Qed.

(** What a station says never grows the read model of the CSMS beyond its bounds:
    whatever CALLs and answers are folded in, at most 256 transactions are active and at most
    [history_cap] are stopped, at most 1024 connectors, 100 security events and 64 certificates
    per type are kept, and every text of them is cut to its limit; a transaction has the data of
    its stop exactly when it is stopped. *)
Theorem csms_state_bounded history_cap ops : 0 <= history_cap -> bounded history_cap (run history_cap ops).
Proof. apply run_bounded. Qed.

(** ** The transactions against an unbounded log

    The specification: every answered start is a record for ever; a stop and a reading go to the
    last record with their id that is active. *)

Definition log_step (l : list TransactionRecord.t) (o : op) : list TransactionRecord.t :=
  match o with
  | Answered action request response _ =>
      if action == Actions.StartTransaction then
        match start_req request, start_res response with
        | Some req, Some res => l ++ [new_record req res]
        | _, _ => l
        end
      else if action == Actions.StopTransaction then
        match stop_req request with
        | Some req => update_last (is_active_with (StopTransactionRequest.transaction_id req)) (stop_record req) l
        | None => l
        end
      else if action == Actions.MeterValues then
        match meter_req request with
        | Some req =>
            match MeterValuesRequest.transaction_id req with
            | Some id =>
                update_last (is_active_with id)
                  (fun tx => (apply_meters tx (MeterValuesRequest.meter_value req)).1) l
            | None => l
            end
        | None => l
        end
      else l
  | Result _ _ _ _ => l
  end.
Definition transaction_log (ops : list op) : list TransactionRecord.t := fold_left log_step ops [].

(** The log with marks: the marked records are the ones that are kept. No record that is
    forgotten while active is younger than an active one that is kept. *)
Definition marked : Type := TransactionRecord.t * bool.
Definition older (x y : marked) : Prop :=
  ~ (x.2 = true /\ y.2 = false /\ TransactionRecord.status x.1 = Active
     /\ TransactionRecord.status y.1 = Active).
Definition kept (m : list marked) : list TransactionRecord.t := map fst (retain snd m).

Lemma kept_app m m' : kept (m ++ m') = kept m ++ kept m'.
Proof. unfold kept. by rewrite List.filter_app, map_app. Qed.
Lemma kept_cons x m : kept (x :: m) = (if x.2 then x.1 :: kept m else kept m).
Proof. unfold kept. simpl. by destruct (x.2). Qed.
Lemma kept_In x m : In x (kept m) <-> In (x, true) m.
Proof.
  unfold kept. rewrite in_map_iff. split.
  - intros ([y b] & <- & Hin). apply retain_In in Hin as [Hin Hb]. simpl in *. by subst.
  - intros Hin. exists (x, true). split; [done|]. by apply retain_In.
Qed.
Lemma kept_sublist m : sublist (kept m) (map fst m).
Proof.
  induction m as [|[x k] m IH]; [done|]. rewrite kept_cons. simpl. destruct k; by constructor.
Qed.

Lemma sorted_replace m1 x m2 y :
  StronglySorted older (m1 ++ x :: m2) -> y.2 = x.2 ->
  (TransactionRecord.status y.1 = Active -> TransactionRecord.status x.1 = Active) ->
  StronglySorted older (m1 ++ y :: m2).
Proof.
  unfold older. intros (H1 & H2 & H3)%StronglySorted_app Hk Ha. apply StronglySorted_app.
  inversion H3 as [|? ? H4 H5]; subst. split_and!; [|done|].
  - intros z w Hz [->|Hw]%elem_of_cons.
    + intros (? & ? & ? & ?). apply (H1 z x Hz (list_elem_of_here _ _)). rewrite <- Hk. auto.
    + apply H1; [done|]. by right.
  - constructor; [done|]. eapply Forall_impl; [exact H5|]. intros w Hw (? & ? & ? & ?).
    apply Hw. rewrite <- Hk. auto.
Qed.

Lemma update_last_middle {A} (p : A -> bool) f l1 x l2 :
  p x = true -> (forall y, In y l2 -> p y = false) -> update_last p f (l1 ++ x :: l2) = l1 ++ f x :: l2.
Proof.
  intros Hx Hl. unfold update_last. rewrite rev_app_distr. simpl. rewrite <- app_assoc. simpl.
  rewrite update_first_middle; [|intros y Hy; apply Hl; by apply in_rev|done].
  rewrite rev_app_distr. simpl. rewrite !rev_involutive. by rewrite <- app_assoc.
Qed.
Lemma update_last_absent {A} (p : A -> bool) f l :
  (forall y, In y l -> p y = false) -> update_last p f l = l.
Proof.
  intros Hl. unfold update_last. rewrite update_first_none; [apply rev_involutive|].
  intros y Hy. apply Hl. by apply in_rev.
Qed.
Lemma active_with_status id x : is_active_with id x = true -> TransactionRecord.status x = Active.
Proof. unfold is_active_with. intros ?. bool_facts. by apply has_status_eq. Qed.

(** A change through [active_mut] reaches the same record in the kept ones and in the log. *)
Lemma kept_update m id f :
  StronglySorted older m ->
  exists m', StronglySorted older m' /\ map fst m' = update_last (is_active_with id) f (map fst m) /\
    kept m' = update_last (is_active_with id) f (kept m).
Proof.
  intros Hm. destruct (find_last (is_active_with id) (map fst m)) as [x|] eqn:Hx.
  - apply find_last_split in Hx as (l1 & l2 & Hl & Hp & Hn & Hu).
    apply map_eq_app in Hl as (m1 & mx & -> & <- & Hl).
    destruct mx as [|[x' k] m2]; [done|]. simpl in Hl. injection Hl as -> <-.
    exists (m1 ++ (f x, k) :: m2). split_and!.
    + apply (sorted_replace m1 (x, k)); [done|done|]. intros _. by apply (active_with_status id).
    + by rewrite Hu, map_app.
    + assert (Hk2 : forall y, In y (kept m2) -> is_active_with id y = false).
      { intros y Hy%kept_In. apply Hn. apply in_map_iff. by exists (y, true). }
      rewrite !kept_app, !kept_cons. simpl. destruct k; [by rewrite update_last_middle|].
      rewrite update_last_absent; [done|]. intros y [Hy|Hy]%in_app_iff; [|auto].
      apply not_true_is_false. intros Hpy. apply kept_In in Hy.
      apply StronglySorted_app in Hm as (Hc & _ & _).
      apply (Hc (y, true) (x, false)); [by apply list_elem_of_In|by left|].
      by split_and!; [| |apply (active_with_status id)..].
  - apply find_last_none in Hx as [Hn Hu]. exists m. split_and!; [done|by rewrite Hu|].
    rewrite update_last_absent; [done|]. intros y Hy%kept_In. apply Hn, in_map_iff. by exists (y, true).
Qed.

(** Forgetting the oldest kept record of a status. *)
Lemma kept_forget m st :
  StronglySorted older m ->
  exists m', StronglySorted older m' /\ map fst m' = map fst m /\ kept m' = remove_oldest st (kept m).
Proof.
  intros Hm. destruct (position (fun y => y.2 && has_status st y.1) m) as [i|] eqn:Hi.
  - apply position_split in Hi as (m1 & [x k] & m2 & -> & Hp & Hn & _). simpl in Hp. bool_facts.
    assert (Hk1 : forall y, In y (kept m1) -> has_status st y = false)
      by (intros y Hy%kept_In; apply (Hn _ Hy)).
    exists (m1 ++ (x, false) :: m2). split_and!.
    + apply StronglySorted_app in Hm as (H1 & H2 & H3). inversion H3; subst.
      apply StronglySorted_app. split_and!; [|done|].
      * intros [y ky] z Hy [->|Hz]%elem_of_cons; [|by apply H1; [|right]].
        intros (Hky & _ & Hay & Hax). simpl in *. subst ky.
        assert (Hyk : has_status st y = false) by (apply Hk1, kept_In; by apply list_elem_of_In).
        assert (st = Active) as -> by (apply has_status_eq in H0; congruence).
        apply has_status_eq in Hay. congruence.
      * constructor; [done|]. apply Forall_forall. intros w _ (Hw & _). done.
    + rewrite !map_app. done.
    + rewrite !kept_app, !kept_cons. simpl. subst k. unfold remove_oldest.
      rewrite position_middle by done. by rewrite remove_at_middle.
  - rewrite position_None in Hi. exists m. split_and!; [done..|]. unfold remove_oldest.
    rewrite (proj2 (position_None _ _)); [done|]. intros y Hy%kept_In. by apply Hi in Hy.
Qed.
Lemma kept_forget_many m n :
  StronglySorted older m ->
  exists m', StronglySorted older m' /\ map fst m' = map fst m /\ kept m' = remove_stopped n (kept m).
Proof.
  revert m. induction n as [|n IH]; intros m Hm; [by exists m|].
  destruct (kept_forget m Stopped Hm) as (m' & Hm' & Hf & Hk). rewrite remove_stopped_step, <- Hk, <- Hf.
  by apply IH.
Qed.

(** The log of the kept records is the kept part of the log. *)
Lemma kept_log m o :
  StronglySorted older m ->
  exists m', StronglySorted older m' /\ map fst m' = log_step (map fst m) o /\ kept m' = log_step (kept m) o.
Proof.
  intros Hm. unfold log_step. repeat case_match; try (by exists m); try (by apply kept_update).
  exists (m ++ [(new_record t t0, true)]). rewrite map_app, kept_app. split_and!; [|done..].
  apply StronglySorted_app. split_and!; [|done|by repeat constructor].
  by intros x y _ ->%list_elem_of_singleton (_ & ? & _).
Qed.

Lemma on_boot_transactions s request response now s' :
  on_boot s request response now = Some s' -> StationState.transactions s' = StationState.transactions s.
Proof. unfold on_boot. destruct (boot_req request); [|done]. by intros [= <-]. Qed.
Lemma on_status_transactions s request now s' :
  on_status s request now = Some s' -> StationState.transactions s' = StationState.transactions s.
Proof.
  unfold on_status. destruct (status_req request); [|done]. destruct (_ && _); [done|]. by intros [= <-].
Qed.
Lemma on_security_event_transactions s request now s' :
  on_security_event s request now = Some s' -> StationState.transactions s' = StationState.transactions s.
Proof. unfold on_security_event. destruct (security_event_req request); [|done]. by intros [= <-]. Qed.
Lemma on_installed_transactions s request response now s' :
  on_installed_certificates s request response now = Some s' ->
  StationState.transactions s' = StationState.transactions s.
Proof.
  unfold on_installed_certificates. destruct (installed_req request); [|done].
  destruct (installed_res response); [|done]. by intros [= <-].
Qed.

(** A step is a step of the log, after which old records may be forgotten: only when there are
    more of them than their bound. *)
Definition forgets (cap : Z) (l l' : list TransactionRecord.t) : Prop :=
  exists (b : bool) (n : nat), l' = remove_stopped n (if b then remove_oldest Active l else l) /\
    (count_status Active l <= MAX_ACTIVE_TRANSACTIONS -> b = false) /\
    (count_status Stopped l <= cap -> n = O).
Lemma forgets_nothing cap l : forgets cap l l.
Proof. by exists false, O. Qed.

Lemma step_forgets cap s o :
  forgets cap (log_step (StationState.transactions s) o) (StationState.transactions (step cap s o)).
Proof.
  pose proof (forgets_nothing cap) as Hn.
  destruct o as [action request response now|action request response now]; simpl.
  - unfold apply.
    destruct (action == Actions.StartTransaction) eqn:E1;
      [apply (proj1 (eqb_true _ _)) in E1; subst action; cbn -[on_start]|].
    { unfold on_start. destruct (start_req request) as [req|]; [|done].
      destruct (start_res response) as [res|]; [|done]. simpl.
      destruct (Z.ltb_spec MAX_ACTIVE_TRANSACTIONS
        (count_status Active (StationState.transactions s ++ [new_record req res]))) as [Hgt|]; [|done].
      exists true, O. split_and!; [done|lia|done]. }
    destruct (action == Actions.StopTransaction) eqn:E2;
      [apply (proj1 (eqb_true _ _)) in E2; subst action; cbn -[on_stop]|].
    { unfold on_stop. destruct (stop_req request) as [req|]; [|done].
      destruct (active s _) as [tx|] eqn:Ha; simpl.
      - eexists false, _. split_and!; [reflexivity|done|]. lia.
      - apply find_last_none in Ha as [_ ->]. apply Hn. }
    destruct (action == Actions.MeterValues) eqn:E3;
      [apply (proj1 (eqb_true _ _)) in E3; subst action; cbn -[on_meter apply_meters]|].
    { unfold on_meter. destruct (meter_req request) as [req|]; [|done].
      destruct (MeterValuesRequest.transaction_id req) as [id|]; [|done].
      destruct (active s id) as [tx|] eqn:Ha; [|apply find_last_none in Ha as [_ ->]; apply Hn].
      destruct (apply_meters tx _) as [tx' hit] eqn:Hap. simpl.
      apply find_last_split in Ha as (l1 & l2 & _ & _ & _ & Hu). rewrite !Hu, Hap. apply Hn. }
    revert E1 E2 E3. intros. repeat case_match; cbn [fst]; try apply Hn; try congruence.
    all: unfold changed; repeat case_match; cbn [fst]; try apply Hn.
    + match goal with H : _ = Some _ |- _ => apply on_boot_transactions in H as -> end. apply Hn.
    + match goal with H : _ = Some _ |- _ => apply on_status_transactions in H as -> end. apply Hn.
    + match goal with H : _ = Some _ |- _ => apply on_security_event_transactions in H as -> end. apply Hn.
  - unfold apply_result, changed. repeat case_match; cbn [fst]; try apply Hn.
    match goal with H : _ = Some _ |- _ => apply on_installed_transactions in H as -> end. apply Hn.
Qed.

Lemma transactions_kept cap ops :
  exists m, StronglySorted older m /\ map fst m = transaction_log ops /\
    StationState.transactions (run cap ops) = kept m.
Proof.
  unfold transaction_log, run. induction ops as [|o ops IH] using rev_ind; [by exists []; repeat constructor|].
  rewrite !fold_left_app. simpl. destruct IH as (m & Hm & Hf & Hk).
  destruct (step_forgets cap (fold_left (step cap) ops new_state) o) as (b & n & -> & _).
  destruct (kept_log m o Hm) as (m1 & Hm1 & Hf1 & Hk1). rewrite Hk, <- Hk1, <- Hf, <- Hf1.
  destruct b.
  - destruct (kept_forget m1 Active Hm1) as (m2 & Hm2 & <- & <-).
    destruct (kept_forget_many m2 n Hm2) as (m3 & Hm3 & <- & <-). by exists m3.
  - destruct (kept_forget_many m1 n Hm1) as (m3 & Hm3 & <- & <-). by exists m3.
Qed.

(** Claim C22: the transactions the CSMS shows are those of an unbounded log of the answered
    CALLs (a start is a record, a stop and a reading go to the last active record with their id),
    in its order, each with exactly its data, less records that were forgotten; and as long as
    the bounds are not exceeded nothing is forgotten. *)
Theorem transactions_refine_log history_cap ops :
  sublist (StationState.transactions (run history_cap ops)) (transaction_log ops) /\
  ((forall ops1 ops2, ops = ops1 ++ ops2 ->
      count_status Active (transaction_log ops1) <= MAX_ACTIVE_TRANSACTIONS /\
      count_status Stopped (transaction_log ops1) <= history_cap) ->
   StationState.transactions (run history_cap ops) = transaction_log ops).
Proof.
  split.
  - destruct (transactions_kept history_cap ops) as (m & _ & <- & ->). apply kept_sublist.
  - unfold transaction_log, run. induction ops as [|o ops IH] using rev_ind; [done|]. intros Hb.
    destruct (Hb (ops ++ [o]) []) as [Ha Hs]; [by rewrite app_nil_r|].
    rewrite !fold_left_app in *. simpl in *.
    rewrite <- IH in * by (intros ops1 ops2 ->; apply (Hb ops1 (ops2 ++ [o])); by rewrite app_assoc).
    destruct (step_forgets history_cap (fold_left (step history_cap) ops new_state) o)
      as (b & n & -> & Hb0 & Hn0). rewrite (Hb0 Ha), (Hn0 Hs). reflexivity.
Qed.
End state.

(** ** A station with two transactions *)

#[local] Existing Instance u64_json.

(** Starts and stops are written as the number of their transaction. *)
Definition sample_wire : CsmsWire := {|
  boot_req _ := None;
  boot_res _ := None;
  status_req _ := None;
  start_req _ := Some (StartTransactionRequest.mk 1 (lit "TAG") 10 None 0);
  start_res v := (StartTransactionResponse.mk (IdTagInfo.mk AuthorizationStatus.Accepted None None)) <$> as_u64 v;
  stop_req v := (fun id => StopTransactionRequest.mk None 99 5 id None None) <$> as_u64 v;
  meter_req _ := None;
  diagnostics_req _ := None;
  firmware_req _ := None;
  security_event_req _ := None;
  log_status_req _ := None;
  signed_firmware_req _ := None;
  sign_certificate_req _ := None;
  installed_req _ := None;
  installed_res _ := None |}.
#[local] Existing Instance sample_wire.

Definition sample_ops : list op :=
  [Answered Actions.StartTransaction Null (Num 7) 0; Answered Actions.StartTransaction Null (Num 8) 1;
   Answered Actions.StopTransaction (Num 7) Null 2; Answered Actions.StopTransaction (Num 9) Null 3].

Lemma csms_state_bounded_witness :
  bounded 1 (run 1 sample_ops) /\ count_status Stopped (StationState.transactions (run 1 sample_ops)) = 1.
Proof. split; [apply (csms_state_bounded 1 sample_ops); lia|vm_compute; reflexivity]. Defined.

Lemma transactions_refine_log_witness :
  sublist (StationState.transactions (run 0 sample_ops)) (transaction_log sample_ops) /\
  map TransactionRecord.id (StationState.transactions (run 0 sample_ops)) = [8] /\
  map TransactionRecord.id (transaction_log sample_ops) = [7; 8].
Proof.
  split; [apply (proj1 (transactions_refine_log 0 sample_ops))|vm_compute; split; reflexivity].
Defined.
End CsmsState.
