(* ===== verification/CsmsConfig.v ===== *)
(** * CsmsConfig: the policies of the CSMS, its scripted failures and its default answers

    [kirby-csms-core/src/]: [config.rs], [policy.rs], [fault.rs], [defaults.rs], [auth.rs] and the
    handshake helpers of [server.rs]. Base64, percent-encoding, X.509 and the text of timestamps
    are code outside the repository ([Handshake], [CsmsFormat]). *)

From stdpp Require Import strings gmap.
From S2P Require Import Prelude Text Utf8 Time Types Frame Actions Security.
Local Open Scope Z_scope.

Module CsmsConfig.

(** ** Subprotocol and transaction ids ([policy.rs]) *)

Inductive SubprotocolPolicy : Type :=
| Require (name : str)
| Select (name : str)
| Omit
| RejectAll.

Definition default_subprotocol : SubprotocolPolicy := Require (lit "ocpp1.6").

Definition select (p : SubprotocolPolicy) (offered : list str) : result (option str) str :=
  match p with
  | Require name =>
      if any (fun offer => offer == name) offered then Ok (Some name)
      else Err (lit "required subprotocol was not offered")
  | Select name => Ok (Some name)
  | Omit => Ok None
  | RejectAll => Err (lit "handshake rejected by configuration")
  end.

Inductive TransactionIds : Type :=
| Fixed (id : Z)
| Incrementing (id : Z).

Definition default_ids : TransactionIds := Fixed 123.

Record TransactionIdAllocator : Type := mk_allocator { policy : TransactionIds; next : Z }.
#[export] Instance allocator_eta : Eta TransactionIdAllocator := fun r => mk_allocator (policy r) (next r).

Definition allocator (p : TransactionIds) : TransactionIdAllocator :=
  mk_allocator p (match p with Fixed id | Incrementing id => id end).

(** [i32::wrapping_add] *)
Definition i32_wrapping_add (a b : Z) : Z := (a + b - i32_min) mod 2 ^ 32 + i32_min.

Definition allocate (a : TransactionIdAllocator) : TransactionIdAllocator * Z :=
  match policy a with
  | Fixed id => (a, id)
  | Incrementing _ => (a <| next ::= fun n => i32_wrapping_add n 1 |>, next a)
  end.

(** ** Security profiles and keys ([config.rs]) *)

Inductive SecurityProfile : Type := NoSecurity | BasicAuth | BasicAuthTls | MutualTls.
#[export] Instance profile_eq_dec : EqDecision SecurityProfile.
Proof. solve_decision. Defined.

Definition number (p : SecurityProfile) : Z :=
  match p with NoSecurity => 0 | BasicAuth => 1 | BasicAuthTls => 2 | MutualTls => 3 end.
Definition from_number (n : Z) : option SecurityProfile :=
  match n with
  | 0 => Some NoSecurity | 1 => Some BasicAuth | 2 => Some BasicAuthTls | 3 => Some MutualTls
  | _ => None
  end.

Record SecurityPolicy : Type := mk_policy {
  profile : SecurityProfile;
  keys : gmap str str;
  default_key : option str;
}.
Definition default_policy : SecurityPolicy := mk_policy NoSecurity ∅ None.

Definition is_empty_text (s : str) : bool := match s with [] => true | _ => false end.

(** The key a station must present, if one is configured. *)
Definition key_for (p : SecurityPolicy) (station : str) : option str :=
  match option_or (keys p !! station) (default_key p) with
  | Some key => if is_empty_text key then None else Some key
  | None => None
  end.
Definition has_empty_key (p : SecurityPolicy) : bool :=
  is_some_and is_empty_text (default_key p)
  || any (fun e => is_empty_text e.2) (map_to_list (keys p)).

(** What of [CsmsConfig] decides about messages; [tls] is whether there is a TLS configuration. *)
Record CsmsConfig : Type := mk_config {
  subprotocol : SubprotocolPolicy;
  heartbeat_interval : Z;
  transaction_ids : TransactionIds;
  call_timeout : Duration;
  history_cap : Z;
  history_bytes_cap : Z;
  transaction_history_cap : Z;
  write_timeout : Duration;
  max_message_size : Z;
  max_stations : Z;
  tls : bool;
  security : SecurityPolicy;
  show_secrets : bool;
  validate_inbound : bool;
  ping_interval : Duration;
  pong_timeout : Duration;
}.
Definition default_config : CsmsConfig :=
  mk_config default_subprotocol 300 default_ids (30 * NS_PER_SEC) 1000 (8 * 1024 * 1024) 100
    (10 * NS_PER_SEC) (1024 * 1024) 100000 false default_policy false true (30 * NS_PER_SEC)
    (10 * NS_PER_SEC).

(** The configurations [CsmsServer::start] accepts. *)
Definition startable (c : CsmsConfig) : bool :=
  negb (negb (tls c) && ((profile (security c) == BasicAuthTls) || (profile (security c) == MutualTls)))
  && negb (has_empty_key (security c)).

(** ** Replies and faults ([fault.rs]) *)

Section json.
Context {J : SerdeJson}.

Inductive Reply : Type :=
| ReplyResult (payload : json)
| ReplyError (code : ErrorCode.t) (description : str)
| Silence
| Close.

Record Fault : Type := mk_fault { fault_action : str; fault_reply : Reply; remaining : Z }.
#[export] Instance fault_eta : Eta Fault := fun r => mk_fault (fault_action r) (fault_reply r) (remaining r).

Definition reply (action : str) (r : Reply) : Fault := mk_fault action r 1.
Definition call_error (action : str) : Fault :=
  reply action (ReplyError ErrorCode.InternalError (lit "injected CALLERROR")).
Definition silence (action : str) : Fault := reply action Silence.
Definition close (action : str) : Fault := reply action Close.
Definition invalid_payload (action : str) (payload : json) : Fault := reply action (ReplyResult payload).
Definition times (f : Fault) (count : Z) : Fault := f <| remaining := count |>.

(** [Responder]: the payload of the CALL in, the reply out. *)
Definition Responder : Type := json -> Reply.

(** ** Default answers ([defaults.rs]) *)

(** [Number::from] an integer, [DateTime::to_rfc3339_opts(Millis, true)]. *)
Class CsmsFormat : Type := { number_from : Z -> Number; iso : DateTime -> str }.
Context {F : CsmsFormat}.

Definition CHARGE_POINT_ACTIONS : list str :=
  [Actions.Authorize; Actions.BootNotification; Actions.DataTransfer;
   Actions.DiagnosticsStatusNotification; Actions.FirmwareStatusNotification; Actions.Heartbeat;
   Actions.LogStatusNotification; Actions.MeterValues; Actions.SecurityEventNotification;
   Actions.SignCertificate; Actions.SignedFirmwareStatusNotification; Actions.StartTransaction;
   Actions.StatusNotification; Actions.StopTransaction].

Definition is_charge_point_action (action : str) : bool :=
  any (fun x => x == action) CHARGE_POINT_ACTIONS.

(** A timestamp one minute in the past, so the idTag is already expired. *)
Definition expired (now : DateTime) : str := iso (now - 60 * NS_PER_SEC).

Definition status_object (status : str) : json := Object [(lit "status", String status)].

(** Magic idTags for [Authorize]. *)
Definition authorize_info (id_tag : str) (now : DateTime) : json :=
  if id_tag == lit "BADTAG" then status_object (lit "Blocked")
  else if id_tag == lit "EXPIREDAUTH"
  then Object [(lit "expiryDate", String (expired now)); (lit "status", String (lit "Accepted"))]
  else if id_tag == lit "PARENTAUTH"
  then Object [(lit "parentIdTag", String (lit "PARENTTAG")); (lit "status", String (lit "Accepted"))]
  else if id_tag == lit "CONCURRENTAUTH" then status_object (lit "ConcurrentTx")
  else status_object (lit "Accepted").

(** Magic idTags for [StartTransaction]. *)
Definition start_info (id_tag : str) (now : DateTime) : json :=
  if id_tag == lit "BLOCKSTART" then status_object (lit "Blocked")
  else if id_tag == lit "EXPIREDSTART"
  then Object [(lit "expiryDate", String (expired now)); (lit "status", String (lit "Accepted"))]
  else if id_tag == lit "CONCURRENTSTART" then status_object (lit "ConcurrentTx")
  else status_object (lit "Accepted").

(** [payload.get("idTag").and_then(Value::as_str).unwrap_or_default()] *)
Definition id_tag_of (payload : json) : str :=
  match payload with
  | Object fields => default [] (field (lit "idTag") fields ≫= as_str)
  | _ => []
  end.

(** The default answer for [action], used when no fault or responder applies. *)
Definition default_reply (action : str) (payload : json) (heartbeat_interval : Z)
    (transaction_id : option Z) (now : DateTime) : Reply :=
  let id_tag := id_tag_of payload in
  ReplyResult (
    if action == Actions.BootNotification then
      Object [(lit "currentTime", String (iso now)); (lit "interval", Num (number_from heartbeat_interval));
              (lit "status", String (lit "Accepted"))]
    else if action == Actions.Heartbeat then Object [(lit "currentTime", String (iso now))]
    else if action == Actions.Authorize then Object [(lit "idTagInfo", authorize_info id_tag now)]
    else if action == Actions.StartTransaction then
      Object [(lit "idTagInfo", start_info id_tag now);
              (lit "transactionId", Num (number_from (default 0 transaction_id)))]
    else if action == Actions.DataTransfer then
      Object [(lit "data", String (lit "pong")); (lit "status", String (lit "Accepted"))]
    else if action == Actions.SignCertificate then status_object (lit "Accepted")
    else Object []).
End json.

(** ** The handshake ([auth.rs], [server.rs]) *)

(** [STANDARD.decode(text).ok()], [percent_decode_str(text).decode_utf8().ok()], and the first
    Common Name of the subject of an X.509 certificate. *)
Class Handshake : Type := {
  base64_decode : str -> option (list Z);
  percent_decode : str -> option str;
  common_name : list Z -> option str;
}.

Inductive PeerIdentity : Type :=
| Plain
| NoCertificate
| Certificate (common_name : option str).
#[export] Instance identity_eq_dec : EqDecision PeerIdentity.
Proof. solve_decision. Defined.

Record Denied : Type := denied { reason : str; basic : bool }.

(** Compares without stopping at the first difference (the length is compared too). *)
Definition constant_time_eq (a b : list Z) : bool :=
  let diff := fold_left (fun diff i =>
    Z.lor diff (Z.lxor (default 0 (a !! i)) (default 0 (b !! i))))
    (seq 0 (Nat.max (length a) (length b))) (Z.lxor (len a) (len b)) in
  diff =? 0.

Section handshake.
Context {H : Handshake}.

Definition from_leaf (leaf_der : option (list Z)) : PeerIdentity :=
  match leaf_der with
  | None => NoCertificate
  | Some der => Certificate (common_name der)
  end.

(** The user and password of an [Authorization: Basic] header, given its text. *)
Definition credentials (header : option str) : option (str * str) :=
  let? value := header in
  let? (scheme, encoded) := split_once 32 value in
  if negb (eq_ignore_ascii_case scheme (lit "basic")) then None
  else
    let? decoded := base64_decode (trim encoded) in
    let? text := from_utf8 decoded in
    split_once 58 text.

Definition check_basic (p : SecurityPolicy) (header : option str) (id : str) : result unit Denied :=
  match credentials header with
  | None => Err (denied (lit "missing or malformed credentials") true)
  | Some (user, password) =>
      let key := key_for p id in
      let user_ok := constant_time_eq (as_bytes user) (as_bytes id) in
      let key_ok := constant_time_eq (as_bytes password) (as_bytes (default [] key)) in
      match key with
      | None => Err (denied (lit "no key configured for the station") true)
      | Some _ =>
          if user_ok && key_ok then Ok tt else Err (denied (lit "invalid credentials") true)
      end
  end.

(** Checks a handshake request for station [id] against [policy]. *)
Definition check (p : SecurityPolicy) (header : option str) (id : str) (peer : PeerIdentity)
  : result unit Denied :=
  match profile p with
  | NoSecurity => Ok tt
  | BasicAuth => check_basic p header id
  | BasicAuthTls =>
      if peer == Plain then Err (denied (lit "TLS required") false) else check_basic p header id
  | MutualTls =>
      match peer with
      | Plain => Err (denied (lit "TLS required") false)
      | NoCertificate => Err (denied (lit "client certificate required") false)
      | Certificate name =>
          if name == Some id then Ok tt
          else Err (denied (lit "client certificate does not match the station id") false)
      end
  end.

Definition MAX_STATION_ID_LEN : Z := 128.

(** The station id of a URL path: the last non-empty segment, percent-decoded. *)
Definition station_id_from_path (path : str) : option str :=
  let? segment := find_first (fun s => negb (is_empty_text s)) (rev (split_on 47 path)) in
  let? decoded := percent_decode segment in
  if negb (is_empty_text decoded) && (byte_len decoded <=? MAX_STATION_ID_LEN)
     && negb (any Security.is_control decoded)
  then Some decoded else None.

(** The subprotocols the client offered, from the texts of the header lines. *)
Definition offered_protocols (values : list (option str)) : list str :=
  retain (fun name => negb (is_empty_text name))
    (map trim (flat_map (split_on 44) (omap (fun v => v) values))).

(** ** Who is let in *)

Lemma and_iff (A B C D : Prop) : (A <-> C) -> (B <-> D) -> A /\ B <-> C /\ D.
Proof. tauto. Qed.

Lemma fold_lor_zero {A} (f : A -> Z) l d :
  fold_left (fun diff x => Z.lor diff (f x)) l d = 0 <-> d = 0 /\ forall x, In x l -> f x = 0.
Proof.
  revert d. induction l as [|x l IH]; intros d; simpl; [naive_solver|].
  rewrite IH, Z.lor_eq_0_iff. naive_solver.
Qed.

Lemma constant_time_eq_iff a b : constant_time_eq a b = true <-> a = b.
Proof.
  unfold constant_time_eq. rewrite Z.eqb_eq, fold_lor_zero, Z.lxor_eq_0_iff. split.
  - intros [Hl Hd]. unfold len in Hl. assert (Hlen : length a = length b) by lia.
    apply list_eq. intros i. destruct (Nat.lt_ge_cases i (length a)) as [Hi|Hi].
    + specialize (Hd i). rewrite in_seq, Z.lxor_eq_0_iff in Hd. specialize (Hd ltac:(lia)).
      destruct (lookup_lt_is_Some_2 a i Hi) as [x Hx].
      destruct (lookup_lt_is_Some_2 b i ltac:(lia)) as [y Hy].
      rewrite Hx, Hy in *. simpl in Hd. congruence.
    + rewrite !lookup_ge_None_2 by lia. done.
  - intros ->. split; [done|]. intros i _. by rewrite Z.lxor_nilpotent.
Qed.

(** A text of the program: a sequence of scalar values. *)
Definition is_text (s : str) : Prop := Forall (fun c => is_scalar c = true) s.
Definition policy_texts (p : SecurityPolicy) : Prop :=
  (forall id key, keys p !! id = Some key -> is_text key) /\
  (forall key, default_key p = Some key -> is_text key).

Lemma key_for_text p id key :
  policy_texts p -> key_for p id = Some key -> is_text key /\ key <> [].
Proof.
  intros [Hk Hd]. unfold key_for, option_or.
  destruct (keys p !! id) as [k|] eqn:E; [|destruct (default_key p) as [k|] eqn:E'; [|done]];
    destruct (is_empty_text k) eqn:Ee; try done; intros [= <-]; (split; [eauto|by intros ->]).
Qed.

Lemma credentials_text header user password :
  credentials header = Some (user, password) -> is_text user /\ is_text password.
Proof.
  unfold credentials. destruct header as [value|]; [|done].
  destruct (split_once 32 value) as [[scheme encoded]|]; [|done].
  destruct (negb _); [done|]. destruct (base64_decode _) as [decoded|]; [|done].
  destruct (from_utf8 decoded) as [text|] eqn:Ht; [|done].
  intros (-> & _)%split_once_Some. apply from_utf8_scalars in Ht.
  apply Forall_app in Ht as [Hu Hp]. inversion Hp; subst. done.
Qed.

(** The client knows the id of the station and its key. *)
Definition presents (p : SecurityPolicy) (header : option str) (id : str) : Prop :=
  exists password, credentials header = Some (id, password) /\ key_for p id = Some password.

Lemma check_basic_iff p header id :
  policy_texts p -> is_text id -> check_basic p header id = Ok tt <-> presents p header id.
Proof.
  intros Hp Hid. unfold check_basic, presents.
  destruct (credentials header) as [[user password]|] eqn:Hc; [|naive_solver].
  destruct (credentials_text _ _ _ Hc) as [Hu Hw].
  destruct (key_for p id) as [key|] eqn:Hk; [|naive_solver].
  destruct (key_for_text p id key Hp Hk) as [Hkt _]. simpl.
  destruct (_ && _) eqn:Ha.
  - bool_facts. rewrite constant_time_eq_iff in *. apply as_bytes_inj in H0, H1; [|done..]. naive_solver.
  - split; [done|]. intros (w & [= -> ->] & [= ->]). exfalso.
    rewrite !(proj2 (constant_time_eq_iff _ _)) in Ha; done.
Qed.

(** Claim C20: who may connect. With profile 0 everybody; with profile 1 exactly a client that
    presents the id of the station and the key configured for it (its own or the default one,
    never an empty one); with profile 2 the same, over TLS only; with profile 3 exactly a TLS
    client whose certificate's Common Name is the id. A server whose profile needs TLS, or with
    an empty key, does not start. *)
Theorem handshake_check p header id peer c :
  policy_texts p -> is_text id ->
  (check p header id peer = Ok tt <->
   match profile p with
   | NoSecurity => True
   | BasicAuth => presents p header id
   | BasicAuthTls => peer <> Plain /\ presents p header id
   | MutualTls => peer = Certificate (Some id)
   end) /\
  (forall key, key_for p id = Some key -> key <> []) /\
  (startable c = true <->
   (tls c = false -> profile (security c) = NoSecurity \/ profile (security c) = BasicAuth) /\
   default_key (security c) <> Some [] /\
   forall station key, keys (security c) !! station = Some key -> key <> []).
Proof.
  intros Hp Hid. split_and!.
  - unfold check. destruct (profile p); [done|by apply check_basic_iff| |].
    + destruct (peer == Plain) eqn:E.
      * apply (proj1 (eqb_true _ _)) in E as ->. naive_solver.
      * apply (proj1 (eqb_false _ _)) in E. rewrite check_basic_iff by done. naive_solver.
    + destruct peer as [| |name]; [naive_solver..|]. destruct (name == Some id) eqn:E.
      * apply (proj1 (eqb_true _ _)) in E as ->. done.
      * apply (proj1 (eqb_false _ _)) in E. naive_solver.
  - intros key Hk. by apply (key_for_text p id key).
  - unfold startable, has_empty_key. rewrite andb_true_iff, !negb_true_iff, orb_false_iff. apply and_iff.
    + destruct (tls c), (profile (security c)); simpl; naive_solver.
    + apply and_iff.
      * destruct (default_key (security c)) as [[|x k]|]; simpl; naive_solver.
      * split.
        -- intros Hn station key Hk ->. apply not_true_iff_false in Hn. apply Hn. unfold any.
           apply existsb_exists. exists (station, []). split; [|done].
           by apply list_elem_of_In, elem_of_map_to_list.
        -- intros Hn. apply not_true_iff_false. unfold any. rewrite existsb_exists.
           intros ([station key] & Hin & He). apply list_elem_of_In, elem_of_map_to_list in Hin.
           apply (Hn station key Hin). by destruct key.
Qed.
End handshake.

(** A decoder that knows one header, and the policy of one station. *)
Definition sample_handshake : Handshake := {|
  base64_decode t := if t == lit "Q1A6a2V5" then Some (as_bytes (lit "CP:key")) else None;
  percent_decode t := Some t;
  common_name _ := None |}.
Definition sample_policy : SecurityPolicy := mk_policy BasicAuth {[ lit "CP" := lit "key" ]} None.

Lemma handshake_check_witness :
  check (H := sample_handshake) sample_policy (Some (lit "Basic Q1A6a2V5")) (lit "CP") Plain = Ok tt /\
  check (H := sample_handshake) sample_policy (Some (lit "Basic AAAA")) (lit "CP") Plain <> Ok tt.
Proof.
  assert (Hp : policy_texts sample_policy).
  { split; [|discriminate]. intros id key Hk. cbn [sample_policy keys] in Hk.
    apply lookup_singleton_Some in Hk as [_ <-]. repeat constructor. }
  assert (Hid : is_text (lit "CP")) by repeat constructor.
  split.
  - apply (handshake_check (H := sample_handshake) sample_policy (Some (lit "Basic Q1A6a2V5")) (lit "CP")
             Plain default_config Hp Hid).
    exists (lit "key"). split; vm_compute; reflexivity.
  - vm_compute. discriminate.
Defined.
End CsmsConfig.
