(* ===== verification/CsmsServer.v ===== *)
(** * CsmsServer: the registry of the CSMS and its sessions

    [kirby-csms-core/src/server.rs] with [event.rs] and [error.rs]: the registry of stations behind
    the mutex (one [Definition] per critical section), the decision about an incoming CALL, and
    the session of one connection with its queue of outbound CALLs. The sockets, the channels and
    the clock are the arguments of the operations; what is sent into a channel is logged: the
    events, the commands to the sessions, the frames written and the answers given to callers. *)

From stdpp Require Import strings gmap.
From S2P Require Import Prelude Text F64 Time Types Messages SecurityMessages Frame Actions Schema Utf8.
From S2P Require Import Security CsmsState CsmsConfig.
Local Open Scope Z_scope.

Module CsmsServer.
Import (hints) CsmsState.
Import CsmsConfig.

Definition MAX_CALL_TIMEOUT : Duration := 24 * 60 * 60 * NS_PER_SEC.
Definition MAX_ACTION_KEYS : Z := 64.
Definition OTHER_ACTION : str := lit "other".
Definition MAX_ACTION_KEY_CHARS : Z := 64.
Definition MALFORMED_TEXT_CHARS : Z := 512.
Definition CLOSE_CODE_ERROR : Z := 1011.
Definition MAX_ERROR_DESCRIPTION : Z := 255.

(** ** Events and errors ([event.rs], [error.rs]) *)

Inductive Direction : Type := In | Out.
#[export] Instance direction_eq_dec : EqDecision Direction.
Proof. solve_decision. Defined.

Inductive DisconnectReason : Type :=
| Closed | Replaced | Shutdown | Injected | Forgotten | PingTimeout.

(** [std::net::SocketAddr] *)
Record SocketAddr : Type := mk_addr { ip : list Z; port : Z }.

Module CsmsEvent.
Inductive t {J : SerdeJson} : Type :=
| Connected (station : str)
| Disconnected (station : str) (reason : DisconnectReason)
| Frame (station : str) (direction : Direction) (frame : Frame.Frame.t)
| Malformed (station : str) (text : str)
| Forgotten (station : str)
| StateChanged (station : str)
| AuthFailed (station : option str) (remote_addr : SocketAddr) (reason : str).
End CsmsEvent.

Module CsmsError.
Inductive t : Type :=
| Bind (text : str)
| Tls (text : str)
| Config (text : str)
| UnknownStation (station : str)
| NotConnected (station : str)
| Timeout (station action : str) (timeout : Duration)
| ConnectionClosed (station action : str)
| CallError (station action : str) (code : ErrorCode.t) (description : str)
| InvalidRequest (action reason : str)
| InvalidResponse (station action reason : str).
End CsmsError.

Module StationInfo.
Record t : Type := mk {
  id : str;
  connected : bool;
  connected_at : option DateTime;
  disconnected_at : option DateTime;
  remote_addr : option SocketAddr;
  subprotocol : option str;
  received_calls : Z;
  received_by_action : gmap str Z;
}.
#[export] Instance eta : Eta t := fun r => mk (id r) (connected r) (connected_at r)
  (disconnected_at r) (remote_addr r) (subprotocol r) (received_calls r) (received_by_action r).
End StationInfo.
Export (hints) StationInfo.

Module HistoryItem.
Section record.
Context {J : SerdeJson}.
Record t : Type := mk {
  ts : DateTime;
  direction : Direction;
  frame : Frame.Frame.t;
  bytes : Z;
}.
#[export] Instance eta : Eta t := fun r => mk (ts r) (direction r) (frame r) (bytes r).
End record.
End HistoryItem.
Export (hints) HistoryItem.

(** ** The registry *)

(** A caller of [CsmsHandle::call] waits on a channel of its own, its number. *)
Module QueuedCall.
Section record.
Context {J : SerdeJson}.
Record t : Type := mk {
  action : str;
  payload : json;
  timeout : Duration;
  reply : Z;
}.
#[export] Instance eta : Eta t := fun r => mk (action r) (payload r) (timeout r) (reply r).
End record.
End QueuedCall.
Export (hints) QueuedCall.

Inductive SessionCmd {J : SerdeJson} : Type :=
| CmdCall (call : QueuedCall.t)
| CmdClose (code : Z) (reason : str).

Inductive RegisterError : Type := RegisterShutdown | TooManyStations.

(** The session of a record is the number of its link. *)
Module StationRec.
Section record.
Context {J : SerdeJson}.
Record t : Type := mk {
  info : StationInfo.t;
  history : list HistoryItem.t;
  history_bytes : Z;
  state : CsmsState.StationState.t;
  session : option Z;
}.
#[export] Instance eta : Eta t := fun r => mk (info r) (history r) (history_bytes r) (state r)
  (session r).
End record.
End StationRec.
Export (hints) StationRec.

(** [Inner] and the [State] behind its mutex; [subscribed] is [receiver_count() > 0]. The logs
    of events and of the commands sent to the sessions are newest first. *)
Module Server.
Section record.
Context {J : SerdeJson}.
Record t : Type := mk {
  config : CsmsConfig;
  stopping : bool;
  subscribed : bool;
  stations : gmap str StationRec.t;
  faults : list Fault;
  responders : gmap str Responder;
  tx_ids : TransactionIdAllocator;
  next_session : Z;
  next_message : Z;
  events : list CsmsEvent.t;
  commands : list (Z * SessionCmd);
}.
#[export] Instance eta : Eta t := fun r => mk (config r) (stopping r) (subscribed r) (stations
  r) (faults r) (responders r) (tx_ids r) (next_session r) (next_message r) (events r) (commands
  r).
End record.
End Server.
Export (hints) Server.

Definition truncate_chars (text : str) (max : Z) : str := take (Z.to_nat max) text.

(** The action name for a CALLERROR text. *)
Definition sanitize_action (action : str) : str :=
  map (fun c => if Security.is_control c then 63 else c) (truncate_chars action MAX_ACTION_KEY_CHARS).

Section server.
Context {J : SerdeJson} {T : JsonText} {W : CsmsState.CsmsWire} {F : CsmsFormat} {V : Schema.JsonSchema}.
Implicit Types (s : Server.t) (now : DateTime).

(** What the schemas say against the payload of a known action. *)
Definition violation (action : str) (payload : json) : option Schema.SchemaViolation :=
  if Schema.knows_action action
  then match Schema.validate_request action payload with Err v => Some v | Ok _ => None end
  else None.

(** [Inner::emit] *)
Definition emit s (e : CsmsEvent.t) : Server.t := s <| Server.events ::= cons e |>.
Definition send_command s (session : Z) (c : SessionCmd) : Server.t :=
  s <| Server.commands ::= cons (session, c) |>.
Definition modify_station s (id : str) (f : StationRec.t -> StationRec.t) : Server.t :=
  s <| Server.stations ::= alter f id |>.

(** [stations.get(id)] *)
Definition get s (id : str) : option StationRec.t := Server.stations s !! id.

(** [CsmsServer::start], after the checks of [startable] *)
Definition start (c : CsmsConfig) : Server.t :=
  Server.mk c false false ∅ [] ∅ (allocator (transaction_ids c)) 0 0 [] [].

Definition full s (id : str) : bool :=
  (max_stations (Server.config s) <=? Z.of_nat (size (Server.stations s)))
  && negb (is_someb (get s id)).

Definition next_message_id s : Server.t * str :=
  (s <| Server.next_message ::= fun n => u64_wrapping_add n 1 |>,
   lit "csms-" ++ to_string (u64_wrapping_add (Server.next_message s) 1)).

Definition new_info (id : str) : StationInfo.t :=
  StationInfo.mk id false None None None None 0 ∅.
Definition new_rec (id : str) : StationRec.t :=
  StationRec.mk (new_info id) [] 0 CsmsState.new_state None.

Definition connect_record (session_id : Z) (peer : SocketAddr) (protocol : option str) now
    (record : StationRec.t) : StationRec.t :=
  record <| StationRec.session := Some session_id |>
    <| StationRec.info ::= fun i => i <| StationInfo.connected := true |>
         <| StationInfo.connected_at := Some now |> <| StationInfo.disconnected_at := None |>
         <| StationInfo.remote_addr := Some peer |> <| StationInfo.subprotocol := protocol |> |>.

(** Registers a new connection, replacing an older one with the same id. *)
Definition register s (id : str) (peer : SocketAddr) (protocol : option str) now
  : Server.t * result Z RegisterError :=
  if Server.stopping s then (s, Err RegisterShutdown)
  else if full s id then (s, Err TooManyStations)
  else
    let session_id := u64_wrapping_add (Server.next_session s) 1 in
    let s := s <| Server.next_session := session_id |> in
    let record := default (new_rec id) (get s id) in
    let s := match StationRec.session record with
             | Some old =>
                 emit (send_command s old (CmdClose 1000 (lit "replaced by a new connection")))
                   (CsmsEvent.Disconnected id Replaced)
             | None => s
             end in
    let record := connect_record session_id peer protocol now record in
    (emit (s <| Server.stations ::= <[id := record]> |>) (CsmsEvent.Connected id), Ok session_id).

Definition is_session (record : StationRec.t) (session_id : Z) : bool :=
  StationRec.session record == Some session_id.

Definition disconnect_record now (record : StationRec.t) : StationRec.t :=
  record <| StationRec.session := None |>
    <| StationRec.info ::= fun i => i <| StationInfo.connected := false |>
         <| StationInfo.disconnected_at := Some now |> |>.

(** Marks a session as ended, unless it was replaced or forgotten already. *)
Definition session_ended s (station : str) (session_id : Z) (reason : DisconnectReason) now : Server.t :=
  match get s station with
  | None => s
  | Some record =>
      if negb (is_session record session_id) then s
      else emit (modify_station s station (disconnect_record now)) (CsmsEvent.Disconnected station reason)
  end.

(** The counters of received CALLs. *)
Definition count_call (action : str) (i : StationInfo.t) : StationInfo.t :=
  let by_action := StationInfo.received_by_action i in
  let short := len (take (Z.to_nat (MAX_ACTION_KEY_CHARS + 1)) action) <=? MAX_ACTION_KEY_CHARS in
  let key := if short && (is_someb (by_action !! action) || (Z.of_nat (size by_action) <? MAX_ACTION_KEYS))
             then action else OTHER_ACTION in
  i <| StationInfo.received_calls ::= fun n => u64_wrapping_add n 1 |>
    <| StationInfo.received_by_action ::= fun m =>
         <[key := u64_wrapping_add (default 0 (m !! key)) 1]> m |>.

(** Replaces the payload of a frame that is too big for the history by a small marker object. *)
Definition truncated_frame (frame : Frame.Frame.t) (original_bytes : Z) : Frame.Frame.t :=
  let marker := Object [(lit "originalBytes", Num (number_from original_bytes));
                        (lit "truncated", Bool true)] in
  match frame with
  | Frame.Frame.Call id action _ => Frame.Frame.Call id action marker
  | Frame.Frame.CallResult id _ => Frame.Frame.CallResult id marker
  | Frame.Frame.CallError id code description _ =>
      Frame.Frame.CallError id code (truncate_chars description 128) marker
  end.

Definition text_bytes (frame : Frame.Frame.t) : Z := byte_len (Frame.Frame.to_json_string frame).

(** [while len >= cap || (history_bytes + bytes > bytes_cap && !empty) { pop_front }] *)
Fixpoint make_room (cap bytes_cap bytes : Z) (history : list HistoryItem.t) (history_bytes : Z)
  : list HistoryItem.t * Z :=
  match history with
  | [] => ([], history_bytes)
  | old :: rest =>
      if (cap <=? len history) || (bytes_cap <? u64_saturating_add history_bytes bytes)
      then make_room cap bytes_cap bytes rest (saturating_sub history_bytes (HistoryItem.bytes old))
      else (history, history_bytes)
  end.

Definition keep_frame (c : CsmsConfig) now (direction : Direction) (frame : Frame.Frame.t)
    (record : StationRec.t) : StationRec.t :=
  if 0 <? history_cap c then
    let bytes := text_bytes frame in
    let '(stored, bytes) :=
      if history_bytes_cap c <? bytes
      then (truncated_frame frame bytes, text_bytes (truncated_frame frame bytes))
      else (frame, bytes) in
    let '(history, history_bytes) :=
      make_room (history_cap c) (history_bytes_cap c) bytes (StationRec.history record)
        (StationRec.history_bytes record) in
    if u64_saturating_add history_bytes bytes <=? history_bytes_cap c
    then record <| StationRec.history := history ++ [HistoryItem.mk now direction stored bytes] |>
                <| StationRec.history_bytes := history_bytes + bytes |>
    else record <| StationRec.history := history |> <| StationRec.history_bytes := history_bytes |>
  else record.

Definition record_frame s (station : str) (session_id : Z) (direction : Direction)
    (frame : Frame.Frame.t) now : Server.t :=
  match get s station with
  | None => s
  | Some record =>
      if negb (is_session record session_id) then s
      else
        let record := match direction, frame with
                      | In, Frame.Frame.Call _ action _ => record <| StationRec.info ::= count_call action |>
                      | _, _ => record
                      end in
        let shown := if show_secrets (Server.config s) then frame else Frame.Frame.redact_secrets frame in
        let record := keep_frame (Server.config s) now direction shown record in
        let s := s <| Server.stations ::= <[station := record]> |> in
        if Server.subscribed s then emit s (CsmsEvent.Frame station direction shown) else s
  end.

(** Folds an answered inbound CALL into the station's state. *)
Definition track s (station : str) (session_id : Z) (action : str) (request : json) (r : Reply) now
  : Server.t :=
  match r with
  | ReplyResult response =>
      match get s station with
      | None => s
      | Some record =>
          if negb (is_session record session_id) then s
          else
            let '(state, changed) := CsmsState.apply (StationRec.state record) action request response now
              (transaction_history_cap (Server.config s)) in
            let s := modify_station s station (fun r => r <| StationRec.state := state |>) in
            if changed then emit s (CsmsEvent.StateChanged station) else s
      end
  | _ => s
  end.

Definition note_failed_call s (station : str) : Server.t :=
  match get s station with
  | None => s
  | Some _ =>
      emit (modify_station s station (fun r => r <| StationRec.state ::= fun st =>
              st <| CsmsState.StationState.failed_calls ::= fun n => u64_wrapping_add n 1 |> |>))
        (CsmsEvent.StateChanged station)
  end.

(** Folds the answer of a CALL of the CSMS into the station's state. *)
Definition track_result s (station action : str) (request response : json) now : Server.t :=
  match get s station with
  | None => s
  | Some record =>
      let '(state, changed) := CsmsState.apply_result (StationRec.state record) action request response now in
      let s := modify_station s station (fun r => r <| StationRec.state := state |>) in
      if changed then emit s (CsmsEvent.StateChanged station) else s
  end.

Definition hits (action : str) (f : Fault) : bool := (fault_action f == action) && (0 <? remaining f).

(** [iter_mut().find(hits)], [remaining -= 1], [retain(remaining > 0)] *)
Definition take_fault (faults : list Fault) (action : str) : option (list Fault * Reply) :=
  match find_first (hits action) faults with
  | None => None
  | Some f =>
      Some (retain (fun f => 0 <? remaining f)
              (update_first (hits action) (fun f => f <| remaining ::= fun n => n - 1 |>) faults),
            fault_reply f)
  end.

(** Decides the reply to a CALL. *)
Definition decide s (action : str) (payload : json) now : Server.t * Reply :=
  match take_fault (Server.faults s) action with
  | Some (faults, r) => (s <| Server.faults := faults |>, r)
  | None =>
      match (if validate_inbound (Server.config s) then violation action payload else None) with
      | Some v =>
          (s, ReplyError (Schema.error_code v) (truncate_chars (Schema.error_text v) MAX_ERROR_DESCRIPTION))
      | None =>
          match Server.responders s !! action with
          | Some responder => (s, responder payload)
          | None =>
              if negb (is_charge_point_action action) then
                (s, if is_someb (Actions.find action)
                    then ReplyError ErrorCode.NotSupported
                           (lit "action " ++ sanitize_action action ++ lit " is not supported")
                    else ReplyError ErrorCode.NotImplemented
                           (lit "action " ++ sanitize_action action ++ lit " is not implemented"))
              else
                let '(s, id) :=
                  if action == Actions.StartTransaction
                  then let '(ids, id) := allocate (Server.tx_ids s) in
                       (s <| Server.tx_ids := ids |>, Some id)
                  else (s, None) in
                (s, default_reply action payload (heartbeat_interval (Server.config s)) id now)
          end
      end
  end.

(** ** The handle *)

(** Removes a station from the registry, closing its connection if it has one. *)
Definition forget s (id : str) : Server.t * bool :=
  match get s id with
  | None => (s, false)
  | Some record =>
      let s := s <| Server.stations ::= base.delete id |> in
      let s := match StationRec.session record with
               | Some session =>
                   emit (send_command s session (CmdClose 1000 (lit "station forgotten")))
                     (CsmsEvent.Disconnected id Forgotten)
               | None => s
               end in
      (emit s (CsmsEvent.Forgotten id), true)
  end.

(** The part of [call_timeout] that queues the CALL; [open] is whether the session still listens. *)
Definition submit s (station action : str) (payload : json) (timeout : Duration) (caller : Z) (open : bool)
  : Server.t * result unit CsmsError.t :=
  let timeout := Z.min timeout MAX_CALL_TIMEOUT in
  match get s station with
  | None => (s, Err (CsmsError.UnknownStation station))
  | Some record =>
      match StationRec.session record with
      | None => (s, Err (CsmsError.NotConnected station))
      | Some session =>
          if open then (send_command s session (CmdCall (QueuedCall.mk action payload timeout caller)), Ok tt)
          else (s, Err (CsmsError.NotConnected station))
      end
  end.

(** The part of [call_timeout] that handles the answer; [None] when the channel was dropped. *)
Definition settle_call s (station action : str) (payload : json)
    (answer : option (result Frame.Frame.t CsmsError.t)) now
  : Server.t * result Frame.Frame.t CsmsError.t :=
  let result := match answer with
                | Some r => r
                | None => Err (CsmsError.ConnectionClosed station action)
                end in
  let s := match result with
           | Ok (Frame.Frame.CallResult _ response) =>
               if action == Actions.GetInstalledCertificateIds
               then track_result s station action payload response now else s
           | _ => s
           end in
  let s := match result with
           | Ok (Frame.Frame.CallError _ _ _ _) | Err (CsmsError.Timeout _ _ _) => note_failed_call s station
           | _ => s
           end in
  (s, result).

Definition respond s (action : str) (responder : Responder) : Server.t :=
  s <| Server.responders ::= <[action := responder]> |>.
Definition clear_responder s (action : str) : Server.t :=
  s <| Server.responders ::= base.delete action |>.
Definition inject s (f : Fault) : Server.t :=
  if 0 <? remaining f then s <| Server.faults ::= fun l => l ++ [f] |> else s.
Definition faults_remaining s : Z := fold_right (fun f n => remaining f + n) 0 (Server.faults s).
Definition responder_actions s : list str := map fst (btree_iter (Server.responders s)).
Definition clear_faults s : Server.t := s <| Server.faults := [] |>.

Definition begin_shutdown s : Server.t := s <| Server.stopping := true |>.
(** The sessions that were aborted, in the order of their stations. *)
Definition abort_session now s (station : str) : Server.t :=
  match get s station with
  | Some record =>
      if is_someb (StationRec.session record)
      then emit (modify_station s station (disconnect_record now)) (CsmsEvent.Disconnected station Shutdown)
      else s
  | None => s
  end.
Definition finish_shutdown s now : Server.t :=
  fold_left (abort_session now) (map fst (btree_iter (Server.stations s))) s.

(** ** Everything that happens to the registry *)

Inductive op : Type :=
| Register (id : str) (peer : SocketAddr) (protocol : option str) (now : DateTime)
| SessionEnded (station : str) (session : Z) (why : DisconnectReason) (now : DateTime)
| RecordFrame (station : str) (session : Z) (direction : Direction) (frame : Frame.Frame.t) (now : DateTime)
| Track (station : str) (session : Z) (action : str) (request : json) (r : Reply) (now : DateTime)
| SettleCall (station action : str) (payload : json)
    (answer : option (result Frame.Frame.t CsmsError.t)) (now : DateTime)
| Decide (action : str) (payload : json) (now : DateTime)
| Submit (station action : str) (payload : json) (timeout : Duration) (caller : Z) (open : bool)
| Forget (id : str)
| Respond (action : str) (responder : Responder)
| ClearResponder (action : str)
| Inject (f : Fault)
| ClearFaults
| MessageId
| Subscribe (b : bool)
| BeginShutdown
| FinishShutdown (now : DateTime).

Definition step s (o : op) : Server.t :=
  match o with
  | Register id peer protocol now => (register s id peer protocol now).1
  | SessionEnded station session why now => session_ended s station session why now
  | RecordFrame station session direction frame now => record_frame s station session direction frame now
  | Track station session action request r now => track s station session action request r now
  | SettleCall station action payload answer now => (settle_call s station action payload answer now).1
  | Decide action payload now => (decide s action payload now).1
  | Submit station action payload timeout caller open => (submit s station action payload timeout caller open).1
  | Forget id => (forget s id).1
  | Respond action responder => respond s action responder
  | ClearResponder action => clear_responder s action
  | Inject f => inject s f
  | ClearFaults => clear_faults s
  | MessageId => (next_message_id s).1
  | Subscribe b => s <| Server.subscribed := b |>
  | BeginShutdown => begin_shutdown s
  | FinishShutdown now => finish_shutdown s now
  end.
Definition run (c : CsmsConfig) (ops : list op) : Server.t := fold_left step ops (start c).

(** ** The events tell who is connected

    A subscriber that folds the events: a [Connected] of a station that is up, a [Disconnected]
    or a [Forgotten] of one that is not (is still) up would contradict what it knows. *)

Definition watch (up : gset str) (e : CsmsEvent.t) : option (gset str) :=
  match e with
  | CsmsEvent.Connected id => if base.decide (id ∈ up) then None else Some ({[ id ]} ∪ up)
  | CsmsEvent.Disconnected id _ => if base.decide (id ∈ up) then Some (up ∖ {[ id ]}) else None
  | CsmsEvent.Forgotten id => if base.decide (id ∈ up) then None else Some up
  | _ => Some up
  end.
(** The events of a log, newest first. *)
Definition follows (log : list CsmsEvent.t) : option (gset str) :=
  fold_right (fun e o => o ≫= fun up => watch up e) (Some ∅) log.

(** What of a record the connection is about. *)
Definition view : Type := str * bool * bool * option Z.
Definition view_of (r : StationRec.t) : view :=
  (StationInfo.id (StationRec.info r), StationInfo.connected (StationRec.info r),
   is_someb (StationInfo.disconnected_at (StationRec.info r)), StationRec.session r).
Definition views s : gmap str view := view_of <$> Server.stations s.

Definition view_ok (next : Z) (id : str) (v : view) : Prop :=
  let '(name, connected, gone, session) := v in
  name = id /\ connected = is_someb session /\ (connected = true -> gone = false) /\
  forall n, session = Some n -> 1 <= n <= next.

Record registry_ok (vs : gmap str view) (next : Z) (log : list CsmsEvent.t) : Prop := {
  registry_up : exists up, follows log = Some up /\
    forall id, id ∈ up <-> exists v n, vs !! id = Some v /\ v.2 = Some n;
  registry_views id v : vs !! id = Some v -> view_ok next id v;
  registry_sessions i j v w n :
    vs !! i = Some v -> vs !! j = Some w -> v.2 = Some n -> w.2 = Some n -> i = j;
}.
Definition ok s : Prop := registry_ok (views s) (Server.next_session s) (Server.events s).

(** The events that say nothing of connections. *)
Definition neutral (e : CsmsEvent.t) : bool :=
  match e with
  | CsmsEvent.Connected _ | CsmsEvent.Disconnected _ _ | CsmsEvent.Forgotten _ => false
  | _ => true
  end.
Definition unaffected s s' : Prop :=
  views s' = views s /\ Server.next_session s' = Server.next_session s /\
  exists l, Server.events s' = l ++ Server.events s /\ Forall (fun e => neutral e = true) l.

Lemma follows_neutral l log : Forall (fun e => neutral e = true) l -> follows (l ++ log) = follows log.
Proof.
  induction 1 as [|e l He _ IH]; [done|]. simpl. rewrite IH. destruct (follows log); [|done]. by destruct e.
Qed.
Lemma unaffected_ok s s' : unaffected s s' -> ok s -> ok s'.
Proof.
  intros (Hv & Hn & l & He & Hl) [Hu Hvs Hss]. unfold ok. rewrite Hv, Hn, He. split; [|done..].
  by rewrite follows_neutral.
Qed.
#[global] Instance unaffected_preorder : PreOrder unaffected.
Proof.
  split; [intros s; by split_and!; [..|exists []]|].
  intros s1 s2 s3 (Hv & Hn & l & He & Hl) (Hv' & Hn' & l' & He' & Hl'). split_and!; [congruence..|].
  exists (l' ++ l). rewrite He', He. split; [apply app_assoc|by apply Forall_app].
Qed.
Lemma unaffected_emit s e : neutral e = true -> unaffected s (emit s e).
Proof. intros He. split_and!; [done..|]. exists [e]. by split; [|repeat constructor]. Qed.
Lemma unaffected_same s s' :
  Server.stations s' = Server.stations s -> Server.next_session s' = Server.next_session s ->
  Server.events s' = Server.events s -> unaffected s s'.
Proof. intros Hs Hn He. split_and!; [unfold views; by rewrite Hs|done|]. exists []. by rewrite He. Qed.

Lemma views_insert s id r :
  views (s <| Server.stations ::= <[id := r]> |>) = <[id := view_of r]> (views s).
Proof. apply fmap_insert. Qed.
Lemma unaffected_insert s id r r' :
  get s id = Some r -> view_of r' = view_of r -> unaffected s (s <| Server.stations ::= <[id := r']> |>).
Proof.
  intros Hr Hv. split_and!; [|done|by exists []]. rewrite views_insert, Hv. apply insert_id.
  unfold views. rewrite lookup_fmap. unfold get in Hr. by rewrite Hr.
Qed.
Lemma unaffected_modify s id f :
  (forall r, view_of (f r) = view_of r) -> unaffected s (modify_station s id f).
Proof.
  intros Hf. split_and!; [|done|by exists []]. unfold views, modify_station. simpl. apply map_eq. intros i.
  rewrite !lookup_fmap. destruct (base.decide (i = id)) as [->|Hi].
  - rewrite lookup_alter_eq. destruct (Server.stations s !! id); simpl; [by rewrite Hf|done].
  - by rewrite lookup_alter_ne.
Qed.

Lemma keep_frame_view c now direction frame r : view_of (keep_frame c now direction frame r) = view_of r.
Proof. unfold keep_frame. repeat case_match; done. Qed.

Lemma unaffected_record_frame s station session direction frame now :
  unaffected s (record_frame s station session direction frame now).
Proof.
  unfold record_frame. destruct (get s station) as [r|] eqn:Hr; [|reflexivity].
  destruct (negb _); [reflexivity|]. cbv zeta.
  set (r' := keep_frame _ _ _ _ _).
  assert (Hv : view_of r' = view_of r) by (unfold r'; rewrite keep_frame_view; by repeat case_match).
  assert (Hu := unaffected_insert s station r r' Hr Hv). destruct (Server.subscribed _); [|done].
  etrans; [exact Hu|by apply unaffected_emit].
Qed.
Lemma unaffected_track s station session action request r now :
  unaffected s (track s station session action request r now).
Proof.
  unfold track. destruct r; try reflexivity. destruct (get s station) as [record|]; [|reflexivity].
  destruct (negb _); [reflexivity|]. destruct (CsmsState.apply _ _ _ _ _ _) as [state changed].
  assert (Hu := unaffected_modify s station (fun r => r <| StationRec.state := state |>) ltac:(done)).
  destruct changed; [|done]. etrans; [exact Hu|by apply unaffected_emit].
Qed.
Lemma unaffected_note_failed_call s station : unaffected s (note_failed_call s station).
Proof.
  unfold note_failed_call. destruct (get s station); [|reflexivity].
  etrans; [|by apply unaffected_emit]. by apply unaffected_modify.
Qed.
Lemma unaffected_track_result s station action request response now :
  unaffected s (track_result s station action request response now).
Proof.
  unfold track_result. destruct (get s station) as [record|]; [|reflexivity].
  destruct (CsmsState.apply_result _ _ _ _ _) as [state changed].
  assert (Hu := unaffected_modify s station (fun r => r <| StationRec.state := state |>) ltac:(done)).
  destruct changed; [|done]. etrans; [exact Hu|by apply unaffected_emit].
Qed.
Lemma unaffected_settle_call s station action payload answer now :
  unaffected s (settle_call s station action payload answer now).1.
Proof.
  unfold settle_call. cbn [fst].
  repeat case_match; first [reflexivity|apply unaffected_track_result|apply unaffected_note_failed_call].
Qed.
Lemma unaffected_decide s action payload now : unaffected s (decide s action payload now).1.
Proof.
  unfold decide. repeat case_match; cbn [fst]; try reflexivity; simplify_eq; by apply unaffected_same.
Qed.
Lemma unaffected_submit s station action payload timeout caller open :
  unaffected s (submit s station action payload timeout caller open).1.
Proof. unfold submit. repeat case_match; cbn [fst]; try reflexivity; by apply unaffected_same. Qed.

(** ** The operations on connections *)

Lemma views_lookup s id v : views s !! id = Some v <-> exists r, get s id = Some r /\ view_of r = v.
Proof.
  unfold views, get. rewrite lookup_fmap. destruct (Server.stations s !! id); simpl; naive_solver.
Qed.

(** A station goes down: its view without the session. *)
Definition down (v : view) : view := (v.1.1.1, false, true, None).
Lemma registry_down vs next log id v n why :
  vs !! id = Some v -> v.2 = Some n -> registry_ok vs next log ->
  registry_ok (<[id := down v]> vs) next (CsmsEvent.Disconnected id why :: log).
Proof.
  intros Hv Hn [(up & Hup & Hin) Hok Hone]. split.
  - exists (up ∖ {[ id ]}). simpl. rewrite Hup. simpl. rewrite decide_True by (apply Hin; eauto). split; [done|].
    intros i. rewrite elem_of_difference, elem_of_singleton, Hin. destruct (base.decide (i = id)) as [->|Hi].
    + rewrite lookup_insert_eq. split; [naive_solver|]. by intros (w & m & [= <-] & ?).
    + rewrite lookup_insert_ne by done. naive_solver.
  - intros i w. destruct (base.decide (i = id)) as [->|Hi].
    + rewrite lookup_insert_eq. intros [= <-]. specialize (Hok id v Hv). destruct v as [[[? ?] ?] ?].
      destruct Hok as (? & ? & ? & ?). simpl. by split_and!.
    + rewrite lookup_insert_ne by done. apply Hok.
  - intros i j w w' m. destruct (base.decide (i = id)) as [->|Hi]; [rewrite lookup_insert_eq; by intros [= <-]|].
    rewrite lookup_insert_ne by done.
    destruct (base.decide (j = id)) as [->|Hj]; [rewrite lookup_insert_eq; by intros ? [= <-]|].
    rewrite lookup_insert_ne by done. apply Hone.
Qed.

Lemma ok_disconnect s id r n why now :
  get s id = Some r -> StationRec.session r = Some n -> ok s ->
  ok (emit (modify_station s id (disconnect_record now)) (CsmsEvent.Disconnected id why)).
Proof.
  intros Hr Hn Hok. unfold ok. change (Server.next_session _) with (Server.next_session s).
  change (Server.events _) with (CsmsEvent.Disconnected id why :: Server.events s).
  replace (views _) with (<[id := down (view_of r)]> (views s)).
  - apply (registry_down _ _ _ id (view_of r) n); [|done|done]. apply views_lookup. by exists r.
  - unfold views, emit, modify_station. simpl. apply map_eq. intros i. rewrite !lookup_fmap.
    unfold get in Hr. destruct (base.decide (i = id)) as [->|Hi].
    + by rewrite lookup_insert_eq, lookup_alter_eq, Hr.
    + by rewrite lookup_insert_ne, lookup_alter_ne, lookup_fmap by done.
Qed.

Lemma ok_session_ended s station session why now : ok s -> ok (session_ended s station session why now).
Proof.
  intros Hok. unfold session_ended. destruct (get s station) as [r|] eqn:Hr; [|done].
  destruct (negb _) eqn:Hs; [done|]. apply negb_false_iff, (proj1 (eqb_true _ _)) in Hs.
  by apply (ok_disconnect s station r session).
Qed.

Lemma ok_abort_session now s station : ok s -> ok (abort_session now s station).
Proof.
  intros Hok. unfold abort_session. destruct (get s station) as [r|] eqn:Hr; [|done].
  destruct (StationRec.session r) as [n|] eqn:Hn; [|done]. by apply (ok_disconnect s station r n).
Qed.
Lemma ok_finish_shutdown s now : ok s -> ok (finish_shutdown s now).
Proof.
  unfold finish_shutdown. generalize (map fst (btree_iter (Server.stations s))). intros l. revert s.
  induction l as [|id l IH]; intros s Hok; simpl; [done|]. by apply IH, ok_abort_session.
Qed.

Lemma ok_forget s id : ok s -> ok (forget s id).1.
Proof.
  intros Hok. unfold forget. destruct (get s id) as [r|] eqn:Hr; [|done]. cbn [fst].
  pose proof (proj2 (views_lookup s id (view_of r)) (ex_intro _ r (conj Hr eq_refl))) as Hv.
  assert (Hvs : views (s <| Server.stations ::= base.delete id |>) = base.delete id (views s))
    by apply fmap_delete.
  assert (Hdel : forall log up, follows log = Some up -> id ∉ up ->
    (forall i, i ≠ id -> (i ∈ up <-> exists v n, views s !! i = Some v /\ v.2 = Some n)) ->
    registry_ok (base.delete id (views s)) (Server.next_session s) (CsmsEvent.Forgotten id :: log)).
  { intros log up Hup Hid Hin. destruct Hok as [_ Hok Hone]. split.
    - exists up. simpl. rewrite Hup. simpl. rewrite decide_False by done. split; [done|]. intros i.
      destruct (base.decide (i = id)) as [->|Hi].
      + rewrite lookup_delete_eq. split; [done|]. by intros (? & ? & ? & _).
      + rewrite lookup_delete_ne by done. by apply Hin.
    - intros i v [_ Hi]%lookup_delete_Some. by apply Hok.
    - intros i j v w m [_ Hi]%lookup_delete_Some [_ Hj]%lookup_delete_Some. by apply Hone. }
  unfold ok. destruct Hok as [(up & Hup & Hin) Hvok Hone].
  destruct (StationRec.session r) as [n|] eqn:Hn; cbn [emit send_command].
  - change (registry_ok (views (s <| Server.stations ::= base.delete id |>)) (Server.next_session s)
      (CsmsEvent.Forgotten id :: CsmsEvent.Disconnected id Forgotten :: Server.events s)).
    rewrite Hvs. apply (Hdel _ (up ∖ {[ id ]})).
    + simpl. rewrite Hup. simpl. by rewrite decide_True by (apply Hin; eauto).
    + set_solver.
    + intros i Hi. rewrite elem_of_difference, elem_of_singleton, Hin. naive_solver.
  - change (registry_ok (views (s <| Server.stations ::= base.delete id |>)) (Server.next_session s)
      (CsmsEvent.Forgotten id :: Server.events s)).
    rewrite Hvs. apply (Hdel _ up); [done| |naive_solver]. rewrite Hin. intros (v & m & Hv' & Hm).
    assert (Heq : Some v = Some (view_of r)) by (etrans; [symmetry; exact Hv'|exact Hv]).
    injection Heq as ->. simpl in Hm. congruence.
Qed.

Lemma registry_connect vs next log up id v :
  follows log = Some up -> (forall i, i ∈ up <-> i ≠ id /\ exists w n, vs !! i = Some w /\ w.2 = Some n) ->
  (forall i w, i ≠ id -> vs !! i = Some w -> view_ok next i w) ->
  (forall i j w w' n, i ≠ id -> j ≠ id ->
     vs !! i = Some w -> vs !! j = Some w' -> w.2 = Some n -> w'.2 = Some n -> i = j) ->
  v = (id, true, false, Some (next + 1)) -> 0 <= next ->
  registry_ok (<[id := v]> vs) (next + 1) (CsmsEvent.Connected id :: log).
Proof.
  intros Hup Hin Hok Hone -> Hn. split.
  - exists ({[ id ]} ∪ up). simpl. rewrite Hup. simpl. rewrite decide_False by (rewrite Hin; naive_solver).
    split; [done|]. intros i. rewrite elem_of_union, elem_of_singleton, Hin.
    destruct (base.decide (i = id)) as [->|Hi].
    + rewrite lookup_insert_eq. split; [by eauto|naive_solver].
    + rewrite lookup_insert_ne by done. naive_solver.
  - intros i w. destruct (base.decide (i = id)) as [->|Hi].
    + rewrite lookup_insert_eq. intros [= <-]. split_and!; [done..|]. intros m [= <-]. lia.
    + rewrite lookup_insert_ne by done. intros Hw. specialize (Hok i w Hi Hw). destruct w as [[[? ?] ?] ?].
      destruct Hok as (? & ? & ? & Hs). split_and!; [done..|]. intros m Hm. specialize (Hs m Hm). lia.
  - assert (Hnew : forall i w, i ≠ id -> vs !! i = Some w -> w.2 = Some (next + 1) -> False).
    { intros i w Hi Hw Hs. specialize (Hok i w Hi Hw). destruct w as [[[? ?] ?] o]. simpl in Hs. subst o.
      destruct Hok as (_ & _ & _ & Hs). specialize (Hs _ eq_refl). lia. }
    intros i j w w' m. destruct (base.decide (i = id)) as [->|Hi], (base.decide (j = id)) as [->|Hj];
      rewrite ?lookup_insert_eq, ?lookup_insert_ne by done; [done|..].
    + intros [= <-] Hw' [= <-] Hm. by destruct (Hnew j w').
    + intros Hw [= <-] Hm [= <-]. by destruct (Hnew i w).
    + by apply Hone.
Qed.

Lemma ok_register s id peer protocol now :
  0 <= Server.next_session s < u64_max -> ok s ->
  ok (register s id peer protocol now).1 /\
  Server.next_session s <= Server.next_session (register s id peer protocol now).1
  <= Server.next_session s + 1.
Proof.
  intros Hn Hok. unfold register. destruct (Server.stopping s); [by split; [|simpl; lia]|].
  destruct (full s id); [by split; [|simpl; lia]|]. cbv zeta. cbn [fst].
  change (get (s <| Server.next_session := u64_wrapping_add (Server.next_session s) 1 |>) id) with (get s id).
  assert (Hw : u64_wrapping_add (Server.next_session s) 1 = Server.next_session s + 1)
    by (unfold u64_wrapping_add; apply Z.mod_small; lia).
  destruct Hok as [(up & Hup & Hin) Hok Hone].
  set (record := default (new_rec id) (get s id)).
  assert (Hname : StationInfo.id (StationRec.info record) = id).
  { unfold record. destruct (get s id) as [r|] eqn:Hr; [|done]. simpl.
    specialize (Hok id (view_of r) (proj2 (views_lookup s id _) (ex_intro _ r (conj Hr eq_refl)))).
    by destruct Hok as (? & _). }
  set (record' := connect_record (u64_wrapping_add (Server.next_session s) 1) peer protocol now record).
  assert (Hv : view_of record' = (id, true, false, Some (Server.next_session s + 1))).
  { unfold record', view_of. cbn. by rewrite Hname, Hw. }
  assert (Hrest : forall log up', follows log = Some up' ->
    (forall i, i ∈ up' <-> i ≠ id /\ i ∈ up) ->
    registry_ok (<[id := view_of record']> (views s)) (Server.next_session s + 1)
      (CsmsEvent.Connected id :: log)).
  { intros log up' Hup' Hin'. apply (registry_connect _ _ _ up'); [done| | | |done|lia].
    - intros i. rewrite Hin', Hin. done.
    - intros i w _. apply Hok.
    - intros i j w w' m _ _. apply Hone. }
  destruct (StationRec.session record) as [old|] eqn:Hs.
  - split; [|change (Server.next_session s <= u64_wrapping_add (Server.next_session s) 1 <= Server.next_session s + 1); lia]. unfold ok.
    change (registry_ok (views (s <| Server.stations ::= <[id := record']> |>))
      (u64_wrapping_add (Server.next_session s) 1)
      (CsmsEvent.Connected id :: CsmsEvent.Disconnected id Replaced :: Server.events s)).
    rewrite views_insert, Hw. apply (Hrest _ (up ∖ {[ id ]})).
    + simpl. rewrite Hup. simpl. rewrite decide_True; [done|]. apply Hin.
      unfold record in Hs. destruct (get s id) as [r|] eqn:Hr; [|done].
      exists (view_of r), old. split; [|done]. apply views_lookup. by exists r.
    + set_solver.
  - split; [|change (Server.next_session s <= u64_wrapping_add (Server.next_session s) 1 <= Server.next_session s + 1); lia]. unfold ok.
    change (registry_ok (views (s <| Server.stations ::= <[id := record']> |>))
      (u64_wrapping_add (Server.next_session s) 1) (CsmsEvent.Connected id :: Server.events s)).
    rewrite views_insert, Hw. apply (Hrest _ up); [done|]. intros i. split; [|naive_solver].
    intros Hi. split; [|done]. intros ->. apply Hin in Hi as (v & n & Hvn & Hm).
    apply views_lookup in Hvn as (r & Hr & <-). unfold record in Hs. rewrite Hr in Hs. simpl in *. congruence.
Qed.

Lemma ok_step s o :
  0 <= Server.next_session s < u64_max -> ok s ->
  ok (step s o) /\ Server.next_session s <= Server.next_session (step s o) <= Server.next_session s + 1.
Proof.
  intros Hn Hok.
  assert (Hu : forall s', unaffected s s' ->
    ok s' /\ Server.next_session s <= Server.next_session s' <= Server.next_session s + 1).
  { intros s' Hu. split; [by apply (unaffected_ok s)|]. destruct Hu as (_ & -> & _). lia. }
  destruct o; cbn [step]; try (by apply Hu, unaffected_same).
  - by apply ok_register.
  - split; [by apply ok_session_ended|]. unfold session_ended. repeat case_match; simpl; lia.
  - apply Hu, unaffected_record_frame.
  - apply Hu, unaffected_track.
  - apply Hu, unaffected_settle_call.
  - apply Hu, unaffected_decide.
  - apply Hu, unaffected_submit.
  - split; [by apply ok_forget|]. unfold forget. repeat case_match; simpl; lia.
  - apply Hu. unfold inject. case_match; by apply unaffected_same.
  - split; [by apply ok_finish_shutdown|].
    replace (Server.next_session (finish_shutdown s now)) with (Server.next_session s); [lia|].
    unfold finish_shutdown. generalize (map fst (btree_iter (Server.stations s))). intros l. clear Hu Hok Hn.
    revert s. induction l as [|id l IH]; intros s; simpl; [done|]. rewrite <- IH.
    unfold abort_session. by repeat case_match.
Qed.

(** The session numbers that are given out, oldest first. *)
Fixpoint issued s (ops : list op) : list Z :=
  match ops with
  | [] => []
  | o :: ops =>
      match o with
      | Register id peer protocol now =>
          match (register s id peer protocol now).2 with Ok n => [n] | Err _ => [] end
      | _ => []
      end ++ issued (step s o) ops
  end.
(** The messages of a session. *)
Definition of_session (station : str) (n : Z) (o : op) : Prop :=
  match o with
  | SessionEnded id m _ _ | RecordFrame id m _ _ _ | Track id m _ _ _ _ => id = station /\ m = n
  | _ => False
  end.

Lemma ok_start c : ok (start c).
Proof. split; [exists ∅; split; [done|set_solver]|done..]. Qed.
Lemma ok_run c ops :
  Z.of_nat (length ops) <= u64_max ->
  ok (run c ops) /\ 0 <= Server.next_session (run c ops) <= Z.of_nat (length ops).
Proof.
  intros Hlen. unfold run. induction ops as [|o ops IH] using rev_ind.
  - split; [apply ok_start|simpl; lia].
  - rewrite fold_left_app. rewrite length_app in *. simpl in *. destruct (IH ltac:(lia)) as [Hok Hn].
    destruct (ok_step (fold_left step ops (start c)) o) as [Hok' Hn']; [lia|done|]. split; [done|lia].
Qed.
Lemma register_number s id peer protocol now n :
  0 <= Server.next_session s < u64_max -> (register s id peer protocol now).2 = Ok n ->
  n = Server.next_session s + 1 /\ Server.next_session (register s id peer protocol now).1 = n.
Proof.
  intros Hn. unfold register. destruct (Server.stopping s); [done|]. destruct (full s id); [done|]. cbv zeta. cbn [fst snd].
  intros [= <-]. split; [|by case_match]. unfold u64_wrapping_add. apply Z.mod_small. lia.
Qed.
(** Every number is larger than those before it. *)
Lemma issued_above s ops :
  ok s -> 0 <= Server.next_session s -> Server.next_session s + Z.of_nat (length ops) <= u64_max ->
  Forall (fun n => Server.next_session s < n) (issued s ops) /\ NoDup (issued s ops).
Proof.
  revert s. induction ops as [|o ops IH]; intros s Hok H0 Hlen; [by repeat constructor|]. cbn [issued length] in *.
  destruct (ok_step s o) as [Hok' Hn']; [lia|done|]. destruct (IH (step s o) Hok') as [Ha Hd]; [lia..|].
  assert (Ha' : Forall (fun n => Server.next_session s < n) (issued (step s o) ops))
    by (eapply Forall_impl; [exact Ha|]; cbv beta; intros n Hn; lia).
  destruct o; try (cbn [app]; by split). cbn [step] in *.
  destruct (register s id peer protocol now).2 as [n|] eqn:Hr; cbn [app]; [|by split].
  apply register_number in Hr as [Hn Hnext]; [|lia]. split; [constructor; [lia|done]|]. constructor; [|done].
  intros Hin. rewrite Forall_forall in Ha. specialize (Ha n Hin). cbv beta in Ha. lia.
Qed.
Lemma late_session s station n o :
  (forall r, get s station = Some r -> StationRec.session r <> Some n) -> of_session station n o -> step s o = s.
Proof.
  intros Hno. assert (Hs : forall r, get s station = Some r -> is_session r n = false).
  { intros r Hr. apply (proj2 (eqb_false _ _)). by apply Hno. }
  destruct o; try done; intros [-> ->]; cbn [step]; [unfold session_ended|unfold record_frame|unfold track; destruct r; try done];
    (destruct (get s station) as [record|] eqn:Hg; [|done]); by rewrite (Hs record eq_refl).
Qed.

(** What a station has as its session was given out, or it was there before. *)
Definition holds s (id : str) (n : Z) : Prop := exists r, get s id = Some r /\ StationRec.session r = Some n.
Lemma holds_views s id n : holds s id n <-> exists v, views s !! id = Some v /\ v.2 = Some n.
Proof.
  split; [intros (r & Hr & Hn); exists (view_of r); split; [apply views_lookup; by exists r|done]|].
  intros (v & (r & Hr & <-)%views_lookup & Hn). by exists r.
Qed.
Lemma holds_unaffected s s' id n : unaffected s s' -> holds s' id n -> holds s id n.
Proof. intros (Hv & _). rewrite !holds_views. by rewrite Hv. Qed.
Lemma holds_disconnect s station why now id n :
  holds (emit (modify_station s station (disconnect_record now)) why) id n -> holds s id n.
Proof.
  intros (r & Hr & Hn). unfold get, emit, modify_station in Hr. simpl in Hr.
  destruct (base.decide (id = station)) as [->|Hi].
  - rewrite lookup_alter_eq in Hr. apply fmap_Some in Hr as (q & _ & ->). done.
  - rewrite lookup_alter_ne in Hr by done. by exists r.
Qed.
Lemma holds_abort now s station id n : holds (abort_session now s station) id n -> holds s id n.
Proof. unfold abort_session. repeat case_match; try done. apply holds_disconnect. Qed.
Lemma holds_register s station peer protocol now id n :
  holds (register s station peer protocol now).1 id n ->
  holds s id n \/ (id = station /\ (register s station peer protocol now).2 = Ok n).
Proof.
  unfold register. destruct (Server.stopping s); [by left|]. destruct (full s station); [by left|]. cbv zeta. cbn [fst snd].
  generalize (u64_wrapping_add (Server.next_session s) 1). intros k.
  assert (Hs : forall s' record, Server.stations s' = Server.stations s ->
    holds (emit (s' <| Server.stations ::= <[station := connect_record k peer protocol now record]> |>) (CsmsEvent.Connected station)) id n ->
    holds s id n \/ id = station /\ Ok (E := RegisterError) k = Ok n).
  { intros s' record Hs (r & Hr & Hn). unfold get, emit in Hr. simpl in Hr. rewrite Hs in Hr.
    apply lookup_insert_Some in Hr as [[<- <-]|[_ Hr]]; [right|left; by exists r]. split; [done|]. simpl in Hn. congruence. }
  apply Hs. by case_match.
Qed.
Lemma holds_step s o id n :
  holds (step s o) id n -> holds s id n \/
  exists peer protocol now, o = Register id peer protocol now /\ (register s id peer protocol now).2 = Ok n.
Proof.
  destruct o; cbn [step]; try (intros Hh; left; revert Hh; apply holds_unaffected; by apply unaffected_same).
  - intros Hh. destruct (holds_register s id0 peer protocol now id n Hh) as [?|[-> Hn]]; [by left|]. right. eauto 6.
  - intros Hh. left. revert Hh. unfold session_ended. repeat case_match; try done. apply holds_disconnect.
  - intros Hh. left. revert Hh. apply holds_unaffected, unaffected_record_frame.
  - intros Hh. left. revert Hh. apply holds_unaffected, unaffected_track.
  - intros Hh. left. revert Hh. apply holds_unaffected, unaffected_settle_call.
  - intros Hh. left. revert Hh. apply holds_unaffected, unaffected_decide.
  - intros Hh. left. revert Hh. apply holds_unaffected, unaffected_submit.
  - intros (r & Hr & Hn). left. exists r. split; [|done]. revert Hr. unfold forget.
    destruct (get s id0) as [record|]; [|done]. cbn [fst].
    assert (Hd : forall q, base.delete id0 (Server.stations s) !! id = Some q -> get s id = Some q)
      by (intros q [_ ?]%lookup_delete_Some; done).
    case_match; apply Hd.
  - intros Hh. left. revert Hh. apply holds_unaffected. unfold inject. case_match; by apply unaffected_same.
  - unfold finish_shutdown. generalize (map fst (btree_iter (Server.stations s))). intros l Hh. left. revert s Hh.
    induction l as [|i l IH]; intros s Hh; simpl in *; [done|]. by apply (holds_abort now s i), IH.
Qed.
Lemma holds_issued s ops id n : holds (fold_left step ops s) id n -> holds s id n \/ n ∈ issued s ops.
Proof.
  revert s. induction ops as [|o ops IH]; intros s; cbn [fold_left issued]; [by left|]. intros [Hh|Hin]%IH.
  - apply holds_step in Hh as [Hh|(peer & protocol & now & -> & Hr)]; [by left|right]. rewrite Hr. by left.
  - right. apply elem_of_app. by right.
Qed.

(** Claim C4: the registry and the events of the CSMS agree. Whatever connects, is replaced, ends,
    is forgotten or shut down, in any order and with late messages of old sessions in between, a
    subscriber that folds the events never sees a contradiction and knows exactly the stations
    that have a session; [connected] says so too; and no two stations share a session. No session
    number is given out twice, and a station has only what was given out; the messages of a session that a station does not have (any more)
    change nothing, and the end of the one it has takes it down. *)
Theorem registry_follows_events c ops :
  Z.of_nat (length ops) <= u64_max ->
  let s := run c ops in
  (exists up, follows (Server.events s) = Some up /\
    (forall id, id ∈ up <-> exists r n, get s id = Some r /\ StationRec.session r = Some n)) /\
  (forall id r, get s id = Some r ->
     StationInfo.id (StationRec.info r) = id /\
     StationInfo.connected (StationRec.info r) = is_someb (StationRec.session r) /\
     (StationInfo.connected (StationRec.info r) = true ->
      StationInfo.disconnected_at (StationRec.info r) = None)) /\
  (forall i j r q n, get s i = Some r -> get s j = Some q ->
     StationRec.session r = Some n -> StationRec.session q = Some n -> i = j) /\
  NoDup (issued (start c) ops) /\
  (forall id r n, get s id = Some r -> StationRec.session r = Some n -> n ∈ issued (start c) ops) /\
  (forall station n o, (forall r, get s station = Some r -> StationRec.session r <> Some n) ->
     of_session station n o -> step s o = s) /\
  (forall station r n why now, get s station = Some r -> StationRec.session r = Some n ->
     let s' := step s (SessionEnded station n why now) in
     Server.events s' = CsmsEvent.Disconnected station why :: Server.events s /\
     exists r', get s' station = Some r' /\ StationRec.session r' = None).
Proof.
  intros Hlen s. destruct (ok_run c ops Hlen) as [Hr _]. change (ok s) in Hr. destruct Hr as [(up & Hup & Hin) Hok Hone].
  assert (Hv : forall id r, get s id = Some r -> views s !! id = Some (view_of r))
    by (intros id r Hr; apply views_lookup; by exists r).
  split_and!.
  - exists up. split; [done|]. intros id. rewrite Hin. split.
    + intros (v & n & (r & Hr & <-)%views_lookup & Hn). by exists r, n.
    + intros (r & n & Hr & Hn). by exists (view_of r), n; split; [apply Hv|].
  - intros id r Hr. destruct (Hok id (view_of r) (Hv id r Hr)) as (? & ? & Hg & _). split_and!; [done..|].
    intros Hc. specialize (Hg Hc). by destruct (StationInfo.disconnected_at _).
  - intros i j r q n Hi Hj. apply (Hone i j (view_of r) (view_of q) n (Hv i r Hi) (Hv j q Hj)).
  - apply issued_above; [apply ok_start|simpl; lia|simpl; lia].
  - intros id r n Hr Hn. destruct (holds_issued (start c) ops id n) as [(q & Hq & _)|Hi]; [by exists r| |done].
    unfold get in Hq. simpl in Hq. by rewrite lookup_empty in Hq.
  - apply late_session.
  - intros station r n why now Hr Hn. clearbody s. cbn [step]. unfold session_ended. rewrite Hr. unfold is_session.
    rewrite Hn, eqb_refl. cbn [negb]. split; [done|]. exists (disconnect_record now r). split; [|done].
    unfold get, emit, modify_station in *. simpl. by rewrite lookup_alter_eq, Hr.
Qed.

(** ** Bounds of the registry *)

Definition bytes_of (l : list HistoryItem.t) : Z := fold_right (fun i n => HistoryItem.bytes i + n) 0 l.

(** The size of an item is that of the text of the frame it holds. *)
Definition true_size (i : HistoryItem.t) : Prop := HistoryItem.bytes i = text_bytes (HistoryItem.frame i).
(** What has a counter of its own: an action with a short name. *)
Definition short_names (m : gmap str Z) : Prop :=
  forall action n, m !! action = Some n -> action = OTHER_ACTION \/ len action <= MAX_ACTION_KEY_CHARS.

Record record_bounded (c : CsmsConfig) (r : StationRec.t) : Prop := {
  history_len : len (StationRec.history r) <= history_cap c;
  history_sum : StationRec.history_bytes r = bytes_of (StationRec.history r);
  history_room : StationRec.history_bytes r <= history_bytes_cap c;
  history_sizes : Forall true_size (StationRec.history r);
  counters : Z.of_nat (size (base.delete OTHER_ACTION (StationInfo.received_by_action (StationRec.info r))))
             <= MAX_ACTION_KEYS;
  counter_names : short_names (StationInfo.received_by_action (StationRec.info r));
  state_bounded : CsmsState.bounded (transaction_history_cap c) (StationRec.state r);
}.

Definition config_width (c : CsmsConfig) : Prop :=
  0 <= history_cap c /\ 0 <= history_bytes_cap c < u64_max /\ 0 <= transaction_history_cap c /\
  0 <= max_stations c.

Lemma byte_len_nonneg t : 0 <= byte_len t.
Proof. rewrite <- as_bytes_length. unfold len. lia. Qed.

Lemma true_size_nonneg i : true_size i -> 0 <= HistoryItem.bytes i.
Proof. intros ->. apply byte_len_nonneg. Qed.
Lemma bytes_of_nonneg l : Forall true_size l -> 0 <= bytes_of l.
Proof. induction 1 as [|i l Hi%true_size_nonneg]; simpl; lia. Qed.
Lemma bytes_of_app l l' : bytes_of (l ++ l') = bytes_of l + bytes_of l'.
Proof. induction l as [|i l IH]; simpl; lia. Qed.

Lemma make_room_spec cap bytes_cap bytes history :
  0 < cap -> Forall true_size history ->
  let '(h, b) := make_room cap bytes_cap bytes history (bytes_of history) in
  b = bytes_of h /\ len h < cap /\ Forall true_size h /\
  sublist h history.
Proof.
  intros Hcap. induction 1 as [|old rest Hold Hrest IH]; [simpl; split_and!; [done|unfold len; simpl; lia|done|done]|].
  cbn [make_room]. destruct ((cap <=? len (old :: rest)) || _) eqn:E.
  - replace (saturating_sub (bytes_of (old :: rest)) (HistoryItem.bytes old)) with (bytes_of rest).
    + destruct (make_room cap bytes_cap bytes rest (bytes_of rest)) as [h b].
      destruct IH as (? & ? & ? & ?). split_and!; [done..|]. by constructor.
    + pose proof (bytes_of_nonneg rest Hrest). apply true_size_nonneg in Hold. unfold saturating_sub. simpl. lia.
  - bool_facts. split_and!; [done|lia|by constructor|done].
Qed.

Lemma keep_frame_bounded c now direction frame r :
  config_width c -> record_bounded c r -> record_bounded c (keep_frame c now direction frame r).
Proof.
  intros (_ & Hb & _ & _) Hr. unfold keep_frame. destruct (Z.ltb_spec 0 (history_cap c)) as [Hcap|]; [|done].
  destruct Hr as [Hl Hs Hroom Hz Hc Hn Hst].
  destruct (if history_bytes_cap c <? text_bytes frame then _ else _) as [stored bytes] eqn:Eb.
  assert (Htrue : bytes = text_bytes stored) by (case_match; by injection Eb as <- <-).
  assert (Hbytes : 0 <= bytes) by (rewrite Htrue; apply byte_len_nonneg).
  pose proof (make_room_spec (history_cap c) (history_bytes_cap c) bytes (StationRec.history r) Hcap Hz) as Hm.
  rewrite Hs. destruct (make_room _ _ _ _ _) as [h b]. destruct Hm as (-> & Hlen & Hh & Hsub).
  pose proof (bytes_of_nonneg h Hh).
  destruct (Z.leb_spec (u64_saturating_add (bytes_of h) bytes) (history_bytes_cap c)) as [Hle|Hgt].
  - unfold u64_saturating_add in Hle. split; simpl; [..|done|done|done].
    + unfold len in *. rewrite length_app. simpl. lia.
    + rewrite bytes_of_app. simpl. lia.
    + lia.
    + apply Forall_app. split; [done|]. by repeat constructor.
  - split; simpl; [lia|done| |done|done|done|done].
    rewrite Hs in Hroom. assert (bytes_of h <= bytes_of (StationRec.history r)); [|lia].
    clear -Hsub Hz. induction Hsub as [|i l l' Hl IH|i l l' Hl IH]; inversion Hz as [|? ? Hi%true_size_nonneg ?]; subst;
      simpl; [lia|..]; specialize (IH ltac:(done)); lia.
Qed.

Lemma count_call_bounded action i :
  Z.of_nat (size (base.delete OTHER_ACTION (StationInfo.received_by_action i))) <= MAX_ACTION_KEYS ->
  Z.of_nat (size (base.delete OTHER_ACTION (StationInfo.received_by_action (count_call action i))))
  <= MAX_ACTION_KEYS.
Proof.
  unfold count_call. set (m := StationInfo.received_by_action i). cbn [StationInfo.received_by_action over].
  set (key := if _ && _ then action else OTHER_ACTION). intros Hm. simpl.
  destruct (base.decide (key = OTHER_ACTION)) as [->|Hk]; [by rewrite delete_insert_eq|].
  rewrite delete_insert_ne by done.
  assert (Hdom : is_Some (m !! key) \/ Z.of_nat (size m) < MAX_ACTION_KEYS).
  { revert Hk. unfold key. destruct (_ && _) eqn:E; [|done]. intros _. bool_facts.
    apply orb_true_iff in H0 as [Hs|Hs]; [left|right; by apply Z.ltb_lt].
    revert Hs. unfold m, is_someb. destruct (_ !! action); [by eexists|done]. }
  clearbody key. subst m. destruct Hdom as [[x Hx]|Hs].
  - rewrite map_size_insert, lookup_delete_ne by done. by rewrite Hx.
  - rewrite map_size_insert. case_match; [done|].
    assert (Hle : (size (base.delete OTHER_ACTION (StationInfo.received_by_action i))
      <= size (StationInfo.received_by_action i))%nat) by (apply map_subseteq_size, delete_subseteq).
    lia.
Qed.

Lemma count_call_names action i :
  short_names (StationInfo.received_by_action i) -> short_names (StationInfo.received_by_action (count_call action i)).
Proof.
  intros Hn key n. unfold count_call. cbn [StationInfo.received_by_action over]. simpl.
  intros [[<- _]|[_ Hk]]%lookup_insert_Some; [|by apply (Hn key n)].
  destruct (_ && _) eqn:E; [right|by left]. bool_facts. unfold len in *.
  rewrite length_take in *. unfold MAX_ACTION_KEY_CHARS in *. lia.
Qed.

Record server_bounded (c : CsmsConfig) s : Prop := {
  same_config : Server.config s = c;
  station_count : Z.of_nat (size (Server.stations s)) <= max_stations c;
  records id r : get s id = Some r -> record_bounded c r;
}.

Lemma server_bounded_same c s s' :
  Server.config s' = Server.config s -> Server.stations s' = Server.stations s ->
  server_bounded c s -> server_bounded c s'.
Proof. intros Hc Hs []. split; unfold get in *; rewrite ?Hc, ?Hs; auto. Qed.
Lemma bounded_emit c s e : server_bounded c s -> server_bounded c (emit s e).
Proof. by apply server_bounded_same. Qed.

Lemma bounded_insert c s id r :
  (is_Some (get s id) \/ Z.of_nat (size (Server.stations s)) < max_stations c) -> record_bounded c r ->
  server_bounded c s -> server_bounded c (s <| Server.stations ::= <[id := r]> |>).
Proof.
  intros Hroom Hr [Hc Hn Hs]. split; [done| |].
  - simpl. rewrite map_size_insert. unfold get in Hroom. destruct Hroom as [[x Hx]|Hlt]; [by rewrite Hx|].
    case_match; simpl; lia.
  - intros i q. unfold get. simpl. intros [[<- <-]|[_ Hq]]%lookup_insert_Some; [done|by apply (Hs i)].
Qed.
Lemma bounded_modify c s id f :
  (forall r, get s id = Some r -> record_bounded c r -> record_bounded c (f r)) ->
  server_bounded c s -> server_bounded c (modify_station s id f).
Proof.
  intros Hf [Hc Hn Hs]. split; [done| |].
  - unfold modify_station. simpl. by rewrite <- size_dom, dom_alter_L, size_dom.
  - intros i q. unfold get, modify_station. simpl. intros Hq.
    destruct (base.decide (i = id)) as [->|Hi].
    + rewrite lookup_alter_eq in Hq. apply fmap_Some in Hq as (r & Hr & ->).
      apply (Hf r Hr). by apply (Hs id).
    + rewrite lookup_alter_ne in Hq by done. by apply (Hs i).
Qed.

(** The rest of a record may change. *)
Lemma record_same c r r' :
  StationRec.history r' = StationRec.history r -> StationRec.history_bytes r' = StationRec.history_bytes r ->
  StationInfo.received_by_action (StationRec.info r') = StationInfo.received_by_action (StationRec.info r) ->
  StationRec.state r' = StationRec.state r -> record_bounded c r -> record_bounded c r'.
Proof. intros Hh Hb Hr Hs []. split; rewrite ?Hh, ?Hb, ?Hr, ?Hs; auto. Qed.
Lemma record_state c r st :
  CsmsState.bounded (transaction_history_cap c) st -> record_bounded c r ->
  record_bounded c (r <| StationRec.state := st |>).
Proof. intros Hst []. by split. Qed.

Lemma state_apply_bounded cap st action request response now :
  0 <= cap -> CsmsState.bounded cap st ->
  CsmsState.bounded cap (CsmsState.apply st action request response now cap).1.
Proof. intros Hcap. apply (CsmsState.bounded_step cap st (CsmsState.Answered action request response now) Hcap). Qed.

Lemma bounded_new_rec c id : config_width c -> record_bounded c (new_rec id).
Proof.
  intros (Hh & [Hb _] & Ht & _). split; simpl; try done.
Qed.

Lemma bounded_register c s id peer protocol now :
  config_width c -> server_bounded c s -> server_bounded c (register s id peer protocol now).1.
Proof.
  intros Hw Hb. unfold register. destruct (Server.stopping s); [done|].
  destruct (full s id) eqn:Hf; [done|]. cbv zeta. cbn [fst].
  change (get (s <| Server.next_session := u64_wrapping_add (Server.next_session s) 1 |>) id) with (get s id).
  apply bounded_emit. apply bounded_insert.
  - unfold full in Hf. destruct Hb as [<- _ _]. apply andb_false_iff in Hf as [Hf|Hf].
    + right. apply Z.leb_gt in Hf. by case_match.
    + left. apply negb_false_iff in Hf. unfold is_someb in Hf. destruct (get s id) as [r|] eqn:Hr; [|done].
      exists r. case_match; exact Hr.
  - apply (record_same c (default (new_rec id) (get s id))); [reflexivity..|].
    destruct (get s id) as [r|] eqn:Hr; simpl; [by apply (records c s Hb id)|by apply bounded_new_rec].
  - case_match; by apply (server_bounded_same c s).
Qed.

Lemma bounded_record_frame c s station session direction frame now :
  config_width c -> server_bounded c s ->
  server_bounded c (record_frame s station session direction frame now).
Proof.
  intros Hw Hb. unfold record_frame. destruct (get s station) as [r|] eqn:Hr; [|done].
  destruct (negb _); [done|]. cbv zeta. set (r' := keep_frame _ _ _ _ _).
  assert (Hr' : record_bounded c r').
  { unfold r'. rewrite (same_config c s Hb). apply keep_frame_bounded; [done|].
    pose proof (records c s Hb station r Hr) as Hrb. repeat case_match; try done.
    destruct Hrb. split; simpl; try done; [by apply count_call_bounded|by apply count_call_names]. }
  assert (Hi := bounded_insert c s station r' (or_introl (ex_intro _ r Hr)) Hr' Hb).
  destruct (Server.subscribed _); [|done]. by apply bounded_emit.
Qed.

Lemma bounded_disconnect c s id now why :
  server_bounded c s ->
  server_bounded c (emit (modify_station s id (disconnect_record now)) (CsmsEvent.Disconnected id why)).
Proof. intros Hb. apply bounded_emit, bounded_modify; [|done]. intros r _. by apply record_same. Qed.

Lemma bounded_settle_call c s station action payload answer now :
  server_bounded c s -> server_bounded c (settle_call s station action payload answer now).1.
Proof.
  assert (Hf : forall s, server_bounded c s -> server_bounded c (note_failed_call s station)).
  { intros s1 Hb. unfold note_failed_call. case_match; [|done]. apply bounded_emit, bounded_modify; [|done].
    intros r _ Hr. apply record_state; [|done]. apply (CsmsState.bounded_same _ (StationRec.state r)); [done..|].
    apply Hr. }
  assert (Ht : forall s response, server_bounded c s ->
    server_bounded c (track_result s station action payload response now)).
  { intros s1 response Hb. unfold track_result. destruct (get s1 station) as [record|] eqn:Hg; [|done].
    pose proof (CsmsState.bounded_result_step (transaction_history_cap c) (StationRec.state record) action
      payload response now (state_bounded _ _ (records c s1 Hb station record Hg))) as Hst.
    destruct (CsmsState.apply_result _ _ _ _ _) as [st changed]. cbn [fst] in Hst.
    assert (Hm : server_bounded c (modify_station s1 station (fun r => r <| StationRec.state := st |>)))
      by (apply bounded_modify; [intros r _; by apply record_state|done]).
    destruct changed; [by apply bounded_emit|done]. }
  intros Hb. unfold settle_call. cbn [fst].
  repeat case_match; first [done|by apply Ht|by apply Hf].
Qed.

Lemma server_bounded_step c s o : config_width c -> server_bounded c s -> server_bounded c (step s o).
Proof.
  intros Hw Hb. destruct o; cbn [step]; try (by apply (server_bounded_same c s)).
  - by apply bounded_register.
  - unfold session_ended. repeat case_match; try done. by apply bounded_disconnect.
  - by apply bounded_record_frame.
  - unfold track. destruct r; try done. destruct (get s station) as [record|] eqn:Hg; [|done].
    destruct (negb _); [done|]. rewrite (same_config c s Hb).
    pose proof (state_apply_bounded (transaction_history_cap c) (StationRec.state record) action request
      payload now ltac:(apply Hw) (state_bounded _ _ (records c s Hb station record Hg))) as Hst.
    destruct (CsmsState.apply _ _ _ _ _ _) as [st changed]. cbn [fst] in Hst.
    assert (Hm : server_bounded c (modify_station s station (fun r => r <| StationRec.state := st |>)))
      by (apply bounded_modify; [intros r _; by apply record_state|done]).
    destruct changed; [by apply bounded_emit|done].
  - by apply bounded_settle_call.
  - unfold decide. repeat case_match; cbn [fst]; simplify_eq; try done; by apply (server_bounded_same c s).
  - unfold submit. repeat case_match; cbn [fst]; try done; by apply (server_bounded_same c s).
  - unfold forget. destruct (get s id) as [record|] eqn:Hg; [|done]. cbn [fst].
    assert (Hd : server_bounded c (s <| Server.stations ::= base.delete id |>)).
    { destruct Hb as [Hc Hn Hs]. split; [done| |].
      - simpl. pose proof (map_subseteq_size _ _ (delete_subseteq (Server.stations s) id)). lia.
      - intros i r. unfold get. simpl. intros [_ Hr]%lookup_delete_Some. by apply (Hs i). }
    apply bounded_emit. case_match; [|done]. apply bounded_emit. by apply (server_bounded_same c (s <| Server.stations ::= base.delete id |>)).
  - unfold inject. case_match; [|done]. by apply (server_bounded_same c s).
  - unfold finish_shutdown. generalize (map fst (btree_iter (Server.stations s))). intros l. revert s Hb.
    induction l as [|id l IH]; intros s Hb; simpl; [done|]. apply IH. unfold abort_session.
    repeat case_match; try done. by apply bounded_disconnect.
Qed.

(** Claim C21: the memory of the CSMS is bounded, whatever stations do: at most [max_stations]
    stations; for each at most [history_cap] frames, whose texts add up to [history_bytes] and
    never exceed [history_bytes_cap]; counters for at most 64 actions with names of at most 64
    characters (and one for the others); and a protocol state within its bounds. *)
Theorem registry_bounded c ops :
  config_width c -> server_bounded c (run c ops).
Proof.
  intros Hw. unfold run. assert (H0 : server_bounded c (start c)).
  { split; [done|simpl; apply Hw|]. intros id r. unfold get. simpl. by rewrite lookup_empty. }
  revert H0. generalize (start c). induction ops as [|o ops IH]; intros s Hb; simpl; [done|].
  by apply IH, server_bounded_step.
Qed.

(** ** Decisions: the faults are a queue per action *)

(** What the next CALLs of an action are answered by the faults. *)
Definition scripted (action : str) (faults : list Fault) : list Reply :=
  flat_map (fun f => if fault_action f == action
                     then repeat (fault_reply f) (Z.to_nat (remaining f)) else []) faults.

Lemma scripted_app action l l' : scripted action (l ++ l') = scripted action l ++ scripted action l'.
Proof. apply flat_map_app. Qed.
Lemma scripted_retain action l : scripted action (retain (fun f => 0 <? remaining f) l) = scripted action l.
Proof.
  induction l as [|f l IH]; simpl; [done|]. destruct (Z.ltb_spec 0 (remaining f)); simpl; rewrite IH; [done|].
  replace (Z.to_nat (remaining f)) with O by lia. by case_match.
Qed.
Lemma scripted_misses action l : (forall f, List.In f l -> hits action f = false) -> scripted action l = [].
Proof.
  induction l as [|f l IH]; simpl; [done|]. intros Hm. rewrite IH by auto.
  specialize (Hm f (or_introl eq_refl)). unfold hits in Hm. destruct (fault_action f == action); [|done].
  simpl in Hm. apply Z.ltb_ge in Hm. by replace (Z.to_nat (remaining f)) with O by lia.
Qed.

(** The actions with a default answer are those the registry lets a Charge Point send. *)
Lemma charge_point_actions action :
  is_charge_point_action action
  = is_some_and (fun i => Actions.charge_point_may_send (Actions.direction i)) (Actions.find action) /\
  (Actions.find action = None -> is_charge_point_action action = false).
Proof.
  assert (Heq : is_charge_point_action action
    = is_some_and (fun i => Actions.charge_point_may_send (Actions.direction i)) (Actions.find action)).
  { unfold is_charge_point_action, Actions.find, Actions.ACTIONS, CHARGE_POINT_ACTIONS, any.
    cbn [existsb find_first Actions.name].
    repeat match goal with
    | |- context [@eqb _ _ ?n action] =>
        let E := fresh in destruct (@eqb _ _ n action) eqn:E;
        [apply (proj1 (eqb_true _ _)) in E; subst action; vm_compute; reflexivity|]
    end.
    reflexivity. }
  split; [done|]. intros Hn. by rewrite Heq, Hn.
Qed.

Lemma find_first_split {A} (p : A -> bool) l x :
  find_first p l = Some x ->
  exists l1 l2, l = l1 ++ x :: l2 /\ p x = true /\ (forall y, List.In y l1 -> p y = false).
Proof.
  induction l as [|y l IH]; simpl; [done|]. destruct (p y) eqn:Ey.
  - intros [= ->]. exists [], l. by split_and!; [| |intros ? []].
  - intros (l1 & l2 & -> & Hp & Hn)%IH. exists (y :: l1), l2. split_and!; [done..|]. intros z [<-|Hz]; auto.
Qed.

Lemma take_fault_scripted faults action :
  match scripted action faults with
  | [] => take_fault faults action = None
  | r :: rest =>
      exists faults', take_fault faults action = Some (faults', r) /\ scripted action faults' = rest /\
        forall other, other <> action -> scripted other faults' = scripted other faults
  end.
Proof.
  unfold take_fault. destruct (find_first (hits action) faults) as [f|] eqn:Hf.
  - apply find_first_split in Hf as (l1 & l2 & -> & Hhit & Hmiss).
    rewrite update_first_middle, scripted_app by done.
    rewrite (scripted_misses action l1 Hmiss). unfold hits in Hhit. bool_facts.
    assert (Hn : exists n, Z.to_nat (remaining f) = S n /\ Z.to_nat (remaining f - 1) = n)
      by (exists (Z.to_nat (remaining f - 1)); lia).
    destruct Hn as (n & Hn & Hn'). cbn [scripted flat_map app]. rewrite H, eqb_refl, Hn. cbn [repeat app].
    eexists. split; [reflexivity|]. rewrite scripted_retain, scripted_app, (scripted_misses action l1 Hmiss).
    split.
    + cbn [scripted flat_map app]. simpl. by rewrite H, eqb_refl, Hn'.
    + intros other Ho. rewrite scripted_retain, !scripted_app. cbn [scripted flat_map]. simpl.
      by rewrite H, (eqb_ne action other) by congruence.
  - rewrite find_first_none in Hf. by rewrite scripted_misses.
Qed.

(** The decision about a CALL. The faults that were injected are a queue per action,
    used up one CALL at a time in the order they were injected: while it is not empty the first
    one answers, nothing else of the server changes and the queues of other actions are kept.
    Without a fault, a payload that violates the schema is refused with the code of the
    violation; then a responder answers; an action a Charge Point may not send is refused with
    NotSupported if the registry knows it and NotImplemented otherwise; and nothing but the
    allocator of transaction ids changes, by a start only, to the successor in 32 bits. *)
Theorem decide_spec s action payload now f other :
  scripted other (Server.faults (inject s f))
  = scripted other (Server.faults s)
    ++ (if fault_action f == other then repeat (fault_reply f) (Z.to_nat (remaining f)) else []) /\
  match scripted action (Server.faults s) with
  | r :: rest =>
      exists faults, decide s action payload now = (s <| Server.faults := faults |>, r) /\
        scripted action faults = rest /\
        (other <> action -> scripted other faults = scripted other (Server.faults s))
  | [] =>
      exists ids r, decide s action payload now = (s <| Server.tx_ids := ids |>, r) /\
        (ids = Server.tx_ids s \/
         action = Actions.StartTransaction /\ policy ids = policy (Server.tx_ids s) /\
         next ids = i32_wrapping_add (next (Server.tx_ids s)) 1) /\
        match (if validate_inbound (Server.config s) then violation action payload else None) with
        | Some v =>
            r = ReplyError (Schema.error_code v) (truncate_chars (Schema.error_text v) MAX_ERROR_DESCRIPTION)
        | None =>
            match Server.responders s !! action with
            | Some responder => r = responder payload
            | None =>
                match Actions.find action with
                | None => exists text, r = ReplyError ErrorCode.NotImplemented text
                | Some i =>
                    if Actions.charge_point_may_send (Actions.direction i)
                    then exists answer, r = ReplyResult answer
                    else exists text, r = ReplyError ErrorCode.NotSupported text
                end
            end
        end
  end.
Proof.
  split.
  { unfold inject. destruct (Z.ltb_spec 0 (remaining f)) as [Hp|Hz].
    - simpl. rewrite scripted_app. cbn [scripted flat_map]. by rewrite app_nil_r.
    - replace (Z.to_nat (remaining f)) with O by lia. case_match; by rewrite app_nil_r. }
  pose proof (take_fault_scripted (Server.faults s) action) as Ht. unfold decide.
  destruct (scripted action (Server.faults s)) as [|r rest].
  - rewrite Ht. assert (Hs : s = s <| Server.tx_ids := Server.tx_ids s |>) by (by destruct s).
    destruct (if validate_inbound _ then _ else _) as [v|].
    { exists (Server.tx_ids s). eexists. rewrite <- Hs. eauto. }
    destruct (Server.responders s !! action) as [responder|].
    { exists (Server.tx_ids s). eexists. rewrite <- Hs. eauto. }
    destruct (charge_point_actions action) as [Hcp Hfind]. rewrite Hcp.
    destruct (Actions.find action) as [i|]; cbn [is_some_and is_someb negb].
    + destruct (Actions.charge_point_may_send (Actions.direction i)); cbn [negb].
      * destruct (action == Actions.StartTransaction) eqn:Es.
        -- apply (proj1 (eqb_true _ _)) in Es. unfold allocate. destruct (policy (Server.tx_ids s)) eqn:Ep.
           ++ exists (Server.tx_ids s). eexists. unfold default_reply. split_and!; [reflexivity|by left|eauto].
           ++ eexists _, _. unfold default_reply. split_and!; [reflexivity| |eauto].
              right. split_and!; [done|by rewrite <- Ep|done].
        -- exists (Server.tx_ids s). eexists. unfold default_reply. rewrite <- Hs.
           split_and!; [reflexivity|by left|eauto].
      * exists (Server.tx_ids s). eexists. rewrite <- Hs. eauto.
    + exists (Server.tx_ids s). eexists. rewrite <- Hs. eauto.
  - destruct Ht as (faults & -> & Hr & Ho). exists faults. eauto.
Qed.
End server.

(** ** A registry with a station that reconnects *)

#[local] Existing Instance u64_json.
#[local] Existing Instance unit_text.
#[local] Existing Instance CsmsState.sample_wire.
Definition sample_format : CsmsFormat := {| number_from n := n : @Number u64_json; iso _ := [] |}.
#[local] Existing Instance sample_format.
Definition no_errors : Schema.JsonSchema := {| Schema.iter_errors _ _ _ := [] |}.
#[local] Existing Instance no_errors.

Definition sample_registry : list op :=
  [Register (lit "A") (mk_addr [127; 0; 0; 1] 1) None 0;
   Register (lit "A") (mk_addr [127; 0; 0; 1] 2) None 1;
   SessionEnded (lit "A") 1 Replaced 2;
   Register (lit "B") (mk_addr [127; 0; 0; 1] 3) None 3;
   RecordFrame (lit "B") 3 In (Frame.Frame.Call (lit "1") Actions.Heartbeat (Object [])) 4;
   SessionEnded (lit "B") 3 Closed 5].

Lemma registry_follows_events_witness :
  (exists up, follows (Server.events (run default_config sample_registry)) = Some up) /\
  follows (Server.events (run default_config sample_registry)) = Some {[ lit "A" ]}.
Proof.
  split; [|vm_compute; reflexivity].
  destruct (registry_follows_events default_config sample_registry) as ((up & Hup & _) & _); [vm_compute; discriminate|].
  exists up. exact Hup.
Defined.

Lemma registry_bounded_witness :
  server_bounded default_config (run default_config sample_registry) /\
  map (fun p => len (StationRec.history p.2)) (btree_iter (Server.stations (run default_config sample_registry)))
  = [0; 1].
Proof.
  split; [|vm_compute; reflexivity].
  apply (registry_bounded default_config sample_registry). vm_compute.
  split; [discriminate|split; [split; [discriminate|reflexivity]|split; discriminate]].
Defined.
End CsmsServer.
