(* ===== verification/CsmsSession.v ===== *)
(** * CsmsSession: one connection of a station to the CSMS

    The [Session] of [kirby-csms-core/src/server.rs]: its queue of CALLs of the CSMS, of which one
    is outstanding at a time, the answers to the CALLs of the station, and the watchdog. The
    socket is an argument of the operations (what arrives, whether a write succeeds) and a log
    (what was written); instants are nanoseconds of a monotonic clock. *)

From stdpp Require Import strings gmap.
From S2P Require Import Prelude Text F64 Time Types Messages SecurityMessages Frame Actions Schema Utf8.
From S2P Require Import Security CsmsState CsmsConfig CsmsServer.
Local Open Scope Z_scope.

Module CsmsSession.
Import (hints) CsmsServer.
Import CsmsConfig CsmsServer.

(** [tokio_tungstenite] messages the session writes. *)
Inductive Message {J : SerdeJson} : Type :=
| MText (frame : Frame.Frame.t)
| MPing
| MClose (code : Z) (reason : str).

(** What a session does to the outside: it writes to the socket and answers callers. *)
Inductive Entry {J : SerdeJson} : Type :=
| Wrote (m : Message)
| Answer (caller : Z) (r : result Frame.Frame.t CsmsError.t).

Module InFlight.
Record t : Type := mk {
  id : str;
  action : str;
  timeout : Duration;
  deadline : Z;
  reply : Z;
}.
#[export] Instance eta : Eta t := fun r => mk (id r) (action r) (timeout r) (deadline r) (reply
  r).
End InFlight.
Export (hints) InFlight.

Module Session.
Section record.
Context {J : SerdeJson}.
Record t : Type := mk {
  inner : Server.t;
  link_id : Z;
  station : str;
  queue : list QueuedCall.t;
  in_flight : option InFlight.t;
  last_seen : Z;
  ping_sent : option Z;
  log : list Entry;
}.
#[export] Instance eta : Eta t := fun r => mk (inner r) (link_id r) (station r) (queue r)
  (in_flight r) (last_seen r) (ping_sent r) (log r).
End record.
End Session.
Export (hints) Session.

(** [Instant::checked_add] *)
Definition INSTANT_MAX : Z := 2 ^ 63 * NS_PER_SEC - 1.
Definition instant_checked_add (a b : Z) : option Z := if a + b <=? INSTANT_MAX then Some (a + b) else None.

Section session.
Context {J : SerdeJson} {T : JsonText} {W : CsmsState.CsmsWire} {F : CsmsFormat} {V : Schema.JsonSchema}.
Implicit Types (x : Session.t) (now : DateTime) (instant : Z) (ok : bool).

Definition config_of x : CsmsConfig := Server.config (Session.inner x).
Definition note x (e : Entry) : Session.t := x <| Session.log ::= cons e |>.

(** Writes a message; [ok] is whether the write succeeded in time. *)
Definition write x (m : Message) ok : Session.t * option DisconnectReason :=
  if ok then (note x (Wrote m), None) else (x, Some Closed).

(** Records and writes a frame. [Some] means the socket is gone. *)
Definition send x (frame : Frame.Frame.t) now ok : Session.t * option DisconnectReason :=
  let x := x <| Session.inner ::= fun s =>
             record_frame s (Session.station x) (Session.link_id x) Out frame now |> in
  write x (MText frame) ok.

Definition close_session x (code : Z) (reason : str) ok : Session.t := (write x (MClose code reason) ok).1.

(** When the watchdog next acts. *)
Definition watchdog_deadline x : option Z :=
  if ping_interval (config_of x) =? 0 then None
  else match Session.ping_sent x with
       | Some sent => instant_checked_add sent (pong_timeout (config_of x))
       | None => instant_checked_add (Session.last_seen x) (ping_interval (config_of x))
       end.

Definition watchdog_fired x instant ok : Session.t * option DisconnectReason :=
  if is_someb (Session.ping_sent x) then (x, Some PingTimeout)
  else match write x MPing ok with
       | (x, None) => (x <| Session.ping_sent := Some instant |>, None)
       | ended => ended
       end.

(** Writes the next queued CALL if none is outstanding; [gone] tells the callers that gave up. *)
Fixpoint pump_queue (gone : Z -> bool) x (queue : list QueuedCall.t) instant now ok
  : Session.t * option DisconnectReason :=
  match queue with
  | [] => (x <| Session.queue := [] |>, None)
  | call :: rest =>
      if gone (QueuedCall.reply call) then pump_queue gone x rest instant now ok
      else
        let '(s, id) := next_message_id (Session.inner x) in
        let x := x <| Session.inner := s |> <| Session.queue := rest |> in
        match send x (Frame.Frame.Call id (QueuedCall.action call) (QueuedCall.payload call)) now ok with
        | (x, Some reason) => (x, Some reason)
        | (x, None) =>
            (x <| Session.in_flight := Some {|
                 InFlight.id := id;
                 InFlight.action := QueuedCall.action call;
                 InFlight.timeout := QueuedCall.timeout call;
                 InFlight.deadline := default (instant + MAX_CALL_TIMEOUT)
                   (instant_checked_add instant (QueuedCall.timeout call));
                 InFlight.reply := QueuedCall.reply call |} |>, None)
        end
  end.
Definition pump (gone : Z -> bool) x instant now ok : Session.t * option DisconnectReason :=
  if is_someb (Session.in_flight x) then (x, None) else pump_queue gone x (Session.queue x) instant now ok.

Definition expire_in_flight x : Session.t :=
  match Session.in_flight x with
  | None => x
  | Some flight =>
      note (x <| Session.in_flight := None |>)
        (Answer (InFlight.reply flight)
           (Err (CsmsError.Timeout (Session.station x) (InFlight.action flight) (InFlight.timeout flight))))
  end.

(** The answer to a CALL of the station. *)
Definition on_call x (id action : str) (payload : json) now ok : Session.t * option DisconnectReason :=
  let '(s, r) := decide (Session.inner x) action payload now in
  let x := x <| Session.inner := track s (Session.station x) (Session.link_id x) action payload r now |> in
  match r with
  | ReplyResult answer => send x (Frame.Frame.CallResult id answer) now ok
  | ReplyError code description => send x (Frame.Frame.call_error id code description) now ok
  | Silence => (x, None)
  | Close => (close_session x CLOSE_CODE_ERROR (lit "injected close") ok, Some Injected)
  end.

(** An answer of the station: to the outstanding CALL, or to nobody. *)
Definition on_answer x (frame : Frame.Frame.t) : Session.t :=
  match Session.in_flight x with
  | Some flight =>
      if InFlight.id flight == Frame.Frame.id frame
      then note (x <| Session.in_flight := None |>) (Answer (InFlight.reply flight) (Ok frame))
      else x
  | None => x
  end.

Definition on_text x (text : str) now ok : Session.t * option DisconnectReason :=
  match Frame.Frame.parse text with
  | Err error =>
      let x := x <| Session.inner ::= fun s =>
        emit s (CsmsEvent.Malformed (Session.station x) (take (Z.to_nat MALFORMED_TEXT_CHARS) text)) |> in
      match Frame.Frame.reply error with
      | Some answer => send x answer now ok
      | None => (x, None)
      end
  | Ok frame =>
      let x := x <| Session.inner ::= fun s =>
        record_frame s (Session.station x) (Session.link_id x) In frame now |> in
      match frame with
      | Frame.Frame.Call id action payload => on_call x id action payload now ok
      | _ => (on_answer x frame, None)
      end
  end.

(** What the socket yields. *)
Inductive Inbound : Type :=
| InText (text : str)
| InOther
| InClose
| InFailed
| InEnd.

(** What [select!] of [run] wakes up for. *)
Inductive Wake : Type :=
| Stop
| Socket (m : Inbound)
| Watchdog
| Cmd (command : option SessionCmd)
| Deadline.

Definition handle x (w : Wake) instant now ok : Session.t * option DisconnectReason :=
  match w with
  | Stop => (close_session x 1001 (lit "server shutting down") ok, Some Shutdown)
  | Socket m =>
      let seen := x <| Session.last_seen := instant |> <| Session.ping_sent := None |> in
      match m with
      | InText text => on_text seen text now ok
      | InOther => (seen, None)
      | InClose => (seen, Some Closed)
      | InFailed | InEnd => (x, Some Closed)
      end
  | Watchdog => watchdog_fired x instant ok
  | Cmd (Some (CmdCall call)) => (x <| Session.queue ::= fun q => q ++ [call] |>, None)
  | Cmd (Some (CmdClose code reason)) => (close_session x code reason ok, Some Closed)
  | Cmd None => (x, Some Closed)
  | Deadline => (expire_in_flight x, None)
  end.

(** The [EndGuard]: the session ends in the registry. *)
Definition ended x (reason : DisconnectReason) now : Session.t :=
  x <| Session.inner ::= fun s => session_ended s (Session.station x) (Session.link_id x) reason now |>.

(** One turn of the loop. What a turn depends on: the callers that gave up, the time, whether its
    two writes succeed, and what the rest of the server did to the registry before. *)
Record turn : Type := mk_turn {
  gone : Z -> bool;
  pumped_at : Z;
  pump_ok : bool;
  wake : Wake;
  woken_at : Z;
  clock : DateTime;
  write_ok : bool;
  meanwhile : list CsmsServer.op;
}.
Definition iterate x (t : turn) : Session.t * option DisconnectReason :=
  let x := x <| Session.inner ::= fun s => fold_left CsmsServer.step (meanwhile t) s |> in
  match pump (gone t) x (pumped_at t) (clock t) (pump_ok t) with
  | (x, Some reason) => (ended x reason (clock t), Some reason)
  | (x, None) =>
      match handle x (wake t) (woken_at t) (clock t) (write_ok t) with
      | (x, Some reason) => (ended x reason (clock t), Some reason)
      | (x, None) => (x, None)
      end
  end.
Fixpoint run_session x (l : list turn) : Session.t * option DisconnectReason :=
  match l with
  | [] => (x, None)
  | t :: l =>
      match iterate x t with
      | (x, None) => run_session x l
      | ended => ended
      end
  end.

Definition new_session (s : Server.t) (station : str) (link_id instant : Z) : Session.t :=
  Session.mk s link_id station [] None instant None [].

(** ** One CALL at a time *)

Definition is_call (f : Frame.Frame.t) : bool :=
  match f with Frame.Frame.Call _ _ _ => true | _ => false end.

(** The ids of the CALLs written, newest first; the CALLs that were queued, in order. *)
Definition call_ids (log : list Entry) : list str :=
  omap (fun e => match e with Wrote (MText (Frame.Frame.Call id _ _)) => Some id | _ => None end) log.
Definition submitted (l : list turn) : list QueuedCall.t :=
  omap (fun t => match wake t with Cmd (Some (CmdCall call)) => Some call | _ => None end) l.
Lemma submitted_cons t l :
  submitted (t :: l) = match wake t with Cmd (Some (CmdCall call)) => [call] | _ => [] end ++ submitted l.
Proof. unfold submitted. simpl. by destruct (wake t) as [| | |[[]|]|]. Qed.

Definition plain (m : Message) : bool :=
  match m with MText f => negb (is_call f) | _ => true end.

(** The conversation on a connection of [station]: what was written and answered (newest first),
    the CALLs it served so far, and the one that is outstanding with its id. A CALL is written
    only while none is outstanding, with an id of its own and the action and payload that were
    queued; its caller, and nobody else, gets an answer with that id or its timeout. *)
Inductive conversation (station : str)
  : list QueuedCall.t -> option (str * QueuedCall.t) -> list Entry -> Prop :=
| talk_start : conversation station [] None []
| talk_call served call id log :
    conversation station served None log -> id ∉ call_ids log ->
    conversation station (served ++ [call]) (Some (id, call))
      (Wrote (MText (Frame.Frame.Call id (QueuedCall.action call) (QueuedCall.payload call))) :: log)
| talk_other served o m log :
    conversation station served o log -> plain m = true ->
    conversation station served o (Wrote m :: log)
| talk_answer served id call frame log :
    conversation station served (Some (id, call)) log ->
    is_call frame = false -> Frame.Frame.id frame = id ->
    conversation station served None (Answer (QueuedCall.reply call) (Ok frame) :: log)
| talk_timeout served id call log :
    conversation station served (Some (id, call)) log ->
    conversation station served None
      (Answer (QueuedCall.reply call)
         (Err (CsmsError.Timeout station (QueuedCall.action call) (QueuedCall.timeout call))) :: log).

(** What the session keeps of the outstanding CALL. *)
Definition carries (flight : option InFlight.t) (o : option (str * QueuedCall.t)) : Prop :=
  match flight, o with
  | None, None => True
  | Some flight, Some (id, call) =>
      InFlight.id flight = id /\ InFlight.action flight = QueuedCall.action call /\
      InFlight.timeout flight = QueuedCall.timeout call /\ InFlight.reply flight = QueuedCall.reply call
  | _, _ => False
  end.

(** Where an answer to a caller comes from: a frame that arrived, or a deadline. *)
Definition comes_from (l : list turn) (e : Entry) : Prop :=
  match e with
  | Answer _ (Ok frame) => exists t text,
      t ∈ l /\ wake t = Socket (InText text) /\ Frame.Frame.parse text = Ok frame
  | Answer _ (Err _) => exists t, t ∈ l /\ wake t = Deadline
  | Wrote _ => True
  end.
(** Why a CALL was never written: its caller gave up, or the socket was gone. *)
Definition excused_in (l : list turn) (call : QueuedCall.t) : Prop :=
  exists t, t ∈ l /\ (gone t (QueuedCall.reply call) = true \/ pump_ok t = false).

Definition message_id (k : Z) : str := lit "csms-" ++ to_string k.
Lemma message_id_inj j k : 0 <= j -> 0 <= k -> message_id j = message_id k -> j = k.
Proof.
  intros Hj Hk Heq. unfold message_id in Heq. apply app_inv_head in Heq.
  pose proof (digits_value_to_string j Hj) as H. rewrite Heq, digits_value_to_string in H by done. congruence.
Qed.

Section calls.
Variables (from : str) (excused : QueuedCall.t -> Prop) (heard : Entry -> Prop).
Hypothesis heard_wrote : forall m, heard (Wrote m).

(** Of the CALLs that came: those served, those that wait, those that were passed over. *)
Record serving (came : list QueuedCall.t) x served (passed : list QueuedCall.t) o : Prop := {
  talks : conversation from served o (Session.log x);
  keeps : carries (Session.in_flight x) o;
  fifo : sublist (served ++ Session.queue x) came;
  nobody_lost : served ++ Session.queue x ++ passed ≡ₚ came;
  with_excuse : Forall excused passed;
}.
Record calls_ok (came : list QueuedCall.t) (next : Z) x : Prop := {
  same_station : Session.station x = from;
  serves : exists served passed o, serving came x served passed o;
  ids_unique : NoDup (call_ids (Session.log x));
  ids_drawn id : id ∈ call_ids (Session.log x) -> exists k, id = message_id k /\ 0 <= k <= next;
  all_heard : Forall heard (Session.log x);
}.

(** Changes of the rest of the session. *)
Lemma calls_same came next x x' :
  Session.log x' = Session.log x -> Session.in_flight x' = Session.in_flight x ->
  Session.queue x' = Session.queue x -> Session.station x' = Session.station x ->
  calls_ok came next x -> calls_ok came next x'.
Proof.
  intros Hl Hf Hq Hst [Hs (served & passed & o & [H1 H2 H3 H4 H5]) Hu Hd Ha].
  split; rewrite ?Hl, ?Hst; try done. exists served, passed, o. by split; rewrite ?Hl, ?Hf, ?Hq.
Qed.
Lemma calls_weaken came next next' x :
  next <= next' -> calls_ok came next x -> calls_ok came next' x.
Proof.
  intros Hn [Hs Hf Hu Hd Ha]. split; [done..| |done].
  intros id (k & -> & Hk)%Hd. exists k. split; [done|lia].
Qed.

(** An entry that is not a CALL. *)
Lemma calls_note came next x e :
  call_ids (e :: Session.log x) = call_ids (Session.log x) -> heard e ->
  (forall served o, conversation from served o (Session.log x) ->
     carries (Session.in_flight x) o -> conversation from served o (e :: Session.log x)) ->
  calls_ok came next x -> calls_ok came next (note x e).
Proof.
  intros Hids He Ht [Hs (served & passed & o & [H1 H2 H3 H4 H5]) Hu Hd Ha].
  split; try done.
  - exists served, passed, o. split; try done. by apply Ht.
  - change (NoDup (call_ids (e :: Session.log x))). by rewrite Hids.
  - change (forall id, id ∈ call_ids (e :: Session.log x) -> exists k, id = message_id k /\ 0 <= k <= next).
    by rewrite Hids.
  - by constructor.
Qed.
Lemma calls_write came next x m ok :
  plain m = true -> calls_ok came next x -> calls_ok came next (write x m ok).1.
Proof.
  intros Hm Hx. unfold write. destruct ok; [|done]. apply calls_note; try done.
  - by destruct m as [[]| |].
  - intros served o Ho _. by constructor.
Qed.
Lemma calls_send came next x frame now ok :
  is_call frame = false -> calls_ok came next x -> calls_ok came next (send x frame now ok).1.
Proof.
  intros Hf Hx. unfold send. apply calls_write; [by simpl; rewrite Hf|]. by apply (calls_same _ _ x).
Qed.

(** The outstanding CALL is settled. *)
Lemma calls_settle came next x flight r :
  Session.in_flight x = Some flight -> heard (Answer (InFlight.reply flight) r) ->
  match r with
  | Ok frame => is_call frame = false /\ Frame.Frame.id frame = InFlight.id flight
  | Err e => e = CsmsError.Timeout (Session.station x) (InFlight.action flight) (InFlight.timeout flight)
  end ->
  calls_ok came next x ->
  calls_ok came next (note (x <| Session.in_flight := None |>) (Answer (InFlight.reply flight) r)).
Proof.
  intros Hfl He Hr [Hs (served & passed & o & [H1 H2 H3 H4 H5]) Hu Hd Ha].
  split; try done; [|by constructor]. exists served, passed, None. split; try done.
  rewrite Hfl in H2. destruct o as [[id call]|]; [|done]. destruct H2 as (Hid & Hact & Htime & ->).
  change (conversation from served None (Answer (QueuedCall.reply call) r :: Session.log x)).
  destruct r as [frame|e].
  - destruct Hr as [Hc Hf]. by apply (talk_answer _ _ id); rewrite ?Hf.
  - subst e. rewrite Hs, Hact, Htime. by apply (talk_timeout _ _ id).
Qed.
Lemma calls_expire came next x :
  (forall caller e, heard (Answer caller (Err e))) ->
  calls_ok came next x -> calls_ok came next (expire_in_flight x).
Proof.
  intros He Hx. unfold expire_in_flight. destruct (Session.in_flight x) as [flight|] eqn:Hfl; [|done].
  by apply calls_settle.
Qed.
Lemma calls_on_answer came next x frame :
  (forall caller, heard (Answer caller (Ok frame))) ->
  is_call frame = false -> calls_ok came next x -> calls_ok came next (on_answer x frame).
Proof.
  intros He Hc Hx. unfold on_answer. destruct (Session.in_flight x) as [flight|] eqn:Hfl; [|done].
  destruct (InFlight.id flight == Frame.Frame.id frame) eqn:E; [|done].
  apply (proj1 (eqb_true _ _)) in E. by apply calls_settle.
Qed.

Lemma calls_on_text came next x text now ok :
  (forall frame caller, Frame.Frame.parse text = Ok frame -> heard (Answer caller (Ok frame))) ->
  calls_ok came next x -> calls_ok came next (on_text x text now ok).1.
Proof.
  intros He Hx. unfold on_text. destruct (Frame.Frame.parse text) as [frame|error].
  - set (x1 := over _ _ _). assert (Hx1 : calls_ok came next x1) by (by apply (calls_same _ _ x)).
    clearbody x1. destruct frame as [id action payload|id payload|id code description details].
    + unfold on_call. destruct (decide (Session.inner x1) action payload now) as [s r].
      set (x2 := over _ _ _). assert (Hx2 : calls_ok came next x2) by (by apply (calls_same _ _ x1)).
      clearbody x2. destruct r; cbn [fst]; [by apply calls_send|by apply calls_send|done|].
      by apply calls_write.
    + apply calls_on_answer; auto.
    + apply calls_on_answer; auto.
  - set (x1 := over _ _ _). assert (Hx1 : calls_ok came next x1) by (by apply (calls_same _ _ x)).
    clearbody x1. destruct (Frame.Frame.reply error) as [answer|] eqn:Hr; [|done].
    apply calls_send; [|done]. unfold Frame.Frame.reply in Hr. repeat case_match; by simplify_eq.
Qed.
End calls.

(** ** The ids the server hands out *)

Definition draws (o : CsmsServer.op) : Z := match o with MessageId => 1 | _ => 0 end.
Definition drawn (t : turn) : Z := fold_right (fun o n => draws o + n) 1 (meanwhile t).
Lemma drawn_pos t : 1 <= drawn t.
Proof. unfold drawn. induction (meanwhile t) as [|o l IH]; simpl; [lia|]. destruct o; simpl; lia. Qed.

Lemma next_message_record_frame s station link direction frame now :
  Server.next_message (record_frame s station link direction frame now) = Server.next_message s.
Proof. unfold record_frame. by repeat case_match. Qed.
Lemma next_message_track s station link action request r now :
  Server.next_message (track s station link action request r now) = Server.next_message s.
Proof. unfold track. by repeat case_match. Qed.
Lemma next_message_decide s action payload now :
  Server.next_message (decide s action payload now).1 = Server.next_message s.
Proof. unfold decide. by repeat case_match; simplify_eq. Qed.
Lemma next_message_session_ended s station link reason now :
  Server.next_message (session_ended s station link reason now) = Server.next_message s.
Proof. unfold session_ended. by repeat case_match. Qed.
Lemma next_message_finish_shutdown s now :
  Server.next_message (finish_shutdown s now) = Server.next_message s.
Proof.
  unfold finish_shutdown. generalize (map fst (btree_iter (Server.stations s))). intros l. revert s.
  induction l as [|id l IH]; intros s; simpl; [done|]. rewrite IH. unfold abort_session. by repeat case_match.
Qed.
Lemma next_message_settle_call s station action payload answer now :
  Server.next_message (settle_call s station action payload answer now).1 = Server.next_message s.
Proof.
  unfold settle_call, track_result, note_failed_call. cbn [fst]. by repeat case_match.
Qed.

Lemma next_message_step s o :
  0 <= Server.next_message s -> Server.next_message s + draws o <= u64_max ->
  Server.next_message (CsmsServer.step s o) = Server.next_message s + draws o.
Proof.
  intros Hn Hd. destruct o; cbn [CsmsServer.step draws] in *; rewrite ?Z.add_0_r; try done.
  - unfold register. by repeat case_match.
  - apply next_message_session_ended.
  - apply next_message_record_frame.
  - apply next_message_track.
  - apply next_message_settle_call.
  - apply next_message_decide.
  - unfold submit. by repeat case_match.
  - unfold forget. by repeat case_match.
  - unfold inject. by case_match.
  - simpl. unfold u64_wrapping_add. apply Z.mod_small. lia.
  - apply next_message_finish_shutdown.
Qed.
Lemma next_message_steps l s :
  0 <= Server.next_message s -> Server.next_message s + fold_right (fun o n => draws o + n) 0 l <= u64_max ->
  Server.next_message (fold_left CsmsServer.step l s)
  = Server.next_message s + fold_right (fun o n => draws o + n) 0 l.
Proof.
  assert (Hp : forall l, 0 <= fold_right (fun o n => draws o + n) 0 l)
    by (induction l0 as [|o l0 IH]; simpl; [lia|]; destruct o; simpl; lia).
  revert s. induction l as [|o l IH]; intros s Hn Hl; simpl in *; [lia|]. pose proof (Hp l).
  assert (0 <= draws o) by (destruct o; simpl; lia).
  rewrite IH; rewrite next_message_step; lia.
Qed.

(** The number of the last id after an operation of the session. *)
Lemma next_message_send x frame now ok :
  Server.next_message (Session.inner (send x frame now ok).1) = Server.next_message (Session.inner x).
Proof. unfold send, write. destruct ok; simpl; apply next_message_record_frame. Qed.
Lemma next_message_write x m ok :
  Server.next_message (Session.inner (write x m ok).1) = Server.next_message (Session.inner x).
Proof. unfold write. by destruct ok. Qed.
Lemma next_message_handle x w instant now ok :
  Server.next_message (Session.inner (handle x w instant now ok).1) = Server.next_message (Session.inner x).
Proof.
  destruct w as [|m| |[[call|code reason]|]|]; cbn [handle fst]; try done.
  - unfold close_session, write. by destruct ok.
  - destruct m; try done. unfold on_text. destruct (Frame.Frame.parse text) as [frame|error].
    + destruct frame as [id action payload|id payload|id code description details].
      * unfold on_call.
        destruct (decide _ action payload now) as [s r] eqn:Hd. apply (f_equal fst) in Hd. cbn [fst] in Hd.
        assert (Hs : Server.next_message s = Server.next_message (Session.inner x)).
        { rewrite <- Hd, next_message_decide. simpl. apply next_message_record_frame. }
        set (x1 := over _ _ _).
        assert (H1 : Server.next_message (Session.inner x1) = Server.next_message (Session.inner x)).
        { unfold x1. cbn [Session.inner over]. change (Server.next_message (track s (Session.station x) (Session.link_id x) action payload r now) = Server.next_message (Session.inner x)).
          by rewrite next_message_track. }
        clearbody x1.
        destruct r; cbn [fst]; rewrite ?next_message_send; try done.
        unfold close_session. by rewrite next_message_write.
      * unfold on_answer. repeat case_match; simpl; by rewrite next_message_record_frame.
      * unfold on_answer. repeat case_match; simpl; by rewrite next_message_record_frame.
    + destruct (Frame.Frame.reply error); cbn [fst]; [by rewrite next_message_send|done].
  - unfold watchdog_fired, write. destruct (is_someb _); [done|]. by destruct ok.
  - unfold close_session, write. by destruct ok.
  - unfold expire_in_flight. by case_match.
Qed.

(** A CALL is written with the next id. *)
Definition flight_of (call : QueuedCall.t) (id : str) instant : InFlight.t :=
  InFlight.mk id (QueuedCall.action call) (QueuedCall.timeout call)
    (default (instant + MAX_CALL_TIMEOUT) (instant_checked_add instant (QueuedCall.timeout call)))
    (QueuedCall.reply call).

Section pumping.
Variables (from : str) (excused : QueuedCall.t -> Prop) (heard : Entry -> Prop).
Hypothesis heard_wrote : forall m, heard (Wrote m).
#[local] Abbreviation calls_ok := (calls_ok from excused heard).

Lemma move_passed (served over rest passed : list QueuedCall.t) call :
  (served ++ [call]) ++ rest ++ over ++ passed ≡ₚ served ++ (over ++ call :: rest) ++ passed.
Proof.
  rewrite <- !app_assoc. apply Permutation_app_head. simpl. rewrite <- Permutation_middle.
  constructor. rewrite !app_assoc. apply Permutation_app_tail, Permutation_app_comm.
Qed.

(** The queue is passed over up to a call, which is written or lost. *)
Lemma calls_start came next x x' over call rest instant :
  Session.in_flight x = None -> Session.queue x = over ++ call :: rest -> Forall excused over ->
  calls_ok came next x -> 0 <= next ->
  Session.log x' = Wrote (MText (Frame.Frame.Call (message_id (next + 1)) (QueuedCall.action call)
                                   (QueuedCall.payload call))) :: Session.log x ->
  Session.in_flight x' = Some (flight_of call (message_id (next + 1)) instant) ->
  Session.queue x' = rest -> Session.station x' = Session.station x ->
  calls_ok came (next + 1) x'.
Proof.
  intros Hfl Hq Hover [Hs (served & passed & o & [H1 H2 H3 H4 H5]) Hu Hd Ha] Hn Hl Hf' Hq' Hst.
  rewrite Hfl in H2. destruct o as [[]|]; [done|].
  assert (Hnew : message_id (next + 1) ∉ call_ids (Session.log x)).
  { intros (k & Heq & Hk)%Hd. apply message_id_inj in Heq; lia. }
  split; rewrite ?Hl, ?Hst; [done| | | |by constructor].
  - exists (served ++ [call]), (over ++ passed), (Some (message_id (next + 1), call)).
    split; rewrite ?Hl, ?Hf', ?Hq'.
    + by constructor.
    + done.
    + etrans; [|exact H3]. rewrite Hq, <- app_assoc. apply sublist_app; [done|].
      by apply sublist_inserts_l.
    + by rewrite move_passed, <- Hq.
    + by apply Forall_app.
  - cbn [call_ids omap list_omap]. by constructor.
  - cbn [call_ids omap list_omap]. intros id [->|(k & -> & Hk)%Hd]%elem_of_cons.
    + exists (next + 1). split; [done|lia].
    + exists k. split; [done|lia].
Qed.
Lemma calls_lost came next next' x x' over rest :
  Session.queue x = over ++ rest -> Forall excused over -> calls_ok came next x -> next <= next' ->
  Session.log x' = Session.log x -> Session.in_flight x' = Session.in_flight x ->
  Session.queue x' = rest -> Session.station x' = Session.station x ->
  calls_ok came next' x'.
Proof.
  intros Hq Hover [Hs (served & passed & o & [H1 H2 H3 H4 H5]) Hu Hd Ha] Hn Hl Hf' Hq' Hst.
  split; rewrite ?Hl, ?Hst; try done.
  - exists served, (over ++ passed), o. split; rewrite ?Hl, ?Hf', ?Hq'; try done.
    + etrans; [|exact H3]. rewrite Hq. apply sublist_app; [done|]. by apply sublist_inserts_l.
    + rewrite <- H4, Hq. apply Permutation_app_head. rewrite !app_assoc.
      apply Permutation_app_tail, Permutation_app_comm.
    + by apply Forall_app.
  - intros id (k & -> & Hk)%Hd. exists k. split; [done|lia].
Qed.

Lemma calls_pump_queue gone came next x over queue instant now ok :
  (forall c, gone (QueuedCall.reply c) = true -> excused c) -> (ok = false -> forall c, excused c) ->
  Session.in_flight x = None -> Session.queue x = over ++ queue -> Forall excused over ->
  Server.next_message (Session.inner x) = next -> 0 <= next < u64_max -> calls_ok came next x ->
  let y := (pump_queue gone x queue instant now ok).1 in
  calls_ok came (Server.next_message (Session.inner y)) y /\
  next <= Server.next_message (Session.inner y) <= next + 1.
Proof.
  intros Hgone Hfail Hfl Hq Hover Hn Hb Hx. revert over Hq Hover.
  induction queue as [|call rest IH]; intros over Hq Hover.
  - simpl. rewrite Hn. split; [|lia]. by apply (calls_lost came next next x _ over []).
  - cbn [pump_queue]. destruct (gone (QueuedCall.reply call)) eqn:Hg.
    { apply (IH (over ++ [call])); [by rewrite <- app_assoc|].
      apply Forall_app. split; [done|]. constructor; [by apply Hgone|done]. }
    unfold next_message_id. rewrite Hn.
    assert (Hw : u64_wrapping_add next 1 = next + 1) by (unfold u64_wrapping_add; rewrite Z.mod_small; lia).
    rewrite Hw. fold (message_id (next + 1)).
    set (frame := Frame.Frame.Call _ _ _). set (x1 := _ <| Session.queue := rest |>).
    pose proof (next_message_send x1 frame now ok) as Hm.
    replace (Server.next_message (Session.inner x1)) with (next + 1) in Hm by (simpl; rewrite Hn, Hw; done).
    match goal with |- calls_ok _ _ ?Y /\ _ => set (y := Y) end.
    assert (Hy : Server.next_message (Session.inner y) = next + 1)
      by (unfold y, send, write in *; destruct ok; exact Hm).
    rewrite Hy. split; [|lia]. clear Hy Hm. unfold y, send, write. destruct ok; cbn [fst].
    + apply (calls_start came next x _ over call rest instant); try done. lia.
    + apply (calls_lost came next (next + 1) x _ (over ++ [call]) rest); try done; [| |lia].
      * by rewrite <- app_assoc.
      * apply Forall_app. split; [done|]. constructor; [by apply Hfail|done].
Qed.
Lemma calls_pump gone came next x instant now ok :
  (forall c, gone (QueuedCall.reply c) = true -> excused c) -> (ok = false -> forall c, excused c) ->
  Server.next_message (Session.inner x) = next -> 0 <= next < u64_max -> calls_ok came next x ->
  let y := (pump gone x instant now ok).1 in
  calls_ok came (Server.next_message (Session.inner y)) y /\
  next <= Server.next_message (Session.inner y) <= next + 1.
Proof.
  intros Hgone Hfail Hn Hb Hx. unfold pump. destruct (Session.in_flight x) eqn:Hfl; simpl.
  - rewrite Hn. split; [done|lia].
  - by apply (calls_pump_queue gone came next x []).
Qed.

(** What a wake adds to the queue, and what answers it may bring. *)
Definition queued_by (w : Wake) : list QueuedCall.t :=
  match w with Cmd (Some (CmdCall call)) => [call] | _ => [] end.
Definition heard_at (w : Wake) : Prop :=
  match w with
  | Socket (InText text) => forall frame caller,
      Frame.Frame.parse text = Ok frame -> heard (Answer caller (Ok frame))
  | Deadline => forall caller e, heard (Answer caller (Err e))
  | _ => True
  end.

Lemma calls_handle came next x w instant now ok :
  heard_at w -> calls_ok came next x -> calls_ok (came ++ queued_by w) next (handle x w instant now ok).1.
Proof.
  intros He Hx. destruct w as [|m| |[[call|code reason]|]|]; cbn [handle fst queued_by];
    rewrite ?app_nil_r; try done.
  - by apply calls_write.
  - assert (Hs : calls_ok came next (x <| Session.last_seen := instant |> <| Session.ping_sent := None |>))
      by (by apply (calls_same _ _ _ _ _ x)).
    destruct m; try done. by apply calls_on_text.
  - unfold watchdog_fired. destruct (is_someb _); [done|].
    pose proof (calls_write _ _ _ heard_wrote came next x MPing ok eq_refl Hx) as Hp.
    destruct (write x MPing ok) as [x' [reason|]]; cbn [fst] in *; [done|]. by apply (calls_same _ _ _ _ _ x').
  - destruct Hx as [Hs (served & passed & o & [H1 H2 H3 H4 H5]) Hu Hd Ha]. split; try done.
    exists served, passed, o. split; try done; cbn [Session.queue over]; simpl.
    + rewrite app_assoc. by apply sublist_app.
    + rewrite <- H4, <- !app_assoc. do 2 apply Permutation_app_head. apply Permutation_app_comm.
  - by apply calls_write.
  - by apply calls_expire.
Qed.
End pumping.

Definition drawn_all (l : list turn) : Z := fold_right (fun t n => drawn t + n) 0 l.

Lemma drawn_sum t : drawn t = fold_right (fun o n => draws o + n) 0 (meanwhile t) + 1.
Proof.
  unfold drawn. induction (meanwhile t) as [|o m IH]; [done|]. cbn [fold_right]. rewrite IH. lia.
Qed.
Lemma drawn_all_nonneg l : 0 <= drawn_all l.
Proof.
  induction l as [|t l IH]; [done|]. change (drawn_all (t :: l)) with (drawn t + drawn_all l).
  pose proof (drawn_pos t). lia.
Qed.

(** The session after what the rest of the server did, and after the pump. *)
Lemma calls_pumped from excused heard came next x t :
  (forall m, heard (Wrote m)) -> (forall c, gone t (QueuedCall.reply c) = true -> excused c) ->
  (pump_ok t = false -> forall c, excused c) ->
  calls_ok from excused heard came next x -> Server.next_message (Session.inner x) = next ->
  0 <= next -> next + drawn t <= u64_max ->
  let x1 := x <| Session.inner ::= fun s => fold_left CsmsServer.step (meanwhile t) s |> in
  let y := (pump (gone t) x1 (pumped_at t) (clock t) (pump_ok t)).1 in
  let n := Server.next_message (Session.inner y) in
  calls_ok from excused heard came n y /\ next <= n <= next + drawn t.
Proof.
  intros Hw Hgone Hfail Hx Hn H0 Hl. cbv zeta. set (x1 := over _ _ x).
  pose proof (drawn_sum t) as Hsum. pose proof (drawn_pos t) as Hpos.
  set (k := fold_right _ 0 (meanwhile t)) in *.
  assert (Hn1 : Server.next_message (Session.inner x1) = next + k).
  { unfold x1. simpl. rewrite <- Hn. apply next_message_steps; fold k; lia. }
  assert (Hx1 : calls_ok from excused heard came (next + k) x1).
  { apply (calls_weaken _ _ _ _ next); [lia|]. by apply (calls_same _ _ _ _ _ x). }
  destruct (calls_pump from excused heard Hw (gone t) came (next + k) x1 (pumped_at t) (clock t)
    (pump_ok t) Hgone Hfail Hn1 ltac:(lia) Hx1) as [H1 H2]. split; [exact H1|lia].
Qed.

Lemma calls_run from excused heard came next x l :
  (forall m, heard (Wrote m)) ->
  (forall t, t ∈ l -> heard_at heard (wake t) /\
     (forall c, gone t (QueuedCall.reply c) = true -> excused c) /\
     (pump_ok t = false -> forall c, excused c)) ->
  calls_ok from excused heard came next x -> Server.next_message (Session.inner x) = next -> 0 <= next ->
  next + drawn_all l <= u64_max ->
  let '(y, reason) := run_session x l in
  exists came' next', sublist came' (submitted l) /\ (reason = None -> came' = submitted l) /\
    calls_ok from excused heard (came ++ came') next' y.
Proof.
  intros Hw. revert came next x. induction l as [|t l IH]; intros came next x Ht Hx Hn H0 Hl.
  { simpl. exists [], next. by rewrite app_nil_r. }
  cbn [run_session drawn_all fold_right] in *. fold (drawn_all l) in Hl. unfold iterate.
  pose proof (drawn_all_nonneg l) as Hd.
  destruct (Ht t ltac:(by left)) as (Hh & Hgone & Hfail).
  pose proof (calls_pumped from excused heard came next x t Hw Hgone Hfail Hx Hn H0 ltac:(lia)) as Hp.
  assert (Hend : forall came m y why, calls_ok from excused heard came m y ->
            calls_ok from excused heard came m (ended y why (clock t)))
    by (intros c m y why Hy; by apply (calls_same _ _ _ _ _ y)).
  cbv zeta in Hp. destruct (pump _ _ _ _ _) as [x2 [reason|]]; cbn [fst] in Hp; destruct Hp as [Hx2 Hn2].
  { exists [], (Server.next_message (Session.inner x2)). rewrite app_nil_r.
    split_and!; [apply sublist_nil_l|done|by apply Hend]. }
  pose proof (calls_handle from excused heard Hw came _ x2 (wake t) (woken_at t) (clock t) (write_ok t) Hh Hx2) as Hx3.
  pose proof (next_message_handle x2 (wake t) (woken_at t) (clock t) (write_ok t)) as Hn3.
  assert (Hsub : submitted (t :: l) = queued_by (wake t) ++ submitted l) by apply submitted_cons.
  rewrite Hsub. destruct (handle _ _ _ _ _) as [x3 [reason|]]; cbn [fst] in *.
  { exists (queued_by (wake t)), (Server.next_message (Session.inner x2)).
    split_and!; [by apply sublist_inserts_r|done|by apply Hend]. }
  rewrite <- Hn3 in Hx3, Hn2.
  specialize (IH _ _ x3 (fun t' H => Ht t' ltac:(by right)) Hx3 eq_refl ltac:(lia) ltac:(lia)).
  destruct (run_session x3 l) as [y reason]. destruct IH as (came' & next' & H1 & H2 & H3).
  exists (queued_by (wake t) ++ came'), next'. rewrite <- app_assoc in H3.
  split_and!; [by apply sublist_app|intros Hr; by rewrite H2|done].
Qed.

(** An answer to the outstanding CALL reaches its caller in the turn it arrives. *)
Lemma answer_delivered x t flight text frame :
  Session.in_flight x = Some flight -> wake t = Socket (InText text) ->
  Frame.Frame.parse text = Ok frame -> is_call frame = false -> Frame.Frame.id frame = InFlight.id flight ->
  let '(y, reason) := iterate x t in
  reason = None /\ Session.in_flight y = None /\
  Session.log y = Answer (InFlight.reply flight) (Ok frame) :: Session.log x.
Proof.
  intros Hfl Hwk Hp Hc Hid. unfold iterate, pump. set (x1 := over _ _ x).
  change (Session.in_flight x1) with (Session.in_flight x). rewrite Hfl, Hwk. simpl.
  unfold on_text. rewrite Hp. destruct frame as [id action payload|id payload|id code description details]; [done|..];
    simpl in Hid; unfold on_answer; simpl; rewrite Hfl; simpl; rewrite Hid, eqb_refl; done.
Qed.

(** Claim C3: one CALL at a time, and every answer to its own. Whatever arrives on the connection
    of a station, whenever the callers queue CALLs or give up, writes fail and timeouts expire,
    and whatever happens to the rest of the server meanwhile: a CALL is written only while none is
    outstanding, with the action and payload that were queued and an id that is used once; its
    caller gets the frame that arrived with that id, or at its deadline the timeout of this CALL,
    and nobody else gets either. The callers are served in the order they came, each once, and one
    is passed over only if it gave up or the connection is lost; the others wait in the queue.
    The frame that answers the outstanding CALL reaches its caller in the turn it arrives. *)
Theorem session_calls s station link instant l :
  0 <= Server.next_message s -> Server.next_message s + drawn_all l <= u64_max ->
  let '(x, reason) := run_session (new_session s station link instant) l in
  (exists came served passed outstanding,
     sublist came (submitted l) /\ (reason = None -> came = submitted l) /\
     conversation station served outstanding (Session.log x) /\
     carries (Session.in_flight x) outstanding /\
     sublist (served ++ Session.queue x) came /\
     served ++ Session.queue x ++ passed ≡ₚ came /\
     Forall (excused_in l) passed) /\
  Forall (comes_from l) (Session.log x) /\ NoDup (call_ids (Session.log x)) /\
  (forall t flight text frame,
     Session.in_flight x = Some flight -> wake t = Socket (InText text) ->
     Frame.Frame.parse text = Ok frame -> is_call frame = false ->
     Frame.Frame.id frame = InFlight.id flight ->
     let '(y, reason) := iterate x t in
     reason = None /\ Session.in_flight y = None /\
     Session.log y = Answer (InFlight.reply flight) (Ok frame) :: Session.log x).
Proof.
  intros H0 Hl.
  assert (Hstart : calls_ok station (excused_in l) (comes_from l) [] (Server.next_message s)
                     (new_session s station link instant)).
  { split; [done| |constructor| |constructor].
    - exists [], [], None. split; try done. constructor.
    - intros id Hid. by apply not_elem_of_nil in Hid. }
  pose proof (calls_run station (excused_in l) (comes_from l) [] (Server.next_message s) (new_session s station link instant) l ltac:(done)) as Hrun.
  destruct (run_session _ l) as [x reason].
  destruct (fun H => Hrun H Hstart eq_refl H0 Hl) as (came & next & Hsub & Hall & Hx).
  { intros t Ht. split_and!; [|intros c Hc; exists t; auto|intros Hc c; exists t; auto].
    unfold heard_at. destruct (wake t) as [|[]| | |] eqn:Ew; try done.
    - intros frame caller Hp. simpl. eauto.
    - intros caller e. simpl. eauto. }
  destruct Hx as [_ (served & passed & o & [H1 H2 H3 H4 H5]) Hu _ Ha].
  split_and!; [|done|done|intros t flight text frame; apply answer_delivered].
  by exists came, served, passed, o.
Qed.
End session.

(** ** Two CALLs, the first of which times out before its answer comes *)

#[local] Existing Instance u64_json.
#[local] Existing Instance CsmsState.sample_wire.
#[local] Existing Instance sample_format.
#[local] Existing Instance no_errors.
(** The texts of the two answers. *)
Definition sample_text : JsonText (J:=u64_json) := {|
  json_from_str t :=
    match t with
    | [n] => Ok (Array [Num (3 : @Number u64_json); String (message_id n); Object []])
    | _ => Err (tt : @json_error u64_json)
    end;
  json_to_string _ := [] |}.
#[local] Existing Instance sample_text.

Definition sample_turn (w : Wake) : turn := mk_turn (fun _ => false) 0 true w 0 0 true [].
Definition sample_turns : list turn :=
  map sample_turn
    [Cmd (Some (CmdCall (QueuedCall.mk Actions.ClearCache (Object []) 10 70)));
     Cmd (Some (CmdCall (QueuedCall.mk Actions.ClearCache (Object []) 10 71)));
     Deadline; Socket (InText [1]); Socket (InText [2])].

Lemma sublist_whole {A} (l k : list A) : sublist l k -> (length k <= length l)%nat -> l = k.
Proof.
  induction 1 as [|x l k Hs IH|x l k Hs IH]; simpl; intros Hl; [done|f_equal; apply IH; lia|].
  apply sublist_length in Hs. lia.
Qed.

Lemma session_calls_witness :
  let x := (run_session (new_session (start default_config) (lit "A") 1 0) sample_turns).1 in
  Session.in_flight x = None /\ Session.queue x = [] /\
  exists served, conversation (lit "A") served None (Session.log x) /\
    map QueuedCall.reply served = [70; 71] /\ call_ids (Session.log x) = [message_id 2; message_id 1].
Proof.
  pose proof (session_calls (start default_config) (lit "A") 1 0 sample_turns
    ltac:(vm_compute; discriminate) ltac:(vm_compute; discriminate)) as Hs.
  destruct (run_session _ sample_turns) as [x reason] eqn:Hrun. cbn [fst].
  assert (Hr : (is_someb (Session.in_flight x), length (Session.queue x), call_ids (Session.log x),
                is_someb reason) = (false, 0%nat, [message_id 2; message_id 1], false)).
  { change ((fun r => (is_someb (Session.in_flight r.1), length (Session.queue r.1),
                      call_ids (Session.log r.1), is_someb r.2)) (x, reason)
            = (false, 0%nat, [message_id 2; message_id 1], false)).
    rewrite <- Hrun. vm_compute. reflexivity. }
  injection Hr as Hf Hq Hids Hr.
  assert (Hrun' : reason = None) by (destruct reason; [discriminate|reflexivity]).
  apply nil_length_inv in Hq. split; [destruct (Session.in_flight x); [discriminate|reflexivity]|].
  assert (Hfl : Session.in_flight x = None) by (destruct (Session.in_flight x); [discriminate|reflexivity]).
  split; [exact Hq|].
  destruct Hs as [(came & served & passed & o & Hsub & Hall & Hc & Hk & Hfifo & Hperm & Hex) _].
  rewrite Hfl in Hk. destruct o as [[]|]; [destruct Hk|]. exists served. split; [exact Hc|].
  split; [|exact Hids]. specialize (Hall Hrun'). subst came. rewrite Hq in Hperm, Hfifo.
  assert (Hnone : passed = []).
  { destruct passed as [|c passed]; [reflexivity|]. apply Forall_inv in Hex as (t & Ht & Hex).
    repeat (apply elem_of_cons in Ht as [->|Ht]; [destruct Hex; discriminate|]). inversion Ht. }
  rewrite Hnone in Hperm. rewrite app_nil_r in Hfifo, Hperm.
  rewrite (sublist_whole _ _ Hfifo); [reflexivity|]. by rewrite Hperm.
Defined.
End CsmsSession.
