(* ===== verification/CsmsAccept.v ===== *)
(** * CsmsAccept: how a station gets a session

    [run_session] of [kirby-csms-core/src/server.rs]: the handshake callback (the station id, the
    security check, the subprotocol, the room in the registry), the registration, and the session
    that begins. Between the handshake and the registration other tasks work on the registry.
    The Module [ServerTls] adds [tls.rs] and the connection under the session. *)

From stdpp Require Import strings gmap.
From S2P Require Import Prelude Text F64 Time Types Messages SecurityMessages Frame Actions Schema Utf8.
From S2P Require Import Security Certificates CsmsState CsmsConfig CsmsServer CsmsSession.
Local Open Scope Z_scope.

Module CsmsAccept.
Import (hints) CsmsServer CsmsSession.
Import CsmsConfig CsmsServer CsmsSession.

(** [HeaderValue::from_str(text).is_ok()] *)
Class HeaderText : Type := { header_value : str -> bool }.

(** What the server reads of a request: the path of the URI, the [Authorization] header and the
    [Sec-WebSocket-Protocol] lines as texts (where they are). *)
Record Request : Type := mk_request {
  uri_path : str;
  authorization : option str;
  protocols : list (option str);
}.

(** An HTTP refusal: the status and the body. *)
Record ErrorResponse : Type := mk_response { status : Z; body : str }.

Definition response (d : Denied) : ErrorResponse :=
  mk_response (if basic d then 401 else 403) (lit "unauthorized").
Definition unavailable (why : str) : ErrorResponse := mk_response 503 why.
Definition refusal (why : str) : ErrorResponse := mk_response 400 why.

(** What became of a connection. *)
Inductive Outcome {J : SerdeJson} : Type :=
| Refused (r : ErrorResponse)
| HandshakeFailed
| Dropped (e : RegisterError) (close : option Message)
| Opened (x : Session.t).

Section accept.
Context {J : SerdeJson} {T : JsonText} {W : CsmsState.CsmsWire} {F : CsmsFormat} {V : Schema.JsonSchema}.
Context {H : Handshake} {X : HeaderText}.
Implicit Types (s : Server.t) (now : DateTime).

(** The handshake callback: the station and the subprotocol, or a refusal. *)
Definition callback s (request : Request) (peer : SocketAddr) (identity : PeerIdentity)
  : Server.t * result (str * option str) ErrorResponse :=
  match station_id_from_path (uri_path request) with
  | None => (s, Err (refusal (lit "no valid charge point id in the URL path")))
  | Some id =>
      match check (security (Server.config s)) (authorization request) id identity with
      | Err d => (emit s (CsmsEvent.AuthFailed (Some id) peer (reason d)), Err (response d))
      | Ok _ =>
          match select (subprotocol (Server.config s)) (offered_protocols (protocols request)) with
          | Err why => (s, Err (refusal why))
          | Ok chosen =>
              if full s id then (s, Err (unavailable (lit "too many stations")))
              else if is_some_and (fun name => negb (header_value name)) chosen
              then (s, Err (refusal (lit "invalid subprotocol name in configuration")))
              else (s, Ok (id, chosen))
          end
      end
  end.

(** [run_session] up to the loop. [completed] is whether the upgrade was finished in time,
    [meanwhile] what the other tasks did to the registry before the registration. *)
Definition serve s (request : Request) (peer : SocketAddr) (identity : PeerIdentity)
    (completed : bool) (meanwhile : list op) now (instant : Z) : Server.t * Outcome :=
  let '(s, target) := callback s request peer identity in
  match target with
  | Err r => (s, Refused r)
  | Ok (station, protocol) =>
      if negb completed then (s, HandshakeFailed)
      else
        match register (fold_left step meanwhile s) station peer protocol now with
        | (s, Ok session_id) => (s, Opened (new_session s station session_id instant))
        | (s, Err RegisterShutdown) => (s, Dropped RegisterShutdown None)
        | (s, Err TooManyStations) =>
            (s, Dropped TooManyStations (Some (MClose 1013 (lit "too many stations"))))
        end
  end.

(** ** Nobody gets in unchecked *)

Lemma register_spec s id peer protocol now :
  match register s id peer protocol now with
  | (s', Ok n) => n = Server.next_session s' /\ exists r, get s' id = Some r /\
      StationRec.session r = Some n /\ StationInfo.connected (StationRec.info r) = true /\
      StationInfo.remote_addr (StationRec.info r) = Some peer /\
      StationInfo.subprotocol (StationRec.info r) = protocol
  | (s', Err _) => s' = s
  end.
Proof.
  unfold register. destruct (Server.stopping s); [done|]. destruct (full s id); [done|]. cbv zeta.
  set (old := default _ _). split; [by case_match|]. eexists. split.
  - unfold get. simpl. apply lookup_insert_eq.
  - by split_and!.
Qed.

Lemma callback_spec s request peer identity :
  match callback s request peer identity with
  | (s', Ok (id, protocol)) => s' = s /\ station_id_from_path (uri_path request) = Some id /\
      check (security (Server.config s)) (authorization request) id identity = Ok tt /\
      select (subprotocol (Server.config s)) (offered_protocols (protocols request)) = Ok protocol
  | (s', Err r) => Server.stations s' = Server.stations s /\
      (Server.events s' = Server.events s /\ (status r = 400 \/ status r = 503) \/
       exists id why, Server.events s' = CsmsEvent.AuthFailed (Some id) peer why :: Server.events s /\
         (status r = 401 \/ status r = 403))
  end.
Proof.
  unfold callback. destruct (station_id_from_path _) as [id|] eqn:Hid; [|simpl; auto].
  destruct (check _ _ _ _) as [[]|d] eqn:Hc.
  - destruct (select _ _) as [chosen|why] eqn:Hs; [|simpl; auto]. destruct (full s id); [simpl; auto|].
    destruct (is_some_and _ chosen); [simpl; auto|]. by split_and!.
  - split; [done|]. right. exists id, (reason d). split; [done|]. simpl. destruct (basic d); auto.
Qed.

(** Claim C16: a station gets a session only if the last segment of the path of its request names
    it, it passes the security check of the policy for that name, and the subprotocol policy
    selects what its record then shows; the session that opens is the one the registry holds for
    that station. Everybody else is turned away without a trace in the registry of stations:
    refused with 401 or 403 and an [AuthFailed] event that names the claimed station, refused with
    400 or 503 and no event, or dropped. *)
Theorem serve_checks s request peer identity completed meanwhile now instant :
  let before := fold_left step meanwhile s in
  match serve s request peer identity completed meanwhile now instant with
  | (s', Opened x) =>
      exists id protocol r,
        station_id_from_path (uri_path request) = Some id /\
        check (security (Server.config s)) (authorization request) id identity = Ok tt /\
        select (subprotocol (Server.config s)) (offered_protocols (protocols request)) = Ok protocol /\
        Session.station x = id /\ Session.inner x = s' /\ get s' id = Some r /\
        StationRec.session r = Some (Session.link_id x) /\
        StationInfo.connected (StationRec.info r) = true /\
        StationInfo.subprotocol (StationRec.info r) = protocol
  | (s', Refused r) =>
      Server.stations s' = Server.stations s /\
      (Server.events s' = Server.events s /\ (status r = 400 \/ status r = 503) \/
       exists id why, Server.events s' = CsmsEvent.AuthFailed (Some id) peer why :: Server.events s /\
         (status r = 401 \/ status r = 403))
  | (s', HandshakeFailed) => s' = s
  | (s', Dropped _ _) => s' = before
  end.
Proof.
  cbv zeta. unfold serve. pose proof (callback_spec s request peer identity) as Hc.
  destruct (callback s request peer identity) as [s1 [[id protocol]|r]]; [|done].
  destruct Hc as (-> & Hid & Hk & Hp). destruct completed; cbn [negb]; [|done].
  pose proof (register_spec (fold_left step meanwhile s) id peer protocol now) as Hr.
  destruct (register _ id peer protocol now) as [s2 [n|[]]]; [|done..].
  destruct Hr as (_ & r & ? & ? & ? & _ & ?). exists id, protocol, r. by split_and!.
Qed.
End accept.
End CsmsAccept.

(** * ServerTls: the TLS of the CSMS

    [kirby-csms-core/src/tls.rs], the configurations built from PEM data, and [serve_tcp] of
    [server.rs]: whom a session over TLS belongs to. *)
Module ServerTls.
Import CsmsConfig CsmsServer CsmsSession CsmsAccept.

(** The server side of [rustls]; [Client] is whoever connects. *)
Class RustlsServer : Type := {
  server_versions_error : option str;
  single_cert_error : list bytes -> bytes -> option str;
  (** [WebPkiClientVerifier::builder_with_provider(roots).build()]: the text of its error *)
  client_verifier_error : list bytes -> option str;
  (** whether the chain of a client ends at one of the roots *)
  chains_to : list bytes -> list bytes -> bool;
  Client : Type;
  (** The handshake with certificate chain, key and, to ask for a certificate, roots: what
      [peer_certificates] then says; [None] if it fails or stalls. *)
  tls_accept : list bytes -> bytes -> option (list bytes) -> Client -> option (option (list bytes));
}.
(** A client that is asked for a certificate has shown one that chains to the roots. *)
Class RustlsServerLaws {R : RustlsServer} : Prop := {
  accept_verified chain key roots client shown :
    tls_accept chain key (Some roots) client = Some shown ->
    exists leaf rest, shown = Some (leaf :: rest) /\ chains_to roots (leaf :: rest) = true;
  accept_anonymous chain key client shown : tls_accept chain key None client = Some shown -> shown = None;
}.

(** [ServerConfig]; the roots of a verifier of clients, where there is one. *)
Record ServerConfig : Type := mk_server {
  cert_chain : list bytes;
  private_key : bytes;
  client_roots : option (list bytes);
}.

Section tls.
Context {R : Rustls} {S : RustlsServer}.

Definition tls_error (e : str) : CsmsError.t := CsmsError.Tls e.
(** The chain and the key both functions begin with. *)
Definition chain_and_key (cert_chain_pem private_key_pem : bytes) : result (list bytes * bytes) CsmsError.t :=
  let! chain := result_map_err (fun e => tls_error (lit "certificate chain: " ++ e)) (collect_results (pem_certificates cert_chain_pem)) in
  match chain with
  | [] => Err (tls_error (lit "no certificate in the PEM data"))
  | _ =>
      let! key := result_map_err (fun e => tls_error (lit "private key: " ++ e)) (pem_private_key private_key_pem) in
      Ok (chain, key)
  end.
(** The end of both: [with_safe_default_protocol_versions] to [with_single_cert]. *)
Definition build (chain : list bytes) (key : bytes) (client_roots : option (list bytes)) : result ServerConfig CsmsError.t :=
  match server_versions_error, single_cert_error chain key with
  | Some e, _ | None, Some e => Err (tls_error e)
  | None, None => Ok (mk_server chain key client_roots)
  end.
Definition server_config_from_pem (cert_chain_pem private_key_pem : bytes) : result ServerConfig CsmsError.t :=
  let! (chain, key) := chain_and_key cert_chain_pem private_key_pem in
  build chain key None.

Definition client_ca_error (e : str) : CsmsError.t := tls_error (lit "client CA: " ++ e).
(** One turn of the loop over the certificates of the CA. *)
Definition add_client_ca (certificate : result bytes str) : result bytes CsmsError.t :=
  let! certificate := result_map_err client_ca_error certificate in
  match root_error certificate with Some e => Err (client_ca_error e) | None => Ok certificate end.
Definition server_config_with_client_ca (cert_chain_pem private_key_pem client_ca_pem : bytes) : result ServerConfig CsmsError.t :=
  let! (chain, key) := chain_and_key cert_chain_pem private_key_pem in
  let! roots := collect_results (map add_client_ca (pem_certificates client_ca_pem)) in
  match roots with
  | [] => Err (tls_error (lit "no certificate in the client CA PEM data"))
  | _ =>
      match client_verifier_error roots with
      | Some e => Err (tls_error (lit "client verifier: " ++ e))
      | None => build chain key (Some roots)
      end
  end.

(** ** A connection *)

Context {J : SerdeJson} {T : JsonText} {W : CsmsState.CsmsWire} {F : CsmsFormat} {V : Schema.JsonSchema}.
Context {H : Handshake} {X : HeaderText}.

(** [serve_tcp]: [None] where no session is even tried. *)
Definition serve_tcp (s : Server.t) (acceptor : option ServerConfig) (client : Client) (peer : SocketAddr) (request : Request)
    (completed : bool) (meanwhile : list op) (now : DateTime) (instant : Z) : Server.t * option Outcome :=
  match acceptor with
  | Some config =>
      match tls_accept (cert_chain config) (private_key config) (client_roots config) client with
      | Some shown =>
          let identity := from_leaf (shown ≫= head) in
          let '(s, outcome) := serve s request peer identity completed meanwhile now instant in (s, Some outcome)
      | None =>
          if profile (security (Server.config s)) == MutualTls
          then (emit s (CsmsEvent.AuthFailed None peer (lit "TLS handshake failed")), None)
          else (s, None)
      end
  | None =>
      let '(s, outcome) := serve s request peer Plain completed meanwhile now instant in (s, Some outcome)
  end.

(** ** Who gets in *)

Lemma client_ca_Ok chain_pem key_pem ca_pem config :
  server_config_with_client_ca chain_pem key_pem ca_pem = Ok config ->
  exists roots, client_roots config = Some roots /\ roots <> [] /\ pem_certificates ca_pem = map Ok roots /\
    (forall root, root ∈ roots -> root_error root = None).
Proof.
  unfold server_config_with_client_ca. destruct (chain_and_key chain_pem key_pem) as [[chain key]|]; [|done].
  destruct (collect_results (map add_client_ca (pem_certificates ca_pem))) as [roots|] eqn:Hr; [|done].
  apply collect_results_Ok in Hr. intros Hc.
  assert (Hroots : client_roots config = Some roots /\ roots <> []).
  { destruct roots as [|root roots]; [done|]. destruct (client_verifier_error (root :: roots)); [done|].
    unfold build in Hc. destruct server_versions_error, (single_cert_error chain key); try done. by injection Hc as <-. }
  exists roots. destruct Hroots as [-> Hne]. split_and!; [done..| |]; clear Hc Hne.
  - revert roots Hr. induction (pem_certificates ca_pem) as [|c l IH]; intros [|root roots] [=]; [done|].
    simpl. rewrite (IH roots) by done. f_equal. destruct c as [c|]; [|done]. unfold add_client_ca in *. simpl in *.
    destruct (root_error c); [done|]. congruence.
  - intros root Hin%list_elem_of_In. apply (in_map (Ok (E := CsmsError.t))) in Hin.
    rewrite <- Hr in Hin. apply in_map_iff in Hin as ([c|] & Hc & _); [|done].
    unfold add_client_ca in Hc. simpl in Hc. destruct (root_error c) eqn:He; [done|]. by injection Hc as ->.
Qed.

(** With Security Profile 3 and a client CA, the station of a session is named by a certificate
    that chains to the certificates of the CA, every one of which could be used. A connection whose
    handshake fails leaves an event and nothing else. *)
Theorem mutual_tls_admits {L : RustlsServerLaws} chain_pem key_pem ca_pem config s client peer request completed meanwhile now instant :
  server_config_with_client_ca chain_pem key_pem ca_pem = Ok config ->
  profile (security (Server.config s)) = MutualTls ->
  match serve_tcp s (Some config) client peer request completed meanwhile now instant with
  | (s', Some (Opened x)) =>
      exists roots leaf rest,
        pem_certificates ca_pem = map Ok roots /\ (forall root, root ∈ roots -> root_error root = None) /\
        tls_accept (cert_chain config) (private_key config) (Some roots) client = Some (Some (leaf :: rest)) /\
        chains_to roots (leaf :: rest) = true /\ common_name leaf = Some (Session.station x)
  | (s', None) => s' = emit s (CsmsEvent.AuthFailed None peer (lit "TLS handshake failed"))
  | _ => True
  end.
Proof.
  intros Hc Hp. apply client_ca_Ok in Hc as (roots & Hr & _ & Hpem & Hok). unfold serve_tcp. rewrite Hr.
  destruct (tls_accept _ _ _ client) as [shown|] eqn:Ha; [|by rewrite Hp].
  destruct (accept_verified _ _ _ _ _ Ha) as (leaf & rest & -> & Hv). cbn [mbind option_bind head from_leaf].
  destruct (serve s request peer _ completed meanwhile now instant) as [s' out] eqn:Hs. destruct out; try done.
  exists roots, leaf, rest. split_and!; [done..|]. unfold serve in Hs.
  pose proof (callback_spec s request peer (Certificate (common_name leaf))) as Hcb.
  destruct (callback _ _ _ _) as [s1 [[id protocol]|]]; [|done]. destruct Hcb as (_ & _ & Hk & _).
  unfold check in Hk. rewrite Hp in Hk. destruct (common_name leaf == Some id) eqn:Hn; [|done].
  apply (proj1 (eqb_true _ _)) in Hn as ->. destruct (negb completed); [done|].
  destruct (register _ id peer protocol now) as [s2 [n|[]]]; try done. by injection Hs as _ <-.
Qed.
End tls.
End ServerTls.
