(* ===== verification/WsTask.v ===== *)
(** * WsTask: the connection task of a station

    [ws/task.rs], and the handle to it of [ws/mod.rs]: the task owns the socket, the queue of
    outbound CALLs, the table of our CALLs that await an answer and the table of the CSMS's CALLs
    that await our reply. Every step is a computation that may end the connection ([Stop]).

    What the task asks of the outside at a moment (did the write succeed, does the owner still
    listen, which message id is drawn, has the caller given up, what time is it) is a function of
    the number of such questions asked so far ([Env], [tick]). What it does to the outside is
    logged, newest first, with what it takes in: [Taken] is a CALL taken from the channel of the
    handles, [Received] a text of the socket, [Outstanding] a CALL that is put into the table of
    those that await an answer, [Dropped] a caller whose channel is dropped without an answer
    (it has given up, or reads [Closed]). *)

From stdpp Require Import strings gmap.
From S2P Require Import Prelude Text Utf8 Time Types Messages Frame Actions Schema Interface.
Local Open Scope Z_scope.

Module WsTask.

Definition ABNORMAL_CLOSE : Z := 1006.
Definition NORMAL_CLOSE : Z := 1000.
Definition FAR_FUTURE : Duration := 24 * 60 * 60 * NS_PER_SEC.

(** [tungstenite]'s [CloseFrame], the messages it yields and those we send. *)
Record CloseFrame : Type := mk_close { close_code : Z; close_reason : str }.
Inductive Inbound : Type :=
| InText (text : str)
| InBinary (bytes : list Z)
| InPing
| InPong
| InClose (frame : option CloseFrame)
| InFrame.
Inductive Outbound {J : SerdeJson} : Type :=
| OutText (frame : Frame.t)
| OutPing
| OutClose (frame : CloseFrame).

(** A CALL waiting for its turn on the wire; the caller is the number of its [oneshot] channel. *)
Module OutboundCall.
Section record.
Context {J : SerdeJson}.
Record t : Type := mk { action : str; payload : json; timeout : Duration; reply : Z }.
#[export] Instance eta : Eta t := fun r => mk (action r) (payload r) (timeout r) (reply r).
End record.
End OutboundCall.
Export (hints) OutboundCall.

(** A CALL we sent and have not got an answer to. *)
Module Pending.
Record t : Type := mk { action : str; timeout : Duration; deadline : Z; reply : Z }.
#[export] Instance eta : Eta t := fun r => mk (action r) (timeout r) (deadline r) (reply r).
End Pending.
Export (hints) Pending.

(** Why the loop ends. *)
Inductive Stop : Type :=
| Requested
| Peer (frame : option CloseFrame)
| Abort (reason : str) (by_us : bool).

(** Requests from the handles to the task. *)
Inductive Command {J : SerdeJson} : Type :=
| CmdCall (call : OutboundCall.t)
| CmdClose.

(** One input to the loop. *)
Inductive Step {J : SerdeJson} : Type :=
| StepCommand (c : option Command)
| StepReply (frame : option Frame.t)
| StepSocket (m : option (result Inbound str))
| StepTimeouts
| StepPing.

(** The events of a connection, for its owner. *)
Module Event.
Inductive t {J : SerdeJson} : Type :=
| Frame (record : FrameRecord.t)
| Call (id action : str) (payload : json)
| ProtocolWarning (text : str)
| Closed (code : option Z) (reason : str) (by_us : bool).
End Event.

Inductive Entry {J : SerdeJson} : Type :=
| Taken (call : OutboundCall.t)
| Received (text : str)
| Sent (m : Outbound)
| Emitted (e : Event.t)
| Answered (caller : Z) (r : result json CallError.t)
| Dropped (caller : Z)
| Outstanding (id : str) (p : Pending.t).

Module Task.
Section record.
Context {J : SerdeJson}.
Record t : Type := mk {
  serialize : bool;
  show_secrets : bool;
  open : bool;
  queue : list OutboundCall.t;
  pending : gmap str Pending.t;
  incoming : gmap str str;
  awaiting_pong : bool;
  tick : Z;
  log : list Entry;
}.
#[export] Instance eta : Eta t := fun r => mk (serialize r) (show_secrets r) (open r) (queue r)
  (pending r) (incoming r) (awaiting_pong r) (tick r) (log r).
End record.
End Task.
Export (hints) Task.

(** How a write to the socket ends. *)
Inductive WriteOutcome : Type := Written | WriteFailed (error : str) | WriteTimedOut.

(** The outside, by the number of the question. *)
Class Env : Type := {
  write_at : Z -> WriteOutcome;
  listens_at : Z -> bool;
  gone_at : Z -> Z -> bool;
  uuid_at : Z -> str;
  utc_at : Z -> DateTime;
  instant_at : Z -> Z;
  instant_checked_add : Z -> Duration -> option Z;
}.

(** ** Computations of the task *)

Definition flow {J : SerdeJson} (A : Type) : Type := Task.t -> Task.t * result A Stop.
#[export] Instance flow_ret {J : SerdeJson} : MRet flow := fun A x t => (t, Ok x).
#[export] Instance flow_bind {J : SerdeJson} : MBind flow := fun A B k m t =>
  match m t with
  | (t, Ok x) => k x t
  | (t, Err e) => (t, Err e)
  end.

Section task.
Context {J : SerdeJson} {T : JsonText} {V : Schema.JsonSchema} {E : Env}.
Implicit Types (t : Task.t).

Definition stop_with {A} (s : Stop) : flow A := fun t => (t, Err s).
Definition get : flow Task.t := fun t => (t, Ok t).
Definition modify (f : Task.t -> Task.t) : flow unit := fun t => (f t, Ok tt).
Definition ask {A} (f : Z -> A) : flow A := fun t => (t <| Task.tick ::= Z.succ |>, Ok (f (Task.tick t))).
Definition note (e : Entry) : flow unit := modify (fun t => t <| Task.log ::= cons e |>).

Definition answer (caller : Z) (r : result json CallError.t) : flow unit := note (Answered caller r).

(** [now + timeout], clamped instead of panicking for absurd timeouts. *)
Definition deadline_after (timeout : Duration) : flow Z :=
  now ← ask instant_at;
  mret (default (now + FAR_FUTURE) (instant_checked_add now timeout)).

Definition write_timed_out : Stop :=
  Abort (lit "WebSocket write timed out (the peer stopped reading)") true.
Definition abort (error : str) : Stop := Abort error false.

(** Writes one message (or, with [None], flushes what is queued). *)
Definition send_message (m : option Outbound) : flow unit :=
  outcome ← ask write_at;
  match outcome with
  | Written => match m with Some m => note (Sent m) | None => mret tt end
  | WriteFailed error => stop_with (abort error)
  | WriteTimedOut => stop_with write_timed_out
  end.

Definition emit (e : Event.t) : flow unit :=
  listens ← ask listens_at;
  if listens : bool then note (Emitted e) else stop_with Requested.
Definition warn (message : str) : flow unit := emit (Event.ProtocolWarning message).

(** The frame as it is recorded. *)
Definition recorded t (frame : Frame.t) : json :=
  if Task.show_secrets t then Frame.to_value frame else Frame.to_value (Frame.redact_secrets frame).

(** Writes one frame and reports it. *)
Definition write (frame : Frame.t) (action : option str) : flow unit :=
  send_message (Some (OutText frame));;
  t ← get;
  ts ← ask utc_at;
  emit (Event.Frame (FrameRecord.mk ts Direction.Out (Some (Frame.id frame)) action (recorded t frame))).

(** What [if let Err(stop) = ...] looks at. *)
Definition attempt {A} (m : flow A) : flow (result A Stop) := fun t => let '(t, r) := m t in (t, Ok r).

(** [pending.insert(id, p)]; the value it replaces is dropped. *)
Definition insert_pending (id : str) (p : Pending.t) : flow unit :=
  t ← get;
  match Task.pending t !! id with
  | Some old => note (Dropped (Pending.reply old))
  | None => mret tt
  end;;
  modify (fun t => t <| Task.pending ::= <[id := p]> |>);;
  note (Outstanding id p).

Definition no_pending t : bool := Nat.eqb (size (Task.pending t)) 0.

(** Sends queued CALLs while the serialization rule allows it; [queue] is the queue. *)
Fixpoint pump_queue (queue : list OutboundCall.t) : flow unit :=
  match queue with
  | [] => mret tt
  | call :: rest =>
      t ← get;
      if Task.serialize t && negb (no_pending t) then mret tt
      else
        modify (fun t => t <| Task.queue := rest |>);;
        is_closed ← ask gone_at;
        if is_closed (OutboundCall.reply call) : bool
        then note (Dropped (OutboundCall.reply call));; pump_queue rest
        else
          id ← ask uuid_at;
          written ← attempt (write (Frame.Call id (OutboundCall.action call) (OutboundCall.payload call))
                               (Some (OutboundCall.action call)));
          match written with
          | Err stop =>
              answer (OutboundCall.reply call) (Err (CallError.Closed (Some ABNORMAL_CLOSE)));;
              stop_with stop
          | Ok _ =>
              deadline ← deadline_after (OutboundCall.timeout call);
              let p := Pending.mk (OutboundCall.action call) (OutboundCall.timeout call) deadline
                         (OutboundCall.reply call) in
              insert_pending id p;;
              pump_queue rest
          end
  end.
Definition pump : flow unit := t ← get; pump_queue (Task.queue t).

(** Writes our reply to a CSMS CALL, validated against the response schema. *)
Definition reply (frame : Frame.t) : flow unit :=
  let id := Frame.id frame in
  t ← get;
  match Task.incoming t !! id with
  | None => mret tt
  | Some action =>
      modify (fun t => t <| Task.incoming ::= base.delete id |>);;
      frame ← match frame with
              | Frame.CallResult id payload =>
                  match Schema.validate_response action payload with
                  | Ok _ => mret (Frame.CallResult id payload)
                  | Err violation =>
                      warn (lit "reply to " ++ action
                            ++ lit " violates the OCPP 1.6J schema, InternalError sent instead: "
                            ++ Schema.show_violation violation);;
                      mret (Frame.call_error id ErrorCode.InternalError (Schema.error_text violation))
                  end
              | other => mret other
              end;
      write frame (Some action)
  end.

(** Validates a CSMS CALL. Invalid ones are answered here; valid ones are delivered. *)
Definition rejection (action : str) (payload : json) : option (ErrorCode.t * str) :=
  if Schema.knows_action action
  then match Schema.validate_request action payload with
       | Ok _ => None
       | Err violation => Some (Schema.error_code violation, Schema.error_text violation)
       end
  else Some (ErrorCode.NotImplemented, action ++ lit " is not an OCPP 1.6J action").
Definition incoming_call (id action : str) (payload : json) : flow unit :=
  t ← get;
  if is_someb (Task.incoming t !! id)
  then warn (lit "ignored duplicate CALL " ++ id ++ lit " (" ++ action
             ++ lit "): the first one is still being handled")
  else
    match rejection action payload with
    | Some (code, description) =>
        warn (lit "rejected CALL " ++ id ++ lit " (" ++ action ++ lit ") with "
              ++ ErrorCode.as_str code ++ lit ": " ++ description);;
        write (Frame.call_error id code description) (Some action)
    | None =>
        modify (fun t => t <| Task.incoming ::= <[id := action]> |>);;
        emit (Event.Call id action payload)
    end.

(** Takes the CALL an answer belongs to out of the table. *)
Definition take_pending (id : str) : flow (option Pending.t) :=
  t ← get;
  modify (fun t => t <| Task.pending ::= base.delete id |>);;
  mret (Task.pending t !! id).

Definition call_result (id : str) (payload : json) : flow unit :=
  found ← take_pending id;
  match found with
  | None => mret tt
  | Some pending =>
      match Schema.validate_response (Pending.action pending) payload with
      | Ok _ => answer (Pending.reply pending) (Ok payload)
      | Err violation =>
          warned ← attempt (warn (lit "CALLRESULT for " ++ Pending.action pending
                                  ++ lit " violates the OCPP 1.6J schema: "
                                  ++ Schema.show_violation violation));
          match warned with
          | Ok _ => answer (Pending.reply pending) (Err CallError.Schema)
          | Err stop => note (Dropped (Pending.reply pending));; stop_with stop
          end
      end;;
      pump
  end.

Definition call_error (id : str) (code : ErrorCode.t) (description : str) (details : json) : flow unit :=
  found ← take_pending id;
  match found with
  | None => mret tt
  | Some pending =>
      answer (Pending.reply pending) (Err (CallError.Rpc (Pending.action pending) code description details));;
      pump
  end.

Definition incoming_text (text : str) : flow unit :=
  note (Received text);;
  ts ← ask utc_at;
  match Frame.parse text with
  | Err error =>
      emit (Event.Frame (FrameRecord.mk ts Direction.In (Frame.message_id error) None (String text)));;
      warn (lit "invalid OCPP-J frame: " ++ Frame.error_text error);;
      match Frame.reply error with
      | Some answer => write answer None
      | None => mret tt
      end
  | Ok frame =>
      t ← get;
      let action := match frame with
                    | Frame.Call _ action _ => Some action
                    | other => Pending.action <$> Task.pending t !! Frame.id other
                    end in
      emit (Event.Frame (FrameRecord.mk ts Direction.In (Some (Frame.id frame)) action (recorded t frame)));;
      match frame with
      | Frame.Call id action payload => incoming_call id action payload
      | Frame.CallResult id payload => call_result id payload
      | Frame.CallError id code description details => call_error id code description details
      end
  end.

Definition incoming_message (message : Inbound) : flow unit :=
  match message with
  | InText text => incoming_text text
  | InBinary bytes =>
      match from_utf8 bytes with
      | Some text => incoming_text text
      | None => warn (lit "binary WebSocket message ignored, OCPP-J is text only")
      end
  | InPing => send_message None
  | InPong => modify (fun t => t <| Task.awaiting_pong := false |>)
  | InClose frame => stop_with (Peer frame)
  | InFrame => mret tt
  end.

(** Fails the CALLs whose response did not arrive in time; the ids that are due are taken out
    one after the other. *)
Definition due (now : Z) t : list str :=
  map fst (retain (fun p => Pending.deadline p.2 <=? now) (map_to_list (Task.pending t))).
Fixpoint expire_each (ids : list str) : flow unit :=
  match ids with
  | [] => mret tt
  | id :: ids =>
      found ← take_pending id;
      match found with
      | None => mret tt
      | Some pending =>
          answer (Pending.reply pending)
            (Err (CallError.Timeout (Pending.action pending) (Pending.timeout pending)))
      end;;
      expire_each ids
  end.
Definition expire : flow unit :=
  now ← ask instant_at;
  t ← get;
  expire_each (due now t);;
  pump.

(** Watchdog tick. *)
Definition ping : flow unit :=
  t ← get;
  if Task.awaiting_pong t then stop_with (Abort (lit "WebSocket pong timed out") true)
  else
    modify (fun t => t <| Task.awaiting_pong := true |>);;
    send_message (Some OutPing).

(** [queue.retain(|queued| !queued.reply.is_closed())] *)
Definition withdraw_gone : flow unit :=
  is_closed ← ask gone_at;
  t ← get;
  let closed call := is_closed (OutboundCall.reply call) : bool in
  modify (fun t => t <| Task.queue := retain (fun call => negb (closed call)) (Task.queue t) |>
                     <| Task.log := map (fun call => Dropped (OutboundCall.reply call))
                                      (rev (retain closed (Task.queue t))) ++ Task.log t |>).

Definition handle (step : Step) : flow unit :=
  match step with
  | StepCommand (Some (CmdCall call)) =>
      withdraw_gone;;
      modify (fun t => t <| Task.queue ::= fun queue => queue ++ [call] |>);;
      note (Taken call);;
      pump
  | StepCommand (Some CmdClose) | StepCommand None => stop_with Requested
  | StepReply (Some frame) => reply frame
  | StepReply None => mret tt
  | StepSocket (Some (Ok message)) => incoming_message message
  | StepSocket (Some (Err error)) => stop_with (abort error)
  | StepSocket None => stop_with (Abort (lit "connection lost") false)
  | StepTimeouts => expire
  | StepPing => ping
  end.

(** The loop, over the steps that [select!] produces. *)
Fixpoint loop (steps : list Step) : flow unit :=
  match steps with
  | [] => mret tt
  | step :: steps => handle step;; loop steps
  end.

(** ** The end of the connection *)

Definition fail_all (code : option Z) : flow unit :=
  modify (fun t =>
    let fail caller := Answered caller (Err (CallError.Closed code)) in
    t <| Task.pending := ∅ |> <| Task.queue := [] |>
      <| Task.log := map (fun call => fail (OutboundCall.reply call)) (rev (Task.queue t))
                     ++ map (fun p => fail (Pending.reply p.2)) (rev (map_to_list (Task.pending t)))
                     ++ Task.log t |>).

(** The commands that are still in the channel. *)
Fixpoint fail_commands (code : option Z) (commands : list Command) : flow unit :=
  match commands with
  | [] => mret tt
  | CmdCall call :: commands =>
      note (Taken call);;
      answer (OutboundCall.reply call) (Err (CallError.Closed code));; fail_commands code commands
  | CmdClose :: commands => fail_commands code commands
  end.

Definition frame_code_and_reason (frame : option CloseFrame) : option Z * str :=
  match frame with
  | Some frame => (Some (close_code frame), close_reason frame)
  | None => (None, [])
  end.

Fixpoint await_peer_close (stream : list (result Inbound str)) : option (option CloseFrame) :=
  match stream with
  | Ok (InClose frame) :: _ => Some frame
  | Ok _ :: stream => await_peer_close stream
  | Err _ :: _ | [] => None
  end.

(** [stream] is what the peer still sends, [in_time] whether it does so within the timeout. *)
Definition close_handshake (stream : list (result Inbound str)) (in_time : bool)
  : flow (option Z * str) :=
  sent ← attempt (send_message (Some (OutClose (mk_close NORMAL_CLOSE []))));
  match sent with
  | Err _ => mret (Some ABNORMAL_CLOSE, lit "cannot send the close frame")
  | Ok _ =>
      if in_time
      then mret match await_peer_close stream with
                | Some frame => frame_code_and_reason frame
                | None => (Some ABNORMAL_CLOSE, lit "connection ended without a close reply")
                end
      else mret (Some ABNORMAL_CLOSE, lit "close handshake timed out")
  end.

Definition known_code (stop : Stop) : option Z :=
  match stop with
  | Requested => Some NORMAL_CLOSE
  | Peer frame => close_code <$> frame
  | Abort _ _ => Some ABNORMAL_CLOSE
  end.

Definition finish (stop : Stop) (commands : list Command) (stream : list (result Inbound str))
    (in_time : bool) : flow unit :=
  modify (fun t => t <| Task.open := false |>);;
  fail_all (known_code stop);;
  fail_commands (known_code stop) commands;;
  modify (fun t => t <| Task.incoming := ∅ |>);;
  '(code, reason, by_us) ← match stop with
    | Requested =>
        '(code, reason) ← close_handshake stream in_time;
        mret (code, reason, true)
    | Peer frame =>
        attempt (send_message None);;
        let '(code, reason) := frame_code_and_reason frame in
        mret (code, reason, false)
    | Abort reason by_us => mret (Some ABNORMAL_CLOSE, reason, by_us)
    end;
  attempt (emit (Event.Closed code reason by_us));;
  mret tt.

(** [Task::run]: the state at the end, and whether the loop ended; the steps after the one that
    ended it are not taken. *)
Definition run t (steps : list Step) (commands : list Command) (stream : list (result Inbound str))
    (in_time : bool) : Task.t * bool :=
  match loop steps t with
  | (t, Ok _) => (t, false)
  | (t, Err stop) => ((finish stop commands stream in_time t).1, true)
  end.

(** [spawn] *)
Definition new_task (serialize show_secrets : bool) : Task.t :=
  Task.mk serialize show_secrets true [] ∅ ∅ false 0 [].

(** [Connection::call_checked] up to the answer: the CALL it queues, or the refusal. *)
Definition submit (open : bool) (action : str) (payload : json) (timeout : Duration) (caller : Z)
    (validate : bool) : result Command CallError.t :=
  if negb open then Err CallError.NotConnected
  else
    match (if validate then Schema.validate_request action payload else Ok tt) with
    | Err _ => Err CallError.Schema
    | Ok _ => Ok (CmdCall (OutboundCall.mk action payload timeout caller))
    end.
End task.
End WsTask.
