(* ===== verification/WsCalls.v ===== *)
(** * WsCalls: what the connection task promises to the callers of CALLs

    The contract of [ws/task.rs] as an abstract machine: callers wait in a queue; a CALL is put on
    the wire for the first of them; an answer goes to the caller whose CALL has its id; every
    caller is settled once, for a reason the outside gave. The log of the task ([WsTask.v]) is a
    run of the machine, whose queue and table are those of the task. *)

From stdpp Require Import strings gmap.
From S2P Require Import Prelude Text Utf8 Time Types Messages Frame Actions Schema Interface WsTask.
Local Open Scope Z_scope.

Module WsCalls.
Import (hints) WsTask.
Import WsTask.

(** ** The machine *)

Section machine.
Context {J : SerdeJson} {T : JsonText} {V : Schema.JsonSchema} {E : Env}.

(** The CALLs that wait, those that await an answer by id, the frame that was received last and
    is not dealt with, the id under which the first CALL of the queue has been written, the number
    of questions asked to the outside, and whether the connection is being given up. *)
Record calls : Type := mk_calls {
  waiting : list OutboundCall.t;
  outstanding : gmap str Pending.t;
  heard : option Frame.t;
  written : option str;
  asked : Z;
  closing : bool;
}.
#[export] Instance calls_eta : Eta calls := fun r =>
  mk_calls (waiting r) (outstanding r) (heard r) (written r) (asked r) (closing r).
Definition no_calls : calls := mk_calls [] ∅ None None 0 false.

(** A caller leaves the queue or the table. *)
Inductive leave (caller : Z) : calls -> calls -> Prop :=
| leave_queue l1 call l2 c :
    waiting c = l1 ++ call :: l2 -> OutboundCall.reply call = caller ->
    leave caller c (c <| waiting := l1 ++ l2 |>)
| leave_table id p c :
    outstanding c !! id = Some p -> Pending.reply p = caller ->
    leave caller c (c <| outstanding ::= base.delete id |>).

Definition frame_of (text : str) : option Frame.t :=
  match Frame.parse text with Ok f => Some f | Err _ => None end.
Definition is_call (m : Outbound) : bool :=
  match m with OutText (Frame.Call _ _ _) => true | _ => false end.
(** No answer to an outstanding CALL has been received and not been delivered. *)
Definition quiet (c : calls) : Prop :=
  match heard c with
  | Some (Frame.CallResult id _) | Some (Frame.CallError id _ _ _) => outstanding c !! id = None
  | _ => True
  end.

(** Nobody waits without a reason: only serialized CALLs do, while one is outstanding. *)
Definition served (serial : bool) (c : calls) : Prop :=
  waiting c = [] \/ (serial = true /\ outstanding c <> ∅).

(** What the caller of an outstanding CALL is answered when [heard] has been received. *)
Inductive justified (heard : option Frame.t) (id : str) (p : Pending.t) : result json CallError.t -> Prop :=
| just_result payload :
    heard = Some (Frame.CallResult id payload) ->
    Schema.validate_response (Pending.action p) payload = Ok tt -> justified heard id p (Ok payload)
| just_invalid payload :
    heard = Some (Frame.CallResult id payload) ->
    Schema.validate_response (Pending.action p) payload <> Ok tt -> justified heard id p (Err CallError.Schema)
| just_error code description details :
    heard = Some (Frame.CallError id code description details) ->
    justified heard id p (Err (CallError.Rpc (Pending.action p) code description details)).

(** The entry of the table for a CALL whose deadline is computed at the question [n]. *)
Definition pending_at (n : Z) (call : OutboundCall.t) : Pending.t :=
  Pending.mk (OutboundCall.action call) (OutboundCall.timeout call)
    (default (instant_at n + FAR_FUTURE) (instant_checked_add (instant_at n) (OutboundCall.timeout call)))
    (OutboundCall.reply call).

(** An entry that rests on an answer of the outside names the question: the last one asked, or a
    later one. *)
Inductive talk (serial : bool) : calls -> Entry -> calls -> Prop :=
| talk_taken call c :
    talk serial c (Taken call) (c <| waiting ::= fun l => l ++ [call] |>)
| talk_received text c :
    closing c = false -> quiet c -> written c = None ->
    talk serial c (Received text) (c <| heard := frame_of text |>)
| talk_emitted e c : talk serial c (Emitted e) c
| talk_sent m c : is_call m = false -> talk serial c (Sent m) c
(** the first CALL of the queue is written, once, as it was queued *)
| talk_written id call l c :
    closing c = false -> quiet c -> waiting c = call :: l -> written c = None ->
    (serial = true -> outstanding c = ∅) ->
    talk serial c (Sent (OutText (Frame.Call id (OutboundCall.action call) (OutboundCall.payload call))))
      (c <| written := Some id |>)
(** an older CALL of the same id makes room *)
| talk_replaced id p c :
    closing c = false -> written c = Some id -> outstanding c !! id = Some p ->
    talk serial c (Dropped (Pending.reply p)) (c <| outstanding ::= base.delete id |>)
| talk_outstanding id call l n c :
    closing c = false -> waiting c = call :: l -> written c = Some id -> outstanding c !! id = None ->
    asked c <= Z.succ n ->
    talk serial c (Outstanding id (pending_at n call))
      (c <| waiting := l |> <| outstanding ::= <[id := pending_at n call]> |> <| heard := None |>
         <| written := None |> <| asked := Z.succ n |>)
| talk_answered id p r c :
    closing c = false -> outstanding c !! id = Some p -> justified (heard c) id p r ->
    talk serial c (Answered (Pending.reply p) r) (c <| outstanding ::= base.delete id |>)
(** the deadline has passed *)
| talk_timeout id p n c :
    closing c = false -> outstanding c !! id = Some p -> asked c <= Z.succ n ->
    Pending.deadline p <= instant_at n ->
    talk serial c (Answered (Pending.reply p) (Err (CallError.Timeout (Pending.action p) (Pending.timeout p))))
      (c <| outstanding ::= base.delete id |> <| asked := Z.succ n |>)
(** the caller has given up *)
| talk_gone l1 call l2 n c :
    closing c = false -> waiting c = l1 ++ call :: l2 -> written c = None -> asked c <= Z.succ n ->
    gone_at n (OutboundCall.reply call) = true ->
    talk serial c (Dropped (OutboundCall.reply call)) (c <| waiting := l1 ++ l2 |> <| asked := Z.succ n |>)
(** the owner has gone before it could be told of an invalid answer *)
| talk_unheard id p payload n c :
    closing c = false -> outstanding c !! id = Some p -> heard c = Some (Frame.CallResult id payload) ->
    asked c <= Z.succ n -> listens_at n = false ->
    talk serial c (Dropped (Pending.reply p))
      (c <| outstanding ::= base.delete id |> <| asked := Z.succ n |> <| closing := true |>)
(** the connection is given up: nobody is served any more *)
| talk_closed caller code c c' :
    leave caller c c' ->
    talk serial c (Answered caller (Err (CallError.Closed code))) (c' <| closing := true |>).

(** The runs of the machine, over a log with the newest entry first. *)
Inductive talks (serial : bool) : list Entry -> calls -> Prop :=
| talks_nil : talks serial [] no_calls
| talks_cons e log c c' : talks serial log c -> talk serial c e c' -> talks serial (e :: log) c'.

(** ** What the machine guarantees *)

Definition taken (log : list Entry) : list Z :=
  omap (fun e => match e with Taken call => Some (OutboundCall.reply call) | _ => None end) log.
Definition settled (log : list Entry) : list Z :=
  omap (fun e => match e with Answered caller _ | Dropped caller => Some caller | _ => None end) log.
Definition open_callers (c : calls) : list Z :=
  map OutboundCall.reply (waiting c) ++ map (fun p => Pending.reply p.2) (map_to_list (outstanding c)).

Lemma leave_open caller c c' :
  leave caller c c' -> open_callers c ≡ₚ caller :: open_callers c'.
Proof.
  destruct 1 as [l1 call l2 c Hw Hc|id p c Ho Hp]; unfold open_callers; simpl.
  - rewrite Hw, !map_app, <- !app_assoc. simpl. rewrite Hc. by rewrite <- Permutation_middle.
  - rewrite <- (map_to_list_delete _ _ _ Ho). simpl. by rewrite Hp, Permutation_middle.
Qed.
(** Every caller that came is settled, or waits, or has a CALL that is outstanding. *)
Lemma talk_accounted serial c e c' :
  talk serial c e c' ->
  taken [e] ++ open_callers c ≡ₚ settled [e] ++ open_callers c'.
Proof.
  destruct 1 as [call c|text c _ _ _|e c|m c Hm|id call l c _ _ _ _ _|id p c _ _ Ho|id call l n c _ Hw _ Ho _
    |id p r c _ Ho _|id p n c _ Ho _ _|l1 call l2 n c _ Hw _ _ _|id p payload n c _ Ho _ _ _|caller code c c' Hl];
    cbn [taken settled omap list_omap app]; try done.
  - unfold open_callers. simpl. rewrite map_app, <- app_assoc. simpl. by rewrite <- Permutation_middle.
  - exact (leave_open _ _ _ (leave_table (Pending.reply p) id p c Ho eq_refl)).
  - unfold open_callers. simpl. rewrite Hw, map_to_list_insert by done. simpl. by rewrite <- Permutation_middle.
  - exact (leave_open _ _ _ (leave_table (Pending.reply p) id p c Ho eq_refl)).
  - exact (leave_open _ _ _ (leave_table (Pending.reply p) id p c Ho eq_refl)).
  - exact (leave_open _ _ _ (leave_queue (OutboundCall.reply call) l1 call l2 c Hw eq_refl)).
  - exact (leave_open _ _ _ (leave_table (Pending.reply p) id p c Ho eq_refl)).
  - exact (leave_open _ _ _ Hl).
Qed.
Lemma talks_accounted serial log c :
  talks serial log c -> taken log ≡ₚ settled log ++ open_callers c.
Proof.
  induction 1 as [|e log c c' _ IH He]; [done|]. apply talk_accounted in He.
  change (taken (e :: log)) with (omap (fun e => match e with Taken call => Some (OutboundCall.reply call) | _ => None end) ([e] ++ log)).
  change (settled (e :: log)) with (omap (fun e => match e with Answered caller _ | Dropped caller => Some caller | _ => None end) ([e] ++ log)).
  rewrite !omap_app. fold (taken [e]) (taken log) (settled [e]) (settled log). rewrite IH.
  rewrite Permutation_app_swap_app, He, Permutation_app_swap_app. by rewrite app_assoc.
Qed.
End machine.

(** ** Reasoning about computations *)

Section keeps.
Context {J : SerdeJson}.

Definition keeps {A} (I : Task.t -> Prop) (m : flow A) : Prop := forall t, I t -> I (m t).1.

Lemma keeps_ret {A} I (x : A) : keeps I (mret x).
Proof. by intros t. Qed.
Lemma keeps_stop {A} I s : keeps I (stop_with (A:=A) s).
Proof. by intros t. Qed.
Lemma keeps_bind {A B} I (m : flow A) (k : A -> flow B) :
  keeps I m -> (forall x, keeps I (k x)) -> keeps I (m ≫= k).
Proof.
  intros Hm Hk t Ht. specialize (Hm t Ht). unfold mbind, flow_bind.
  destruct (m t) as [t' [x|s]]; [by apply Hk|done].
Qed.
Lemma keeps_attempt {A} I (m : flow A) : keeps I m -> keeps I (attempt m).
Proof. intros Hm t Ht. specialize (Hm t Ht). unfold attempt. by destruct (m t). Qed.
Lemma keeps_get I : keeps I get.
Proof. by intros t. Qed.
Lemma bind_eq {A B} (m : flow A) (k : A -> flow B) t :
  (m ≫= k) t = match m t with (t', Ok x) => k x t' | (t', Err s) => (t', Err s) end.
Proof. done. Qed.
End keeps.

(** ** The task runs the machine *)

Create HintDb flows.

Section refinement.
Context {J : SerdeJson} {T : JsonText} {V : Schema.JsonSchema} {E : Env}.
Implicit Types (t : Task.t) (c : calls).

(** A rule of the machine, with its records evaluated. *)
Ltac rule H := let Hr := fresh "Hr" in pose proof H as Hr; cbn in Hr |- *; apply Hr; try done.

(** A run of the machine that has asked at most [b] questions. *)
Definition runs (serial : bool) c (b : Z) (log : list Entry) : Prop :=
  exists n, n <= b /\ talks serial log (c <| asked := n |>).
Lemma runs_mono serial c b b' log : b <= b' -> runs serial c b log -> runs serial c b' log.
Proof. intros Hb (n & Hn & Ht). exists n. split; [lia|done]. Qed.
Lemma runs_same serial c c' b e log :
  (forall n, talk serial (c <| asked := n |>) e (c' <| asked := n |>)) ->
  runs serial c b log -> runs serial c' b (e :: log).
Proof. intros He (n & Hn & Ht). exists n. split; [done|]. econstructor; [exact Ht|]. apply He. Qed.
(** An entry that rests on the question [n]. *)
Lemma runs_asked serial c c' n e log :
  (forall k, k <= Z.succ n -> talk serial (c <| asked := k |>) e (c' <| asked := Z.succ n |>)) ->
  runs serial c (Z.succ n) log -> runs serial c' (Z.succ n) (e :: log).
Proof.
  intros He (k & Hk & Ht). exists (Z.succ n). split; [done|]. econstructor; [exact Ht|]. by apply He.
Qed.

(** The log is a run that leads to the table of the task; [q] is its queue. *)
Definition follows (serial : bool) c (q : list OutboundCall.t) t : Prop :=
  Task.serialize t = serial /\ Task.queue t = q /\ Task.pending t = outstanding c /\
  runs serial c (Task.tick t) (Task.log t).

(** What neither the log nor the calls show. *)
Lemma keeps_modify serial c q f :
  (forall t, Task.serialize (f t) = Task.serialize t /\ Task.log (f t) = Task.log t /\
     Task.queue (f t) = Task.queue t /\ Task.pending (f t) = Task.pending t /\ Task.tick (f t) = Task.tick t) ->
  keeps (follows serial c q) (modify f).
Proof.
  intros Hf t Ht. destruct (Hf t) as (H1 & H2 & H3 & H4 & H5). unfold follows. simpl.
  by rewrite H1, H2, H3, H4, H5.
Qed.
Lemma follows_tick serial c q t :
  follows serial c q t -> follows serial c q (t <| Task.tick ::= Z.succ |>).
Proof.
  intros (Hs & Hq & Hp & Hr). split_and!; [done..|]. eapply runs_mono; [|exact Hr]. simpl. lia.
Qed.
Lemma keeps_ask {A} serial c q (f : Z -> A) : keeps (follows serial c q) (ask f).
Proof. intros t. apply follows_tick. Qed.
Lemma keeps_note serial c q e :
  (forall c, talk serial c e c) -> keeps (follows serial c q) (note e).
Proof.
  intros He t (Hs & Hq & Hp & Hr). split_and!; [done..|]. by apply (runs_same serial c c).
Qed.
Lemma keeps_emitted serial c q e : keeps (follows serial c q) (note (Emitted e)).
Proof. apply keeps_note. intros d. apply talk_emitted. Qed.

Definition no_call (m : option Outbound) : Prop := match m with Some m => is_call m = false | None => True end.
Lemma keeps_send_message serial c q m : no_call m -> keeps (follows serial c q) (send_message m).
Proof.
  intros Hm. apply keeps_bind; [apply keeps_ask|]. intros [|error|]; [|apply keeps_stop..].
  destruct m; [|apply keeps_ret]. apply keeps_note. intros d. by apply talk_sent.
Qed.
Lemma keeps_emit serial c q e : keeps (follows serial c q) (emit e).
Proof.
  apply keeps_bind; [apply keeps_ask|]. intros []; [apply keeps_emitted|apply keeps_stop].
Qed.
Lemma keeps_write serial c q frame action :
  is_call (OutText frame) = false -> keeps (follows serial c q) (write frame action).
Proof.
  intros Hf. apply keeps_bind; [by apply keeps_send_message|intros _]. apply keeps_bind; [by intros t|intros t].
  apply keeps_bind; [apply keeps_ask|intros ts; apply keeps_emit].
Qed.
#[local] Hint Resolve keeps_ret keeps_stop keeps_get keeps_ask keeps_emitted
  keeps_send_message keeps_emit keeps_write keeps_attempt : flows.
#[local] Hint Extern 1 (no_call _) => reflexivity : flows.
#[local] Hint Extern 1 (is_call _ = false) => reflexivity : flows.
#[local] Hint Extern 1 (keeps _ (modify _)) => (apply keeps_modify; by intros) : flows.
#[local] Hint Extern 1 (keeps _ (warn _)) => (apply keeps_emit) : flows.
#[local] Hint Extern 2 (keeps _ (_ ≫= _)) => (apply keeps_bind; [|intros]) : flows.

Lemma keeps_reply serial c q frame :
  is_call (OutText frame) = false -> keeps (follows serial c q) (reply frame).
Proof.
  intros Hf. apply keeps_bind; [auto with flows|intros t].
  destruct (Task.incoming t !! _) as [action|]; [|auto with flows].
  apply keeps_bind; [auto with flows|intros _]. unfold keeps. intros t' Ht'. rewrite bind_eq.
  destruct frame as [| |id code description details]; [done| |by apply keeps_write].
  destruct (Schema.validate_response action payload) as [x|violation]; [by apply keeps_write|].
  pose proof (keeps_emit serial c q (Event.ProtocolWarning (lit "reply to " ++ action
                            ++ lit " violates the OCPP 1.6J schema, InternalError sent instead: "
                            ++ Schema.show_violation violation)) t' Ht') as Hw.
  rewrite bind_eq. unfold warn. destruct (emit _ t') as [t1 [[]|stop]]; [|done]. by apply keeps_write.
Qed.
Lemma keeps_incoming_call serial c q id action payload :
  keeps (follows serial c q) (incoming_call id action payload).
Proof.
  apply keeps_bind; [auto with flows|intros t]. destruct (is_someb _); [auto with flows|].
  destruct (rejection action payload) as [[code description]|]; auto 6 with flows.
Qed.
Lemma keeps_ping serial c q : keeps (follows serial c q) ping.
Proof.
  apply keeps_bind; [auto with flows|intros t]. destruct (Task.awaiting_pong t); auto with flows.
Qed.

(** Between two steps nothing is half done and the queue is served; within a step it need not be.
    When a step ends the connection, the machine is only where the log says. *)
Definition steady (serial : bool) t : Prop :=
  exists c, closing c = false /\ written c = None /\ quiet c /\ follows serial c (waiting c) t.
Definition ready (serial : bool) t : Prop :=
  exists c, closing c = false /\ written c = None /\ quiet c /\ served serial c /\
    follows serial c (waiting c) t.
Definition loose (serial : bool) t : Prop := exists c, follows serial c (waiting c) t.
Definition lands {A} (serial : bool) (r : Task.t * result A Stop) : Prop :=
  match r with (t, Ok _) => ready serial t | (t, Err _) => loose serial t end.

Lemma ready_loose serial t : ready serial t -> loose serial t.
Proof. intros (c & _ & _ & _ & _ & Ht). by exists c. Qed.
(** A computation that leaves the calls alone. *)
Lemma lands_keeps {A} serial (m : flow A) t :
  (forall c, keeps (follows serial c (waiting c)) m) -> ready serial t -> lands serial (m t).
Proof.
  intros Hm (c & H1 & H2 & H3 & H5 & H4). apply (Hm c) in H4. unfold lands.
  destruct (m t) as [t' [x|stop]]; [by exists c|by exists c].
Qed.
Lemma lands_bind {A B} serial (m : flow A) (k : A -> flow B) t :
  lands serial (m t) -> (forall x t', ready serial t' -> lands serial (k x t')) -> lands serial ((m ≫= k) t).
Proof.
  rewrite bind_eq. unfold lands at 1. destruct (m t) as [t' [x|stop]]; [|done]. intros Ht Hk. by apply Hk.
Qed.

(** ** The queue *)

Lemma write_spec frame action t :
  let '(t', r) := write frame action t in
  Task.serialize t' = Task.serialize t /\ Task.queue t' = Task.queue t /\ Task.pending t' = Task.pending t /\
  Task.incoming t' = Task.incoming t /\ Task.tick t <= Task.tick t' /\
  match r with
  | Ok _ => exists record, Task.log t' = Emitted (Event.Frame record) :: Sent (OutText frame) :: Task.log t
  | Err _ => Task.log t' = Task.log t \/ Task.log t' = Sent (OutText frame) :: Task.log t
  end.
Proof.
  unfold write, send_message, emit. rewrite !bind_eq. simpl.
  destruct (write_at (Task.tick t)); simpl; [|split_and!; auto; lia..].
  unfold mbind, flow_bind, get, ask. simpl.
  match goal with |- context [listens_at ?n] => destruct (listens_at n) end; simpl; split_and!; eauto; lia.
Qed.

(** The first CALL of the queue has been written under [id], and is put into the table. *)
Lemma insert_pending_follows serial c q id call l n t :
  closing c = false -> written c = Some id -> waiting c = call :: l ->
  Task.serialize t = serial -> Task.queue t = q -> Task.pending t = outstanding c ->
  Z.succ n <= Task.tick t -> runs serial c (Z.succ n) (Task.log t) ->
  exists t' c', insert_pending id (pending_at n call) t = (t', Ok tt) /\ closing c' = false /\
    written c' = None /\ quiet c' /\ waiting c' = l /\ follows serial c' q t'.
Proof.
  intros Hcl Hw Hl Hs Hq Hp Hn Hr. set (m := base.delete id (outstanding c)).
  set (c1 := c <| outstanding := m |>). set (p := pending_at n call).
  set (c2 := c1 <| waiting := l |> <| outstanding ::= <[id := p]> |> <| heard := None |> <| written := None |>).
  assert (Hins : forall log, runs serial c1 (Z.succ n) log -> runs serial c2 (Z.succ n) (Outstanding id p :: log)).
  { intros log. apply runs_asked. intros k Hk.
    rule (talk_outstanding serial id call l n (c1 <| asked := k |>)). apply lookup_delete_eq. }
  assert (Heq : <[id := p]> (outstanding c) = outstanding c2) by (symmetry; apply insert_delete_eq).
  unfold insert_pending. rewrite bind_eq. simpl. rewrite bind_eq, Hp.
  destruct (outstanding c !! id) as [old|] eqn:Hold; simpl; (eexists; exists c2; split; [reflexivity|]);
    (do 4 (split; [done|])); (split; [done|]; split; [done|]; split; [simpl; rewrite Hp; exact Heq|]);
    (eapply runs_mono; [exact Hn|]); simpl; apply Hins.
  - revert Hr. apply runs_same. intros k. rule (talk_replaced serial id old (c <| asked := k |>)).
  - destruct Hr as (k & Hk & Ht). exists k. split; [done|]. unfold c1, m. rewrite delete_id by done. by destruct c.
Qed.

Lemma no_pending_empty t : no_pending t = true -> Task.pending t = ∅.
Proof. unfold no_pending. intros H. apply Nat.eqb_eq in H. by apply map_size_empty_inv. Qed.
Lemma no_pending_full t : negb (no_pending t) = true -> Task.pending t <> ∅.
Proof. unfold no_pending. intros H Hp. rewrite Hp, map_size_empty in H. done. Qed.

(** The first caller of the queue has given up. *)
Lemma head_gone serial c call rest n log :
  closing c = false -> written c = None -> waiting c = call :: rest ->
  gone_at n (OutboundCall.reply call) = true -> runs serial c (Z.succ n) log ->
  runs serial (c <| waiting := rest |>) (Z.succ n) (Dropped (OutboundCall.reply call) :: log).
Proof.
  intros H1 H2 H3 Hg. apply runs_asked. intros k Hk.
  rule (talk_gone serial [] call rest n (c <| asked := k |>)).
Qed.
(** The connection is given up while the first caller of the queue is at its turn. *)
Lemma head_closed serial c call rest code b log :
  waiting c = call :: rest -> runs serial c b log ->
  runs serial (c <| waiting := rest |> <| closing := true |>) b
    (Answered (OutboundCall.reply call) (Err (CallError.Closed code)) :: log).
Proof.
  intros Hw. apply runs_same. intros k.
  set (ck := c <| asked := k |>).
  exact (talk_closed serial _ code _ _ (leave_queue (OutboundCall.reply call) [] call rest ck Hw eq_refl)).
Qed.
Lemma head_written serial c id call rest b log :
  closing c = false -> quiet c -> waiting c = call :: rest -> written c = None ->
  (serial = true -> outstanding c = ∅) -> runs serial c b log ->
  runs serial (c <| written := Some id |>) b
    (Sent (OutText (Frame.Call id (OutboundCall.action call) (OutboundCall.payload call))) :: log).
Proof.
  intros H1 H2 H3 H4 H5. apply runs_same. intros k.
  rule (talk_written serial id call rest (c <| asked := k |>)).
Qed.

Lemma pump_queue_lands serial q c t :
  closing c = false -> written c = None -> quiet c -> waiting c = q -> follows serial c q t ->
  lands serial (pump_queue q t).
Proof.
  revert c t. induction q as [|call rest IH]; intros c t H1 H2 H3 Hw Ht.
  { exists c. split_and!; [done..|by left|by rewrite Hw]. }
  cbn [pump_queue]. rewrite bind_eq. cbn [get]. destruct (Task.serialize t && negb (no_pending t)) eqn:Ec.
  { exists c. split_and!; [done..|right|by rewrite Hw]. destruct Ht as (<- & _ & Hp & _).
    apply andb_true_iff in Ec as [Es En]. split; [done|]. rewrite <- Hp. by apply no_pending_full. }
  rewrite bind_eq. cbn [modify]. rewrite bind_eq. cbn [ask]. set (n := Task.tick _).
  set (t1 := over Task.tick _ _).
  assert (Ht1 : follows serial c rest t1).
  { destruct Ht as (Hs & _ & Hp & Hr). split_and!; [done..|]. eapply runs_mono; [|exact Hr]. simpl. lia. }
  assert (Hc : serial = true -> outstanding c = ∅).
  { intros Hser. destruct Ht as (Hs & _ & Hp & _). rewrite Hs, Hser in Ec. simpl in Ec.
    apply negb_false_iff in Ec. apply no_pending_empty in Ec. by rewrite <- Hp. }
  assert (Hn1 : Task.tick t1 = Z.succ n) by done. clearbody t1 n. clear Ht Ec.
  destruct Ht1 as (Hs & Hq & Hp & Hr). destruct (gone_at n (OutboundCall.reply call)) eqn:Hg.
  { rewrite bind_eq. cbn [note modify]. apply (IH (c <| waiting := rest |>)); [done..|].
    split_and!; [done..|]. simpl. rewrite Hn1 in *. by apply head_gone. }
  rewrite bind_eq. cbn [ask]. rewrite bind_eq. set (id := uuid_at _). set (t2 := over Task.tick _ t1).
  assert (Hr2 : runs serial c (Task.tick t2) (Task.log t2)) by (eapply runs_mono; [|exact Hr]; simpl; lia).
  unfold attempt. pose proof (write_spec (Frame.Call id (OutboundCall.action call) (OutboundCall.payload call))
    (Some (OutboundCall.action call)) t2) as Hwr.
  assert (Hpos := head_written serial c id call rest (Task.tick t2) (Task.log t2) H1 H3 Hw H2 Hc Hr2).
  destruct (write _ _ t2) as [t3 [[]|stop]]; destruct Hwr as (Hs3 & Hq3 & Hp3 & _ & Hn3 & Hl3).
  - rewrite bind_eq. unfold deadline_after. rewrite bind_eq. cbn [ask mret flow_ret].
    rewrite bind_eq. set (t4 := over Task.tick _ t3). destruct Hl3 as [record Hl3].
    destruct (insert_pending_follows serial (c <| written := Some id |>) rest id call rest (Task.tick t3) t4)
      as (t5 & c5 & Hins & C1 & C2 & C3 & C4 & C5); try done.
    + by rewrite <- Hs.
    + by rewrite <- Hq.
    + change (Task.pending t3 = outstanding c). by rewrite Hp3, <- Hp.
    + simpl. rewrite Hl3. apply (runs_same serial _ _ _ _ _ (fun k => talk_emitted serial _ _)).
      eapply runs_mono; [|exact Hpos]. lia.
    + unfold pending_at in Hins. rewrite Hins. by apply (IH c5).
  - rewrite bind_eq. unfold answer. cbn [note modify stop_with].
    destruct Hl3 as [Hl3|Hl3]; [exists (c <| waiting := rest |> <| closing := true |>)
                               |exists (c <| written := Some id |> <| waiting := rest |> <| closing := true |>)];
      (split_and!; [by rewrite <- Hs|by rewrite <- Hq|change (Task.pending t3 = outstanding c); by rewrite Hp3, <- Hp|]);
      simpl; rewrite Hl3.
    + apply (head_closed serial c call rest); [done|by eapply runs_mono].
    + set (c1 := c <| written := Some id |>) in *. apply (head_closed serial c1 call rest); [done|by eapply runs_mono].
Qed.
Lemma pump_lands serial t : steady serial t -> lands serial (pump t).
Proof.
  intros (c & H1 & H2 & H3 & Ht). unfold pump. rewrite bind_eq. cbn [get]. pose proof Ht as (_ & -> & _).
  by apply (pump_queue_lands serial (waiting c) c).
Qed.

(** ** Answers *)

Lemma quiet_deleted c id : quiet c -> quiet (c <| outstanding ::= base.delete id |>).
Proof.
  unfold quiet. simpl. destruct (heard c) as [[| |]|]; try done; intros Hn; rewrite lookup_delete_None; auto.
Qed.
(** An outstanding CALL is answered. *)
Lemma settle_answered serial c q id p r t :
  closing c = false -> written c = None -> outstanding c !! id = Some p -> justified (heard c) id p r ->
  follows serial c q t ->
  follows serial (c <| outstanding ::= base.delete id |>) q
    (t <| Task.pending ::= base.delete id |> <| Task.log ::= cons (Answered (Pending.reply p) r) |>).
Proof.
  intros Hc Hw Hp Hj (Hs & Hq & Hpe & Hr). split_and!; [done..| |]; simpl; [by rewrite Hpe|].
  revert Hr. apply runs_same. intros n. set (cn := c <| asked := n |>).
  exact (talk_answered serial id p r cn Hc Hp Hj).
Qed.
Lemma take_none id t : Task.pending t !! id = None -> t <| Task.pending ::= base.delete id |> = t.
Proof. intros Hn. destruct t. simpl in *. by rewrite delete_id. Qed.
Lemma take_pending_eq id t :
  take_pending id t = (t <| Task.pending ::= base.delete id |>, Ok (Task.pending t !! id)).
Proof. done. Qed.

(** The answer [frame] has been received; the CALL with its id is outstanding. *)
Definition received (serial : bool) (frame : Frame.t) t : Prop :=
  exists c, closing c = false /\ written c = None /\ heard c = Some frame /\ served serial c /\
    follows serial c (waiting c) t.
Lemma quiet_settled c frame id :
  heard c = Some frame -> Frame.id frame = id -> quiet (c <| outstanding ::= base.delete id |>).
Proof.
  unfold quiet. simpl. intros -> <-. destruct frame; simpl; try done; apply lookup_delete_eq.
Qed.
Lemma quiet_unknown c frame :
  heard c = Some frame -> outstanding c !! Frame.id frame = None -> quiet c.
Proof. unfold quiet. intros ->. by destruct frame. Qed.

Lemma call_error_lands serial id code description details t :
  received serial (Frame.CallError id code description details) t ->
  lands serial (call_error id code description details t).
Proof.
  intros (c & H1 & H2 & H3 & H4 & Ht). unfold call_error. rewrite bind_eq, take_pending_eq.
  pose proof Ht as (_ & _ & Hp & _). destruct (Task.pending t !! id) as [p|] eqn:Hpe; rewrite Hp in Hpe.
  - rewrite bind_eq. cbn [answer note modify]. apply pump_lands.
    exists (c <| outstanding ::= base.delete id |>). split_and!; [done|done|by eapply quiet_settled|].
    apply settle_answered; try done. rewrite H3. by constructor.
  - rewrite <- Hp in Hpe. rewrite take_none by done. exists c. split_and!; try done.
    apply (quiet_unknown c _ H3). simpl. by rewrite <- Hp.
Qed.

Lemma call_result_lands serial id payload t :
  received serial (Frame.CallResult id payload) t -> lands serial (call_result id payload t).
Proof.
  intros (c & H1 & H2 & H3 & H4 & Ht). unfold call_result. rewrite bind_eq, take_pending_eq.
  pose proof Ht as (_ & _ & Hp & _). destruct (Task.pending t !! id) as [p|] eqn:Hpe;
    [|rewrite take_none by done; exists c; split_and!; try done; apply (quiet_unknown c _ H3); simpl; by rewrite <- Hp].
  rewrite Hp in Hpe. set (c1 := c <| outstanding ::= base.delete id |>).
  assert (Hq1 : quiet c1) by (by eapply quiet_settled).
  rewrite bind_eq. destruct (Schema.validate_response _ payload) as [[]|violation] eqn:Hv.
  { cbn [answer note modify]. apply pump_lands. exists c1. split_and!; try done.
    apply settle_answered; try done. rewrite H3. by constructor. }
  rewrite bind_eq. unfold attempt, warn. set (e := Event.ProtocolWarning _).
  assert (Hj : justified (heard c) id p (Err CallError.Schema)) by (rewrite H3; econstructor; [done|by rewrite Hv]).
  unfold emit. rewrite bind_eq. cbn [ask]. set (n := Task.tick _).
  destruct (listens_at n) eqn:Hl; cbn [note modify stop_with].
  - cbn [answer note modify]. apply pump_lands. exists c1. split_and!; try done.
    pose proof (keeps_emitted serial c _ e _ (follows_tick serial c _ t Ht)) as He.
    exact (settle_answered serial c _ id p _ (note (Emitted e) (t <| Task.tick ::= Z.succ |>)).1 H1 H2 Hpe Hj He).
  - rewrite bind_eq. cbn [note modify stop_with]. exists (c1 <| closing := true |>).
    destruct Ht as (Hs & Hqu & _ & Hr). split_and!; [done..|simpl; by rewrite Hp|]. simpl.
    assert (Hr' : runs serial c (Z.succ n) (Task.log t)) by (eapply runs_mono; [|exact Hr]; unfold n; simpl; lia).
    revert Hr'. apply runs_asked. intros k Hk. set (ck := c <| asked := k |>).
    exact (talk_unheard serial id p payload n ck H1 Hpe H3 Hk Hl).
Qed.

(** ** Timeouts *)

Lemma due_spec now t id p : id ∈ due now t -> Task.pending t !! id = Some p -> Pending.deadline p <= now.
Proof.
  unfold due. intros Hin Hp. apply list_elem_of_fmap in Hin as ([id' p'] & -> & Hin). simpl in *.
  apply list_elem_of_In, retain_In in Hin as [Hin Hd]. apply list_elem_of_In, elem_of_map_to_list in Hin.
  simpl in Hd. rewrite Hp in Hin. simplify_eq. by apply Z.leb_le.
Qed.
Lemma expire_each_ready serial c n ids t :
  closing c = false -> written c = None -> quiet c ->
  Task.serialize t = serial -> Task.queue t = waiting c -> Task.pending t = outstanding c ->
  Z.succ n <= Task.tick t -> runs serial c (Z.succ n) (Task.log t) ->
  (forall id p, id ∈ ids -> outstanding c !! id = Some p -> Pending.deadline p <= instant_at n) ->
  exists t', expire_each ids t = (t', Ok tt) /\ steady serial t'.
Proof.
  revert c t. induction ids as [|id ids IH]; intros c t H1 H2 H3 Hs Hq Hp Hn Hr Hd.
  { exists t. split; [done|]. exists c. do 3 (split; [done|]). split_and!; try done. by eapply runs_mono. }
  cbn [expire_each]. rewrite bind_eq, take_pending_eq, bind_eq, Hp.
  destruct (outstanding c !! id) as [p|] eqn:Hpe; cbn [answer note modify mret flow_ret].
  - apply (IH (c <| outstanding ::= base.delete id |>)); try done; simpl.
    + by apply quiet_deleted.
    + by rewrite Hp.
    + revert Hr. apply runs_asked. intros k Hk. set (ck := c <| asked := k |>).
      exact (talk_timeout serial id p n ck H1 Hpe Hk (Hd id p ltac:(by left) Hpe)).
    + intros id' p' Hin Hl. apply lookup_delete_Some in Hl as [_ Hl]. apply (Hd id' p'); [by right|done].
  - rewrite take_none by (by rewrite Hp). apply (IH c); try done.
    intros id' p' Hin Hl. apply (Hd id' p'); [by right|done].
Qed.
Lemma expire_lands serial t : ready serial t -> lands serial (expire t).
Proof.
  intros (c & H1 & H2 & H3 & _ & Hs & Hq & Hp & Hr). unfold expire. rewrite !bind_eq. cbn [ask]. rewrite bind_eq.
  cbn [get]. rewrite bind_eq. set (n := Task.tick t). set (t1 := over Task.tick _ t).
  destruct (expire_each_ready serial c n (due (instant_at n) t1) t1) as (t2 & -> & H); try done.
  - eapply runs_mono; [|exact Hr]. unfold n. lia.
  - intros id p Hin Hl. apply (due_spec _ t1 id p Hin). simpl. by rewrite Hp.
  - by apply pump_lands.
Qed.

(** What is logged stays logged. *)
Definition logged (e : Entry) t : Prop := e ∈ Task.log t.
Lemma keeps_logged_note e x : keeps (logged e) (note x).
Proof. intros t Ht. by right. Qed.
Lemma keeps_logged_modify e f : (forall t, Task.log (f t) = Task.log t) -> keeps (logged e) (modify f).
Proof. intros Hf t Ht. unfold logged. simpl. by rewrite Hf. Qed.
Lemma keeps_logged_ask {A} e (f : Z -> A) : keeps (logged e) (ask f).
Proof. by intros t. Qed.
Lemma keeps_logged_emit e x : keeps (logged e) (emit x).
Proof.
  apply keeps_bind; [apply keeps_logged_ask|]. intros []; [apply keeps_logged_note|apply keeps_stop].
Qed.
Lemma keeps_logged_write e frame action : keeps (logged e) (write frame action).
Proof.
  apply keeps_bind; [|intros _; apply keeps_bind; [by intros t|intros t]].
  - apply keeps_bind; [apply keeps_logged_ask|]. intros [| |]; [apply keeps_logged_note|apply keeps_stop..].
  - apply keeps_bind; [apply keeps_logged_ask|]. intros ts. apply keeps_logged_emit.
Qed.
Lemma keeps_logged_pump e q : keeps (logged e) (pump_queue q).
Proof.
  induction q as [|call q IH]; [apply keeps_ret|]. cbn [pump_queue]. apply keeps_bind; [by intros t|intros t].
  destruct (_ && _); [apply keeps_ret|]. apply keeps_bind; [by apply keeps_logged_modify|intros _].
  apply keeps_bind; [apply keeps_logged_ask|intros gone].
  destruct (gone _); [apply keeps_bind; [apply keeps_logged_note|done]|].
  apply keeps_bind; [apply keeps_logged_ask|intros id].
  apply keeps_bind; [apply keeps_attempt, keeps_logged_write|].
  intros [[]|stop]; [|apply keeps_bind; [apply keeps_logged_note|intros _; apply keeps_stop]].
  unfold deadline_after. apply keeps_bind; [by intros t'|intros d]. apply keeps_bind; [|done].
  apply keeps_bind; [by intros t'|intros t']. apply keeps_bind; [|intros _; apply keeps_bind].
  - destruct (Task.pending t' !! id); [apply keeps_logged_note|apply keeps_ret].
  - by apply keeps_logged_modify.
  - intros _. apply keeps_logged_note.
Qed.
Definition timeout_entry (p : Pending.t) : Entry :=
  Answered (Pending.reply p) (Err (CallError.Timeout (Pending.action p) (Pending.timeout p))).
Lemma expire_each_logged ids t id p :
  id ∈ ids -> Task.pending t !! id = Some p -> logged (timeout_entry p) (expire_each ids t).1.
Proof.
  assert (Hkeep : forall e l, keeps (logged e) (expire_each l)).
  { intros e l. induction l as [|x l IH]; [apply keeps_ret|]. apply keeps_bind; [by intros t'|]. intros found.
    apply keeps_bind; [destruct found; [apply keeps_logged_note|apply keeps_ret]|done]. }
  revert t. induction ids as [|x ids IH]; intros t Hin Hp; [by inversion Hin|].
  cbn [expire_each]. rewrite bind_eq, take_pending_eq, bind_eq. destruct (decide (x = id)) as [->|Hne].
  - rewrite Hp. cbn [answer note modify]. apply Hkeep. by left.
  - apply elem_of_cons in Hin as [->|Hin]; [done|].
    destruct (Task.pending t !! x) as [px|]; cbn [answer note modify mret flow_ret];
      (apply IH; [done|]); simpl; by rewrite lookup_delete_ne.
Qed.
(** A deadline that has passed when the task looks is a timeout for its caller. *)
Lemma expire_logged t id p :
  Task.pending t !! id = Some p -> Pending.deadline p <= instant_at (Task.tick t) ->
  logged (timeout_entry p) (expire t).1.
Proof.
  intros Hp Hd. unfold expire. rewrite !bind_eq. cbn [ask]. rewrite bind_eq. cbn [get]. rewrite bind_eq.
  set (t1 := over Task.tick _ t).
  assert (Hin : id ∈ due (instant_at (Task.tick t)) t1).
  { unfold due. apply list_elem_of_fmap. exists (id, p). split; [done|].
    apply list_elem_of_In, retain_In. split; [by apply list_elem_of_In, elem_of_map_to_list|]. by apply Z.leb_le. }
  pose proof (expire_each_logged _ t1 id p Hin Hp) as Hl.
  destruct (expire_each _ t1) as [t2 [[]|stop]]; [|done]. revert t2 Hl.
  apply keeps_bind; [by intros t2|intros t2]. apply keeps_logged_pump.
Qed.

(** ** Steps, runs and the end *)

(** The owner of the connection replies with results and errors. *)
Definition is_reply (step : Step) : Prop :=
  match step with StepReply (Some (Frame.Call _ _ _)) => False | _ => True end.

Lemma incoming_text_lands serial text t : ready serial t -> lands serial (incoming_text text t).
Proof.
  intros (c & H1 & H2 & H3 & H4 & Hs & Hq & Hp & Hr). unfold incoming_text. rewrite bind_eq. cbn [note modify].
  rewrite bind_eq. cbn [ask]. set (c1 := c <| heard := frame_of text |>). set (t1 := over Task.tick _ _).
  assert (Hr1 : runs serial c1 (Task.tick t) (Received text :: Task.log t)).
  { revert Hr. apply runs_same. intros n. set (cn := c <| asked := n |>).
    exact (talk_received serial text cn H1 H3 H2). }
  assert (Ht1 : follows serial c1 (waiting c1) t1).
  { split_and!; try done. eapply runs_mono; [|exact Hr1]. simpl. lia. }
  assert (C : closing c1 = false /\ written c1 = None /\ heard c1 = frame_of text /\ served serial c1) by done.
  clearbody c1 t1. clear -Ht1 C. destruct C as (C1 & C2 & C3 & C4). unfold frame_of in C3.
  destruct (Frame.parse text) as [frame|error].
  - rewrite bind_eq. cbn [get]. rewrite bind_eq.
    set (action := match frame with Frame.Call _ _ _ => _ | _ => _ end).
    set (e := Event.Frame _). pose proof (keeps_emit serial c1 _ e t1 Ht1) as H2.
    destruct (emit e t1) as [t2 [[]|stop]]; [|by exists c1]. cbn [fst] in H2.
    destruct frame as [id name payload|id payload|id code description details].
    + apply lands_keeps; [intros d; apply keeps_incoming_call|]. exists c1. split_and!; try done.
      unfold quiet; by rewrite C3.
    + apply call_result_lands. by exists c1.
    + apply call_error_lands. by exists c1.
  - apply lands_keeps; [|exists c1; split_and!; try done; unfold quiet; by rewrite C3].
    intros d. destruct (Frame.reply error) as [answer|] eqn:Ha; [|auto with flows].
    apply keeps_bind; [auto with flows|intros _]. apply keeps_bind; [auto with flows|intros _].
    apply keeps_write. unfold Frame.reply in Ha. repeat case_match; by simplify_eq.
Qed.
Lemma incoming_message_lands serial m t : ready serial t -> lands serial (incoming_message m t).
Proof.
  intros Ht. destruct m as [text|bytes| | |frame|]; [by apply incoming_text_lands| | | | |done].
  - cbn [incoming_message]. destruct (from_utf8 bytes); [by apply incoming_text_lands|].
    apply lands_keeps; [intros d; apply keeps_emit|done].
  - apply lands_keeps; [intros d; by apply keeps_send_message|done].
  - apply lands_keeps; [intros d; by apply keeps_modify|done].
  - by apply ready_loose.
Qed.

Lemma drop_closed serial n q : forall pre c log,
  closing c = false -> written c = None -> waiting c = pre ++ q -> runs serial c (Z.succ n) log ->
  let closed call := gone_at n (OutboundCall.reply call) in
  runs serial (c <| waiting := pre ++ retain (fun call => negb (closed call)) q |>) (Z.succ n)
    (map (fun call => Dropped (OutboundCall.reply call)) (rev (retain closed q)) ++ log).
Proof.
  induction q as [|call q IH]; intros pre c log H1 H2 Hw Hr; cbv zeta.
  { destruct c. simpl in *. by rewrite <- Hw. }
  cbn [List.filter]. destruct (gone_at n (OutboundCall.reply call)) eqn:Hg; cbn [negb].
  - cbn [rev]. rewrite map_app, <- app_assoc. set (c1 := c <| waiting := pre ++ q |>).
    assert (Hr1 : runs serial c1 (Z.succ n) (Dropped (OutboundCall.reply call) :: log)).
    { revert Hr. apply runs_asked. intros k Hk. set (ck := c <| asked := k |>).
      exact (talk_gone serial pre call q n ck H1 Hw H2 Hk Hg). }
    exact (IH pre c1 _ H1 H2 eq_refl Hr1).
  - change (call :: ?l) with ([call] ++ l). rewrite app_assoc. apply IH; try done. by rewrite <- app_assoc.
Qed.
Lemma withdraw_gone_ready serial t :
  ready serial t -> exists t', withdraw_gone t = (t', Ok tt) /\ steady serial t'.
Proof.
  intros (c & H1 & H2 & H3 & _ & Hs & Hq & Hp & Hr). unfold withdraw_gone. rewrite bind_eq. cbn [ask]. rewrite bind_eq.
  cbn [get modify]. eexists. split; [reflexivity|]. set (n := Task.tick t).
  exists (c <| waiting := retain (fun call => negb (gone_at n (OutboundCall.reply call))) (waiting c) |>).
  do 3 (split; [done|]). split_and!; [done|simpl; by rewrite Hq|done|]. simpl. rewrite Hq.
  apply (drop_closed serial n (waiting c) []); try done. eapply runs_mono; [|exact Hr]. unfold n. lia.
Qed.

Lemma handle_lands serial step t : is_reply step -> ready serial t -> lands serial (handle step t).
Proof.
  intros Hrep Ht. destruct step as [[[call|]|]|[frame|]|[[m|error]|]| |]; try (by apply ready_loose); try done.
  - cbn [handle]. rewrite bind_eq. destruct (withdraw_gone_ready serial t Ht) as (t1 & -> & H1). rewrite bind_eq.
    cbn [modify]. rewrite bind_eq. cbn [note modify]. apply pump_lands.
    destruct H1 as (c & C1 & C2 & C3 & Hs & Hq & Hp & Hr).
    exists (c <| waiting ::= fun l => l ++ [call] |>). do 3 (split; [done|]).
    split_and!; [done|simpl; by rewrite Hq|done|]. revert Hr. apply runs_same. intros n.
    set (cn := c <| asked := n |>). exact (talk_taken serial call cn).
  - apply lands_keeps; [|done]. intros d. apply keeps_reply. by destruct frame.
  - by apply incoming_message_lands.
  - by apply expire_lands.
  - apply lands_keeps; [|done]. intros d. apply keeps_ping.
Qed.
Lemma loop_lands serial steps t : Forall is_reply steps -> ready serial t -> lands serial (loop steps t).
Proof.
  intros Hsteps. revert t. induction Hsteps as [|step steps Hstep _ IH]; intros t Ht; [done|]. cbn [loop].
  apply lands_bind; [by apply handle_lands|]. intros _ t' Ht'. by apply IH.
Qed.

Lemma fail_table serial code b l : forall c log,
  l ≡ₚ map_to_list (outstanding c) -> runs serial c b log ->
  exists c', waiting c' = waiting c /\ outstanding c' = ∅ /\
    runs serial c' b (map (fun p => Answered (Pending.reply p.2) (Err (CallError.Closed code))) (rev l) ++ log).
Proof.
  induction l as [|[id p] l IH]; intros c log Hl Hr.
  - apply Permutation_nil_l in Hl. symmetry in Hl. apply map_to_list_empty_iff in Hl. by exists c.
  - assert (Hp : outstanding c !! id = Some p) by (apply elem_of_map_to_list; rewrite <- Hl; by left).
    cbn [rev]. rewrite map_app, <- app_assoc.
    set (c1 := c <| outstanding ::= base.delete id |> <| closing := true |>).
    refine (IH c1 _ _ _).
    + rewrite <- (map_to_list_delete _ id p Hp) in Hl. by apply Permutation_cons_inv in Hl.
    + revert Hr. apply runs_same. intros n. set (cn := c <| asked := n |>).
      exact (talk_closed serial _ code cn _ (leave_table _ id p cn Hp eq_refl)).
Qed.
Lemma fail_queue serial code b q : forall c log,
  waiting c = q -> runs serial c b log ->
  exists c', waiting c' = [] /\ outstanding c' = outstanding c /\
    runs serial c' b (map (fun call => Answered (OutboundCall.reply call) (Err (CallError.Closed code))) (rev q) ++ log).
Proof.
  induction q as [|call q IH]; intros c log Hw Hr; [by exists c|].
  cbn [rev]. rewrite map_app, <- app_assoc.
  set (c1 := c <| waiting := q |> <| closing := true |>).
  refine (IH c1 _ eq_refl _). by apply (head_closed serial c call q).
Qed.

(** Nobody waits any more. *)
Definition over_ (serial : bool) t : Prop :=
  exists c, waiting c = [] /\ outstanding c = ∅ /\ follows serial c [] t.
Lemma keeps_over {A} serial (m : flow A) : (forall c, keeps (follows serial c []) m) -> keeps (over_ serial) m.
Proof. intros Hm t (c & Hw & Ho & Ht). exists c. split_and!; [done|done|by apply Hm]. Qed.

Lemma fail_all_over serial code t : loose serial t -> over_ serial (fail_all code t).1.
Proof.
  intros (c & Hs & Hq & Hp & Hr).
  destruct (fail_table serial code (Task.tick t) (map_to_list (Task.pending t)) c (Task.log t)) as (c1 & Hw1 & Ho1 & Hr1);
    [by rewrite Hp|done|].
  destruct (fail_queue serial code (Task.tick t) (Task.queue t) c1 _ ltac:(by rewrite Hw1, Hq) Hr1) as (c2 & Hw2 & Ho2 & Hr2).
  exists c2. split_and!; [done|by rewrite Ho2|]. split_and!; [done..|by rewrite Ho2|exact Hr2].
Qed.
Lemma fail_commands_over serial code commands t :
  over_ serial t -> exists t', fail_commands code commands t = (t', Ok tt) /\ over_ serial t'.
Proof.
  revert t. induction commands as [|[call|] commands IH]; intros t Ht; [by eexists| |by apply IH].
  cbn [fail_commands]. rewrite bind_eq. cbn [note modify]. rewrite bind_eq. cbn [answer note modify].
  apply IH. destruct Ht as (c & Hw & Ho & Hs & Hq & Hp & Hr).
  set (c1 := c <| waiting ::= fun l => l ++ [call] |>).
  assert (Hr1 : runs serial c1 (Task.tick t) (Taken call :: Task.log t)).
  { revert Hr. apply runs_same. intros n. set (cn := c <| asked := n |>). exact (talk_taken serial call cn). }
  exists (c1 <| waiting := [] |> <| closing := true |>). split_and!; [done|done|]. split_and!; [done..|].
  apply (head_closed serial c1 call []); [simpl; by rewrite Hw|exact Hr1].
Qed.

Lemma over_send serial m : no_call m -> keeps (over_ serial) (send_message m).
Proof. intros Hm. apply keeps_over. intros c. by apply keeps_send_message. Qed.
Lemma over_emit serial e : keeps (over_ serial) (emit e).
Proof. apply keeps_over. intros c. apply keeps_emit. Qed.
Lemma over_close_handshake serial stream in_time : keeps (over_ serial) (close_handshake stream in_time).
Proof.
  apply keeps_bind; [by apply keeps_attempt, over_send|]. intros [[]|]; [destruct in_time|]; apply keeps_ret.
Qed.

Lemma finish_over serial stop commands stream in_time t :
  loose serial t -> over_ serial (finish stop commands stream in_time t).1.
Proof.
  intros Ht. unfold finish. rewrite bind_eq. cbn [modify]. rewrite bind_eq.
  set (t1 := over Task.open _ t). assert (H1 : loose serial t1) by exact Ht. clearbody t1.
  apply (fail_all_over serial (known_code stop)) in H1.
  unfold fail_all in *. cbn [modify fst] in *. set (t2 := over Task.log _ _) in *. clearbody t2.
  rewrite bind_eq.
  destruct (fail_commands_over serial (known_code stop) commands t2 H1) as (t3 & -> & H3).
  revert t3 H3. apply keeps_bind; [by intros t3|intros _]. apply keeps_bind.
  - destruct stop as [|frame|why by_us].
    + apply keeps_bind; [apply over_close_handshake|]. intros [code why]. apply keeps_ret.
    + apply keeps_bind; [by apply keeps_attempt, over_send|]. intros _. destruct (frame_code_and_reason frame). apply keeps_ret.
    + apply keeps_ret.
  - intros [[code why] by_us]. apply keeps_bind; [apply keeps_attempt, over_emit|]. intros _. apply keeps_ret.
Qed.

Lemma new_task_ready serial show : ready serial (new_task serial show).
Proof. exists no_calls. do 3 (split; [done|]). split; [by left|]. split_and!; [done..|]. exists 0. split; [done|constructor]. Qed.

(** Claim C6: the connection task serves the callers of CALLs as its contract says, whatever
    arrives on the socket, whichever writes fail, however time passes and whenever callers give
    up. A CALL is written for the first caller that waits, once and as it was queued, and, when
    CALLs are serialized, only while none is outstanding; then it awaits its answer under the id
    it was written with. Between two steps nobody waits but for an outstanding serialized CALL.
    An answer with the id of a CALL is dealt with before anything else is read: the
    caller gets the payload of a CALLRESULT that is valid for its action, [Schema] for an invalid
    one, or the CALLERROR. A caller gets a timeout only when the clock has shown its deadline, and
    then gets it as soon as the task looks; it is dropped from the queue only when it has given
    up, and gets [Closed] only when the connection is given up for everybody. Every caller is settled at most once, and when the connection has
    ended every caller has been settled. *)
Theorem ws_calls serial show steps commands stream in_time :
  Forall is_reply steps ->
  let r := run (new_task serial show) steps commands stream in_time in
  let t := r.1 in let ended := r.2 in
  (exists c, talks serial (Task.log t) c /\
     waiting c = Task.queue t /\ outstanding c = Task.pending t /\ asked c <= Task.tick t /\
     (ended = false -> closing c = false /\ written c = None /\ quiet c /\ served serial c)) /\
  taken (Task.log t) ≡ₚ settled (Task.log t) ++ map OutboundCall.reply (Task.queue t)
    ++ map (fun p => Pending.reply p.2) (map_to_list (Task.pending t)) /\
  (ended = true -> settled (Task.log t) ≡ₚ taken (Task.log t)) /\
  (forall id p, Task.pending t !! id = Some p -> Pending.deadline p <= instant_at (Task.tick t) ->
     Answered (Pending.reply p) (Err (CallError.Timeout (Pending.action p) (Pending.timeout p)))
       ∈ Task.log (handle StepTimeouts t).1).
Proof.
  intros Hsteps. pose proof (loop_lands serial steps _ Hsteps (new_task_ready serial show)) as Hl.
  unfold run. cbv zeta. destruct (loop steps _) as [t [[]|stop]].
  - destruct Hl as (c & H1 & H2 & H3 & H4 & Hs & Hq & Hp & n & Hn & Ht). cbn [fst snd].
    pose proof (talks_accounted serial _ _ Ht) as Ha. unfold open_callers in Ha. simpl in Ha.
    split_and!; [|by rewrite Hq, Hp|done|apply expire_logged]. exists (c <| asked := n |>). by split_and!.
  - apply (finish_over serial stop commands stream in_time) in Hl.
    destruct (finish stop commands stream in_time t) as [t' r]. cbn [fst snd] in *.
    destruct Hl as (c & Hw & Ho & Hs & Hq & Hp & n & Hn & Ht).
    pose proof (talks_accounted serial _ _ Ht) as Ha. unfold open_callers in Ha. simpl in Ha.
    rewrite Hw, Ho in Ha. rewrite Hq, Hp, Ho. rewrite map_to_list_empty in *. simpl in *. rewrite app_nil_r in *.
    split_and!; [|done|intros _; by symmetry|intros id p Hl; by rewrite lookup_empty in Hl].
    exists (c <| asked := n |>). split_and!; done.
Qed.
End refinement.

(** ** Two serialized CALLs: the first times out, the second is answered, a third is left *)

#[local] Existing Instance u64_json.
Definition nothing_wrong : Schema.JsonSchema := {| Schema.iter_errors _ _ _ := [] |}.
#[local] Existing Instance nothing_wrong.
(** The text [[n]] is the CALLRESULT with the id [[n]]. *)
Definition sample_text : JsonText (J:=u64_json) := {|
  json_from_str text :=
    match text with
    | [n] => Ok (Array [Num (3 : @Number u64_json); String [n]; Object []])
    | _ => Err (tt : @json_error u64_json)
    end;
  json_to_string _ := [] |}.
#[local] Existing Instance sample_text.
(** The socket works, nobody leaves, and the clock and the ids count. *)
Definition sample_env : Env := {|
  write_at _ := Written;
  listens_at _ := true;
  gone_at _ _ := false;
  uuid_at n := [n];
  utc_at _ := 0;
  instant_at n := n;
  instant_checked_add t d := Some (t + d) |}.
#[local] Existing Instance sample_env.

Definition sample_call (caller timeout : Z) : Step :=
  StepCommand (Some (CmdCall (OutboundCall.mk Actions.Heartbeat (Object []) timeout caller))).
Definition sample_steps : list Step :=
  [sample_call 70 2; sample_call 71 100; StepTimeouts; StepSocket (Some (Ok (InText [10])));
   sample_call 72 100; StepSocket None].

Lemma ws_calls_witness :
  let log := Task.log (run (new_task true false) sample_steps [] [] true).1 in
  settled log ≡ₚ taken log /\ rev (settled log) = [70; 71; 72] /\
  omap (fun e => match e with Outstanding id p => Some (id, Pending.reply p) | _ => None end) (rev log)
    = [([2], 70); ([10], 71); ([19], 72)].
Proof.
  destruct (ws_calls true false sample_steps [] [] true) as (_ & _ & H & _); [repeat constructor|]. cbv zeta.
  split; [apply H|]; vm_compute; [|split]; reflexivity.
Defined.
End WsCalls.
