(* ===== verification/WsAnswers.v ===== *)
(** * WsAnswers: the connection task answers no CALL of the CSMS twice

    Whatever the owner of the connection replies with and however the peer repeats its message
    ids, the number of answers written under an id never exceeds the number of CALLs received with
    that id. The steps keep a balance of the two, in which a CALL that awaits our reply counts as
    an answer that is still owed. *)

From stdpp Require Import strings gmap.
From S2P Require Import Prelude Text Utf8 Time Types Messages Frame Actions Schema Interface WsTask WsCalls.
Local Open Scope nat_scope.

Module WsAnswers.
Import (hints) WsTask.
Import WsTask.
Import WsCalls.

(** ** Counting *)

Section answers.
Context {J : SerdeJson} {T : JsonText} {V : Schema.JsonSchema} {E : Env}.
Implicit Types (t : Task.t) (id : str).

(** The id a frame answers, and the id under which a text asks for an answer. *)
Definition answers_to (frame : Frame.t) : option str :=
  match frame with
  | Frame.Call _ _ _ => None
  | Frame.CallResult id _ | Frame.CallError id _ _ _ => Some id
  end.
Definition asked_by (text : str) : option str :=
  match Frame.parse text with
  | Ok (Frame.Call id _ _) => Some id
  | Ok _ => None
  | Err e => Frame.reply e ≫= answers_to
  end.
Definition hit id (o : option str) : nat := if base.decide (o = Some id) then 1 else 0.
Lemma hit_none id : hit id None = 0.
Proof. done. Qed.
Definition answer_of (e : Entry) : option str :=
  match e with Sent (OutText frame) => answers_to frame | _ => None end.
Definition ask_of (e : Entry) : option str :=
  match e with Received text => asked_by text | _ => None end.
Fixpoint count_of (f : Entry -> option str) id (log : list Entry) : nat :=
  match log with
  | [] => 0
  | e :: log => hit id (f e) + count_of f id log
  end.
Definition answers := count_of answer_of.
Definition asks := count_of ask_of.
Definition held id t : nat := if is_someb (Task.incoming t !! id) then 1 else 0.

(** The answers written, those owed to the owner's CALLs and the one [owed] by the handler at
    work are all asked for. *)
Definition balance (owed : option str) t : Prop :=
  forall id, answers id (Task.log t) + held id t + hit id owed <= asks id (Task.log t).

Lemma balance_none owed t : balance owed t -> balance None t.
Proof. intros H id. specialize (H id). unfold hit in *. simpl. lia. Qed.

(** What neither answers nor asks. *)
Definition neutral (e : Entry) : Prop := answer_of e = None /\ ask_of e = None.
Lemma keeps_neutral owed e : neutral e -> keeps (balance owed) (note e).
Proof.
  intros [Ha Hq] t Ht id. specialize (Ht id). unfold note, modify, answers, asks. simpl. by rewrite Ha, Hq.
Qed.
Lemma balance_same owed t t' :
  Task.log t' = Task.log t -> Task.incoming t' = Task.incoming t -> balance owed t -> balance owed t'.
Proof. intros Hl Hi H id. specialize (H id). unfold held in *. by rewrite Hl, Hi. Qed.
Lemma keeps_aside owed f :
  (forall t, Task.log (f t) = Task.log t /\ Task.incoming (f t) = Task.incoming t) ->
  keeps (balance owed) (modify f).
Proof. intros Hf t Ht. destruct (Hf t). by apply (balance_same owed t). Qed.

Lemma balance_emit owed e : keeps (balance owed) (emit e).
Proof.
  apply keeps_bind; [by intros t|]. intros []; [by apply keeps_neutral|apply keeps_stop].
Qed.
(** Writing what is not an answer, and the answer that is owed. *)
Lemma balance_send owed m : match m with OutText f => answers_to f = None | _ => True end ->
  keeps (balance owed) (send_message (Some m)).
Proof.
  intros Hm. apply keeps_bind; [by intros t|]. intros [|error|]; [|apply keeps_stop..].
  apply keeps_neutral. split; [|done]. by destruct m.
Qed.
Lemma balance_flush owed : keeps (balance owed) (send_message None).
Proof.
  apply keeps_bind; [by intros t|]. intros [|error|]; [apply keeps_ret|apply keeps_stop..].
Qed.
Lemma balance_write_call owed frame action :
  answers_to frame = None -> keeps (balance owed) (write frame action).
Proof.
  intros Hf. apply keeps_bind; [by apply balance_send|intros _]. apply keeps_bind; [by intros t|intros t].
  apply keeps_bind; [by intros t'|intros ts; apply balance_emit].
Qed.
Lemma balance_write frame action t :
  balance (answers_to frame) t -> balance None (write frame action t).1.
Proof.
  intros Ht. pose proof (write_spec frame action t) as Hw. destruct (write frame action t) as [t' r].
  destruct Hw as (_ & _ & _ & Hi & _ & Hl).
  assert (Hl' : Task.log t' = Task.log t \/ Task.log t' = Sent (OutText frame) :: Task.log t \/
    exists e, Task.log t' = Emitted e :: Sent (OutText frame) :: Task.log t).
  { destruct r; [|tauto]. destruct Hl as [record ->]. eauto. }
  intros id. specialize (Ht id). unfold held in *. simpl. rewrite Hi.
  unfold answers, asks in *.
  destruct Hl' as [->|[->|[e ->]]]; cbn [count_of answer_of ask_of] in *; rewrite ?hit_none; lia.
Qed.
#[local] Hint Resolve keeps_ret keeps_stop keeps_get keeps_attempt balance_emit balance_send
  balance_flush balance_write_call : flows.
#[local] Hint Extern 1 (keeps _ (ask _)) => (by intros ?) : flows.
#[local] Hint Extern 1 (keeps _ (modify _)) => (apply keeps_aside; by intros) : flows.
#[local] Hint Extern 1 (keeps _ (note _)) => (by apply keeps_neutral) : flows.
#[local] Hint Extern 1 (keeps _ (answer _ _)) => (by apply keeps_neutral) : flows.
#[local] Hint Extern 1 (keeps _ (warn _)) => (apply balance_emit) : flows.
#[local] Hint Extern 2 (keeps _ (_ ≫= _)) => (apply keeps_bind; [|intros]) : flows.

(** ** CALLs of ours *)

Lemma balance_insert_pending owed id p : keeps (balance owed) (insert_pending id p).
Proof.
  apply keeps_bind; [auto with flows|intros t].
  apply keeps_bind; [destruct (Task.pending t !! id); auto with flows|auto with flows].
Qed.
Lemma balance_pump_queue owed q : keeps (balance owed) (pump_queue q).
Proof.
  induction q as [|call q IH]; [apply keeps_ret|]. cbn [pump_queue].
  apply keeps_bind; [auto with flows|intros t]. destruct (_ && _); [auto with flows|].
  apply keeps_bind; [auto with flows|intros _]. apply keeps_bind; [auto with flows|intros gone].
  destruct (gone _); [auto with flows|]. apply keeps_bind; [auto with flows|intros id].
  apply keeps_bind; [by apply keeps_attempt, balance_write_call|].
  intros [[]|stop]; [|auto with flows]. unfold deadline_after. apply keeps_bind; [auto with flows|intros d].
  apply keeps_bind; [apply balance_insert_pending|done].
Qed.
Lemma balance_pump owed : keeps (balance owed) pump.
Proof. apply keeps_bind; [auto with flows|intros t; apply balance_pump_queue]. Qed.
#[local] Hint Resolve balance_pump : flows.

Lemma balance_call_result owed id payload : keeps (balance owed) (call_result id payload).
Proof.
  apply keeps_bind; [unfold take_pending; auto with flows|]. intros [p|]; [|auto with flows].
  apply keeps_bind; [|auto with flows]. destruct (Schema.validate_response _ _); [auto with flows|].
  apply keeps_bind; [auto with flows|]. intros [[]|stop]; auto with flows.
Qed.
Lemma balance_call_error owed id code description details :
  keeps (balance owed) (call_error id code description details).
Proof.
  apply keeps_bind; [unfold take_pending; auto with flows|]. intros [p|]; auto with flows.
Qed.
Lemma balance_expire owed : keeps (balance owed) expire.
Proof.
  apply keeps_bind; [auto with flows|intros now]. apply keeps_bind; [auto with flows|intros t].
  apply keeps_bind; [|auto with flows]. induction (due now t) as [|id ids IH]; [apply keeps_ret|].
  cbn [expire_each]. apply keeps_bind; [unfold take_pending; auto with flows|].
  intros [p|]; auto with flows.
Qed.

(** ** CALLs of the CSMS *)

(** Runs [m], which may end the connection, and then [k]. *)
Lemma balance_then {A B} owed (m : flow A) (k : A -> flow B) t :
  keeps (balance owed) m -> balance owed t -> (forall x t', balance owed t' -> balance None (k x t').1) ->
  balance None ((m ≫= k) t).1.
Proof.
  intros Hm Ht Hk. rewrite bind_eq. specialize (Hm t Ht). destruct (m t) as [t' [x|stop]]; [by apply Hk|].
  by apply balance_none in Hm.
Qed.

Lemma hit_same id : hit id (Some id) = 1.
Proof. unfold hit. by rewrite decide_True. Qed.
Lemma hit_other id id' : id' <> id -> hit id (Some id') = 0.
Proof. intros Hn. unfold hit. rewrite decide_False; [done|]. congruence. Qed.

Lemma take_owed id action t :
  Task.incoming t !! id = Some action -> balance None t ->
  balance (Some id) (t <| Task.incoming ::= base.delete id |>).
Proof.
  intros Hi Ht id'. specialize (Ht id'). rewrite hit_none in Ht. unfold held in *.
  cbn [Task.incoming Task.log over] in *. destruct (base.decide (id = id')) as [<-|Hn].
  - rewrite lookup_delete_eq, hit_same. rewrite Hi in Ht. cbn [is_someb] in *. lia.
  - rewrite lookup_delete_ne, hit_other by done. lia.
Qed.
Lemma give_owed id action t :
  Task.incoming t !! id = None -> balance (Some id) t ->
  balance None (t <| Task.incoming ::= <[id := action]> |>).
Proof.
  intros Hi Ht id'. specialize (Ht id'). rewrite hit_none. unfold held in *.
  cbn [Task.incoming Task.log over] in *. destruct (base.decide (id = id')) as [<-|Hn].
  - rewrite hit_same in Ht. rewrite lookup_insert_eq. cbn [is_someb]. lia.
  - rewrite lookup_insert_ne by done. rewrite hit_other in Ht by done. lia.
Qed.

Lemma balance_warn_write owed e frame action t :
  balance owed t -> owed = answers_to frame ->
  balance None ((emit e;; write frame action) t).1.
Proof.
  intros Ht ->. rewrite bind_eq. apply (balance_emit _ e) in Ht.
  destruct (emit e t) as [t' [[]|stop]]; [by apply balance_write|by apply balance_none in Ht].
Qed.
Lemma balance_reply frame : keeps (balance None) (reply frame).
Proof.
  intros t Ht. unfold reply. rewrite bind_eq. cbn [get]. destruct (Task.incoming t !! _) as [action|] eqn:Hi; [|done].
  rewrite bind_eq. cbn [modify]. apply (take_owed _ _ _ Hi) in Ht. revert Ht.
  set (t1 := over Task.incoming _ t). clearbody t1. intros Ht.
  destruct frame as [id name payload|id payload|id code description details]; cbn [Frame.id] in *.
  - apply (balance_write_call None); [done|]. by apply balance_none in Ht.
  - destruct (Schema.validate_response action payload) as [[]|violation]; [by apply balance_write|].
    unfold warn. set (e := Event.ProtocolWarning _). set (frame := Frame.call_error _ _ _).
    pose proof (balance_warn_write (Some id) e frame (Some action) t1 Ht eq_refl) as H.
    rewrite bind_eq in H. rewrite !bind_eq. by destruct (emit e t1) as [t2 [[]|stop]].
  - by apply balance_write.
Qed.

Lemma balance_incoming_call id action payload t :
  balance (Some id) t -> balance None (incoming_call id action payload t).1.
Proof.
  intros Ht. unfold incoming_call. rewrite bind_eq. cbn [get]. destruct (Task.incoming t !! id) eqn:Hi; cbn [is_someb].
  { apply balance_emit. by apply balance_none in Ht. }
  destruct (rejection action payload) as [[code description]|]; [by apply (balance_warn_write (Some id))|].
  rewrite bind_eq. cbn [modify]. apply balance_emit. by apply give_owed.
Qed.

Lemma receive_owed text t : balance None t -> balance (asked_by text) (t <| Task.log ::= cons (Received text) |>).
Proof.
  intros Ht id. specialize (Ht id). rewrite hit_none in Ht. unfold held, answers, asks in *.
  cbn [Task.incoming Task.log over count_of answer_of ask_of] in *. rewrite hit_none. lia.
Qed.
Lemma balance_incoming_text text : keeps (balance None) (incoming_text text).
Proof.
  intros t Ht. unfold incoming_text. rewrite bind_eq. cbn [note modify]. rewrite bind_eq. cbn [ask].
  apply (receive_owed text) in Ht. revert Ht. set (t0 := over Task.log _ t). intros Ht.
  set (t1 := over Task.tick _ _). assert (H1 : balance (asked_by text) t1) by exact Ht. clearbody t1. clear Ht.
  unfold asked_by in H1. destruct (Frame.parse text) as [frame|error].
  - rewrite bind_eq. cbn [get]. rewrite bind_eq. set (e := Event.Frame _).
    apply (balance_emit _ e) in H1. destruct (emit e t1) as [t2 [[]|stop]]; [|by apply balance_none in H1].
    cbn [fst] in H1. destruct frame; [by apply balance_incoming_call|by apply balance_call_result|by apply balance_call_error].
  - rewrite bind_eq. set (e := Event.Frame _).
    apply (balance_emit _ e) in H1. destruct (emit e t1) as [t2 [[]|stop]]; [|by apply balance_none in H1].
    cbn [fst] in H1. destruct (Frame.reply error) as [frame|]; [by apply (balance_warn_write (answers_to frame))|].
    apply balance_none in H1. revert t2 H1. apply keeps_bind; auto with flows.
Qed.

(** ** Steps and runs *)

Lemma balance_incoming_message m : keeps (balance None) (incoming_message m).
Proof.
  destruct m as [text|bytes| | |frame|]; cbn [incoming_message]; auto with flows.
  - apply balance_incoming_text.
  - destruct (from_utf8 bytes); [apply balance_incoming_text|auto with flows].
Qed.
(** Entries of the same neutral shape. *)
Lemma balance_neutral {A} owed (f : A -> Entry) l t t' :
  (forall x, neutral (f x)) -> Task.log t' = map f l ++ Task.log t -> Task.incoming t' = Task.incoming t ->
  balance owed t -> balance owed t'.
Proof.
  intros Hf Hl Hi Ht id. specialize (Ht id). unfold held, answers, asks in *. rewrite Hl, Hi.
  clear Hl. induction l as [|x l IH]; [done|]. destruct (Hf x) as [Ha Hq].
  cbn [map app count_of]. by rewrite Ha, Hq.
Qed.
Lemma balance_withdraw_gone : keeps (balance None) withdraw_gone.
Proof.
  intros t Ht. unfold withdraw_gone. rewrite bind_eq. cbn [ask]. rewrite bind_eq. cbn [get modify fst].
  eapply balance_neutral; [|reflexivity..|exact Ht]. by intros call.
Qed.
Lemma balance_handle step : keeps (balance None) (handle step).
Proof.
  destruct step as [[[call|]|]|[frame|]|[[m|error]|]| |]; cbn [handle]; auto with flows.
  - apply keeps_bind; [apply balance_withdraw_gone|auto with flows].
  - apply balance_reply.
  - apply balance_incoming_message.
  - apply balance_expire.
  - apply keeps_bind; [auto with flows|intros t]. destruct (Task.awaiting_pong t); [auto with flows|].
    apply keeps_bind; [auto with flows|intros _; by apply balance_send].
Qed.
Lemma balance_loop steps : keeps (balance None) (loop steps).
Proof.
  induction steps as [|step steps IH]; [apply keeps_ret|].
  apply keeps_bind; [apply balance_handle|by intros _].
Qed.
Lemma balance_fail_all code : keeps (balance None) (fail_all code).
Proof.
  intros t Ht. set (fail caller := Answered caller (Err (CallError.Closed code))).
  set (l2 := map (fun p => fail (Pending.reply p.2)) (rev (map_to_list (Task.pending t)))).
  apply (balance_neutral None (fun call => fail (OutboundCall.reply call)) (rev (Task.queue t))
    (t <| Task.log := l2 ++ Task.log t |>)); [done|reflexivity|reflexivity|].
  by apply (balance_neutral None (fun p => fail (Pending.reply p.2)) (rev (map_to_list (Task.pending t))) t).
Qed.
Lemma balance_fail_commands code commands : keeps (balance None) (fail_commands code commands).
Proof.
  induction commands as [|[call|] commands IH]; cbn [fail_commands]; auto with flows.
Qed.
Lemma balance_forget : keeps (balance None) (modify (fun t => t <| Task.incoming := ∅ |>)).
Proof.
  intros t Ht id. specialize (Ht id). unfold held in *. cbn [modify fst Task.incoming Task.log over] in *.
  rewrite lookup_empty. cbn [is_someb]. lia.
Qed.
Lemma balance_finish stop commands stream in_time : keeps (balance None) (finish stop commands stream in_time).
Proof.
  apply keeps_bind; [auto with flows|intros _]. apply keeps_bind; [apply balance_fail_all|intros _].
  apply keeps_bind; [apply balance_fail_commands|intros _]. apply keeps_bind; [apply balance_forget|intros _].
  apply keeps_bind; [|intros [[code reason] by_us]; auto with flows].
  destruct stop as [|frame|reason by_us]; [|destruct (frame_code_and_reason frame); auto with flows|auto with flows].
  apply keeps_bind; [|intros [code reason]; auto with flows].
  apply keeps_bind; [by apply keeps_attempt, balance_send|]. intros [[]|]; [destruct in_time|]; auto with flows.
Qed.

(** Claim C7: whatever the owner of the connection replies with (twice, with an unknown id, with
    a payload that violates the schema) and whatever the peer sends (malformed CALLs, repeated
    message ids, unknown actions), the connection task never writes more answers under an id than
    it has received CALLs with that id, and the CALLs that still await the owner's reply have not
    been answered. *)
Theorem ws_answers_bounded serialize show steps commands stream in_time id :
  let t := (run (new_task serialize show) steps commands stream in_time).1 in
  answers id (Task.log t) + held id t <= asks id (Task.log t).
Proof.
  assert (Hn : balance None (new_task serialize show)) by (intros i; rewrite hit_none; simpl; done).
  pose proof (balance_loop steps _ Hn) as Hl. unfold run.
  assert (H : balance None (match loop steps (new_task serialize show) with
    | (t, Ok _) => (t, false)
    | (t, Err stop) => ((finish stop commands stream in_time t).1, true) end).1).
  { destruct (loop steps _) as [t [[]|stop]]; [exact Hl|]. by apply balance_finish. }
  cbv zeta. specialize (H id). rewrite hit_none in H. lia.
Qed.
End answers.
End WsAnswers.
