(* ===== verification/WsHandshake.v ===== *)
(** * WsHandshake: how a station opens a WebSocket

    [ws/handshake.rs], and of [ws/mod.rs] the URL of a charge point and what is shown of it. The
    [url] crate beyond [Config]'s use of it is [UrlParts]; base64, percent decoding and the
    accept key are [Encoding]; the stream is the bytes the server sends and how it ends. The Module
    [ClientTls] adds [ws/tls.rs] and the attempt to connect. *)

From stdpp Require Import strings.
From S2P Require Import Prelude Text Utf8 Strings Interface Config Certificates Secure.
Local Open Scope Z_scope.

Module WsHandshake.

(** Accessors of [Url]; [push_segment] is [path_segments_mut()?.pop_if_empty().push(id)], and
    [encoded_segment] the path of an empty URL after [push(id)], without leading slashes. *)
Class UrlParts {U : UrlParser} : Type := {
  url_port : Url -> option Z;
  url_path : Url -> str;
  url_query : Url -> option str;
  url_username : Url -> str;
  path_segments : Url -> option (list str);
  push_segment : str -> Url -> option Url;
  encoded_segment : str -> str;
}.
(** [STANDARD.encode], [percent_decode_str(s).decode_utf8_lossy()] and [derive_accept_key]. *)
Class Encoding : Type := {
  base64_encode : list Z -> str;
  percent_decode_lossy : str -> str;
  derive_accept_key : list Z -> str;
}.

Definition MAX_HEAD : Z := 16 * 1024.
Definition MAX_INBOUND_MESSAGE_BYTES : Z := 4 * 1024 * 1024.
(** [CloseCode::Protocol] *)
Definition PROTOCOL_CLOSE : Z := 1002.
Definition crlf : str := [13; 10].
Definition handshake_error (message : str) : ConnectError.t := ConnectError.Handshake message.

(** ** The URL of a charge point *)

Section url.
Context {U : UrlParser} {P : UrlParts}.

(** The URL without its userinfo, for error messages. *)
Definition redact (url : Url) : str := url_text (without_userinfo url).
(** The same for a text that does not parse. *)
Definition redact_text (base : str) : str :=
  match split_once_text (lit "://") base with
  | Some (scheme, rest) =>
      match split_once 64 rest with
      | Some (_, after) => scheme ++ lit "://<redacted>@" ++ after
      | None => base
      end
  | None => base
  end.
Definition charge_point_url (base charge_point_id : str) : result Url ConnectError.t :=
  match url_parse base with
  | Err e => Err (ConnectError.InvalidUrl (redact_text base ++ lit ": " ++ e))
  | Ok url =>
      if negb ((url_scheme url == lit "ws") || (url_scheme url == lit "wss"))
      then Err (ConnectError.InvalidUrl (redact url ++ lit ": scheme must be ws or wss"))
      else
        let encoded_id := encoded_segment charge_point_id in
        let already_there := is_some_and (fun segments => is_some_and (fun x => x == encoded_id) (last segments)) (path_segments url) in
        if already_there then Ok url
        else
          match push_segment charge_point_id url with
          | Some url => Ok url
          | None => Err (ConnectError.InvalidUrl (redact url ++ lit ": cannot be a base URL"))
          end
  end.

(** ** The request *)

Context {E : Encoding}.

(** [Basic base64(user:password)] from the userinfo, percent-decoded. *)
Definition authorization (url : Url) : option str :=
  if (url_username url == []) && negb (is_someb (url_password url)) then None
  else
    let user := percent_decode_lossy (url_username url) in
    let password := percent_decode_lossy (default [] (url_password url)) in
    Some (lit "Basic " ++ base64_encode (as_bytes (user ++ [58] ++ password))).
Definition target (url : Url) : str :=
  url_path url ++ match url_query url with Some query => [63] ++ query | None => [] end.
Definition host (url : Url) : str :=
  default [] (url_host url) ++ match url_port url with Some port => [58] ++ to_string port | None => [] end.
Definition request_head (url : Url) (subprotocol key : str) : str :=
  lit "GET " ++ target url ++ lit " HTTP/1.1" ++ crlf
  ++ lit "Host: " ++ host url ++ crlf
  ++ lit "Upgrade: websocket" ++ crlf
  ++ lit "Connection: Upgrade" ++ crlf
  ++ lit "Sec-WebSocket-Key: " ++ key ++ crlf
  ++ lit "Sec-WebSocket-Version: 13" ++ crlf
  ++ lit "Sec-WebSocket-Protocol: " ++ subprotocol ++ crlf
  ++ match authorization url with Some value => lit "Authorization: " ++ value ++ crlf | None => [] end
  ++ crlf.
End url.

(** ** The answer *)

(** What comes after the last byte of the stream: its end, or an error of [read]. *)
Inductive Ending : Type := Closed | Failed (e : str).
Definition ends_head (head : list Z) : bool := is_someb (strip_prefix [10; 13; 10; 13] (rev head)).
(** Reads byte by byte, so that no frame after the head is consumed; what is left comes along. *)
Fixpoint read_from (head bytes : list Z) (ending : Ending) : result (list Z * list Z) ConnectError.t :=
  if ends_head head then Ok (head, bytes)
  else if MAX_HEAD <=? len head then Err (handshake_error (lit "the upgrade response head is too large"))
  else
    match bytes with
    | [] =>
        match ending with
        | Failed e => Err (handshake_error (lit "cannot read the upgrade response: " ++ e))
        | Closed => Err (handshake_error (lit "the connection closed before the upgrade response"))
        end
    | byte :: bytes => read_from (head ++ [byte]) bytes ending
    end.
Definition read_head (bytes : list Z) (ending : Ending) : result (list Z * list Z) ConnectError.t := read_from [] bytes ending.

(** Header names lower-cased, values trimmed. *)
Record Head : Type := mk_head { status_line : str; status : Z; headers : list (str * str) }.
Definition header (h : Head) (lowercase_name : str) : option str :=
  snd <$> find_first (fun x => x.1 == lowercase_name) (headers h).
Fixpoint take_while_filled (lines : list str) : list str :=
  match lines with
  | [] => []
  | line :: lines => if line == [] then [] else line :: take_while_filled lines
  end.
Definition parse_u16 : str -> option Z := parse_unsigned 65535.
Definition header_of (line : str) : option (str * str) :=
  (fun '(name, value) => (to_ascii_lowercase (trim name), trim value)) <$> split_once 58 line.
Definition parse_head (bytes : list Z) : result Head ConnectError.t :=
  let lines := split_text crlf (from_utf8_lossy bytes) in
  let status_line := default [] (head lines) in
  match split_whitespace status_line !! 1%nat ≫= parse_u16 with
  | None => Err (handshake_error (lit "malformed HTTP status line `" ++ status_line ++ lit "`"))
  | Some status => Ok (mk_head status_line status (omap header_of (take_while_filled (tail lines))))
  end.

(** ** The upgrade *)

Section upgrade.
Context {U : UrlParser} {P : UrlParts} {E : Encoding}.

(** What was sent, the frame that closes the socket (code and reason), the outcome: the bytes the
    WebSocket goes on with. *)
Record Upgrade : Type := mk_upgrade {
  sent : str;
  closing : option (Z * str);
  outcome : result (list Z) ConnectError.t;
}.
Definition is_switch (key : str) (h : Head) : bool :=
  let upgrades := is_some_and (fun value => eq_ignore_ascii_case value (lit "websocket")) (header h (lit "upgrade")) in
  let connection_upgrades :=
    is_some_and (fun value => any (fun token => eq_ignore_ascii_case (trim token) (lit "upgrade")) (split_on 44 value))
      (header h (lit "connection")) in
  let accepted := header h (lit "sec-websocket-accept") == Some (derive_accept_key (as_bytes key)) in
  upgrades && connection_upgrades && accepted.
(** What is made of the head of the answer, with the bytes behind it. *)
Definition conclude (subprotocol key : str) (h : Head) (rest : list Z) : option (Z * str) * result (list Z) ConnectError.t :=
  if negb (status h =? 101) then (None, Err (ConnectError.HttpStatus (status h) (status_line h)))
  else if negb (is_switch key h)
  then (None, Err (handshake_error (lit "the upgrade response is not a valid WebSocket handshake")))
  else if negb (header h (lit "sec-websocket-protocol") == Some subprotocol)
  then (Some (PROTOCOL_CLOSE, lit "OCPP subprotocol required"), Err (ConnectError.SubprotocolMismatch subprotocol))
  else (None, Ok rest).
(** [nonce] is the fresh UUID, [written] what became of the write, the rest what the server sends. *)
Definition upgrade (url : Url) (subprotocol : str) (nonce : list Z) (written : result unit str)
    (bytes : list Z) (ending : Ending) : Upgrade :=
  let key := base64_encode nonce in
  let request := request_head url subprotocol key in
  match written with
  | Err e => mk_upgrade request None (Err (handshake_error (lit "cannot send the upgrade request: " ++ e)))
  | Ok _ =>
      match read_head bytes ending with
      | Err e => mk_upgrade request None (Err e)
      | Ok (head, rest) =>
          match parse_head head with
          | Err e => mk_upgrade request None (Err e)
          | Ok h => let '(closing, outcome) := conclude subprotocol key h rest in mk_upgrade request closing outcome
          end
      end
  end.
End upgrade.

(** ** Reading the head *)

Lemma ends_head_iff head : ends_head head = true <-> exists p, head = p ++ [13; 10; 13; 10].
Proof.
  unfold ends_head. destruct (strip_prefix _ (rev head)) as [r|] eqn:E; split; try done.
  - intros _. apply strip_prefix_Some in E. exists (rev r). apply (f_equal (@rev Z)) in E.
    rewrite rev_involutive, rev_app_distr in E. exact E.
  - intros [p ->]. rewrite rev_app_distr in E. by rewrite (strip_prefix_app [10; 13; 10; 13] (rev p) : strip_prefix _ (rev [13; 10; 13; 10] ++ rev p) = _) in E.
Qed.
(** [head] is read: it ends at its first empty line and is not too long. *)
Definition is_head (head : list Z) : Prop :=
  ends_head head = true /\ len head <= MAX_HEAD
  /\ forall n, (n < length head)%nat -> ends_head (firstn n head) = false.
Lemma read_from_Ok done_ bytes ending head rest :
  (forall n, (n < length done_)%nat -> ends_head (firstn n done_) = false) -> len done_ <= MAX_HEAD ->
  read_from done_ bytes ending = Ok (head, rest) <-> done_ ++ bytes = head ++ rest /\ is_head head /\ (length done_ <= length head)%nat.
Proof.
  revert done_. induction bytes as [|b bytes IH]; intros done_ Hbefore Hlen; cbn [read_from];
    destruct (ends_head done_) eqn:Ee.
  1,3: split; [intros [= <- <-]; split_and!; try done; by split_and!|].
  1,2: intros (Heq & (He & _ & Hf) & Hl).
  1,2: assert (length done_ = length head) as Hsame by
         (destruct (Nat.eq_dec (length done_) (length head)) as [|Hne]; [done|];
          pose proof (Hf (length done_) ltac:(lia)) as Hx;
          rewrite <- (take_app_le head rest) in Hx by lia; rewrite <- Heq, take_app_length in Hx; congruence).
  1,2: apply app_inj_1 in Heq as [-> ->]; done.
  - destruct (MAX_HEAD <=? len done_) eqn:Em; bool_facts.
    + split; [done|]. intros (Heq & (He & Hm & Hf) & Hl). rewrite app_nil_r in Heq. subst done_.
      rewrite length_app in Hl. destruct rest; [|cbn in Hl; lia]. rewrite app_nil_r in Ee. congruence.
    + split; [by destruct ending|]. intros (Heq & (He & _) & Hl). rewrite app_nil_r in Heq. subst done_.
      rewrite length_app in Hl. destruct rest; [|cbn in Hl; lia]. rewrite app_nil_r in Ee. congruence.
  - assert (Hlonger : forall h r, done_ ++ b :: bytes = h ++ r -> is_head h -> (length done_ <= length h)%nat -> (length done_ < length h)%nat).
    { intros h r Heq (He & _) Hl. destruct (Nat.eq_dec (length done_) (length h)) as [Hs|]; [|lia].
      apply app_inj_1 in Heq as [-> _]; [congruence|done]. }
    destruct (MAX_HEAD <=? len done_) eqn:Em; bool_facts.
    + split; [done|]. intros (Heq & Hh & Hl). specialize (Hlonger _ _ Heq Hh Hl). destruct Hh as (_ & Hm & _).
      unfold len in *. lia.
    + rewrite IH.
      * rewrite <- app_assoc, length_app. cbn [length app]. split.
        -- intros (Heq & Hh & Hl). split_and!; [done|done|lia].
        -- intros (Heq & Hh & Hl). specialize (Hlonger _ _ Heq Hh Hl). split_and!; [done|done|lia].
      * intros n Hn. rewrite length_app in Hn. cbn in Hn. destruct (Nat.eq_dec n (length done_)) as [->|].
        -- by rewrite take_app_length.
        -- rewrite take_app_le by lia. apply Hbefore. lia.
      * unfold len in *. rewrite length_app. cbn. lia.
Qed.
Lemma read_head_Ok bytes ending head rest :
  read_head bytes ending = Ok (head, rest) <-> bytes = head ++ rest /\ is_head head.
Proof.
  unfold read_head. rewrite read_from_Ok; [|cbn; lia|done]. cbn [app length]. split; [tauto|]. intros []. split_and!; [done..|lia].
Qed.

(** A server that never ends its head is read up to the limit only. *)
Lemma read_from_large done_ bytes ending :
  (forall n, (n < length done_)%nat -> ends_head (firstn n done_) = false) -> len done_ <= MAX_HEAD ->
  MAX_HEAD <= len done_ + len bytes -> (forall head rest, done_ ++ bytes = head ++ rest -> ~ is_head head) ->
  read_from done_ bytes ending = Err (handshake_error (lit "the upgrade response head is too large")).
Proof.
  revert done_. induction bytes as [|b bytes IH]; intros done_ Hb Hm Hl Hno; cbn [read_from];
    (destruct (ends_head done_) eqn:Ee; [exfalso; eapply Hno; [reflexivity|by split_and!]|]).
  - rewrite (proj2 (Z.leb_le _ _)); [done|]. unfold len in *. cbn [length] in *. lia.
  - destruct (MAX_HEAD <=? len done_) eqn:Em; [done|]. bool_facts.
    assert (len (done_ ++ [b]) = len done_ + 1) as Hlen by (unfold len; rewrite length_app; cbn [length]; lia).
    apply IH.
    + intros n Hn. rewrite length_app in Hn. cbn [length] in Hn. destruct (Nat.eq_dec n (length done_)) as [->|].
      * by rewrite take_app_length.
      * rewrite take_app_le by lia. apply Hb. lia.
    + lia.
    + rewrite Hlen. unfold len in *. cbn [length] in Hl. lia.
    + intros head rest. rewrite <- app_assoc. apply Hno.
Qed.

Section spec.
Context {U : UrlParser} {P : UrlParts} {E : Encoding}.

(** The server has switched: the head, and what follows it. *)
Definition switched (key : str) (h : Head) (bytes rest : list Z) : Prop :=
  exists head, bytes = head ++ rest /\ is_head head /\ parse_head head = Ok h /\ status h = 101 /\ is_switch key h = true.
Lemma switched_unique key h h' bytes rest rest' :
  switched key h bytes rest -> switched key h' bytes rest' -> h = h' /\ rest = rest'.
Proof.
  intros (head & Hb & Hh & Hp & _) (head' & Hb' & Hh' & Hp' & _).
  assert (read_head bytes Closed = Ok (head, rest)) as Hr by (by apply read_head_Ok).
  assert (read_head bytes Closed = Ok (head', rest')) as Hr' by (by apply read_head_Ok).
  rewrite Hr in Hr'. injection Hr' as -> ->. rewrite Hp in Hp'. by injection Hp' as ->.
Qed.
Lemma upgrade_eq url subprotocol nonce bytes ending :
  let key := base64_encode nonce in
  let u := upgrade url subprotocol nonce (Ok tt) bytes ending in
  (exists h rest, switched key h bytes rest /\ header h (lit "sec-websocket-protocol") = Some subprotocol
     /\ outcome u = Ok rest /\ closing u = None)
  \/ (exists h rest, switched key h bytes rest /\ header h (lit "sec-websocket-protocol") <> Some subprotocol
     /\ outcome u = Err (ConnectError.SubprotocolMismatch subprotocol)
     /\ closing u = Some (PROTOCOL_CLOSE, lit "OCPP subprotocol required"))
  \/ ((forall h rest, ~ switched key h bytes rest) /\ closing u = None
     /\ exists e, outcome u = Err e /\ forall x, e <> ConnectError.SubprotocolMismatch x).
Proof.
  intros key u. unfold u, upgrade. fold key.
  destruct (read_head bytes ending) as [[head rest]|e] eqn:Hr.
  - pose proof (proj1 (read_head_Ok _ _ _ _) Hr) as [Hb Hh].
    assert (forall h rest', switched key h bytes rest' -> parse_head head = Ok h /\ status h = 101 /\ is_switch key h = true) as Hsw.
    { intros h rest' (head' & Hb' & Hh' & Hp). assert (read_head bytes ending = Ok (head', rest')) as Hr' by (by apply read_head_Ok).
      rewrite Hr in Hr'. injection Hr' as -> ->. done. }
    destruct (parse_head head) as [h|e] eqn:Hp.
    + unfold conclude. destruct (status h =? 101) eqn:Es; cbn [negb].
      * destruct (is_switch key h) eqn:Ew; cbn [negb].
        -- bool_facts. assert (switched key h bytes rest) by (by exists head).
           destruct (header h (lit "sec-websocket-protocol") == Some subprotocol) eqn:Ep; cbn [negb].
           ++ apply (proj1 (eqb_true _ _)) in Ep. left. by exists h, rest.
           ++ apply (proj1 (eqb_false _ _)) in Ep. right; left. by exists h, rest.
        -- right; right. split_and!; [|done|by eexists]. intros h' r (Hx & _ & Hy)%Hsw. congruence.
      * right; right. split_and!; [|done|by eexists]. bool_facts. intros h' r (Hx & Hy & _)%Hsw. congruence.
    + right; right. split_and!; [|done|].
      * intros h' r (Hx & _)%Hsw. congruence.
      * exists e. split; [done|]. unfold parse_head in Hp. by destruct (_ ≫= parse_u16); simplify_eq.
  - right; right. split_and!; [|done|].
    + intros h rest (head & Hb & Hh & _). assert (read_head bytes ending = Ok (head, rest)) by (by apply read_head_Ok). congruence.
    + exists e. split; [done|]. clear -Hr. unfold read_head in Hr. revert Hr. generalize (@nil Z) as done_.
      induction bytes as [|b bytes IH]; intros done_; cbn [read_from]; destruct (ends_head done_); try done;
        destruct (MAX_HEAD <=? len done_); [by intros [= <-]| |by intros [= <-]|apply IH].
      destruct ending; by intros [= <-].
Qed.

(** One line of the request. *)
Definition has_line (head line : str) : Prop := exists before after, head = before ++ crlf ++ line ++ crlf ++ after.
Lemma request_lines url subprotocol key :
  has_line (request_head url subprotocol key) (lit "Sec-WebSocket-Key: " ++ key)
  /\ has_line (request_head url subprotocol key) (lit "Sec-WebSocket-Protocol: " ++ subprotocol).
Proof.
  unfold has_line, request_head. split.
  - exists (lit "GET " ++ target url ++ lit " HTTP/1.1" ++ crlf ++ lit "Host: " ++ host url ++ crlf ++ lit "Upgrade: websocket" ++ crlf ++ lit "Connection: Upgrade").
    eexists. rewrite <- !app_assoc. reflexivity.
  - exists (lit "GET " ++ target url ++ lit " HTTP/1.1" ++ crlf ++ lit "Host: " ++ host url ++ crlf ++ lit "Upgrade: websocket" ++ crlf ++ lit "Connection: Upgrade"
            ++ crlf ++ lit "Sec-WebSocket-Key: " ++ key ++ crlf ++ lit "Sec-WebSocket-Version: 13").
    eexists. rewrite <- !app_assoc. reflexivity.
Qed.
Lemma upgrade_sent url subprotocol nonce written bytes ending :
  sent (upgrade url subprotocol nonce written bytes ending) = request_head url subprotocol (base64_encode nonce).
Proof.
  unfold upgrade. cbv zeta. destruct written; [|done]. destruct (read_head bytes ending) as [[head rest]|]; [|done].
  destruct (parse_head head) as [h|]; [|done]. by destruct (conclude _ _ h rest).
Qed.

(** Claim C18: what is sent is a request whose lines carry the key made of the nonce and ask for
    the subprotocol. A WebSocket is opened exactly when the first head of the answer, of at most
    16 KiB, says 101, switches to the key that was sent and selects the subprotocol; it goes on
    with exactly the bytes behind that head. A server that switches without selecting the
    subprotocol is closed with 1002 and reported as such, and nobody else is. A head that does not
    end is read up to the limit. *)
Theorem upgrade_spec url subprotocol nonce bytes ending :
  let key := base64_encode nonce in
  let u := upgrade url subprotocol nonce (Ok tt) bytes ending in
  has_line (sent u) (lit "Sec-WebSocket-Key: " ++ key)
  /\ has_line (sent u) (lit "Sec-WebSocket-Protocol: " ++ subprotocol)
  /\ (forall rest, outcome u = Ok rest
     <-> exists h, switched key h bytes rest /\ header h (lit "sec-websocket-protocol") = Some subprotocol)
  /\ (outcome u = Err (ConnectError.SubprotocolMismatch subprotocol)
     <-> exists h rest, switched key h bytes rest /\ header h (lit "sec-websocket-protocol") <> Some subprotocol)
  /\ closing u = match outcome u with
                 | Err (ConnectError.SubprotocolMismatch _) => Some (PROTOCOL_CLOSE, lit "OCPP subprotocol required")
                 | _ => None
                 end
  /\ ((forall head rest, bytes = head ++ rest -> ~ is_head head) -> MAX_HEAD <= len bytes ->
      outcome u = Err (handshake_error (lit "the upgrade response head is too large"))).
Proof.
  intros key u. destruct (request_lines url subprotocol key) as [Hk Hp]. split_and!.
  - by rewrite (upgrade_sent url subprotocol nonce (Ok tt) bytes ending : sent u = _).
  - by rewrite (upgrade_sent url subprotocol nonce (Ok tt) bytes ending : sent u = _).
  - clear Hk Hp. intros rest. destruct (upgrade_eq url subprotocol nonce bytes ending) as [(h & r & Hs & Hp & Ho & _)|[(h & r & Hs & Hp & Ho & _)|(Hn & _ & e & Ho & _)]];
      fold key u in Hs || fold key u in Hn; fold u in Ho; rewrite Ho; split; try done.
    + intros [= <-]. by exists h.
    + intros (h' & Hs' & _). by destruct (switched_unique _ _ _ _ _ _ Hs Hs') as [_ ->].
    + intros (h' & Hs' & Hp'). by destruct (switched_unique _ _ _ _ _ _ Hs Hs') as [-> _].
    + intros (h' & Hs' & _). by destruct (Hn _ _ Hs').
  - clear Hk Hp. destruct (upgrade_eq url subprotocol nonce bytes ending) as [(h & r & Hs & Hp & Ho & _)|[(h & r & Hs & Hp & Ho & _)|(Hn & _ & e & Ho & He)]];
      fold key u in Hs || fold key u in Hn; fold u in Ho; rewrite Ho; split; try done.
    + intros (h' & r' & Hs' & Hp'). by destruct (switched_unique _ _ _ _ _ _ Hs Hs') as [-> _].
    + intros _. by exists h, r.
    + intros [= ->]. by destruct (He subprotocol).
    + intros (h' & r' & Hs' & _). by destruct (Hn _ _ Hs').
  - destruct (upgrade_eq url subprotocol nonce bytes ending) as [(h & r & _ & _ & Ho & Hc)|[(h & r & _ & _ & Ho & Hc)|(_ & Hc & e & Ho & He)]];
      fold u in Ho, Hc; rewrite Ho, Hc; try done. destruct e; try done. by destruct (He expected).
  - intros Hno Hl. unfold u, upgrade, read_head.
    by rewrite (read_from_large [] bytes ending) by (done || (cbn; lia)).
Qed.
End spec.

(** ** A server that switches *)

Definition sample_encoding : Encoding :=
  {| base64_encode b := b; percent_decode_lossy s := s; derive_accept_key b := b ++ lit "+" |}.
Definition sample_parts : @UrlParts any_url :=
  {| url_port _ := None; url_path _ := lit "/CP-1"; url_query _ := None; url_username _ := [];
     path_segments _ := None; push_segment _ _ := None; encoded_segment s := s |}.
Definition sample_head (protocol : str) : list Z :=
  lit "HTTP/1.1 101 Switching Protocols" ++ crlf ++ lit "Upgrade: WebSocket" ++ crlf ++ lit "Connection: keep-alive, Upgrade" ++ crlf
  ++ lit "sec-websocket-accept: k+" ++ crlf ++ lit "SEC-WebSocket-Protocol:  " ++ protocol ++ crlf ++ crlf.
Lemma upgrade_spec_witness :
  let u protocol := upgrade (U := any_url) (P := sample_parts) (E := sample_encoding)
                      (lit "ws://csms") (lit "ocpp1.6") (lit "k") (Ok tt) (sample_head protocol ++ [129; 0]) Closed in
  outcome (u (lit "ocpp1.6")) = Ok [129; 0] /\ closing (u (lit "ocpp2.0.1")) = Some (PROTOCOL_CLOSE, lit "OCPP subprotocol required").
Proof.
  intros u. split; [vm_compute; reflexivity|].
  destruct (upgrade_spec (U := any_url) (P := sample_parts) (E := sample_encoding)
              (lit "ws://csms") (lit "ocpp1.6") (lit "k") (sample_head (lit "ocpp2.0.1") ++ [129; 0]) Closed) as (_ & _ & _ & _ & Hc & _).
  unfold u. rewrite Hc. vm_compute. reflexivity.
Defined.

(** A password with an [@] in a URL that does not parse reaches the message in part. *)
Lemma redact_text_leaks :
  redact_text (lit "ws://CP-1:p@ss@csms:port/ocpp") = lit "ws://<redacted>@ss@csms:port/ocpp".
Proof. reflexivity. Qed.
End WsHandshake.

(** * ClientTls: the TLS of a station

    [ws/tls.rs]: whom a station trusts, the certificate it shows, the name it checks; and
    [Connection::connect] of [ws/mod.rs] up to the open WebSocket. *)
Module ClientTls.
Import WsHandshake Secure.

(** The certificate a server shows, and what it is checked for. *)
Record ServerCert : Type := mk_cert {
  end_entity : bytes;
  intermediates : list bytes;
  for_name : str;
  ocsp_response : bytes;
  at_time : Z;
}.
(** [GeneralName]: the names of a certificate beside its subject. *)
Inductive GeneralName : Type := DNSName (dns : str) | OtherName.
Record CertNames : Type := mk_names {
  (** [cn.as_str().ok()] of every common name of the subject *)
  common_names : list (option str);
  (** the subject alternative names, where there is one extension of them that can be read *)
  san : option (list GeneralName);
}.

(** The client side of [rustls], [rustls-native-certs] and [x509-parser], and the network. *)
Class RustlsClient {U : UrlParser} : Type := {
  (** [with_safe_default_protocol_versions]: the text of its error *)
  versions_error : option str;
  native_certs : list bytes;
  (** [WebPkiServerVerifier::builder_with_provider(roots).build()]: the text of its error *)
  verifier_error : list bytes -> option str;
  webpki_verify : list bytes -> ServerCert -> result unit str;
  (** the text of [Error::InvalidCertificate(CertificateError::Other(e))] *)
  invalid_certificate : str -> str;
  (** [X509Certificate::from_der] *)
  names_of : bytes -> option CertNames;
  (** [with_client_auth_cert]: the text of its error *)
  client_auth_error : list bytes -> bytes -> option str;
  (** [ServerName::try_from(name).is_ok()] *)
  server_name_ok : str -> bool;
  port_or_known_default : Url -> option Z;
  (** A server on the network: whether it can be reached, what it shows a client that asks for a
      name, and the handshake of a client that judges the certificate and may show one itself. *)
  Peer : Type;
  tcp : Peer -> str -> Z -> result unit str;
  presented : Peer -> str -> ServerCert;
  tls_connect : (ServerCert -> result unit str) -> option (list bytes * bytes) -> str -> Peer -> result unit str;
}.
(** A handshake is completed only with a certificate the client has accepted. *)
Class RustlsLaws {U : UrlParser} {C : RustlsClient} : Prop := {
  tls_verified verify identity name peer :
    tls_connect verify identity name peer = Ok tt -> verify (presented peer name) = Ok tt;
}.

Inductive Verifier : Type := SkipVerification | WebPki (roots : list bytes) | NoWildcards (roots : list bytes).
Record ClientConfig : Type := mk_client { verifier : Verifier; identity : option (list bytes * bytes) }.

Section client.
Context {U : UrlParser} {P : UrlParts} {E : Encoding} {R : Rustls} {C : RustlsClient}.
(** The files, as [tokio::fs::read] finds them. *)
Context (read_file : str -> result bytes str).
Implicit Types (tls : TlsConfig.t).

Definition file_error (path reason : str) : ConnectError.t := ConnectError.TlsFile path reason.
Definition read_certificates (path : str) : result (list bytes) ConnectError.t :=
  let! found := result_map_err (file_error path) (read_file path) in
  let! certificates :=
    result_map_err (fun e => file_error path (lit "invalid PEM certificate: " ++ e)) (collect_results (pem_certificates found)) in
  match certificates with
  | [] => Err (file_error path (lit "no PEM certificates found"))
  | _ => Ok certificates
  end.

(** [roots.add(certificate)] where an unusable certificate is skipped, and where it is an error *)
Definition add_usable (certificates : list bytes) : list bytes :=
  List.filter (fun c => negb (is_someb (root_error c))) certificates.
Definition add_root (path : str) (certificate : bytes) : result unit ConnectError.t :=
  match root_error certificate with
  | Some e => Err (file_error path (lit "not a usable CA certificate: " ++ e))
  | None => Ok tt
  end.
Definition installed_roots (extra_pem : list str) : list bytes :=
  add_usable (flat_map (fun pem => omap result_ok (pem_certificates (as_bytes pem))) extra_pem).
Definition trust_roots (ca_file : option str) (extra_pem : list str) : result (list bytes) ConnectError.t :=
  let roots := installed_roots extra_pem in
  match ca_file, extra_pem with
  | Some path, _ =>
      let! certificates := read_certificates path in
      let! _ := try_each (add_root path) certificates in
      Ok (roots ++ certificates)
  | None, [] =>
      match roots ++ add_usable native_certs with
      | [] => Err (ConnectError.Tls (lit "no system root certificates found; set tls ca_file"))
      | roots => Ok roots
      end
  | None, _ => Ok roots
  end.

Definition client_identity tls : result (option (list bytes * bytes)) ConnectError.t :=
  match TlsConfig.cert_file tls, TlsConfig.key_file tls with
  | None, None =>
      match TlsConfig.identity_pem tls with
      | None => Ok None
      | Some (chain_pem, key_pem) =>
          let! chain := result_map_err (fun e => ConnectError.Tls (lit "stored client certificate: " ++ e))
                          (collect_results (pem_certificates (as_bytes chain_pem))) in
          let! key := result_map_err (fun e => ConnectError.Tls (lit "stored client key: " ++ e))
                        (pem_private_key (as_bytes key_pem)) in
          Ok (Some (chain, key))
      end
  | Some cert_path, Some key_path =>
      let! chain := read_certificates cert_path in
      let! found := result_map_err (file_error key_path) (read_file key_path) in
      let! key := result_map_err (fun e => file_error key_path (lit "no usable private key: " ++ e)) (pem_private_key found) in
      Ok (Some (chain, key))
  | _, _ => Err (ConnectError.Tls (lit "tls cert_file and key_file must be given together"))
  end.

(** The verifier the settings ask for. *)
Definition verifier_for tls : result Verifier ConnectError.t :=
  if TlsConfig.skip_verify tls then Ok SkipVerification
  else
    let! roots := trust_roots (TlsConfig.ca_file tls) (TlsConfig.extra_roots_pem tls) in
    if TlsConfig.allow_wildcard_certificates tls then Ok (WebPki roots)
    else
      match verifier_error roots with
      | Some e => Err (ConnectError.Tls (lit "cannot build the certificate verifier: " ++ e))
      | None => Ok (NoWildcards roots)
      end.
Definition client_config tls : result ClientConfig ConnectError.t :=
  match versions_error with
  | Some e => Err (ConnectError.Tls e)
  | None =>
      let! verifier := verifier_for tls in
      let! identity := client_identity tls in
      match identity with
      | None => Ok (mk_client verifier None)
      | Some (chain, key) =>
          match client_auth_error chain key with
          | Some e => Err (ConnectError.Tls (lit "client certificate rejected: " ++ e))
          | None => Ok (mk_client verifier (Some (chain, key)))
          end
      end
  end.

(** A certificate that cannot be parsed, or a common name that is no text, counts as a wildcard. *)
Definition is_wildcard_certificate (der : bytes) : bool :=
  match names_of der with
  | None => true
  | Some names =>
      let star text := any (fun c => c =? 42) text in
      let in_common_name := any (fun cn => match cn with Some text => star text | None => true end) (common_names names) in
      let in_san := is_some_and (any (fun name => match name with DNSName dns => star dns | OtherName => false end)) (san names) in
      in_common_name || in_san
  end.
Definition verify_server_cert (v : Verifier) (cert : ServerCert) : result unit str :=
  match v with
  | SkipVerification => Ok tt
  | WebPki roots => webpki_verify roots cert
  | NoWildcards roots =>
      let! _ := webpki_verify roots cert in
      if is_wildcard_certificate (end_entity cert)
      then Err (invalid_certificate WILDCARD_REFUSED) else Ok tt
  end.

Fixpoint trim_start_matches (c : char) (s : str) : str :=
  match s with x :: rest => if x =? c then trim_start_matches c rest else s | [] => [] end.
Definition trim_end_matches (c : char) (s : str) : str := rev (trim_start_matches c (rev s)).
Definition server_name (url : Url) tls : result str ConnectError.t :=
  let name := match TlsConfig.server_name tls with
              | Some name => name
              | None => trim_end_matches 93 (trim_start_matches 91 (default [] (url_host url)))
              end in
  if server_name_ok name then Ok name
  else Err (ConnectError.Tls (lit "invalid TLS server name `" ++ name ++ lit "`")).

(** ** [Connection::connect] *)

(** What happens on the network during an attempt: when its time runs out, if it does, the fresh
    UUID, what becomes of the write, and what the server sends. *)
Inductive Timing : Type := InTime | LateBeforeRequest | LateAfterRequest.
Record Net : Type := mk_net {
  peer : Peer;
  timing : Timing;
  nonce : list Z;
  written : result unit str;
  answer : list Z;
  ending : Ending;
}.
Definition failed (e : ConnectError.t) : Upgrade := mk_upgrade [] None (Err e).
Definition tcp_connect (url : Url) (net : Net) : result unit ConnectError.t :=
  let! host := match url_host url with
               | Some host => Ok host | None => Err (ConnectError.InvalidUrl (redact url ++ lit ": no host")) end in
  let! port := match port_or_known_default url with
               | Some port => Ok port | None => Err (ConnectError.InvalidUrl (redact url ++ lit ": no port")) end in
  result_map_err (fun e => ConnectError.Network (host ++ lit ":" ++ to_string port ++ lit ": " ++ e)) (tcp (peer net) host port).
(** The upgrade over what was opened, as far as the time of the attempt goes. *)
Definition upgrade_over (opened : result unit ConnectError.t) (url : Url) (subprotocol : str) (net : Net) : Upgrade :=
  match timing net, opened with
  | LateBeforeRequest, _ => failed ConnectError.Timeout
  | _, Err e => failed e
  | InTime, Ok _ => upgrade url subprotocol (nonce net) (written net) (answer net) (ending net)
  | LateAfterRequest, Ok _ =>
      mk_upgrade (sent (upgrade url subprotocol (nonce net) (written net) (answer net) (ending net))) None (Err ConnectError.Timeout)
  end.
Definition tls_open (config : ClientConfig) (url : Url) tls (net : Net) : result unit ConnectError.t :=
  let! _ := tcp_connect url net in
  let! name := server_name url tls in
  result_map_err (fun e => ConnectError.Tls (lit "TLS handshake failed: " ++ e))
    (tls_connect (verify_server_cert (verifier config)) (identity config) name (peer net)).
Definition connect (base charge_point_id : str) tls (subprotocol : str) (net : Net) : Upgrade :=
  match charge_point_url base charge_point_id with
  | Err e => failed e
  | Ok url =>
      if url_scheme url == lit "wss" then
        match client_config tls with
        | Err e => failed e
        | Ok config => upgrade_over (tls_open config url tls net) url subprotocol net
        end
      else upgrade_over (tcp_connect url net) url subprotocol net
  end.

(** ** Whom a station trusts *)

(** Where a trust anchor may come from: the installed roots, the CA file, and the system only
    where there is neither. *)
Definition anchor tls (root : bytes) : Prop :=
  root_error root = None /\
  ((exists pem, pem ∈ TlsConfig.extra_roots_pem tls /\ Ok root ∈ pem_certificates (as_bytes pem)) \/
   (exists path found, TlsConfig.ca_file tls = Some path /\ read_file path = Ok found /\ Ok root ∈ pem_certificates found) \/
   (TlsConfig.ca_file tls = None /\ TlsConfig.extra_roots_pem tls = [] /\ root ∈ native_certs)).
(** The certificate is good: verification is off, or it chains to the anchors and is no refused wildcard. *)
Definition trusted tls (cert : ServerCert) : Prop :=
  TlsConfig.skip_verify tls = true \/
  exists roots, trust_roots (TlsConfig.ca_file tls) (TlsConfig.extra_roots_pem tls) = Ok roots /\
    webpki_verify roots cert = Ok tt /\
    (TlsConfig.allow_wildcard_certificates tls = true \/ is_wildcard_certificate (end_entity cert) = false).

Lemma add_usable_iff root certificates : root ∈ add_usable certificates <-> root_error root = None /\ root ∈ certificates.
Proof. unfold add_usable. rewrite !list_elem_of_In, filter_In. destruct (root_error root); simpl; naive_solver. Qed.
Lemma installed_roots_iff root extra :
  root ∈ installed_roots extra
  <-> root_error root = None /\ exists pem, pem ∈ extra /\ Ok root ∈ pem_certificates (as_bytes pem).
Proof.
  unfold installed_roots. rewrite add_usable_iff, list_elem_of_In, in_flat_map. setoid_rewrite <- list_elem_of_In.
  setoid_rewrite list_elem_of_omap. split; intros [He Hx]; (split; [done|]).
  - destruct Hx as (pem & Hp & [c|e] & Hc & Hr); simplify_eq/=. by exists pem.
  - destruct Hx as (pem & Hp & Hc). exists pem. split; [done|]. by exists (Ok root).
Qed.
Lemma read_certificates_Ok path certificates :
  read_certificates path = Ok certificates ->
  exists found, read_file path = Ok found /\ pem_certificates found = map Ok certificates.
Proof.
  unfold read_certificates. destruct (read_file path) as [found|]; [|done]. simpl.
  destruct (collect_results (pem_certificates found)) as [l|] eqn:Hc; [|done]. simpl. destruct l as [|c l]; [done|].
  intros [= <-]. exists found. split; [done|]. by apply collect_results_Ok.
Qed.
Lemma add_roots_Ok path certificates :
  try_each (add_root path) certificates = Ok tt <-> forall c, c ∈ certificates -> root_error c = None.
Proof.
  rewrite try_each_Ok. setoid_rewrite list_elem_of_In. unfold add_root.
  split; intros H c Hc; specialize (H c Hc); by destruct (root_error c).
Qed.
Lemma trust_roots_Ok tls roots :
  trust_roots (TlsConfig.ca_file tls) (TlsConfig.extra_roots_pem tls) = Ok roots ->
  forall root, root ∈ roots <-> anchor tls root.
Proof.
  unfold trust_roots, anchor. intros Hr root. destruct (TlsConfig.ca_file tls) as [path|] eqn:Hca.
  - destruct (read_certificates path) as [certificates|] eqn:Hc; [|done].
    destruct (try_each (add_root path) certificates) as [[]|] eqn:Ha; [|done]. injection Hr as <-.
    apply read_certificates_Ok in Hc as (found & Hf & Hp). rewrite add_roots_Ok in Ha.
    rewrite elem_of_app, installed_roots_iff. assert (Hin : root ∈ certificates <-> Ok root ∈ pem_certificates found).
    { rewrite Hp, list_elem_of_fmap. naive_solver. }
    split; [naive_solver|]. intros (He & [Hx|[(path' & found' & [= <-] & Hf' & Hx)|(? & _)]]); naive_solver congruence.
  - destruct (TlsConfig.extra_roots_pem tls) as [|pem extra] eqn:Hx.
    + replace roots with (add_usable native_certs) by (simpl in Hr; destruct (add_usable native_certs); naive_solver).
      rewrite add_usable_iff. split; [naive_solver|]. intros (He & [(pem & Hp & _)|[(? & ? & ? & _)|(_ & _ & Hn)]]); [by apply not_elem_of_nil in Hp|done..].
    + injection Hr as <-. rewrite installed_roots_iff. naive_solver.
Qed.

Lemma verifier_trusts tls v cert : verifier_for tls = Ok v -> verify_server_cert v cert = Ok tt <-> trusted tls cert.
Proof.
  unfold verifier_for, trusted. destruct (TlsConfig.skip_verify tls); [intros [= <-]; split; [by left|done]|].
  destruct (trust_roots _ _) as [roots|]; [|done]. destruct (TlsConfig.allow_wildcard_certificates tls).
  - intros [= <-]. simpl. split; [by eauto 10|]. intros [?|(r & [= <-] & Hv & _)]; done.
  - destruct (verifier_error roots); [done|]. intros [= <-]. simpl.
    destruct (webpki_verify roots cert) as [[]|] eqn:Hv; [|split; [done|]; intros [?|(r & [= <-] & Hv' & _)]; congruence].
    destruct (is_wildcard_certificate (end_entity cert)) eqn:Hw; split; try done; [|by eauto 10].
    by intros [?|(r & _ & _ & [?|?])].
Qed.
Lemma client_config_Ok tls config :
  client_config tls = Ok config -> verifier_for tls = Ok (verifier config) /\ client_identity tls = Ok (identity config).
Proof.
  unfold client_config. destruct versions_error; [done|]. destruct (verifier_for tls) as [v|]; [|done].
  destruct (client_identity tls) as [[[chain key]|]|]; [destruct (client_auth_error chain key); [done|]|..]; by intros [= <-].
Qed.
Lemma half_identity tls :
  is_someb (TlsConfig.cert_file tls) <> is_someb (TlsConfig.key_file tls) -> exists e, client_config tls = Err e.
Proof.
  intros Hh. destruct (client_config tls) as [config|e] eqn:Hc; [|by exists e]. apply client_config_Ok in Hc as [_ Hi].
  unfold client_identity in Hi. by destruct (TlsConfig.cert_file tls), (TlsConfig.key_file tls).
Qed.
Lemma sent_opened opened url subprotocol net : sent (upgrade_over opened url subprotocol net) <> [] -> opened = Ok tt.
Proof. unfold upgrade_over. by destruct (timing net), opened as [[]|]. Qed.
Lemma tls_open_trusts {L : RustlsLaws} config url tls net :
  client_config tls = Ok config -> tls_open config url tls net = Ok tt ->
  exists name, server_name url tls = Ok name /\ trusted tls (presented (peer net) name).
Proof.
  intros Hc. unfold tls_open. destruct (tcp_connect url net); [|done]. destruct (server_name url tls) as [name|] eqn:Hn; [|done].
  destruct (tls_connect _ _ _ _) as [[]|] eqn:Ht; [|done]. intros _. exists name. split; [done|].
  apply client_config_Ok in Hc as [Hv _]. by apply (verifier_trusts _ _ _ Hv), (tls_verified _ (identity config)).
Qed.

(** Claim C19: over [wss] a station hands out nothing, its password above all, before the server
    has shown a certificate that the settings trust for the name they ask for: one that chains to
    an anchor, is no wildcard unless those are allowed, or any where verification is switched off.
    The anchors are the usable installed roots and the certificates of the CA file; those of the
    system count only where there is neither. The client certificate is the one of the settings, or
    none; half of one, like any other unusable setting, ends the attempt before the network is
    touched. *)
Theorem connect_trusts {L : RustlsLaws} base id url tls subprotocol net :
  charge_point_url base id = Ok url -> url_scheme url = lit "wss" ->
  let u := connect base id tls subprotocol net in
  (sent u <> [] -> exists name, server_name url tls = Ok name /\ trusted tls (presented (peer net) name))
  /\ (forall roots root, trust_roots (TlsConfig.ca_file tls) (TlsConfig.extra_roots_pem tls) = Ok roots ->
        root ∈ roots <-> anchor tls root)
  /\ (forall config, client_config tls = Ok config -> client_identity tls = Ok (identity config) /\
        forall cert, verify_server_cert (verifier config) cert = Ok tt <-> trusted tls cert)
  /\ (forall e, client_config tls = Err e -> u = failed e)
  /\ (is_someb (TlsConfig.cert_file tls) <> is_someb (TlsConfig.key_file tls) -> exists e, u = failed e).
Proof.
  intros Hurl Hs u. assert (Hu : u = match client_config tls with
    | Err e => failed e | Ok config => upgrade_over (tls_open config url tls net) url subprotocol net end).
  { unfold u, connect. by rewrite Hurl, Hs, eqb_refl. }
  split_and!.
  - rewrite Hu. destruct (client_config tls) as [config|] eqn:Hc; [|done]. intros Ho%sent_opened.
    by apply (tls_open_trusts config url tls net).
  - intros roots root Hr. by apply trust_roots_Ok.
  - intros config Hc. destruct (client_config_Ok _ _ Hc) as [Hv Hi]. split; [done|]. intros cert. by apply verifier_trusts.
  - intros e Hc. by rewrite Hu, Hc.
  - intros [e He]%half_identity. exists e. by rewrite Hu, He.
Qed.
End client.

(** ** A server with a root of its own

    A certificate is its name, followed by the root it chains to. *)

Definition secure_parser : UrlParser := {|
  Url := str; url_parse s := Ok s; url_scheme _ := lit "wss"; url_host _ := Some (lit "[::1]"); cannot_be_a_base _ := false;
  without_userinfo s := s; url_password _ := None; with_userinfo _ _ s := s; url_text s := s |}.
Definition secure_parts : @UrlParts secure_parser :=
  {| url_port _ := None; url_path _ := lit "/CP-1"; url_query _ := None; url_username _ := [];
     path_segments _ := Some [lit "CP-1"]; push_segment _ _ := None; encoded_segment s := s |}.
Definition plain_rustls : Rustls :=
  {| pem_certificates b := [Ok b]; pem_private_key b := Ok b; root_error _ := None |}.
Definition plain_client : RustlsClient (U := secure_parser) := {|
  versions_error := None; native_certs := [lit "system"]; verifier_error _ := None;
  webpki_verify roots cert := if any (fun r => [r] == intermediates cert) roots then Ok tt else Err (lit "unknown issuer");
  invalid_certificate text := lit "invalid peer certificate: " ++ text;
  names_of der := Some (mk_names [Some der] None); client_auth_error _ _ := None; server_name_ok _ := true;
  port_or_known_default _ := Some 443; Peer := bytes * bytes; tcp _ _ _ := Ok tt;
  presented p name := mk_cert p.1 [p.2] name [] 0; tls_connect verify _ name p := verify (mk_cert p.1 [p.2] name [] 0) |}.
#[local] Instance plain_laws : RustlsLaws (C := plain_client).
Proof. by constructor. Qed.
Definition with_root : TlsConfig.t := TlsConfig.default <| TlsConfig.extra_roots_pem := [lit "root"] |>.
Definition attempt (leaf issuer : str) : Upgrade :=
  connect (P := secure_parts) (E := sample_encoding) (R := plain_rustls) (C := plain_client) (fun _ => Err (lit "no such file"))
    (lit "wss://csms/CP-1") (lit "CP-1") with_root (lit "ocpp1.6")
    (mk_net (U := secure_parser) (C := plain_client) (leaf, issuer) InTime (lit "k") (Ok tt) (sample_head (lit "ocpp1.6")) Closed).
Lemma connect_trusts_witness :
  outcome (attempt (lit "csms") (lit "root")) = Ok [] /\ attempt (lit "csms") (lit "system") = failed (ConnectError.Tls (lit "TLS handshake failed: unknown issuer"))
  /\ sent (attempt (lit "*.net") (lit "root")) = []
  /\ trusted (R := plain_rustls) (C := plain_client) (fun _ => Err (lit "no such file")) with_root (mk_cert (lit "csms") [lit "root"] (lit "::1") [] 0).
Proof.
  split; [vm_compute; reflexivity|]. split; [vm_compute; reflexivity|]. split; [vm_compute; reflexivity|].
  destruct (connect_trusts (P := secure_parts) (E := sample_encoding) (R := plain_rustls) (C := plain_client)
              (fun _ => Err (lit "no such file")) (lit "wss://csms/CP-1") (lit "CP-1") (lit "wss://csms/CP-1") with_root (lit "ocpp1.6")
              (mk_net (U := secure_parser) (C := plain_client) (lit "csms", lit "root") InTime (lit "k") (Ok tt) (sample_head (lit "ocpp1.6")) Closed))
    as [H _]; [vm_compute; reflexivity|done|].
  destruct H as (name & Hn & Ht); [vm_compute; discriminate|]. vm_compute in Hn. injection Hn as <-. exact Ht.
Defined.
End ClientTls.
