(* ===== verification/FileNames.v ===== *)
(** * FileNames: the file of a charge point

    [file_name] of [store.rs]: the id of a charge point is escaped into a name that is safe on
    every file system; names of long ids are cut and end in a hash of the id. *)

From stdpp Require Import strings.
From S2P Require Import Prelude Text Utf8.
Local Open Scope Z_scope.

Module FileNames.

(** Longest escaped id kept verbatim. *)
Definition MAX_ESCAPED_LEN : Z := 100.

(** FNV-1a, 64 bit. *)
Definition fnv1a_64 (bytes : list Z) : Z :=
  fold_left (fun hash byte => (Z.lxor hash byte * 1099511628211) mod (u64_max + 1)) bytes 14695981039346656037.

(** [{:02X}] and [{:016x}] *)
Definition upper_digit (n : Z) : char := if n <? 10 then 48 + n else 65 + (n - 10).
Definition lower_digit (n : Z) : char := if n <? 10 then 48 + n else 97 + (n - 10).
Definition hex_byte (b : Z) : str := [upper_digit (b / 16); upper_digit (b mod 16)].
Fixpoint hex_word (digits : nat) (n : Z) : str :=
  match digits with
  | O => []
  | S digits => hex_word digits (n / 16) ++ [lower_digit (n mod 16)]
  end.

Definition is_plain (b : Z) : bool :=
  ((65 <=? b) && (b <=? 90)) || ((97 <=? b) && (b <=? 122)) || is_ascii_digit b || (b =? 95) || (b =? 45).
(** The escaped form of the byte at an index. *)
Definition piece (index byte : Z) : str :=
  if is_plain byte then [byte]
  else if (byte =? 46) && (0 <? index) then [46]
  else 37 :: hex_byte byte.

(** The loop: [name], [kept] and [truncated]. *)
Fixpoint escape (index : Z) (bytes : list Z) (name : str) (kept : Z) (truncated : bool) : str * Z * bool :=
  match bytes with
  | [] => (name, kept, truncated)
  | byte :: bytes =>
      let p := piece index byte in
      if truncated || (MAX_ESCAPED_LEN <? len name + len p)
      then escape (index + 1) bytes name (if truncated then kept else len name) true
      else escape (index + 1) bytes (name ++ p) kept truncated
  end.

Definition suffix : str := lit ".station.json".
Definition file_name (charge_point_id : str) : str :=
  let '(name, kept, truncated) := escape 0 (as_bytes charge_point_id) [] 0 false in
  let name := if truncated
              then take (Z.to_nat kept) name ++ lit "~" ++ hex_word 16 (fnv1a_64 (as_bytes charge_point_id))
              else name in
  let name := match name with [] => lit "%00empty" | _ => name end in
  name ++ suffix.

(** [text.strip_suffix(s)] *)
Definition strip_suffix (s text : str) : option str :=
  (fun r => rev r) <$> strip_prefix (rev s) (rev text).
(** The secrets file next to the state file. *)
Definition secrets_path (path : str) : str :=
  default path (strip_suffix suffix path) ++ lit ".station.secrets.json".
(** The backup of an unusable file. *)
Definition backup_path (path : str) : str := path ++ lit ".bak".

(** ** What the loop makes *)

Definition is_byte (b : Z) : Prop := 0 <= b <= 255.
Fixpoint escaped (index : Z) (bytes : list Z) : str :=
  match bytes with
  | [] => []
  | byte :: bytes => piece index byte ++ escaped (index + 1) bytes
  end.
Lemma escape_truncated index bytes name kept :
  escape index bytes name kept true = (name, kept, true).
Proof. revert index. induction bytes as [|b bytes IH]; intros index; [done|]. apply IH. Qed.
Lemma escape_spec index bytes name :
  len name <= MAX_ESCAPED_LEN ->
  if len (name ++ escaped index bytes) <=? MAX_ESCAPED_LEN
  then escape index bytes name 0 false = (name ++ escaped index bytes, 0, false)
  else exists cut rest, escaped index bytes = cut ++ rest /\ len (name ++ cut) <= MAX_ESCAPED_LEN /\
    escape index bytes name 0 false = (name ++ cut, len (name ++ cut), true).
Proof.
  revert index name. induction bytes as [|b bytes IH]; intros index name Hn.
  { cbn [escaped escape]. rewrite app_nil_r. by rewrite (proj2 (Z.leb_le _ _) Hn). }
  cbn [escaped escape orb]. destruct (Z.ltb_spec MAX_ESCAPED_LEN (len name + len (piece index b))) as [Hl|Hl].
  - rewrite app_assoc. assert (Hlen : MAX_ESCAPED_LEN < len ((name ++ piece index b) ++ escaped (index + 1) bytes)).
    { unfold len in *. rewrite !length_app. lia. }
    rewrite (proj2 (Z.leb_gt _ _) Hlen). exists [], (piece index b ++ escaped (index + 1) bytes).
    rewrite app_nil_r. by rewrite escape_truncated.
  - specialize (IH (index + 1) (name ++ piece index b)). rewrite app_assoc.
    destruct (_ <=? MAX_ESCAPED_LEN).
    + apply IH. unfold len in *. rewrite length_app. lia.
    + destruct IH as (cut & rest & He & Hc & ->); [unfold len in *; rewrite length_app; lia|].
      exists (piece index b ++ cut), rest. rewrite He, !app_assoc. by split_and!.
Qed.

(** ** Escaping is injective *)

Definition digit_value (c : char) : Z := if c <? 65 then c - 48 else c - 55.
(** Reads an escaped name. *)
Fixpoint unescape (s : str) : list Z :=
  match s with
  | [] => []
  | 37 :: h :: l :: s => (digit_value h * 16 + digit_value l) :: unescape s
  | c :: s => c :: unescape s
  end.
Lemma upper_digit_value n : 0 <= n < 16 -> digit_value (upper_digit n) = n.
Proof.
  intros Hn. unfold digit_value, upper_digit.
  destruct (Z.ltb_spec n 10); [rewrite (proj2 (Z.ltb_lt _ _)) by lia; lia|].
  rewrite (proj2 (Z.ltb_ge _ _)) by lia. lia.
Qed.
Lemma unescape_plain c s : c <> 37 -> unescape (c :: s) = c :: unescape s.
Proof.
  intros Hc. destruct c as [|c|c]; try done. do 6 (destruct c; try done).
Qed.
Lemma unescape_piece index b s : is_byte b -> unescape (piece index b ++ s) = b :: unescape s.
Proof.
  intros Hb. unfold piece. destruct (is_plain b) eqn:Hp.
  { apply unescape_plain. intros ->. done. }
  destruct ((b =? 46) && (0 <? index)) eqn:Hd.
  { apply andb_true_iff in Hd as [Hd _]. by apply Z.eqb_eq in Hd as ->. }
  unfold hex_byte. cbn [app unescape].
  unfold is_byte in Hb. pose proof (Z.div_mod b 16 ltac:(lia)). pose proof (Z.mod_pos_bound b 16 ltac:(lia)).
  rewrite !upper_digit_value; [|lia|split; [apply Z.div_pos; lia|apply Z.div_lt_upper_bound; lia]]. f_equal. lia.
Qed.
Lemma unescape_escaped index bytes : Forall is_byte bytes -> unescape (escaped index bytes) = bytes.
Proof.
  intros Hb. revert index. induction Hb as [|b bytes Hb _ IH]; intros index; [done|].
  cbn [escaped]. rewrite unescape_piece by done. by rewrite IH.
Qed.

Definition scalars (s : str) : Prop := Forall (fun c => is_scalar c = true) s.
Lemma as_bytes_are_bytes s : scalars s -> Forall is_byte (as_bytes s).
Proof.
  induction 1 as [|c s Hc _ IH]; [constructor|]. unfold as_bytes. cbn [flat_map]. apply Forall_app. split; [|done].
  assert (H : 0 <= c <= 1114111) by (unfold is_scalar in Hc; bool_facts; lia).
  unfold is_byte, utf8_char.
  repeat match goal with |- context [if ?x <? ?y then _ else _] => destruct (Z.ltb_spec x y) end;
    repeat constructor; Z.div_mod_to_equations; lia.
Qed.
Lemma escaped_inj a b :
  scalars a -> scalars b -> escaped 0 (as_bytes a) = escaped 0 (as_bytes b) -> a = b.
Proof.
  intros Ha Hb H. apply (f_equal unescape) in H.
  rewrite !unescape_escaped in H by by apply as_bytes_are_bytes. by apply as_bytes_inj.
Qed.

(** ** Names are safe *)

Definition safe (c : char) : Prop := is_plain c = true \/ c = 46 \/ c = 37 \/ c = 126.
Lemma upper_digit_plain n : 0 <= n < 16 -> is_plain (upper_digit n) = true.
Proof.
  intros Hn. unfold upper_digit, is_plain, is_ascii_digit. destruct (Z.ltb_spec n 10).
  - rewrite (proj2 (Z.leb_le 48 (48 + n))), (proj2 (Z.leb_le (48 + n) 57)) by lia. by rewrite !orb_true_r.
  - rewrite (proj2 (Z.leb_le 65 (65 + (n - 10)))), (proj2 (Z.leb_le (65 + (n - 10)) 90)) by lia. done.
Qed.
Lemma lower_digit_plain n : 0 <= n < 16 -> is_plain (lower_digit n) = true.
Proof.
  intros Hn. unfold lower_digit, is_plain, is_ascii_digit. destruct (Z.ltb_spec n 10).
  - rewrite (proj2 (Z.leb_le 48 (48 + n))), (proj2 (Z.leb_le (48 + n) 57)) by lia. by rewrite !orb_true_r.
  - rewrite (proj2 (Z.leb_le 97 (97 + (n - 10)))), (proj2 (Z.leb_le (97 + (n - 10)) 122)) by lia.
    by rewrite !orb_true_r.
Qed.
Lemma safe_all s : forallb (fun c => is_plain c || (c =? 46) || (c =? 37) || (c =? 126)) s = true -> Forall safe s.
Proof.
  intros H. apply List.Forall_forall. intros c Hc. pose proof (proj1 (forallb_forall _ _) H c Hc) as Hb. unfold safe.
  rewrite !orb_true_iff, !Z.eqb_eq in Hb. tauto.
Qed.
(** An escaped id has no [~] and does not begin with a dot. *)
Definition escape_char (c : char) : Prop := is_plain c = true \/ c = 46 \/ c = 37.
Lemma piece_chars index b : is_byte b -> Forall escape_char (piece index b).
Proof.
  intros Hb. unfold piece, is_byte in *. destruct (is_plain b) eqn:Hp; [by repeat constructor|].
  destruct (_ && _) eqn:Hd; [repeat constructor; right; by left|].
  constructor; [right; by right|]. unfold hex_byte. repeat constructor; apply upper_digit_plain;
    Z.div_mod_to_equations; lia.
Qed.
Lemma escaped_chars index bytes : Forall is_byte bytes -> Forall escape_char (escaped index bytes).
Proof.
  intros Hb. revert index. induction Hb as [|b bytes Hb _ IH]; intros index; [constructor|].
  apply Forall_app. split; [by apply piece_chars|apply IH].
Qed.
Lemma escaped_head bytes : hd 0 (escaped 0 bytes) <> 46.
Proof.
  destruct bytes as [|b bytes]; [done|]. cbn [escaped]. unfold piece. destruct (is_plain b) eqn:Hp; [simpl; by intros ->|].
  by rewrite andb_false_r.
Qed.
Lemma hex_word_length d n : length (hex_word d n) = d.
Proof. revert n. induction d as [|d IH]; intros n; [done|]. cbn [hex_word]. rewrite length_app, IH. simpl. lia. Qed.
Lemma hex_word_plain d n : 0 <= n -> Forall (fun c => is_plain c = true) (hex_word d n).
Proof.
  revert n. induction d as [|d IH]; intros n Hn; [constructor|]. cbn [hex_word]. apply Forall_app. split.
  - apply IH, Z.div_pos; lia.
  - repeat constructor. apply lower_digit_plain, Z.mod_pos_bound. lia.
Qed.
Lemma fnv1a_64_range bytes : 0 <= fnv1a_64 bytes <= u64_max.
Proof.
  unfold fnv1a_64. assert (H : 0 <= 14695981039346656037 <= u64_max) by (unfold u64_max; lia). revert H.
  generalize 14695981039346656037. induction bytes as [|b bytes IH]; intros hash Hh; [done|].
  apply IH. pose proof (Z.mod_pos_bound (Z.lxor hash b * 1099511628211) (u64_max + 1) ltac:(reflexivity)). lia.
Qed.

(** ** The three forms of a name *)

Definition fits (id : str) : Prop := len (escaped 0 (as_bytes id)) <= MAX_ESCAPED_LEN.
Lemma escaped_nonempty id : id <> [] -> escaped 0 (as_bytes id) <> [].
Proof.
  intros Hid E. destruct id as [|c id]; [done|]. unfold as_bytes in E. cbn [flat_map] in E.
  assert (Hn : exists b bytes, utf8_char c = b :: bytes) by (unfold utf8_char; repeat case_match; eauto).
  destruct Hn as (b & bytes & Hn). rewrite Hn in E. cbn [app escaped] in E. revert E.
  unfold piece. repeat case_match; done.
Qed.
Lemma file_name_short id : id <> [] -> fits id -> file_name id = escaped 0 (as_bytes id) ++ suffix.
Proof.
  intros Hid Hf. unfold file_name. pose proof (escape_spec 0 (as_bytes id) [] ltac:(done)) as H.
  cbn [app] in H. rewrite (proj2 (Z.leb_le _ _) Hf) in H. rewrite H.
  pose proof (escaped_nonempty id Hid) as He. by destruct (escaped 0 (as_bytes id)).
Qed.
Lemma file_name_long id : ~ fits id ->
  exists cut rest, escaped 0 (as_bytes id) = cut ++ rest /\ len cut <= MAX_ESCAPED_LEN /\
    file_name id = cut ++ lit "~" ++ hex_word 16 (fnv1a_64 (as_bytes id)) ++ suffix.
Proof.
  intros Hf. unfold file_name. pose proof (escape_spec 0 (as_bytes id) [] ltac:(done)) as H. cbn [app] in H.
  unfold fits in Hf. rewrite (proj2 (Z.leb_gt _ _)) in H by lia. destruct H as (cut & rest & He & Hl & ->).
  exists cut, rest. split_and!; [done..|]. 
  assert (take (Z.to_nat (len cut)) cut = cut) as -> by (unfold len; by rewrite Nat2Z.id, firstn_all).
  destruct (cut ++ lit "~" ++ _) as [|c s] eqn:E; [by destruct cut|].
  change (?x :: ?y ++ suffix) with ((x :: y) ++ suffix). by rewrite <- E, <- !app_assoc.
Qed.

Lemma app_inv_suffix (a b s : str) : a ++ s = b ++ s -> a = b.
Proof. apply app_inv_tail. Qed.
Lemma tilde_not_escape : ~ escape_char 126.
Proof. by intros [H|[H|H]]. Qed.
Lemma file_name_safe id : scalars id -> Forall safe (file_name id) /\ hd 0 (file_name id) <> 46 /\ len (file_name id) <= 130.
Proof.
  intros Hs. pose proof (escaped_chars 0 _ (as_bytes_are_bytes id Hs)) as Hc.
  pose proof (escaped_head (as_bytes id)) as Hh.
  assert (Hsuf : Forall safe suffix /\ len suffix = 13).
  { split; [|done]. by apply safe_all. }
  assert (Hweak : forall s, Forall escape_char s -> Forall safe s).
  { intros s. apply List.Forall_impl. unfold safe, escape_char. tauto. }
  destruct id as [|c id]; [split_and!; [by apply safe_all|done|done]|].
  set (i := c :: id) in *. destruct (Z.le_gt_cases (len (escaped 0 (as_bytes i))) MAX_ESCAPED_LEN) as [Hf|Hf].
  - rewrite file_name_short by done. split_and!.
    + apply Forall_app. split; [by apply Hweak|apply Hsuf].
    + pose proof (escaped_nonempty i ltac:(done)). by destruct (escaped 0 (as_bytes i)).
    + unfold len in *. rewrite length_app. unfold MAX_ESCAPED_LEN in Hf. destruct Hsuf. lia.
  - destruct (file_name_long i) as (cut & rest & He & Hl & ->); [unfold fits; lia|]. rewrite He in Hc, Hh.
    apply Forall_app in Hc as [Hc _].
    pose proof (hex_word_length 16 (fnv1a_64 (as_bytes i))) as Hw. split_and!.
    + apply Forall_app. split; [by apply Hweak|]. apply Forall_app. split; [by apply safe_all|].
      apply Forall_app. split; [|apply Hsuf]. eapply List.Forall_impl; [|apply hex_word_plain, fnv1a_64_range]. intros x Hx. by left.
    + by destruct cut.
    + unfold len in *. rewrite !length_app, Hw. destruct Hsuf. unfold MAX_ESCAPED_LEN in Hl. simpl. lia.
Qed.
Lemma short_is_not_long a b : scalars a -> a <> [] -> fits a -> ~ fits b -> file_name a <> file_name b.
Proof.
  intros Hs Ha Hf Hb. rewrite file_name_short by done.
  destruct (file_name_long b Hb) as (cut & rest & _ & _ & ->). rewrite !app_assoc.
  intros H%app_inv_suffix. pose proof (escaped_chars 0 _ (as_bytes_are_bytes a Hs)) as Hc. rewrite H in Hc.
  apply Forall_app in Hc as [Hc _]. apply Forall_app in Hc as [_ Hc]. by apply Forall_inv, tilde_not_escape in Hc.
Qed.

(** Of two ids with the same name, a short one is the other. *)
Lemma short_name_inj a b : scalars a -> scalars b -> a <> [] -> b <> [] -> fits a -> file_name a = file_name b -> a = b.
Proof.
  intros Ha Hb Hna Hnb Hf Hab. destruct (Z.le_gt_cases (len (escaped 0 (as_bytes b))) MAX_ESCAPED_LEN) as [Hg|Hg].
  - rewrite !file_name_short in Hab by done. apply app_inv_suffix in Hab. by apply escaped_inj.
  - exfalso. apply (short_is_not_long a b); [done..| |done]. unfold fits. lia.
Qed.

(** ** The other files of a charge point *)

Lemma strip_suffix_app s text : strip_suffix s (text ++ s) = Some text.
Proof.
  unfold strip_suffix. rewrite rev_app_distr.
  rewrite (proj2 (strip_prefix_Some (rev s) _ (rev text)) eq_refl). simpl. by rewrite rev_involutive.
Qed.
Lemma file_name_suffix id : exists stem, file_name id = stem ++ suffix.
Proof. unfold file_name. destruct (escape _ _ _ _ _) as [[name kept] truncated]. by eexists. Qed.
Lemma secrets_path_name dir id stem :
  file_name id = stem ++ suffix -> secrets_path (dir ++ file_name id) = dir ++ stem ++ lit ".station.secrets.json".
Proof.
  intros ->. unfold secrets_path. rewrite (app_assoc dir stem suffix), strip_suffix_app.
  simpl. by rewrite <- app_assoc.
Qed.

Lemma same_end (a b s t : str) : length s = length t -> a ++ s = b ++ t -> s = t.
Proof.
  intros Hl H. apply (f_equal (@rev char)) in H. rewrite !rev_app_distr in H.
  apply app_inj_1 in H as [H _]; [|by rewrite !length_rev]. apply (f_equal (@rev char)) in H. by rewrite !rev_involutive in H.
Qed.

(** Claim C32: stations do not share files. The name of a state file is safe on every file system:
    letters, digits and [_ - . % ~] only, no leading dot, at most 130 characters. Two ids whose
    escaped forms are short have different names unless they are equal, and a shortened name is
    never the name of a short id; the secrets file and the backups of a station are nobody's state
    file. (Two long ids have the same name only when 64-bit hashes collide, and the empty id, which
    no configuration has, is named like one odd id.) *)
Theorem file_name_spec a b dir :
  scalars a -> scalars b -> a <> [] -> b <> [] ->
  Forall safe (file_name a) /\ hd 0 (file_name a) <> 46 /\ len (file_name a) <= 130 /\
  (fits a -> file_name a = file_name b -> a = b) /\
  (~ fits a -> ~ fits b -> file_name a = file_name b ->
     hex_word 16 (fnv1a_64 (as_bytes a)) = hex_word 16 (fnv1a_64 (as_bytes b))) /\
  secrets_path (dir ++ file_name a) <> dir ++ file_name b /\
  backup_path (dir ++ file_name a) <> dir ++ file_name b /\
  (secrets_path (dir ++ file_name a) = secrets_path (dir ++ file_name b) -> file_name a = file_name b).
Proof.
  intros Ha Hb Hna Hnb. destruct (file_name_safe a Ha) as (H1 & H2 & H3).
  destruct (file_name_suffix a) as [sa Ea], (file_name_suffix b) as [sb Eb].
  pose proof (secrets_path_name dir a sa Ea) as Esa. pose proof (secrets_path_name dir b sb Eb) as Esb.
  split_and!; [done..| | | | |].
  - by apply short_name_inj.
  - intros Hf Hg Hab. destruct (file_name_long a Hf) as (ca & ra & _ & _ & Fa).
    destruct (file_name_long b Hg) as (cb & rb & _ & _ & Fb). rewrite Fa, Fb, !app_assoc in Hab.
    apply app_inv_suffix in Hab. rewrite <- !app_assoc in Hab. apply same_end in Hab; [|by rewrite !length_app, !hex_word_length].
    by apply app_inv_head in Hab.
  - rewrite Esa, Eb. intros H%app_inv_head. apply (f_equal (@rev char)) in H. rewrite !rev_app_distr in H. discriminate H.
  - rewrite Eb. unfold backup_path. intros H. apply (f_equal (@rev char)) in H. rewrite !rev_app_distr in H. discriminate H.
  - rewrite Esa, Esb, Ea, Eb. intros H%app_inv_head%app_inv_tail. by rewrite H.
Qed.
(** The empty id shares its name with another one. *)
Lemma empty_id_collides : file_name [] = file_name (0 :: lit "empty").
Proof. reflexivity. Qed.
Lemma file_name_spec_witness :
  file_name (lit "CP/1") = lit "CP%2F1.station.json" /\
  file_name (lit "CP/1") <> file_name (lit "CP-1") /\
  secrets_path (lit "state/" ++ file_name (lit "CP/1")) <> lit "state/" ++ file_name (lit "CP-1").
Proof.
  split; [reflexivity|].
  destruct (file_name_spec (lit "CP/1") (lit "CP-1") (lit "state/")) as (_ & _ & _ & H & _ & Hs & _);
    [repeat constructor|repeat constructor|discriminate|discriminate|].
  split; [|exact Hs]. intros Heq. apply H in Heq; [discriminate Heq|]. vm_compute. discriminate.
Defined.
End FileNames.
