(* ===== verification/StateFile.v ===== *)
(** * StateFile: the state file of a station on disk

    [StationStore] of [store.rs]: loading and saving the state file and the secrets file, and the
    recovery rules. The disk keeps what is visible and what has been synced apart; an operation
    may fail ([Faults], by the number of the operation), and the images of the disk before every
    operation are logged, so that a crash at any moment can be considered. The JSON library and
    the derived serializers are foreign. *)

From stdpp Require Import strings gmap.
From S2P Require Import Prelude Text Utf8 Time Types Messages Frame Certificates Store FileNames.
Local Open Scope Z_scope.

Module StateFile.
Import FileNames.

Module IoKind.
Inductive t : Type := NotFound | Unsupported | InvalidInput | Other.
#[export] Instance eq_dec : EqDecision t.
Proof. solve_decision. Defined.
End IoKind.
Export (hints) IoKind.

Inductive StoreError : Type :=
| Io (path : str) (kind : IoKind.t)
| Serialize
| UnsupportedVersion (path : str) (found supported : Z).

(** ** The disk *)

(** A file has a name, or is the unnamed temporary file of an inode. *)
Definition entry : Type := str + Z.
Module Image.
Record t : Type := mk {
  dir : gmap entry Z;
  synced_dir : gmap entry Z;
  data : gmap Z str;
  synced : gmap Z str;
}.
#[export] Instance eta : Eta t := fun i => mk (dir i) (synced_dir i) (data i) (synced i).
End Image.
Export (hints) Image.
Module Disk.
Record t : Type := mk {
  image : Image.t;
  next_inode : Z;
  op : Z;
  trace : list Image.t;
}.
#[export] Instance eta : Eta t := fun d => mk (image d) (next_inode d) (op d) (trace d).
End Disk.
Export (hints) Disk.

(** Which operations fail; a failing write has written a part. *)
Class Faults : Type := {
  fault_at : Z -> option IoKind.t;
  written_at : Z -> nat;
}.

Definition io (E A : Type) : Type := Disk.t -> Disk.t * result A E.
#[export] Instance io_ret {E} : MRet (io E) := fun A x d => (d, Ok x).
#[export] Instance io_bind {E} : MBind (io E) := fun A B k m d =>
  match m d with (d, Ok x) => k x d | (d, Err e) => (d, Err e) end.

Section disk.
Context {F : Faults}.

Definition visible (img : Image.t) (path : str) : option str :=
  i ← Image.dir img !! inl path; Image.data img !! i.

(** One operation: the image is logged, and either it fails with [failed] or has its effect. *)
Definition operate {A} (failed : Image.t -> Image.t) (effect : Disk.t -> Disk.t * result A IoKind.t) : io IoKind.t A := fun d =>
  let d' := d <| Disk.op ::= Z.succ |> <| Disk.trace ::= cons (Disk.image d) |> in
  match fault_at (Disk.op d) with
  | Some kind => (d' <| Disk.image ::= failed |>, Err kind)
  | None => effect d'
  end.
Definition succeed {A} (x : A) (f : Image.t -> Image.t) (d : Disk.t) : Disk.t * result A IoKind.t :=
  (d <| Disk.image ::= f |>, Ok x).

Definition read (path : str) : io IoKind.t str :=
  operate (fun img => img) (fun d =>
    match visible (Disk.image d) path with Some text => (d, Ok text) | None => (d, Err IoKind.NotFound) end).
Definition remove_file (path : str) : io IoKind.t unit :=
  operate (fun img => img) (fun d =>
    match Image.dir (Disk.image d) !! inl path with
    | Some _ => succeed tt (fun img => img <| Image.dir ::= base.delete (inl path) |>) d
    | None => (d, Err IoKind.NotFound)
    end).
Definition rename (from to : str) : io IoKind.t unit :=
  operate (fun img => img) (fun d =>
    match Image.dir (Disk.image d) !! inl from with
    | Some i => succeed tt (fun img => img <| Image.dir ::= fun m => <[inl to := i]> (base.delete (inl from) m) |>) d
    | None => (d, Err IoKind.NotFound)
    end).
Definition create_dir_all : io IoKind.t unit := operate (fun img => img) (succeed tt (fun img => img)).
(** [NamedTempFile::new_in], [write_all], [sync_all], [persist], and its [drop] *)
Definition new_temp : io IoKind.t Z :=
  operate (fun img => img) (fun d =>
    let i := Disk.next_inode d in
    succeed i (fun img => img <| Image.dir ::= <[inr i := i]> |> <| Image.data ::= <[i := []]> |>)
      (d <| Disk.next_inode ::= Z.succ |>)).
Definition write_all (i : Z) (text : str) : io IoKind.t unit := fun d =>
  operate (fun img => img <| Image.data ::= <[i := take (written_at (Disk.op d)) text]> |>)
    (succeed tt (fun img => img <| Image.data ::= <[i := text]> |>)) d.
Definition sync_file (i : Z) : io IoKind.t unit :=
  operate (fun img => img)
    (succeed tt (fun img => img <| Image.synced := partial_alter (fun _ => Image.data img !! i) i (Image.synced img) |>)).
Definition persist (i : Z) (path : str) : io IoKind.t unit :=
  operate (fun img => img)
    (succeed tt (fun img => img <| Image.dir ::= fun m => <[inl path := i]> (base.delete (inr i) m) |>)).
Definition drop_temp (i : Z) : io IoKind.t unit := fun d =>
  (d <| Disk.image ::= fun img => img <| Image.dir ::= base.delete (inr i) |> |>, Ok tt).
Definition sync_dir : io IoKind.t unit :=
  operate (fun img => img) (succeed tt (fun img => img <| Image.synced_dir := Image.dir img |>)).

Definition fail_with {E A} (e : E) : io E A := fun d => (d, Err e).
(** What [match] on the result of an operation looks at, and a [?] that converts the error. *)
Definition attempt {E E' A} (m : io E A) : io E' (result A E) := fun d => let '(d, r) := m d in (d, Ok r).
Definition map_err {E E' A} (f : E -> E') (m : io E A) : io E' A := fun d =>
  let '(d, r) := m d in (d, match r with Ok x => Ok x | Err e => Err (f e) end).

(** ** Writing *)

Definition dir_sync_unsupported (kind : IoKind.t) : bool :=
  (kind == IoKind.Unsupported) || (kind == IoKind.InvalidInput).

(** Fills the temporary file and renames it; a temporary file that is not renamed is dropped. *)
Definition replace_file (path json : str) : io IoKind.t unit :=
  i ← new_temp;
  filled ← attempt (write_all i json;; sync_file i;; persist i path);
  match filled with
  | Ok _ => mret tt
  | Err kind => drop_temp i;; fail_with kind
  end.
(** [Path::parent] of the path of a file in a directory *)
Definition parent (path : str) : str :=
  match rsplit_once 47 path with Some (dir, _) => if dir == [] then lit "/" else dir | None => [] end.
Definition write_atomic (self path : str) (json : str) : io StoreError unit :=
  map_err (Io (parent path)) create_dir_all;;
  map_err (Io self) (replace_file path json);;
  synced ← attempt sync_dir;
  match synced with
  | Ok _ => mret tt
  | Err kind => if dir_sync_unsupported kind then mret tt else fail_with (Io (parent path) kind)
  end.

(** ** The store of a charge point *)

Section wire.
Context {J : SerdeJson} {T : JsonText} {P : Pki}.

(** The derived serializers. *)
Class StoreWire : Type := {
  station_to_text : PersistedStation.t -> option str;
  station_from_value : json -> result PersistedStation.t str;
  (** of a copy with this [version] *)
  secrets_to_text : Z -> StationSecrets.t -> option str;
  secrets_from_text : str -> option StationSecrets.t;
}.
Context {W : StoreWire}.

Inductive LoadOutcome : Type :=
| Missing
| Loaded (state : PersistedStation.t)
| Quarantined (backup reason : str).

Record StationStore : Type := mk_store { path : str; charge_point_id : str }.
Definition new_store (dir charge_point_id : str) : StationStore :=
  mk_store (dir ++ lit "/" ++ file_name charge_point_id) charge_point_id.

(** Moves a file to its backup, replacing an older one. *)
Definition move_aside (path : str) : io StoreError str :=
  let backup := backup_path path in
  removed ← attempt (remove_file backup);
  match removed with
  | Ok _ | Err IoKind.NotFound => mret tt
  | Err kind => fail_with (Io backup kind)
  end;;
  map_err (Io path) (rename path backup);;
  mret backup.
Definition quarantine (s : StationStore) (reason : str) : io StoreError LoadOutcome :=
  backup ← move_aside (path s);
  mret (Quarantined backup reason).

Definition version_of (value : json) : option Z :=
  match value with Object fields => field (lit "version") fields ≫= as_u64 | _ => None end.
(** What a file is good for. *)
Inductive Content : Type :=
| Newer (found : Z)
| Unusable (reason : str)
| Usable (state : PersistedStation.t).
Definition decode (s : StationStore) (bytes : str) : Content :=
  match json_from_str bytes with
  | Err e => Unusable (lit "not valid JSON: " ++ json_error_text e)
  | Ok value =>
      match version_of value with
      | None => Unusable (lit "missing format version")
      | Some found =>
          if STORE_VERSION <? found then Newer found
          else
            match station_from_value value with
            | Err e => Unusable (lit "unexpected structure: " ++ e)
            | Ok state =>
                if PersistedStation.charge_point_id state == charge_point_id s then Usable state
                else Unusable (lit "belongs to charge point `" ++ PersistedStation.charge_point_id state
                               ++ lit "`, expected `" ++ charge_point_id s ++ lit "`")
            end
      end
  end.
Definition load (s : StationStore) : io StoreError LoadOutcome :=
  bytes ← attempt (read (path s));
  match bytes with
  | Err IoKind.NotFound => mret Missing
  | Err kind => fail_with (Io (path s) kind)
  | Ok bytes =>
      match decode s bytes with
      | Newer found => fail_with (UnsupportedVersion (path s) found STORE_VERSION)
      | Unusable reason => quarantine s reason
      | Usable state => mret (Loaded state)
      end
  end.

Definition load_secrets (s : StationStore) : io StoreError StationSecrets.t :=
  let path := secrets_path (path s) in
  bytes ← attempt (read path);
  match bytes with
  | Err IoKind.NotFound => mret StationSecrets.default
  | Err kind => fail_with (Io path kind)
  | Ok bytes =>
      match secrets_from_text bytes with
      | Some secrets => mret secrets
      | None => move_aside path;; fail_with (Io path IoKind.Other)
      end
  end.

Definition no_secrets (secrets : StationSecrets.t) : bool :=
  negb (is_someb (StationSecrets.authorization_key secrets))
  && negb (is_someb (StationSecrets.charge_point_key_pem secrets))
  && negb (is_someb (StationSecrets.pending_key_pem secrets))
  && negb (is_someb (StationSecrets.previous_charge_point_key_pem secrets)).
Definition save_secrets (s : StationStore) (secrets : StationSecrets.t) : io StoreError unit :=
  let secrets_file := secrets_path (path s) in
  if no_secrets secrets then
    removed ← attempt (remove_file secrets_file);
    match removed with
    | Ok _ | Err IoKind.NotFound => mret tt
    | Err kind => fail_with (Io secrets_file kind)
    end
  else
    match secrets_to_text STORE_VERSION secrets with
    | Some text => write_atomic (path s) secrets_file text
    | None => fail_with Serialize
    end.
Definition save (s : StationStore) (state : PersistedStation.t) : io StoreError unit :=
  match station_to_text state with
  | Some text => write_atomic (path s) (path s) text
  | None => fail_with Serialize
  end.
End wire.
End disk.
End StateFile.
