(* ===== verification/Crashes.v ===== *)
(** * Crashes: the state file survives

    What the operations of [StateFile.v] promise: a crash at any moment of a save leaves the old
    or the new content of the file, never a torn one; loading never loses the content of a file,
    and what has been saved is loaded again. *)

From stdpp Require Import strings gmap.
From S2P Require Import Prelude Text Utf8 Time Types Messages Frame LocalAuthList Authorization Certificates Store FileNames StateFile.
Local Open Scope Z_scope.

Module Crashes.
Import (hints) StateFile.
Import FileNames StateFile.

(** ** Crashes *)

Section crashes.
Context {F : Faults}.
Implicit Types (img : Image.t) (d : Disk.t) (path json : str).

(** What a file may hold after a crash: the directory entry is the synced one or the visible one,
    and the data of a file that has not been synced is anything. *)
Definition has_entry img path (i : option Z) : Prop :=
  Image.dir img !! inl path = i \/ Image.synced_dir img !! inl path = i.
Inductive survives img path : option str -> Prop :=
| survives_gone : has_entry img path None -> survives img path None
| survives_whole i text :
    has_entry img path (Some i) -> Image.data img !! i = Some text -> Image.synced img !! i = Some text ->
    survives img path (Some text)
| survives_torn i text :
    has_entry img path (Some i) -> Image.data img !! i <> Image.synced img !! i ->
    survives img path (Some text).

(** A content that is whole and synced. *)
Definition whole img (i : Z) (text : str) : Prop :=
  Image.data img !! i = Some text /\ Image.synced img !! i = Some text.
Definition entry_holds img (i : option Z) (content : option str) : Prop :=
  match i, content with
  | None, None => True
  | Some i, Some text => whole img i text
  | _, _ => False
  end.
(** The file is on the disk as it looks, with this content. *)
Definition settled img path (content : option str) : Prop :=
  Image.dir img !! inl path = Image.synced_dir img !! inl path /\
  entry_holds img (Image.dir img !! inl path) content.
(** The file has been renamed to a new content, the directory has not been synced. *)
Definition renamed img path (old : option str) (json : str) : Prop :=
  entry_holds img (Image.dir img !! inl path) (Some json) /\
  entry_holds img (Image.synced_dir img !! inl path) old.
Definition old_or_new path old json img : Prop :=
  forall r, survives img path r -> r = old \/ r = Some json.

Lemma entry_survives img path i content r :
  entry_holds img i content ->
  (i = None -> r = None -> r = content) /\
  (forall j text, i = Some j -> Image.data img !! j = Some text -> content = Some text) /\
  (forall j, i = Some j -> Image.data img !! j = Image.synced img !! j).
Proof.
  destruct i as [i|], content as [text|]; try done; simpl; intros H; split_and!; try congruence.
  - destruct H as [Hd _]. intros j t [= <-]. congruence.
  - destruct H as [Hd Hs]. intros j [= <-]. congruence.
Qed.
Lemma settled_survives img path content r : settled img path content -> survives img path r -> r = content.
Proof.
  intros [He Hc] Hr. destruct (entry_survives img path _ content r Hc) as (Hn & Hw & Ht).
  destruct Hr as [[H|H]|i text [H|H] Hd Hs|i text [H|H] Hd]; try (rewrite <- He in H);
    rewrite H in *; try (by apply Hn); try (symmetry; by eapply Hw); by edestruct Hd; apply Ht.
Qed.
Lemma renamed_survives img path old json : renamed img path old json -> old_or_new path old json img.
Proof.
  intros [Hn Ho] r Hr. destruct (entry_survives img path _ _ r Hn) as (Hn1 & Hw1 & Ht1).
  destruct (entry_survives img path _ _ r Ho) as (Hn2 & Hw2 & Ht2).
  destruct Hr as [[H|H]|i text [H|H] Hd Hs|i text [H|H] Hd]; rewrite H in *.
  - right. by apply Hn1.
  - left. by apply Hn2.
  - right. symmetry. by eapply Hw1.
  - left. symmetry. by eapply Hw2.
  - destruct Hd. by apply Ht1.
  - destruct Hd. by apply Ht2.
Qed.

(** ** A save, operation by operation *)

(** An inode that nobody else knows of. *)
Definition unknown img (i : Z) : Prop :=
  (forall e, Image.dir img !! e <> Some i) /\ forall e, Image.synced_dir img !! e <> Some i.
Definition fresh d : Prop := forall i, Disk.next_inode d <= i -> unknown (Disk.image d) i.
(** The file is not touched: only the temporary file of an inode changes. *)
Definition aside img img' (i : Z) path : Prop :=
  Image.dir img' !! inl path = Image.dir img !! inl path /\
  Image.synced_dir img' !! inl path = Image.synced_dir img !! inl path /\
  forall j, j <> i -> Image.data img' !! j = Image.data img !! j /\ Image.synced img' !! j = Image.synced img !! j.
Definition apart img (i : Z) path : Prop := Image.dir img !! inl path <> Some i.
Lemma aside_settled img img' i path old :
  aside img img' i path -> apart img i path -> settled img path old -> settled img' path old /\ apart img' i path.
Proof.
  intros (Hd & Hs & Hj) Ha (He & Hc). unfold settled, apart in *. rewrite Hd, Hs. split; [|done]. split; [done|].
  destruct (Image.dir img !! inl path) as [j|]; [|by destruct old]. destruct old as [text|]; [|done].
  unfold entry_holds, whole in *. by destruct (Hj j) as [-> ->]; [congruence|].
Qed.

Definition safe_trace path old json d : Prop :=
  Forall (old_or_new path old json) (Disk.image d :: Disk.trace d).
Lemma settled_safe path old json img : settled img path old -> old_or_new path old json img.
Proof. intros H r Hr. left. by eapply settled_survives. Qed.

Lemma io_bind_eq {E A B} (m : io E A) (k : A -> io E B) d :
  (m ≫= k) d = match m d with (d', Ok x) => k x d' | (d', Err e) => (d', Err e) end.
Proof. done. Qed.
Lemma operate_cases {A} failed (x : A) f d :
  let '(d', r) := operate failed (succeed x f) d in
  Disk.trace d' = Disk.image d :: Disk.trace d /\ Disk.next_inode d' = Disk.next_inode d /\
  ((r = Ok x /\ Disk.image d' = f (Disk.image d)) \/ (exists kind, r = Err kind /\ Disk.image d' = failed (Disk.image d))).
Proof. unfold operate, succeed. destruct (fault_at (Disk.op d)); cbn; eauto 10. Qed.
Lemma operate_failed {A} failed (x : A) f d kind :
  (operate failed (succeed x f) d).2 = Err kind ->
  fault_at (Z.pred (Disk.op (operate failed (succeed x f) d).1)) = Some kind.
Proof.
  unfold operate, succeed. destruct (fault_at (Disk.op d)) as [k|] eqn:Hf; cbn; [|done]. intros [= <-].
  by rewrite Z.pred_succ.
Qed.
Lemma safe_more path old json d d' :
  safe_trace path old json d -> Disk.trace d' = Disk.image d :: Disk.trace d ->
  old_or_new path old json (Disk.image d') -> safe_trace path old json d'.
Proof. intros Ht Hd Hi. unfold safe_trace. rewrite Hd. by constructor. Qed.

Lemma fill_spec path old json i d :
  settled (Disk.image d) path old -> apart (Disk.image d) i path -> safe_trace path old json d ->
  let '(d', r) := (write_all i json;; sync_file i;; persist i path) d in
  safe_trace path old json d' /\
  match r with Ok _ => renamed (Disk.image d') path old json | Err _ => settled (Disk.image d') path old end.
Proof.
  intros Hs Ha Ht. rewrite io_bind_eq. unfold write_all.
  pose proof (operate_cases (fun img => img <| Image.data ::= <[i := take (written_at (Disk.op d)) json]> |>) tt
    (fun img => img <| Image.data ::= <[i := json]> |>) d) as H1.
  destruct (operate _ _ d) as [d1 r1]. destruct H1 as (T1 & _ & H1).
  assert (S1 : settled (Disk.image d1) path old /\ apart (Disk.image d1) i path).
  { destruct H1 as [[_ ->]|(kind & _ & ->)]; (apply (aside_settled (Disk.image d) _ i path old); [|done|done]);
      split_and!; try done; intros j Hj; cbn; by rewrite lookup_insert_ne. }
  destruct S1 as [S1 A1]. pose proof (safe_more _ _ _ _ _ Ht T1 (settled_safe _ _ _ _ S1)) as Ht1.
  destruct H1 as [[-> I1]|(kind & -> & _)]; [|done].
  rewrite io_bind_eq. unfold sync_file.
  pose proof (operate_cases (fun img => img) tt (fun img => img <| Image.synced :=
    partial_alter (fun _ => Image.data img !! i) i (Image.synced img) |>) d1) as H2.
  destruct (operate _ _ d1) as [d2 r2]. destruct H2 as (T2 & _ & H2).
  assert (S2 : settled (Disk.image d2) path old /\ apart (Disk.image d2) i path).
  { destruct H2 as [[_ ->]|(kind & _ & ->)]; [|done]. apply (aside_settled (Disk.image d1) _ i path old); [|done|done].
    split_and!; try done; intros j Hj; cbn. by rewrite lookup_partial_alter_ne. }
  destruct S2 as [S2 A2]. pose proof (safe_more _ _ _ _ _ Ht1 T2 (settled_safe _ _ _ _ S2)) as Ht2.
  destruct H2 as [[-> I2]|(kind & -> & _)]; [|done].
  assert (Hw : whole (Disk.image d2) i json).
  { rewrite I2, I1. split; cbn; [by rewrite lookup_insert_eq|]. by rewrite lookup_partial_alter_eq, lookup_insert_eq. }
  clear I1 I2. unfold persist.
  pose proof (operate_cases (fun img => img) tt
    (fun img => img <| Image.dir ::= fun m => <[inl path := i]> (base.delete (inr i) m) |>) d2) as H3.
  destruct (operate _ _ d2) as [d3 r3]. destruct H3 as (T3 & _ & H3).
  destruct H3 as [[-> I3]|(kind & -> & I3)].
  - assert (R3 : renamed (Disk.image d3) path old json).
    { rewrite I3. split; cbn; [by rewrite lookup_insert_eq|]. destruct S2 as [He Hc]. by rewrite He in Hc. }
    split; [|done]. apply (safe_more _ _ _ _ _ Ht2 T3). by apply renamed_survives.
  - rewrite I3. split; [|done]. apply (safe_more _ _ _ _ _ Ht2 T3). rewrite I3. by apply settled_safe.
Qed.

Lemma new_temp_spec path old json d :
  fresh d -> settled (Disk.image d) path old -> safe_trace path old json d ->
  let '(d', r) := new_temp d in
  safe_trace path old json d' /\ settled (Disk.image d') path old /\
  match r with Ok i => apart (Disk.image d') i path | Err _ => True end.
Proof.
  intros Hf Hs Ht. unfold new_temp, operate. destruct (Hf (Disk.next_inode d) ltac:(lia)) as [Hu _].
  destruct (fault_at (Disk.op d)); cbn [succeed].
  { split; [|done]. apply (safe_more path old json d); [done|reflexivity|by apply settled_safe]. }
  set (i := Disk.next_inode d) in *.
  set (img := (Disk.image d) <| Image.dir ::= <[inr i := i]> |> <| Image.data ::= <[i := []]> |>).
  destruct (aside_settled (Disk.image d) img i path old) as [S1 A1]; [|apply Hu|done|].
  { split_and!; cbn; [by rewrite lookup_insert_ne|done|]. intros j Hj. by rewrite lookup_insert_ne. }
  split; [|by split]. apply (safe_more path old json d); [done|reflexivity|]. by apply settled_safe.
Qed.
Lemma drop_temp_spec path old json i d :
  settled (Disk.image d) path old -> safe_trace path old json d ->
  safe_trace path old json (drop_temp i d).1 /\ settled (Disk.image (drop_temp i d).1) path old.
Proof.
  intros Hs Ht. assert (S1 : settled (Disk.image (drop_temp i d).1) path old).
  { unfold settled in *. cbn. by rewrite lookup_delete_ne. }
  split; [|done]. constructor; [by apply settled_safe|]. by inversion Ht.
Qed.
Lemma replace_file_spec path old json d :
  fresh d -> settled (Disk.image d) path old -> safe_trace path old json d ->
  let '(d', r) := replace_file path json d in
  safe_trace path old json d' /\
  match r with Ok _ => renamed (Disk.image d') path old json | Err _ => settled (Disk.image d') path old end.
Proof.
  intros Hf Hs Ht. unfold replace_file. rewrite io_bind_eq. pose proof (new_temp_spec path old json d Hf Hs Ht) as H1.
  destruct (new_temp d) as [d1 [i|kind]]; destruct H1 as (Ht1 & S1 & A1); [|done].
  rewrite io_bind_eq. unfold attempt. pose proof (fill_spec path old json i d1 S1 A1 Ht1) as H2.
  destruct ((write_all i json;; sync_file i;; persist i path) d1) as [d2 [[]|kind]]; [done|].
  destruct H2 as [Ht2 S2]. rewrite io_bind_eq. destruct (drop_temp_spec path old json i d2 S2 Ht2) as [Ht3 S3]. by split.
Qed.

Lemma renamed_visible img path old json : renamed img path old json -> visible img path = Some json.
Proof.
  intros [H _]. unfold visible. destruct (Image.dir img !! inl path) as [i|]; [|done]. by destruct H.
Qed.
Lemma settled_visible img path content : settled img path content -> visible img path = content.
Proof.
  intros [_ H]. unfold visible. destruct (Image.dir img !! inl path) as [i|], content as [text|]; try done.
  by destruct H.
Qed.
(** The last operation was refused because the file system cannot sync a directory. *)
Definition dir_sync_refused d : Prop :=
  exists kind, fault_at (Z.pred (Disk.op d)) = Some kind /\ dir_sync_unsupported kind = true.
Lemma write_atomic_spec self path old json d :
  fresh d -> settled (Disk.image d) path old -> safe_trace path old json d ->
  let '(d', r) := write_atomic self path json d in
  safe_trace path old json d' /\
  match r with
  | Ok _ => settled (Disk.image d') path (Some json) \/ (renamed (Disk.image d') path old json /\ dir_sync_refused d')
  | Err _ => renamed (Disk.image d') path old json \/ settled (Disk.image d') path old
  end.
Proof.
  intros Hf Hs Ht. unfold write_atomic. rewrite io_bind_eq. unfold map_err at 1, create_dir_all.
  pose proof (operate_cases (fun img => img) tt (fun img => img) d) as H0.
  destruct (operate _ _ d) as [d0 r0]. destruct H0 as (T0 & N0 & H0).
  assert (I0 : Disk.image d0 = Disk.image d) by (by destruct H0 as [[_ ->]|(? & _ & ->)]).
  assert (Ht0 : safe_trace path old json d0).
  { apply (safe_more _ _ _ _ _ Ht T0). rewrite I0. by apply settled_safe. }
  assert (Hf0 : fresh d0) by (unfold fresh; by rewrite N0, I0). rewrite <- I0 in Hs. clear I0 N0 T0.
  destruct H0 as [[-> _]|(kind & -> & _)]; [|by split; [|right]].
  rewrite io_bind_eq. unfold map_err. pose proof (replace_file_spec path old json d0 Hf0 Hs Ht0) as H1.
  destruct (replace_file path json d0) as [d1 [[]|kind]]; destruct H1 as [Ht1 S1]; [|by split; [|right]].
  rewrite io_bind_eq. unfold attempt, sync_dir.
  pose proof (operate_cases (fun img => img) tt (fun img => img <| Image.synced_dir := Image.dir img |>) d1) as H2.
  pose proof (operate_failed (fun img => img) tt (fun img => img <| Image.synced_dir := Image.dir img |>) d1) as Hk.
  destruct (operate _ _ d1) as [d2 r2]. destruct H2 as (T2 & _ & H2). destruct H2 as [[-> I2]|(kind & -> & I2)].
  - assert (S2 : settled (Disk.image d2) path (Some json)).
    { rewrite I2. destruct S1 as [Hn _]. by split. }
    split; [|by left]. apply (safe_more _ _ _ _ _ Ht1 T2). intros r Hr. right. by eapply settled_survives.
  - rewrite <- I2 in S1. assert (Ht2 : safe_trace path old json d2).
    { apply (safe_more _ _ _ _ _ Ht1 T2). by apply renamed_survives. }
    specialize (Hk kind eq_refl).
    destruct (dir_sync_unsupported kind) eqn:Hu; (split; [done|]); [right; split; [done|by exists kind]|by left].
Qed.
Lemma operate_works {A} failed (x : A) f d :
  (forall n, fault_at n = None) -> (operate failed (succeed x f) d).2 = Ok x.
Proof. intros Hn. unfold operate. by rewrite Hn. Qed.
Lemma write_atomic_works self path json d :
  (forall n, fault_at n = None) -> (write_atomic self path json d).2 = Ok tt.
Proof.
  intros Hn. unfold write_atomic, create_dir_all, replace_file, new_temp, write_all, sync_file, persist, sync_dir,
    map_err, attempt, operate, mbind, io_bind.
  repeat (rewrite Hn; cbn). done.
Qed.
End crashes.

(** ** The state file *)

Section files.
Context {F : Faults} {J : SerdeJson} {T : JsonText} {P : Pki} {W : StoreWire}.
Implicit Types (s : StationStore) (d : Disk.t).

(** The derived serializers read what they have written. *)
Definition reads_back (state : PersistedStation.t) (text : str) : Prop :=
  exists value, json_from_str text = Ok value /\ version_of value = Some (PersistedStation.version state) /\
    station_from_value value = Ok state.

(** Claim C9: a crash at any moment of a save, whichever operation of it fails, leaves the old or
    the new content in the state file, never a torn or empty one; one that reports an error has
    left one of the two. A save that reports success has the new content in the file, and only that
    can be there after a later crash, unless the file system has just refused to sync directories.
    Without a failing operation it does report success, and the next start loads what it saved. *)
Theorem save_survives_crash s state text old d :
  fresh d -> settled (Disk.image d) (path s) old -> Disk.trace d = [] ->
  station_to_text state = Some text ->
  let '(d', r) := save s state d in
  Forall (old_or_new (path s) old text) (Disk.image d' :: Disk.trace d') /\
  (r = Ok tt -> visible (Disk.image d') (path s) = Some text /\
     ((forall content, survives (Disk.image d') (path s) content -> content = Some text) \/ dir_sync_refused d')) /\
  (visible (Disk.image d') (path s) = old \/ visible (Disk.image d') (path s) = Some text) /\
  ((forall n, fault_at n = None) ->
   r = Ok tt /\
   (reads_back state text -> PersistedStation.charge_point_id state = charge_point_id s -> PersistedStation.version state <= STORE_VERSION ->
    (load s d').2 = Ok (Loaded state))).
Proof.
  intros Hf Hs Ht Hw. unfold save. rewrite Hw.
  assert (Hsafe : safe_trace (path s) old text d).
  { unfold safe_trace. rewrite Ht. constructor; [by apply settled_safe|constructor]. }
  pose proof (write_atomic_spec (path s) (path s) old text d Hf Hs Hsafe) as H.
  pose proof (write_atomic_works (path s) (path s) text d) as Hok.
  destruct (write_atomic (path s) (path s) text d) as [d' r]. destruct H as [Ht' H].
  assert (Hlast : r = Ok tt ->
    (forall content, survives (Disk.image d') (path s) content -> content = Some text) \/ dir_sync_refused d').
  { intros ->. destruct H as [H|[_ H]]; [left; intros content; by apply settled_survives|by right]. }
  assert (Hv : match r with Ok _ => visible (Disk.image d') (path s) = Some text
    | Err _ => visible (Disk.image d') (path s) = old \/ visible (Disk.image d') (path s) = Some text end).
  { destruct r.
    - destruct H as [H|[H _]]; [by eapply settled_visible|by eapply renamed_visible].
    - destruct H as [H|H]; [right; by eapply renamed_visible|left; by eapply settled_visible]. }
  split; [done|]. split; [intros ->; split; [done|by apply Hlast]|]. split; [by destruct r; [right|]|].
  intros Hn. specialize (Hok Hn). cbn [snd] in Hok. split; [done|]. subst r. intros (value & Hj & Hvs & Hd) Hid Hver.
  unfold load. rewrite io_bind_eq. unfold attempt, read, operate. rewrite Hn. cbn. rewrite Hv.
  unfold decode. rewrite Hj, Hvs, (proj2 (Z.ltb_ge _ _)) by done. by rewrite Hd, Hid, eqb_refl.
Qed.

Lemma decode_newer s text found :
  decode s text = Newer found ->
  STORE_VERSION < found /\ exists value, json_from_str text = Ok value /\ version_of value = Some found.
Proof.
  unfold decode. destruct (json_from_str text) as [value|]; [|done]. destruct (version_of value) as [v|] eqn:Hv; [|done].
  destruct (Z.ltb_spec STORE_VERSION v); [intros [= <-]; split; [done|by exists value]|].
  destruct (station_from_value value) as [st|]; [|done]. by destruct (_ == _).
Qed.
Lemma decode_usable s text state :
  decode s text = Usable state ->
  PersistedStation.charge_point_id state = charge_point_id s /\
  exists value version, json_from_str text = Ok value /\ version_of value = Some version /\
    version <= STORE_VERSION /\ station_from_value value = Ok state.
Proof.
  unfold decode. destruct (json_from_str text) as [value|]; [|done]. destruct (version_of value) as [v|] eqn:Hv; [|done].
  destruct (Z.ltb_spec STORE_VERSION v); [done|]. destruct (station_from_value value) as [st|] eqn:Hs; [|done].
  destruct (_ == _) eqn:He; [|done]. intros [= ->]. split; [by apply (proj1 (eqb_true _ _)) in He|]. by exists value, v.
Qed.
Lemma backup_differs path : backup_path path <> path.
Proof.
  unfold backup_path. intros H. apply (f_equal length) in H. rewrite length_app in H. simpl in H. lia.
Qed.
(** The disk without the backup of a file. *)
Definition without_backup path img : Image.t := img <| Image.dir ::= base.delete (inl (backup_path path)) |>.
Lemma visible_without_backup path img p :
  p <> backup_path path -> visible (without_backup path img) p = visible img p.
Proof. intros Hp. unfold visible, without_backup. cbn. by rewrite lookup_delete_ne by congruence. Qed.
Lemma rename_spec path backup text d :
  backup <> path -> visible (Disk.image d) path = Some text ->
  let '(d', r) := rename path backup d in
  match r with
  | Ok _ => visible (Disk.image d') path = None /\ visible (Disk.image d') backup = Some text /\
      forall p, p <> path -> p <> backup -> visible (Disk.image d') p = visible (Disk.image d) p
  | Err kind => Disk.image d' = Disk.image d /\ fault_at (Z.pred (Disk.op d')) = Some kind
  end.
Proof.
  intros Hb Hv. unfold rename, operate, visible in *.
  destruct (fault_at (Disk.op d)) eqn:Hf; cbn; [by rewrite Z.pred_succ|].
  destruct (Image.dir (Disk.image d) !! inl path) as [i|] eqn:Hi; [|done]. cbn. split_and!.
  - rewrite lookup_insert_ne, lookup_delete_eq by congruence. done.
  - by rewrite lookup_insert_eq.
  - intros p H1 H2. by rewrite lookup_insert_ne, lookup_delete_ne by congruence.
Qed.
(** Removing a file that may not be there fails only when the operation fails. *)
Lemma remove_backup_spec path d :
  (forall n, fault_at n <> Some IoKind.NotFound) ->
  let '(d', r) := remove_file (backup_path path) d in
  match r with
  | Ok _ => Disk.image d' = without_backup path (Disk.image d)
  | Err IoKind.NotFound => Disk.image d' = Disk.image d
  | Err kind => Disk.image d' = Disk.image d /\ fault_at (Z.pred (Disk.op d')) = Some kind
  end.
Proof.
  intros Hn. unfold remove_file, operate. destruct (fault_at (Disk.op d)) as [kind|] eqn:Hf; cbn.
  - rewrite Z.pred_succ. destruct kind; [by apply Hn in Hf|done..].
  - by destruct (Image.dir (Disk.image d) !! inl (backup_path path)).
Qed.
(** Only a failing operation keeps a file from its backup; before the file has been moved an older
    backup may have gone. *)
Lemma move_aside_spec path text d :
  (forall n, fault_at n <> Some IoKind.NotFound) -> visible (Disk.image d) path = Some text ->
  let '(d', r) := move_aside path d in
  match r with
  | Ok backup => backup = backup_path path /\ visible (Disk.image d') path = None /\
      visible (Disk.image d') (backup_path path) = Some text /\
      forall p, p <> path -> p <> backup_path path -> visible (Disk.image d') p = visible (Disk.image d) p
  | Err e => exists file kind, e = Io file kind /\ fault_at (Z.pred (Disk.op d')) = Some kind /\
      (Disk.image d' = Disk.image d \/ (file = path /\ Disk.image d' = without_backup path (Disk.image d)))
  end.
Proof.
  intros Hn Hv. unfold move_aside. rewrite !io_bind_eq. unfold attempt at 1.
  pose proof (remove_backup_spec path d Hn) as H1. pose proof (backup_differs path) as Hb.
  assert (Hmove : forall d1, Disk.image d1 = Disk.image d \/ Disk.image d1 = without_backup path (Disk.image d) ->
    let '(d', r) := (map_err (Io path) (rename path (backup_path path));; mret (backup_path path)) d1 in
    match r with
    | Ok backup => backup = backup_path path /\ visible (Disk.image d') path = None /\
        visible (Disk.image d') (backup_path path) = Some text /\
        forall p, p <> path -> p <> backup_path path -> visible (Disk.image d') p = visible (Disk.image d) p
    | Err e => exists file kind, e = Io file kind /\ fault_at (Z.pred (Disk.op d')) = Some kind /\
        (Disk.image d' = Disk.image d \/ (file = path /\ Disk.image d' = without_backup path (Disk.image d)))
    end).
  { intros d1 H. rewrite io_bind_eq. unfold map_err.
    assert (Hsame : forall p, p <> backup_path path -> visible (Disk.image d1) p = visible (Disk.image d) p).
    { intros p Hp. destruct H as [->| ->]; [done|by apply visible_without_backup]. }
    pose proof (rename_spec path (backup_path path) text d1 Hb) as H2.
    rewrite Hsame in H2 by done. specialize (H2 Hv). destruct (rename path _ d1) as [d2 [[]|kind]].
    - destruct H2 as (E1 & E2 & E3). cbn. split_and!; try done. intros p P1 P2. by rewrite E3, Hsame.
    - destruct H2 as [E1 E2]. cbn. exists path, kind. rewrite E1. destruct H as [->| ->]; auto. }
  destruct (remove_file _ d) as [d1 [[]|[]]]; cbn; try (apply Hmove; auto); destruct H1 as [H1 H2]; naive_solver.
Qed.

(** Claim C11: loading never loses a state file. A file of a newer version is left alone and
    reported; one that is no JSON, has no version, another structure or another charge point's id is
    moved to the backup, whose older content it replaces; a state is only loaded from a file of this
    charge point and of a known version. No other file is touched. An error of the file system is
    the one its last operation failed with; it leaves the file as it was and all others too, but for
    an older backup: that is gone already when an unusable file then cannot be renamed. *)
Theorem load_keeps_data s d text :
  (forall n, fault_at n <> Some IoKind.NotFound) -> visible (Disk.image d) (path s) = Some text ->
  let '(d', r) := load s d in
  match r with
  | Ok Missing => False
  | Ok (Loaded state) => Disk.image d' = Disk.image d /\ PersistedStation.charge_point_id state = charge_point_id s /\
      exists value version, json_from_str text = Ok value /\ version_of value = Some version /\
        version <= STORE_VERSION /\ station_from_value value = Ok state
  | Ok (Quarantined backup reason) => backup = backup_path (path s) /\ decode s text = Unusable reason /\
      visible (Disk.image d') (path s) = None /\ visible (Disk.image d') (backup_path (path s)) = Some text /\
      forall p, p <> path s -> p <> backup_path (path s) -> visible (Disk.image d') p = visible (Disk.image d) p
  | Err (UnsupportedVersion file found supported) => Disk.image d' = Disk.image d /\ file = path s /\
      supported < found /\ exists value, json_from_str text = Ok value /\ version_of value = Some found
  | Err (Io file kind) => fault_at (Z.pred (Disk.op d')) = Some kind /\
      visible (Disk.image d') (path s) = Some text /\
      (Disk.image d' = Disk.image d \/
       (file = path s /\ Disk.image d' = without_backup (path s) (Disk.image d) /\
        exists reason, decode s text = Unusable reason))
  | Err Serialize => False
  end.
Proof.
  intros Hn Hv. unfold load. rewrite io_bind_eq. unfold attempt, read, operate.
  destruct (fault_at (Disk.op d)) as [kind|] eqn:Hf.
  { destruct kind; [by apply Hn in Hf|..]; cbn; rewrite Z.pred_succ; auto. }
  set (d0 := d <| Disk.op ::= Z.succ |> <| Disk.trace ::= cons (Disk.image d) |>).
  change (Disk.image d0) with (Disk.image d). rewrite Hv.
  destruct (decode s text) as [found|reason|state] eqn:Hd.
  - apply decode_newer in Hd as (Hf' & value & Hj & Hvs). split_and!; [done..|]. by exists value.
  - unfold quarantine. rewrite io_bind_eq. pose proof (move_aside_spec (path s) text d0 Hn Hv) as H.
    pose proof (backup_differs (path s)) as Hb.
    destruct (move_aside (path s) d0) as [d1 [backup|e]]; cbn.
    + destruct H as (-> & H1 & H2 & H3). by split_and!.
    + destruct H as (file & kind & -> & Hk & H). split; [done|]. destruct H as [H|[-> H]]; rewrite H.
      * split; [done|by left].
      * rewrite visible_without_backup by congruence. split; [done|right; by eauto].
  - apply decode_usable in Hd as (Hid & H). by split_and!.
Qed.
End files.

(** ** A disk with one file *)

#[local] Existing Instance u64_json.
#[local] Existing Instance CertificateStore.sample_pki.
Definition no_faults : Faults := {| fault_at _ := None; written_at _ := 0%nat |}.
#[local] Existing Instance no_faults.
Definition empty_station : PersistedStation.t :=
  PersistedStation.mk STORE_VERSION (lit "CP") AvailabilityType.Operative 0 [] LocalAuthList.default
    Authorization.new_cache [] [] ∅ CertificateStore.default [].
(** The text [state] is the empty station, and [old] a file of version 9. *)
Definition sample_text : JsonText (J:=u64_json) := {|
  json_from_str text := Ok (Object [(lit "version", Num ((if text == lit "old" then 9 else 7) : @Number u64_json))]);
  json_to_string _ := [] |}.
#[local] Existing Instance sample_text.
Definition sample_wire : StoreWire := {|
  station_to_text _ := Some (lit "state");
  station_from_value _ := Ok empty_station;
  secrets_to_text _ _ := None;
  secrets_from_text _ := None |}.
#[local] Existing Instance sample_wire.
Definition sample_store : StationStore := new_store (lit "dir") (lit "CP").
Definition sample_disk : Disk.t :=
  let m := {[ inl (path sample_store) := 1 ]} in
  Disk.mk (Image.mk m m {[ 1 := lit "old" ]} {[ 1 := lit "old" ]}) 2 0 [].
Lemma sample_fresh : fresh sample_disk.
Proof.
  intros i Hi. assert (Hu : forall e, ({[ inl (path sample_store) := 1 ]} : gmap entry Z) !! e <> Some i).
  { intros e He. apply lookup_singleton_Some in He as [_ <-]. simpl in Hi. lia. }
  by split.
Qed.
Lemma sample_settled : settled (Disk.image sample_disk) (path sample_store) (Some (lit "old")).
Proof. split; [done|]. by split. Qed.

Lemma save_survives_crash_witness :
  let d := (save sample_store empty_station sample_disk).1 in
  length (Disk.trace d) = 6%nat /\
  Forall (old_or_new (path sample_store) (Some (lit "old")) (lit "state")) (Disk.image d :: Disk.trace d) /\
  (forall content, survives (Disk.image d) (path sample_store) content -> content = Some (lit "state")) /\
  (load sample_store d).2 = Ok (Loaded empty_station).
Proof.
  pose proof (save_survives_crash sample_store empty_station (lit "state") (Some (lit "old")) sample_disk
    sample_fresh sample_settled eq_refl eq_refl) as H.
  destruct (save sample_store empty_station sample_disk) as [d r] eqn:E. cbv zeta. cbn [fst].
  destruct H as (H1 & Hok & _ & H2). split; [injection E as <- _; reflexivity|]. split; [exact H1|].
  split; [destruct (Hok (proj1 (H2 (fun _ => eq_refl)))) as [_ [Hd|(kind & Hk & _)]]; [exact Hd|discriminate Hk]|].
  apply H2; [reflexivity|exists (Object [(lit "version", Num (7 : @Number u64_json))]); split_and!; reflexivity|reflexivity|].
  apply Z.le_refl.
Defined.
(** Renaming is refused: the third operation of loading an unusable file. *)
Definition rename_refused : Faults := {|
  fault_at n := if n =? 2 then Some IoKind.Other else None; written_at _ := 0%nat |}.
Definition broken_wire : StoreWire := {|
  station_to_text _ := None;
  station_from_value _ := Err (lit "broken");
  secrets_to_text _ _ := None;
  secrets_from_text _ := None |}.
Definition backed_up_disk : Disk.t :=
  let m := {[ inl (path sample_store) := 1; inl (backup_path (path sample_store)) := 2 ]} in
  let data := {[ 1 := lit "broken"; 2 := lit "older" ]} in
  Disk.mk (Image.mk m m data data) 3 0 [].
(** The older backup is gone although the file has not been moved. *)
Lemma older_backup_lost :
  let '(d, r) := load (F:=rename_refused) (W:=broken_wire) sample_store backed_up_disk in
  r = Err (Io (path sample_store) IoKind.Other) /\
  visible (Disk.image backed_up_disk) (backup_path (path sample_store)) = Some (lit "older") /\
  visible (Disk.image d) (backup_path (path sample_store)) = None.
Proof. vm_compute. done. Qed.

Lemma load_keeps_data_witness :
  (load sample_store sample_disk).2 = Err (UnsupportedVersion (path sample_store) 9 7) /\
  visible (Disk.image (load sample_store sample_disk).1) (path sample_store) = Some (lit "old").
Proof.
  assert (Hn : forall n, fault_at n <> Some IoKind.NotFound) by (intros n H; discriminate H).
  pose proof (load_keeps_data sample_store sample_disk (lit "old") Hn (settled_visible _ _ _ sample_settled)) as H.
  assert (E : (load sample_store sample_disk).2 = Err (UnsupportedVersion (path sample_store) 9 7)) by reflexivity.
  destruct (load sample_store sample_disk) as [d r]. cbn [fst snd] in *. subst r.
  destruct H as (-> & _). split; [reflexivity|apply settled_visible, sample_settled].
Defined.
End Crashes.
