(* ===== verification/Scenario.v ===== *)
(** * Scenario: scripted test runs as data

    [scenario/model.rs] and the errors of [scenario/mod.rs]: actions, conditions, the checks on
    a scenario that is read and its adaptation to another connector and id tag. The TOML parser
    and the derived deserializers are foreign ([TomlWire]). *)

From stdpp Require Import strings.
From S2P Require Import Prelude Text Types Messages Frame Actions ResponseRules Security Offline.
From S2P Require Import Connector Interface Actor Certificates.
Local Open Scope Z_scope.

Module Scenario.

Definition DEFAULT_TIMEOUT_MS : Z := 5000.
(** Longest accepted wait or sleep: one day. *)
Definition MAX_WAIT_MS : Z := 86400000.

Module ScenarioError.
Inductive t : Type :=
| Invalid (text : str)
| Io (path : str)
| AlreadyRunning.
#[export] Instance eq_dec : EqDecision t.
Proof. solve_decision. Defined.

(** [index] is 0-based; messages count steps from 1. *)
Definition step (index : Z) (message : str) : t :=
  Invalid (lit "step " ++ to_string (index + 1) ++ lit ": " ++ message).
End ScenarioError.
Export (hints) ScenarioError.

(** The station as its published snapshot shows it to a scenario. *)
Record Shown : Type := mk_shown { state : Snapshot.t; pending_offline_messages : Z }.

(** What [publish] puts into the watch channel. *)
Definition published {J : SerdeJson} {P : Pki} (a : Actor.t) : Shown :=
  mk_shown (Actor.state a) (OfflineQueue.pending_messages (Actor.queue a)).

(** [Snapshot::connector] *)
Definition shown_connector (s : Shown) (id : ConnectorId) : option ConnectorSnapshot.t :=
  if is_station id then Some (Snapshot.charge_point (state s))
  else find_first (fun c => ConnectorSnapshot.id c =? id) (Snapshot.connectors (state s)).

(** A condition on the station snapshot, for [wait_for]. *)
Module Condition.
Inductive t : Type :=
| Connected
| Disconnected
| Registration (status : RegistrationStatus.t)
| ConnectorStatus (connector : ConnectorId) (status : ConnectorStatus.t)
| TxActive (connector : ConnectorId)
| TxIdle (connector : ConnectorId)
| NoPendingMessages.
#[export] Instance eq_dec : EqDecision t.
Proof. solve_decision. Defined.

Definition is_active (x : TransactionState.t) : bool :=
  match x with TransactionState.Active _ => true | _ => false end.
(** Does the snapshot satisfy the condition? *)
Definition holds (c : t) (s : Shown) : bool :=
  match c with
  | Connected => Snapshot.connection (state s) == ConnectionState.Connected
  | Disconnected => Snapshot.connection (state s) == ConnectionState.Disconnected
  | Registration status => Snapshot.registration (state s) == Some status
  | ConnectorStatus connector status =>
      is_some_and (fun c => ConnectorSnapshot.status c == status) (shown_connector s connector)
  | TxActive connector =>
      is_some_and (fun c => is_active (ConnectorSnapshot.transaction c)) (shown_connector s connector)
  | TxIdle connector =>
      is_some_and (fun c => TransactionState.is_idle (ConnectorSnapshot.transaction c))
        (shown_connector s connector)
  | NoPendingMessages => pending_offline_messages s =? 0
  end.
End Condition.
Export (hints) Condition.

(** What a step does. *)
Module Action.
Section action.
Context {J : SerdeJson}.
Inductive t : Type :=
| Connect
| Disconnect
| Reconnect
| Boot
| Heartbeat
| Plug (connector : ConnectorId)
| Unplug (connector : ConnectorId)
| Authorize (id_tag : IdTag)
| StartTx (connector : ConnectorId) (id_tag : IdTag)
| StopTx (connector : ConnectorId) (reason : StopReason.t) (id_tag : option IdTag)
| Meter (connector : ConnectorId) (wh_delta : Z)
| Status (connector : ConnectorId) (status : ConnectorStatus.t)
| Fault (connector : ConnectorId) (error_code : ChargePointErrorCode.t) (info : option str)
| ClearFault (connector : ConnectorId)
| Sleep (ms : Z)
| WaitFor (condition : Condition.t) (timeout_ms : Z)
| ExpectCall (call : str) (direction : option Direction.t) (matches : option json) (timeout_ms : Z)
| SendRaw (call : str) (payload : json) (validate : bool)
| DataTransfer (vendor_id : str) (message_id data : option str)
| SetRule (rule : ResponseRules.ResponseRule)
| RequestCertificate
| SecurityEvent (event_type : str) (tech_info : option str)
| ClearRules (call : option str).

(** Stable snake_case name. *)
Definition name (a : t) : str :=
  match a with
  | Connect => lit "connect"
  | Disconnect => lit "disconnect"
  | Reconnect => lit "reconnect"
  | Boot => lit "boot"
  | Heartbeat => lit "heartbeat"
  | Plug _ => lit "plug"
  | Unplug _ => lit "unplug"
  | Authorize _ => lit "authorize"
  | StartTx _ _ => lit "start_tx"
  | StopTx _ _ _ => lit "stop_tx"
  | Meter _ _ => lit "meter"
  | Status _ _ => lit "status"
  | Fault _ _ _ => lit "fault"
  | ClearFault _ => lit "clear_fault"
  | Sleep _ => lit "sleep"
  | WaitFor _ _ => lit "wait_for"
  | ExpectCall _ _ _ _ => lit "expect_call"
  | SendRaw _ _ _ => lit "send_raw"
  | DataTransfer _ _ _ => lit "data_transfer"
  | SetRule _ => lit "set_rule"
  | ClearRules _ => lit "clear_rules"
  | RequestCertificate => lit "request_certificate"
  | SecurityEvent _ _ => lit "security_event"
  end.
End action.
End Action.

Section scenario.
Context {J : SerdeJson}.

(** Assertion on the outcome of a command step. *)
Record Expect : Type := mk_expect {
  expect_status : option str;
  expect_payload : option json;
  expect_error : bool;
}.
Definition default_expect : Expect := mk_expect None None false.

Record Step : Type := mk_step {
  step_name : option str;
  expect : option Expect;
  action : Action.t;
}.
Record t : Type := mk { name : str; description : str; steps : list Step }.

(** The name shown in reports: the explicit [name], else the action name. *)
Definition label (s : Step) : str := default (Action.name (action s)) (step_name s).

(** [RuleError::to_string], of the error that can occur here. *)
Definition rule_error_text (e : ResponseRules.RuleError) : str :=
  match e with
  | ResponseRules.Format =>
      lit "expected <Action>=<behavior>[*<count>], e.g. Reset=reject or GetConfiguration=delay:5000"
  | ResponseRules.UnknownAction name =>
      lit "unknown action `" ++ name ++ lit "` (expected one of the CSMS commands, e.g. Reset)"
  | ResponseRules.UnknownBehavior text =>
      lit "unknown behavior `" ++ text
      ++ lit "` (expected reject, delay:<ms>, error:<Code>[:<text>], drop or ignore)"
  | ResponseRules.BadDelay =>
      lit "delay must be a number of milliseconds between 0 and " ++ to_string ResponseRules.MAX_DELAY_MS
  | ResponseRules.UnknownErrorCode code =>
      lit "unknown error code `" ++ code ++ lit "` (expected one of the ten OCPP 1.6 CALLERROR codes)"
  | ResponseRules.BadCount => lit "count must be a positive integer"
  end.

(** What is wrong with a step, in the order of the match arms. *)
Definition bad_connector (a : Action.t) : bool :=
  match a with
  | Action.Plug connector | Action.Unplug connector | Action.StartTx connector _
  | Action.StopTx connector _ _ | Action.Meter connector _ => is_station connector
  | _ => false
  end.
Definition no_timeout (a : Action.t) : bool :=
  match a with
  | Action.WaitFor _ timeout_ms | Action.ExpectCall _ _ _ timeout_ms => timeout_ms =? 0
  | _ => false
  end.
Definition too_long (a : Action.t) : bool :=
  match a with
  | Action.WaitFor _ ms | Action.ExpectCall _ _ _ ms | Action.Sleep ms => MAX_WAIT_MS <? ms
  | _ => false
  end.
Definition no_call (a : Action.t) : bool :=
  match a with
  | Action.SendRaw call _ _ | Action.ExpectCall call _ _ _ => call == []
  | _ => false
  end.
Definition unknown_name (a : Action.t) : option str :=
  match a with
  | Action.SecurityEvent event_type _ =>
      match Security.canonical_event_type event_type with
      | None => Some (lit "unknown security event type `" ++ event_type ++ lit "`")
      | Some _ => None
      end
  | Action.ClearRules (Some call) =>
      match ResponseRules.canonical_action call with
      | Err error => Some (rule_error_text error)
      | Ok _ => None
      end
  | _ => None
  end.
Definition problem (a : Action.t) : option str :=
  if bad_connector a then Some (lit "`connector` must be 1 or more")
  else if no_timeout a then Some (lit "`timeout_ms` must be positive")
  else if too_long a then Some (lit "`timeout_ms` / `ms` must be at most 86400000 (one day)")
  else if no_call a then Some (lit "`call` must not be empty")
  else unknown_name a.

Fixpoint validate_from (i : Z) (steps : list Step) : result unit ScenarioError.t :=
  match steps with
  | [] => Ok tt
  | step :: steps =>
      match problem (action step) with
      | Some message => Err (ScenarioError.step i message)
      | None => validate_from (i + 1) steps
      end
  end.
Definition validate (s : t) : result unit ScenarioError.t := validate_from 0 (steps s).

(** ** Adapting a scenario *)

Definition retarget_connector (to : option ConnectorId) (slot : ConnectorId) : ConnectorId :=
  default slot to.
Definition retarget_condition (to : option ConnectorId) (c : Condition.t) : Condition.t :=
  match c with
  | Condition.ConnectorStatus c status => Condition.ConnectorStatus (retarget_connector to c) status
  | Condition.TxActive c => Condition.TxActive (retarget_connector to c)
  | Condition.TxIdle c => Condition.TxIdle (retarget_connector to c)
  | other => other
  end.
Definition retarget_action (to : option ConnectorId) (tag : option IdTag) (a : Action.t) : Action.t :=
  match a with
  | Action.Plug c => Action.Plug (retarget_connector to c)
  | Action.Unplug c => Action.Unplug (retarget_connector to c)
  | Action.Meter c wh_delta => Action.Meter (retarget_connector to c) wh_delta
  | Action.Fault c code info => Action.Fault (retarget_connector to c) code info
  | Action.ClearFault c => Action.ClearFault (retarget_connector to c)
  | Action.Status c status => Action.Status (retarget_connector to c) status
  | Action.WaitFor condition timeout_ms => Action.WaitFor (retarget_condition to condition) timeout_ms
  | Action.StartTx c t => Action.StartTx (retarget_connector to c) (default t tag)
  | Action.StopTx c reason t =>
      Action.StopTx (retarget_connector to c) reason ((fun old => default old tag) <$> t)
  | Action.Authorize t => Action.Authorize (default t tag)
  | other => other
  end.
(** Points every connector-bound step at a connector and every idTag at a tag (when given). *)
Definition retarget (to : option ConnectorId) (tag : option IdTag) (s : t) : t :=
  mk (name s) (description s)
    (map (fun step => mk_step (step_name step) (expect step) (retarget_action to tag (action step))) (steps s)).

(** ** Reading a scenario *)

(** A value of a TOML table, as far as the parser looks at it. *)
Inductive TomlValue : Type := TomlString (s : str) | TomlOther (n : Z).
Definition Table : Type := list (str * TomlValue).
Class TomlWire : Type := {
  expect_try_into : TomlValue -> result Expect str;
  action_try_into : Table -> result Action.t str;
}.
Definition table_get (key : str) (table : Table) : option TomlValue :=
  snd <$> find_first (fun '(k, _) => k == key) table.
Definition table_remove (key : str) (table : Table) : Table := retain (fun '(k, _) => negb (k == key)) table.

Context {W : TomlWire}.

Definition parse_step (table : Table) : result Step str :=
  let named := table_get (lit "name") table in
  let table := table_remove (lit "name") table in
  let! name := match named with
    | None => Ok None
    | Some (TomlString s) => Ok (Some s)
    | Some _ => Err (lit "`name` must be a string")
    end in
  let expected := table_get (lit "expect") table in
  let table := table_remove (lit "expect") table in
  let! expect := match expected with
    | None => Ok None
    | Some value =>
        match expect_try_into value with
        | Ok expect => Ok (Some expect)
        | Err e => Err (lit "`expect`: " ++ e)
        end
    end in
  let! tag := match table_get (lit "action") table with
    | None => Err (lit "missing field `action`")
    | Some (TomlString s) => Ok s
    | Some _ => Err (lit "`action` must be a string")
    end in
  let! action := match action_try_into table with
    | Ok action => Ok action
    | Err e => Err (lit "action `" ++ tag ++ lit "`: " ++ e)
    end in
  Ok (mk_step name expect action).

Fixpoint parse_steps (i : Z) (tables : list Table) : result (list Step) ScenarioError.t :=
  match tables with
  | [] => Ok []
  | table :: tables =>
      match parse_step table with
      | Err e => Err (ScenarioError.step i e)
      | Ok step => let! steps := parse_steps (i + 1) tables in Ok (step :: steps)
      end
  end.

(** The file as the TOML parser reads it. *)
Record RawScenario : Type := mk_raw { raw_name : str; raw_description : str; raw_steps : list Table }.

(** [Scenario::from_toml], from what the TOML parser makes of the text. *)
Definition from_raw (parsed : result RawScenario str) : result t ScenarioError.t :=
  let! raw := match parsed with Ok raw => Ok raw | Err e => Err (ScenarioError.Invalid e) end in
  if trim (raw_name raw) == [] then Err (ScenarioError.Invalid (lit "`name` must not be empty"))
  else match raw_steps raw with
  | [] => Err (ScenarioError.Invalid (lit "a scenario needs at least one `[[steps]]`"))
  | tables =>
      let! steps := parse_steps 0 tables in
      let scenario := mk (raw_name raw) (raw_description raw) steps in
      let! _ := validate scenario in
      Ok scenario
  end.

(** ** A scenario that is loaded can be run *)

(** Steps address connectors (or the station where that makes sense), wait for a bounded time
    and name what exists. *)
Definition usable (a : Action.t) : Prop :=
  match a with
  | Action.Plug c | Action.Unplug c | Action.StartTx c _ | Action.StopTx c _ _ | Action.Meter c _ => c <> 0
  | Action.WaitFor _ ms => ms <> 0 /\ ms <= MAX_WAIT_MS
  | Action.ExpectCall call _ _ ms => ms <> 0 /\ ms <= MAX_WAIT_MS /\ call <> []
  | Action.Sleep ms => ms <= MAX_WAIT_MS
  | Action.SendRaw call _ _ => call <> []
  | Action.SecurityEvent event_type _ => is_Some (Security.canonical_event_type event_type)
  | Action.ClearRules (Some call) => exists name, ResponseRules.canonical_action call = Ok name
  | _ => True
  end.

Lemma eqb_nil (s : str) : (s == []) = false <-> s <> [].
Proof. apply eqb_false. Qed.
Lemma problem_None a : problem a = None <-> usable a.
Proof.
  unfold problem, usable.
  destruct a; cbn [bad_connector no_timeout too_long no_call unknown_name]; try by split.
  all: try (unfold is_station; destruct (connector =? 0) eqn:E; bool_facts; by split).
  - destruct (MAX_WAIT_MS <? ms) eqn:E; bool_facts; split; [done|lia|done|done].
  - destruct (timeout_ms =? 0) eqn:E0, (MAX_WAIT_MS <? timeout_ms) eqn:E; bool_facts; split; (done || lia).
  - destruct (timeout_ms =? 0) eqn:E0, (MAX_WAIT_MS <? timeout_ms) eqn:E, (call == []) eqn:Ec; bool_facts;
      split; try done; try lia; intros (? & ? & ?); (done || lia).
  - destruct (call == []) eqn:Ec; bool_facts; by split.
  - destruct (Security.canonical_event_type event_type); split; [by eexists|done|done|by intros []].
  - destruct call as [call|]; [|done].
    destruct (ResponseRules.canonical_action call); split; [by eexists|done|done|by intros []].
Qed.

Lemma validate_from_spec i l :
  match validate_from i l with
  | Ok _ => forall step, In step l -> problem (action step) = None
  | Err e => exists n step message, l !! n = Some step /\ problem (action step) = Some message /\
      e = ScenarioError.step (i + Z.of_nat n) message /\
      forall before, In before (take n l) -> problem (action before) = None
  end.
Proof.
  revert i. induction l as [|step l IH]; intros i; simpl; [done|].
  destruct (problem (action step)) as [message|] eqn:Hp.
  { exists 0%nat, step, message. split_and!; [done..| |done]. by rewrite Z.add_0_r. }
  specialize (IH (i + 1)). destruct (validate_from (i + 1) l) as [[]|e].
  - by intros s [<-|Hs]; [|apply IH].
  - destruct IH as (n & s & message & Hl & Hs & -> & Hb). exists (S n), s, message.
    split_and!; [done..| |].
    + f_equal. lia.
    + by intros b [<-|Hin]; [|apply Hb].
Qed.
Lemma validate_Ok s : validate s = Ok tt <-> forall step, In step (steps s) -> usable (action step).
Proof.
  unfold validate. pose proof (validate_from_spec 0 (steps s)) as H. split.
  - intros Hv step Hin. rewrite Hv in H. by apply problem_None, H.
  - intros Hu. destruct (validate_from 0 (steps s)) as [[]|e]; [done|].
    destruct H as (n & step & message & Hl & Hp & _). apply list_elem_of_lookup_2, list_elem_of_In in Hl.
    specialize (Hu _ Hl). apply problem_None in Hu. congruence.
Qed.
Lemma retarget_usable to tag a :
  to <> Some 0 -> usable a -> usable (retarget_action to tag a).
Proof.
  intros Ht. assert (Hc : forall c, c <> 0 -> retarget_connector to c <> 0).
  { intros c Hc. unfold retarget_connector. destruct to; simpl; congruence. }
  destruct a; simpl; auto.
Qed.

Lemma retarget_name to tag a : Action.name (retarget_action to tag a) = Action.name a.
Proof. by destruct a. Qed.

(** A scenario that is loaded can be run: it has steps, each of which addresses a
    connector where it needs one, waits at most a day and names calls, event types and commands
    that exist; and it stays so when it is pointed at another connector and id tag, with the same
    steps under the same names. *)
Theorem loaded_scenario parsed s :
  from_raw parsed = Ok s ->
  steps s <> [] /\ trim (name s) <> [] /\
  (forall step, In step (steps s) -> usable (action step)) /\
  forall to tag, to <> Some 0 ->
    validate (retarget to tag s) = Ok tt /\ map step_name (steps (retarget to tag s)) = map step_name (steps s) /\
    map label (steps (retarget to tag s)) = map label (steps s).
Proof.
  unfold from_raw. destruct parsed as [raw|]; [|done]. destruct (trim (raw_name raw) == []) eqn:Hn; [done|].
  destruct (raw_steps raw) as [|table tables]; [done|].
  destruct (parse_steps 0 (table :: tables)) as [l|] eqn:Hl; [|done].
  destruct (validate _) as [[]|] eqn:Hv; [|done]. intros [= <-]. cbn [steps name].
  pose proof (proj1 (validate_Ok _) Hv) as Hu. cbn [steps] in Hu. split_and!.
  - intros ->. simpl in Hl. destruct (parse_step table); [|done]. by destruct (parse_steps (0 + 1) tables).
  - by apply eqb_nil.
  - done.
  - intros to tag Ht. cbn [retarget steps]. split_and!.
    + apply validate_Ok. cbn [retarget steps]. intros step (old & <- & Hin)%in_map_iff. cbn [action].
      by apply retarget_usable, Hu.
    + rewrite map_map. by apply map_ext.
    + rewrite map_map. apply map_ext. intros step.
      unfold label. cbn [action step_name]. by rewrite retarget_name.
Qed.
(** A scenario is refused with the first step that is wrong and what is wrong with it. *)
Lemma validate_refusal s e :
  validate s = Err e <-> exists n step message, steps s !! n = Some step /\
    problem (action step) = Some message /\ e = ScenarioError.step (Z.of_nat n) message /\
    forall before, In before (take n (steps s)) -> usable (action before).
Proof.
  unfold validate. pose proof (validate_from_spec 0 (steps s)) as H. split.
  - intros Hv. rewrite Hv in H. destruct H as (n & step & message & Hl & Hp & -> & Hb).
    exists n, step, message. split_and!; [done..|]. intros b Hin. by apply problem_None, Hb.
  - intros (n & step & message & Hl & Hp & -> & Hb). destruct (validate_from 0 (steps s)) as [[]|e].
    { apply list_elem_of_lookup_2, list_elem_of_In in Hl. apply H in Hl. congruence. }
    destruct H as (n' & step' & message' & Hl' & Hp' & -> & Hb').
    assert (Hlt : forall i j a m, steps s !! i = Some a -> problem (action a) = Some m ->
      (forall b, In b (take j (steps s)) -> problem (action b) = None) -> (j <= i)%nat).
    { intros i j a m Hi Ha Hj. destruct (Nat.le_gt_cases j i) as [|Hlt]; [done|]. exfalso.
      assert (Hin : In a (take j (steps s))).
      { apply list_elem_of_In, (list_elem_of_lookup_2 _ i). by rewrite lookup_take_lt. }
      apply Hj in Hin. congruence. }
    assert (n = n') as <-.
    { apply Nat.le_antisymm; [|by eapply Hlt].
      eapply Hlt; [exact Hl'|exact Hp'|]. intros b Hin. by apply problem_None, Hb. }
    rewrite Hl in Hl'. injection Hl' as <-. rewrite Hp in Hp'. by injection Hp' as <-.
Qed.
End scenario.

(** ** Two steps of a file *)

#[local] Existing Instance u64_json.
Definition sample_wire : TomlWire := {|
  expect_try_into _ := Err (lit "no expectation");
  action_try_into table :=
    match table_get (lit "action") table with
    | Some (TomlString s) =>
        if s == lit "plug" then Ok (Action.Plug 1)
        else if s == lit "authorize" then Ok (Action.Authorize (lit "TAG"))
        else Err (lit "unknown variant")
    | _ => Err (lit "no tag")
    end |}.
#[local] Existing Instance sample_wire.
Definition sample_raw : RawScenario :=
  mk_raw (lit "demo") [] [[(lit "name", TomlString (lit "car")); (lit "action", TomlString (lit "plug"))];
                          [(lit "action", TomlString (lit "authorize"))]].
Definition sample_loaded : t :=
  mk (lit "demo") [] [mk_step (Some (lit "car")) None (Action.Plug 1);
                      mk_step None None (Action.Authorize (lit "TAG"))].
Lemma loaded_scenario_witness :
  from_raw (Ok sample_raw) = Ok sample_loaded /\
  validate (retarget (Some 2) (Some (lit "NEW")) sample_loaded) = Ok tt /\
  map label (steps (retarget (Some 2) (Some (lit "NEW")) sample_loaded)) = [lit "car"; lit "authorize"].
Proof.
  assert (H : from_raw (Ok sample_raw) = Ok sample_loaded) by reflexivity.
  destruct (loaded_scenario (Ok sample_raw) sample_loaded H) as (_ & _ & _ & Hr).
  destruct (Hr (Some 2) (Some (lit "NEW"))) as (Hv & _ & Hl); [discriminate|].
  split; [exact H|]. split; [exact Hv|]. rewrite Hl. vm_compute. reflexivity.
Defined.
End Scenario.
