(* ===== verification/Fleet.v ===== *)
(** * Fleet: many stations from one configuration

    [fleet.rs]: the template of the charge point ids, the configurations of the stations and the
    summary of their snapshots. Starting the stations and merging their events is channel code. *)

From stdpp Require Import strings.
From S2P Require Import Prelude Text Utf8 Time Types Config Connector Interface Actor Strings FileNames Scenario.
Local Open Scope Z_scope.

Module Fleet.
Import Numerals.

(** Most stations one fleet may hold, and the widest padding. *)
Definition MAX_COUNT : Z := 1000.
Definition MAX_WIDTH : Z := 9.

(** A fleet that cannot be started. *)
Inductive FleetError : Type :=
| CountOutOfRange (count : Z)
| NoPlaceholder (template : str) (count : Z)
| BadTemplate (template reason : str)
| IndexOverflow (first_index count : Z)
| Config (id : str) (source : Validation.ConfigError).

(** How many stations to start and how to name them. *)
Record FleetSpec : Type := mk_spec {
  id_template : str;
  first_index : Z;
  count : Z;
  stagger_ms : Z;
}.
Definition new_spec (id_template : str) (count : Z) : FleetSpec := mk_spec id_template 1 count 0.
Definition stagger (s : FleetSpec) : Duration := stagger_ms s * NS_PER_MS.

Inductive Part : Type :=
| Literal (text : str)
| Index (width : nat).

Definition open_brace : char := 123.
Definition close_brace : char := 125.

(** The width of a placeholder, from the text between its braces. *)
Definition width_of (inner : str) : result nat str :=
  match strip_prefix (lit "n") inner with
  | None =>
      Err (lit "unknown placeholder `{" ++ inner ++ lit "}`; only `{n}` and `{n:WIDTH}` exist")
  | Some [] => Ok 0%nat
  | Some spec =>
      match (w ← strip_prefix (lit ":") spec;
             if negb (w == []) && all is_ascii_digit w then
               n ← parse_u64 w; if n <=? MAX_WIDTH then Some (Z.to_nat n) else None
             else None) with
      | Some w => Ok w
      | None =>
          Err (lit "`{" ++ inner ++ lit "}` is not a placeholder; use `{n}` or `{n:WIDTH}` with WIDTH up to "
               ++ to_string MAX_WIDTH)
      end
  end.

Definition flush (literal : str) (parts : list Part) : list Part :=
  match literal with [] => parts | _ => parts ++ [Literal literal] end.

(** The loop of [Template::parse]; [inside] holds the text of an open brace (the inner loop). *)
Fixpoint parse_from (template : str) (inside : option str) (literal : str) (parts : list Part) (chars : str)
  : result (list Part) FleetError :=
  match inside, chars with
  | None, [] => Ok (flush literal parts)
  | Some _, [] => Err (BadTemplate template (lit "unclosed `{`"))
  | Some inner, c :: chars =>
      if c =? close_brace then
        match width_of inner with
        | Ok width => parse_from template None [] (flush literal parts ++ [Index width]) chars
        | Err reason => Err (BadTemplate template reason)
        end
      else parse_from template (Some (inner ++ [c])) literal parts chars
  | None, c :: rest =>
      if c =? open_brace then
        match rest with
        | d :: chars =>
            if d =? open_brace then parse_from template None (literal ++ [c]) parts chars
            else parse_from template (Some []) literal parts rest
        | [] => parse_from template (Some []) literal parts rest
        end
      else if c =? close_brace then
        match rest with
        | d :: chars =>
            if d =? close_brace then parse_from template None (literal ++ [c]) parts chars
            else Err (BadTemplate template (lit "unmatched `}` (write `}}` for a literal brace)"))
        | [] => Err (BadTemplate template (lit "unmatched `}` (write `}}` for a literal brace)"))
        end
      else parse_from template None (literal ++ [c]) parts rest
  end.
Definition parse (template : str) : result (list Part) FleetError := parse_from template None [] [] template.

Definition has_placeholder (parts : list Part) : bool :=
  any (fun p => match p with Index _ => true | Literal _ => false end) parts.

Definition expand_part (index : Z) (p : Part) : str :=
  match p with Literal text => text | Index width => padded width index end.
Definition expand (parts : list Part) (index : Z) : str := flat_map (expand_part index) parts.

Definition expand_id (template : str) (index : Z) : result str FleetError :=
  let! parts := parse template in Ok (expand parts index).

(** [FleetSpec::ids] *)
Definition ids (s : FleetSpec) : result (list str) FleetError :=
  if negb ((1 <=? count s) && (count s <=? MAX_COUNT)) then Err (CountOutOfRange (count s))
  else
    let last := first_index s + (count s - 1) in
    if u32_max <? last then Err (IndexOverflow (first_index s) (count s))
    else
      let! template := parse (id_template s) in
      if (1 <? count s) && negb (has_placeholder template)
      then Err (NoPlaceholder (id_template s) (count s))
      else Ok (map (expand template) (range_inclusive (first_index s) last)).

Section configs.
Context {U : UrlParser}.

Fixpoint configs_of (base : StationConfig.t) (ids : list str) : result (list StationConfig.t) FleetError :=
  match ids with
  | [] => Ok []
  | id :: ids =>
      let config := StationConfig.normalize (base <| StationConfig.charge_point_id := id |>) in
      match Validation.validate config with
      | Err source => Err (Config id source)
      | Ok _ => let! configs := configs_of base ids in Ok (config :: configs)
      end
  end.
(** The validated per-station configurations. *)
Definition configs (base : StationConfig.t) (s : FleetSpec) : result (list StationConfig.t) FleetError :=
  let! ids := ids s in configs_of base ids.
End configs.

(** ** The summary *)

Record StationSummary : Type := mk_station_summary {
  id : str;
  connection : ConnectionState.t;
  registered : bool;
  active_transactions : Z;
  pending_offline_messages : Z;
}.
Record FleetSummary : Type := mk_summary {
  total : Z;
  connected : Z;
  connecting : Z;
  backoff : Z;
  disconnected : Z;
  all_registered : Z;
  all_active : Z;
  stations : list StationSummary;
}.
#[export] Instance summary_eta : Eta FleetSummary := fun s =>
  mk_summary (total s) (connected s) (connecting s) (backoff s) (disconnected s) (all_registered s) (all_active s)
    (stations s).

(** [Snapshot::booted] *)
Definition booted (s : Snapshot.t) : bool := Snapshot.registration s == Some RegistrationStatus.Accepted.
Definition active_count (s : Snapshot.t) : Z :=
  len (retain (fun c => Scenario.Condition.is_active (ConnectorSnapshot.transaction c)) (Snapshot.connectors s)).
Definition count_connection (c : ConnectionState.t) (s : FleetSummary) : FleetSummary :=
  match c with
  | ConnectionState.Connected => s <| connected ::= Z.succ |>
  | ConnectionState.Connecting => s <| connecting ::= Z.succ |>
  | ConnectionState.Backoff _ => s <| backoff ::= Z.succ |>
  | ConnectionState.Disconnected => s <| disconnected ::= Z.succ |>
  end.
Definition add_station (summary : FleetSummary) (station : str * Scenario.Shown) : FleetSummary :=
  let '(id, shown) := station in
  let snapshot := Scenario.state shown in
  let registered := booted snapshot in
  let active := active_count snapshot in
  count_connection (Snapshot.connection snapshot) summary
    <| all_registered ::= Z.add (if registered then 1 else 0) |>
    <| all_active ::= Z.add active |>
    <| stations ::= fun l => l ++ [mk_station_summary id (Snapshot.connection snapshot) registered active
                                     (Scenario.pending_offline_messages shown)] |>.
Definition summary (fleet : list (str * Scenario.Shown)) : FleetSummary :=
  fold_left add_station fleet (mk_summary (len fleet) 0 0 0 0 0 0 []).

(** The handle of the station with an id. *)
Definition station {A} (id : str) (fleet : list (str * A)) : option A :=
  snd <$> find_first (fun '(station_id, _) => station_id == id) fleet.

(** [connect_all]: the stations whose connect command failed, in order. *)
Definition connect_all {E} (answers : list (str * result unit E)) : list (str * E) :=
  omap (fun '(id, answer) => match answer with Err e => Some (id, e) | Ok _ => None end) answers.

(** ** The forwarder of one station's events *)

Inductive FleetItem (E : Type) : Type :=
| Event (station_id : str) (event : E)
| Lagged (station_id : str) (missed : Z).
Arguments Event {E} station_id event.
Arguments Lagged {E} station_id missed.

(** The items [forward] sends for what its receiver yields until the channel is closed or, after a
    stop, empty. *)
Fixpoint forward {E} (id : str) (received : list (Received.t E)) : list (FleetItem E) :=
  match received with
  | [] => []
  | Received.Got event :: rest => Event id event :: forward id rest
  | Received.Lagged missed :: rest => Lagged id missed :: forward id rest
  | Received.Closed :: _ => []
  end.

(** ** The ids of a fleet *)

Lemma expand_length_mono parts m n : 0 <= m <= n -> (length (expand parts m) <= length (expand parts n))%nat.
Proof.
  intros Hmn. induction parts as [|[text|width] parts IH]; [done|..]; unfold expand in *; cbn [flat_map expand_part];
    rewrite !length_app; [lia|]. pose proof (padded_length_mono width m n Hmn). lia.
Qed.
(** A template with a placeholder tells indices apart. *)
Lemma expand_inj_le parts m n :
  has_placeholder parts = true -> 0 <= m <= n -> expand parts m = expand parts n -> m = n.
Proof.
  intros Hp Hmn. induction parts as [|[text|width] parts IH]; [done|..]; unfold expand in *; cbn [flat_map expand_part].
  - intros H%app_inv_head. by apply IH.
  - intros H. pose proof (f_equal (@length char) H) as Hl. rewrite !length_app in Hl.
    pose proof (expand_length_mono parts m n Hmn) as Hr. pose proof (padded_length_mono width m n Hmn) as Hw.
    unfold expand in Hr. apply app_inj_1 in H as [H _]; [|lia]. by apply padded_inj in H; [|lia..].
Qed.
Lemma expand_inj parts m n :
  has_placeholder parts = true -> 0 <= m -> 0 <= n -> expand parts m = expand parts n -> m = n.
Proof.
  intros Hp Hm Hn H. destruct (Z.le_ge_cases m n); [by apply (expand_inj_le parts)|].
  symmetry. by apply (expand_inj_le parts).
Qed.

Lemma range_inclusive_lookup first last k :
  range_inclusive first last !! k =
    if base.decide (k < Z.to_nat (last - first + 1))%nat then Some (first + Z.of_nat k) else None.
Proof.
  unfold range_inclusive. rewrite list_lookup_fmap. case_decide as Hk.
  - by rewrite lookup_seq_lt.
  - by rewrite lookup_seq_ge by lia.
Qed.
Lemma range_inclusive_NoDup first last : NoDup (range_inclusive first last).
Proof. apply NoDup_fmap_2; [intros ???; lia|]. apply NoDup_seq. Qed.
Lemma NoDup_map_on {A B} (f : A -> B) l :
  (forall x y, In x l -> In y l -> f x = f y -> x = y) -> NoDup l -> NoDup (map f l).
Proof.
  induction l as [|x l IH]; intros Hf Hl; [constructor|]. apply NoDup_cons in Hl as [Hx Hl]. constructor.
  - intros Hin%list_elem_of_In%in_map_iff. destruct Hin as (y & Hy & Hin). apply Hx, list_elem_of_In.
    rewrite <- (Hf y x); [done|by right|by left|done].
  - apply IH; [|done]. intros y z Hy Hz. apply Hf; by right.
Qed.

Lemma ids_ok s l :
  ids s = Ok l -> 0 <= first_index s ->
  len l = count s /\ 1 <= count s <= MAX_COUNT /\ first_index s + (count s - 1) <= u32_max /\ NoDup l /\
  (forall k id, l !! k = Some id -> expand_id (id_template s) (first_index s + Z.of_nat k) = Ok id).
Proof.
  unfold ids, expand_id. destruct (negb _) eqn:Hc; [done|]. cbn zeta. destruct (Z.ltb_spec u32_max (first_index s + (count s - 1))) as [|Hu]; [done|].
  destruct (parse (id_template s)) as [parts|e]; [|done].
  destruct ((1 <? count s) && _) eqn:Hp; [done|]. intros [= <-] Hf. bool_facts. split_and!; [|lia..| |].
  - unfold len. rewrite length_map. unfold range_inclusive. rewrite length_map, length_seq. lia.
  - destruct (Z.ltb_spec 1 (count s)) as [Hone|Hone].
    + assert (Hh : has_placeholder parts = true) by (by destruct (has_placeholder parts)).
      apply NoDup_map_on; [|apply range_inclusive_NoDup]. intros x y Hx%range_inclusive_In Hy%range_inclusive_In.
      apply expand_inj; [done|lia..].
    + replace (count s) with 1 by lia. unfold range_inclusive. replace (first_index s + (1 - 1) - first_index s + 1) with 1 by lia.
      repeat constructor. by intros ?%elem_of_nil.
  - intros k id. rewrite list_lookup_fmap, range_inclusive_lookup. case_decide; [|done]. by intros [= <-].
Qed.

Lemma validated_id {U : UrlParser} c : Validation.validate c = Ok tt -> StationConfig.charge_point_id c <> [].
Proof.
  unfold Validation.validate. destruct (Validation.validate_ws_url _); [|done]. cbn [try_each].
  by destruct (StationConfig.charge_point_id c).
Qed.
Lemma configs_of_ok {U : UrlParser} base l cs :
  configs_of base l = Ok cs ->
  cs = map (fun id => StationConfig.normalize (base <| StationConfig.charge_point_id := id |>)) l /\
  Forall (fun c => Validation.validate c = Ok tt) cs.
Proof.
  revert cs. induction l as [|id l IH]; intros cs; cbn [configs_of]; [by intros [= <-]|]. cbn zeta.
  destruct (Validation.validate _) as [[]|] eqn:Hv; [|done].
  destruct (configs_of base l) as [rest|] eqn:Hr; [|done]. intros [= <-].
  destruct (IH rest eq_refl) as [-> Ha]. split; [done|]. by constructor.
Qed.

(** A fleet that starts has as many stations as asked for, between 1 and 1000; the k-th
    is the base configuration with the template expanded for the k-th index, and valid. The
    charge point ids are distinct, whatever the paddings of the template, and two stations share a
    state file only if both have an id too long for one. *)
Theorem fleet_ids {U : UrlParser} base s cs :
  0 <= first_index s -> configs base s = Ok cs ->
  len cs = count s /\ 1 <= count s <= MAX_COUNT /\ NoDup (map StationConfig.charge_point_id cs) /\
  (forall k c, cs !! k = Some c ->
     expand_id (id_template s) (first_index s + Z.of_nat k) = Ok (StationConfig.charge_point_id c) /\
     c = StationConfig.normalize (base <| StationConfig.charge_point_id := StationConfig.charge_point_id c |>) /\
     Validation.validate c = Ok tt) /\
  (forall j k c d, cs !! j = Some c -> cs !! k = Some d ->
     let a := StationConfig.charge_point_id c in let b := StationConfig.charge_point_id d in
     FileNames.scalars a -> FileNames.scalars b -> FileNames.fits a -> FileNames.file_name a = FileNames.file_name b -> j = k).
Proof.
  intros Hf. unfold configs. destruct (ids s) as [l|] eqn:Hl; [|done]. intros H.
  destruct (ids_ok s l Hl Hf) as (Hlen & Hc & _ & Hnd & Hk). apply configs_of_ok in H as [Hcs Hv].
  assert (Hid : map StationConfig.charge_point_id cs = l) by (subst cs; rewrite map_map; apply map_id).
  assert (Hat : forall k c, cs !! k = Some c ->
    l !! k = Some (StationConfig.charge_point_id c) /\ Validation.validate c = Ok tt).
  { intros k c Hkc. split; [|by eapply (proj1 (Forall_lookup _ _) Hv k)]. rewrite <- Hid.
    apply list_lookup_fmap_Some. eauto. }
  split_and!; [|lia..|by rewrite Hid| |].
  - rewrite <- Hlen, <- Hid. unfold len. by rewrite length_map.
  - intros k c Hkc. destruct (Hat k c Hkc) as [Hi Hvc]. split_and!; [by apply Hk| |done].
    rewrite Hcs, list_lookup_fmap in Hkc. destruct (l !! k); [|done]. by injection Hkc as <-.
  - intros j k c d Hj Hd Ha Hb Hfit Hname. destruct (Hat j c Hj) as [Hj' Hvj], (Hat k d Hd) as [Hk' Hvk].
    apply (NoDup_lookup l j k _ Hnd Hj'). rewrite Hk'. f_equal. symmetry.
    by apply FileNames.short_name_inj; try apply validated_id.
Qed.
Definition sample_fleet : FleetSpec := mk_spec (lit "CP-{n:02}") 99 3 0.
Lemma fleet_ids_witness :
  let cs := match configs (U := any_url) StationConfig.default sample_fleet with Ok cs => cs | Err _ => [] end in
  map StationConfig.charge_point_id cs = [lit "CP-99"; lit "CP-100"; lit "CP-101"] /\
  NoDup (map StationConfig.charge_point_id cs).
Proof.
  split; [reflexivity|].
  destruct (fleet_ids (U := any_url) StationConfig.default sample_fleet _ ltac:(discriminate) eq_refl) as (_ & _ & H & _).
  exact H.
Defined.

(** ** The summary counts every station once *)

Definition counted (s : FleetSummary) : Z := connected s + connecting s + backoff s + disconnected s.
Lemma summary_counts fleet : counted (summary fleet) = total (summary fleet) /\ len (stations (summary fleet)) = total (summary fleet).
Proof.
  assert (H : forall s, counted (fold_left add_station fleet s) = counted s + len fleet /\
     len (stations (fold_left add_station fleet s)) = len (stations s) + len fleet /\
     total (fold_left add_station fleet s) = total s).
  { induction fleet as [|[id shown] fleet IH]; intros s; cbn [fold_left]; [unfold len; cbn [length]; split_and!; lia|].
    destruct (IH (add_station s (id, shown))) as (-> & -> & ->).
    assert (counted (add_station s (id, shown)) = counted s + 1 /\
            len (stations (add_station s (id, shown))) = len (stations s) + 1 /\ total (add_station s (id, shown)) = total s)
      as (-> & -> & ->).
    { unfold add_station, count_connection, counted, len. destruct (Snapshot.connection _);
        split_and!; cbn; rewrite ?length_app; cbn [length]; lia. }
    unfold len. cbn [length]. lia. }
  unfold summary. destruct (H (mk_summary (len fleet) 0 0 0 0 0 0 [])) as (-> & -> & ->). done.
Qed.

(** The forwarder keeps the order and drops nothing before the channel closes. *)
Lemma forward_ok {E} id (events : list E) : forward id (map Received.Got events) = map (Event id) events.
Proof. induction events as [|e events IH]; [done|]. cbn [map forward]. by rewrite IH. Qed.
End Fleet.
