(* ===== verification/ScenarioRunner.v ===== *)
(** * ScenarioRunner: running a scenario against a station

    [scenario/runner.rs]: the steps are run in order up to the first failure; [expect_call] looks
    for a CALL among the frames of the station's event stream, of which the runner keeps a
    bounded part and may lose some. What the outside does is given per step ([World]): how many
    events are there at a time, which snapshots are published, what a command is answered with,
    when the deadline passes and whether the run is cancelled. The texts of failures are not
    modelled; a failure is a value with the data its text shows. *)

From stdpp Require Import strings gmap.
From S2P Require Import Prelude Text Utf8 Time Types Messages Frame Actions Interface Actor Authorization.
From S2P Require Import Scenario.
Local Open Scope Z_scope.

Module ScenarioRunner.
Import Scenario.

(** CALL frames kept for [expect_call] at most, and their bytes. *)
Definition FRAME_CAP : Z := 10000.
Definition FRAME_BYTES : Z := 16 * 1024 * 1024.

(** What the JSON library says about numbers. *)
Class NumberEq {J : SerdeJson} : Type := number_eqb : Number -> Number -> bool.

(** An event of the station, and what the subscription to them delivers: an event, or the
    number of events that were dropped. *)
Module Event.
Inductive t {J : SerdeJson} : Type :=
| Frame (record : FrameRecord.t)
| Log (level : LogLevel.t)
| StateChanged.
End Event.
Inductive Arrival {J : SerdeJson} : Type :=
| Got (event : Event.t)
| Lagged (missed : Z).

(** Why a step failed. *)
Inductive Failure {J : SerdeJson} : Type :=
| Cancelled
| StationStopped
| TimedOut (timeout_ms : Z)
| FellBehind (lost : Z)
| CommandFailed (action : str) (error : StationError.t)
| ExpectedError (action : str)
| WrongStatus (action wanted : str) (actual : option str)
| WrongPayload (action : str) (wanted : json) (actual : option json).

(** How one step ended. *)
Inductive StepStatus (R : Type) : Type :=
| Passed
| Failed (reason : R)
| Skipped.
Arguments Passed {R}.
Arguments Failed {R} reason.
Arguments Skipped {R}.
Definition is_passed {R} (s : StepStatus R) : bool := match s with Passed => true | _ => false end.

Record StepReport (R : Type) : Type := mk_report {
  index : Z;
  report_name : str;
  status : StepStatus R;
  duration_ms : Z;
}.
Arguments mk_report {R}.
Arguments index {R}.
Arguments report_name {R}.
Arguments status {R}.
Arguments duration_ms {R}.
Record ScenarioReport (R : Type) : Type := mk_scenario_report {
  scenario : str;
  passed : bool;
  cancelled : bool;
  reports : list (StepReport R);
  total_ms : Z;
}.
Arguments mk_scenario_report {R}.
Arguments scenario {R}.
Arguments passed {R}.
Arguments cancelled {R}.
Arguments reports {R}.
Arguments total_ms {R}.

(** Live progress. *)
Inductive Progress (R : Type) : Type :=
| StepStarted (index : Z) (name : str)
| StepFinished (report : StepReport R).
Arguments StepStarted {R} index name.
Arguments StepFinished {R} report.

Module Ctx.
Section record.
Context {J : SerdeJson}.
Record t : Type := mk {
  events : list Arrival;
  lagged : Z;
  loss_at : option nat;
  wanted : gmap str bool;
  frames : list (FrameRecord.t * Z);
  frame_bytes : Z;
}.
#[export] Instance eta : Eta t := fun x =>
  mk (events x) (lagged x) (loss_at x) (wanted x) (frames x) (frame_bytes x).
End record.
End Ctx.
Export (hints) Ctx.

Section runner.
Context {J : SerdeJson} {T : JsonText} {N : NumberEq}.
Implicit Types (x : Ctx.t).

(** [Duration::as_millis], as u64 *)
Definition millis (nanoseconds : Z) : Z := Z.min (nanoseconds / NS_PER_MS) u64_max.

(** Every part of [expected] is present in [actual]. *)
Fixpoint json_subset (expected actual : json) : bool :=
  match expected, actual with
  | Object e, Object a =>
      forallb (fun '(key, value) => is_some_and (fun v => json_subset value v) (field key a)) e
  | Array e, Array a =>
      (fix elements (e a : list json) : bool :=
         match e, a with
         | [], [] => true
         | v :: e, w :: a => json_subset v w && elements e a
         | _, _ => false
         end) e a
  | Null, Null => true
  | Bool b, Bool c => Bool.eqb b c
  | Num m, Num n => number_eqb m n
  | String s, String s' => s == s'
  | _, _ => false
  end.

(** The action names some [expect_call] waits for, and whether any of them matches on the payload. *)
Definition want (wanted : gmap str bool) (step : Step) : gmap str bool :=
  match action step with
  | Action.ExpectCall call _ matches _ =>
      <[call := default false (wanted !! call) || is_someb matches]> wanted
  | _ => wanted
  end.
Definition wanted_calls (steps : list Step) : gmap str bool := fold_left want steps ∅.

(** [Value::get] with a number *)
Definition item (n : nat) (v : json) : option json :=
  match v with Array items => items !! n | _ => None end.
Definition truncate (n : nat) (v : json) : json :=
  match v with Array items => Array (take n items) | _ => v end.
Definition trim_record (r : FrameRecord.t) : FrameRecord.t :=
  FrameRecord.mk (FrameRecord.ts r) (FrameRecord.direction r) (FrameRecord.msg_id r)
    (FrameRecord.action r) (truncate 3 (FrameRecord.frame r)).

(** Removes the [n] oldest frames. *)
Fixpoint drop_size (n : nat) (frames : list (FrameRecord.t * Z)) (bytes : Z) : Z :=
  match n, frames with
  | S n, (_, size) :: frames => drop_size n frames (saturating_sub bytes size)
  | _, _ => bytes
  end.
Definition drop_front (n : nat) x : Ctx.t :=
  x <| Ctx.frame_bytes := drop_size n (Ctx.frames x) (Ctx.frame_bytes x) |>
    <| Ctx.frames ::= drop n |>
    <| Ctx.loss_at ::= fmap (fun at_ => (at_ - n)%nat) |>.

Definition too_many x : bool :=
  (1 <? length (Ctx.frames x))%nat
  && ((FRAME_CAP <? len (Ctx.frames x)) || (FRAME_BYTES <? Ctx.frame_bytes x)).
Fixpoint make_room (fuel : nat) x : Ctx.t :=
  match fuel with
  | O => x
  | S fuel =>
      if too_many x
      then make_room fuel (drop_front 1 x <| Ctx.lagged ::= fun n => u64_saturating_add n 1 |>
                                          <| Ctx.loss_at := Some 0%nat |>)
      else x
  end.

(** What is kept of a frame, and its size. *)
Definition kept (wanted : gmap str bool) (r : FrameRecord.t) : option (FrameRecord.t * Z) :=
  if negb (item 0 (FrameRecord.frame r) ≫= as_u64 == Some 2) then None
  else
    needs_payload ← (item 2 (FrameRecord.frame r) ≫= as_str) ≫= (fun call => wanted !! call);
    Some (if needs_payload : bool then (r, byte_len (json_to_string (FrameRecord.frame r)))
          else (trim_record r, 128)).
Definition record (event : Event.t) x : Ctx.t :=
  match event with
  | Event.Frame r =>
      match kept (Ctx.wanted x) r with
      | None => x
      | Some (r, bytes) =>
          let x := x <| Ctx.frame_bytes ::= Z.add bytes |> <| Ctx.frames ::= fun l => l ++ [(r, bytes)] |> in
          make_room (length (Ctx.frames x)) x
      end
  | _ => x
  end.

Definition note_lost (missed : Z) x : Ctx.t :=
  x <| Ctx.lagged ::= fun n => u64_saturating_add n missed |>
    <| Ctx.loss_at := Some (default (length (Ctx.frames x)) (Ctx.loss_at x)) |>.

Definition arrive (a : Arrival) x : Ctx.t :=
  match a with Got event => record event x | Lagged missed => note_lost missed x end.
(** Takes in what has arrived, which is [n] events and notices at most. *)
Fixpoint pump (n : nat) x : Ctx.t :=
  match n, Ctx.events x with
  | S n, a :: events => pump n (arrive a (x <| Ctx.events := events |>))
  | _, _ => x
  end.

(** What wakes a waiting [expect_call]: the next arrival (or the end of the events), the
    deadline, or the cancellation. *)
Inductive Wake : Type := Arrived | Deadline | CancelledWake.

Definition matches_call (call : str) (direction : option Direction.t) (matches : option json)
    (r : FrameRecord.t) : bool :=
  (item 2 (FrameRecord.frame r) ≫= as_str == Some call)
  && is_none_or (fun d => d == FrameRecord.direction r) direction
  && is_none_or (fun m => json_subset m (default Null (item 3 (FrameRecord.frame r)))) matches.

(** [turns]: how many events have arrived at the beginning of a turn, and what wakes it. With
    no turn left the call is still waiting. *)
Fixpoint expect_call (call : str) (direction : option Direction.t) (matches : option json)
    (timeout_ms : Z) (turns : list (nat * Wake)) x : Ctx.t * option (result unit Failure) :=
  match turns with
  | [] => (x, None)
  | (n, wake) :: turns =>
      let x := pump n x in
      let found := position (fun f => matches_call call direction matches f.1) (Ctx.frames x) in
      match (index ← found;
             if is_none_or (fun at_ => (index <? at_)%nat) (Ctx.loss_at x) then Some index else None) with
      | Some index => (drop_front (S index) x, Some (Ok tt))
      | None =>
          if is_someb (Ctx.loss_at x)
          then (x <| Ctx.lagged := 0 |> <| Ctx.loss_at := None |>,
                Some (Err (FellBehind (Ctx.lagged x))))
          else
          match wake with
          | Arrived =>
              match Ctx.events x with
              | a :: events =>
                  expect_call call direction matches timeout_ms turns
                    (arrive a (x <| Ctx.events := events |>))
              | [] => (x, Some (Err StationStopped))
              end
          | Deadline => (x, Some (Err (TimedOut timeout_ms)))
          | CancelledWake => (x, Some (Err Cancelled))
          end
      end
  end.

Definition to_command (a : Action.t) : option Command.t :=
  match a with
  | Action.Connect => Some Command.Connect
  | Action.Disconnect => Some Command.Disconnect
  | Action.Reconnect => Some Command.Reconnect
  | Action.Boot => Some Command.Boot
  | Action.Heartbeat => Some Command.Heartbeat
  | Action.Plug connector => Some (Command.PlugIn connector)
  | Action.Unplug connector => Some (Command.Unplug connector)
  | Action.Authorize id_tag => Some (Command.Authorize id_tag)
  | Action.StartTx connector id_tag => Some (Command.StartTransaction connector id_tag)
  | Action.StopTx connector reason id_tag => Some (Command.StopTransaction connector reason id_tag)
  | Action.Meter connector wh_delta => Some (Command.MeterValues connector wh_delta None)
  | Action.Status connector status => Some (Command.SetConnectorStatus connector status)
  | Action.Fault connector error_code info => Some (Command.Fault connector error_code info None)
  | Action.ClearFault connector => Some (Command.ClearFault connector)
  | Action.SendRaw call payload validate => Some (Command.SendRaw call payload validate)
  | Action.DataTransfer vendor_id message_id data => Some (Command.DataTransfer vendor_id message_id data)
  | Action.RequestCertificate => Some Command.RequestCertificate
  | Action.SecurityEvent event_type tech_info => Some (Command.SendSecurityEvent event_type tech_info)
  | Action.SetRule rule => Some (Command.SetResponseRule rule)
  | Action.ClearRules call => Some (Command.ClearResponseRules call)
  | Action.Sleep _ | Action.WaitFor _ _ | Action.ExpectCall _ _ _ _ => None
  end.

(** The [status] an outcome carries, for [expect.status]. *)
Definition outcome_status (o : Outcome.t) : option str :=
  match o with
  | Outcome.Authorized decision => Some (AuthorizationStatus.as_str (IdTagInfo.status (Authorization.id_tag_info decision)))
  | Outcome.TransactionStarted _ _ => Some (lit "Accepted")
  | Outcome.TransactionRejected status => Some (AuthorizationStatus.as_str status)
  | Outcome.Response (Object fields) => field (lit "status") fields ≫= as_str
  | _ => None
  end.

(** The status a step waits for; a rejected tag stops the scenario unless the step says otherwise. *)
Definition wanted_status (expect : Expect) (a : Action.t) : option str :=
  match expect_status expect, a with
  | Some status, _ => Some status
  | None, Action.Authorize _ | None, Action.StartTx _ _ => Some (lit "Accepted")
  | None, _ => None
  end.
Definition check_payload (a : Action.t) (wanted : option json) (o : Outcome.t) : result unit Failure :=
  match wanted, o with
  | None, _ => Ok tt
  | Some wanted, Outcome.Response payload =>
      if json_subset wanted payload then Ok tt
      else Err (WrongPayload (Action.name a) wanted (Some payload))
  | Some wanted, _ => Err (WrongPayload (Action.name a) wanted None)
  end.
Definition check (step : Step) (a : Action.t) (answer : result Outcome.t StationError.t)
  : result unit Failure :=
  let expect := default default_expect (Scenario.expect step) in
  match answer with
  | Err error => if expect_error expect then Ok tt else Err (CommandFailed (Action.name a) error)
  | Ok outcome =>
      if expect_error expect then Err (ExpectedError (Action.name a))
      else
        match wanted_status expect a with
        | None => check_payload a (expect_payload expect) outcome
        | Some wanted =>
            if outcome_status outcome == Some wanted
            then check_payload a (expect_payload expect) outcome
            else Err (WrongStatus (Action.name a) wanted (outcome_status outcome))
        end
  end.

(** ** Steps and runs *)

Inductive WaitEnd : Type := WaitStopped | WaitTimedOut.

(** What happens during a step. *)
Record World : Type := mk_world {
  cancelled_before : bool;
  interrupted : bool;
  arrived : nat;
  snapshots : list Shown;
  wait_end : WaitEnd;
  turns : list (nat * Wake);
  answer : result Outcome.t StationError.t;
  elapsed : Z;
}.

(** [watch::Receiver::wait_for], over the snapshots that are published. *)
Definition wait_for (condition : Condition.t) (timeout_ms : Z) (w : World) : result unit Failure :=
  if any (Condition.holds condition) (snapshots w) then Ok tt
  else match wait_end w with
       | WaitStopped => Err StationStopped
       | WaitTimedOut => Err (TimedOut timeout_ms)
       end.

Definition run_step (step : Step) (w : World) x : Ctx.t * option (result unit Failure) :=
  let x := pump (arrived w) x in
  match action step with
  | Action.Sleep _ => (x, Some (Ok tt))
  | Action.WaitFor condition timeout_ms => (x, Some (wait_for condition timeout_ms w))
  | Action.ExpectCall call direction matches timeout_ms =>
      expect_call call direction matches timeout_ms (turns w) x
  | a => (x, Some (check step a (answer w)))
  end.

(** One round of the loop: the report of a step and the progress messages; a run that was
    cancelled fails the step in flight. Nothing when the step does not end. *)
Definition round (index : Z) (step : Step) (w : World) (failed : bool) x
  : option (Ctx.t * bool * StepReport Failure * list (Progress Failure)) :=
  let name := label step in
  if failed || cancelled_before w then
    let report := mk_report index name (if failed then Skipped else Failed Cancelled) 0 in
    Some (x, true, report, [StepFinished report])
  else
    '(x, outcome) ← (let '(x, outcome) := run_step step w x in
                     if interrupted w then Some (x, Err Cancelled)
                     else (fun outcome => (x, outcome)) <$> outcome);
    let status := match outcome with Ok _ => Passed | Err reason => Failed reason end in
    let report := mk_report index name status (millis (elapsed w)) in
    Some (x, negb (is_passed status), report, [StepStarted index name; StepFinished report]).

Fixpoint run_steps (index : Z) (steps : list Step) (world : Z -> World) (failed : bool) x
  : option (list (StepReport Failure) * list (Progress Failure)) :=
  match steps with
  | [] => Some ([], [])
  | step :: steps =>
      '(x, failed, report, progress) ← round index step (world index) failed x;
      '(reports, rest) ← run_steps (index + 1) steps world failed x;
      Some (report :: reports, progress ++ rest)
  end.

Definition new_ctx (scenario : t) (events : list Arrival) : Ctx.t :=
  Ctx.mk events 0 None (wanted_calls (steps scenario)) [] 0.

(** [run_scenario_with_events], with whether the run was cancelled in the end and its time. *)
Definition run_scenario (scenario : t) (events : list Arrival) (world : Z -> World)
    (cancelled : bool) (total : Z) : option (ScenarioReport Failure * list (Progress Failure)) :=
  '(reports, progress) ← run_steps 0 (steps scenario) world false (new_ctx scenario events);
  Some (mk_scenario_report (name scenario) (all (fun r => is_passed (status r)) reports) cancelled
          reports (millis total), progress).

(** [ScenarioRunner::run]: one run at a time; [running] is the flag the clones share. The guard
    resets it when the run ends. *)
Definition run {A} (running : bool) (report : A) : result A ScenarioError.t * bool :=
  if running then (Err ScenarioError.AlreadyRunning, true) else (Ok report, false).
End runner.
End ScenarioRunner.
