(* ===== verification/ScenarioRuns.v ===== *)
(** * ScenarioRuns: what the verdict of a scenario run means

    The runner of [ScenarioRunner.v] sees a part of the station's events: the subscription drops
    some when the runner falls behind, frames nobody asks for are not kept, payloads nobody looks
    at are cut off, and old frames make room for new ones. The specification is an observer who
    sees every event: an [expect_call] that passes has matched the first matching CALL after the
    previous match, and one that times out has missed none. *)

From stdpp Require Import strings gmap.
From S2P Require Import Prelude Text Utf8 Time Types Messages Frame Actions Interface Actor Authorization.
From S2P Require Import Scenario ScenarioRunner.
Local Open Scope Z_scope.

Module ScenarioRuns.
Import (hints) ScenarioRunner.
Import Scenario ScenarioRunner.

Section runs.
Context {J : SerdeJson} {T : JsonText} {N : NumberEq}.
Implicit Types (x : Ctx.t) (h : list Event.t).

(** ** The observer *)

(** The events behind what the subscription delivers. *)
Inductive explains : list Arrival -> list Event.t -> Prop :=
| explains_nil : explains [] []
| explains_got e arrivals events : explains arrivals events -> explains (Got e :: arrivals) (e :: events)
| explains_lagged lost arrivals events :
    explains arrivals events -> explains (Lagged (len lost) :: arrivals) (lost ++ events).

Record query : Type := mk_query {
  call : str;
  direction : option Direction.t;
  matches : option json;
}.
Definition is_match (q : query) (e : Event.t) : bool :=
  match e with
  | Event.Frame r =>
      (item 0 (FrameRecord.frame r) ≫= as_u64 == Some 2)
      && matches_call (call q) (direction q) (matches q) r
  | _ => false
  end.
(** What follows the first match. *)
Fixpoint after_match (q : query) (events : list Event.t) : option (list Event.t) :=
  match events with
  | [] => None
  | e :: events => if is_match q e then Some events else after_match q events
  end.
Fixpoint after_all (queries : list query) (events : list Event.t) : option (list Event.t) :=
  match queries with
  | [] => Some events
  | q :: queries => events ← after_match q events; after_all queries events
  end.

Lemma after_match_app q h f : after_match q h = None -> after_match q (h ++ f) = after_match q f.
Proof. induction h as [|e h IH]; simpl; [done|]. by destruct (is_match q e). Qed.

(** ** What is kept *)

Definition kept_event (wanted : gmap str bool) (e : Event.t) : option (FrameRecord.t * Z) :=
  match e with Event.Frame r => kept wanted r | _ => None end.
(** The frames up to the earliest loss are those of the events so far. *)
Definition keeps_up x h : Prop :=
  match Ctx.loss_at x with
  | None => Ctx.frames x = omap (kept_event (Ctx.wanted x)) h
  | Some at_ =>
      (at_ <= length (Ctx.frames x))%nat /\
      exists h1 h2, h = h1 ++ h2 /\ take at_ (Ctx.frames x) = omap (kept_event (Ctx.wanted x)) h1
  end.
(** [truth]: the events since the last match, those to come included. *)
Definition tracks x (truth : list Event.t) : Prop :=
  exists h f, truth = h ++ f /\ explains (Ctx.events x) f /\ keeps_up x h.

Lemma lost_everything x h : keeps_up (x <| Ctx.loss_at := Some 0%nat |>) h.
Proof. split; simpl; [lia|]. by exists [], h. Qed.
Lemma make_room_keeps_up fuel x h : keeps_up x h -> keeps_up (make_room fuel x) h.
Proof.
  revert x. induction fuel as [|fuel IH]; intros x Hx; [done|]. cbn [make_room].
  destruct (too_many x); [|done]. apply IH, lost_everything.
Qed.
Lemma make_room_same fuel x :
  Ctx.wanted (make_room fuel x) = Ctx.wanted x /\ Ctx.events (make_room fuel x) = Ctx.events x.
Proof.
  revert x. induction fuel as [|fuel IH]; intros x; [done|]. cbn [make_room].
  destruct (too_many x); [|done]. by rewrite !(proj1 (IH _)), !(proj2 (IH _)).
Qed.

Lemma keeps_up_quiet x h e : kept_event (Ctx.wanted x) e = None -> keeps_up x h -> keeps_up x (h ++ [e]).
Proof.
  unfold keeps_up. intros He. destruct (Ctx.loss_at x).
  - intros (Hl & h1 & h2 & -> & Hk). split; [done|]. exists h1, (h2 ++ [e]). by rewrite app_assoc.
  - intros ->. rewrite omap_app. simpl. by rewrite He, app_nil_r.
Qed.
Lemma record_keeps_up e x h : keeps_up x h -> keeps_up (record e x) (h ++ [e]).
Proof.
  intros Hx. destruct e as [r|level|]; [|by apply keeps_up_quiet..]. cbn [record].
  destruct (kept (Ctx.wanted x) r) as [[r' bytes]|] eqn:Hk; [|by apply keeps_up_quiet].
  apply make_room_keeps_up. unfold keeps_up in *. simpl. destruct (Ctx.loss_at x).
  - destruct Hx as (Hl & h1 & h2 & -> & Ht). rewrite length_app. split; [simpl; lia|].
    exists h1, (h2 ++ [Event.Frame r]). by rewrite app_assoc, take_app_le.
  - rewrite omap_app, Hx. simpl. by rewrite Hk.
Qed.
Lemma note_lost_keeps_up n lost x h : keeps_up x h -> keeps_up (note_lost n x) (h ++ lost).
Proof.
  unfold keeps_up, note_lost. simpl. destruct (Ctx.loss_at x) as [at_|]; simpl.
  - intros (Hl & h1 & h2 & -> & Ht). split; [done|]. exists h1, (h2 ++ lost). by rewrite app_assoc.
  - intros Hx. split; [done|]. exists h, lost. split; [done|]. by rewrite firstn_all.
Qed.

Lemma record_frame_parts e x : Ctx.wanted (record e x) = Ctx.wanted x /\ Ctx.events (record e x) = Ctx.events x.
Proof.
  destruct e as [r|level|]; [|done..]. cbn [record]. destruct (kept _ r) as [[r' bytes]|]; [|done].
  match goal with |- context [make_room ?n ?y] => exact (make_room_same n y) end.
Qed.
Lemma arrive_same a x : Ctx.wanted (arrive a x) = Ctx.wanted x /\ Ctx.events (arrive a x) = Ctx.events x.
Proof. destruct a; [apply record_frame_parts|done]. Qed.

Lemma arrive_tracks a arrivals x truth :
  Ctx.events x = a :: arrivals -> tracks x truth -> tracks (arrive a (x <| Ctx.events := arrivals |>)) truth.
Proof.
  intros He (h & f & -> & Hf & Hx). rewrite He in Hf.
  assert (H : keeps_up (x <| Ctx.events := arrivals |>) h) by exact Hx.
  set (y := x <| Ctx.events := arrivals |>) in *.
  inversion Hf as [|e ? events Hr|lost ? events Hr]; subst.
  - exists (h ++ [e]), events. split_and!; [by rewrite <- app_assoc| |by apply record_keeps_up].
    cbn [arrive]. by rewrite (proj2 (record_frame_parts e y)).
  - exists (h ++ lost), events. split_and!; [by rewrite <- app_assoc|exact Hr|by apply note_lost_keeps_up].
Qed.
Lemma pump_tracks n x truth : tracks x truth -> tracks (pump n x) truth.
Proof.
  revert x. induction n as [|n IH]; intros x Hx; [done|]. cbn [pump].
  destruct (Ctx.events x) as [|a events] eqn:He; [done|]. by apply IH, arrive_tracks.
Qed.
Lemma pump_wanted n x : Ctx.wanted (pump n x) = Ctx.wanted x.
Proof.
  revert x. induction n as [|n IH]; intros x; [done|]. cbn [pump].
  destruct (Ctx.events x) as [|a events]; [done|]. by rewrite IH, (proj1 (arrive_same _ _)).
Qed.

(** ** A match *)

(** The scenario asks for the call, and for payloads when the query does. *)
Definition asked (wanted : gmap str bool) (q : query) : Prop :=
  exists needs_payload, wanted !! call q = Some needs_payload /\
    (is_Some (matches q) -> needs_payload = true).

Lemma item_truncate n m v : (n < m)%nat -> item n (truncate m v) = item n v.
Proof. intros Hn. destruct v; try done. simpl. by apply lookup_take_lt. Qed.
Lemma matches_call_asked q r : matches_call (call q) (direction q) (matches q) r = true ->
  item 2 (FrameRecord.frame r) ≫= as_str = Some (call q).
Proof. unfold matches_call. intros H. by bool_facts. Qed.
Lemma matches_call_trim c d r : matches_call c d None (trim_record r) = matches_call c d None r.
Proof. unfold matches_call, trim_record. cbn [FrameRecord.frame FrameRecord.direction]. by rewrite item_truncate by lia. Qed.

Lemma kept_match wanted q e :
  asked wanted q ->
  match kept_event wanted e with
  | Some (r, _) => is_match q e = matches_call (call q) (direction q) (matches q) r
  | None => is_match q e = false
  end.
Proof.
  intros (b & Hb & Hm). destruct e as [r|level|]; [|done..]. cbn [kept_event is_match]. unfold kept.
  destruct (item 0 (FrameRecord.frame r) ≫= as_u64 == Some 2); cbn [negb andb]; [|done].
  destruct (item 2 (FrameRecord.frame r) ≫= as_str) as [c|] eqn:Hc; simpl.
  - destruct (wanted !! c) as [needs_payload|] eqn:Hw; simpl.
    + destruct needs_payload; [done|].
      destruct (matches_call (call q) (direction q) (matches q) r) eqn:Hq.
      * pose proof (matches_call_asked q r Hq) as H. rewrite Hc in H. injection H as ->.
        rewrite Hb in Hw. injection Hw as ->. destruct (matches q); [by discriminate Hm|].
        by rewrite matches_call_trim.
      * destruct (matches_call _ _ _ (trim_record r)) eqn:Ht; [|done].
        pose proof (matches_call_asked q _ Ht) as H. cbn [trim_record FrameRecord.frame] in H.
        rewrite item_truncate, Hc in H by lia. injection H as ->.
        rewrite Hb in Hw. injection Hw as ->. destruct (matches q); [by discriminate Hm|].
        rewrite matches_call_trim in Ht. congruence.
    + destruct (matches_call _ _ _ r) eqn:Hq; [|done].
      pose proof (matches_call_asked q r Hq) as H. rewrite Hc in H. injection H as ->. congruence.
  - destruct (matches_call _ _ _ r) eqn:Hq; [|done].
    pose proof (matches_call_asked q r Hq) as H. by rewrite Hc in H.
Qed.

Definition finds (q : query) (f : FrameRecord.t * Z) : bool :=
  matches_call (call q) (direction q) (matches q) f.1.
Lemma found_after wanted q h i :
  asked wanted q -> position (finds q) (omap (kept_event wanted) h) = Some i ->
  exists rest, after_match q h = Some rest /\
    omap (kept_event wanted) rest = drop (S i) (omap (kept_event wanted) h).
Proof.
  intros Hq. revert i. induction h as [|e h IH]; intros i Hi; [done|].
  pose proof (kept_match wanted q e Hq) as Hk. cbn [after_match]. simpl in Hi |- *.
  destruct (kept_event wanted e) as [[r b]|] eqn:He; rewrite Hk.
  - cbn [position] in Hi. unfold finds at 1 in Hi. cbn [fst] in Hi.
    destruct (matches_call _ _ _ r); [injection Hi as <-; by exists h|].
    destruct (position _ _) as [j|] eqn:Hj; [|done]. injection Hi as <-. by apply (IH j).
  - by apply IH.
Qed.
Lemma none_after wanted q h :
  asked wanted q -> position (finds q) (omap (kept_event wanted) h) = None -> after_match q h = None.
Proof.
  intros Hq. induction h as [|e h IH]; intros Hi; [done|].
  pose proof (kept_match wanted q e Hq) as Hk. cbn [after_match]. simpl in Hi.
  destruct (kept_event wanted e) as [[r b]|] eqn:He; rewrite Hk; [|by apply IH].
  cbn [position] in Hi. unfold finds at 1 in Hi. cbn [fst] in Hi.
  destruct (matches_call _ _ _ r); [done|]. apply IH. by destruct (position _ _).
Qed.
Lemma after_match_some_app q h rest f :
  after_match q h = Some rest -> after_match q (h ++ f) = Some (rest ++ f).
Proof.
  induction h as [|e h IH]; simpl; [done|]. destruct (is_match q e); [by intros [= <-]|done].
Qed.
Lemma position_take {A} (p : A -> bool) l i n :
  position p l = Some i -> (i < n)%nat -> position p (take n l) = Some i.
Proof.
  revert i n. induction l as [|a l IH]; intros i n Hi Hn; [done|]. destruct n as [|n]; [lia|]. simpl in *.
  destruct (p a); [done|]. destruct (position p l) as [j|]; [|done]. injection Hi as <-.
  by rewrite (IH j) by (done || lia).
Qed.

Lemma match_keeps_up q x h i :
  asked (Ctx.wanted x) q -> keeps_up x h -> position (finds q) (Ctx.frames x) = Some i ->
  is_none_or (fun at_ => (i <? at_)%nat) (Ctx.loss_at x) = true ->
  exists rest, after_match q h = Some rest /\ keeps_up (drop_front (S i) x) rest.
Proof.
  unfold keeps_up, drop_front. simpl. intros Hq. destruct (Ctx.loss_at x) as [at_|]; simpl.
  - intros (Hl & h1 & h2 & -> & Ht) Hi Hat. apply Nat.ltb_lt in Hat.
    apply (position_take _ _ i at_) in Hi; [|done]. rewrite Ht in Hi.
    destruct (found_after _ q h1 i Hq Hi) as (rest & Ha & Hr).
    exists (rest ++ h2). split; [by apply after_match_some_app|]. rewrite length_drop. split; [lia|].
    exists rest, h2. split; [done|]. rewrite Hr, <- Ht, firstn_skipn_comm. do 2 f_equal. lia.
  - intros Hx Hi _. rewrite Hx in Hi. destruct (found_after _ q h i Hq Hi) as (rest & Ha & Hr).
    exists rest. split; [done|]. by rewrite Hr, Hx.
Qed.

(** ** [expect_call] *)

Lemma expect_call_tracks q timeout_ms turns x truth :
  asked (Ctx.wanted x) q -> tracks x truth ->
  let '(x', outcome) := expect_call (call q) (direction q) (matches q) timeout_ms turns x in
  Ctx.wanted x' = Ctx.wanted x /\
  match outcome with
  | Some (Ok _) => exists rest, after_match q truth = Some rest /\ tracks x' rest
  | Some (Err (TimedOut _)) =>
      exists h f, truth = h ++ f /\ explains (Ctx.events x') f /\ after_match q h = None
  | Some (Err StationStopped) => after_match q truth = None
  | _ => True
  end.
Proof.
  revert x. induction turns as [|[n wake] turns IH]; intros x Hq Hx; [done|]. cbn [expect_call].
  pose proof (pump_wanted n x) as Hw. apply (pump_tracks n) in Hx. revert Hw Hx. generalize (pump n x).
  intros y Hw Hy. rewrite <- Hw in Hq |- *. fold (finds q).
  destruct (position (finds q) (Ctx.frames y)) as [i|] eqn:Hp; cbn [mbind option_bind].
  - destruct (is_none_or _ (Ctx.loss_at y)) eqn:Hn.
    + split; [done|]. destruct Hy as (h & f & -> & Hf & Hk).
      destruct (match_keeps_up q y h i Hq Hk Hp Hn) as (rest & Ha & Hr).
      exists (rest ++ f). split; [by apply after_match_some_app|]. by exists rest, f.
    + by destruct (Ctx.loss_at y).
  - destruct (is_someb (Ctx.loss_at y)) eqn:Hl; [done|].
    assert (Hloss : Ctx.loss_at y = None) by (by destruct (Ctx.loss_at y)).
    assert (Hnone : exists h f, truth = h ++ f /\ explains (Ctx.events y) f /\ after_match q h = None).
    { destruct Hy as (h & f & -> & Hf & Hk). exists h, f. split_and!; [done..|].
      unfold keeps_up in Hk. rewrite Hloss in Hk. rewrite Hk in Hp. by apply (none_after (Ctx.wanted y)). }
    destruct wake; [|done..]. destruct (Ctx.events y) as [|a events] eqn:He.
    + split; [done|]. destruct Hnone as (h & f & -> & Hf & Ha). inversion Hf. by rewrite app_nil_r.
    + set (z := arrive a (y <| Ctx.events := events |>)).
      assert (Hz : Ctx.wanted z = Ctx.wanted y) by exact (proj1 (arrive_same a (y <| Ctx.events := events |>))). rewrite <- Hz.
      apply IH; [by rewrite Hz|by apply arrive_tracks].
Qed.

(** ** Runs *)

Lemma want_asked wanted step q : asked wanted q -> asked (want wanted step) q.
Proof.
  intros (b & Hb & Hm). unfold want. destruct (action step) as [| | | | | | | | | | | | | | | |c d m t| | | | | |]; try by exists b.
  destruct (base.decide (c = call q)) as [->|Hn].
  - exists (b || is_someb m). rewrite lookup_insert_eq, Hb. split; [done|]. intros H. by rewrite Hm.
  - exists b. by rewrite lookup_insert_ne.
Qed.
Lemma want_this wanted step c d m t :
  action step = Action.ExpectCall c d m t -> asked (want wanted step) (mk_query c d m).
Proof.
  intros Ha. unfold want. rewrite Ha. eexists. rewrite lookup_insert_eq. split; [done|]. cbn [matches].
  intros [v ->]. by rewrite orb_true_r.
Qed.
Lemma wanted_calls_asked steps step c d m t :
  In step steps -> action step = Action.ExpectCall c d m t -> asked (wanted_calls steps) (mk_query c d m).
Proof.
  intros Hin Ha. unfold wanted_calls. generalize (∅ : gmap str bool). 
  assert (Hmono : forall l w q, asked w q -> asked (fold_left want l w) q).
  { induction l as [|s l IH]; intros w q Hq; [done|]. simpl. by apply IH, want_asked. }
  induction steps as [|s steps IH]; intros w; [done|]. simpl. destruct Hin as [->|Hin]; [|by apply IH].
  by apply Hmono, (want_this _ _ _ _ _ t).
Qed.

(** The CALLs that the passed steps waited for. *)
Fixpoint passed_queries (steps : list Step) (reports : list (StepReport Failure)) : list query :=
  match steps, reports with
  | step :: steps, r :: reports =>
      match action step, is_passed (status r) with
      | Action.ExpectCall c d m _, true => mk_query c d m :: passed_queries steps reports
      | _, _ => passed_queries steps reports
      end
  | _, _ => []
  end.
(** Steps pass up to the first failure; the rest is skipped. *)
Definition verdict {R} (statuses : list (StepStatus R)) : Prop :=
  exists n rest, statuses = repeat Passed n ++ rest /\
    (rest = [] \/ exists reason m, rest = Failed reason :: repeat Skipped m).
Definition finished (p : Progress Failure) : option (StepReport Failure) :=
  match p with StepFinished r => Some r | StepStarted _ _ => None end.

Lemma round_report i step w failed x x' failed' r progress :
  round i step w failed x = Some (x', failed', r, progress) ->
  index r = i /\ report_name r = label step /\ omap finished progress = [r] /\
  (failed = true -> status r = Skipped /\ failed' = true) /\
  (failed = false -> failed' = negb (is_passed (status r)) /\ (status r = Passed \/ exists reason, status r = Failed reason)).
Proof.
  unfold round. destruct failed; cbn [orb].
  { intros [= <- <- <- <-]. by split_and!. }
  destruct (cancelled_before w).
  { intros [= <- <- <- <-]. split_and!; try done. intros _. split; [done|]. right. by eexists. }
  destruct (let '(x, outcome) := run_step step w x in _) as [[y outcome]|]; simpl; [|done].
  intros [= <- <- <- <-]. split_and!; try done. intros _. split; [done|].
  destruct outcome; [by left|right; by eexists].
Qed.
Lemma round_tracks i step w x x' r progress truth :
  (forall c d m t, action step = Action.ExpectCall c d m t -> asked (Ctx.wanted x) (mk_query c d m)) ->
  tracks x truth -> round i step w false x = Some (x', false, r, progress) ->
  Ctx.wanted x' = Ctx.wanted x /\
  exists rest, after_all (passed_queries [step] [r]) truth = Some rest /\ tracks x' rest.
Proof.
  intros Hq Hx. unfold round. destruct (cancelled_before w); cbn [orb]; [done|].
  destruct (run_step step w x) as [y outcome] eqn:Hrun. destruct (interrupted w); [done|].
  destruct outcome as [outcome|]; simpl; [|done]. destruct outcome as [[]|]; [|done]. intros [= <- <- <-].
  unfold run_step in Hrun. pose proof (pump_wanted (arrived w) x) as Hw. apply (pump_tracks (arrived w)) in Hx.
  destruct (action step) as [| | | | | | | | | | | | | | | |c d m t| | | | | |] eqn:Ha;
    try (assert (y = pump (arrived w) x) as -> by congruence; split; [done|]; by exists truth).
  specialize (Hq c d m t eq_refl). rewrite <- Hw in Hq |- *.
  pose proof (expect_call_tracks (mk_query c d m) t (turns w) _ truth Hq Hx) as H.
  cbn [call direction matches] in H. rewrite Hrun in H. destruct H as (Hw' & rest & Hr & Hy).
  split; [done|]. exists rest. split; [by simpl; rewrite Hr|done].
Qed.

Lemma run_steps_skipped i steps world x reports progress :
  run_steps i steps world true x = Some (reports, progress) ->
  map status reports = repeat Skipped (length steps) /\ passed_queries steps reports = [].
Proof.
  revert i x reports progress. induction steps as [|step steps IH]; intros i x reports progress; cbn [run_steps].
  { by intros [= <- <-]. }
  destruct (round i step (world i) true x) as [[[[y failed] r] p]|] eqn:Hr; cbn [mbind option_bind]; [|done].
  apply round_report in Hr as (_ & _ & _ & Hs & _). destruct (Hs eq_refl) as [Hst ->].
  destruct (run_steps (i + 1) steps world true y) as [[rs ps]|] eqn:Hrs; cbn [mbind option_bind]; [|done].
  intros [= <- <-]. destruct (IH _ _ _ _ Hrs) as [Hm Hq]. simpl. rewrite Hst, Hm, Hq. split; [done|]. by destruct (action step).
Qed.
Lemma run_steps_names i steps world failed x reports progress :
  run_steps i steps world failed x = Some (reports, progress) ->
  map report_name reports = map label steps /\ map index reports = seqZ i (len steps) /\
  omap finished progress = reports.
Proof.
  revert i failed x reports progress. induction steps as [|step steps IH]; intros i failed x reports progress; cbn [run_steps].
  { by intros [= <- <-]. }
  destruct (round i step (world i) failed x) as [[[[y failed'] r] p]|] eqn:Hr; cbn [mbind option_bind]; [|done].
  apply round_report in Hr as (<- & Hn & Hp & _ & _).
  destruct (run_steps (index r + 1) steps world failed' y) as [[rs ps]|] eqn:Hrs; cbn [mbind option_bind]; [|done].
  intros [= <- <-]. destruct (IH _ _ _ _ _ Hrs) as (Hm & Hi & Hf). rewrite omap_app, Hp, Hf. simpl. rewrite Hn, Hm, Hi.
  split_and!; try done. unfold len. cbn [length]. rewrite (seqZ_cons (index r)) by lia.
  by rewrite Z.add_1_r, Nat2Z.inj_succ, Z.pred_succ.
Qed.
Lemma run_steps_verdict i steps world x reports progress :
  run_steps i steps world false x = Some (reports, progress) -> verdict (map status reports).
Proof.
  revert i x reports progress. induction steps as [|step steps IH]; intros i x reports progress; cbn [run_steps].
  { intros [= <- <-]. exists 0%nat, []. by split; [|left]. }
  destruct (round i step (world i) false x) as [[[[y failed] r] p]|] eqn:Hr; cbn [mbind option_bind]; [|done].
  apply round_report in Hr as (_ & _ & _ & _ & Hs). destruct (Hs eq_refl) as [-> Hst].
  destruct (run_steps (i + 1) steps world _ y) as [[rs ps]|] eqn:Hrs; cbn [mbind option_bind]; [|done].
  intros [= <- <-]. simpl. destruct Hst as [Hst|[reason Hst]]; rewrite Hst in *; simpl in Hrs.
  - destruct (IH _ _ _ _ Hrs) as (n & rest & -> & Hrest). exists (S n), rest. by split.
  - apply run_steps_skipped in Hrs as [-> _]. exists 0%nat. eexists. split; [done|]. right. by eexists _, _.
Qed.
Lemma run_steps_found i steps world x reports progress truth :
  (forall step c d m t, In step steps -> action step = Action.ExpectCall c d m t ->
     asked (Ctx.wanted x) (mk_query c d m)) ->
  tracks x truth -> run_steps i steps world false x = Some (reports, progress) ->
  is_Some (after_all (passed_queries steps reports) truth).
Proof.
  revert i x reports progress truth. induction steps as [|step steps IH]; intros i x reports progress truth Hq Hx; cbn [run_steps].
  { by intros [= <- <-]. }
  destruct (round i step (world i) false x) as [[[[y failed] r] p]|] eqn:Hr; cbn [mbind option_bind]; [|done].
  pose proof (round_report _ _ _ _ _ _ _ _ _ Hr) as (_ & _ & _ & _ & Hs). destruct (Hs eq_refl) as [Hf Hst]. clear Hs.
  destruct (run_steps (i + 1) steps world failed y) as [[rs ps]|] eqn:Hrs; cbn [mbind option_bind]; [|done].
  intros [= <- <-]. destruct Hst as [Hst|[reason Hst]]; rewrite Hst in Hf; simpl in Hf; subst failed.
  - destruct (round_tracks i step (world i) x y r p truth) as (Hw & rest & Ha & Hy); [|done|done|].
    { intros c d m t. apply Hq. by left. }
    destruct (IH (i + 1) y rs ps rest) as [rest' Hrest]; [|done|done|].
    { rewrite Hw. intros s c d m t Hin. apply Hq. by right. }
    exists rest'. cbn [passed_queries] in *. rewrite Hst in *. cbn [is_passed] in *.
    destruct (action step); cbn [after_all] in *; try (injection Ha as <-; done).
    destruct (after_match _ truth); [|done]. cbn [mbind option_bind] in *. by injection Ha as <-.
  - apply run_steps_skipped in Hrs as [_ Hn]. cbn [passed_queries]. rewrite Hst, Hn. exists truth.
    by destruct (action step).
Qed.

(** ** A step ends when what it waits for does *)

Lemma pump_events n x : (length (Ctx.events (pump n x)) <= length (Ctx.events x))%nat.
Proof.
  revert x. induction n as [|n IH]; intros x; [done|]. cbn [pump].
  destruct (Ctx.events x) as [|a events] eqn:He; [by rewrite He|].
  specialize (IH (arrive a (x <| Ctx.events := events |>))). rewrite (proj2 (arrive_same _ _)) in IH.
  cbn [Ctx.events over] in IH. simpl. lia.
Qed.
Lemma expect_call_ends c d m t turns x :
  (length (Ctx.events x) < length turns)%nat ->
  is_Some (expect_call c d m t turns x).2 /\
  (length (Ctx.events (expect_call c d m t turns x).1) <= length (Ctx.events x))%nat.
Proof.
  revert x. induction turns as [|[n wake] turns IH]; intros x Hx; [simpl in Hx; lia|]. cbn [expect_call].
  pose proof (pump_events n x) as Hp. revert Hp. generalize (pump n x). intros y Hp.
  destruct (_ ≫= _) as [i|]; [by split; [eexists|]|]. destruct (is_someb (Ctx.loss_at y)); [by split; [eexists|]|].
  destruct wake; [|by split; [eexists|]..]. destruct (Ctx.events y) as [|a events] eqn:He.
  { split; [by eexists|]. simpl. rewrite He. simpl. lia. }
  set (z := arrive a (y <| Ctx.events := events |>)).
  assert (Hz : Ctx.events z = events) by exact (proj2 (arrive_same a (y <| Ctx.events := events |>))).
  simpl in Hx, Hp. destruct (IH z) as [Hs Hl]; [rewrite Hz; lia|]. split; [done|]. rewrite Hz in Hl. lia.
Qed.
Lemma run_step_ends step w x :
  (length (Ctx.events x) < length (turns w))%nat ->
  is_Some (run_step step w x).2 /\ (length (Ctx.events (run_step step w x).1) <= length (Ctx.events x))%nat.
Proof.
  intros Hx. unfold run_step. pose proof (pump_events (arrived w) x) as Hp.
  destruct (action step); try (split; [by eexists|exact Hp]).
  destruct (expect_call_ends call0 direction0 matches0 timeout_ms (turns w) (pump (arrived w) x)) as [Hs Hl]; [lia|].
  split; [done|]. lia.
Qed.
Lemma run_steps_end n i steps world failed x :
  (length (Ctx.events x) <= n)%nat -> (forall i, (n < length (turns (world i)))%nat) ->
  is_Some (run_steps i steps world failed x).
Proof.
  intros Hx Hw. revert i failed x Hx. induction steps as [|step steps IH]; intros i failed x Hx; [by eexists|].
  cbn [run_steps]. assert (Hr : exists y f r p, round i step (world i) failed x = Some (y, f, r, p) /\
    (length (Ctx.events y) <= n)%nat).
  { unfold round. destruct (failed || cancelled_before (world i)); [by repeat eexists|].
    specialize (Hw i). destruct (run_step_ends step (world i) x) as [[o Ho] Hl]; [lia|].
    destruct (run_step step (world i) x) as [y o']. cbn [fst snd] in *. subst o'.
    destruct (interrupted (world i)); cbn; repeat eexists; lia. }
  destruct Hr as (y & f & r & p & -> & Hy). cbn [mbind option_bind].
  destruct (IH (i + 1) f y Hy) as [[rs ps] ->]. by eexists.
Qed.

Lemma new_ctx_tracks scenario events truth : explains events truth -> tracks (new_ctx scenario events) truth.
Proof. intros He. by exists [], truth. Qed.
Lemma all_map {A B} (p : B -> bool) (f : A -> B) l : all p (map f l) = all (fun a => p (f a)) l.
Proof. induction l as [|a l IH]; [done|]. unfold all in *. simpl. by rewrite IH. Qed.
Lemma verdict_passed {R} (statuses : list (StepStatus R)) :
  verdict statuses -> all is_passed statuses = true <-> statuses = repeat Passed (length statuses).
Proof.
  intros (n & rest & -> & Hr). unfold all. split.
  - rewrite forallb_app. intros H. apply andb_true_iff in H as [_ H].
    destruct Hr as [->|(reason & m & ->)]; [|done]. by rewrite app_nil_r, repeat_length.
  - intros ->. apply forallb_forall. by intros s ->%repeat_spec.
Qed.

(** Claim C12: the verdict of a scenario run says what happened, however events are lost, delayed
    or dropped to save memory. Every step has its report, under its name and in order, and each
    report is announced once; the steps pass up to the first failure and the rest is skipped; the
    run has passed when every step has. An observer who sees every event of the station finds the
    CALLs that the passed [expect_call] steps wait for one after the other, each the first match
    after the one before. A run always comes to its end when its waits do. *)
Theorem scenario_verdict scenario events world cancelled total truth :
  explains events truth ->
  ((forall i, (length events < length (turns (world i)))%nat) ->
   is_Some (run_scenario scenario events world cancelled total)) /\
  forall report progress,
  run_scenario scenario events world cancelled total = Some (report, progress) ->
  map report_name (reports report) = map label (steps scenario) /\
  map index (reports report) = seqZ 0 (len (steps scenario)) /\
  omap finished progress = reports report /\
  verdict (map status (reports report)) /\
  (passed report = true <-> map status (reports report) = repeat Passed (length (steps scenario))) /\
  is_Some (after_all (passed_queries (steps scenario) (reports report)) truth).
Proof.
  intros He. unfold run_scenario. split.
  { intros Hw. destruct (run_steps_end (length events) 0 (steps scenario) world false (new_ctx scenario events))
      as [[rs ps] ->]; [done|done|]. by eexists. }
  intros report progress. destruct (run_steps 0 (steps scenario) world false _) as [[rs ps]|] eqn:Hr; [|done].
  cbn [mbind option_bind]. intros [= <- <-]. cbn [reports passed].
  destruct (run_steps_names _ _ _ _ _ _ _ Hr) as (Hn & Hi & Hf). pose proof (run_steps_verdict _ _ _ _ _ _ Hr) as Hv.
  split_and!; [done..| |].
  - assert (Hl : length (map status rs) = length (steps scenario)).
    { rewrite length_map. apply (f_equal length) in Hn. by rewrite !length_map in Hn. }
    rewrite <- Hl, <- (verdict_passed _ Hv). by rewrite all_map.
  - eapply run_steps_found; [|by apply new_ctx_tracks|exact Hr].
    intros step c d m t. apply wanted_calls_asked.
Qed.
End runs.

(** ** A scenario that waits for two CALLs, with a loss between them *)

#[local] Existing Instance u64_json.
#[local] Existing Instance unit_text.
Definition z_eq : NumberEq := Z.eqb.
#[local] Existing Instance z_eq.

Definition sample_frame (call : str) (n : Z) : Event.t :=
  Event.Frame (FrameRecord.mk 0 Direction.Out None None
    (Array [Num (2 : @Number u64_json); String [n]; String call; Object [(lit "n", Num n)]])).
Definition sample_truth : list Event.t :=
  [sample_frame Actions.Heartbeat 1; Event.StateChanged; sample_frame Actions.StatusNotification 2;
   sample_frame Actions.Heartbeat 3; sample_frame Actions.MeterValues 4].
Definition sample_events : list Arrival :=
  [Got (sample_frame Actions.Heartbeat 1); Lagged 1; Got (sample_frame Actions.StatusNotification 2);
   Got (sample_frame Actions.Heartbeat 3); Got (sample_frame Actions.MeterValues 4)].
Definition sample_scenario : t :=
  mk (lit "two CALLs") []
    [mk_step None None (Action.ExpectCall Actions.Heartbeat None None 100);
     mk_step None None Action.Boot;
     mk_step None None (Action.ExpectCall Actions.Heartbeat None (Some (Object [(lit "n", Num (3 : @Number u64_json))])) 100);
     mk_step None None Action.Heartbeat].
Definition sample_world (i : Z) : World :=
  mk_world false false 1 [] WaitTimedOut (repeat (0%nat, Arrived) 6) (Ok Outcome.Done) 0.

Definition lost_events (r : StepReport Failure) : option Z :=
  match status r with Passed => Some 0 | Failed (FellBehind n) => Some n | _ => None end.
Lemma scenario_verdict_witness :
  exists report progress,
    run_scenario sample_scenario sample_events sample_world false 0 = Some (report, progress) /\
    map lost_events (reports report) = [Some 0; Some 0; Some 1; None] /\
    is_Some (after_all (passed_queries (steps sample_scenario) (reports report)) sample_truth).
Proof.
  assert (He : explains sample_events sample_truth).
  { apply explains_got. apply (explains_lagged [Event.StateChanged]). do 3 apply explains_got. constructor. }
  destruct (scenario_verdict sample_scenario sample_events sample_world false 0 sample_truth He) as [H1 H2].
  destruct H1 as [[report progress] Hr]; [intros i; vm_compute; lia|].
  exists report, progress. split; [done|]. split; [|apply (H2 report progress Hr)].
  assert (Hs : (fun r => map lost_events (reports r.1)) <$> run_scenario sample_scenario sample_events sample_world false 0
    = Some [Some 0; Some 0; Some 1; None]) by (vm_compute; reflexivity).
  rewrite Hr in Hs. injection Hs as Hs. exact Hs.
Defined.
End ScenarioRuns.
