(* ===== verification/Junit.v ===== *)
(** * Junit: scenario reports for CI systems

    [scenario/junit.rs]: the counts of a suite and of the document, the text of the elements, and
    the escaping of everything a report quotes. *)

From stdpp Require Import strings.
From S2P Require Import Prelude Text Strings ScenarioRunner.
Local Open Scope Z_scope.

Module Junit.
Import ScenarioRunner.

(** One station's run. *)
Record JunitSuite : Type := mk_suite {
  station : option str;
  scenario_name : str;
  outcome : result (ScenarioReport str) str;
}.

Record Counts : Type := mk_counts {
  tests : Z;
  failures : Z;
  errors : Z;
  skipped : Z;
  millis : Z;
}.
Definition no_counts : Counts := mk_counts 0 0 0 0 0.
(** [Counts::add] *)
Definition add (c other : Counts) : Counts := {|
  tests := tests c + tests other;
  failures := failures c + failures other;
  errors := errors c + errors other;
  skipped := skipped c + skipped other;
  millis := u64_saturating_add (millis c) (millis other);
|}.

Definition quote : char := 34.
Definition newline : char := 10.
(** [name=QvalueQ], Q a double quote *)
Definition attribute (name value : str) : str := name ++ lit "=" ++ [quote] ++ value ++ [quote].

(** [seconds] *)
Definition seconds (millis : Z) : str :=
  to_string (millis / 1000) ++ lit "." ++ Numerals.padded 3 (millis mod 1000).

(** What [escape] writes for one character. *)
Definition escaped_char (c : char) : str :=
  if c =? 38 then lit "&amp;"
  else if c =? 60 then lit "&lt;"
  else if c =? 62 then lit "&gt;"
  else if c =? quote then lit "&quot;"
  else if c =? 39 then lit "&apos;"
  else if c =? newline then lit "&#10;"
  else if c =? 13 then lit "&#13;"
  else if c =? 9 then lit "&#9;"
  else if (c <? 32) || (c =? 65534) || (c =? 65535) then []
  else [c].
Definition escape (text : str) : str := flat_map escaped_char text.

(** [Counts::attributes] *)
Definition attributes (c : Counts) : str :=
  attribute (lit "tests") (to_string (tests c)) ++ lit " "
  ++ attribute (lit "failures") (to_string (failures c)) ++ lit " "
  ++ attribute (lit "errors") (to_string (errors c)) ++ lit " "
  ++ attribute (lit "skipped") (to_string (skipped c)) ++ lit " "
  ++ attribute (lit "time") (seconds (millis c)).

(** A failed step or a failed setup: the reason as an attribute and as content. *)
Definition problem (element kind reason : str) : str :=
  lit "      <" ++ element ++ lit " " ++ attribute (lit "message") reason ++ lit " "
  ++ attribute (lit "type") kind ++ lit ">" ++ reason ++ lit "</" ++ element ++ lit ">" ++ [newline].

Definition open_case (classname name time : str) : str :=
  lit "    <testcase " ++ attribute (lit "classname") classname ++ lit " " ++ attribute (lit "name") name
  ++ lit " " ++ attribute (lit "time") time.
Definition close_case : str := lit "    </testcase>" ++ [newline].

(** The loop body over the steps of a report. *)
Definition render_step (classname : str) (acc : str * Counts) (step : StepReport str) : str * Counts :=
  let '(cases, counts) := acc in
  let counts := mk_counts (tests counts + 1) (failures counts) (errors counts) (skipped counts) (millis counts) in
  let case_name := escape (to_string (index step + 1) ++ lit ". " ++ report_name step) in
  let cases := cases ++ open_case classname case_name (seconds (duration_ms step)) in
  match status step with
  | Passed => (cases ++ lit "/>" ++ [newline], counts)
  | Failed reason =>
      (cases ++ lit ">" ++ [newline] ++ problem (lit "failure") (lit "StepFailed") (escape reason) ++ close_case,
       mk_counts (tests counts) (failures counts + 1) (errors counts) (skipped counts) (millis counts))
  | Skipped =>
      (cases ++ lit ">" ++ [newline] ++ lit "      <skipped/>" ++ [newline] ++ close_case,
       mk_counts (tests counts) (failures counts) (errors counts) (skipped counts + 1) (millis counts))
  end.

Definition render_suite (suite : JunitSuite) : str * Counts :=
  let name := match station suite with
              | Some station => scenario_name suite ++ lit " [" ++ station ++ lit "]"
              | None => scenario_name suite
              end in
  let classname := escape name in
  let '(cases, counts) :=
    match outcome suite with
    | Ok report => fold_left (render_step classname) (reports report) ([], mk_counts 0 0 0 0 (total_ms report))
    | Err error =>
        (open_case classname (lit "setup") (lit "0.000") ++ lit ">" ++ [newline]
         ++ problem (lit "error") (lit "SetupError") (escape error) ++ close_case,
         mk_counts 1 0 1 0 0)
    end in
  (lit "  <testsuite " ++ attribute (lit "name") classname ++ lit " " ++ attributes counts ++ lit ">" ++ [newline]
   ++ cases ++ lit "  </testsuite>" ++ [newline], counts).

(** The suites in order, and their total. *)
Definition render_suites (suites : list JunitSuite) : str * Counts :=
  fold_left (fun acc suite =>
    let '(body, total) := acc in
    let '(xml, counts) := render_suite suite in
    (body ++ xml, add total counts)) suites ([], no_counts).
Definition junit_xml (suites : list JunitSuite) : str :=
  let '(body, total) := render_suites suites in
  lit "<?xml " ++ attribute (lit "version") (lit "1.0") ++ lit " " ++ attribute (lit "encoding") (lit "UTF-8")
  ++ lit "?>" ++ [newline] ++ lit "<testsuites " ++ attributes total ++ lit ">" ++ [newline]
  ++ body ++ lit "</testsuites>" ++ [newline].

(** ** A reader of escaped text *)

(** The entities of XML 1.0 and the three character references a report uses. *)
Definition entity (name : str) : option char :=
  snd <$> find_first (fun '(n, _) => n == name)
    [(lit "amp", 38); (lit "lt", 60); (lit "gt", 62); (lit "quot", quote); (lit "apos", 39);
     (lit "#10", newline); (lit "#13", 13); (lit "#9", 9)].
(** Characters that end a text or an attribute, or that a parser normalises away. *)
Definition markup (c : char) : bool :=
  (c =? 60) || (c =? 62) || (c =? quote) || (c =? 39) || (c <? 32) || (c =? 65534) || (c =? 65535).
(** [open] is the part of a reference read so far. *)
Fixpoint unescape (reference : option str) (text : str) : option str :=
  match reference, text with
  | None, [] => Some []
  | Some _, [] => None
  | None, c :: text =>
      if c =? 38 then unescape (Some []) text
      else if markup c then None else cons c <$> unescape None text
  | Some name, c :: text =>
      if c =? 59 then x ← entity name; cons x <$> unescape None text
      else unescape (Some (name ++ [c])) text
  end.

(** The characters XML 1.0 can carry. *)
Definition carried (c : char) : bool :=
  (32 <=? c) && negb (c =? 65534) && negb (c =? 65535) || (c =? newline) || (c =? 13) || (c =? 9).

Lemma unescape_char c rest :
  unescape None (escaped_char c ++ rest) =
    if carried c then cons c <$> unescape None rest else unescape None rest.
Proof.
  unfold escaped_char.
  repeat match goal with |- context [if c =? ?k then _ else _] => destruct (Z.eqb_spec c k) as [->|]; [reflexivity|] end.
  destruct (Z.ltb_spec c 32) as [Hc|Hc]; cbn [orb].
  - assert (carried c = false) as ->; [|done]. unfold carried, newline, quote in *.
    rewrite (proj2 (Z.leb_gt _ _)) by lia. cbn [andb orb]. by rewrite !(proj2 (Z.eqb_neq _ _)) by lia.
  - destruct (Z.eqb_spec c 65534) as [->|]; [reflexivity|]. destruct (Z.eqb_spec c 65535) as [->|]; [reflexivity|].
    assert (carried c = true) as ->.
    { unfold carried. rewrite (proj2 (Z.leb_le _ _)) by lia. by rewrite !(proj2 (Z.eqb_neq _ _)) by lia. }
    cbn [orb app unescape]. rewrite (proj2 (Z.eqb_neq c 38)) by done. unfold markup, quote.
    rewrite (proj2 (Z.ltb_ge c 32)) by lia. unfold quote in *. by rewrite !(proj2 (Z.eqb_neq _ _)) by lia.
Qed.

(** What a report quotes, whatever it contains, ends no attribute and opens no element:
    the escaped text has no raw markup, quote or line break, and a reader that resolves its
    references gets the text back, less the characters XML cannot carry. *)
Theorem escape_roundtrip text : unescape None (escape text) = Some (retain carried text).
Proof.
  induction text as [|c text IH]; [done|]. unfold escape in *. cbn [flat_map]. rewrite unescape_char, IH.
  unfold retain. cbn [List.filter]. by destruct (carried c).
Qed.

(** ** The counts *)

Definition count_status (p : StepStatus str -> bool) (report : ScenarioReport str) : Z :=
  len (retain (fun step => p (status step)) (reports report)).
Definition is_failed (s : StepStatus str) : bool := match s with Failed _ => true | _ => false end.
Definition is_skipped (s : StepStatus str) : bool := match s with Skipped => true | _ => false end.
(** The counts of a suite, from its outcome. *)
Definition counts_of (suite : JunitSuite) : Counts :=
  match outcome suite with
  | Ok report => mk_counts (len (reports report)) (count_status is_failed report) 0 (count_status is_skipped report)
                   (total_ms report)
  | Err _ => mk_counts 1 0 1 0 0
  end.
Lemma render_suite_counts suite : (render_suite suite).2 = counts_of suite.
Proof.
  unfold render_suite, counts_of. cbn zeta.
  match goal with |- context [render_step ?n] => generalize n end. intros classname. destruct (outcome suite) as [report|error]; [|done].
  unfold count_status. generalize (total_ms report) as ms. intros ms.
  assert (H : forall cases counts, (fold_left (render_step classname) (reports report) (cases, counts)).2 =
    mk_counts (tests counts + len (reports report))
      (failures counts + len (retain (fun step => is_failed (status step)) (reports report))) (errors counts)
      (skipped counts + len (retain (fun step => is_skipped (status step)) (reports report))) (millis counts)).
  { induction (reports report) as [|step steps IH]; intros cases counts.
    - destruct counts. unfold len, retain. cbn [fold_left snd tests failures errors skipped millis List.filter length].
      f_equal; lia.
    - cbn [fold_left render_step]. unfold len, retain in *.
      destruct (status step); rewrite IH;
        cbn [tests failures errors skipped millis List.filter length is_failed is_skipped]; f_equal; lia. }
  specialize (H [] (mk_counts 0 0 0 0 ms)). by destruct (fold_left _ _ _) as [cases counts].
Qed.
(** The document counts what the reports say: the root element's numbers are the sums. *)
Lemma junit_total suites :
  (render_suites suites).2 = fold_left add (map counts_of suites) no_counts.
Proof.
  unfold render_suites. generalize no_counts as total. generalize ([] : str) as body.
  induction suites as [|suite suites IH]; intros body total; [done|]. cbn [fold_left map].
  rewrite <- render_suite_counts. destruct (render_suite suite) as [xml counts]. apply IH.
Qed.
End Junit.
