(* ===== verification/Script.v ===== *)
(** * Script: scripted runs against the CSMS

    [kirby-csms/src/script.rs]: the steps of a script with their validation, the backlog of
    inbound CALLs a concurrent task collects from the events of the CSMS, and the runner that
    executes the steps up to the first failure. The steps act on the registry of [CsmsServer.v],
    which changes under them. What the outside does is given per step ([World]): how many events
    the collecting task has taken in at a time, what the server has become, how a CALL ends, and
    whether the deadline of the script cuts a wait. The texts of failed steps are not modelled; a
    failure is a value with the data its text shows. *)

From stdpp Require Import strings gmap.
From S2P Require Import Prelude Text Utf8 Time Types Messages Frame Schema CsmsState CsmsConfig CsmsServer.
From S2P Require Import Scenario ScenarioRunner.
Local Open Scope Z_scope.

Module Script.
Import CsmsConfig CsmsServer.

(** Longest accepted wait or sleep; the CALLs remembered for [wait_call] and their bytes. *)
Definition MAX_WAIT_MS : Z := 86400000.
Definition SEEN_CAP : Z := 10000.
Definition SEEN_BYTES : Z := 16 * 1024 * 1024.
Definition default_timeout_ms : Z := 5000.
Definition default_wait_station_ms : Z := 30000.
Definition default_times : Z := 1.
Definition default_payload {J : SerdeJson} : json := Object [].

Module FaultKind.
Inductive t : Type := CallError | Silence | Close | InvalidPayload.
#[export] Instance eq_dec : EqDecision t.
Proof. solve_decision. Defined.
(** [{kind:?}] *)
Definition debug (k : t) : str :=
  match k with
  | CallError => lit "CallError" | Silence => lit "Silence" | Close => lit "Close"
  | InvalidPayload => lit "InvalidPayload"
  end.
End FaultKind.
Export (hints) FaultKind.

Module Action.
Section action.
Context {J : SerdeJson}.
Inductive t : Type :=
| WaitStation (station : option str) (count : option Z) (booted : bool) (timeout_ms : Z)
| WaitCall (station : option str) (call : str) (payload_contains : option json) (timeout_ms : Z)
| Call (station call : str) (payload : json) (expect_status : option str) (expect_error : bool) (timeout_ms : Z)
| Sleep (ms : Z)
| Respond (call : str) (payload : json)
| ClearRespond (call : str)
| InjectFault (call : str) (kind : FaultKind.t) (payload : option json) (times : Z).
End action.
End Action.

Section script.
Context {J : SerdeJson}.

Record Step : Type := mk_step { step_name : option str; action : Action.t }.
Record t : Type := mk { name : str; steps : list Step }.

(** ** Reading a script *)

Definition check_wait (ms : Z) : result unit str :=
  if ms =? 0 then Err (lit "`timeout_ms` must be positive")
  else if MAX_WAIT_MS <? ms then Err (lit "`timeout_ms` must be at most 86400000 (one day)")
  else Ok tt.

Definition validate (a : Action.t) : result unit str :=
  match a with
  | Action.WaitStation station count _ timeout_ms =>
      let! _ := check_wait timeout_ms in
      if count == Some 0 then Err (lit "`count` must be 1 or more")
      else if station == Some [] then Err (lit "`station` must not be empty")
      else Ok tt
  | Action.WaitCall _ call _ timeout_ms =>
      let! _ := check_wait timeout_ms in
      if call == [] then Err (lit "`call` must not be empty") else Ok tt
  | Action.Call station call _ expect_status expect_error timeout_ms =>
      let! _ := check_wait timeout_ms in
      if (station == []) || (call == []) then Err (lit "`station` and `call` must not be empty")
      else if expect_error && is_someb expect_status
      then Err (lit "`expect_status` and `expect_error` exclude each other")
      else Ok tt
  | Action.Sleep ms =>
      if MAX_WAIT_MS <? ms then Err (lit "`ms` must be at most 86400000 (one day)") else Ok tt
  | Action.Respond call _ | Action.ClearRespond call =>
      if call == [] then Err (lit "`call` must not be empty") else Ok tt
  | Action.InjectFault call kind payload times =>
      if call == [] then Err (lit "`call` must not be empty")
      else if times =? 0 then Err (lit "`times` must be 1 or more")
      else if (kind == FaultKind.InvalidPayload) && negb (is_someb payload)
      then Err (lit "kind `invalid_payload` needs a `payload`")
      else Ok tt
  end.

(** The derived decoder of the TOML tables. *)
Class ScriptWire : Type := action_try_into : Scenario.Table -> result Action.t str.
Context {S : ScriptWire}.

Definition parse_step (table : Scenario.Table) : result Step str :=
  let named := Scenario.table_get (lit "name") table in
  let table := Scenario.table_remove (lit "name") table in
  let! name := match named with
    | None => Ok None
    | Some (Scenario.TomlString s) => Ok (Some s)
    | Some _ => Err (lit "`name` must be a string")
    end in
  let! tag := match Scenario.table_get (lit "action") table with
    | None => Err (lit "missing field `action`")
    | Some (Scenario.TomlString s) => Ok s
    | Some _ => Err (lit "`action` must be a string")
    end in
  let! action := match action_try_into table with
    | Ok action => Ok action
    | Err e => Err (lit "action `" ++ tag ++ lit "`: " ++ e)
    end in
  let! _ := validate action in
  Ok (mk_step name action).

Fixpoint parse_steps (i : Z) (tables : list Scenario.Table) : result (list Step) str :=
  match tables with
  | [] => Ok []
  | table :: tables =>
      match parse_step table with
      | Err e => Err (lit "invalid script: step " ++ to_string (i + 1) ++ lit ": " ++ e)
      | Ok step => let! steps := parse_steps (i + 1) tables in Ok (step :: steps)
      end
  end.

Record RawScript : Type := mk_raw { raw_name : str; raw_steps : list Scenario.Table }.
(** [Script::from_toml], from what the TOML parser makes of the text. *)
Definition from_raw (parsed : result RawScript str) : result t str :=
  let! raw := match parsed with Ok raw => Ok raw | Err e => Err (lit "invalid script: " ++ e) end in
  if trim (raw_name raw) == [] then Err (lit "invalid script: `name` must not be empty")
  else match raw_steps raw with
  | [] => Err (lit "invalid script: a script needs at least one `[[steps]]`")
  | tables => let! steps := parse_steps 0 tables in Ok (mk (raw_name raw) steps)
  end.

(** The display name of a step. *)
Definition title (s : Step) : str :=
  match step_name s with
  | Some name => name
  | None =>
      match action s with
      | Action.WaitStation (Some station) (Some count) _ _ =>
          lit "wait_station " ++ station ++ lit " (>= " ++ to_string count ++ lit ")"
      | Action.WaitStation (Some station) None _ _ => lit "wait_station " ++ station
      | Action.WaitStation None count _ _ => lit "wait_station (>= " ++ to_string (default 1 count) ++ lit ")"
      | Action.WaitCall (Some station) call _ _ => lit "wait_call " ++ station ++ lit " " ++ call
      | Action.WaitCall None call _ _ => lit "wait_call " ++ call
      | Action.Call station call _ _ _ _ => lit "call " ++ station ++ lit " " ++ call
      | Action.Sleep ms => lit "sleep " ++ to_string ms ++ lit " ms"
      | Action.Respond call _ => lit "respond " ++ call
      | Action.ClearRespond call => lit "clear_respond " ++ call
      | Action.InjectFault call kind _ _ => lit "inject_fault " ++ call ++ lit " " ++ FaultKind.debug kind
      end
  end.
End script.

(** ** The backlog of inbound CALLs *)

(** An inbound CALL seen by the pump: the payload is [Null] unless some step looks at it. *)
Module Seen.
Section seen.
Context {J : SerdeJson}.
Record t : Type := mk {
  station : str;
  action : str;
  payload : json;
  consumed : bool;
  bytes : Z;
}.
#[export] Instance eta : Eta t := fun s => mk (station s) (action s) (payload s) (consumed s) (bytes s).
End seen.
End Seen.
Export (hints) Seen.

(** [Backlog] with its [SeenStore]; [wake] is the permit of the [Notify]. *)
Module Backlog.
Section backlog.
Context {J : SerdeJson}.
Record t : Type := mk {
  calls : list Seen.t;
  bytes : Z;
  wanted : gmap str bool;
  max_bytes : Z;
  lagged : bool;
  closed : bool;
  wake : bool;
}.
#[export] Instance eta : Eta t := fun b => mk (calls b) (bytes b) (wanted b) (max_bytes b) (lagged b) (closed b) (wake b).
End backlog.
End Backlog.
Export (hints) Backlog.

(** Why a step failed. *)
Inductive Failure {J : SerdeJson} : Type :=
| StationAbsent (station : str) (timeout_ms connected : Z)
| TooFewStations (need timeout_ms connected : Z)
| NoMatchingCall (call : str) (timeout_ms : Z) (lost : bool)
| StillQueued (call : str) (timeout_ms : Z)
| UnexpectedResult (call : str)
| WrongStatus (call expected : str) (payload : json)
| UnexpectedCallError (call : str) (code : ErrorCode.t) (description : str)
| UnexpectedCall (call : str)
| CallFailed (error : CsmsError.t)
| TimeoutReached.

(** What the runner works on: the backlog, the unread events of the subscription, and the
    server behind the handle. *)
Module Run.
Section run.
Context {J : SerdeJson}.
Record t : Type := mk {
  backlog : Backlog.t;
  events : list (Received.t CsmsEvent.t);
  server : Server.t;
}.
#[export] Instance eta : Eta t := fun x => mk (backlog x) (events x) (server x).
End run.
End Run.
Export (hints) Run.

Section runner.
Context {J : SerdeJson} {T : JsonText} {N : ScenarioRunner.NumberEq}.
Implicit Types (b : Backlog.t) (x : Run.t).

Definition json_subset (expected actual : json) : bool := ScenarioRunner.json_subset expected actual.

Definition want (wanted : gmap str bool) (step : Step) : gmap str bool :=
  match action step with
  | Action.WaitCall _ call payload_contains _ =>
      <[call := default false (wanted !! call) || is_someb payload_contains]> wanted
  | _ => wanted
  end.
Definition with_wanted (wanted : gmap str bool) (max_bytes : Z) : Backlog.t :=
  Backlog.mk [] 0 wanted max_bytes false false false.
Definition new_backlog (script : t) : Backlog.t :=
  with_wanted (fold_left want (steps script) ∅) SEEN_BYTES.

(** The entry of an event, if it is a CALL some step waits for. *)
Definition entry (wanted : gmap str bool) (event : CsmsEvent.t) : option Seen.t :=
  match event with
  | CsmsEvent.Frame station In (Frame.Frame.Call _ action payload) =>
      (fun needs_payload : bool =>
         let payload := if needs_payload then payload else Null in
         Seen.mk station action payload false
           (byte_len station + byte_len action + 64
            + if needs_payload then byte_len (json_to_string payload) else 0)) <$> wanted !! action
  | _ => None
  end.
Definition too_many b : bool :=
  (1 <? length (Backlog.calls b))%nat
  && ((SEEN_CAP <? len (Backlog.calls b)) || (Backlog.max_bytes b <? Backlog.bytes b)).
Fixpoint make_room (fuel : nat) b : Backlog.t :=
  match fuel with
  | O => b
  | S fuel =>
      if too_many b
      then
        match Backlog.calls b with
        | old :: rest =>
            make_room fuel (b <| Backlog.calls := rest |>
                              <| Backlog.bytes ::= fun n => saturating_sub n (Seen.bytes old) |>)
        | [] => b
        end
      else b
  end.
(** [Backlog::record] *)
Definition record (event : CsmsEvent.t) b : Backlog.t :=
  match entry (Backlog.wanted b) event with
  | None => b
  | Some seen =>
      let b := b <| Backlog.bytes ::= Z.add (Seen.bytes seen) |>
                 <| Backlog.calls ::= fun l => l ++ [seen] |> in
      make_room (length (Backlog.calls b)) b
  end.

(** Whether a CALL fits, and [Backlog::take_call]: consumes the oldest unconsumed CALL that fits. *)
Definition fits (station : option str) (call : str) (contains : option json) (seen : Seen.t) : bool :=
  negb (Seen.consumed seen) && (Seen.action seen == call)
  && is_none_or (fun id => Seen.station seen == id) station
  && is_none_or (fun expected => json_subset expected (Seen.payload seen)) contains.
Definition take_call (station : option str) (call : str) (contains : option json) b : option Backlog.t :=
  if any (fits station call contains) (Backlog.calls b)
  then Some (b <| Backlog.calls ::= update_first (fits station call contains)
                                      (fun seen => seen <| Seen.consumed := true |>) |>)
  else None.

(** One round of the pump, and [n] of them: it ends with the channel. *)
Definition receive (received : Received.t CsmsEvent.t) b : Backlog.t :=
  match received with
  | Received.Got event => record event b
  | Received.Lagged _ => b <| Backlog.lagged := true |>
  | Received.Closed => b <| Backlog.closed := true |>
  end <| Backlog.wake := true |>.
Fixpoint pump (n : nat) x : Run.t :=
  match n, Run.events x with
  | S n, received :: events =>
      if Backlog.closed (Run.backlog x) then x
      else pump n (x <| Run.backlog ::= receive received |> <| Run.events := events |>)
  | _, _ => x
  end.

(** ** Waiting *)

(** Connected stations; with [booted] those whose BootNotification was tracked. *)
Definition is_ready (server : Server.t) (id : str) (booted : bool) : bool :=
  negb booted
  || is_some_and (fun record => is_someb (CsmsState.StationState.boot (StationRec.state record))) (get server id).
Definition connected (server : Server.t) (booted : bool) : Z :=
  len (retain (fun info => StationInfo.connected info && is_ready server (StationInfo.id info) booted)
         (map (fun p => StationRec.info p.2) (btree_iter (Server.stations server)))).
Definition stations_ready (server : Server.t) (station : option str) (count : option Z) (booted : bool) : bool :=
  let named_ok := is_none_or (fun id =>
    is_some_and (fun record => StationInfo.connected (StationRec.info record) && is_ready server id booted)
      (get server id)) station in
  let count_ok := match station, count with
                  | Some _, None => true
                  | _, count => default 1 count <=? connected server booted
                  end in
  named_ok && count_ok.

(** How a wait without a new event ends: at its own end, or at the deadline of the script. *)
Inductive WaitEnd : Type := EndPassed | DeadlinePassed.
(** One round of a waiting step: what happens before its check, between the check and the look at
    the end of the stream, and while it sleeps. *)
Record Turn : Type := mk_turn {
  before : nat * (Server.t -> Server.t);
  between : nat;
  during : nat * (Server.t -> Server.t);
  wait_end : WaitEnd;
}.
Definition pass (n : nat * (Server.t -> Server.t)) x : Run.t := pump n.1 (x <| Run.server ::= n.2 |>).

(** Waits until the pump saw another event. *)
Definition next_event (t : Turn) x : Run.t * option WaitEnd :=
  let x := pump (between t) x in
  if Backlog.closed (Run.backlog x) then (x, Some EndPassed)
  else
    let x := pass (during t) x in
    if Backlog.wake (Run.backlog x) then (x <| Run.backlog ::= fun b => b <| Backlog.wake := false |> |>, None)
    else (x, Some (wait_end t)).

(** The loop of [wait_station] and of [wait_call]; nothing when the turns run out. *)
Fixpoint wait_until (poll : Run.t -> option Run.t) (failure : Run.t -> Failure) (turns : list Turn) x
  : Run.t * option (result unit Failure) :=
  match turns with
  | [] => (x, None)
  | t :: turns =>
      let x := pass (before t) x in
      match poll x with
      | Some x => (x, Some (Ok tt))
      | None =>
          match next_event t x with
          | (x, None) => wait_until poll failure turns x
          | (x, Some EndPassed) => (x, Some (Err (failure x)))
          | (x, Some DeadlinePassed) => (x, Some (Err TimeoutReached))
          end
      end
  end.

(** ** The steps *)

Definition check_answer (answer : result Frame.Frame.t CsmsError.t) (call : str) (expect_status : option str)
    (expect_error : bool) : result unit Failure :=
  match answer with
  | Ok (Frame.Frame.CallResult _ payload) =>
      if expect_error then Err (UnexpectedResult call)
      else
        match expect_status with
        | None => Ok tt
        | Some expected =>
            if (match payload with Object fields => field (lit "status") fields ≫= as_str | _ => None end) == Some expected
            then Ok tt
            else Err (WrongStatus call expected payload)
        end
  | Ok (Frame.Frame.CallError _ code description _) =>
      if expect_error then Ok tt else Err (UnexpectedCallError call code description)
  | Ok (Frame.Frame.Call _ _ _) => Err (UnexpectedCall call)
  | Err error => Err (CallFailed error)
  end.

(** How a CALL of the script ends: with an answer, still in the queue, or at the deadline. *)
Inductive CallEnd : Type :=
| Answered (answer : result Frame.Frame.t CsmsError.t)
| Queued
| CallDeadline.
(** What happens during a step. *)
Record World : Type := mk_world {
  meanwhile : nat * (Server.t -> Server.t);
  turns : list Turn;
  call_end : CallEnd;
  sleep_cut : bool;
  elapsed : Z;
}.

Definition fault_of (call : str) (kind : FaultKind.t) (payload : option json) : Fault :=
  match kind with
  | FaultKind.CallError => call_error call
  | FaultKind.Silence => silence call
  | FaultKind.Close => close call
  | FaultKind.InvalidPayload => invalid_payload call (default Null payload)
  end.

(** [Runner::execute] under the deadline *)
Definition execute (a : Action.t) (w : World) x : Run.t * option (result unit Failure) :=
  let x := pass (meanwhile w) x in
  match a with
  | Action.WaitStation station count booted timeout_ms =>
      wait_until (fun x => if stations_ready (Run.server x) station count booted then Some x else None)
        (fun x => match station with
                  | Some station => StationAbsent station timeout_ms (connected (Run.server x) booted)
                  | None => TooFewStations (default 1 count) timeout_ms (connected (Run.server x) booted)
                  end) (turns w) x
  | Action.WaitCall station call payload_contains timeout_ms =>
      wait_until (fun x => (fun b => x <| Run.backlog := b |>) <$> take_call station call payload_contains (Run.backlog x))
        (fun x => NoMatchingCall call timeout_ms (Backlog.lagged (Run.backlog x))) (turns w) x
  | Action.Call station call payload expect_status expect_error timeout_ms =>
      (x, Some (match call_end w with
                | Answered answer => check_answer answer call expect_status expect_error
                | Queued => Err (StillQueued call timeout_ms)
                | CallDeadline => Err TimeoutReached
                end))
  | Action.Sleep ms => (x, Some (if sleep_cut w then Err TimeoutReached else Ok tt))
  | Action.Respond call payload =>
      (x <| Run.server ::= fun s => respond s call (fun _ => ReplyResult payload) |>, Some (Ok tt))
  | Action.ClearRespond call => (x <| Run.server ::= fun s => clear_responder s call |>, Some (Ok tt))
  | Action.InjectFault call kind payload times_ =>
      (x <| Run.server ::= fun s => inject s (times (fault_of call kind payload) times_) |>, Some (Ok tt))
  end.

(** The loop of [run]. *)
Fixpoint run_steps (index : Z) (steps : list Step) (world : Z -> World) (failed : bool) x
  : option (list (ScenarioRunner.StepReport Failure) * bool * Run.t) :=
  match steps with
  | [] => Some ([], failed, x)
  | step :: steps =>
      '(x, status) ← (if failed then Some (x, ScenarioRunner.Skipped)
                      else match execute (action step) (world index) x with
                           | (x, Some (Ok _)) => Some (x, ScenarioRunner.Passed)
                           | (x, Some (Err reason)) => Some (x, ScenarioRunner.Failed reason)
                           | (_, None) => None
                           end);
      let failed := failed || match status with ScenarioRunner.Failed _ => true | _ => false end in
      let report := ScenarioRunner.mk_report index (title step) status (ScenarioRunner.millis (elapsed (world index))) in
      '(reports, failed, x) ← run_steps (index + 1) steps world failed x;
      Some (report :: reports, failed, x)
  end.
Definition run (script : t) (events : list (Received.t CsmsEvent.t)) (server : Server.t) (world : Z -> World) (total : Z)
  : option (ScenarioRunner.ScenarioReport Failure * Run.t) :=
  '(reports, failed, x) ← run_steps 0 (steps script) world false (Run.mk (new_backlog script) events server);
  Some (ScenarioRunner.mk_scenario_report (name script) (negb failed) false reports (ScenarioRunner.millis total), x).
End runner.
End Script.
