(* ===== verification/ScriptRuns.v ===== *)
(** * ScriptRuns: what a passed [wait_call] of a script means

    The backlog keeps an entry per inbound CALL some step waits for, without the payloads nobody
    looks at, and forgets the oldest ones. The specification speaks of the events of the CSMS
    themselves: every passed [wait_call] has a CALL of its own among them that fits it. *)

From stdpp Require Import strings gmap.
From S2P Require Import Prelude Text Utf8 Time Types Messages Frame Schema CsmsState CsmsConfig CsmsServer.
From S2P Require Import Scenario ScenarioRunner ScenarioRuns Script.
Local Open Scope Z_scope.

Module ScriptRuns.
Import (hints) Script.
Import CsmsConfig CsmsServer Script.

Section runs.
Context {J : SerdeJson} {T : JsonText} {N : ScenarioRunner.NumberEq}.
Implicit Types (b : Backlog.t) (x : Run.t) (h events : list (Received.t CsmsEvent.t)).

(** ** The specification *)

(** An event is a CALL that a [wait_call] step waits for. *)
Definition fulfils (a : Action.t) (received : Received.t CsmsEvent.t) : Prop :=
  match a, received with
  | Action.WaitCall station call payload_contains _, Received.Got (CsmsEvent.Frame id In (Frame.Frame.Call _ action payload)) =>
      action = call /\ (forall s, station = Some s -> id = s) /\
      (forall expected, payload_contains = Some expected -> json_subset expected payload = true)
  | _, _ => False
  end.
Definition is_wait (a : Action.t) : bool := match a with Action.WaitCall _ _ _ _ => true | _ => false end.
Definition outcomes (steps : list Step) (reports : list (ScenarioRunner.StepReport Failure))
  : list (Action.t * ScenarioRunner.StepStatus Failure) :=
  zip (map action steps) (map ScenarioRunner.status reports).
(** The [wait_call] steps that have passed. *)
Definition passed_waits (l : list (Action.t * ScenarioRunner.StepStatus Failure)) : list Action.t :=
  map fst (retain (fun p => is_wait p.1 && ScenarioRunner.is_passed p.2) l).

(** ** The entries of the events so far *)

Definition seen_of (wanted : gmap str bool) (received : Received.t CsmsEvent.t) : option Seen.t :=
  match received with Received.Got event => entry wanted event | _ => None end.
(** With the position of their event. *)
Fixpoint entries (wanted : gmap str bool) (i : nat) h : list (nat * Seen.t) :=
  match h with
  | [] => []
  | received :: h =>
      match seen_of wanted received with Some seen => [(i, seen)] | None => [] end ++ entries wanted (S i) h
  end.
Definition marked (used : list nat) (p : nat * Seen.t) : Seen.t :=
  p.2 <| Seen.consumed := bool_decide (p.1 ∈ used) |>.
(** The backlog holds the youngest entries; [used] are the positions of the consumed CALLs. *)
Definition holds b h (used : list nat) : Prop :=
  exists k, (k <= length (entries (Backlog.wanted b) 0 h))%nat /\
    Backlog.calls b = map (marked used) (drop k (entries (Backlog.wanted b) 0 h)).

Lemma entries_app wanted i h1 h2 :
  entries wanted i (h1 ++ h2) = entries wanted i h1 ++ entries wanted (i + length h1)%nat h2.
Proof.
  revert i. induction h1 as [|r h1 IH]; intros i; cbn [app entries length]; [f_equal; lia|].
  rewrite IH, <- app_assoc. do 3 f_equal. lia.
Qed.
Lemma entries_bounds wanted i h p :
  List.In p (entries wanted i h) -> exists r, (i <= p.1)%nat /\ h !! (p.1 - i)%nat = Some r /\ seen_of wanted r = Some p.2.
Proof.
  revert i. induction h as [|r h IH]; intros i; [done|]. cbn [entries]. rewrite in_app_iff. intros [Hp|Hp].
  - destruct (seen_of wanted r) eqn:Hr; [|done]. destruct Hp as [<-|[]]. exists r. simpl.
    split_and!; [lia| |done]. by replace (i - i)%nat with 0%nat by lia.
  - destruct (IH _ Hp) as (r' & Hle & Hl & Hs). exists r'. split_and!; [lia| |done].
    replace (p.1 - i)%nat with (S (p.1 - S i))%nat by lia. done.
Qed.
Lemma entries_In wanted h j r seen :
  h !! j = Some r -> seen_of wanted r = Some seen -> List.In (j, seen) (entries wanted 0 h).
Proof.
  intros Hj Hs. rewrite <- (take_drop_middle h j r Hj), entries_app, in_app_iff. right. cbn [entries].
  rewrite Hs. left. f_equal. rewrite length_take. apply lookup_lt_Some in Hj. lia.
Qed.
Lemma entries_NoDup wanted i h : NoDup (map fst (entries wanted i h)).
Proof.
  revert i. induction h as [|r h IH]; intros i; [constructor|]. cbn [entries]. rewrite map_app.
  destruct (seen_of wanted r); [|apply IH]. cbn [map app]. constructor; [|apply IH].
  intros Hin%list_elem_of_In%in_map_iff. destruct Hin as (p & Hi & Hp). apply entries_bounds in Hp as (? & ? & _).
  simpl in Hi. lia.
Qed.

(** ** The pump *)

(** What the pump leaves alone. *)
Definition same_fields b b' : Prop :=
  Backlog.wanted b' = Backlog.wanted b /\ Backlog.lagged b' = Backlog.lagged b /\ Backlog.closed b' = Backlog.closed b.
Lemma make_room_holds fuel b h used : holds b h used -> holds (make_room fuel b) h used /\ same_fields b (make_room fuel b).
Proof.
  revert b. induction fuel as [|fuel IH]; intros b Hb; [done|]. cbn [make_room].
  destruct (too_many b); [|done]. destruct (Backlog.calls b) as [|old rest] eqn:Hc; [done|].
  assert (Hn : holds (b <| Backlog.calls := rest |> <| Backlog.bytes ::= fun n => saturating_sub n (Seen.bytes old) |>) h used);
    [|exact (IH _ Hn)].
  destruct Hb as (k & Hk & Hm). rewrite Hc in Hm. exists (S k). simpl.
  destruct (drop k _) as [|p l] eqn:Hd; [done|].
  assert (Hlt : (k < length (entries (Backlog.wanted b) 0 h))%nat).
  { apply (f_equal length) in Hd. rewrite length_drop in Hd. simpl in Hd. lia. }
  split; [lia|]. apply lookup_lt_is_Some_2 in Hlt as [q Hq]. rewrite (drop_S _ _ _ Hq) in Hd.
  simplify_eq. by injection Hm.
Qed.
Lemma entry_fresh wanted event seen : entry wanted event = Some seen -> Seen.consumed seen = false.
Proof.
  unfold entry. destruct event as [| |station [] [uid call payload| |]| | | |]; try done.
  destruct (wanted !! call); [|done]. by intros [= <-].
Qed.
Lemma record_holds event b h used :
  Forall (fun j => j < length h)%nat used -> holds b h used ->
  holds (record event b) (h ++ [Received.Got event]) used /\ same_fields b (record event b).
Proof.
  intros Hu (k & Hk & Hm). unfold record. destruct (entry (Backlog.wanted b) event) as [seen|] eqn:He.
  - match goal with |- context [make_room ?n ?b] => apply (make_room_holds n b) end.
    exists k. cbn. rewrite entries_app, length_app. cbn [entries seen_of]. rewrite He. cbn [app length].
    split; [lia|]. rewrite skipn_app, map_app, Hm. replace (k - _)%nat with 0%nat by lia. cbn [drop map].
    do 2 f_equal. unfold marked. cbn [fst snd].
    rewrite bool_decide_eq_false_2; [by destruct seen; apply entry_fresh in He; simpl in *; subst|].
    intros Hin%list_elem_of_In. rewrite List.Forall_forall in Hu. specialize (Hu _ Hin). lia.
  - split; [|done]. exists k. rewrite entries_app. cbn [entries seen_of]. by rewrite He, !app_nil_r.
Qed.
Lemma holds_quiet received b h used :
  seen_of (Backlog.wanted b) received = None -> holds b h used -> holds b (h ++ [received]) used.
Proof. intros Hr (k & Hk & Hm). exists k. rewrite entries_app. cbn [entries]. by rewrite Hr, !app_nil_r. Qed.
Lemma receive_holds received b h used :
  Forall (fun j => j < length h)%nat used -> holds b h used ->
  holds (receive received b) (h ++ [received]) used /\ Backlog.wanted (receive received b) = Backlog.wanted b.
Proof.
  intros Hu Hb. destruct received as [event|missed|]; cbn [receive].
  - destruct (record_holds event b h used Hu Hb) as [Hr (Hw & _ & _)]. by split.
  - split; [|done]. by apply (holds_quiet (Received.Lagged missed)) in Hb.
  - split; [|done]. by apply (holds_quiet Received.Closed) in Hb.
Qed.

(** The memory of the backlog. *)
Definition bounded b : Prop :=
  len (Backlog.calls b) <= SEEN_CAP /\
  (Backlog.bytes b <= Backlog.max_bytes b \/ (length (Backlog.calls b) <= 1)%nat).
Lemma make_room_bounded fuel b : (length (Backlog.calls b) <= fuel)%nat -> bounded (make_room fuel b).
Proof.
  revert b. induction fuel as [|fuel IH]; intros b Hl; cbn [make_room].
  - split; [unfold len, SEEN_CAP; lia|right; lia].
  - destruct (too_many b) eqn:Ht.
    + destruct (Backlog.calls b) as [|old rest] eqn:Hc; [unfold too_many in Ht; by rewrite Hc in Ht|].
      apply IH. simpl in *. lia.
    + unfold too_many in Ht. apply andb_false_iff in Ht as [H%Nat.ltb_ge|H].
      * split; [unfold len, SEEN_CAP; lia|by right].
      * apply orb_false_iff in H as [H1%Z.ltb_ge H2%Z.ltb_ge]. split; [done|by left].
Qed.
Lemma receive_bounded received b : bounded b -> bounded (receive received b).
Proof.
  destruct received as [event| |]; [|done..]. intros Hb. cbn [receive].
  assert (H : bounded (record event b)); [|exact H]. unfold record.
  destruct (entry (Backlog.wanted b) event); [|done]. by apply make_room_bounded.
Qed.

(** The state of a run after the events [h] of [events]. *)
Definition tracks (wanted : gmap str bool) events used x : Prop :=
  exists h, events = h ++ Run.events x /\ Backlog.wanted (Run.backlog x) = wanted /\
    Forall (fun j => j < length h)%nat used /\ holds (Run.backlog x) h used /\ bounded (Run.backlog x).
Lemma pump_follows n wanted events used x : tracks wanted events used x -> tracks wanted events used (pump n x).
Proof.
  revert x. induction n as [|n IH]; intros x Hx; [done|]. cbn [pump].
  destruct (Run.events x) as [|received rest] eqn:He; [done|]. destruct (Backlog.closed (Run.backlog x)); [done|].
  apply IH. destruct Hx as (h & Hh & Hw & Hu & Hb & Hbd). exists (h ++ [received]).
  destruct (receive_holds received _ h used Hu Hb) as [Hr Hrw]. split_and!; [|exact (eq_trans Hrw Hw)| |exact Hr|by apply receive_bounded].
  - rewrite Hh, He. cbn [Run.events]. by rewrite <- app_assoc.
  - eapply List.Forall_impl; [|exact Hu]. intros j Hj. cbn beta in *. rewrite length_app. lia.
Qed.
Lemma pass_tracks p wanted events used x : tracks wanted events used x -> tracks wanted events used (pass p x).
Proof. intros Hx. apply pump_follows. destruct Hx as (h & Hx). by exists h. Qed.
Lemma next_event_tracks t wanted events used x :
  tracks wanted events used x -> tracks wanted events used (next_event t x).1.
Proof.
  intros Hx. unfold next_event. pose proof (pump_follows (between t) _ _ _ _ Hx) as Hy.
  destruct (Backlog.closed _); [done|]. apply (pass_tracks (during t)) in Hy.
  destruct (Backlog.wake _); [|done]. destruct Hy as (h & Hh). by exists h.
Qed.

(** ** A match *)

(** The actions the steps wait for are remembered, with their payload where one is looked at. *)
Definition wants (wanted : gmap str bool) (a : Action.t) : Prop :=
  match a with
  | Action.WaitCall _ call contains _ => exists needs, wanted !! call = Some needs /\ (is_someb contains = true -> needs = true)
  | _ => True
  end.
Lemma fits_fulfils wanted station call contains timeout_ms received seen used j :
  wants wanted (Action.WaitCall station call contains timeout_ms) ->
  seen_of wanted received = Some seen -> fits station call contains (marked used (j, seen)) = true ->
  fulfils (Action.WaitCall station call contains timeout_ms) received /\ j ∉ used.
Proof.
  intros (needs & Hw & Hc) Hs Hf. unfold fits, marked in Hf. cbn in Hf. bool_facts.
  destruct received as [[| |id [] [uid name payload| |]| | | |]| |]; try discriminate Hs. cbn in Hs.
  destruct (wanted !! name) as [needs'|] eqn:Hn; [|discriminate Hs]. injection Hs as <-. cbn in *.
  split; [|by apply bool_decide_eq_false in H]. split_and!; [done| |].
  - intros s ->. by apply (proj1 (eqb_true _ _)) in H1.
  - intros expected ->. subst name. rewrite Hw in Hn. injection Hn as <-. by rewrite Hc in H0.
Qed.
Lemma fulfils_fits wanted station call contains timeout_ms received used j :
  wants wanted (Action.WaitCall station call contains timeout_ms) ->
  fulfils (Action.WaitCall station call contains timeout_ms) received -> j ∉ used ->
  exists seen, seen_of wanted received = Some seen /\ fits station call contains (marked used (j, seen)) = true.
Proof.
  intros (needs & Hw & Hc) Hf Hj. destruct received as [[| |id [] [uid name payload| |]| | | |]| |]; try (by destruct Hf).
  destruct Hf as (-> & Hsn & Hp). cbn [seen_of entry]. rewrite Hw. eexists; split; [done|]. unfold fits, marked. cbn.
  rewrite bool_decide_eq_false_2, eqb_refl by done. cbn [negb andb].
  destruct station as [s|]; cbn [is_none_or]; [rewrite (Hsn s eq_refl), eqb_refl|];
    (destruct contains as [e|]; [|done]); cbn [is_none_or andb]; rewrite (Hc eq_refl); by apply Hp.
Qed.

Lemma marked_other j used p : p.1 <> j -> marked (j :: used) p = marked used p.
Proof.
  intros Hp. unfold marked. assert (bool_decide (p.1 ∈ j :: used) = bool_decide (p.1 ∈ used)) as ->; [|done].
  apply bool_decide_ext. rewrite elem_of_cons. naive_solver.
Qed.
Lemma marked_others j used l : (forall p, List.In p l -> p.1 <> j) -> map (marked (j :: used)) l = map (marked used) l.
Proof. intros Hl. apply map_ext_in. intros p Hp. by apply marked_other, Hl. Qed.
(** Consuming the first entry that fits is consuming one position. *)
Lemma mark_first (p : Seen.t -> bool) l used :
  NoDup (map fst l) -> any p (map (marked used) l) = true ->
  exists e, List.In e l /\ p (marked used e) = true /\
    update_first p (fun seen => seen <| Seen.consumed := true |>) (map (marked used) l) = map (marked (e.1 :: used)) l.
Proof.
  induction l as [|e l IH]; [done|]. cbn [map any existsb update_first]. intros [He Hl]%NoDup_cons Hp.
  assert (Hne : forall q, List.In q l -> q.1 <> e.1).
  { intros q Hq Heq. apply He. rewrite <- Heq. by apply list_elem_of_In, in_map. }
  destruct (p (marked used e)) eqn:Hpe.
  - exists e. split_and!; [by left|done|]. rewrite (marked_others e.1) by done. f_equal.
    unfold marked. by rewrite (bool_decide_eq_true_2 (e.1 ∈ e.1 :: used)) by apply list_elem_of_here.
  - destruct (IH Hl Hp) as (q & Hq & Hpq & ->). exists q. split_and!; [by right|done|].
    by rewrite (marked_other q.1) by (intros Heq; by apply (Hne q)).
Qed.

Lemma NoDup_drop {A} k (l : list A) : NoDup l -> NoDup (drop k l).
Proof. intros H. rewrite <- (take_drop k l) in H. by apply NoDup_app in H as (_ & _ & H). Qed.
Lemma take_call_holds station call contains timeout_ms b b' h used :
  wants (Backlog.wanted b) (Action.WaitCall station call contains timeout_ms) ->
  holds b h used -> take_call station call contains b = Some b' ->
  exists j received, h !! j = Some received /\ (j ∉ used) /\
    fulfils (Action.WaitCall station call contains timeout_ms) received /\ holds b' h (j :: used) /\
    Backlog.wanted b' = Backlog.wanted b.
Proof.
  intros Hw (k & Hk & Hc). unfold take_call. rewrite Hc. destruct (any _ _) eqn:Ha; [|done]. intros [= <-].
  assert (Hnd : NoDup (map fst (drop k (entries (Backlog.wanted b) 0 h)))).
  { rewrite <- skipn_map. apply NoDup_drop, entries_NoDup. }
  destruct (mark_first _ _ used Hnd Ha) as ([j seen] & Hin & Hf & Hu).
  assert (Hi : List.In (j, seen) (entries (Backlog.wanted b) 0 h)).
  { rewrite <- (firstn_skipn k (entries _ _ _)). apply in_or_app. by right. }
  destruct (entries_bounds _ _ _ _ Hi) as (received & _ & Hl & Hs). cbn [fst snd] in *. rewrite Nat.sub_0_r in Hl.
  destruct (fits_fulfils _ station call contains timeout_ms received seen used j Hw Hs Hf) as [Hff Hj].
  exists j, received. split_and!; [done..| |done]. exists k. split; [done|].
  rewrite <- Hc in Hu. exact Hu.
Qed.
Lemma take_call_bounded station call contains b b' : take_call station call contains b = Some b' -> bounded b -> bounded b'.
Proof.
  unfold take_call. destruct (any _ _); [|done]. intros [= <-] [H1 H2].
  assert (Hl : forall p, length (update_first p (fun seen => seen <| Seen.consumed := true |>) (Backlog.calls b)) = length (Backlog.calls b))
    by (intros; apply update_first_length).
  unfold bounded, len. cbn [Backlog.calls Backlog.bytes Backlog.max_bytes]. by rewrite Hl.
Qed.
(** A [wait_call] that finds nothing has missed nothing, unless something was forgotten. *)
Lemma take_call_none station call contains timeout_ms b h used j received :
  wants (Backlog.wanted b) (Action.WaitCall station call contains timeout_ms) ->
  holds b h used -> take_call station call contains b = None ->
  length (Backlog.calls b) = length (entries (Backlog.wanted b) 0 h) ->
  h !! j = Some received -> fulfils (Action.WaitCall station call contains timeout_ms) received -> j ∈ used.
Proof.
  intros Hw (k & Hk & Hc) Ht Hl Hj Hf. destruct (base.decide (j ∈ used)) as [|Hn]; [done|]. exfalso.
  destruct (fulfils_fits _ _ _ _ _ _ used j Hw Hf Hn) as (seen & Hs & Hfit).
  rewrite Hc, length_map, length_drop in Hl. assert ((k = 0)%nat) as -> by lia.
  unfold take_call in Ht. destruct (any _ _) eqn:Ha; [done|]. rewrite Hc, drop_0 in Ha.
  apply not_true_iff_false in Ha. apply Ha. apply existsb_exists. exists (marked used (j, seen)). split; [|done].
  apply in_map. by eapply entries_In.
Qed.

(** ** Waiting for a CALL *)

Lemma pump_quiet n x : Backlog.wake (Run.backlog (pump n x)) = false -> pump n x = x.
Proof.
  destruct n as [|n]; [done|]. cbn [pump]. destruct (Run.events x) as [|received rest]; [done|].
  destruct (Backlog.closed (Run.backlog x)); [done|]. intros H. exfalso. revert H.
  set (y := x <| Run.backlog ::= receive received |> <| Run.events := rest |>).
  assert (Hy : Backlog.wake (Run.backlog y) = true) by (by destruct received). clearbody y. revert y Hy.
  induction n as [|n IH]; intros y Hy H; [simpl in H; congruence|]. cbn [pump] in H.
  destruct (Run.events y) as [|r rest']; [congruence|]. destruct (Backlog.closed (Run.backlog y)); [congruence|].
  refine (IH _ _ H). by destruct r.
Qed.
(** While nothing wakes the runner its backlog stays as it was. *)
Lemma next_event_quiet t x y why :
  next_event t x = (y, Some why) -> Backlog.closed (Run.backlog y) = false -> Run.backlog y = Run.backlog x.
Proof.
  unfold next_event. destruct (Backlog.closed (Run.backlog (pump (between t) x))) eqn:Hc; [intros [= <- _]; congruence|].
  destruct (Backlog.wake _) eqn:Hw; [done|]. intros [= <- _] _. unfold pass in *.
  pose proof (pump_quiet _ _ Hw) as Hq. rewrite Hq. cbn [Run.backlog]. rewrite Hq in Hw.
  by rewrite (pump_quiet (between t) x Hw).
Qed.

(** What the end of a step says of the CALLs. *)
Definition settled wanted events used (a : Action.t) x (outcome : option (result unit Failure)) : Prop :=
  match outcome with
  | None => True
  | Some (Ok _) =>
      if is_wait a
      then exists j received, events !! j = Some received /\ (j ∉ used) /\ fulfils a received /\
             tracks wanted events (j :: used) x
      else tracks wanted events used x
  | Some (Err failure) =>
      tracks wanted events used x /\
      (is_wait a = true -> failure <> TimeoutReached -> Backlog.closed (Run.backlog x) = false ->
       match a with
       | Action.WaitCall station call contains _ => take_call station call contains (Run.backlog x) = None
       | _ => True
       end)
  end.
Lemma wait_call_settled wanted events station call contains timeout_ms turns used x :
  let a := Action.WaitCall station call contains timeout_ms in
  wants wanted a -> tracks wanted events used x ->
  let '(y, outcome) := wait_until
    (fun x => (fun b => x <| Run.backlog := b |>) <$> take_call station call contains (Run.backlog x))
    (fun x => NoMatchingCall call timeout_ms (Backlog.lagged (Run.backlog x))) turns x in
  settled wanted events used a y outcome.
Proof.
  intros a Hw. revert x. induction turns as [|t turns IH]; intros x Hx; [done|]. cbn [wait_until].
  pose proof (pass_tracks (before t) _ _ _ _ Hx) as Hp. set (z := pass (before t) x) in *. clearbody z.
  destruct (take_call station call contains (Run.backlog z)) as [b'|] eqn:Ht; cbn [fmap option_fmap option_map].
  - destruct Hp as (h & Hh & Hwz & Hu & Hb & Hbd). rewrite <- Hwz in Hw.
    destruct (take_call_holds _ _ _ timeout_ms _ _ h used Hw Hb Ht) as (j & r & Hj & Hn & Hf & Hb' & Hwb).
    exists j, r. split_and!; [rewrite Hh; by apply lookup_app_l_Some|done..|].
    exists h. split_and!; [done|by rewrite <- Hwz| |done|by eapply take_call_bounded]. constructor; [by apply lookup_lt_Some in Hj|done].
  - pose proof (next_event_tracks t _ _ _ _ Hp) as Hn. pose proof (next_event_quiet t z) as Hq.
    destruct (next_event t z) as [y [[|]|]]; [| |by apply IH].
    + split; [done|]. intros _ _ Hc. by rewrite (Hq y EndPassed eq_refl Hc).
    + split; [done|]. by intros _ [].
Qed.
Lemma wait_tracks wanted events used poll failure turns x :
  (forall x y, poll x = Some y -> y = x) -> tracks wanted events used x ->
  tracks wanted events used (wait_until poll failure turns x).1.
Proof.
  intros Hpoll. revert x. induction turns as [|t turns IH]; intros x Hx; [done|]. cbn [wait_until].
  apply (pass_tracks (before t)) in Hx. set (z := pass (before t) x) in *. clearbody z.
  destruct (poll z) eqn:Hz; [by apply Hpoll in Hz; subst|].
  apply (next_event_tracks t) in Hx. destruct (next_event t z) as [y [[|]|]]; [done..|by apply IH].
Qed.
Lemma execute_settled wanted events a w used x :
  wants wanted a -> tracks wanted events used x ->
  let '(y, outcome) := execute a w x in settled wanted events used a y outcome.
Proof.
  intros Hw Hx. apply (pass_tracks (meanwhile w)) in Hx. unfold execute.
  set (z := pass (meanwhile w) x) in *. clearbody z.
  assert (Hother : is_wait a = false -> forall y outcome, tracks wanted events used y -> settled wanted events used a y outcome).
  { intros Ha y outcome Hy. unfold settled. rewrite Ha. by destruct outcome as [[|]|]. }
  destruct a as [station count booted timeout_ms| | | | | |]; [|by apply wait_call_settled|by apply Hother..].
  pose proof (wait_tracks wanted events used
    (fun x => if stations_ready (Run.server x) station count booted then Some x else None)
    (fun x => match station with
              | Some station => StationAbsent station timeout_ms (connected (Run.server x) booted)
              | None => TooFewStations (default 1 count) timeout_ms (connected (Run.server x) booted)
              end) (turns w) z) as Ht.
  destruct (wait_until _ _ _ _) as [y outcome]. apply Hother; [done|]. apply Ht; [|done].
  intros u v. destruct (stations_ready _ _ _ _); congruence.
Qed.

(** ** Whole runs *)

Definition skipped {R} : ScenarioRunner.StepStatus R := ScenarioRunner.Skipped.
Lemma run_steps_failed i steps world x reports failed y :
  run_steps i steps world true x = Some (reports, failed, y) ->
  failed = true /\ y = x /\ map ScenarioRunner.status reports = repeat skipped (length steps) /\
  map ScenarioRunner.report_name reports = map title steps.
Proof.
  revert i reports. induction steps as [|step steps IH]; intros i reports; cbn [run_steps]; [by intros [= <- <- <-]|].
  cbn [mbind option_bind orb]. destruct (run_steps (i + 1) steps world true x) as [[[rs f] z]|] eqn:Hr; [|done].
  cbn [mbind option_bind]. intros [= <- <- <-]. destruct (IH _ _ Hr) as (-> & -> & Hs & Hn).
  cbn [map length repeat]. by rewrite Hs, Hn.
Qed.
(** Every passed [wait_call] has an event of its own. *)
Definition matched events (waits : list Action.t) (js : list nat) : Prop :=
  Forall2 (fun a j => exists received, events !! j = Some received /\ fulfils a received) waits js.
(** The step that failed, where it is a [wait_call]: nothing it could have taken is left. *)
Definition missed_nothing (l : list (Action.t * ScenarioRunner.StepStatus Failure)) events x (js : list nat) : Prop :=
  forall a failure, List.In (a, ScenarioRunner.Failed failure) l -> is_wait a = true -> failure <> TimeoutReached ->
  Backlog.closed (Run.backlog x) = false ->
  let h := take (length events - length (Run.events x)) events in
  length (Backlog.calls (Run.backlog x)) = length (entries (Backlog.wanted (Run.backlog x)) 0 h) ->
  forall j received, h !! j = Some received -> fulfils a received -> j ∈ js.

Lemma skipped_waits l :
  (forall p, List.In p l -> p.2 = skipped) -> passed_waits l = [] /\ forall a failure, ~ List.In (a, ScenarioRunner.Failed failure) l.
Proof.
  intros Hl. split.
  - unfold passed_waits. replace (retain _ l) with (@nil (Action.t * ScenarioRunner.StepStatus Failure)); [done|].
    symmetry. apply retain_none. intros p Hp. rewrite (Hl p Hp). by rewrite andb_false_r.
  - intros a failure Hin. apply Hl in Hin. discriminate Hin.
Qed.
Lemma zip_repeat {A B} (l : list A) (v : B) n p : List.In p (zip l (repeat v n)) -> p.2 = v.
Proof. destruct p as [a b]. intros Hp%in_combine_r. by apply repeat_spec in Hp. Qed.

Lemma run_steps_matched wanted events i steps world x used reports failed y :
  Forall (fun step => wants wanted (action step)) steps -> tracks wanted events used x -> NoDup used ->
  run_steps i steps world false x = Some (reports, failed, y) ->
  exists js, NoDup (rev js ++ used) /\ tracks wanted events (rev js ++ used) y /\
    matched events (passed_waits (outcomes steps reports)) js /\
    missed_nothing (outcomes steps reports) events y (rev js ++ used).
Proof.
  intros Hw. revert i x used reports. induction steps as [|step steps IH]; intros i x used reports Hx Hn; cbn [run_steps].
  { intros [= <- <- <-]. exists []. split_and!; [done..|constructor|]. by intros ? ? []. }
  apply Forall_cons in Hw as [Hs Hw]. pose proof (execute_settled wanted events (action step) (world i) used x Hs Hx) as He.
  destruct (execute (action step) (world i) x) as [z [[[]|failure]|]]; [| |done]; cbn [mbind option_bind orb].
  - destruct (run_steps (i + 1) steps world false z) as [[[rs f] u]|] eqn:Hr; [|done].
    cbn [mbind option_bind]. intros [= <- <- <-]. unfold settled in He.
    assert (Hrest : forall js used', missed_nothing (outcomes steps rs) events u (rev js ++ used') ->
      missed_nothing ((action step, ScenarioRunner.Passed) :: outcomes steps rs) events u (rev js ++ used')).
    { intros js used' Hm a failure [Heq|Hin]; [discriminate Heq|by apply Hm]. }
    destruct (is_wait (action step)) eqn:Ha.
    + destruct He as (j & received & Hj & Hu & Hf & Ht). assert (Hn' : NoDup (j :: used)) by (by constructor).
      destruct (IH Hw _ _ _ _ Ht Hn' Hr) as (js & Hd & Hty & Hm & Hmn). exists (j :: js). cbn [rev]. rewrite <- app_assoc. split_and!; [done..| |by apply Hrest in Hmn].
      unfold outcomes, passed_waits. cbn [map zip zip_with retain List.filter fst snd]. rewrite Ha. cbn. constructor; [by exists received|done].
    + destruct (IH Hw _ _ used _ He Hn Hr) as (js & Hd & Hty & Hm & Hmn). exists js. split_and!; [done..| |by apply Hrest in Hmn].
      unfold outcomes, passed_waits. cbn [map zip zip_with retain List.filter fst snd]. by rewrite Ha.
  - destruct (run_steps (i + 1) steps world true z) as [[[rs f] u]|] eqn:Hr; [|done].
    cbn [mbind option_bind]. intros [= <- <- <-]. destruct (run_steps_failed _ _ _ _ _ _ _ Hr) as (-> & -> & Hst & _).
    assert (Hsk : forall p, List.In p (outcomes steps rs) -> p.2 = skipped).
    { intros p. unfold outcomes. rewrite Hst. apply zip_repeat. }
    destruct (skipped_waits _ Hsk) as [Hpw Hnf]. exists []. cbn [rev app]. destruct He as [Ht Hmiss].
    split_and!; [done|done| |].
    + unfold matched. change (passed_waits _) with (map fst (retain (fun p => is_wait p.1 && ScenarioRunner.is_passed p.2)
        ((action step, ScenarioRunner.Failed failure) :: outcomes steps rs))). unfold retain. cbn [List.filter fst snd ScenarioRunner.is_passed].
      rewrite andb_false_r. unfold passed_waits, retain in Hpw. rewrite Hpw. constructor.
    + intros a why [Heq|Hin]; [|by apply Hnf in Hin]. injection Heq as <- <-. intros Ha Hwhy Hc h Hl j received Hj Hf.
      specialize (Hmiss Ha Hwhy Hc). destruct (action step) as [|station call contains timeout_ms| | | | |] eqn:Hact; try discriminate Ha.
      destruct Ht as (h' & Hh & Hwz & _ & Hb & _).
      assert (h = h') as -> by (unfold h; rewrite Hh, length_app; replace (_ + _ - _)%nat with (length h') by lia; apply take_app_length).
      rewrite <- Hwz in Hs. by eapply take_call_none.
Qed.

Lemma run_steps_shape i steps world x reports failed y :
  run_steps i steps world false x = Some (reports, failed, y) ->
  map ScenarioRunner.report_name reports = map title steps /\
  ScenarioRuns.verdict (map ScenarioRunner.status reports) /\
  negb failed = all ScenarioRunner.is_passed (map ScenarioRunner.status reports).
Proof.
  revert i x reports. induction steps as [|step steps IH]; intros i x reports; cbn [run_steps].
  { intros [= <- <- <-]. split_and!; [done| |done]. exists 0%nat, []. by split; [|left]. }
  destruct (execute (action step) (world i) x) as [z [[[]|failure]|]]; [| |done]; cbn [mbind option_bind orb].
  - destruct (run_steps (i + 1) steps world false z) as [[[rs f] u]|] eqn:Hr; [|done].
    cbn [mbind option_bind]. intros [= <- <- <-]. destruct (IH _ _ _ Hr) as (Hn & (n & rest & Hv & Hrest) & Hf).
    cbn [map ScenarioRunner.report_name ScenarioRunner.status]. rewrite Hn. split_and!; [done| |done].
    exists (S n), rest. by rewrite Hv.
  - destruct (run_steps (i + 1) steps world true z) as [[[rs f] u]|] eqn:Hr; [|done].
    cbn [mbind option_bind]. intros [= <- <- <-]. destruct (run_steps_failed _ _ _ _ _ _ _ Hr) as (-> & -> & Hs & Hn).
    cbn [map ScenarioRunner.report_name ScenarioRunner.status]. rewrite Hn, Hs. split_and!; [done| |done].
    exists 0%nat. eexists. split; [done|]. right. by eexists _, _.
Qed.

(** A waiting step uses up an event, or the permit of an earlier one, with every round. *)
Definition budget x : nat := (length (Run.events x) + if Backlog.wake (Run.backlog x) then 1 else 0)%nat.
Lemma pump_budget n x : (budget (pump n x) <= budget x)%nat.
Proof.
  revert x. induction n as [|n IH]; intros x; [done|]. cbn [pump]. destruct (Run.events x) as [|r rest] eqn:He; [done|].
  destruct (Backlog.closed _); [done|]. etrans; [apply IH|]. unfold budget. rewrite He. cbn. case_match; lia.
Qed.
Lemma pass_budget p x : (budget (pass p x) <= budget x)%nat.
Proof. unfold pass. etrans; [apply pump_budget|done]. Qed.
Lemma next_event_budget t x y : next_event t x = (y, None) -> (budget y < budget x)%nat.
Proof.
  unfold next_event. destruct (Backlog.closed _); [done|]. destruct (Backlog.wake _) eqn:Hw; [|done]. intros [= <-].
  pose proof (pump_budget (between t) x) as H1. pose proof (pass_budget (during t) (pump (between t) x)) as H2.
  unfold budget in *. rewrite Hw in H2. cbn. lia.
Qed.
Lemma wait_until_end poll failure turns x :
  (forall x y, poll x = Some y -> (budget y <= budget x)%nat) -> (budget x < length turns)%nat ->
  exists y outcome, wait_until poll failure turns x = (y, Some outcome) /\ (budget y <= budget x)%nat.
Proof.
  intros Hp. revert x. induction turns as [|t turns IH]; intros x Hl; [simpl in Hl; lia|]. cbn [wait_until].
  assert (Hb : (budget (pass (before t) x) <= budget x)%nat) by apply pass_budget.
  set (z := pass (before t) x) in *. clearbody z. destruct (poll z) as [y|] eqn:Hz.
  { apply Hp in Hz. exists y, (Ok tt). split; [done|lia]. }
  assert (Hn : (budget (next_event t z).1 <= budget z)%nat).
  { unfold next_event. pose proof (pump_budget (between t) z). destruct (Backlog.closed _); [done|].
    pose proof (pass_budget (during t) (pump (between t) z)). set (u := pass _ _) in *.
    destruct (Backlog.wake (Run.backlog u)) eqn:Hw; [|cbn; lia]. unfold budget in *. rewrite Hw in *. cbn. lia. }
  pose proof (next_event_budget t z) as Hlt. destruct (next_event t z) as [y [[|]|]]; cbn [fst] in Hn.
  - eexists _, _. split; [done|lia].
  - eexists _, _. split; [done|lia].
  - specialize (Hlt y eq_refl). destruct (IH y) as (u & outcome & -> & Hu); [simpl in Hl; lia|].
    exists u, outcome. split; [done|lia].
Qed.

Lemma execute_end a w x :
  (budget x < length (turns w))%nat ->
  exists y outcome, execute a w x = (y, Some outcome) /\ (budget y <= budget x)%nat.
Proof.
  intros Hl. pose proof (pass_budget (meanwhile w) x) as Hb. unfold execute.
  set (z := pass (meanwhile w) x) in *. clearbody z.
  destruct a; try (by eexists _, _).
  - edestruct wait_until_end as (y & outcome & -> & Hy); [| |exists y, outcome; split; [done|lia]]; [|lia].
    intros u v. cbn beta. destruct (stations_ready _ _ _ _); [|done]. by intros [= <-].
  - edestruct wait_until_end as (y & outcome & -> & Hy); [| |exists y, outcome; split; [done|lia]]; [|lia].
    intros u v. cbn beta. unfold take_call. destruct (any _ _); [|done]. by intros [= <-].
Qed.
Lemma script_steps_end i steps world failed x :
  (forall i, (budget x < length (turns (world i)))%nat) -> is_Some (run_steps i steps world failed x).
Proof.
  revert i failed x. induction steps as [|step steps IH]; intros i failed x Hl; [by eexists|]. cbn [run_steps].
  destruct failed; cbn [mbind option_bind].
  - destruct (IH (i + 1) true x Hl) as [[[rs f] u] Hr]. cbn [orb]. rewrite Hr. by eexists.
  - destruct (execute_end (action step) (world i) x (Hl i)) as (y & outcome & -> & Hy).
    destruct outcome as [[]|failure]; cbn [mbind option_bind orb].
    + destruct (IH (i + 1) false y) as [[[rs f] u] ->]; [intros j; specialize (Hl j); lia|]. by eexists.
    + destruct (IH (i + 1) true y) as [[[rs f] u] ->]; [intros j; specialize (Hl j); lia|]. by eexists.
Qed.

(** The backlog of a script is made for its steps. *)
Lemma want_keeps wanted step a : wants wanted a -> wants (want wanted step) a.
Proof.
  unfold wants, want. destruct a as [|s call contains ms| | | | |]; try done. intros (needs & Hw & Hc).
  destruct (action step) as [|s' call' contains' ms'| | | | |]; eauto.
  destruct (base.decide (call = call')) as [<-|Hne].
  - rewrite lookup_insert_eq. eexists. split; [done|]. intros H. rewrite Hw. cbn. by rewrite (Hc H).
  - exists needs. rewrite lookup_insert_ne by done. done.
Qed.
Lemma want_adds wanted step : wants (want wanted step) (action step).
Proof.
  unfold wants, want. destruct (action step); try done. rewrite lookup_insert_eq. eexists. split; [done|].
  intros ->. by destruct (default _ _).
Qed.
Lemma wanted_all steps wanted :
  Forall (fun step => wants (fold_left want steps wanted) (action step)) steps.
Proof.
  assert (Hk : forall l wanted a, wants wanted a -> wants (fold_left want l wanted) a).
  { induction l as [|step l IH]; intros w a Ha; [done|]. cbn [fold_left]. by apply IH, want_keeps. }
  revert wanted. induction steps as [|step steps IH]; intros wanted; [constructor|]. cbn [fold_left].
  constructor; [apply Hk, want_adds|apply IH].
Qed.

(** Claim C31: a run of a script against the CSMS tells what happened, however its steps and the
    task that collects the CALLs interleave. The steps pass up to the first failure and the rest
    is skipped. Every [wait_call] that passed has a CALL of its own among the events, which fits
    its station, action and payload; one that failed before the deadline, while the stream was
    open and nothing forgotten, has left no fitting CALL behind. The backlog stays within its
    10000 CALLs and its bytes, and a run ends when its waits do. *)
Theorem script_verdict script events server world total :
  ((forall i, (length events < length (turns (world i)))%nat) -> is_Some (run script events server world total)) /\
  forall report x,
  run script events server world total = Some (report, x) ->
  let reports := ScenarioRunner.reports report in
  map ScenarioRunner.report_name reports = map title (steps script) /\
  ScenarioRuns.verdict (map ScenarioRunner.status reports) /\
  ScenarioRunner.passed report = all ScenarioRunner.is_passed (map ScenarioRunner.status reports) /\
  bounded (Run.backlog x) /\
  exists js, NoDup js /\ matched events (passed_waits (outcomes (steps script) reports)) js /\
    missed_nothing (outcomes (steps script) reports) events x js.
Proof.
  unfold run. set (x0 := Run.mk (new_backlog script) events server). split.
  { intros Hl. destruct (script_steps_end 0 (steps script) world false x0) as [[[rs f] u] ->]; [|by eexists].
    intros i. unfold budget. cbn. specialize (Hl i). lia. }
  intros report x. destruct (run_steps 0 (steps script) world false x0) as [[[rs f] u]|] eqn:Hr; [|done].
  cbn [mbind option_bind]. intros [= <- <-]. cbn zeta. cbn [ScenarioRunner.reports ScenarioRunner.passed].
  destruct (run_steps_shape _ _ _ _ _ _ _ Hr) as (Hn & Hv & Hf).
  assert (Hx : tracks (fold_left want (steps script) ∅) events [] x0).
  { exists []. split_and!; [done..| | |]; [constructor| |].
    - exists 0%nat. by split; [simpl; lia|].
    - split; [done|]. left. done. }
  destruct (run_steps_matched _ _ _ _ _ _ [] _ _ _ (wanted_all _ _) Hx ltac:(constructor) Hr) as (js & Hd & Ht & Hm & Hmn).
  rewrite app_nil_r in *. split_and!; [done..| |]; [by destruct Ht as (h & _ & _ & _ & _ & ?)|].
  exists js. split_and!; [by rewrite <- Permutation_rev in Hd|done|].
  intros a failure Hin Ha Hwhy Hc h Hl j received Hj Hful. apply list_elem_of_In, in_rev, list_elem_of_In.
  by apply (Hmn a failure Hin Ha Hwhy Hc Hl j received Hj).
Qed.

(** ** A script that is loaded has valid steps *)

Lemma parse_step_valid {S : ScriptWire} table step : parse_step table = Ok step -> validate (action step) = Ok tt.
Proof.
  unfold parse_step. cbn zeta. destruct (match Scenario.table_get (lit "name") table with Some _ => _ | None => _ end); [|done].
  destruct (match Scenario.table_get (lit "action") _ with Some _ => _ | None => _ end); [|done].
  destruct (match action_try_into _ with Ok _ => _ | Err _ => _ end) as [act|]; [|done].
  destruct (validate act) as [[]|] eqn:Hv; [|done]. by intros [= <-].
Qed.
Lemma loaded_script {S : ScriptWire} parsed s :
  from_raw parsed = Ok s ->
  steps s <> [] /\ trim (name s) <> [] /\ Forall (fun step => validate (action step) = Ok tt) (steps s).
Proof.
  unfold from_raw. destruct parsed as [raw|]; [|done]. destruct (trim (raw_name raw) == []) eqn:Hn; [done|].
  assert (Hp : forall i l steps, parse_steps i l = Ok steps ->
    length steps = length l /\ Forall (fun step => validate (action step) = Ok tt) steps).
  { intros i l. revert i. induction l as [|table l IH]; intros i steps; cbn [parse_steps]; [by intros [= <-]|].
    destruct (parse_step table) as [step|] eqn:Hs; [|done]. destruct (parse_steps (i + 1) l) as [rest|] eqn:Hr; [|done].
    intros [= <-]. destruct (IH _ _ Hr) as [Hl Hf]. split; [simpl; by rewrite Hl|].
    constructor; [by eapply parse_step_valid|done]. }
  destruct (raw_steps raw) as [|table tables]; [done|]. destruct (parse_steps 0 (table :: tables)) as [l|] eqn:Hl; [|done].
  intros [= <-]. destruct (Hp _ _ _ Hl) as [Hlen Hf]. split_and!; [|by apply (proj1 (eqb_false _ _))|done]. by destruct l.
Qed.
End runs.

(** ** A run: a lost reading, two waits for the same action, and a third that has to time out *)

#[local] Existing Instance u64_json.
#[local] Existing Instance unit_text.
#[local] Existing Instance ScenarioRuns.z_eq.
Definition sample_call (station payload : str) : Received.t CsmsEvent.t :=
  Received.Got (CsmsEvent.Frame station In (Frame.Frame.Call (lit "1") (lit "Authorize") (Object [(lit "idTag", String payload)]))).
Definition sample_events : list (Received.t CsmsEvent.t) :=
  [sample_call (lit "A") (lit "t1"); Received.Lagged 3; sample_call (lit "B") (lit "t2"); sample_call (lit "A") (lit "t3")].
Definition sample_wait (station : option str) (payload : option str) : Step :=
  mk_step None (Action.WaitCall station (lit "Authorize")
    ((fun p => Object [(lit "idTag", String p)]) <$> payload) 5000).
Definition sample_script : t :=
  mk (lit "s") [sample_wait (Some (lit "B")) None; sample_wait None (Some (lit "t1")); sample_wait (Some (lit "B")) None].
Definition quiet_turn (n : nat) : Turn := mk_turn (n, fun s => s) 0 (n, fun s => s) EndPassed.
Definition sample_world (i : Z) : World :=
  mk_world (0%nat, fun s => s) (repeat (quiet_turn 1) 8) Queued false 0.

Lemma script_verdict_witness :
  exists report x, run sample_script sample_events (start default_config) sample_world 0 = Some (report, x) /\
    ScenarioRunner.passed report = false /\
    exists js, NoDup js /\ matched sample_events (passed_waits (outcomes (steps sample_script) (ScenarioRunner.reports report))) js.
Proof.
  destruct (script_verdict sample_script sample_events (start default_config) sample_world 0) as [H1 H2].
  destruct H1 as [[report x] Hr]; [intros i; by apply Nat.ltb_lt|]. exists report, x. split; [done|].
  destruct (H2 report x Hr) as (_ & _ & _ & _ & js & Hn & Hm & _). split; [|exists js; exact (conj Hn Hm)].
  assert (Hs : (fun r => ScenarioRunner.passed r.1) <$> run sample_script sample_events (start default_config) sample_world 0
    = Some false) by reflexivity.
  rewrite Hr in Hs. injection Hs as Hs. exact Hs.
Defined.
End ScriptRuns.
