(* ===== verification/TuiText.v ===== *)
(** * TuiText: single-line editing and hostile text

    [kirby-ocpp-tui/src/text.rs]: what may reach a terminal, the line editor with its cursor on a
    byte offset, and the cutting of text to a width. Grapheme clusters and display widths are the
    Unicode crates' ([Unicode]). *)

From stdpp Require Import strings.
From S2P Require Import Prelude Text Strings FileNames.
Local Open Scope Z_scope.

Module TuiText.

(** [unicode_segmentation] and [unicode_width]; the clusters of a text are its non-empty pieces
    in order. *)
Class Unicode : Type := {
  graphemes : str -> list str;
  width : str -> Z;
  char_width_of : char -> option Z;
}.
Class UnicodeLaws (U : Unicode) : Prop := {
  graphemes_concat s : concat (graphemes s) = s;
  graphemes_nonempty s g : In g (graphemes s) -> g <> [];
}.

(** [char::is_control] *)
Definition is_control (c : char) : bool := (c <? 32) || ((127 <=? c) && (c <=? 159)).
(** Characters that must not reach a terminal or a log line. *)
Definition is_unsafe_char (c : char) : bool :=
  is_control c || (c =? 8232) || (c =? 8233) || ((8234 <=? c) && (c <=? 8238)) || ((8294 <=? c) && (c <=? 8297)).
(** A visible dot for every unsafe character. *)
Definition sanitize (s : str) : str := map (fun c => if is_unsafe_char c then 183 else c) s.
(** [\uXXXX] for every unsafe character, each of which is one UTF-16 unit. *)
Definition escape_json_unsafe (json : str) : str :=
  flat_map (fun c => if is_unsafe_char c then lit "\u" ++ FileNames.hex_word 4 c else [c]) json.

(** [str::find] of the first character that satisfies [p]: the text before it and from it on. *)
Fixpoint span (p : char -> bool) (s : str) : str * str :=
  match s with
  | [] => ([], [])
  | c :: r => if p c then ([], s) else let '(a, b) := span p r in (c :: a, b)
  end.
(** Drops the [user:password@] part of a URL. *)
Definition redact_url (url : str) : str :=
  match split_once_text (lit "://") url with
  | None => url
  | Some (scheme, rest) =>
      let '(authority, tail) := span (fun c => (c =? 47) || (c =? 63) || (c =? 35)) rest in
      match rsplit_once 64 authority with
      | Some (_, host) => scheme ++ lit "://" ++ host ++ tail
      | None => url
      end
  end.

(** ** The line editor *)

Definition sanitize_line (s : str) : str :=
  omap (fun c => if (c =? 10) || (c =? 13) || (c =? 9) then Some 32
                 else if is_unsafe_char c then None else Some c) s.

(** [cursor] is a byte offset on a grapheme boundary. *)
Module TextInput.
Record t : Type := mk { text : str; cursor : Z }.
#[export] Instance eta : Eta t := fun i => mk (text i) (cursor i).
#[export] Instance eq_dec : EqDecision t.
Proof. solve_decision. Defined.
End TextInput.
Export (hints) TextInput.

(** [&text[..at]] and [&text[at..]]; the source panics when [at] is inside a character. *)
Fixpoint split_at (bytes : Z) (s : str) : str * str :=
  match s with
  | [] => ([], [])
  | c :: r => if bytes <=? 0 then ([], s) else let '(a, b) := split_at (bytes - len_utf8 c) r in (c :: a, b)
  end.
Definition before (i : TextInput.t) : str := (split_at (TextInput.cursor i) (TextInput.text i)).1.
Definition after (i : TextInput.t) : str := (split_at (TextInput.cursor i) (TextInput.text i)).2.

Definition new_input (text : str) : TextInput.t :=
  let text := sanitize_line text in TextInput.mk text (byte_len text).
Definition empty_input : TextInput.t := TextInput.mk [] 0.
Definition insert_char (c : char) (i : TextInput.t) : TextInput.t :=
  if is_unsafe_char c then i
  else TextInput.mk (before i ++ [c] ++ after i) (TextInput.cursor i + len_utf8 c).
(** Inserts pasted text; newlines and tabs become spaces, other control chars are dropped. *)
Definition insert_str (s : str) (i : TextInput.t) : TextInput.t :=
  let clean := sanitize_line s in
  TextInput.mk (before i ++ clean ++ after i) (TextInput.cursor i + byte_len clean).
Definition home (i : TextInput.t) : TextInput.t := i <| TextInput.cursor := 0 |>.
Definition end_ (i : TextInput.t) : TextInput.t := i <| TextInput.cursor := byte_len (TextInput.text i) |>.

Section unicode.
Context {U : Unicode}.

(** The last and the first grapheme of a text, with the rest. *)
Definition last_grapheme (s : str) : option str := last (graphemes s).
Definition first_grapheme (s : str) : option str := head (graphemes s).
Definition backspace (i : TextInput.t) : TextInput.t :=
  match last_grapheme (before i) with
  | Some g =>
      let start := TextInput.cursor i - byte_len g in
      TextInput.mk ((split_at start (before i)).1 ++ after i) start
  | None => i
  end.
Definition delete (i : TextInput.t) : TextInput.t :=
  match first_grapheme (after i) with
  | Some g => i <| TextInput.text := before i ++ (split_at (byte_len g) (after i)).2 |>
  | None => i
  end.
Definition left (i : TextInput.t) : TextInput.t :=
  match last_grapheme (before i) with
  | Some g => i <| TextInput.cursor ::= fun c => c - byte_len g |>
  | None => i
  end.
Definition right (i : TextInput.t) : TextInput.t :=
  match first_grapheme (after i) with
  | Some g => i <| TextInput.cursor ::= Z.add (byte_len g) |>
  | None => i
  end.

(** ** Widths *)

Fixpoint fitting (used max reserve : Z) (gs : list str) : str :=
  match gs with
  | [] => []
  | g :: gs => if max <? used + width g + reserve then [] else g ++ fitting (used + width g) max reserve gs
  end.
(** Cuts to at most [max] cells, with an ellipsis when something was dropped. *)
Definition truncate (s : str) (max : Z) : str :=
  if width s <=? max then s
  else if max =? 0 then []
  else fitting 0 max 1 (graphemes s) ++ [8230].

(** The part of the text that fits while the cursor stays visible, and the cursor's column. *)
Fixpoint scroll (cursor_col max : Z) (gs : list str) : Z * list str :=
  match gs with
  | [] => (cursor_col, [])
  | g :: rest => if max <=? cursor_col then scroll (cursor_col - width g) max rest else (cursor_col, gs)
  end.
Definition window (i : TextInput.t) (max : Z) : str * Z :=
  if max =? 0 then ([], 0)
  else
    let '(cursor_col, shown) := scroll (fold_right (fun g n => width g + n) 0 (graphemes (before i))) max (graphemes (before i)) in
    (fitting 0 max 0 (shown ++ graphemes (after i)), cursor_col).
Definition char_width (c : char) : Z := default 0 (char_width_of c).
End unicode.
(** ** The editor never cuts a character *)

Lemma byte_len_app a b : byte_len (a ++ b) = byte_len a + byte_len b.
Proof. induction a as [|c a IH]; [done|]. cbn [app]. unfold byte_len in *. cbn [fold_right]. rewrite IH. lia. Qed.
Lemma byte_len_single c : byte_len [c] = len_utf8 c.
Proof. unfold byte_len. cbn [fold_right]. lia. Qed.
Lemma byte_len_ge_0 a : 0 <= byte_len a.
Proof.
  induction a as [|c a IH]; [done|]. change (byte_len (c :: a)) with (len_utf8 c + byte_len a).
  assert (1 <= len_utf8 c) by (unfold len_utf8; repeat case_match; lia). lia.
Qed.
Lemma split_at_byte_len a b : split_at (byte_len a) (a ++ b) = (a, b).
Proof.
  induction a as [|c a IH]; [by destruct b|]. cbn [app split_at]. unfold byte_len. cbn [fold_right].
  change (fold_right _ 0 a) with (byte_len a). pose proof (byte_len_ge_0 a) as Ha.
  assert (Hc : 1 <= len_utf8 c) by (unfold len_utf8; repeat case_match; lia).
  rewrite (proj2 (Z.leb_gt _ _)) by lia. replace (len_utf8 c + byte_len a - len_utf8 c) with (byte_len a) by lia.
  by rewrite IH.
Qed.

Definition safe_text (s : str) : Prop := Forall (fun c => is_unsafe_char c = false) s.
Lemma sanitize_line_safe s : safe_text (sanitize_line s).
Proof.
  unfold safe_text, sanitize_line. induction s as [|c s IH]; [constructor|]. cbn [omap list_omap].
  destruct ((c =? 10) || (c =? 13) || (c =? 9)); [by constructor|]. destruct (is_unsafe_char c) eqn:Hc; [done|]. by constructor.
Qed.
Lemma sanitize_safe s : safe_text (sanitize s).
Proof.
  unfold safe_text, sanitize. induction s as [|c s IH]; [constructor|]. cbn [map].
  constructor; [|done]. by destruct (is_unsafe_char c) eqn:Hc.
Qed.

(** The cursor is on a character boundary and the text can be shown. *)
Definition editable (i : TextInput.t) : Prop :=
  TextInput.text i = before i ++ after i /\ TextInput.cursor i = byte_len (before i) /\ safe_text (TextInput.text i).
Lemma editable_mk a b : safe_text (a ++ b) -> editable (TextInput.mk (a ++ b) (byte_len a)).
Proof. intros Hs. unfold editable, before, after. cbn [TextInput.text TextInput.cursor]. by rewrite split_at_byte_len. Qed.
Lemma editable_parts i : editable i -> exists a b, i = TextInput.mk (a ++ b) (byte_len a) /\ before i = a /\ after i = b /\ safe_text a /\ safe_text b.
Proof.
  intros (Ht & Hc & Hs). exists (before i), (after i). destruct i as [text cursor]. cbn [TextInput.text TextInput.cursor] in *.
  rewrite Ht in Hs. unfold safe_text in *. apply Forall_app in Hs as [Ha Hb]. split_and!; [|done..]. by rewrite <- Ht, <- Hc.
Qed.
Lemma safe_app a b : safe_text a -> safe_text b -> safe_text (a ++ b).
Proof. intros. by apply Forall_app. Qed.

Inductive edit : Type :=
| InsertChar (c : char) | InsertStr (s : str) | Backspace | Delete | Left | Right | Home | End_.
Definition apply_edit {U : Unicode} (e : edit) (i : TextInput.t) : TextInput.t :=
  match e with
  | InsertChar c => insert_char c i
  | InsertStr s => insert_str s i
  | Backspace => backspace i
  | Delete => delete i
  | Left => left i
  | Right => right i
  | Home => home i
  | End_ => end_ i
  end.

Section laws.
Context {U : Unicode} {L : UnicodeLaws U}.

Lemma last_grapheme_spec s g : last_grapheme s = Some g -> exists a, s = a ++ g.
Proof.
  unfold last_grapheme. intros Hl. apply last_Some in Hl as [gs Hg]. exists (concat gs).
  rewrite <- (graphemes_concat s) at 1. by rewrite Hg, concat_app, (app_nil_r g : concat [g] = g).
Qed.
Lemma first_grapheme_spec s g : first_grapheme s = Some g -> exists b, s = g ++ b.
Proof.
  unfold first_grapheme. intros Hh. destruct (graphemes s) as [|g' gs] eqn:Hg; [done|]. injection Hh as ->.
  exists (concat gs). by rewrite <- (graphemes_concat s), Hg.
Qed.

(** Every key of the editor keeps the cursor on a character boundary, so that no slice of the text
    panics, and lets no unsafe character in. *)
Lemma edits_safe e i : editable i -> editable (apply_edit e i).
Proof.
  intros Hi. destruct (editable_parts i Hi) as (a & b & -> & Ha & Hb & Hsa & Hsb).
  destruct e; cbn [apply_edit].
  - unfold insert_char. destruct (is_unsafe_char c) eqn:Hc; [done|]. rewrite Ha, Hb. cbn [TextInput.cursor].
    rewrite (app_assoc a [c] b). replace (byte_len a + len_utf8 c) with (byte_len (a ++ [c])) by (by rewrite byte_len_app, byte_len_single).
    apply editable_mk, safe_app; [|done]. apply safe_app; [done|]. by constructor.
  - unfold insert_str. rewrite Ha, Hb. cbn [TextInput.cursor]. rewrite (app_assoc a _ b), <- byte_len_app.
    apply editable_mk, safe_app; [|done]. apply safe_app; [done|apply sanitize_line_safe].
  - unfold backspace. rewrite Ha, Hb. destruct (last_grapheme a) as [g|] eqn:Hg; [|done].
    apply last_grapheme_spec in Hg as [a' ->]. cbn [TextInput.cursor]. rewrite byte_len_app.
    replace (byte_len a' + byte_len g - byte_len g) with (byte_len a') by lia. rewrite split_at_byte_len. cbn [fst].
    apply Forall_app in Hsa as [Hsa _]. by apply editable_mk, safe_app.
  - unfold delete. rewrite Hb. destruct (first_grapheme b) as [g|] eqn:Hg; [|done]. rewrite Ha.
    apply first_grapheme_spec in Hg as [b' ->]. rewrite split_at_byte_len. cbn [snd].
    apply Forall_app in Hsb as [_ Hsb]. by apply (editable_mk a b'), safe_app.
  - unfold left. rewrite Ha. destruct (last_grapheme a) as [g|] eqn:Hg; [|done].
    apply last_grapheme_spec in Hg as [a' ->].
    assert (Hm : editable (TextInput.mk (a' ++ (g ++ b)) (byte_len a'))) by (apply editable_mk; rewrite app_assoc; by apply safe_app).
    replace (byte_len a') with (byte_len (a' ++ g) - byte_len g) in Hm by (rewrite byte_len_app; lia).
    rewrite app_assoc in Hm. exact Hm.
  - unfold right. rewrite Hb. destruct (first_grapheme b) as [g|] eqn:Hg; [|done].
    apply first_grapheme_spec in Hg as [b' ->].
    assert (Hm : editable (TextInput.mk ((a ++ g) ++ b') (byte_len (a ++ g)))) by (apply editable_mk; rewrite <- app_assoc; by apply safe_app).
    replace (byte_len (a ++ g)) with (byte_len g + byte_len a) in Hm by (rewrite byte_len_app; lia).
    rewrite <- app_assoc in Hm. exact Hm.
  - apply (editable_mk [] (a ++ b)). exact (safe_app a b Hsa Hsb).
  - pose proof (editable_mk (a ++ b) []) as H. rewrite app_nil_r in H. apply H. by apply safe_app.
Qed.
Lemma new_input_editable s : editable (new_input s).
Proof.
  unfold new_input. pose proof (editable_mk (sanitize_line s) []) as H. rewrite app_nil_r in H. apply H, sanitize_line_safe.
Qed.
End laws.
End TuiText.
