(* ===== verification/LinePump.v ===== *)
(** * LinePump: output that never blocks

    [kirby-ocpp-tui/src/stdout_pump.rs]: lines go through a bounded queue to a writer thread; a
    line that does not fit is dropped and counted, and a note with the count is written before the
    next line that gets through. The senders and the writer interleave at every operation on the
    counters and on the queue. [queued] is a sum of lengths of texts in memory. *)

From stdpp Require Import strings.
From S2P Require Import Prelude Text Frame TuiText.
Local Open Scope Z_scope.

Module LinePump.
Import TuiText.

Definition QUEUE : nat := Z.to_nat 8192.
Definition QUEUE_BYTES : Z := 16 * 1024 * 1024.

(** A sender holds the lock from the first counter to the last. [Counted]: the bytes of the line
    are counted, [before] were counted already; [Refusing]: they are taken back; [Missing]: the
    line will be counted as dropped; [Leaving]: the writer is gone. *)
Inductive Sender : Type :=
| Outside
| Counted (line : str) (before : Z)
| Refusing (line : str)
| Missing (line : str)
| Leaving (line : str).
(** The writer waits for a line; has taken one, whose bytes are still counted; reads the count of
    dropped lines; writes the note; writes the line. When the queue is closed and empty it writes
    a last note, and ends. *)
Inductive Writer : Type :=
| Waiting
| Taken (line : str)
| Swapping (line : str)
| Noting (missed : Z) (line : str)
| Writing (line : str)
| Closing
| LastNote (missed : Z)
| Ended.
Inductive Sunk : Type := Line (line : str) | Note (missed : Z).

(** [open] as long as the sending end exists; [sunk] is what the sink received, oldest first. *)
Module Pump.
Record t : Type := mk {
  open : bool;
  sender : Sender;
  dropped : Z;
  queued : Z;
  channel : list str;
  writer : Writer;
  sunk : list Sunk;
}.
#[export] Instance eta : Eta t := fun p => mk (open p) (sender p) (dropped p) (queued p) (channel p) (writer p) (sunk p).
End Pump.
Export (hints) Pump.

Section text.
Context {J : SerdeJson} {T : JsonText}.
(** The note about dropped lines, and what the sink receives. *)
Definition note (as_json : bool) (reason : str) (missed : Z) : str :=
  let text := to_string missed ++ lit " output lines were dropped (" ++ reason ++ lit ")" in
  if as_json then json_to_string (Object [(lit "text", String text); (lit "type", String (lit "note"))])
  else lit "note: " ++ text.
Definition sunk_text (as_json : bool) (reason : str) (s : Sunk) : str :=
  match s with Line line => line ++ [10] | Note missed => note as_json reason missed ++ [10] end.
End text.

Section pump.
(** The capacity of the channel and the budget of bytes. *)
Context (lines : nat) (max_bytes : Z).
Implicit Types (p : Pump.t).

(** The writer thread may not have been spawned: then there is no sending end. *)
Definition with_sink (spawned : bool) : Pump.t := Pump.mk spawned Outside 0 0 [] Waiting [].

(** [send], from one shared operation to the next. A closed pump ignores the line. *)
Definition send_begin (line : str) p : Pump.t :=
  if Pump.open p
  then p <| Pump.sender := Counted line (Pump.queued p) |> <| Pump.queued ::= fun n => n + byte_len line |>
  else p.
Definition over_budget (before : Z) (line : str) : bool :=
  (0 <? before) && (max_bytes <? before + byte_len line).
(** [try_send] on the channel: the answer is full, sent or disconnected. *)
Definition try_send (line : str) p : Pump.t :=
  match Pump.writer p with
  | Ended => p <| Pump.sender := Leaving line |>
  | _ => if (length (Pump.channel p) <? lines)%nat
         then p <| Pump.channel ::= fun l => l ++ [line] |> <| Pump.sender := Outside |>
         else p <| Pump.sender := Refusing line |>
  end.
Definition send_counted (line : str) (before : Z) p : Pump.t :=
  if over_budget before line then p <| Pump.sender := Refusing line |> else try_send line p.
Definition uncount (line : str) (next : Sender) p : Pump.t :=
  p <| Pump.queued ::= fun n => n - byte_len line |> <| Pump.sender := next |>.
Definition count_dropped p : Pump.t :=
  p <| Pump.dropped ::= fun n => u64_wrapping_add n 1 |> <| Pump.sender := Outside |>.

(** [finish], which takes the sending end. *)
Definition finish p : Pump.t := p <| Pump.open := false |>.

(** The writer, from one shared operation to the next; nothing when it is blocked or has ended. *)
Definition swap_dropped (next : Z -> Writer) p : Pump.t :=
  p <| Pump.dropped := 0 |> <| Pump.writer := next (Pump.dropped p) |>.
Definition sink (s : Sunk) (next : Writer) p : Pump.t :=
  p <| Pump.sunk ::= fun l => l ++ [s] |> <| Pump.writer := next |>.
Definition writer_step p : option Pump.t :=
  match Pump.writer p with
  | Waiting =>
      match Pump.channel p with
      | line :: rest => Some (p <| Pump.channel := rest |> <| Pump.writer := Taken line |>)
      | [] => if Pump.open p then None else Some (p <| Pump.writer := Closing |>)
      end
  | Taken line => Some (p <| Pump.queued ::= fun n => n - byte_len line |> <| Pump.writer := Swapping line |>)
  | Swapping line => Some (swap_dropped (fun missed => if 0 <? missed then Noting missed line else Writing line) p)
  | Noting missed line => Some (sink (Note missed) (Writing line) p)
  | Writing line => Some (sink (Line line) Waiting p)
  | Closing => Some (swap_dropped (fun missed => if 0 <? missed then LastNote missed else Ended) p)
  | LastNote missed => Some (sink (Note missed) Ended p)
  | Ended => None
  end.

(** A line is offered to an open pump; it is accepted, or dropped. *)
Inductive Fate : Type := Offer (line : str) | Accept (line : str) | Drop (line : str).
Inductive step : Pump.t -> list Fate -> Pump.t -> Prop :=
| step_send p line :
    Pump.sender p = Outside -> step p (if Pump.open p then [Offer line] else []) (send_begin line p)
| step_counted p line before p' :
    Pump.sender p = Counted line before -> send_counted line before p = p' ->
    step p (match Pump.sender p' with Outside => [Accept line] | _ => [] end) p'
| step_refusing p line : Pump.sender p = Refusing line -> step p [] (uncount line (Missing line) p)
| step_missing p line : Pump.sender p = Missing line -> step p [Drop line] (count_dropped p)
| step_leaving p line : Pump.sender p = Leaving line -> step p [] (uncount line Outside p)
| step_finish p : Pump.sender p = Outside -> step p [] (finish p)
| step_writer p p' : writer_step p = Some p' -> step p [] p'.
(** Everything that can happen, with the lines that are offered and what becomes of them. *)
Inductive reachable (spawned : bool) : list Fate -> Pump.t -> Prop :=
| reach_start : reachable spawned [] (with_sink spawned)
| reach_step tr p x p' : reachable spawned tr p -> step p x p' -> reachable spawned (tr ++ x) p'.
End pump.

(** ** What is promised *)

Definition accepted (tr : list Fate) : list str := omap (fun x => match x with Accept l => Some l | _ => None end) tr.
Definition offers (tr : list Fate) : list str := omap (fun x => match x with Offer l => Some l | _ => None end) tr.
(** The lines that were accepted or dropped, in that order. *)
Definition settled (tr : list Fate) : list str := omap (fun x => match x with Offer _ => None | Accept l | Drop l => Some l end) tr.
Definition drops (tr : list Fate) : Z := len (retain (fun x => match x with Drop _ => true | _ => false end) tr).
(** The lines dropped before the one that was accepted as number [n]. *)
Fixpoint dropped_before (n : nat) (tr : list Fate) : Z :=
  match tr, n with
  | [], _ => 0
  | Offer _ :: tr, _ => dropped_before n tr
  | Drop _ :: tr, _ => 1 + dropped_before n tr
  | Accept _ :: _, O => 0
  | Accept _ :: tr, S n => dropped_before n tr
  end.
Definition written (l : list Sunk) : list str := omap (fun s => match s with Line l => Some l | Note _ => None end) l.
Definition noted (l : list Sunk) : Z := fold_right (fun s n => match s with Note m => m | Line _ => 0 end + n) 0 l.
(** Every written line has, before it, notes about at least the lines dropped before it was
    accepted. *)
Definition timely (tr : list Fate) (l : list Sunk) : Prop :=
  forall before line after, l = before ++ Line line :: after ->
  dropped_before (length (written before)) tr <= noted before.
Definition size (l : list str) : Z := fold_right (fun x n => byte_len x + n) 0 l.
(** What waits is within the budget, or is one line (among empty ones) that was too big for it. *)
Definition within (max_bytes : Z) (l : list str) : Prop :=
  size l <= max_bytes \/ exists x, In x l /\ size l = byte_len x.

(** What the writer holds: a line; a line whose bytes are counted; a number that is not written
    yet. *)
Definition hand (w : Writer) : list str :=
  match w with Taken l | Swapping l | Noting _ l | Writing l => [l] | _ => [] end.
Definition taken (w : Writer) : list str := match w with Taken l => [l] | _ => [] end.
Definition unwritten (w : Writer) : Z := match w with Noting m _ | LastNote m => m | _ => 0 end.
(** The line whose fate the sender has not decided yet. *)
Definition undecided (s : Sender) : list str :=
  match s with Counted l _ | Refusing l | Missing l => [l] | Outside | Leaving _ => [] end.
Definition counted (s : Sender) : Z := match s with Counted l _ | Refusing l | Leaving l => byte_len l | _ => 0 end.
Definition finishing (w : Writer) : Prop := match w with Closing | LastNote _ | Ended => True | _ => False end.

Lemma size_app l l' : size (l ++ l') = size l + size l'.
Proof. unfold size. induction l as [|x l IH]; simpl; lia. Qed.
Lemma size_snoc l x : size (l ++ [x]) = size l + byte_len x.
Proof. rewrite size_app. unfold size at 2. simpl. lia. Qed.
Lemma size_nonneg l : 0 <= size l.
Proof. unfold size. induction l as [|x l IH]; simpl; [lia|]. pose proof (byte_len_ge_0 x). lia. Qed.
Lemma size_in x l : In x l -> byte_len x <= size l.
Proof.
  unfold size. induction l as [|y l IH]; simpl; [done|]. pose proof (size_nonneg l) as H1. unfold size in H1. pose proof (byte_len_ge_0 y).
  intros [->|Hx]; [lia|]. specialize (IH Hx). lia.
Qed.
Lemma written_app l l' : written (l ++ l') = written l ++ written l'.
Proof. apply omap_app. Qed.
Lemma accepted_app tr tr' : accepted (tr ++ tr') = accepted tr ++ accepted tr'.
Proof. apply omap_app. Qed.
Lemma offers_app tr tr' : offers (tr ++ tr') = offers tr ++ offers tr'.
Proof. apply omap_app. Qed.
Lemma settled_app tr tr' : settled (tr ++ tr') = settled tr ++ settled tr'.
Proof. apply omap_app. Qed.
Lemma drops_app tr tr' : drops (tr ++ tr') = drops tr + drops tr'.
Proof. unfold drops, len. rewrite List.filter_app, length_app. lia. Qed.
Lemma drops_accept tr l : drops (tr ++ [Accept l]) = drops tr.
Proof. rewrite drops_app. apply Z.add_0_r. Qed.
Lemma drops_offer tr l : drops (tr ++ [Offer l]) = drops tr.
Proof. rewrite drops_app. apply Z.add_0_r. Qed.
Lemma drops_drop tr l : drops (tr ++ [Drop l]) = drops tr + 1.
Proof. by rewrite drops_app. Qed.
Lemma noted_app l l' : noted (l ++ l') = noted l + noted l'.
Proof. unfold noted. induction l as [|s l IH]; simpl; lia. Qed.
Lemma drops_le tr : 0 <= drops tr <= len tr.
Proof. unfold drops, len. pose proof (filter_length_le (fun x => match x with Drop _ => true | _ => false end) tr). lia. Qed.
Lemma dropped_before_le n tr : 0 <= dropped_before n tr <= drops tr.
Proof.
  revert n. induction tr as [|[l|l|l] tr IH]; intros n; simpl; [done| |destruct n as [|n]; simpl|].
  - specialize (IH n). unfold drops in *. simpl. lia.
  - pose proof (drops_le tr) as H. unfold drops in *. simpl. lia.
  - specialize (IH n). unfold drops in *. simpl. lia.
  - specialize (IH n). unfold drops, len in *. simpl. lia.
Qed.
(** What happens later does not matter to a line that was accepted. *)
Lemma dropped_before_later n tr tr' : (n < length (accepted tr))%nat -> dropped_before n (tr ++ tr') = dropped_before n tr.
Proof.
  revert n. induction tr as [|[l|l|l] tr IH]; intros n Hn; simpl in *; [lia| |destruct n as [|n]; [done|]|].
  - by apply IH.
  - apply IH. lia.
  - f_equal. by apply IH.
Qed.
Lemma within_tail max_bytes x l : 0 <= max_bytes -> within max_bytes (x :: l) -> within max_bytes l.
Proof.
  unfold within. simpl. pose proof (byte_len_ge_0 x). pose proof (size_nonneg l). intros Hm [Hs|(y & [<-|Hy] & Hs)].
  - left. lia.
  - left. lia.
  - right. exists y. split; [done|]. pose proof (size_in y l Hy). lia.
Qed.
Lemma timely_snoc tr l x :
  timely tr l -> (forall line, x = Line line -> dropped_before (length (written l)) tr <= noted l) -> timely tr (l ++ [x]).
Proof.
  intros Ht Hx before line after He. destruct after as [|s a _] using rev_ind.
  - apply app_inj_tail in He as [-> ->]. by apply (Hx line).
  - rewrite app_comm_cons, app_assoc in He. apply app_inj_tail in He as [He _]. by apply (Ht before line a).
Qed.
Lemma timely_later tr x l : (length (written l) <= length (accepted tr))%nat -> timely tr l -> timely (tr ++ x) l.
Proof.
  intros Hn Ht before line after He. rewrite dropped_before_later; [by apply (Ht before line after)|].
  rewrite He, written_app, length_app in Hn. simpl in Hn. lia.
Qed.

Section invariant.
Context (lines : nat) (max_bytes : Z).
Implicit Types (p : Pump.t).

Record inv (tr : list Fate) p : Prop := {
  i_order : written (Pump.sunk p) ++ hand (Pump.writer p) ++ Pump.channel p = accepted tr;
  i_drops : noted (Pump.sunk p) + unwritten (Pump.writer p) + Pump.dropped p = drops tr;
  i_signs : 0 <= Pump.dropped p /\ 0 <= unwritten (Pump.writer p) /\ 0 <= noted (Pump.sunk p);
  i_queued : Pump.queued p = size (taken (Pump.writer p) ++ Pump.channel p) + counted (Pump.sender p);
  i_room : (length (Pump.channel p) <= lines)%nat;
  i_within : within max_bytes (taken (Pump.writer p) ++ Pump.channel p);
  i_before : forall line before, Pump.sender p = Counted line before -> size (taken (Pump.writer p) ++ Pump.channel p) <= before;
  i_timely : timely tr (Pump.sunk p);
  i_next : forall line, (exists m, Pump.writer p = Noting m line) \/ Pump.writer p = Writing line ->
    dropped_before (length (written (Pump.sunk p))) tr <= noted (Pump.sunk p) + unwritten (Pump.writer p);
  i_closed : Pump.open p = false -> Pump.sender p = Outside;
  i_end : finishing (Pump.writer p) -> Pump.open p = false /\ Pump.channel p = [];
  i_offers : offers tr = settled tr ++ undecided (Pump.sender p);
  i_stays : forall line, Pump.sender p <> Leaving line;
  i_last : Pump.writer p = Ended \/ (exists m, Pump.writer p = LastNote m) -> Pump.dropped p = 0;
}.

Lemma inv_start spawned : 0 <= max_bytes -> inv [] (with_sink spawned).
Proof. intros Hm. constructor; try done; simpl; try lia; [by left|]. by intros [] ? ? [=]. Qed.

(** *** The sender *)

Lemma inv_begin tr p line :
  inv tr p -> Pump.sender p = Outside ->
  inv (tr ++ if Pump.open p then [Offer line] else []) (send_begin line p).
Proof.
  intros Hi Hs. unfold send_begin. destruct (Pump.open p) eqn:Ho; [|by rewrite app_nil_r].
  destruct Hi as [H1 H2 H3 H4 H5 H6 H7 H8 H9 H10 H11 Ho1 Ho2 H12].
  assert (Hn : (length (written (Pump.sunk p)) <= length (accepted tr))%nat) by (rewrite <- H1, length_app; lia).
  rewrite Hs in H4, Ho1. simpl in H4, Ho1. constructor; simpl; try done; try lia.
  - rewrite accepted_app. simpl. by rewrite app_nil_r.
  - by rewrite drops_offer.
  - intros l b [= _ <-]. lia.
  - by apply timely_later.
  - intros l Hw. rewrite dropped_before_later; [by apply (H9 l)|]. rewrite <- H1, !length_app.
    destruct Hw as [[m Hw]|Hw]; rewrite Hw; simpl; lia.
  - by rewrite Ho.
  - rewrite offers_app, settled_app, Ho1. simpl. by rewrite !app_nil_r.
Qed.
(** An operation of the sender that touches only its own state and the count of bytes. *)
Lemma inv_sender tr p next n :
  inv tr p -> Pump.open p = true -> undecided next = undecided (Pump.sender p) ->
  (forall line, next <> Leaving line) -> n + counted (Pump.sender p) = Pump.queued p + counted next ->
  (forall line before, next = Counted line before -> size (taken (Pump.writer p) ++ Pump.channel p) <= before) ->
  inv tr (p <| Pump.queued := n |> <| Pump.sender := next |>).
Proof.
  intros [H1 H2 H3 H4 H5 H6 H7 H8 H9 H10 H11 Ho1 Ho2 H12] Ho Hu Hl Hn Hb.
  constructor; simpl; try done; try lia; [by rewrite Ho|by rewrite Hu].
Qed.
Lemma busy_open tr p : inv tr p -> Pump.sender p <> Outside -> Pump.open p = true.
Proof. intros Hi Hs. destruct (Pump.open p) eqn:Ho; [done|]. by destruct Hs; apply (i_closed _ _ Hi). Qed.
Lemma inv_accept tr p line before :
  inv tr p -> Pump.sender p = Counted line before -> over_budget max_bytes before line = false ->
  (length (Pump.channel p) < lines)%nat ->
  inv (tr ++ [Accept line]) (p <| Pump.channel ::= fun l => l ++ [line] |> <| Pump.sender := Outside |>).
Proof.
  intros Hi Hs Hb Hl. assert (Ho := busy_open _ _ Hi ltac:(by rewrite Hs)). destruct Hi as [H1 H2 H3 H4 H5 H6 H7 H8 H9 H10 H11 Ho1 Ho2 H12].
  assert (Hn : (length (written (Pump.sunk p)) <= length (accepted tr))%nat) by (rewrite <- H1, length_app; lia).
  specialize (H7 _ _ Hs). rewrite Hs in H4. simpl in H4. constructor; simpl; try done.
  - rewrite accepted_app, <- H1. simpl. by rewrite !app_assoc.
  - by rewrite drops_accept.
  - rewrite app_assoc, size_snoc, H4. lia.
  - rewrite length_app. simpl. lia.
  - unfold over_budget in Hb. rewrite app_assoc. unfold within. rewrite size_snoc.
    pose proof (size_nonneg (taken (Pump.writer p) ++ Pump.channel p)). destruct (Z.ltb_spec 0 before); simpl in Hb.
    + left. apply Z.ltb_ge in Hb. lia.
    + right. exists line. split; [apply in_app_iff; right; by left|]. lia.
  - by apply timely_later.
  - intros l Hw. rewrite dropped_before_later; [by apply (H9 l)|]. rewrite <- H1, !length_app.
    destruct Hw as [[m Hw]|Hw]; rewrite Hw; simpl; lia.
  - intros Hf. apply H11 in Hf as [Hf _]. congruence.
  - rewrite offers_app, settled_app, Ho1, Hs. simpl. by rewrite !app_nil_r.
Qed.
Lemma inv_drop tr p line :
  inv tr p -> Pump.sender p = Missing line -> Pump.dropped p < u64_max ->
  inv (tr ++ [Drop line]) (count_dropped p).
Proof.
  intros Hi Hs Hd. assert (Ho := busy_open _ _ Hi ltac:(by rewrite Hs)). destruct Hi as [H1 H2 H3 H4 H5 H6 H7 H8 H9 H10 H11 Ho1 Ho2 H12].
  assert (Hn : (length (written (Pump.sunk p)) <= length (accepted tr))%nat) by (rewrite <- H1, length_app; lia).
  assert (Hadd : u64_wrapping_add (Pump.dropped p) 1 = Pump.dropped p + 1) by (unfold u64_wrapping_add; apply Z.mod_small; lia).
  rewrite Hs in H4. simpl in H4. constructor; simpl; rewrite ?Hadd; try done; try lia.
  - rewrite accepted_app. simpl. by rewrite app_nil_r.
  - rewrite drops_drop. lia.
  - by apply timely_later.
  - intros l Hw. rewrite dropped_before_later; [by apply (H9 l)|]. rewrite <- H1, !length_app.
    destruct Hw as [[m Hw]|Hw]; rewrite Hw; simpl; lia.
  - rewrite offers_app, settled_app, Ho1, Hs. simpl. by rewrite !app_nil_r.
  - intros Hf. assert (Hfin : finishing (Pump.writer p)) by (destruct Hf as [->|[m ->]]; done).
    apply H11 in Hfin as [Hfin _]. congruence.
Qed.
Lemma inv_finish tr p : inv tr p -> Pump.sender p = Outside -> inv tr (finish p).
Proof. intros [H1 H2 H3 H4 H5 H6 H7 H8 H9 H10 H11 Ho1 Ho2 H12] Hs. constructor; simpl; try done. intros Hf. split; [done|]. by apply H11. Qed.

(** *** The writer *)

Lemma inv_take tr p line rest :
  0 <= max_bytes -> inv tr p -> Pump.writer p = Waiting -> Pump.channel p = line :: rest ->
  inv tr (p <| Pump.channel := rest |> <| Pump.writer := Taken line |>).
Proof.
  intros Hm [H1 H2 H3 H4 H5 H6 H7 H8 H9 H10 H11 Ho1 Ho2 H12] Hw Hc. rewrite Hw, Hc in *. simpl in *.
  constructor; simpl; try done; try lia; naive_solver.
Qed.
Lemma inv_uncount tr p line :
  0 <= max_bytes -> inv tr p -> Pump.writer p = Taken line ->
  inv tr (p <| Pump.queued ::= fun n => n - byte_len line |> <| Pump.writer := Swapping line |>).
Proof.
  intros Hm [H1 H2 H3 H4 H5 H6 H7 H8 H9 H10 H11 Ho1 Ho2 H12] Hw. rewrite Hw in *. simpl in *.
  pose proof (byte_len_ge_0 line). constructor; simpl; try done; try lia.
  - by apply (within_tail _ line).
  - intros l b Hb. specialize (H7 l b Hb). lia.
  - naive_solver.
  - naive_solver.
Qed.
Lemma inv_swap tr p line :
  inv tr p -> Pump.writer p = Swapping line ->
  inv tr (swap_dropped (fun missed => if 0 <? missed then Noting missed line else Writing line) p).
Proof.
  intros [H1 H2 H3 H4 H5 H6 H7 H8 H9 H10 H11 Ho1 Ho2 H12] Hw. rewrite Hw in *. simpl in *.
  pose proof (dropped_before_le (length (written (Pump.sunk p))) tr). unfold swap_dropped.
  destruct (Z.ltb_spec 0 (Pump.dropped p)); constructor; simpl; try done; try lia; intros; lia.
Qed.
Lemma inv_note tr p m line :
  inv tr p -> Pump.writer p = Noting m line -> inv tr (sink (Note m) (Writing line) p).
Proof.
  intros [H1 H2 H3 H4 H5 H6 H7 H8 H9 H10 H11 Ho1 Ho2 H12] Hw. rewrite Hw in *. simpl in *.
  constructor; simpl; rewrite ?written_app, ?noted_app; simpl; rewrite ?app_nil_r; try done; try lia.
  - by apply timely_snoc.
  - intros l Hl. specialize (H9 line ltac:(left; by exists m)). lia.
  - naive_solver.
Qed.
Lemma inv_write tr p line :
  inv tr p -> Pump.writer p = Writing line -> inv tr (sink (Line line) Waiting p).
Proof.
  intros [H1 H2 H3 H4 H5 H6 H7 H8 H9 H10 H11 Ho1 Ho2 H12] Hw. rewrite Hw in *. simpl in *.
  constructor; simpl; rewrite ?written_app, ?noted_app; simpl; try done; try lia.
  - by rewrite <- app_assoc.
  - apply timely_snoc; [done|]. intros l _. specialize (H9 line ltac:(by right)). lia.
  - naive_solver.
  - naive_solver.
Qed.
Lemma inv_close tr p :
  inv tr p -> Pump.writer p = Closing ->
  inv tr (swap_dropped (fun missed => if 0 <? missed then LastNote missed else Ended) p).
Proof.
  intros [H1 H2 H3 H4 H5 H6 H7 H8 H9 H10 H11 Ho1 Ho2 H12] Hw. rewrite Hw in *. simpl in *. unfold swap_dropped.
  destruct (Z.ltb_spec 0 (Pump.dropped p)); constructor; simpl; try done; try lia; naive_solver.
Qed.
Lemma inv_writer tr p p' : 0 <= max_bytes -> inv tr p -> writer_step p = Some p' -> inv tr p'.
Proof.
  intros Hm Hi. unfold writer_step. destruct (Pump.writer p) as [|l|l|m l|l| |m|] eqn:Hw; [|intros [= <-]..|done].
  - destruct (Pump.channel p) as [|line rest] eqn:Hc; [|intros [= <-]; by apply inv_take].
    destruct (Pump.open p) eqn:Ho; [done|]. intros [= <-]. destruct Hi as [H1 H2 H3 H4 H5 H6 H7 H8 H9 H10 H11 Ho1 Ho2 H12].
    rewrite Hw in *. constructor; simpl; try done; naive_solver.
  - by apply inv_uncount.
  - by apply inv_swap.
  - by apply inv_note.
  - by apply inv_write.
  - by apply inv_close.
  - destruct Hi as [H1 H2 H3 H4 H5 H6 H7 H8 H9 H10 H11 Ho1 Ho2 H12]. rewrite Hw in *. simpl in *.
    constructor; simpl; rewrite ?written_app, ?noted_app; simpl; rewrite ?app_nil_r; try done; try lia; [by apply timely_snoc|naive_solver..].
Qed.

(** The writer has not ended while a sender is at work. *)
Lemma busy_writer tr p : inv tr p -> Pump.sender p <> Outside -> Pump.writer p <> Ended.
Proof.
  intros Hi Hs Hw. assert (Ho := busy_open _ _ Hi Hs).
  destruct (i_end _ _ Hi) as [Hc _]; [by rewrite Hw|]. congruence.
Qed.
(** Whether a line gets through is decided by the room and the bytes counted before. *)
Lemma try_send_spec tr p line before :
  inv tr p -> Pump.sender p = Counted line before ->
  send_counted lines max_bytes line before p =
  if (length (Pump.channel p) <? lines)%nat && negb (over_budget max_bytes before line)
  then p <| Pump.channel ::= fun l => l ++ [line] |> <| Pump.sender := Outside |>
  else p <| Pump.sender := Refusing line |>.
Proof.
  intros Hi Hs. assert (Hw := busy_writer _ _ Hi ltac:(by rewrite Hs)).
  unfold send_counted, try_send. destruct (over_budget _ _ _); [by rewrite andb_false_r|].
  rewrite andb_true_r. by destruct (Pump.writer p).
Qed.

Lemma accepted_exactly tr p :
  inv tr p -> forall line before, Pump.sender p = Counted line before ->
  let p' := send_counted lines max_bytes line before p in
  let fits := (length (Pump.channel p) < lines)%nat /\
              (before <= 0 \/ before + byte_len line <= max_bytes) in
  (fits -> Pump.sender p' = Outside /\ Pump.channel p' = Pump.channel p ++ [line]) /\
  (~ fits -> Pump.sender p' = Refusing line /\ Pump.channel p' = Pump.channel p).
Proof.
  intros Hi line before Hs. cbv zeta. rewrite (try_send_spec tr p line before Hi Hs).
  unfold over_budget. destruct (Nat.ltb_spec (length (Pump.channel p)) lines), (Z.ltb_spec 0 before),
    (Z.ltb_spec max_bytes (before + byte_len line)); simpl; (split; intros Hf; [|done || (exfalso; apply Hf)]);
    try done; lia.
Qed.

Lemma pump_inv_step tr p x p' :
  0 <= max_bytes -> drops (tr ++ x) <= u64_max -> inv tr p -> step lines max_bytes p x p' -> inv (tr ++ x) p'.
Proof.
  intros Hm Hlen Hi Hst. destruct Hst as [p line Hs|p line before p' Hs <-|p line Hs|p line Hs|p line Hs|p Hs|p p' Hw];
    rewrite ?app_nil_r in *.
  - by apply inv_begin.
  - rewrite (try_send_spec tr p line before Hi Hs).
    destruct (Nat.ltb_spec (length (Pump.channel p)) lines); destruct (over_budget _ _ _) eqn:Hb; cbn [negb andb];
      try (simpl; rewrite app_nil_r; apply (inv_sender tr p (Refusing line) (Pump.queued p));
           [done|by apply (busy_open tr); [|rewrite Hs]|by rewrite Hs|done|by rewrite Hs|done]).
    by apply (inv_accept tr p line before).
  - apply (inv_sender tr p (Missing line)); [done|by apply (busy_open tr); [|rewrite Hs]|by rewrite Hs|done|rewrite Hs; simpl; lia|done].
  - apply (inv_drop tr p line); [done..|]. destruct Hi as [_ H2 H3 _ _ _ _ _ _ _ _ _ _ _].
    rewrite drops_drop in Hlen. lia.
  - by destruct (i_stays _ _ Hi line).
  - by apply inv_finish.
  - by apply (inv_writer tr p p').
Qed.
Lemma inv_reachable spawned tr p :
  0 <= max_bytes -> reachable lines max_bytes spawned tr p -> drops tr <= u64_max -> inv tr p.
Proof.
  intros Hm. induction 1 as [|tr p x p' _ IH Hst]; intros Hlen; [by apply inv_start|].
  apply (pump_inv_step tr p x p'); try done. apply IH. rewrite drops_app in Hlen. pose proof (drops_le x). lia.
Qed.

(** ** The senders are never blocked *)

Definition patience (s : Sender) : nat :=
  match s with Counted _ _ => 3 | Refusing _ => 2 | Missing _ | Leaving _ => 1 | Outside => 0 end.
Lemma sender_moves p :
  Pump.sender p <> Outside ->
  exists x p', step lines max_bytes p x p' /\ Pump.writer p' = Pump.writer p /\
    (patience (Pump.sender p') < patience (Pump.sender p))%nat.
Proof.
  intros Hs. destruct (Pump.sender p) as [|l b|l|l|l] eqn:E; [done|..].
  - eexists _, _. split; [by eapply step_counted|]. unfold send_counted, try_send.
    repeat case_match; simpl; split; try done; lia.
  - eexists _, _. split; [by eapply step_refusing|]. simpl. split; [done|lia].
  - eexists _, _. split; [by eapply step_missing|]. simpl. split; [done|lia].
  - eexists _, _. split; [by eapply step_leaving|]. simpl. split; [done|lia].
Qed.

(** ** A closed pump runs dry *)

(** Steps the writer of a closed pump has left, at most. *)
Definition rounds p : nat :=
  match Pump.writer p with
  | Waiting => 3
  | Taken _ => 7
  | Swapping _ => 6
  | Noting _ _ => 5
  | Writing _ => 4
  | Closing => 2
  | LastNote _ => 1
  | Ended => 0
  end + 5 * length (Pump.channel p).
Fixpoint drain (n : nat) p : Pump.t :=
  match n with
  | O => p
  | S n => match writer_step p with Some p' => drain n p' | None => p end
  end.
Lemma writer_moves p :
  Pump.open p = false -> (finishing (Pump.writer p) -> Pump.channel p = []) ->
  match writer_step p with
  | Some p' => (rounds p' < rounds p)%nat /\ Pump.open p' = false /\ (finishing (Pump.writer p') -> Pump.channel p' = [])
  | None => Pump.writer p = Ended
  end.
Proof.
  intros Ho Hf. unfold writer_step, rounds. destruct (Pump.writer p) as [|l|l|m l|l| |m|] eqn:Hw; simpl; try done;
    try (split; [lia|split; [done|by intros []]]); try (split; [lia|split; [done|intros _; by apply Hf]]).
  - rewrite Ho. destruct (Pump.channel p) as [|x c] eqn:Hc; simpl; [split; [lia|done]|]. split; [lia|done].
  - destruct (0 <? Pump.dropped p); simpl; (split; [lia|split; [done|by intros []]]).
  - destruct (0 <? Pump.dropped p); simpl; (split; [lia|split; [done|intros _; by apply Hf]]).
Qed.
Lemma drain_ends n p :
  Pump.open p = false -> (finishing (Pump.writer p) -> Pump.channel p = []) -> (rounds p <= n)%nat ->
  Pump.writer (drain n p) = Ended.
Proof.
  revert p. induction n as [|n IH]; intros p Ho Hf Hn; simpl; pose proof (writer_moves p Ho Hf) as Hm.
  - destruct (writer_step p); [lia|done].
  - destruct (writer_step p) as [p'|]; [|done]. destruct Hm as (H1 & H2 & H3). apply IH; [done|done|lia].
Qed.
Lemma drain_reachable spawned tr n p :
  reachable lines max_bytes spawned tr p -> reachable lines max_bytes spawned tr (drain n p).
Proof.
  revert p. induction n as [|n IH]; intros p Hr; simpl; [done|]. destruct (writer_step p) as [p'|] eqn:Hw; [|done].
  apply IH. rewrite <- (app_nil_r tr). apply (reach_step _ _ _ _ p); [done|by apply step_writer].
Qed.
End invariant.

(** Claim C27: every line that is offered to the pump is accounted for, whatever the senders and the
    writer do in between. Each line that is offered is accepted or dropped, once and in the order
    of the offers, but for the one that a sender is deciding on; it is accepted exactly if the
    queue has room for it and it fits the budget of bytes or nothing was counted before it. The
    lines that were accepted are written, in order, or in the hands of the writer, or wait; the
    lines that were dropped are counted by the notes and the counter, each once, and no line is
    written before a note about the lines dropped before it was accepted. What waits is bounded by
    the number of lines and by the bytes (but for one line that is too big alone). A sender never
    waits for the writer. When the writer has ended, all accepted lines are written and all dropped
    ones are noted. *)
Theorem output_accounted lines max_bytes spawned tr p :
  0 <= max_bytes -> reachable lines max_bytes spawned tr p -> drops tr <= u64_max ->
  offers tr = settled tr ++ undecided (Pump.sender p) /\
  (forall line before, Pump.sender p = Counted line before ->
     let p' := send_counted lines max_bytes line before p in
     let fits := (length (Pump.channel p) < lines)%nat /\
                 (before <= 0 \/ before + byte_len line <= max_bytes) in
     (fits -> Pump.sender p' = Outside /\ Pump.channel p' = Pump.channel p ++ [line]) /\
     (~ fits -> Pump.sender p' = Refusing line /\ Pump.channel p' = Pump.channel p)) /\
  written (Pump.sunk p) ++ hand (Pump.writer p) ++ Pump.channel p = accepted tr /\
  noted (Pump.sunk p) + unwritten (Pump.writer p) + Pump.dropped p = drops tr /\
  timely tr (Pump.sunk p) /\
  (length (Pump.channel p) <= lines)%nat /\ within max_bytes (Pump.channel p) /\
  (Pump.sender p <> Outside -> exists x p', step lines max_bytes p x p' /\ Pump.writer p' = Pump.writer p /\
     (patience (Pump.sender p') < patience (Pump.sender p))%nat) /\
  (Pump.writer p = Ended -> written (Pump.sunk p) = accepted tr /\ noted (Pump.sunk p) = drops tr).
Proof.
  intros Hm Hr Hlen. pose proof (inv_reachable _ _ _ _ _ Hm Hr Hlen) as Hi.
  assert (Hdec := accepted_exactly lines max_bytes tr p Hi).
  destruct Hi as [H1 H2 H3 H4 H5 H6 H7 H8 H9 H10 H11 Ho1 Ho2 H12].
  split_and!; try done.
  - destruct (Pump.writer p) as [|l|l|m l|l| |m|]; try done. by apply (within_tail _ l).
  - apply sender_moves.
  - intros He. rewrite He in *. destruct (H11 I) as [_ Hc]. rewrite Hc in H1. simpl in *. rewrite app_nil_r in H1.
    split; [done|]. rewrite H12 in H2 by (by left). lia.
Qed.

(** Claim C28: a pump that is closed runs dry. From any point after [finish], in at most [rounds] steps
    of its own, whatever was queued, the writer ends, having written every line that was ever
    accepted and noted every line that was dropped. *)
Theorem finish_flushes lines max_bytes spawned tr p :
  0 <= max_bytes -> reachable lines max_bytes spawned tr p -> drops tr <= u64_max -> Pump.open p = false ->
  let q := drain (rounds p) p in
  Pump.writer q = Ended /\ written (Pump.sunk q) = accepted tr /\ noted (Pump.sunk q) = drops tr.
Proof.
  intros Hm Hr Hlen Ho. cbv zeta. pose proof (inv_reachable _ _ _ _ _ Hm Hr Hlen) as Hi.
  assert (He : Pump.writer (drain (rounds p) p) = Ended) by (apply drain_ends; [done|apply (i_end _ _ _ _ Hi)|lia]).
  split; [done|]. apply (drain_reachable lines max_bytes spawned tr (rounds p)) in Hr.
  destruct (inv_reachable _ _ _ _ _ Hm Hr Hlen) as [H1 H2 H3 H4 H5 H6 H7 H8 H9 H10 H11 Ho1 Ho2 H12].
  rewrite He in *. destruct (H11 I) as [_ Hc]. rewrite Hc in H1. simpl in *. rewrite app_nil_r in H1.
  split; [done|]. rewrite H12 in H2 by (by left). lia.
Qed.

(** ** A queue of one line *)

Definition offered (line : str) (p : Pump.t) : Pump.t := send_counted 1 100 line (Pump.queued p) (send_begin line p).
Definition one_waits : Pump.t := offered (lit "a") (with_sink true).
Definition one_refused : Pump.t := count_dropped (uncount (lit "b") (Missing (lit "b")) (offered (lit "b") one_waits)).
Definition pump_closed : Pump.t := finish one_refused.
Lemma step_offer p line before x :
  Pump.sender p = Counted line before ->
  match Pump.sender (send_counted 1 100 line before p) with Outside => [Accept line] | _ => [] end = x ->
  step 1 100 p x (send_counted 1 100 line before p).
Proof. intros Hs <-. by eapply step_counted. Qed.
Definition two_lines : list Fate := [Offer (lit "a"); Accept (lit "a"); Offer (lit "b"); Drop (lit "b")].
Lemma step_begin p line :
  Pump.open p = true -> Pump.sender p = Outside -> step 1 100 p [Offer line] (send_begin line p).
Proof. intros Ho Hs. pose proof (step_send 1 100 p line Hs) as H. by rewrite Ho in H. Qed.
Lemma reach_more tr p x p' tr' :
  reachable 1 100 true tr p -> step 1 100 p x p' -> tr ++ x = tr' -> reachable 1 100 true tr' p'.
Proof. intros Hr Hs <-. by eapply reach_step. Qed.
Lemma closed_reachable : reachable 1 100 true two_lines pump_closed.
Proof.
  apply (reach_more two_lines one_refused []); [|by apply step_finish|done].
  apply (reach_more (take 3 two_lines) (uncount (lit "b") (Missing (lit "b")) (offered (lit "b") one_waits)) [Drop (lit "b")]);
    [|by apply step_missing|done].
  apply (reach_more (take 3 two_lines) (offered (lit "b") one_waits) []); [|by apply step_refusing|done].
  apply (reach_more (take 3 two_lines) (send_begin (lit "b") one_waits) []); [|by apply (step_offer _ (lit "b") 1)|done].
  apply (reach_more (take 2 two_lines) one_waits [Offer (lit "b")]); [|by apply step_begin|done].
  apply (reach_more (take 1 two_lines) (send_begin (lit "a") (with_sink true)) [Accept (lit "a")]); [|by apply (step_offer _ (lit "a") 0)|done].
  apply (reach_more [] (with_sink true) [Offer (lit "a")]); [apply reach_start|by apply step_begin|done].
Qed.
Lemma output_accounted_witness :
  reachable 1 100 true two_lines pump_closed /\
  offers two_lines = settled two_lines /\
  written (Pump.sunk pump_closed) ++ hand (Pump.writer pump_closed) ++ Pump.channel pump_closed = [lit "a"].
Proof.
  destruct (output_accounted 1 100 true two_lines pump_closed) as (Ho & _ & Hw & _);
    [lia|apply closed_reachable|vm_compute; discriminate|].
  split; [apply closed_reachable|]. split; [|exact Hw].
  rewrite Ho. reflexivity.
Defined.
Lemma finish_flushes_witness :
  Pump.writer (drain (rounds pump_closed) pump_closed) = Ended /\
  Pump.sunk (drain (rounds pump_closed) pump_closed) = [Note 1; Line (lit "a")].
Proof.
  split; [|reflexivity].
  apply (finish_flushes 1 100 true two_lines pump_closed); [lia|apply closed_reachable|vm_compute; discriminate|reflexivity].
Defined.
End LinePump.
