(* ===== verification/Pem.v ===== *)
(** * Pem: PEM blocks typed into one line

    [normalize_pem] of [kirby-csms-tui/src/form.rs]. A paste turns the line breaks of a
    certificate into spaces; the blocks are rebuilt with base64 lines of 64 characters. *)

From stdpp Require Import strings.
From S2P Require Import Prelude Text Strings TuiText.
Local Open Scope Z_scope.

Module Pem.
Import TuiText.

Definition dashes : str := lit "-----".
Definition header (label : str) : str := lit "-----BEGIN " ++ label ++ dashes.
Definition footer (label : str) : str := lit "-----END " ++ label ++ dashes.

(** The bytes a body may have. *)
Definition is_base64 (c : char) : bool :=
  is_ascii_digit c || is_ascii_upper c || ((97 <=? c) && (c <=? 122)) || (c =? 43) || (c =? 47) || (c =? 61).
(** [body.split_whitespace().collect()] *)
Definition squeeze (body : str) : str := retain (fun c => negb (is_whitespace c)) body.
(** [data.chunks(64)] *)
Fixpoint chunks (fuel : nat) (data : str) : list str :=
  match fuel, data with
  | S fuel, _ :: _ => firstn 64 data :: chunks fuel (skipn 64 data)
  | _, _ => []
  end.
Definition rebuilt (label data : str) : str :=
  header label ++ [10] ++ flat_map (fun chunk => chunk ++ [10]) (chunks (length data) data) ++ footer label ++ [10].

(** One block: its text and what follows it. *)
Definition block (rest : str) : result (str * str) str :=
  match strip_prefix (lit "-----BEGIN ") rest with
  | None => Err (lit "expected a PEM block starting with -----BEGIN ...-----")
  | Some after =>
      match split_once_text dashes after with
      | None => Err (lit "unterminated -----BEGIN line")
      | Some (label, body_and_tail) =>
          match split_once_text (footer label) body_and_tail with
          | None => Err (lit "missing " ++ sanitize (footer label))
          | Some (body, tail) =>
              let data := squeeze body in
              match data with
              | [] => Err (lit "the PEM body is not base64")
              | _ :: _ =>
                  if all is_base64 data then Ok (rebuilt label data, trim_start tail)
                  else Err (lit "the PEM body is not base64")
              end
          end
      end
  end.
(** The loop; a block is never empty, so the length of the text is enough fuel. *)
Fixpoint blocks (fuel : nat) (rest out : str) : result str str :=
  match fuel, rest with
  | S fuel, _ :: _ =>
      match block rest with
      | Ok (text, rest) => blocks fuel rest (out ++ text)
      | Err e => Err e
      end
  | _, _ => Ok out
  end.
Definition normalize_pem (text : str) (max : Z) : result str str :=
  let rest := trim text in
  match rest with
  | [] => Err (lit "required")
  | _ :: _ =>
      let! out := blocks (length rest) rest [] in
      if max <? chars_count out then Err (lit "longer than " ++ to_string max ++ lit " characters") else Ok out
  end.

(** ** What a rebuilt text says *)

Definition is_body (data : str) : Prop := data <> [] /\ Forall (fun c => is_base64 c = true) data.
(** A label ends at the first five dashes. *)
Definition is_label (label : str) : Prop := split_once_text dashes (label ++ dashes) = Some (label, []).
(** The blocks a text consists of: label, base64 data. *)
Inductive reads : list (str * str) -> str -> Prop :=
| reads_end : reads [] []
| reads_block label body spaces bs rest :
    is_label label -> is_body (squeeze body) -> Forall (fun c => is_whitespace c = true) spaces ->
    reads bs rest -> reads ((label, squeeze body) :: bs) (header label ++ body ++ footer label ++ spaces ++ rest).
(** The blocks with [sep] for the ends of lines, and no separator at the end. *)
Definition spread_block (sep : char) (b : str * str) : str :=
  header b.1 ++ [sep] ++ flat_map (fun chunk => chunk ++ [sep]) (chunks (length b.2) b.2) ++ footer b.1.
Definition spread (sep : char) (bs : list (str * str)) : str := join_with [sep] (map (spread_block sep) bs).
Definition printed (bs : list (str * str)) : str := concat (map (fun b => rebuilt b.1 b.2) bs).
Definition is_sep (sep : char) : Prop := is_whitespace sep = true /\ sep <> 45.

Lemma trim_start_split s : exists spaces, s = spaces ++ trim_start s /\ Forall (fun c => is_whitespace c = true) spaces.
Proof.
  induction s as [|c s (w & IH & Hw)]; [by exists []|]. cbn [trim_start].
  destruct (is_whitespace c) eqn:E; [|by exists []]. exists (c :: w). split; [by cbn; f_equal|by constructor].
Qed.
Lemma block_reads rest text tail :
  block rest = Ok (text, tail) ->
  exists label body spaces, rest = header label ++ body ++ footer label ++ spaces ++ tail
    /\ text = rebuilt label (squeeze body) /\ is_label label /\ is_body (squeeze body)
    /\ Forall (fun c => is_whitespace c = true) spaces.
Proof.
  unfold block. destruct (strip_prefix _ rest) as [after|] eqn:E1; [|done].
  destruct (split_once_text dashes after) as [[label bt]|] eqn:E2; [|done].
  destruct (split_once_text (footer label) bt) as [[body tl]|] eqn:E3; [|done].
  destruct (squeeze body) as [|c data] eqn:E4; [done|].
  destruct (all is_base64 (c :: data)) eqn:E5; [|done]. intros [= <- <-].
  destruct (trim_start_split tl) as (spaces & Htl & Hs). exists label, body, spaces. rewrite E4.
  apply strip_prefix_Some in E1 as ->. apply split_once_text_Some in E3 as ->.
  split_and!; [|done| |split; [done|]|done].
  - apply split_once_text_Some in E2 as ->. unfold header. rewrite <- !app_assoc. by rewrite <- Htl.
  - by apply (split_once_text_swap _ _ _ _ []) in E2.
  - apply Forall_forall. intros x Hx. apply list_elem_of_In in Hx.
    by apply (proj1 (forallb_forall _ _) E5).
Qed.
Lemma header_nonempty label : exists r, header label = 45 :: r.
Proof. by eexists. Qed.
Lemma blocks_reads fuel rest out out' :
  (length rest <= fuel)%nat -> blocks fuel rest out = Ok out' -> exists bs, reads bs rest /\ out' = out ++ printed bs.
Proof.
  revert rest out. induction fuel as [|fuel IH]; intros [|c rest] out Hf; cbn [length] in Hf; try lia;
    [intros [= <-]; exists []; by rewrite app_nil_r; split; [constructor|] ..|].
  cbn [blocks]. destruct (block (c :: rest)) as [[text tail]|e] eqn:Hb; [|done].
  apply block_reads in Hb as (label & body & spaces & Hr & -> & Hl & Hd & Hs). intros Hgo.
  edestruct (fun H => IH tail _ H Hgo) as (bs & Hbs & ->).
  { apply (f_equal length) in Hr. rewrite !length_app in Hr. cbn [length] in Hr.
    destruct (header_nonempty label) as (r & Hh). rewrite Hh in Hr. cbn [length] in Hr. lia. }
  exists ((label, squeeze body) :: bs). rewrite Hr. split; [by constructor|].
  unfold printed. cbn [map concat fst snd]. by rewrite app_assoc.
Qed.

(** ** Reading a rebuilt text again *)

Definition good (b : str * str) : Prop := is_label b.1 /\ is_body b.2.
Lemma reads_good bs rest : reads bs rest -> Forall good bs.
Proof. induction 1; by constructor. Qed.

Lemma base64_plain c : is_base64 c = true -> is_whitespace c = false /\ c <> 45.
Proof.
  unfold is_base64, is_ascii_digit, is_ascii_upper. intros H.
  destruct (is_whitespace c) eqn:E; unfold is_whitespace in E; bool_facts; split; try done; lia.
Qed.
Lemma squeeze_app a b : squeeze (a ++ b) = squeeze a ++ squeeze b.
Proof. apply List.filter_app. Qed.
Lemma chunks_concat fuel data : (length data <= fuel)%nat -> concat (chunks fuel data) = data.
Proof.
  revert data. induction fuel as [|fuel IH]; intros [|c data] H; cbn [length] in H; [done|lia|done|].
  cbn [chunks concat]. rewrite IH; [apply firstn_skipn|]. rewrite length_skipn. cbn [length]. lia.
Qed.
Lemma squeeze_chunks sep cs :
  is_sep sep -> Forall (fun c => is_base64 c = true) (concat cs) ->
  squeeze (flat_map (fun chunk => chunk ++ [sep]) cs) = concat cs /\ 45 ∉ flat_map (fun chunk => chunk ++ [sep]) cs.
Proof.
  intros [Hw Hd]. induction cs as [|chunk cs IH]; intros Hc; [split; [done|apply not_elem_of_nil]|].
  cbn [concat flat_map] in *. apply Forall_app in Hc as [Hc1 Hc2]. destruct (IH Hc2) as [IH1 IH2].
  rewrite !squeeze_app, IH1. unfold squeeze at 2. cbn [retain List.filter]. rewrite Hw. cbn [negb]. rewrite app_nil_r. split.
  - f_equal. apply retain_all. intros x Hx. rewrite Forall_forall in Hc1.
    apply list_elem_of_In, Hc1, base64_plain in Hx as [-> _]. done.
  - rewrite !elem_of_app, list_elem_of_singleton. intros [[Hx|Hx]|Hx]; [|done|done].
    rewrite Forall_forall in Hc1. by apply Hc1, base64_plain in Hx as [_ ?].
Qed.
Lemma squeeze_plain body : is_body (squeeze body) -> 45 ∉ body.
Proof.
  intros [_ Hd] Hin. rewrite Forall_forall in Hd. destruct (base64_plain 45) as [_ H]; [|done].
  apply Hd, list_elem_of_In, retain_In. split; [by apply list_elem_of_In|done].
Qed.
Lemma block_read l body tail :
  is_label l -> is_body (squeeze body) ->
  block (header l ++ body ++ footer l ++ tail) = Ok (rebuilt l (squeeze body), trim_start tail).
Proof.
  intros Hl Hd. unfold block, header. rewrite <- !app_assoc, strip_prefix_app.
  rewrite (split_once_text_swap _ _ _ [] _ Hl).
  rewrite (split_once_text_fresh 45 (lit "----END " ++ l ++ dashes) body tail (squeeze_plain _ Hd)
           : split_once_text (footer l) (body ++ footer l ++ tail) = _).
  destruct Hd as [Hne Hd]. destruct (squeeze body) as [|c d]; [done|].
  assert (all is_base64 (c :: d) = true) as ->; [|done].
  apply forallb_forall. intros x Hx. rewrite Forall_forall in Hd. by apply Hd, list_elem_of_In.
Qed.
Lemma reads_starts b bs rest : reads (b :: bs) rest -> exists r, rest = 45 :: r.
Proof. inversion 1. destruct (header_nonempty label) as (r & ->). by eexists. Qed.
Lemma reads_trimmed bs rest : reads bs rest -> trim_start rest = rest.
Proof. destruct bs; [by inversion 1|]. by intros (r & ->)%reads_starts. Qed.
Lemma trim_start_spaces spaces rest :
  Forall (fun c => is_whitespace c = true) spaces -> trim_start rest = rest -> trim_start (spaces ++ rest) = rest.
Proof. induction 1 as [|c spaces Hc _ IH]; [done|]. intros H. cbn [app trim_start]. rewrite Hc. by apply IH. Qed.
Lemma blocks_complete bs rest : reads bs rest -> forall fuel out,
  (length rest <= fuel)%nat -> blocks fuel rest out = Ok (out ++ printed bs).
Proof.
  induction 1 as [|l body spaces bs rest Hl Hd Hs Hr IH]; intros fuel out Hf.
  - rewrite app_nil_r. by destruct fuel.
  - pose proof (block_read l body (spaces ++ rest) Hl Hd) as Hb.
    rewrite trim_start_spaces in Hb by (done || by eapply reads_trimmed).
    rewrite !length_app in Hf. destruct (header_nonempty l) as (r & Hh). rewrite Hh in *. cbn [length] in Hf.
    destruct fuel as [|fuel]; [lia|]. cbn [app blocks] in *. rewrite Hb, IH by lia.
    unfold printed. cbn [map concat fst snd]. by rewrite app_assoc.
Qed.
(** What the function accepts, and what it makes of it. *)
Lemma normalize_pem_iff text max out :
  normalize_pem text max = Ok out
  <-> exists bs, bs <> [] /\ reads bs (trim text) /\ out = printed bs /\ chars_count out <= max.
Proof.
  unfold normalize_pem. split.
  - intros H. pose proof (blocks_reads (length (trim text)) (trim text) []) as Hr.
    destruct (trim text) as [|c rest] eqn:Et; [done|].
    destruct (blocks _ _ _) as [out'|e]; [|done]. cbn in H.
    destruct (max <? chars_count out') eqn:Em; [done|]. injection H as ->. bool_facts.
    destruct (Hr out (le_n _) eq_refl) as (bs & Hbs & ->). exists bs. split_and!; try done.
    intros ->. inversion Hbs.
  - intros (bs & Hne & Hr & -> & Hm). pose proof (blocks_complete bs _ Hr (length (trim text)) [] (le_n _)) as Hb.
    destruct bs as [|b bs]; [done|]. destruct (reads_starts _ _ _ Hr) as (r & Ht). rewrite Ht in *.
    rewrite Hb. cbn [app]. by rewrite (proj2 (Z.ltb_ge _ _)).
Qed.

Lemma spread_cons sep b bs :
  spread sep (b :: bs) = spread_block sep b ++ match bs with [] => [] | _ :: _ => [sep] ++ spread sep bs end.
Proof. unfold spread. destruct bs; [|done]. cbn. by rewrite app_nil_r. Qed.
Lemma spread_reads sep bs : is_sep sep -> Forall good bs -> reads bs (spread sep bs).
Proof.
  intros Hsep. induction 1 as [|[l d] bs [Hl [Hne Hd]] _ IH]; [constructor|]. cbn [fst snd] in *.
  pose proof (chunks_concat (length d) d (le_n _)) as Hcs.
  destruct (squeeze_chunks sep (chunks (length d) d) Hsep) as [Hsq _]; [by rewrite Hcs|].
  rewrite spread_cons. unfold spread_block. cbn [fst snd]. rewrite <- !app_assoc.
  set (body := [sep] ++ flat_map (fun chunk => chunk ++ [sep]) (chunks (length d) d)).
  assert (squeeze body = d) as Hb.
  { unfold body. rewrite squeeze_app, Hsq, Hcs. unfold squeeze. cbn [retain List.filter]. by rewrite (proj1 Hsep). }
  rewrite (app_assoc [sep]). fold body. clearbody body. subst d.
  destruct bs as [|b bs].
  - apply (reads_block l body [] [] []); by try constructor.
  - apply (reads_block l body [sep]); [done|done| |done]. repeat constructor. apply Hsep.
Qed.
Lemma printed_spread b bs : printed (b :: bs) = spread 10 (b :: bs) ++ [10].
Proof.
  revert b. induction bs as [|b' bs IH]; intros b; rewrite spread_cons; unfold printed; cbn [map concat].
  - unfold rebuilt, spread_block. rewrite !app_nil_r, <- !app_assoc. done.
  - unfold printed in IH. cbn [map concat] in IH. rewrite IH. unfold rebuilt, spread_block. by rewrite <- !app_assoc.
Qed.
Lemma trim_spread sep b bs :
  is_sep sep -> Forall good (b :: bs) -> trim (spread sep (b :: bs) ++ [sep]) = spread sep (b :: bs).
Proof.
  intros Hsep Hg. destruct (reads_starts b bs _ (spread_reads sep _ Hsep Hg)) as (r & Hr).
  unfold trim. assert (trim_start (spread sep (b :: bs) ++ [sep]) = spread sep (b :: bs) ++ [sep]) as -> by (by rewrite Hr).
  unfold trim_end. rewrite rev_unit. cbn [trim_start]. rewrite (proj1 Hsep). clear Hg r Hr.
  change (trim_end (spread sep (b :: bs)) = spread sep (b :: bs)).
  revert b. induction bs as [|b' bs IH]; intros b; rewrite spread_cons.
  - rewrite app_nil_r. unfold spread_block, footer, dashes. rewrite !app_assoc.
    change (lit "-----") with (lit "----" ++ [45]). rewrite !app_assoc. by apply ends_trimmed_snoc.
  - apply ends_trimmed_app; [done|]. apply ends_trimmed_app; [|apply IH].
    rewrite spread_cons. unfold spread_block. by destruct (header_nonempty b'.1) as (r & ->).
Qed.
Lemma normalize_spread sep b bs max :
  is_sep sep -> Forall good (b :: bs) -> chars_count (printed (b :: bs)) <= max ->
  normalize_pem (spread sep (b :: bs) ++ [sep]) max = Ok (printed (b :: bs)).
Proof.
  intros Hsep Hg Hmax. apply normalize_pem_iff. exists (b :: bs). rewrite trim_spread by done.
  split_and!; [done|by apply spread_reads|done|done].
Qed.

(** ** Line breaks that become spaces *)

Lemma sanitize_line_app a b : sanitize_line (a ++ b) = sanitize_line a ++ sanitize_line b.
Proof. apply omap_app. Qed.
Lemma sanitize_line_plain s : safe_text s -> sanitize_line s = s.
Proof.
  induction 1 as [|c s Hc _ IH]; [done|]. unfold sanitize_line in *. cbn [omap list_omap].
  assert ((c =? 10) || (c =? 13) || (c =? 9) = false) as ->.
  { unfold is_unsafe_char, is_control in Hc. bool_facts. destruct (c =? 10) eqn:?, (c =? 13) eqn:?, (c =? 9) eqn:?; bool_facts; try done; lia. }
  by rewrite Hc, IH.
Qed.
Lemma base64_safe c : is_base64 c = true -> is_unsafe_char c = false.
Proof.
  unfold is_base64, is_ascii_digit, is_ascii_upper, is_unsafe_char, is_control. intros H.
  rewrite !orb_false_iff, !andb_false_iff. bool_facts; repeat split; lia.
Qed.
Lemma sanitize_line_chunks cs :
  Forall (fun c => is_base64 c = true) (concat cs) ->
  sanitize_line (flat_map (fun chunk => chunk ++ [10]) cs) = flat_map (fun chunk => chunk ++ [32]) cs.
Proof.
  induction cs as [|chunk cs IH]; [done|]. cbn [concat flat_map]. intros [H1 H2]%Forall_app.
  rewrite !sanitize_line_app, IH by done. f_equal. f_equal. apply sanitize_line_plain.
  by eapply Forall_impl; [exact H1|]; intros c Hc; apply base64_safe.
Qed.
Lemma header_safe l : safe_text l -> safe_text (header l) /\ safe_text (footer l).
Proof. intros H. unfold header, footer. split; repeat apply safe_app; try done; by repeat constructor. Qed.
Lemma sanitize_line_printed bs :
  Forall good bs -> Forall (fun b => safe_text b.1) bs ->
  sanitize_line (printed bs) = concat (map (fun b => spread_block 32 b ++ [32]) bs).
Proof.
  induction bs as [|[l d] bs IH]; [done|]. intros [[_ [_ Hd]] Hg]%Forall_cons [Hl Hs]%Forall_cons.
  cbn [fst snd] in *. destruct (header_safe l Hl) as [Hh Hf].
  unfold printed in *. cbn [map concat fst snd]. rewrite sanitize_line_app, IH by done. f_equal.
  unfold rebuilt, spread_block. cbn [fst snd].
  rewrite !sanitize_line_app, !(sanitize_line_plain (header l)), !(sanitize_line_plain (footer l)) by done.
  rewrite sanitize_line_chunks by (by rewrite chunks_concat). by rewrite <- !app_assoc.
Qed.
Lemma spread_spaces b bs : concat (map (fun b => spread_block 32 b ++ [32]) (b :: bs)) = spread 32 (b :: bs) ++ [32].
Proof.
  revert b. induction bs as [|b' bs IH]; intros b; rewrite spread_cons; cbn [map concat] in *.
  - by rewrite !app_nil_r.
  - rewrite IH. by rewrite <- !app_assoc.
Qed.
Lemma reads_safe bs rest : reads bs rest -> safe_text rest -> Forall (fun b => safe_text b.1) bs.
Proof.
  induction 1 as [|label body spaces bs rest _ _ _ _ IH]; [constructor|]. unfold header, safe_text in *.
  rewrite !Forall_app. intros ((_ & Hl & _) & _ & _ & _ & Hr). constructor; [done|by apply IH].
Qed.
Lemma trim_safe s : safe_text s -> safe_text (trim s).
Proof.
  unfold safe_text, trim. intros H. destruct (trim_start_suffix s) as (p & Hp). rewrite Hp in H.
  apply Forall_app in H as [_ H]. destruct (trim_end_prefix (trim_start s)) as (q & Hq). rewrite Hq in H.
  by apply Forall_app in H as [H _].
Qed.

(** ** What is accepted and what comes out, without the code *)

(** The characters of base64. *)
Definition alphabet : str := lit "ABCDEFGHIJKLMNOPQRSTUVWXYZabcdefghijklmnopqrstuvwxyz0123456789+/=".
Definition is_base64_text (data : str) : Prop := data <> [] /\ Forall (fun c => In c alphabet) data.
(** [data] is [body] less its white space. *)
Inductive without_spaces : str -> str -> Prop :=
| without_nil : without_spaces [] []
| without_space c body data : is_whitespace c = true -> without_spaces body data -> without_spaces (c :: body) data
| without_char c body data : is_whitespace c = false -> without_spaces body data -> without_spaces (c :: body) (c :: data).
(** The blocks a text consists of: label and base64 data. *)
Inductive pem_text : list (str * str) -> str -> Prop :=
| pem_end : pem_text [] []
| pem_block label body data spaces bs rest :
    is_label label -> without_spaces body data -> is_base64_text data ->
    Forall (fun c => is_whitespace c = true) spaces -> pem_text bs rest ->
    pem_text ((label, data) :: bs)
      (lit "-----BEGIN " ++ label ++ lit "-----" ++ body ++ lit "-----END " ++ label ++ lit "-----" ++ spaces ++ rest).
(** [data] in lines of 64 characters; the last one may be shorter. *)
Definition in_lines (data : str) (lines : list str) : Prop :=
  exists front last, lines = front ++ [last] /\ data = concat lines /\
    Forall (fun line => length line = 64%nat) front /\ (1 <= length last <= 64)%nat.
(** The canonical text of the blocks. *)
Inductive pem_lines : list (str * str) -> str -> Prop :=
| lines_end : pem_lines [] []
| lines_block label data lines bs rest :
    in_lines data lines -> pem_lines bs rest ->
    pem_lines ((label, data) :: bs)
      (lit "-----BEGIN " ++ label ++ lit "-----" ++ [10] ++ flat_map (fun line => line ++ [10]) lines
       ++ lit "-----END " ++ label ++ lit "-----" ++ [10] ++ rest).

Lemma alphabet_iff c : is_base64 c = true <-> In c alphabet.
Proof.
  split.
  - intros H. assert (Hr : In c (map Z.of_nat (seq 43 80))).
    { apply in_map_iff. exists (Z.to_nat c). unfold is_base64, is_ascii_digit, is_ascii_upper in H.
      rewrite in_seq. bool_facts; lia. }
    apply (proj1 (forallb_forall (fun c => negb (is_base64 c) || existsb (Z.eqb c) alphabet) _)) in Hr; [|by vm_compute].
    rewrite H in Hr. by apply existsb_exists in Hr as (x & Hx & ->%Z.eqb_eq).
  - apply (proj1 (forallb_forall is_base64 alphabet)). by vm_compute.
Qed.
Lemma body_iff data : is_body data <-> is_base64_text data.
Proof. unfold is_body, is_base64_text. by setoid_rewrite alphabet_iff. Qed.
Lemma without_iff body data : without_spaces body data <-> data = squeeze body.
Proof.
  split.
  - induction 1 as [|c body data Hc _ IH|c body data Hc _ IH]; [done|..]; unfold squeeze in *; cbn [retain List.filter];
      rewrite Hc; cbn [negb]; congruence.
  - intros ->. induction body as [|c body IH]; [constructor|]. unfold squeeze in *. cbn [retain List.filter].
    destruct (is_whitespace c) eqn:E; cbn [negb]; [by apply without_space|by apply without_char].
Qed.
Lemma pem_text_iff bs text : pem_text bs text <-> reads bs text.
Proof.
  split.
  - induction 1 as [|label body data spaces bs rest Hl Hd Hb Hs _ IH]; [constructor|]. apply without_iff in Hd as ->.
    pose proof (reads_block label body spaces bs rest Hl (proj2 (body_iff _) Hb) Hs IH) as H.
    unfold header, footer, dashes in H. by rewrite <- !app_assoc in H.
  - induction 1 as [|label body spaces bs rest Hl Hb Hs _ IH]; [constructor|]. apply body_iff in Hb.
    pose proof (pem_block label body _ spaces bs rest Hl (proj2 (without_iff body _) eq_refl) Hb Hs IH) as H.
    unfold header, footer, dashes. by rewrite <- !app_assoc.
Qed.
Lemma in_lines_chunks fuel data :
  (length data <= fuel)%nat -> data <> [] -> in_lines data (chunks fuel data).
Proof.
  revert data. induction fuel as [|fuel IH]; intros data Hf Hne; destruct data as [|c data]; try done; [cbn in Hf; lia|].
  cbn [chunks]. destruct (skipn 64 (c :: data)) as [|d rest] eqn:Es.
  - exists [], (firstn 64 (c :: data)). pose proof (firstn_skipn 64 (c :: data)) as He. rewrite Es, app_nil_r in He.
    split_and!; [by destruct fuel|by destruct fuel; cbn [chunks concat]; rewrite app_nil_r, He|done|cbn; lia|rewrite length_take; lia].
  - destruct (IH (d :: rest)) as (front & last & Hl & Hc & Hfr & Hla).
    { rewrite <- Es, length_drop. cbn [length] in *. lia. }
    { done. }
    exists (firstn 64 (c :: data) :: front), last. rewrite Hl. split_and!; [done| |constructor; [|done]|lia|lia].
    + cbn [app concat]. rewrite <- Hl, <- Hc, <- Es. by rewrite firstn_skipn.
    + rewrite length_take. apply (f_equal length) in Es. rewrite length_drop in Es. cbn [length] in *. lia.
Qed.
Lemma in_lines_unique data lines lines' : in_lines data lines -> in_lines data lines' -> lines = lines'.
Proof.
  intros (front & last & -> & -> & Hf & Hl) (front' & last' & -> & Hc & Hf' & Hl').
  revert front' Hc Hf'. induction Hf as [|x front Hx _ IH]; intros front' Hc Hf'; destruct Hf' as [|y front' Hy Hf']; cbn in *.
  - by rewrite !app_nil_r in Hc; subst.
  - rewrite app_nil_r in Hc. apply (f_equal length) in Hc. rewrite concat_app, !length_app in Hc. cbn in Hc. rewrite app_nil_r in Hc. lia.
  - rewrite app_nil_r in Hc. apply (f_equal length) in Hc. rewrite concat_app, !length_app in Hc. cbn in Hc. rewrite app_nil_r in Hc. lia.
  - apply app_inj_1 in Hc as [-> Hc]; [|lia]. f_equal. by apply IH.
Qed.
Lemma pem_lines_iff bs out : Forall good bs -> pem_lines bs out <-> out = printed bs.
Proof.
  assert (Hone : forall label data lines rest, is_body data -> in_lines data lines ->
    lit "-----BEGIN " ++ label ++ lit "-----" ++ [10] ++ flat_map (fun line => line ++ [10]) lines
      ++ lit "-----END " ++ label ++ lit "-----" ++ [10] ++ rest = rebuilt label data ++ rest).
  { intros label data lines rest [Hne _] Hl. rewrite (in_lines_unique _ _ _ Hl (in_lines_chunks (length data) data (le_n _) Hne)).
    unfold rebuilt, header, footer, dashes. by rewrite <- !app_assoc. }
  intros Hg. split.
  - induction 1 as [|label data lines bs rest Hl _ IH]; [done|]. apply Forall_cons in Hg as [[_ Hd] Hg].
    rewrite (Hone label data lines rest Hd Hl). unfold printed. cbn [map concat fst snd]. by rewrite IH.
  - intros ->. induction Hg as [|[label data] bs [_ Hd] _ IH]; [constructor|]. unfold printed. cbn [map concat fst snd].
    rewrite <- (Hone label data (chunks (length data) data)); [|done|apply in_lines_chunks; [done|apply Hd]].
    constructor; [|done]. apply in_lines_chunks; [done|apply Hd].
Qed.

(** ** The round trip *)

(** Claim C35: what the certificate fields accept is exactly a sequence of PEM blocks with base64
    data, whatever white space is in the data and between the blocks; it comes out with the same
    labels and all the data, in lines of 64 characters. The result is accepted again unchanged,
    and so is what a paste makes of it, where every line break is a space. *)
Theorem normalize_pem_spec text max :
  (forall out, normalize_pem text max = Ok out
     <-> exists bs, bs <> [] /\ pem_text bs (trim text) /\ pem_lines bs out /\ chars_count out <= max)
  /\ (forall out, normalize_pem text max = Ok out ->
        normalize_pem out max = Ok out
        /\ (safe_text text -> normalize_pem (sanitize_line out) max = Ok out)).
Proof.
  split.
  - intros out. rewrite normalize_pem_iff. split; intros (bs & Hne & Hr & Ho & Hm); exists bs.
    + split_and!; [done|by apply pem_text_iff|apply pem_lines_iff; [by eapply reads_good|done]|done].
    + apply pem_text_iff in Hr. split_and!; [done|done|apply pem_lines_iff; [by eapply reads_good|done]|done].
  - intros out (bs & Hne & Hr & -> & Hm)%normalize_pem_iff.
    pose proof (reads_good _ _ Hr) as Hg. destruct bs as [|b bs]; [done|]. split.
    + rewrite printed_spread at 1. by apply normalize_spread.
    + intros Hs%trim_safe. pose proof (reads_safe _ _ Hr Hs) as Hl.
      rewrite sanitize_line_printed, spread_spaces by done. by apply normalize_spread.
Qed.

Definition sample_pem : str :=
  lit "-----BEGIN CERTIFICATE----- MIIB AQ== -----END CERTIFICATE-----".
Lemma normalize_pem_spec_witness :
  exists out, normalize_pem sample_pem 100 = Ok out
    /\ chars_count out = 63
    /\ normalize_pem (sanitize_line out) 100 = Ok out.
Proof.
  eexists. split; [reflexivity|]. split; [reflexivity|].
  apply (normalize_pem_spec sample_pem 100); [reflexivity|]. repeat constructor.
Defined.
End Pem.
