(* ===== verification/CsmsTyped.v ===== *)
(** * CsmsTyped: typed commands of the CSMS

    [kirby-csms-core/src/typed.rs]: a typed request is serialized, checked against its schema,
    sent with [call], and its answer is checked and decoded. The derived serializers are
    interfaces ([TypedWire]); what happens while the answer is awaited is an argument
    ([Exchange]). *)

From stdpp Require Import strings gmap.
From S2P Require Import Prelude Text Time Types Messages SecurityMessages Frame Actions Schema CsmsState CsmsConfig CsmsServer.
Local Open Scope Z_scope.

Module CsmsTyped.
Import CsmsConfig CsmsServer.

(** The serializer of a request, the decoder of its response, and the serializer of that. *)
Record Codec {J : SerdeJson} (Req Res : Type) : Type := mk_codec {
  request_to_value : Req -> result json str;
  response_from_value : json -> result Res str;
  response_to_value : Res -> result json str;
}.
Arguments mk_codec {J Req Res}.
Arguments request_to_value {J Req Res}.
Arguments response_from_value {J Req Res}.
Arguments response_to_value {J Req Res}.

(** The derived serializers, and whether the bundled schemas have compiled. *)
Class TypedWire {J : SerdeJson} : Type := {
  schemas_compiled : bool;
  remote_start_transaction_codec : Codec RemoteStartTransactionRequest.t RemoteStartTransactionResponse.t;
  remote_stop_transaction_codec : Codec RemoteStopTransactionRequest.t RemoteStopTransactionResponse.t;
  reset_codec : Codec ResetRequest.t ResetResponse.t;
  change_configuration_codec : Codec ChangeConfigurationRequest.t ChangeConfigurationResponse.t;
  get_configuration_codec : Codec GetConfigurationRequest.t GetConfigurationResponse.t;
  trigger_message_codec : Codec TriggerMessageRequest.t TriggerMessageResponse.t;
  unlock_connector_codec : Codec UnlockConnectorRequest.t UnlockConnectorResponse.t;
  change_availability_codec : Codec ChangeAvailabilityRequest.t ChangeAvailabilityResponse.t;
  clear_cache_codec : Codec unit ClearCacheResponse.t;
  set_charging_profile_codec : Codec SetChargingProfileRequest.t SetChargingProfileResponse.t;
  clear_charging_profile_codec : Codec ClearChargingProfileRequest.t ClearChargingProfileResponse.t;
  get_composite_schedule_codec : Codec GetCompositeScheduleRequest.t GetCompositeScheduleResponse.t;
  data_transfer_codec : Codec DataTransferRequest.t DataTransferResponse.t;
  send_local_list_codec : Codec SendLocalListRequest.t SendLocalListResponse.t;
  get_local_list_version_codec : Codec unit GetLocalListVersionResponse.t;
  reserve_now_codec : Codec ReserveNowRequest.t ReserveNowResponse.t;
  cancel_reservation_codec : Codec CancelReservationRequest.t CancelReservationResponse.t;
  update_firmware_codec : Codec UpdateFirmwareRequest.t unit;
  get_diagnostics_codec : Codec GetDiagnosticsRequest.t GetDiagnosticsResponse.t;
  certificate_signed_codec : Codec CertificateSignedRequest.t CertificateSignedResponse.t;
  install_certificate_codec : Codec InstallCertificateRequest.t InstallCertificateResponse.t;
  delete_certificate_codec : Codec DeleteCertificateRequest.t DeleteCertificateResponse.t;
  get_installed_certificate_ids_codec : Codec GetInstalledCertificateIdsRequest.t GetInstalledCertificateIdsResponse.t;
  extended_trigger_message_codec : Codec ExtendedTriggerMessageRequest.t ExtendedTriggerMessageResponse.t;
  get_log_codec : Codec GetLogRequest.t GetLogResponse.t;
  signed_update_firmware_codec : Codec SignedUpdateFirmwareRequest.t SignedUpdateFirmwareResponse.t;
}.

(** What happens around a call: who asks, whether the session still listens, what becomes of the
    server meanwhile, the answer (nothing when the channel was dropped) and its time. *)
Section exchange.
Context {J : SerdeJson}.
Record Exchange : Type := mk_exchange {
  caller : Z;
  listening : bool;
  meanwhile : Server.t -> Server.t;
  answer : option (result Frame.Frame.t CsmsError.t);
  answered_at : DateTime;
}.
End exchange.

Section typed.
Context {J : SerdeJson} {T : JsonText} {W : CsmsState.CsmsWire} {F : CsmsFormat} {V : Schema.JsonSchema} {D : TypedWire}.
Implicit Types (s : Server.t) (x : Exchange).

(** [CsmsHandle::call_timeout] and [CsmsHandle::call] *)
Definition call_timeout s (station action : str) (payload : json) (timeout : Duration) x
  : Server.t * result Frame.Frame.t CsmsError.t :=
  match submit s station action payload timeout (caller x) (listening x) with
  | (s, Err e) => (s, Err e)
  | (s, Ok _) => settle_call (meanwhile x s) station action payload (answer x) (answered_at x)
  end.
Definition call s (station action : str) (payload : json) x : Server.t * result Frame.Frame.t CsmsError.t :=
  call_timeout s station action payload (CsmsConfig.call_timeout (Server.config s)) x.

(** A check that is skipped when the schemas have not compiled; the error joins the texts. *)
Definition checked (check : result unit Schema.SchemaViolation) : result unit str :=
  if schemas_compiled then
    match check with Ok _ => Ok tt | Err e => Err (join_with (lit "; ") (Schema.errors e)) end
  else Ok tt.
(** The payload of a request, or why it cannot be sent. *)
Definition prepare {Req Res} (c : Codec Req Res) (name : str) (req : Req) : result json str :=
  let! payload := request_to_value c req in
  let! _ := checked (Schema.validate_request name payload) in
  Ok payload.
(** What an answer is taken for. *)
Definition conclude {Req Res} (c : Codec Req Res) (station name : str) (frame : Frame.Frame.t) : result Res CsmsError.t :=
  let invalid_response reason := CsmsError.InvalidResponse station name reason in
  match frame with
  | Frame.Frame.CallResult _ payload =>
      match checked (Schema.validate_response name payload) with
      | Err e => Err (invalid_response e)
      | Ok _ =>
          match response_from_value c payload with
          | Ok res => Ok res
          | Err e => Err (invalid_response e)
          end
      end
  | Frame.Frame.CallError _ code description _ => Err (CsmsError.CallError station name code description)
  | Frame.Frame.Call _ _ _ => Err (invalid_response (lit "not a reply"))
  end.
(** [CsmsHandle::call_typed] *)
Definition call_typed {Req Res} (c : Codec Req Res) (name : str) s (station : str) (req : Req) x
  : Server.t * result Res CsmsError.t :=
  match prepare c name req with
  | Err reason => (s, Err (CsmsError.InvalidRequest name reason))
  | Ok payload =>
      match call s station name payload x with
      | (s, Ok frame) => (s, conclude c station name frame)
      | (s, Err e) => (s, Err e)
      end
  end.

(** ** The commands *)

Definition remote_start_transaction s (station : str) (id_tag : IdTag) (connector : option ConnectorId) (profile : option ChargingProfile.t) x :=
  call_typed remote_start_transaction_codec Actions.RemoteStartTransaction s station (RemoteStartTransactionRequest.mk connector id_tag profile) x.
Definition remote_stop_transaction s (station : str) (transaction_id : Z) x :=
  call_typed remote_stop_transaction_codec Actions.RemoteStopTransaction s station (RemoteStopTransactionRequest.mk transaction_id) x.
Definition reset s (station : str) (kind : ResetType.t) x :=
  call_typed reset_codec Actions.Reset s station (ResetRequest.mk kind) x.
Definition change_configuration s (station : str) (key value : str) x :=
  call_typed change_configuration_codec Actions.ChangeConfiguration s station (ChangeConfigurationRequest.mk key value) x.
Definition get_configuration s (station : str) (keys : list str) x :=
  call_typed get_configuration_codec Actions.GetConfiguration s station (GetConfigurationRequest.mk (match keys with [] => None | _ => Some keys end)) x.
Definition trigger_message s (station : str) (requested : MessageTrigger.t) (connector : option ConnectorId) x :=
  call_typed trigger_message_codec Actions.TriggerMessage s station (TriggerMessageRequest.mk requested connector) x.
Definition unlock_connector s (station : str) (connector : ConnectorId) x :=
  call_typed unlock_connector_codec Actions.UnlockConnector s station (UnlockConnectorRequest.mk connector) x.
Definition change_availability s (station : str) (connector : ConnectorId) (kind : AvailabilityType.t) x :=
  call_typed change_availability_codec Actions.ChangeAvailability s station (ChangeAvailabilityRequest.mk connector kind) x.
Definition clear_cache s (station : str) x :=
  call_typed clear_cache_codec Actions.ClearCache s station (tt) x.
Definition set_charging_profile s (station : str) (connector : ConnectorId) (profile : ChargingProfile.t) x :=
  call_typed set_charging_profile_codec Actions.SetChargingProfile s station (SetChargingProfileRequest.mk connector profile) x.
Definition clear_charging_profile s (station : str) (req : ClearChargingProfileRequest.t) x :=
  call_typed clear_charging_profile_codec Actions.ClearChargingProfile s station (req) x.
Definition get_composite_schedule s (station : str) (connector : ConnectorId) (duration : Z) (unit_ : option ChargingRateUnitType.t) x :=
  call_typed get_composite_schedule_codec Actions.GetCompositeSchedule s station (GetCompositeScheduleRequest.mk connector duration unit_) x.
Definition data_transfer s (station : str) (vendor_id : str) (message_id data : option str) x :=
  call_typed data_transfer_codec Actions.DataTransfer s station (DataTransferRequest.mk vendor_id message_id data) x.
Definition send_local_list s (station : str) (req : SendLocalListRequest.t) x :=
  call_typed send_local_list_codec Actions.SendLocalList s station (req) x.
Definition get_local_list_version s (station : str) x :=
  call_typed get_local_list_version_codec Actions.GetLocalListVersion s station (tt) x.
Definition reserve_now s (station : str) (req : ReserveNowRequest.t) x :=
  call_typed reserve_now_codec Actions.ReserveNow s station (req) x.
Definition cancel_reservation s (station : str) (reservation_id : ReservationId) x :=
  call_typed cancel_reservation_codec Actions.CancelReservation s station (CancelReservationRequest.mk reservation_id) x.
Definition update_firmware s (station : str) (req : UpdateFirmwareRequest.t) x :=
  call_typed update_firmware_codec Actions.UpdateFirmware s station (req) x.
Definition get_diagnostics s (station : str) (req : GetDiagnosticsRequest.t) x :=
  call_typed get_diagnostics_codec Actions.GetDiagnostics s station (req) x.
Definition certificate_signed s (station : str) (certificate_chain : str) x :=
  call_typed certificate_signed_codec Actions.CertificateSigned s station (CertificateSignedRequest.mk certificate_chain) x.
Definition install_certificate s (station : str) (certificate_type : CertificateUse.t) (certificate : str) x :=
  call_typed install_certificate_codec Actions.InstallCertificate s station (InstallCertificateRequest.mk certificate_type certificate) x.
Definition delete_certificate s (station : str) (certificate_hash_data : CertificateHashData.t) x :=
  call_typed delete_certificate_codec Actions.DeleteCertificate s station (DeleteCertificateRequest.mk certificate_hash_data) x.
Definition get_installed_certificate_ids s (station : str) (certificate_type : CertificateUse.t) x :=
  call_typed get_installed_certificate_ids_codec Actions.GetInstalledCertificateIds s station (GetInstalledCertificateIdsRequest.mk certificate_type) x.
Definition extended_trigger_message s (station : str) (requested : ExtendedMessageTrigger.t) (connector : option ConnectorId) x :=
  call_typed extended_trigger_message_codec Actions.ExtendedTriggerMessage s station (ExtendedTriggerMessageRequest.mk requested connector) x.
Definition get_log s (station : str) (req : GetLogRequest.t) x :=
  call_typed get_log_codec Actions.GetLog s station (req) x.
Definition signed_update_firmware s (station : str) (req : SignedUpdateFirmwareRequest.t) x :=
  call_typed signed_update_firmware_codec Actions.SignedUpdateFirmware s station (req) x.

(** ** What a typed call guarantees *)

(** The CALL that [call] queues. *)
Definition queued s (station action : str) (payload : json) x : Server.t * result unit CsmsError.t :=
  submit s station action payload (CsmsConfig.call_timeout (Server.config s)) (caller x) (listening x).
(** A refused request leaves the server alone; a request that is sent fits its schema; a typed
    result is what the station answered to it, and fits its schema. *)
Lemma call_typed_spec {Req Res} (c : Codec Req Res) name s station req x :
  schemas_compiled = true ->
  match (call_typed c name s station req x).2 with
  | Ok res => exists payload id response,
      request_to_value c req = Ok payload /\ Schema.validate_request name payload = Ok tt /\
      (queued s station name payload x).2 = Ok tt /\
      answer x = Some (Ok (Frame.Frame.CallResult id response)) /\
      Schema.validate_response name response = Ok tt /\ response_from_value c response = Ok res
  | Err (CsmsError.InvalidRequest _ _) =>
      (call_typed c name s station req x).1 = s \/ exists payload, prepare c name req = Ok payload
  | Err _ => exists payload, request_to_value c req = Ok payload /\ Schema.validate_request name payload = Ok tt
  end.
Proof.
  intros Hc. unfold call_typed. destruct (prepare c name req) as [payload|reason] eqn:Hp; [|by left].
  assert (Hv : request_to_value c req = Ok payload /\ Schema.validate_request name payload = Ok tt).
  { unfold prepare, checked in Hp. rewrite Hc in Hp. destruct (request_to_value c req) as [p|]; [|done].
    destruct (Schema.validate_request name p) as [[]|] eqn:Hv; [|done]. by injection Hp as ->. }
  destruct (call s station name payload x) as [s' [frame|e]] eqn:Hcall; cbn [fst snd].
  - destruct (conclude c station name frame) as [res|e] eqn:Hcon; [|destruct e; eauto].
    destruct Hv as [Hr Hv]. unfold conclude, checked in Hcon. rewrite Hc in Hcon.
    destruct frame as [|id response|]; try done.
    destruct (Schema.validate_response name response) as [[]|] eqn:Hvr; [|done].
    destruct (response_from_value c response) eqn:Hd; [|done]. injection Hcon as ->.
    exists payload, id, response. unfold call, call_timeout, queued in *.
    destruct (submit _ _ _ _ _ _ _) as [s1 [[]|e]]; [|done]. split_and!; try done.
    unfold settle_call in Hcall. destruct (answer x) as [r|]; injection Hcall as _ Hr'; by rewrite ?Hr'.
  - destruct e; eauto.
Qed.
End typed.
End CsmsTyped.
