(* ===== verification/CsmsCommand.v ===== *)
(** * CsmsCommand: what the CSMS terminal sends

    [kirby-csms-tui/src/command.rs]: the commands a form produces, their payload and labels, and
    the executor that performs them with the typed calls of [CsmsTyped.v]. *)

From stdpp Require Import strings gmap.
From S2P Require Import Prelude Text Time Types Messages SecurityMessages Frame Actions Schema CsmsState CsmsConfig CsmsServer CsmsTyped.
Local Open Scope Z_scope.

Module CsmsCommand.
Import CsmsConfig CsmsServer CsmsTyped.

(** The serializers behind [json!], and [{}s] of rounded seconds. *)
Class CommandWire {J : SerdeJson} : Type := {
  hash_to_value : CertificateHashData.t -> json;
  profile_to_value : ChargingProfile.t -> json;
  seconds_text : Duration -> str;
}.

Module Command.
Section command.
Context {J : SerdeJson}.
Inductive t : Type :=
| RemoteStart (id_tag : str) (connector : option Z)
| RemoteStop (transaction_id : Z)
| Reset (kind : ResetType.t)
| ChangeConfiguration (key value : str)
| GetConfiguration (keys : list str)
| TriggerMessage (message : MessageTrigger.t) (connector : option Z)
| UnlockConnector (connector : Z)
| ChangeAvailability (connector : Z) (kind : AvailabilityType.t)
| ClearCache
| SetChargingProfile (connector : Z) (profile : ChargingProfile.t)
| DataTransfer (vendor_id : str) (message_id data : option str)
| GetLog (req : GetLogRequest.t)
| InstallCertificate (certificate_type : CertificateUse.t) (certificate : str)
| DeleteCertificate (hash : CertificateHashData.t)
| GetInstalledCertificateIds (kind : CertificateUse.t)
| ExtendedTriggerMessage (message : ExtendedMessageTrigger.t) (connector : option Z)
| SignedUpdateFirmware (req : SignedUpdateFirmwareRequest.t)
| CertificateSigned (chain : str)
| ClearChargingProfile (req : ClearChargingProfileRequest.t)
| GetCompositeSchedule (connector duration : Z) (unit_ : option ChargingRateUnitType.t)
| ReserveNow (req : ReserveNowRequest.t)
| UpdateFirmware (req : UpdateFirmwareRequest.t)
| GetDiagnostics (req : GetDiagnosticsRequest.t)
| SendLocalList (req : SendLocalListRequest.t)
| Raw (action : str) (payload : json).
End command.
End Command.

Section command.
Context {J : SerdeJson}.

(** The OCPP action name. *)
Definition action (c : Command.t) : str :=
  match c with
  | Command.RemoteStart _ _ => Actions.RemoteStartTransaction
  | Command.RemoteStop _ => Actions.RemoteStopTransaction
  | Command.Reset _ => Actions.Reset
  | Command.ChangeConfiguration _ _ => Actions.ChangeConfiguration
  | Command.GetConfiguration _ => Actions.GetConfiguration
  | Command.TriggerMessage _ _ => Actions.TriggerMessage
  | Command.UnlockConnector _ => Actions.UnlockConnector
  | Command.ChangeAvailability _ _ => Actions.ChangeAvailability
  | Command.ClearCache => Actions.ClearCache
  | Command.SetChargingProfile _ _ => Actions.SetChargingProfile
  | Command.DataTransfer _ _ _ => Actions.DataTransfer
  | Command.GetLog _ => Actions.GetLog
  | Command.InstallCertificate _ _ => Actions.InstallCertificate
  | Command.DeleteCertificate _ => Actions.DeleteCertificate
  | Command.GetInstalledCertificateIds _ => Actions.GetInstalledCertificateIds
  | Command.ExtendedTriggerMessage _ _ => Actions.ExtendedTriggerMessage
  | Command.SignedUpdateFirmware _ => Actions.SignedUpdateFirmware
  | Command.CertificateSigned _ => Actions.CertificateSigned
  | Command.ClearChargingProfile _ => Actions.ClearChargingProfile
  | Command.GetCompositeSchedule _ _ _ => Actions.GetCompositeSchedule
  | Command.ReserveNow _ => Actions.ReserveNow
  | Command.UpdateFirmware _ => Actions.UpdateFirmware
  | Command.GetDiagnostics _ => Actions.GetDiagnostics
  | Command.SendLocalList _ => Actions.SendLocalList
  | Command.Raw action _ => action
  end.

Section payload.
Context {F : CsmsFormat} {D : TypedWire} {C : CommandWire}.

(** [Map::insert]: the entries are kept in the order of their keys. *)
Fixpoint insert (key : str) (v : json) (fields : list (str * json)) : list (str * json) :=
  match fields with
  | [] => [(key, v)]
  | (k, w) :: rest =>
      if k == key then (key, v) :: rest
      else if str_leb key k then (key, v) :: fields
      else (k, w) :: insert key v rest
  end.
Definition object (entries : list (str * json)) : json :=
  Object (fold_left (fun fields '(key, v) => insert key v fields) entries []).
Definition text (s : str) : json := String s.
Definition number (n : Z) : json := Num (number_from n).
(** An entry that is only there when it has a value. *)
Definition optional {A} (key : str) (f : A -> json) (v : option A) : list (str * json) :=
  match v with Some v => [(key, f v)] | None => [] end.
(** [json!] of a request; serializing one does not fail. *)
Definition value_of {Req Res} (c : Codec Req Res) (req : Req) : json :=
  match request_to_value c req with Ok v => v | Err _ => Null end.

(** The request payload as it goes on the wire. *)
Definition payload (c : Command.t) : json :=
  match c with
  | Command.RemoteStart id_tag connector =>
      object ((lit "idTag", text id_tag) :: optional (lit "connectorId") number connector)
  | Command.RemoteStop transaction_id => object [(lit "transactionId", number transaction_id)]
  | Command.Reset kind => object [(lit "type", text (ResetType.as_str kind))]
  | Command.ChangeConfiguration key value => object [(lit "key", text key); (lit "value", text value)]
  | Command.GetConfiguration [] => object []
  | Command.GetConfiguration keys => object [(lit "key", Array (map text keys))]
  | Command.TriggerMessage message connector =>
      object ((lit "requestedMessage", text (MessageTrigger.as_str message)) :: optional (lit "connectorId") number connector)
  | Command.UnlockConnector connector => object [(lit "connectorId", number connector)]
  | Command.ChangeAvailability connector kind =>
      object [(lit "connectorId", number connector); (lit "type", text (AvailabilityType.as_str kind))]
  | Command.ClearCache => object []
  | Command.SetChargingProfile connector profile =>
      object [(lit "connectorId", number connector); (lit "csChargingProfiles", profile_to_value profile)]
  | Command.DataTransfer vendor_id message_id data =>
      object ((lit "vendorId", text vendor_id) :: optional (lit "messageId") text message_id ++ optional (lit "data") text data)
  | Command.GetLog req => value_of get_log_codec req
  | Command.InstallCertificate certificate_type certificate =>
      object [(lit "certificateType", text (CertificateUse.as_str certificate_type)); (lit "certificate", text certificate)]
  | Command.DeleteCertificate hash => object [(lit "certificateHashData", hash_to_value hash)]
  | Command.GetInstalledCertificateIds kind => object [(lit "certificateType", text (CertificateUse.as_str kind))]
  | Command.ExtendedTriggerMessage message connector =>
      object ((lit "requestedMessage", text (ExtendedMessageTrigger.as_str message))
              :: optional (lit "connectorId") number connector)
  | Command.SignedUpdateFirmware req => value_of signed_update_firmware_codec req
  | Command.CertificateSigned chain => object [(lit "certificateChain", text chain)]
  | Command.ClearChargingProfile req => value_of clear_charging_profile_codec req
  | Command.GetCompositeSchedule connector duration unit_ =>
      object ((lit "connectorId", number connector) :: (lit "duration", number duration)
              :: optional (lit "chargingRateUnit") (fun u => text (ChargingRateUnitType.as_str u)) unit_)
  | Command.ReserveNow req => value_of reserve_now_codec req
  | Command.UpdateFirmware req => value_of update_firmware_codec req
  | Command.GetDiagnostics req => value_of get_diagnostics_codec req
  | Command.SendLocalList req => value_of send_local_list_codec req
  | Command.Raw _ payload => payload
  end.
End payload.

(** Short description for notices and the confirmation. *)
Definition label (c : Command.t) : str :=
  match c with
  | Command.Reset kind => lit "Reset (" ++ ResetType.as_str kind ++ lit ")"
  | Command.RemoteStop transaction_id => lit "RemoteStopTransaction (" ++ to_string transaction_id ++ lit ")"
  | other => action other
  end.
(** Commands that disrupt the station ask first. *)
Definition needs_confirm (c : Command.t) : bool := match c with Command.Reset _ => true | _ => false end.
(** Whether a successful answer is worth a popup instead of just a notice. *)
Definition answer_is_content (c : Command.t) (response : json) : bool :=
  match c with
  | Command.GetConfiguration _ | Command.GetCompositeSchedule _ _ _ | Command.GetInstalledCertificateIds _
  | Command.Raw _ _ => true
  | Command.DataTransfer _ _ _ =>
      match response with Object fields => is_someb (field (lit "data") fields) | _ => false end
  | _ => false
  end.
End command.

(** ** The executor *)

Section run.
Context {J : SerdeJson} {T : JsonText} {W : CsmsState.CsmsWire} {F : CsmsFormat} {V : Schema.JsonSchema} {D : TypedWire} {C : CommandWire}.

Definition describe (e : CsmsError.t) : str :=
  match e with
  | CsmsError.CallError _ _ code description => lit "CALLERROR " ++ ErrorCode.as_str code ++ lit ": " ++ description
  | CsmsError.Timeout _ _ timeout => lit "no answer within " ++ seconds_text timeout ++ lit "s"
  | CsmsError.NotConnected _ => lit "station is not connected"
  | CsmsError.UnknownStation _ => lit "unknown station"
  | CsmsError.ConnectionClosed _ _ => lit "connection closed before the answer"
  | CsmsError.InvalidRequest _ reason => lit "invalid request: " ++ reason
  | CsmsError.InvalidResponse _ _ reason => lit "invalid answer: " ++ reason
  | CsmsError.Bind source => lit "failed to bind the CSMS listener: " ++ source
  | CsmsError.Tls reason => lit "TLS setup failed: " ++ reason
  | CsmsError.Config reason => lit "invalid configuration: " ++ reason
  end.
Definition finish {Req Res} (c : Codec Req Res) (x : Server.t * result Res CsmsError.t) : Server.t * result json str :=
  (x.1, match x.2 with Ok res => response_to_value c res | Err e => Err (describe e) end).

(** [IdTagError] *)
Definition id_tag_error (len : Z) : str :=
  lit "idTag is " ++ to_string len ++ lit " characters long, the maximum is " ++ to_string ID_TAG_MAX_LEN.
(** Sends a command to a station and waits for the answer. *)
Definition run (s : Server.t) (station : str) (c : Command.t) (x : Exchange) : Server.t * result json str :=
  match c with
  | Command.RemoteStart id_tag connector =>
      match IdTag_new id_tag with
      | Ok tag => finish remote_start_transaction_codec (remote_start_transaction s station tag connector None x)
      | Err n => (s, Err (id_tag_error n))
      end
  | Command.RemoteStop transaction_id =>
      finish remote_stop_transaction_codec (remote_stop_transaction s station transaction_id x)
  | Command.Reset kind => finish reset_codec (reset s station kind x)
  | Command.ChangeConfiguration key value => finish change_configuration_codec (change_configuration s station key value x)
  | Command.GetConfiguration keys => finish get_configuration_codec (get_configuration s station keys x)
  | Command.TriggerMessage message connector => finish trigger_message_codec (trigger_message s station message connector x)
  | Command.UnlockConnector connector => finish unlock_connector_codec (unlock_connector s station connector x)
  | Command.ChangeAvailability connector kind =>
      finish change_availability_codec (change_availability s station connector kind x)
  | Command.ClearCache => finish clear_cache_codec (clear_cache s station x)
  | Command.SetChargingProfile connector profile =>
      finish set_charging_profile_codec (set_charging_profile s station connector profile x)
  | Command.DataTransfer vendor_id message_id data =>
      finish data_transfer_codec (data_transfer s station vendor_id message_id data x)
  | Command.GetLog req => finish get_log_codec (get_log s station req x)
  | Command.InstallCertificate certificate_type certificate =>
      finish install_certificate_codec (install_certificate s station certificate_type certificate x)
  | Command.DeleteCertificate hash => finish delete_certificate_codec (delete_certificate s station hash x)
  | Command.GetInstalledCertificateIds kind =>
      finish get_installed_certificate_ids_codec (get_installed_certificate_ids s station kind x)
  | Command.ExtendedTriggerMessage message connector =>
      finish extended_trigger_message_codec (extended_trigger_message s station message connector x)
  | Command.SignedUpdateFirmware req => finish signed_update_firmware_codec (signed_update_firmware s station req x)
  | Command.CertificateSigned chain => finish certificate_signed_codec (certificate_signed s station chain x)
  | Command.ClearChargingProfile req => finish clear_charging_profile_codec (clear_charging_profile s station req x)
  | Command.GetCompositeSchedule connector duration unit_ =>
      finish get_composite_schedule_codec (get_composite_schedule s station connector duration unit_ x)
  | Command.ReserveNow req => finish reserve_now_codec (reserve_now s station req x)
  | Command.UpdateFirmware req => finish update_firmware_codec (update_firmware s station req x)
  | Command.GetDiagnostics req => finish get_diagnostics_codec (get_diagnostics s station req x)
  | Command.SendLocalList req => finish send_local_list_codec (send_local_list s station req x)
  | Command.Raw action payload =>
      match call s station action payload x with
      | (s, Ok (Frame.Frame.CallResult _ payload)) => (s, Ok payload)
      | (s, Ok (Frame.Frame.CallError _ code description _)) =>
          (s, Err (lit "CALLERROR " ++ ErrorCode.as_str code ++ lit ": " ++ description))
      | (s, Ok (Frame.Frame.Call _ _ _)) => (s, Err (lit "the station answered with a CALL"))
      | (s, Err e) => (s, Err (describe e))
      end
  end.
End run.
End CsmsCommand.
