(* ===== verification/CsmsForm.v ===== *)
(** * CsmsForm: the forms of the CSMS terminal

    [kirby-csms-tui/src/form.rs]: typed fields with live validation, the keys, and what a valid
    form sends. Parsing RFC 3339 times and charging profiles is foreign ([FormWire]). *)

From stdpp Require Import strings gmap.
From S2P Require Import Prelude Text Time Types Messages SecurityMessages Frame Actions Schema CsmsState CsmsConfig CsmsTyped CsmsCommand TuiText Pem.
Local Open Scope Z_scope.

Module CsmsForm.
Import CsmsConfig CsmsTyped CsmsCommand TuiText Pem.

(** [DateTime::parse_from_rfc3339] followed by the conversion to UTC,
    [to_rfc3339_opts(SecondsFormat::Secs, true)], and the two ways to read a charging profile:
    from a text and from a value, with the text of the error. *)
Class FormWire {J : SerdeJson} : Type := {
  parse_from_rfc3339 : str -> option DateTime;
  rfc3339_secs : DateTime -> str;
  profile_from_str : str -> option ChargingProfile.t;
  profile_from_value : json -> result ChargingProfile.t str;
}.

Definition KEY_MAX : Z := 50.
Definition TIMES_MAX : Z := 1000000.
Definition AUTH_LIST_MAX : Z := 100.
Definition ANY : str := lit "(any)".

Module FieldKind.
Inductive t : Type :=
| Text
| OptionalText
| IdTag
| OptionalIdTag
| AuthList
| Connector (min : Z) (optional : bool)
| Times
| Json
| RawJson
| ProfileJson
| FaultJson
| KeyList
| Select
| Pem (max : Z)
| Count (optional : bool)
| Timestamp (optional : bool).
#[export] Instance eq_dec : EqDecision t.
Proof. solve_decision. Defined.
End FieldKind.
Export (hints) FieldKind.

Module Field.
Record t : Type := mk {
  label : str;
  kind : FieldKind.t;
  input : TextInput.t;
  options : list str;
  option : nat;
  error : Datatypes.option str;
}.
#[export] Instance eta : Eta t := fun f => mk (label f) (kind f) (input f) (options f) (option f) (error f).
#[export] Instance eq_dec : EqDecision t.
Proof. solve_decision. Defined.
End Field.
Export (hints) Field.

Definition new_field (label : str) (kind : FieldKind.t) (value : str) : Field.t :=
  Field.mk label kind (new_input value) [] 0 None.
Definition select (label : str) (options : list str) : Field.t :=
  (new_field label FieldKind.Select []) <| Field.options := options |>.
Definition is_text (fd : Field.t) : bool := negb (bool_decide (Field.kind fd = FieldKind.Select)).
Definition chosen (fd : Field.t) : option str := Field.options fd !! Field.option fd.

Module FormKind.
Inductive t : Type :=
| RemoteStart | RemoteStop | Reset | ChangeConfiguration | GetConfiguration | Trigger | Unlock
| Availability | SetProfile | DataTransfer | GetLog | InstallCertificate | DeleteCertificate
| GetInstalledCertificateIds | ExtendedTrigger | SignedFirmware | CertificateSigned
| ClearChargingProfile | GetCompositeSchedule | ReserveNow | UpdateFirmware | GetDiagnostics
| SendLocalList | Raw | Rule | Fault | RemoveRule.
#[export] Instance eq_dec : EqDecision t.
Proof. solve_decision. Defined.
End FormKind.
Export (hints) FormKind.

(** How an injected fault answers. *)
Module FaultKind.
Inductive t : Type := CallError | Silence | Close | InvalidPayload.
#[export] Instance eq_dec : EqDecision t.
Proof. solve_decision. Defined.
Definition ALL : list t := [CallError; Silence; Close; InvalidPayload].
Definition name (k : t) : str :=
  match k with
  | CallError => lit "call_error" | Silence => lit "silence" | Close => lit "close"
  | InvalidPayload => lit "invalid_payload"
  end.
End FaultKind.
Export (hints) FaultKind.

(** What a valid form produced. *)
Module Submitted.
Section submitted.
Context {J : SerdeJson}.
Inductive t : Type :=
| Send (command : Command.t)
| Rule (action : str) (payload : json)
| Fault (action : str) (kind : FaultKind.t) (times : Z) (payload : json)
| RemoveRule (action : str).
End submitted.
End Submitted.

Module FormEvent.
Inductive t : Type := None | Cancel | Submit.
End FormEvent.

(** A transaction a [RemoteStopTransaction] can target. *)
Module StopChoice.
Record t : Type := mk { id : Z; connector : Z; id_tag : str }.
End StopChoice.

(** [station] is empty for server-wide forms; [error] is a problem with the whole form;
    [tx_ids] are the transactions behind the options of a [RemoteStop] form. *)
Module Form.
Record t : Type := mk {
  kind : FormKind.t;
  title : str;
  station : str;
  fields : list Field.t;
  focus : nat;
  error : option str;
  tx_ids : list Z;
}.
#[export] Instance eta : Eta t :=
  fun f => mk (kind f) (title f) (station f) (fields f) (focus f) (error f) (tx_ids f).
End Form.
Export (hints) Form.

(** The keys the forms know; every other key is [Other]. *)
Module KeyCode.
Inductive t : Type :=
| Esc | Enter | Tab | BackTab | Up | Down | Left | Right | Home | End_ | Backspace | Delete | Char (c : char) | Other.
End KeyCode.
Record KeyEvent : Type := mk_key { code : KeyCode.t; ctrl : bool; alt : bool }.

Definition names {T} `{WireEnum T} (items : list T) : list str := map wire_str items.
Definition csms_actions : list str :=
  map Actions.name (retain (fun a => Actions.central_system_may_send (Actions.direction a)) Actions.ACTIONS).

(** A text with [']  for the quotation mark. *)
Definition quoted (s : str) : str := map (fun c => if c =? 39 then 34 else c) s.
Definition PROFILE_TEMPLATE : str :=
  quoted (lit "{'chargingProfileId':1,'stackLevel':0,'chargingProfilePurpose':'ChargePointMaxProfile','chargingProfileKind':'Absolute','chargingSchedule':{'chargingRateUnit':'A','chargingSchedulePeriod':[{'startPeriod':0,'limit':16.0}]}}").

Section checks.
Context {U : Unicode}.

Definition truncate_key (k : str) : str := truncate (sanitize k) 20.

(** ** Lists in a field *)

(** One item [idTag[:status]]. *)
Definition auth_item (item : str) : result AuthorizationData.t str :=
  let '(tag, status) := match split_once 58 item with Some (t, s) => (t, trim s) | None => (item, []) end in
  let tag := trim tag in
  let shown := truncate_key item in
  match tag with
  | [] => Err (lit "empty idTag in " ++ [34] ++ shown ++ [34])
  | _ :: _ =>
      match IdTag_new tag with
      | Err n => Err (id_tag_error n ++ lit ": " ++ shown)
      | Ok id_tag =>
          if status == lit "-" then Ok (AuthorizationData.mk id_tag None)
          else
            match status with
            | [] => Ok (AuthorizationData.mk id_tag (Some (with_status AuthorizationStatus.Accepted)))
            | _ :: _ =>
                match find_first (fun s => eq_ignore_ascii_case (wire_str s) status) (ALL (T:=AuthorizationStatus.t)) with
                | None => Err (lit "unknown status in " ++ [34] ++ shown ++ [34] ++ lit "; use "
                               ++ join_with (lit ", ") (names (ALL (T:=AuthorizationStatus.t))))
                | Some found => Ok (AuthorizationData.mk id_tag (Some (with_status found)))
                end
            end
      end
  end.
Fixpoint auth_items (items : list str) (out : list AuthorizationData.t) : result (list AuthorizationData.t) str :=
  match items with
  | [] => Ok out
  | item :: items =>
      if AUTH_LIST_MAX <=? len out then Err (lit "at most " ++ to_string AUTH_LIST_MAX ++ lit " entries")
      else let! entry := auth_item item in auth_items items (out ++ [entry])
  end.
(** Parses [idTag[:status]] items separated by commas. *)
Definition parse_auth_list (text : str) : result (list AuthorizationData.t) str :=
  auth_items (retain (fun i => negb (i == [])) (map trim (split_on 44 text))) [].

Definition split_keys (text : str) : list str :=
  retain (fun k => negb (k == [])) (concat (map (split_on 32) (split_on 44 text))).
Definition validate_keys (text : str) : option str :=
  (fun k => lit "a key is at most " ++ to_string KEY_MAX ++ lit " characters: " ++ truncate_key k)
    <$> find_first (fun k => KEY_MAX <? chars_count k) (split_keys text).
End checks.

(** [err()] of a result. *)
Definition err {A E} (r : result A E) : option E := match r with Ok _ => None | Err e => Some e end.

Section form.
Context {J : SerdeJson} {T : JsonText} {F : CsmsFormat} {V : Schema.JsonSchema} {D : TypedWire} {C : CommandWire}
  {W : FormWire} {U : Unicode} {K : Chrono}.
Implicit Types (f : Form.t) (fd : Field.t) (fs : list Field.t).

(** ** JSON in a field *)

Definition json_object (text : str) : result json str :=
  match json_from_str text with
  | Err e => Err (lit "invalid JSON: " ++ json_error_text e)
  | Ok value => if is_object value then Ok value else Err (lit "must be a JSON object")
  end.
(** Nothing when [text] is a JSON object that satisfies the request schema of [action]. *)
Definition validate_request (text action : str) : option str :=
  match json_object text with
  | Err e => Some e
  | Ok value => Schema.show_violation <$> err (Schema.validate_request action value)
  end.
(** Nothing when [text] fits [SetChargingProfile] with [connector] and the typed profile. *)
Definition validate_profile (text connector : str) : option str :=
  match json_object text with
  | Err e => Some e
  | Ok value =>
      let connector_id := default 0 (parse_u32 connector) in
      let request := object [(lit "connectorId", number connector_id); (lit "csChargingProfiles", value)] in
      match Schema.validate_request Actions.SetChargingProfile request with
      | Err e => Some (Schema.show_violation e)
      | Ok _ => err (profile_from_value value)
      end
  end.

(** ** Validation *)

(** The trimmed text of a field. *)
Definition text_of fd : str := trim (TextInput.text (Field.input fd)).
Definition text fs (i : nat) : str := default [] (text_of <$> fs !! i).
Definition chosen_at fs (i : nat) : option str := fs !! i ≫= chosen.
Definition tag_error (text : str) : option str := id_tag_error <$> err (IdTag_new text).
Definition is_empty (text : str) : bool := text == [].

(** What is wrong with a field, given all fields. *)
Definition field_error fs fd : option str :=
  let raw := TextInput.text (Field.input fd) in
  let text_ := text_of fd in
  match Field.kind fd with
  | FieldKind.Text => if is_empty text_ then Some (lit "required") else None
  | FieldKind.OptionalText | FieldKind.Select => None
  | FieldKind.IdTag => if is_empty text_ then Some (lit "idTag is required") else tag_error text_
  | FieldKind.OptionalIdTag => if is_empty text_ then None else tag_error text_
  | FieldKind.AuthList => err (parse_auth_list text_)
  | FieldKind.Connector min optional =>
      if is_empty text_ && optional then None
      else if is_some_and (fun n => min <=? n) (parse_u32 text_) then None
      else Some (lit "connector must be a whole number, " ++ to_string min ++ lit " or more")
  | FieldKind.Times =>
      if is_some_and (fun n => (1 <=? n) && (n <=? TIMES_MAX)) (parse_u64 text_) then None
      else Some (lit "a number from 1 to " ++ to_string TIMES_MAX)
  | FieldKind.Json => err (json_object raw)
  | FieldKind.RawJson => validate_request raw (default [] (chosen_at fs 0))
  | FieldKind.ProfileJson => validate_profile raw (text fs 0)
  | FieldKind.FaultJson =>
      if bool_decide (chosen_at fs 1 = Some (FaultKind.name FaultKind.InvalidPayload)) then err (json_object raw) else None
  | FieldKind.KeyList => validate_keys text_
  | FieldKind.Pem max => err (normalize_pem text_ max)
  | FieldKind.Count optional =>
      if is_empty text_ && optional then None
      else if is_some_and (fun n => 0 <=? n) (parse_i32 text_) then None
      else Some (lit "a whole number, 0 or more")
  | FieldKind.Timestamp optional =>
      if is_empty text_ && optional then None
      else match parse_from_rfc3339 text_ with
           | Some _ => None
           | None => Some (lit "a time like 2026-01-31T12:00:00Z")
           end
  end.
Definition set_error (error : option str) fd : Field.t := fd <| Field.error := error |>.
Definition validate_field f (i : nat) : Form.t :=
  match Form.fields f !! i with
  | None => f
  | Some fd => f <| Form.fields ::= <[i := set_error (field_error (Form.fields f) fd) fd]> |>
  end.
Definition has_error fd : bool := is_someb (Field.error fd).
Definition validate_all f : Form.t * bool :=
  let f := fold_left validate_field (seq 0 (length (Form.fields f))) f in
  (f, all (fun fd => negb (has_error fd)) (Form.fields f)).

(** The field whose check depends on another one. *)
Definition dependent f : option nat :=
  match Form.kind f with
  | FormKind.Raw | FormKind.SetProfile => Some 1%nat
  | FormKind.Fault => Some 3%nat
  | _ => None
  end.
Definition after_edit f : Form.t :=
  match dependent f with Some i => validate_field f i | None => f end.
Definition touched f (i : nat) : Form.t := (after_edit (validate_field f i)) <| Form.error := None |>.

(** ** The forms *)

Definition build (kind : FormKind.t) (title station : str) fs : Form.t :=
  let '(f, _) := validate_all (Form.mk kind title station fs 0 None []) in f <| Form.error := None |>.
Definition remote_start_form (station : str) : Form.t :=
  build FormKind.RemoteStart (lit "RemoteStartTransaction") station
    [new_field (lit "idTag") FieldKind.IdTag [];
     new_field (lit "connector (optional)") (FieldKind.Connector 1 true) []].
Definition remote_stop_form (station : str) (choices : list StopChoice.t) : Form.t :=
  let options := map (fun c => to_string (StopChoice.id c) ++ lit " (connector " ++ to_string (StopChoice.connector c)
                                ++ lit ", idTag " ++ sanitize (StopChoice.id_tag c) ++ lit ")") choices in
  (build FormKind.RemoteStop (lit "RemoteStopTransaction") station [select (lit "transaction") options])
    <| Form.tx_ids := map StopChoice.id choices |>.
(** The option is preselected when it is offered. *)
Definition preselect (option : str) (fd : Field.t) : Field.t :=
  fd <| Field.option := default 0%nat (position (fun o => o == option) (Field.options fd)) |>.
Definition reset_form (station : str) : Form.t :=
  build FormKind.Reset (lit "Reset") station [preselect (lit "Soft") (select (lit "type") (names (ALL (T:=ResetType.t))))].
Definition change_configuration_form (station : str) : Form.t :=
  build FormKind.ChangeConfiguration (lit "ChangeConfiguration") station
    [new_field (lit "key") FieldKind.Text [];
     new_field (lit "value") FieldKind.OptionalText []].
Definition get_configuration_form (station : str) : Form.t :=
  build FormKind.GetConfiguration (lit "GetConfiguration") station
    [new_field (lit "keys (optional, empty = all)") FieldKind.KeyList []].
Definition trigger_form (station : str) : Form.t :=
  build FormKind.Trigger (lit "TriggerMessage") station
    [select (lit "message") (names (ALL (T:=MessageTrigger.t)));
     new_field (lit "connector (optional)") (FieldKind.Connector 1 true) []].
Definition unlock_form (station : str) (connector : option Z) : Form.t :=
  build FormKind.Unlock (lit "UnlockConnector") station
    [new_field (lit "connector") (FieldKind.Connector 1 false) (to_string (default 1 connector))].
Definition availability_form (station : str) : Form.t :=
  build FormKind.Availability (lit "ChangeAvailability") station
    [new_field (lit "connector (0 = station)") (FieldKind.Connector 0 false) (lit "0");
     select (lit "type") (names (ALL (T:=AvailabilityType.t)))].
Definition set_profile_form (station : str) : Form.t :=
  build FormKind.SetProfile (lit "SetChargingProfile") station
    [new_field (lit "connector (0 = station)") (FieldKind.Connector 0 false) (lit "0");
     new_field (lit "csChargingProfiles (JSON)") FieldKind.ProfileJson (PROFILE_TEMPLATE)].
Definition data_transfer_form (station : str) : Form.t :=
  build FormKind.DataTransfer (lit "DataTransfer") station
    [new_field (lit "vendorId") FieldKind.Text [];
     new_field (lit "messageId (optional)") FieldKind.OptionalText [];
     new_field (lit "data (optional)") FieldKind.OptionalText []].
Definition get_log_form (station : str) (request_id : Z) : Form.t :=
  build FormKind.GetLog (lit "GetLog") station
    [select (lit "logType") (names (ALL (T:=LogType.t)));
     new_field (lit "requestId") (FieldKind.Count false) (to_string request_id);
     new_field (lit "remoteLocation (upload URL)") FieldKind.Text [];
     new_field (lit "retries (optional)") (FieldKind.Count true) [];
     new_field (lit "retryInterval s (optional)") (FieldKind.Count true) [];
     new_field (lit "oldestTimestamp (optional)") (FieldKind.Timestamp true) [];
     new_field (lit "latestTimestamp (optional)") (FieldKind.Timestamp true) []].
Definition install_certificate_form (station : str) : Form.t :=
  build FormKind.InstallCertificate (lit "InstallCertificate") station
    [select (lit "certificateType") (names (ALL (T:=CertificateUse.t)));
     new_field (lit "certificate (PEM, paste)") (FieldKind.Pem MAX_CERTIFICATE_LEN) []].
Definition delete_certificate_form (station : str) : Form.t :=
  build FormKind.DeleteCertificate (lit "DeleteCertificate") station
    [select (lit "hashAlgorithm") (names (ALL (T:=HashAlgorithm.t)));
     new_field (lit "issuerNameHash (hex)") FieldKind.Text [];
     new_field (lit "issuerKeyHash (hex)") FieldKind.Text [];
     new_field (lit "serialNumber (hex)") FieldKind.Text []].
Definition get_installed_certificate_ids_form (station : str) : Form.t :=
  build FormKind.GetInstalledCertificateIds (lit "GetInstalledCertificateIds") station
    [select (lit "certificateType") (names (ALL (T:=CertificateUse.t)))].
Definition extended_trigger_form (station : str) : Form.t :=
  build FormKind.ExtendedTrigger (lit "ExtendedTriggerMessage") station
    [preselect (lit "SignChargePointCertificate") (select (lit "message") (names (ALL (T:=ExtendedMessageTrigger.t))));
     new_field (lit "connector (optional)") (FieldKind.Connector 1 true) []].
Definition signed_update_firmware_form (station : str) (request_id : Z) (now : DateTime) : Form.t :=
  build FormKind.SignedFirmware (lit "SignedUpdateFirmware") station
    [new_field (lit "location (firmware URL)") FieldKind.Text [];
     new_field (lit "retrieveDateTime") (FieldKind.Timestamp false) (rfc3339_secs now);
     new_field (lit "requestId") (FieldKind.Count false) (to_string request_id);
     new_field (lit "retries (optional)") (FieldKind.Count true) [];
     new_field (lit "retryInterval s (optional)") (FieldKind.Count true) [];
     new_field (lit "signingCertificate (PEM, paste)") (FieldKind.Pem MAX_CERTIFICATE_LEN) [];
     new_field (lit "signature (base64)") FieldKind.Text [];
     new_field (lit "installDateTime (optional)") (FieldKind.Timestamp true) []].
Definition certificate_signed_form (station : str) : Form.t :=
  build FormKind.CertificateSigned (lit "CertificateSigned") station
    [new_field (lit "certificateChain (PEM, paste)") (FieldKind.Pem MAX_CERTIFICATE_CHAIN_LEN) []].
Definition clear_charging_profile_form (station : str) : Form.t :=
  build FormKind.ClearChargingProfile (lit "ClearChargingProfile") station
    [new_field (lit "id (optional)") (FieldKind.Count true) [];
     new_field (lit "connector (optional, 0 = station)") (FieldKind.Connector 0 true) [];
     select (lit "chargingProfilePurpose") (ANY :: names (ALL (T:=ChargingProfilePurposeType.t)));
     new_field (lit "stackLevel (optional)") (FieldKind.Count true) []].
Definition get_composite_schedule_form (station : str) : Form.t :=
  build FormKind.GetCompositeSchedule (lit "GetCompositeSchedule") station
    [new_field (lit "connector (0 = station)") (FieldKind.Connector 0 false) (lit "1");
     new_field (lit "duration s") (FieldKind.Count false) (lit "3600");
     select (lit "chargingRateUnit") (ANY :: names (ALL (T:=ChargingRateUnitType.t)))].
Definition reserve_now_form (station : str) (reservation_id : Z) (now : DateTime) : Form.t :=
  build FormKind.ReserveNow (lit "ReserveNow") station
    [new_field (lit "connector (0 = any)") (FieldKind.Connector 0 false) (lit "1");
     new_field (lit "expiryDate") (FieldKind.Timestamp false) (rfc3339_secs (dt_add now (td_seconds 3600)));
     new_field (lit "idTag") FieldKind.IdTag [];
     new_field (lit "parentIdTag (optional)") FieldKind.OptionalIdTag [];
     new_field (lit "reservationId") (FieldKind.Count false) (to_string reservation_id)].
Definition update_firmware_form (station : str) (now : DateTime) : Form.t :=
  build FormKind.UpdateFirmware (lit "UpdateFirmware") station
    [new_field (lit "location (firmware URL)") FieldKind.Text [];
     new_field (lit "retrieveDate") (FieldKind.Timestamp false) (rfc3339_secs now);
     new_field (lit "retries (optional)") (FieldKind.Count true) [];
     new_field (lit "retryInterval s (optional)") (FieldKind.Count true) []].
Definition get_diagnostics_form (station : str) : Form.t :=
  build FormKind.GetDiagnostics (lit "GetDiagnostics") station
    [new_field (lit "location (upload URL)") FieldKind.Text [];
     new_field (lit "retries (optional)") (FieldKind.Count true) [];
     new_field (lit "retryInterval s (optional)") (FieldKind.Count true) [];
     new_field (lit "startTime (optional)") (FieldKind.Timestamp true) [];
     new_field (lit "stopTime (optional)") (FieldKind.Timestamp true) []].
Definition send_local_list_form (station : str) : Form.t :=
  build FormKind.SendLocalList (lit "SendLocalList") station
    [select (lit "updateType") (names (ALL (T:=UpdateType.t)));
     new_field (lit "listVersion") (FieldKind.Count false) (lit "1");
     new_field (lit "entries: idTag[:status], comma separated (:- deletes)") FieldKind.AuthList []].
Definition raw_form (station : str) (initial_action : option str) : Form.t :=
  let action := select (lit "action") csms_actions in
  let action :=
    match (let? a := initial_action in position (fun o => o == a) (Field.options action)) with
    | Some i => action <| Field.option := i |>
    | None => action
    end in
  build FormKind.Raw (lit "Raw CALL") station [action; new_field (lit "payload (JSON)") FieldKind.RawJson (lit "{}")].
Definition rule_form : Form.t :=
  build FormKind.Rule (lit "Response rule (answers every station)") []
    [select (lit "action") CHARGE_POINT_ACTIONS;
     new_field (lit "CALLRESULT payload (JSON)") FieldKind.Json (quoted (lit "{'status':'Rejected'}"))].
Definition fault_form : Form.t :=
  build FormKind.Fault (lit "Inject fault (all stations)") []
    [select (lit "action") CHARGE_POINT_ACTIONS;
     select (lit "kind") (map FaultKind.name FaultKind.ALL);
     new_field (lit "times") FieldKind.Times (lit "1");
     new_field (lit "payload (invalid_payload only)") FieldKind.FaultJson (lit "{}")].
(** [actions] are the ones that have a rule. *)
Definition remove_rule_form (actions : list str) : Form.t :=
  build FormKind.RemoveRule (lit "Remove response rule") [] [select (lit "action") actions].

(** ** Keys *)

Definition paste (text : str) f : Form.t :=
  let i := Form.focus f in
  match Form.fields f !! i with
  | Some fd =>
      if is_text fd
      then touched (f <| Form.fields ::= <[i := fd <| Field.input ::= insert_str text |>]> |>) i
      else f
  | None => f
  end.
(** [step(i, n, d)] *)
Definition step (i n : nat) (d : Z) : nat :=
  if (0 <? n)%nat then Z.to_nat ((Z.of_nat i + Z.of_nat n + d) mod (usize_max + 1) mod Z.of_nat n) else i.
(** The next option after the chosen one that begins with the letter. *)
Definition by_letter (c : char) fd : nat :=
  let n := length (Field.options fd) in
  let begins k :=
    match Field.options fd !! k with
    | Some (x :: _) => to_ascii_lower_char x =? to_ascii_lower_char c
    | _ => false
    end in
  default (Field.option fd) (find_first begins (map (fun d => ((Field.option fd + d) mod n)%nat) (seq 1 n))).
Definition edit_input (key : KeyEvent) (i : TextInput.t) : TextInput.t :=
  match code key with
  | KeyCode.Left => left i
  | KeyCode.Right => right i
  | KeyCode.Home => home i
  | KeyCode.End_ => end_ i
  | KeyCode.Backspace => backspace i
  | KeyCode.Delete => delete i
  | KeyCode.Char c =>
      if (c =? 97) && ctrl key then home i
      else if (c =? 101) && ctrl key then end_ i
      else if (c =? 117) && ctrl key then empty_input
      else if negb (ctrl key) && negb (alt key) then insert_char c i
      else i
  | _ => i
  end.
Definition edit_field (key : KeyEvent) fd : Field.t :=
  match Field.kind fd with
  | FieldKind.Select =>
      match code key with
      | KeyCode.Left => fd <| Field.option ::= fun i => step i (length (Field.options fd)) (-1) |>
      | KeyCode.Right => fd <| Field.option ::= fun i => step i (length (Field.options fd)) 1 |>
      | KeyCode.Char c => if ctrl key then fd else fd <| Field.option := by_letter c fd |>
      | _ => fd
      end
  | _ => fd <| Field.input ::= edit_input key |>
  end.
Definition handle_key (key : KeyEvent) f : Form.t * FormEvent.t :=
  let n := Nat.max (length (Form.fields f)) 1 in
  match code key with
  | KeyCode.Esc => (f, FormEvent.Cancel)
  | KeyCode.Enter => (f, FormEvent.Submit)
  | KeyCode.Tab | KeyCode.Down => (f <| Form.focus ::= fun i => ((i + 1) mod n)%nat |>, FormEvent.None)
  | KeyCode.BackTab | KeyCode.Up => (f <| Form.focus ::= fun i => ((i + n - 1) mod n)%nat |>, FormEvent.None)
  | _ =>
      let i := Form.focus f in
      match Form.fields f !! i with
      | None => (f, FormEvent.None)
      | Some fd => (touched (f <| Form.fields ::= <[i := edit_field key fd]> |>) i, FormEvent.None)
      end
  end.

(** ** Submitting *)

Definition number_at fs (i : nat) : option Z := parse_u32 (text fs i).
Definition count_at fs (i : nat) : option Z := parse_i32 (text fs i).
Definition time_at fs (i : nat) : option DateTime := parse_from_rfc3339 (text fs i).
Definition opt (s : str) : option str := match s with [] => None | _ :: _ => Some s end.
(** The normalised PEM of a [Pem] field. *)
Definition pem_at fs (i : nat) : option str :=
  let? x := fs !! i in
  match Field.kind x with
  | FieldKind.Pem max => match normalize_pem (text fs i) max with Ok out => Some out | Err _ => None end
  | _ => None
  end.
(** [r.ok()] *)
Definition ok {A E} (r : result A E) : option A := match r with Ok a => Some a | Err _ => None end.
(** [chosen(i)?.parse().ok()?] *)
Definition chosen_enum {E} `{WireEnum E} fs (i : nat) : option E :=
  let? c := chosen_at fs i in ok (parse_enum c).
(** A choice that may be left out. *)
Definition chosen_any {E} `{WireEnum E} fs (i : nat) : option E :=
  let? c := chosen_at fs i in if c == ANY then None else ok (parse_enum c).
Definition json_at fs (i : nat) : option json :=
  let? x := fs !! i in ok (json_from_str (TextInput.text (Field.input x))).

(** The command of a form that sends one. *)
Definition command f : option Command.t :=
  let fs := Form.fields f in
  match Form.kind f with
  | FormKind.RemoteStart => Some (Command.RemoteStart (text fs 0) (number_at fs 1))
  | FormKind.RemoteStop =>
      let? x := fs !! 0%nat in
      let? id := Form.tx_ids f !! Field.option x in
      Some (Command.RemoteStop id)
  | FormKind.Reset => let? kind := chosen_enum fs 0 in Some (Command.Reset kind)
  | FormKind.ChangeConfiguration => Some (Command.ChangeConfiguration (text fs 0) (text fs 1))
  | FormKind.GetConfiguration => Some (Command.GetConfiguration (split_keys (text fs 0)))
  | FormKind.Trigger => let? message := chosen_enum fs 0 in Some (Command.TriggerMessage message (number_at fs 1))
  | FormKind.Unlock => let? connector := number_at fs 0 in Some (Command.UnlockConnector connector)
  | FormKind.Availability =>
      let? connector := number_at fs 0 in
      let? kind := chosen_enum fs 1 in
      Some (Command.ChangeAvailability connector kind)
  | FormKind.SetProfile =>
      let? connector := number_at fs 0 in
      let? x := fs !! 1%nat in
      let? profile := profile_from_str (TextInput.text (Field.input x)) in
      Some (Command.SetChargingProfile connector profile)
  | FormKind.DataTransfer => Some (Command.DataTransfer (text fs 0) (opt (text fs 1)) (opt (text fs 2)))
  | FormKind.GetLog =>
      let? log_type := chosen_enum fs 0 in
      let? request_id := count_at fs 1 in
      Some (Command.GetLog (GetLogRequest.mk log_type request_id (count_at fs 3) (count_at fs 4)
                              (LogParameters.mk (text fs 2) (time_at fs 5) (time_at fs 6))))
  | FormKind.InstallCertificate =>
      let? certificate_type := chosen_enum fs 0 in
      let? certificate := pem_at fs 1 in
      Some (Command.InstallCertificate certificate_type certificate)
  | FormKind.DeleteCertificate =>
      let? hash_algorithm := chosen_enum fs 0 in
      Some (Command.DeleteCertificate (CertificateHashData.mk hash_algorithm (text fs 1) (text fs 2) (text fs 3)))
  | FormKind.GetInstalledCertificateIds =>
      let? kind := chosen_enum fs 0 in Some (Command.GetInstalledCertificateIds kind)
  | FormKind.ExtendedTrigger =>
      let? message := chosen_enum fs 0 in Some (Command.ExtendedTriggerMessage message (number_at fs 1))
  | FormKind.SignedFirmware =>
      let? request_id := count_at fs 2 in
      let? retrieve := time_at fs 1 in
      let? certificate := pem_at fs 5 in
      Some (Command.SignedUpdateFirmware
              (SignedUpdateFirmwareRequest.mk (count_at fs 3) (count_at fs 4) request_id
                 (SignedFirmware.mk (text fs 0) retrieve (time_at fs 7) certificate (text fs 6))))
  | FormKind.CertificateSigned => let? chain := pem_at fs 0 in Some (Command.CertificateSigned chain)
  | FormKind.ClearChargingProfile =>
      Some (Command.ClearChargingProfile
              (ClearChargingProfileRequest.mk (count_at fs 0) (number_at fs 1) (chosen_any fs 2) (count_at fs 3)))
  | FormKind.GetCompositeSchedule =>
      let? connector := number_at fs 0 in
      let? duration := count_at fs 1 in
      Some (Command.GetCompositeSchedule connector duration (chosen_any fs 2))
  | FormKind.ReserveNow =>
      let? connector := number_at fs 0 in
      let? expiry := time_at fs 1 in
      let? id_tag := ok (IdTag_new (text fs 2)) in
      let? reservation_id := count_at fs 4 in
      Some (Command.ReserveNow
              (ReserveNowRequest.mk connector expiry id_tag
                 (let? t := opt (text fs 3) in ok (IdTag_new t)) reservation_id))
  | FormKind.UpdateFirmware =>
      let? retrieve := time_at fs 1 in
      Some (Command.UpdateFirmware (UpdateFirmwareRequest.mk (text fs 0) (count_at fs 2) retrieve (count_at fs 3)))
  | FormKind.GetDiagnostics =>
      Some (Command.GetDiagnostics
              (GetDiagnosticsRequest.mk (text fs 0) (count_at fs 1) (count_at fs 2) (time_at fs 3) (time_at fs 4)))
  | FormKind.SendLocalList =>
      let? entries := ok (parse_auth_list (text fs 2)) in
      let? list_version := count_at fs 1 in
      let? update_type := chosen_enum fs 0 in
      Some (Command.SendLocalList
              (SendLocalListRequest.mk list_version (match entries with [] => None | _ :: _ => Some entries end) update_type))
  | FormKind.Raw =>
      let? action := chosen_at fs 0 in
      let? payload := json_at fs 1 in
      Some (Command.Raw action payload)
  | FormKind.Rule | FormKind.Fault | FormKind.RemoveRule => None
  end.
(** What the form produces before the schema has its say. *)
Definition convert f : option Submitted.t :=
  let fs := Form.fields f in
  match Form.kind f with
  | FormKind.Rule =>
      let? action := chosen_at fs 0 in
      let? payload := json_at fs 1 in
      Some (Submitted.Rule action payload)
  | FormKind.Fault =>
      let? kind := find_first (fun k => bool_decide (Some (FaultKind.name k) = chosen_at fs 1)) FaultKind.ALL in
      let? payload := if bool_decide (kind = FaultKind.InvalidPayload) then json_at fs 3 else Some Null in
      let? action := chosen_at fs 0 in
      let? times := parse_u64 (text fs 2) in
      Some (Submitted.Fault action kind times payload)
  | FormKind.RemoveRule => let? action := chosen_at fs 0 in Some (Submitted.RemoveRule action)
  | _ => let? c := command f in Some (Submitted.Send c)
  end.
(** The last check: the whole request against its schema. *)
Definition whole_request (s : Submitted.t) : option str :=
  match s with
  | Submitted.Send (Command.Raw _ _) => None
  | Submitted.Send c => Schema.show_violation <$> err (Schema.validate_request (CsmsCommand.action c) (CsmsCommand.payload c))
  | _ => None
  end.
Definition submit f : Form.t * option Submitted.t :=
  let '(f, valid) := validate_all (f <| Form.error := None |>) in
  if negb valid
  then (match position has_error (Form.fields f) with Some i => f <| Form.focus := i |> | None => f end, None)
  else
    match convert f with
    | None => (f, None)
    | Some submitted =>
        match whole_request submitted with
        | Some e => (f <| Form.error := Some e |>, None)
        | None => (f, Some submitted)
        end
    end.

End form.
End CsmsForm.
