(* ===== verification/FormSessions.v ===== *)
(** * FormSessions: what a user of the forms sees

    The theorems on [CsmsForm.v]: the errors a form shows are always those of its content, and a
    form that cannot be sent says why. *)

From stdpp Require Import strings gmap.
From S2P Require Import Prelude Text Time Types Messages SecurityMessages Frame Actions Schema CsmsState CsmsConfig CsmsServer CsmsSession CsmsTyped CsmsCommand TuiText Pem CsmsForm.
Local Open Scope Z_scope.

Module FormSessions.
Import CsmsConfig CsmsTyped CsmsCommand TuiText Pem CsmsForm.

(** ** The fields of every form *)

(** A field of a kind; one of these options; one of some options. *)
Inductive Shape : Type :=
| Typed (kind : FieldKind.t)
| Choice (options : list str)
| AnyChoice.
Definition fits (s : Shape) (fd : Field.t) : Prop :=
  match s with
  | Typed k => Field.kind fd = k /\ k <> FieldKind.Select
  | Choice options =>
      Field.kind fd = FieldKind.Select /\ Field.options fd = options /\ (Field.option fd < length options)%nat
  | AnyChoice => Field.kind fd = FieldKind.Select /\ (Field.option fd < length (Field.options fd))%nat
  end.
Definition count : Shape := Typed (FieldKind.Count false).
Definition count_opt : Shape := Typed (FieldKind.Count true).
Definition time : Shape := Typed (FieldKind.Timestamp false).
Definition time_opt : Shape := Typed (FieldKind.Timestamp true).
Definition one_of (T : Type) `{WireEnum T} : Shape := Choice (names (ALL (T:=T))).
Definition any_of (T : Type) `{WireEnum T} : Shape := Choice (ANY :: names (ALL (T:=T))).
Definition shape_of (k : FormKind.t) : list Shape :=
  match k with
  | FormKind.RemoteStart => [Typed FieldKind.IdTag; Typed (FieldKind.Connector 1 true)]
  | FormKind.RemoteStop | FormKind.RemoveRule => [AnyChoice]
  | FormKind.Reset => [one_of ResetType.t]
  | FormKind.ChangeConfiguration => [Typed FieldKind.Text; Typed FieldKind.OptionalText]
  | FormKind.GetConfiguration => [Typed FieldKind.KeyList]
  | FormKind.Trigger => [one_of MessageTrigger.t; Typed (FieldKind.Connector 1 true)]
  | FormKind.Unlock => [Typed (FieldKind.Connector 1 false)]
  | FormKind.Availability => [Typed (FieldKind.Connector 0 false); one_of AvailabilityType.t]
  | FormKind.SetProfile => [Typed (FieldKind.Connector 0 false); Typed FieldKind.ProfileJson]
  | FormKind.DataTransfer => [Typed FieldKind.Text; Typed FieldKind.OptionalText; Typed FieldKind.OptionalText]
  | FormKind.GetLog => [one_of LogType.t; count; Typed FieldKind.Text; count_opt; count_opt; time_opt; time_opt]
  | FormKind.InstallCertificate => [one_of CertificateUse.t; Typed (FieldKind.Pem MAX_CERTIFICATE_LEN)]
  | FormKind.DeleteCertificate =>
      [one_of HashAlgorithm.t; Typed FieldKind.Text; Typed FieldKind.Text; Typed FieldKind.Text]
  | FormKind.GetInstalledCertificateIds => [one_of CertificateUse.t]
  | FormKind.ExtendedTrigger => [one_of ExtendedMessageTrigger.t; Typed (FieldKind.Connector 1 true)]
  | FormKind.SignedFirmware =>
      [Typed FieldKind.Text; time; count; count_opt; count_opt; Typed (FieldKind.Pem MAX_CERTIFICATE_LEN);
       Typed FieldKind.Text; time_opt]
  | FormKind.CertificateSigned => [Typed (FieldKind.Pem MAX_CERTIFICATE_CHAIN_LEN)]
  | FormKind.ClearChargingProfile =>
      [count_opt; Typed (FieldKind.Connector 0 true); any_of ChargingProfilePurposeType.t; count_opt]
  | FormKind.GetCompositeSchedule =>
      [Typed (FieldKind.Connector 0 false); count; any_of ChargingRateUnitType.t]
  | FormKind.ReserveNow =>
      [Typed (FieldKind.Connector 0 false); time; Typed FieldKind.IdTag; Typed FieldKind.OptionalIdTag; count]
  | FormKind.UpdateFirmware => [Typed FieldKind.Text; time; count_opt; count_opt]
  | FormKind.GetDiagnostics => [Typed FieldKind.Text; count_opt; count_opt; time_opt; time_opt]
  | FormKind.SendLocalList => [one_of UpdateType.t; count; Typed FieldKind.AuthList]
  | FormKind.Raw => [Choice csms_actions; Typed FieldKind.RawJson]
  | FormKind.Rule => [Choice CHARGE_POINT_ACTIONS; Typed FieldKind.Json]
  | FormKind.Fault =>
      [Choice CHARGE_POINT_ACTIONS; Choice (map FaultKind.name FaultKind.ALL); Typed FieldKind.Times; Typed FieldKind.FaultJson]
  end.
(** Every option of a [RemoteStop] form has its transaction. *)
Definition shaped (f : Form.t) : Prop :=
  Forall2 fits (shape_of (Form.kind f)) (Form.fields f)
  /\ (Form.kind f = FormKind.RemoteStop ->
      exists fd, Form.fields f = [fd] /\ length (Form.tx_ids f) = length (Field.options fd)).

Section sessions.
Context {J : SerdeJson} {T : JsonText} {F : CsmsFormat} {V : Schema.JsonSchema} {D : TypedWire} {C : CommandWire}
  {W : FormWire} {U : Unicode} {K : Chrono}.
Implicit Types (f g : Form.t) (fd : Field.t) (fs gs : list Field.t).

(** Every error that is shown is the one of the content of the form. *)
Definition live f : Prop :=
  forall i fd, Form.fields f !! i = Some fd -> Field.error fd = field_error (Form.fields f) fd.

(** The forms a program opens; the choices come from non-empty lists. *)
Inductive opened : Form.t -> Prop :=
| open_remote_start st : opened (remote_start_form st)
| open_remote_stop st choices : choices <> [] -> opened (remote_stop_form st choices)
| open_reset st : opened (reset_form st)
| open_change_configuration st : opened (change_configuration_form st)
| open_get_configuration st : opened (get_configuration_form st)
| open_trigger st : opened (trigger_form st)
| open_unlock st c : opened (unlock_form st c)
| open_availability st : opened (availability_form st)
| open_set_profile st : opened (set_profile_form st)
| open_data_transfer st : opened (data_transfer_form st)
| open_get_log st n : opened (get_log_form st n)
| open_install_certificate st : opened (install_certificate_form st)
| open_delete_certificate st : opened (delete_certificate_form st)
| open_get_installed_certificate_ids st : opened (get_installed_certificate_ids_form st)
| open_extended_trigger st : opened (extended_trigger_form st)
| open_signed_update_firmware st n now : opened (signed_update_firmware_form st n now)
| open_certificate_signed st : opened (certificate_signed_form st)
| open_clear_charging_profile st : opened (clear_charging_profile_form st)
| open_get_composite_schedule st : opened (get_composite_schedule_form st)
| open_reserve_now st n now : opened (reserve_now_form st n now)
| open_update_firmware st now : opened (update_firmware_form st now)
| open_get_diagnostics st : opened (get_diagnostics_form st)
| open_send_local_list st : opened (send_local_list_form st)
| open_raw st a : opened (raw_form st a)
| open_rule : opened rule_form
| open_fault : opened fault_form
| open_remove_rule actions : actions <> [] -> opened (remove_rule_form actions).
(** What a user can do with one. *)
Inductive session : Form.t -> Prop :=
| starts f : opened f -> session f
| presses f key : session f -> session (handle_key key f).1
| pastes f text : session f -> session (paste text f)
| submits f : session f -> session (submit f).1.

(** ** Validation *)

Lemma map_lookup {A B} (h : A -> B) (l : list A) i : map h l !! i = h <$> l !! i.
Proof. apply list_lookup_fmap. Qed.
Lemma map_insert {A B} (h : A -> B) (l : list A) i x : map h (<[i := x]> l) = <[i := h x]> (map h l).
Proof. apply list_fmap_insert. Qed.
Lemma cons_both {A} (x y : A) l k : x :: l = y :: k -> x = y /\ l = k.
Proof. by intros [= -> ->]. Qed.
Definition content fd : Field.t := set_error None fd.
Lemma content_set_error e fd : content (set_error e fd) = content fd.
Proof. reflexivity. Qed.
Lemma content_eq fd gd :
  content fd = content gd ->
  Field.kind fd = Field.kind gd /\ Field.input fd = Field.input gd /\ Field.options fd = Field.options gd
  /\ Field.option fd = Field.option gd.
Proof. destruct fd, gd. by intros [= -> -> -> -> ->]. Qed.
Lemma lookup_content {A} (h : Field.t -> A) fs gs i :
  (forall fd, h (content fd) = h fd) -> map content fs = map content gs -> h <$> fs !! i = h <$> gs !! i.
Proof.
  intros Hh H. apply (f_equal (lookup i)) in H.
  rewrite !map_lookup in H. apply (f_equal (fmap h)) in H. rewrite <- !option_fmap_compose in H.
  destruct (fs !! i), (gs !! i); simpl in *; try done. by rewrite !Hh in H.
Qed.
Lemma field_error_content fs gs fd gd :
  map content fs = map content gs -> content fd = content gd -> field_error fs fd = field_error gs gd.
Proof.
  intros Hfs (Hk & Hi & _ & _)%content_eq.
  assert (forall i, text fs i = text gs i) as Ht.
  { intros i. unfold text. by rewrite (lookup_content text_of fs gs i). }
  assert (forall i, chosen_at fs i = chosen_at gs i) as Hc.
  { intros i. unfold chosen_at. pose proof (lookup_content chosen fs gs i (fun _ => eq_refl) Hfs) as H.
    by destruct (fs !! i), (gs !! i); simpl in *; simplify_eq. }
  unfold field_error, text_of. by rewrite Hk, Hi, Ht, !Hc.
Qed.
Definition depends (k : FieldKind.t) : bool :=
  match k with FieldKind.RawJson | FieldKind.ProfileJson | FieldKind.FaultJson => true | _ => false end.
Lemma field_error_alone fs gs fd : depends (Field.kind fd) = false -> field_error fs fd = field_error gs fd.
Proof. unfold field_error. by destruct (Field.kind fd). Qed.

Lemma validate_field_fields f i fd :
  Form.fields f !! i = Some fd ->
  validate_field f i = f <| Form.fields := <[i := set_error (field_error (Form.fields f) fd) fd]> (Form.fields f) |>.
Proof. intros H. unfold validate_field. by rewrite H. Qed.
Lemma validate_field_frame f i :
  Form.kind (validate_field f i) = Form.kind f /\ Form.focus (validate_field f i) = Form.focus f
  /\ Form.error (validate_field f i) = Form.error f /\ Form.tx_ids (validate_field f i) = Form.tx_ids f
  /\ map content (Form.fields (validate_field f i)) = map content (Form.fields f).
Proof.
  unfold validate_field. destruct (Form.fields f !! i) as [fd|] eqn:E; [|done]. split_and!; try done.
  cbn. rewrite map_insert, content_set_error. apply list_insert_id. by rewrite map_lookup, E.
Qed.
Definition current fs : list Field.t := map (fun fd => set_error (field_error fs fd) fd) fs.
Lemma current_content fs : map content (current fs) = map content fs.
Proof. unfold current. rewrite map_map. by apply map_ext. Qed.
Lemma validate_prefix f n :
  (n <= length (Form.fields f))%nat ->
  fold_left validate_field (seq 0 n) f
  = f <| Form.fields := firstn n (current (Form.fields f)) ++ skipn n (Form.fields f) |>.
Proof.
  induction n as [|n IH]; intros Hn; [by destruct f|].
  rewrite seq_S, fold_left_app, IH by lia. cbn [fold_left Nat.add].
  destruct (lookup_lt_is_Some_2 (Form.fields f) n) as [fd Hfd]; [lia|].
  set (fs := Form.fields f) in *. set (g := f <| Form.fields := _ |>).
  assert (length (firstn n (current fs)) = n) as Hl.
  { rewrite length_take. unfold current. rewrite length_map. lia. }
  assert (Form.fields g = firstn n (current fs) ++ fd :: skipn (S n) fs) as Hg.
  { unfold g. cbn. f_equal. by apply drop_S. }
  rewrite (validate_field_fields g n fd).
  2: { rewrite Hg, lookup_app_r, Hl, Nat.sub_diag by lia. done. }
  assert (field_error (Form.fields g) fd = field_error fs fd) as ->.
  { apply field_error_content; [|done]. unfold g. cbn. rewrite map_app, <- !firstn_map, <- skipn_map, current_content.
    rewrite skipn_map, firstn_map, <- map_app. by rewrite firstn_skipn. }
  rewrite Hg, insert_app_r_alt, Hl, Nat.sub_diag by lia. cbn [insert list_insert].
  assert (firstn (S n) (current fs) = firstn n (current fs) ++ [set_error (field_error fs fd) fd]) as ->.
  { apply take_S_r. unfold current. by rewrite map_lookup, Hfd. }
  rewrite <- app_assoc. unfold g. by destruct f.
Qed.
Lemma validate_all_fields f :
  validate_all f
  = (f <| Form.fields := current (Form.fields f) |>,
     all (fun fd => negb (has_error fd)) (current (Form.fields f))).
Proof.
  unfold validate_all. rewrite validate_prefix by done. cbn -[current all].
  rewrite skipn_all, app_nil_r, firstn_all2; [done|]. unfold current. by rewrite length_map.
Qed.
Lemma current_lookup fs i x :
  current fs !! i = Some x -> exists fd, fs !! i = Some fd /\ x = set_error (field_error fs fd) fd.
Proof.
  unfold current. rewrite map_lookup.
  destruct (fs !! i); [|done]. intros [= <-]. by eexists.
Qed.

(** ** The shape of a form *)

Lemma fits_content s fd gd : content fd = content gd -> fits s fd -> fits s gd.
Proof. intros (Hk & _ & Ho & Hi)%content_eq. destruct s; cbn; by rewrite Hk, ?Ho, ?Hi. Qed.
Lemma shaped_content f g :
  Form.kind g = Form.kind f -> Form.tx_ids g = Form.tx_ids f ->
  map content (Form.fields g) = map content (Form.fields f) -> shaped f -> shaped g.
Proof.
  intros Hk Ht Hc [Hs Hr]. unfold shaped. rewrite Hk, Ht. split.
  - clear Hr Hk Ht. revert Hs Hc. generalize (shape_of (Form.kind f)) as ss, (Form.fields f) as fs, (Form.fields g) as gs.
    intros ss fs gs H. revert gs. induction H as [|s fd ss fs Hs _ IH]; intros [|gd gs] Hc; try done.
    apply cons_both in Hc as [Hd Hc]. constructor; [by apply (fits_content s fd)|by apply IH].
  - intros HR. destruct (Hr HR) as (fd & Hfd & Hl). rewrite Hfd in Hc.
    destruct (Form.fields g) as [|gd [|]]; try done. apply cons_both in Hc as [Hc _]. exists gd.
    apply content_eq in Hc as (_ & _ & Ho & _). by rewrite Ho.
Qed.
Lemma shaped_validate f i : shaped f -> shaped (validate_field f i).
Proof. destruct (validate_field_frame f i) as (? & _ & _ & ? & ?). by apply shaped_content. Qed.
Lemma shaped_depends f i fd :
  shaped f -> Form.fields f !! i = Some fd -> depends (Field.kind fd) = true -> dependent f = Some i.
Proof.
  intros [Hs _] Hi Hd. destruct (Forall2_lookup_r _ _ _ _ _ Hs Hi) as (s & Hsi & Hf).
  unfold dependent. destruct (Form.kind f); cbn in Hsi;
    do 8 (try destruct i as [|i]); cbn in Hsi; simplify_eq; cbn in Hf; try done;
    destruct Hf as (Hk & _); by rewrite Hk in Hd.
Qed.
Lemma shaped_update f i fd gd :
  shaped f -> Form.fields f !! i = Some fd -> (forall s, fits s fd -> fits s gd) ->
  Field.options gd = Field.options fd -> shaped (f <| Form.fields ::= <[i := gd]> |>).
Proof.
  intros [Hs Hr] Hi Hf Ho. split; cbn.
  - destruct (Forall2_lookup_r _ _ _ _ _ Hs Hi) as (s & Hsi & Hfd).
    rewrite <- (list_insert_id _ _ _ Hsi). apply Forall2_insert; [done|by apply Hf].
  - intros HR. destruct (Hr HR) as (x & Hx & Hl). rewrite Hx in *. destruct i as [|i]; [|done].
    injection Hi as ->. exists gd. by rewrite Ho.
Qed.

Lemma step_lt i n d : (0 < n)%nat -> (step i n d < n)%nat.
Proof.
  intros Hn. unfold step. rewrite (proj2 (Nat.ltb_lt 0 n) Hn).
  pose proof (Z.mod_pos_bound ((Z.of_nat i + Z.of_nat n + d) mod (usize_max + 1)) (Z.of_nat n)). lia.
Qed.
Lemma by_letter_lt c fd :
  (Field.option fd < length (Field.options fd))%nat -> (by_letter c fd < length (Field.options fd))%nat.
Proof.
  intros H. unfold by_letter. destruct (find_first _ _) as [k|] eqn:E; [|done]. cbn [default].
  apply find_first_In in E as [E _]. apply in_map_iff in E as (d & <- & _). apply Nat.mod_upper_bound. lia.
Qed.
Lemma fits_edit key s fd : fits s fd -> fits s (edit_field key fd).
Proof.
  unfold edit_field. destruct s as [k|os|]; cbn [fits].
  - intros [Hk Hn]. rewrite Hk. destruct k; cbn; by rewrite ?Hk.
  - intros (Hk & Ho & Hi). rewrite Hk. subst os.
    destruct (code key); try destruct (ctrl key); cbn; rewrite ?Hk; split_and!; try done;
      first [apply step_lt; lia|by apply by_letter_lt].
  - intros (Hk & Hi). rewrite Hk.
    destruct (code key); try destruct (ctrl key); cbn; rewrite ?Hk; split_and!; try done;
      first [apply step_lt; lia|by apply by_letter_lt].
Qed.
Lemma edit_options key fd :
  Field.options (edit_field key fd) = Field.options fd /\ Field.kind (edit_field key fd) = Field.kind fd.
Proof. unfold edit_field. by destruct (Field.kind fd) eqn:Hk, (code key), (ctrl key). Qed.

(** ** Live validation *)

Lemma validate_field_lookup f i j x :
  Form.fields (validate_field f i) !! j = Some x ->
  (i = j /\ exists fd, Form.fields f !! i = Some fd /\ x = set_error (field_error (Form.fields f) fd) fd)
  \/ (i <> j /\ Form.fields f !! j = Some x).
Proof.
  unfold validate_field. destruct (Form.fields f !! i) as [fd|] eqn:E.
  - cbn. destruct (base.decide (i = j)) as [->|Hij].
    + rewrite list_lookup_insert_eq by (by apply lookup_lt_is_Some; eexists). intros [= <-]. left. eauto.
    + rewrite list_lookup_insert_ne by done. auto.
  - intros H. right. split; [|done]. intros ->. congruence.
Qed.
Lemma live_current f : live (f <| Form.fields := current (Form.fields f) |>).
Proof.
  intros i x. cbn. intros (fd & _ & ->)%current_lookup. cbn.
  symmetry. by apply field_error_content; [apply current_content|].
Qed.
Lemma live_touched f i fd gd :
  shaped f -> live f -> Form.fields f !! i = Some fd -> (forall s, fits s fd -> fits s gd) ->
  Field.options gd = Field.options fd -> live (touched (f <| Form.fields ::= <[i := gd]> |>) i).
Proof.
  intros Hs Hl Hi Hf Ho. set (f1 := f <| Form.fields ::= _ |>).
  assert (shaped (validate_field f1 i)) as Hs2 by (by apply shaped_validate, (shaped_update f i fd)).
  assert (forall j x, depends (Field.kind x) = false -> Form.fields (validate_field f1 i) !! j = Some x ->
            forall gs, Field.error x = field_error gs x) as Halone.
  { intros j x Hx [(-> & y & Hy & ->)|(Hij & Hj)]%validate_field_lookup gs.
    - cbn in *. rewrite (field_error_alone _ gs y Hx). by apply field_error_content.
    - unfold f1 in Hj. cbn in Hj. rewrite list_lookup_insert_ne in Hj by done.
      rewrite (Hl _ _ Hj). by apply field_error_alone. }
  intros j x. change (Form.fields (touched f1 i)) with (Form.fields (after_edit (validate_field f1 i))).
  unfold after_edit. set (f2 := validate_field f1 i) in *. destruct (dependent f2) as [d|] eqn:Ed.
  - destruct (validate_field_frame f2 d) as (_ & _ & _ & _ & Hc).
    intros [(-> & y & Hy & ->)|(Hdj & Hj)]%validate_field_lookup.
    + cbn. by apply field_error_content.
    + apply (Halone j); [|done]. destruct (depends (Field.kind x)) eqn:Ex; [|done].
      pose proof (shaped_depends _ _ _ Hs2 Hj Ex). congruence.
  - intros Hj. apply (Halone j); [|done]. destruct (depends (Field.kind x)) eqn:Ex; [|done].
    pose proof (shaped_depends _ _ _ Hs2 Hj Ex). congruence.
Qed.
Lemma after_edit_frame f :
  Form.kind (after_edit f) = Form.kind f /\ Form.focus (after_edit f) = Form.focus f
  /\ Form.tx_ids (after_edit f) = Form.tx_ids f
  /\ map content (Form.fields (after_edit f)) = map content (Form.fields f).
Proof.
  unfold after_edit. destruct (dependent f) as [d|]; [|done].
  by destruct (validate_field_frame f d) as (? & ? & _ & ? & ?).
Qed.
Lemma touched_frame f i :
  Form.kind (touched f i) = Form.kind f /\ Form.focus (touched f i) = Form.focus f
  /\ Form.tx_ids (touched f i) = Form.tx_ids f
  /\ map content (Form.fields (touched f i)) = map content (Form.fields f).
Proof.
  destruct (after_edit_frame (validate_field f i)) as (H1 & H2 & H3 & H4).
  destruct (validate_field_frame f i) as (G1 & G2 & _ & G4 & G5). unfold touched. cbn. by rewrite H1, H2, H3, H4.
Qed.

(** ** Sessions *)

Definition inputs_editable fs : Prop := forall i fd, fs !! i = Some fd -> editable (Field.input fd).
Lemma inputs_content fs gs : map content gs = map content fs -> inputs_editable fs -> inputs_editable gs.
Proof.
  intros H Hfs i fd Hi. pose proof (lookup_content Field.input gs fs i (fun _ => eq_refl) H) as Hx.
  rewrite Hi in Hx. destruct (fs !! i) as [x|] eqn:E; [|done]. cbn in Hx. injection Hx as ->. by apply (Hfs i).
Qed.
(** A form with its usual fields, whose errors are current, whose texts can be shown and edited,
    and whose focus is on a field. *)
Definition good f : Prop :=
  shaped f /\ live f /\ inputs_editable (Form.fields f) /\ (Form.focus f < length (Form.fields f))%nat.
Lemma content_length fs gs : map content gs = map content fs -> length gs = length fs.
Proof. intros H. apply (f_equal length) in H. by rewrite !length_map in H. Qed.

Lemma build_eq k title st fs : build k title st fs = Form.mk k title st (current fs) 0 None [].
Proof. unfold build. by rewrite validate_all_fields. Qed.
Lemma live_fields f g : Form.fields g = Form.fields f -> live f -> live g.
Proof. unfold live. by intros ->. Qed.
Lemma live_build k title st fs : live (build k title st fs).
Proof.
  rewrite build_eq. eapply live_fields; [|exact (live_current (Form.mk k title st fs 0 None []))]. done.
Qed.
Lemma good_build k title st fs :
  k <> FormKind.RemoteStop -> Forall2 fits (shape_of k) fs -> inputs_editable fs -> good (build k title st fs).
Proof.
  intros Hk Hs Hi. split_and!; [|apply live_build|..]; rewrite build_eq; cbn.
  - apply (shaped_content (Form.mk k title st fs 0 None [])); [done|done|apply current_content|]. by split.
  - by apply (inputs_content fs); [apply current_content|].
  - rewrite (content_length fs) by apply current_content. apply Forall2_length in Hs.
    destruct k, fs; cbn in *; first [done|lia].
Qed.

Lemma new_field_fits label k v : k <> FieldKind.Select -> fits (Typed k) (new_field label k v).
Proof. done. Qed.
Lemma select_fits label options : options <> [] -> fits (Choice options) (select label options).
Proof. intros H. split_and!; [done|done|]. destruct options; [done|cbn; lia]. Qed.
Lemma choose_fits options fd i : fits (Choice options) fd -> (i < length options)%nat -> fits (Choice options) (fd <| Field.option := i |>).
Proof. intros (Hk & Ho & _) Hi. by split_and!. Qed.
Lemma preselect_fits o options fd : fits (Choice options) fd -> fits (Choice options) (preselect o fd).
Proof.
  intros Hf. pose proof Hf as (_ & Ho & Hl). apply choose_fits; [done|].
  destruct (position _ _) as [i|] eqn:E; cbn; [|lia]. rewrite <- Ho. by apply position_lt in E.
Qed.

Context {L : UnicodeLaws U}.
Lemma editables fs : Forall (fun fd => editable (Field.input fd)) fs -> inputs_editable fs.
Proof. intros H i fd Hi. by eapply Forall_lookup_1 in H. Qed.
Lemma new_field_editable label k v : editable (Field.input (new_field label k v)).
Proof. apply new_input_editable. Qed.
Lemma select_editable label options : editable (Field.input (select label options)).
Proof. apply new_input_editable. Qed.
Lemma initial_fits label options a :
  options <> [] ->
  fits (Choice options)
    (match (let? x := a in position (fun o => o == x) (Field.options (select label options))) with
     | Some i => (select label options) <| Field.option := i |>
     | None => select label options
     end).
Proof.
  intros Hne. pose proof (select_fits label options Hne) as Hf. destruct a as [a|]; [|done].
  destruct (position _ _) as [i|] eqn:E; [|done]. apply choose_fits; [done|]. by apply position_lt in E.
Qed.
Lemma csms_actions_nonempty : csms_actions <> [].
Proof. vm_compute. discriminate. Qed.
Lemma good_remote_stop st choices : choices <> [] -> good (remote_stop_form st choices).
Proof.
  intros Hc. unfold remote_stop_form. cbv zeta.
  match goal with |- context [select _ ?o] => set (os := o) end.
  assert (length os = length choices) as Hl by apply length_map.
  split_and!; [|apply (live_fields (build FormKind.RemoteStop [] st [select (lit "transaction") os])); [done|apply live_build]|..];
    rewrite build_eq; cbn.
  - split; cbn; [|intros _; eexists; split; [reflexivity|cbn; by rewrite length_map]].
    repeat constructor. cbn. rewrite Hl. destruct choices; [done|cbn; lia].
  - apply (inputs_content [select (lit "transaction") os]); [done|]. apply editables. repeat constructor; apply select_editable.
  - lia.
Qed.
Lemma initial_editable label options o :
  editable (Field.input
    (match o with Some i => (select label options) <| Field.option := i |> | None => select label options end)).
Proof. destruct o; apply new_input_editable. Qed.
Ltac each_field tac :=
  repeat first [apply List.Forall2_nil|apply List.Forall2_cons|apply List.Forall_nil|apply List.Forall_cons]; first [tac|idtac].
Ltac fits_field :=
  first [by apply new_field_fits|by apply select_fits|by apply preselect_fits, select_fits
        |by apply initial_fits, csms_actions_nonempty].
Lemma opened_good f : opened f -> good f.
Proof.
  destruct 1; [|by apply good_remote_stop|..]; apply good_build; try done;
    try (each_field fits_field);
    try (apply editables; each_field ltac:(first [apply new_field_editable|apply select_editable])).
  1: apply initial_editable.
  split; [done|]. destruct actions; [done|cbn; lia].
Qed.

Lemma editable_edit key fd : editable (Field.input fd) -> editable (Field.input (edit_field key fd)).
Proof.
  intros H. assert (editable (edit_input key (Field.input fd))) as He.
  { unfold edit_input. destruct (code key); try done.
    - exact (edits_safe Left _ H).
    - exact (edits_safe Right _ H).
    - exact (edits_safe Home _ H).
    - exact (edits_safe End_ _ H).
    - exact (edits_safe Backspace _ H).
    - exact (edits_safe Delete _ H).
    - cases; [exact (edits_safe Home _ H)|exact (edits_safe End_ _ H)|exact (new_input_editable [])
             |exact (edits_safe (InsertChar c) _ H)]. }
  unfold edit_field. destruct (Field.kind fd); try exact He. destruct (code key); try exact H. by destruct (ctrl key).
Qed.
Lemma good_touched f i fd gd :
  good f -> Form.fields f !! i = Some fd -> (forall s, fits s fd -> fits s gd) ->
  Field.options gd = Field.options fd -> editable (Field.input gd) ->
  good (touched (f <| Form.fields ::= <[i := gd]> |>) i).
Proof.
  intros (Hs & Hl & He & Hf) Hi Hfit Ho Hg. set (f1 := f <| Form.fields ::= _ |>).
  destruct (touched_frame f1 i) as (Hk & Hfo & Ht & Hc). split_and!.
  - apply (shaped_content f1); [done|done|done|]. by apply (shaped_update f i fd).
  - by apply (live_touched f i fd gd).
  - apply (inputs_content _ _ Hc). intros j x. unfold f1. cbn. intros [(-> & <- & _)|(_ & Hj)]%list_lookup_insert_Some; [done|].
    by apply (He j).
  - rewrite Hfo, (content_length _ _ Hc). unfold f1. cbn. by rewrite length_insert.
Qed.
Lemma focus_good f i : good f -> (i < length (Form.fields f))%nat -> good (f <| Form.focus := i |>).
Proof. intros (Hs & Hl & He & Hf) Hi. by split_and!. Qed.
Lemma good_key key f : good f -> good (handle_key key f).1.
Proof.
  intros Hg. assert (forall i, good (f <| Form.focus := (i mod Nat.max (length (Form.fields f)) 1)%nat |>)) as Hfocus.
  { intros i. destruct Hg as (? & ? & ? & Hf). apply focus_good; [by split_and!|].
    pose proof (Nat.mod_upper_bound i (Nat.max (length (Form.fields f)) 1)). lia. }
  assert (good (match Form.fields f !! Form.focus f with
                | None => f
                | Some fd => touched (f <| Form.fields ::= <[Form.focus f := edit_field key fd]> |>) (Form.focus f)
                end)) as Hedit.
  { destruct (Form.fields f !! Form.focus f) as [fd|] eqn:E; [|done]. destruct (edit_options key fd) as [Ho _].
    apply (good_touched f _ fd); [done|done|intros s; apply fits_edit|done|].
    destruct Hg as (_ & _ & He & _). by eapply editable_edit, He. }
  unfold handle_key. destruct (code key); cbn [fst]; first [exact Hg|exact (Hfocus _)|idtac].
  all: by destruct (Form.fields f !! Form.focus f).
Qed.
Lemma good_paste text f : good f -> good (paste text f).
Proof.
  intros Hg. unfold paste. destruct (Form.fields f !! Form.focus f) as [fd|] eqn:E; [|done].
  destruct (is_text fd) eqn:Ht; [|done].
  apply (good_touched f _ fd); [done|done|by intros []|done|].
  destruct Hg as (_ & _ & He & _). cbn. exact (edits_safe (InsertStr text) _ (He _ _ E)).
Qed.

(** ** What a valid field is worth *)

Ltac valid_field :=
  let Hi := fresh in let Hk := fresh in let He := fresh in
  intros Hi [Hk _] He; unfold field_error in He; rewrite Hk in He.
Lemma text_at fs i fd : fs !! i = Some fd -> text fs i = text_of fd.
Proof. intros H. unfold text. by rewrite H. Qed.
Lemma number_ok fs i fd m :
  fs !! i = Some fd -> fits (Typed (FieldKind.Connector m false)) fd -> field_error fs fd = None -> is_Some (number_at fs i).
Proof.
  valid_field. unfold number_at. rewrite (text_at _ _ _ H). rewrite andb_false_r in H1.
  by destruct (parse_u32 _).
Qed.
Lemma count_ok fs i fd :
  fs !! i = Some fd -> fits count fd -> field_error fs fd = None -> is_Some (count_at fs i).
Proof.
  valid_field. unfold count_at. rewrite (text_at _ _ _ H). rewrite andb_false_r in H1.
  by destruct (parse_i32 _).
Qed.
Lemma time_ok fs i fd :
  fs !! i = Some fd -> fits time fd -> field_error fs fd = None -> is_Some (time_at fs i).
Proof.
  valid_field. unfold time_at. rewrite (text_at _ _ _ H). rewrite andb_false_r in H1.
  by destruct (parse_from_rfc3339 _).
Qed.
Lemma times_ok fs i fd :
  fs !! i = Some fd -> fits (Typed FieldKind.Times) fd -> field_error fs fd = None -> is_Some (parse_u64 (text fs i)).
Proof. valid_field. rewrite (text_at _ _ _ H). by destruct (parse_u64 _). Qed.
Lemma tag_ok fs i fd :
  fs !! i = Some fd -> fits (Typed FieldKind.IdTag) fd -> field_error fs fd = None -> is_Some (ok (IdTag_new (text fs i))).
Proof.
  valid_field. rewrite (text_at _ _ _ H). destruct (is_empty _); [done|]. unfold tag_error in H1.
  by destruct (IdTag_new _).
Qed.
Lemma auth_ok fs i fd :
  fs !! i = Some fd -> fits (Typed FieldKind.AuthList) fd -> field_error fs fd = None ->
  is_Some (ok (parse_auth_list (text fs i))).
Proof. valid_field. rewrite (text_at _ _ _ H). by destruct (parse_auth_list _). Qed.
Lemma pem_ok fs i fd max :
  fs !! i = Some fd -> fits (Typed (FieldKind.Pem max)) fd -> field_error fs fd = None -> is_Some (pem_at fs i).
Proof.
  valid_field. unfold pem_at. rewrite H, H0, (text_at _ _ _ H). by destruct (normalize_pem _ _).
Qed.
Lemma json_object_ok raw : err (json_object raw) = None -> exists v, json_from_str raw = Ok v.
Proof. unfold json_object. destruct (json_from_str raw); [by eexists|done]. Qed.
Lemma json_ok fs i fd :
  fs !! i = Some fd -> fits (Typed FieldKind.Json) fd -> field_error fs fd = None -> is_Some (json_at fs i).
Proof.
  valid_field. apply json_object_ok in H1 as (v & Hv). unfold json_at. rewrite H, Hv. by eexists.
Qed.
(** A raw payload satisfies the schema of the chosen action. *)
Lemma raw_ok fs fd action :
  fs !! 1%nat = Some fd -> fits (Typed FieldKind.RawJson) fd -> field_error fs fd = None -> chosen_at fs 0 = Some action ->
  exists payload, json_at fs 1 = Some payload /\ Schema.validate_request action payload = Ok tt.
Proof.
  valid_field. intros Hc. rewrite Hc in H1. unfold validate_request, json_object in H1. unfold json_at. rewrite H. cbv beta iota.
  destruct (json_from_str _) as [v|e]; [|done]. destruct (is_object v); [|done]. change (default [] (Some action)) with action in H1.
  exists v. split; [done|]. by destruct (Schema.validate_request action v) as [[]|].
Qed.
Lemma profile_ok fs fd :
  fs !! 1%nat = Some fd -> fits (Typed FieldKind.ProfileJson) fd -> field_error fs fd = None ->
  exists value profile, json_from_str (TextInput.text (Field.input fd)) = Ok value /\ profile_from_value value = Ok profile.
Proof.
  valid_field. unfold validate_profile, json_object in H1. destruct (json_from_str _) as [v|e]; [|done].
  destruct (is_object v); [|done]. destruct (Schema.validate_request _ _); [|done].
  exists v. destruct (profile_from_value v) as [p|]; [by exists p|done].
Qed.
Lemma choice_ok fs i fd options :
  fs !! i = Some fd -> fits (Choice options) fd -> exists o, chosen_at fs i = Some o /\ In o options.
Proof.
  intros Hi (_ & Ho & Hl). unfold chosen_at, chosen. rewrite Hi. cbn. rewrite Ho.
  destruct (lookup_lt_is_Some_2 options (Field.option fd) Hl) as [o Eo]. exists o. split; [done|].
  apply list_elem_of_In. by eapply list_elem_of_lookup_2.
Qed.
Lemma any_choice_ok fs i fd : fs !! i = Some fd -> fits AnyChoice fd -> is_Some (chosen_at fs i).
Proof. intros Hi (_ & Hl). unfold chosen_at, chosen. rewrite Hi. cbn. by apply lookup_lt_is_Some_2. Qed.
Lemma enum_ok {E} `{WE : WireEnum E} {OK : WireEnumOk E} fs i fd :
  fs !! i = Some fd -> fits (one_of E) fd -> is_Some (chosen_enum (E:=E) fs i).
Proof.
  intros Hi Hf. destruct (choice_ok _ _ _ _ Hi Hf) as (o & Ho & Hin). unfold chosen_enum. rewrite Ho.
  apply in_map_iff in Hin as (x & <- & _). rewrite parse_enum_wire. by eexists.
Qed.
Lemma fault_kind_ok fs fd :
  fs !! 1%nat = Some fd -> fits (Choice (map FaultKind.name FaultKind.ALL)) fd ->
  exists k, chosen_at fs 1 = Some (FaultKind.name k)
    /\ find_first (fun k => bool_decide (Some (FaultKind.name k) = chosen_at fs 1)) FaultKind.ALL = Some k.
Proof.
  intros Hi Hf. destruct (choice_ok _ _ _ _ Hi Hf) as (o & Ho & Hin). rewrite Ho.
  apply in_map_iff in Hin as (k & <- & _). exists k. split; [done|]. by destruct k.
Qed.
Lemma fault_json_ok fs i fd :
  fs !! i = Some fd -> fits (Typed FieldKind.FaultJson) fd -> field_error fs fd = None ->
  chosen_at fs 1 = Some (FaultKind.name FaultKind.InvalidPayload) -> is_Some (json_at fs i).
Proof.
  valid_field. intros Hc. rewrite Hc, bool_decide_eq_true_2 in H1 by done.
  apply json_object_ok in H1 as (v & Hv). unfold json_at. rewrite H, Hv. by eexists.
Qed.

(** ** What a form sends *)

(** The one way to be refused without a word: the value of the profile is accepted, its text is not. *)
Definition silent f : Prop :=
  Form.kind f = FormKind.SetProfile
  /\ exists fd value profile,
       Form.fields f !! 1%nat = Some fd /\ json_from_str (TextInput.text (Field.input fd)) = Ok value
       /\ profile_from_value value = Ok profile /\ profile_from_str (TextInput.text (Field.input fd)) = None.
Definition valid f : Prop := Forall (fun fd => field_error (Form.fields f) fd = None) (Form.fields f).

Ltac field_facts :=
  repeat match goal with
  | H : Forall2 fits (_ :: _) _ |- _ => apply Forall2_cons_inv_l in H as (? & ? & ? & H & ->)
  | H : Forall2 fits [] _ |- _ => apply Forall2_nil_inv_l in H as ->
  | H : Forall _ (_ :: _) |- _ => apply Forall_cons in H as [? H]
  end.
Ltac field_worth :=
  first [ eapply number_ok; [reflexivity|eassumption|eassumption]
        | eapply count_ok; [reflexivity|eassumption|eassumption]
        | eapply time_ok; [reflexivity|eassumption|eassumption]
        | eapply times_ok; [reflexivity|eassumption|eassumption]
        | eapply tag_ok; [reflexivity|eassumption|eassumption]
        | eapply auth_ok; [reflexivity|eassumption|eassumption]
        | eapply pem_ok; [reflexivity|eassumption|eassumption]
        | eapply json_ok; [reflexivity|eassumption|eassumption]
        | eapply any_choice_ok; [reflexivity|eassumption]
        | eapply enum_ok; [reflexivity|eassumption] ].
Ltac resolve :=
  match goal with
  | |- context [match ?e with Some _ => _ | None => None end] =>
      let H := fresh in assert (is_Some e) as [? H] by field_worth; rewrite H; clear H; cbv beta iota
  end.
Definition has_payload_choice (k : FormKind.t) : bool :=
  match k with
  | FormKind.RemoteStop | FormKind.SetProfile | FormKind.Raw | FormKind.Rule | FormKind.Fault => true
  | _ => false
  end.
Lemma plain_converts f :
  shaped f -> valid f -> has_payload_choice (Form.kind f) = false -> is_Some (convert f).
Proof.
  destruct f as [kind title st fs focus e ids]. intros [Hs _] Hv Hk. unfold valid in Hv. cbn in Hs, Hv, Hk.
  unfold convert, command. cbn [Form.kind Form.fields Form.tx_ids].
  destruct kind; try done; clear Hk; cbn [shape_of] in Hs; field_facts; repeat resolve; by eexists.
Qed.
Lemma remote_stop_converts f : shaped f -> Form.kind f = FormKind.RemoteStop -> is_Some (convert f).
Proof.
  intros [Hs Hr] Hk. destruct (Hr Hk) as (fd & Hfd & Hl). unfold convert, command. rewrite Hk in *. rewrite Hfd in *. cbn.
  apply Forall2_cons_inv_l in Hs as (x & l & (_ & Hx) & _ & Heq). injection Heq as -> _.
  rewrite <- Hl in Hx. apply lookup_lt_is_Some_2 in Hx as [id ->]. by eexists.
Qed.
(** The fields of a form of a known kind, each with its shape and without error. *)
Ltac open_form f :=
  destruct f as [kind title st fs focus e ids]; intros [Hs _] Hv Hk; unfold valid, silent in *;
  cbn in Hs, Hv, Hk; subst kind; unfold convert, command; cbn [Form.kind Form.fields Form.tx_ids];
  cbn [shape_of] in Hs; field_facts.
Ltac first_choice act H :=
  match goal with |- context [chosen_at ?fs 0] =>
    edestruct (choice_ok fs 0) as (act & H & _); [reflexivity|eassumption|] end.
Lemma profile_converts f :
  shaped f -> valid f -> Form.kind f = FormKind.SetProfile -> is_Some (convert f) \/ silent f.
Proof.
  open_form f. resolve. cbn [lookup list_lookup].
  edestruct profile_ok as (value & profile & Hj & Hp); [|eassumption|eassumption|]; [reflexivity|].
  destruct (profile_from_str _) eqn:E; [left; by eexists|right]. split; [done|]. by eexists _, value, profile.
Qed.
Lemma raw_converts f :
  shaped f -> valid f -> Form.kind f = FormKind.Raw ->
  exists action payload, convert f = Some (Submitted.Send (Command.Raw action payload))
    /\ Schema.validate_request action payload = Ok tt.
Proof.
  open_form f. first_choice act Ha.
  edestruct raw_ok as (payload & Hj & Hp); [|eassumption|eassumption|exact Ha|]; [reflexivity|].
  exists act, payload. by rewrite Ha, Hj.
Qed.
Lemma rule_converts f : shaped f -> valid f -> Form.kind f = FormKind.Rule -> is_Some (convert f).
Proof.
  open_form f. first_choice act Ha. rewrite Ha.
  cbv beta iota. resolve. by eexists.
Qed.
Lemma fault_converts f : shaped f -> valid f -> Form.kind f = FormKind.Fault -> is_Some (convert f).
Proof.
  open_form f. first_choice act Ha. rewrite Ha.
  match goal with |- context [chosen_at ?fs 1] =>
    edestruct (fault_kind_ok fs) as (k & Hc & ->); [reflexivity|eassumption|] end. cbv beta iota.
  match goal with |- is_Some (match ?e with _ => _ end) => assert (is_Some e) as [p ->] end.
  { case_bool_decide as E; [subst k|by eexists]. by eapply fault_json_ok; [reflexivity|eassumption..|]. }
  cbv beta iota. resolve. by eexists.
Qed.
Lemma converts f : shaped f -> valid f -> is_Some (convert f) \/ silent f.
Proof.
  intros Hs Hv. destruct (has_payload_choice (Form.kind f)) eqn:Hk; [|left; by apply plain_converts].
  destruct (Form.kind f) eqn:E; try done.
  - left. by apply remote_stop_converts.
  - by apply profile_converts.
  - left. destruct (raw_converts f Hs Hv E) as (a & p & -> & _). by eexists.
  - left. by apply rule_converts.
  - left. by apply fault_converts.
Qed.
Lemma convert_command f c : convert f = Some (Submitted.Send c) -> command f = Some c.
Proof.
  unfold convert. destruct (Form.kind f); try (destruct (command f); [by intros [= ->]|done]);
    repeat (match goal with |- match ?e with Some _ => _ | None => _ end = _ -> _ => destruct e end; cbv beta iota; try done).
Qed.
Lemma converts_raw f action payload :
  convert f = Some (Submitted.Send (Command.Raw action payload)) -> Form.kind f = FormKind.Raw.
Proof.
  intros H%convert_command. revert H. unfold command. destruct (Form.kind f); try done;
    repeat (match goal with |- match ?e with Some _ => _ | None => _ end = _ -> _ => destruct e end; cbv beta iota; try done).
Qed.
Lemma whole_request_ok f s c :
  shaped f -> valid f -> convert f = Some s -> whole_request s = None -> s = Submitted.Send c ->
  Schema.validate_request (CsmsCommand.action c) (CsmsCommand.payload c) = Ok tt.
Proof.
  intros Hs Hv Hc Hw ->.
  assert ((exists a p, c = Command.Raw a p)
          \/ Schema.show_violation <$> err (Schema.validate_request (CsmsCommand.action c) (CsmsCommand.payload c)) = None)
    as [(a & p & ->)|He] by (destruct c; eauto).
  - pose proof (converts_raw _ _ _ Hc) as Hk. destruct (raw_converts f Hs Hv Hk) as (a' & p' & Hc' & Hp).
    rewrite Hc in Hc'. by injection Hc' as -> ->.
  - by destruct (Schema.validate_request _ _) as [[]|].
Qed.
Lemma submit_eq f :
  let g := f <| Form.error := None |> <| Form.fields := current (Form.fields f) |> in
  submit f
  = if negb (all (fun fd => negb (has_error fd)) (current (Form.fields f)))
    then (match position has_error (Form.fields g) with Some i => g <| Form.focus := i |> | None => g end, None)
    else
      match convert g with
      | None => (g, None)
      | Some submitted =>
          match whole_request submitted with
          | Some e => (g <| Form.error := Some e |>, None)
          | None => (g, Some submitted)
          end
      end.
Proof. intros g. unfold submit. by rewrite validate_all_fields. Qed.
Lemma current_valid f :
  let g := f <| Form.error := None |> <| Form.fields := current (Form.fields f) |> in
  good f -> good g /\ (all (fun fd => negb (has_error fd)) (current (Form.fields f)) = true -> valid g).
Proof.
  intros g (Hs & Hl & He & Hf). pose proof (current_content (Form.fields f)) as Hc.
  assert (good g) as Hg.
  { split_and!.
    - exact (shaped_content f g eq_refl eq_refl Hc Hs).
    - exact (live_fields _ g eq_refl (live_current f)).
    - exact (inputs_content (Form.fields f) _ Hc He).
    - rewrite <- (content_length _ _ Hc) in Hf. exact Hf. }
  split; [done|]. intros Ha. apply Forall_lookup. intros i fd Hi. destruct Hg as (_ & Hl' & _).
  rewrite <- (Hl' _ _ Hi). apply forallb_forall with (x := fd) in Ha.
  - unfold has_error in Ha. by destruct (Field.error fd).
  - apply list_elem_of_In. by eapply list_elem_of_lookup_2.
Qed.
Lemma good_submit f : good f -> good (submit f).1.
Proof.
  intros Hf. rewrite submit_eq. destruct (current_valid f Hf) as [Hg _]. set (g := f <| Form.error := None |> <| Form.fields := _ |>) in *.
  destruct (negb _).
  - destruct (position has_error (Form.fields g)) as [i|] eqn:Ep; [|done]. apply focus_good; [done|].
    by apply position_lt in Ep.
  - destruct (convert g) as [s|]; [|done]. destruct (whole_request s); [|done].
    destruct Hg as (? & ? & ? & ?). by split_and!.
Qed.
Lemma session_good f : session f -> good f.
Proof.
  induction 1; [by apply opened_good|by apply good_key|by apply good_paste|by apply good_submit].
Qed.

(** The focus is on the first field with an error, or the form itself has one. *)
Definition explained f : Prop :=
  (exists i fd e, position has_error (Form.fields f) = Some i /\ Form.focus f = i
     /\ Form.fields f !! i = Some fd /\ Field.error fd = Some e)
  \/ is_Some (Form.error f).
Lemma refused_explained f :
  all (fun fd => negb (has_error fd)) (Form.fields f) = false ->
  explained (match position has_error (Form.fields f) with Some i => f <| Form.focus := i |> | None => f end).
Proof.
  intros H. destruct (position has_error (Form.fields f)) as [i|] eqn:Ep.
  - left. destruct (position_Some _ _ _ Ep) as (fd & Hi & He & _).
    unfold has_error in He. destruct (Field.error fd) as [e|] eqn:E; [|done]. by exists i, fd, e.
  - exfalso. rewrite position_None in Ep. apply not_true_iff_false in H. apply H, forallb_forall.
    intros x Hx. by rewrite (Ep x Hx).
Qed.

(** A profile of the one kind is refused, and nothing tells. *)
Lemma refused_silently f :
  session f -> valid f -> silent f -> (submit f).2 = None /\ ~ explained (submit f).1.
Proof.
  intros Hf%session_good Hv Hsil. rewrite submit_eq.
  assert (forall x, In x (current (Form.fields f)) -> Field.error x = None) as Hnone.
  { intros x Hx. apply list_elem_of_In, list_elem_of_lookup_1 in Hx as (i & Hi).
    apply current_lookup in Hi as (fd & Hfd & ->). exact (Forall_lookup_1 _ _ _ _ Hv Hfd). }
  assert (all (fun fd => negb (has_error fd)) (current (Form.fields f)) = true) as ->.
  { apply forallb_forall. intros x Hx. unfold has_error. by rewrite (Hnone x Hx). }
  cbn [negb]. destruct Hsil as (Hk & fd & value & profile & Hfd & _ & _ & Hp).
  set (g := f <| Form.error := None |> <| Form.fields := _ |>).
  assert (convert g = None) as ->.
  { unfold convert, command, g. cbn. rewrite Hk. destruct (number_at _ 0); [|done].
    destruct (current (Form.fields f) !! 1%nat) as [x|] eqn:E; [|done].
    apply current_lookup in E as (y & Hy & ->). rewrite Hfd in Hy. injection Hy as <-. cbn. by rewrite Hp. }
  split; [done|]. intros [(i & x & e & _ & _ & Hi & He)|[e He]]; [|done].
  cbn in Hi. rewrite Hnone in He; [done|]. apply list_elem_of_In. by eapply list_elem_of_lookup_2.
Qed.

(** Claim C34: the errors a form shows are always those of its content, whatever keys are pressed,
    whatever is pasted and submitted: also the ones of the fields that are checked against another
    field; the choices stay in range, the texts stay fit for a terminal, the focus on a field. *)
Theorem forms_live f : session f -> shaped f /\ live f /\ inputs_editable (Form.fields f) /\ (Form.focus f < length (Form.fields f))%nat.
Proof. apply session_good. Qed.

(** Claim C33: a form is never refused without a word, except a charging profile whose value is
    accepted and whose text is not; what it sends satisfies the schema of its action, and then no
    error is left. *)
Theorem submit_answers f : session f ->
  match submit f with
  | (g, None) => explained g \/ silent g
  | (g, Some s) =>
      Forall (fun fd => Field.error fd = None) (Form.fields g) /\ Form.error g = None
      /\ forall c, s = Submitted.Send c ->
           Schema.validate_request (CsmsCommand.action c) (CsmsCommand.payload c) = Ok tt
  end.
Proof.
  intros Hf%session_good. rewrite submit_eq. destruct (current_valid f Hf) as [Hg Hv].
  set (g := f <| Form.error := None |> <| Form.fields := _ |>) in *.
  destruct (all _ (current (Form.fields f))) eqn:Ha; cbn [negb].
  - specialize (Hv eq_refl). destruct Hg as (Hs & Hl & _ & _).
    destruct (converts g Hs Hv) as [[s Hc]|Hsil].
    + rewrite Hc. destruct (whole_request s) as [e|] eqn:Hw; [left; right; by eexists|].
      split_and!; [|done|intros c; by apply (whole_request_ok g)].
      apply Forall_lookup. intros i fd Hi. rewrite (Hl _ _ Hi). by apply (Forall_lookup_1 _ _ _ _ Hv Hi).
    + destruct (convert g) as [s|] eqn:Hc; [|by right].
      destruct (whole_request s) as [e|] eqn:Hw; [left; right; by eexists|].
      split_and!; [|done|intros c; by apply (whole_request_ok g)].
      apply Forall_lookup. intros i fd Hi. rewrite (Hl _ _ Hi). by apply (Forall_lookup_1 _ _ _ _ Hv Hi).
  - left. exact (refused_explained g Ha).
Qed.
End sessions.

(** ** A form of every kind of field can be sent *)

#[export] Instance letters : Unicode := {| graphemes s := map (fun c => [c]) s; width := len; char_width_of _ := Some 1 |}.
#[export] Instance letters_laws : UnicodeLaws letters.
Proof.
  constructor.
  - intros s. cbn. induction s as [|c s IH]; [done|]. cbn. by rewrite IH.
  - intros s g. cbn. intros (c & <- & _)%in_map_iff. done.
Qed.
Definition refusing {Req Res} : @Codec u64_json Req Res :=
  {| request_to_value _ := Err []; response_from_value _ := Err []; response_to_value _ := Err [] |}.
#[local] Instance sample_typed : @TypedWire u64_json.
Proof. constructor; first [exact true|exact refusing]. Defined.
#[local] Instance sample_commands : @CommandWire u64_json :=
  {| hash_to_value _ := Null; profile_to_value _ := Null; seconds_text _ := [] |}.
#[local] Instance sample_forms : @FormWire u64_json :=
  {| parse_from_rfc3339 _ := None; rfc3339_secs _ := []; profile_from_str _ := None; profile_from_value _ := Err [] |}.
#[local] Existing Instance u64_json.
#[local] Existing Instance ns_chrono.
#[local] Existing Instance CsmsServer.sample_format.
#[local] Existing Instance CsmsServer.no_errors.
#[local] Existing Instance CsmsSession.sample_text.

Definition typed : Form.t := (handle_key (mk_key (KeyCode.Char 65) false false) (remote_start_form (lit "CP-1"))).1.
Lemma typed_session : session typed.
Proof. apply presses, starts, open_remote_start. Qed.
Lemma forms_live_witness : session typed /\ live typed.
Proof. split; [apply typed_session|]. apply (forms_live typed). apply typed_session. Defined.
Lemma submit_answers_witness :
  (submit typed).2 = Some (Submitted.Send (Command.RemoteStart (lit "A") None)) /\ Form.error (submit typed).1 = None.
Proof.
  pose proof (submit_answers typed typed_session) as H.
  assert (E : (submit typed).2 = Some (Submitted.Send (Command.RemoteStart (lit "A") None))) by reflexivity.
  split; [exact E|]. destruct (submit typed) as [g r]. cbn in E |- *. subst r. apply H.
Defined.
End FormSessions.
