(* ===== verification/Meeting.v ===== *)
(** * Meeting: a station of the core at the CSMS of this repository

    The handshake from both ends: the URL the actor hands to the connection ([Secure], from the
    configuration and [AuthorizationKey]), the request the connection makes of it
    ([WsHandshake]), what the CSMS decides about it ([CsmsConfig], [CsmsAccept]), and what the
    station makes of its answer. *)

From stdpp Require Import strings gmap.
From S2P Require Import Prelude Text Utf8 Strings F64 Time Types Messages SecurityMessages Frame Actions Schema Interface Config ConfigRegistry Security.
From S2P Require Import Certificates Store Restore Actor Secure Samples WsHandshake CsmsState CsmsConfig CsmsServer CsmsSession CsmsAccept.
Local Open Scope Z_scope.

Module Meeting.
Import (hints) Actor StationConfig.
Import WsHandshake CsmsConfig CsmsServer CsmsSession CsmsAccept.

(** An id with a path segment of its own: the [url] crate leaves [.] and [..] out of a path. *)
Definition is_id (id : str) : Prop :=
  is_text id /\ id <> [] /\ byte_len id <= MAX_STATION_ID_LEN /\ any Security.is_control id = false
  /\ id <> lit "." /\ id <> lit "..".

(** What the [url], [percent-encoding] and [base64] crates document of the operations both ends use. *)
Class Agreed {U : UrlParser} {P : UrlParts} {E : Encoding} {H : Handshake} : Prop := {
  url_text_parses url : url_parse (url_text url) = Ok url;
  segments_path url segments : path_segments url = Some segments -> url_path url = 47 :: join 47 segments;
  segments_nonempty url segments : path_segments url = Some segments -> segments <> [];
  push_path id url url' : push_segment id url = Some url' -> is_id id ->
    (exists p, url_path url' = p ++ 47 :: encoded_segment id)
    /\ url_username url' = url_username url /\ url_password url' = url_password url;
  segment_decodes id : is_id id -> percent_decode (encoded_segment id) = Some id;
  segment_whole id : is_id id -> encoded_segment id <> [] /\ 47 ∉ encoded_segment id;
  userinfo_decodes user key url : is_text user -> is_text key -> url_host url <> None ->
    percent_decode_lossy (url_username (with_userinfo user key url)) = user
    /\ exists password, url_password (with_userinfo user key url) = Some password /\ percent_decode_lossy password = key;
  base64_decodes s : is_text s -> base64_decode (trim (base64_encode (as_bytes s))) = Some (as_bytes s);
}.

Section meeting.
Context {U : UrlParser} {P : UrlParts} {E : Encoding} {H : Handshake} {A : Agreed}.

(** What a server reads of the request head of a station. *)
Definition request_of (url : Url) (subprotocol : str) : Request :=
  mk_request (url_path url) (WsHandshake.authorization url) [Some subprotocol].

(** ** The id *)

Lemma join_last sep words last_ : exists p, sep :: join sep (words ++ [last_]) = p ++ sep :: last_.
Proof.
  induction words as [|w words (p & IH)]; [by exists []|]. exists (sep :: w ++ p).
  cbn [app join]. destruct (words ++ [last_]) as [|x xs] eqn:Ex; [by destruct words|].
  cbn [app]. rewrite <- app_assoc. f_equal. f_equal. exact IH.
Qed.
Lemma path_names_id p id url :
  is_id id -> url_path url = p ++ 47 :: encoded_segment id -> station_id_from_path (url_path url) = Some id.
Proof.
  intros Hid ->. pose proof Hid as (_ & Hne & Hlen & Hctl & _). destruct (segment_whole id Hid) as [Hs Hw].
  unfold station_id_from_path. rewrite split_on_concat, (split_on_plain 47 (encoded_segment id)) by done.
  rewrite rev_unit. cbn [find_first]. destruct (encoded_segment id) as [|c seg] eqn:Es; [done|]. cbn [is_empty_text negb].
  rewrite <- Es, (segment_decodes id Hid). destruct id as [|x id]; [done|].
  rewrite (proj2 (Z.leb_le _ _) Hlen), Hctl. done.
Qed.
(** The URL of a charge point is read back as its id; the userinfo of the base stays. *)
Lemma charge_point_url_id base id url :
  is_id id -> charge_point_url base id = Ok url ->
  station_id_from_path (url_path url) = Some id
  /\ exists u, url_parse base = Ok u /\ url_username url = url_username u /\ url_password url = url_password u.
Proof.
  intros Hid. unfold charge_point_url. destruct (url_parse base) as [u|] eqn:Eu; [|done].
  destruct (negb _); [done|]. destruct (path_segments u) as [segments|] eqn:Es; cbn [is_some_and].
  - destruct (last segments) as [x|] eqn:El; cbn [is_some_and].
    + destruct (x == encoded_segment id) eqn:Ex.
      * intros [= <-]. apply (proj1 (eqb_true _ _)) in Ex as ->. split; [|by exists u].
        apply last_Some in El as [words ->]. destruct (join_last 47 words (encoded_segment id)) as (p & Hp).
        apply (path_names_id p); [done|]. by rewrite (segments_path _ _ Es).
      * destruct (push_segment id u) as [u'|] eqn:Ep; [|done]. intros [= <-].
        destruct (push_path _ _ _ Ep Hid) as ((p & Hp) & Hn & Hw). split; [by apply (path_names_id p)|by exists u].
    + destruct (push_segment id u) as [u'|] eqn:Ep; [|done]. intros [= <-].
      destruct (push_path _ _ _ Ep Hid) as ((p & Hp) & Hn & Hw). split; [by apply (path_names_id p)|by exists u].
  - destruct (push_segment id u) as [u'|] eqn:Ep; [|done]. intros [= <-].
    destruct (push_path _ _ _ Ep Hid) as ((p & Hp) & Hn & Hw). split; [by apply (path_names_id p)|by exists u].
Qed.

(** ** The key *)

Lemma credentials_of user password :
  is_text user -> is_text password ->
  credentials (Some (lit "Basic " ++ base64_encode (as_bytes (user ++ [58] ++ password)))) = split_once 58 (user ++ [58] ++ password).
Proof.
  intros Hu Hp. unfold credentials.
  assert (split_once 32 (lit "Basic " ++ base64_encode (as_bytes (user ++ [58] ++ password)))
          = Some (lit "Basic", base64_encode (as_bytes (user ++ [58] ++ password)))) as -> by reflexivity.
  cbn [eq_ignore_ascii_case]. assert (is_text (user ++ [58] ++ password)) as Ht.
  { apply Forall_app. split; [done|]. by constructor. }
  rewrite base64_decodes, from_utf8_as_bytes by done. done.
Qed.
Lemma split_once_app sep a b : sep ∉ a -> split_once sep (a ++ sep :: b) = Some (a, b).
Proof.
  induction a as [|c a IH]; cbn [app split_once]; [by rewrite Z.eqb_refl|].
  intros [Hc Ha]%not_elem_of_cons. rewrite (proj2 (Z.eqb_neq c sep)) by done. by rewrite (IH Ha).
Qed.
(** A station that presents its id and a key is let in by profile 1 exactly with the key of the CSMS. *)
Lemma presents_iff p id key url :
  is_text id -> is_text key ->
  percent_decode_lossy (url_username url) = id ->
  (exists password, url_password url = Some password /\ percent_decode_lossy password = key) ->
  presents p (WsHandshake.authorization url) id <-> (58 ∉ id) /\ key_for p id = Some key.
Proof.
  intros Hid Hkey Hu (password & Hpw & Hp). unfold WsHandshake.authorization, presents. rewrite Hpw. cbn [is_someb negb].
  rewrite andb_false_r. change (default [] (Some password)) with password. rewrite Hu, Hp, credentials_of by done. split.
  - intros (x & Hc & Hk). apply split_once_Some in Hc as (Heq & Hn).
    assert (length id = length id) as Hl by done. apply app_inj_1 in Heq as [_ Heq]; [|done]. injection Heq as ->. done.
  - intros [Hn Hk]. exists key. split; [|done]. by apply split_once_app.
Qed.

(** ** Both ends *)

Context {J : SerdeJson} {T : JsonText} {C : Chrono} {K : Pki} {CW : CsmsState.CsmsWire} {F : CsmsFormat} {V : Schema.JsonSchema} {X : HeaderText}.

(** A subprotocol that is one item of its header line. *)
Definition is_token (name : str) : Prop := name <> [] /\ (44 ∉ name) /\ trim name = name.
Lemma offered_token name : is_token name -> offered_protocols [Some name] = [name].
Proof.
  intros (Hne & Hc & Ht). unfold offered_protocols. cbn [omap list_omap flat_map].
  rewrite (split_on_plain 44 name) by done. cbn. rewrite Ht. by destruct name.
Qed.
(** Where the station puts its key. *)
Lemma transport_url (a : Actor.t) (c : StationConfig.t) key base :
  ConfigRegistry.security_profile (Actor.registry a) = 1 \/ ConfigRegistry.security_profile (Actor.registry a) = 2 ->
  ConfigRegistry.authorization_key (Actor.registry a) = Some key ->
  url_parse (StationConfig.url c) = Ok base -> url_password base = None ->
  StationConfig.url (Secure.apply_security_transport a c).1 = url_text (with_userinfo (StationConfig.charge_point_id c) key base).
Proof.
  intros Hp Hk Hb Hw. unfold Secure.apply_security_transport.
  assert (((ConfigRegistry.security_profile (Actor.registry a) =? 1) || (ConfigRegistry.security_profile (Actor.registry a) =? 2)) = true) as ->.
  { by destruct Hp as [->| ->]. }
  assert ((ConfigRegistry.security_profile (Actor.registry a) =? 3) = false) as -> by (by destruct Hp as [->| ->]).
  cbn [andb]. rewrite Hk. cbn. rewrite Hb. cbn. by rewrite Hw.
Qed.
Lemma callback_lets_in s request peer identity id chosen :
  station_id_from_path (uri_path request) = Some id ->
  callback s request peer identity = (s, Ok (id, chosen))
  <-> check (security (Server.config s)) (CsmsAccept.authorization request) id identity = Ok tt
      /\ select (subprotocol (Server.config s)) (offered_protocols (protocols request)) = Ok chosen
      /\ full s id = false /\ is_some_and (fun name => negb (header_value name)) chosen = false.
Proof.
  intros Hid. unfold callback. rewrite Hid. destruct (check _ _ _ _) as [[]|d]; [|split; [done|by intros []]].
  destruct (select _ _) as [x|why]; [|split; [done|by intros (_ & ? & _)]].
  destruct (full s id); [split; [done|by intros (_ & _ & ? & _)]|].
  destruct (is_some_and _ x) eqn:Ex; split; try done.
  - intros (_ & [= <-] & _ & Hx). congruence.
  - intros [= <-]. done.
  - by intros (_ & [= <-] & _ & _).
Qed.

(** Claim C17: a station of this repository that knows its key gets a session at a CSMS of this
    repository with Basic authentication exactly when the CSMS has the same key for its id (and
    the id has no colon, which the header could not carry), negotiates a subprotocol and has room;
    it is the session of that id. The station takes the connection exactly when the subprotocol
    that was selected is the one it asked for. *)
Theorem station_meets_csms (a : Actor.t) (c : StationConfig.t) key base url name s peer identity :
  let id := StationConfig.charge_point_id c in
  let policy := security (Server.config s) in
  is_id id -> is_text key -> is_token name -> policy_texts policy ->
  ConfigRegistry.security_profile (Actor.registry a) = 1 \/ ConfigRegistry.security_profile (Actor.registry a) = 2 ->
  ConfigRegistry.authorization_key (Actor.registry a) = Some key ->
  url_parse (StationConfig.url c) = Ok base -> url_host base <> None -> url_password base = None ->
  charge_point_url (StationConfig.url (Secure.apply_security_transport a c).1) id = Ok url ->
  profile policy = BasicAuth \/ (profile policy = BasicAuthTls /\ identity <> Plain) ->
  (forall chosen,
     callback s (request_of url name) peer identity = (s, Ok (id, chosen))
     <-> (58 ∉ id) /\ key_for policy id = Some key
         /\ select (subprotocol (Server.config s)) [name] = Ok chosen
         /\ full s id = false /\ is_some_and (fun x => negb (header_value x)) chosen = false)
  /\ (forall nonce h bytes rest ending,
        switched (base64_encode nonce) h bytes rest ->
        outcome (upgrade url name nonce (Ok tt) bytes ending) = Ok rest
        <-> header h (lit "sec-websocket-protocol") = Some name).
Proof.
  intros id policy Hid Hkey Hname Hpolicy Hprofile Hauth Hbase Hhost Hnone Hurl Hcsms. split.
  - intros chosen. rewrite (transport_url a c key base) in Hurl by done.
    destruct (charge_point_url_id _ _ _ Hid Hurl) as (Hpath & u & Hu & Hn & Hw).
    rewrite url_text_parses in Hu. injection Hu as <-.
    destruct (userinfo_decodes id key base (proj1 Hid) Hkey Hhost) as [Huser Hpass]. fold id in Hn, Hw. rewrite <- Hn, <- Hw in *.
    rewrite (callback_lets_in s (request_of url name) peer identity id chosen Hpath). unfold request_of. cbn [CsmsAccept.authorization protocols].
    rewrite offered_token by done. fold policy.
    assert (check policy (WsHandshake.authorization url) id identity = Ok tt <-> (58 ∉ id) /\ key_for policy id = Some key) as ->; [|tauto].
    rewrite <- (presents_iff policy id key url) by (done || apply Hid). rewrite <- check_basic_iff by (done || apply Hid).
    unfold check. destruct Hcsms as [->|[-> Hi]]; [done|]. by rewrite eqb_ne.
  - intros nonce h bytes rest ending Hs.
    destruct (upgrade_eq url name nonce bytes ending) as [(h' & r & Hs' & Hp & Ho & _)|[(h' & r & Hs' & Hp & Ho & _)|(Hn & _)]];
      [..|by destruct (Hn _ _ Hs)]; destruct (switched_unique _ _ _ _ _ _ Hs Hs') as [-> ->]; rewrite Ho; split; done.
Qed.
End meeting.

(** ** An environment with the documented behaviour

    A URL is its text: user and password, each closed by a character no text has, and the path. *)

Definition cut (url : str) : option (str * str) * str :=
  match split_once (-1) url with
  | Some (user, rest) => match split_once (-1) rest with Some (key, path) => (Some (user, key), path) | None => (None, url) end
  | None => (None, url)
  end.
Definition glue (user key path : str) : str := user ++ -1 :: key ++ -1 :: path.
#[local] Instance sample_url : UrlParser := {|
  Url := str; url_parse s := Ok s; url_scheme _ := lit "ws"; url_host _ := Some (lit "csms"); cannot_be_a_base _ := false;
  without_userinfo s := (cut s).2; url_password s := snd <$> (cut s).1; with_userinfo user key s := glue user key (cut s).2;
  url_text s := s |}.
Definition segment (id : str) : str := map (fun c => if c =? 47 then -47 else c) id.
#[local] Instance sample_parts : @UrlParts sample_url := {|
  url_port _ := None; url_path s := (cut s).2; url_query _ := None; url_username s := default [] (fst <$> (cut s).1);
  path_segments _ := None;
  push_segment id s := match cut s with (Some (user, key), path) => Some (glue user key (path ++ 47 :: segment id)) | _ => None end;
  encoded_segment := segment |}.
#[local] Instance sample_encoding : Encoding := {|
  base64_encode b := -3 :: b ++ [-3]; percent_decode_lossy s := s; derive_accept_key b := b |}.
#[local] Instance sample_handshake : Handshake := {|
  base64_decode t := match t with [] => None | _ :: r => Some (removelast r) end;
  percent_decode t := Some (map (fun c => if c =? -47 then 47 else c) t); common_name _ := None |}.

Lemma text_scalars s c : is_text s -> c ∈ s -> 0 <= c.
Proof. unfold is_text. rewrite Forall_forall. intros H Hc. apply H, is_scalar_bounds in Hc as [? _]. lia. Qed.
Lemma cut_glue user key path : ((-1) ∉ user) -> ((-1) ∉ key) -> cut (glue user key path) = (Some (user, key), path).
Proof. intros Hu Hk. unfold cut, glue. by rewrite !split_once_app. Qed.
Lemma cut_Some url user key path : cut url = (Some (user, key), path) -> ((-1) ∉ user) /\ ((-1) ∉ key).
Proof.
  unfold cut. destruct (split_once (-1) url) as [[u r]|] eqn:E1; [|done].
  destruct (split_once (-1) r) as [[k q]|] eqn:E2; [|done]. intros [= -> -> _].
  apply split_once_Some in E1 as [_ ?]. by apply split_once_Some in E2 as [_ ?].
Qed.
#[local] Instance sample_agreed : Agreed.
Proof.
  constructor; try done.
  - intros id url url'. cbn. destruct (cut url) as [[[user key]|] path] eqn:E; [|done]. intros [= <-] _.
    destruct (cut_Some _ _ _ _ E). rewrite cut_glue by done. split; [by exists path|done].
  - intros id (Ht & _). cbn. f_equal. unfold segment. rewrite map_map. rewrite <- (map_id id) at 2.
    apply map_ext_in. intros c Hc%list_elem_of_In. pose proof (text_scalars _ _ Ht Hc).
    destruct (Z.eqb_spec c 47); [by subst|]. by rewrite (proj2 (Z.eqb_neq c (-47))) by lia.
  - intros id (Ht & Hne & _). cbn. unfold segment. split; [by destruct id|].
    rewrite list_elem_of_In, in_map_iff. intros (c & Hc & _). destruct (Z.eqb_spec c 47); lia.
  - intros user key url Hu Hk _. cbn. rewrite cut_glue; [split; [done|by eexists]| |];
      intros Hx; [apply (text_scalars _ _ Hu) in Hx|apply (text_scalars _ _ Hk) in Hx]; lia.
  - intros s _. rewrite trim_id.
    + cbn. by rewrite removelast_last.
    + by apply starts_trimmed_cons.
    + by apply (ends_trimmed_snoc (-3) (-3 :: as_bytes s)).
Qed.

#[local] Existing Instance u64_json.
#[local] Existing Instance ns_chrono.
#[local] Existing Instance CertificateStore.sample_pki.
#[local] Existing Instance CsmsState.sample_wire.
#[local] Existing Instance CsmsServer.sample_format.
#[local] Existing Instance CsmsServer.no_errors.
#[local] Existing Instance CsmsSession.sample_text.
#[local] Instance any_header : HeaderText := {| header_value _ := true |}.

Definition key : str := lit "0123456789abcdef".
Definition keyed_station : Actor.t :=
  Samples.station <| Actor.registry ::=
    fun r => ConfigRegistry.set_authorization_key (ConfigRegistry.set_internal r ConfigRegistry.SECURITY_PROFILE (lit "1")) key |>.
Definition keyed_config : StationConfig.t := StationConfig.default <| StationConfig.url := lit "/ocpp" |>.
Definition keyed_server (k : str) : Server.t :=
  CsmsServer.start (mk_config default_subprotocol 300 default_ids (30 * NS_PER_SEC) 1000 (8 * 1024 * 1024) 100
    (10 * NS_PER_SEC) (1024 * 1024) 100000 false (mk_policy BasicAuth ∅ (Some k)) false true (30 * NS_PER_SEC) (10 * NS_PER_SEC)).
Definition keyed_url : Url (UrlParser := sample_url) := lit "CP-001" ++ -1 :: key ++ -1 :: lit "/ocpp/CP-001".
Lemma station_meets_csms_witness :
  callback (keyed_server key) (request_of keyed_url (lit "ocpp1.6")) (mk_addr [127; 0; 0; 1] 1) Plain
  = (keyed_server key, Ok (lit "CP-001", Some (lit "ocpp1.6"))).
Proof.
  destruct (station_meets_csms (U := sample_url) keyed_station keyed_config key (lit "/ocpp") keyed_url (lit "ocpp1.6") (keyed_server key)
              (mk_addr [127; 0; 0; 1] 1) Plain) as [H _].
  - split_and!; [by repeat constructor|done|by vm_compute|done|done|done].
  - by repeat constructor.
  - split_and!; [done| |done]. rewrite list_elem_of_In. vm_compute. intuition discriminate.
  - split; cbn; [intros id k Hk; by rewrite lookup_empty in Hk|]. intros k [= <-]. by repeat constructor.
  - left. by vm_compute.
  - by vm_compute.
  - done.
  - done.
  - done.
  - by vm_compute.
  - by left.
  - apply H. split_and!; [|done..]. rewrite list_elem_of_In. vm_compute. intuition discriminate.
Defined.
End Meeting.
