(* ===== verification/LogView.v ===== *)
(** * LogView: the log of the terminals

    [kirby-ocpp-tui/src/logview.rs] and [station/event.rs]: a bounded ring buffer of frames and
    station lines, in which an answer knows its CALL, with filters, a search and a selection that
    follows the newest row or stays. The sizes are sums of lengths of texts in memory. *)

From stdpp Require Import strings gmap.
From S2P Require Import Prelude Text Time Types Frame Interface ScenarioRunner TuiText.
Local Open Scope Z_scope.

Module LogView.
Import TuiText.
Import ScenarioRunner (item).

(** [str::to_lowercase], whose tables are those of Unicode, and [serde_json::to_string_pretty]. *)
Class LogText {J : SerdeJson} : Type := {
  to_lowercase : str -> str;
  to_string_pretty : json -> option str;
}.

Definition LOG_CAPACITY : Z := 2000.
Definition LOG_BYTE_BUDGET : Z := 64 * 1024 * 1024.
Definition ENTRY_TEXT_MAX : Z := 16 * 1024.
Definition SUMMARY_MAX : Z := 1024.
Definition HAYSTACK_TEXT_MAX : Z := 4 * 1024.

(** ** What a station tells its observers *)

Module LogRecord.
Record t : Type := mk { ts : DateTime; level : LogLevel.t; text : str }.
#[export] Instance eta : Eta t := fun r => mk (ts r) (level r) (text r).
End LogRecord.
Export (hints) LogRecord.

Module Event.
Inductive t {J : SerdeJson} : Type :=
| Frame (f : FrameRecord.t)
| Log (l : LogRecord.t)
| StateChanged.
End Event.

(** ** Filters *)

Module LogFilter.
Inductive t : Type := All | Calls | Errors | Station | Csms.
#[export] Instance eq_dec : EqDecision t.
Proof. solve_decision. Defined.
Definition ALL : list t := [All; Calls; Errors; Station; Csms].
Definition label (f : t) : str :=
  match f with
  | All => lit "all"
  | Calls => lit "calls"
  | Errors => lit "errors"
  | Station => lit "station"
  | Csms => lit "csms"
  end.
Definition next (f : t) : t :=
  let i := default 0%nat (position (fun g => g == f) ALL) in
  default All (ALL !! ((i + 1) mod length ALL)%nat).
End LogFilter.
Export (hints) LogFilter.

(** The kind of a frame row; [Raw] is not a valid frame. *)
Module FrameKind.
Inductive t : Type := Call | Result | Error | Raw.
#[export] Instance eq_dec : EqDecision t.
Proof. solve_decision. Defined.
End FrameKind.
Export (hints) FrameKind.

(** ** Rows *)

(** [rtt_ms] is set on the answering row; [peer] is the CALL of an answer and the answer of a
    CALL; [truncated] are the bytes that were cut; [haystack] is what the search looks at. *)
Module LogEntry.
Section record.
Context {J : SerdeJson}.
Record t : Type := mk {
  seq : Z;
  ts : DateTime;
  event : Event.t;
  kind : option FrameKind.t;
  summary : str;
  rtt_ms : option Z;
  peer : option Z;
  truncated : option Z;
  haystack : str;
  bytes : Z;
}.
#[export] Instance eta : Eta t := fun e => mk (seq e) (ts e) (event e) (kind e) (summary e)
  (rtt_ms e) (peer e) (truncated e) (haystack e) (bytes e).
End record.
End LogEntry.
Export (hints) LogEntry.

Section log.
Context {J : SerdeJson} {T : JsonText} {L : LogText} {C : Chrono}.
Implicit Types (e : LogEntry.t).

Definition frame e : option FrameRecord.t :=
  match LogEntry.event e with Event.Frame f => Some f | _ => None end.
Definition station_line e : option LogRecord.t :=
  match LogEntry.event e with Event.Log l => Some l | _ => None end.
Definition compact_text e (f : FrameRecord.t) : str :=
  match FrameRecord.frame f, LogEntry.truncated e with
  | String kept, Some _ => kept
  | _, _ => json_to_string (FrameRecord.frame f)
  end.
(** The row as pretty text. *)
Definition pretty e : str :=
  match LogEntry.event e with
  | Event.Frame f =>
      if is_someb (LogEntry.truncated e) then compact_text e f
      else default [] (to_string_pretty (FrameRecord.frame f))
  | Event.Log l => LogRecord.text l
  | Event.StateChanged => []
  end.
(** The frame as one line of JSON. *)
Definition compact e : str :=
  match LogEntry.event e with Event.Frame f => compact_text e f | _ => pretty e end.
Definition is_error e : bool :=
  (LogEntry.kind e == Some FrameKind.Error)
  || is_some_and (fun l => match LogRecord.level l with LogLevel.Warn | LogLevel.Error => true | _ => false end)
       (station_line e).
Definition matches e (filter : LogFilter.t) : bool :=
  match filter with
  | LogFilter.All => true
  | LogFilter.Calls => is_someb (LogEntry.kind e)
  | LogFilter.Errors => is_error e
  | LogFilter.Station => is_someb (station_line e)
  | LogFilter.Csms => is_some_and (fun f => FrameRecord.direction f == Direction.In) (frame e)
  end.

(** The longest prefix of at most [max] bytes that ends on a character boundary. *)
Fixpoint prefix (text : str) (max : Z) : str :=
  match text with
  | [] => []
  | c :: r => if len_utf8 c <=? max then c :: prefix r (max - len_utf8 c) else []
  end.
(** [format!("{kept}…[truncated {cut} bytes]")] *)
Definition marker (cut : Z) : str := 8230 :: lit "[truncated " ++ to_string cut ++ lit " bytes]".

Definition frame_kind (frame : json) : FrameKind.t :=
  match item 0 frame ≫= as_u64 with
  | Some n => if n =? 2 then FrameKind.Call else if n =? 3 then FrameKind.Result
              else if n =? 4 then FrameKind.Error else FrameKind.Raw
  | None => FrameKind.Raw
  end.
(** Up to four scalar fields of a payload, [status] first. *)
Definition scalar_fields (payload : json) : str :=
  match payload with
  | Object map =>
      let is_status := fun '(k, _) => k == lit "status" in
      let fields := retain is_status map ++ retain (fun f => negb (is_status f)) map in
      join_with (lit " ") (take 4 (omap (fun '(k, v) =>
        let? shown := match v with
                      | String s => Some s
                      | Num _ | Bool _ => Some (json_to_string v)
                      | _ => None
                      end in
        Some (sanitize (k ++ lit "=" ++ shown))) fields))
  | _ => sanitize (json_to_string payload)
  end.
(** A short one-line description of the payload of a frame. *)
Definition summarize (frame : json) : str :=
  match frame with
  | Array arr =>
      match frame_kind frame with
      | FrameKind.Call => default [] (scalar_fields <$> arr !! 3%nat)
      | FrameKind.Result => default [] (scalar_fields <$> arr !! 2%nat)
      | FrameKind.Error =>
          let code := default (lit "?") (arr !! 2%nat ≫= as_str) in
          let desc := default [] (arr !! 3%nat ≫= as_str) in
          sanitize (trim (code ++ lit " " ++ desc))
      | FrameKind.Raw => sanitize (json_to_string frame)
      end
  | _ => sanitize (json_to_string frame)
  end.

(** The row of an event, before it is correlated with the others. *)
Definition row (seq : Z) (event : Event.t) : option LogEntry.t :=
  match event with
  | Event.Frame f =>
      let kind := frame_kind (FrameRecord.frame f) in
      let summary := prefix (summarize (FrameRecord.frame f)) SUMMARY_MAX in
      let text := json_to_string (FrameRecord.frame f) in
      let cut := byte_len text - byte_len (prefix text ENTRY_TEXT_MAX) in
      let kept := prefix text ENTRY_TEXT_MAX ++ marker cut in
      let '(shown, truncated, held) :=
        if ENTRY_TEXT_MAX <? byte_len text then (String kept, Some cut, byte_len kept)
        else (FrameRecord.frame f, None, u64_saturating_mul (byte_len text) 3) in
      let haystack := to_lowercase (default [] (FrameRecord.action f) ++ lit " " ++ summary ++ lit " "
                                    ++ prefix text HAYSTACK_TEXT_MAX) in
      let f := FrameRecord.mk (FrameRecord.ts f) (FrameRecord.direction f) (FrameRecord.msg_id f)
                 (FrameRecord.action f) shown in
      Some (LogEntry.mk seq (FrameRecord.ts f) (Event.Frame f) (Some kind) summary None None truncated
              haystack (held + byte_len summary + byte_len haystack + 256))
  | Event.Log l =>
      let cut := byte_len (LogRecord.text l) - byte_len (prefix (LogRecord.text l) ENTRY_TEXT_MAX) in
      let '(l, truncated) :=
        if ENTRY_TEXT_MAX <? byte_len (LogRecord.text l)
        then (l <| LogRecord.text ::= fun t => prefix t ENTRY_TEXT_MAX ++ marker cut |>, Some cut)
        else (l, None) in
      let summary := sanitize (LogRecord.text l) in
      let haystack := to_lowercase summary in
      Some (LogEntry.mk seq (LogRecord.ts l) (Event.Log l) None summary None None truncated haystack
              (byte_len (LogRecord.text l) + byte_len summary + byte_len haystack + 256))
  | Event.StateChanged => None
  end.
End log.

(** ** The store *)

(** [pending] are the CALLs without an answer: message id to sequence number and time. *)
Module LogStore.
Section record.
Context {J : SerdeJson}.
Record t : Type := mk {
  entries : list LogEntry.t;
  capacity : Z;
  max_bytes : Z;
  bytes : Z;
  next_seq : Z;
  pending : gmap str (Z * DateTime);
  filter : LogFilter.t;
  search : str;
  follow : bool;
  selected : option Z;
}.
#[export] Instance eta : Eta t := fun s => mk (entries s) (capacity s) (max_bytes s) (bytes s)
  (next_seq s) (pending s) (filter s) (search s) (follow s) (selected s).
End record.
End LogStore.
Export (hints) LogStore.

Section store.
Context {J : SerdeJson} {T : JsonText} {L : LogText} {C : Chrono}.
Implicit Types (e : LogEntry.t) (self : LogStore.t).

Definition new_log (capacity : Z) : LogStore.t :=
  LogStore.mk [] (Z.max capacity 1) LOG_BYTE_BUDGET 0 0 ∅ LogFilter.All [] true None.
Definition with_byte_budget (max_bytes : Z) self : LogStore.t :=
  self <| LogStore.max_bytes := Z.max max_bytes 1 |>.
Definition clear self : LogStore.t :=
  self <| LogStore.entries := [] |> <| LogStore.bytes := 0 |> <| LogStore.pending := ∅ |>
       <| LogStore.selected := None |> <| LogStore.follow := true |>.

Definition index_of self (seq : Z) : option nat :=
  let? first := head (LogStore.entries self) in
  if seq <? LogEntry.seq first then None
  else let i := Z.to_nat (seq - LogEntry.seq first) in
       if (i <? length (LogStore.entries self))%nat then Some i else None.
Definition get self (seq : Z) : option LogEntry.t :=
  let? i := index_of self seq in LogStore.entries self !! i.
(** A change through [get_mut]. *)
Definition modify (f : LogEntry.t -> LogEntry.t) (seq : Z) self : LogStore.t :=
  match index_of self seq with
  | Some i => self <| LogStore.entries ::= alter f i |>
  | None => self
  end.

(** What an answer finds out about its CALL. *)
Definition correlate (entry : LogEntry.t) self : LogEntry.t * LogStore.t :=
  match frame entry ≫= FrameRecord.msg_id with
  | Some id =>
      match LogEntry.kind entry with
      | Some FrameKind.Call =>
          (entry, self <| LogStore.pending ::= <[id := (LogEntry.seq entry, LogEntry.ts entry)]> |>)
      | Some (FrameKind.Result | FrameKind.Error) =>
          match LogStore.pending self !! id with
          | Some (call_seq, call_ts) =>
              (entry <| LogEntry.rtt_ms := Some (Z.max (num_milliseconds (dt_sub (LogEntry.ts entry) call_ts)) 0) |>
                     <| LogEntry.peer := Some call_seq |>,
               modify (fun call => call <| LogEntry.peer := Some (LogEntry.seq entry) |>) call_seq
                 (self <| LogStore.pending ::= base.delete id |>))
          | None => (entry, self)
          end
      | _ => (entry, self)
      end
  | None => (entry, self)
  end.
Definition build (event : Event.t) self : option (LogEntry.t * LogStore.t) :=
  let? entry := row (LogStore.next_seq self) event in
  Some (correlate entry (self <| LogStore.next_seq ::= fun n => u64_wrapping_add n 1 |>)).

(** [pop_front] and what it forgets. *)
Definition evict_one (old : LogEntry.t) (rest : list LogEntry.t) self : LogStore.t :=
  let self := self <| LogStore.entries := rest |>
                   <| LogStore.bytes ::= fun n => saturating_sub n (LogEntry.bytes old) |> in
  let self :=
    match frame old ≫= FrameRecord.msg_id with
    | Some id =>
        if (LogEntry.kind old == Some FrameKind.Call)
           && is_some_and (fun '(s, _) => s =? LogEntry.seq old) (LogStore.pending self !! id)
        then self <| LogStore.pending ::= base.delete id |> else self
    | None => self
    end in
  if LogStore.selected self == Some (LogEntry.seq old)
  then self <| LogStore.selected := LogEntry.seq <$> head rest |> else self.
Definition over_budget self : bool :=
  (1 <? len (LogStore.entries self))
  && ((LogStore.capacity self <? len (LogStore.entries self)) || (LogStore.max_bytes self <? LogStore.bytes self)).
(** The loop makes at most one round per entry. *)
Fixpoint evict (rounds : nat) self : LogStore.t :=
  match rounds, LogStore.entries self with
  | S rounds, old :: rest => if over_budget self then evict rounds (evict_one old rest self) else self
  | _, _ => self
  end.
Definition push (event : Event.t) self : LogStore.t :=
  match build event self with
  | None => self
  | Some (entry, self) =>
      let self := self <| LogStore.bytes ::= fun n => n + LogEntry.bytes entry |>
                       <| LogStore.entries ::= fun l => l ++ [entry] |> in
      evict (length (LogStore.entries self)) self
  end.

Definition passes self e : bool :=
  matches e (LogStore.filter self)
  && ((LogStore.search self == []) || contains_str (to_lowercase (LogStore.search self)) (LogEntry.haystack e)).
Definition visible self : list LogEntry.t :=
  let needle := to_lowercase (LogStore.search self) in
  retain (fun e => matches e (LogStore.filter self) && ((needle == []) || contains_str needle (LogEntry.haystack e)))
    (LogStore.entries self).
Definition visible_count self : Z := len (retain (passes self) (LogStore.entries self)).

(** The index of the selected row among the visible ones. *)
Definition selected_index self : option nat :=
  match visible self with
  | [] => None
  | vis =>
      let newest := (length vis - 1)%nat in
      if LogStore.follow self then Some newest
      else match LogStore.selected self with
           | Some seq => Some (default newest (position (fun e => seq <=? LogEntry.seq e) vis))
           | None => Some newest
           end
  end.
Definition selected self : option LogEntry.t := let? i := selected_index self in visible self !! i.
Definition move_selection (delta : Z) self : LogStore.t :=
  match selected_index self with
  | None => self
  | Some cur =>
      let max := (length (visible self) - 1)%nat in
      let next := Nat.min (Z.to_nat (Z.of_nat cur + delta)) max in
      self <| LogStore.selected := LogEntry.seq <$> visible self !! next |>
           <| LogStore.follow := (next =? max)%nat |>
  end.
Definition select_first self : LogStore.t :=
  match visible self with
  | e :: _ => self <| LogStore.selected := Some (LogEntry.seq e) |> <| LogStore.follow := false |>
  | [] => self
  end.
Definition follow_tail self : LogStore.t := self <| LogStore.follow := true |>.
Definition toggle_follow self : LogStore.t :=
  if LogStore.follow self
  then self <| LogStore.selected := LogEntry.seq <$> selected self |> <| LogStore.follow := false |>
  else self <| LogStore.follow := true |>.
Definition set_filter (filter : LogFilter.t) self : LogStore.t :=
  self <| LogStore.filter := filter |> <| LogStore.selected := LogEntry.seq <$> selected self |>.
(** [log.search = text], from outside. *)
Definition set_search (text : str) self : LogStore.t := self <| LogStore.search := text |>.
End store.

(** ** What happens to a log *)

Section runs.
Context {J : SerdeJson} {T : JsonText} {L : LogText} {C : Chrono}.
Implicit Types (e x : LogEntry.t) (self : LogStore.t) (l rows : list LogEntry.t).

Inductive op : Type :=
| Push (event : Event.t)
| Clear
| Move (delta : Z)
| First
| Tail
| Toggle
| Filter (filter : LogFilter.t)
| Search (text : str).
Definition step self (o : op) : LogStore.t :=
  match o with
  | Push event => push event self
  | Clear => clear self
  | Move delta => move_selection delta self
  | First => select_first self
  | Tail => follow_tail self
  | Toggle => toggle_follow self
  | Filter filter => set_filter filter self
  | Search text => set_search text self
  end.
Definition run (capacity max_bytes : Z) (ops : list op) : LogStore.t :=
  fold_left step ops (with_byte_budget max_bytes (new_log capacity)).

(** *** The specification of what is kept

    The rows written since the last [clear], under the numbers they get: a log without bounds. *)

Definition write (w : Z * list LogEntry.t) (o : op) : Z * list LogEntry.t :=
  match o with
  | Push event => match row w.1 event with Some e => (w.1 + 1, w.2 ++ [e]) | None => w end
  | Clear => (w.1, [])
  | _ => w
  end.
Definition written (ops : list op) : Z * list LogEntry.t := fold_left write ops (0, []).

(** A row without what it knows of its peer. *)
Definition plain e : LogEntry.t := e <| LogEntry.rtt_ms := None |> <| LogEntry.peer := None |>.
Definition weight l : Z := fold_right (fun e n => LogEntry.bytes e + n) 0 l.
Definition fits (capacity max_bytes : Z) l : Prop :=
  len l <= 1 \/ (len l <= capacity /\ weight l <= max_bytes).
(** The longest part of [rows] up to the newest that fits. *)
Definition window (capacity max_bytes : Z) rows l : Prop :=
  (exists old, rows = old ++ l) /\ fits capacity max_bytes l /\
  forall old l', rows = old ++ l' -> fits capacity max_bytes l' -> (length l' <= length l)%nat.

(** *** The specification of who answers whom

    What the rows around a row are about: the message id of a CALL or an answer, whether it is a
    CALL, its number and its time. *)

Record Sig : Type := mk_sig { about : option str; is_call : bool; number : Z; at_ : DateTime }.
Definition sig e : Sig :=
  mk_sig (match LogEntry.kind e with
          | Some (FrameKind.Call | FrameKind.Result | FrameKind.Error) => frame e ≫= FrameRecord.msg_id
          | _ => None
          end)
    (LogEntry.kind e == Some FrameKind.Call) (LogEntry.seq e) (LogEntry.ts e).
Definition mine (id : str) (sigs : list Sig) : list Sig := retain (fun g => about g == Some id) sigs.

(** A CALL is answered by the next frame with its id, if that is an answer. An answer belongs to
    the frame with its id before it, if that is a CALL; the CALL of an answer whose predecessor is
    not kept is older than everything kept. *)
Definition linked (before : list Sig) e (after : list Sig) : Prop :=
  match about (sig e) with
  | None => LogEntry.peer e = None /\ LogEntry.rtt_ms e = None
  | Some id =>
      if is_call (sig e) then
        LogEntry.peer e = (head (mine id after) ≫= fun g => if is_call g then None else Some (number g)) /\
        LogEntry.rtt_ms e = None
      else
        match last (mine id before) with
        | Some g =>
            if is_call g then
              LogEntry.peer e = Some (number g) /\
              LogEntry.rtt_ms e = Some (Z.max (num_milliseconds (dt_sub (LogEntry.ts e) (at_ g))) 0)
            else LogEntry.peer e = None /\ LogEntry.rtt_ms e = None
        | None => forall p, LogEntry.peer e = Some p -> Forall (fun g => p < number g) (before ++ sig e :: after)
        end
  end.
End runs.
End LogView.

(** * LogRuns: what the log of a terminal shows

    The theorems on [LogView.v]: the rows kept are the longest recent part of the log that fits
    its bounds, a row is found under its number, answers and CALLs know each other, and the
    selection is always on a visible row. *)

Module LogRuns.
Import TuiText LogView.

Section runs.
Context {J : SerdeJson} {T : JsonText} {L : LogText} {C : Chrono}.
Implicit Types (e x : LogEntry.t) (self : LogStore.t) (l rows : list LogEntry.t).

(** ** The window *)

Lemma weight_app l l' : weight (l ++ l') = weight l + weight l'.
Proof. induction l as [|e l IH]; simpl; lia. Qed.
Definition weighed l : Prop := Forall (fun e => 0 <= LogEntry.bytes e) l.
Lemma weight_ge_0 l : weighed l -> 0 <= weight l.
Proof. induction 1; simpl; lia. Qed.
Lemma weight_plain l : weight (map plain l) = weight l.
Proof. induction l as [|e l IH]; simpl; [done|]. by rewrite IH. Qed.

Section bounds.
Context (capacity max_bytes : Z).

(** The eviction, on the rows alone. *)
Fixpoint trimmed l : list LogEntry.t :=
  match l with
  | [] => []
  | _ :: rest =>
      if (1 <? len l) && ((capacity <? len l) || (max_bytes <? weight l)) then trimmed rest else l
  end.
Lemma trimmed_cons e l :
  trimmed (e :: l) =
  if (1 <? len (e :: l)) && ((capacity <? len (e :: l)) || (max_bytes <? weight (e :: l))) then trimmed l else e :: l.
Proof. done. Qed.
Lemma trimmed_suffix l : exists old, l = old ++ trimmed l.
Proof.
  induction l as [|e l [old IH]]; [by exists []|]. simpl. case_match; [|by exists []].
  exists (e :: old). simpl. by rewrite <- IH.
Qed.
Lemma trimmed_fits l : fits capacity max_bytes (trimmed l).
Proof.
  unfold fits. induction l as [|e l IH]; [left; done|]. simpl trimmed. case_match eqn:E; [done|].
  apply andb_false_iff in E as [E|E]; [left|right]; [by apply Z.ltb_ge in E|].
  apply orb_false_iff in E as [E1 E2]. by apply Z.ltb_ge in E1, E2.
Qed.
(** What fits is not cut off. *)
Lemma trimmed_longest old l : weighed (old ++ l) -> fits capacity max_bytes l -> (length l <= length (trimmed (old ++ l)))%nat.
Proof.
  intros Hw Hl. induction old as [|e old IH].
  - destruct l as [|e l]; [done|]. simpl trimmed. case_match eqn:E; [|done].
    apply andb_true_iff in E as [E1 E2]. apply Z.ltb_lt in E1. exfalso.
    destruct Hl as [Hl|[Hc Hm]]; [by apply Z.le_ngt in Hl|].
    apply orb_true_iff in E2 as [E2|E2]; apply Z.ltb_lt in E2; by apply Z.lt_nge in E2.
  - inversion Hw; subst. simpl. case_match; [by apply IH|]. simpl. rewrite length_app. lia.
Qed.
Lemma trimmed_plain l : trimmed (map plain l) = map plain (trimmed l).
Proof.
  induction l as [|e l IH]; [done|]. simpl trimmed.
  replace (len (plain e :: map plain l)) with (len (e :: l)) by (unfold len; simpl; by rewrite length_map).
  change (weight (plain e :: map plain l)) with (LogEntry.bytes e + weight (map plain l)).
  rewrite weight_plain. change (LogEntry.bytes e + weight l) with (weight (e :: l)). by case_match.
Qed.

Lemma fits_tail old l : weighed (old ++ l) -> fits capacity max_bytes (old ++ l) -> fits capacity max_bytes l.
Proof.
  unfold fits, len. rewrite weight_app, length_app. intros [Ho _]%Forall_app H. apply weight_ge_0 in Ho. lia.
Qed.
Lemma window_push rows l e :
  weighed (rows ++ [e]) -> window capacity max_bytes rows l ->
  window capacity max_bytes (rows ++ [e]) (trimmed (l ++ [e])).
Proof.
  intros Hw ((old & ->) & Hf & Hmax). split; [|split; [apply trimmed_fits|]].
  { destruct (trimmed_suffix (l ++ [e])) as [cut Hcut]. exists (old ++ cut). by rewrite <- !app_assoc, <- Hcut. }
  intros cut l' Heq Hl'. destruct l' as [|y l' _] using rev_ind; [simpl; lia|].
  rewrite app_assoc in Heq. apply app_inj_tail in Heq as [Heq <-].
  assert (Hb : 0 <= LogEntry.bytes e) by (apply Forall_app in Hw as [_ Hw]; by inversion Hw).
  assert (Hshort : (length l' <= length l)%nat).
  { apply (Hmax cut); [done|]. unfold fits, len in *. rewrite length_app, weight_app in Hl'. simpl in Hl'. lia. }
  assert (Hsuf : exists mid, l = mid ++ l').
  { apply app_eq_inv in Heq as [(k & -> & ->)|(k & -> & ->)]; [|by exists k].
    rewrite length_app in Hshort. destruct k; [by exists []|simpl in Hshort; lia]. }
  destruct Hsuf as [mid ->]. rewrite <- !app_assoc in *. apply trimmed_longest; [|done].
  by apply Forall_app in Hw as [_ Hw].
Qed.
End bounds.

(** ** The frames with an id *)

Lemma mine_app id a b : mine id (a ++ b) = mine id a ++ mine id b.
Proof. apply List.filter_app. Qed.
Lemma mine_one id g : mine id [g] = if about g == Some id then [g] else [].
Proof. unfold mine. simpl. by case_match. Qed.
Lemma mine_some id sigs g : In g sigs -> about g = Some id -> mine id sigs <> [].
Proof.
  intros Hg Ha Hm. assert (Hin : In g (mine id sigs)) by (apply retain_In; rewrite Ha, eqb_refl; done).
  by rewrite Hm in Hin.
Qed.
(** The CALL an answer with this id would belong to. *)
Definition open_call (id : str) (sigs : list Sig) : option Sig :=
  last (mine id sigs) ≫= fun g => if is_call g then Some g else None.
Lemma last_mine id sigs g :
  last (mine id sigs) = Some g ->
  exists j, sigs !! j = Some g /\ about g = Some id /\ mine id (drop (S j) sigs) = [].
Proof.
  induction sigs as [|h sigs IH]; [done|]. change (h :: sigs) with ([h] ++ sigs). rewrite mine_app, mine_one.
  destruct (mine id sigs) as [|m ms] eqn:Em.
  - rewrite app_nil_r. case_match eqn:E; [|done]. intros [= <-]. apply (proj1 (eqb_true _ _)) in E. by exists 0%nat.
  - rewrite last_app. intros Hl. destruct IH as (j & Hj & Ha & Hd); [|by exists (S j)].
    destruct (last (m :: ms)) eqn:El; [done|]. by apply last_None in El.
Qed.
Lemma last_mine_at id sigs i g :
  sigs !! i = Some g -> about g = Some id -> mine id (drop (S i) sigs) = [] -> last (mine id sigs) = Some g.
Proof.
  intros Hi Ha Hd. rewrite <- (take_drop_middle _ _ _ Hi). change (g :: ?r) with ([g] ++ r).
  rewrite !mine_app, Hd, mine_one, Ha, eqb_refl, app_nil_r, last_app. done.
Qed.

(** ** What holds of a log at every moment *)

Definition sigs_of self : list Sig := map sig (LogStore.entries self).
(** The numbers are consecutive up to [n]. *)
Definition numbered (n : Z) l : Prop :=
  forall i e, l !! i = Some e -> LogEntry.seq e = n - len l + Z.of_nat i.
Definition all_linked l : Prop :=
  forall i e, l !! i = Some e -> linked (take i (map sig l)) e (drop (S i) (map sig l)).
Record good self : Prop := {
  good_numbered : numbered (LogStore.next_seq self) (LogStore.entries self);
  good_bytes : LogStore.bytes self = weight (LogStore.entries self);
  good_weighed : weighed (LogStore.entries self);
  good_pending id :
    LogStore.pending self !! id = (fun g => (number g, at_ g)) <$> open_call id (sigs_of self);
  good_linked : all_linked (LogStore.entries self);
}.

Lemma numbered_tail n e l : numbered n (e :: l) -> numbered n l.
Proof. intros H i x Hx. rewrite (H (S i) x Hx). unfold len. simpl. lia. Qed.
Lemma numbered_head n e l : numbered n (e :: l) -> Forall (fun g => LogEntry.seq e < number g) (map sig l).
Proof.
  intros H. apply Forall_forall. intros g (i & Hi)%list_elem_of_lookup.
  rewrite list_lookup_fmap in Hi. destruct (l !! i) as [x|] eqn:Hx; [|done]. injection Hi as <-.
  rewrite (H 0%nat e eq_refl). change (number (sig x)) with (LogEntry.seq x). rewrite (H (S i) x Hx). lia.
Qed.
Lemma index_of_spec self i e :
  numbered (LogStore.next_seq self) (LogStore.entries self) -> LogStore.entries self !! i = Some e ->
  index_of self (LogEntry.seq e) = Some i.
Proof.
  intros Hn Hi. unfold index_of. destruct (LogStore.entries self) as [|h l] eqn:El; [done|].
  cbn [head]. rewrite (Hn i e Hi), (Hn 0%nat h eq_refl).
  case_match eqn:E; [apply Z.ltb_lt in E; lia|].
  replace (Z.to_nat _) with i by lia. apply lookup_lt_Some in Hi.
  case_match eqn:E'; [done|]. by apply Nat.ltb_ge in E'; apply Nat.le_ngt in E'.
Qed.
Lemma index_of_sound self seq i :
  numbered (LogStore.next_seq self) (LogStore.entries self) -> index_of self seq = Some i ->
  exists e, LogStore.entries self !! i = Some e /\ LogEntry.seq e = seq.
Proof.
  intros Hn. unfold index_of. destruct (LogStore.entries self) as [|h l] eqn:El; [done|]. cbn [head].
  case_match eqn:E1; [done|]. case_match eqn:E2; [|done]. intros [= <-].
  apply Nat.ltb_lt, lookup_lt_is_Some_2 in E2 as [e He]. exists e. split; [done|].
  rewrite (Hn _ _ He). rewrite (Hn 0%nat h eq_refl) in *. apply Z.ltb_ge in E1. lia.
Qed.

(** ** Dropping the oldest row *)

Lemma linked_tail g before e after :
  Forall (fun h => number g < number h) (before ++ sig e :: after) ->
  linked (g :: before) e after -> linked before e after.
Proof.
  unfold linked. intros Hlt. destruct (about (sig e)) as [id|]; [|done]. destruct (is_call (sig e)); [done|].
  change (g :: before) with ([g] ++ before). rewrite mine_app, mine_one, last_app.
  destruct (last (mine id before)); [done|]. destruct (about g == Some id); simpl.
  - destruct (is_call g).
    + intros [Hp _] p Hp'. rewrite Hp in Hp'. by injection Hp' as <-.
    + intros [Hp _] p Hp'. by rewrite Hp in Hp'.
  - intros H p Hp. specialize (H p Hp). by inversion H.
Qed.
Lemma all_linked_tail n e l : numbered n (e :: l) -> all_linked (e :: l) -> all_linked l.
Proof.
  intros Hn Hl i x Hx. apply (linked_tail (sig e)); [|by apply (Hl (S i))].
  apply numbered_head in Hn. rewrite <- (take_drop_middle (map sig l) i (sig x)) in Hn; [done|].
  by rewrite list_lookup_fmap, Hx.
Qed.

(** What an operation on the rows leaves alone. *)
Definition same_bounds self self' : Prop :=
  LogStore.capacity self' = LogStore.capacity self /\ LogStore.max_bytes self' = LogStore.max_bytes self /\
  LogStore.next_seq self' = LogStore.next_seq self.

Lemma evict_one_fields old rest self :
  LogStore.entries (evict_one old rest self) = rest /\
  LogStore.bytes (evict_one old rest self) = saturating_sub (LogStore.bytes self) (LogEntry.bytes old) /\
  same_bounds self (evict_one old rest self).
Proof. unfold evict_one, same_bounds. by repeat case_match. Qed.
Lemma evict_one_pending old rest self id :
  LogStore.pending (evict_one old rest self) !! id =
  if (about (sig old) == Some id) && is_call (sig old)
     && is_some_and (fun '(s, _) => s =? LogEntry.seq old) (LogStore.pending self !! id)
  then None else LogStore.pending self !! id.
Proof.
  unfold evict_one, sig. cbn [about is_call]. destruct (LogEntry.kind old == Some FrameKind.Call) eqn:Ek; simpl.
  - apply (proj1 (eqb_true _ _)) in Ek. rewrite Ek. destruct (frame old ≫= FrameRecord.msg_id) as [k|]; simpl.
    + destruct (Some k == Some id) eqn:E; [apply (proj1 (eqb_true _ _)) in E; injection E as ->|apply (proj1 (eqb_false _ _)) in E].
      * case_match; simpl; repeat case_match; simpl; try done; by rewrite lookup_delete_eq.
      * repeat case_match; simpl; try done; rewrite lookup_delete_ne; congruence.
    + by repeat case_match.
  - rewrite andb_false_r. simpl. by repeat case_match.
Qed.
Lemma open_call_cons id g sigs :
  open_call id (g :: sigs) =
  if negb (is_someb (last (mine id sigs))) && (about g == Some id)
  then (if is_call g then Some g else None) else open_call id sigs.
Proof.
  unfold open_call. change (g :: sigs) with ([g] ++ sigs). rewrite mine_app, mine_one, last_app.
  destruct (last (mine id sigs)); simpl; [done|]. by destruct (about g == Some id).
Qed.
Lemma open_call_In id sigs g : open_call id sigs = Some g -> In g sigs /\ about g = Some id /\ is_call g = true.
Proof.
  unfold open_call. destruct (last (mine id sigs)) as [h|] eqn:El; [|done]. simpl. case_match eqn:E; [|done].
  intros [= <-]. apply last_mine in El as (j & Hj & Ha & _). split; [|done].
  apply list_elem_of_In. by eapply list_elem_of_lookup_2.
Qed.

Lemma good_evict_one old rest self :
  LogStore.entries self = old :: rest -> good self -> good (evict_one old rest self).
Proof.
  intros He [Hn Hb Hw Hp Hl]. destruct (evict_one_fields old rest self) as (Fe & Fb & _ & _ & Fn).
  unfold sigs_of in Hp. rewrite He in *. inversion Hw as [|? ? Ho Hw']; subst. split; unfold sigs_of; rewrite ?Fe, ?Fb, ?Fn.
  - by eapply numbered_tail.
  - rewrite Hb. simpl. unfold saturating_sub. pose proof (weight_ge_0 _ Hw'). lia.
  - done.
  - intros id. rewrite evict_one_pending, Hp. simpl map. rewrite open_call_cons. pose proof (numbered_head _ _ _ Hn) as Hlt.
    change (LogEntry.seq old) with (number (sig old)) in *. clear Hl Hp. generalize dependent (sig old). intros old' Hlt.
    destruct (last (mine id (map sig rest))) as [h|] eqn:El; simpl.
    + destruct (open_call id (map sig rest)) as [g|] eqn:Eo; simpl; [|by rewrite andb_false_r].
      apply open_call_In in Eo as (Hg & _). rewrite Forall_forall in Hlt.
      specialize (Hlt g (proj2 (list_elem_of_In _ _) Hg)). case_match eqn:E; [|done].
      apply andb_true_iff in E as [_ E]. apply Z.eqb_eq in E. lia.
    + assert (Eo : open_call id (map sig rest) = None) by (unfold open_call; by rewrite El). rewrite Eo.
      destruct (about old' == Some id); simpl; [|done]. destruct (is_call old'); simpl; [|done].
      by rewrite Z.eqb_refl.
  - by eapply all_linked_tail.
Qed.

Lemma evict_good rounds self :
  good self -> (length (LogStore.entries self) <= rounds)%nat ->
  good (evict rounds self) /\ same_bounds self (evict rounds self) /\
  LogStore.entries (evict rounds self) =
    trimmed (LogStore.capacity self) (LogStore.max_bytes self) (LogStore.entries self).
Proof.
  revert self. induction rounds as [|rounds IH]; intros self Hg Hr.
  - destruct (LogStore.entries self) eqn:E; [|simpl in Hr; lia]. by unfold same_bounds.
  - simpl. destruct (LogStore.entries self) as [|old rest] eqn:E; [by unfold same_bounds|].
    unfold over_budget. rewrite (good_bytes _ Hg), E, trimmed_cons. case_match eqn:Eo; [|by unfold same_bounds].
    destruct (evict_one_fields old rest self) as (Fe & _ & Fc & Fm & Fn).
    destruct (IH (evict_one old rest self)) as (Hg' & (Bc & Bm & Bn) & He).
    + by apply good_evict_one.
    + rewrite Fe. simpl in Hr. lia.
    + split; [done|]. unfold same_bounds. rewrite Bc, Bm, Bn, He, Fe, Fc, Fm. done.
Qed.

(** ** A new row *)

Lemma row_spec n event e :
  row n event = Some e -> LogEntry.seq e = n /\ plain e = e /\ 0 <= LogEntry.bytes e.
Proof.
  pose proof byte_len_ge_0 as Hb. unfold row, u64_saturating_mul. intros H.
  destruct event; [| |done]; repeat case_match; simplify_eq; simpl; (split; [done|split; [done|]]);
    repeat match goal with |- context [byte_len ?s] => let b := fresh "b" in pose proof (Hb s); generalize dependent (byte_len s); intros b ? end;
    unfold u64_max; lia.
Qed.

Lemma linked_snoc before e after g :
  linked before e after -> LogEntry.seq e < number g ->
  (forall id, about (sig e) = Some id -> is_call (sig e) = true -> mine id after = [] ->
     about g = Some id -> is_call g = true) ->
  linked before e (after ++ [g]).
Proof.
  unfold linked. destruct (about (sig e)) as [id|]; [|done]. destruct (is_call (sig e)).
  - intros [Hp Hr] _ Hg. split; [|done]. rewrite Hp, mine_app, mine_one.
    destruct (mine id after) as [|m ms] eqn:Em; simpl; [|done]. destruct (about g == Some id) eqn:E; [|done].
    apply (proj1 (eqb_true _ _)) in E. simpl. by rewrite (Hg id).
  - intros H Hlt _. destruct (last (mine id before)); [done|]. intros p Hp. specialize (H p Hp).
    rewrite app_comm_cons, app_assoc. apply Forall_app. split; [done|]. constructor; [|done].
    rewrite Forall_forall in H. assert (p < number (sig e)); [|change (number (sig e)) with (LogEntry.seq e) in *; lia].
    apply H. apply elem_of_app. right. by left.
Qed.
(** The CALL learns of its answer. *)
Definition answered_by (n : Z) e : LogEntry.t := e <| LogEntry.peer := Some n |>.
Lemma linked_answered before e after g id :
  linked before e after -> about (sig e) = Some id -> is_call (sig e) = true -> mine id after = [] ->
  about g = Some id -> is_call g = false -> linked before (answered_by (number g) e) (after ++ [g]).
Proof.
  unfold linked. change (sig (answered_by (number g) e)) with (sig e). intros H Ha Hc Hm Hg Hn.
  rewrite Ha, Hc in *. destruct H as [_ Hr]. split; [|exact Hr].
  rewrite mine_app, Hm, mine_one, Hg, eqb_refl. simpl. by rewrite Hn.
Qed.

Lemma map_alter {B} (h : LogEntry.t -> B) f i l : (forall e, h (f e) = h e) -> map h (alter f i l) = map h l.
Proof. intros Hf. revert i. induction l as [|e l IH]; intros [|i]; simpl; [done..|by rewrite Hf|]. f_equal. apply IH. Qed.

(** The rows after a push, [j] being the CALL that is answered. *)
Lemma all_linked_push l x (j : option nat) :
  all_linked l -> (forall i e, l !! i = Some e -> LogEntry.seq e < LogEntry.seq x) ->
  (forall i e id, l !! i = Some e -> about (sig e) = Some id -> is_call (sig e) = true ->
     mine id (drop (S i) (map sig l)) = [] -> about (sig x) = Some id ->
     if base.decide (j = Some i) then is_call (sig x) = false else is_call (sig x) = true) ->
  (forall i e, j = Some i -> l !! i = Some e -> exists id, about (sig e) = Some id /\ is_call (sig e) = true /\
     mine id (drop (S i) (map sig l)) = [] /\ about (sig x) = Some id) ->
  linked (map sig l) x [] ->
  all_linked (match j with Some j => alter (answered_by (LogEntry.seq x)) j l | None => l end ++ [x]).
Proof.
  intros Hl Hlt Hrest Hj Hx i e He.
  set (l' := match j with Some j => _ | None => _ end) in *.
  assert (Hsig : map sig l' = map sig l) by (unfold l'; destruct j; [by apply map_alter|done]).
  assert (Hlen : length l' = length l) by (by rewrite <- (length_map sig l'), Hsig, length_map).
  rewrite map_app, Hsig. apply lookup_app_Some in He as [He|[Hi He]].
  - pose proof (lookup_lt_Some _ _ _ He) as Hi. rewrite Hlen in Hi.
    rewrite take_app_le, drop_app_le by (rewrite length_map; lia). simpl map.
    assert (Hcase : (j = Some i /\ exists c, l !! i = Some c /\ e = answered_by (LogEntry.seq x) c) \/ (j <> Some i /\ l !! i = Some e)).
    { unfold l' in He. destruct j as [j|]; [|by right]. destruct (base.decide (j = i)) as [->|Hne].
      - left. split; [done|]. rewrite list_lookup_alter_eq in He. destruct (l !! i) as [c|]; [|done].
        injection He as <-. by exists c.
      - right. split; [congruence|]. by rewrite list_lookup_alter_ne in He. }
    destruct Hcase as [(Hji & c & Hc & ->)|(Hji & Hc)].
    + destruct (Hj i c Hji Hc) as (id & Ha & Hcall & Hm & Hax). apply (linked_answered _ _ _ (sig x) id); try done; [by apply Hl|].
      specialize (Hrest i c id Hc Ha Hcall Hm Hax). by rewrite decide_True in Hrest.
    + apply linked_snoc; [by apply Hl|by apply (Hlt i)|]. intros id Ha Hcall Hm Hax.
      specialize (Hrest i e id Hc Ha Hcall Hm Hax). by rewrite decide_False in Hrest.
  - apply list_lookup_singleton_Some in He as [Hi0 <-]. replace i with (length (map sig l)) by (rewrite length_map; lia).
    by rewrite take_app_length, drop_ge by (rewrite length_app; simpl; lia).
Qed.

Lemma open_call_at id sigs g :
  last (mine id sigs) = Some g -> open_call id sigs = if is_call g then Some g else None.
Proof. unfold open_call. by intros ->. Qed.
Lemma open_call_snoc id sigs g :
  open_call id (sigs ++ [g]) =
  if about g == Some id then (if is_call g then Some g else None) else open_call id sigs.
Proof.
  unfold open_call. rewrite mine_app, mine_one. destruct (about g == Some id); [|by rewrite app_nil_r].
  by rewrite last_snoc.
Qed.
Lemma correlate_eq e self :
  correlate e self =
  match about (sig e) with
  | None => (e, self)
  | Some id =>
      if is_call (sig e)
      then (e, self <| LogStore.pending ::= <[id := (LogEntry.seq e, LogEntry.ts e)]> |>)
      else match LogStore.pending self !! id with
           | Some (call_seq, call_ts) =>
               (e <| LogEntry.rtt_ms := Some (Z.max (num_milliseconds (dt_sub (LogEntry.ts e) call_ts)) 0) |>
                  <| LogEntry.peer := Some call_seq |>,
                modify (answered_by (LogEntry.seq e)) call_seq (self <| LogStore.pending ::= base.delete id |>))
           | None => (e, self)
           end
  end.
Proof.
  unfold correlate, sig. cbn [about is_call]. destruct (LogEntry.kind e) as [[]|]; destruct (frame e ≫= FrameRecord.msg_id); done.
Qed.

(** The store with the new row, before it is cut to its bounds. *)
Definition with_row (e : LogEntry.t) self : LogStore.t :=
  self <| LogStore.bytes ::= fun n => n + LogEntry.bytes e |> <| LogStore.entries ::= fun l => l ++ [e] |>.
Record pushed e self full : Prop := {
  pushed_good : good full;
  pushed_plain : map plain (LogStore.entries full) = map plain (LogStore.entries self) ++ [e];
  pushed_capacity : LogStore.capacity full = LogStore.capacity self;
  pushed_max : LogStore.max_bytes full = LogStore.max_bytes self;
}.
Lemma same_bytes l l' :
  map LogEntry.bytes l = map LogEntry.bytes l' -> weight l = weight l' /\ (weighed l' -> weighed l).
Proof.
  revert l'. induction l as [|x l IH]; intros [|y l'] H; [by split|done..|].
  cbn [map] in H. apply (inj2 cons) in H as [Hx H]. destruct (IH l' H) as [IH1 IH2].
  split; [change (LogEntry.bytes x + weight l = LogEntry.bytes y + weight l'); lia|]. intros Hw. inversion Hw; subst. constructor; [by rewrite Hx|by apply IH2].
Qed.
(** The obligations of a push that do not depend on what the row is about. *)
Lemma good_with_row e e' l pending self full :
  good self -> LogEntry.seq e = LogStore.next_seq self -> sig e' = sig e -> 0 <= LogEntry.bytes e' ->
  map sig l = sigs_of self -> map LogEntry.bytes l = map LogEntry.bytes (LogStore.entries self) ->
  LogStore.entries full = l ++ [e'] -> LogStore.next_seq full = LogStore.next_seq self + 1 ->
  LogStore.bytes full = LogStore.bytes self + LogEntry.bytes e' -> LogStore.pending full = pending ->
  (forall id, pending !! id = (fun g => (number g, at_ g)) <$> open_call id (sigs_of self ++ [sig e])) ->
  all_linked (l ++ [e']) -> good full.
Proof.
  intros [Hn Hb Hw Hp _] Hs He' Hb' Hl Hbl Fe Fn Fb Fp Hpend Hlink.
  assert (Hlen : length l = length (LogStore.entries self)) by (by rewrite <- (length_map sig l), Hl; unfold sigs_of; rewrite length_map).
  split; rewrite ?Fe, ?Fn, ?Fp; [|..|done].
  - intros i x Hx. apply lookup_app_Some in Hx as [Hx|[Hi Hx]].
    + assert (Hy : exists y, LogStore.entries self !! i = Some y /\ LogEntry.seq x = LogEntry.seq y).
      { pose proof (f_equal (fun m => m !! i) Hl) as Hi. unfold sigs_of in Hi. rewrite !list_lookup_fmap, Hx in Hi.
        destruct (LogStore.entries self !! i) as [y|]; [|done]. apply (inj Some) in Hi. exists y. split; [done|].
        by apply (f_equal number) in Hi. }
      destruct Hy as (y & Hy & ->). rewrite (Hn i y Hy). unfold len. rewrite length_app, Hlen. simpl. lia.
    + apply list_lookup_singleton_Some in Hx as [Hi0 <-]. change (LogEntry.seq e') with (number (sig e')).
      rewrite He'. change (number (sig e)) with (LogEntry.seq e). rewrite Hs. unfold len. rewrite length_app, Hlen in *. simpl. lia.
  - rewrite Fb, Hb, weight_app. simpl. destruct (same_bytes l _ Hbl) as [-> _]. lia.
  - apply Forall_app. split; [by apply (same_bytes l _ Hbl)|by constructor].
  - intros id. rewrite Hpend. unfold sigs_of at 2. by rewrite Fe, map_app, Hl, <- He'.
Qed.

Section new_row.
Context (self : LogStore.t) (e : LogEntry.t).
Context (Hg : good self) (Hs : LogEntry.seq e = LogStore.next_seq self) (Hplain : plain e = e) (Hb : 0 <= LogEntry.bytes e).
Let next : LogStore.t := self <| LogStore.next_seq := LogStore.next_seq self + 1 |>.

Lemma older_than_new i x : LogStore.entries self !! i = Some x -> LogEntry.seq x < LogEntry.seq e.
Proof.
  intros Hx. rewrite (good_numbered _ Hg i x Hx), Hs. apply lookup_lt_Some in Hx. unfold len. lia.
Qed.
Lemma no_peer : LogEntry.peer e = None /\ LogEntry.rtt_ms e = None.
Proof. split; [apply (f_equal LogEntry.peer) in Hplain|apply (f_equal LogEntry.rtt_ms) in Hplain]; by rewrite <- Hplain. Qed.

(** The row changes nothing in others. *)
Lemma pushed_alone pending :
  (forall id, pending !! id = (fun g => (number g, at_ g)) <$> open_call id (sigs_of self ++ [sig e])) ->
  (forall id, about (sig e) = Some id -> is_call (sig e) = true \/ open_call id (sigs_of self) = None) ->
  pushed e self (with_row e (next <| LogStore.pending := pending |>)).
Proof.
  intros Hpend Hopen. split; [|by simpl; rewrite map_app; simpl; rewrite Hplain|done..].
  eapply (good_with_row e e (LogStore.entries self)); try done.
  apply (all_linked_push _ e None); [apply Hg|apply older_than_new| |done|].
  - intros i x id Hx Ha Hc Hm Hae. rewrite decide_False by done. destruct (Hopen id Hae) as [?|Ho]; [done|].
    rewrite (open_call_at id _ (sig x)), Hc in Ho; [done|].
    apply (last_mine_at id _ i); [unfold sigs_of; by rewrite list_lookup_fmap, Hx|done..].
  - unfold linked. destruct no_peer as [Hp Hr]. destruct (about (sig e)) as [id|] eqn:Ha; [|done].
    destruct (is_call (sig e)) eqn:Hc; [done|]. destruct (Hopen id eq_refl) as [?|Ho]; [done|]. unfold open_call, sigs_of in Ho.
    destruct (last _) as [g|]; [|by intros p; rewrite Hp]. simpl in Ho. by destruct (is_call g).
Qed.

(** The row answers a CALL. *)
Lemma pushed_answer id g :
  about (sig e) = Some id -> is_call (sig e) = false -> open_call id (sigs_of self) = Some g ->
  let e' := e <| LogEntry.rtt_ms := Some (Z.max (num_milliseconds (dt_sub (LogEntry.ts e) (at_ g))) 0) |>
              <| LogEntry.peer := Some (number g) |> in
  pushed e self (with_row e' (modify (answered_by (LogEntry.seq e)) (number g) (next <| LogStore.pending ::= base.delete id |>))).
Proof.
  intros Ha Hc Ho e'. unfold open_call in Ho. destruct (last _) as [h|] eqn:El; [|done]. simpl in Ho.
  destruct (is_call h) eqn:Hh; [|done]. injection Ho as ->.
  destruct (last_mine _ _ _ El) as (j & Hj & Hag & Hm). pose proof Hj as Hj'. unfold sigs_of in Hj'.
  rewrite list_lookup_fmap in Hj'. destruct (LogStore.entries self !! j) as [c|] eqn:Hcj; [|done].
  apply (inj Some) in Hj'. subst g.
  assert (Hi : index_of (next <| LogStore.pending ::= base.delete id |>) (number (sig c)) = Some j).
  { apply (index_of_spec self j c); [apply Hg|done]. }
  unfold modify. rewrite Hi. set (l := alter (answered_by (LogEntry.seq e)) j (LogStore.entries self)).
  assert (Hal : forall B (h : LogEntry.t -> B), (forall x, h (answered_by (LogEntry.seq e) x) = h x) ->
                map h l = map h (LogStore.entries self)) by (intros B h Hh'; by apply map_alter).
  split; [|simpl; rewrite map_app; simpl; f_equal; [by apply Hal|by rewrite <- Hplain]|done..].
  eapply (good_with_row e e' l (base.delete id (LogStore.pending self)) self); try done; [by apply Hal|by apply Hal| |].
  - intros k. rewrite open_call_snoc, Ha, Hc. destruct (Some id == Some k) eqn:E.
    + apply (proj1 (eqb_true _ _)) in E. injection E as ->. by rewrite lookup_delete_eq.
    + apply (proj1 (eqb_false _ _)) in E. rewrite lookup_delete_ne by congruence. apply Hg.
  - apply (all_linked_push _ e' (Some j)); [apply Hg|apply older_than_new|..].
    + intros i x k Hx Hax Hcx Hmx Hae. case_decide as Hji; [done|]. exfalso. change (sig e') with (sig e) in Hae.
      assert (k = id) as -> by congruence. apply Hji. f_equal.
      destruct (Nat.lt_trichotomy i j) as [Hlt|[->|Hlt]]; [exfalso|done|exfalso].
      * apply (mine_some id (drop (S i) (map sig (LogStore.entries self))) (sig c)); [|done..].
        apply list_elem_of_In, list_elem_of_lookup. exists (j - S i)%nat.
        rewrite lookup_drop. replace (S i + (j - S i))%nat with j by lia. done.
      * apply (mine_some id (drop (S j) (sigs_of self)) (sig x)); [|done..].
        apply list_elem_of_In, list_elem_of_lookup. exists (i - S j)%nat.
        rewrite lookup_drop. replace (S j + (i - S j))%nat with i by lia. unfold sigs_of. by rewrite list_lookup_fmap, Hx.
    + intros i x Hji Hx. injection Hji as ->. assert (x = c) as -> by congruence. by exists id.
    + unfold linked. change (sig e') with (sig e). rewrite Ha, Hc. unfold sigs_of in El. by rewrite El, Hh.
Qed.

Lemma correlate_good : let '(e', self') := correlate e next in pushed e self (with_row e' self').
Proof.
  rewrite correlate_eq. pose proof (good_pending _ Hg) as Hp. change (LogStore.pending next) with (LogStore.pending self).
  destruct (about (sig e)) as [id|] eqn:Ha.
  2:{ apply (pushed_alone (LogStore.pending self)); [|by intros id; rewrite Ha]. intros k. rewrite open_call_snoc, Ha. apply Hp. }
  destruct (is_call (sig e)) eqn:Hc.
  - apply pushed_alone; [|by left]. intros k. rewrite open_call_snoc, Ha, Hc. destruct (Some id == Some k) eqn:E.
    + apply (proj1 (eqb_true _ _)) in E. injection E as ->. by rewrite lookup_insert_eq.
    + apply (proj1 (eqb_false _ _)) in E. rewrite lookup_insert_ne by congruence. apply Hp.
  - rewrite Hp. destruct (open_call id (sigs_of self)) as [g|] eqn:Ho; simpl; [by apply (pushed_answer id)|].
    apply (pushed_alone (LogStore.pending self)).
    + intros k. rewrite open_call_snoc, Ha, Hc. destruct (Some id == Some k) eqn:E; [|apply Hp].
      apply (proj1 (eqb_true _ _)) in E. injection E as <-. by rewrite Hp, Ho.
    + intros k. rewrite Ha. intros [= <-]. by right.
Qed.
End new_row.

(** ** Every run *)

Record inv (capacity max_bytes : Z) (w : Z * list LogEntry.t) self : Prop := {
  inv_good : good self;
  inv_next : LogStore.next_seq self = w.1;
  inv_range : 0 <= w.1;
  inv_capacity : LogStore.capacity self = capacity;
  inv_max : LogStore.max_bytes self = max_bytes;
  inv_weighed : weighed w.2;
  inv_window : window capacity max_bytes w.2 (map plain (LogStore.entries self));
}.

Lemma good_same self self' :
  LogStore.entries self' = LogStore.entries self -> LogStore.next_seq self' = LogStore.next_seq self ->
  LogStore.bytes self' = LogStore.bytes self -> LogStore.pending self' = LogStore.pending self ->
  good self -> good self'.
Proof. intros He Hn Hb Hp [? ? ? ? ?]. split; unfold sigs_of; by rewrite ?He, ?Hn, ?Hb, ?Hp. Qed.
Lemma inv_same capacity max_bytes w self self' :
  LogStore.entries self' = LogStore.entries self -> LogStore.next_seq self' = LogStore.next_seq self ->
  LogStore.bytes self' = LogStore.bytes self -> LogStore.pending self' = LogStore.pending self ->
  LogStore.capacity self' = LogStore.capacity self -> LogStore.max_bytes self' = LogStore.max_bytes self ->
  inv capacity max_bytes w self -> inv capacity max_bytes w self'.
Proof.
  intros He Hn Hb Hp Hc Hm [? ? ? ? ? ? ?]. split; rewrite ?He, ?Hn, ?Hc, ?Hm; try done. by apply (good_same self).
Qed.

Lemma inv_push capacity max_bytes w self event :
  w.1 + 1 <= u64_max -> inv capacity max_bytes w self ->
  inv capacity max_bytes (write w (Push event)) (push event self).
Proof.
  intros Hmax [Hg Hn Hr Hc Hm Hw Hwin]. unfold push, build. cbn [write]. rewrite Hn.
  destruct (row w.1 event) as [e|] eqn:Erow; [|by split].
  destruct (row_spec _ _ _ Erow) as (Hs & Hplain & Hb).
  replace (self <| LogStore.next_seq ::= _ |>) with (self <| LogStore.next_seq := LogStore.next_seq self + 1 |>)
    by (simpl; unfold u64_wrapping_add; rewrite Hn, Z.mod_small by (unfold u64_max in *; lia); done).
  pose proof (correlate_good self e Hg ltac:(by rewrite Hn) Hplain Hb) as Hpush.
  destruct (correlate e _) as [e' self'] eqn:Ec.
  assert (Hnext : LogStore.next_seq self' = w.1 + 1).
  { rewrite correlate_eq in Ec. unfold modify in Ec. rewrite <- Hn. repeat case_match; by simplify_eq. }
  fold (with_row e' self'). destruct Hpush as [Hg' Hp' Hc' Hm'].
  destruct (evict_good (length (LogStore.entries (with_row e' self'))) _ Hg' (Nat.le_refl _)) as (Hg2 & (Bc & Bm & Bn) & He).
  assert (Hw' : weighed (w.2 ++ [e])) by (apply Forall_app; split; [done|by constructor]).
  split; cbn [fst snd]; [done|by rewrite Bn|lia|congruence|congruence|done|].
  rewrite He, <- trimmed_plain, Hp', Hc', Hm', Hc, Hm. by apply window_push.
Qed.
Lemma good_empty self :
  LogStore.entries self = [] -> LogStore.bytes self = 0 -> LogStore.pending self = ∅ -> good self.
Proof.
  intros He Hb Hp. split; unfold sigs_of; rewrite ?He, ?Hb, ?Hp.
  - intros i e Hi. by rewrite lookup_nil in Hi.
  - done.
  - by constructor.
  - intros id. by rewrite lookup_empty.
  - intros i e Hi. by rewrite lookup_nil in Hi.
Qed.
Lemma window_nil capacity max_bytes : window capacity max_bytes [] [].
Proof. split; [by exists []|]. split; [by left|]. intros old l' Heq _. by destruct old, l'. Qed.
Lemma inv_step capacity max_bytes w self o :
  w.1 + 1 <= u64_max -> inv capacity max_bytes w self -> inv capacity max_bytes (write w o) (step self o).
Proof.
  intros Hmax Hi. destruct o; [by apply inv_push| |apply (inv_same _ _ _ self); try done..];
    try (unfold step, move_selection, select_first, toggle_follow; by repeat case_match).
  destruct Hi as [Hg Hn Hr Hc Hm Hw Hwin]. split; try done; [|by constructor|].
  - by apply good_empty.
  - apply window_nil.
Qed.
Lemma written_le ops : (written ops).1 <= Z.of_nat (length ops).
Proof.
  unfold written. rewrite <- (rev_involutive ops). induction (rev ops) as [|o l IH]; [done|]. simpl.
  rewrite fold_left_app, length_app. simpl. unfold write at 1. destruct o; simpl; try lia. case_match; simpl; lia.
Qed.
Lemma inv_run capacity max_bytes ops :
  Z.of_nat (length ops) <= u64_max ->
  inv (Z.max capacity 1) (Z.max max_bytes 1) (written ops) (run capacity max_bytes ops).
Proof.
  unfold run, written. rewrite <- (rev_involutive ops). induction (rev ops) as [|o l IH]; intros Hlen.
  - split; try done; [by apply good_empty|by constructor|apply window_nil].
  - simpl in *. rewrite !fold_left_app in *. rewrite length_app in Hlen. simpl in *. apply inv_step; [|apply IH; lia].
    pose proof (written_le (rev l)) as Hle. unfold written in Hle. lia.
Qed.

(** Claim C23: the log is a window on everything written: after any pushes, clearings and movements it
    holds the longest recent part that fits its row and byte bounds (the newest row always), its
    byte count is that of its rows, and a row is found under its number exactly while it is kept. *)
Theorem log_window capacity max_bytes ops :
  Z.of_nat (length ops) <= u64_max ->
  let s := run capacity max_bytes ops in
  window (Z.max capacity 1) (Z.max max_bytes 1) (written ops).2 (map plain (LogStore.entries s)) /\
  LogStore.bytes s = weight (LogStore.entries s) /\
  (forall seq e, get s seq = Some e <-> In e (LogStore.entries s) /\ LogEntry.seq e = seq).
Proof.
  intros Hlen. cbn zeta. destruct (inv_run capacity max_bytes ops Hlen) as [Hg _ _ _ _ _ Hwin].
  set (s := run capacity max_bytes ops) in *.
  split; [done|]. split; [apply Hg|]. intros seq e. unfold get. split.
  - destruct (index_of _ seq) as [i|] eqn:Ei; [|done]. intros He. apply index_of_sound in Ei as (x & Hx & Hs); [|apply Hg].
    assert (x = e) as -> by congruence.
    split; [|done]. apply list_elem_of_In. by eapply list_elem_of_lookup_2.
  - intros [He <-]. apply list_elem_of_In, list_elem_of_lookup in He as [i Hi].
    by rewrite (index_of_spec _ _ _ (good_numbered _ Hg) Hi).
Qed.

(** Claim C26: answers and CALLs of the log know each other. A kept CALL points to the next kept frame
    with its id if that is an answer, and to nothing otherwise; an answer points to the frame with
    its id before it, with the time between them, if that is a CALL; when that frame is not kept any
    more it points before everything kept. Repeated ids, evictions and clearings never mislead it. *)
Theorem log_pairs capacity max_bytes ops before e after :
  Z.of_nat (length ops) <= u64_max ->
  LogStore.entries (run capacity max_bytes ops) = before ++ e :: after ->
  linked (map sig before) e (map sig after).
Proof.
  intros Hlen He. destruct (inv_run capacity max_bytes ops Hlen) as [Hg _ _ _ _ _ _].
  pose proof (good_linked _ Hg (length before) e) as Hl. rewrite He in Hl. rewrite map_app in Hl. cbn [map] in Hl.
  rewrite <- (length_map sig before) in Hl at 2 3. rewrite take_app_length, drop_app_ge in Hl by lia.
  replace (S (length (map sig before)) - length (map sig before))%nat with 1%nat in Hl by lia.
  apply Hl. by rewrite lookup_app_r, Nat.sub_diag by lia.
Qed.
End runs.

(** ** A log of two rows *)

#[local] Existing Instance u64_json.
#[local] Existing Instance unit_text.
#[local] Existing Instance ns_chrono.
Definition plain_text : LogText := {| to_lowercase := to_ascii_lowercase; to_string_pretty v := Some [] |}.
#[local] Existing Instance plain_text.

Definition sample_frame (ts : DateTime) (direction : Direction.t) (items : list json) : op :=
  Push (Event.Frame (FrameRecord.mk ts direction (Some (lit "7")) None (Array items))).
(** Two CALLs and their answers, in a log of two rows. *)
Definition sample_ops : list op :=
  [sample_frame 0 Direction.Out [Num (2 : @Number u64_json); String (lit "7")];
   sample_frame 1000000 Direction.In [Num (3 : @Number u64_json); String (lit "7")];
   Push Event.StateChanged;
   sample_frame 2000000 Direction.Out [Num (2 : @Number u64_json); String (lit "7")];
   sample_frame 5000000 Direction.In [Num (3 : @Number u64_json); String (lit "7")]].

Lemma log_window_witness :
  LogStore.bytes (run 2 1000 sample_ops) = weight (LogStore.entries (run 2 1000 sample_ops)) /\
  map LogEntry.seq (LogStore.entries (run 2 1000 sample_ops)) = [2; 3].
Proof.
  split; [|vm_compute; reflexivity].
  destruct (log_window 2 1000 sample_ops) as (_ & H & _); [vm_compute; discriminate|exact H].
Defined.
Lemma log_pairs_witness :
  exists before e, LogStore.entries (run 2 1000 sample_ops) = before ++ e :: [] /\
    linked (map sig before) e (map sig []) /\ LogEntry.peer e = Some 2 /\ LogEntry.rtt_ms e = Some 3.
Proof.
  assert (H : map (fun e => (LogEntry.peer e, LogEntry.rtt_ms e)) (LogStore.entries (run 2 1000 sample_ops))
              = [(Some 3, None); (Some 2, Some 3)]) by (vm_compute; reflexivity).
  pose proof (log_pairs 2 1000 sample_ops) as Hp. revert H Hp.
  generalize (LogStore.entries (run 2 1000 sample_ops)). intros [|c [|e [|]]] H Hp; try discriminate H.
  exists [c], e. split; [reflexivity|]. split; [|by injection H].
  apply (Hp [c] e []); [vm_compute; discriminate|reflexivity].
Defined.
End LogRuns.
