(* ===== verification/CsmsApp.v ===== *)
(** * CsmsApp: the terminal of the CSMS

    [app.rs] and [actions.rs] of [kirby-csms-tui/src/]: the model behind the terminal. [update]
    turns a message into a new state and effects; nothing in it touches the terminal or the engine.
    Fuzzy matching is a library ([UiText]), as are the formats of times, addresses and quoted
    texts. The keys are in [CsmsLoop.v]. *)

From stdpp Require Import strings gmap.
From S2P Require Import Prelude Text Time Types Messages SecurityMessages Frame Actions Schema Interface CsmsState CsmsConfig CsmsServer ScenarioRunner TuiText CsmsTyped CsmsCommand CsmsForm LogView.
Local Open Scope Z_scope.

Module CsmsApp.
Import CsmsConfig CsmsServer CsmsTyped CsmsCommand TuiText CsmsForm LogView.

(** [Pattern::score] of a query on a text, [DateTime::format], [{:?}] of a text, [SocketAddr]'s
    text. *)
Class UiText : Type := {
  fuzzy_score : str -> str -> option Z;
  format_time : str -> DateTime -> str;
  debug_str : str -> str;
  addr_text : SocketAddr -> str;
}.

Definition NOTICE_TICKS : Z := 100.
Definition DEDUPE_TICKS : Z := 10.
Definition DEDUPE_ENTRIES : Z := 16.
Definition TRACKER_CAP : Z := 4096.
Definition KEY_SEP : char := 31.
Definition RESULTS_PER_STATION : nat := 20.
Definition RESULT_LINES : nat := 2000.
Definition NOTICE_TEXT : Z := 120.

Inductive Focus : Type := Stations | LogPane.
#[export] Instance focus_eq_dec : EqDecision Focus.
Proof. solve_decision. Defined.
Inductive LogChoice : Type := OneStation | AllStations.
Inductive InputTarget : Type := StationList | LogSearch.
Record Input : Type := mk_input { target : InputTarget; input_text : TextInput.t }.

Module NoticeLevel.
Inductive t : Type := Info | Success | Error.
End NoticeLevel.
Record Notice : Type := mk_notice { notice_text : str; notice_level : NoticeLevel.t; ttl : Z }.

Module Detail.
Record t : Type := mk { title : str; lines : list str; scroll : Z; copy : str }.
#[export] Instance eta : Eta t := fun d => mk (title d) (lines d) (scroll d) (copy d).
End Detail.
Export (hints) Detail.

(** What the list needs to know about a station. *)
Module Summary.
Record t : Type := mk {
  id : str;
  connected : bool;
  replaced : bool;
  vendor : option str;
  model : option str;
  active_tx : Z;
}.
#[export] Instance eta : Eta t := fun s => mk (id s) (connected s) (replaced s) (vendor s) (model s) (active_tx s).
End Summary.
Export (hints) Summary.
Definition new_summary (id : str) (connected : bool) : Summary.t := Summary.mk id connected false None None 0.
Definition is_active (t : CsmsState.TransactionRecord.t) : bool :=
  CsmsState.has_status CsmsState.Active t.
(** [Summary::apply] *)
Definition apply_state (state : CsmsState.StationState.t) (s : Summary.t) : Summary.t :=
  s <| Summary.vendor := CsmsState.BootInfo.vendor <$> CsmsState.StationState.boot state |>
    <| Summary.model := CsmsState.BootInfo.model <$> CsmsState.StationState.boot state |>
    <| Summary.active_tx := len (retain is_active (CsmsState.StationState.transactions state)) |>.

Record FrameEntry {J : SerdeJson} : Type := mk_entry {
  entry_ts : DateTime;
  entry_direction : CsmsServer.Direction;
  entry_frame : Frame.Frame.t;
}.
Arguments mk_entry {J}.

(** Equality of JSON values and of frames. *)
Fixpoint json_eqb {J : SerdeJson} {N : ScenarioRunner.NumberEq} (a b : json) : bool :=
  match a, b with
  | Null, Null => true
  | Bool b, Bool c => Bool.eqb b c
  | Num m, Num n => ScenarioRunner.number_eqb m n
  | String s, String s' => s == s'
  | Array a, Array b =>
      (fix elements (a b : list json) : bool :=
         match a, b with
         | [], [] => true
         | v :: a, w :: b => json_eqb v w && elements a b
         | _, _ => false
         end) a b
  | Object a, Object b =>
      (fix fields (a b : list (str * json)) : bool :=
         match a, b with
         | [], [] => true
         | (k, v) :: a, (k', w) :: b => (k == k') && json_eqb v w && fields a b
         | _, _ => false
         end) a b
  | _, _ => false
  end.
Definition frame_eqb {J : SerdeJson} {N : ScenarioRunner.NumberEq} (a b : Frame.Frame.t) : bool :=
  match a, b with
  | Frame.Frame.Call i x p, Frame.Frame.Call j y q => (i == j) && (x == y) && json_eqb p q
  | Frame.Frame.CallResult i p, Frame.Frame.CallResult j q => (i == j) && json_eqb p q
  | Frame.Frame.CallError i c d p, Frame.Frame.CallError j c' d' q =>
      (i == j) && (c == c') && (d == d') && json_eqb p q
  | _, _ => false
  end.

(** ** Results and rules *)

(** [label] is the heading, [copy] what is copied. *)
Module ResultRecord.
Record t : Type := mk { at_ : DateTime; label : str; ok : bool; summary : str; lines : list str; copy : str }.
End ResultRecord.
Definition result_detail (r : ResultRecord.t) : Detail.t :=
  Detail.mk (ResultRecord.label r ++ lit ": " ++ ResultRecord.summary r) (ResultRecord.lines r) 0 (ResultRecord.copy r).

Module Rules.
Record t : Type := mk { actions : list str; faults : Z }.
End Rules.
Definition no_rules (r : Rules.t) : bool := (Rules.actions r == []) && (Rules.faults r =? 0).

Module ActionId.
Inductive t : Type :=
| RemoteStart | RemoteStop | Reset | ChangeConfiguration | GetConfiguration | Trigger | Unlock
| Availability | ClearCache | SetProfile | DataTransfer | GetLog | InstallCertificate
| DeleteCertificate | CertificateIds | ExtendedTrigger | SignedFirmware | CertificateSigned
| ClearChargingProfile | GetCompositeSchedule | ReserveNow | UpdateFirmware | GetDiagnostics
| SendLocalList | SecurityEvents | Raw | Rule | RemoveRule | Fault | ClearRules | Forget | CopyId
| Results.
#[export] Instance eq_dec : EqDecision t.
Proof. solve_decision. Defined.
End ActionId.
Export (hints) ActionId.

Record ActionDef : Type := def { def_id : ActionId.t; def_label : str; def_desc : str; def_key : option char }.
Definition key_of (s : string) : option char := head (lit s).
(** Every action, in palette order. *)
Definition CATALOG : list ActionDef := [
  def ActionId.RemoteStart (lit "Remote start transaction")
    (lit "RemoteStartTransaction with an idTag, optionally on a connector") (key_of "t");
  def ActionId.RemoteStop (lit "Remote stop transaction")
    (lit "RemoteStopTransaction for one of the active transactions") (key_of "x");
  def ActionId.Reset (lit "Reset") (lit "soft or hard reset of the station (asks first)") (key_of "R");
  def ActionId.ChangeConfiguration (lit "Change configuration") (lit "ChangeConfiguration: set one key") (key_of "c");
  def ActionId.GetConfiguration (lit "Get configuration")
    (lit "GetConfiguration: read keys, the answer opens in a popup") (key_of "g");
  def ActionId.Trigger (lit "Trigger message") (lit "TriggerMessage: ask the station to send a message") (key_of "T");
  def ActionId.Unlock (lit "Unlock connector") (lit "UnlockConnector") (key_of "u");
  def ActionId.Availability (lit "Change availability")
    (lit "ChangeAvailability: operative or inoperative") (key_of "A");
  def ActionId.ClearCache (lit "Clear cache") (lit "ClearCache: empty the authorization cache") (key_of "C");
  def ActionId.SetProfile (lit "Set charging profile")
    (lit "SetChargingProfile from JSON, checked against the schema") (key_of "P");
  def ActionId.DataTransfer (lit "Data transfer") (lit "DataTransfer to the station") (key_of "D");
  def ActionId.GetLog (lit "Get log (security)")
    (lit "GetLog: ask the station to upload its diagnostics or security log") (key_of "l");
  def ActionId.InstallCertificate (lit "Install certificate (security)")
    (lit "InstallCertificate: install a root certificate from pasted PEM") (key_of "I");
  def ActionId.DeleteCertificate (lit "Delete certificate (security)")
    (lit "DeleteCertificate by hash data") (key_of "d");
  def ActionId.CertificateIds (lit "Installed certificates (security)")
    (lit "GetInstalledCertificateIds, the answer opens in a popup") (key_of "L");
  def ActionId.ExtendedTrigger (lit "Extended trigger message (security)")
    (lit "ExtendedTriggerMessage, e.g. SignChargePointCertificate") (key_of "E");
  def ActionId.SignedFirmware (lit "Signed update firmware (security)")
    (lit "SignedUpdateFirmware with signing certificate and signature") (key_of "S");
  def ActionId.CertificateSigned (lit "Certificate signed (security)")
    (lit "CertificateSigned: hand the station its certificate chain (PEM)") (key_of "X");
  def ActionId.ClearChargingProfile (lit "Clear charging profile")
    (lit "ClearChargingProfile by id, connector, purpose or stack level") (key_of "K");
  def ActionId.GetCompositeSchedule (lit "Get composite schedule")
    (lit "GetCompositeSchedule: the schedule in force, the answer opens in a popup") (key_of "H");
  def ActionId.ReserveNow (lit "Reserve now") (lit "ReserveNow: reserve a connector for an idTag") (key_of "V");
  def ActionId.UpdateFirmware (lit "Update firmware")
    (lit "UpdateFirmware: download from a URL at a given time") (key_of "U");
  def ActionId.GetDiagnostics (lit "Get diagnostics")
    (lit "GetDiagnostics: ask the station to upload its diagnostics file") (key_of "O");
  def ActionId.SendLocalList (lit "Send local list")
    (lit "SendLocalList: full or differential local authorization list") (key_of "B");
  def ActionId.SecurityEvents (lit "Security events")
    (lit "the last security events the selected station reported") (key_of "e");
  def ActionId.Raw (lit "Raw call") (lit "any central system action with a JSON payload") (key_of "w");
  def ActionId.Rule (lit "Response rule") (lit "answer every station's action with a fixed payload") (key_of "m");
  def ActionId.RemoveRule (lit "Remove response rule") (lit "stop overriding the answer to one action") None;
  def ActionId.Fault (lit "Inject fault")
    (lit "CALLERROR, silence, close or invalid payload for the next calls") (key_of "i");
  def ActionId.ClearRules (lit "Clear all rules and faults")
    (lit "remove every response rule and pending fault") (key_of "M");
  def ActionId.Forget (lit "Forget station")
    (lit "drop a disconnected station and its state (asks first)") (key_of "F");
  def ActionId.CopyId (lit "Copy station id") (lit "copy the id of the selected station") (key_of "n");
  def ActionId.Results (lit "Command results") (lit "the last answers from the selected station") (key_of "r")].

(** The action a normal-mode key triggers. *)
Definition by_key (c : char) : option ActionId.t :=
  def_id <$> find_first (fun a => def_key a == Some c) CATALOG.
Definition def_of (id : ActionId.t) : option ActionDef := find_first (fun a => def_id a == id) CATALOG.
(** Text the palette matches on. *)
Definition haystack (a : ActionDef) : str := def_label a ++ lit " " ++ def_desc a.

(** ** The palette *)

(** [results] are indices into [CATALOG]. *)
Module Palette.
Record t : Type := mk { query : TextInput.t; results : list nat; selected : nat }.
#[export] Instance eta : Eta t := fun p => mk (query p) (results p) (selected p).
End Palette.
Export (hints) Palette.

Section palette.
Context {P : UiText}.

(** Higher scores first, then lower indices. *)
Definition rank_le (a b : Z * nat) : Prop := b.1 < a.1 \/ (a.1 = b.1 /\ (a.2 <= b.2)%nat).
#[export] Instance rank_le_dec : RelDecision rank_le.
Proof. intros a b. unfold rank_le. apply _. Defined.
(** Indices of the items that match the query, best first; all of them for an empty query. *)
Definition rank_by {A} (items : list A) (query : str) (text : A -> str) : list nat :=
  if trim query == [] then seq 0 (length items)
  else
    let scored := omap (fun i => let? a := items !! i in
                                 let? score := fuzzy_score query (text a) in
                                 Some (score, i)) (seq 0 (length items)) in
    map snd (merge_sort rank_le scored).

Definition refresh (p : Palette.t) : Palette.t :=
  p <| Palette.results := rank_by CATALOG (TextInput.text (Palette.query p)) haystack |> <| Palette.selected := 0%nat |>.
Definition new_palette : Palette.t := refresh (Palette.mk empty_input [] 0).
Definition move_by (d : Z) (p : Palette.t) : Palette.t :=
  p <| Palette.selected ::= fun i => CsmsForm.step i (length (Palette.results p)) d |>.
Definition palette_chosen (p : Palette.t) : option ActionId.t :=
  let? i := Palette.results p !! Palette.selected p in def_id <$> CATALOG !! i.
End palette.

Record ResultsList : Type := mk_results { results_station : str; results_selected : Z }.

Inductive ConfirmAction {J : SerdeJson} : Type :=
| ConfirmSend (station : str) (command : Command.t)
| ConfirmForget (station : str)
| ConfirmClearRules.
Record Confirm {J : SerdeJson} : Type := mk_confirm { message : str; confirm_action : ConfirmAction }.
Arguments mk_confirm {J}.

(** Exactly one mode owns the keyboard at a time. *)
Module Mode.
Inductive t {J : SerdeJson} : Type :=
| Normal
| Input (i : CsmsApp.Input)
| Help
| Detail (d : Detail.t)
| Palette (p : Palette.t)
| Form (f : Form.t)
| Confirm (c : CsmsApp.Confirm)
| Results (l : ResultsList).
End Mode.

(** ** The trackers and the tags *)

(** The action of unanswered CALLs. *)
Abbreviation ActionTracker := (gmap str str).
(** Builds the log record of a frame; [key] is the message id, with its station where ids of
    several stations meet. *)
Definition record {J : SerdeJson} (ts : DateTime) (direction : Direction.t) (key : str) (f : Frame.Frame.t)
    (pending : ActionTracker) : ActionTracker * FrameRecord.t :=
  let '(pending, action) :=
    match Frame.Frame.action f with
    | Some action =>
        let pending := if TRACKER_CAP <=? Z.of_nat (size pending) then ∅ else pending in
        (<[key := action]> pending, Some action)
    | None => (base.delete key pending, pending !! key)
    end in
  (pending, FrameRecord.mk ts direction (Some key) action (Frame.Frame.to_value f)).

(** Station tags of the all-stations log. *)
Module Tags.
Record t : Type := mk { tags : list str; pushed : Z }.
#[export] Instance eta : Eta t := fun x => mk (tags x) (pushed x).
End Tags.
Export (hints) Tags.
Definition push_tag (capacity : Z) (tag : str) (x : Tags.t) : Tags.t :=
  x <| Tags.tags ::= fun l => CsmsState.pop_over capacity (l ++ [tag]) |>
    <| Tags.pushed ::= fun n => u64_wrapping_add n 1 |>.
Definition get_tag (seq : Z) (x : Tags.t) : option str :=
  let n := len (Tags.tags x) in
  if Tags.pushed x <? n then None
  else let first := Tags.pushed x - n in
       if seq <? first then None else Tags.tags x !! Z.to_nat (seq - first).

(** ** The state *)

Module App.
Section record.
Context {J : SerdeJson}.
Record t : Type := mk {
  url : str;
  stations : list Summary.t;
  station_filter : str;
  matches : list nat;
  selected : option str;
  info : option StationInfo.t;
  state : option CsmsState.StationState.t;
  focus : Focus;
  mode : Mode.t;
  view : LogChoice;
  station_log : LogStore.t;
  all_log : LogStore.t;
  tags : Tags.t;
  station_tracker : gmap str str;
  all_tracker : gmap str str;
  dedupe : list FrameEntry;
  dedupe_ticks : Z;
  frames_in : Z;
  frames_out : Z;
  notice : option Notice;
  now : DateTime;
  size : Z * Z;
  quit : bool;
  dirty : bool;
  stopped : bool;
  dirty_states : gset str;
  info_dirty : bool;
  pending : Z;
  results : gmap str (list ResultRecord.t);
  rules : Rules.t;
  security_profile : Z;
  auth_failures : Z;
  last_auth_notice : option DateTime;
  next_request_id : Z;
}.
#[export] Instance eta : Eta t := fun a => mk (url a) (stations a) (station_filter a) (matches a)
  (selected a) (info a) (state a) (focus a) (mode a) (view a) (station_log a) (all_log a) (tags a)
  (station_tracker a) (all_tracker a) (dedupe a) (dedupe_ticks a) (frames_in a) (frames_out a) (notice
  a) (now a) (size a) (quit a) (dirty a) (stopped a) (dirty_states a) (info_dirty a) (pending a)
  (results a) (rules a) (security_profile a) (auth_failures a) (last_auth_notice a) (next_request_id a).
End record.
End App.
Export (hints) App.

(** What the run loop must do after an [update]. *)
Module Effect.
Inductive t {J : SerdeJson} : Type :=
| Load (id : str)
| Refresh (states : list str) (info : option str)
| Resync
| Copy (text what : str)
| Send (station : str) (command : Command.t)
| Respond (action : str) (payload : json)
| Inject (action : str) (kind : FaultKind.t) (times : Z) (payload : json)
| RemoveRule (action : str)
| ClearRules
| ReadRules
| Forget (id : str).
End Effect.

(** A key of the keyboard: the two page keys, or one the forms know. *)
Inductive Code : Type := PageUp | PageDown | Plain (k : KeyCode.t).
Record Key : Type := mk_press { key_code : Code; key_ctrl : bool; key_alt : bool; released : bool }.
Definition form_key (k : Key) : KeyEvent :=
  CsmsForm.mk_key (match key_code k with Plain c => c | _ => KeyCode.Other end) (key_ctrl k) (key_alt k).

(** Input to [update]. *)
Module Msg.
Inductive t {J : SerdeJson} : Type :=
| Press (key : Key)
| Paste (text : str)
| Resize (w h : Z)
| Tick (now : DateTime)
| Signal
| Event (event : CsmsEvent.t)
| Lagged (missed : Z)
| Closed
| Resynced (infos : list StationInfo.t) (states : list (str * option CsmsState.StationState.t))
| Loaded (id : str) (history : list FrameEntry) (info : option StationInfo.t)
    (state : option CsmsState.StationState.t)
| Refreshed (states : list (str * option CsmsState.StationState.t))
    (info : option (str * option StationInfo.t))
| Notice (level : NoticeLevel.t) (text : str)
| CommandDone (station : str) (command : Command.t) (outcome : result json str)
| Rules (rules : Rules.t).
End Msg.

(** Operations that push effects: they return them, in order. *)
Definition then_ {J : SerdeJson} (w : App.t * list Effect.t) (f : App.t -> App.t * list Effect.t)
  : App.t * list Effect.t :=
  let '(app, fx) := w in
  let '(app, fx') := f app in (app, fx ++ fx').
Definition quietly {J : SerdeJson} (app : App.t) : App.t * list Effect.t := (app, []).

Section app.
Context {J : SerdeJson} {T : JsonText} {L : LogText} {K : Chrono} {N : ScenarioRunner.NumberEq} {U : Unicode} {P : UiText}
  {F : CsmsFormat} {V : Schema.JsonSchema} {D : TypedWire} {C : CommandWire} {W : FormWire}.
Implicit Types (app : App.t).

Definition new_app (url : str) (now : DateTime) : App.t :=
  App.mk url [] [] [] None None None Stations Mode.Normal OneStation (new_log LOG_CAPACITY) (new_log LOG_CAPACITY)
    (Tags.mk [] 0) ∅ ∅ [] 0 0 0 None now (80, 24) false true false ∅ false 0 ∅ (Rules.mk [] 0) 0 0 None 1.

(** A fresh request id for the forms. *)
Definition take_request_id app : App.t * Z :=
  let id := App.next_request_id app in
  (app <| App.next_request_id := if 1000000 <=? id then 1 else id + 1 |>, id).
Definition notify (level : NoticeLevel.t) (text : str) app : App.t :=
  app <| App.notice := Some (mk_notice text level NOTICE_TICKS) |>.

(** The log the log pane shows. *)
Definition log app : LogStore.t :=
  match App.view app with OneStation => App.station_log app | AllStations => App.all_log app end.
Definition modify_log (f : LogStore.t -> LogStore.t) app : App.t :=
  match App.view app with
  | OneStation => app <| App.station_log ::= f |>
  | AllStations => app <| App.all_log ::= f |>
  end.
(** The station a row belongs to. *)
Definition entry_station app (e : LogEntry.t) : option str :=
  match App.view app with
  | AllStations => get_tag (LogEntry.seq e) (App.tags app)
  | OneStation => App.selected app
  end.
Definition connected_count app : Z := len (retain Summary.connected (App.stations app)).

(** ** The station list

    The list is sorted by id, so that the binary search finds the row of an id or its place. *)

Definition find_station (id : str) (l : list Summary.t) : option nat := position (fun s => Summary.id s == id) l.
Definition place (id : str) (l : list Summary.t) : nat :=
  length (retain (fun s => negb (str_leb id (Summary.id s))) l).
Definition summary app (id : str) : option Summary.t :=
  let? i := find_station id (App.stations app) in App.stations app !! i.
(** A change through [summary_mut]. *)
Definition modify_summary (id : str) (f : Summary.t -> Summary.t) app : App.t :=
  match find_station id (App.stations app) with
  | Some i => app <| App.stations ::= alter f i |>
  | None => app
  end.

Definition unfiltered app : bool := App.station_filter app == [].
Definition visible_len app : nat :=
  if unfiltered app then length (App.stations app) else length (App.matches app).
Definition visible_at app (row : nat) : option Summary.t :=
  if unfiltered app then App.stations app !! row
  else let? i := App.matches app !! row in App.stations app !! i.
(** The row of the selected station, if it is listed. *)
Definition cursor app : option nat :=
  let? id := App.selected app in
  if unfiltered app then find_station id (App.stations app)
  else position (fun i => is_some_and (fun s => Summary.id s == id) (App.stations app !! i)) (App.matches app).
Definition refilter app : App.t :=
  app <| App.matches :=
    if unfiltered app then []
    else retain (fun i => is_some_and (fun s => is_someb (fuzzy_score (App.station_filter app) (Summary.id s)))
                            (App.stations app !! i)) (seq 0 (length (App.stations app))) |>.

Definition reset_station_log app : App.t :=
  app <| App.station_log ::= fun old =>
           (new_log LOG_CAPACITY) <| LogStore.filter := LogStore.filter old |> <| LogStore.search := LogStore.search old |> |>
      <| App.station_tracker := ∅ |> <| App.dedupe := [] |>.
(** Selects a station and asks for everything about it. *)
Definition select (id : option str) app : App.t * list Effect.t :=
  if App.selected app == id then quietly app
  else
    let app := reset_station_log (app <| App.selected := id |> <| App.info := None |> <| App.state := None |>) in
    (app <| App.dirty := true |>, match id with Some id => [Effect.Load id] | None => [] end).
Definition select_row (row : nat) app : App.t * list Effect.t :=
  match visible_at app row with
  | Some s => select (Some (Summary.id s)) app
  | None => quietly app
  end.
Definition set_station_filter (text : str) app : App.t * list Effect.t :=
  let app := refilter (app <| App.station_filter := text |>) in
  match cursor app, visible_at app 0 with
  | None, Some first => select (Some (Summary.id first)) app
  | _, _ => quietly app
  end.
(** Moves the list cursor by [delta] rows. *)
Definition move_cursor (delta : Z) app : App.t * list Effect.t :=
  let n := visible_len app in
  if (n =? 0)%nat then quietly app
  else
    let next := match cursor app with
                | None => 0%nat
                | Some c => Nat.min (Z.to_nat (Z.of_nat c + delta)) (n - 1)
                end in
    select_row next app.

(** Adds a station to the list if it is new. *)
Definition ensure_station (id : str) (connected : bool) app : App.t :=
  match find_station id (App.stations app) with
  | Some _ => app
  | None =>
      let pos := place id (App.stations app) in
      let app := app <| App.stations ::= fun l => take pos l ++ new_summary id connected :: drop pos l |> in
      if unfiltered app then app else refilter app
  end.
Definition is_selected app (id : str) : bool := App.selected app == Some id.
Definition remove_station (id : str) app : App.t * list Effect.t :=
  match find_station id (App.stations app) with
  | None => quietly app
  | Some pos =>
      let was_selected := is_selected app id in
      let row := cursor app in
      let app := refilter (app <| App.stations ::= remove_at pos |> <| App.results ::= base.delete id |>) in
      let app := app <| App.dirty_states ::= fun l => l ∖ {[ id ]} |> in
      if was_selected then
        let app := reset_station_log (app <| App.selected := None |> <| App.info := None |> <| App.state := None |>) in
        let next := Nat.min (default 0%nat row) (visible_len app - 1) in
        match visible_at app next with
        | Some s => select (Some (Summary.id s)) app
        | None => quietly app
        end
      else quietly app
  end.

(** ** The logs *)

Definition log_direction (d : CsmsServer.Direction) : Direction.t :=
  match d with CsmsServer.In => Direction.In | CsmsServer.Out => Direction.Out end.
Definition push_frame (station : str) (direction : CsmsServer.Direction) (f : Frame.Frame.t) (into_station : bool) app : App.t :=
  let dir := log_direction direction in
  let key := station ++ KEY_SEP :: Frame.Frame.id f in
  let '(tracker, r) := record (App.now app) dir key f (App.all_tracker app) in
  let app := app <| App.all_tracker := tracker |> <| App.all_log ::= push (Event.Frame r) |> in
  let app := app <| App.tags ::= push_tag (LogStore.capacity (App.all_log app)) station |> in
  if into_station then
    let '(tracker, r) := record (App.now app) dir (Frame.Frame.id f) f (App.station_tracker app) in
    app <| App.station_tracker := tracker |> <| App.station_log ::= push (Event.Frame r) |>
  else app.
Definition push_line (station : str) (level : LogLevel.t) (text : str) app : App.t :=
  let r := LogRecord.mk (App.now app) level text in
  let app := app <| App.all_log ::= push (Event.Log r) |> in
  let app := app <| App.tags ::= push_tag (LogStore.capacity (App.all_log app)) station |> in
  if is_selected app station then app <| App.station_log ::= push (Event.Log r) |> else app.
Definition load_entry app (e : FrameEntry) : App.t :=
  let '(tracker, r) := record (entry_ts e) (log_direction (entry_direction e)) (Frame.Frame.id (entry_frame e))
                         (entry_frame e) (App.station_tracker app) in
  app <| App.station_tracker := tracker |> <| App.station_log ::= push (Event.Frame r) |>.
Definition load_history (history : list FrameEntry) app : App.t :=
  let app := fold_left load_entry history (reset_station_log app) in
  app <| App.dedupe := drop (Z.to_nat (saturating_sub (len history) DEDUPE_ENTRIES)) history |>
      <| App.dedupe_ticks := DEDUPE_TICKS |>.
(** Whether this live frame is one the history load already contained. *)
Definition is_duplicate (direction : CsmsServer.Direction) (f : Frame.Frame.t) app : App.t * bool :=
  match position (fun e => (entry_direction e == direction) && frame_eqb (entry_frame e) f) (App.dedupe app) with
  | Some i => (app <| App.dedupe ::= remove_at i |>, true)
  | None => (app, false)
  end.

(** The text of a log row for copying. *)
Definition entry_text app (e : LogEntry.t) : str :=
  let ts := format_time (lit "%Y-%m-%dT%H:%M:%S%.3fZ") (LogEntry.ts e) in
  let station := match entry_station app e with Some s => lit " [" ++ s ++ lit "]" | None => [] end in
  match frame e with
  | Some f =>
      ts ++ station ++ lit " " ++ (if FrameRecord.direction f == Direction.In then lit "<-" else lit "->")
         ++ lit " " ++ compact e
  | None => ts ++ station ++ lit " " ++ pretty e
  end.
(** [str::lines] *)
Definition strip_cr (s : str) : str := match rev s with 13 :: r => rev r | _ => s end.
Definition text_lines (s : str) : list str :=
  let pieces := split_on 10 s in
  map strip_cr (removelast pieces) ++ match last pieces with Some [] | None => [] | Some rest => [rest] end.
Definition entry_header app (e : LogEntry.t) : str :=
  let ts := format_time (lit "%Y-%m-%d %H:%M:%S%.3f UTC") (LogEntry.ts e) in
  let station := match entry_station app e with Some s => lit "  station=" ++ sanitize s | None => [] end in
  match frame e with
  | Some f =>
      let rtt := match LogEntry.rtt_ms e with Some ms => lit "  (" ++ to_string ms ++ lit " ms)" | None => [] end in
      let id := match FrameRecord.msg_id f with
                | Some k => default k (last (split_on KEY_SEP k))
                | None => lit "-"
                end in
      ts ++ lit "  "
         ++ (if FrameRecord.direction f == Direction.In then lit "station -> CSMS" else lit "CSMS -> station")
         ++ lit "  id=" ++ sanitize id ++ rtt ++ station
  | None => ts ++ station
  end.
(** Opens the detail popup for the selected log row. *)
Definition open_detail app : App.t :=
  match selected (log app) with
  | None => app
  | Some e =>
      let peer := match (let? p := LogEntry.peer e in get (log app) p) with
                  | Some p =>
                      [[]; lit "--- " ++ (if LogEntry.seq e <? LogEntry.seq p then lit "answer" else lit "request") ++ lit " ---";
                       entry_header app p] ++ map sanitize (text_lines (pretty p))
                  | None => []
                  end in
      let title := default (lit "log line") (let? f := frame e in FrameRecord.action f) in
      app <| App.mode := Mode.Detail (Detail.mk title (entry_header app e :: [] :: map sanitize (text_lines (pretty e)) ++ peer)
                                        0 (pretty e)) |>
  end.

(** The label of a log filter in this terminal, and the filters it cycles through. *)
Definition filter_label (f : LogFilter.t) : str :=
  match f with
  | LogFilter.Csms => lit "from stations"
  | LogFilter.Station => lit "lines"
  | other => LogFilter.label other
  end.
Definition next_filter (f : LogFilter.t) : LogFilter.t :=
  match f with
  | LogFilter.All => LogFilter.Calls
  | LogFilter.Calls => LogFilter.Errors
  | LogFilter.Errors => LogFilter.Csms
  | LogFilter.Csms | LogFilter.Station => LogFilter.All
  end.

End app.
End CsmsApp.

(** * CsmsActions: the commands of the CSMS terminal

    [actions.rs] of [kirby-csms-tui/src/]: when an action is available, what it opens or sends, and
    what becomes of a submitted form, a confirmed question and a finished command. *)

Module CsmsActions.
Import CsmsConfig CsmsServer CsmsTyped CsmsCommand TuiText CsmsForm LogView CsmsApp.

Section actions.
Context {J : SerdeJson} {T : JsonText} {L : LogText} {K : Chrono} {N : ScenarioRunner.NumberEq} {U : Unicode} {P : UiText}
  {F : CsmsFormat} {V : Schema.JsonSchema} {D : TypedWire} {C : CommandWire} {W : FormWire}.
Implicit Types (app : App.t).

(** ** Texts of answers *)

Definition pretty_json (v : json) : str := default (json_to_string v) (to_string_pretty v).
(** [Value::get] with a key, [Value::as_array], [Value::as_bool]. *)
Definition member (key : str) (v : json) : option json :=
  match v with Object fields => field key fields | _ => None end.
Definition as_array (v : json) : option (list json) := match v with Array items => Some items | _ => None end.
Definition as_bool (v : json) : option bool := match v with Bool b => Some b | _ => None end.
Definition text_member (key : str) (v : json) : str := default (lit "?") (member key v ≫= as_str).

Definition configuration_line (entry : json) : str :=
  let value := match member (lit "value") entry ≫= as_str with Some v => debug_str v | None => lit "(not set)" end in
  let ro := default false (member (lit "readonly") entry ≫= as_bool) in
  lit "  " ++ text_member (lit "key") entry ++ lit " = " ++ value ++ (if ro : bool then lit "  (readonly)" else []).
(** The lines of a [GetConfiguration] answer. *)
Definition configuration_lines (answer : json) : list str :=
  let keys := default [] (member (lit "configurationKey") answer ≫= as_array) in
  (to_string (len keys) ++ lit " keys") :: map configuration_line keys
    ++ match member (lit "unknownKey") answer ≫= as_array with
       | None | Some [] => []
       | Some unknown => lit "unknown keys:" :: map (fun k => lit "  " ++ default (lit "?") (as_str k)) unknown
       end.
(** The lines of a [GetInstalledCertificateIds] answer. *)
Fixpoint certificate_entries (i : Z) (entries : list json) : list str :=
  match entries with
  | [] => []
  | entry :: rest =>
      [to_string i ++ lit ". " ++ text_member (lit "hashAlgorithm") entry ++ lit "  serial " ++ text_member (lit "serialNumber") entry;
       lit "     issuerNameHash " ++ text_member (lit "issuerNameHash") entry;
       lit "     issuerKeyHash  " ++ text_member (lit "issuerKeyHash") entry] ++ certificate_entries (i + 1) rest
  end.
Definition certificate_lines (answer : json) : list str :=
  let entries := default [] (member (lit "certificateHashData") answer ≫= as_array) in
  (to_string (len entries) ++ lit " certificates") :: certificate_entries 1 entries.
(** The security events a station reported, newest first. *)
Definition security_events_detail (station : str) (state : CsmsState.StationState.t) : Detail.t :=
  let heading := to_string (CsmsState.StationState.security_events_total state) ++ lit " reported, the last "
                 ++ to_string (len (CsmsState.StationState.security_events state)) ++ lit " are kept (newest first)" in
  let line e :=
    let info := match CsmsState.SecurityEventRecord.tech_info e with Some t => lit "  " ++ t | None => [] end in
    sanitize (format_time (lit "%Y-%m-%d %H:%M:%S") (CsmsState.SecurityEventRecord.timestamp e) ++ lit "  "
              ++ CsmsState.SecurityEventRecord.event_type e ++ info) in
  let lines := heading :: map line (rev (CsmsState.StationState.security_events state)) in
  Detail.mk (lit "Security events of " ++ truncate (sanitize station) NOTICE_TEXT) lines 0 (join 10 lines).

(** Statuses that mean the station refused. *)
Definition refused (status : str) : bool :=
  any (fun s => s == status)
    [lit "Rejected"; lit "NotSupported"; lit "UnlockFailed"; lit "Failed"; lit "Unknown"; lit "NotImplemented";
     lit "NotFound"; lit "InvalidCertificate"; lit "RevokedCertificate"].

(** ** Which actions are available *)

Definition active_transactions app : list StopChoice.t :=
  match App.state app with
  | None => []
  | Some s =>
      map (fun t => StopChoice.mk (CsmsState.TransactionRecord.id t) (CsmsState.TransactionRecord.connector t)
                      (CsmsState.TransactionRecord.id_tag t))
        (retain is_active (rev (CsmsState.StationState.transactions s)))
  end.
(** Why an action cannot run now, or nothing when it can. *)
Definition when_ (b : bool) (text : str) : option str := if b then Some text else None.
Definition no_response_rules app : option str := when_ (Rules.actions (App.rules app) == []) (lit "no response rules").
Definition nothing_active app : option str := when_ (no_rules (App.rules app)) (lit "no rules or faults").
Definition reason_for app (id : ActionId.t) : option str :=
  match App.selected app with
  | None =>
      match id with
      | ActionId.Rule | ActionId.Fault => None
      | ActionId.RemoveRule => no_response_rules app
      | ActionId.ClearRules => nothing_active app
      | _ => Some (lit "no station selected")
      end
  | Some selected =>
      let connected := is_some_and Summary.connected (summary app selected) in
      match id with
      | ActionId.RemoteStop =>
          if negb connected then Some (lit "station is disconnected")
          else match active_transactions app with [] => Some (lit "no active transaction") | _ => None end
      | ActionId.SecurityEvents =>
          when_ (is_none_or (fun s => match CsmsState.StationState.security_events s with [] => true | _ => false end) (App.state app))
            (lit "no security events")
      | ActionId.Rule | ActionId.Fault | ActionId.CopyId => None
      | ActionId.RemoveRule => no_response_rules app
      | ActionId.ClearRules => nothing_active app
      | ActionId.Forget => when_ connected (lit "station is connected")
      | ActionId.Results =>
          match App.results app !! selected with
          | None | Some [] => Some (lit "no results yet")
          | Some _ => None
          end
      | _ => when_ (negb connected) (lit "station is disconnected")
      end
  end.

(** ** Running them *)

Definition open_palette app : App.t := app <| App.mode := Mode.Palette new_palette |>.
Definition open_form (f : Form.t) app : App.t * list Effect.t := quietly (app <| App.mode := Mode.Form f |>).
Definition send (station : str) (command : Command.t) app : App.t * list Effect.t :=
  (notify NoticeLevel.Info
     (lit "sending " ++ label command ++ lit " to " ++ truncate (sanitize station) NOTICE_TEXT ++ lit "...")
     (app <| App.pending ::= fun n => n + 1 |>),
   [Effect.Send station command]).
(** The lowest connector of the selected station that is not the station itself. *)
Definition first_connector app : option Z :=
  let? s := App.state app in
  min_by Z.ltb (retain (fun k => 1 <=? k) (map fst (map_to_list (CsmsState.StationState.connectors s)))).
Definition run_available app (id : ActionId.t) : App.t * list Effect.t :=
  let st := default [] (App.selected app) in
  match id with
  | ActionId.RemoteStart => open_form (remote_start_form st) app
  | ActionId.RemoteStop => open_form (remote_stop_form st (active_transactions app)) app
  | ActionId.Reset => open_form (reset_form st) app
  | ActionId.ChangeConfiguration => open_form (change_configuration_form st) app
  | ActionId.GetConfiguration => open_form (get_configuration_form st) app
  | ActionId.Trigger => open_form (trigger_form st) app
  | ActionId.Unlock => open_form (unlock_form st (first_connector app)) app
  | ActionId.Availability => open_form (availability_form st) app
  | ActionId.ClearCache => send st Command.ClearCache app
  | ActionId.SetProfile => open_form (set_profile_form st) app
  | ActionId.DataTransfer => open_form (data_transfer_form st) app
  | ActionId.GetLog => let '(app, request_id) := take_request_id app in open_form (get_log_form st request_id) app
  | ActionId.InstallCertificate => open_form (install_certificate_form st) app
  | ActionId.DeleteCertificate => open_form (delete_certificate_form st) app
  | ActionId.CertificateIds => open_form (get_installed_certificate_ids_form st) app
  | ActionId.ExtendedTrigger => open_form (extended_trigger_form st) app
  | ActionId.SignedFirmware =>
      let '(app, request_id) := take_request_id app in
      open_form (signed_update_firmware_form st request_id (App.now app)) app
  | ActionId.CertificateSigned => open_form (certificate_signed_form st) app
  | ActionId.ClearChargingProfile => open_form (clear_charging_profile_form st) app
  | ActionId.GetCompositeSchedule => open_form (get_composite_schedule_form st) app
  | ActionId.ReserveNow =>
      let '(app, reservation_id) := take_request_id app in
      open_form (reserve_now_form st reservation_id (App.now app)) app
  | ActionId.UpdateFirmware => open_form (update_firmware_form st (App.now app)) app
  | ActionId.GetDiagnostics => open_form (get_diagnostics_form st) app
  | ActionId.SendLocalList => open_form (send_local_list_form st) app
  | ActionId.SecurityEvents =>
      match App.state app with
      | Some state => quietly (app <| App.mode := Mode.Detail (security_events_detail st state) |>)
      | None => quietly app
      end
  | ActionId.Raw => open_form (raw_form st None) app
  | ActionId.Rule => open_form rule_form app
  | ActionId.RemoveRule => open_form (remove_rule_form (Rules.actions (App.rules app))) app
  | ActionId.Fault => open_form fault_form app
  | ActionId.ClearRules =>
      quietly (app <| App.mode := Mode.Confirm (mk_confirm (lit "Remove every response rule and pending fault?") ConfirmClearRules) |>)
  | ActionId.Forget =>
      quietly (app <| App.mode := Mode.Confirm (mk_confirm (lit "Forget station " ++ sanitize st ++ lit " and its state?")
                                                   (ConfirmForget st)) |>)
  | ActionId.CopyId => (app, [Effect.Copy st (lit "station id")])
  | ActionId.Results => quietly (app <| App.mode := Mode.Results (mk_results st 0) |>)
  end.
(** Runs an action; an unavailable one says why. *)
Definition run_action (id : ActionId.t) app : App.t * list Effect.t :=
  match reason_for app id with
  | Some why =>
      let label := match def_of id with Some d => def_label d | None => lit "action" end in
      quietly (notify NoticeLevel.Error (label ++ lit ": " ++ why) app)
  | None => run_available app id
  end.

(** A form was submitted successfully. *)
Definition submitted (form_station : str) (s : Submitted.t) app : App.t * list Effect.t :=
  match s with
  | Submitted.Send command =>
      if needs_confirm command then
        quietly (app <| App.mode := Mode.Confirm (mk_confirm
                   (lit "Send " ++ label command ++ lit " to " ++ sanitize form_station ++ lit "?")
                   (ConfirmSend form_station command)) |>)
      else send form_station command app
  | Submitted.Rule action payload =>
      (notify NoticeLevel.Success (lit "rule set for " ++ action) app, [Effect.Respond action payload])
  | Submitted.Fault action kind times payload =>
      (notify NoticeLevel.Success
         (lit "fault " ++ FaultKind.name kind ++ lit " x" ++ to_string times ++ lit " for " ++ action) app,
       [Effect.Inject action kind times payload])
  | Submitted.RemoveRule action =>
      (notify NoticeLevel.Success (lit "rule removed for " ++ action) app, [Effect.RemoveRule action])
  end.
Definition confirmed (action : ConfirmAction) app : App.t * list Effect.t :=
  match action with
  | ConfirmSend station command => send station command app
  | ConfirmForget station => (app, [Effect.Forget station])
  | ConfirmClearRules => (notify NoticeLevel.Success (lit "rules and faults cleared") app, [Effect.ClearRules])
  end.

(** ** Finished commands *)

(** The request with its secrets replaced. *)
Definition redacted_payload (command : Command.t) : json :=
  match Frame.Frame.redact_secrets (Frame.Frame.Call [] (CsmsCommand.action command) (payload command)) with
  | Frame.Frame.Call _ _ payload => payload
  | _ => Null
  end.
(** The lines of an answer, by what was asked. *)
Definition answer_lines (command : Command.t) (answer : json) : list str :=
  match command with
  | Command.GetConfiguration _ => map sanitize (configuration_lines answer) ++ [[]; lit "--- raw answer ---"]
  | Command.GetInstalledCertificateIds _ => map sanitize (certificate_lines answer) ++ [[]; lit "--- raw answer ---"]
  | _ => []
  end.
Definition command_done (station : str) (command : Command.t) (outcome : result json str) app : App.t :=
  let app := app <| App.pending ::= fun n => saturating_sub n 1 |> in
  let label := label command in
  let who := truncate (sanitize station) NOTICE_TEXT in
  let request := [format_time (lit "%H:%M:%S") (App.now app) ++ lit "  " ++ sanitize station ++ lit "  " ++ label;
                  []; lit "--- request ---"] ++ map sanitize (text_lines (pretty_json (redacted_payload command))) in
  let '(ok, summary_text, level, copy, content, lines) :=
    match outcome with
    | Ok answer =>
        let status := member (lit "status") answer ≫= as_str in
        let text := match status with Some s => sanitize s | None => lit "ok" end in
        let level := if is_some_and refused status then NoticeLevel.Error else NoticeLevel.Success in
        let body := pretty_json answer in
        (true, text, level, body, answer_is_content command answer,
         request ++ [[]; lit "--- answer ---"] ++ answer_lines command answer ++ map sanitize (text_lines body))
    | Err e =>
        (false, truncate (sanitize e) NOTICE_TEXT, NoticeLevel.Error, e, false,
         request ++ [[]; lit "--- error ---"; sanitize e])
    end in
  let lines := take RESULT_LINES lines in
  let app := notify level (label ++ lit " on " ++ who ++ lit ": " ++ summary_text) app in
  match summary app station with
  | None => app
  | Some _ =>
      let r := ResultRecord.mk (App.now app) label ok summary_text lines copy in
      let app :=
        match App.mode app with
        | Mode.Normal =>
            if content && is_selected app station then app <| App.mode := Mode.Detail (result_detail r) |> else app
        | _ => app
        end in
      app <| App.results ::= fun m => <[station := take RESULTS_PER_STATION (r :: default [] (m !! station))]> m |>
  end.
(** The last results of a station, newest first. *)
Definition results_of app (station : str) : list ResultRecord.t := default [] (App.results app !! station).
End actions.
End CsmsActions.
