(* ===== verification/CsmsLoop.v ===== *)
(** * CsmsLoop: the keys, the messages and the run loop of the CSMS terminal

    [keys.rs], [update] of [app.rs], and [execute] and [drive] of [lib.rs] in
    [kirby-csms-tui/src/]. An effect is performed in an instant on the registry of
    [CsmsServer.v]; between two steps of the loop anything may happen to the registry. Drawing and
    the clipboard are left out. *)

From stdpp Require Import strings gmap.
From S2P Require Import Prelude Text Time Types Messages SecurityMessages Frame Actions Schema Interface CsmsState CsmsConfig CsmsServer CsmsTyped CsmsCommand TuiText CsmsForm ScenarioRunner LogView CsmsApp.
Local Open Scope Z_scope.

Module CsmsLoop.
Import CsmsConfig CsmsServer CsmsTyped CsmsCommand TuiText CsmsForm LogView CsmsApp CsmsActions.

(** Rows a page key moves. *)
Definition PAGE : Z := 10.
Definition ch (s : string) : char := default 0 (head (lit s)).

(** [BTreeSet] in order, [sort_by] of the ids. *)
Definition in_order (s : gset str) : list str := map fst (btree_iter (gset_to_gmap tt s)).
Definition summary_le (a b : Summary.t) : Prop := str_leb (Summary.id a) (Summary.id b) = true.
#[export] Instance summary_le_dec : RelDecision summary_le.
Proof. intros a b. unfold summary_le. apply _. Defined.

Section keys.
Context {J : SerdeJson} {T : JsonText} {L : LogText} {K : Chrono} {N : ScenarioRunner.NumberEq} {U : Unicode} {P : UiText}
  {F : CsmsFormat} {V : Schema.JsonSchema} {D : TypedWire} {C : CommandWire} {W : FormWire}.
Implicit Types (app : App.t).

(** ** Keys *)

Definition set_mode (m : Mode.t) app : App.t := app <| App.mode := m |>.
(** Applies the text of an input live. *)
Definition apply_input (t : InputTarget) (text : str) app : App.t * list Effect.t :=
  match t with
  | StationList => set_station_filter text app
  | LogSearch => quietly (modify_log (set_search text) app)
  end.
Definition open_input (t : InputTarget) app : App.t :=
  let current := match t with StationList => App.station_filter app | LogSearch => LogStore.search (log app) end in
  set_mode (Mode.Input (mk_input t (new_input current))) app.
Definition input_target_for_focus (f : Focus) : InputTarget :=
  match f with Stations => StationList | LogPane => LogSearch end.
Definition step_rows (delta : Z) app : App.t * list Effect.t :=
  match App.focus app with
  | Stations => move_cursor delta app
  | LogPane => quietly (modify_log (move_selection delta) app)
  end.
Definition copy_row app : App.t * list Effect.t :=
  match LogView.selected (log app) with
  | Some e => (app, [Effect.Copy (entry_text app e) (lit "row")])
  | None => quietly app
  end.
Definition copy_visible app : App.t * list Effect.t :=
  match flat_map (fun e => entry_text app e ++ [10]) (visible (log app)) with
  | [] => quietly app
  | text => (app, [Effect.Copy text (lit "visible rows")])
  end.
Definition toggle_view app : App.t :=
  match App.view app with
  | OneStation => notify NoticeLevel.Info (lit "log: all stations") (app <| App.view := AllStations |>)
  | AllStations => notify NoticeLevel.Info (lit "log: selected station") (app <| App.view := OneStation |>)
  end.
Definition cycle_filter app : App.t :=
  let next := next_filter (LogStore.filter (log app)) in
  notify NoticeLevel.Info (lit "filter: " ++ filter_label next) (modify_log (set_filter next) app).
Definition pause app : App.t :=
  let app := modify_log toggle_follow app in
  notify NoticeLevel.Info (if LogStore.follow (log app) then lit "following" else lit "paused") app.
Definition escape app : App.t * list Effect.t :=
  if negb (LogStore.search (log app) == [])
  then quietly (notify NoticeLevel.Info (lit "search cleared") (modify_log (set_search []) app))
  else if negb (unfiltered app)
  then then_ (set_station_filter [] app) (fun app => quietly (notify NoticeLevel.Info (lit "filter cleared") app))
  else quietly app.

Definition normal_char (c : char) app : App.t * list Effect.t :=
  if c =? ch "q" then quietly (app <| App.quit := true |>)
  else if c =? ch "?" then quietly (set_mode Mode.Help app)
  else if c =? ch ":" then quietly (open_palette app)
  else if c =? ch "/" then quietly (open_input (input_target_for_focus (App.focus app)) app)
  else if (c =? ch "s") && (App.focus app == LogPane) then quietly (open_input LogSearch app)
  else if c =? ch "k" then step_rows (-1) app
  else if c =? ch "j" then step_rows 1 app
  else if c =? ch "G" then quietly (modify_log follow_tail app)
  else if c =? ch "a" then quietly (toggle_view app)
  else if c =? ch "f" then quietly (cycle_filter app)
  else if c =? ch "p" then quietly (pause app)
  else if c =? ch "y" then copy_row app
  else if c =? ch "Y" then copy_visible app
  else match by_key c with Some id => run_action id app | None => quietly app end.
Definition normal (key : Key) app : App.t * list Effect.t :=
  if key_ctrl key || key_alt key then quietly app
  else
    match key_code key with
    | PageUp => step_rows (- PAGE) app
    | PageDown => step_rows PAGE app
    | Plain (KeyCode.Char c) => normal_char c app
    | Plain (KeyCode.Tab | KeyCode.Right) => quietly (app <| App.focus := LogPane |>)
    | Plain (KeyCode.BackTab | KeyCode.Left) => quietly (app <| App.focus := Stations |>)
    | Plain KeyCode.Up => step_rows (-1) app
    | Plain KeyCode.Down => step_rows 1 app
    | Plain KeyCode.Home =>
        match App.focus app with
        | Stations => select_row 0 app
        | LogPane => quietly (modify_log select_first app)
        end
    | Plain KeyCode.End_ =>
        match App.focus app with
        | Stations => select_row (visible_len app - 1) app
        | LogPane => quietly (modify_log follow_tail app)
        end
    | Plain KeyCode.Esc => escape app
    | Plain KeyCode.Enter => quietly (match App.focus app with LogPane => open_detail app | Stations => app end)
    | _ => quietly app
    end.

(** The text after an editing key; nothing when the key ends the input. *)
Definition edit_text (key : Key) (i : TextInput.t) : TextInput.t :=
  match key_code key with
  | Plain (KeyCode.Char c) =>
      if (c =? ch "u") && key_ctrl key then new_input []
      else if key_ctrl key || key_alt key then i
      else insert_char c i
  | Plain KeyCode.Backspace => backspace i
  | Plain KeyCode.Delete => delete i
  | Plain KeyCode.Left => left i
  | Plain KeyCode.Right => right i
  | Plain KeyCode.Home => home i
  | Plain KeyCode.End_ => end_ i
  | _ => i
  end.
Definition text_input (i : Input) (key : Key) app : App.t * list Effect.t :=
  match key_code key with
  | Plain KeyCode.Esc => apply_input (target i) [] app
  | Plain KeyCode.Enter =>
      let n := match target i with
               | StationList => Z.of_nat (visible_len app)
               | LogSearch => visible_count (log app)
               end in
      quietly (if TextInput.text (input_text i) == [] then app
               else notify NoticeLevel.Info (to_string n ++ lit " matching rows") app)
  | _ =>
      let text := edit_text key (input_text i) in
      then_ (apply_input (target i) (TextInput.text text) app)
        (fun app => quietly (set_mode (Mode.Input (mk_input (target i) text)) app))
  end.

Definition detail_mode (d : Detail.t) (key : Key) app : App.t * list Effect.t :=
  let max := saturating_sub (len (Detail.lines d)) 1 in
  let scrolled f := quietly (set_mode (Mode.Detail (d <| Detail.scroll ::= f |>)) app) in
  let up n := scrolled (fun s => saturating_sub s n) in
  let down n := scrolled (fun s => Z.min (s + n) max) in
  let stay := scrolled (fun s => s) in
  match key_code key with
  | Plain (KeyCode.Esc | KeyCode.Enter) => quietly app
  | Plain KeyCode.Up => up 1
  | Plain KeyCode.Down => down 1
  | PageUp => up 10
  | PageDown => down 10
  | Plain KeyCode.Home => scrolled (fun _ => 0)
  | Plain KeyCode.End_ => scrolled (fun _ => max)
  | Plain (KeyCode.Char c) =>
      if c =? ch "q" then quietly app
      else if c =? ch "k" then up 1
      else if c =? ch "j" then down 1
      else if c =? ch "g" then scrolled (fun _ => 0)
      else if c =? ch "G" then scrolled (fun _ => max)
      else if (c =? ch "c") || (c =? ch "y") then (stay.1, [Effect.Copy (Detail.copy d) (lit "detail")])
      else stay
  | _ => stay
  end.

Definition form_mode (f : Form.t) (key : Key) app : App.t * list Effect.t :=
  let '(f, event) := handle_key (form_key key) f in
  match event with
  | FormEvent.None => quietly (set_mode (Mode.Form f) app)
  | FormEvent.Cancel => quietly app
  | FormEvent.Submit =>
      match submit f with
      | (f, Some s) => submitted (Form.station f) s app
      | (f, None) => quietly (set_mode (Mode.Form f) app)
      end
  end.

Definition results_mode (l : ResultsList) (key : Key) app : App.t * list Effect.t :=
  let rows := results_of app (results_station l) in
  let max := saturating_sub (len rows) 1 in
  let moved f := quietly (set_mode (Mode.Results (mk_results (results_station l) (f (results_selected l)))) app) in
  match key_code key with
  | Plain KeyCode.Esc => quietly app
  | Plain KeyCode.Up => moved (fun s => saturating_sub s 1)
  | Plain KeyCode.Down => moved (fun s => Z.min (s + 1) max)
  | Plain KeyCode.Home => moved (fun _ => 0)
  | Plain KeyCode.End_ => moved (fun _ => max)
  | Plain KeyCode.Enter =>
      quietly (match rows !! Z.to_nat (results_selected l) with
               | Some r => set_mode (Mode.Detail (result_detail r)) app
               | None => app
               end)
  | Plain (KeyCode.Char c) =>
      if (c =? ch "q") || (c =? ch "r") then quietly app
      else if c =? ch "k" then moved (fun s => saturating_sub s 1)
      else if c =? ch "j" then moved (fun s => Z.min (s + 1) max)
      else if c =? ch "g" then moved (fun _ => 0)
      else if c =? ch "G" then moved (fun _ => max)
      else moved (fun s => s)
  | _ => moved (fun s => s)
  end.

Definition palette_key (p : Palette.t) (key : Key) app : App.t * list Effect.t :=
  let stay p := quietly (set_mode (Mode.Palette p) app) in
  match key_code key with
  | Plain KeyCode.Esc => quietly app
  | Plain KeyCode.Enter => match palette_chosen p with Some id => run_action id app | None => quietly app end
  | Plain KeyCode.Up => stay (move_by (-1) p)
  | Plain KeyCode.Down => stay (move_by 1 p)
  | Plain (KeyCode.Char c) =>
      if key_ctrl key then
        if c =? ch "p" then stay (move_by (-1) p)
        else if c =? ch "n" then stay (move_by 1 p)
        else if c =? ch "u" then stay (refresh (p <| Palette.query := empty_input |>))
        else stay p
      else stay (refresh (p <| Palette.query ::= insert_char c |>))
  | Plain KeyCode.Backspace => stay (refresh (p <| Palette.query ::= backspace |>))
  | Plain KeyCode.Left => stay (p <| Palette.query ::= left |>)
  | Plain KeyCode.Right => stay (p <| Palette.query ::= right |>)
  | _ => stay p
  end.

Definition is_char (key : Key) (s : string) : bool :=
  match key_code key with Plain (KeyCode.Char c) => c =? ch s | _ => false end.
Definition handle (key : Key) app : App.t * list Effect.t :=
  if key_ctrl key && is_char key "c" then quietly (app <| App.quit := true |>)
  else
    let mode := App.mode app in
    let app := set_mode Mode.Normal app in
    match mode with
    | Mode.Normal => normal key app
    | Mode.Input i => text_input i key app
    | Mode.Help =>
        let closes := is_char key "?" || is_char key "q"
                      || match key_code key with Plain (KeyCode.Esc | KeyCode.Enter) => true | _ => false end in
        quietly (if closes then app else set_mode Mode.Help app)
    | Mode.Detail d => detail_mode d key app
    | Mode.Palette p => palette_key p key app
    | Mode.Form f => form_mode f key app
    | Mode.Confirm c =>
        if is_char key "y" || is_char key "Y" then confirmed (confirm_action c) app
        else quietly (notify NoticeLevel.Info (lit "cancelled") app)
    | Mode.Results l => results_mode l key app
    end.

(** Pasted text goes into an open input, form or palette. *)
Definition paste_text (text : str) app : App.t * list Effect.t :=
  let one_line := map (fun c => if (c =? 10) || (c =? 13) then 32 else c) text in
  match App.mode app with
  | Mode.Input i =>
      let input := insert_str one_line (input_text i) in
      apply_input (target i) (TextInput.text input) (set_mode (Mode.Input (mk_input (target i) input)) app)
  | Mode.Form f => quietly (set_mode (Mode.Form (paste one_line f)) app)
  | Mode.Palette p => quietly (set_mode (Mode.Palette (refresh (p <| Palette.query ::= insert_str one_line |>))) app)
  | _ => quietly app
  end.

(** ** Events of the CSMS *)

Definition reason_text (r : DisconnectReason) : str :=
  match r with
  | Closed => lit "closed"
  | Replaced => lit "replaced by a new connection"
  | Shutdown => lit "server shutdown"
  | Injected => lit "closed by an injected fault"
  | Forgotten => lit "forgotten"
  | PingTimeout => lit "ping timeout"
  end.
Definition mark_info (station : str) app : App.t :=
  if is_selected app station then app <| App.info_dirty := true |> else app.
Definition on_event (event : CsmsEvent.t) app : App.t * list Effect.t :=
  match event with
  | CsmsEvent.Connected station =>
      let app := match find_station station (App.stations app) with
                 | Some _ => modify_summary station (fun s => s <| Summary.connected := true |>) app
                 | None => ensure_station station true app
                 end in
      let app := push_line station LogLevel.Success (lit "connected") app in
      then_ (match App.selected app with None => select (Some station) app | Some _ => quietly app end)
        (fun app => quietly (mark_info station app))
  | CsmsEvent.Disconnected station reason =>
      let app := ensure_station station false app in
      let app := modify_summary station (fun s =>
                   s <| Summary.connected := false |>
                     <| Summary.replaced := match reason with Replaced => true | _ => false end |>) app in
      quietly (mark_info station (push_line station LogLevel.Warn (lit "disconnected: " ++ reason_text reason) app))
  | CsmsEvent.Frame station direction f =>
      let app := match direction with
                 | CsmsServer.In => app <| App.frames_in ::= fun n => u64_wrapping_add n 1 |>
                 | CsmsServer.Out => app <| App.frames_out ::= fun n => u64_wrapping_add n 1 |>
                 end in
      let selected := is_selected app station in
      let '(app, duplicate) := if selected then is_duplicate direction f app else (app, false) in
      let app := push_frame station direction f (selected && negb duplicate) app in
      quietly (if selected && match direction with CsmsServer.In => true | CsmsServer.Out => false end
               then app <| App.info_dirty := true |> else app)
  | CsmsEvent.Malformed station text =>
      quietly (push_line station LogLevel.Warn (lit "malformed frame: " ++ sanitize text) app)
  | CsmsEvent.Forgotten station => remove_station station (push_line station LogLevel.Warn (lit "forgotten") app)
  | CsmsEvent.StateChanged station =>
      quietly ((ensure_station station false app) <| App.dirty_states ::= fun l => {[ station ]} ∪ l |>)
  | CsmsEvent.AuthFailed station remote_addr reason =>
      let app := app <| App.auth_failures ::= fun n => u64_wrapping_add n 1 |> <| App.dirty := true |> in
      let due := is_none_or (fun t => td_seconds 1 <=? dt_sub (App.now app) t) (App.last_auth_notice app) in
      quietly (
        if due then
          let who := match station with Some s => truncate (sanitize s) 40 | None => lit "unknown station" end in
          notify NoticeLevel.Error
            (lit "refused " ++ who ++ lit " from " ++ addr_text remote_addr ++ lit ": " ++ sanitize reason)
            (app <| App.last_auth_notice := Some (App.now app) |>)
        else app)
  end.

(** ** Messages *)

Definition tick (now : DateTime) app : App.t * list Effect.t :=
  let later := negb (timestamp now =? timestamp (App.now app)) in
  let app := if later then app <| App.dirty := true |> else app in
  let watch := if later && negb (no_rules (App.rules app)) then [Effect.ReadRules] else [] in
  let app := app <| App.now := now |> in
  let app := match App.notice app with
             | Some n =>
                 let left := saturating_sub (ttl n) 1 in
                 if left =? 0 then app <| App.notice := None |> <| App.dirty := true |>
                 else app <| App.notice := Some (mk_notice (notice_text n) (notice_level n) left) |>
             | None => app
             end in
  let app := app <| App.dedupe_ticks ::= fun n => saturating_sub n 1 |> in
  let app := if App.dedupe_ticks app =? 0 then app <| App.dedupe := [] |> else app in
  if negb (bool_decide (App.dirty_states app = ∅)) || App.info_dirty app then
    (app <| App.dirty_states := ∅ |> <| App.info_dirty := false |>,
     watch ++ [Effect.Refresh (in_order (App.dirty_states app)) (if App.info_dirty app then App.selected app else None)])
  else (app, watch).

(** The state of a station that was read: the row of the list, and the pane when it is selected. *)
Definition read_state (read : str * option CsmsState.StationState.t) app : App.t :=
  match read with
  | (id, Some state) => modify_summary id (apply_state state) app
  | (_, None) => app
  end.
Definition refreshed (read : str * option CsmsState.StationState.t) app : App.t :=
  let app := read_state read app in
  match read with
  | (id, Some state) => if is_selected app id then app <| App.state := Some state |> else app
  | (_, None) => app
  end.
Definition listed (replaced : list str) (i : StationInfo.t) : Summary.t :=
  (new_summary (StationInfo.id i) (StationInfo.connected i))
    <| Summary.replaced := any (fun id => id == StationInfo.id i) replaced |>.
Definition resync (infos : list StationInfo.t) (states : list (str * option CsmsState.StationState.t)) app
  : App.t * list Effect.t :=
  let replaced := map Summary.id (retain Summary.replaced (App.stations app)) in
  let app := app <| App.stations := merge_sort summary_le (map (listed replaced) infos) |> in
  let app := refilter (fold_left (fun app read => read_state read app) states app) in
  let app := app <| App.dirty_states := ∅ |> in
  let keep := let? id := App.selected app in if is_someb (find_station id (App.stations app)) then Some id else None in
  let app := app <| App.selected := None |> in
  select (option_or keep (Summary.id <$> visible_at app 0)) app.

(** The only way the model changes. *)
Definition update (msg : Msg.t) app : App.t * list Effect.t :=
  let app := match msg with Msg.Tick _ => app | _ => app <| App.dirty := true |> end in
  match msg with
  | Msg.Press key => if released key then quietly app else handle key app
  | Msg.Paste text => paste_text text app
  | Msg.Resize w h => quietly (app <| App.size := (w, h) |>)
  | Msg.Signal => quietly (app <| App.quit := true |>)
  | Msg.Tick now => tick now app
  | Msg.Event event => on_event event app
  | Msg.Lagged n =>
      (notify NoticeLevel.Error (to_string n ++ lit " events dropped, resyncing") app, [Effect.Resync])
  | Msg.Closed => quietly (notify NoticeLevel.Error (lit "server stopped") (app <| App.stopped := true |>))
  | Msg.Resynced infos states => resync infos states app
  | Msg.Loaded id history info state =>
      quietly (
        if is_selected app id then
          let app := (load_history history app) <| App.info := info |> in
          match state with
          | Some state => (modify_summary id (apply_state state) app) <| App.state := Some state |>
          | None => app
          end
        else app)
  | Msg.Refreshed states info =>
      let app := fold_left (fun app read => refreshed read app) states app in
      quietly match info with
              | Some (id, info) => if is_selected app id then app <| App.info := info |> else app
              | None => app
              end
  | Msg.Notice level text => quietly (notify level text app)
  | Msg.CommandDone station command outcome => quietly (command_done station command outcome app)
  | Msg.Rules rules => quietly (app <| App.rules := rules |>)
  end.
End keys.

(** ** The effects *)

Section loop.
Context {J : SerdeJson} {T : JsonText} {L : LogText} {K : Chrono} {N : ScenarioRunner.NumberEq} {U : Unicode} {P : UiText}
  {F : CsmsFormat} {V : Schema.JsonSchema} {D : TypedWire} {C : CommandWire} {W : FormWire} {R : CsmsState.CsmsWire}.
Implicit Types (s : Server.t).

(** [CsmsHandle::stations], [station], [state] and [history]. *)
Definition station_infos s : list StationInfo.t := map (fun e => StationRec.info e.2) (btree_iter (Server.stations s)).
Definition station_info s (id : str) : option StationInfo.t := StationRec.info <$> CsmsServer.get s id.
Definition station_state s (id : str) : option CsmsState.StationState.t := StationRec.state <$> CsmsServer.get s id.
Definition station_history s (id : str) : option (list FrameEntry) :=
  (fun r => map (fun h => mk_entry (HistoryItem.ts h) (HistoryItem.direction h) (HistoryItem.frame h)) (StationRec.history r))
    <$> CsmsServer.get s id.

Definition resync_msg s : Msg.t :=
  let infos := station_infos s in
  Msg.Resynced infos (map (fun i => (StationInfo.id i, station_state s (StationInfo.id i))) infos).
Definition rules_msg s : Msg.t := Msg.Rules (Rules.mk (responder_actions s) (faults_remaining s)).
Definition fault_for (action : str) (kind : FaultKind.t) (n : Z) (payload : json) : Fault :=
  times match kind with
        | FaultKind.CallError => call_error action
        | FaultKind.Silence => silence action
        | FaultKind.Close => close action
        | FaultKind.InvalidPayload => invalid_payload action payload
        end n.

(** Performs one effect: the registry after it, the messages it produces and the command it spawns.
    [copied] is what the clipboard says. *)
Definition execute (copied : NoticeLevel.t * str) (e : Effect.t) s
  : Server.t * list Msg.t * option (str * Command.t) :=
  match e with
  | Effect.Send station command => (s, [], Some (station, command))
  | Effect.Respond action payload =>
      let s := respond s action (fun _ => ReplyResult payload) in (s, [rules_msg s], None)
  | Effect.Inject action kind times payload =>
      let s := inject s (fault_for action kind times payload) in (s, [rules_msg s], None)
  | Effect.RemoveRule action => let s := clear_responder s action in (s, [rules_msg s], None)
  | Effect.ClearRules =>
      let s := clear_faults s in
      let s := fold_left clear_responder (responder_actions s) s in (s, [rules_msg s], None)
  | Effect.ReadRules => (s, [rules_msg s], None)
  | Effect.Forget id =>
      let '(s, found) := forget s id in
      (s, [Msg.Notice NoticeLevel.Success (if found : bool then lit "forgot " ++ sanitize id else lit "station already gone")], None)
  | Effect.Load id =>
      (s, [Msg.Loaded id (default [] (station_history s id)) (station_info s id) (station_state s id)], None)
  | Effect.Refresh states info =>
      (s, [Msg.Refreshed (map (fun id => (id, station_state s id)) states)
             ((fun id => (id, station_info s id)) <$> info)], None)
  | Effect.Resync => (s, [resync_msg s], None)
  | Effect.Copy text what => (s, [Msg.Notice copied.1 copied.2], None)
  end.

End loop.

(** ** The run loop

    The terminal next to the registry: [seen] events of the registry have been received, oldest
    first; [queue] are the messages effects have produced; [effects] is what is left to perform of
    the last update; [tasks] are the commands under way. *)

Module Loop.
Section record.
Context {J : SerdeJson}.
Record t : Type := mk {
  server : Server.t;
  app : App.t;
  seen : nat;
  queue : list Msg.t;
  effects : list Effect.t;
  tasks : list (str * Command.t);
}.
#[export] Instance eta : Eta t := fun l => mk (server l) (app l) (seen l) (queue l) (effects l) (tasks l).
End record.
End Loop.
Export (hints) Loop.

Section steps.
Context {J : SerdeJson} {T : JsonText} {L : LogText} {K : Chrono} {N : ScenarioRunner.NumberEq} {U : Unicode} {P : UiText}
  {F : CsmsFormat} {V : Schema.JsonSchema} {D : TypedWire} {C : CommandWire} {W : FormWire} {R : CsmsState.CsmsWire}.
Implicit Types (l : Loop.t).

(** The events of the registry, oldest first. *)
Definition all_events (s : Server.t) : list CsmsEvent.t := rev (Server.events s).
(** One round: the update, whose effects are performed next. *)
Definition round (msg : Msg.t) l : Loop.t :=
  let '(app, fx) := update msg (Loop.app l) in l <| Loop.app := app |> <| Loop.effects := fx |>.
(** The loop waits: nothing is queued and nothing is left to perform. *)
Definition idle l : Prop := Loop.effects l = [] /\ Loop.queue l = [] /\ App.quit (Loop.app l) = false.
(** What comes from outside at once: the keyboard, the clock and the signal. *)
Definition outside (msg : Msg.t) : bool :=
  match msg with
  | Msg.Press _ | Msg.Paste _ | Msg.Resize _ _ | Msg.Tick _ | Msg.Signal => true
  | _ => false
  end.

Inductive step : Loop.t -> Loop.t -> Prop :=
(** Anything happens to the registry: an operation, or an event of the connections alone. *)
| step_server l o : step l (l <| Loop.server := CsmsServer.step (Loop.server l) o |>)
| step_malformed l station text :
    step l (l <| Loop.server ::= fun s => emit s (CsmsEvent.Malformed station text) |>)
| step_refused l station addr reason :
    step l (l <| Loop.server ::= fun s => emit s (CsmsEvent.AuthFailed station addr reason) |>)
(** An effect is performed. *)
| step_effect l e fx copied s msgs task :
    Loop.effects l = e :: fx -> execute copied e (Loop.server l) = (s, msgs, task) ->
    step l (l <| Loop.server := s |> <| Loop.effects := fx |> <| Loop.queue ::= fun q => q ++ msgs |>
              <| Loop.tasks ::= fun ts => ts ++ match task with Some t => [t] | None => [] end |>)
(** A message that an effect has produced. *)
| step_queue l msg q :
    Loop.effects l = [] -> App.quit (Loop.app l) = false -> Loop.queue l = msg :: q ->
    step l (round msg (l <| Loop.queue := q |>))
| step_outside l msg : idle l -> outside msg = true -> step l (round msg l)
(** The next event; or the receiver has fallen behind and goes on at a later one. *)
| step_event l e :
    idle l -> all_events (Loop.server l) !! Loop.seen l = Some e ->
    step l (round (Msg.Event e) (l <| Loop.seen ::= S |>))
| step_lagged l n :
    idle l -> (Loop.seen l + n <= length (all_events (Loop.server l)))%nat ->
    step l (round (Msg.Lagged (Z.of_nat n)) (l <| Loop.seen ::= fun k => (k + n)%nat |>))
(** The server is gone, and all its events have been received. *)
| step_closed l :
    idle l -> Loop.seen l = length (all_events (Loop.server l)) -> step l (round Msg.Closed l)
(** A command is answered. *)
| step_done l before station command after outcome :
    idle l -> Loop.tasks l = before ++ (station, command) :: after ->
    step l (round (Msg.CommandDone station command outcome) (l <| Loop.tasks := before ++ after |>)).

(** The terminal is started at a registry that has come about by operations: it subscribes, more
    happens, and it reads the registry. *)
Definition first_app (c : CsmsConfig) (url : str) (now : DateTime) (size : Z * Z) : App.t :=
  (new_app url now) <| App.security_profile := CsmsConfig.number (profile (security c)) |> <| App.size := size |>.
Inductive reachable (c : CsmsConfig) (url : str) (now : DateTime) : Loop.t -> Prop :=
| reach_start ops more size :
    let s := CsmsServer.run c (ops ++ more) in
    reachable c url now
      (Loop.mk s (first_app c url now size) (length (all_events (CsmsServer.run c ops))) [resync_msg s] [] [])
| reach_step l l' : reachable c url now l -> step l l' -> reachable c url now l'.
End steps.
End CsmsLoop.
