(* ===== verification/CsmsUi.v ===== *)
(** * CsmsUi: what the terminal of the CSMS guarantees

    The theorems on [CsmsLoop.v]: the list of stations follows the registry through lost events,
    late events and its own commands, and no command leaves the terminal that was not asked for. *)

From stdpp Require Import strings gmap.
From S2P Require Import Prelude Text Time Types Messages SecurityMessages Frame Actions Schema Interface CsmsState CsmsConfig CsmsServer ScenarioRunner ScenarioRuns TuiText CsmsTyped CsmsCommand CsmsForm FormSessions LogView CsmsApp CsmsLoop.
Local Open Scope Z_scope.

Module CsmsUi.
Import CsmsConfig CsmsServer CsmsTyped CsmsCommand TuiText CsmsForm LogView CsmsApp CsmsActions CsmsLoop.

Section ui.
Context {J : SerdeJson} {T : JsonText} {L : LogText} {K : Chrono} {N : ScenarioRunner.NumberEq} {U : Unicode} {P : UiText}
  {F : CsmsFormat} {V : Schema.JsonSchema} {D : TypedWire} {C : CommandWire} {W : FormWire} {R : CsmsState.CsmsWire}.
Implicit Types (s : Server.t) (app : App.t) (k : str).

(** ** What events say of one station

    Whether a station is listed, and as connected. *)

Definition hear k (e : CsmsEvent.t) (b : option bool) : option bool :=
  match e with
  | CsmsEvent.Connected id => if id == k then Some true else b
  | CsmsEvent.Disconnected id _ => if id == k then Some false else b
  | CsmsEvent.Forgotten id => if id == k then None else b
  | CsmsEvent.StateChanged id => if id == k then Some (default false b) else b
  | _ => b
  end.
Definition replay k (es : list CsmsEvent.t) (b : option bool) : option bool := fold_left (fun b e => hear k e b) es b.

(** Hearing a stretch of events again changes nothing. *)
Lemma replay_shape k es : (exists c, forall b, replay k es b = c) \/ (forall b, replay k es b = b)
  \/ (forall b, replay k es b = Some (default false b)).
Proof.
  induction es as [|e es IH] using rev_ind; [right; by left|].
  assert (Hs : forall b, replay k (es ++ [e]) b = hear k e (replay k es b)) by (intros b; unfold replay; by rewrite fold_left_app).
  assert (He : (exists c, forall b, hear k e b = c) \/ (forall b, hear k e b = b) \/ (forall b, hear k e b = Some (default false b))).
  { destruct e as [id|id ?|? ? ?|? ?|id|id|? ? ?]; simpl; try (right; by left); destruct (id == k); eauto. }
  destruct He as [[c He]|[He|He]]; [left; exists c; intros b; by rewrite Hs, He| |].
  - destruct IH as [[c IH]|[IH|IH]]; [left; exists c|right; left|right; right]; intros b; by rewrite Hs, He, IH.
  - destruct IH as [[c IH]|[IH|IH]]; [left; exists (Some (default false c))|right; right|right; right]; intros b; by rewrite Hs, He, IH.
Qed.
Lemma replay_again k es b : replay k es (replay k es b) = replay k es b.
Proof. destruct (replay_shape k es) as [[c H]|[H|H]]; by rewrite !H. Qed.

(** ** The registry is what its events say *)

Definition online s k : option bool := (fun r => StationInfo.connected (StationRec.info r)) <$> CsmsServer.get s k.
Definition named s : Prop := forall id r, CsmsServer.get s id = Some r -> StationInfo.id (StationRec.info r) = id.
Definition told s s' : Prop :=
  exists l, Server.events s' = l ++ Server.events s /\ (forall k, online s' k = replay k (rev l) (online s k)) /\
            (named s -> named s').

#[global] Instance told_preorder : PreOrder told.
Proof.
  split; [intros s; by exists []|]. intros s1 s2 s3 (l & He & Ho & Hn) (l' & He' & Ho' & Hn'). exists (l' ++ l).
  split; [by rewrite He', He, app_assoc|]. split; [|by auto]. intros k.
  rewrite Ho', Ho, rev_app_distr. unfold replay. by rewrite fold_left_app.
Qed.
Lemma told_same s s' : Server.stations s' = Server.stations s -> Server.events s' = Server.events s -> told s s'.
Proof. intros Hs He. exists []. unfold online, named, CsmsServer.get. by rewrite Hs, He. Qed.
(** One event and the change it tells of. *)
Lemma told_one s s' e :
  Server.events s' = e :: Server.events s -> (forall k, online s' k = hear k e (online s k)) -> (named s -> named s') -> told s s'.
Proof. intros He Ho Hn. by exists [e]. Qed.
Lemma online_modify s id f k :
  online (modify_station s id f) k =
  if k == id then (fun r => StationInfo.connected (StationRec.info (f r))) <$> CsmsServer.get s id else online s k.
Proof.
  unfold online, CsmsServer.get, modify_station. simpl. destruct (k == id) eqn:E.
  - apply (proj1 (eqb_true _ _)) in E as ->. rewrite lookup_alter_eq. by destruct (Server.stations s !! id).
  - apply (proj1 (eqb_false _ _)) in E. by rewrite lookup_alter_ne.
Qed.
Lemma named_modify s id f :
  (forall r, StationInfo.id (StationRec.info (f r)) = StationInfo.id (StationRec.info r)) -> named s -> named (modify_station s id f).
Proof.
  intros Hf Hn i r. unfold CsmsServer.get, modify_station. simpl. destruct (base.decide (i = id)) as [->|Hi].
  - rewrite lookup_alter_eq. destruct (Server.stations s !! id) as [q|] eqn:Hq; [|done]. intros [= <-]. rewrite Hf. by apply Hn.
  - rewrite lookup_alter_ne by done. apply Hn.
Qed.
(** A change of what the list does not show. *)
Definition unseen (f : StationRec.t -> StationRec.t) : Prop :=
  forall r, StationInfo.id (StationRec.info (f r)) = StationInfo.id (StationRec.info r) /\
            StationInfo.connected (StationRec.info (f r)) = StationInfo.connected (StationRec.info r).
Lemma told_modify s id f : unseen f -> told s (modify_station s id f).
Proof.
  intros Hf. exists []. split; [done|]. split; [|apply named_modify; apply Hf].
  intros k. rewrite online_modify. destruct (k == id) eqn:E; [|done]. apply (proj1 (eqb_true _ _)) in E as ->.
  unfold online. simpl. destruct (CsmsServer.get s id) as [r|]; [|done]. simpl. by rewrite (proj2 (Hf r)).
Qed.
Lemma told_emit s e : (forall k, online s k = hear k e (online s k)) -> told s (emit s e).
Proof. intros Ho. by apply (told_one _ _ e). Qed.
Lemma told_changed s id r : CsmsServer.get s id = Some r -> told s (emit s (CsmsEvent.StateChanged id)).
Proof.
  intros Hr. apply told_emit. intros k. simpl. destruct (id == k) eqn:E; [|done]. apply (proj1 (eqb_true _ _)) in E as <-.
  unfold online. by rewrite Hr.
Qed.
Lemma told_disconnect s id r why now :
  CsmsServer.get s id = Some r -> told s (emit (modify_station s id (disconnect_record now)) (CsmsEvent.Disconnected id why)).
Proof.
  intros Hr. apply (told_one _ _ (CsmsEvent.Disconnected id why)); [done| |by apply (named_modify s id)].
  intros k. change (online (emit ?s' _) k) with (online s' k). rewrite online_modify, Hr. simpl.
  destruct (k == id) eqn:E.
  - apply (proj1 (eqb_true _ _)) in E as ->. by rewrite eqb_refl.
  - apply (proj1 (eqb_false _ _)) in E. by rewrite eqb_ne by congruence.
Qed.

Lemma told_insert s id r e :
  StationInfo.id (StationRec.info r) = id ->
  (forall k, hear k e (online s k) = if k == id then Some (StationInfo.connected (StationRec.info r)) else online s k) ->
  told s (emit (s <| Server.stations ::= <[id := r]> |>) e).
Proof.
  intros Hid Ho. apply (told_one _ _ e); [done| |].
  - intros k. rewrite Ho. unfold online, CsmsServer.get. simpl. destruct (k == id) eqn:E.
    + apply (proj1 (eqb_true _ _)) in E as ->. by rewrite lookup_insert_eq.
    + apply (proj1 (eqb_false _ _)) in E. by rewrite lookup_insert_ne.
  - intros Hn i q. unfold CsmsServer.get. simpl. destruct (base.decide (i = id)) as [->|Hi].
    + rewrite lookup_insert_eq. by intros [= <-].
    + rewrite lookup_insert_ne by done. apply Hn.
Qed.
Lemma told_replaced s id r' n why :
  StationInfo.id (StationRec.info r') = id -> StationInfo.connected (StationRec.info r') = true ->
  told s (emit ((emit (send_command s n (CmdClose 1000 why)) (CsmsEvent.Disconnected id Replaced)) <| Server.stations ::= <[id := r']> |>)
            (CsmsEvent.Connected id)).
Proof.
  intros Hid Hc. exists [CsmsEvent.Connected id; CsmsEvent.Disconnected id Replaced]. split; [done|]. split.
  - intros k. unfold online, CsmsServer.get. simpl. destruct (id == k) eqn:E.
    + apply (proj1 (eqb_true _ _)) in E as <-. rewrite lookup_insert_eq. simpl. by rewrite Hc.
    + apply (proj1 (eqb_false _ _)) in E. by rewrite lookup_insert_ne.
  - intros Hn i q. unfold CsmsServer.get. simpl. destruct (base.decide (i = id)) as [->|Hi].
    + rewrite lookup_insert_eq. by intros [= <-].
    + rewrite lookup_insert_ne by done. apply Hn.
Qed.
Lemma told_register s id peer protocol now : named s -> told s (CsmsServer.register s id peer protocol now).1.
Proof.
  intros Hn. unfold CsmsServer.register. destruct (Server.stopping s); [reflexivity|]. destruct (full s id); [reflexivity|]. cbn [fst].
  set (n := u64_wrapping_add _ 1). set (s1 := s <| Server.next_session := n |>).
  assert (H1 : told s s1) by by apply told_same.
  assert (Hid : StationInfo.id (StationRec.info (connect_record n peer protocol now (default (new_rec id) (CsmsServer.get s1 id)))) = id).
  { destruct (CsmsServer.get s1 id) as [r|] eqn:Hr; [|done]. exact (Hn id r Hr). }
  etrans; [exact H1|]. destruct (StationRec.session _) as [old|] eqn:Ho.
  - destruct (CsmsServer.get s1 id) as [r|] eqn:Hr; [|done]. by apply (told_replaced s1 id).
  - apply told_insert; [exact Hid|]. intros k. simpl. destruct (k == id) eqn:E.
    + apply (proj1 (eqb_true _ _)) in E as ->. by rewrite eqb_refl.
    + apply (proj1 (eqb_false _ _)) in E. by rewrite eqb_ne by congruence.
Qed.
Lemma told_record_frame s station session direction frame now :
  named s -> told s (record_frame s station session direction frame now).
Proof.
  intros Hn. unfold record_frame. destruct (CsmsServer.get s station) as [r|] eqn:Hr; [|reflexivity].
  destruct (negb _); [reflexivity|]. cbv zeta.
  set (r' := keep_frame _ _ _ _ _).
  assert (Hv : StationInfo.id (StationRec.info r') = StationInfo.id (StationRec.info r)
               /\ StationInfo.connected (StationRec.info r') = StationInfo.connected (StationRec.info r)).
  { pose proof (keep_frame_view (Server.config s) now direction
      (if show_secrets (Server.config s) then frame else Frame.Frame.redact_secrets frame)
      (match direction, frame with
       | In, Frame.Frame.Call _ action _ => r <| StationRec.info ::= count_call action |> | _, _ => r end)) as H.
    fold r' in H. unfold view_of in H. injection H as H1 H2 _ _. rewrite H1, H2. by repeat case_match. }
  assert (Hu : told s (s <| Server.stations ::= <[station := r']> |>)).
  { exists []. split; [done|]. split.
    - intros k. unfold online, CsmsServer.get. simpl. destruct (base.decide (k = station)) as [->|Hk].
      + rewrite lookup_insert_eq. unfold CsmsServer.get in Hr. rewrite Hr. simpl. by rewrite (proj2 Hv).
      + by rewrite lookup_insert_ne.
    - intros _ i q. unfold CsmsServer.get. simpl. destruct (base.decide (i = station)) as [->|Hi].
      + rewrite lookup_insert_eq. intros [= <-]. rewrite (proj1 Hv). by apply Hn.
      + rewrite lookup_insert_ne by done. apply Hn. }
  destruct (Server.subscribed _); [|done]. etrans; [exact Hu|by apply told_emit].
Qed.
Lemma told_set_state s station state :
  told s (modify_station s station (fun r => r <| StationRec.state := state |>)).
Proof. by apply told_modify. Qed.
Lemma get_modify_is_some s id f r :
  CsmsServer.get s id = Some r -> CsmsServer.get (modify_station s id f) id = Some (f r).
Proof. unfold CsmsServer.get, modify_station. simpl. rewrite lookup_alter_eq. by intros ->. Qed.
Lemma told_track s station session action request r now : told s (track s station session action request r now).
Proof.
  unfold track. destruct r; try reflexivity. destruct (CsmsServer.get s station) as [record|] eqn:Hr; [|reflexivity].
  destruct (negb _); [reflexivity|]. destruct (CsmsState.apply _ _ _ _ _ _) as [state []]; [|apply told_set_state].
  etrans; [apply told_set_state|]. eapply told_changed, get_modify_is_some, Hr.
Qed.
Lemma told_settle_call s station action payload answer now : told s (settle_call s station action payload answer now).1.
Proof.
  assert (Ht : forall s r, told s (track_result s station action payload r now)).
  { intros s0 r. unfold track_result. destruct (CsmsServer.get s0 station) as [record|] eqn:Hr; [|reflexivity].
    destruct (CsmsState.apply_result _ _ _ _ _) as [state []]; [|apply told_set_state].
    etrans; [apply told_set_state|]. eapply told_changed, get_modify_is_some, Hr. }
  assert (Hf : forall s, told s (note_failed_call s station)).
  { intros s0. unfold note_failed_call. destruct (CsmsServer.get s0 station) as [record|] eqn:Hr; [|reflexivity].
    etrans; [|eapply told_changed, get_modify_is_some, Hr]. by apply told_modify. }
  unfold settle_call. cbn [fst]. repeat case_match; first [reflexivity|apply Ht|apply Hf].
Qed.
Lemma told_forget s id : told s (CsmsServer.forget s id).1.
Proof.
  unfold CsmsServer.forget. destruct (CsmsServer.get s id) as [r|] eqn:Hr; [|reflexivity]. cbn [fst].
  set (events := match StationRec.session r with Some _ => [CsmsEvent.Disconnected id Forgotten] | None => [] end).
  exists (CsmsEvent.Forgotten id :: events). split; [unfold events; by destruct (StationRec.session r)|]. split.
  - intros k. transitivity (if id == k then None else online s k).
    + destruct (id == k) eqn:E.
      * apply (proj1 (eqb_true _ _)) in E as <-. unfold online, CsmsServer.get. destruct (StationRec.session r); simpl; by rewrite lookup_delete_eq.
      * apply (proj1 (eqb_false _ _)) in E. unfold online, CsmsServer.get. destruct (StationRec.session r); simpl; by rewrite lookup_delete_ne.
    + unfold events. destruct (StationRec.session r); simpl; by destruct (id == k).
  - intros Hn i q. unfold CsmsServer.get. destruct (StationRec.session r); simpl; intros [_ Hq]%lookup_delete_Some; by apply Hn.
Qed.
Lemma told_abort now s station : told s (abort_session now s station).
Proof.
  unfold abort_session. destruct (CsmsServer.get s station) as [r|] eqn:Hr; [|reflexivity].
  destruct (is_someb _); [|reflexivity]. by apply (told_disconnect s station r).
Qed.
Lemma told_step s o : named s -> told s (CsmsServer.step s o).
Proof.
  intros Hn. destruct o; cbn [CsmsServer.step]; try (by apply told_same).
  - by apply told_register.
  - unfold session_ended. destruct (CsmsServer.get s station) as [r|] eqn:Hr; [|reflexivity].
    destruct (negb _); [reflexivity|]. by apply (told_disconnect s station r).
  - by apply told_record_frame.
  - apply told_track.
  - apply told_settle_call.
  - unfold decide. repeat case_match; cbn [fst]; try reflexivity; simplify_eq; by apply told_same.
  - unfold CsmsServer.submit. repeat case_match; cbn [fst]; try reflexivity; by apply told_same.
  - apply told_forget.
  - unfold inject. case_match; [by apply told_same|reflexivity].
  - unfold finish_shutdown. generalize (map fst (btree_iter (Server.stations s))). intros l. clear Hn. revert s.
    induction l as [|id l IH]; intros s; simpl; [reflexivity|]. etrans; [apply told_abort|apply IH].
Qed.
Lemma told_steps s ops : named s -> told s (fold_left CsmsServer.step ops s).
Proof.
  revert s. induction ops as [|o ops IH]; intros s Hn; simpl; [reflexivity|].
  assert (Ht := told_step s o Hn). etrans; [exact Ht|]. apply IH. destruct Ht as (_ & _ & _ & H). auto.
Qed.

(** ** The list of stations *)

Definition row_of k (l : list Summary.t) : option Summary.t := find_first (fun x => Summary.id x == k) l.
Definition before_ (a b : str) : Prop := str_leb a b = true /\ a <> b.
(** The list is strictly sorted by id. *)
Definition sorted (l : list Summary.t) : Prop := StronglySorted (fun a b => before_ (Summary.id a) (Summary.id b)) l.
Definition shown app k : option bool := Summary.connected <$> row_of k (App.stations app).

Lemma find_first_app {A} (p : A -> bool) l l' :
  find_first p (l ++ l') = match find_first p l with Some x => Some x | None => find_first p l' end.
Proof. induction l as [|x l IH]; simpl; [done|]. by destruct (p x). Qed.
Lemma before_trans a b c : before_ a b -> before_ b c -> before_ a c.
Proof.
  intros [H1 H2] [H3 H4]. split; [by eapply str_leb_trans|]. intros ->. apply H2. by apply str_leb_antisym.
Qed.
Lemma not_below a b : negb (str_leb a b) = true -> before_ b a.
Proof.
  intros H. apply negb_true_iff in H. split; [|intros ->; by rewrite str_leb_refl in H].
  by destruct (str_leb_total a b) as [?|?]; [congruence|].
Qed.
Lemma find_station_row k l : find_station k l = None <-> row_of k l = None.
Proof. unfold find_station, row_of. by rewrite position_None, find_first_none. Qed.
Lemma find_station_at k l i :
  find_station k l = Some i ->
  exists l1 x l2, l = l1 ++ x :: l2 /\ i = length l1 /\ Summary.id x = k /\ row_of k l1 = None /\ row_of k l = Some x.
Proof.
  intros Hp. unfold find_station in Hp. revert i Hp. induction l as [|y l IH]; intros i Hp; [done|]. simpl in Hp. unfold row_of. simpl.
  destruct (Summary.id y == k) eqn:E.
  - injection Hp as <-. apply (proj1 (eqb_true _ _)) in E. by exists [], y, l.
  - destruct (position _ l) as [j|]; [|done]. injection Hp as <-. destruct (IH j eq_refl) as (l1 & x & l2 & -> & -> & Hx & H1 & H2).
    exists (y :: l1), x, l2. split_and!; try done. unfold row_of. simpl. by rewrite E.
Qed.
Lemma sorted_middle l1 x l2 : sorted (l1 ++ x :: l2) -> row_of (Summary.id x) l2 = None /\ row_of (Summary.id x) l1 = None.
Proof.
  intros Hs. unfold row_of. rewrite !find_first_none. induction l1 as [|y l1 IH].
  - inversion Hs as [|? ? _ Hall]; subst. split; [|done]. intros z Hz. apply eqb_ne.
    rewrite Forall_forall in Hall. destruct (Hall z (proj2 (list_elem_of_In _ _) Hz)) as [_ H]. congruence.
  - inversion Hs as [|? ? Hs' Hall]; subst. destruct (IH Hs') as [H1 H2]. split; [done|]. intros z [<-|Hz]; [|by apply H2].
    apply eqb_ne. rewrite Forall_forall in Hall. apply (Hall x). apply elem_of_app. right. left.
Qed.
Lemma sorted_insert id b l :
  sorted l -> row_of id l = None ->
  sorted (take (place id l) l ++ new_summary id b :: drop (place id l) l).
Proof.
  intros Hs. unfold place. induction Hs as [|x l Hs IH Hall]; intros Hn; [by repeat constructor|].
  unfold row_of in Hn. simpl in Hn. destruct (Summary.id x == id) eqn:E; [done|]. apply (proj1 (eqb_false _ _)) in E. simpl.
  destruct (negb (str_leb id (Summary.id x))) eqn:Hlt; simpl.
  - apply not_below in Hlt. constructor; [by apply IH|]. rewrite Forall_app, Forall_cons.
    split_and!; [by apply Forall_take|done|by apply Forall_drop].
  - apply negb_false_iff in Hlt. assert (Hx : before_ id (Summary.id x)) by (split; congruence).
    assert (Hnone : retain (fun y => negb (str_leb id (Summary.id y))) l = []).
    { apply retain_none. intros y Hy. rewrite Forall_forall in Hall.
      destruct (before_trans _ _ _ Hx (Hall y (proj2 (list_elem_of_In _ _) Hy))) as [H _]. by rewrite H. }
    rewrite Hnone. simpl. constructor; [by constructor|]. constructor; [done|].
    eapply Forall_impl; [exact Hall|]. intros y Hy. by eapply before_trans.
Qed.

(** *** The operations on the list *)

Lemma ensure_list id b app :
  sorted (App.stations app) ->
  sorted (App.stations (ensure_station id b app)) /\
  forall k, shown (ensure_station id b app) k = if id == k then Some (default b (shown app id)) else shown app k.
Proof.
  intros Hs. unfold ensure_station. destruct (find_station id (App.stations app)) as [i|] eqn:Hf.
  - split; [done|]. intros k. destruct (id == k) eqn:E; [|done]. apply (proj1 (eqb_true _ _)) in E as <-.
    apply find_station_at in Hf as (l1 & x & l2 & _ & _ & _ & _ & Hr). unfold shown. by rewrite Hr.
  - apply find_station_row in Hf.
    set (l := take (place id (App.stations app)) (App.stations app) ++ new_summary id b :: drop (place id (App.stations app)) (App.stations app)).
    match goal with |- sorted (App.stations ?a) /\ _ => assert (Ha : App.stations a = l) by by case_match end.
    unfold shown. rewrite Ha. split; [by apply sorted_insert|]. intros k. rewrite Hf. simpl. unfold l, row_of.
    rewrite find_first_app. simpl. rewrite <- (take_drop (place id (App.stations app)) (App.stations app)) in Hf at 1. unfold row_of in Hf.
    rewrite find_first_app in Hf. destruct (id == k) eqn:E.
    + apply (proj1 (eqb_true _ _)) in E as <-. by destruct (find_first _ (take _ _)).
    + rewrite <- (take_drop (place id (App.stations app)) (App.stations app)) at 3. by rewrite find_first_app.
Qed.
Lemma alter_middle {A} (f : A -> A) l1 x l2 : alter f (length l1) (l1 ++ x :: l2) = l1 ++ f x :: l2.
Proof. induction l1 as [|y l1 IH]; [done|]. simpl. f_equal. exact IH. Qed.
Lemma modify_list id f app :
  (forall x, Summary.id (f x) = Summary.id x) -> sorted (App.stations app) ->
  sorted (App.stations (modify_summary id f app)) /\
  forall k, shown (modify_summary id f app) k =
            if id == k then (fun x => Summary.connected (f x)) <$> row_of id (App.stations app) else shown app k.
Proof.
  intros Hf Hs. unfold modify_summary. destruct (find_station id (App.stations app)) as [i|] eqn:E.
  2:{ split; [done|]. intros k. destruct (id == k) eqn:Ek; [|done]. apply (proj1 (eqb_true _ _)) in Ek as <-.
      apply find_station_row in E. unfold shown. by rewrite E. }
  apply find_station_at in E as (l1 & x & l2 & Hl & -> & Hx & Hr1 & Hr). unfold shown. cbn [App.stations over]. simpl App.stations.
  rewrite Hr, Hl in *. rewrite alter_middle. split.
  - clear -Hf Hs. induction l1 as [|y l1 IH]; simpl in *; inversion Hs as [|? ? Hs' Hall]; subst; constructor; try done.
    + by rewrite Hf.
    + by apply IH.
    + rewrite Forall_app, Forall_cons in *. by rewrite Hf.
  - intros k. unfold row_of. rewrite !find_first_app. simpl. rewrite Hf. rewrite Hx. destruct (id == k) eqn:Ek; [|done].
    apply (proj1 (eqb_true _ _)) in Ek as <-. unfold row_of in Hr1. by rewrite Hr1.
Qed.

Lemma select_stations id app : App.stations (select id app).1 = App.stations app.
Proof. unfold select. by case_match. Qed.
Lemma remove_middle {A} (l1 : list A) x l2 : remove_at (length l1) (l1 ++ x :: l2) = l1 ++ l2.
Proof. apply remove_at_middle. Qed.
Lemma remove_list id app :
  sorted (App.stations app) ->
  sorted (App.stations (remove_station id app).1) /\
  forall k, shown (remove_station id app).1 k = if id == k then None else shown app k.
Proof.
  intros Hs. unfold remove_station. destruct (find_station id (App.stations app)) as [i|] eqn:E.
  2:{ split; [done|]. intros k. destruct (id == k) eqn:Ek; [|done]. apply (proj1 (eqb_true _ _)) in Ek as <-.
      apply find_station_row in E. unfold shown. simpl. by rewrite E. }
  apply find_station_at in E as (l1 & x & l2 & Hl & -> & Hx & _ & _).
  match goal with |- sorted (App.stations (fst ?w)) /\ _ => assert (Ha : App.stations w.1 = l1 ++ l2) end.
  { cbv zeta. destruct (is_selected app id); [|simpl; by rewrite Hl, remove_middle].
    destruct (visible_at _ _); [rewrite select_stations|]; simpl; by rewrite Hl, remove_middle. }
  unfold shown. rewrite Ha, Hl in *. destruct (sorted_middle _ _ _ Hs) as [H2 H1]. rewrite Hx in *. split.
  - clear -Hs. induction l1 as [|y l1 IH]; simpl in *; inversion Hs as [|? ? Hs' Hall]; subst; [done|]. constructor; [by apply IH|].
    rewrite Forall_app, Forall_cons in *. naive_solver.
  - intros k. unfold row_of in *. rewrite !find_first_app. simpl. rewrite Hx. destruct (id == k) eqn:Ek; [|done].
    apply (proj1 (eqb_true _ _)) in Ek as <-. by rewrite H1, H2.
Qed.

(** *** A fresh reading of the registry *)

Definition reported (infos : list StationInfo.t) k : option bool :=
  StationInfo.connected <$> find_first (fun i => StationInfo.id i == k) infos.
Lemma row_of_spec l k x : NoDup (map Summary.id l) -> row_of k l = Some x <-> List.In x l /\ Summary.id x = k.
Proof.
  intros Hn. unfold row_of. split.
  - intros [Hin Hk]%find_first_In. split; [done|]. by apply (proj1 (eqb_true _ _)).
  - intros [Hin <-]. induction l as [|y l IH]; [done|]. simpl in *. inversion Hn as [|? ? Hy Hn']; subst.
    destruct Hin as [->|Hin]; [by rewrite eqb_refl|]. rewrite eqb_ne; [by apply IH|]. intros Heq. apply Hy. rewrite Heq.
    apply list_elem_of_In, in_map, Hin.
Qed.
Lemma sorted_merge l : NoDup (map Summary.id l) -> sorted (merge_sort summary_le l).
Proof.
  intros Hn.
  assert (Hs : StronglySorted summary_le (merge_sort summary_le l)).
  { apply Sorted_StronglySorted; [intros a b c; apply str_leb_trans|]. apply Sorted_merge_sort. intros a b. apply str_leb_total. }
  assert (Hp := merge_sort_Permutation summary_le l).
  assert (Hn' : NoDup (map Summary.id (merge_sort summary_le l))) by by rewrite Hp.
  clear Hn Hp. induction Hs as [|x m Hs IH Hall]; [constructor|]. simpl in Hn'. inversion Hn' as [|? ? Hx Hn]; subst.
  constructor; [by apply IH|]. rewrite Forall_forall in *. intros y Hy. split; [by apply Hall|]. intros Heq. apply Hx. rewrite Heq.
  apply list_elem_of_In, in_map, list_elem_of_In, Hy.
Qed.
Lemma read_state_list app read :
  sorted (App.stations app) ->
  sorted (App.stations (read_state read app)) /\ forall k, shown (read_state read app) k = shown app k.
Proof.
  intros Hs. destruct read as [id [state|]]; [|done]. destruct (modify_list id (apply_state state) app) as [H1 H2]; [done..|].
  split; [done|]. intros k. rewrite H2. destruct (id == k) eqn:E; [|done]. by apply (proj1 (eqb_true _ _)) in E as <-.
Qed.
Lemma read_states_list states app :
  sorted (App.stations app) ->
  sorted (App.stations (fold_left (fun app read => read_state read app) states app)) /\
  forall k, shown (fold_left (fun app read => read_state read app) states app) k = shown app k.
Proof.
  revert app. induction states as [|r states IH]; intros app Hs; [done|]. simpl. destruct (read_state_list app r Hs) as [H1 H2].
  destruct (IH _ H1) as [H3 H4]. split; [done|]. intros k. by rewrite H4, H2.
Qed.
Lemma shown_same app app' : App.stations app' = App.stations app -> forall k, shown app' k = shown app k.
Proof. unfold shown. by intros ->. Qed.
Lemma resync_list infos states app :
  NoDup (map StationInfo.id infos) ->
  sorted (App.stations (resync infos states app).1) /\
  forall k, shown (resync infos states app).1 k = reported infos k.
Proof.
  intros Hn. unfold resync. cbv zeta. set (replaced := map Summary.id _).
  assert (Hids : map Summary.id (map (listed replaced) infos) = map StationInfo.id infos) by (rewrite map_map; by apply map_ext).
  set (app1 := app <| App.stations := merge_sort summary_le (map (listed replaced) infos) |>).
  assert (Hs : sorted (App.stations app1)) by (apply sorted_merge; by rewrite Hids).
  destruct (read_states_list states app1 Hs) as [H1 H2].
  match goal with |- sorted (App.stations (fst (select ?i ?a))) /\ _ => assert (Ha : App.stations (select i a).1 =
    App.stations (fold_left (fun app read => read_state read app) states app1)) by by rewrite select_stations end.
  rewrite Ha. split; [done|]. intros k. rewrite (shown_same _ _ Ha), H2. unfold shown, reported. simpl.
  assert (Hp := merge_sort_Permutation summary_le (map (listed replaced) infos)).
  assert (Hn1 : NoDup (map Summary.id (merge_sort summary_le (map (listed replaced) infos)))) by by rewrite Hp, Hids.
  destruct (find_first _ infos) as [i|] eqn:Ef.
  - apply find_first_In in Ef as [Hi Hk]. apply (proj1 (eqb_true _ _)) in Hk.
    rewrite (proj2 (row_of_spec _ k (listed replaced i) Hn1)); [done|]. split; [|done].
    apply list_elem_of_In. rewrite Hp. apply list_elem_of_In. by apply in_map.
  - destruct (row_of k _) as [x|] eqn:Er; [|done]. apply row_of_spec in Er as [Hin Hk]; [|done].
    apply list_elem_of_In in Hin. rewrite Hp in Hin. apply list_elem_of_In, in_map_iff in Hin as (i & <- & Hi).
    rewrite find_first_none in Ef. specialize (Ef i Hi). by rewrite <- Hk, eqb_refl in Ef.
Qed.
Lemma snapshot_list s :
  named s -> NoDup (map StationInfo.id (station_infos s)) /\ forall k, reported (station_infos s) k = online s k.
Proof.
  intros Hn. unfold station_infos.
  assert (Hids : map StationInfo.id (map (fun e => StationRec.info e.2) (btree_iter (Server.stations s))) = (btree_iter (Server.stations s)).*1).
  { rewrite map_map. apply map_ext_in. intros [k r] Hin. simpl. apply Hn. unfold CsmsServer.get.
    by apply btree_iter_elem, list_elem_of_In. }
  assert (Hd := btree_iter_keys_NoDup (Server.stations s)). rewrite Hids. split; [done|]. intros k. unfold reported.
  destruct (find_first _ _) as [i|] eqn:Ef; simpl.
  - apply find_first_In in Ef as [Hi Hk]. apply (proj1 (eqb_true _ _)) in Hk.
    apply in_map_iff in Hi as ([k' r] & <- & Hin). apply list_elem_of_In, btree_iter_elem in Hin. simpl in Hk.
    rewrite (Hn k' r Hin) in Hk. subst k'. unfold online, CsmsServer.get. by rewrite Hin.
  - unfold online. destruct (CsmsServer.get s k) as [r|] eqn:Hr; [|done]. exfalso. rewrite find_first_none in Ef.
    assert (Hin : List.In (StationRec.info r) (map (fun e => StationRec.info e.2) (btree_iter (Server.stations s)))).
    { apply in_map_iff. exists (k, r). split; [done|]. by apply list_elem_of_In, btree_iter_elem. }
    specialize (Ef _ Hin). by rewrite (Hn k r Hr), eqb_refl in Ef.
Qed.

(** ** Operations that ask and send nothing *)

(** Effects that only read, or copy to the clipboard. *)
Definition harmless (e : Effect.t) : bool :=
  match e with
  | Effect.Load _ | Effect.Refresh _ _ | Effect.Resync | Effect.Copy _ _ | Effect.ReadRules => true
  | _ => false
  end.
Definition no_question (m : Mode.t) : Prop := match m with Mode.Confirm _ => False | _ => True end.
(** Only effects that are harmless, no command counted and no question opened. *)
Definition gentle app (w : App.t * list Effect.t) : Prop :=
  App.pending w.1 = App.pending app /\ Forall (fun e => harmless e = true) w.2 /\
  (App.mode w.1 = App.mode app \/ no_question (App.mode w.1)).
(** The same, and the list of stations stays. *)
Definition tame app (w : App.t * list Effect.t) : Prop :=
  App.stations w.1 = App.stations app /\ gentle app w.
(** The fields [tame] is about. *)
Definition level app app' : Prop :=
  App.stations app' = App.stations app /\ App.pending app' = App.pending app /\ App.mode app' = App.mode app.

Lemma tame_level app app' fx : level app app' -> Forall (fun e => harmless e = true) fx -> tame app (app', fx).
Proof. intros (H1 & H2 & H3) Hf. split; [done|]. split; [done|]. split; [done|]. by left. Qed.
Lemma tame_quietly app app' : level app app' -> tame app (quietly app').
Proof. intros H. by apply tame_level. Qed.
Lemma tame_mode app app' m : level app app' -> no_question m -> tame app (quietly (set_mode m app')).
Proof. intros (H1 & H2 & H3) Hm. split; [done|]. split; [done|]. split; [done|]. by right. Qed.
Lemma tame_from app app1 w : level app app1 -> tame app1 w -> tame app w.
Proof. intros (H1 & H2 & H3) (H4 & H5 & H6 & H7). split; [congruence|]. split; [congruence|]. split; [done|]. by rewrite H3 in H7. Qed.
Lemma tame_then app w f : tame app w -> (forall a, tame a (f a)) -> tame app (then_ w f).
Proof.
  intros (H1 & H2 & H3 & H4) Hf. destruct w as [a fx]. simpl in *. destruct (Hf a) as (K1 & K2 & K3 & K4).
  destruct (f a) as [b fx']. simpl in *. split; [simpl; congruence|]. split; [simpl; congruence|]. split; [by apply Forall_app|].
  simpl. destruct K4 as [K4|K4]; [|by right]. rewrite K4. exact H4.
Qed.
#[local] Ltac level := by (repeat case_match; repeat split).

Lemma tame_select id app : tame app (select id app).
Proof. unfold select. case_match; [by apply tame_quietly|]. apply tame_level; [level|]. case_match; by repeat constructor. Qed.
Lemma tame_select_row row app : tame app (select_row row app).
Proof. unfold select_row. case_match; [apply tame_select|by apply tame_quietly]. Qed.
Lemma tame_set_station_filter text app : tame app (set_station_filter text app).
Proof.
  unfold set_station_filter. cbv zeta. repeat case_match; (apply (tame_from app (refilter (app <| App.station_filter := text |>))); [level|]);
    first [apply tame_select|by apply tame_quietly].
Qed.
Lemma tame_move_cursor delta app : tame app (move_cursor delta app).
Proof. unfold move_cursor. cbv zeta. case_match; [by apply tame_quietly|apply tame_select_row]. Qed.
Lemma level_modify_log f app : level app (modify_log f app).
Proof. unfold modify_log. level. Qed.
Lemma level_notify lv text app : level app (notify lv text app).
Proof. level. Qed.
Lemma level_trans app1 app2 app3 : level app1 app2 -> level app2 app3 -> level app1 app3.
Proof. intros (? & ? & ?) (? & ? & ?). split_and!; congruence. Qed.
Lemma tame_apply_input t text app : tame app (apply_input t text app).
Proof. destruct t; [apply tame_set_station_filter|apply tame_quietly, level_modify_log]. Qed.
Lemma tame_step_rows d app : tame app (step_rows d app).
Proof. unfold step_rows. case_match; [apply tame_move_cursor|apply tame_quietly, level_modify_log]. Qed.
Lemma tame_copy_row app : tame app (copy_row app).
Proof. unfold copy_row. case_match; [apply tame_level; [level|by repeat constructor]|by apply tame_quietly]. Qed.
Lemma tame_copy_visible app : tame app (copy_visible app).
Proof. unfold copy_visible. case_match; [by apply tame_quietly|apply tame_level; [level|by repeat constructor]]. Qed.
Lemma tame_escape app : tame app (escape app).
Proof.
  unfold escape. repeat case_match; [..|by apply tame_quietly].
  - apply tame_quietly. eapply level_trans; [apply level_modify_log|apply level_notify].
  - apply tame_then; [apply tame_set_station_filter|]. intros a. apply tame_quietly, level_notify.
Qed.
Lemma tame_open_detail app : tame app (quietly (open_detail app)).
Proof. unfold open_detail. case_match; [by apply tame_mode|by apply tame_quietly]. Qed.

(** ** Operations that may *)

Lemma tame_run_available id app :
  id <> ActionId.ClearCache -> id <> ActionId.ClearRules -> id <> ActionId.Forget -> tame app (run_available app id).
Proof.
  intros H1 H2 H3. destruct id; try done; cbn [run_available];
    try (by apply (tame_mode app app)); try (by apply (tame_mode app (take_request_id app).1)).
  - case_match; [by apply (tame_mode app app)|by apply tame_quietly].
  - apply tame_level; [level|by repeat constructor].
Qed.
Lemma run_action_cases id app :
  tame app (run_action id app) \/
  (reason_for app id = None /\ run_action id app = run_available app id /\
   (id = ActionId.ClearCache \/ id = ActionId.ClearRules \/ id = ActionId.Forget)).
Proof.
  unfold run_action. destruct (reason_for app id) as [why|] eqn:E; [left; apply tame_quietly, level_notify|].
  destruct (base.decide (id = ActionId.ClearCache)) as [->|H1]; [right; naive_solver|].
  destruct (base.decide (id = ActionId.ClearRules)) as [->|H2]; [right; naive_solver|].
  destruct (base.decide (id = ActionId.Forget)) as [->|H3]; [right; naive_solver|].
  left. by apply tame_run_available.
Qed.

(** The keys that run an action. *)
Definition chooses (key : Key) (m : Mode.t) (id : ActionId.t) : Prop :=
  (m = Mode.Normal /\ exists c, key_code key = Plain (KeyCode.Char c) /\ key_ctrl key = false /\ key_alt key = false /\ by_key c = Some id)
  \/ (exists p, m = Mode.Palette p /\ key_code key = Plain KeyCode.Enter /\ palette_chosen p = Some id).
Lemma normal_char_cases c app :
  tame app (normal_char c app) \/ exists id, by_key c = Some id /\ normal_char c app = run_action id app.
Proof.
  unfold normal_char.
  destruct (c =? ch "q"); [left; by apply tame_quietly|]. destruct (c =? ch "?"); [left; by apply tame_mode|].
  destruct (c =? ch ":"); [left; by apply (tame_mode app app)|]. destruct (c =? ch "/"); [left; by apply (tame_mode app app)|].
  destruct ((c =? ch "s") && _); [left; by apply (tame_mode app app)|].
  destruct (c =? ch "k"); [left; apply tame_step_rows|]. destruct (c =? ch "j"); [left; apply tame_step_rows|].
  destruct (c =? ch "G"); [left; apply tame_quietly, level_modify_log|].
  destruct (c =? ch "a"); [left; apply tame_quietly; unfold toggle_view; level|].
  destruct (c =? ch "f"); [left; apply tame_quietly; eapply level_trans; [apply level_modify_log|apply level_notify]|].
  destruct (c =? ch "p"); [left; apply tame_quietly; eapply level_trans; [apply level_modify_log|apply level_notify]|].
  destruct (c =? ch "y"); [left; apply tame_copy_row|]. destruct (c =? ch "Y"); [left; apply tame_copy_visible|].
  destruct (by_key c) as [id|]; [right; by exists id|left; by apply tame_quietly].
Qed.
Lemma normal_cases key app :
  tame app (normal key app) \/ exists id, chooses key Mode.Normal id /\ normal key app = run_action id app.
Proof.
  unfold normal. destruct (key_ctrl key) eqn:Hc; [left; by apply tame_quietly|]. destruct (key_alt key) eqn:Ha; [left; by apply tame_quietly|].
  cbn [orb]. destruct (key_code key) as [| |[]] eqn:Hk; try (left; first [apply tame_step_rows|by apply tame_quietly|apply tame_escape]; fail).
  - left. destruct (App.focus app); [by apply tame_quietly|apply tame_open_detail].
  - left. case_match; [apply tame_select_row|apply tame_quietly, level_modify_log].
  - left. case_match; [apply tame_select_row|apply tame_quietly, level_modify_log].
  - destruct (normal_char_cases c app) as [H|(id & Hid & H)]; [by left|right]. exists id. split; [|done].
    left. split; [done|]. by exists c.
Qed.
Lemma tame_text_input i key app : tame app (text_input i key app).
Proof.
  unfold text_input. cbv zeta. repeat case_match; first [by apply tame_quietly|apply tame_quietly, level_notify|apply tame_apply_input|idtac];
    (apply tame_then; [apply tame_apply_input|intros a; by apply (tame_mode a a)]).
Qed.
Lemma tame_detail_mode d key app : tame app (detail_mode d key app).
Proof.
  unfold detail_mode. cbv zeta. repeat case_match; first [by apply tame_quietly|by apply (tame_mode app app)|idtac].
  split; [done|]. split; [done|]. split; [by repeat constructor|]. by right.
Qed.
Lemma tame_results_mode l key app : tame app (results_mode l key app).
Proof. unfold results_mode. cbv zeta. repeat case_match; first [by apply tame_quietly|by apply (tame_mode app app)]. Qed.
Lemma palette_cases p key app :
  tame app (palette_key p key app) \/ exists id, chooses key (Mode.Palette p) id /\ palette_key p key app = run_action id app.
Proof.
  unfold palette_key. cbv zeta. destruct (key_code key) as [| |[]] eqn:Hk;
    try (left; repeat case_match; first [by apply tame_quietly|by apply (tame_mode app app)]; fail).
  destruct (palette_chosen p) as [id|] eqn:Hp; [right; exists id|left; by apply tame_quietly]. split; [|done].
  right. by exists p.
Qed.
Lemma tame_paste_text text app : tame app (paste_text text app).
Proof.
  unfold paste_text. cbv zeta. destruct (App.mode app); first [by apply tame_quietly|by apply (tame_mode app app)|idtac].
  match goal with |- tame _ (apply_input _ _ (set_mode ?m app)) => destruct (tame_apply_input (target i) (TextInput.text (insert_str (map (λ c, if (c =? 10) || (c =? 13) then 32 else c) text) (input_text i))) (set_mode m app)) as (H1 & H2 & H3 & H4) end.
  split; [done|]. split; [done|]. split; [done|]. right. destruct H4 as [->|H4]; done.
Qed.

Definition yes (key : Key) : Prop := is_char key "y" || is_char key "Y" = true.
(** A form is submitted by the key, and this is what it produces for its station. *)
Definition submits (key : Key) (m : Mode.t) (station : str) (x : Submitted.t) : Prop :=
  exists f f1 f2, m = Mode.Form f /\ handle_key (form_key key) f = (f1, FormEvent.Submit) /\
    submit f1 = (f2, Some x) /\ Form.station f2 = station.
Lemma handle_cases key app :
  let idle_ := set_mode Mode.Normal app in
  (tame app (handle key app) \/ tame idle_ (handle key app)) \/
  (exists id, chooses key (App.mode app) id /\ handle key app = run_action id idle_) \/
  (exists station x, submits key (App.mode app) station x /\ handle key app = submitted station x idle_) \/
  (exists c, App.mode app = Mode.Confirm c /\ yes key /\ handle key app = confirmed (confirm_action c) idle_).
Proof.
  cbv zeta. unfold handle, yes. destruct (key_ctrl key && is_char key "c"); [left; left; by apply tame_level|].
  set (a := set_mode Mode.Normal app). destruct (App.mode app) as [|i| |d|p|f|c|l] eqn:Hm.
  - destruct (normal_cases key a) as [H|(id & Hid & H)]; [left; by right|]. right. left. by exists id.
  - left; right. apply tame_text_input.
  - left; right. cbv zeta. case_match; [by apply tame_quietly|by apply (tame_mode a a)].
  - left; right. apply tame_detail_mode.
  - destruct (palette_cases p key a) as [H|(id & Hid & H)]; [left; by right|]. right. left. by exists id.
  - unfold form_mode. destruct (handle_key (form_key key) f) as [f1 ev] eqn:Hk. destruct ev; cbv beta iota;
      [left; right; by apply (tame_mode a a (Mode.Form f1))|left; right; by apply tame_quietly|].
    destruct (submit f1) as [f2 [x|]] eqn:Hs; [|left; right; by apply (tame_mode a a (Mode.Form f2))]. right. right. left.
    exists (Form.station f2), x. split; [|done]. by exists f, f1, f2.
  - destruct (is_char key "y" || is_char key "Y"); [|left; right; apply tame_quietly, level_notify]. right. right. right. by exists c.
  - left; right. apply tame_results_mode.
Qed.

(** *** The messages *)

Lemma gentle_level app app' fx :
  App.pending app' = App.pending app -> App.mode app' = App.mode app -> Forall (fun e => harmless e = true) fx -> gentle app (app', fx).
Proof. intros H1 H2 H3. split; [done|]. split; [done|]. by left. Qed.
Definition same_mode app app' : Prop := App.pending app' = App.pending app /\ App.mode app' = App.mode app.
#[global] Instance same_mode_preorder : PreOrder same_mode.
Proof. split; [done|]. intros a b c [H1 H2] [H3 H4]. split; congruence. Qed.
Lemma gentle_then app app1 w : same_mode app app1 -> gentle app1 w -> gentle app w.
Proof. intros (H2 & H3) (H5 & H6 & H7). split; [congruence|]. split; [done|]. by rewrite H3 in H7. Qed.
Lemma mode_push_line station lv text app : same_mode app (push_line station lv text app).
Proof. unfold push_line. by case_match. Qed.
Lemma mode_ensure id b app : same_mode app (ensure_station id b app).
Proof. unfold ensure_station. by repeat case_match. Qed.
Lemma mode_modify id f app : same_mode app (modify_summary id f app).
Proof. unfold modify_summary. by case_match. Qed.
Lemma mode_push_frame station direction f b app : same_mode app (push_frame station direction f b app).
Proof. unfold push_frame. by repeat case_match. Qed.
Lemma mode_fold {A} (f : App.t -> A -> App.t) l app : (forall a x, same_mode a (f a x)) -> same_mode app (fold_left f l app).
Proof. intros Hf. revert app. induction l as [|x l IH]; intros app; [done|]. simpl. by etrans; [apply Hf|apply IH]. Qed.
Lemma gentle_tame app w : tame app w -> gentle app w.
Proof. by intros [_ H]. Qed.
Lemma mode_read app read : same_mode app (read_state read app).
Proof. destruct read as [id [|]]; [apply mode_modify|done]. Qed.
Lemma mode_refreshed app read : same_mode app (refreshed read app).
Proof. unfold refreshed. etrans; [apply mode_read|]. destruct read as [id [|]]; [by case_match|done]. Qed.
Lemma gentle_quietly app app' : same_mode app app' -> gentle app (quietly app').
Proof. intros [H1 H2]. by apply gentle_level. Qed.
Lemma gentle_event e app : gentle app (on_event e app).
Proof.
  destruct e as [id|id why|id direction f|id text|id|id|id addr why]; cbn [on_event].
  - cbv zeta. set (app1 := match find_station id (App.stations app) with Some _ => _ | None => _ end).
    assert (Hm : same_mode app (push_line id LogLevel.Success (lit "connected") app1)).
    { etrans; [|apply mode_push_line]. unfold app1. case_match; [apply mode_modify|apply mode_ensure]. }
    apply (gentle_then _ _ _ Hm). generalize (push_line id LogLevel.Success (lit "connected") app1). intros app2.
    apply gentle_tame, tame_then; [destruct (App.selected app2); [by apply tame_quietly|apply tame_select]|].
    intros a. apply tame_quietly. unfold mark_info. by case_match.
  - apply gentle_quietly. unfold mark_info. cbv zeta.
    etrans; [apply (mode_ensure id false)|]. etrans; [apply (mode_modify id)|]. etrans; [apply mode_push_line|]. by case_match.
  - cbv zeta. destruct (if is_selected _ id then _ else _) as [app2 dup] eqn:Ed. apply gentle_quietly.
    assert (H2 : same_mode app app2).
    { destruct direction; destruct (is_selected _ id) in Ed; unfold is_duplicate in Ed; repeat case_match; by simplify_eq. }
    etrans; [exact H2|]. clear H2 Ed.
    match goal with |- context [is_selected ?a id] => generalize (is_selected a id) end. intros chosen.
    etrans; [apply (mode_push_frame id direction f (chosen && negb dup))|]. by destruct chosen, direction.
  - apply gentle_quietly, mode_push_line.
  - eapply gentle_then; [apply mode_push_line|]. unfold remove_station. cbv zeta. case_match; [|by apply gentle_quietly].
    case_match; [|by apply gentle_quietly]. case_match; [|by apply gentle_quietly].
    eapply gentle_then; [|apply gentle_tame, tame_select]. done.
  - apply gentle_quietly. etrans; [apply (mode_ensure id false)|done].
  - apply gentle_quietly. by case_match.
Qed.
Lemma gentle_update msg app :
  (forall key, msg <> Msg.Press key) -> (forall st c o, msg <> Msg.CommandDone st c o) -> gentle app (update msg app).
Proof.
  intros Hk Hd. destruct msg as [key|text|w h|now| |e|n| |infos states|id history info state|states info|lv text|st c o|rules]; cbn [update].
  - by destruct (Hk key).
  - eapply gentle_then; [|apply gentle_tame, tame_paste_text]. done.
  - by apply gentle_quietly.
  - unfold tick. cbv zeta.
    match goal with |- gentle app (if ?b then (?a1, ?f1) else (?a2, ?f2)) => assert (Ha : same_mode app a2) by (by repeat case_match);
      assert (Hf : Forall (fun e => harmless e = true) f2) by (repeat case_match; repeat constructor) end.
    match goal with |- gentle app (if ?b then _ else _) => destruct b end; [|apply gentle_level; [apply Ha|apply Ha|done]].
    apply gentle_level; [apply Ha|apply Ha|]. apply Forall_app. split; [done|by repeat constructor].
  - by apply gentle_quietly.
  - eapply gentle_then; [|apply gentle_event]. done.
  - apply gentle_level; [done..|by repeat constructor].
  - by apply gentle_quietly.
  - unfold resync. cbv zeta. eapply gentle_then; [|apply gentle_tame, tame_select].
    match goal with |- same_mode app (?a <| App.selected := None |>) => assert (Ha : same_mode app a) end; [|exact Ha].
    set (app0 := _ <| App.stations := _ |>). assert (H0 : same_mode app app0) by done.
    etrans; [exact H0|]. etrans; [apply (mode_fold (fun a r => read_state r a) states); intros; apply mode_read|]. done.
  - apply gentle_quietly. cbv zeta. case_match; [|done].
    assert (Hl : same_mode app (load_history history (app <| App.dirty := true |>))).
    { assert (H0 : same_mode app (reset_station_log (app <| App.dirty := true |>))) by done. etrans; [exact H0|]. unfold load_history.
      generalize (reset_station_log (app <| App.dirty := true |>)). intros app1.
      assert (H1 : same_mode app1 (fold_left load_entry history app1)); [|exact H1].
      apply mode_fold. intros a x. unfold load_entry. by case_match. }
    destruct state as [state|]; [|exact Hl]. etrans; [exact Hl|].
    generalize (load_history history (app <| App.dirty := true |>)). intros app2.
    exact (mode_modify id (apply_state state) (app2 <| App.info := info |>)).
  - apply gentle_quietly. assert (Hl : same_mode app (fold_left (fun a r => refreshed r a) states (app <| App.dirty := true |>))).
    { etrans; [|apply (mode_fold (fun a r => refreshed r a)); intros; apply mode_refreshed]. done. }
    cbv zeta. etrans; [exact Hl|]. by repeat case_match.
  - by apply gentle_quietly.
  - by destruct (Hd st c o).
  - by apply gentle_quietly.
Qed.

(** ** Nothing leaves the terminal unasked *)

(** Why a command goes to a station: the question about it is confirmed; its form, opened for that
    station, is submitted, and it needs no confirmation; or the cache of the selected, connected
    station is cleared by the action itself. *)
Definition asked app (key : Key) (station : str) (c : Command.t) : Prop :=
  (exists m, App.mode app = Mode.Confirm (mk_confirm m (ConfirmSend station c)) /\ yes key) \/
  (submits key (App.mode app) station (Submitted.Send c) /\ needs_confirm c = false) \/
  (c = Command.ClearCache /\ chooses key (App.mode app) ActionId.ClearCache /\
   App.selected app = Some station /\ shown app station = Some true).
(** Why a question is open: a form that needs confirmation was submitted, or a selected station that
    is not connected, or some rules are to be forgotten. The text names what will be done. *)
Definition questioned app (key : Key) (q : Confirm) : Prop :=
  (exists station c, submits key (App.mode app) station (Submitted.Send c) /\ needs_confirm c = true /\
     q = mk_confirm (lit "Send " ++ label c ++ lit " to " ++ sanitize station ++ lit "?") (ConfirmSend station c)) \/
  (exists station, chooses key (App.mode app) ActionId.Forget /\ App.selected app = Some station /\
     shown app station <> Some true /\
     q = mk_confirm (lit "Forget station " ++ sanitize station ++ lit " and its state?") (ConfirmForget station)) \/
  (chooses key (App.mode app) ActionId.ClearRules /\ no_rules (App.rules app) = false /\ confirm_action q = ConfirmClearRules).
(** What an effect that changes something presupposes. *)
Definition wanted app (key : Key) (e : Effect.t) : Prop :=
  match e with
  | Effect.Send station c => asked app key station c
  | Effect.Forget station => exists m, App.mode app = Mode.Confirm (mk_confirm m (ConfirmForget station)) /\ yes key
  | Effect.ClearRules => exists m, App.mode app = Mode.Confirm (mk_confirm m ConfirmClearRules) /\ yes key
  | Effect.Respond action payload => exists st, submits key (App.mode app) st (Submitted.Rule action payload)
  | Effect.Inject action kind n payload => exists st, submits key (App.mode app) st (Submitted.Fault action kind n payload)
  | Effect.RemoveRule action => exists st, submits key (App.mode app) st (Submitted.RemoveRule action)
  | _ => True
  end.

Definition sends (fx : list Effect.t) : nat :=
  length (retain (fun e => match e with Effect.Send _ _ => true | _ => false end) fx).
Lemma sends_harmless fx : Forall (fun e => harmless e = true) fx -> sends fx = 0%nat.
Proof.
  unfold sends. induction 1 as [|e fx He _ IH]; [done|]. simpl. by destruct e.
Qed.
(** The state in which the keys are handled. *)
Definition awake app : App.t := set_mode Mode.Normal (app <| App.dirty := true |>).
Lemma summary_connected app station :
  is_some_and Summary.connected (summary app station) = true <-> shown app station = Some true.
Proof.
  unfold summary, shown. destruct (find_station station (App.stations app)) as [i|] eqn:E.
  - apply find_station_at in E as (l1 & x & l2 & -> & -> & _ & _ & Hr). rewrite Hr. simpl.
    rewrite list_lookup_middle by done. simpl. destruct (Summary.connected x); naive_solver.
  - apply find_station_row in E. by rewrite E.
Qed.
(** What a key does, by case. *)
Lemma press_cases key app :
  let w := update (Msg.Press key) app in
  (App.pending w.1 = App.pending app /\ Forall (fun e => harmless e = true) w.2 /\
   (App.mode w.1 = App.mode app \/ no_question (App.mode w.1))) \/
  (exists e, w.2 = [e] /\ harmless e = false /\ wanted app key e /\ no_question (App.mode w.1) /\
     App.pending w.1 = App.pending app + Z.of_nat (sends [e])) \/
  (w.2 = [] /\ App.pending w.1 = App.pending app /\ exists q, App.mode w.1 = Mode.Confirm q /\ questioned app key q).
Proof.
  cbv zeta. cbn [update]. destruct (released key); [left; split; [done|split; [by constructor|by left]]|].
  pose proof (handle_cases key (app <| App.dirty := true |>)) as Hc. cbv zeta in Hc.
  change (set_mode Mode.Normal (app <| App.dirty := true |>)) with (awake app) in Hc.
  change (App.mode (app <| App.dirty := true |>)) with (App.mode app) in Hc.
  destruct Hc as [[H|H]|[(id & Hid & H)|[(st & x & Hx & H)|(c & Hc & Hy & H)]]].
  - left. destruct H as (_ & H1 & H2 & H3). done.
  - left. destruct H as (_ & H1 & H2 & H3). split; [done|]. split; [done|]. right. by destruct H3 as [->|H3].
  - rewrite H. destruct (run_action_cases id (awake app)) as [Ht|(Hr & -> & Hids)].
    { left. destruct Ht as (_ & H1 & H2 & H3). split; [done|]. split; [done|]. right. by destruct H3 as [->|H3]. }
    right. unfold reason_for in Hr. change (App.selected (awake app)) with (App.selected app) in Hr.
    destruct Hids as [->|[->| ->]]; cbn [run_available].
    + left. destruct (App.selected app) as [st|] eqn:Hs; [|done]. unfold when_ in Hr. case_match eqn:Eb; [done|].
      apply negb_false_iff, summary_connected in Eb. exists (Effect.Send st Command.ClearCache).
      change (App.selected (awake app)) with (App.selected app). rewrite Hs. split; [done|]. split; [done|]. split; [|done].
      right. right. done.
    + right. split; [done|]. split; [done|]. eexists. split; [done|]. right. right. split; [done|]. split; [|done].
      assert (Hn : nothing_active (awake app) = None) by (by destruct (App.selected app)).
      unfold nothing_active, when_ in Hn. change (App.rules (awake app)) with (App.rules app) in Hn. by case_match.
    + right. split; [done|]. split; [done|]. destruct (App.selected app) as [st|] eqn:Hs; [|done].
      unfold when_ in Hr. case_match eqn:Eb; [done|]. eexists. split; [done|]. right. left. exists st.
      change (App.selected (awake app)) with (App.selected app). rewrite Hs. split; [done|]. split; [done|]. split; [|done].
      intros Hc. assert (shown (awake app) st = Some true) by done. apply summary_connected in H0. congruence.
  - rewrite H. right. destruct x as [c|action payload|action kind n payload|action]; cbn [submitted].
    + destruct (needs_confirm c) eqn:En.
      * right. split; [done|]. split; [done|]. eexists. split; [done|]. left. by exists st, c.
      * left. exists (Effect.Send st c). split; [done|]. split; [done|]. split; [|done]. right. by left.
    + left. eexists. split; [done|]. split; [done|]. split; [by exists st|]. split; [done|]. simpl. by rewrite Z.add_0_r.
    + left. eexists. split; [done|]. split; [done|]. split; [by exists st|]. split; [done|]. simpl. by rewrite Z.add_0_r.
    + left. eexists. split; [done|]. split; [done|]. split; [by exists st|]. split; [done|]. simpl. by rewrite Z.add_0_r.
  - rewrite H. right. left. destruct c as [m a]. cbn [confirm_action] in *. destruct a as [st c|st|]; cbn [confirmed].
    + exists (Effect.Send st c). split; [done|]. split; [done|]. split; [|done]. left. by exists m.
    + exists (Effect.Forget st). split; [done|]. split; [done|]. split; [by exists m|]. split; [done|]. simpl. by rewrite Z.add_0_r.
    + exists Effect.ClearRules. split; [done|]. split; [done|]. split; [by exists m|]. split; [done|]. simpl. by rewrite Z.add_0_r.
Qed.

(** Claim C10: nothing leaves the terminal that was not asked for. An update produces an effect that
    changes the registry or a station only on a key that asks for exactly that: a command goes out
    when its question is answered with y, or its form is submitted and it disrupts nothing, or the
    cache of the selected connected station is cleared; a reset, the forgetting of a station and
    the clearing of all rules only behind a question, which only a key opens, and which names the
    station and the command. At most one such effect comes of a key, and it is counted. *)
Theorem nothing_unasked msg app :
  let '(app', fx) := update msg app in
  (forall e, List.In e fx -> harmless e = false ->
     fx = [e] /\ exists key, msg = Msg.Press key /\ released key = false /\ wanted app key e) /\
  (forall q, App.mode app' = Mode.Confirm q ->
     App.mode app = Mode.Confirm q \/ exists key, msg = Msg.Press key /\ released key = false /\ questioned app key q).
Proof.
  destruct (update msg app) as [app' fx] eqn:Hu.
  assert (Hgentle : gentle app (app', fx) ->
    (forall e, List.In e fx -> harmless e = false -> fx = [e] /\ exists key, msg = Msg.Press key /\ released key = false /\ wanted app key e) /\
    (forall q, App.mode app' = Mode.Confirm q -> App.mode app = Mode.Confirm q \/ exists key, msg = Msg.Press key /\ released key = false /\ questioned app key q)).
  { intros (_ & Hf & Hm). split.
    - intros e He Hh. rewrite Forall_forall in Hf. specialize (Hf e (proj2 (list_elem_of_In _ _) He)). congruence.
    - intros q Hq. left. destruct Hm as [Hm|Hm]; simpl in Hm; [congruence|]. by rewrite Hq in Hm. }
  destruct msg as [key|text|w h|now| |ev|n| |infos states|id history info state|states info|lv text|st c o|rules];
    try (apply Hgentle; rewrite <- Hu; by apply gentle_update).
  - destruct (released key) eqn:Er; [apply Hgentle; cbn [update] in Hu; rewrite Er in Hu; injection Hu as <- <-; by apply gentle_quietly|].
    pose proof (press_cases key app) as Hc. rewrite Hu in Hc. cbn [fst snd] in Hc.
    destruct Hc as [Hc|[(e & -> & Hh & Hw & Hm & _)|(-> & _ & q & Hm & Hq)]]; [by apply Hgentle| |].
    + split; [|intros q Hq; by rewrite Hq in Hm]. intros e' [<-|[]] _. split; [done|]. by exists key.
    + split; [by intros e []|]. intros q'. rewrite Hm. intros [= <-]. right. by exists key.
  - cbn [update] in Hu. injection Hu as <- <-. split; [by intros e []|]. intros q Hq. left. unfold command_done in Hq. cbv zeta in Hq.
    repeat case_match; by simplify_eq.
Qed.

(** ** What the messages do to the list *)

Lemma press_stations key app : App.stations (update (Msg.Press key) app).1 = App.stations app.
Proof.
  cbn [update]. destruct (released key); [done|]. pose proof (handle_cases key (app <| App.dirty := true |>)) as Hc. cbv zeta in Hc.
  change (set_mode Mode.Normal (app <| App.dirty := true |>)) with (awake app) in Hc.
  destruct Hc as [[[H _]|[H _]]|[(id & _ & H)|[(st & x & _ & H)|(c & _ & _ & H)]]]; [done..| | |]; rewrite H.
  - destruct (run_action_cases id (awake app)) as [[Ht _]|(_ & -> & Hids)]; [done|]. by destruct Hids as [->|[->| ->]].
  - destruct x; cbn [submitted]; by try case_match.
  - by destruct (confirm_action c).
Qed.
Lemma same_list app app' :
  App.stations app' = App.stations app -> sorted (App.stations app) ->
  sorted (App.stations app') /\ forall k, shown app' k = shown app k.
Proof. intros He Hs. split; [by rewrite He|by apply shown_same]. Qed.
Lemma push_line_stations station lv text app : App.stations (push_line station lv text app) = App.stations app.
Proof. unfold push_line. by case_match. Qed.
Lemma push_frame_stations station direction f b app : App.stations (push_frame station direction f b app) = App.stations app.
Proof. unfold push_frame. by repeat case_match. Qed.
Lemma mark_info_stations station app : App.stations (mark_info station app) = App.stations app.
Proof. unfold mark_info. by case_match. Qed.
Lemma event_list e app :
  sorted (App.stations app) ->
  sorted (App.stations (on_event e app).1) /\ forall k, shown (on_event e app).1 k = hear k e (shown app k).
Proof.
  intros Hs. destruct e as [id|id why|id direction f|id text|id|id|id addr why]; cbn [on_event].
  - cbv zeta. set (app1 := match find_station id (App.stations app) with Some _ => _ | None => _ end).
    set (app2 := push_line id LogLevel.Success (lit "connected") app1).
    assert (Hw : forall w, App.stations w.1 = App.stations app2 ->
              App.stations (then_ w (fun a => quietly (mark_info id a))).1 = App.stations app1).
    { intros [a fx] Ha. simpl in *. by rewrite mark_info_stations, Ha, <- (push_line_stations id LogLevel.Success (lit "connected") app1). }
    match goal with |- sorted (App.stations (fst (then_ ?w ?f))) /\ _ => assert (H2 : App.stations (then_ w f).1 = App.stations app1) end.
    { apply Hw. destruct (App.selected app2); [done|apply select_stations]. }
    rewrite H2. assert (H1 : sorted (App.stations app1) /\ forall k, shown app1 k = hear k (CsmsEvent.Connected id) (shown app k)).
    { unfold app1. destruct (find_station id (App.stations app)) as [i|] eqn:E.
      - destruct (modify_list id (fun x => x <| Summary.connected := true |>) app) as [H3 H4]; [done..|]. split; [done|].
        intros k. rewrite H4. simpl. destruct (id == k); [|done]. by apply find_station_at in E as (? & x & ? & _ & _ & _ & _ & ->).
      - destruct (ensure_list id true app Hs) as [H3 H4]. split; [done|]. intros k. rewrite H4. simpl. destruct (id == k); [|done].
        apply find_station_row in E. unfold shown. by rewrite E. }
    split; [apply H1|]. intros k. rewrite (shown_same app1 _ H2). apply H1.
  - destruct (ensure_list id false app Hs) as [H1 H2]. cbn [fst quietly].
    set (f := fun x => x <| Summary.connected := false |> <| Summary.replaced := match why with Replaced => true | _ => false end |>).
    destruct (modify_list id f (ensure_station id false app)) as [H3 H4]; [done..|].
    match goal with |- sorted (App.stations ?a) /\ _ => assert (H5 : App.stations a = App.stations (modify_summary id f (ensure_station id false app)))
      by by rewrite mark_info_stations, push_line_stations end.
    rewrite H5. split; [done|]. intros k. rewrite (shown_same _ _ H5), H4. cbn [hear]. destruct (id == k) eqn:E; [|by rewrite H2, E].
    specialize (H2 id). rewrite eqb_refl in H2. unfold shown in H2. by destruct (row_of id _).
  - cbv zeta. destruct (if is_selected _ id then _ else _) as [app2 dup] eqn:Ed. apply same_list; [|done]. cbn [fst quietly].
    assert (H2 : App.stations app2 = App.stations app).
    { destruct direction; destruct (is_selected _ id) in Ed; unfold is_duplicate in Ed; repeat case_match; by simplify_eq. }
    clear Ed. match goal with |- context [is_selected ?a id] => generalize (is_selected a id) end. intros chosen.
    rewrite <- H2, <- (push_frame_stations id direction f (chosen && negb dup) app2). by destruct chosen, direction.
  - apply same_list; [apply push_line_stations|done].
  - set (app1 := push_line id LogLevel.Warn (lit "forgotten") app). assert (H1 : App.stations app1 = App.stations app) by apply push_line_stations.
    destruct (remove_list id app1) as [H2 H3]; [by rewrite H1|]. split; [done|]. intros k. by rewrite H3, (shown_same app app1 H1).
  - destruct (ensure_list id false app Hs) as [H1 H2]. split; [exact H1|]. intros k. transitivity (shown (ensure_station id false app) k); [done|].
    rewrite H2. cbn [hear]. destruct (id == k) eqn:E; [|done]. by apply (proj1 (eqb_true _ _)) in E as <-.
  - apply same_list; [|done]. cbn [fst quietly]. by case_match.
Qed.
Lemma refreshed_list app read :
  sorted (App.stations app) -> sorted (App.stations (refreshed read app)) /\ forall k, shown (refreshed read app) k = shown app k.
Proof.
  intros Hs. destruct (read_state_list app read Hs) as [H1 H2]. assert (Ha : App.stations (refreshed read app) = App.stations (read_state read app)).
  { unfold refreshed. destruct read as [id [|]]; [by case_match|done]. }
  rewrite Ha. split; [done|]. intros k. by rewrite (shown_same _ _ Ha).
Qed.
Lemma load_stations history app : App.stations (load_history history app) = App.stations app.
Proof.
  unfold load_history. simpl. assert (H : forall a, App.stations (fold_left load_entry history a) = App.stations a).
  { induction history as [|e history IH]; intros a; [done|]. simpl. rewrite IH. unfold load_entry. by case_match. }
  by rewrite H.
Qed.

Lemma done_fields station c outcome app :
  App.stations (command_done station c outcome app) = App.stations app /\
  App.pending (command_done station c outcome app) = saturating_sub (App.pending app) 1.
Proof.
  unfold command_done. cbv zeta. match goal with |- context [match outcome with Ok _ => _ | Err _ => _ end] => idtac end.
  match goal with |- context [match ?x with pair _ _ => _ end] => generalize x end. intros [[[[[ok text] lv] copy] content] lines].
  destruct (summary _ station); [|done]. by repeat case_match.
Qed.

(** When no station is left, a resync shows none as selected, and still what was known of the last. *)
Lemma resync_keeps_last_station app :
  App.station_filter app = [] ->
  let app' := (resync [] [] app).1 in
  App.stations app' = [] /\ App.selected app' = None /\ App.info app' = App.info app /\
  App.state app' = App.state app /\ App.station_log app' = App.station_log app /\ App.results app' = App.results app.
Proof.
  intros Hf. cbv zeta. unfold resync. cbv zeta. simpl.
  assert (Hn : (let? id := App.selected app in @None str) = None) by by destruct (App.selected app).
  rewrite Hn. unfold visible_at, unfiltered, refilter. simpl. rewrite Hf. simpl. done.
Qed.

(** What a message says of the list of stations. *)
Definition says (msg : Msg.t) k (b : option bool) : option bool :=
  match msg with
  | Msg.Event e => hear k e b
  | Msg.Resynced infos _ => reported infos k
  | _ => b
  end.
Definition well_read (msg : Msg.t) : Prop :=
  match msg with Msg.Resynced infos _ => NoDup (map StationInfo.id infos) | _ => True end.
Lemma update_list msg app :
  sorted (App.stations app) -> well_read msg ->
  sorted (App.stations (update msg app).1) /\ forall k, shown (update msg app).1 k = says msg k (shown app k).
Proof.
  intros Hs Hw. destruct msg as [key|text|w h|now| |e|n| |infos states|id history info state|states info|lv text|st c o|rules];
    try (by apply (same_list app)).
  - apply (same_list app); [apply press_stations|done].
  - apply (same_list app); [|done]. cbn [update]. by destruct (tame_paste_text text (app <| App.dirty := true |>)) as [-> _].
  - apply (same_list app); [|done]. cbn [update]. unfold tick. cbv zeta. by repeat case_match.
  - cbn [update says]. set (app1 := app <| App.dirty := true |>). exact (event_list e app1 Hs).
  - cbn [update says]. by apply resync_list.
  - cbn [update says]. cbn [fst quietly]. cbv zeta. case_match; [|by apply (same_list app)].
    set (app1 := (load_history history (app <| App.dirty := true |>)) <| App.info := info |>).
    assert (H1 : App.stations app1 = App.stations app) by exact (load_stations history (app <| App.dirty := true |>)).
    destruct state as [state|]; [|by apply (same_list app)].
    destruct (read_state_list app1 (id, Some state)) as [H2 H3]; [by rewrite H1|]. split; [done|]. intros k. rewrite <- (shown_same app app1 H1).
    by rewrite <- H3.
  - cbn [update says]. cbn [fst quietly]. cbv zeta.
    assert (Hf : forall a, sorted (App.stations a) -> sorted (App.stations (fold_left (fun app r => refreshed r app) states a)) /\
                   forall k, shown (fold_left (fun app r => refreshed r app) states a) k = shown a k).
    { clear. induction states as [|r states IH]; intros a Hs; [done|]. simpl. destruct (refreshed_list a r Hs) as [H1 H2].
      destruct (IH _ H1) as [H3 H4]. split; [done|]. intros k. by rewrite H4, H2. }
    set (app1 := app <| App.dirty := true |>). destruct (Hf app1 Hs) as [H1 H2].
    match goal with |- context [fold_left ?f ?l ?a0] => set (a := fold_left f l a0) in * end.
    assert (Ha : forall b, App.stations b = App.stations a -> sorted (App.stations b) /\ forall k, shown b k = shown app k).
    { intros b Hb. split; [rewrite Hb; exact H1|]. intros k. rewrite (shown_same a b Hb). exact (H2 k). }
    destruct info as [[id i]|]; [destruct (is_selected a id)|]; by apply Ha.
  - apply (same_list app); [|done]. cbn [update says].
    set (app1 := app <| App.dirty := true |>). exact (proj1 (done_fields st c o app1)).
Qed.
End ui.
End CsmsUi.

(** * CsmsMirror: the terminal of the CSMS follows the registry

    The loop of [CsmsLoop.v] from its start, over lost events, late events, operations on the
    registry at any moment and the effects of the terminal itself. *)

Module CsmsMirror.
Import CsmsConfig CsmsServer CsmsTyped CsmsCommand TuiText CsmsForm LogView CsmsApp CsmsActions CsmsLoop CsmsUi.

Section mirror.
Context {J : SerdeJson} {T : JsonText} {L : LogText} {K : Chrono} {N : ScenarioRunner.NumberEq} {U : Unicode} {P : UiText}
  {F : CsmsFormat} {V : Schema.JsonSchema} {D : TypedWire} {C : CommandWire} {W : FormWire} {R : CsmsState.CsmsWire}.
Implicit Types (s : Server.t) (app : App.t) (k : str) (l : Loop.t).

(** What the effects put into the queue. *)
Definition produced (msg : Msg.t) : Prop :=
  match msg with
  | Msg.Resynced infos _ => NoDup (map StationInfo.id infos)
  | Msg.Loaded _ _ _ _ | Msg.Refreshed _ _ | Msg.Notice _ _ | Msg.Rules _ => True
  | _ => False
  end.
(** The list after the messages of a queue. *)
Definition told_by (q : list Msg.t) k (b : option bool) : option bool := fold_left (fun b msg => says msg k b) q b.
(** The events that have not been received lead from the list, as the queue will leave it, to the
    registry. *)
Definition caught_up l : Prop := forall k,
  replay k (drop (Loop.seen l) (all_events (Loop.server l))) (told_by (Loop.queue l) k (shown (Loop.app l) k))
  = online (Loop.server l) k.
Record faithful l : Prop := {
  f_named : named (Loop.server l);
  f_online : forall k, online (Loop.server l) k = replay k (all_events (Loop.server l)) None;
  f_seen : (Loop.seen l <= length (all_events (Loop.server l)))%nat;
  f_sorted : sorted (App.stations (Loop.app l));
  f_queue : Forall produced (Loop.queue l);
  f_caught : List.In Effect.Resync (Loop.effects l) \/ caught_up l;
  f_pending : App.pending (Loop.app l) = Z.of_nat (length (Loop.tasks l) + sends (Loop.effects l));
}.

Lemma replay_app k es es' b : replay k (es ++ es') b = replay k es' (replay k es b).
Proof. unfold replay. by rewrite fold_left_app. Qed.
Lemma told_by_app q q' k b : told_by (q ++ q') k b = told_by q' k (told_by q k b).
Proof. unfold told_by. by rewrite fold_left_app. Qed.
(** Whatever has been received, the rest of the events leaves the registry as it is. *)
Lemma replay_rest s n k :
  online s k = replay k (all_events s) None -> replay k (drop n (all_events s)) (online s k) = online s k.
Proof. intros ->. rewrite <- (take_drop n (all_events s)) at 2 3. rewrite replay_app. apply replay_again. Qed.

(** ** The registry *)

Lemma told_all s s' :
  told s s' -> exists es, all_events s' = all_events s ++ es /\ (forall k, online s' k = replay k es (online s k)) /\ (named s -> named s').
Proof. intros (l & He & H). exists (rev l). split; [|done]. unfold all_events. by rewrite He, rev_app_distr. Qed.
(** Extends the registry of a loop along [told]. *)
Definition with_server s l : Loop.t := l <| Loop.server := s |>.
Lemma caught_told s l : (Loop.seen l <= length (all_events (Loop.server l)))%nat -> told (Loop.server l) s ->
  caught_up l -> caught_up (with_server s l).
Proof.
  intros Hn (es & He & Ho & _)%told_all Hc k. unfold with_server. simpl. rewrite He, drop_app_le, replay_app, Ho by done. f_equal. apply Hc.
Qed.
Lemma faithful_told s l : faithful l -> told (Loop.server l) s -> faithful (with_server s l).
Proof.
  intros [Hn Ho Hs Hso Hq Hc Hp] Ht. pose proof (told_all _ _ Ht) as (es & He & Hos & Hns). constructor; try done; simpl.
  - by apply Hns.
  - intros k. by rewrite Hos, He, replay_app, Ho.
  - rewrite He, length_app. lia.
  - destruct Hc as [Hc|Hc]; [by left|right]. by apply caught_told.
Qed.

(** *** The effects *)

Lemma told_respond s action r : told s (respond s action r).
Proof. by apply told_same. Qed.
Lemma told_inject s f : told s (inject s f).
Proof. unfold inject. case_match; [by apply told_same|reflexivity]. Qed.
Lemma told_clear_all s actions : told s (fold_left clear_responder actions s).
Proof. revert s. induction actions as [|a actions IH]; intros s; simpl; [reflexivity|]. etrans; [|apply IH]. by apply told_same. Qed.
(** What an effect does besides reading: it tells what it changes, it produces messages that say
    nothing of the list unless it was a fresh reading of the registry, and it spawns what it sends. *)
Lemma execute_spec copied e s s' msgs task :
  named s -> execute copied e s = (s', msgs, task) ->
  told s s' /\ Forall produced msgs /\
  (forall k b, told_by msgs k b = match e with Effect.Resync => online s' k | _ => b end) /\
  length (match task with Some t => [t] | None => [] end) = sends [e].
Proof.
  intros Hn H. destruct e; simpl in H; simplify_eq;
    try (split; [first [reflexivity|apply told_respond|apply told_inject|by apply told_same]|split; [by repeat constructor|done]]; fail).
  - destruct (snapshot_list s' Hn) as [H1 H2]. split; [reflexivity|]. split; [by repeat constructor|]. split; [|done]. intros k b. apply H2.
  - split; [|split; [by repeat constructor|done]]. etrans; [|apply told_clear_all]. by apply told_same.
  - pose proof (told_forget s id) as Ht. destruct (forget s id) as [s1 found]. simplify_eq. split; [exact Ht|]. split; [by repeat constructor|done].
Qed.

(** *** The updates *)

(** Commands counted by an update are the ones it sends. *)
Lemma update_pending msg app :
  (forall st c o, msg <> Msg.CommandDone st c o) ->
  App.pending (update msg app).1 = App.pending app + Z.of_nat (sends (update msg app).2).
Proof.
  intros Hd. assert (Hg : gentle app (update msg app) -> App.pending (update msg app).1 = App.pending app + Z.of_nat (sends (update msg app).2)).
  { intros (H1 & H2 & _). rewrite sends_harmless by done. lia. }
  destruct msg as [key|text|w h|now| |ev|n| |infos states|id history info state|states info|lv text|st c o|rules];
    try (apply Hg; by apply gentle_update).
  - destruct (press_cases key app) as [(H1 & H2 & H3)|[(e & -> & _ & _ & _ & ->)|(-> & -> & _)]]; [|done|by rewrite Z.add_0_r].
    by apply Hg.
Qed.
(** A round on a message that produces the list as [says] has it. *)
Lemma faithful_round msg l :
  faithful l -> Loop.effects l = [] -> well_read msg -> (forall st c o, msg <> Msg.CommandDone st c o) ->
  forall n q, Forall produced q -> (n <= length (all_events (Loop.server l)))%nat ->
  List.In Effect.Resync (update msg (Loop.app l)).2 \/
  (forall k, replay k (drop n (all_events (Loop.server l))) (told_by q k (says msg k (shown (Loop.app l) k))) = online (Loop.server l) k) ->
  faithful (round msg (l <| Loop.seen := n |> <| Loop.queue := q |>)).
Proof.
  intros [Hn Ho Hs Hso Hq Hc Hp] He Hw Hd n q Hq' Hn' Hc'. destruct (update_list msg (Loop.app l) Hso Hw) as [H1 H2].
  pose proof (update_pending msg (Loop.app l) Hd) as H3. unfold round. simpl.
  destruct (update msg (Loop.app l)) as [app fx] eqn:Hu. cbn [fst snd] in *. constructor; try done; simpl.
  - destruct Hc' as [Hc'|Hc']; [by left|right]. intros k. simpl. rewrite H2. apply Hc'.
  - rewrite H3, Hp, He. unfold sends at 1. simpl. lia.
Qed.
Lemma caught_now l : faithful l -> Loop.effects l = [] -> caught_up l.
Proof. intros [_ _ _ _ _ [Hc|Hc] _] He; [|done]. by rewrite He in Hc. Qed.

Lemma produced_read msg : produced msg -> well_read msg /\ forall st c o, msg <> Msg.CommandDone st c o.
Proof. by destruct msg. Qed.
Lemma outside_says msg : outside msg = true ->
  well_read msg /\ (forall st c o, msg <> Msg.CommandDone st c o) /\ forall k b, says msg k b = b.
Proof. by destruct msg. Qed.

Lemma faithful_effect l e fx copied s msgs task :
  faithful l -> Loop.effects l = e :: fx -> execute copied e (Loop.server l) = (s, msgs, task) ->
  faithful (l <| Loop.server := s |> <| Loop.effects := fx |> <| Loop.queue ::= fun q => q ++ msgs |>
              <| Loop.tasks ::= fun ts => ts ++ match task with Some t => [t] | None => [] end |>).
Proof.
  intros Hl He Hx. destruct (execute_spec _ _ _ _ _ _ (f_named _ Hl) Hx) as (Ht & Hm & Hsay & Htask).
  pose proof (faithful_told s l Hl Ht) as [Hn Ho Hs Hso Hq Hc Hp]. unfold with_server in *. simpl in Hn, Ho, Hs, Hso, Hq, Hc, Hp.
  constructor; try done; simpl.
  - by apply Forall_app.
  - assert (Hb : forall k b, told_by (Loop.queue l ++ msgs) k b = match e with Effect.Resync => online s k | _ => told_by (Loop.queue l) k b end).
    { intros k b. rewrite told_by_app, Hsay. by destruct e. }
    assert (Hfresh : e = Effect.Resync -> forall k, replay k (drop (Loop.seen l) (all_events s)) (told_by (Loop.queue l ++ msgs) k (shown (Loop.app l) k)) = online s k).
    { intros -> k. rewrite Hb. apply replay_rest, Ho. }
    rewrite He in Hc. destruct Hc as [[Heq|Hc]|Hc]; [right; intros k; exact (Hfresh Heq k)|by left|right].
    intros k. simpl. rewrite Hb. destruct e; try exact (Hc k). apply replay_rest, Ho.
  - rewrite Hp, He, length_app, Htask. unfold sends. simpl. destruct e; simpl; lia.
Qed.
Lemma faithful_done l before station command after outcome :
  faithful l -> idle l -> Loop.tasks l = before ++ (station, command) :: after ->
  faithful (round (Msg.CommandDone station command outcome) (l <| Loop.tasks := before ++ after |>)).
Proof.
  intros Hl (He & Hq & _) Ht. pose proof (caught_now l Hl He) as Hc. destruct Hl as [Hn Ho Hs Hso Hqu _ Hp].
  pose proof (update_list (Msg.CommandDone station command outcome) (Loop.app l) Hso I) as [H1 H2].
  unfold round. cbn [update] in *. cbn [quietly fst snd] in *. set (app1 := (Loop.app l) <| App.dirty := true |>) in *.
  constructor; try done; simpl.
  - right. intros k. simpl. change (Loop.app _) with (Loop.app l) in *. rewrite H2. apply Hc.
  - pose proof (proj2 (done_fields station command outcome app1)) as H3. change (App.pending app1) with (App.pending (Loop.app l)) in H3.
    etransitivity; [exact H3|]. rewrite Hp, He, Ht, !length_app. unfold sends, saturating_sub. simpl. lia.
Qed.
Lemma faithful_step l l' : faithful l -> step l l' -> faithful l'.
Proof.
  intros Hl Hst. destruct Hst as [l o|l station text|l station addr reason|l e fx copied s msgs task He Hx|l msg q He Hquit Hq|l msg Hi Hout
    |l e Hi Hev|l n Hi Hn|l Hi Hall|l before station command after outcome Hi Ht].
  - apply faithful_told; [done|]. apply told_step, Hl.
  - apply (faithful_told (emit (Loop.server l) (CsmsEvent.Malformed station text))); [done|]. by apply told_emit.
  - apply (faithful_told (emit (Loop.server l) (CsmsEvent.AuthFailed station addr reason))); [done|]. by apply told_emit.
  - by apply (faithful_effect l e fx copied s msgs task).
  - pose proof (caught_now l Hl He) as Hc. unfold caught_up in Hc. rewrite Hq in Hc.
    pose proof (f_queue _ Hl) as Hpr. rewrite Hq, Forall_cons in Hpr. destruct Hpr as [Hm Hpr]. destruct (produced_read msg Hm) as [Hw Hd].
    apply (faithful_round msg l Hl He Hw Hd (Loop.seen l) q Hpr (f_seen _ Hl)). right. exact Hc.
  - destruct Hi as (He & Hq & _). pose proof (caught_now l Hl He) as Hc. unfold caught_up in Hc. destruct (outside_says msg Hout) as (Hw & Hd & Hsay).
    apply (faithful_round msg l Hl He Hw Hd (Loop.seen l) (Loop.queue l) (f_queue _ Hl) (f_seen _ Hl)). right. intros k. rewrite Hsay. apply Hc.
  - destruct Hi as (He & Hq & _). pose proof (caught_now l Hl He) as Hc. unfold caught_up in Hc.
    apply (faithful_round (Msg.Event e) l Hl He I (fun _ _ _ => ltac:(done)) (S (Loop.seen l)) (Loop.queue l) (f_queue _ Hl)).
    { by apply lookup_lt_Some in Hev. }
    right. intros k. specialize (Hc k). rewrite (drop_S _ e) in Hc by done. rewrite Hq in *. exact Hc.
  - destruct Hi as (He & Hq & _).
    apply (faithful_round (Msg.Lagged (Z.of_nat n)) l Hl He I (fun _ _ _ => ltac:(done)) (Loop.seen l + n)%nat (Loop.queue l) (f_queue _ Hl) Hn).
    left. by left.
  - destruct Hi as (He & Hq & _). pose proof (caught_now l Hl He) as Hc. unfold caught_up in Hc.
    apply (faithful_round Msg.Closed l Hl He I (fun _ _ _ => ltac:(done)) (Loop.seen l) (Loop.queue l) (f_queue _ Hl) (f_seen _ Hl)).
    right. exact Hc.
  - by apply faithful_done.
Qed.
Lemma told_run c ops : told (start c) (CsmsServer.run c ops).
Proof. apply told_steps. intros id r. unfold CsmsServer.get. simpl. by rewrite lookup_empty. Qed.
Lemma named_run c ops : named (CsmsServer.run c ops).
Proof. destruct (told_run c ops) as (_ & _ & _ & H). apply H. intros id r. unfold CsmsServer.get. simpl. by rewrite lookup_empty. Qed.
Lemma faithful_reachable c url now l : reachable c url now l -> faithful l.
Proof.
  induction 1 as [ops more size s|l l' _ IH Hst]; [|by eapply faithful_step].
  assert (Hn : named s) by apply named_run. destruct (snapshot_list s Hn) as [Hd Hr].
  assert (Ho : forall k, online s k = replay k (all_events s) None).
  { intros k. destruct (told_all _ _ (told_run c (ops ++ more))) as (es & He & Ho & _). fold s in He, Ho. rewrite Ho, He.
    unfold online, CsmsServer.get, all_events. simpl. by rewrite lookup_empty. }
  constructor; try done; simpl.
  - assert (Ht : told (CsmsServer.run c ops) s).
    { unfold s, CsmsServer.run. rewrite fold_left_app. apply told_steps. apply named_run. }
    apply told_all in Ht as (es & -> & _). rewrite length_app. lia.
  - constructor.
  - by repeat constructor.
  - right. intros k. simpl. rewrite Hr. by apply replay_rest.
Qed.

(** Claim C5: the list of the terminal follows the registry. From its start, through operations on
    the registry at any moment, events received late, events lost and read again, and the effects
    and commands of the terminal itself: the list stays sorted by id without a station twice; the
    number of pending commands is the number of commands under way or about to be sent; and when
    nothing waits in the queue or in the effects, the events that are still to be received lead
    from the list to the registry, so that once all are received the list holds exactly the
    stations of the registry, each connected as the registry has it. *)
Theorem ui_follows_registry c url now l :
  reachable c url now l ->
  sorted (App.stations (Loop.app l)) /\
  App.pending (Loop.app l) = Z.of_nat (length (Loop.tasks l) + sends (Loop.effects l)) /\
  (Loop.effects l = [] -> caught_up l) /\
  (Loop.effects l = [] -> Loop.queue l = [] -> Loop.seen l = length (all_events (Loop.server l)) ->
   forall k, shown (Loop.app l) k = (fun r => StationInfo.connected (StationRec.info r)) <$> CsmsServer.get (Loop.server l) k).
Proof.
  intros Hl%faithful_reachable. split; [apply Hl|]. split; [apply Hl|]. split; [intros He; by apply caught_now|].
  intros He Hq Hs k. pose proof (caught_now l Hl He k) as Hc. by rewrite Hs, Hq, drop_all in Hc.
Qed.
End mirror.

(** ** A station connects after the terminal was started *)

#[local] Existing Instance u64_json.
#[local] Existing Instance unit_text.
#[local] Existing Instance LogRuns.plain_text.
#[local] Existing Instance ns_chrono.
#[local] Existing Instance FormSessions.letters.
#[local] Existing Instance CsmsState.sample_wire.
#[local] Existing Instance CsmsServer.sample_format.
#[local] Existing Instance CsmsServer.no_errors.
#[local] Existing Instance FormSessions.sample_typed.
#[local] Existing Instance FormSessions.sample_commands.
#[local] Existing Instance FormSessions.sample_forms.
#[local] Existing Instance ScenarioRuns.z_eq.
#[local] Instance sample_ui : UiText :=
  {| fuzzy_score q t := if starts_with q t then Some (len q) else None; format_time _ _ := []; debug_str s := s; addr_text _ := [] |}.

Definition empty_registry : Server.t := start default_config.
Definition started : Loop.t := Loop.mk empty_registry (first_app default_config (lit "ws://localhost") 0 (80, 24)) 0 [resync_msg empty_registry] [] [].
Definition waiting : Loop.t := round (resync_msg empty_registry) (started <| Loop.queue := [] |>).
Definition joined : Loop.t :=
  waiting <| Loop.server := CsmsServer.step (Loop.server waiting) (Register (lit "A") (mk_addr [127; 0; 0; 1] 1) None 0) |>.
Definition heard : Loop.t := round (Msg.Event (CsmsEvent.Connected (lit "A"))) (joined <| Loop.seen ::= S |>).
Definition loading : Loop.t :=
  let '(s, msgs, task) := execute (NoticeLevel.Info, []) (Effect.Load (lit "A")) (Loop.server heard) in
  heard <| Loop.server := s |> <| Loop.effects := [] |> <| Loop.queue ::= fun q => q ++ msgs |>
        <| Loop.tasks ::= fun ts => ts ++ match task with Some t => [t] | None => [] end |>.
Lemma loading_reachable : reachable default_config (lit "ws://localhost") 0 loading.
Proof.
  apply (reach_step _ _ _ heard); [|by apply (step_effect heard (Effect.Load (lit "A")) [] (NoticeLevel.Info, []))].
  apply (reach_step _ _ _ joined); [|by apply step_event].
  apply (reach_step _ _ _ waiting); [|apply step_server].
  apply (reach_step _ _ _ started); [|by apply step_queue].
  apply (reach_start _ _ _ [] [] (80, 24)).
Qed.
Lemma ui_follows_registry_witness :
  reachable default_config (lit "ws://localhost") 0 loading /\ caught_up loading /\ shown (Loop.app loading) (lit "A") = Some true.
Proof.
  split; [apply loading_reachable|]. split; [|reflexivity].
  apply (ui_follows_registry default_config (lit "ws://localhost") 0 loading loading_reachable). reflexivity.
Defined.
End CsmsMirror.
