(* ===== verification/CsmsConsole.v ===== *)
(** * CsmsConsole: the CSMS without a terminal

    [headless.rs] and [stdin_cmd.rs] of [kirby-csms/src/]: what is printed of events and states,
    the reading of lines of bounded length from a stream that comes in pieces, and the commands on
    those lines. The pumps that write are in [LinePump.v]. *)

From stdpp Require Import strings gmap.
From S2P Require Import Prelude Text Utf8 Time Types Messages Frame Actions Schema Strings CsmsState CsmsConfig CsmsServer TuiText CsmsTyped CsmsCommand.
Local Open Scope Z_scope.

Module Headless.
Import CsmsConfig CsmsServer TuiText CsmsCommand.

(** [ts.format] of a clock, [to_rfc3339_opts(Millis, true)] and the text of an address. *)
Class ConsoleText : Type := {
  clock_text : DateTime -> str;
  stamp_text : DateTime -> str;
  address_text : SocketAddr -> str;
  (** [{:?}] of a duration *)
  duration_debug : Duration -> str;
}.

(** The options of the output: [--json], whether stdout is on, whether there is a log file. *)
Record Output : Type := mk_output { as_json : bool; stdout : bool; file : bool }.
(** A line for a pump. *)
Inductive Sent : Type := ToFile (line : str) | ToStdout (line : str).

Definition reason_name (r : DisconnectReason) : str :=
  match r with
  | Closed => lit "closed"
  | Replaced => lit "replaced"
  | Shutdown => lit "shutdown"
  | Injected => lit "injected"
  | CsmsServer.Forgotten => lit "forgotten"
  | PingTimeout => lit "ping_timeout"
  end.

Section headless.
Context {J : SerdeJson} {T : JsonText} {F : CsmsFormat} {H : ConsoleText}.

(** ** Lines *)

Definition write (out : Output) (stdout_line file_line : str) : list Sent :=
  (if file out then [ToFile file_line] else []) ++ (if stdout out then [ToStdout stdout_line] else []).
Definition event (out : Output) (value : json) (human : str) : list Sent :=
  let json_line := escape_json_unsafe (json_to_string value) in
  if as_json out then write out json_line json_line
  else write out (join 10 (map sanitize (split_on 10 human))) json_line.
Definition json_line (out : Output) (value : json) : list Sent :=
  let line := escape_json_unsafe (json_to_string value) in write out line line.
Definition note (out : Output) (text : str) : list Sent :=
  event out (object [(lit "type", String (lit "note")); (lit "text", String text)]) (lit "note: " ++ sanitize text).
Definition announce (out : Output) (addr url : str) : list Sent :=
  event out (object [(lit "type", String (lit "listening")); (lit "addr", String addr); (lit "url", String url)])
    (lit "listening on " ++ url).

(** ** Views of a station *)

(** Integer keys in order, as the [BTreeMap] of the state has them. *)
Definition by_number (a b : Z * CsmsState.ConnectorState.t) : Prop := a.1 <= b.1.
#[export] Instance by_number_dec : RelDecision by_number.
Proof. intros a b. unfold by_number. apply _. Defined.
Definition connectors_in_order (s : CsmsState.StationState.t) : list (Z * CsmsState.ConnectorState.t) :=
  merge_sort by_number (map_to_list (CsmsState.StationState.connectors s)).
Definition connector_statuses (s : CsmsState.StationState.t) : json :=
  object (map (fun '(id, c) => (to_string id, String (ConnectorStatus.as_str (CsmsState.ConnectorState.status c)))) (connectors_in_order s)).
Definition is_active (t : CsmsState.TransactionRecord.t) : bool := CsmsState.has_status CsmsState.Active t.
Definition active_transactions (s : CsmsState.StationState.t) : json :=
  Array (map (fun t => object [(lit "id", number (CsmsState.TransactionRecord.id t)); (lit "connector", number (CsmsState.TransactionRecord.connector t))])
           (retain is_active (CsmsState.StationState.transactions s))).
Definition station_summary (info : StationInfo.t) (state : option CsmsState.StationState.t) : json :=
  object
    ([(lit "id", String (StationInfo.id info)); (lit "connected", Bool (StationInfo.connected info));
      (lit "received_calls", number (StationInfo.received_calls info))]
     ++ optional (lit "remote_addr") (fun a => String (address_text a)) (StationInfo.remote_addr info)
     ++ match state with
        | Some s =>
            match CsmsState.StationState.boot s with
            | Some b => [(lit "vendor", String (CsmsState.BootInfo.vendor b)); (lit "model", String (CsmsState.BootInfo.model b))]
            | None => []
            end
            ++ [(lit "connectors", connector_statuses s); (lit "active_transactions", active_transactions s);
                (lit "security_events", number (CsmsState.StationState.security_events_total s))]
        | None => []
        end).

(** ** Events *)

(** The fields of a frame. *)
Definition frame_fields (f : Frame.Frame.t) : list (str * json) :=
  match f with
  | Frame.Frame.Call id action payload =>
      [(lit "kind", String (lit "call")); (lit "id", String id); (lit "action", String action); (lit "payload", payload)]
  | Frame.Frame.CallResult id payload => [(lit "kind", String (lit "result")); (lit "id", String id); (lit "payload", payload)]
  | Frame.Frame.CallError id code description details =>
      [(lit "kind", String (lit "error")); (lit "id", String id); (lit "code", String (ErrorCode.as_str code));
       (lit "description", String description); (lit "details", details)]
  end.
Definition frame_json (f : Frame.Frame.t) : json := object (frame_fields f).

(** [last_state]: the view printed last for a station. *)
Abbreviation Printer := (gmap str json).
Definition words (l : list str) : str := join 32 l.
(** A line when the statuses of the connectors or the active transactions have changed. [same] is
    the equality of JSON values. *)
Definition print_state (same : json -> json -> bool) (out : Output) (state : option CsmsState.StationState.t) (station stamp clock : str)
    (p : Printer) : Printer * list Sent :=
  match state with
  | None => (p, [])
  | Some s =>
      let fields := [(lit "connectors", connector_statuses s); (lit "active_transactions", active_transactions s)] in
      let view := object fields in
      if is_some_and (fun v => same v view) (p !! station) then (p, [])
      else
        let connectors := words (map (fun '(id, c) => id ++ lit "=" ++ default (lit "?") (as_str c))
                                   match connector_statuses s with Object map => map | _ => [] end) in
        let active := words (map (fun t => to_string (CsmsState.TransactionRecord.id t)) (retain is_active (CsmsState.StationState.transactions s))) in
        let human := clock ++ lit " " ++ sanitize station ++ lit " state: connectors [" ++ connectors
                     ++ lit "] active transactions [" ++ active ++ lit "]" in
        let value := object (fields ++ [(lit "type", String (lit "state")); (lit "ts", String stamp); (lit "station", String station)]) in
        (<[station := view]> p, event out value human)
  end.
(** [read] is the state of a station in the registry. *)
Definition print (same : json -> json -> bool) (out : Output) (now : DateTime) (read : str -> option CsmsState.StationState.t)
    (e : CsmsEvent.t) (p : Printer) : Printer * list Sent :=
  let clock := clock_text now in
  let stamp := stamp_text now in
  let fields kind rest := object ((lit "type", String (lit kind)) :: (lit "ts", String stamp) :: rest) in
  let station s := (lit "station", String s) in
  match e with
  | CsmsEvent.Connected s =>
      (p, event out (fields "connected" [station s]) (clock ++ lit " " ++ sanitize s ++ lit " connected"))
  | CsmsEvent.Disconnected s reason =>
      (p, event out (fields "disconnected" [station s; (lit "reason", String (reason_name reason))])
            (clock ++ lit " " ++ sanitize s ++ lit " disconnected (" ++ reason_name reason ++ lit ")"))
  | CsmsEvent.Frame s direction f =>
      let '(name, arrow) := match direction with In => (lit "in", lit "<-") | Out => (lit "out", lit "->") end in
      (p, event out
            (object (frame_fields f ++ [(lit "type", String (lit "frame")); (lit "ts", String stamp); station s;
                                        (lit "direction", String name)]))
            (clock ++ lit " " ++ sanitize s ++ lit " " ++ arrow ++ lit " " ++ sanitize (Frame.Frame.to_json_string f)))
  | CsmsEvent.Malformed s text =>
      (p, event out (fields "malformed" [station s; (lit "text", String text)])
            (clock ++ lit " " ++ sanitize s ++ lit " sent malformed text: " ++ sanitize text))
  | CsmsEvent.Forgotten s =>
      (base.delete s p, event out (fields "forgotten" [station s]) (clock ++ lit " " ++ sanitize s ++ lit " forgotten"))
  | CsmsEvent.StateChanged s => print_state same out (read s) s stamp clock p
  | CsmsEvent.AuthFailed s addr reason =>
      let who := match s with Some s => sanitize s | None => lit "unknown station" end in
      (p, event out (fields "auth_failed" [(lit "station", match s with Some s => String s | None => Null end);
                                           (lit "remote_addr", String (address_text addr)); (lit "reason", String reason)])
            (clock ++ lit " " ++ who ++ lit " refused (" ++ sanitize reason ++ lit ") from " ++ address_text addr))
  end.
End headless.
End Headless.

Module Stdin.
Import CsmsConfig CsmsServer CsmsTyped CsmsCommand Headless.

Definition MAX_TIMEOUT_MS : Z := 86400000.
Definition MAX_LINE_BYTES : Z := 1024 * 1024.

(** ** Lines of bounded length *)

Abbreviation byte := Z.
(** A line of bytes, without its newline, or one that was too long and discarded. *)
Inductive Input : Type := Line (bytes : list byte) | TooLong.
(** What reading the source gives: some bytes (none: its end), an interruption, or a failure. *)
Inductive Read : Type := Got (chunk : list byte) | Interrupted | Broken.

(** The buffer of the reader and what its source will give; the line so far. *)
Module Reading.
Record t : Type := mk { buffered : list byte; reads : list Read; line : list byte; too_long : bool }.
#[export] Instance eta : Eta t := fun r => mk (buffered r) (reads r) (line r) (too_long r).
End Reading.
Export (hints) Reading.
Implicit Types (r : Reading.t).

(** [BufRead::fill_buf]: what is buffered, or else the next bytes of the source. *)
Inductive Filled : Type := Chunk (chunk : list byte) | Retry | Failed.
Definition fill_buf r : Filled * Reading.t :=
  match Reading.buffered r, Reading.reads r with
  | _ :: _, _ => (Chunk (Reading.buffered r), r)
  | [], [] => (Chunk [], r)
  | [], Got chunk :: reads => (Chunk chunk, r <| Reading.buffered := chunk |> <| Reading.reads := reads |>)
  | [], Interrupted :: reads => (Retry, r <| Reading.reads := reads |>)
  | [], Broken :: reads => (Failed, r <| Reading.reads := reads |>)
  end.
(** A stretch of the line is read; bytes beyond the limit are dropped. *)
Definition absorb (limit : Z) (part : list byte) r : Reading.t :=
  if Reading.too_long r then r
  else if limit <? len (Reading.line r) + len part
       then r <| Reading.too_long := true |> <| Reading.line := [] |>
       else r <| Reading.line ::= fun l => l ++ part |>.
(** One round of the loop: it goes on, sends an item and goes on, or returns, perhaps with a last
    item. *)
Inductive Round : Type := Go (r : Reading.t) | Send (item : Input) (r : Reading.t) | Return (last : option Input).
Definition round (limit : Z) r : Round :=
  let '(filled, r) := fill_buf r in
  match filled with
  | Retry => Go r
  | Failed => Return None
  | Chunk [] =>
      Return (if Reading.too_long r then Some TooLong
              else match Reading.line r with [] => None | line => Some (Line line) end)
  | Chunk chunk =>
      let '(part, ended) := match position (fun b => b =? 10) chunk with
                            | Some at_ => (take at_ chunk, true)
                            | None => (chunk, false)
                            end in
      let consumed := (length part + if ended then 1 else 0)%nat in
      let r := (absorb limit part r) <| Reading.buffered ::= drop consumed |> in
      if ended : bool then
        let item := if Reading.too_long r then TooLong else Line (Reading.line r) in
        Send item (r <| Reading.too_long := false |> <| Reading.line := [] |>)
      else Go r
  end.
(** [accepts k] is what the receiver answers to item number [k]. *)
Fixpoint read_lines (fuel : nat) (limit : Z) (accepts : nat -> bool) (k : nat) r : option (list Input) :=
  match fuel with
  | O => None
  | S fuel =>
      match round limit r with
      | Go r => read_lines fuel limit accepts k r
      | Send item r =>
          if accepts k then cons item <$> read_lines fuel limit accepts (S k) r else Some [item]
      | Return last => Some match last with Some item => [item] | None => [] end
      end
  end.
Definition start (reads : list Read) : Reading.t := Reading.mk [] reads [] false.

(** ** Commands *)

Section commands.
Context {J : SerdeJson} {T : JsonText} {W : CsmsState.CsmsWire} {F : CsmsFormat} {V : Schema.JsonSchema} {H : ConsoleText}.
Implicit Types (s : Server.t).

(** The text of an error of the engine. *)
Definition error_text (e : CsmsError.t) : str :=
  match e with
  | CsmsError.Bind source => lit "failed to bind the CSMS listener: " ++ source
  | CsmsError.Tls reason => lit "TLS setup failed: " ++ reason
  | CsmsError.Config reason => lit "invalid configuration: " ++ reason
  | CsmsError.UnknownStation station => lit "unknown station " ++ station
  | CsmsError.NotConnected station => lit "station " ++ station ++ lit " is not connected"
  | CsmsError.Timeout station action timeout =>
      lit "station " ++ station ++ lit " did not answer " ++ action ++ lit " within " ++ duration_debug timeout
  | CsmsError.ConnectionClosed station action =>
      lit "connection to " ++ station ++ lit " closed before a reply to " ++ action ++ lit " arrived"
  | CsmsError.CallError station action code description =>
      lit "station " ++ station ++ lit " answered " ++ action ++ lit " with CALLERROR " ++ ErrorCode.as_str code ++ lit ": " ++ description
  | CsmsError.InvalidRequest action reason => lit "invalid " ++ action ++ lit " request: " ++ reason
  | CsmsError.InvalidResponse station action reason =>
      lit "invalid " ++ action ++ lit " response from " ++ station ++ lit ": " ++ reason
  end.

(** The fields of an answer with the [id] of the request. *)
Definition add_tag (fields : list (str * json)) (tag : option json) : json :=
  object (fields ++ optional (lit "id") (fun v => v) tag).
Definition or_null (text : option str) : json := match text with Some t => String t | None => Null end.
Definition failure (tag : option json) (station action : option str) (error : str) : json :=
  add_tag [(lit "type", String (lit "result")); (lit "station", or_null station); (lit "action", or_null action);
           (lit "ok", Bool false); (lit "error", String error)] tag.
Definition stations s (tag : option json) : json :=
  add_tag [(lit "type", String (lit "stations"));
           (lit "stations", Array (map (fun e =>
                                             let info := StationRec.info e.2 in
                                             station_summary info (StationRec.state <$> CsmsServer.get s (StationInfo.id info)))
                                     (btree_iter (Server.stations s))))] tag.
Definition text_field (key : str) (request : list (str * json)) : option str :=
  let? text := field key request ≫= as_str in if text == [] then None else Some text.
(** The answer to a CALL. *)
Definition answered (tag : option json) (station action : str) (r : result Frame.Frame.t CsmsError.t) : json :=
  let common := [(lit "type", String (lit "result")); (lit "station", String station); (lit "action", String action)] in
  match r with
  | Ok (Frame.Frame.CallResult _ payload) => add_tag (common ++ [(lit "ok", Bool true); (lit "result", payload)]) tag
  | Ok (Frame.Frame.CallError _ code description details) =>
      add_tag (common ++ [(lit "ok", Bool false);
                          (lit "error", String (lit "CALLERROR " ++ ErrorCode.as_str code ++ lit ": " ++ description));
                          (lit "code", String (ErrorCode.as_str code)); (lit "details", details)]) tag
  | Ok (Frame.Frame.Call _ _ _) => failure tag (Some station) (Some action) (lit "unexpected CALL as an answer")
  | Err e => failure tag (Some station) (Some action) (error_text e)
  end.
(** [timeout_ms]: not given, a number of milliseconds in the range, or refused. *)
Definition timeout_of (request : list (str * json)) : option (option Duration) :=
  match field (lit "timeout_ms") request with
  | None => Some None
  | Some v =>
      let? ms := as_u64 v in
      if (1 <=? ms) && (ms <=? MAX_TIMEOUT_MS) then Some (Some (ms * NS_PER_MS)) else None
  end.
(** Executes one input line; the line to print. *)
Definition handle_line s (line : str) (x : Exchange) : Server.t * json :=
  match json_from_str line with
  | Err error => (s, failure None None None (lit "invalid JSON: " ++ json_error_text error))
  | Ok (Object request) =>
      let tag := field (lit "id") request in
      match field (lit "cmd") request with
      | Some cmd =>
          (s, if is_some_and (fun c => c == lit "stations") (as_str cmd) then stations s tag
              else failure tag None None
                     (lit "unknown cmd " ++ json_to_string cmd ++ lit "; supported: " ++ [34] ++ lit "stations" ++ [34]))
      | None =>
          match text_field (lit "station") request, text_field (lit "action") request with
          | Some station, Some action =>
              let payload := default (Object []) (field (lit "payload") request) in
              match timeout_of request with
              | None => (s, failure tag (Some station) (Some action) (lit "`timeout_ms` must be 1..=86400000"))
              | Some timeout =>
                  let '(s, r) := match timeout with
                                 | Some timeout => CsmsTyped.call_timeout s station action payload timeout x
                                 | None => call s station action payload x
                                 end in
                  (s, answered tag station action r)
              end
          | station, action =>
              (s, failure tag station action (lit "needs string fields `station` and `action` (or `cmd`)"))
          end
      end
  | Ok _ => (s, failure None None None (lit "a command must be a JSON object"))
  end.

(** What is made of an input: an answer at once, nothing, or a task that executes the line. *)
Inductive Dispatch : Type := Answer (v : json) | Blank | Execute (line : str).
Definition dispatch (input : Input) : Dispatch :=
  match input with
  | TooLong => Answer (failure None None None (lit "line longer than " ++ to_string MAX_LINE_BYTES ++ lit " bytes, discarded"))
  | Line bytes =>
      match from_utf8 bytes with
      | None => Answer (failure None None None (lit "line is not valid UTF-8"))
      | Some line => if trim line == [] then Blank else Execute line
      end
  end.
End commands.

(** ** What the reading of lines is

    The bytes of the source up to its end or its failure, however they are cut. *)

Fixpoint stream (reads : list Read) : list byte * bool :=
  match reads with
  | [] | Got [] :: _ => ([], true)
  | Got chunk :: reads => (chunk ++ (stream reads).1, (stream reads).2)
  | Interrupted :: reads => stream reads
  | Broken :: _ => ([], false)
  end.
Definition item (limit : Z) (line : list byte) : Input := if limit <? len line then TooLong else Line line.
(** Every line with a newline counts; what is left at the end counts when it is not empty and the
    input has ended. *)
Fixpoint items (limit : Z) (ended : bool) (pieces : list (list byte)) : list Input :=
  match pieces with
  | [] => []
  | [rest] => if ended && negb (rest == []) then [item limit rest] else []
  | line :: pieces => item limit line :: items limit ended pieces
  end.
Definition lines_of (limit : Z) (input : list byte * bool) : list Input := items limit input.2 (split_on 10 input.1).
(** The items up to the first that is not accepted. *)
Fixpoint until_refused (accepts : nat -> bool) (k : nat) (l : list Input) : list Input :=
  match l with
  | [] => []
  | x :: l => x :: (if accepts k then until_refused accepts (S k) l else [])
  end.

(** Rounds that are left, at most. *)
Definition work (reads : list Read) : nat := fold_right (fun x n => match x with Got c => length c + n | _ => n end + 1)%nat 0%nat reads.
(** The part of the current line that has been read, of which the buffer keeps what is allowed. *)
Definition holds (limit : Z) (part : list byte) r : Prop :=
  (10 ∉ part) /\
  (if Reading.too_long r then limit < len part /\ Reading.line r = [] else Reading.line r = part /\ len part <= limit).

Lemma items_cons limit ended line pieces :
  pieces <> [] -> items limit ended (line :: pieces) = item limit line :: items limit ended pieces.
Proof. by destruct pieces. Qed.
Lemma lines_of_line limit part rest ended :
  10 ∉ part -> lines_of limit (part ++ 10 :: rest, ended) = item limit part :: lines_of limit (rest, ended).
Proof. intros Hp. unfold lines_of. cbn [fst snd]. rewrite split_on_app by done. apply items_cons, split_on_nonempty. Qed.
Lemma lines_of_rest limit part ended :
  10 ∉ part -> lines_of limit (part, ended) = if ended && negb (part == []) then [item limit part] else [].
Proof. intros Hp. unfold lines_of. cbn [fst snd]. by rewrite split_on_plain. Qed.
Lemma holds_item limit part r : holds limit part r -> (if Reading.too_long r then TooLong else Line (Reading.line r)) = item limit part.
Proof.
  intros [_ Hr]. unfold item. destruct (Reading.too_long r).
  - destruct Hr as [Hr _]. apply Z.ltb_lt in Hr. by rewrite Hr.
  - destruct Hr as [-> Hr]. apply Z.ltb_ge in Hr. by rewrite Hr.
Qed.

(** What is still to come, and how much work it is at most. *)
Definition ahead r : list byte * bool := (Reading.buffered r ++ (stream (Reading.reads r)).1, (stream (Reading.reads r)).2).
Definition after (part : list byte) (input : list byte * bool) : list byte * bool := (part ++ input.1, input.2).
Definition left_ r : nat := (length (Reading.buffered r) + work (Reading.reads r))%nat.
Definition same_line r r' : Prop := Reading.line r' = Reading.line r /\ Reading.too_long r' = Reading.too_long r.
Lemma holds_same limit part r r' : same_line r r' -> holds limit part r -> holds limit part r'.
Proof. unfold holds. by intros [-> ->]. Qed.
Lemma fill_buf_spec r :
  match fill_buf r with
  | (Chunk [], r') => ahead r = ([], true) /\ same_line r r'
  | (Chunk chunk, r') => Reading.buffered r' = chunk /\ ahead r' = ahead r /\ (left_ r' <= left_ r)%nat /\ same_line r r'
  | (Retry, r') => ahead r' = ahead r /\ (left_ r' < left_ r)%nat /\ same_line r r'
  | (Failed, r') => ahead r = ([], false)
  end.
Proof.
  destruct r as [buffered reads line too_long]. unfold fill_buf, ahead, left_, same_line. simpl.
  destruct buffered as [|b c]; simpl; [|done]. destruct reads as [|[[|b c]| |] reads]; simpl; try done.
  - repeat split; lia.
  - repeat split; lia.
Qed.
Lemma holds_absorb limit part more r :
  holds limit part r -> 10 ∉ more -> holds limit (part ++ more) (absorb limit more r).
Proof.
  intros [Hp Hr] Hm. split; [by rewrite elem_of_app; intros [?|?]|]. unfold absorb, len in *. rewrite length_app.
  destruct (Reading.too_long r) eqn:Ht; [rewrite Ht; destruct Hr as [H1 H2]; split; [lia|done]|].
  destruct Hr as [Hl Hr]. rewrite Hl. destruct (Z.ltb_spec limit (Z.of_nat (length part) + Z.of_nat (length more))); simpl.
  - split; [lia|done].
  - rewrite Ht, Hl. split; [done|lia].
Qed.
Lemma absorb_buffered limit part r : Reading.buffered (absorb limit part r) = Reading.buffered r /\ Reading.reads (absorb limit part r) = Reading.reads r.
Proof. unfold absorb. destruct (Reading.too_long r); [done|]. by destruct (limit <? _). Qed.
Lemma newline_at chunk i :
  position (fun b => b =? 10) chunk = Some i ->
  (10 ∉ take i chunk) /\ chunk = take i chunk ++ 10 :: drop (i + 1) chunk /\ length (take i chunk) = i.
Proof.
  intros Hp. pose proof (position_lt _ _ _ Hp) as Hl. apply position_Some in Hp as (x & Hx & Hb & Hn). apply Z.eqb_eq in Hb as ->.
  split; [|split].
  - intros (m & Hm)%list_elem_of_lookup. assert (Hlt : (m < i)%nat) by (apply lookup_lt_Some in Hm; rewrite length_take in Hm; lia).
    rewrite lookup_take_lt in Hm by done. by specialize (Hn m 10 Hlt Hm).
  - rewrite <- (take_drop_middle chunk i 10 Hx) at 1. by rewrite Nat.add_1_r.
  - rewrite length_take. lia.
Qed.
Lemma no_newline chunk : position (fun b => b =? 10) chunk = None -> 10 ∉ chunk.
Proof. rewrite position_None. intros Hn Hin%list_elem_of_In. by specialize (Hn 10 Hin). Qed.
Lemma round_spec limit part r :
  0 <= limit -> holds limit part r ->
  match round limit r with
  | Go r' => exists part', holds limit part' r' /\ after part' (ahead r') = after part (ahead r) /\ (left_ r' < left_ r)%nat
  | Send it r' => lines_of limit (after part (ahead r)) = it :: lines_of limit (ahead r') /\ holds limit [] r' /\ (left_ r' < left_ r)%nat
  | Return last => lines_of limit (after part (ahead r)) = match last with Some it => [it] | None => [] end
  end.
Proof.
  intros H0 Hh. unfold round. pose proof (fill_buf_spec r) as Hf. destruct (fill_buf r) as [[[|b c]| |] r1].
  - destruct Hf as (Ha & Hs). apply (holds_same _ _ _ _ Hs) in Hh. rewrite Ha. unfold after. cbn [fst snd]. rewrite app_nil_r, lines_of_rest by apply Hh.
    pose proof (holds_item _ _ _ Hh) as Hi. destruct Hh as [_ Hh]. destruct (Reading.too_long r1).
    + rewrite <- Hi. destruct part; [unfold len in Hh; simpl in Hh; lia|done].
    + destruct Hh as [<- _]. rewrite <- Hi. by destruct (Reading.line r1).
  - destruct Hf as (Hb & Ha & Hl & Hs). set (chunk := b :: c) in *. assert (Hc : (0 < length chunk)%nat) by (simpl; lia). clearbody chunk.
    rewrite <- Ha. apply (holds_same _ _ _ _ Hs) in Hh. destruct (position _ chunk) as [i|] eqn:Hp.
    + destruct (newline_at chunk i Hp) as (Hn & He & Hi). pose proof (holds_absorb limit part (take i chunk) r1 Hh Hn) as Hab.
      destruct (absorb_buffered limit (take i chunk) r1) as [Hbuf Hr]. rewrite Hi. simpl. split; [|split].
      * rewrite (holds_item limit (part ++ take i chunk)); [|exact Hab]. unfold after, ahead. cbn [fst snd].
        rewrite Hbuf, Hr, Hb. rewrite He at 1. rewrite <- app_assoc, app_assoc. cbn [app]. apply lines_of_line, Hab.
      * split; [apply not_elem_of_nil|]. unfold len. simpl. split; [done|lia].
      * unfold left_ in *. simpl. rewrite Hbuf, Hr, length_drop. rewrite Hb in *. pose proof (position_lt _ _ _ Hp). lia.
    + pose proof (holds_absorb limit part chunk r1 Hh (no_newline _ Hp)) as Hab. destruct (absorb_buffered limit chunk r1) as [Hbuf Hr].
      exists (part ++ chunk). split; [exact Hab|]. unfold after, ahead, left_ in *. simpl. rewrite Hbuf, Hr, Hb, Nat.add_0_r, drop_all in *.
      split; [by rewrite <- app_assoc|]. simpl. lia.
  - destruct Hf as (Ha & Hl & Hs). exists part. split; [by apply (holds_same _ _ _ _ Hs)|]. by rewrite Ha.
  - rewrite Hf. unfold after. cbn [fst snd]. rewrite app_nil_r, lines_of_rest by apply Hh. done.
Qed.
Lemma read_lines_from fuel limit accepts k part r :
  0 <= limit -> holds limit part r -> (left_ r < fuel)%nat ->
  read_lines fuel limit accepts k r = Some (until_refused accepts k (lines_of limit (after part (ahead r)))).
Proof.
  intros H0. revert k part r. induction fuel as [|fuel IH]; intros k part r Hh Hf; [lia|]. cbn [read_lines].
  pose proof (round_spec limit part r H0 Hh) as Hr. destruct (round limit r) as [r'|it r'|last].
  - destruct Hr as (part' & Hh' & Ha & Hl). rewrite <- Ha. apply IH; [done|lia].
  - destruct Hr as (He & Hh' & Hl). rewrite He. cbn [until_refused]. destruct (accepts k); [|done].
    rewrite (IH (S k) [] r') by (done || lia). unfold after. cbn [fst snd app]. by rewrite <- surjective_pairing.
  - rewrite Hr. destruct last; [|done]. simpl. by destruct (accepts k).
Qed.
Lemma round_bounded limit r :
  0 <= limit -> len (Reading.line r) <= limit ->
  match round limit r with Go r' | Send _ r' => len (Reading.line r') <= limit | Return _ => True end.
Proof.
  intros H0 Hl. unfold round. pose proof (fill_buf_spec r) as Hf. destruct (fill_buf r) as [[[|b c]| |] r1]; [done| |by destruct Hf as (_ & _ & -> & _)|done].
  destruct Hf as (_ & _ & _ & Hs & _). rewrite <- Hs in Hl. destruct (match position _ _ with Some _ => _ | None => _ end) as [part ended].
  destruct ended; simpl; [unfold len; simpl; lia|]. unfold absorb. destruct (Reading.too_long r1); [done|].
  destruct (Z.ltb_spec limit (len (Reading.line r1) + len part)); simpl; [unfold len; simpl; lia|]. unfold len in *. rewrite length_app. lia.
Qed.

(** Claim C29: reading lines does not depend on how the input is cut into chunks or interrupted. It
    ends; what it sends is every line of the input that ends with a newline, in order, and the
    rest after the last newline if it is not empty and the input has ended (not when reading
    failed); a line of more bytes than the limit is replaced by one note of that; nothing comes
    after an item the receiver refuses. It never keeps more than [limit] bytes of a line. *)
Theorem read_lines_spec limit accepts reads fuel :
  0 <= limit -> (work reads < fuel)%nat ->
  read_lines fuel limit accepts 0 (start reads) = Some (until_refused accepts 0 (lines_of limit (stream reads))) /\
  (forall r, len (Reading.line r) <= limit ->
     match round limit r with Go r' | Send _ r' => len (Reading.line r') <= limit | Return _ => True end).
Proof.
  intros H0 Hf. split; [|intros r; by apply round_bounded].
  rewrite (read_lines_from fuel limit accepts 0 [] (start reads)); [|done| |done].
  - unfold after, ahead. simpl. by rewrite <- surjective_pairing.
  - split; [apply not_elem_of_nil|]. split; [done|]. done.
Qed.
(** Two lines in three pieces, the second one too long, and a rest. *)
Definition sample_reads : list Read := [Got [104; 105]; Interrupted; Got [10; 97; 98; 99]; Got [100; 10; 120]].
Lemma read_lines_spec_witness :
  read_lines 20 3 (fun _ => true) 0 (start sample_reads) = Some [Line [104; 105]; TooLong; Line [120]].
Proof.
  destruct (read_lines_spec 3 (fun _ => true) sample_reads 20) as [H _]; [lia|simpl; lia|]. rewrite H. reflexivity.
Defined.

(** ** Answers *)

Section answers.
Context {J : SerdeJson} {T : JsonText} {W : CsmsState.CsmsWire} {F : CsmsFormat} {V : Schema.JsonSchema} {H : ConsoleText}.
Implicit Types (s : Server.t).

Lemma field_insert k key v fields : field k (insert key v fields) = if key == k then Some v else field k fields.
Proof.
  unfold field. induction fields as [|[k' w] fields IH]; cbn [insert]; [simpl; by destruct (key == k)|].
  destruct (k' == key) eqn:E; [apply (proj1 (eqb_true _ _)) in E as ->; simpl; by destruct (key == k)|].
  destruct (str_leb key k'); simpl; [by destruct (key == k)|].
  destruct (k' == k) eqn:Ek; [|exact IH]. apply (proj1 (eqb_true _ _)) in Ek as ->. destruct (key == k) eqn:E'; [|done].
  apply (proj1 (eqb_true _ _)) in E' as ->. by rewrite eqb_refl in E.
Qed.
(** A field of an object that is built from entries: the last entry with the key. *)
Definition entry (k : str) (entries : list (str * json)) (before : option json) : option json :=
  fold_left (fun found '(key, v) => if key == k then Some v else found) entries before.
Lemma field_entries k entries fields :
  field k (fold_left (fun fields '(key, v) => insert key v fields) entries fields) = entry k entries (field k fields).
Proof.
  unfold entry. revert fields. induction entries as [|[key v] entries IH]; intros fields; [done|]. simpl. by rewrite IH, field_insert.
Qed.
(** A field of an answer. *)
Definition get (k : str) (v : json) : option json := match v with Object fields => field k fields | _ => None end.
Lemma get_answer k fields tag :
  get k (add_tag fields tag) = if lit "id" == k then option_or tag (entry k fields None) else entry k fields None.
Proof.
  unfold add_tag, object, get. rewrite field_entries. unfold entry. rewrite fold_left_app. destruct tag; simpl; by destruct (lit "id" == k).
Qed.
Lemma failure_fields tag station action error :
  get (lit "id") (failure tag station action error) = tag /\ get (lit "ok") (failure tag station action error) = Some (Bool false).
Proof. unfold failure. rewrite !get_answer. by destruct tag. Qed.
Lemma stations_fields s tag : get (lit "id") (stations s tag) = tag /\ get (lit "ok") (stations s tag) = None.
Proof. unfold stations. rewrite !get_answer. by destruct tag. Qed.
(** The fields of the answer to a CALL. *)
Lemma answered_fields tag station action reply :
  let v := answered tag station action reply in
  get (lit "id") v = tag /\ get (lit "station") v = Some (String station) /\ get (lit "action") v = Some (String action) /\
  get (lit "ok") v = Some (Bool (match reply with Ok (Frame.Frame.CallResult _ _) => true | _ => false end)) /\
  get (lit "result") v = match reply with Ok (Frame.Frame.CallResult _ payload) => Some payload | _ => None end.
Proof.
  cbv zeta. unfold answered, failure. destruct reply as [[? ? ?|? ?|? ? ? ?]|?]; rewrite !get_answer; by destruct tag.
Qed.

(** The request a line is, if it is one for a CALL. *)
Definition asks (line : str) (request : list (str * json)) (station action : str) (timeout : option Duration) : Prop :=
  json_from_str line = Ok (Object request) /\ field (lit "cmd") request = None /\
  text_field (lit "station") request = Some station /\ text_field (lit "action") request = Some action /\
  timeout_of request = Some timeout.
(** What the CALL of a request does. *)
Definition performed s (request : list (str * json)) (station action : str) (timeout : option Duration) (x : Exchange) :=
  CsmsTyped.call_timeout s station action (default (Object []) (field (lit "payload") request))
    (default (CsmsConfig.call_timeout (Server.config s)) timeout) x.
Definition tag_of (line : str) : option json :=
  match json_from_str line with Ok (Object request) => field (lit "id") request | _ => None end.

(** Every line that is executed is answered for what it is. The answer carries the [id] of the
    request. Nothing is sent but for a request that names a station and an action and whose
    timeout is in range, and then exactly that CALL; the answer says [ok] exactly when the station
    answered it with a result, and holds that result. *)
Lemma command_answers s line x :
  get (lit "id") (handle_line s line x).2 = tag_of line /\
  (((handle_line s line x).1 = s /\ get (lit "ok") (handle_line s line x).2 <> Some (Bool true)) \/
   exists request station action timeout, asks line request station action timeout /\
     let '(s', reply) := performed s request station action timeout x in
     (handle_line s line x).1 = s' /\
     get (lit "ok") (handle_line s line x).2 = Some (Bool (match reply with Ok (Frame.Frame.CallResult _ _) => true | _ => false end)) /\
     get (lit "result") (handle_line s line x).2 = match reply with Ok (Frame.Frame.CallResult _ payload) => Some payload | _ => None end).
Proof.
  assert (Hfail : forall tag station action error, get (lit "ok") (failure tag station action error) <> Some (Bool true)).
  { intros. by rewrite (proj2 (failure_fields _ _ _ _)). }
  unfold handle_line, tag_of, asks, performed. destruct (json_from_str line) as [[| | | | |request]|error];
    try (split; [apply failure_fields|left; split; [done|apply Hfail]]).
  destruct (field (lit "cmd") request) as [cmd|] eqn:Hcmd.
  { cbn [fst snd]. destruct (is_some_and _ _).
    - split; [apply stations_fields|]. left. by rewrite (proj2 (stations_fields _ _)).
    - split; [apply failure_fields|left; split; [done|apply Hfail]]. }
  destruct (text_field (lit "station") request) as [station|] eqn:Hs; [|split; [apply failure_fields|left; split; [done|apply Hfail]]].
  destruct (text_field (lit "action") request) as [action|] eqn:Ha; [|split; [apply failure_fields|left; split; [done|apply Hfail]]].
  destruct (timeout_of request) as [timeout|] eqn:Ht; [|split; [apply failure_fields|left; split; [done|apply Hfail]]].
  assert (Hc : forall s0, match timeout with Some t => CsmsTyped.call_timeout s0 station action (default (Object []) (field (lit "payload") request)) t x
                         | None => call s0 station action (default (Object []) (field (lit "payload") request)) x end
               = performed s0 request station action timeout x) by (intros; by destruct timeout).
  rewrite Hc. unfold performed in *. destruct (CsmsTyped.call_timeout _ _ _ _ _ _) as [s' reply] eqn:Hp. cbn [fst snd].
  destruct (answered_fields (field (lit "id") request) station action reply) as (H1 & H2 & H3 & H4 & H5).
  split; [done|]. right. exists request, station, action, timeout. split; [done|]. by rewrite Hp.
Qed.
End answers.
End Stdin.
